(* ===== verification/_CoqProject ===== *)
-Q . S2P
Prelude.v
SlotTable.v
Wire.v
Digest.v
Base64.v
WitnessRecord.v
WitnessMerkle.v
WitnessProof.v
WitnessCheckpoint.v
WitnessVerify.v
WitnessExport.v
WitnessOffline.v
OfflineStream.v
OfflineVerdict.v
TurnState.v
TurnKnowledge.v
TurnEffect.v
LoginThrottle.v
MutationBudget.v
KekCache.v
RuntimeSecret.v
ResealReceipt.v
Principal.v
VaultCapability.v
Auth.v
Endpoint.v
Http1.v
SseParser.v
EventStream.v
WormChain.v
Checks.v
Json.v
WfeDef.v
WfeCustom.v
WfeGraph.v
WfeValidate.v
WfeDeliver.v
WfeIface.v
WfeStore.v
WfeEngine.v
WfeRun.v
Sha256Impl.v
WfeApproval.v
WfeGate.v
WfeBinding.v
ToolEgress.v
WfeEnforce.v
NativeGate.v
WfeRouter.v
WfeIngress.v
ServerPolicy.v
HttpRequest.v
ManagementRequest.v
AuthToken.v
ReplayStore.v
WriteTier.v
ServerAuthz.v
ServerGate.v
CText.v
Guardrails.v
Rewrap.v
ResealRun.v
ResealPages.v
RewrapSql.v
RewrapStore.v
ResealCustody.v
CustodyFacts.v
ResealSafe.v
ResealWorld.v
ResealDrive.v
ResealOutcome.v
ResealVerdict.v
