(* ===== verification/Prelude.v ===== *)
(** * Verification of the aimee runtime's integrity and workflow core

    aimee is a local agent server: a C server and knowledge base with a vault
    for credentials, an audit log, model providers reached over the network
    and agents whose turns have effects.  This library models the parts of the
    C code its guarantees rest on and proves them.  It is a shallow embedding:
    a C function is a Rocq function with the same name, a struct a record, an
    enum an inductive type, static variables a record passed along, an error
    return a value.  Every definition is executable.

    ** The parts and how they fit

    - The vault keeps a witness log of its events.  A record
      ([vault_witness_record.c]) is hashed into a chain per shard; the heads
      of all shards are committed in a sparse Merkle tree
      ([vault_witness_merkle.c]) whose root is signed into a checkpoint
      ([vault_witness_checkpoint.c]); inclusion proofs travel in a wire form
      ([vault_witness_proof.c]); [vault_witness_verify.c] checks chains,
      inclusions and checkpoint runs.  All of it leaves the host in frames
      ([vault_witness_export.c]), and an offline verifier
      ([vault_witness_offline.c]) judges a captured stream of frames.
    - Who may open a vault is decided by the principal of a connection
      ([vault_principal.c]); its unlocked key lives in a bounded cache
      ([vault_kek_cache.c]); mutations of the vault run under a time budget
      ([vault_mutation_budget.c]).  Writing the shared vault takes a grant
      kept in a text file ([vault_capability.c]); secrets in use are held in a
      fixed table ([runtime_secret.c]); a change of the key leaves a receipt
      ([vault_reseal_receipt.c]).
    - The vault's own key is changed in three places at once.  A driver
      ([vault_reseal_orchestrator.c]) moves an operation from state to state:
      the stored procedures of [kb/c/schema.sql], reached through the
      operator's store ([vault_operator_rewrap_runtime.c]), keep the rows, the
      staged wraps and the state; the custody ([vault_custody_tpm2.c], with
      the guard of [vault_server_key.c]) keeps the key sealed to a counter of
      the TPM, prepares the new one, advances the counter and installs it.
    - A turn of an agent has a manifest with a state machine, the knowledge it
      was based on has epochs, and each tool call has an effect contract
      ([core/turn_integrity/turn_integrity.c]).
    - The login page throttles failures ([kb/kb_login_throttle.c]); the
      connection layer parses endpoints, credentials and HTTP/1 responses
      ([core/connection/*.c]); streamed model output arrives as event-stream
      lines ([sse_parser.c]) or AWS frames ([modules/aws/aws_eventstream.c]);
      the audit log chains its rows ([modules/audit/audit_worm_chain.c]).
    - Work goes through workflows ([modules/workflows/]).  A workflow is a
      graph of typed blocks read from JSON ([wfe_def.c]), some of them
      configured ([wfe_custom.c]), and is validated when loaded
      ([wfe_validate.c]).  The engine ([wfe_engine.c]) moves a work item along
      the graph: it looks its row up in the store ([db1_client/lifecycle.c]
      and the Go handlers of [families/lifecycle.go]), runs the executor of
      the node ([wfe_iface.c]) and records one outcome.  A person releases or
      rejects a gate over HTTP ([rh_workflow_gate] of
      [server_http_routes.c]); approvals are signed events
      ([wfe_approval.c], over the SHA-256 of [wfe_canonical.c]) that the
      delivery gate checks again ([wfe_deliver.c]).
    - A session bound to an item ([db1_client/workflow.c],
      [families/workflow_roadmap.go]) has its tool calls guarded before
      delivery: by the class of the tool ([tool_egress.c],
      [wfe_externalization.c]), by the dispatch guard ([wfe_enforce.c],
      [wfe_block_resolve.c]) and, for an external agent, by a hook that scans
      shell commands ([wfe_native_gate.c], [s2_native_gate_hook.c]).
    - Which workflow a message goes to is decided by a router over a catalog
      loaded from a directory ([wfe_router.c], [wfe_router_catalog.c]); the
      ingress binds a session to an item of an enforced workflow
      ([wfe_bind_ingress.c]), and an autonomous submission is clamped to
      workflows that end in a delivery gate ([wfe_autonomous_route.c],
      [router_advise.c], [server-go/modules/workflows/autonomous.go]).
    - Every request to the server passes one gate ([handle_conn_impl] of
      [server_http.c]) before it is dispatched.  It reads the request and its
      headers, checks the framing ([server_http_keepalive.c]) or, on the
      management lane, a stricter grammar ([server_http_management.c]), the
      client certificate, a signed identity token ([auth_token_verify.c]) and
      the write tier it gives on this server ([server_write_tier.c],
      [server_write_tier_db1.c], [server_runtime_identity.c]), the bearer or
      device token ([server_bearer_auth.c], [server_http_identity.c]), the
      rate limit ([server_http_response.c]), and the capabilities the route
      asks for ([server_http_authz.c], the table of [server_http_routes.c],
      the method registry of [server_auth.c]); last, the token is spent in a
      store of used ids ([jti_replay_consume.c], [families/jti_replay.go]).
    - Before a tool touches a file or runs a command the guardrails look at it
      ([modules/guardrails/guardrails.c]): which paths are sensitive, what a
      path means once its dots and links are resolved, which shell commands
      write, and whether generated C has a broken string.

    ** Files

    - [Prelude]: C integers, strings, decimal and big-endian text, tactics,
      hints.  [SlotTable]: fixed slot arrays as finite maps, shared by the
      components that keep one.
    - [Wire] (class [Sha256]: what is relied on of OpenSSL's digest), [Digest]
      ([aimee_sha256.c]), [WitnessRecord], [WitnessMerkle], [WitnessProof],
      [WitnessCheckpoint] (class [Ed25519]), [WitnessVerify]: the witness log.
      [WitnessExport], [WitnessOffline] (class [Qsort]: what the C library
      promises of its sort): frames and the offline verifier; [OfflineStream],
      [OfflineVerdict]: the theorems on its parser and on its verdict.
    - [Base64]: [core/codec/base64.c].
    - [TurnState], [TurnKnowledge], [TurnEffect]: the three components of
      [turn_integrity.c].
    - [LoginThrottle], [MutationBudget], [KekCache], [RuntimeSecret],
      [ResealReceipt], [Principal], [VaultCapability], [Auth], [Endpoint], [Http1], [SseParser], [EventStream], [WormChain]: the files
      named above.
    - The key change: [Rewrap] (the data exchanged, the tables of operations
      as records, the monad of stateful code with its triples), [ResealRun]
      (the driver over any two tables), [ResealPages] (its loops end),
      [RewrapSql] and [RewrapStore] (the procedures and the store),
      [ResealCustody] (the custody; classes [Tpm2] and [KeyWrap]: what is
      relied on of the TPM and of OpenSSL), [CustodyFacts] (what each custody
      call leaves), [ResealSafe] (the invariant of database and custody, kept
      by every statement), [ResealWorld] (the parties as one state),
      [ResealDrive] (every edge keeps the invariant), [ResealOutcome] (rounds,
      calls, and sequences of calls and restarts), [ResealVerdict] (the
      theorems, and a small vault that is run).
    - [Checks]: the first-error combinators of the validators.  [Json]: the
      tree a JSON or YAML reader yields and the accessors the code uses.
    - [WfeDef], [WfeCustom], [WfeGraph], [WfeValidate]: definitions, configured
      blocks, paths in a workflow, the validator.  [WfeDeliver]: the check
      before delivery.  What their allocations answer is an argument.
    - [WfeIface]: the executor table and step results.  [WfeStore]: the
      handlers of the store, the client over a wire that may lose a request or
      a reply, and the class [WorkStore] of the operations the engine uses,
      without laws.  [WfeEngine]: the engine; [WfeRun]: its theorems, over
      every store of the class, told of the calls the engine makes to the
      executor and the store (recorded by the instance [traced_store]), and
      over the client in particular.
    - [Sha256Impl]: the SHA-256 of the workflow code against the definition
      of FIPS 180-4; it is an instance of the class [Sha256].  [WfeApproval],
      [WfeGate]: signed approvals and the gate endpoint.
    - [WfeBinding], [ToolEgress], [WfeEnforce], [NativeGate]: the bindings of
      sessions and the guards on tool calls, over any lookup of a binding.
      [WfeRouter], [WfeIngress]: routing and the bind of a session.
    - [ServerPolicy]: capabilities, method registry, route table.
      [HttpRequest], [ManagementRequest]: requests of the two listeners.
      [AuthToken]: signed tokens.  [ReplayStore]: used ids.  [WriteTier]: the
      write tier.  [ServerAuthz]: bearers, capabilities, rate limit.
      [ServerGate]: the gate that composes them, and runs of it.
    - [CText]: searches of C strings.  [Guardrails]: paths and commands.

    ** What the theorems show

    - Integrity of the log: two accepted chains with one head record the same
      events; an accepted inclusion names a committed head; the optimised root
      is the root of the full tree and its proofs verify; codecs accept
      canonical encodings only and invert each other; verification and
      continuity verdicts are characterised.  Nothing is assumed about SHA-256
      collisions: each theorem names the two messages that would have to
      collide.  Likewise for the rows and checkpoints of the audit chain.
    - The offline verifier returns a report for every stream; a clean report
      means unforked linked chains, a run of checkpoints signed by trusted
      keys, and proofs and snapshots that fit the signed roots, whatever order
      the sort gives equal items; continuity is reported OK exactly when each
      checkpoint names the one before it; a healthy stream is reported clean
      and counted however its frames are permuted and repeated.
    - State machines under every sequence of calls: a turn executes only after
      it was contracted and authorized, an effect succeeds only with its
      postcondition, events are announced in order.
    - Refinement of the slot tables to finite maps; isolation and lockout of
      the throttle; a cached key is returned only while it is granted; the
      secret table is a map.
    - The grant file is a set of principals under grants and revocations, an
      operation that fails leaves it alone, and a connection may write the
      shared vault only with the operator's bearer or a listed identity that
      it proved.
    - Identity and credentials: a principal determines the identity proved;
      the bearer grammar.
    - Parsers of untrusted bytes: exact acceptance, bounds of every read, one
      framing per HTTP response, independence of how a stream is cut, the CRC
      table against its bitwise definition, Base64 and receipt round trips.
    - Time budgets: exact allowance without overflow, ceilings that never
      move.
    - The key change: after any sequence of calls and restarts, in which any
      statement, commit, TPM call, write, allocation or clock reading may fail
      before or after it took effect or find its deadline passed, some key the
      TPM opens reads every secret, and a call that reports completion has
      completed, with every row under the key in place, as long as the ends of
      transactions are sent in time; with late ends both fail, as two runs
      show; and a failed statement stops the service of key changes until the
      process is started again.
    - Workflows: the validator accepts exactly the graphs that keep its rules.
      A call of the engine is one case of a table of what each answer of an
      executor makes it record, over any store; it records at most once, and
      with success exactly if it succeeds; in an accepted, enforced graph
      whose failing nodes have a way forward an item is recorded as accepted
      only after a delivery gate advanced, and it never leaves the graph; but
      with the client and handler of the repository no outcome is recorded.
      The delivery check decides whether every gate on a path to delivery was
      approved, when its memory is granted.
    - Approvals: one signature stands for one approval, a recorded approval is
      found, and a gate answers approved only with a signed approval in the
      log and never for a gate its workflow gives to a panel; rejections are
      bounded.
    - Guards: the exact condition under which a tool call is denied, for the
      dispatch guard, the delivery rule and the hook; a git invocation at a
      command position of a shell line is found.
    - Routing: a catalog that loads has one read-only default; a message is
      routed to a workflow that may write only if its word after use, cut at
      63 bytes, names it or the classifier did; sessions never share a work item; a session is bound and
      an autonomous run is started on an enforced workflow only by name.
    - Server access: what the ordinary listener serves over TCP carries a configured bearer or an
      accepted device token, has a certificate once they are required, and
      reaches a writing route only with a token verified for this server and
      spent by that very request or with the grant of its certificate; a
      token is served at most once whatever comes between and whichever
      transactions fail; the management lane is apart from the rest; an
      accepted token is one spelling of claims signed by the one key named
      for it, and good for one purpose; both framing checks leave one reading
      of a request; bearers match exactly; the write tier fails closed; the
      rate limit and the table of ids are bounded; the order of the route
      table matters for one path only.
    - Guardrails: the exact condition under which a path is let through; a
      command that evidently writes is seen whatever is quoted before it; an
      unresolved path is normalized to what its dots mean; the scanner of C
      text reports exactly the broken strings.
    - Where the code does not keep what its comments say, a theorem states
      what it does: the walk of the delivery check can leave its stack, and
      without memory for it the check passes unasked, a panel's gate can be
      approved when its workflow does not load, a bound on the event log hides approvals and rejections, the dispatch
      guard never acts because of how it calls the client, the offline verdict
      can depend on the order of equal checkpoints and does not compare record
      chains with signed heads, a revocation that cannot read the grant file
      reports success, a failed transaction of the operator's store is never
      rolled back and one whose end is late stays open, a first bind is taken for a failure by its caller, a
      long name after use is cut before it is looked up, the header lookup
      of the server reads on into the body, and the guardrails miss some
      redirections, trailing dots and templates.

    ** Bounds and fuel

    Loops that are not structural take fuel: one round more than there are
    bytes left for the parsers (frames are never empty), one round per record
    for the shards of a stream, [response_max] + 1 rounds for the HTTP reader,
    65 for doubling loops over 64-bit sizes, 20 digits for a decimal, 64
    rounds for the padding of a SHA-256 message, one round more than there are
    nodes for the depth of the validator's walk, 3n + 2 for the delivery
    check's stack walk, three levels of nesting for the shell scanner (its own limit), two rounds
    more than there are rows for the pages of a key change ([ResealPages]: more
    change nothing) and sixteen rounds for its driver (its own limit).  A loop
    that exhausts its fuel gives [None], and the theorems state that a result
    is returned.  Unsigned wrap-around is written out where a value can reach
    it; a signed time is a [Z] where the code's guards keep it in range.

    ** Not modelled

    Databases, files, sockets, TLS, OpenSSL (beyond the classes above),
    processes and the text of JSON and YAML (a component starts from the tree
    the reader yields).  Locks make each modelled call one atomic step; the
    thread interleavings are then the sequences of calls the theorems range
    over; the gate takes whole requests one at a time, and what the TLS layer,
    the certificate roster, the grant store and the clock answer belongs to
    the request.  Allocation is assumed to succeed except where a component takes its
    outcome as a parameter.  Of the workflow code, block executors are
    parameters: they run models, git and processes; the loader that turns a
    workflow's name into a validated definition is one too.  The larger
    unmodelled parts (the handlers behind the server's gate, knowledge-base ranking, provider
    translation, workspaces) are mostly glue over those.  Of the key change,
    what fails is a list of numbers each party takes from, a crash is failing
    from some point on and then a restart, statements run alone, a reported
    rename is kept, and the driver has one caller at a time; not modelled are
    the default store of [org_vault_rewrap.c], provisioning, the one-step
    reseal, the operator's direct calls and opening the vault again, so a
    completed change is the last one of a run.  The canonical form of a
    definition is the next candidate. *)

From Stdlib Require Import ZArith Lia String Ascii.
From stdpp Require Import base numbers list.

#[global] Open Scope Z_scope.

(** ** Machine integers

    A C integer of width [w] is a [Z]; the wrap-around of unsigned
    arithmetic is written with these functions. *)
Definition u8 (z : Z) : Z := z mod 2 ^ 8.
Definition u16 (z : Z) : Z := z mod 2 ^ 16.
Definition u32 (z : Z) : Z := z mod 2 ^ 32.
Definition u64 (z : Z) : Z := z mod 2 ^ 64.

Definition UINT64_MAX : Z := 2 ^ 64 - 1.
Definition SIZE_MAX : Z := 2 ^ 64 - 1.
Definition INT64_MAX : Z := 2 ^ 63 - 1.

(** ** Bytes and C strings

    A buffer is the list of its bytes.  A [char *] argument is the list of
    the bytes before the terminating NUL; where the code tests the pointer
    for NULL the argument is an [option]. *)
Abbreviation bytes := (list Z).

Definition is_byte (c : Z) : Prop := 0 <= c < 256.
Definition is_char (c : Z) : Prop := 1 <= c < 256.
Definition is_bytes (l : bytes) : Prop := Forall is_byte l.
Definition cstr (l : bytes) : Prop := Forall is_char l.

(** The bytes of a string literal of the source. *)
Fixpoint str (s : string) : bytes :=
  match s with
  | EmptyString => []
  | String c s' => Z.of_N (N_of_ascii c) :: str s'
  end.

Definition zlen (l : bytes) : Z := Z.of_nat (length l).

(** [memcmp(a, b, n) == 0] on two buffers of the same size, and
    [strcmp(a, b) == 0] on two C strings. *)
Definition bytes_eqb (a b : bytes) : bool := bool_decide (a = b).

(** [memchr(l, c, length l) != NULL]. *)
Definition has_byte (c : Z) (l : bytes) : bool := bool_decide (c ∈ l).

(** [snprintf(dst, cap, "%s", src)]: at most [cap - 1] bytes are kept. *)
Definition snprintf_s (cap : nat) (src : bytes) : bytes := take (cap - 1) src.

(** Lowering of ASCII upper case, as the connection code does it. *)
Definition ascii_lower (c : Z) : Z :=
  if (65 <=? c) && (c <=? 90) then c + 32 else c.

(** [snprintf("%llu")] of an unsigned 64-bit value: the decimal digits, most
    significant first (20 digits are enough for 2^64 - 1). *)
Fixpoint dec_loop (fuel : nat) (z : Z) (acc : bytes) : bytes :=
  match fuel with
  | O => acc
  | S fuel =>
      let acc := (48 + z mod 10) :: acc in
      if z <? 10 then acc else dec_loop fuel (z / 10) acc
  end.

Definition dec_u64 (z : Z) : bytes := dec_loop 20 z [].

(** ** Tactics *)

(** Split the boolean tests of a hypothesis or a goal into propositions. *)
Ltac bool_to_prop :=
  repeat match goal with
  | H : (_ && _)%bool = true |- _ => apply andb_true_iff in H as [? ?]
  | H : (_ || _)%bool = false |- _ => apply orb_false_iff in H as [? ?]
  | H : negb _ = true |- _ => apply negb_true_iff in H
  | H : negb _ = false |- _ => apply negb_false_iff in H
  | H : (_ <? _) = true |- _ => apply Z.ltb_lt in H
  | H : (_ <? _) = false |- _ => apply Z.ltb_ge in H
  | H : (_ <=? _) = true |- _ => apply Z.leb_le in H
  | H : (_ <=? _) = false |- _ => apply Z.leb_gt in H
  | H : (_ =? _) = true |- _ => apply Z.eqb_eq in H
  | H : (_ =? _) = false |- _ => apply Z.eqb_neq in H
  | H : bool_decide _ = true |- _ => apply bool_decide_eq_true in H
  | H : bool_decide _ = false |- _ => apply bool_decide_eq_false in H
  end.

(** Case analysis on the guards of a hypothesis [... = Some _], discarding
    the branches that return [None]. *)
Ltac guards_in H :=
  repeat (case_match; try discriminate H); simplify_eq H.

Create HintDb aimee.
Create Rewrite HintDb aimee.
#[export] Hint Resolve Nat2Z.is_nonneg : aimee.

(** ** Ranges *)

Lemma u8_range z : 0 <= u8 z < 256.
Proof. unfold u8. change 256 with (2 ^ 8). apply Z.mod_pos_bound. lia. Qed.

Lemma u64_range z : 0 <= u64 z < 2 ^ 64.
Proof. apply Z.mod_pos_bound. lia. Qed.

Lemma u8_small z : 0 <= z < 256 -> u8 z = z.
Proof. intros. unfold u8. apply Z.mod_small. lia. Qed.

Lemma u32_small z : 0 <= z < 2 ^ 32 -> u32 z = z.
Proof. intros. by apply Z.mod_small. Qed.

Lemma u64_small z : 0 <= z < 2 ^ 64 -> u64 z = z.
Proof. intros. by apply Z.mod_small. Qed.

Lemma zlen_nonneg l : 0 <= zlen l.
Proof. unfold zlen. lia. Qed.

Lemma zlen_app l k : zlen (l ++ k) = zlen l + zlen k.
Proof. unfold zlen. rewrite length_app. lia. Qed.

Lemma zlen_nil : zlen [] = 0.
Proof. done. Qed.

Lemma zlen_cons c l : zlen (c :: l) = 1 + zlen l.
Proof. unfold zlen. simpl. lia. Qed.

Lemma zlen_0 l : zlen l = 0 <-> l = [].
Proof. destruct l; unfold zlen; simpl; split; intros; [done..| lia | done]. Qed.

(** ** Bytes *)

Lemma bytes_eqb_true a b : bytes_eqb a b = true <-> a = b.
Proof. apply bool_decide_eq_true. Qed.

Lemma bytes_eqb_refl a : bytes_eqb a a = true.
Proof. by apply bytes_eqb_true. Qed.

Lemma bytes_eqb_false a b : bytes_eqb a b = false <-> a <> b.
Proof. apply bool_decide_eq_false. Qed.

Lemma is_bytes_app l k : is_bytes (l ++ k) <-> is_bytes l /\ is_bytes k.
Proof. apply Forall_app. Qed.

Lemma is_bytes_take n l : is_bytes l -> is_bytes (take n l).
Proof. apply Forall_take. Qed.

Lemma is_bytes_drop n l : is_bytes l -> is_bytes (drop n l).
Proof. apply Forall_drop. Qed.

Lemma cstr_is_bytes l : cstr l -> is_bytes l.
Proof. intros H. eapply Forall_impl; [exact H|]. unfold is_char, is_byte. intros; lia. Qed.

Lemma cstr_app l k : cstr (l ++ k) <-> cstr l /\ cstr k.
Proof. apply Forall_app. Qed.

Lemma cstr_no_nul l : cstr l -> has_byte 0 l = false.
Proof.
  intros Hl. apply bool_decide_eq_false. intros Hin.
  unfold cstr in Hl. rewrite Forall_forall in Hl. specialize (Hl 0 Hin). unfold is_char in Hl. lia.
Qed.

Lemma no_nul_cstr l : is_bytes l -> has_byte 0 l = false -> cstr l.
Proof.
  intros Hl Hn. apply bool_decide_eq_false in Hn. apply Forall_forall. intros x Hx.
  unfold is_bytes in Hl. rewrite Forall_forall in Hl. specialize (Hl x Hx). unfold is_byte, is_char in *.
  assert (x <> 0) by (intros ->; done). lia.
Qed.

Lemma is_bytes_str s : is_bytes (str s).
Proof.
  induction s as [|c s IH]; simpl; constructor; [|done].
  unfold is_byte. pose proof (N_ascii_bounded c). lia.
Qed.

#[export] Hint Resolve zlen_nonneg u8_range u64_range is_bytes_take is_bytes_drop
  cstr_is_bytes is_bytes_str bytes_eqb_refl : aimee.
#[export] Hint Rewrite zlen_app zlen_nil zlen_cons : aimee.

Lemma snprintf_s_fits cap s : (length s < cap)%nat -> snprintf_s cap s = s.
Proof. intros. apply take_ge. lia. Qed.

Lemma snprintf_s_length cap s : (0 < cap)%nat -> (length (snprintf_s cap s) < cap)%nat.
Proof. intros. unfold snprintf_s. rewrite length_take. lia. Qed.

Lemma snprintf_s_cstr cap s : cstr s -> cstr (snprintf_s cap s).
Proof. apply Forall_take. Qed.

Lemma snprintf_s_idemp cap s : snprintf_s cap (snprintf_s cap s) = snprintf_s cap s.
Proof. unfold snprintf_s. rewrite take_take. f_equal. lia. Qed.

(** A prefix of known length determines a concatenation. *)
Lemma app_inj_length {A} (l1 l2 k1 k2 : list A) :
  length l1 = length l2 -> l1 ++ k1 = l2 ++ k2 -> l1 = l2 /\ k1 = k2.
Proof. intros. by apply app_inj_1. Qed.

Lemma take_drop_app {A} (l k : list A) n :
  n = length l -> take n (l ++ k) = l /\ drop n (l ++ k) = k.
Proof. intros ->. by rewrite take_app_length, drop_app_length. Qed.

(** ** Shifts and masks as arithmetic

    The codecs below combine disjoint bit fields; these lemmas turn the
    bit operations into sums, quotients and remainders that [lia] decides. *)

Lemma lor_shiftl_add a b n :
  0 <= n -> 0 <= b < 2 ^ n -> Z.lor (Z.shiftl a n) b = a * 2 ^ n + b.
Proof.
  intros Hn Hb. rewrite <- Z.add_lor_land, Z.shiftl_mul_pow2 by done.
  cut (Z.land (a * 2 ^ n) b = 0); [intros ->; by rewrite Z.add_0_r|].
  apply Z.bits_inj'. intros i Hi. rewrite Z.land_spec, Z.bits_0.
  destruct (decide (i < n)).
  - by rewrite Z.mul_pow2_bits_low.
  - destruct (decide (b = 0)) as [->|]; [by rewrite Z.bits_0, andb_false_r|].
    rewrite (Z.bits_above_log2 b), andb_false_r; [done | lia |].
    apply Z.log2_lt_pow2; [lia|]. apply Z.lt_le_trans with (2 ^ n); [lia|].
    apply Z.pow_le_mono_r; lia.
Qed.

Lemma land_low_mod a n : 0 <= n -> Z.land a (2 ^ n - 1) = a mod 2 ^ n.
Proof. intros. rewrite <- Z.land_ones by done. f_equal. rewrite Z.ones_equiv. lia. Qed.

Lemma shiftr_div a n : 0 <= n -> Z.shiftr a n = a / 2 ^ n.
Proof. apply Z.shiftr_div_pow2. Qed.

(** ** Big-endian integers as byte lists

    [be_put n v] is the reference encoding the unrolled [put_u16],
    [put_u32] and [put_u64] of the sources are related to. *)
Fixpoint be_put (n : nat) (v : Z) : bytes :=
  match n with
  | O => []
  | S n' => u8 (Z.shiftr v (8 * Z.of_nat n')) :: be_put n' v
  end.

Definition be_get (l : bytes) : Z := fold_left (fun v b => v * 256 + b) l 0.

Lemma be_put_length n v : length (be_put n v) = n.
Proof. induction n; simpl; congruence. Qed.

Lemma be_put_is_bytes n v : is_bytes (be_put n v).
Proof. induction n; simpl; constructor; [apply u8_range | done]. Qed.

Lemma be_get_app l k : be_get (l ++ k) = be_get l * 256 ^ zlen k + be_get k.
Proof.
  unfold be_get. rewrite fold_left_app. generalize (fold_left (fun v b => v * 256 + b) l 0).
  induction k as [|b k IH] using rev_ind; intros a.
  - simpl. rewrite zlen_nil. lia.
  - rewrite !fold_left_app. simpl. rewrite IH, zlen_app, zlen_cons, zlen_nil.
    rewrite Z.pow_add_r by (unfold zlen; lia). change (256 ^ (1 + 0)) with 256. lia.
Qed.

Lemma be_get_cons b l : be_get (b :: l) = b * 256 ^ zlen l + be_get l.
Proof. change (b :: l) with ([b] ++ l). rewrite be_get_app. reflexivity. Qed.

Lemma be_get_range l : is_bytes l -> 0 <= be_get l < 256 ^ zlen l.
Proof.
  induction 1 as [|b l Hb Hl IH].
  - rewrite zlen_nil. unfold be_get. simpl. lia.
  - rewrite be_get_cons, zlen_cons, Z.pow_add_r, Z.pow_1_r by (unfold zlen; lia).
    unfold is_byte in Hb. nia.
Qed.

Lemma be_get_put_mod n v : 0 <= v -> be_get (be_put n v) = v mod 256 ^ Z.of_nat n.
Proof.
  intros Hv. induction n as [|n IH]; [cbn; by rewrite Z.mod_1_r|].
  cbn [be_put]. rewrite be_get_cons, IH. unfold zlen. rewrite be_put_length.
  unfold u8. rewrite shiftr_div by lia. rewrite Z.pow_mul_r by lia. change (2 ^ 8) with 256.
  replace (Z.of_nat (S n)) with (Z.of_nat n + 1) by lia.
  rewrite Z.pow_add_r, Z.pow_1_r by lia.
  rewrite (Z.rem_mul_r v (256 ^ Z.of_nat n) 256) by lia. lia.
Qed.

Lemma be_get_put n v : 0 <= v < 256 ^ Z.of_nat n -> be_get (be_put n v) = v.
Proof. intros. rewrite be_get_put_mod by lia. apply Z.mod_small. lia. Qed.

Lemma be_get_inj l k :
  is_bytes l -> is_bytes k -> length l = length k -> be_get l = be_get k -> l = k.
Proof.
  revert k. induction l as [|b l IH]; intros [|c k] Hl Hk Hlen Heq; try done.
  inversion_clear Hl; inversion_clear Hk. injection Hlen as Hlen.
  rewrite !be_get_cons in Heq. unfold zlen in Heq. rewrite Hlen in Heq.
  pose proof (be_get_range l ltac:(done)) as Rl. pose proof (be_get_range k ltac:(done)) as Rk.
  unfold zlen in Rl, Rk. rewrite Hlen in Rl.
  assert (b = c) by nia. subst c. f_equal. apply IH; [done..|]. lia.
Qed.

Lemma be_put_get l : is_bytes l -> be_put (length l) (be_get l) = l.
Proof.
  intros Hl. apply be_get_inj; [apply be_put_is_bytes | done | apply be_put_length |].
  apply be_get_put. by apply be_get_range.
Qed.

#[export] Hint Resolve be_put_is_bytes be_get_range : aimee.
#[export] Hint Rewrite be_put_length : aimee.

(** ** Finite checks

    A decidable fact about every value below a bound is checked by
    evaluating it on the whole range. *)
Lemma check_range (n : Z) (P : Z -> bool) :
  forallb P (seqZ 0 n) = true -> forall i, 0 <= i < n -> P i = true.
Proof.
  intros H i Hi. rewrite forallb_forall in H. apply H.
  apply list_elem_of_In, elem_of_seqZ. lia.
Qed.

Definition is_bytesb (l : bytes) : bool := forallb (fun c => (0 <=? c) && (c <? 256)) l.
Definition cstrb (l : bytes) : bool := forallb (fun c => (1 <=? c) && (c <? 256)) l.

Lemma is_bytesb_true l : is_bytesb l = true -> is_bytes l.
Proof.
  unfold is_bytesb. rewrite forallb_forall. intros H. apply Forall_forall. intros c Hc.
  apply list_elem_of_In, H in Hc. bool_to_prop. by split.
Qed.

Lemma cstrb_true l : cstrb l = true -> cstr l.
Proof.
  unfold cstrb. rewrite forallb_forall. intros H. apply Forall_forall. intros c Hc.
  apply list_elem_of_In, H in Hc. bool_to_prop. by split.
Qed.

Lemma cstrb_all ls : forallb cstrb ls = true -> Forall cstr ls.
Proof.
  rewrite forallb_forall. intros H. apply Forall_forall. intros l Hl.
  by apply cstrb_true, H, list_elem_of_In.
Qed.

Lemma Forall_check {A} (P : A -> Prop) (f : A -> bool) l :
  (forall x, f x = true -> P x) -> forallb f l = true -> Forall P l.
Proof.
  intros Hf. rewrite forallb_forall. intros H. apply Forall_forall. intros x Hx.
  by apply Hf, H, list_elem_of_In.
Qed.

Lemma filter_none {A} (P : A -> Prop) `{!forall x, Decision (P x)} (l : list A) :
  length (filter P l) = 0%nat <-> forall x, x ∈ l -> ~ P x.
Proof.
  rewrite length_zero_iff_nil. split; [intros E x Hx Hp; by eapply filter_nil_not_elem_of|].
  intros Hall. destruct (filter P l) as [|y k] eqn:E; [done|].
  assert (Hy : y ∈ filter P l) by (rewrite E; left). apply list_elem_of_filter in Hy as [Hp Hy].
  by destruct (Hall y Hy).
Qed.

(** [find] stops at the first element that satisfies the test. *)
Lemma find_split {A} (f : A -> bool) l a : find f l = Some a ->
  exists before after, l = before ++ a :: after /\ f a = true
    /\ Forall (fun b => f b = false) before.
Proof.
  induction l as [|x l IH]; cbn; [done|]. destruct (f x) eqn:E.
  - intros [= <-]. exists [], l. by split_and!.
  - intros Hf. destruct (IH Hf) as (b & r & -> & Ha & Hb).
    exists (x :: b), r. split_and!; [done..|]. by apply Forall_cons_2.
Qed.

Lemma find_split_eq {A} (f : A -> bool) before a after : f a = true ->
  Forall (fun b => f b = false) before -> find f (before ++ a :: after) = Some a.
Proof. intros Ha. induction 1 as [|x l Hx _ IH]; cbn; [by rewrite Ha | by rewrite Hx]. Qed.

(** The C string in a buffer: the bytes before the first NUL. *)
Fixpoint c_str (l : bytes) : bytes :=
  match l with
  | [] => []
  | c :: l => if c =? 0 then [] else c :: c_str l
  end.

Lemma c_str_id l : cstr l -> c_str l = l.
Proof.
  induction 1 as [|c l [Hc _] _ IH]; [done|]. cbn. rewrite (proj2 (Z.eqb_neq c 0)) by lia. by rewrite IH.
Qed.

Lemma c_str_cstr l : is_bytes l -> cstr (c_str l).
Proof.
  induction 1 as [|c l Hc _ IH]; [constructor|]. cbn. destruct (Z.eqb_spec c 0); [constructor|].
  constructor; [|done]. unfold is_byte, is_char in *. lia.
Qed.

(** Linear arithmetic with quotients and remainders by constants. *)
Ltac dm_lia := Z.to_euclidean_division_equations; lia.

(** Equality of two explicit lists, element by element. *)
Ltac list_eq tac := repeat (apply (f_equal2 (@cons Z)); [solve [tac]|]); try reflexivity.

(** ** Decimal numbers *)

Definition dec_value (l : bytes) : Z := fold_left (fun v c => v * 10 + (c - 48)) l 0.

Lemma dec_value_app l k v : fold_left (fun v c => v * 10 + (c - 48)) (l ++ k) v
  = fold_left (fun v c => v * 10 + (c - 48)) k (fold_left (fun v c => v * 10 + (c - 48)) l v).
Proof. apply fold_left_app. Qed.

Lemma dec_loop_acc fuel z acc : dec_loop fuel z acc = dec_loop fuel z [] ++ acc.
Proof.
  revert z acc. induction fuel as [|fuel IH]; intros z acc; [done|]. cbn [dec_loop].
  destruct (z <? 10); [done|]. rewrite IH, (IH _ [_]), <- app_assoc. done.
Qed.

Lemma dec_loop_value fuel z : 0 <= z < 10 ^ Z.of_nat fuel -> dec_value (dec_loop fuel z []) = z.
Proof.
  revert z. induction fuel as [|fuel IH]; intros z Hz.
  - change (10 ^ Z.of_nat 0) with 1 in Hz. unfold dec_value. cbn. lia.
  - replace (Z.of_nat (S fuel)) with (Z.of_nat fuel + 1) in Hz by lia.
    rewrite Z.pow_add_r in Hz by lia. change (10 ^ 1) with 10 in Hz.
    cbn [dec_loop]. destruct (Z.ltb_spec z 10).
    + unfold dec_value. cbn [fold_left]. rewrite Z.mod_small by lia. lia.
    + rewrite dec_loop_acc. unfold dec_value in *. rewrite fold_left_app, IH by dm_lia.
      cbn [fold_left]. dm_lia.
Qed.

Lemma dec_u64_inj a b : 0 <= a < 2 ^ 64 -> 0 <= b < 2 ^ 64 -> dec_u64 a = dec_u64 b -> a = b.
Proof.
  intros Ha Hb E. apply (f_equal dec_value) in E. unfold dec_u64 in E.
  rewrite !dec_loop_value in E; [done | change (10 ^ Z.of_nat 20) with (10 ^ 20); lia..].
Qed.

Lemma dec_loop_digits fuel z : 0 <= z -> Forall (fun c => 48 <= c <= 57) (dec_loop fuel z []).
Proof.
  revert z. induction fuel as [|fuel IH]; intros z Hz; cbn [dec_loop]; [constructor|].
  assert (48 <= 48 + z mod 10 <= 57) by dm_lia.
  destruct (z <? 10); [by apply Forall_cons_2|]. rewrite dec_loop_acc.
  apply Forall_app. split; [apply IH; dm_lia | by apply Forall_cons_2].
Qed.

Lemma dec_loop_nonempty fuel z : dec_loop (S fuel) z [] <> [].
Proof. cbn. destruct (z <? 10); [done|]. rewrite dec_loop_acc. by destruct (dec_loop fuel _ []). Qed.

Lemma dec_u64_length n : (length (dec_u64 n) <= 20)%nat.
Proof.
  unfold dec_u64. generalize 20%nat as f. intros f. revert n.
  induction f as [|f IH]; intros n; cbn [dec_loop length]; [lia|]. destruct (n <? 10); cbn [length]; [lia|].
  rewrite dec_loop_acc, length_app. cbn [length]. specialize (IH (n / 10)). lia.
Qed.
