(* ===== verification/SlotTable.v ===== *)
(** * Fixed-size slot tables

    Several components keep a fixed array of slots, each free or holding one
    key, and scan it linearly.  [slot_scan] is that loop; [abs] is the finite
    map the occupied slots stand for.  The lemmas say how the map changes
    when one slot is overwritten, for any slot type with an [entry]
    function; the components instantiate them. *)

From Stdlib Require Import ZArith Lia.
From stdpp Require Import base numbers option list gmap fin_maps.
From S2P Require Import Prelude.

Section slots.
Context {S K V : Type} `{Countable K} (entry : S -> option (K * V)).

Definition used (t : list S) : list (K * V) := omap entry t.
Definition abs (t : list S) : gmap K V := list_to_map (used t).
Definition distinct (t : list S) : Prop := NoDup (used t).*1.

Lemma used_cons s t : used (s :: t) = match entry s with Some e => e :: used t | None => used t end.
Proof. done. Qed.

Lemma used_split t i s : t !! i = Some s ->
  used t = used (take i t) ++ match entry s with Some e => [e] | None => [] end ++ used (drop (i + 1) t).
Proof.
  intros Hi. rewrite <- (take_drop_middle t i s Hi) at 1. unfold used. rewrite omap_app. f_equal.
  replace (i + 1)%nat with (Datatypes.S i) by lia. cbn. by destruct (entry s).
Qed.

Lemma used_insert t i s s' : t !! i = Some s ->
  used (<[i := s']> t)
  = used (take i t) ++ match entry s' with Some e => [e] | None => [] end ++ used (drop (i + 1) t).
Proof.
  intros Hi. rewrite insert_take_drop by (by eapply lookup_lt_Some).
  unfold used. rewrite omap_app. f_equal.
  replace (i + 1)%nat with (Datatypes.S i) by lia. cbn. by destruct (entry s').
Qed.

Lemma used_elem t k v : (k, v) ∈ used t <-> exists i s, t !! i = Some s /\ entry s = Some (k, v).
Proof.
  unfold used. rewrite list_elem_of_omap. split.
  - intros (s & Hs & E). apply list_elem_of_lookup in Hs as [i Hi]. eauto.
  - intros (i & s & Hi & E). exists s. split; [by eapply list_elem_of_lookup_2 | done].
Qed.

Lemma abs_lookup t i s k v : distinct t -> t !! i = Some s -> entry s = Some (k, v) ->
  abs t !! k = Some v.
Proof.
  intros Hd Hi E. apply elem_of_list_to_map; [done|]. apply used_elem. eauto.
Qed.

Lemma abs_lookup_inv t k v : abs t !! k = Some v ->
  exists i s, t !! i = Some s /\ entry s = Some (k, v).
Proof. intros E. apply elem_of_list_to_map_2, used_elem in E. done. Qed.

Lemma abs_lookup_none t k :
  (forall i s v, t !! i = Some s -> entry s <> Some (k, v)) -> abs t !! k = None.
Proof.
  intros Hno. destruct (abs t !! k) as [v|] eqn:E; [|done].
  apply abs_lookup_inv in E as (i & s & Hi & E). by destruct (Hno i s v Hi E).
Qed.

(** Move the middle entry to the front. *)
Lemma front {A} (a b c : list A) : a ++ b ++ c ≡ₚ b ++ a ++ c.
Proof. by rewrite !app_assoc, (Permutation_app_comm a b). Qed.

Lemma abs_update t i s s' k v v' : distinct t -> t !! i = Some s ->
  entry s = Some (k, v) -> entry s' = Some (k, v') ->
  distinct (<[i := s']> t) /\ abs (<[i := s']> t) = <[k := v']> (abs t).
Proof.
  unfold distinct, abs. intros Hd Hi E E'. rewrite (used_insert _ _ _ _ Hi), E'.
  rewrite (used_split _ _ _ Hi), E in Hd |- *.
  set (l := used (take i t)) in *. set (r := used (drop (i + 1) t)) in *.
  assert (NoDup (l ++ [(k, v')] ++ r).*1) as Hd'
    by (revert Hd; by rewrite !fmap_app).
  split; [done|].
  rewrite (list_to_map_proper _ _ Hd' (front l [(k, v')] r)),
          (list_to_map_proper _ _ Hd (front l [(k, v)] r)). cbn. by rewrite insert_insert_eq.
Qed.

Lemma abs_fresh t i s s' k v : distinct t -> t !! i = Some s ->
  entry s = None -> abs t !! k = None -> entry s' = Some (k, v) ->
  distinct (<[i := s']> t) /\ abs (<[i := s']> t) = <[k := v]> (abs t).
Proof.
  unfold distinct, abs. intros Hd Hi E Hk E'. rewrite (used_insert _ _ _ _ Hi), E'.
  rewrite (used_split _ _ _ Hi), E in Hd, Hk |- *. cbn [app] in Hd, Hk.
  set (l := used (take i t)) in *. set (r := used (drop (i + 1) t)) in *.
  assert (NoDup (l ++ [(k, v)] ++ r).*1) as Hd'.
  { rewrite (front l [(k, v)] r). cbn. constructor; [|done].
    by apply not_elem_of_list_to_map_2. }
  split; [done|]. by rewrite (list_to_map_proper _ _ Hd' (front l [(k, v)] r)).
Qed.

Lemma abs_free t i s s' k v : distinct t -> t !! i = Some s ->
  entry s = Some (k, v) -> entry s' = None ->
  distinct (<[i := s']> t) /\ abs (<[i := s']> t) = delete k (abs t).
Proof.
  unfold distinct, abs. intros Hd Hi E E'. rewrite (used_insert _ _ _ _ Hi), E'.
  rewrite (used_split _ _ _ Hi), E in Hd |- *.
  set (l := used (take i t)) in *. set (r := used (drop (i + 1) t)) in *. cbn [app].
  rewrite (list_to_map_proper _ _ Hd (front l [(k, v)] r)).
  rewrite (front l [(k, v)] r) in Hd. cbn in Hd. inversion Hd as [|? ? Hk Hd']; subst.
  split; [done|]. cbn. rewrite delete_insert_id; [done|]. by apply not_elem_of_list_to_map_1.
Qed.

Lemma abs_size t : distinct t -> size (abs t) = length (used t).
Proof. intros Hd. by apply map_size_list_to_map. Qed.

Lemma used_length t : (length (used t) <= length t)%nat.
Proof.
  unfold used. induction t as [|s t IH]; cbn; [lia|]. destruct (entry s); cbn; lia.
Qed.

(** A pass that frees the entries a predicate rejects filters the map. *)
Lemma abs_retain (f : S -> S) (P : K * V -> Prop) `{!forall e, Decision (P e)} t :
  (forall s, entry (f s) = match entry s with
    | Some e => if decide (P e) then Some e else None | None => None end) ->
  distinct t -> distinct (map f t) /\ abs (map f t) = filter P (abs t).
Proof.
  intros Hf Hd.
  assert (used (map f t) = filter P (used t)) as E.
  { clear Hd. induction t as [|s t IH]; [done|]. rewrite map_cons, !used_cons, Hf.
    destruct (entry s) as [e|]; [|exact IH]. rewrite filter_cons.
    destruct (decide (P e)); [by f_equal | exact IH]. }
  assert (distinct (map f t)) as D.
  { unfold distinct. rewrite E. eapply sublist_NoDup; [exact Hd|]. apply fmap_sublist, sublist_filter. }
  split; [done|]. apply map_eq. intros k. apply option_eq. intros v.
  rewrite map_lookup_filter_Some. unfold abs. rewrite <- !elem_of_list_to_map by done.
  rewrite E, list_elem_of_filter. tauto.
Qed.

(** There is a free slot exactly when the map is smaller than the table. *)
Lemma free_slot_iff t : distinct t ->
  (exists i s, t !! i = Some s /\ entry s = None) <-> (size (abs t) < length t)%nat.
Proof.
  intros Hd. rewrite abs_size by done. clear Hd. unfold used.
  induction t as [|s t IH]; cbn; [split; [by intros (? & ? & ? & _) | lia]|].
  destruct (entry s) eqn:E; cbn.
  - rewrite <- Nat.succ_lt_mono, <- IH. split.
    + intros ([|i] & s' & Hi & E'); cbn in Hi; [congruence | eauto].
    + intros (i & s' & Hi & E'). by exists (Datatypes.S i), s'.
  - split; [intros _; pose proof (used_length t); unfold used in *; lia|]. intros _. by exists 0%nat, s.
Qed.

(** The loop over the slots: the first occupied slot the test accepts, and the
    first free slot before it. *)
Section scan.
Context (in_use matches : S -> bool).

Fixpoint slot_scan (i : nat) (free : option nat) (t : list S) : option nat * option nat :=
  match t with
  | [] => (None, free)
  | s :: rest =>
      if negb (in_use s)
      then slot_scan (Datatypes.S i) (match free with None => Some i | f => f end) rest
      else if matches s then (Some i, free)
      else slot_scan (Datatypes.S i) free rest
  end.

Lemma slot_scan_found t i free j f : slot_scan i free t = (Some j, f) ->
  exists n s, j = (i + n)%nat /\ t !! n = Some s /\ in_use s = true /\ matches s = true.
Proof.
  revert i free. induction t as [|s t IH]; cbn; intros i free; [done|].
  destruct (in_use s) eqn:Eu; cbn; [destruct (matches s) eqn:Em|].
  - intros [= <- <-]. exists 0%nat, s. split_and!; [lia|done..].
  - intros E. apply IH in E as (n & s' & -> & ?). exists (Datatypes.S n), s'. split; [lia|done].
  - intros E. apply IH in E as (n & s' & -> & ?). exists (Datatypes.S n), s'. split; [lia|done].
Qed.

Lemma slot_scan_missing t i free f : slot_scan i free t = (None, f) ->
  (forall n s, t !! n = Some s -> in_use s = true -> matches s = false)
  /\ match free with
     | Some g => f = Some g
     | None => match f with
               | Some g => exists n s, g = (i + n)%nat /\ t !! n = Some s /\ in_use s = false
               | None => forall n s, t !! n = Some s -> in_use s = true
               end
     end.
Proof.
  revert i free. induction t as [|s t IH]; cbn; intros i free.
  - intros [= ->]. split; [done|]. by destruct f.
  - destruct (in_use s) eqn:Eu; cbn; [destruct (matches s) eqn:Em; [done|]|].
    + intros E. apply IH in E as [H1 H2]. split.
      * intros [|n] s' Hn; cbn in Hn; [congruence | by apply (H1 n)].
      * destruct free; [done|]. destruct f as [g|].
        -- destruct H2 as (n & s' & -> & ?). exists (Datatypes.S n), s'. split; [lia|done].
        -- intros [|n] s' Hn; cbn in Hn; [congruence | by apply (H2 n)].
    + intros E. apply IH in E as [H1 H2]. split.
      * intros [|n] s' Hn; cbn in Hn; [congruence | by apply (H1 n)].
      * destruct free; [done|]. subst f. exists 0%nat, s. split; [lia|done].
Qed.

End scan.

End slots.
