(* ===== verification/Wire.v ===== *)
(** * Wire primitives of the witness formats

    Big-endian integers, length-prefixed text and the SHA-256 interface the
    vault witness modules share ([src/src/modules/vault/vault_witness_*.c]).
    A buffer under construction is the list of the bytes written so far (its
    length is the C offset); a read position is the rest of the buffer.
    Shown: the integer codecs invert each other, and a length-prefixed field
    can be cut off a message in one way only. *)

From Stdlib Require Import ZArith Lia String Ascii.
From stdpp Require Import base numbers option list.
From S2P Require Import Prelude.

(** ** SHA-256

    OpenSSL's SHA-256 is not part of the repository.  What the code relies
    on is its output format; nothing is assumed about collisions: the
    theorems name the two messages that would have to collide. *)
Class Sha256 := {
  sha256 : bytes -> bytes;
  sha256_length : forall m, length (sha256 m) = 32%nat;
  sha256_bytes : forall m, is_bytes (sha256 m)
}.

(** Two different messages with the same digest. *)
Definition collides `{Sha256} (x y : bytes) : Prop := x <> y /\ sha256 x = sha256 y.

(** A concrete instance to evaluate the definitions on. *)
Definition toy_sha256 (m : bytes) : bytes :=
  be_put 32 (fold_left (fun h b => (h * 257 + b + 1) mod 65521) m 1).

Lemma toy_sha256_length m : length (toy_sha256 m) = 32%nat.
Proof. apply be_put_length. Qed.

Lemma toy_sha256_bytes m : is_bytes (toy_sha256 m).
Proof. apply be_put_is_bytes. Qed.

Definition toy : Sha256 :=
  {| sha256 := toy_sha256; sha256_length := toy_sha256_length;
     sha256_bytes := toy_sha256_bytes |}.

(** ** Integers *)

Definition put_u16 (v : Z) : bytes := [u8 (Z.shiftr v 8); u8 v].

Definition put_u32 (v : Z) : bytes :=
  [u8 (Z.shiftr v 24); u8 (Z.shiftr v 16); u8 (Z.shiftr v 8); u8 v].

Definition put_u64 (v : Z) : bytes :=
  map (fun i => u8 (Z.shiftr v (56 - 8 * Z.of_nat i))) (seq 0 8).

(** [p[i]] of a buffer. *)
Definition at_ (p : bytes) (i : nat) : Z := nth i p 0.

Definition get_u16 (p : bytes) : Z := u16 (Z.lor (Z.shiftl (at_ p 0) 8) (at_ p 1)).

Definition get_u32 (p : bytes) : Z :=
  Z.lor (Z.lor (Z.lor (u32 (Z.shiftl (at_ p 0) 24)) (Z.shiftl (at_ p 1) 16))
               (Z.shiftl (at_ p 2) 8)) (at_ p 3).

Definition get_u64 (p : bytes) : Z :=
  fold_left (fun v i => Z.lor (u64 (Z.shiftl v 8)) (at_ p i)) (seq 0 8) 0.

(** [uint8_t any = 0; for (...) any |= p[i]; return any == 0;] *)
Definition all_zero (p : bytes) : bool := fold_left Z.lor p 0 =? 0.

(** ** Length-prefixed text *)

(** Append the length and the bytes of [s] to [buf]; [None] when it would
    run past [cap]. *)
Definition pack_text (cap : Z) (buf s : bytes) : option bytes :=
  if cap <? zlen buf + 4 + zlen s then None
  else Some (buf ++ put_u32 (u32 (zlen s)) ++ s).

Definition wire_put_str (cap : Z) (out s : bytes) : option bytes :=
  if (65535 <? zlen s) || (cap <? zlen out + 2 + zlen s) then None
  else Some (out ++ put_u16 (zlen s) ++ s).

(** Read a text field at offset [off]; the result is the text and the new
    offset. *)
Definition wire_get_str (wire : bytes) (off : nat) (cap : Z) : option (bytes * nat) :=
  if zlen wire <? Z.of_nat off + 2 then None
  else
    let len := Z.to_nat (get_u16 (drop off wire)) in
    let off := (off + 2)%nat in
    if (cap <? Z.of_nat len) || (zlen wire <? Z.of_nat off + Z.of_nat len) then None
    else
      let s := take len (drop off wire) in
      if has_byte 0 s then None else Some (s, (off + len)%nat).

(** A NUL-free C string of bounded length. *)
Definition str_ok (s : bytes) (cap mn : Z) : bool :=
  let n := Z.min (zlen s) (cap + 1) in
  (n <=? cap) && (mn <=? n).

#[global] Arguments put_u16 : simpl never.
#[global] Arguments put_u32 : simpl never.
#[global] Arguments put_u64 : simpl never.
#[global] Arguments get_u16 : simpl never.
#[global] Arguments get_u32 : simpl never.
#[global] Arguments get_u64 : simpl never.

(** ** Integer codec lemmas *)

Lemma put_u16_be v : put_u16 v = be_put 2 v.
Proof. reflexivity. Qed.

Lemma put_u32_be v : put_u32 v = be_put 4 v.
Proof. reflexivity. Qed.

Lemma put_u64_be v : put_u64 v = be_put 8 v.
Proof. reflexivity. Qed.

Lemma get_u16_be a b : is_byte a -> is_byte b -> forall r, get_u16 (a :: b :: r) = be_get [a; b].
Proof.
  unfold is_byte. intros Ha Hb r. unfold get_u16, at_, u16. cbn [nth].
  rewrite lor_shiftl_add by lia. unfold be_get. cbn. apply Z.mod_small. lia.
Qed.

Lemma lor_step v b n : is_byte b -> 0 <= v -> v * 256 < 2 ^ n ->
  Z.lor ((Z.shiftl v 8) mod 2 ^ n) b = v * 256 + b.
Proof.
  unfold is_byte. intros. rewrite Z.mod_small by (rewrite Z.shiftl_mul_pow2 by lia; lia).
  rewrite lor_shiftl_add by lia. done.
Qed.

Lemma get_u32_be a b c d r : is_bytes [a; b; c; d] ->
  get_u32 (a :: b :: c :: d :: r) = be_get [a; b; c; d].
Proof.
  unfold is_bytes. intros Hl. rewrite !Forall_cons in Hl. unfold is_byte in Hl.
  destruct Hl as (Ha & Hb & Hc & Hd & _).
  unfold get_u32, at_. cbn [nth].
  rewrite u32_small by (rewrite Z.shiftl_mul_pow2 by lia; lia).
  replace (Z.shiftl a 24) with (Z.shiftl (Z.shiftl a 8) 16) by by rewrite Z.shiftl_shiftl by lia.
  rewrite <- Z.shiftl_lor.
  replace (Z.shiftl (Z.lor (Z.shiftl a 8) b) 16)
    with (Z.shiftl (Z.shiftl (Z.lor (Z.shiftl a 8) b) 8) 8) by by rewrite Z.shiftl_shiftl by lia.
  rewrite <- Z.shiftl_lor. rewrite !lor_shiftl_add by lia. unfold be_get. cbn. lia.
Qed.

Lemma get_u64_be l r : length l = 8%nat -> is_bytes l -> get_u64 (l ++ r) = be_get l.
Proof.
  intros Hlen Hl. destruct l as [|a0 [|a1 [|a2 [|a3 [|a4 [|a5 [|a6 [|a7 [|]]]]]]]]]; try done.
  unfold is_bytes in Hl. rewrite !Forall_cons in Hl. unfold is_byte in Hl.
  unfold get_u64, at_, u64. cbn [seq fold_left nth app].
  unfold be_get. cbn [fold_left].
  rewrite (lor_step _ a0), (lor_step _ a1), (lor_step _ a2), (lor_step _ a3),
    (lor_step _ a4), (lor_step _ a5), (lor_step _ a6), (lor_step _ a7)
    by (unfold is_byte; lia). reflexivity.
Qed.

(** Each reader returns what the writer put at the read position. *)
Lemma get_put_u16 v r : 0 <= v < 2 ^ 16 -> get_u16 (put_u16 v ++ r) = v.
Proof.
  intros. unfold put_u16. cbn [app]. rewrite get_u16_be by apply u8_range.
  change [u8 (Z.shiftr v 8); u8 v] with (be_put 2 v). apply be_get_put. change (256 ^ Z.of_nat 2) with (2 ^ 16). lia.
Qed.

Lemma get_put_u32 v r : 0 <= v < 2 ^ 32 -> get_u32 (put_u32 v ++ r) = v.
Proof.
  intros. unfold put_u32. cbn [app]. rewrite get_u32_be by (repeat constructor; apply u8_range).
  change [u8 (Z.shiftr v 24); u8 (Z.shiftr v 16); u8 (Z.shiftr v 8); u8 v] with (be_put 4 v).
  apply be_get_put. change (256 ^ Z.of_nat 4) with (2 ^ 32). lia.
Qed.

Lemma get_put_u64 v r : 0 <= v < 2 ^ 64 -> get_u64 (put_u64 v ++ r) = v.
Proof.
  intros. rewrite put_u64_be, get_u64_be by (apply be_put_length || apply be_put_is_bytes).
  apply be_get_put. change (256 ^ Z.of_nat 8) with (2 ^ 64). lia.
Qed.

(** Each writer restores the bytes its reader consumed. *)
Lemma put_get_u16 l : is_bytes l -> (2 <= length l)%nat -> put_u16 (get_u16 l) = take 2 l.
Proof.
  intros Hl Hlen. destruct l as [|a [|b l]]; cbn in Hlen; [lia..|].
  unfold is_bytes in Hl. rewrite !Forall_cons in Hl. destruct Hl as (Ha & Hb & _).
  rewrite get_u16_be, put_u16_be by done. apply (be_put_get [a; b]).
  by repeat apply Forall_cons_2.
Qed.

Lemma put_get_u32 l : is_bytes l -> (4 <= length l)%nat -> put_u32 (get_u32 l) = take 4 l.
Proof.
  intros Hl Hlen. destruct l as [|a [|b [|c [|d l]]]]; cbn in Hlen; [lia..|].
  assert (is_bytes [a; b; c; d]) by (apply (is_bytes_take 4) in Hl; exact Hl).
  rewrite get_u32_be, put_u32_be by done. by apply (be_put_get [a; b; c; d]).
Qed.

Lemma put_get_u64 l : is_bytes l -> (8 <= length l)%nat -> put_u64 (get_u64 l) = take 8 l.
Proof.
  intros Hl Hlen. rewrite <- (take_drop 8 l) at 1.
  assert (length (take 8 l) = 8%nat) as H8 by (rewrite length_take; lia).
  rewrite get_u64_be, put_u64_be by auto with aimee.
  rewrite <- H8 at 1. apply be_put_get. auto with aimee.
Qed.

Lemma get_u16_range l : 0 <= get_u16 l < 2 ^ 16.
Proof. apply Z.mod_pos_bound. lia. Qed.

Lemma get_u64_range l : is_bytes l -> (8 <= length l)%nat -> 0 <= get_u64 l < 2 ^ 64.
Proof.
  intros Hl Hlen. rewrite <- (take_drop 8 l).
  rewrite get_u64_be by (rewrite ?length_take; auto with aimee; lia).
  pose proof (be_get_range (take 8 l) ltac:(auto with aimee)) as H.
  unfold zlen in H. rewrite length_take, Nat.min_l in H by lia. done.
Qed.

Lemma get_u32_range l : is_bytes l -> (4 <= length l)%nat -> 0 <= get_u32 l < 2 ^ 32.
Proof.
  intros Hl Hlen. destruct l as [|a [|b [|c [|d l]]]]; cbn in Hlen; [lia..|].
  assert (is_bytes [a; b; c; d]) by (apply (is_bytes_take 4) in Hl; exact Hl).
  rewrite get_u32_be by done. by apply be_get_range.
Qed.

Lemma put_u16_length v : length (put_u16 v) = 2%nat.
Proof. done. Qed.
Lemma put_u32_length v : length (put_u32 v) = 4%nat.
Proof. done. Qed.
Lemma put_u64_length v : length (put_u64 v) = 8%nat.
Proof. done. Qed.

Lemma put_u16_bytes v : is_bytes (put_u16 v).
Proof. rewrite put_u16_be. apply be_put_is_bytes. Qed.
Lemma put_u32_bytes v : is_bytes (put_u32 v).
Proof. rewrite put_u32_be. apply be_put_is_bytes. Qed.
Lemma put_u64_bytes v : is_bytes (put_u64 v).
Proof. rewrite put_u64_be. apply be_put_is_bytes. Qed.

Lemma put_u32_inj v w : 0 <= v < 2 ^ 32 -> 0 <= w < 2 ^ 32 -> put_u32 v = put_u32 w -> v = w.
Proof.
  intros Hv Hw E. rewrite <- (get_put_u32 v []), <- (get_put_u32 w []), E by done. done.
Qed.

Lemma put_u64_inj v w : 0 <= v < 2 ^ 64 -> 0 <= w < 2 ^ 64 -> put_u64 v = put_u64 w -> v = w.
Proof.
  intros Hv Hw E. rewrite <- (get_put_u64 v []), <- (get_put_u64 w []), E by done. done.
Qed.

#[export] Hint Resolve put_u16_bytes put_u32_bytes put_u64_bytes sha256_bytes
  toy_sha256_bytes : aimee.
#[export] Hint Rewrite put_u16_length put_u32_length put_u64_length : aimee.

(** ** Fields of a message *)

(** A length-prefixed field is determined by the message it starts. *)
Lemma text_field_inj a b x y : zlen a < 2 ^ 32 -> zlen b < 2 ^ 32 ->
  put_u32 (u32 (zlen a)) ++ a ++ x = put_u32 (u32 (zlen b)) ++ b ++ y -> a = b /\ x = y.
Proof.
  intros Ha Hb E. pose proof (zlen_nonneg a). pose proof (zlen_nonneg b).
  rewrite !u32_small in E by lia.
  apply app_inj_length in E as [El E]; [|done].
  apply put_u32_inj in El; [|lia..]. unfold zlen in El. apply app_inj_length in E; [done|lia].
Qed.

Lemma fixed_field_inj n (a b x y : bytes) :
  length a = n -> length b = n -> a ++ x = b ++ y -> a = b /\ x = y.
Proof. intros <- Hb. by apply app_inj_length. Qed.

Lemma u64_field_inj v w x y : 0 <= v < 2 ^ 64 -> 0 <= w < 2 ^ 64 ->
  put_u64 v ++ x = put_u64 w ++ y -> v = w /\ x = y.
Proof.
  intros Hv Hw E. apply app_inj_length in E as [E Ex]; [|done].
  split; [by apply put_u64_inj | done].
Qed.

Lemma str_ok_spec s cap mn : 0 <= cap ->
  str_ok s cap mn = true <-> mn <= zlen s <= cap.
Proof.
  intros. unfold str_ok. rewrite andb_true_iff, !Z.leb_le. lia.
Qed.

Lemma all_zero_spec l : is_bytes l -> all_zero l = true <-> l = replicate (length l) 0.
Proof.
  intros Hl. unfold all_zero. rewrite Z.eqb_eq.
  assert (forall a, 0 <= a -> fold_left Z.lor l a = 0 <-> a = 0 /\ l = replicate (length l) 0) as H.
  { induction Hl as [|b l Hb Hl IH]; intros a Ha; cbn; [intuition|].
    unfold is_byte in Hb. rewrite IH by (apply Z.lor_nonneg; lia).
    rewrite Z.lor_eq_0_iff. split; [intros [[-> ->] ->] | intros (-> & [= -> Hr])].
    - rewrite length_replicate. auto.
    - auto. }
  rewrite H by lia. intuition.
Qed.

Lemma wire_put_str_ok cap out s :
  zlen s <= 65535 -> zlen out + 2 + zlen s <= cap ->
  wire_put_str cap out s = Some (out ++ put_u16 (zlen s) ++ s).
Proof.
  intros. unfold wire_put_str.
  replace (65535 <? zlen s) with false by lia.
  by replace (cap <? zlen out + 2 + zlen s) with false by lia.
Qed.

Lemma wire_get_put_str pre s post cap :
  cstr s -> zlen s <= 65535 -> zlen s <= cap ->
  wire_get_str (pre ++ (put_u16 (zlen s) ++ s) ++ post) (length pre) cap
  = Some (s, length (pre ++ put_u16 (zlen s) ++ s)).
Proof.
  intros Hs Hmax Hcap. pose proof (zlen_nonneg s). pose proof (zlen_nonneg pre).
  pose proof (zlen_nonneg post). unfold wire_get_str.
  rewrite !zlen_app. change (zlen (put_u16 (zlen s))) with 2. fold (zlen pre).
  rewrite (proj2 (Z.ltb_ge _ (zlen pre + 2))) by lia.
  rewrite drop_app_length, <- app_assoc, get_put_u16 by lia.
  rewrite !Z2Nat.id, (proj2 (Z.ltb_ge cap _)) by lia. cbn [orb].
  rewrite (proj2 (Z.ltb_ge (zlen pre + _) _)) by (unfold zlen in *; lia).
  replace (length pre + 2)%nat with (length (pre ++ put_u16 (zlen s)))
    by by rewrite length_app.
  rewrite app_assoc, drop_app_length. unfold zlen at 1 2 3. rewrite Nat2Z.id, take_app_length.
  rewrite (cstr_no_nul s Hs). do 2 f_equal. unfold zlen. rewrite !length_app, Nat2Z.id. cbn. lia.
Qed.

(** A successful read consumed exactly the bytes [wire_put_str] writes. *)
Lemma wire_get_str_inv wire off cap s off' :
  is_bytes wire -> (off <= length wire)%nat -> wire_get_str wire off cap = Some (s, off') ->
  cstr s /\ zlen s <= cap /\ zlen s <= 65535 /\ (off' <= length wire)%nat
  /\ take off' wire = take off wire ++ put_u16 (zlen s) ++ s.
Proof.
  intros Hw Hoff. unfold wire_get_str.
  destruct (zlen wire <? _) eqn:E1; [done|]. destruct (_ || _) eqn:E2; [done|].
  case_match eqn:E3; [done|]. intros [= <- <-]. bool_to_prop.
  set (n := get_u16 (drop off wire)) in *.
  pose proof (get_u16_range (drop off wire)) as Hn. fold n in Hn. unfold zlen in *.
  assert (length (take (Z.to_nat n) (drop (off + 2) wire)) = Z.to_nat n) as Hl
    by (rewrite length_take, length_drop; lia).
  rewrite Hl. split_and!; try lia.
  - apply no_nul_cstr; auto with aimee.
  - rewrite Z2Nat.id by lia. unfold n. rewrite put_get_u16; auto with aimee;
      [| rewrite length_drop; lia]. fold n.
    by rewrite app_assoc, !take_take_drop.
Qed.

(** ** Reading at fixed offsets *)

Lemma drop_field {A} (a b : list A) n m :
  length a = m -> (m <= n)%nat -> drop n (a ++ b) = drop (n - m) b.
Proof. intros <- Hn. by apply drop_app_ge. Qed.

Lemma take_field {A} (a b : list A) n : length a = n -> take n (a ++ b) = a.
Proof. intros <-. apply take_app_length. Qed.

Lemma at_drop p i : at_ p i = at_ (drop i p) 0.
Proof. unfold at_. revert i. induction p as [|c p IH]; intros [|i]; cbn; auto. Qed.

Lemma take1_at p i : (i < length p)%nat -> take 1 (drop i p) = [at_ p i].
Proof.
  unfold at_. revert i. induction p as [|c p IH]; intros [|i] Hi; cbn in *; [lia..| by rewrite take_0|].
  apply IH. lia.
Qed.

Lemma at_byte p i : is_bytes p -> (i < length p)%nat -> is_byte (at_ p i).
Proof.
  intros Hp Hi. assert (is_bytes [at_ p i]) as Hb by (rewrite <- take1_at by done; auto with aimee).
  by inversion Hb.
Qed.

(** Move the read position over the leading fields of a message. *)
Ltac field_length :=
  first [ apply put_u16_length | apply put_u32_length | apply put_u64_length
        | eassumption | cbn; reflexivity ].
Ltac skip_fields :=
  repeat (erewrite drop_field; [| field_length | cbn; lia]; cbn [Nat.sub]);
  rewrite ?drop_0.
