(* ===== verification/Digest.v ===== *)
(** * Shared SHA-256 helpers ([src/src/aimee_sha256.c])

    The raw and the hexadecimal digest.  A NULL input hashes the empty string;
    [None] is the return value -1.  Shown: the hexadecimal form is 64
    lower-case digits and loses nothing of the digest. *)

From Stdlib Require Import ZArith Lia String Ascii.
From stdpp Require Import base numbers option list.
From S2P Require Import Prelude.
From S2P Require Import Wire.

(** [hx[v]] for a four-bit [v]. *)
Definition hex_digit (v : Z) : Z := nth (Z.to_nat v) (str "0123456789abcdef") 0.

Definition hex_byte (b : Z) : bytes := [hex_digit (Z.shiftr b 4); hex_digit (Z.land b 15)].

(** The loop [out_hex[2i] = hx[md[i] >> 4]; out_hex[2i+1] = hx[md[i] & 15]]. *)
Definition hex_bytes (md : bytes) : bytes := concat (map hex_byte md).

Definition aimee_sha256_raw `{Sha256} (data : option bytes) : option bytes :=
  Some (sha256 (default [] data)).

Definition aimee_sha256_hex `{Sha256} (data : option bytes) : option bytes :=
  md ← aimee_sha256_raw data; Some (hex_bytes md).

(** The value of a hexadecimal digit, to read the encoding back. *)
Definition hex_value (c : Z) : Z := if c <? 58 then c - 48 else c - 87.

Definition hex_read (l : bytes) : Z := 16 * hex_value (at_ l 0) + hex_value (at_ l 1).

Lemma hex_byte_read b : is_byte b -> hex_read (hex_byte b) = b.
Proof.
  intros Hb. apply Z.eqb_eq.
  apply (check_range 256 (fun b => hex_read (hex_byte b) =? b) ltac:(vm_compute; reflexivity) b Hb).
Qed.

Lemma hex_byte_inj a b : is_byte a -> is_byte b -> hex_byte a = hex_byte b -> a = b.
Proof. intros Ha Hb E. by rewrite <- (hex_byte_read a), <- (hex_byte_read b), E. Qed.

Lemma hex_bytes_length l : length (hex_bytes l) = (2 * length l)%nat.
Proof. unfold hex_bytes. induction l as [|b l IH]; [done|]. cbn in *. lia. Qed.

Lemma hex_bytes_inj l k : is_bytes l -> is_bytes k -> hex_bytes l = hex_bytes k -> l = k.
Proof.
  intros Hl. revert k. induction Hl as [|a l Ha Hl IH]; intros [|b k] Hk E; try done.
  inversion Hk as [|? ? Hb Hk']; subst. unfold hex_bytes in E. cbn [map concat] in E.
  apply app_inj_length in E as [E1 E2]; [|done].
  apply hex_byte_inj in E1 as ->; [|done..]. f_equal. by apply IH.
Qed.

(** Every digit is a printable ASCII character, so the text is a C string
    without line breaks. *)
Definition is_hex (c : Z) : Prop := 48 <= c <= 57 \/ 97 <= c <= 102.

Lemma hex_bytes_hex l : is_bytes l -> Forall is_hex (hex_bytes l).
Proof.
  induction 1 as [|b l Hb Hl IH]; [constructor|]. unfold hex_bytes in *. cbn [map concat].
  apply Forall_app. split; [|done].
  assert (forallb (fun c => ((48 <=? c) && (c <=? 57)) || ((97 <=? c) && (c <=? 102))) (hex_byte b) = true) as Hc
    by (apply (check_range 256 (fun b => forallb (fun c => ((48 <=? c) && (c <=? 57))
          || ((97 <=? c) && (c <=? 102))) (hex_byte b)) ltac:(vm_compute; reflexivity) b Hb)).
  apply (Forall_check _ _ _) with (2 := Hc). intros c H. unfold is_hex. lia.
Qed.

(** Equal hexadecimal digests come from equal texts or from a collision. *)
Lemma sha256_hex_binds `{Sha256} x y h : aimee_sha256_hex (Some x) = Some h ->
  aimee_sha256_hex (Some y) = Some h -> x = y \/ collides x y.
Proof.
  unfold aimee_sha256_hex. cbn. intros [= <-] [= E]. apply hex_bytes_inj in E; [|apply sha256_bytes..].
  destruct (decide (x = y)); [by left | right]. by split.
Qed.
