(* ===== verification/Base64.v ===== *)
(** * Base64 codec ([src/src/core/codec/base64.c])

    The encoder and decoder of the core library: two alphabets, four
    decoding profiles.  The encoder is translated with its group of three
    bytes per iteration, the decoder with its bit accumulator; [None] is the
    C return value 0.  Shown: the canonical profiles decode what the encoder
    wrote and nothing else, within the capacity the caller declares. *)

From Stdlib Require Import ZArith Lia String Ascii.
From stdpp Require Import base numbers list.
From S2P Require Import Prelude.

Module Base64.

Inductive aimee_base64_variant_t := AIMEE_BASE64_STANDARD | AIMEE_BASE64_URL.

Inductive aimee_base64_profile_t :=
| AIMEE_BASE64_STANDARD_CANONICAL
| AIMEE_BASE64_URL_CANONICAL
| AIMEE_BASE64_STANDARD_TEXT_COMPAT
| AIMEE_BASE64_URL_COMPAT.

#[export] Instance variant_eq_dec : EqDecision aimee_base64_variant_t.
Proof. solve_decision. Defined.
#[export] Instance profile_eq_dec : EqDecision aimee_base64_profile_t.
Proof. solve_decision. Defined.

Definition STANDARD : bytes :=
  str "ABCDEFGHIJKLMNOPQRSTUVWXYZabcdefghijklmnopqrstuvwxyz0123456789+/".
Definition URL : bytes :=
  str "ABCDEFGHIJKLMNOPQRSTUVWXYZabcdefghijklmnopqrstuvwxyz0123456789-_".

Definition alphabet (v : aimee_base64_variant_t) : bytes :=
  match v with AIMEE_BASE64_URL => URL | AIMEE_BASE64_STANDARD => STANDARD end.

(** [alphabet[i]] for a six-bit index. *)
Definition letter (v : aimee_base64_variant_t) (i : Z) : Z :=
  nth (Z.to_nat i) (alphabet v) 0.

(** Output size with the terminating NUL; 0 when it does not fit a [size_t]. *)
Definition aimee_codec_base64_capacity (length : Z) (v : aimee_base64_variant_t) : Z :=
  let groups := length / 3 in
  let rem := length mod 3 in
  let tail :=
    if rem =? 0 then 0
    else match v with AIMEE_BASE64_URL => rem + 1 | AIMEE_BASE64_STANDARD => 4 end in
  if (SIZE_MAX - 1 - tail) / 4 <? groups then 0 else groups * 4 + tail + 1.

(** [else if (variant == AIMEE_BASE64_STANDARD) out[o++] = '=']. *)
Definition pad (v : aimee_base64_variant_t) : bytes :=
  match v with AIMEE_BASE64_STANDARD => [61] | AIMEE_BASE64_URL => [] end.

(** The body of the encoding loop, one group of up to three bytes a turn. *)
Fixpoint encode_loop (v : aimee_base64_variant_t) (l : bytes) : bytes :=
  match l with
  | [] => []
  | [a] =>
      let value := Z.shiftl a 16 in
      [letter v (Z.land (Z.shiftr value 18) 63); letter v (Z.land (Z.shiftr value 12) 63)]
        ++ pad v ++ pad v
  | [a; b] =>
      let value := Z.lor (Z.shiftl a 16) (Z.shiftl b 8) in
      [letter v (Z.land (Z.shiftr value 18) 63); letter v (Z.land (Z.shiftr value 12) 63);
       letter v (Z.land (Z.shiftr value 6) 63)]
        ++ pad v
  | a :: b :: c :: rest =>
      let value := Z.lor (Z.lor (Z.shiftl a 16) (Z.shiftl b 8)) c in
      [letter v (Z.land (Z.shiftr value 18) 63); letter v (Z.land (Z.shiftr value 12) 63);
       letter v (Z.land (Z.shiftr value 6) 63); letter v (Z.land value 63)]
        ++ encode_loop v rest
  end.

Definition aimee_codec_base64_encode (inp : bytes) (capacity : Z)
    (v : aimee_base64_variant_t) : option bytes :=
  let need := aimee_codec_base64_capacity (zlen inp) v in
  if (need =? 0) || (capacity <? need) then None else Some (encode_loop v inp).

(** The value of a letter, -1 when the byte is not in the alphabet. *)
Definition digit (c : Z) (url : bool) : Z :=
  if (65 <=? c) && (c <=? 90) then c - 65
  else if (97 <=? c) && (c <=? 122) then c - 97 + 26
  else if (48 <=? c) && (c <=? 57) then c - 48 + 52
  else if c =? (if url then 45 else 43) then 62
  else if c =? (if url then 95 else 47) then 63
  else -1.

Definition is_url (p : aimee_base64_profile_t) : bool :=
  match p with AIMEE_BASE64_URL_CANONICAL | AIMEE_BASE64_URL_COMPAT => true | _ => false end.

Definition is_strict (p : aimee_base64_profile_t) : bool :=
  match p with
  | AIMEE_BASE64_STANDARD_CANONICAL | AIMEE_BASE64_URL_CANONICAL => true
  | _ => false
  end.

Definition is_text_compat (p : aimee_base64_profile_t) : bool :=
  match p with AIMEE_BASE64_STANDARD_TEXT_COMPAT => true | _ => false end.

Definition is_space (c : Z) : bool := (c =? 10) || (c =? 13) || (c =? 32) || (c =? 9).

(** [if (data && in[data - 1] == '=') --data]. *)
Definition strip_pad (l : bytes) : bytes :=
  if bool_decide (last l = Some 61) then take (length l - 1) l else l.

(** The decoding loop; the state is the accumulator, its bit count and the
    bytes written so far. *)
Fixpoint decode_loop (p : aimee_base64_profile_t) (capacity : Z) (l : bytes)
    (acc bits : Z) (out : bytes) : option (Z * bytes) :=
  match l with
  | [] => Some (acc, out)
  | c :: rest =>
      if is_text_compat p && (c =? 61) then Some (acc, out)
      else if is_text_compat p && is_space c then decode_loop p capacity rest acc bits out
      else
        let value := digit c (is_url p) in
        if value <? 0 then None
        else
          let acc := Z.lor (u32 (Z.shiftl acc 6)) value in
          let bits := bits + 6 in
          if 8 <=? bits then
            let bits := bits - 8 in
            if zlen out =? capacity then None
            else decode_loop p capacity rest
                   (Z.land acc (if bits =? 0 then 0 else Z.shiftl 1 bits - 1)) bits
                   (out ++ [u8 (Z.shiftr acc bits)])
          else decode_loop p capacity rest acc bits out
  end.

Definition aimee_codec_base64_decode (inp : bytes) (capacity : Z)
    (p : aimee_base64_profile_t) : option bytes :=
  let length := zlen inp in
  let data :=
    match p with
    | AIMEE_BASE64_STANDARD_CANONICAL =>
        if negb (length mod 4 =? 0) then None else Some (strip_pad (strip_pad inp))
    | AIMEE_BASE64_URL_CANONICAL => if length mod 4 =? 1 then None else Some inp
    | _ => Some inp
    end in
  match data with
  | None => None
  | Some d =>
      match decode_loop p capacity d 0 0 [] with
      | None => None
      | Some (acc, out) => if is_strict p && negb (acc =? 0) then None else Some out
      end
  end.

(** The profile that inverts a variant. *)
Definition canonical (v : aimee_base64_variant_t) : aimee_base64_profile_t :=
  match v with
  | AIMEE_BASE64_STANDARD => AIMEE_BASE64_STANDARD_CANONICAL
  | AIMEE_BASE64_URL => AIMEE_BASE64_URL_CANONICAL
  end.

Definition url_of (v : aimee_base64_variant_t) : bool :=
  match v with AIMEE_BASE64_URL => true | AIMEE_BASE64_STANDARD => false end.

(** ** Letters and digits *)

Lemma letter_spec v i : 0 <= i < 64 ->
  digit (letter v i) (url_of v) = i /\ letter v i <> 61 /\ is_byte (letter v i).
Proof.
  intros Hi.
  pose proof (check_range 64 (fun i => (digit (letter v i) (url_of v) =? i)
    && negb (letter v i =? 61) && (0 <=? letter v i) && (letter v i <? 256))) as H.
  specialize (H ltac:(destruct v; vm_compute; reflexivity) i Hi). cbv beta in H.
  unfold is_byte. bool_to_prop. split_and!; first [done | lia].
Qed.

Lemma digit_spec v c : 0 <= c < 256 -> 0 <= digit c (url_of v) ->
  digit c (url_of v) < 64 /\ letter v (digit c (url_of v)) = c.
Proof.
  intros Hc Hd.
  pose proof (check_range 256 (fun c => (digit c (url_of v) <? 0) ||
    ((digit c (url_of v) <? 64) && (letter v (digit c (url_of v)) =? c)))) as H.
  specialize (H ltac:(destruct v; vm_compute; reflexivity) c Hc). cbv beta in H.
  apply orb_true_iff in H as [H|H]; bool_to_prop; lia.
Qed.

Lemma canonical_facts v :
  is_url (canonical v) = url_of v /\ is_text_compat (canonical v) = false
  /\ is_strict (canonical v) = true.
Proof. by destruct v. Qed.

(** ** The encoder by arithmetic on the group *)

Definition group3 (a b c : Z) : list Z :=
  [a / 4; (a mod 4) * 16 + b / 16; (b mod 16) * 4 + c / 64; c mod 64].

Lemma group_fields a b c : is_byte a -> is_byte b -> is_byte c ->
  let value := Z.lor (Z.lor (Z.shiftl a 16) (Z.shiftl b 8)) c in
  [Z.land (Z.shiftr value 18) 63; Z.land (Z.shiftr value 12) 63;
   Z.land (Z.shiftr value 6) 63; Z.land value 63] = group3 a b c.
Proof.
  unfold is_byte. intros Ha Hb Hc.
  change 63 with (2 ^ 6 - 1). rewrite !land_low_mod, !shiftr_div by lia.
  replace (Z.shiftl a 16) with (Z.shiftl (Z.shiftl a 8) 8) by by rewrite Z.shiftl_shiftl by lia.
  rewrite <- Z.shiftl_lor by lia.
  rewrite !lor_shiftl_add by lia. unfold group3.
  list_eq dm_lia.
Qed.

Lemma group3_range a b c : is_byte a -> is_byte b -> is_byte c ->
  Forall (fun d => 0 <= d < 64) (group3 a b c).
Proof. unfold is_byte, group3. intros. repeat constructor; dm_lia. Qed.

Lemma encode_quad v a b c rest : is_byte a -> is_byte b -> is_byte c ->
  encode_loop v (a :: b :: c :: rest) = map (letter v) (group3 a b c) ++ encode_loop v rest.
Proof.
  intros Ha Hb Hc. cbn [encode_loop]. cbv zeta.
  pose proof (group_fields a b c Ha Hb Hc) as Hg. cbv zeta in Hg. rewrite <- Hg. done.
Qed.

Lemma encode_one v a : is_byte a ->
  encode_loop v [a] = map (letter v) (take 2 (group3 a 0 0)) ++ pad v ++ pad v.
Proof.
  intros Ha. pose proof (group_fields a 0 0 Ha ltac:(unfold is_byte; lia) ltac:(unfold is_byte; lia)) as Hg.
  cbv zeta in Hg. rewrite Z.shiftl_0_l, !Z.lor_0_r in Hg. cbn [encode_loop]. rewrite <- Hg. done.
Qed.

Lemma encode_two v a b : is_byte a -> is_byte b ->
  encode_loop v [a; b] = map (letter v) (take 3 (group3 a b 0)) ++ pad v.
Proof.
  intros Ha Hb. pose proof (group_fields a b 0 Ha Hb ltac:(unfold is_byte; lia)) as Hg.
  cbv zeta in Hg. rewrite !Z.lor_0_r in Hg. cbn [encode_loop]. rewrite <- Hg. done.
Qed.

(** ** The decoder one letter at a time *)

Lemma decode_letter v cap d rest acc bits out :
  0 <= d < 64 -> 0 <= acc < 64 -> 0 <= bits ->
  decode_loop (canonical v) cap (letter v d :: rest) acc bits out =
  let acc := acc * 64 + d in
  if 8 <=? bits + 6 then
    if zlen out =? cap then None
    else decode_loop (canonical v) cap rest (acc mod 2 ^ (bits - 2)) (bits - 2)
           (out ++ [u8 (acc / 2 ^ (bits - 2))])
  else decode_loop (canonical v) cap rest acc (bits + 6) out.
Proof.
  intros Hd Hacc Hbits. destruct (canonical_facts v) as (Hu & Ht & _).
  destruct (letter_spec v d Hd) as (Hdig & _ & _).
  cbn [decode_loop]. rewrite Ht, Hu, Hdig. cbn [andb].
  replace (d <? 0) with false by lia.
  rewrite u32_small by (rewrite Z.shiftl_mul_pow2 by lia; lia).
  rewrite lor_shiftl_add by lia. change (2 ^ 6) with 64. cbv zeta.
  destruct (8 <=? bits + 6) eqn:E; [|done]. bool_to_prop.
  replace (bits + 6 - 8) with (bits - 2) by lia.
  rewrite shiftr_div by lia. case_match; [done|]. f_equal.
  rewrite Z.shiftl_1_l. destruct (Z.eqb_spec (bits - 2) 0) as [->|];
    [by rewrite Z.land_0_r, Z.mod_1_r|]. by rewrite land_low_mod by lia.
Qed.

(** Success leaves the output within the capacity and does not depend on
    how much of it is left over. *)
Lemma decode_loop_cap p cap l acc bits out a o :
  decode_loop p cap l acc bits out = Some (a, o) -> zlen out <= cap ->
  zlen o <= cap /\ forall cap', zlen o <= cap' ->
    decode_loop p cap' l acc bits out = Some (a, o) /\ zlen out <= zlen o.
Proof.
  revert acc bits out. induction l as [|c l IH]; intros acc bits out; cbn [decode_loop].
  - intros [= <- <-]. auto with lia.
  - case_match; [intros [= <- <-]; auto with lia|].
    case_match; [by apply IH|]. case_match; [done|].
    case_match; [|by apply IH].
    destruct (zlen out =? cap) eqn:E; [done|]. intros Hdec Hout. bool_to_prop.
    destruct (IH _ _ _ Hdec) as [Hlen Hany]; [rewrite zlen_app, zlen_cons, zlen_nil; lia|].
    split; [done|]. intros cap' Hc. destruct (Hany cap' Hc) as [Hd Hle].
    rewrite zlen_app, zlen_cons, zlen_nil in Hle.
    replace (zlen out =? cap') with false by lia. auto with lia.
Qed.

Lemma decode_fill v cap d rest out : 0 <= d < 64 ->
  decode_loop (canonical v) cap (letter v d :: rest) 0 0 out =
  decode_loop (canonical v) cap rest d 6 out.
Proof. intros. rewrite decode_letter by lia. cbv zeta. f_equal; lia. Qed.

Lemma decode_emit v cap d rest acc bits out :
  0 <= d < 64 -> 0 <= acc < 64 -> 2 <= bits -> zlen out < cap ->
  decode_loop (canonical v) cap (letter v d :: rest) acc bits out =
  decode_loop (canonical v) cap rest ((acc * 64 + d) mod 2 ^ (bits - 2)) (bits - 2)
    (out ++ [u8 ((acc * 64 + d) / 2 ^ (bits - 2))]).
Proof.
  intros. rewrite decode_letter by lia. cbv zeta.
  replace (8 <=? bits + 6) with true by lia. by replace (zlen out =? cap) with false by lia.
Qed.

Lemma decode_pair v cap d1 d2 rest out :
  0 <= d1 < 64 -> 0 <= d2 < 64 -> zlen out + 1 <= cap ->
  decode_loop (canonical v) cap (map (letter v) [d1; d2] ++ rest) 0 0 out =
  decode_loop (canonical v) cap rest (d2 mod 16) 4 (out ++ [d1 * 4 + d2 / 16]).
Proof.
  intros. cbn [map app]. rewrite decode_fill, decode_emit by lia.
  change (6 - 2) with 4. change (2 ^ 4) with 16. unfold u8.
  f_equal; [dm_lia|]. f_equal. list_eq dm_lia.
Qed.

Lemma decode_triple v cap d1 d2 d3 rest out :
  0 <= d1 < 64 -> 0 <= d2 < 64 -> 0 <= d3 < 64 -> zlen out + 2 <= cap ->
  decode_loop (canonical v) cap (map (letter v) [d1; d2; d3] ++ rest) 0 0 out =
  decode_loop (canonical v) cap rest (d3 mod 4) 2
    (out ++ [d1 * 4 + d2 / 16; (d2 mod 16) * 16 + d3 / 4]).
Proof.
  intros. change (map (letter v) [d1; d2; d3] ++ rest)
    with (map (letter v) [d1; d2] ++ letter v d3 :: rest).
  rewrite decode_pair by lia.
  rewrite decode_emit by (rewrite ?zlen_app, ?zlen_cons, ?zlen_nil; dm_lia).
  change (4 - 2) with 2. change (2 ^ 2) with 4. unfold u8.
  rewrite <- app_assoc. cbn [app]. f_equal; [dm_lia|]. f_equal. list_eq dm_lia.
Qed.

Lemma decode_quad v cap d1 d2 d3 d4 rest out :
  0 <= d1 < 64 -> 0 <= d2 < 64 -> 0 <= d3 < 64 -> 0 <= d4 < 64 -> zlen out + 3 <= cap ->
  decode_loop (canonical v) cap (map (letter v) [d1; d2; d3; d4] ++ rest) 0 0 out =
  decode_loop (canonical v) cap rest 0 0
    (out ++ [d1 * 4 + d2 / 16; (d2 mod 16) * 16 + d3 / 4; (d3 mod 4) * 64 + d4]).
Proof.
  intros. change (map (letter v) [d1; d2; d3; d4] ++ rest)
    with (map (letter v) [d1; d2; d3] ++ letter v d4 :: rest).
  rewrite decode_triple by lia.
  rewrite decode_emit by (rewrite ?zlen_app, ?zlen_cons, ?zlen_nil; dm_lia).
  change (2 - 2) with 0. change (2 ^ 0) with 1. unfold u8.
  rewrite <- app_assoc. cbn [app]. f_equal; [dm_lia|]. f_equal. list_eq dm_lia.
Qed.

(** ** Round trip *)

(** Induction three bytes at a time, following [encode_loop]. *)
Lemma bytes_ind3 (P : bytes -> Prop) :
  P [] -> (forall a, P [a]) -> (forall a b, P [a; b]) ->
  (forall a b c l, P l -> P (a :: b :: c :: l)) -> forall l, P l.
Proof.
  intros H0 H1 H2 H3 l. induction l as [l IH] using (induction_ltof1 _ (@length Z)).
  unfold ltof in IH. destruct l as [|a [|b [|c l]]]; auto. apply H3, IH. simpl. lia.
Qed.

Definition pads (v : aimee_base64_variant_t) (n : Z) : bytes :=
  match v with
  | AIMEE_BASE64_URL => []
  | AIMEE_BASE64_STANDARD => replicate (Z.to_nat ((- n) mod 3)) 61
  end.

(** The text is a run of letters that decodes to the input, then padding. *)
Lemma encode_shape v l : is_bytes l ->
  exists d, encode_loop v l = map (letter v) d ++ pads v (zlen l)
    /\ Forall (fun x => 0 <= x < 64) d
    /\ zlen d = zlen l + (zlen l + 2) / 3
    /\ (forall cap out, zlen out + zlen l <= cap ->
         decode_loop (canonical v) cap (map (letter v) d) 0 0 out = Some (0, out ++ l)).
Proof.
  induction l as [|a|a b|a b c l IH] using bytes_ind3; intros Hl.
  - exists []. split_and!; [by destruct v | done | done |]. intros. cbn. by rewrite app_nil_r.
  - inversion_clear Hl as [|? ? Ha _]. exists (take 2 (group3 a 0 0)). split_and!.
    + rewrite encode_one by done. by destruct v.
    + unfold is_byte in Ha. cbn. repeat constructor; dm_lia.
    + done.
    + intros cap out Hc. unfold is_byte in Ha. rewrite zlen_cons, zlen_nil in Hc.
      rewrite <- (app_nil_r (map _ _)). cbn [take group3].
      rewrite decode_pair by dm_lia. cbn [decode_loop]. f_equal.
      f_equal; [dm_lia|]. f_equal. list_eq dm_lia.
  - inversion_clear Hl as [|? ? Ha Hb']. inversion_clear Hb' as [|? ? Hb _].
    exists (take 3 (group3 a b 0)). unfold is_byte in Ha, Hb. split_and!.
    + rewrite encode_two by done. by destruct v.
    + cbn. repeat constructor; dm_lia.
    + done.
    + intros cap out Hc. rewrite !zlen_cons, zlen_nil in Hc.
      rewrite <- (app_nil_r (map _ _)). cbn [take group3].
      rewrite decode_triple by dm_lia. cbn [decode_loop]. f_equal.
      f_equal; [dm_lia|]. f_equal. list_eq dm_lia.
  - inversion_clear Hl as [|? ? Ha Hl']. inversion_clear Hl' as [|? ? Hb Hl].
    inversion_clear Hl as [|? ? Hc Hl']. destruct (IH Hl') as (d & He & Hd & Hn & Hdec).
    exists (group3 a b c ++ d). split_and!.
    + rewrite encode_quad, He, map_app, <- app_assoc by done. do 2 f_equal.
      rewrite !zlen_cons. destruct v; [|done]. cbn. do 2 f_equal. dm_lia.
    + apply Forall_app. split; [by apply group3_range | done].
    + rewrite zlen_app, Hn, !zlen_cons. change (zlen (group3 a b c)) with 4. dm_lia.
    + intros cap out Hcap. rewrite !zlen_cons in Hcap. pose proof (zlen_nonneg l).
      pose proof (group3_range a b c Ha Hb Hc) as Hg. unfold group3 in *.
      rewrite map_app. repeat (inversion_clear Hg as [|? ? ? Hg']; rename Hg' into Hg).
      rewrite decode_quad by lia. rewrite Hdec.
      * rewrite <- app_assoc. cbn [app]. do 3 f_equal. unfold is_byte in *. list_eq dm_lia.
      * rewrite zlen_app, !zlen_cons, zlen_nil. lia.
Qed.

Lemma strip_pad_snoc l : strip_pad (l ++ [61]) = l.
Proof.
  unfold strip_pad. rewrite last_snoc, bool_decide_true by done.
  rewrite length_app. cbn. rewrite Nat.add_sub. apply take_app_length.
Qed.

Lemma strip_pad_letters v d :
  Forall (fun x => 0 <= x < 64) d -> strip_pad (map (letter v) d) = map (letter v) d.
Proof.
  intros Hd. unfold strip_pad. case_bool_decide as H; [exfalso | done].
  destruct d as [|x d _] using rev_ind; [done|]. rewrite map_app in H. cbn in H.
  rewrite last_snoc in H. apply Forall_app in Hd as [_ Hx]. inversion_clear Hx as [|? ? Hx' _].
  injection H. by apply letter_spec.
Qed.

Lemma strip_pads d n :
  Forall (fun x => 0 <= x < 64) d ->
  strip_pad (strip_pad (map (letter AIMEE_BASE64_STANDARD) d ++ pads AIMEE_BASE64_STANDARD n))
  = map (letter AIMEE_BASE64_STANDARD) d.
Proof.
  intros Hd. unfold pads. pose proof (Z.mod_pos_bound (- n) 3 ltac:(lia)) as Hm.
  assert ((-n) mod 3 = 0 \/ (-n) mod 3 = 1 \/ (-n) mod 3 = 2) as [->|[->| ->]] by lia; cbn.
  - rewrite app_nil_r. by rewrite !strip_pad_letters.
  - by rewrite strip_pad_snoc, strip_pad_letters.
  - rewrite (app_assoc _ [61] [61] : _ ++ [61; 61] = _). by rewrite !strip_pad_snoc.
Qed.

Lemma zlen_map {A} (f : A -> Z) l : zlen (map f l) = Z.of_nat (length l).
Proof. unfold zlen. by rewrite length_map. Qed.

Lemma zlen_pads v n : zlen (pads v n) = if url_of v then 0 else (- n) mod 3.
Proof.
  destruct v; [|done]. unfold zlen. cbn. rewrite length_replicate. pose proof (Z.mod_pos_bound (- n) 3). lia.
Qed.

(** The declared capacity is the length of the text and its NUL. *)
Lemma encode_length v l : is_bytes l ->
  aimee_codec_base64_capacity (zlen l) v =
  if SIZE_MAX <? zlen (encode_loop v l) + 1 then 0 else zlen (encode_loop v l) + 1.
Proof.
  intros Hl. destruct (encode_shape v l Hl) as (d & -> & _ & Hn & _).
  rewrite zlen_app, zlen_map, zlen_pads. fold (zlen d). rewrite Hn.
  unfold aimee_codec_base64_capacity, SIZE_MAX. pose proof (zlen_nonneg l).
  destruct v; cbn [url_of]; destruct (Z.eqb_spec (zlen l mod 3) 0);
    repeat case_match; bool_to_prop; dm_lia.
Qed.

(** Decoding a run of letters gives bytes the encoder maps back to it. *)
Lemma decode_shape v d : Forall (fun x => 0 <= x < 64) d -> zlen d mod 4 <> 1 ->
  forall cap out a o, zlen out + zlen d <= cap ->
  decode_loop (canonical v) cap (map (letter v) d) 0 0 out = Some (a, o) -> a = 0 ->
  exists l, o = out ++ l /\ is_bytes l
    /\ encode_loop v l = map (letter v) d ++ pads v (zlen l)
    /\ zlen d = zlen l + (zlen l + 2) / 3.
Proof.
  induction d as [d IH] using (induction_ltof1 _ (@length Z)). unfold ltof in IH.
  intros Hd Hm cap out a o Hcap. unfold is_bytes, is_byte.
  destruct d as [|d1 [|d2 [|d3 [|d4 d]]]].
  - intros [= <- <-] _. exists []. rewrite app_nil_r. split_and!; [done..| by destruct v | done].
  - done.
  - intros Hdec ->. rewrite !zlen_cons, zlen_nil in Hcap. rewrite !Forall_cons in Hd.
    rewrite <- (app_nil_r (map _ _)), decode_pair in Hdec by lia. injection Hdec as Hz <-.
    eexists. split_and!; [done | repeat constructor; dm_lia | | done].
    rewrite encode_one by (unfold is_byte; dm_lia).
    replace (take 2 (group3 (d1 * 4 + d2 / 16) 0 0)) with [d1; d2]; [by destruct v|].
    cbn. list_eq dm_lia.
  - intros Hdec ->. rewrite !zlen_cons, zlen_nil in Hcap. rewrite !Forall_cons in Hd.
    rewrite <- (app_nil_r (map _ _)), decode_triple in Hdec by lia. injection Hdec as Hz <-.
    eexists. split_and!; [done | repeat constructor; dm_lia | | done].
    rewrite encode_two by (unfold is_byte; dm_lia).
    replace (take 3 (group3 _ _ 0)) with [d1; d2; d3]; [by destruct v|].
    cbn. list_eq dm_lia.
  - intros Hdec ->. rewrite !zlen_cons in Hcap, Hm. pose proof (zlen_nonneg d).
    rewrite !Forall_cons in Hd. destruct Hd as (R1 & R2 & R3 & R4 & Hd).
    change (map (letter v) (d1 :: d2 :: d3 :: d4 :: d))
      with (map (letter v) [d1; d2; d3; d4] ++ map (letter v) d) in *.
    rewrite decode_quad in Hdec by lia.
    eapply IH in Hdec as (l & -> & Hl & He & Hn); [| simpl; lia | done | dm_lia | | done].
    + eexists. rewrite <- app_assoc. split_and!; [done | | |].
      * repeat constructor; [dm_lia..| done].
      * cbn [app]. rewrite encode_quad, He by (unfold is_byte; dm_lia).
        rewrite app_assoc. f_equal.
        -- f_equal. unfold group3. cbn [map]. list_eq ltac:(f_equal; dm_lia).
        -- rewrite !zlen_cons. destruct v; [|done]. cbn. f_equal. f_equal. dm_lia.
      * cbn [app]. rewrite !zlen_cons, Hn. dm_lia.
    + rewrite zlen_app, !zlen_cons, zlen_nil. lia.
Qed.

Lemma decode_letters v cap l acc bits out r : is_bytes l ->
  decode_loop (canonical v) cap l acc bits out = Some r ->
  exists d, l = map (letter v) d /\ Forall (fun x => 0 <= x < 64) d.
Proof.
  destruct (canonical_facts v) as (Hu & Ht & _). intros Hl. revert acc bits out.
  induction Hl as [|c l Hc Hl IH]; intros acc bits out; cbn [decode_loop].
  - by exists [].
  - rewrite Ht, Hu. cbn [andb]. destruct (digit c (url_of v) <? 0) eqn:Hdig; [done|].
    bool_to_prop. destruct (digit_spec v c Hc Hdig) as [Hr Hlet]. intros Hdec.
    assert (exists d, l = map (letter v) d /\ Forall (fun x => 0 <= x < 64) d) as (d & -> & Hd).
    { repeat case_match; [done | by eapply IH..]. }
    exists (digit c (url_of v) :: d). cbn. rewrite Hlet. auto.
Qed.

(** What padding the canonical standard profile removes. *)
Lemma strip_pad_split l : exists n, (n <= 2)%nat /\ l = strip_pad (strip_pad l) ++ replicate n 61.
Proof.
  assert (forall l, exists n, (n <= 1)%nat /\ l = strip_pad l ++ replicate n 61) as H1.
  { intros k. destruct k as [|x k _] using rev_ind; [exists 0%nat; split; [lia | done]|].
    destruct (decide (x = 61)) as [->|Hx].
    - exists 1%nat. rewrite strip_pad_snoc. auto.
    - exists 0%nat. unfold strip_pad. rewrite last_snoc, bool_decide_false by congruence.
      rewrite app_nil_r. auto. }
  destruct (H1 l) as (n & Hn & E). destruct (H1 (strip_pad l)) as (m & Hm & E').
  exists (m + n)%nat. split; [lia|]. rewrite replicate_add, app_assoc. congruence.
Qed.

(** A canonical decode runs the loop on the text without its padding and
    ends with an empty accumulator. *)
Lemma decode_data v text cap l : is_bytes text ->
  aimee_codec_base64_decode text cap (canonical v) = Some l ->
  exists data k, text = data ++ k /\ is_bytes data /\ zlen data mod 4 <> 1
    /\ (forall n, zlen data = n + (n + 2) / 3 -> k = pads v n)
    /\ decode_loop (canonical v) cap data 0 0 [] = Some (0, l).
Proof.
  unfold aimee_codec_base64_decode. intros Ht Hdec.
  destruct (strip_pad_split text) as (n & Hn & Esp).
  assert (is_bytes (strip_pad (strip_pad text))) as Hb
    by (rewrite Esp in Ht; apply is_bytes_app in Ht; tauto).
  destruct v; cbn [canonical is_strict andb] in *.
  - destruct (Z.eqb_spec (zlen text mod 4) 0) as [Hz|]; [cbn [negb] in Hdec | done].
    assert (zlen text = zlen (strip_pad (strip_pad text)) + Z.of_nat n) as Hlen.
    { rewrite Esp at 1. rewrite zlen_app. f_equal. unfold zlen. by rewrite length_replicate. }
    exists (strip_pad (strip_pad text)), (replicate n 61). split_and!; [done..| dm_lia | |].
    + intros m Hm. cbn. f_equal. dm_lia.
    + case_match; [|done]. case_match. case_match; [done|]. bool_to_prop. by simplify_eq.
  - destruct (Z.eqb_spec (zlen text mod 4) 1) as [|Hz]; [done|].
    exists text, []. rewrite app_nil_r. split_and!; [done..|].
    case_match; [|done]. case_match. case_match; [done|]. bool_to_prop. by simplify_eq.
Qed.

Lemma decode_inverse v text cap l : is_bytes text -> 0 <= cap ->
  aimee_codec_base64_decode text cap (canonical v) = Some l ->
  is_bytes l /\ encode_loop v l = text /\ zlen l <= cap.
Proof.
  intros Ht Hcap Hdec.
  destruct (decode_data v text cap l Ht Hdec) as (data & k & -> & Hd & Hm & Hk & Hloop).
  destruct (decode_letters v cap data 0 0 [] _ Hd Hloop) as (d & -> & Hrange).
  apply decode_loop_cap in Hloop as [Hfit Hany]; [|rewrite zlen_nil; lia].
  destruct (Hany (zlen l + zlen d)) as [Hloop _]; [pose proof (zlen_nonneg d); lia|].
  rewrite zlen_map in Hm. pose proof (zlen_nonneg l).
  eapply decode_shape in Hloop as (l' & El & Hl & He & Hn'); [|done..| rewrite zlen_nil; lia | done].
  cbn in El. subst l'. rewrite zlen_map in Hk. rewrite (Hk _ Hn'). auto.
Qed.

(** ** Properties *)

(** Encoding into a buffer of the declared capacity succeeds, writes
    exactly that many bytes with the NUL, and decoding the text with the
    matching canonical profile returns the input. *)
Theorem base64_roundtrip v l cap :
  is_bytes l -> aimee_codec_base64_capacity (zlen l) v <> 0 -> zlen l <= cap ->
  exists text,
    aimee_codec_base64_encode l (aimee_codec_base64_capacity (zlen l) v) v = Some text
    /\ zlen text + 1 = aimee_codec_base64_capacity (zlen l) v
    /\ aimee_codec_base64_decode text cap (canonical v) = Some l.
Proof.
  intros Hl Hcap Hlen. exists (encode_loop v l).
  pose proof (encode_length v l Hl) as Hn. destruct (_ <? _) in Hn; [done|].
  destruct (encode_shape v l Hl) as (d & He & Hd & Hdn & Hdec).
  unfold aimee_codec_base64_encode, aimee_codec_base64_decode.
  pose proof (zlen_nonneg (encode_loop v l)).
  rewrite (proj2 (Z.eqb_neq _ _) Hcap), Z.ltb_irrefl, <- Hn. split_and!; [done..|].
  rewrite He. destruct v; cbn [canonical].
  - rewrite strip_pads, zlen_app, zlen_map, zlen_pads by done. fold (zlen d).
    rewrite Hdn. cbn [url_of].
    replace (_ mod 4 =? 0) with true by (symmetry; apply Z.eqb_eq; dm_lia). cbn [negb].
    change AIMEE_BASE64_STANDARD_CANONICAL with (canonical AIMEE_BASE64_STANDARD).
    by rewrite Hdec by (rewrite zlen_nil; lia).
  - cbn [pads] in *. rewrite app_nil_r, zlen_map. fold (zlen d). rewrite Hdn.
    replace (_ mod 4 =? 1) with false by (symmetry; apply Z.eqb_neq; dm_lia).
    change AIMEE_BASE64_URL_CANONICAL with (canonical AIMEE_BASE64_URL).
    by rewrite Hdec by (rewrite zlen_nil; lia).
Qed.

(** The canonical profiles accept one spelling of each value: whatever
    they decode is what the encoder writes for the decoded bytes, and the
    output fits the declared capacity. *)
Theorem base64_canonical v text cap l :
  is_bytes text -> zlen text < SIZE_MAX -> 0 <= cap ->
  aimee_codec_base64_decode text cap (canonical v) = Some l ->
  aimee_codec_base64_encode l (zlen text + 1) v = Some text /\ zlen l <= cap.
Proof.
  intros Ht Hsz Hcap Hdec.
  destruct (decode_inverse v text cap l Ht Hcap Hdec) as (Hl & He & Hle).
  split; [|done]. unfold aimee_codec_base64_encode. rewrite (encode_length v l Hl), He.
  replace (SIZE_MAX <? zlen text + 1) with false by lia. pose proof (zlen_nonneg text).
  replace (zlen text + 1 =? 0) with false by lia. by rewrite Z.ltb_irrefl.
Qed.

Lemma base64_roundtrip_witness :
  exists text, aimee_codec_base64_encode [77; 97; 255] 5 AIMEE_BASE64_URL = Some text
    /\ zlen text + 1 = 5
    /\ aimee_codec_base64_decode text 3 AIMEE_BASE64_URL_CANONICAL = Some [77; 97; 255].
Proof.
  apply (base64_roundtrip AIMEE_BASE64_URL [77; 97; 255] 3).
  - repeat constructor; unfold is_byte; lia.
  - vm_compute. discriminate.
  - vm_compute. discriminate.
Defined.

Lemma base64_canonical_witness :
  aimee_codec_base64_encode [77] 5 AIMEE_BASE64_STANDARD = Some (str "TQ==")
  /\ zlen [77] <= 1.
Proof.
  apply (base64_canonical AIMEE_BASE64_STANDARD (str "TQ==") 1 [77]).
  - apply is_bytes_str.
  - vm_compute. reflexivity.
  - lia.
  - vm_compute. reflexivity.
Defined.

End Base64.
