(* ===== verification/WitnessRecord.v ===== *)
(** * Witness records ([src/src/modules/vault/vault_witness_record.c])

    The canonical wire form and digest of one witness record.  Records are
    the struct of [vault_witness_record.h] (hashes and text as byte lists,
    flags as the C [int]s they are); [None] is the C return value -1.  Shown:
    the wire form round-trips, decoding accepts only the canonical encoding
    of a valid record, and the digest binds the whole logical event. *)

From Stdlib Require Import ZArith Lia String Ascii.
From stdpp Require Import base numbers option list.
From S2P Require Import Prelude.
From S2P Require Import Wire.

Module WitnessRecord.

Definition VAULT_WITNESS_SRC_AUDIT : Z := 0.
Definition VAULT_WITNESS_SRC_REWRAP : Z := 1.
Definition VAULT_WITNESS_SRC_OPEN : Z := 2.

Definition VAULT_WITNESS_TENANT_MAX : Z := 128.
Definition VAULT_WITNESS_PROVIDER_MAX : Z := 128.
Definition VAULT_WITNESS_SOURCE_ID_MAX : Z := 256.
Definition VAULT_WITNESS_REQUEST_ID_MAX : Z := 200.
Definition VAULT_WITNESS_PRINCIPAL_MAX : Z := 575.
Definition VAULT_WITNESS_PROVIDER_CRED_MAX : Z := 256.
Definition VAULT_WITNESS_GROUP_ID_MAX : Z := 256.
Definition VAULT_WITNESS_TIMESTAMP_MAX : Z := 40.
Definition VAULT_WITNESS_RECORD_MAX : Z := 2048.

Definition VAULT_WITNESS_DIGEST_LABEL : bytes := str "aimee-vault-witness-v1".
Definition VAULT_WITNESS_GENESIS_LABEL : bytes := str "aimee-vault-witness-genesis-v1".

Record vault_witness_record_t := {
  source : Z;
  seal_epoch : Z;
  fencing_token : Z;
  shard_seq : Z;
  has_source_pred : Z;
  is_first_in_shard : Z;
  source_hash : bytes;
  source_pred_hash : bytes;
  witness_pred_hash : bytes;
  source_id : bytes;
  tenant : bytes;
  provider : bytes;
  request_id : bytes;
  principal : bytes;
  provider_cred : bytes;
  group_id : bytes;
  timestamp : bytes
}.

Definition record_magic : bytes := str "AIMWTNS1".
Definition WIRE_HEADER_LEN : Z := 140.

(** The text fields in wire and digest order, with their caps. *)
Definition texts (r : vault_witness_record_t) : list bytes :=
  [source_id r; tenant r; provider r; request_id r;
   principal r; provider_cred r; group_id r; timestamp r].

Definition text_caps : list Z :=
  [VAULT_WITNESS_SOURCE_ID_MAX; VAULT_WITNESS_TENANT_MAX; VAULT_WITNESS_PROVIDER_MAX;
   VAULT_WITNESS_REQUEST_ID_MAX; VAULT_WITNESS_PRINCIPAL_MAX; VAULT_WITNESS_PROVIDER_CRED_MAX;
   VAULT_WITNESS_GROUP_ID_MAX; VAULT_WITNESS_TIMESTAMP_MAX].

(** A run of [pack_text] / [wire_put_str] / [wire_get_str] calls joined with
    [||]: the first failure ends it. *)
Fixpoint pack_texts (cap : Z) (buf : bytes) (ss : list bytes) : option bytes :=
  match ss with
  | [] => Some buf
  | s :: ss => buf ← pack_text cap buf s; pack_texts cap buf ss
  end.

Fixpoint put_strs (cap : Z) (out : bytes) (ss : list bytes) : option bytes :=
  match ss with
  | [] => Some out
  | s :: ss => out ← wire_put_str cap out s; put_strs cap out ss
  end.

Fixpoint get_strs (wire : bytes) (off : nat) (caps : list Z) : option (list bytes * nat) :=
  match caps with
  | [] => Some ([], off)
  | cap :: caps =>
      '(s, off) ← wire_get_str wire off cap;
      '(ss, off) ← get_strs wire off caps;
      Some (s :: ss, off)
  end.

Section record.
Context `{Sha256}.

(** The leading 8 bytes of SHA-256 over the packed shard key. *)
Definition vault_witness_shard_key_hash (tenant provider : bytes) : option bytes :=
  let tl := zlen tenant in
  let pl := zlen provider in
  if (tl =? 0) || (VAULT_WITNESS_TENANT_MAX <? tl) || (VAULT_WITNESS_PROVIDER_MAX <? pl)
  then None
  else
    let cap := 8 + VAULT_WITNESS_TENANT_MAX + VAULT_WITNESS_PROVIDER_MAX in
    buf ← pack_texts cap [] [tenant; provider];
    Some (take 8 (sha256 buf)).

Definition vault_witness_genesis_sentinel (tenant provider : bytes) : option bytes :=
  let tl := zlen tenant in
  let pl := zlen provider in
  if (tl =? 0) || (VAULT_WITNESS_TENANT_MAX <? tl) || (VAULT_WITNESS_PROVIDER_MAX <? pl)
  then None
  else
    let cap := zlen VAULT_WITNESS_GENESIS_LABEL + 1 + 8
               + VAULT_WITNESS_TENANT_MAX + VAULT_WITNESS_PROVIDER_MAX in
    buf ← pack_texts cap VAULT_WITNESS_GENESIS_LABEL [tenant; provider];
    Some (sha256 buf).

(** Semantic validity, independent of the wire framing. *)
Definition record_valid (r : vault_witness_record_t) : bool :=
  if negb (source r =? VAULT_WITNESS_SRC_AUDIT) && negb (source r =? VAULT_WITNESS_SRC_REWRAP)
     && negb (source r =? VAULT_WITNESS_SRC_OPEN) then false
  else if shard_seq r =? 0 then false
  else if negb (str_ok (source_id r) VAULT_WITNESS_SOURCE_ID_MAX 1
      && str_ok (tenant r) VAULT_WITNESS_TENANT_MAX 1
      && str_ok (provider r) VAULT_WITNESS_PROVIDER_MAX 1
      && str_ok (request_id r) VAULT_WITNESS_REQUEST_ID_MAX 0
      && str_ok (principal r) VAULT_WITNESS_PRINCIPAL_MAX 0
      && str_ok (provider_cred r) VAULT_WITNESS_PROVIDER_CRED_MAX 0
      && str_ok (group_id r) VAULT_WITNESS_GROUP_ID_MAX 0
      && str_ok (timestamp r) VAULT_WITNESS_TIMESTAMP_MAX 1) then false
  else if (if negb (has_source_pred r =? 0) then negb (source r =? VAULT_WITNESS_SRC_AUDIT)
           else negb (all_zero (source_pred_hash r))) then false
  else if negb (is_first_in_shard r =? (if shard_seq r =? 1 then 1 else 0)) then false
  else
    match vault_witness_genesis_sentinel (tenant r) (provider r) with
    | None => false
    | Some genesis =>
        let matches_genesis := if bytes_eqb (witness_pred_hash r) genesis then 1 else 0 in
        if negb (is_first_in_shard r =? matches_genesis) then false else true
    end.

(** The message the digest is computed over: the label, the source, the text
    fields with their lengths, the hashes and the counters. *)
Definition digest_preimage (r : vault_witness_record_t) : option bytes :=
  let cap := 4096 in
  buf ← pack_text cap [] VAULT_WITNESS_DIGEST_LABEL;
  buf ← pack_texts cap (buf ++ [u8 (source r)]) (texts r);
  if cap <? zlen buf + 32 + 1 + 32 + 32 + 24 then None
  else Some (buf ++ source_hash r ++ [if has_source_pred r =? 0 then 0 else 1]
               ++ source_pred_hash r ++ witness_pred_hash r
               ++ put_u64 (seal_epoch r) ++ put_u64 (fencing_token r) ++ put_u64 (shard_seq r)).

Definition vault_witness_record_digest (r : vault_witness_record_t) : option bytes :=
  if negb (record_valid r) then None
  else buf ← digest_preimage r; Some (sha256 buf).

(** The fixed header; the fields stand at the offsets of the [WIRE_OFF_]
    constants. *)
Definition wire_header (r : vault_witness_record_t) (total_len : Z) : bytes :=
  record_magic ++ put_u16 1 ++ put_u16 0 ++ put_u32 total_len ++ [u8 (source r)]
  ++ [Z.lor (if has_source_pred r =? 0 then 0 else 1) (if is_first_in_shard r =? 0 then 0 else 2)]
  ++ [0; 0]
  ++ put_u64 (seal_epoch r) ++ put_u64 (fencing_token r) ++ put_u64 (shard_seq r)
  ++ source_hash r ++ source_pred_hash r ++ witness_pred_hash r.

Definition vault_witness_record_encode (r : vault_witness_record_t) (cap : Z) : option bytes :=
  if negb (record_valid r) || (cap <? WIRE_HEADER_LEN) then None
  else
    (* the body goes past the header first, so that its length is known *)
    out ← put_strs cap (replicate 140 0) (texts r);
    if 4294967295 <? zlen out then None
    else Some (wire_header r (zlen out) ++ drop 140 out).

Definition vault_witness_record_decode (wire : bytes) : option vault_witness_record_t :=
  if (zlen wire <? WIRE_HEADER_LEN) || (VAULT_WITNESS_RECORD_MAX <? zlen wire)
     || negb (bytes_eqb (take 8 wire) record_magic)
     || negb (get_u16 (drop 8 wire) =? 1) || negb (get_u16 (drop 10 wire) =? 0)
     || negb (get_u32 (drop 12 wire) =? zlen wire) || negb (get_u16 (drop 18 wire) =? 0)
  then None
  else
    let flags := at_ wire 17 in
    if negb (Z.land flags (Z.lnot 3) =? 0) then None
    else
      match get_strs wire 140 text_caps with
      | Some ([t0; t1; t2; t3; t4; t5; t6; t7], off) =>
          let tmp :=
            {| source := at_ wire 16;
               seal_epoch := get_u64 (drop 20 wire);
               fencing_token := get_u64 (drop 28 wire);
               shard_seq := get_u64 (drop 36 wire);
               has_source_pred := if Z.land flags 1 =? 0 then 0 else 1;
               is_first_in_shard := if Z.land flags 2 =? 0 then 0 else 1;
               source_hash := take 32 (drop 44 wire);
               source_pred_hash := take 32 (drop 76 wire);
               witness_pred_hash := take 32 (drop 108 wire);
               source_id := t0; tenant := t1; provider := t2; request_id := t3;
               principal := t4; provider_cred := t5; group_id := t6; timestamp := t7 |} in
          if negb (Z.of_nat off =? zlen wire) || negb (record_valid tmp) then None
          else Some tmp
      | _ => None
      end.

(** Equality by canonical encoding; false when either record is invalid. *)
Definition vault_witness_record_equal (a b : vault_witness_record_t) : bool :=
  match vault_witness_record_encode a VAULT_WITNESS_RECORD_MAX,
        vault_witness_record_encode b VAULT_WITNESS_RECORD_MAX with
  | Some aw, Some bw => (zlen aw =? zlen bw) && bytes_eqb aw bw
  | _, _ => false
  end.

End record.

(** What the struct's field types guarantee. *)
Definition wf_record (r : vault_witness_record_t) : Prop :=
  0 <= seal_epoch r < 2 ^ 64 /\ 0 <= fencing_token r < 2 ^ 64 /\ 0 <= shard_seq r < 2 ^ 64
  /\ (length (source_hash r) = 32%nat /\ is_bytes (source_hash r))
  /\ (length (source_pred_hash r) = 32%nat /\ is_bytes (source_pred_hash r))
  /\ (length (witness_pred_hash r) = 32%nat /\ is_bytes (witness_pred_hash r))
  /\ Forall cstr (texts r).

(** The flag is a C truth value: every non-zero value encodes as 1. *)
Definition normalize (r : vault_witness_record_t) : vault_witness_record_t :=
  {| source := source r; seal_epoch := seal_epoch r; fencing_token := fencing_token r;
     shard_seq := shard_seq r;
     has_source_pred := if has_source_pred r =? 0 then 0 else 1;
     is_first_in_shard := is_first_in_shard r;
     source_hash := source_hash r; source_pred_hash := source_pred_hash r;
     witness_pred_hash := witness_pred_hash r; source_id := source_id r;
     tenant := tenant r; provider := provider r; request_id := request_id r;
     principal := principal r; provider_cred := provider_cred r;
     group_id := group_id r; timestamp := timestamp r |}.

(** ** Text runs *)

(** The bytes [put_strs] appends. *)
Definition body (ss : list bytes) : bytes := concat (map (fun s => put_u16 (zlen s) ++ s) ss).

(** The bytes [pack_texts] appends. *)
Definition packed (ss : list bytes) : bytes :=
  concat (map (fun s => put_u32 (u32 (zlen s)) ++ s) ss).

Fixpoint total (ss : list bytes) : Z :=
  match ss with [] => 0 | s :: ss => zlen s + total ss end.

Lemma total_nonneg ss : 0 <= total ss.
Proof. induction ss as [|s ss IH]; cbn; [lia|]. pose proof (zlen_nonneg s). lia. Qed.

Lemma body_length ss : zlen (body ss) = total ss + 2 * Z.of_nat (length ss).
Proof.
  unfold body. induction ss as [|s ss IH]; [done|]. cbn [map concat total length].
  rewrite !zlen_app, IH. change (zlen (put_u16 (zlen s))) with 2. lia.
Qed.

Lemma packed_length ss : zlen (packed ss) = total ss + 4 * Z.of_nat (length ss).
Proof.
  unfold packed. induction ss as [|s ss IH]; [done|]. cbn [map concat total length].
  rewrite !zlen_app, IH. change (zlen (put_u32 (u32 (zlen s)))) with 4. lia.
Qed.

Lemma put_strs_ok cap out ss :
  Forall (fun s => zlen s <= 65535) ss -> zlen out + zlen (body ss) <= cap ->
  put_strs cap out ss = Some (out ++ body ss).
Proof.
  intros Hss. revert out. induction Hss as [|s ss Hs Hss IH]; intros out Hcap.
  - cbn. by rewrite app_nil_r.
  - unfold body in *. cbn [map concat put_strs] in *. rewrite !zlen_app in Hcap.
    change (zlen (put_u16 (zlen s))) with 2 in Hcap.
    pose proof (zlen_nonneg (concat (map (fun s => put_u16 (zlen s) ++ s) ss))).
    rewrite wire_put_str_ok by lia. cbn. rewrite IH.
    + by rewrite <- !app_assoc.
    + rewrite !zlen_app. change (zlen (put_u16 (zlen s))) with 2. lia.
Qed.

Lemma pack_texts_ok cap buf ss :
  zlen buf + zlen (packed ss) <= cap -> pack_texts cap buf ss = Some (buf ++ packed ss).
Proof.
  revert buf. induction ss as [|s ss IH]; intros buf Hcap.
  - cbn. by rewrite app_nil_r.
  - unfold packed in *. cbn [map concat pack_texts] in *. rewrite !zlen_app in Hcap.
    change (zlen (put_u32 (u32 (zlen s)))) with 4 in Hcap.
    pose proof (zlen_nonneg (concat (map (fun s => put_u32 (u32 (zlen s)) ++ s) ss))).
    unfold pack_text. destruct (Z.ltb_spec cap (zlen buf + 4 + zlen s)); [lia|]. cbn. rewrite IH.
    + by rewrite <- !app_assoc.
    + rewrite !zlen_app. change (zlen (put_u32 (u32 (zlen s)))) with 4. lia.
Qed.

Lemma packed_inj ss ss' x y :
  length ss = length ss' -> Forall (fun s => zlen s < 2 ^ 32) ss ->
  Forall (fun s => zlen s < 2 ^ 32) ss' -> packed ss ++ x = packed ss' ++ y -> ss = ss' /\ x = y.
Proof.
  unfold packed. revert ss'. induction ss as [|s ss IH]; intros [|s' ss'] Hlen Hs Hs' E; try done.
  inversion_clear Hs; inversion_clear Hs'. cbn in E. rewrite <- !app_assoc in E.
  apply text_field_inj in E as [-> E]; [|done..].
  destruct (IH ss') as [-> ->]; [by injection Hlen | done..].
Qed.

Lemma get_strs_body pre ss post caps :
  Forall cstr ss -> Forall2 (fun s cap => zlen s <= cap /\ zlen s <= 65535) ss caps ->
  get_strs (pre ++ body ss ++ post) (length pre) caps = Some (ss, length (pre ++ body ss)).
Proof.
  intros Hc H2. revert pre. induction H2 as [|s cap ss caps [Hs1 Hs2] H2 IH]; intros pre.
  - cbn. by rewrite app_nil_r.
  - inversion_clear Hc as [|? ? Hs Hc']. unfold body. cbn [map concat get_strs].
    rewrite <- (app_assoc (put_u16 (zlen s) ++ s)). rewrite wire_get_put_str by done. cbn.
    rewrite (app_assoc pre). fold (body ss). rewrite IH by done. cbn.
    by rewrite <- !app_assoc.
Qed.

Lemma get_strs_inv wire off caps ss off' :
  is_bytes wire -> (off <= length wire)%nat -> get_strs wire off caps = Some (ss, off') ->
  Forall cstr ss /\ Forall (fun s => zlen s <= 65535) ss /\ (off' <= length wire)%nat
  /\ take off' wire = take off wire ++ body ss.
Proof.
  intros Hw. revert off ss. induction caps as [|cap caps IH]; intros off ss Hoff; cbn.
  - intros [= <- <-]. cbn. rewrite app_nil_r. auto.
  - destruct (wire_get_str wire off cap) as [[s off1]|] eqn:Es; [|done]. cbn.
    destruct (get_strs wire off1 caps) as [[ss' off2]|] eqn:Ess; [|done]. cbn.
    intros [= <- <-].
    destruct (wire_get_str_inv _ _ _ _ _ Hw Hoff Es) as (H1 & _ & H3 & H4 & H5).
    destruct (IH off1 ss' H4 Ess) as (H6 & H7 & H8 & H9).
    split_and!; [by constructor.. | done |].
    rewrite H9, H5. unfold body. cbn. by rewrite <- !app_assoc.
Qed.

Section facts.
Context `{Sha256}.

(** ** Validity *)

Record valid_facts (r : vault_witness_record_t) : Prop := {
  vf_source : source r = 0 \/ source r = 1 \/ source r = 2;
  vf_seq : shard_seq r <> 0;
  vf_texts : Forall2 (fun s cap => zlen s <= cap /\ zlen s <= 65535) (texts r) text_caps;
  vf_total : total (texts r) <= 1839;
  vf_first : is_first_in_shard r = if shard_seq r =? 1 then 1 else 0;
  vf_genesis : exists g, vault_witness_genesis_sentinel (tenant r) (provider r) = Some g
    /\ (shard_seq r = 1 <-> witness_pred_hash r = g)
}.

Lemma record_valid_facts r : record_valid r = true -> valid_facts r.
Proof.
  unfold record_valid. intros Hv.
  destruct (_ && _) eqn:E1 in Hv; [done|]. destruct (shard_seq r =? 0) eqn:E2; [done|].
  destruct (negb (_ && _)) eqn:E3 in Hv; [done|]. case_match; [done|].
  destruct (negb (is_first_in_shard r =? _)) eqn:E5 in Hv; [done|].
  case_match eqn:E6; [|done]. destruct (negb _) eqn:E7 in Hv; [done|].
  bool_to_prop.
  repeat match goal with
  | Hs : str_ok _ _ _ = true |- _ => apply str_ok_spec in Hs; [| by vm_compute]
  end.
  unfold VAULT_WITNESS_TENANT_MAX, VAULT_WITNESS_PROVIDER_MAX, VAULT_WITNESS_SOURCE_ID_MAX,
    VAULT_WITNESS_REQUEST_ID_MAX, VAULT_WITNESS_PRINCIPAL_MAX, VAULT_WITNESS_PROVIDER_CRED_MAX,
    VAULT_WITNESS_GROUP_ID_MAX, VAULT_WITNESS_TIMESTAMP_MAX in *.
  constructor.
  - unfold VAULT_WITNESS_SRC_AUDIT, VAULT_WITNESS_SRC_REWRAP, VAULT_WITNESS_SRC_OPEN in E1. lia.
  - done.
  - change text_caps with [256; 128; 128; 200; 575; 256; 256; 40]. unfold texts.
    repeat (apply Forall2_cons_2; [cbv beta; lia|]). apply Forall2_nil_2.
  - cbn. lia.
  - done.
  - eexists. split; [done|]. rewrite E5 in E7.
    destruct (Z.eqb_spec (shard_seq r) 1), (bytes_eqb (witness_pred_hash r) l) eqn:Eb; try done;
      [apply bytes_eqb_true in Eb | apply bytes_eqb_false in Eb]; intuition.
Qed.

(** ** Header *)

Lemma header_length r n : wf_record r -> length (wire_header r n) = 140%nat.
Proof.
  intros (_ & _ & _ & [H1 _] & [H2 _] & [H3 _] & _).
  unfold wire_header. rewrite !length_app, H1, H2, H3. reflexivity.
Qed.

(** What the decoder reads back from an encoded header. *)
Lemma header_fields r n b : wf_record r -> 0 <= source r < 256 -> 0 <= n < 2 ^ 32 ->
  let w := wire_header r n ++ b in
  (take 8 w = record_magic /\ get_u16 (drop 8 w) = 1 /\ get_u16 (drop 10 w) = 0
   /\ get_u32 (drop 12 w) = n /\ get_u16 (drop 18 w) = 0)
  /\ (at_ w 16 = source r
      /\ at_ w 17 = Z.lor (if has_source_pred r =? 0 then 0 else 1)
                          (if is_first_in_shard r =? 0 then 0 else 2))
  /\ (get_u64 (drop 20 w) = seal_epoch r /\ get_u64 (drop 28 w) = fencing_token r
      /\ get_u64 (drop 36 w) = shard_seq r)
  /\ (take 32 (drop 44 w) = source_hash r /\ take 32 (drop 76 w) = source_pred_hash r
      /\ take 32 (drop 108 w) = witness_pred_hash r).
Proof.
  intros (Hse & Hft & Hss & [L1 _] & [L2 _] & [L3 _] & _) Hsrc Hn.
  cbv zeta. unfold wire_header. rewrite <- !app_assoc, (at_drop _ 16), (at_drop _ 17).
  split_and!; skip_fields.
  - reflexivity.
  - by rewrite get_put_u16 by lia.
  - by rewrite get_put_u16 by lia.
  - by rewrite get_put_u32 by lia.
  - change [0; 0] with (put_u16 0). by rewrite get_put_u16 by lia.
  - unfold at_. cbn. by apply u8_small.
  - reflexivity.
  - by rewrite get_put_u64 by done.
  - by rewrite get_put_u64 by done.
  - by rewrite get_put_u64 by done.
  - by rewrite take_field.
  - by rewrite take_field.
  - by rewrite take_field.
Qed.

(** A header that passes the decoder's checks is rebuilt by the encoder. *)
Lemma header_rebuild w r : is_bytes w -> (140 <= length w)%nat ->
  take 8 w = record_magic -> get_u16 (drop 8 w) = 1 -> get_u16 (drop 10 w) = 0 ->
  get_u32 (drop 12 w) = zlen w -> get_u16 (drop 18 w) = 0 ->
  source r = at_ w 16 ->
  Z.lor (if has_source_pred r =? 0 then 0 else 1) (if is_first_in_shard r =? 0 then 0 else 2)
    = at_ w 17 ->
  seal_epoch r = get_u64 (drop 20 w) -> fencing_token r = get_u64 (drop 28 w) ->
  shard_seq r = get_u64 (drop 36 w) -> source_hash r = take 32 (drop 44 w) ->
  source_pred_hash r = take 32 (drop 76 w) -> witness_pred_hash r = take 32 (drop 108 w) ->
  wire_header r (zlen w) = take 140 w.
Proof.
  intros Hw Hlen E0 E8 E10 E12 E18 E16 E17 E20 E28 E36 E44 E76 E108.
  assert (forall k, is_bytes (drop k w)) as Hd by auto with aimee.
  assert (forall k n, (k + n <= 140)%nat -> (n <= length (drop k w))%nat) as Hl
    by (intros k n Hk; rewrite length_drop; lia).
  assert (forall k v, (k + 2 <= 140)%nat -> get_u16 (drop k w) = v ->
    put_u16 v = take 2 (drop k w)) as H16 by (intros k v Hk <-; apply put_get_u16; auto).
  unfold wire_header. rewrite (H16 10%nat 0), (H16 8%nat 1) by (done || lia).
  change [0; 0] with (put_u16 0). rewrite (H16 18%nat 0) by (done || lia).
  rewrite <- E0, <- E12, E16, E17, E20, E28, E36, E44, E76, E108.
  rewrite u8_small by (apply at_byte; [done | lia]).
  rewrite put_get_u32, !put_get_u64 by auto with lia.
  rewrite <- !take1_at by lia. rewrite !app_assoc, !take_take_drop. reflexivity.
Qed.

Lemma flags_decode a b :
  let f := Z.lor (if a =? 0 then 0 else 1) (if b =? 0 then 0 else 2) in
  Z.land f (Z.lnot 3) = 0 /\ (Z.land f 1 =? 0) = (a =? 0) /\ (Z.land f 2 =? 0) = (b =? 0).
Proof. by destruct (a =? 0), (b =? 0). Qed.

Lemma flags_rebuild f : is_byte f -> Z.land f (Z.lnot 3) = 0 ->
  Z.lor (if (if Z.land f 1 =? 0 then 0 else 1) =? 0 then 0 else 1)
        (if (if Z.land f 2 =? 0 then 0 else 1) =? 0 then 0 else 2) = f.
Proof.
  intros Hf Hz. assert (f = 0 \/ f = 1 \/ f = 2 \/ f = 3) as [->|[->|[->| ->]]]; [|done..].
  pose proof (check_range 256 (fun f => negb (Z.land f (Z.lnot 3) =? 0) || (f <=? 3))) as H3.
  specialize (H3 ltac:(vm_compute; reflexivity) f Hf). cbv beta in H3. unfold is_byte in Hf.
  apply orb_true_iff in H3 as [H3|H3]; bool_to_prop; lia.
Qed.

Lemma record_valid_normalize r : record_valid (normalize r) = record_valid r.
Proof.
  unfold record_valid, normalize. cbn [source shard_seq source_id tenant provider request_id
    principal provider_cred group_id timestamp has_source_pred source_pred_hash
    is_first_in_shard witness_pred_hash].
  by destruct (has_source_pred r =? 0).
Qed.

(** ** Encoding *)

Lemma body_texts_length r : valid_facts r -> zlen (body (texts r)) <= 1855.
Proof. intros Hv. rewrite body_length. pose proof (vf_total _ Hv). cbn [length texts]. lia. Qed.

Lemma encode_eq r cap : wf_record r -> record_valid r = true ->
  140 + zlen (body (texts r)) <= cap ->
  vault_witness_record_encode r cap
  = Some (wire_header r (140 + zlen (body (texts r))) ++ body (texts r)).
Proof.
  intros Hwf Hval Hcap. pose proof (record_valid_facts r Hval) as Hv.
  pose proof (body_texts_length r Hv). pose proof (zlen_nonneg (body (texts r))).
  unfold vault_witness_record_encode, WIRE_HEADER_LEN. rewrite Hval.
  destruct (Z.ltb_spec cap 140); [lia|]. cbn [negb orb].
  rewrite put_strs_ok.
  - cbn [mbind option_bind]. rewrite zlen_app. change (zlen (replicate 140 0)) with 140.
    destruct (Z.ltb_spec 4294967295 (140 + zlen (body (texts r)))); [lia|].
    by rewrite drop_app_length'.
  - eapply Forall2_Forall_l; [exact (vf_texts _ Hv)|]. apply Forall_true. intros ? ? [_ ?]. done.
  - change (zlen (replicate 140 0)) with 140. lia.
Qed.

Lemma decode_encoded r : wf_record r -> record_valid r = true ->
  vault_witness_record_decode
    (wire_header r (140 + zlen (body (texts r))) ++ body (texts r)) = Some (normalize r).
Proof.
  intros Hwf Hval. pose proof (record_valid_facts r Hval) as Hv.
  pose proof (body_texts_length r Hv) as Hb. pose proof (zlen_nonneg (body (texts r))).
  pose proof (vf_source _ Hv). pose proof (vf_first _ Hv) as Hfirst.
  set (n := 140 + zlen (body (texts r))) in *.
  pose proof (header_length r n Hwf) as Hhl.
  destruct (header_fields r n (body (texts r)) Hwf ltac:(lia) ltac:(lia))
    as ((F0 & F8 & F10 & F12 & F18) & (F16 & F17) & (F20 & F28 & F36) & (F44 & F76 & F108)).
  set (w := wire_header r n ++ body (texts r)) in *.
  assert (zlen w = n) as Hw by (unfold w; rewrite zlen_app; unfold zlen at 1; rewrite Hhl; done).
  pose proof (flags_decode (has_source_pred r) (is_first_in_shard r)) as (Hf1 & Hf2 & Hf3).
  unfold vault_witness_record_decode, WIRE_HEADER_LEN, VAULT_WITNESS_RECORD_MAX.
  rewrite F0, F8, F10, F12, F18, F17, Hw, Hf1, Hf2, Hf3, bytes_eqb_refl, !Z.eqb_refl.
  destruct (Z.ltb_spec n 140), (Z.ltb_spec 2048 n); try lia. cbn [negb orb].
  assert (get_strs w 140 text_caps = Some (texts r, length w)) as Hg.
  { unfold w. rewrite <- Hhl. rewrite <- (app_nil_r (body (texts r))) at 1.
    apply get_strs_body; [apply Hwf | exact (vf_texts _ Hv)]. }
  rewrite Hg. unfold texts at 1. cbn match. fold (zlen w). rewrite Hw, Z.eqb_refl.
  rewrite F16, F20, F28, F36, F44, F76, F108.
  replace (if is_first_in_shard r =? 0 then 0 else 1) with (is_first_in_shard r)
    by (rewrite Hfirst; by destruct (shard_seq r =? 1)).
  fold (normalize r). by rewrite record_valid_normalize, Hval.
Qed.

(** ** The digest message *)

Definition digest_message (r : vault_witness_record_t) : bytes :=
  packed [VAULT_WITNESS_DIGEST_LABEL] ++ [u8 (source r)] ++ packed (texts r)
  ++ source_hash r ++ [if has_source_pred r =? 0 then 0 else 1]
  ++ source_pred_hash r ++ witness_pred_hash r
  ++ put_u64 (seal_epoch r) ++ put_u64 (fencing_token r) ++ put_u64 (shard_seq r).

Lemma digest_preimage_eq r : wf_record r -> record_valid r = true ->
  digest_preimage r = Some (digest_message r).
Proof.
  intros Hwf Hval. pose proof (record_valid_facts r Hval) as Hv.
  assert (zlen (packed (texts r)) <= 1871) as Hp.
  { rewrite packed_length. pose proof (vf_total _ Hv). cbn [length texts]. lia. }
  unfold digest_preimage, pack_text. change (zlen [] + 4 + zlen VAULT_WITNESS_DIGEST_LABEL) with 26.
  change (4096 <? 26) with false. cbn [mbind option_bind].
  rewrite pack_texts_ok; cbn [mbind option_bind].
  - destruct (Z.ltb_spec 4096 (zlen ((([] ++ put_u32 (u32 (zlen VAULT_WITNESS_DIGEST_LABEL))
      ++ VAULT_WITNESS_DIGEST_LABEL) ++ [u8 (source r)]) ++ packed (texts r)) + 32 + 1 + 32 + 32 + 24)).
    + rewrite zlen_app in *. change (zlen (_ ++ [u8 (source r)])) with 27 in *. lia.
    + unfold digest_message. by rewrite <- !app_assoc.
  - change (zlen (_ ++ [u8 (source r)])) with 27. lia.
Qed.

Lemma record_digest_eq r : wf_record r -> record_valid r = true ->
  vault_witness_record_digest r = Some (sha256 (digest_message r)).
Proof.
  intros Hwf Hval. unfold vault_witness_record_digest. rewrite Hval, digest_preimage_eq; done.
Qed.

Lemma digest_message_inj a b : wf_record a -> wf_record b ->
  record_valid a = true -> record_valid b = true ->
  digest_message a = digest_message b -> normalize a = normalize b.
Proof.
  intros Ha Hb Hva Hvb E. apply record_valid_facts in Hva, Hvb.
  assert (forall r, valid_facts r -> Forall (fun s => zlen s < 2 ^ 32) (texts r)) as Ht.
  { intros r Hv. eapply Forall2_Forall_l; [exact (vf_texts _ Hv)|]. apply Forall_true.
    intros ? ? [_ ?]. lia. }
  destruct Ha as (Ae & Af & As & [A1 _] & [A2 _] & [A3 _] & _).
  destruct Hb as (Be & Bf & Bs & [B1 _] & [B2 _] & [B3 _] & _).
  unfold digest_message in E. apply app_inv_head in E.
  apply (fixed_field_inj 1) in E as [Esrc E]; [|done..]. injection Esrc as Esrc.
  rewrite !u8_small in Esrc
    by (pose proof (vf_source _ Hva); pose proof (vf_source _ Hvb); lia).
  apply packed_inj in E as [Etx E]; [|done | auto..].
  apply (fixed_field_inj 32) in E as [Eh E]; [|done..].
  apply (fixed_field_inj 1) in E as [Ep E]; [|done..]. injection Ep as Ep.
  apply (fixed_field_inj 32) in E as [Esp E]; [|done..].
  apply (fixed_field_inj 32) in E as [Ewp E]; [|done..].
  apply u64_field_inj in E as [Ese E]; [|done..]. apply u64_field_inj in E as [Eft E]; [|done..].
  apply put_u64_inj in E; [|done..].
  unfold texts in Etx. injection Etx as T0 T1 T2 T3 T4 T5 T6 T7.
  unfold normalize. rewrite (vf_first _ Hva), (vf_first _ Hvb), E.
  rewrite Esrc, Ep, Ese, Eft, Eh, Esp, Ewp, T0, T1, T2, T3, T4, T5, T6, T7. reflexivity.
Qed.

(** ** Decoding *)

Lemma decode_inv w r : is_bytes w -> vault_witness_record_decode w = Some r ->
  record_valid r = true /\ wf_record r /\ zlen w <= 2048
  /\ w = wire_header r (140 + zlen (body (texts r))) ++ body (texts r)
  /\ zlen w = 140 + zlen (body (texts r)).
Proof.
  intros Hw Hdec.
  unfold vault_witness_record_decode, WIRE_HEADER_LEN, VAULT_WITNESS_RECORD_MAX in Hdec.
  destruct (_ || _) eqn:G1 in Hdec; [done|].
  destruct (negb (Z.land _ _ =? 0)) eqn:G2 in Hdec; [done|].
  destruct (get_strs w 140 text_caps) as [[ss off]|] eqn:Hg; [|done].
  destruct ss as [|t0 [|t1 [|t2 [|t3 [|t4 [|t5 [|t6 [|t7 [|]]]]]]]]]; try done.
  destruct (_ || _) eqn:G3 in Hdec; [done|]. injection Hdec as Hr.
  bool_to_prop. assert (140 <= length w)%nat as Hlen by (unfold zlen in *; lia).
  apply get_strs_inv in Hg as (Hc & Hmx & Hoff & Hbody); [|done | lia].
  assert (off = length w) as -> by (unfold zlen in *; lia).
  rewrite take_ge in Hbody by lia.
  assert (texts r = [t0; t1; t2; t3; t4; t5; t6; t7]) as Ht by by subst r.
  assert (forall k n, (k + n <= 140)%nat -> (n <= length (drop k w))%nat) as Hl
    by (intros k n Hk; rewrite length_drop; lia).
  assert (zlen w = 140 + zlen (body (texts r))) as Hz.
  { rewrite Ht, Hbody at 1. rewrite zlen_app. unfold zlen at 1. rewrite length_take. lia. }
  split_and!; [subst r; done | | lia | | done].
  - unfold wf_record. rewrite Ht. subst r. cbn [source_hash source_pred_hash witness_pred_hash
      seal_epoch fencing_token shard_seq].
    split_and!; try (apply get_u64_range; [auto with aimee | apply Hl; lia]);
      try (rewrite length_take; pose proof (Hl 44%nat 32%nat); pose proof (Hl 76%nat 32%nat);
           pose proof (Hl 108%nat 32%nat); lia); auto with aimee.
  - rewrite <- Hz, Ht. rewrite Hbody at 1. f_equal. symmetry.
    apply header_rebuild; try done; try (by subst r); [by apply bytes_eqb_true|].
    subst r. apply flags_rebuild; [apply at_byte; [done|lia] | done].
Qed.

Lemma digest_binds a b d : wf_record a -> wf_record b ->
  vault_witness_record_digest a = Some d -> vault_witness_record_digest b = Some d ->
  normalize a = normalize b \/ collides (digest_message a) (digest_message b).
Proof.
  intros Ha Hb Da Db.
  assert (record_valid a = true /\ record_valid b = true) as [Va Vb].
  { unfold vault_witness_record_digest in Da, Db.
    destruct (record_valid a), (record_valid b); done. }
  rewrite record_digest_eq in Da, Db by done. simplify_eq.
  destruct (decide (digest_message a = digest_message b)) as [E|]; [left | right].
  - by apply digest_message_inj.
  - split; [done | congruence].
Qed.

(** ** Properties *)

(** A valid record encodes within the advertised record size, and decoding
    its wire form gives the record back (with the predecessor flag as the 0/1
    value it stands for). *)
Theorem record_roundtrip r : wf_record r -> record_valid r = true ->
  exists w, vault_witness_record_encode r VAULT_WITNESS_RECORD_MAX = Some w
    /\ zlen w <= VAULT_WITNESS_RECORD_MAX
    /\ vault_witness_record_decode w = Some (normalize r).
Proof.
  intros Hwf Hval. pose proof (body_texts_length r (record_valid_facts r Hval)).
  unfold VAULT_WITNESS_RECORD_MAX. eexists. split_and!.
  - apply encode_eq; [done..|]. lia.
  - rewrite zlen_app. unfold zlen at 1. rewrite header_length by done. lia.
  - by apply decode_encoded.
Qed.

(** Decoding accepts canonical encodings only: a decoded record is valid
    and re-encodes to exactly the bytes that were read. *)
Theorem record_decode_canonical w r : is_bytes w ->
  vault_witness_record_decode w = Some r ->
  record_valid r = true /\ vault_witness_record_encode r VAULT_WITNESS_RECORD_MAX = Some w.
Proof.
  intros Hw Hdec. destruct (decode_inv w r Hw Hdec) as (Hv & Hwf & Hmax & E & Hlen).
  split; [done|]. rewrite encode_eq by (done || unfold VAULT_WITNESS_RECORD_MAX; lia). by f_equal.
Qed.

(** The digest binds the complete logical event: two valid records with the
    same digest are the same event, unless the two digest messages are
    themselves a SHA-256 collision. *)
Theorem record_digest_binds a b d : wf_record a -> wf_record b ->
  vault_witness_record_digest a = Some d -> vault_witness_record_digest b = Some d ->
  normalize a = normalize b \/ collides (digest_message a) (digest_message b).
Proof. apply digest_binds. Qed.

(** [vault_witness_record_equal] decides equality of valid records as
    logical events; an invalid record equals nothing, itself included. *)
Theorem record_equal_spec a b : wf_record a -> wf_record b ->
  vault_witness_record_equal a b = true <->
  record_valid a = true /\ record_valid b = true /\ normalize a = normalize b.
Proof.
  intros Ha Hb. unfold vault_witness_record_equal.
  assert (forall r, wf_record r -> record_valid r = false ->
    vault_witness_record_encode r VAULT_WITNESS_RECORD_MAX = None) as Hinv
    by (intros r Hr E; unfold vault_witness_record_encode; by rewrite E).
  destruct (record_valid a) eqn:Va; [|rewrite Hinv by done; by intuition].
  destruct (record_valid b) eqn:Vb; [|rewrite (Hinv b) by done; case_match; by intuition].
  pose proof (body_texts_length a (record_valid_facts a Va)).
  pose proof (body_texts_length b (record_valid_facts b Vb)).
  rewrite !encode_eq by (done || unfold VAULT_WITNESS_RECORD_MAX; lia).
  rewrite andb_true_iff, Z.eqb_eq, bytes_eqb_true. split.
  - intros [_ E]. split_and!; [done..|].
    pose proof (decode_encoded a Ha Va) as Da. rewrite E, decode_encoded in Da by done. congruence.
  - intros (_ & _ & E).
    assert (texts a = texts b) as Et
      by (change (texts (normalize a) = texts (normalize b)); by rewrite E).
    assert (forall n, wire_header a n = wire_header b n) as Eh.
    { intros n. assert (forall r, wire_header r n = wire_header (normalize r) n) as Hn
        by (intros r; unfold wire_header, normalize; cbn; by destruct (has_source_pred r =? 0)).
      by rewrite (Hn a), E, <- Hn. }
    by rewrite Et, Eh.
Qed.

End facts.

(** ** Concrete records *)

(** The first record of a shard, under the concrete hash. *)
Definition sample_first : vault_witness_record_t :=
  {| source := VAULT_WITNESS_SRC_AUDIT; seal_epoch := 7; fencing_token := 3; shard_seq := 1;
     has_source_pred := 0; is_first_in_shard := 1;
     source_hash := replicate 32 17; source_pred_hash := replicate 32 0;
     witness_pred_hash :=
       default [] (@vault_witness_genesis_sentinel toy (str "acme") (str "aws"));
     source_id := str "audit/1"; tenant := str "acme"; provider := str "aws";
     request_id := str "req-1"; principal := str "uid:0"; provider_cred := [];
     group_id := []; timestamp := str "2026-01-01T00:00:00Z" |}.

Lemma sample_first_valid : @record_valid toy sample_first = true.
Proof. vm_compute. reflexivity. Qed.

Lemma sample_first_wf : wf_record sample_first.
Proof.
  unfold wf_record. split_and!; try (vm_compute; (reflexivity || discriminate)).
  - apply is_bytesb_true. reflexivity.
  - apply is_bytesb_true. reflexivity.
  - apply toy_sha256_bytes.
  - apply cstrb_all. reflexivity.
Qed.

Lemma record_roundtrip_witness :
  exists w, @vault_witness_record_encode toy sample_first 2048 = Some w
    /\ zlen w <= 2048 /\ @vault_witness_record_decode toy w = Some (normalize sample_first).
Proof. apply (@record_roundtrip toy sample_first sample_first_wf sample_first_valid). Defined.

Definition sample_wire : bytes :=
  default [] (@vault_witness_record_encode toy sample_first 2048).

Lemma record_decode_canonical_witness :
  @record_valid toy (normalize sample_first) = true
  /\ @vault_witness_record_encode toy (normalize sample_first) 2048 = Some sample_wire.
Proof.
  apply (@record_decode_canonical toy sample_wire (normalize sample_first)).
  - apply is_bytesb_true. vm_compute. reflexivity.
  - vm_compute. reflexivity.
Defined.

Lemma record_digest_binds_witness :
  normalize sample_first = normalize sample_first
  \/ @collides toy (digest_message sample_first) (digest_message sample_first).
Proof.
  apply (@record_digest_binds toy sample_first sample_first
           (default [] (@vault_witness_record_digest toy sample_first)));
    try apply sample_first_wf; vm_compute; reflexivity.
Defined.

Lemma record_equal_spec_witness :
  @vault_witness_record_equal toy sample_first sample_first = true.
Proof.
  apply (@record_equal_spec toy sample_first sample_first sample_first_wf sample_first_wf).
  split_and!; [apply sample_first_valid.. | reflexivity].
Defined.

End WitnessRecord.
