(* ===== verification/WitnessMerkle.v ===== *)
(** * Sparse Merkle tree over shard heads ([src/src/modules/vault/vault_witness_merkle.c])

    The depth-64 tree of a checkpoint.  The recursion over a sorted slice of
    leaves is translated as it stands (the slice is the list, the proof array
    is threaded through), with the precomputed array of empty-subtree roots.
    [smt_spec] is the abstract tree: every one of the 2^64 positions holds a
    leaf.  Shown: the computed root is the root of that tree; generated
    proofs verify; a verified proof fixes the leaf at its position, unless
    two named node messages collide. *)

From Stdlib Require Import ZArith Lia String Ascii Sorted.
From stdpp Require Import base numbers option list.
From S2P Require Import Prelude.
From S2P Require Import Wire.

Module WitnessMerkle.

Definition VAULT_WITNESS_SMT_DEPTH : nat := 64.
Definition VAULT_WITNESS_SHARD_CEILING : Z := Z.shiftl 1 20.

Definition VAULT_WITNESS_SMT_LEAF_LABEL : bytes := str "aimee-vault-witness-smt-leaf-v1".
Definition VAULT_WITNESS_SMT_NODE_LABEL : bytes := str "aimee-vault-witness-smt-node-v1".
Definition VAULT_WITNESS_SMT_EMPTY_LABEL : bytes := str "aimee-vault-witness-smt-empty-v1".

Record vault_witness_leaf_t := { key : bytes; hash : bytes }.

(** Bit [i] of the 64-bit key, 0 the most significant bit of [key[0]]. *)
Definition key_bit (k : bytes) (i : nat) : Z :=
  Z.land (Z.shiftr (at_ k (i / 8)) (7 - Z.of_nat (i mod 8))) 1.

(** The order of [memcmp] on unsigned bytes. *)
Fixpoint memcmp (a b : bytes) : comparison :=
  match a, b with
  | x :: a, y :: b => match x ?= y with Eq => memcmp a b | c => c end
  | _, _ => Eq
  end.

(** Strictly ascending keys. *)
Fixpoint leaves_ok (leaves : list vault_witness_leaf_t) : bool :=
  match leaves with
  | a :: ((b :: _) as rest) =>
      match memcmp (key a) (key b) with Lt => leaves_ok rest | _ => false end
  | _ => true
  end.

(** The leaves of the slice before the first one whose bit is set, and the
    rest: [while (split < hi && key_bit(leaves[split].key, disc) == 0) split++]. *)
Fixpoint split_slice (disc : nat) (leaves : list vault_witness_leaf_t)
    : list vault_witness_leaf_t * list vault_witness_leaf_t :=
  match leaves with
  | [] => ([], [])
  | l :: rest =>
      if key_bit (key l) disc =? 0
      then let '(a, b) := split_slice disc rest in (l :: a, b)
      else ([], leaves)
  end.

(** The target as the left and as the right subtree see it (NULL when it lies
    in the other one). *)
Definition ltarget (disc : nat) (target : option bytes) : option bytes :=
  match target with
  | Some t => if key_bit t disc =? 0 then Some t else None
  | None => None
  end.

Definition rtarget (disc : nat) (target : option bytes) : option bytes :=
  match target with
  | Some t => if key_bit t disc =? 0 then None else Some t
  | None => None
  end.

Section merkle.
Context `{Sha256}.

Definition node_message (left right : bytes) : bytes :=
  VAULT_WITNESS_SMT_NODE_LABEL ++ left ++ right.

Definition node_hash (left right : bytes) : bytes := sha256 (node_message left right).

(** [empty[l]] for [l = 0 .. DEPTH]. *)
Definition compute_empty : list bytes :=
  fold_left
    (fun empty l => empty ++ [node_hash (nth (l - 1) empty []) (nth (l - 1) empty [])])
    (seq 1 VAULT_WITNESS_SMT_DEPTH) [sha256 VAULT_WITNESS_SMT_EMPTY_LABEL].

(** The subtree root over a slice of leaves with [level] key bits left; with
    a target, the sibling roots on its path are stored in [proof]. *)
Fixpoint root_rec (level : nat) (leaves : list vault_witness_leaf_t) (empty : list bytes)
    (target : option bytes) (proof : list bytes) : bytes * list bytes :=
  match leaves with
  | [] => (nth level empty [], proof)
  | l :: _ =>
      match level with
      | O => (hash l, proof)
      | S level' =>
          let disc := (VAULT_WITNESS_SMT_DEPTH - level)%nat in
          let '(lo, hi) := split_slice disc leaves in
          let '(lroot, proof) := root_rec level' lo empty (ltarget disc target) proof in
          let '(rroot, proof) := root_rec level' hi empty (rtarget disc target) proof in
          let proof := match target with
                       | Some t => <[disc := if key_bit t disc =? 0 then rroot else lroot]> proof
                       | None => proof end in
          (node_hash lroot rroot, proof)
      end
  end.

(** The commitment of one shard head. *)
Definition leaf_message (tenant provider : bytes) (sequence : Z) (head_hash : bytes) : bytes :=
  VAULT_WITNESS_SMT_LEAF_LABEL ++ put_u32 (u32 (zlen tenant)) ++ tenant
  ++ put_u32 (u32 (zlen provider)) ++ provider ++ put_u64 sequence ++ head_hash.

Definition vault_witness_leaf_hash (tenant provider : bytes) (sequence : Z) (head_hash : bytes)
    : option bytes :=
  let tl := zlen tenant in
  let pl := zlen provider in
  if (tl =? 0) || (pl =? 0) || (128 <? tl) || (128 <? pl) then None
  else Some (sha256 (leaf_message tenant provider sequence head_hash)).

Definition vault_witness_merkle_root (leaves : list vault_witness_leaf_t) : option bytes :=
  if (VAULT_WITNESS_SHARD_CEILING <? Z.of_nat (length leaves)) || negb (leaves_ok leaves)
  then None
  else Some (fst (root_rec VAULT_WITNESS_SMT_DEPTH leaves compute_empty None [])).

Definition vault_witness_merkle_proof (leaves : list vault_witness_leaf_t) (index : nat)
    : option (list bytes) :=
  match leaves !! index with
  | None => None
  | Some l =>
      if (VAULT_WITNESS_SHARD_CEILING <? Z.of_nat (length leaves)) || negb (leaves_ok leaves)
      then None
      else Some (snd (root_rec VAULT_WITNESS_SMT_DEPTH leaves compute_empty (Some (key l))
                   (replicate VAULT_WITNESS_SMT_DEPTH (replicate 32 0))))
  end.

(** One turn of the verification loop: the accumulator is the left or the
    right input depending on the key bit. *)
Definition verify_step (k : bytes) (proof : list bytes) (acc : bytes) (b : nat) : bytes :=
  if key_bit k b =? 0 then node_hash acc (nth b proof []) else node_hash (nth b proof []) acc.

Definition vault_witness_merkle_verify (k leaf_hash : bytes) (proof : list bytes) (root : bytes)
    : bool :=
  let acc := fold_left (verify_step k proof) (rev (seq 0 VAULT_WITNESS_SMT_DEPTH)) leaf_hash in
  bytes_eqb acc root.

(** ** The abstract tree

    [smt_spec level p f] is the root of the complete subtree of height
    [level] at prefix [p]; position [k] holds [f k]. *)
Fixpoint smt_spec (level : nat) (p : Z) (f : Z -> bytes) : bytes :=
  match level with
  | O => f p
  | S level' => node_hash (smt_spec level' (2 * p) f) (smt_spec level' (2 * p + 1) f)
  end.

(** The leaf at a position: the one with that key, or the empty leaf. *)
Definition leaf_at (leaves : list vault_witness_leaf_t) (k : Z) : bytes :=
  match find (fun l => be_get (key l) =? k) leaves with
  | Some l => hash l
  | None => sha256 VAULT_WITNESS_SMT_EMPTY_LABEL
  end.

End merkle.

(** What the struct's field types guarantee. *)
Definition wf_key (k : bytes) : Prop := length k = 8%nat /\ is_bytes k.
Definition wf_leaf (l : vault_witness_leaf_t) : Prop :=
  wf_key (key l) /\ length (hash l) = 32%nat.

(** ** Keys as integers *)

Lemma be_get_nth l j : is_bytes l -> (j < length l)%nat ->
  at_ l j = (be_get l / 256 ^ (zlen l - 1 - Z.of_nat j)) mod 256.
Proof.
  intros Hl. revert j. induction Hl as [|c l Hc Hl IH]; intros j Hj; cbn in Hj; [lia|].
  rewrite be_get_cons, zlen_cons. pose proof (be_get_range l Hl) as R. unfold zlen in *.
  destruct j as [|j].
  - cbn [at_ nth]. replace (1 + Z.of_nat (length l) - 1 - Z.of_nat 0) with (Z.of_nat (length l)) by lia.
    rewrite Z.div_add_l by lia. rewrite Z.div_small by lia. unfold at_, is_byte in *. cbn.
    rewrite Z.mod_small; lia.
  - change (at_ (c :: l) (S j)) with (at_ l j). rewrite IH by lia.
    replace (1 + Z.of_nat (length l) - 1 - Z.of_nat (S j)) with (Z.of_nat (length l) - 1 - Z.of_nat j) by lia.
    set (e := Z.of_nat (length l) - 1 - Z.of_nat j). assert (0 <= e) by (unfold e; lia).
    replace (Z.of_nat (length l)) with (e + 1 + Z.of_nat j) by (unfold e; lia).
    rewrite (Z.pow_add_r 256 (e + 1)), Z.pow_add_r, Z.pow_1_r by lia.
    replace (c * (256 ^ e * 256 * 256 ^ Z.of_nat j) + be_get l)
      with ((c * 256 ^ Z.of_nat j * 256) * 256 ^ e + be_get l) by ring.
    rewrite Z.div_add_l by lia. rewrite Z.add_comm, Z.mod_add by lia. done.
Qed.

Lemma key_bit_div k i : wf_key k -> (i < 64)%nat ->
  key_bit k i = (be_get k / 2 ^ (63 - Z.of_nat i)) mod 2.
Proof.
  intros [Hlen Hk] Hi. unfold key_bit.
  pose proof (Nat.div_mod_eq i 8) as Hd. pose proof (Nat.mod_upper_bound i 8 ltac:(lia)) as Hm.
  set (j := (i / 8)%nat) in *. set (r := (i mod 8)%nat) in *.
  rewrite be_get_nth by (done || lia). unfold zlen. rewrite Hlen.
  rewrite (land_low_mod _ 1 ltac:(lia) : Z.land _ 1 = _ mod 2). change 256 with (2 ^ 8).
  rewrite <- Z.pow_mul_r, <- !shiftr_div by lia. rewrite <- !Z.bit0_mod.
  rewrite !Z.shiftr_spec by lia. rewrite Z.mod_pow2_bits_low by lia.
  rewrite Z.shiftr_spec by lia. do 2 f_equal. lia.
Qed.

Lemma memcmp_lt a b : is_bytes a -> is_bytes b -> length a = length b ->
  memcmp a b = Lt <-> be_get a < be_get b.
Proof.
  intros Ha. revert b. induction Ha as [|x a Hx Ha IH]; intros [|y b] Hb Hlen; try done.
  inversion_clear Hb as [|? ? Hy Hb']. injection Hlen as Hlen. cbn [memcmp].
  rewrite !be_get_cons. pose proof (be_get_range a Ha). pose proof (be_get_range b Hb').
  unfold zlen in *. rewrite Hlen in *. destruct (Z.compare_spec x y) as [->|Hlt|Hgt].
  - rewrite IH by done. lia.
  - split; [intros _; nia | done].
  - split; [done | nia].
Qed.

(** ** Slices *)

Definition K (l : vault_witness_leaf_t) : Z := be_get (key l).
Definition ascending (a b : vault_witness_leaf_t) : Prop := K a < K b.

Lemma leaves_ok_sorted ls : Forall wf_leaf ls -> leaves_ok ls = true ->
  StronglySorted ascending ls.
Proof.
  intros Hwf Hok. apply Sorted_StronglySorted; [intros a b c; unfold ascending; lia|].
  induction Hwf as [|a ls Ha Hls IH]; [constructor|].
  destruct ls as [|b ls]; [by repeat constructor|]. cbn [leaves_ok] in Hok.
  inversion_clear Hls as [|? ? Hb _]. destruct Ha as [[La Ba] _], Hb as [[Lb Bb] _].
  destruct (memcmp (key a) (key b)) eqn:E; try done.
  constructor; [by apply IH|]. constructor. apply memcmp_lt in E; [done..|congruence].
Qed.

Lemma sorted_app L R : StronglySorted ascending (L ++ R) ->
  StronglySorted ascending L /\ StronglySorted ascending R.
Proof.
  induction L as [|x L IHL]; intros Hs; [by split; [constructor|]|]. cbn in Hs.
  inversion_clear Hs as [|? ? Hs' Hf]. destruct (IHL Hs'). apply Forall_app in Hf as [Hf _].
  split; [by constructor | done].
Qed.

Lemma split_slice_app disc ls L R : split_slice disc ls = (L, R) ->
  ls = L ++ R /\ Forall (fun l => key_bit (key l) disc = 0) L
  /\ (forall l, head R = Some l -> key_bit (key l) disc <> 0).
Proof.
  revert L R. induction ls as [|l ls IH]; intros L R; cbn.
  - intros [= <- <-]. by split_and!.
  - destruct (Z.eqb_spec (key_bit (key l) disc) 0) as [Hb|Hb].
    + destruct (split_slice disc ls) as [a b]. intros [= <- <-].
      destruct (IH a b eq_refl) as (-> & Ha & Hh). split_and!; [done | by constructor | done].
    + intros [= <- <-]. split_and!; [done..|]. intros ? [= <-]. done.
Qed.

(** The two halves of a slice sit under the two children of its node. *)
Lemma slice_children level p ls L R : (S level <= 64)%nat -> Forall wf_leaf ls ->
  StronglySorted ascending ls -> Forall (fun l => K l / 2 ^ Z.of_nat (S level) = p) ls ->
  split_slice (64 - S level) ls = (L, R) ->
  ls = L ++ R /\ Forall (fun l => K l / 2 ^ Z.of_nat level = 2 * p) L
  /\ Forall (fun l => K l / 2 ^ Z.of_nat level = 2 * p + 1) R.
Proof.
  intros Hl Hwf Hs Hp Hsp. apply split_slice_app in Hsp as (-> & HL & HR). split; [done|].
  assert (forall l, wf_leaf l -> K l / 2 ^ Z.of_nat (S level) = p ->
    K l / 2 ^ Z.of_nat level = 2 * p + key_bit (key l) (64 - S level)) as Hbit.
  { intros l [Hk _] Hpl. rewrite key_bit_div by (done || lia).
    replace (63 - Z.of_nat (64 - S level)) with (Z.of_nat level) by lia.
    rewrite <- Hpl. replace (Z.of_nat (S level)) with (Z.of_nat level + 1) by lia.
    rewrite Z.pow_add_r, <- Z.div_div by lia. apply Z.div_mod. lia. }
  assert (forall l, wf_leaf l -> 0 <= key_bit (key l) (64 - S level) < 2) as Hr
    by (intros l [Hk _]; rewrite key_bit_div by (done || lia); apply Z.mod_pos_bound; lia).
  apply Forall_app in Hwf as [WL WR]. apply Forall_app in Hp as [PL PR]. split.
  - apply Forall_forall. intros l Hin. rewrite Forall_forall in WL, PL, HL.
    rewrite Hbit, HL by auto. lia.
  - destruct R as [|r R]; [constructor|].
    destruct (sorted_app _ _ Hs) as [_ HsR].
    inversion_clear HsR as [|? ? _ Hgt]. inversion_clear WR as [|? ? Wr WR'].
    inversion_clear PR as [|? ? Pr PR'].
    specialize (HR r eq_refl). pose proof (Hr r Wr). pose proof (Hbit r Wr Pr) as Er.
    constructor; [lia|]. apply Forall_forall. intros l Hin.
    rewrite Forall_forall in Hgt, WR', PR'. specialize (Hgt l Hin). unfold ascending in Hgt.
    pose proof (Hbit l (WR' l Hin) (PR' l Hin)). pose proof (Hr l (WR' l Hin)).
    pose proof (Z.div_le_mono (K r) (K l) (2 ^ Z.of_nat level) ltac:(lia) ltac:(lia)). lia.
Qed.

Section tree.
Context `{Sha256}.

Lemma smt_spec_ext level p f g :
  (forall k, p * 2 ^ Z.of_nat level <= k < (p + 1) * 2 ^ Z.of_nat level -> f k = g k) ->
  smt_spec level p f = smt_spec level p g.
Proof.
  revert p. induction level as [|level IH]; intros p Hfg; cbn.
  - apply Hfg. cbn. lia.
  - replace (Z.of_nat (S level)) with (Z.of_nat level + 1) in Hfg by lia.
    rewrite Z.pow_add_r in Hfg by lia.
    pose proof (Z.pow_pos_nonneg 2 (Z.of_nat level)). f_equal; apply IH; intros k Hk; apply Hfg; nia.
Qed.

Lemma smt_spec_const level p q e :
  smt_spec level p (fun _ => e) = smt_spec level q (fun _ => e).
Proof. revert p q. induction level as [|level IH]; intros p q; cbn; [done|]. f_equal; apply IH. Qed.

(** The array holds the root of the all-empty subtree of each height. *)
Lemma compute_empty_nth level p : (level <= 64)%nat ->
  nth level compute_empty [] = smt_spec level p (fun _ => sha256 VAULT_WITNESS_SMT_EMPTY_LABEL).
Proof.
  set (e := sha256 VAULT_WITNESS_SMT_EMPTY_LABEL).
  set (step := fun empty l => empty ++ [node_hash (nth (l - 1) empty []) (nth (l - 1) empty [])]).
  assert (forall n, length (fold_left step (seq 1 n) [e]) = S n /\
    forall l, (l <= n)%nat -> nth l (fold_left step (seq 1 n) [e]) [] = smt_spec l p (fun _ => e)) as Hn.
  { induction n as [|n [IHl IH]].
    - split; [done|]. intros l Hl. by replace l with 0%nat by lia.
    - rewrite seq_S, fold_left_app. cbn [fold_left]. unfold step at 1 3.
      split; [rewrite length_app, IHl; cbn; lia|]. intros l Hl.
      destruct (decide (l = S n)) as [->|].
      + rewrite app_nth2, IHl by lia. replace (S n - S n)%nat with 0%nat by lia. cbn [nth].
        replace (1 + n - 1)%nat with n by lia. rewrite IH by lia. cbn [smt_spec].
        f_equal; apply smt_spec_const.
      + rewrite app_nth1 by lia. apply IH. lia. }
  intros Hl. apply (Hn 64%nat). done.
Qed.

Lemma leaf_at_app_l L R k : Forall (fun l => K l <> k) R -> leaf_at (L ++ R) k = leaf_at L k.
Proof.
  intros HR. unfold leaf_at. induction L as [|l L IH]; cbn.
  - induction HR as [|r R Hr HR IH]; [done|]. cbn. unfold K in Hr.
    by rewrite (proj2 (Z.eqb_neq _ _) Hr).
  - destruct (be_get (key l) =? k); [done | exact IH].
Qed.

Lemma leaf_at_app_r L R k : Forall (fun l => K l <> k) L -> leaf_at (L ++ R) k = leaf_at R k.
Proof.
  intros HL. unfold leaf_at. induction HL as [|l L Hl HL IH]; [done|]. cbn. unfold K in Hl.
  by rewrite (proj2 (Z.eqb_neq _ _) Hl).
Qed.

(** Positions under a child are not taken by leaves of the other child. *)
Lemma other_child level q p k ls : q <> p ->
  Forall (fun l => K l / 2 ^ Z.of_nat level = q) ls ->
  p * 2 ^ Z.of_nat level <= k < (p + 1) * 2 ^ Z.of_nat level -> Forall (fun l => K l <> k) ls.
Proof.
  intros Hne Hls Hk. eapply Forall_impl; [exact Hls|]. cbv beta. intros l Hl E. apply Hne.
  rewrite <- Hl, E. symmetry. pose proof (Z.pow_pos_nonneg 2 (Z.of_nat level)).
  apply (Z.div_unique _ _ _ (k - p * 2 ^ Z.of_nat level)); [left; nia | lia].
Qed.

(** One step of the recursion at an occupied inner node. *)
Lemma root_rec_node level ls e t proof L R : ls <> [] -> split_slice (64 - S level) ls = (L, R) ->
  let disc := (64 - S level)%nat in
  let l := root_rec level L e (ltarget disc t) proof in
  let r := root_rec level R e (rtarget disc t) (snd l) in
  root_rec (S level) ls e t proof =
  (node_hash (fst l) (fst r),
   match t with
   | Some t => <[disc := if key_bit t disc =? 0 then fst r else fst l]> (snd r)
   | None => snd r
   end).
Proof.
  intros Hne Hsp. destruct ls as [|l0 ls]; [done|]. cbv zeta. cbn [root_rec].
  change VAULT_WITNESS_SMT_DEPTH with 64%nat. rewrite Hsp.
  destruct (root_rec level L e (ltarget (64 - S level) t) proof) as [lroot proof1]. cbn [fst snd].
  by destruct (root_rec level R e (rtarget (64 - S level) t) proof1) as [rroot proof2].
Qed.

Lemma root_rec_spec level ls p t proof : (level <= 64)%nat -> Forall wf_leaf ls ->
  StronglySorted ascending ls -> Forall (fun l => K l / 2 ^ Z.of_nat level = p) ls ->
  fst (root_rec level ls compute_empty t proof) = smt_spec level p (leaf_at ls).
Proof.
  revert ls p t proof. induction level as [|level IH]; intros ls p t proof Hl Hwf Hs Hp.
  - destruct ls as [|l ls]; [by apply (compute_empty_nth 0 p)|]. cbn [root_rec fst smt_spec].
    inversion_clear Hp as [|? ? Hpl _]. cbn in Hpl. rewrite Z.div_1_r in Hpl.
    rewrite <- Hpl. unfold leaf_at, K. cbn. by rewrite Z.eqb_refl.
  - destruct (decide (ls = [])) as [->|Hne]; [by apply (compute_empty_nth (S level) p)|].
    destruct (split_slice (64 - S level) ls) as [L R] eqn:Hsp.
    destruct (slice_children level p ls L R Hl Hwf Hs Hp Hsp) as (E & HL & HR).
    rewrite (root_rec_node level ls _ t proof L R Hne Hsp). cbv zeta. cbn [fst smt_spec].
    rewrite E in Hwf, Hs. apply Forall_app in Hwf as [WL WR]. apply sorted_app in Hs as [SL SR].
    rewrite (IH L (2 * p)), (IH R (2 * p + 1)) by (done || lia).
    rewrite E. f_equal; apply smt_spec_ext; intros k Hk; symmetry.
    + apply leaf_at_app_l. by apply (other_child level (2 * p + 1) (2 * p)); [lia|..].
    + apply leaf_at_app_r. by apply (other_child level (2 * p) (2 * p + 1)); [lia|..].
Qed.

(** ** Proof generation *)

Lemma root_rec_none level ls e proof : snd (root_rec level ls e None proof) = proof.
Proof.
  revert ls proof. induction level as [|level IH]; intros ls proof.
  - by destruct ls.
  - destruct (decide (ls = [])) as [->|Hne]; [done|].
    destruct (split_slice (64 - S level) ls) as [L R] eqn:Hsp.
    rewrite (root_rec_node level ls e None proof L R Hne Hsp). cbv zeta. cbn [snd ltarget rtarget].
    by rewrite !IH.
Qed.

Definition climb (k : bytes) (proof : list bytes) (b n : nat) (acc : bytes) : bytes :=
  fold_left (verify_step k proof) (rev (seq b n)) acc.

Lemma climb_S k proof b n acc :
  climb k proof b (S n) acc = verify_step k proof (climb k proof (S b) n acc) b.
Proof. unfold climb. cbn [seq rev]. by rewrite fold_left_app. Qed.

Lemma climb_ext k proof proof' b n acc :
  (forall i, (b <= i)%nat -> nth i proof [] = nth i proof' []) ->
  climb k proof b n acc = climb k proof' b n acc.
Proof.
  revert b. induction n as [|n IH]; intros b Hi; [done|]. rewrite !climb_S.
  rewrite (IH (S b)) by (intros; apply Hi; lia). unfold verify_step. by rewrite Hi by lia.
Qed.

Lemma nth_insert_eq i x (l : list bytes) : (i < length l)%nat -> nth i (<[i := x]> l) [] = x.
Proof. intros. by rewrite nth_lookup, list_lookup_insert_eq. Qed.

Lemma nth_insert_ne i j x (l : list bytes) : i <> j -> nth j (<[i := x]> l) [] = nth j l [].
Proof. intros. by rewrite !nth_lookup, list_lookup_insert_ne. Qed.

(** Climbing from the leaf with the siblings stored in the proof reproduces
    the root of the slice. *)
Lemma root_rec_climb level ls p l proof : (level <= 64)%nat -> Forall wf_leaf ls ->
  StronglySorted ascending ls -> Forall (fun l => K l / 2 ^ Z.of_nat level = p) ls ->
  l ∈ ls -> length proof = 64%nat ->
  let r := root_rec level ls compute_empty (Some (key l)) proof in
  climb (key l) (snd r) (64 - level) level (hash l) = fst r /\ length (snd r) = 64%nat.
Proof.
  revert ls p proof. induction level as [|level IH]; intros ls p proof Hl Hwf Hs Hp Hin Hlen; cbv zeta.
  - destruct ls as [|l0 ls]; [by apply not_elem_of_nil in Hin|]. cbn [root_rec fst snd]. split; [|done].
    inversion_clear Hs as [|? ? _ Hgt]. rewrite Forall_cons in Hp. destruct Hp as [Hp0 Hp].
    apply elem_of_cons in Hin as [->|Hin]; [done|].
    rewrite Forall_forall in Hgt, Hp. specialize (Hgt l Hin). specialize (Hp l Hin).
    unfold ascending in Hgt. cbn in Hp0, Hp. rewrite Z.div_1_r in Hp0, Hp. lia.
  - destruct (decide (ls = [])) as [->|Hne]; [by apply not_elem_of_nil in Hin|].
    destruct (split_slice (64 - S level) ls) as [L R] eqn:Hsp.
    destruct (slice_children level p ls L R Hl Hwf Hs Hp Hsp) as (E & HL & HR).
    rewrite (root_rec_node level ls _ _ proof L R Hne Hsp). cbv zeta. cbn [fst snd ltarget rtarget].
    rewrite E in Hwf, Hs, Hin. apply Forall_app in Hwf as [WL WR]. apply sorted_app in Hs as [SL SR].
    assert (wf_key (key l)) as Hk.
    { apply elem_of_app in Hin. rewrite Forall_forall in WL, WR.
      destruct Hin as [Hin|Hin]; [apply WL in Hin | apply WR in Hin]; apply Hin. }
    pose proof (key_bit_div (key l) (64 - S level) Hk ltac:(lia)) as Hb.
    replace (63 - Z.of_nat (64 - S level)) with (Z.of_nat level) in Hb by lia. fold (K l) in Hb.
    rewrite climb_S. replace (S (64 - S level)) with (64 - level)%nat by lia. unfold verify_step.
    apply elem_of_app in Hin as [Hin|Hin].
    + assert (K l / 2 ^ Z.of_nat level = 2 * p) as Hkp by (rewrite Forall_forall in HL; auto).
      rewrite Hkp in Hb. replace (key_bit (key l) (64 - S level)) with 0 by dm_lia. cbn [Z.eqb].
      destruct (IH L (2 * p) proof ltac:(lia) WL SL HL Hin Hlen) as [Hc Hpl].
      rewrite root_rec_none, length_insert, nth_insert_eq by lia. split; [|done]. f_equal.
      rewrite <- Hc. apply climb_ext. intros i Hi. apply nth_insert_ne. lia.
    + assert (K l / 2 ^ Z.of_nat level = 2 * p + 1) as Hkp by (rewrite Forall_forall in HR; auto).
      rewrite Hkp in Hb. replace (key_bit (key l) (64 - S level)) with 1 by dm_lia. cbn [Z.eqb].
      rewrite root_rec_none.
      destruct (IH R (2 * p + 1) proof ltac:(lia) WR SR HR Hin Hlen) as [Hc Hpl].
      rewrite length_insert, nth_insert_eq by lia. split; [|done]. f_equal.
      rewrite <- Hc. apply climb_ext. intros i Hi. apply nth_insert_ne. lia.
Qed.

(** ** Soundness of verification *)

(** The message hashed by the loop turn for bit [b]. *)
Definition step_message (k : bytes) (proof : list bytes) (acc : bytes) (b : nat) : bytes :=
  if key_bit k b =? 0 then node_message acc (nth b proof []) else node_message (nth b proof []) acc.

(** The message of the tree node at depth [b] on the path to position [k]. *)
Definition tree_message (f : Z -> bytes) (k : Z) (b : nat) : bytes :=
  let p := k / 2 ^ Z.of_nat (64 - b) in
  node_message (smt_spec (63 - b) (2 * p) f) (smt_spec (63 - b) (2 * p + 1) f).

Lemma verify_step_message k proof acc b :
  verify_step k proof acc b = sha256 (step_message k proof acc b).
Proof. unfold verify_step, step_message. by case_match. Qed.

Lemma climb_length k proof b n acc : length acc = 32%nat -> length (climb k proof b n acc) = 32%nat.
Proof.
  intros Hacc. destruct n; [done|]. rewrite climb_S, verify_step_message. apply sha256_length.
Qed.

Lemma smt_spec_length level p f : (forall k, length (f k) = 32%nat) ->
  length (smt_spec level p f) = 32%nat.
Proof. intros Hf. destruct level; cbn; [done | apply sha256_length]. Qed.

Lemma node_message_inj a b c d : length a = length c -> node_message a b = node_message c d ->
  a = c /\ b = d.
Proof. intros Hl E. unfold node_message in E. apply app_inv_head in E. by apply app_inj_length. Qed.

Lemma climb_sound k proof f h n : wf_key k -> (forall x, length (f x) = 32%nat) ->
  length h = 32%nat -> length proof = 64%nat -> Forall (fun s => length s = 32%nat) proof ->
  (n <= 64)%nat ->
  climb k proof (64 - n) n h = smt_spec n (be_get k / 2 ^ Z.of_nat n) f ->
  h = f (be_get k) \/ exists b, (b < 64)%nat /\
    collides (step_message k proof (climb k proof (S b) (63 - b) h) b) (tree_message f (be_get k) b).
Proof.
  intros Hk Hf Hh Hpl Hp. induction n as [|n IH]; intros Hn E.
  - left. cbn in E. by rewrite Z.div_1_r in E.
  - rewrite climb_S in E. replace (S (64 - S n)) with (64 - n)%nat in E by lia.
    rewrite verify_step_message in E. cbn [smt_spec] in E. unfold node_hash in E.
    set (b := (64 - S n)%nat) in *. set (acc := climb k proof (64 - n) n h) in *.
    assert (tree_message f (be_get k) b = node_message
      (smt_spec n (2 * (be_get k / 2 ^ Z.of_nat (S n))) f)
      (smt_spec n (2 * (be_get k / 2 ^ Z.of_nat (S n)) + 1) f)) as Et.
    { unfold tree_message, b. by replace (64 - (64 - S n))%nat with (S n) by lia;
        replace (63 - (64 - S n))%nat with n by lia. }
    rewrite <- Et in E. destruct (decide (step_message k proof acc b = tree_message f (be_get k) b)) as [Em|Hne].
    2: { right. exists b. split; [lia|]. unfold collides.
         replace (climb k proof (S b) (63 - b) h) with acc; [done|].
         unfold acc, b. f_equal; lia. }
    apply IH; [lia|]. fold acc. rewrite Et in Em. unfold step_message in Em.
    pose proof (key_bit_div k b Hk ltac:(lia)) as Hb.
    replace (63 - Z.of_nat b) with (Z.of_nat n) in Hb by lia.
    assert (be_get k / 2 ^ Z.of_nat n = 2 * (be_get k / 2 ^ Z.of_nat (S n)) + key_bit k b) as ->.
    { rewrite Hb. replace (Z.of_nat (S n)) with (Z.of_nat n + 1) by lia.
      rewrite Z.pow_add_r, <- Z.div_div by lia. apply Z.div_mod. lia. }
    assert (length (nth b proof []) = 32%nat) as Hnb.
    { rewrite Forall_forall in Hp. apply Hp, list_elem_of_In, nth_In. lia. }
    destruct (Z.eqb_spec (key_bit k b) 0) as [Hz|Hz].
    + rewrite Hz, Z.add_0_r. apply node_message_inj in Em as [-> _]; [done|].
      unfold acc. rewrite climb_length, smt_spec_length; done.
    + replace (key_bit k b) with 1 by dm_lia.
      apply node_message_inj in Em as [_ ->]; [done|]. rewrite Hnb, smt_spec_length; done.
Qed.

Lemma leaf_at_length ls k : Forall wf_leaf ls -> length (leaf_at ls k) = 32%nat.
Proof.
  intros Hwf. unfold leaf_at. destruct (find _ ls) as [l|] eqn:E; [|apply sha256_length].
  apply find_some in E as [Hin _]. rewrite Forall_forall in Hwf. apply Hwf. by apply list_elem_of_In.
Qed.

Lemma root_prefix ls : Forall wf_leaf ls ->
  Forall (fun l => K l / 2 ^ Z.of_nat VAULT_WITNESS_SMT_DEPTH = 0) ls.
Proof.
  intros Hwf. eapply Forall_impl; [exact Hwf|]. intros l [[Hlen Hb] _].
  pose proof (be_get_range (key l) Hb) as Hr. unfold zlen in Hr. rewrite Hlen in Hr.
  unfold K. apply Z.div_small. exact Hr.
Qed.

Lemma merkle_root_eq ls : Forall wf_leaf ls -> leaves_ok ls = true ->
  Z.of_nat (length ls) <= VAULT_WITNESS_SHARD_CEILING ->
  vault_witness_merkle_root ls = Some (smt_spec 64 0 (leaf_at ls)).
Proof.
  intros Hwf Hok Hn. unfold vault_witness_merkle_root. rewrite Hok.
  destruct (Z.ltb_spec VAULT_WITNESS_SHARD_CEILING (Z.of_nat (length ls))); [lia|]. cbn [orb negb].
  f_equal. apply root_rec_spec; auto using leaves_ok_sorted, root_prefix.
Qed.

Lemma merkle_root_some ls root : vault_witness_merkle_root ls = Some root ->
  leaves_ok ls = true /\ Z.of_nat (length ls) <= VAULT_WITNESS_SHARD_CEILING.
Proof.
  unfold vault_witness_merkle_root. destruct (_ || _) eqn:E; [done|]. bool_to_prop. auto.
Qed.

Lemma merkle_verify_climb k h proof root :
  vault_witness_merkle_verify k h proof root = true <-> climb k proof 0 64 h = root.
Proof.
  unfold vault_witness_merkle_verify, climb, VAULT_WITNESS_SMT_DEPTH. cbv zeta.
  generalize (fold_left (verify_step k proof) (rev (seq 0 64)) h). intros acc. apply bytes_eqb_true.
Qed.

#[local] Opaque smt_spec climb root_rec.

Lemma merkle_verify_pins ls root k h proof : Forall wf_leaf ls ->
  vault_witness_merkle_root ls = Some root -> wf_key k -> length h = 32%nat ->
  length proof = VAULT_WITNESS_SMT_DEPTH -> Forall (fun s => length s = 32%nat) proof ->
  vault_witness_merkle_verify k h proof root = true ->
  h = leaf_at ls (be_get k) \/ exists b, (b < VAULT_WITNESS_SMT_DEPTH)%nat /\
    collides (step_message k proof (climb k proof (S b) (63 - b) h) b)
             (tree_message (leaf_at ls) (be_get k) b).
Proof.
  intros Hwf Hroot Hk Hh Hpl Hp Hv. pose proof (merkle_root_some ls root Hroot) as [Hok Hn].
  rewrite merkle_root_eq in Hroot by done. injection Hroot as <-.
  apply merkle_verify_climb in Hv.
  apply (climb_sound k proof (leaf_at ls) h 64); auto using leaf_at_length.
  rewrite (Nat.sub_diag 64), Hv. f_equal. symmetry. apply Z.div_small.
  destruct Hk as [Hlen Hb]. pose proof (be_get_range k Hb) as Hr. unfold zlen in Hr.
  rewrite Hlen in Hr. exact Hr.
Qed.

(** ** Properties *)

(** C26: the root computed over the sorted occupied leaves, with empty subtrees
    taken from the precomputed table, is the root of the complete depth-64
    tree; unsorted or duplicate keys and too many leaves are refused. *)
Theorem merkle_root_refines ls : Forall wf_leaf ls ->
  vault_witness_merkle_root ls =
  if leaves_ok ls && (Z.of_nat (length ls) <=? VAULT_WITNESS_SHARD_CEILING)
  then Some (smt_spec VAULT_WITNESS_SMT_DEPTH 0 (leaf_at ls)) else None.
Proof.
  intros Hwf. destruct (leaves_ok ls) eqn:Hok, (Z.leb_spec (Z.of_nat (length ls)) VAULT_WITNESS_SHARD_CEILING);
    cbn [andb]; [by apply merkle_root_eq | | |];
    unfold vault_witness_merkle_root; rewrite Hok, ?orb_true_r; [|done..].
  by rewrite (proj2 (Z.ltb_lt _ _)).
Qed.

(** Every generated inclusion proof verifies against the root of the same
    leaves, at the leaf's own key. *)
Theorem merkle_proof_complete ls i l root : Forall wf_leaf ls ->
  vault_witness_merkle_root ls = Some root -> ls !! i = Some l ->
  exists proof, vault_witness_merkle_proof ls i = Some proof
    /\ vault_witness_merkle_verify (key l) (hash l) proof root = true.
Proof.
  intros Hwf Hroot Hi. pose proof (merkle_root_some ls root Hroot) as [Hok Hn].
  rewrite merkle_root_eq in Hroot by done. injection Hroot as <-.
  unfold vault_witness_merkle_proof. rewrite Hi, Hok.
  destruct (Z.ltb_spec VAULT_WITNESS_SHARD_CEILING (Z.of_nat (length ls))); [lia|]. cbn [orb negb].
  eexists. split; [done|]. apply merkle_verify_climb.
  destruct (root_rec_climb 64 ls 0 l (replicate VAULT_WITNESS_SMT_DEPTH (replicate 32 0)))
    as [Hc _]; auto using leaves_ok_sorted, root_prefix.
  { by eapply list_elem_of_lookup_2. }
  rewrite (Nat.sub_diag 64) in Hc. change VAULT_WITNESS_SMT_DEPTH with 64%nat in *. rewrite Hc.
  apply root_rec_spec; auto using leaves_ok_sorted. by apply (root_prefix ls).
Qed.

(** A proof that verifies against the root of a leaf set pins the leaf hash
    at the key's position (the stored leaf, or the empty leaf when the
    position is free), unless the loop and the tree hash two different node
    messages to the same digest at some depth. *)
Theorem merkle_verify_sound ls root k h proof : Forall wf_leaf ls ->
  vault_witness_merkle_root ls = Some root -> wf_key k -> length h = 32%nat ->
  length proof = VAULT_WITNESS_SMT_DEPTH -> Forall (fun s => length s = 32%nat) proof ->
  vault_witness_merkle_verify k h proof root = true ->
  h = leaf_at ls (be_get k) \/ exists b, (b < VAULT_WITNESS_SMT_DEPTH)%nat /\
    collides (step_message k proof (climb k proof (S b) (63 - b) h) b)
             (tree_message (leaf_at ls) (be_get k) b).
Proof. apply merkle_verify_pins. Qed.

End tree.

(** ** Samples *)

Definition sample_leaf : vault_witness_leaf_t :=
  {| key := be_put 8 (2 ^ 63 + 9); hash := be_put 32 78 |}.

Definition sample_leaves : list vault_witness_leaf_t :=
  [{| key := be_put 8 5; hash := be_put 32 77 |}; sample_leaf].

Definition sample_root : bytes := default [] (vault_witness_merkle_root (H := toy) sample_leaves).
Definition sample_proof : list bytes :=
  default [] (vault_witness_merkle_proof (H := toy) sample_leaves 1).

Lemma sample_leaves_wf : Forall wf_leaf sample_leaves.
Proof.
  repeat apply Forall_cons_2; [| |constructor];
    (split; [split; [apply be_put_length | apply be_put_is_bytes] | apply be_put_length]).
Qed.

Lemma merkle_root_refines_witness :
  Forall wf_leaf sample_leaves /\
  vault_witness_merkle_root (H := toy) sample_leaves =
  if leaves_ok sample_leaves && (Z.of_nat (length sample_leaves) <=? VAULT_WITNESS_SHARD_CEILING)
  then Some (smt_spec (H := toy) VAULT_WITNESS_SMT_DEPTH 0 (leaf_at (H := toy) sample_leaves)) else None.
Proof. split; [exact sample_leaves_wf | apply (merkle_root_refines (H := toy)); exact sample_leaves_wf]. Defined.

Lemma merkle_proof_complete_witness :
  vault_witness_merkle_root (H := toy) sample_leaves = Some sample_root /\
  exists proof, vault_witness_merkle_proof (H := toy) sample_leaves 1 = Some proof
    /\ vault_witness_merkle_verify (H := toy) (key sample_leaf) (hash sample_leaf) proof sample_root = true.
Proof.
  assert (vault_witness_merkle_root (H := toy) sample_leaves = Some sample_root) as Hr
    by (vm_compute; reflexivity).
  split; [exact Hr|].
  exact (merkle_proof_complete (H := toy) sample_leaves 1 sample_leaf sample_root sample_leaves_wf Hr eq_refl).
Defined.

Lemma merkle_verify_sound_witness :
  vault_witness_merkle_verify (H := toy) (key sample_leaf) (hash sample_leaf) sample_proof sample_root = true /\
  (hash sample_leaf = leaf_at (H := toy) sample_leaves (be_get (key sample_leaf)) \/
   exists b, (b < VAULT_WITNESS_SMT_DEPTH)%nat /\
    collides (H := toy)
      (step_message (key sample_leaf) sample_proof
         (climb (H := toy) (key sample_leaf) sample_proof (S b) (63 - b) (hash sample_leaf)) b)
      (tree_message (H := toy) (leaf_at (H := toy) sample_leaves) (be_get (key sample_leaf)) b)).
Proof.
  assert (vault_witness_merkle_verify (H := toy) (key sample_leaf) (hash sample_leaf)
            sample_proof sample_root = true) as Hv by (vm_compute; reflexivity).
  split; [exact Hv|]. apply (merkle_verify_sound (H := toy) sample_leaves sample_root).
  - exact sample_leaves_wf.
  - vm_compute; reflexivity.
  - split; [apply be_put_length | apply be_put_is_bytes].
  - apply be_put_length.
  - vm_compute; reflexivity.
  - apply (Forall_check _ (fun s : bytes => Nat.eqb (length s) 32)); [intros s; apply Nat.eqb_eq|].
    vm_compute; reflexivity.
  - exact Hv.
Defined.

End WitnessMerkle.
