(* ===== verification/WitnessProof.v ===== *)
(** * Emitted inclusion proofs ([src/src/modules/vault/vault_witness_proof.c])

    The wire form of an inclusion proof: the shard identity, the checkpoint
    sequence and the depth-64 sibling path.  Shown: the wire form
    round-trips within the advertised size, and decoding accepts only the
    encoding of a valid proof. *)

From Stdlib Require Import ZArith Lia String Ascii.
From stdpp Require Import base numbers option list.
From S2P Require Import Prelude.
From S2P Require Import Wire.
From S2P Require Import WitnessRecord.
From S2P Require Import WitnessMerkle.

Module WitnessProof.

Definition TENANT_MAX : Z := WitnessRecord.VAULT_WITNESS_TENANT_MAX.
Definition PROVIDER_MAX : Z := WitnessRecord.VAULT_WITNESS_PROVIDER_MAX.
Definition DEPTH : nat := WitnessMerkle.VAULT_WITNESS_SMT_DEPTH.

Definition VAULT_WITNESS_PROOF_WIRE_MAX : Z :=
  32 + 2 + TENANT_MAX + 2 + PROVIDER_MAX + 8 + 32 + Z.of_nat DEPTH * 32.

Record vault_witness_proof_t := {
  checkpoint_seq : Z;
  tenant : bytes;
  provider : bytes;
  sequence : Z;
  head_hash : bytes;
  path : list bytes
}.

Definition proof_magic : bytes := str "AIMWPRF1".

(** [strnlen] never looks past the bound. *)
Definition proof_valid (p : vault_witness_proof_t) : bool :=
  if sequence p =? 0 then false
  else
    let tl := Z.min (zlen (tenant p)) (TENANT_MAX + 1) in
    let pl := Z.min (zlen (provider p)) (PROVIDER_MAX + 1) in
    (1 <=? tl) && (tl <=? TENANT_MAX) && (1 <=? pl) && (pl <=? PROVIDER_MAX).

Definition vault_witness_proof_encode (p : vault_witness_proof_t) (cap : Z) : option bytes :=
  if negb (proof_valid p) then None
  else
    let tl := zlen (tenant p) in
    let pl := zlen (provider p) in
    let need := 8 + 2 + 8 + 2 + tl + 2 + pl + 8 + 32 + Z.of_nat DEPTH * 32 in
    if cap <? need then None
    else Some (proof_magic ++ put_u16 1 ++ put_u64 (checkpoint_seq p)
               ++ put_u16 tl ++ tenant p ++ put_u16 pl ++ provider p
               ++ put_u64 (sequence p) ++ head_hash p ++ concat (path p)).

(** One of the two name fields: a non-empty, bounded text without NUL. *)
Definition get_name (wire : bytes) (off : nat) (cap : Z) : option (bytes * nat) :=
  if zlen wire <? Z.of_nat off + 2 then None
  else
    let len := get_u16 (drop off wire) in
    let off := (off + 2)%nat in
    let s := take (Z.to_nat len) (drop off wire) in
    if (len =? 0) || (cap <? len) || (zlen wire <? Z.of_nat off + len) || has_byte 0 s
    then None else Some (s, (off + Z.to_nat len)%nat).

(** [memcpy] of an [n] x 32 array out of a buffer. *)
Fixpoint rows32 (n : nat) (l : bytes) : list bytes :=
  match n with
  | O => []
  | S n => take 32 l :: rows32 n (drop 32 l)
  end.

Definition vault_witness_proof_decode (wire : bytes) : option vault_witness_proof_t :=
  if (zlen wire <? 8 + 2 + 8 + 2) || negb (bytes_eqb (take 8 wire) proof_magic)
     || negb (get_u16 (drop 8 wire) =? 1)
  then None
  else
    let seq := get_u64 (drop 10 wire) in
    '(t, off) ← get_name wire 18 TENANT_MAX;
    '(pr, off) ← get_name wire off PROVIDER_MAX;
    if negb (Z.of_nat off + 8 + 32 + Z.of_nat DEPTH * 32 =? zlen wire) then None
    else
      let tmp := {| checkpoint_seq := seq; tenant := t; provider := pr;
                    sequence := get_u64 (drop off wire);
                    head_hash := take 32 (drop (off + 8) wire);
                    path := rows32 DEPTH (drop (off + 40) wire) |} in
      if negb (proof_valid tmp) then None else Some tmp.

Definition vault_witness_proof_verify `{Sha256} (p : vault_witness_proof_t) (root : bytes) : bool :=
  if negb (proof_valid p) then false
  else
    match WitnessRecord.vault_witness_shard_key_hash (tenant p) (provider p),
          WitnessMerkle.vault_witness_leaf_hash (tenant p) (provider p) (sequence p) (head_hash p) with
    | Some key, Some leaf => WitnessMerkle.vault_witness_merkle_verify key leaf (path p) root
    | _, _ => false
    end.

(** What the struct's field types guarantee. *)
Definition row32 (s : bytes) : Prop := length s = 32%nat /\ is_bytes s.

Definition wf_proof (p : vault_witness_proof_t) : Prop :=
  0 <= checkpoint_seq p < 2 ^ 64 /\ 0 <= sequence p < 2 ^ 64
  /\ cstr (tenant p) /\ cstr (provider p) /\ row32 (head_hash p)
  /\ length (path p) = DEPTH /\ Forall row32 (path p).

(** ** Rows *)

Lemma concat_rows rows : Forall row32 rows -> zlen (concat rows) = 32 * Z.of_nat (length rows).
Proof.
  induction 1 as [|r rows [Hr _] _ IH]; [done|]. cbn [concat length]. rewrite zlen_app, IH.
  unfold zlen. rewrite Hr. lia.
Qed.

Lemma rows32_concat rows : Forall row32 rows -> rows32 (length rows) (concat rows) = rows.
Proof.
  induction 1 as [|r rows [Hr _] _ IH]; [done|]. cbn [concat length rows32].
  by rewrite take_field, drop_app_length', IH.
Qed.

Lemma rows32_spec n l : is_bytes l -> length l = (n * 32)%nat ->
  concat (rows32 n l) = l /\ length (rows32 n l) = n /\ Forall row32 (rows32 n l).
Proof.
  revert l. induction n as [|n IH]; intros l Hb Hl.
  - destruct l; [|done]. by split_and!; try constructor.
  - destruct (IH (drop 32 l)) as (E1 & E2 & E3); [auto with aimee | rewrite length_drop; lia |].
    cbn [rows32 concat length]. rewrite E1, E2, take_drop. split_and!; try done.
    apply Forall_cons_2; [|done]. split; [rewrite length_take; lia | auto with aimee].
Qed.

(** ** Names *)

Lemma get_name_wire wire off cap s off' :
  get_name wire off cap = Some (s, off') <->
  wire_get_str wire off cap = Some (s, off') /\ s <> [].
Proof.
  pose proof (get_u16_range (drop off wire)) as Hr. unfold get_name, wire_get_str.
  destruct (zlen wire <? _); [by split; [|intros []]|].
  rewrite !Z2Nat.id by lia.
  set (n := get_u16 (drop off wire)) in *.
  destruct (Z.eqb_spec n 0) as [Hn|Hn]; cbn [orb].
  - rewrite Hn. cbn [Z.to_nat take]. split; [done|]. intros [E Hs]. case_match; simplify_eq.
    by case_match; simplify_eq.
  - destruct (Z.ltb_spec cap n), (Z.ltb_spec (zlen wire) (Z.of_nat (off + 2) + n)); cbn [orb];
      try (by split; [|intros []]).
    destruct (has_byte 0 _); [by split; [|intros []]|].
    split; [intros [= <- <-] | by intros [[= <- <-] _]]. split; [done|].
    intros E. apply (f_equal length) in E. rewrite length_take, length_drop in E. cbn in E.
    unfold zlen in *. lia.
Qed.

Lemma proof_valid_iff p : proof_valid p = true <->
  sequence p <> 0 /\ (1 <= zlen (tenant p) <= 128 /\ 1 <= zlen (provider p) <= 128).
Proof.
  unfold proof_valid, TENANT_MAX, PROVIDER_MAX, WitnessRecord.VAULT_WITNESS_TENANT_MAX,
    WitnessRecord.VAULT_WITNESS_PROVIDER_MAX.
  destruct (Z.eqb_spec (sequence p) 0); [by intuition|].
  rewrite !andb_true_iff, !Z.leb_le. lia.
Qed.

(** The encoding, as it stands for a valid proof. *)
Definition prefix (p : vault_witness_proof_t) : bytes :=
  proof_magic ++ put_u16 1 ++ put_u64 (checkpoint_seq p).
Definition suffix (p : vault_witness_proof_t) : bytes :=
  put_u64 (sequence p) ++ head_hash p ++ concat (path p).
Definition field (s : bytes) : bytes := put_u16 (zlen s) ++ s.
Definition proof_wire (p : vault_witness_proof_t) : bytes :=
  prefix p ++ field (tenant p) ++ field (provider p) ++ suffix p.

Lemma field_length s : zlen (field s) = 2 + zlen s.
Proof. unfold field. by rewrite zlen_app. Qed.

Lemma suffix_length p : wf_proof p -> zlen (suffix p) = 2088.
Proof.
  intros (_ & _ & _ & _ & [Hh _] & Hp & Hr). unfold suffix.
  rewrite !zlen_app, concat_rows, Hp by done. change (zlen (put_u64 (sequence p))) with 8.
  unfold zlen. rewrite Hh. reflexivity.
Qed.

Lemma encode_wire p cap : wf_proof p -> proof_valid p = true -> zlen (proof_wire p) <= cap ->
  vault_witness_proof_encode p cap = Some (proof_wire p).
Proof.
  intros Hwf Hv. unfold proof_wire. rewrite !zlen_app, suffix_length, !field_length by done.
  change (zlen (prefix p)) with 18. unfold vault_witness_proof_encode. rewrite Hv. cbn [negb].
  change (Z.of_nat DEPTH * 32) with 2048. intros Hcap.
  destruct (Z.ltb_spec cap (8 + 2 + 8 + 2 + zlen (tenant p) + 2 + zlen (provider p) + 8 + 32 + 2048));
    [lia|].
  unfold prefix, field, suffix. by rewrite <- !app_assoc.
Qed.

Lemma get_name_field pre s post cap : cstr s -> 1 <= zlen s <= 128 -> zlen s <= cap ->
  get_name (pre ++ field s ++ post) (length pre) cap = Some (s, length (pre ++ field s)).
Proof.
  intros Hs Hl Hc. apply get_name_wire. split; [apply wire_get_put_str; (done || lia)|].
  intros ->. by destruct Hl.
Qed.

Lemma decode_wire p : wf_proof p -> proof_valid p = true ->
  vault_witness_proof_decode (proof_wire p) = Some p.
Proof.
  intros Hwf Hv. pose proof Hwf as (Hseq & Hsq & Ht & Hp & [Hh Hhb] & Hpl & Hrows).
  pose proof (proj1 (proof_valid_iff p) Hv) as (_ & Lt & Lp).
  unfold vault_witness_proof_decode.
  assert (zlen (proof_wire p) = 18 + (2 + zlen (tenant p)) + (2 + zlen (provider p)) + 2088) as Hz.
  { unfold proof_wire. rewrite !zlen_app, suffix_length, !field_length by done.
    change (zlen (prefix p)) with 18. lia. }
  assert (take 8 (proof_wire p) = proof_magic) as -> by done.
  assert (get_u16 (drop 8 (proof_wire p)) = 1) as -> by done.
  assert (get_u64 (drop 10 (proof_wire p)) = checkpoint_seq p) as ->.
  { unfold proof_wire, prefix. rewrite <- !app_assoc. skip_fields. by apply get_put_u64. }
  rewrite Hz, bytes_eqb_refl, Z.eqb_refl.
  destruct (Z.ltb_spec (18 + (2 + zlen (tenant p)) + (2 + zlen (provider p)) + 2088) (8 + 2 + 8 + 2));
    [lia|]. cbn [negb orb].
  assert (get_name (proof_wire p) 18 TENANT_MAX = Some (tenant p, length (prefix p ++ field (tenant p)))) as ->.
  { change 18%nat with (length (prefix p)). apply get_name_field; (done || apply Lt). }
  cbn [mbind option_bind].
  assert (proof_wire p = (prefix p ++ field (tenant p)) ++ field (provider p) ++ suffix p) as E1
    by (unfold proof_wire; by rewrite <- app_assoc).
  assert (get_name (proof_wire p) (length (prefix p ++ field (tenant p))) PROVIDER_MAX
    = Some (provider p, length ((prefix p ++ field (tenant p)) ++ field (provider p)))) as ->.
  { rewrite E1. apply get_name_field; (done || apply Lp). }
  cbn [mbind option_bind].
  assert (proof_wire p = ((prefix p ++ field (tenant p)) ++ field (provider p)) ++ suffix p) as E2
    by (unfold proof_wire; by rewrite <- !app_assoc).
  set (pre := (prefix p ++ field (tenant p)) ++ field (provider p)) in *.
  assert (zlen pre = 18 + (2 + zlen (tenant p)) + (2 + zlen (provider p))) as Hpre.
  { unfold pre. rewrite !zlen_app, !field_length. reflexivity. }
  fold (zlen pre). rewrite Hpre, (proj2 (Z.eqb_eq _ _)) by (change (Z.of_nat DEPTH * 32) with 2048; lia).
  cbn [negb]. rewrite E2, drop_app_length, !drop_app_add. unfold suffix.
  rewrite get_put_u64 by done. skip_fields. rewrite take_field by done. skip_fields.
  rewrite <- Hpl, rows32_concat by done. destruct p; cbn [checkpoint_seq tenant provider sequence
    head_hash path] in *. by rewrite Hv.
Qed.

Lemma proof_decode_inv w p : is_bytes w -> vault_witness_proof_decode w = Some p ->
  proof_valid p = true /\ wf_proof p /\ vault_witness_proof_encode p (zlen w) = Some w.
Proof.
  intros Hw. unfold vault_witness_proof_decode. destruct (_ || _) eqn:G; [done|].
  destruct (get_name w 18 TENANT_MAX) as [[t o1]|] eqn:G1; [cbn [mbind option_bind]|done].
  destruct (get_name w o1 PROVIDER_MAX) as [[pr o2]|] eqn:G2; [cbn [mbind option_bind]|done].
  destruct (negb (Z.of_nat _ + _ + _ + _ =? _)) eqn:G3; [done|].
  destruct (proof_valid _) eqn:Hv; [|done].
  cbn [negb]. intros Hp%(inj Some). bool_to_prop.
  change (Z.of_nat DEPTH * 32) with 2048 in *. unfold zlen in *.
  apply get_name_wire in G1 as [G1 _]. apply wire_get_str_inv in G1 as (C1 & _ & _ & O1 & T1); [|done|lia].
  apply get_name_wire in G2 as [G2 _]. apply wire_get_str_inv in G2 as (C2 & _ & _ & O2 & T2); [|done|lia].
  assert (forall k n, (k + n <= length w)%nat -> (n <= length (drop k w))%nat) as Hl
    by (intros k n Hk; rewrite length_drop; lia).
  destruct (rows32_spec DEPTH (drop (o2 + 40) w)) as (R1 & R2 & R3);
    [auto with aimee | rewrite length_drop; change (DEPTH * 32)%nat with 2048%nat; lia |].
  assert (wf_proof p) as Hwf.
  { subst p. unfold wf_proof. cbn [checkpoint_seq tenant provider sequence head_hash path].
    split_and!; try (apply get_u64_range; [auto with aimee | apply Hl; lia]); try done.
    split; [rewrite length_take; pose proof (Hl (o2 + 8)%nat 32%nat); lia | auto with aimee]. }
  rewrite Hp in Hv. do 2 (split; [done|]).
  assert (proof_wire p = w) as E.
  { rewrite <- Hp. unfold proof_wire, prefix, suffix, field.
    cbn [checkpoint_seq tenant provider sequence head_hash path].
    rewrite R1, !put_get_u64 by (auto with aimee; apply Hl; lia).
    assert (take 8 w = proof_magic) as <- by (by apply bytes_eqb_true).
    replace (put_u16 1) with (take 2 (drop 8 w)) by (rewrite <- put_get_u16 by auto with aimee lia; by f_equal).
    rewrite (app_assoc (take 8 w)), take_take_drop, take_take_drop.
    change (10 + 8)%nat with 18%nat.
    rewrite app_assoc, <- T1, app_assoc, <- T2.
    rewrite (app_assoc (take o2 w)), take_take_drop, app_assoc, take_take_drop.
    replace (o2 + 8 + 32)%nat with (o2 + 40)%nat by lia. apply take_drop. }
  fold (zlen w). rewrite encode_wire; [by rewrite E | done | done | rewrite E; lia].
Qed.

(** ** Properties *)

(** A valid proof encodes within the advertised wire size and its wire form
    decodes to the same proof. *)
Theorem proof_roundtrip p : wf_proof p -> proof_valid p = true ->
  exists w, vault_witness_proof_encode p VAULT_WITNESS_PROOF_WIRE_MAX = Some w
    /\ vault_witness_proof_decode w = Some p.
Proof.
  intros Hwf Hv. exists (proof_wire p). split; [|by apply decode_wire].
  apply encode_wire; [done..|]. apply proof_valid_iff in Hv as (_ & Lt & Lp).
  unfold proof_wire. rewrite !zlen_app, suffix_length, !field_length by done.
  change (zlen (prefix p)) with 18. change VAULT_WITNESS_PROOF_WIRE_MAX with 2380. lia.
Qed.

(** Decoding accepts canonical encodings only: a decoded proof is valid and
    re-encodes to exactly the bytes that were read. *)
Theorem proof_decode_canonical w p : is_bytes w -> vault_witness_proof_decode w = Some p ->
  proof_valid p = true /\ wf_proof p /\ vault_witness_proof_encode p (zlen w) = Some w.
Proof. apply proof_decode_inv. Qed.

(** ** Samples *)

Definition sample : vault_witness_proof_t :=
  {| checkpoint_seq := 4; tenant := str "acme"; provider := str "aws"; sequence := 2;
     head_hash := be_put 32 99; path := replicate 64 (be_put 32 5) |}.

Lemma sample_wf : wf_proof sample.
Proof.
  split_and!; try (vm_compute; (reflexivity || discriminate)).
  - by apply cstrb_true.
  - by apply cstrb_true.
  - split; [apply be_put_length | apply be_put_is_bytes].
  - apply Forall_replicate. split; [apply be_put_length | apply be_put_is_bytes].
Qed.

Lemma proof_roundtrip_witness :
  exists w, vault_witness_proof_encode sample VAULT_WITNESS_PROOF_WIRE_MAX = Some w
    /\ vault_witness_proof_decode w = Some sample.
Proof. apply (proof_roundtrip sample sample_wf). reflexivity. Defined.

Definition sample_wire : bytes := default [] (vault_witness_proof_encode sample 4096).

Lemma proof_decode_canonical_witness :
  proof_valid sample = true /\ wf_proof sample
  /\ vault_witness_proof_encode sample (zlen sample_wire) = Some sample_wire.
Proof.
  apply (proof_decode_canonical sample_wire sample).
  - apply is_bytesb_true. vm_compute. reflexivity.
  - vm_compute. reflexivity.
Defined.

End WitnessProof.
