(* ===== verification/WitnessCheckpoint.v ===== *)
(** * Signed checkpoints ([src/src/modules/vault/vault_witness_checkpoint.c])

    The canonical signable body of a checkpoint, its wire form, signing,
    verification against an anchor set and the continuity verdict.  Ed25519
    is a parameter: signing fills the signature buffer and reports success,
    and what it documents is that a signature it made verifies under the
    matching public key.  Shown: decoding accepts exactly the canonical
    encodings, the digest binds every signed field, and verification says OK
    exactly when the first anchor with the signer's key id is not revoked and
    its key verifies the body. *)

From Stdlib Require Import ZArith Lia String Ascii.
From stdpp Require Import base numbers option list.
From S2P Require Import Prelude.
From S2P Require Import Wire.

(** ** Ed25519 (OpenSSL's EVP interface)

    [ed25519_sign priv msg] is the signature length reported on success and
    the bytes left in the 64-byte signature buffer. *)
Class Ed25519 := {
  ed25519_pub : bytes -> bytes;
  ed25519_sign : bytes -> bytes -> option Z * bytes;
  ed25519_check : bytes -> bytes -> bytes -> bool;
  ed25519_sign_buffer : forall priv m, length (ed25519_sign priv m).2 = 64%nat;
  ed25519_sign_bytes : forall priv m, is_bytes (ed25519_sign priv m).2;
  ed25519_correct : forall priv m s,
    ed25519_sign priv m = (Some 64, s) -> ed25519_check (ed25519_pub priv) m s = true
}.

(** A concrete instance to evaluate the definitions on. *)
Definition toy_sign (key m : bytes) : bytes := toy_sha256 (key ++ m) ++ toy_sha256 (m ++ key).

Program Definition toy_ed25519 : Ed25519 :=
  {| ed25519_pub := fun priv => priv;
     ed25519_sign := fun priv m => (Some 64, toy_sign priv m);
     ed25519_check := fun pub m s => bytes_eqb s (toy_sign pub m) |}.
Next Obligation. reflexivity. Qed.
Next Obligation. intros. apply is_bytes_app. split; apply toy_sha256_bytes. Qed.
Next Obligation. cbn. intros priv m s [= <-]. apply bytes_eqb_refl. Qed.

Module WitnessCheckpoint.

Definition VAULT_WITNESS_CHECKPOINT_LABEL : bytes := str "aimee-vault-witness-checkpoint-v1".
Definition VAULT_WITNESS_SIGNER_KEY_ID_LEN : Z := 16.
Definition VAULT_WITNESS_ED25519_SIG_LEN : Z := 64.
Definition VAULT_WITNESS_CP_CREATED_AT_MAX : Z := 40.
Definition VAULT_WITNESS_CHECKPOINT_WIRE_MAX : Z := 640.
Definition VAULT_WITNESS_SIG_ED25519 : Z := 1.

Record vault_witness_checkpoint_t := {
  version : Z;
  seq : Z;
  root : bytes;
  has_predecessor : Z;
  predecessor_digest : bytes;
  shard_count : Z;
  leaf_snapshot_digest : bytes;
  signer_key_id : bytes;
  sig_alg : Z;
  sig_version : Z;
  created_at : bytes;
  signature : bytes
}.

Record vault_witness_anchor_t := {
  key_id : bytes;
  ed25519_pubkey : bytes;
  revoked : Z
}.

Inductive vault_witness_cp_verdict_t :=
| VAULT_WITNESS_CP_OK
| VAULT_WITNESS_CP_MALFORMED
| VAULT_WITNESS_CP_UNKNOWN_KEY
| VAULT_WITNESS_CP_REVOKED_KEY
| VAULT_WITNESS_CP_BAD_SIG.

Inductive vault_witness_continuity_t :=
| VAULT_WITNESS_CONTINUITY_OK
| VAULT_WITNESS_CONTINUITY_UNPROVEN
| VAULT_WITNESS_CONTINUITY_BROKEN.

#[global] Instance continuity_eq_dec : EqDecision vault_witness_continuity_t.
Proof. solve_decision. Defined.

Definition checkpoint_valid (cp : vault_witness_checkpoint_t) : bool :=
  if negb (version cp =? 1) || negb (sig_alg cp =? VAULT_WITNESS_SIG_ED25519) then false
  else if (has_predecessor cp =? 0) && negb (all_zero (predecessor_digest cp)) then false
  else
    let ca := Z.min (zlen (created_at cp)) (VAULT_WITNESS_CP_CREATED_AT_MAX + 1) in
    if (ca =? 0) || (VAULT_WITNESS_CP_CREATED_AT_MAX <? ca) then false else true.

Definition vault_witness_checkpoint_signable (cp : vault_witness_checkpoint_t) (cap : Z)
    : option bytes :=
  if negb (checkpoint_valid cp) then None
  else
    let label_len := zlen VAULT_WITNESS_CHECKPOINT_LABEL in
    let ca_len := zlen (created_at cp) in
    let need := 4 + label_len + 2 + 8 + 32 + 1 + 32 + 8 + 32
                + VAULT_WITNESS_SIGNER_KEY_ID_LEN + 2 + 2 + 4 + ca_len in
    if cap <? need then None
    else Some (put_u32 (u32 label_len) ++ VAULT_WITNESS_CHECKPOINT_LABEL
               ++ put_u16 (version cp) ++ put_u64 (seq cp) ++ root cp
               ++ [if has_predecessor cp =? 0 then 0 else 1]
               ++ predecessor_digest cp ++ put_u64 (shard_count cp)
               ++ leaf_snapshot_digest cp ++ signer_key_id cp
               ++ put_u16 (sig_alg cp) ++ put_u16 (sig_version cp)
               ++ put_u32 (u32 ca_len) ++ created_at cp).

Definition vault_witness_checkpoint_digest `{Sha256} (cp : vault_witness_checkpoint_t)
    : option bytes :=
  body ← vault_witness_checkpoint_signable cp 512; Some (sha256 body).

Definition vault_witness_checkpoint_encode (cp : vault_witness_checkpoint_t) (cap : Z)
    : option bytes :=
  body ← vault_witness_checkpoint_signable cp cap;
  if cap <? zlen body + VAULT_WITNESS_ED25519_SIG_LEN then None
  else Some (body ++ signature cp).

Definition vault_witness_checkpoint_decode (wire : bytes) : option vault_witness_checkpoint_t :=
  let label_len := zlen VAULT_WITNESS_CHECKPOINT_LABEL in
  if zlen wire <? 4 then None
  else if negb (get_u32 wire =? label_len) then None
  else if (zlen wire <? 4 + label_len)
          || negb (bytes_eqb (take 33 (drop 4 wire)) VAULT_WITNESS_CHECKPOINT_LABEL) then None
  else
    let fixed := 2 + 8 + 32 + 1 + 32 + 8 + 32 + VAULT_WITNESS_SIGNER_KEY_ID_LEN + 2 + 2 + 4 in
    if zlen wire <? 4 + label_len + fixed then None
    else
      let ca_len := get_u32 (drop 172 wire) in
      if (VAULT_WITNESS_CP_CREATED_AT_MAX <? ca_len)
         || negb (176 + ca_len + VAULT_WITNESS_ED25519_SIG_LEN =? zlen wire) then None
      else
        let n := Z.to_nat ca_len in
        if has_byte 0 (take n (drop 176 wire)) then None
        else
          let tmp :=
            {| version := get_u16 (drop 37 wire);
               seq := get_u64 (drop 39 wire);
               root := take 32 (drop 47 wire);
               has_predecessor := if at_ wire 79 =? 0 then 0 else 1;
               predecessor_digest := take 32 (drop 80 wire);
               shard_count := get_u64 (drop 112 wire);
               leaf_snapshot_digest := take 32 (drop 120 wire);
               signer_key_id := take 16 (drop 152 wire);
               sig_alg := get_u16 (drop 168 wire);
               sig_version := get_u16 (drop 170 wire);
               created_at := take n (drop 176 wire);
               signature := take 64 (drop (176 + n) wire) |} in
          match vault_witness_checkpoint_encode tmp VAULT_WITNESS_CHECKPOINT_WIRE_MAX with
          | None => None
          | Some re => if negb (zlen re =? zlen wire) || negb (bytes_eqb re wire) then None
                       else Some tmp
          end.

(** [cp->signature] overwritten, [cp->sig_alg] set. *)
Definition with_signature (cp : vault_witness_checkpoint_t) (alg : Z) (s : bytes)
    : vault_witness_checkpoint_t :=
  {| version := version cp; seq := seq cp; root := root cp;
     has_predecessor := has_predecessor cp; predecessor_digest := predecessor_digest cp;
     shard_count := shard_count cp; leaf_snapshot_digest := leaf_snapshot_digest cp;
     signer_key_id := signer_key_id cp; sig_alg := alg; sig_version := sig_version cp;
     created_at := created_at cp; signature := s |}.

(** The return value is 0 or -1; the struct is updated in either case. *)
Definition vault_witness_checkpoint_sign_ed25519 `{Ed25519} (cp : vault_witness_checkpoint_t)
    (priv : bytes) : Z * vault_witness_checkpoint_t :=
  let cp := with_signature cp VAULT_WITNESS_SIG_ED25519 (replicate 64 0) in
  match vault_witness_checkpoint_signable cp 512 with
  | None => (-1, cp)
  | Some body =>
      let '(siglen, s) := ed25519_sign priv body in
      let cp := with_signature cp (sig_alg cp) s in
      match siglen with
      | Some n => if n =? VAULT_WITNESS_ED25519_SIG_LEN then (0, cp) else (-1, cp)
      | None => (-1, cp)
      end
  end.

Definition vault_witness_checkpoint_verify `{Ed25519} (cp : vault_witness_checkpoint_t)
    (anchors : list vault_witness_anchor_t) : vault_witness_cp_verdict_t :=
  if negb (checkpoint_valid cp) then VAULT_WITNESS_CP_MALFORMED
  else
    match find (fun a => bytes_eqb (key_id a) (signer_key_id cp)) anchors with
    | None => VAULT_WITNESS_CP_UNKNOWN_KEY
    | Some a =>
        if negb (revoked a =? 0) then VAULT_WITNESS_CP_REVOKED_KEY
        else
          match vault_witness_checkpoint_signable cp 512 with
          | None => VAULT_WITNESS_CP_MALFORMED
          | Some body =>
              if ed25519_check (ed25519_pubkey a) body (signature cp)
              then VAULT_WITNESS_CP_OK else VAULT_WITNESS_CP_BAD_SIG
          end
    end.

Definition vault_witness_checkpoint_continuity (cp : vault_witness_checkpoint_t)
    (expected_predecessor : option bytes) : vault_witness_continuity_t :=
  match expected_predecessor with
  | None => VAULT_WITNESS_CONTINUITY_UNPROVEN
  | Some expected =>
      if has_predecessor cp =? 0 then VAULT_WITNESS_CONTINUITY_BROKEN
      else if bytes_eqb (predecessor_digest cp) expected
           then VAULT_WITNESS_CONTINUITY_OK else VAULT_WITNESS_CONTINUITY_BROKEN
  end.

(** What the struct's field types guarantee. *)
Definition buf (n : nat) (s : bytes) : Prop := length s = n /\ is_bytes s.

Definition wf_checkpoint (cp : vault_witness_checkpoint_t) : Prop :=
  0 <= version cp < 2 ^ 16 /\ 0 <= seq cp < 2 ^ 64 /\ buf 32 (root cp)
  /\ buf 32 (predecessor_digest cp) /\ 0 <= shard_count cp < 2 ^ 64
  /\ buf 32 (leaf_snapshot_digest cp) /\ buf 16 (signer_key_id cp)
  /\ 0 <= sig_alg cp < 2 ^ 16 /\ 0 <= sig_version cp < 2 ^ 16
  /\ cstr (created_at cp) /\ buf 64 (signature cp).

(** The flag as the 0/1 value it stands for. *)
Definition normalize (cp : vault_witness_checkpoint_t) : vault_witness_checkpoint_t :=
  {| version := version cp; seq := seq cp; root := root cp;
     has_predecessor := if has_predecessor cp =? 0 then 0 else 1;
     predecessor_digest := predecessor_digest cp;
     shard_count := shard_count cp; leaf_snapshot_digest := leaf_snapshot_digest cp;
     signer_key_id := signer_key_id cp; sig_alg := sig_alg cp; sig_version := sig_version cp;
     created_at := created_at cp; signature := signature cp |}.

(** ** The signable body *)

Definition body_message (cp : vault_witness_checkpoint_t) : bytes :=
  put_u32 33 ++ VAULT_WITNESS_CHECKPOINT_LABEL
  ++ put_u16 (version cp) ++ put_u64 (seq cp) ++ root cp
  ++ [if has_predecessor cp =? 0 then 0 else 1]
  ++ predecessor_digest cp ++ put_u64 (shard_count cp)
  ++ leaf_snapshot_digest cp ++ signer_key_id cp
  ++ put_u16 (sig_alg cp) ++ put_u16 (sig_version cp)
  ++ put_u32 (u32 (zlen (created_at cp))) ++ created_at cp.

Lemma checkpoint_valid_iff cp : checkpoint_valid cp = true <->
  version cp = 1 /\ sig_alg cp = 1
  /\ (has_predecessor cp = 0 -> all_zero (predecessor_digest cp) = true)
  /\ 1 <= zlen (created_at cp) <= 40.
Proof.
  unfold checkpoint_valid, VAULT_WITNESS_SIG_ED25519, VAULT_WITNESS_CP_CREATED_AT_MAX.
  pose proof (zlen_nonneg (created_at cp)).
  destruct (Z.eqb_spec (version cp) 1), (Z.eqb_spec (sig_alg cp) 1); cbn [negb orb];
    try (by intuition).
  destruct (Z.eqb_spec (has_predecessor cp) 0), (all_zero (predecessor_digest cp)); cbn [negb andb];
    try (by intuition);
  destruct (Z.eqb_spec (Z.min (zlen (created_at cp)) (40 + 1)) 0),
    (Z.ltb_spec 40 (Z.min (zlen (created_at cp)) (40 + 1))); cbn [orb];
    intuition (congruence || lia).
Qed.

Lemma cp_body_length cp : wf_checkpoint cp -> zlen (body_message cp) = 176 + zlen (created_at cp).
Proof.
  intros (_ & _ & [L1 _] & [L2 _] & _ & [L3 _] & [L4 _] & _).
  unfold body_message. rewrite !zlen_app. change (zlen VAULT_WITNESS_CHECKPOINT_LABEL) with 33.
  unfold zlen. autorewrite with aimee. rewrite L1, L2, L3, L4. cbn [length]. lia.
Qed.

Lemma signable_eq cp cap : checkpoint_valid cp = true -> 176 + zlen (created_at cp) <= cap ->
  vault_witness_checkpoint_signable cp cap = Some (body_message cp).
Proof.
  intros Hv Hcap. unfold vault_witness_checkpoint_signable. rewrite Hv. cbn [negb].
  change (zlen VAULT_WITNESS_CHECKPOINT_LABEL) with 33.
  destruct (Z.ltb_spec cap (4 + 33 + 2 + 8 + 32 + 1 + 32 + 8 + 32
    + VAULT_WITNESS_SIGNER_KEY_ID_LEN + 2 + 2 + 4 + zlen (created_at cp)));
    [unfold VAULT_WITNESS_SIGNER_KEY_ID_LEN in *; lia | done].
Qed.

Lemma signable_512 cp : checkpoint_valid cp = true ->
  vault_witness_checkpoint_signable cp 512 = Some (body_message cp).
Proof. intros Hv. apply signable_eq; [done|]. apply checkpoint_valid_iff in Hv. lia. Qed.

Lemma signable_valid cp cap b : vault_witness_checkpoint_signable cp cap = Some b ->
  checkpoint_valid cp = true.
Proof. unfold vault_witness_checkpoint_signable. by destruct (checkpoint_valid cp). Qed.

Lemma cp_encode_eq cp : wf_checkpoint cp -> checkpoint_valid cp = true ->
  vault_witness_checkpoint_encode cp VAULT_WITNESS_CHECKPOINT_WIRE_MAX
  = Some (body_message cp ++ signature cp).
Proof.
  intros Hwf Hv. pose proof (proj1 (checkpoint_valid_iff cp) Hv) as (_ & _ & _ & Hca).
  unfold vault_witness_checkpoint_encode, VAULT_WITNESS_CHECKPOINT_WIRE_MAX, VAULT_WITNESS_ED25519_SIG_LEN.
  rewrite signable_eq by (done || lia). cbn [mbind option_bind]. rewrite cp_body_length by done.
  destruct (Z.ltb_spec 640 (176 + zlen (created_at cp) + 64)); [lia | done].
Qed.

Lemma encode_valid cp cap w : vault_witness_checkpoint_encode cp cap = Some w ->
  checkpoint_valid cp = true.
Proof.
  unfold vault_witness_checkpoint_encode.
  destruct (vault_witness_checkpoint_signable cp cap) eqn:E; [|done]. intros _.
  by eapply signable_valid.
Qed.

(** What the decoder reads at its fixed offsets. *)
Lemma body_fields cp s : wf_checkpoint cp -> zlen (created_at cp) < 2 ^ 32 ->
  let w := body_message cp ++ s in
  (get_u32 w = 33 /\ take 33 (drop 4 w) = VAULT_WITNESS_CHECKPOINT_LABEL)
  /\ (get_u16 (drop 37 w) = version cp /\ get_u64 (drop 39 w) = seq cp
      /\ take 32 (drop 47 w) = root cp /\ at_ w 79 = (if has_predecessor cp =? 0 then 0 else 1)
      /\ take 32 (drop 80 w) = predecessor_digest cp /\ get_u64 (drop 112 w) = shard_count cp)
  /\ (take 32 (drop 120 w) = leaf_snapshot_digest cp /\ take 16 (drop 152 w) = signer_key_id cp
      /\ get_u16 (drop 168 w) = sig_alg cp /\ get_u16 (drop 170 w) = sig_version cp
      /\ get_u32 (drop 172 w) = zlen (created_at cp) /\ drop 176 w = created_at cp ++ s).
Proof.
  intros (Hver & Hseq & [L1 _] & [L2 _] & Hsc & [L3 _] & [L4 _] & Halg & Hsv & _) Hca.
  pose proof (zlen_nonneg (created_at cp)).
  cbv zeta. unfold body_message. rewrite <- !app_assoc, (at_drop _ 79).
  rewrite u32_small by lia.
  split_and!; skip_fields;
    first [ reflexivity | by apply get_put_u16 | by apply get_put_u64 | by apply take_field
          | apply get_put_u32; lia | done ].
Qed.

Lemma cp_decode_encoded cp : wf_checkpoint cp -> checkpoint_valid cp = true ->
  vault_witness_checkpoint_decode (body_message cp ++ signature cp) = Some (normalize cp).
Proof.
  intros Hwf Hv. pose proof (proj1 (checkpoint_valid_iff cp) Hv) as (_ & _ & Hz & Hca).
  destruct (body_fields cp (signature cp) Hwf ltac:(lia)) as ((F0 & F4) &
    (F37 & F39 & F47 & F79 & F80 & F112) & (F120 & F152 & F168 & F170 & F172 & F176)).
  pose proof Hwf as (_ & _ & _ & _ & _ & _ & _ & _ & _ & Hc & [Hs _]).
  assert (zlen (body_message cp ++ signature cp) = 176 + zlen (created_at cp) + 64) as Hw.
  { rewrite zlen_app, cp_body_length by done. unfold zlen at 2. by rewrite Hs. }
  assert (body_message (normalize cp) = body_message cp) as Hb.
  { unfold body_message, normalize. cbn. by destruct (has_predecessor cp =? 0). }
  set (w := body_message cp ++ signature cp) in *.
  unfold vault_witness_checkpoint_decode, VAULT_WITNESS_CP_CREATED_AT_MAX,
    VAULT_WITNESS_ED25519_SIG_LEN.
  change (zlen VAULT_WITNESS_CHECKPOINT_LABEL) with 33. cbv zeta.
  rewrite F0, F4, F172, Hw, bytes_eqb_refl, !Z.eqb_refl. cbn [negb].
  repeat match goal with |- context [?a <? ?b] => destruct (Z.ltb_spec a b);
    [unfold VAULT_WITNESS_SIGNER_KEY_ID_LEN in *; lia|] end. cbn [orb].
  unfold zlen. rewrite Nat2Z.id, <- drop_drop, F176, take_app_length, drop_app_length.
  rewrite (cstr_no_nul _ Hc), F37, F39, F47, F79, F80, F112, F120, F152, F168, F170.
  rewrite take_ge by lia.
  replace (if (if has_predecessor cp =? 0 then 0 else 1) =? 0 then 0 else 1)
    with (if has_predecessor cp =? 0 then 0 else 1) by (by destruct (has_predecessor cp =? 0)).
  fold (normalize cp). rewrite cp_encode_eq.
  - rewrite Hb. change (signature (normalize cp)) with (signature cp). fold w.
    fold (zlen w). fold (zlen (created_at cp)). by rewrite Hw, Z.eqb_refl, bytes_eqb_refl.
  - exact Hwf.
  - apply checkpoint_valid_iff. apply checkpoint_valid_iff in Hv as (Hv1 & Hv2 & _).
    split_and!; try done; [|apply Hca..]. intros Hp. apply Hz. cbn in Hp. by destruct (Z.eqb_spec (has_predecessor cp) 0).
Qed.

Lemma cp_decode_inv w cp : is_bytes w -> vault_witness_checkpoint_decode w = Some cp ->
  vault_witness_checkpoint_encode cp VAULT_WITNESS_CHECKPOINT_WIRE_MAX = Some w
  /\ normalize cp = cp /\ wf_checkpoint cp.
Proof.
  intros Hw. unfold vault_witness_checkpoint_decode, VAULT_WITNESS_CP_CREATED_AT_MAX,
    VAULT_WITNESS_ED25519_SIG_LEN, VAULT_WITNESS_SIGNER_KEY_ID_LEN.
  change (zlen VAULT_WITNESS_CHECKPOINT_LABEL) with 33. cbv zeta.
  destruct (zlen w <? 4) eqn:G1; [done|]. destruct (negb (get_u32 w =? 33)) eqn:G2; [done|].
  destruct ((_ <? 4 + 33) || _) eqn:G3; [done|]. destruct (zlen w <? 4 + 33 + _) eqn:G4; [done|].
  destruct ((40 <? _) || _) eqn:G5; [done|]. destruct (has_byte 0 _) eqn:G6; [done|].
  destruct (vault_witness_checkpoint_encode _ _) as [re|] eqn:He; [|done].
  destruct (negb (zlen re =? zlen w) || _) eqn:G7; [done|]. intros E%(inj Some). bool_to_prop.
  apply bytes_eqb_true in H0. subst re. rewrite E in He. split; [done|].
  assert (forall k n, (k + n <= 176)%nat -> (n <= length (drop k w))%nat) as Hl
    by (intros k n Hk; rewrite length_drop; unfold zlen in *; lia).
  pose proof (get_u32_range (drop 172 w) ltac:(auto with aimee) ltac:(apply Hl; lia)) as Hca.
  assert (forall k n, (k + n <= length w)%nat -> buf n (take n (drop k w))) as Hbuf.
  { intros k n Hk. split; [rewrite length_take, length_drop; lia | auto with aimee]. }
  unfold zlen in *. subst cp. split; [unfold normalize; cbn; by destruct (at_ w 79 =? 0)|].
  split_and!; cbn [version seq root has_predecessor predecessor_digest shard_count
    leaf_snapshot_digest signer_key_id sig_alg sig_version created_at signature];
    try apply get_u16_range; try (apply get_u64_range; [auto with aimee | apply Hl; lia]);
    try (apply Hbuf; lia).
  apply no_nul_cstr; auto with aimee.
Qed.

Section signed.
Context `{Sha256} `{Ed25519}.

(** Two bodies agree on every field the digest and the signature cover. *)
Lemma body_message_inj a b : wf_checkpoint a -> wf_checkpoint b ->
  checkpoint_valid a = true -> checkpoint_valid b = true ->
  body_message a = body_message b ->
  normalize (with_signature a (sig_alg a) (signature b)) = normalize b.
Proof.
  intros Ha Hb Va Vb E. apply checkpoint_valid_iff in Va as (_ & _ & _ & Ca), Vb as (_ & _ & _ & Cb).
  destruct (body_fields a [] Ha ltac:(lia)) as (_ & (A1 & A2 & A3 & A4 & A5 & A6) &
    (A7 & A8 & A9 & A10 & _ & A12)).
  destruct (body_fields b [] Hb ltac:(lia)) as (_ & (B1 & B2 & B3 & B4 & B5 & B6) &
    (B7 & B8 & B9 & B10 & _ & B12)).
  rewrite E in *. unfold normalize, with_signature. cbn.
  rewrite <- A1, <- A2, <- A3, <- A4, <- A5, <- A6, <- A7, <- A8, <- A9, <- A10.
  rewrite B1, B2, B3, B4, B5, B6, B7, B8, B9, B10.
  assert (created_at a = created_at b) as -> by (rewrite !app_nil_r in A12, B12; congruence). done.
Qed.

(** ** Properties *)

(** Decoding accepts exactly the canonical encodings: a byte string decodes
    to a checkpoint iff it is that checkpoint's encoding and the checkpoint
    is in normal form (flag 0 or 1, fields in their widths). *)
Theorem checkpoint_decode_iff w cp : is_bytes w -> wf_checkpoint cp ->
  vault_witness_checkpoint_decode w = Some cp <->
  vault_witness_checkpoint_encode cp VAULT_WITNESS_CHECKPOINT_WIRE_MAX = Some w /\ normalize cp = cp.
Proof.
  intros Hw Hwf. split.
  - intros Hd. apply cp_decode_inv in Hd as (He & Hn & _); done.
  - intros [He Hn]. pose proof (encode_valid _ _ _ He) as Hv.
    rewrite cp_encode_eq in He by done. apply (inj Some) in He as <-.
    by rewrite cp_decode_encoded, Hn by done.
Qed.

(** The checkpoint digest binds every signed field: two checkpoints with
    the same digest differ in their signatures at most, unless their two
    bodies are a SHA-256 collision. *)
Theorem checkpoint_digest_binds a b d : wf_checkpoint a -> wf_checkpoint b ->
  vault_witness_checkpoint_digest a = Some d -> vault_witness_checkpoint_digest b = Some d ->
  normalize (with_signature a (sig_alg a) (signature b)) = normalize b
  \/ collides (body_message a) (body_message b).
Proof.
  intros Ha Hb. unfold vault_witness_checkpoint_digest.
  destruct (vault_witness_checkpoint_signable a 512) eqn:Ea; [cbn [mbind option_bind]|done].
  destruct (vault_witness_checkpoint_signable b 512) eqn:Eb; [cbn [mbind option_bind]|done].
  intros Da Db. pose proof (signable_valid _ _ _ Ea) as Va. pose proof (signable_valid _ _ _ Eb) as Vb.
  rewrite signable_512 in Ea, Eb by done. simplify_eq.
  destruct (decide (body_message a = body_message b)) as [E|]; [left | right].
  - by apply body_message_inj.
  - split; congruence.
Qed.

(** Verification says OK exactly when the checkpoint is well-formed, the
    first anchor carrying the signer's key id is not revoked, and that
    anchor's key verifies the signature over the canonical body. *)
Theorem checkpoint_verify_ok_iff cp anchors :
  vault_witness_checkpoint_verify cp anchors = VAULT_WITNESS_CP_OK <->
  checkpoint_valid cp = true /\ exists before a after,
    anchors = before ++ a :: after /\ key_id a = signer_key_id cp
    /\ Forall (fun b => key_id b <> signer_key_id cp) before
    /\ revoked a = 0 /\ ed25519_check (ed25519_pubkey a) (body_message cp) (signature cp) = true.
Proof.
  unfold vault_witness_checkpoint_verify. destruct (checkpoint_valid cp) eqn:Hv; cbn [negb].
  2: { split; [done | by intros [? _]]. }
  rewrite signable_512 by done. split.
  - destruct (find _ anchors) as [a|] eqn:Ef; [|done].
    destruct (Z.eqb_spec (revoked a) 0); cbn [negb]; [|done]. case_match; [|done]. intros _.
    split; [done|]. apply find_split in Ef as (before & after & -> & Hk & Hb).
    exists before, a, after. split_and!; [done | by apply bytes_eqb_true | | done..].
    eapply Forall_impl; [exact Hb|]. intros b. apply bytes_eqb_false.
  - intros [_ (before & a & after & -> & Hk & Hb & Hr & Hc)].
    rewrite find_split_eq.
    + by rewrite Hr, Hc.
    + by apply bytes_eqb_true.
    + eapply Forall_impl; [exact Hb|]. intros b. apply bytes_eqb_false.
Qed.

(** Signing a well-formed checkpoint makes it verify under any anchor set
    whose first entry for the key id is the signer's unrevoked public key;
    with that entry revoked the verdict is REVOKED_KEY whatever the
    signature. *)
Theorem checkpoint_sign_verifies cp priv cp' anchors a :
  vault_witness_checkpoint_sign_ed25519 cp priv = (0, cp') ->
  find (fun x => bytes_eqb (key_id x) (signer_key_id cp)) anchors = Some a ->
  ed25519_pubkey a = ed25519_pub priv ->
  vault_witness_checkpoint_verify cp' anchors
  = if revoked a =? 0 then VAULT_WITNESS_CP_OK else VAULT_WITNESS_CP_REVOKED_KEY.
Proof.
  intros Hs Hf Hp. unfold vault_witness_checkpoint_sign_ed25519 in Hs.
  set (c0 := with_signature cp VAULT_WITNESS_SIG_ED25519 (replicate 64 0)) in Hs.
  destruct (vault_witness_checkpoint_signable c0 512) as [body|] eqn:Eb; [|done].
  destruct (ed25519_sign priv body) as [[n|] s] eqn:Es; [|done].
  destruct (Z.eqb_spec n VAULT_WITNESS_ED25519_SIG_LEN) as [->|]; [|done].
  apply (f_equal snd) in Hs. cbn in Hs. subst cp'. change VAULT_WITNESS_SIG_ED25519 with 1.
  change (sig_alg c0) with 1.
  pose proof (signable_valid _ _ _ Eb) as Hv. rewrite signable_512 in Eb by done.
  apply (inj Some) in Eb as <-.
  assert (checkpoint_valid (with_signature c0 1 s) = true) as Hv' by exact Hv.
  unfold vault_witness_checkpoint_verify. rewrite Hv'. cbn [negb].
  change (signer_key_id (with_signature c0 1 s)) with (signer_key_id cp). rewrite Hf.
  destruct (revoked a =? 0); cbn [negb]; [|done]. rewrite signable_512 by done.
  rewrite Hp. change (body_message (with_signature c0 1 s)) with (body_message c0).
  change (signature (with_signature c0 1 s)) with s. by rewrite (ed25519_correct _ _ _ Es).
Qed.

End signed.

(** ** Samples *)

Definition sample_unsigned : vault_witness_checkpoint_t :=
  {| version := 1; seq := 1; root := replicate 32 3; has_predecessor := 0;
     predecessor_digest := replicate 32 0; shard_count := 2;
     leaf_snapshot_digest := replicate 32 4; signer_key_id := replicate 16 9;
     sig_alg := 1; sig_version := 1; created_at := str "2026-01-01T00:00:00Z";
     signature := replicate 64 0 |}.

Definition sample_key : bytes := replicate 32 8.

Definition sample_signed : vault_witness_checkpoint_t :=
  (vault_witness_checkpoint_sign_ed25519 (H := toy_ed25519) sample_unsigned sample_key).2.

Definition sample_anchor (rev : Z) : vault_witness_anchor_t :=
  {| key_id := replicate 16 9; ed25519_pubkey := sample_key; revoked := rev |}.

Definition sample_wire : bytes :=
  default [] (vault_witness_checkpoint_encode sample_signed VAULT_WITNESS_CHECKPOINT_WIRE_MAX).

Lemma sample_signed_wf : wf_checkpoint sample_signed.
Proof.
  unfold wf_checkpoint, buf. split_and!; try (vm_compute; (reflexivity || discriminate));
    try (apply is_bytesb_true; vm_compute; reflexivity).
  apply cstrb_true. vm_compute. reflexivity.
Qed.

Lemma checkpoint_decode_iff_witness :
  vault_witness_checkpoint_decode sample_wire = Some sample_signed.
Proof.
  apply (checkpoint_decode_iff sample_wire sample_signed).
  - apply is_bytesb_true. vm_compute. reflexivity.
  - exact sample_signed_wf.
  - split; vm_compute; reflexivity.
Defined.

Lemma checkpoint_digest_binds_witness :
  normalize (with_signature sample_signed (sig_alg sample_signed) (signature sample_signed))
  = normalize sample_signed
  \/ collides (H := toy) (body_message sample_signed) (body_message sample_signed).
Proof.
  apply (checkpoint_digest_binds (H := toy) sample_signed sample_signed
    (default [] (vault_witness_checkpoint_digest (H := toy) sample_signed)));
    try exact sample_signed_wf; vm_compute; reflexivity.
Defined.

Lemma checkpoint_verify_ok_iff_witness :
  vault_witness_checkpoint_verify (H := toy_ed25519) sample_signed [sample_anchor 0]
  = VAULT_WITNESS_CP_OK.
Proof.
  apply (checkpoint_verify_ok_iff (H0 := toy_ed25519)). split; [vm_compute; reflexivity|].
  exists [], (sample_anchor 0), []. split_and!; [reflexivity.. | constructor | reflexivity |].
  vm_compute. reflexivity.
Defined.

Lemma checkpoint_sign_verifies_witness :
  vault_witness_checkpoint_verify (H := toy_ed25519) sample_signed [sample_anchor 0]
  = VAULT_WITNESS_CP_OK
  /\ vault_witness_checkpoint_verify (H := toy_ed25519) sample_signed [sample_anchor 1]
  = VAULT_WITNESS_CP_REVOKED_KEY.
Proof.
  split.
  - apply (checkpoint_sign_verifies (H0 := toy_ed25519) sample_unsigned sample_key
      sample_signed [sample_anchor 0] (sample_anchor 0)); vm_compute; reflexivity.
  - apply (checkpoint_sign_verifies (H0 := toy_ed25519) sample_unsigned sample_key
      sample_signed [sample_anchor 1] (sample_anchor 1)); vm_compute; reflexivity.
Defined.

End WitnessCheckpoint.
