(* ===== verification/WitnessVerify.v ===== *)
(** * Offline verification ([src/src/modules/vault/vault_witness_verify.c])

    The checks an offline consumer runs over emitted bytes: a per-shard chain
    of records, inclusion of a shard head under a signed root, and continuity
    of a run of checkpoints.  [chain] is the abstract specification of a
    correctly linked run.  Shown: the chain check decides it and reports the
    first failing record; two accepted chains with the same head are the same
    events; an accepted inclusion is one of the committed heads (up to named
    hash collisions); the continuity verdict is the one of the pairwise
    links. *)

From Stdlib Require Import ZArith Lia String Ascii.
From stdpp Require Import base numbers option sets list.
From S2P Require Import Prelude.
From S2P Require Import Wire.
From S2P Require Import WitnessRecord.
From S2P Require Import WitnessMerkle.
From S2P Require Import WitnessProof.
From S2P Require Import WitnessCheckpoint.

Module WitnessVerify.

Import WitnessRecord.

Inductive vault_witness_chain_result_t :=
| VAULT_WITNESS_CHAIN_OK
| VAULT_WITNESS_CHAIN_EMPTY
| VAULT_WITNESS_CHAIN_BAD_RECORD
| VAULT_WITNESS_CHAIN_BAD_GENESIS
| VAULT_WITNESS_CHAIN_SEQ_GAP
| VAULT_WITNESS_CHAIN_SHARD_MISMATCH
| VAULT_WITNESS_CHAIN_BROKEN_LINK.

Section verify.
Context `{Sha256}.

(** The loop over the records from index [i] on; [prev] is the record before
    and its digest (none at index 0).  The second component is
    [*break_index]. *)
Fixpoint chain_loop (i : nat) (prev : option (vault_witness_record_t * bytes))
    (records : list vault_witness_record_t) : vault_witness_chain_result_t * nat :=
  match records with
  | [] => (VAULT_WITNESS_CHAIN_OK, 0%nat)
  | r :: rest =>
      match vault_witness_record_digest r with
      | None => (VAULT_WITNESS_CHAIN_BAD_RECORD, i)
      | Some digest =>
          match prev with
          | None =>
              if is_first_in_shard r =? 0 then (VAULT_WITNESS_CHAIN_BAD_GENESIS, 0%nat)
              else chain_loop (S i) (Some (r, digest)) rest
          | Some (p, prev_digest) =>
              if negb (bytes_eqb (tenant r) (tenant p)) || negb (bytes_eqb (provider r) (provider p))
              then (VAULT_WITNESS_CHAIN_SHARD_MISMATCH, i)
              else if negb (shard_seq r =? u64 (shard_seq p + 1))
              then (VAULT_WITNESS_CHAIN_SEQ_GAP, i)
              else if negb (bytes_eqb (witness_pred_hash r) prev_digest)
              then (VAULT_WITNESS_CHAIN_BROKEN_LINK, i)
              else chain_loop (S i) (Some (r, digest)) rest
          end
      end
  end.

Definition vault_witness_verify_chain (records : list vault_witness_record_t)
    : vault_witness_chain_result_t * nat :=
  match records with
  | [] => (VAULT_WITNESS_CHAIN_EMPTY, 0%nat)
  | _ => chain_loop 0 None records
  end.

Definition vault_witness_verify_inclusion (tenant provider : bytes) (sequence : Z)
    (head_hash : bytes) (proof : list bytes) (root : bytes) : bool :=
  match vault_witness_shard_key_hash tenant provider,
        WitnessMerkle.vault_witness_leaf_hash tenant provider sequence head_hash with
  | Some key, Some leaf => WitnessMerkle.vault_witness_merkle_verify key leaf proof root
  | _, _ => false
  end.

(** The loop over adjacent pairs: the index of the current checkpoint, the
    one before it, the first gap seen so far. *)
Fixpoint run_loop (i : nat) (prev : WitnessCheckpoint.vault_witness_checkpoint_t)
    (cps : list WitnessCheckpoint.vault_witness_checkpoint_t) (saw_gap : option nat)
    : WitnessCheckpoint.vault_witness_continuity_t * nat :=
  match cps with
  | [] =>
      match saw_gap with
      | Some g => (WitnessCheckpoint.VAULT_WITNESS_CONTINUITY_UNPROVEN, g)
      | None => (WitnessCheckpoint.VAULT_WITNESS_CONTINUITY_OK, 0%nat)
      end
  | cp :: rest =>
      match WitnessCheckpoint.vault_witness_checkpoint_digest prev with
      | None => (WitnessCheckpoint.VAULT_WITNESS_CONTINUITY_BROKEN, (i - 1)%nat)
      | Some prev_digest =>
          match WitnessCheckpoint.vault_witness_checkpoint_continuity cp (Some prev_digest) with
          | WitnessCheckpoint.VAULT_WITNESS_CONTINUITY_OK => run_loop (S i) cp rest saw_gap
          | _ =>
              if WitnessCheckpoint.has_predecessor cp =? 0
              then (WitnessCheckpoint.VAULT_WITNESS_CONTINUITY_BROKEN, (i - 1)%nat)
              else run_loop (S i) cp rest
                     (match saw_gap with Some g => Some g | None => Some (i - 1)%nat end)
          end
      end
  end.

Definition vault_witness_verify_checkpoint_run
    (checkpoints : list WitnessCheckpoint.vault_witness_checkpoint_t)
    : WitnessCheckpoint.vault_witness_continuity_t * nat :=
  match checkpoints with
  | cp :: ((_ :: _) as rest) => run_loop 1 cp rest None
  | _ => (WitnessCheckpoint.VAULT_WITNESS_CONTINUITY_OK, 0%nat)
  end.

(** ** The specification of a linked run

    [chain rs p d]: the records form a correctly linked run of one shard, with
    last record [p] of digest [d]. *)
Inductive chain : list vault_witness_record_t -> vault_witness_record_t -> bytes -> Prop :=
| chain_first r d :
    vault_witness_record_digest r = Some d -> shard_seq r = 1 -> chain [r] r d
| chain_next rs p dp r d :
    chain rs p dp -> vault_witness_record_digest r = Some d ->
    tenant r = tenant p -> provider r = provider p ->
    shard_seq r = shard_seq p + 1 -> witness_pred_hash r = dp ->
    chain (rs ++ [r]) r d.

Lemma chain_nonempty rs p d : chain rs p d -> rs <> [].
Proof. intros [|? ? ? ? ? _]; [done|]. by destruct rs0. Qed.

(** Appending one record to a linked run. *)
Lemma chain_snoc_inv rs p dp r x d : chain rs p dp -> chain (rs ++ [r]) x d ->
  x = r /\ vault_witness_record_digest r = Some d /\ tenant r = tenant p
  /\ provider r = provider p /\ shard_seq r = shard_seq p + 1 /\ witness_pred_hash r = dp.
Proof.
  assert (forall l a da b db, chain l a da -> chain l b db -> a = b /\ da = db) as Hdet.
  { intros l a da b db C1 C2.
    destruct C1 as [r1 d1 D1 S1 | l1 p1 dp1 r1 d1 Hc1 D1 T1 P1 S1 W1]; inversion C2; subst;
      try match goal with E : _ ++ [_] = [_] |- _ => apply (app_inj_tail _ []) in E as [? ?] end;
      try match goal with E : [_] = _ ++ [_] |- _ => apply (app_inj_tail []) in E as [? ?] end;
      try match goal with E : _ ++ [_] = _ ++ [_] |- _ => apply app_inj_tail in E as [? ?] end;
      simplify_eq; done. }
  intros C1 C2. inversion C2 as [r1 d1 D1 S1 E1 | l1 p1 dp1 r1 d1 Hc1 D1 T1 P1 S1 W1 E1]; subst.
  - apply (app_inj_tail [] rs) in E1 as [<- ->]. by apply chain_nonempty in C1.
  - apply app_inj_tail in E1 as [<- <-]. by destruct (Hdet _ _ _ _ _ C1 Hc1) as [-> ->].
Qed.

Lemma chain_prefix rs p d k : chain rs p d -> (0 < k <= length rs)%nat ->
  exists q dq, chain (take k rs) q dq.
Proof.
  induction 1 as [r d D S | rs p dp r d C IH D T P S W]; intros Hk.
  - assert (k = 1%nat) as -> by (cbn in Hk; lia). exists r, d. by constructor.
  - rewrite length_app in Hk. cbn in Hk. destruct (decide (k <= length rs)%nat).
    + rewrite take_app_le by done. apply IH. lia.
    + rewrite take_ge by (rewrite length_app; cbn; lia). exists r, d. by econstructor.
Qed.

(** ** The loop decides the specification *)

Lemma digest_facts r d : vault_witness_record_digest r = Some d ->
  record_valid r = true /\ (is_first_in_shard r =? 0) = negb (shard_seq r =? 1) /\ shard_seq r <> 0.
Proof.
  unfold vault_witness_record_digest. destruct (record_valid r) eqn:Hv; [|done]. intros _.
  apply record_valid_facts in Hv. split; [done|]. rewrite (vf_first r Hv).
  split; [by destruct (shard_seq r =? 1) | apply (vf_seq r Hv)].
Qed.

(** What the loop reports when it stops at index [i] of the whole input. *)
Definition reports (all : list vault_witness_record_t) (res : vault_witness_chain_result_t * nat) : Prop :=
  match res with
  | (VAULT_WITNESS_CHAIN_OK, _) => exists p d, chain all p d
  | (VAULT_WITNESS_CHAIN_EMPTY, _) => all = []
  | (_, i) => (i < length all)%nat
      /\ (i = 0%nat \/ exists p d, chain (take i all) p d)
      /\ ~ exists p d, chain (take (S i) all) p d
  end.

Lemma take_snoc_app {A} (pre : list A) x rest :
  take (length pre) (pre ++ x :: rest) = pre /\ take (S (length pre)) (pre ++ x :: rest) = pre ++ [x].
Proof.
  split; [apply take_app_length|]. change (x :: rest) with ([x] ++ rest).
  rewrite app_assoc. apply take_app_length'. rewrite length_app. cbn. lia.
Qed.

Lemma chain_loop_reports pre p dp rest : Forall wf_record (pre ++ rest) -> chain pre p dp ->
  0 <= shard_seq p < 2 ^ 64 -> reports (pre ++ rest) (chain_loop (length pre) (Some (p, dp)) rest).
Proof.
  revert pre p dp. induction rest as [|r rest IH]; intros pre p dp Hwf Hc Hp.
  - cbn. rewrite app_nil_r. eauto.
  - assert (forall res, ~ (exists x d, chain (pre ++ [r]) x d) ->
      match res with VAULT_WITNESS_CHAIN_OK | VAULT_WITNESS_CHAIN_EMPTY => False | _ => True end ->
      reports (pre ++ r :: rest) (res, length pre)) as Hstop.
    { intros res Hno Hres. destruct (take_snoc_app pre r rest) as [E1 E2].
      assert ((length pre < length (pre ++ r :: rest))%nat
        /\ (length pre = 0%nat \/ exists p d, chain (take (length pre) (pre ++ r :: rest)) p d)
        /\ ~ exists p d, chain (take (S (length pre)) (pre ++ r :: rest)) p d) as HR.
      { rewrite E1, E2. split; [rewrite length_app; cbn; lia|]. eauto. }
      by destruct res. }
    cbn [chain_loop]. destruct (vault_witness_record_digest r) as [d|] eqn:Hd.
    2: { apply Hstop; [|done]. intros (x & d & C). apply (chain_snoc_inv _ _ _ _ _ _ Hc) in C.
         destruct C as (_ & ? & _). congruence. }
    destruct (digest_facts r d Hd) as (_ & _ & Hnz).
    destruct (_ || _) eqn:G1.
    { apply Hstop; [|done]. intros (x & dx & C). apply (chain_snoc_inv _ _ _ _ _ _ Hc) in C.
      destruct C as (_ & _ & Ht & Hpr & _). by rewrite Ht, Hpr, !bytes_eqb_refl in G1. }
    destruct (negb (shard_seq r =? _)) eqn:G2.
    { apply Hstop; [|done]. intros (x & dx & C). apply (chain_snoc_inv _ _ _ _ _ _ Hc) in C.
      destruct C as (_ & _ & _ & _ & Hs & _). bool_to_prop. rewrite <- Hs in G2. apply G2.
      symmetry. apply u64_small. rewrite Forall_forall in Hwf.
      assert (wf_record r) as (_ & _ & ? & _) by (apply Hwf, elem_of_app; right; left). done. }
    destruct (negb (bytes_eqb (witness_pred_hash r) dp)) eqn:G3.
    { apply Hstop; [|done]. intros (x & dx & C). apply (chain_snoc_inv _ _ _ _ _ _ Hc) in C.
      destruct C as (_ & _ & _ & _ & _ & Hw). by rewrite Hw, bytes_eqb_refl in G3. }
    bool_to_prop. rewrite (cons_middle r pre rest), app_assoc.
    replace (S (length pre)) with (length (pre ++ [r])) by (rewrite length_app; cbn; lia).
    assert (wf_record r) as (_ & _ & Hr & _) by (rewrite Forall_forall in Hwf; apply Hwf, elem_of_app; right; left).
    apply IH; [by rewrite <- app_assoc | | lia].
    econstructor; try done; [by apply bytes_eqb_true.. | | by apply bytes_eqb_true].
    unfold u64 in *. dm_lia.
Qed.
Lemma verify_chain_reports rs : Forall wf_record rs ->
  reports rs (vault_witness_verify_chain rs).
Proof.
  intros Hwf. destruct rs as [|r rest]; [done|].
  assert (~ (exists x d, chain [r] x d) ->
    reports (r :: rest) (VAULT_WITNESS_CHAIN_BAD_GENESIS, 0%nat)
    /\ reports (r :: rest) (VAULT_WITNESS_CHAIN_BAD_RECORD, 0%nat)) as Hstop.
  { intros Hno. cbn [reports take length]. rewrite take_0. split; (split_and!; [lia | by left | done]). }
  assert (forall x d, chain [r] x d -> vault_witness_record_digest r = Some d /\ shard_seq r = 1) as Hone.
  { intros x d C. inversion C as [| l ? ? ? ? Hc ? ? ? ? ? E]; subst; [done|].
    apply (app_inj_tail _ []) in E as [-> ->]. by apply chain_nonempty in Hc. }
  cbn [vault_witness_verify_chain chain_loop]. destruct (vault_witness_record_digest r) as [d|] eqn:Hd.
  2: { apply Hstop. intros (x & d & C). destruct (Hone x d C). congruence. }
  destruct (digest_facts r d Hd) as (_ & -> & _). destruct (Z.eqb_spec (shard_seq r) 1) as [E|E]; cbn [negb].
  - apply (chain_loop_reports [r] r d rest Hwf); [by constructor | lia].
  - apply Hstop. intros (x & dx & C). by destruct (Hone x dx C).
Qed.

Lemma verify_chain_ok rs : Forall wf_record rs ->
  (vault_witness_verify_chain rs).1 = VAULT_WITNESS_CHAIN_OK <-> exists p d, chain rs p d.
Proof.
  intros Hwf. pose proof (verify_chain_reports rs Hwf) as R.
  destruct (vault_witness_verify_chain rs) as [res i]. cbn [fst].
  split; [intros ->; exact R|]. intros (p & d & C).
  destruct res; [done | by apply chain_nonempty in C | ..];
    destruct R as (Hi & _ & Hno); destruct Hno; apply (chain_prefix _ _ _ _ C); lia.
Qed.

Lemma chain_digest rs p d : chain rs p d -> vault_witness_record_digest p = Some d.
Proof. by destruct 1. Qed.

Lemma chain_length rs p d : chain rs p d -> shard_seq p = Z.of_nat (length rs).
Proof.
  induction 1 as [|rs p dp r d C IH D T P S W]; [done|]. rewrite length_app, S, IH. cbn [length]. lia.
Qed.

Lemma chain_last rs p d : chain rs p d -> p ∈ rs.
Proof. intros []; set_solver. Qed.

(** Equal heads force equal histories, record by record. *)
Lemma chain_same_head rs p d rs' p' : chain rs p d -> chain rs' p' d ->
  Forall wf_record rs -> Forall wf_record rs' ->
  map normalize rs = map normalize rs' \/
  exists x y, x ∈ rs /\ y ∈ rs' /\ collides (digest_message x) (digest_message y).
Proof.
  intros C. revert rs' p'. induction C as [r d D S | rs p dp r d C IH D T P S W]; intros rs' p' C' Hw Hw'.
  - destruct C' as [r' d' D' S' | rs' p' dp' r' d' C' D' T' P' S' W'].
    + destruct (digest_binds r r' d') as [E|]; [by inversion Hw | by inversion Hw' | done.. | left; cbn; by rewrite E |].
      right. exists r, r'. set_solver.
    + destruct (digest_binds r r' d') as [E|]; try done.
      { by inversion Hw. } { rewrite Forall_app in Hw'. destruct Hw' as [_ Hw']. by inversion Hw'. }
      * apply (f_equal shard_seq) in E. cbn in E. apply chain_length in C' as L.
        destruct rs'; [by apply chain_nonempty in C'|]. cbn [length] in L. lia.
      * right. exists r, r'. set_solver.
  - apply Forall_app in Hw as [Hw Hr]. inversion Hr as [|? ? Hr' _]; subst.
    destruct C' as [r' d' D' S' | rs' p' dp' r' d' C' D' T' P' S' W'].
    + destruct (digest_binds r r' d') as [E|]; try done; [by inversion Hw'| |].
      * apply (f_equal shard_seq) in E. cbn in E. apply chain_length in C as L.
        destruct rs; [by apply chain_nonempty in C|]. cbn [length] in L. lia.
      * right. exists r, r'. set_solver.
    + apply Forall_app in Hw' as [Hw' Hq]. inversion Hq as [|? ? Hq' _]; subst.
      destruct (digest_binds r r' d' Hr' Hq' D D') as [E|]; [|right; exists r, r'; set_solver].
      assert (witness_pred_hash r = witness_pred_hash r') as Ew by apply (f_equal witness_pred_hash E).
      rewrite Ew in IH. destruct (IH rs' p' C' Hw Hw') as [El|(x & y & Hx & Hy & Hc)].
      * left. rewrite !map_app, El. cbn. by rewrite E.
      * right. exists x, y. set_solver.
Qed.

(** ** Properties of the chain check *)

(** The chain check says OK exactly on the correctly linked runs of one
    shard (numbered 1, 2, 3, ... without wrap-around); otherwise the reported
    index is the first failing record: everything before it is a linked run
    and the run up to it is not. *)
Theorem verify_chain_decides rs res i : Forall wf_record rs ->
  vault_witness_verify_chain rs = (res, i) ->
  (res = VAULT_WITNESS_CHAIN_OK <-> exists p d, chain rs p d)
  /\ (res = VAULT_WITNESS_CHAIN_EMPTY <-> rs = [])
  /\ (res <> VAULT_WITNESS_CHAIN_OK -> res <> VAULT_WITNESS_CHAIN_EMPTY ->
      (i < length rs)%nat /\ (i = 0%nat \/ exists p d, chain (take i rs) p d)
      /\ ~ exists p d, chain (take (S i) rs) p d).
Proof.
  intros Hwf E. pose proof (verify_chain_ok rs Hwf) as Hok.
  pose proof (verify_chain_reports rs Hwf) as R. rewrite E in *. cbn [fst] in Hok.
  split; [done|]. split; [|destruct res; done].
  split; [intros ->; exact R|]. intros ->. by injection E.
Qed.

(** C1: tamper evidence: two accepted chains with the same head digest record
    the same events in the same order, unless a record of one and a record of
    the other are a SHA-256 collision. *)
Theorem verify_chain_tamper_evident rs rs' r r' d :
  Forall wf_record rs -> Forall wf_record rs' ->
  (vault_witness_verify_chain rs).1 = VAULT_WITNESS_CHAIN_OK ->
  (vault_witness_verify_chain rs').1 = VAULT_WITNESS_CHAIN_OK ->
  last rs = Some r -> last rs' = Some r' ->
  vault_witness_record_digest r = Some d -> vault_witness_record_digest r' = Some d ->
  map normalize rs = map normalize rs' \/
  exists x y, x ∈ rs /\ y ∈ rs' /\ collides (digest_message x) (digest_message y).
Proof.
  intros Hw Hw' O O' L L' D D'. apply verify_chain_ok in O as (p & e & C), O' as (p' & e' & C'); [|done..].
  assert (forall l q x, chain l q x -> last l = Some q) as Hlast
    by (intros l q x []; [done | apply last_snoc]).
  rewrite (Hlast _ _ _ C) in L. rewrite (Hlast _ _ _ C') in L'. simplify_eq.
  pose proof (chain_digest _ _ _ C). pose proof (chain_digest _ _ _ C'). simplify_eq.
  by eapply chain_same_head.
Qed.
(** ** Inclusion *)

(** A shard head as a checkpoint commits to it, and its leaf. *)
Record head := { h_tenant : bytes; h_provider : bytes; h_sequence : Z; h_hash : bytes }.

Definition head_leaf (h : head) : option WitnessMerkle.vault_witness_leaf_t :=
  k ← vault_witness_shard_key_hash (h_tenant h) (h_provider h);
  l ← WitnessMerkle.vault_witness_leaf_hash (h_tenant h) (h_provider h) (h_sequence h) (h_hash h);
  Some {| WitnessMerkle.key := k; WitnessMerkle.hash := l |}.

Definition head_message (h : head) : bytes :=
  WitnessMerkle.leaf_message (h_tenant h) (h_provider h) (h_sequence h) (h_hash h).

Definition wf_head (h : head) : Prop :=
  0 <= h_sequence h < 2 ^ 64 /\ length (h_hash h) = 32%nat.

Definition short_head (h : head) : Prop :=
  zlen (h_tenant h) <= 128 /\ zlen (h_provider h) <= 128.

Lemma head_message_inj a b : wf_head a -> wf_head b -> short_head a -> short_head b ->
  head_message a = head_message b -> a = b.
Proof.
  intros [A1 A2] [B1 B2] [A3 A4] [B3 B4] E. unfold head_message, WitnessMerkle.leaf_message in E.
  apply app_inv_head in E. apply text_field_inj in E as [E1 E]; [|lia..].
  apply text_field_inj in E as [E2 E]; [|lia..]. apply u64_field_inj in E as [E3 E]; [|done..].
  destruct a, b. cbn in *. congruence.
Qed.

Lemma head_message_nonempty_label h : head_message h <> WitnessMerkle.VAULT_WITNESS_SMT_EMPTY_LABEL.
Proof.
  intros E. apply (f_equal (take 28)) in E. vm_compute in E. discriminate E.
Qed.

Lemma head_leaf_some h l : head_leaf h = Some l ->
  short_head h /\ WitnessMerkle.wf_leaf l /\ WitnessMerkle.hash l = sha256 (head_message h).
Proof.
  unfold head_leaf, vault_witness_shard_key_hash.
  destruct (_ || _) eqn:G; [done|]. destruct (pack_texts _ _ _) as [buf|]; [cbn [mbind option_bind]|done].
  unfold WitnessMerkle.vault_witness_leaf_hash. cbv zeta. destruct (_ || _) eqn:G2 in |- *; [done|].
  cbn [mbind option_bind]. intros [= <-]. bool_to_prop. split; [done|]. split; [|done].
  split; cbn [WitnessMerkle.key WitnessMerkle.hash]; [|apply sha256_length].
  split; [rewrite length_take, sha256_length; lia|]. auto with aimee.
Qed.

(** The two hash coincidences that would let a head pass that was never
    committed: its leaf message against the empty leaf's label or a committed
    head's leaf message, or two node messages on the path to its key. *)
Definition leaf_collision (x : head) (heads : list head) : Prop :=
  collides (head_message x) WitnessMerkle.VAULT_WITNESS_SMT_EMPTY_LABEL
  \/ exists h, h ∈ heads /\ collides (head_message x) (head_message h).

Definition path_collision (x : head) (leaves : list WitnessMerkle.vault_witness_leaf_t)
    (proof : list bytes) : Prop :=
  exists l b, head_leaf x = Some l /\ (b < WitnessMerkle.VAULT_WITNESS_SMT_DEPTH)%nat /\
    collides
      (WitnessMerkle.step_message (WitnessMerkle.key l) proof
         (WitnessMerkle.climb (WitnessMerkle.key l) proof (S b) (63 - b) (WitnessMerkle.hash l)) b)
      (WitnessMerkle.tree_message (WitnessMerkle.leaf_at leaves) (be_get (WitnessMerkle.key l)) b).

Lemma commits_wf heads leaves : Forall2 (fun h l => head_leaf h = Some l) heads leaves ->
  Forall WitnessMerkle.wf_leaf leaves.
Proof.
  induction 1 as [|h l heads leaves E _ IH]; constructor; [|done]. by apply head_leaf_some in E as (_ & ? & _).
Qed.

Lemma commits_find heads leaves k l : Forall2 (fun h l => head_leaf h = Some l) heads leaves ->
  find (fun l => be_get (WitnessMerkle.key l) =? k) leaves = Some l ->
  exists h, h ∈ heads /\ head_leaf h = Some l.
Proof.
  intros C Hf. apply find_some in Hf as [Hin _].
  apply list_elem_of_In, list_elem_of_lookup in Hin as [i Hi].
  destruct (Forall2_lookup_r _ _ _ _ _ C Hi) as (h & Hh & E).
  exists h. split; [by eapply list_elem_of_lookup_2 | done].
Qed.

Lemma inclusion_sound x heads leaves root proof : wf_head x -> Forall wf_head heads ->
  Forall2 (fun h l => head_leaf h = Some l) heads leaves ->
  WitnessMerkle.vault_witness_merkle_root leaves = Some root ->
  length proof = WitnessMerkle.VAULT_WITNESS_SMT_DEPTH -> Forall (fun s => length s = 32%nat) proof ->
  vault_witness_verify_inclusion (h_tenant x) (h_provider x) (h_sequence x) (h_hash x) proof root = true ->
  x ∈ heads \/ leaf_collision x heads \/ path_collision x leaves proof.
Proof.
  intros Hx Hheads Hc Hroot Hpl Hp Hv. unfold vault_witness_verify_inclusion in Hv.
  destruct (vault_witness_shard_key_hash _ _) as [k|] eqn:Hk; [|done].
  destruct (WitnessMerkle.vault_witness_leaf_hash _ _ _ _) as [lf|] eqn:Hl; [|done].
  assert (head_leaf x = Some {| WitnessMerkle.key := k; WitnessMerkle.hash := lf |}) as Hxl
    by (unfold head_leaf; by rewrite Hk, Hl).
  destruct (head_leaf_some _ _ Hxl) as (Hsx & [Hwk Hwl] & Hlf). 
  cbn [WitnessMerkle.key WitnessMerkle.hash] in Hwk, Hwl, Hlf.
  destruct (WitnessMerkle.merkle_verify_pins leaves root k lf proof (commits_wf _ _ Hc) Hroot Hwk Hwl Hpl Hp Hv)
    as [E|(b & Hb & Hcol)].
  2: { right; right. eexists _, b. split; [exact Hxl|]. by split. }
  unfold WitnessMerkle.leaf_at in E. destruct (find _ leaves) as [l|] eqn:Hf.
  - destruct (commits_find _ _ _ _ Hc Hf) as (h & Hin & Hhl).
    destruct (head_leaf_some _ _ Hhl) as (Hsh & _ & Hhash).
    destruct (decide (head_message x = head_message h)) as [Em|Hne].
    + left. rewrite Forall_forall in Hheads. by rewrite (head_message_inj x h) by auto.
    + right; left; right. exists h. split; [done|]. split; congruence.
  - right; left; left. split; [apply head_message_nonempty_label | congruence].
Qed.

(** C7: an accepted inclusion is a committed head: if a shard identity, sequence
    and head hash verify against the root over the committed heads' leaves,
    it is one of those heads, unless SHA-256 collides on its leaf message or
    on two node messages of its path. *)
Theorem verify_inclusion_sound x heads leaves root proof : wf_head x -> Forall wf_head heads ->
  Forall2 (fun h l => head_leaf h = Some l) heads leaves ->
  WitnessMerkle.vault_witness_merkle_root leaves = Some root ->
  length proof = WitnessMerkle.VAULT_WITNESS_SMT_DEPTH -> Forall (fun s => length s = 32%nat) proof ->
  vault_witness_verify_inclusion (h_tenant x) (h_provider x) (h_sequence x) (h_hash x) proof root = true ->
  x ∈ heads \/ leaf_collision x heads \/ path_collision x leaves proof.
Proof. apply inclusion_sound. Qed.

(** The head an emitted proof speaks about. *)
Definition proof_head (p : WitnessProof.vault_witness_proof_t) : head :=
  {| h_tenant := WitnessProof.tenant p; h_provider := WitnessProof.provider p;
     h_sequence := WitnessProof.sequence p; h_hash := WitnessProof.head_hash p |}.

(** End to end over bytes: an emitted proof that decodes and verifies
    against the root over the committed heads names one of them, and its
    sequence is not zero (up to the same named collisions). *)
Theorem emitted_proof_sound w p heads leaves root : is_bytes w -> Forall wf_head heads ->
  WitnessProof.vault_witness_proof_decode w = Some p ->
  Forall2 (fun h l => head_leaf h = Some l) heads leaves ->
  WitnessMerkle.vault_witness_merkle_root leaves = Some root ->
  WitnessProof.vault_witness_proof_verify p root = true ->
  WitnessProof.sequence p <> 0 /\
  (proof_head p ∈ heads \/ leaf_collision (proof_head p) heads
   \/ path_collision (proof_head p) leaves (WitnessProof.path p)).
Proof.
  intros Hw Hheads Hd Hc Hroot Hv.
  destruct (WitnessProof.proof_decode_inv w p Hw Hd) as (Hval & (_ & Hsq & _ & _ & [Hh _] & Hpl & Hp) & _).
  unfold WitnessProof.vault_witness_proof_verify in Hv. rewrite Hval in Hv. cbn [negb] in Hv.
  apply WitnessProof.proof_valid_iff in Hval as (Hnz & _). split; [done|].
  apply (inclusion_sound _ _ _ root); try done.
  eapply Forall_impl; [exact Hp|]. by intros s [? _].
Qed.

(** ** Continuity of a run *)

(** The verdict of one adjacent pair. *)
Definition link (prev cp : WitnessCheckpoint.vault_witness_checkpoint_t)
    : WitnessCheckpoint.vault_witness_continuity_t :=
  match WitnessCheckpoint.vault_witness_checkpoint_digest prev with
  | None => WitnessCheckpoint.VAULT_WITNESS_CONTINUITY_BROKEN
  | Some d =>
      if WitnessCheckpoint.has_predecessor cp =? 0
      then WitnessCheckpoint.VAULT_WITNESS_CONTINUITY_BROKEN
      else if bytes_eqb (WitnessCheckpoint.predecessor_digest cp) d
           then WitnessCheckpoint.VAULT_WITNESS_CONTINUITY_OK
           else WitnessCheckpoint.VAULT_WITNESS_CONTINUITY_UNPROVEN
  end.

Definition links (cps : list WitnessCheckpoint.vault_witness_checkpoint_t)
    : list WitnessCheckpoint.vault_witness_continuity_t := zip_with link cps (tail cps).

Abbreviation broken := (eq WitnessCheckpoint.VAULT_WITNESS_CONTINUITY_BROKEN).
Abbreviation unproven := (eq WitnessCheckpoint.VAULT_WITNESS_CONTINUITY_UNPROVEN).

Lemma run_loop_cons i prev cp rest gap :
  run_loop (S i) prev (cp :: rest) gap =
  match link prev cp with
  | WitnessCheckpoint.VAULT_WITNESS_CONTINUITY_OK => run_loop (S (S i)) cp rest gap
  | WitnessCheckpoint.VAULT_WITNESS_CONTINUITY_UNPROVEN =>
      run_loop (S (S i)) cp rest (match gap with Some g => Some g | None => Some i end)
  | WitnessCheckpoint.VAULT_WITNESS_CONTINUITY_BROKEN =>
      (WitnessCheckpoint.VAULT_WITNESS_CONTINUITY_BROKEN, i)
  end.
Proof.
  cbn [run_loop]. unfold link, WitnessCheckpoint.vault_witness_checkpoint_continuity.
  cbn [Nat.sub]. rewrite Nat.sub_0_r.
  destruct (WitnessCheckpoint.vault_witness_checkpoint_digest prev); [|done].
  destruct (WitnessCheckpoint.has_predecessor cp =? 0); [done|]. by destruct (bytes_eqb _ _).
Qed.

Lemma run_loop_spec i prev cps gap :
  run_loop (S i) prev cps gap =
  match list_find broken (zip_with link (prev :: cps) cps) with
  | Some (j, _) => (WitnessCheckpoint.VAULT_WITNESS_CONTINUITY_BROKEN, (i + j)%nat)
  | None =>
      match gap, list_find unproven (zip_with link (prev :: cps) cps) with
      | Some g, _ => (WitnessCheckpoint.VAULT_WITNESS_CONTINUITY_UNPROVEN, g)
      | None, Some (j, _) => (WitnessCheckpoint.VAULT_WITNESS_CONTINUITY_UNPROVEN, (i + j)%nat)
      | None, None => (WitnessCheckpoint.VAULT_WITNESS_CONTINUITY_OK, 0%nat)
      end
  end.
Proof.
  revert i prev gap. induction cps as [|cp rest IH]; intros i prev gap; [by destruct gap|].
  change (zip_with link (prev :: cp :: rest) (cp :: rest))
    with (link prev cp :: zip_with link (cp :: rest) rest).
  rewrite run_loop_cons. specialize (IH (S i) cp).
  remember (zip_with link (cp :: rest) rest) as ls eqn:Els. clear Els.
  cbn [list_find]. destruct (link prev cp); cbn [decide]; rewrite ?IH; cbn;
    destruct (list_find broken ls) as [[j ?]|], (list_find unproven ls) as [[k ?]|], gap;
    repeat (case_decide; try done); cbn; rewrite ?Nat.add_succ_r, ?Nat.add_0_r; done.
Qed.

(** The continuity verdict of a run is BROKEN at the first impossible link
    (a checkpoint without digest before it, or one that denies having a
    predecessor), else UNPROVEN at the first digest mismatch, else OK: so OK
    means every adjacent pair links. *)
Theorem checkpoint_run_spec cps :
  vault_witness_verify_checkpoint_run cps =
  match list_find broken (links cps) with
  | Some (i, _) => (WitnessCheckpoint.VAULT_WITNESS_CONTINUITY_BROKEN, i)
  | None =>
      match list_find unproven (links cps) with
      | Some (i, _) => (WitnessCheckpoint.VAULT_WITNESS_CONTINUITY_UNPROVEN, i)
      | None => (WitnessCheckpoint.VAULT_WITNESS_CONTINUITY_OK, 0%nat)
      end
  end.
Proof.
  destruct cps as [|a [|b rest]]; [done..|].
  unfold vault_witness_verify_checkpoint_run, links. rewrite run_loop_spec. cbn [tail].
  destruct (list_find broken _) as [[]|]; [done|]. by destruct (list_find unproven _) as [[]|].
Qed.
End verify.

(** ** Samples *)

Definition sample_second : vault_witness_record_t :=
  {| source := VAULT_WITNESS_SRC_OPEN; seal_epoch := 7; fencing_token := 4; shard_seq := 2;
     has_source_pred := 0; is_first_in_shard := 0;
     source_hash := replicate 32 18; source_pred_hash := replicate 32 0;
     witness_pred_hash := default [] (vault_witness_record_digest (H := toy) sample_first);
     source_id := str "open/1"; tenant := str "acme"; provider := str "aws";
     request_id := str "req-2"; principal := str "uid:0"; provider_cred := [];
     group_id := []; timestamp := str "2026-01-01T00:00:01Z" |}.

Definition sample_chain : list vault_witness_record_t := [sample_first; sample_second].

Lemma sample_chain_wf : Forall wf_record sample_chain.
Proof.
  apply Forall_cons_2; [exact sample_first_wf|]. apply Forall_cons_2; [|constructor].
  unfold wf_record. split_and!; try (vm_compute; (reflexivity || discriminate));
    try (apply is_bytesb_true; vm_compute; reflexivity).
  apply cstrb_all. reflexivity.
Qed.

Lemma verify_chain_decides_witness :
  vault_witness_verify_chain (H := toy) sample_chain = (VAULT_WITNESS_CHAIN_OK, 0%nat)
  /\ exists p d, chain (H := toy) sample_chain p d.
Proof.
  assert (vault_witness_verify_chain (H := toy) sample_chain = (VAULT_WITNESS_CHAIN_OK, 0%nat)) as E
    by (vm_compute; reflexivity).
  split; [exact E|].
  apply (verify_chain_decides (H := toy) sample_chain VAULT_WITNESS_CHAIN_OK 0 sample_chain_wf E).
  reflexivity.
Defined.

Lemma verify_chain_tamper_evident_witness :
  map normalize sample_chain = map normalize sample_chain \/
  exists x y, x ∈ sample_chain /\ y ∈ sample_chain
    /\ collides (H := toy) (digest_message x) (digest_message y).
Proof.
  apply (verify_chain_tamper_evident (H := toy) sample_chain sample_chain sample_second sample_second
    (default [] (vault_witness_record_digest (H := toy) sample_second)));
    try exact sample_chain_wf; vm_compute; reflexivity.
Defined.

Definition sample_heads : list head :=
  [{| h_tenant := str "acme"; h_provider := str "aws"; h_sequence := 2; h_hash := be_put 32 99 |}].

Definition sample_leaves : list WitnessMerkle.vault_witness_leaf_t :=
  omap (head_leaf (H := toy)) sample_heads.

Definition sample_root : bytes :=
  default [] (WitnessMerkle.vault_witness_merkle_root (H := toy) sample_leaves).

Definition sample_path : list bytes :=
  default [] (WitnessMerkle.vault_witness_merkle_proof (H := toy) sample_leaves 0).

Lemma sample_heads_wf : Forall wf_head sample_heads.
Proof. apply Forall_cons_2; [|constructor]. split; vm_compute; (reflexivity || (split; congruence)). Qed.

Lemma sample_commits : Forall2 (fun h l => head_leaf (H := toy) h = Some l) sample_heads sample_leaves.
Proof. apply Forall2_cons_2; [vm_compute; reflexivity | apply Forall2_nil_2]. Qed.

Lemma verify_inclusion_sound_witness :
  let x := {| h_tenant := str "acme"; h_provider := str "aws"; h_sequence := 2; h_hash := be_put 32 99 |} in
  vault_witness_verify_inclusion (H := toy) (h_tenant x) (h_provider x) (h_sequence x) (h_hash x)
    sample_path sample_root = true /\
  (x ∈ sample_heads \/ leaf_collision (H := toy) x sample_heads
   \/ path_collision (H := toy) x sample_leaves sample_path).
Proof.
  intros x.
  assert (vault_witness_verify_inclusion (H := toy) (h_tenant x) (h_provider x) (h_sequence x) (h_hash x)
    sample_path sample_root = true) as Hv by (vm_compute; reflexivity).
  split; [exact Hv|].
  apply (verify_inclusion_sound (H := toy) x sample_heads sample_leaves sample_root sample_path).
  - split; vm_compute; (reflexivity || (split; congruence)).
  - exact sample_heads_wf.
  - exact sample_commits.
  - vm_compute; reflexivity.
  - vm_compute; reflexivity.
  - apply (Forall_check _ (fun s : bytes => Nat.eqb (length s) 32)); [intros s; apply Nat.eqb_eq|].
    vm_compute; reflexivity.
  - exact Hv.
Defined.

Definition sample_proof : WitnessProof.vault_witness_proof_t :=
  {| WitnessProof.checkpoint_seq := 1; WitnessProof.tenant := str "acme";
     WitnessProof.provider := str "aws"; WitnessProof.sequence := 2;
     WitnessProof.head_hash := be_put 32 99; WitnessProof.path := sample_path |}.

Definition sample_proof_wire : bytes :=
  default [] (WitnessProof.vault_witness_proof_encode sample_proof 4096).

Lemma emitted_proof_sound_witness :
  WitnessProof.sequence sample_proof <> 0 /\
  (proof_head sample_proof ∈ sample_heads \/ leaf_collision (H := toy) (proof_head sample_proof) sample_heads
   \/ path_collision (H := toy) (proof_head sample_proof) sample_leaves (WitnessProof.path sample_proof)).
Proof.
  apply (emitted_proof_sound (H := toy) sample_proof_wire sample_proof sample_heads sample_leaves sample_root).
  - apply is_bytesb_true. vm_compute; reflexivity.
  - exact sample_heads_wf.
  - vm_compute; reflexivity.
  - exact sample_commits.
  - vm_compute; reflexivity.
  - vm_compute; reflexivity.
Defined.

End WitnessVerify.
