(* ===== verification/WitnessExport.v ===== *)
(** * Export frames ([src/src/modules/vault/vault_witness_export.c])

    Emitted evidence travels in frames: a magic, a version, a kind, a reserved
    byte and the length of the payload.  Shown: a frame parses to what was
    framed, and nothing but the frame of some payload parses. *)

From Stdlib Require Import ZArith Lia String Ascii.
From stdpp Require Import base numbers option list.
From S2P Require Import Prelude.
From S2P Require Import Wire.

Module WitnessExport.

Definition VAULT_WITNESS_EXPORT_VERSION : Z := 1.
Definition VAULT_WITNESS_EXPORT_HEADER_LEN : Z := 16.

(** [vault_witness_export_kind_t] *)
Definition VAULT_WITNESS_EXPORT_RECORD : Z := 0.
Definition VAULT_WITNESS_EXPORT_CHECKPOINT : Z := 1.
Definition VAULT_WITNESS_EXPORT_PROOF : Z := 2.
Definition VAULT_WITNESS_EXPORT_SNAPSHOT : Z := 3.

Definition export_magic : bytes := str "AIMWEXP1".

Definition kind_known (k : Z) : bool :=
  (k =? VAULT_WITNESS_EXPORT_RECORD) || (k =? VAULT_WITNESS_EXPORT_CHECKPOINT)
  || (k =? VAULT_WITNESS_EXPORT_PROOF) || (k =? VAULT_WITNESS_EXPORT_SNAPSHOT).

(** [None] is the return value -1, for which the buffer is cleansed. *)
Definition vault_witness_export_frame (kind : Z) (payload : bytes) (cap : Z) : option bytes :=
  if negb (kind_known kind) || (0xFFFFFFFF <? zlen payload) then None
  else
    let need := VAULT_WITNESS_EXPORT_HEADER_LEN + zlen payload in
    if cap <? need then None
    else Some (export_magic ++ put_u16 VAULT_WITNESS_EXPORT_VERSION ++ [u8 kind] ++ [0]
               ++ put_u32 (u32 (zlen payload)) ++ payload).

Inductive vault_witness_export_parse_t :=
| VAULT_WITNESS_EXPORT_PARSE_OK (kind : Z) (payload : bytes)
| VAULT_WITNESS_EXPORT_PARSE_MALFORMED
| VAULT_WITNESS_EXPORT_PARSE_VERSION_MISMATCH.

(** The payload points into the frame; an empty one is the NULL pointer. *)
Definition vault_witness_export_parse (frame : bytes) : vault_witness_export_parse_t :=
  if (zlen frame <? VAULT_WITNESS_EXPORT_HEADER_LEN) || negb (bytes_eqb (take 8 frame) export_magic)
  then VAULT_WITNESS_EXPORT_PARSE_MALFORMED
  else if negb (get_u16 (drop 8 frame) =? VAULT_WITNESS_EXPORT_VERSION)
  then VAULT_WITNESS_EXPORT_PARSE_VERSION_MISMATCH
  else if negb (at_ frame 11 =? 0) then VAULT_WITNESS_EXPORT_PARSE_MALFORMED
  else
    let k := at_ frame 10 in
    if negb (kind_known k) then VAULT_WITNESS_EXPORT_PARSE_MALFORMED
    else
      let plen := get_u32 (drop 12 frame) in
      if negb (plen =? zlen frame - VAULT_WITNESS_EXPORT_HEADER_LEN)
      then VAULT_WITNESS_EXPORT_PARSE_MALFORMED
      else VAULT_WITNESS_EXPORT_PARSE_OK k (drop 16 frame).

(** The bytes of a frame. *)
Definition frame_bytes (kind : Z) (payload : bytes) : bytes :=
  (export_magic ++ put_u16 1 ++ [kind] ++ [0] ++ put_u32 (zlen payload) ++ payload)%list.

Lemma kind_byte k : kind_known k = true -> 0 <= k < 4.
Proof.
  unfold kind_known, VAULT_WITNESS_EXPORT_RECORD, VAULT_WITNESS_EXPORT_CHECKPOINT,
    VAULT_WITNESS_EXPORT_PROOF, VAULT_WITNESS_EXPORT_SNAPSHOT. lia.
Qed.

Lemma frame_eq kind payload cap f :
  vault_witness_export_frame kind payload cap = Some f <->
  kind_known kind = true /\ zlen payload < 2 ^ 32 /\ 16 + zlen payload <= cap
  /\ f = frame_bytes kind payload.
Proof.
  unfold vault_witness_export_frame, VAULT_WITNESS_EXPORT_HEADER_LEN.
  pose proof (zlen_nonneg payload). destruct (kind_known kind) eqn:Hk; cbn [negb orb]; [|naive_solver].
  apply kind_byte in Hk. destruct (Z.ltb_spec 0xFFFFFFFF (zlen payload)).
  { split; [done|]. intros (_ & ? & _). lia. }
  destruct (Z.ltb_spec cap (16 + zlen payload)).
  { split; [done|]. intros (_ & _ & ? & _). lia. }
  unfold frame_bytes, VAULT_WITNESS_EXPORT_VERSION. rewrite (u8_small kind), u32_small by lia.
  split; [intros [= <-]; split_and!; (done || lia) | by intros (_ & _ & _ & ->)].
Qed.

Lemma export_frame_length k p : zlen (frame_bytes k p) = 16 + zlen p.
Proof.
  unfold frame_bytes. rewrite !zlen_app. change (zlen export_magic) with 8.
  unfold zlen. rewrite put_u16_length, put_u32_length. cbn [length]. lia.
Qed.

(** What stands at the offsets of a frame. *)
Lemma frame_fields k p rest : zlen p < 2 ^ 32 ->
  let f := (frame_bytes k p ++ rest)%list in
  take 8 f = export_magic /\ get_u16 (drop 8 f) = 1 /\ at_ f 10 = k /\ at_ f 11 = 0
  /\ get_u32 (drop 12 f) = zlen p /\ drop 16 f = (p ++ rest)%list.
Proof.
  intros Hp f. unfold f, frame_bytes. rewrite <- !app_assoc. pose proof (zlen_nonneg p).
  split_and!; [done | done | done | done | | done].
  change (get_u32 (put_u32 (zlen p) ++ p ++ rest) = zlen p). apply get_put_u32. lia.
Qed.

Lemma parse_frame k p : kind_known k = true -> zlen p < 2 ^ 32 ->
  vault_witness_export_parse (frame_bytes k p) = VAULT_WITNESS_EXPORT_PARSE_OK k p.
Proof.
  intros Hk Hp. pose proof (frame_fields k p [] Hp) as HF. cbv zeta in HF. rewrite !app_nil_r in HF.
  destruct HF as (H1 & H2 & H3 & H4 & H5 & H6). pose proof (zlen_nonneg p).
  unfold vault_witness_export_parse, VAULT_WITNESS_EXPORT_HEADER_LEN, VAULT_WITNESS_EXPORT_VERSION.
  rewrite H1, H2, H3, H4, H5, H6, export_frame_length, bytes_eqb_refl, Hk. cbn [negb Z.eqb].
  rewrite (proj2 (Z.ltb_ge _ _)) by lia. cbn [orb].
  rewrite (proj2 (Z.eqb_eq (zlen p) (16 + zlen p - 16))) by lia. done.
Qed.

(** A parsed frame is the frame of its payload. *)
Lemma parse_inv f k p : is_bytes f ->
  vault_witness_export_parse f = VAULT_WITNESS_EXPORT_PARSE_OK k p ->
  kind_known k = true /\ zlen p < 2 ^ 32 /\ is_bytes p /\ f = frame_bytes k p.
Proof.
  intros Hf. unfold vault_witness_export_parse, VAULT_WITNESS_EXPORT_HEADER_LEN, VAULT_WITNESS_EXPORT_VERSION.
  destruct (_ || _) eqn:G1; [done|]. destruct (negb (get_u16 _ =? _)) eqn:G2; [done|].
  destruct (negb (at_ f 11 =? 0)) eqn:G3; [done|]. destruct (negb (kind_known _)) eqn:G4; [done|].
  destruct (negb (get_u32 _ =? _)) eqn:G5; [done|]. intros [= <- <-]. bool_to_prop.
  apply bytes_eqb_true in H0. unfold zlen in *.
  assert (Hd : is_bytes (drop 12 f)) by auto with aimee.
  assert (H12 : (4 <= length (drop 12 f))%nat) by (rewrite length_drop; lia).
  pose proof (get_u32_range _ Hd H12). split_and!; [done | rewrite length_drop; lia | auto with aimee |].
  unfold frame_bytes, zlen.
  replace (Z.of_nat (length (drop 16 f))) with (get_u32 (drop 12 f)) by (rewrite length_drop; lia).
  rewrite put_get_u32, <- G2, put_get_u16 by (auto with aimee || rewrite ?length_drop; lia).
  rewrite <- H0, <- G3 at 1. rewrite <- !take1_at by lia.
  rewrite <- (take_drop 8 f) at 1. f_equal. rewrite <- (take_drop 2 (drop 8 f)) at 1. f_equal.
  rewrite drop_drop. rewrite <- (take_drop 1 (drop (8 + 2) f)) at 1. f_equal.
  rewrite drop_drop. rewrite <- (take_drop 1 (drop (8 + 2 + 1) f)) at 1. f_equal.
  rewrite drop_drop. rewrite <- (take_drop 4 (drop (8 + 2 + 1 + 1) f)) at 1. f_equal.
  by rewrite drop_drop.
Qed.

(** A byte string parses as a frame exactly when it is what framing a payload
    of a known kind writes into a large enough buffer, and the parse gives
    that kind and payload back. *)
Theorem export_parse_iff f k p : is_bytes f ->
  vault_witness_export_parse f = VAULT_WITNESS_EXPORT_PARSE_OK k p <->
  vault_witness_export_frame k p (zlen f) = Some f.
Proof.
  intros Hf. rewrite frame_eq. split.
  - intros (Hk & Hp & _ & ->)%parse_inv; [|done]. rewrite export_frame_length. split_and!; (done || lia).
  - intros (Hk & Hp & _ & ->). by apply parse_frame.
Qed.

Lemma export_parse_iff_witness :
  let f := frame_bytes VAULT_WITNESS_EXPORT_PROOF (str "abc") in
  vault_witness_export_parse f = VAULT_WITNESS_EXPORT_PARSE_OK VAULT_WITNESS_EXPORT_PROOF (str "abc") <->
  vault_witness_export_frame VAULT_WITNESS_EXPORT_PROOF (str "abc") (zlen f) = Some f.
Proof. intros f. apply export_parse_iff. apply is_bytesb_true. vm_compute. reflexivity. Defined.

End WitnessExport.
