(* ===== verification/WitnessOffline.v ===== *)
(** * The offline verifier ([src/src/modules/vault/vault_witness_offline.c])

    A captured stream of export frames is parsed into records, checkpoints,
    proofs and leaf snapshots; the records of each shard are checked as a
    chain, the checkpoints against the anchors and as a run, the proofs and
    snapshots against their checkpoint.  The model is the whole function: the
    growing arrays with their ceiling, the collapse of repeats after sorting,
    the groups of the sorted array and the report.  [qsort] is the C
    library's: what is assumed of it is what the standard says, a permutation
    in ascending order, so nothing is known about the order of equal
    elements.  [realloc_ok] and [calloc_ok] say which requests (in elements)
    are granted. *)

From Stdlib Require Import ZArith Lia String Ascii Sorted Permutation.
From stdpp Require Import base numbers option sets list sorting.
From S2P Require Import Prelude Wire WitnessRecord WitnessMerkle WitnessProof.
From S2P Require Import WitnessCheckpoint WitnessVerify WitnessExport.

(** ** The C library's sort *)

(** A comparison function [qsort] may be given. *)
Record consistent {A} (cmp : A -> A -> Z) : Prop := {
  cmp_sign : forall a b, cmp a b < 0 <-> 0 < cmp b a;
  cmp_trans : forall a b c, cmp a b <= 0 -> cmp b c <= 0 -> cmp a c <= 0;
}.

Class Qsort := {
  qsort : forall A : Type, (A -> A -> Z) -> list A -> list A;
  qsort_perm : forall A (cmp : A -> A -> Z) l, consistent cmp -> Permutation (qsort A cmp l) l;
  qsort_sorted : forall A (cmp : A -> A -> Z) l, consistent cmp ->
    StronglySorted (fun a b => cmp a b <= 0) (qsort A cmp l);
}.

Arguments qsort {_ _} _ _.

(** The two orders a run of equal elements may come back in: a stable sort,
    and the stable sort of the reversed input. *)
Definition cmp_le {A} (cmp : A -> A -> Z) (a b : A) : Prop := cmp a b <= 0.

#[global] Instance cmp_le_dec {A} (cmp : A -> A -> Z) a b : Decision (cmp_le cmp a b).
Proof. unfold cmp_le. apply _. Defined.

Lemma cmp_le_total {A} (cmp : A -> A -> Z) : consistent cmp -> Total (cmp_le cmp).
Proof. intros [Hs _] a b. unfold cmp_le. pose proof (Hs a b). pose proof (Hs b a). lia. Qed.

Lemma merge_sort_sorted {A} (cmp : A -> A -> Z) l :
  consistent cmp -> StronglySorted (cmp_le cmp) (merge_sort (cmp_le cmp) l).
Proof.
  intros Hc. pose proof (cmp_le_total cmp Hc).
  apply Sorted_StronglySorted; [intros a b c; apply (cmp_trans _ Hc)|]. by apply Sorted_merge_sort.
Qed.

Definition stable_qsort : Qsort.
Proof.
  refine {| qsort := fun A cmp l => merge_sort (cmp_le cmp) l |}.
  - intros. apply merge_sort_Permutation.
  - intros. by apply merge_sort_sorted.
Defined.

Module WitnessOffline.
Import WitnessRecord WitnessVerify WitnessExport.
Abbreviation checkpoint := WitnessCheckpoint.vault_witness_checkpoint_t.
Abbreviation anchor := WitnessCheckpoint.vault_witness_anchor_t.
Abbreviation proof := WitnessProof.vault_witness_proof_t.

Definition OFFLINE_MAX_ITEMS : Z := 1 * 1024 * 1024.

(** ** Comparison of strings, records and checkpoints *)

(** [strcmp] on the bytes before the NUL, which is below every other byte. *)
Fixpoint strcmp (a b : bytes) : Z :=
  match a, b with
  | [], [] => 0
  | [], _ :: _ => -1
  | _ :: _, [] => 1
  | x :: a, y :: b => if x <? y then -1 else if y <? x then 1 else strcmp a b
  end.

Definition rec_sort_cmp (x y : vault_witness_record_t) : Z :=
  let c := strcmp (tenant x) (tenant y) in
  if negb (c =? 0) then c
  else
    let c := strcmp (provider x) (provider y) in
    if negb (c =? 0) then c
    else if shard_seq x <? shard_seq y then -1
    else if shard_seq y <? shard_seq x then 1 else 0.

Definition cp_sort_cmp (x y : checkpoint) : Z :=
  if WitnessCheckpoint.seq x <? WitnessCheckpoint.seq y then -1
  else if WitnessCheckpoint.seq y <? WitnessCheckpoint.seq x then 1 else 0.

(** ** The growing arrays *)

Record vec (A : Type) := { v_items : list A; v_cap : Z }.
Arguments v_items {A}.
Arguments v_cap {A}.

Definition vec_empty {A} : vec A := {| v_items := []; v_cap := 0 |}.

(** A leaf snapshot is held by reference: its checkpoint's sequence and its
    bytes. *)
Record snap_t := { sn_seq : Z; sn_bytes : bytes }.

(** What the first pass collects.  [p_malformed] stands for both
    [report->malformed] and the [report->any_tamper] set with it. *)
Record parsed := {
  p_recs : vec vault_witness_record_t;
  p_cps : vec checkpoint;
  p_pfs : vec proof;
  p_sns : vec snap_t;
  p_frames : nat;
  p_records : nat;
  p_checkpoints : nat;
  p_proofs : nat;
  p_snapshots : nat;
  p_unknown : nat;
  p_malformed : bool;
}.

Definition parsed0 : parsed :=
  {| p_recs := vec_empty; p_cps := vec_empty; p_pfs := vec_empty; p_sns := vec_empty;
     p_frames := 0; p_records := 0; p_checkpoints := 0; p_proofs := 0; p_snapshots := 0;
     p_unknown := 0; p_malformed := false |}.

Definition malformed (s : parsed) : parsed :=
  {| p_recs := p_recs s; p_cps := p_cps s; p_pfs := p_pfs s; p_sns := p_sns s;
     p_frames := p_frames s; p_records := p_records s; p_checkpoints := p_checkpoints s;
     p_proofs := p_proofs s; p_snapshots := p_snapshots s; p_unknown := p_unknown s;
     p_malformed := true |}.

Definition count_frame (s : parsed) : parsed :=
  {| p_recs := p_recs s; p_cps := p_cps s; p_pfs := p_pfs s; p_sns := p_sns s;
     p_frames := S (p_frames s); p_records := p_records s; p_checkpoints := p_checkpoints s;
     p_proofs := p_proofs s; p_snapshots := p_snapshots s; p_unknown := p_unknown s;
     p_malformed := p_malformed s |}.

Definition add_rec (v : vec vault_witness_record_t) (s : parsed) : parsed :=
  {| p_recs := v; p_cps := p_cps s; p_pfs := p_pfs s; p_sns := p_sns s;
     p_frames := p_frames s; p_records := S (p_records s); p_checkpoints := p_checkpoints s;
     p_proofs := p_proofs s; p_snapshots := p_snapshots s; p_unknown := p_unknown s;
     p_malformed := p_malformed s |}.

Definition add_cp (v : vec checkpoint) (s : parsed) : parsed :=
  {| p_recs := p_recs s; p_cps := v; p_pfs := p_pfs s; p_sns := p_sns s;
     p_frames := p_frames s; p_records := p_records s; p_checkpoints := S (p_checkpoints s);
     p_proofs := p_proofs s; p_snapshots := p_snapshots s; p_unknown := p_unknown s;
     p_malformed := p_malformed s |}.

Definition add_pf (v : vec proof) (s : parsed) : parsed :=
  {| p_recs := p_recs s; p_cps := p_cps s; p_pfs := v; p_sns := p_sns s;
     p_frames := p_frames s; p_records := p_records s; p_checkpoints := p_checkpoints s;
     p_proofs := S (p_proofs s); p_snapshots := p_snapshots s; p_unknown := p_unknown s;
     p_malformed := p_malformed s |}.

Definition add_sn (v : vec snap_t) (s : parsed) : parsed :=
  {| p_recs := p_recs s; p_cps := p_cps s; p_pfs := p_pfs s; p_sns := v;
     p_frames := p_frames s; p_records := p_records s; p_checkpoints := p_checkpoints s;
     p_proofs := p_proofs s; p_snapshots := S (p_snapshots s); p_unknown := p_unknown s;
     p_malformed := p_malformed s |}.

Definition add_unknown (s : parsed) : parsed :=
  {| p_recs := p_recs s; p_cps := p_cps s; p_pfs := p_pfs s; p_sns := p_sns s;
     p_frames := p_frames s; p_records := p_records s; p_checkpoints := p_checkpoints s;
     p_proofs := p_proofs s; p_snapshots := p_snapshots s; p_unknown := S (p_unknown s);
     p_malformed := p_malformed s |}.

Section offline.
Context `{Sha256} `{Ed25519} `{Qsort}.
Context (realloc_ok calloc_ok : Z -> bool).

(** The four [_push] functions, which differ in the first capacity. *)
Definition push {A} (first : Z) (a : vec A) (r : A) : option (vec A) :=
  if Z.of_nat (length (v_items a)) =? v_cap a then
    let nc := if v_cap a =? 0 then first else v_cap a * 2 in
    if OFFLINE_MAX_ITEMS <? nc then None
    else if negb (realloc_ok nc) then None
    else Some {| v_items := (v_items a ++ [r])%list; v_cap := nc |}
  else Some {| v_items := (v_items a ++ [r])%list; v_cap := v_cap a |}.

Definition rec_push : vec vault_witness_record_t -> vault_witness_record_t -> option (vec _) := push 64.
Definition cp_push : vec checkpoint -> checkpoint -> option (vec checkpoint) := push 32.
Definition pf_push : vec proof -> proof -> option (vec proof) := push 32.
Definition sn_push : vec snap_t -> snap_t -> option (vec snap_t) := push 32.

(** ** The first pass *)

(** One frame that parsed to [kind] and [payload]. *)
Definition collect (kind : Z) (payload : bytes) (s : parsed) : parsed :=
  if kind =? VAULT_WITNESS_EXPORT_RECORD then
    match vault_witness_record_decode payload ≫= rec_push (p_recs s) with
    | Some v => add_rec v s
    | None => malformed s
    end
  else if kind =? VAULT_WITNESS_EXPORT_CHECKPOINT then
    match WitnessCheckpoint.vault_witness_checkpoint_decode payload ≫= cp_push (p_cps s) with
    | Some v => add_cp v s
    | None => malformed s
    end
  else if kind =? VAULT_WITNESS_EXPORT_PROOF then
    match WitnessProof.vault_witness_proof_decode payload ≫= pf_push (p_pfs s) with
    | Some v => add_pf v s
    | None => malformed s
    end
  else if kind =? VAULT_WITNESS_EXPORT_SNAPSHOT then
    if zlen payload <? 8 then malformed s
    else
      match sn_push (p_sns s) {| sn_seq := get_u64 payload; sn_bytes := drop 8 payload |} with
      | Some v => add_sn v s
      | None => malformed s
      end
  else add_unknown s.

(** The loop over the stream; [rest] is what is left of it from [off] on. *)
Fixpoint parse_loop (fuel : nat) (stream_len : Z) (rest : bytes) (s : parsed)
    : option (bytes * parsed) :=
  match fuel with
  | O => None
  | S fuel =>
      if zlen rest <? VAULT_WITNESS_EXPORT_HEADER_LEN then Some (rest, s)
      else
        let plen := get_u32 (drop 12 rest) in
        let frame_len := VAULT_WITNESS_EXPORT_HEADER_LEN + plen in
        if (stream_len <? plen) || (zlen rest <? frame_len) then Some (rest, malformed s)
        else
          let n := Z.to_nat frame_len in
          let s := count_frame s in
          parse_loop fuel stream_len (drop n rest)
            (match vault_witness_export_parse (take n rest) with
             | VAULT_WITNESS_EXPORT_PARSE_OK kind payload => collect kind payload s
             | _ => malformed s
             end)
  end.

Definition parse_stream (stream : bytes) : option parsed :=
  '(rest, s) ← parse_loop (S (length stream)) (zlen stream) stream parsed0;
  Some (if bool_decide (rest = []) then s else malformed s).

(** ** Records *)

Definition same_digest {A} (digest : A -> option bytes) (a b : A) : bool :=
  match digest a, digest b with
  | Some da, Some db => bytes_eqb da db
  | _, _ => false
  end.

(** The collapse of a sorted array: [last] is the last element kept.  The
    result is what is kept, the repeats and the conflicts. *)
Fixpoint collapse {A} (same_key : A -> A -> bool) (digest : A -> option bytes) (last : option A)
    (l : list A) : list A * nat * nat :=
  match l with
  | [] => ([], 0%nat, 0%nat)
  | x :: l =>
      match last with
      | Some y =>
          if same_key y x then
            let '(kept, dup, conf) := collapse same_key digest last l in
            if same_digest digest y x then (kept, S dup, conf) else (kept, dup, S conf)
          else
            let '(kept, dup, conf) := collapse same_key digest (Some x) l in (x :: kept, dup, conf)
      | None =>
          let '(kept, dup, conf) := collapse same_key digest (Some x) l in (x :: kept, dup, conf)
      end
  end.

Definition same_shard (a b : vault_witness_record_t) : bool :=
  bytes_eqb (tenant a) (tenant b) && bytes_eqb (provider a) (provider b).

Definition same_record_key (a b : vault_witness_record_t) : bool :=
  same_shard a b && (shard_seq a =? shard_seq b).

(** The longest prefix whose elements pass, and the rest. *)
Fixpoint span {A} (p : A -> bool) (l : list A) : list A * list A :=
  match l with
  | [] => ([], [])
  | x :: l' => if p x then let '(a, b) := span p l' in (x :: a, b) else ([], l)
  end.

(** The loop over the shards: how many chains are fine and how many are not. *)
Fixpoint shard_loop (fuel : nat) (recs : list vault_witness_record_t) : option (nat * nat) :=
  match recs with
  | [] => Some (0%nat, 0%nat)
  | r :: rest =>
      match fuel with
      | O => None
      | S fuel =>
          let '(g, rest) := span (same_shard r) rest in
          '(ok, broken) ← shard_loop fuel rest;
          match (vault_witness_verify_chain (r :: g)).1 with
          | VAULT_WITNESS_CHAIN_OK => Some (S ok, broken)
          | _ => Some (ok, S broken)
          end
      end
  end.

Record rec_report := {
  rr_duplicate : nat;
  rr_conflict : nat;
  rr_shards_ok : nat;
  rr_shards_broken : nat;
}.

Definition check_records (recs : list vault_witness_record_t) : option rec_report :=
  let '(kept, dup, conf) :=
    collapse same_record_key vault_witness_record_digest None (qsort rec_sort_cmp recs) in
  '(ok, broken) ← shard_loop (length kept) kept;
  Some {| rr_duplicate := dup; rr_conflict := conf; rr_shards_ok := ok; rr_shards_broken := broken |}.

Definition records_tamper (r : rec_report) : bool :=
  (0 <? rr_conflict r)%nat || (0 <? rr_shards_broken r)%nat.

(** ** Checkpoints *)

Definition same_seq (a b : checkpoint) : bool :=
  WitnessCheckpoint.seq a =? WitnessCheckpoint.seq b.

#[global] Instance cp_verdict_eq_dec : EqDecision WitnessCheckpoint.vault_witness_cp_verdict_t.
Proof. solve_decision. Defined.

Record cp_report := {
  cr_duplicate : nat;
  cr_conflict : nat;
  cr_ok : nat;
  cr_bad_sig : nat;
  cr_unknown_key : nat;
  cr_revoked : nat;
  cr_other : nat;
  cr_continuity : WitnessCheckpoint.vault_witness_continuity_t;
}.

Definition count_verdict (v : WitnessCheckpoint.vault_witness_cp_verdict_t)
    (anchors : list anchor) (cps : list checkpoint) : nat :=
  length (filter (fun cp => WitnessCheckpoint.vault_witness_checkpoint_verify cp anchors = v) cps).

(** The checkpoints kept, in order, and the report on them.  [cr_other] is
    the [default] case, which sets the tamper flag only. *)
Definition check_checkpoints (anchors : list anchor) (cps : list checkpoint)
    : list checkpoint * cp_report :=
  let '(kept, dup, conf) :=
    collapse same_seq WitnessCheckpoint.vault_witness_checkpoint_digest None (qsort cp_sort_cmp cps) in
  (kept,
   {| cr_duplicate := dup; cr_conflict := conf;
      cr_ok := count_verdict WitnessCheckpoint.VAULT_WITNESS_CP_OK anchors kept;
      cr_bad_sig := count_verdict WitnessCheckpoint.VAULT_WITNESS_CP_BAD_SIG anchors kept;
      cr_unknown_key := count_verdict WitnessCheckpoint.VAULT_WITNESS_CP_UNKNOWN_KEY anchors kept;
      cr_revoked := count_verdict WitnessCheckpoint.VAULT_WITNESS_CP_REVOKED_KEY anchors kept;
      cr_other := count_verdict WitnessCheckpoint.VAULT_WITNESS_CP_MALFORMED anchors kept;
      cr_continuity :=
        match kept with
        | [] => WitnessCheckpoint.VAULT_WITNESS_CONTINUITY_OK
        | _ => (vault_witness_verify_checkpoint_run kept).1
        end |}).

Definition checkpoints_tamper (r : cp_report) : bool :=
  (0 <? cr_conflict r)%nat || (0 <? cr_bad_sig r)%nat || (0 <? cr_unknown_key r)%nat
  || (0 <? cr_revoked r)%nat || (0 <? cr_other r)%nat
  || bool_decide (cr_continuity r = WitnessCheckpoint.VAULT_WITNESS_CONTINUITY_BROKEN).

(** ** Proofs and snapshots *)

(** The first checkpoint with that sequence. *)
Definition matching (cps : list checkpoint) (s : Z) : option checkpoint :=
  find (fun c => WitnessCheckpoint.seq c =? s) cps.

Inductive item_verdict := V_unmatched | V_ok | V_bad | V_root_mismatch.
#[global] Instance item_verdict_eq_dec : EqDecision item_verdict.
Proof. solve_decision. Defined.

Definition check_proof (cps : list checkpoint) (p : proof) : item_verdict :=
  match matching cps (WitnessProof.checkpoint_seq p) with
  | None => V_unmatched
  | Some c =>
      if WitnessProof.vault_witness_proof_verify p (WitnessCheckpoint.root c) then V_ok else V_bad
  end.

(** A length-prefixed name of a snapshot, read as a C string. *)
Definition snap_name (p : bytes) (off : nat) (cap : Z) : option (bytes * nat) :=
  if zlen p <? Z.of_nat off + 2 then None
  else
    let l := get_u16 (drop off p) in
    let off := (off + 2)%nat in
    if (cap <? l) || (zlen p <? Z.of_nat off + l) then None
    else Some (c_str (take (Z.to_nat l) (drop off p)), (off + Z.to_nat l)%nat).

(** One leaf of a snapshot. *)
Definition snap_leaf (p : bytes) (off : nat) : option (head * nat) :=
  '(t, off) ← snap_name p off VAULT_WITNESS_TENANT_MAX;
  '(pr, off) ← snap_name p off VAULT_WITNESS_PROVIDER_MAX;
  if zlen p <? Z.of_nat off + 8 + 32 then None
  else Some ({| h_tenant := t; h_provider := pr; h_sequence := get_u64 (drop off p);
                h_hash := take 32 (drop (off + 8) p) |}, (off + 40)%nat).

Fixpoint snap_leaves (count : nat) (p : bytes) (off : nat)
    : option (list WitnessMerkle.vault_witness_leaf_t * nat) :=
  match count with
  | O => Some ([], off)
  | S count =>
      '(h, off) ← snap_leaf p off;
      l ← head_leaf h;
      '(ls, off) ← snap_leaves count p off;
      Some (l :: ls, off)
  end.

(** 1: the leaves give the root; 0: they give another; -1: malformed. *)
Definition snapshot_rebuilds_root (p : bytes) (want_root : bytes) : Z :=
  if zlen p <? 4 then -1
  else
    let count := get_u32 p in
    if (count =? 0) || (WitnessMerkle.VAULT_WITNESS_SHARD_CEILING <? count) then -1
    else if negb (calloc_ok count) then -1
    else
      match snap_leaves (Z.to_nat count) p 4 with
      | None => -1
      | Some (leaves, off) =>
          if negb (Z.of_nat off =? zlen p) then -1
          else
            match WitnessMerkle.vault_witness_merkle_root leaves with
            | None => -1
            | Some root => if bytes_eqb root want_root then 1 else 0
            end
      end.

Definition check_snapshot (cps : list checkpoint) (sn : snap_t) : item_verdict :=
  match matching cps (sn_seq sn) with
  | None => V_unmatched
  | Some c =>
      if negb (bytes_eqb (sha256 (sn_bytes sn)) (WitnessCheckpoint.leaf_snapshot_digest c)) then V_bad
      else if snapshot_rebuilds_root (sn_bytes sn) (WitnessCheckpoint.root c) =? 1 then V_ok
      else V_root_mismatch
  end.

Definition count_items (v : item_verdict) (l : list item_verdict) : nat := length (filter (eq v) l).

(** ** The report *)

Record vault_witness_offline_report_t := {
  frames : nat; records : nat; checkpoints : nat; proofs : nat; unknown_frames : nat;
  shards_ok : nat; shards_broken : nat;
  records_duplicate : nat; records_conflict : nat;
  checkpoints_ok : nat; checkpoints_bad_sig : nat; checkpoints_unknown_key : nat;
  checkpoints_revoked : nat; checkpoints_duplicate : nat; checkpoints_conflict : nat;
  continuity : WitnessCheckpoint.vault_witness_continuity_t;
  proofs_ok : nat; proofs_unmatched : nat; proofs_bad : nat;
  snapshots : nat; snapshots_ok : nat; snapshots_unmatched : nat; snapshots_bad : nat;
  snapshots_root_mismatch : nat;
  report_malformed : bool;
  any_tamper : bool;
}.

(** [None] only if a loop ran out of rounds, which it never does. *)
Definition vault_witness_offline_verify (stream : bytes) (anchors : list anchor)
    : option vault_witness_offline_report_t :=
  s ← parse_stream stream;
  rr ← check_records (v_items (p_recs s));
  let '(cps, cr) := check_checkpoints anchors (v_items (p_cps s)) in
  let pv := map (check_proof cps) (v_items (p_pfs s)) in
  let sv := map (check_snapshot cps) (v_items (p_sns s)) in
  Some {| frames := p_frames s; records := p_records s; checkpoints := p_checkpoints s;
          proofs := p_proofs s; unknown_frames := p_unknown s;
          shards_ok := rr_shards_ok rr; shards_broken := rr_shards_broken rr;
          records_duplicate := rr_duplicate rr; records_conflict := rr_conflict rr;
          checkpoints_ok := cr_ok cr; checkpoints_bad_sig := cr_bad_sig cr;
          checkpoints_unknown_key := cr_unknown_key cr; checkpoints_revoked := cr_revoked cr;
          checkpoints_duplicate := cr_duplicate cr; checkpoints_conflict := cr_conflict cr;
          continuity := cr_continuity cr;
          proofs_ok := count_items V_ok pv; proofs_unmatched := count_items V_unmatched pv;
          proofs_bad := count_items V_bad pv;
          snapshots := p_snapshots s; snapshots_ok := count_items V_ok sv;
          snapshots_unmatched := count_items V_unmatched sv; snapshots_bad := count_items V_bad sv;
          snapshots_root_mismatch := count_items V_root_mismatch sv;
          report_malformed := p_malformed s;
          any_tamper := p_malformed s || records_tamper rr || checkpoints_tamper cr
            || (0 <? count_items V_bad pv)%nat || (0 <? count_items V_bad sv)%nat
            || (0 <? count_items V_root_mismatch sv)%nat |}.
End offline.

End WitnessOffline.
