(* ===== verification/OfflineStream.v ===== *)
(** * The stream an offline verifier reads

    The first pass of [vault_witness_offline_verify] ([WitnessOffline]): it
    always ends; a stream that it does not call malformed is the
    concatenation of canonical frames and the arrays hold what the frames
    carry, in order; and every such stream passes while the arrays stay
    within their ceiling. *)

From Stdlib Require Import ZArith Lia String Ascii.
From stdpp Require Import base numbers option sets list.
From S2P Require Import Prelude Wire WitnessRecord WitnessMerkle WitnessProof.
From S2P Require Import WitnessCheckpoint WitnessVerify WitnessExport WitnessOffline.

Module OfflineStream.
Import WitnessRecord WitnessVerify WitnessExport WitnessOffline.

(** ** What a frame carries *)

Inductive item :=
  | I_rec (r : vault_witness_record_t)
  | I_cp (c : checkpoint)
  | I_pf (p : proof)
  | I_sn (sn : snap_t).

Definition recs_of : list item -> list vault_witness_record_t :=
  omap (fun it => match it with I_rec r => Some r | _ => None end).
Definition cps_of : list item -> list checkpoint :=
  omap (fun it => match it with I_cp c => Some c | _ => None end).
Definition pfs_of : list item -> list proof :=
  omap (fun it => match it with I_pf p => Some p | _ => None end).
Definition sns_of : list item -> list snap_t :=
  omap (fun it => match it with I_sn s => Some s | _ => None end).

(** The payload of a frame of kind [k] is that of [it]. *)
Definition payload_of `{Sha256} (it : item) (k : Z) (w : bytes) : Prop :=
  match it with
  | I_rec r => k = VAULT_WITNESS_EXPORT_RECORD /\ vault_witness_record_decode w = Some r
  | I_cp c => k = VAULT_WITNESS_EXPORT_CHECKPOINT
      /\ WitnessCheckpoint.vault_witness_checkpoint_decode w = Some c
  | I_pf p => k = VAULT_WITNESS_EXPORT_PROOF /\ WitnessProof.vault_witness_proof_decode w = Some p
  | I_sn sn => k = VAULT_WITNESS_EXPORT_SNAPSHOT /\ 8 <= zlen w
      /\ get_u64 w = sn_seq sn /\ drop 8 w = sn_bytes sn
  end.

Definition carries `{Sha256} (it : item) (f : bytes) : Prop :=
  exists k w, zlen w < 2 ^ 32 /\ payload_of it k w /\ f = frame_bytes k w.

(** The arrays of [s'] are those of [s] with the items appended. *)
Definition appended (s : parsed) (its : list item) (s' : parsed) : Prop :=
  v_items (p_recs s') = (v_items (p_recs s) ++ recs_of its)%list
  /\ v_items (p_cps s') = (v_items (p_cps s) ++ cps_of its)%list
  /\ v_items (p_pfs s') = (v_items (p_pfs s) ++ pfs_of its)%list
  /\ v_items (p_sns s') = (v_items (p_sns s) ++ sns_of its)%list.

Lemma appended_nil s s' : appended s [] s' <->
  v_items (p_recs s') = v_items (p_recs s) /\ v_items (p_cps s') = v_items (p_cps s)
  /\ v_items (p_pfs s') = v_items (p_pfs s) /\ v_items (p_sns s') = v_items (p_sns s).
Proof. unfold appended. cbn. by rewrite !app_nil_r. Qed.

Lemma appended_cons s it its s1 s2 :
  appended s [it] s1 -> appended s1 its s2 -> appended s (it :: its) s2.
Proof.
  intros (R1 & C1 & P1 & S1) (R2 & C2 & P2 & S2). unfold appended.
  rewrite R2, R1, C2, C1, P2, P1, S2, S1. rewrite <- !app_assoc.
  destruct it; cbn; by rewrite ?app_nil_r.
Qed.

(** ** The arrays *)

(** Capacities are powers of two up to the ceiling. *)
Definition vec_ok {A} (v : vec A) : Prop :=
  (v_cap v = 0 /\ v_items v = [])
  \/ exists k, 0 <= k <= 20 /\ v_cap v = 2 ^ k /\ Z.of_nat (length (v_items v)) <= v_cap v.

Section Stream.
Context `{Sha256}.
Context (realloc_ok : Z -> bool).

Lemma push_items {A} first (v v' : vec A) r :
  push realloc_ok first v r = Some v' -> v_items v' = (v_items v ++ [r])%list.
Proof. unfold push. repeat case_match; by intros [= <-]. Qed.

Lemma push_ok {A} j (v : vec A) r :
  (forall n, realloc_ok n = true) -> 0 <= j <= 20 -> vec_ok v ->
  Z.of_nat (length (v_items v)) < OFFLINE_MAX_ITEMS ->
  exists v', push realloc_ok (2 ^ j) v r = Some v' /\ vec_ok v'.
Proof.
  intros Hmem Hj Hv Hlen. unfold push, OFFLINE_MAX_ITEMS in *. rewrite !Hmem. cbn [negb].
  change (1 * 1024 * 1024) with (2 ^ 20) in *.
  assert (Hpow : forall k, 0 <= k <= 20 -> 2 ^ k <= 2 ^ 20) by (intros; apply Z.pow_le_mono_r; lia).
  destruct Hv as [[Hc Hi]|(k & Hk & Hc & Hle)].
  - rewrite Hc, Hi. cbn [length Z.of_nat Z.eqb]. rewrite (proj2 (Z.ltb_ge _ _)) by (apply Hpow; lia).
    eexists. split; [done|]. right. exists j. cbn. split_and!; [lia..| done|].
    pose proof (Z.pow_pos_nonneg 2 j ltac:(lia) ltac:(lia)). lia.
  - pose proof (Z.pow_pos_nonneg 2 k ltac:(lia) ltac:(lia)).
    destruct (Z.eqb_spec (Z.of_nat (length (v_items v))) (v_cap v)) as [E|E].
    + rewrite (proj2 (Z.eqb_neq (v_cap v) 0)) by lia.
      assert (k < 20) by (destruct (decide (k = 20)); [subst; lia | lia]).
      assert (Hd : v_cap v * 2 = 2 ^ (k + 1)) by (rewrite Z.pow_add_r by lia; lia).
      rewrite Hd, (proj2 (Z.ltb_ge _ _)) by (apply Hpow; lia).
      eexists. split; [done|]. right. exists (k + 1). cbn. rewrite length_app. cbn. split_and!; lia.
    + eexists. split; [done|]. right. exists k. cbn. rewrite length_app. cbn. split_and!; lia.
Qed.

(** ** One frame *)

Definition arrays_ok (s : parsed) : Prop :=
  vec_ok (p_recs s) /\ vec_ok (p_cps s) /\ vec_ok (p_pfs s) /\ vec_ok (p_sns s).

(** There is room for the items. *)
Definition room (s : parsed) (its : list item) : Prop :=
  Z.of_nat (length (v_items (p_recs s)) + length (recs_of its)) <= OFFLINE_MAX_ITEMS
  /\ Z.of_nat (length (v_items (p_cps s)) + length (cps_of its)) <= OFFLINE_MAX_ITEMS
  /\ Z.of_nat (length (v_items (p_pfs s)) + length (pfs_of its)) <= OFFLINE_MAX_ITEMS
  /\ Z.of_nat (length (v_items (p_sns s)) + length (sns_of its)) <= OFFLINE_MAX_ITEMS.

(** The array after a push holds the item at its end. *)
Ltac landed Hp := apply push_items in Hp; unfold appended; cbn; by rewrite Hp, !app_nil_r.

(** A frame that is not called malformed was of a known kind and is in its
    array now. *)
Lemma collect_sound k w s :
  kind_known k = true -> p_malformed (collect realloc_ok k w s) = false ->
  p_malformed s = false /\ exists it, payload_of it k w /\ appended s [it] (collect realloc_ok k w s).
Proof.
  intros Hk. unfold collect.
  destruct (Z.eqb_spec k VAULT_WITNESS_EXPORT_RECORD) as [->|N0].
  { destruct (vault_witness_record_decode w) as [r|] eqn:Hd; [cbn [mbind option_bind]|done].
    destruct (rec_push _ _ _) as [v|] eqn:Hp; [|done]. intros Hm. split; [exact Hm|]. exists (I_rec r).
    split; [split; [reflexivity | exact Hd] | landed Hp]. }
  destruct (Z.eqb_spec k VAULT_WITNESS_EXPORT_CHECKPOINT) as [->|N1].
  { destruct (WitnessCheckpoint.vault_witness_checkpoint_decode w) as [c|] eqn:Hd; [cbn [mbind option_bind]|done].
    destruct (cp_push _ _ _) as [v|] eqn:Hp; [|done]. intros Hm. split; [exact Hm|]. exists (I_cp c).
    split; [split; [reflexivity | exact Hd] | landed Hp]. }
  destruct (Z.eqb_spec k VAULT_WITNESS_EXPORT_PROOF) as [->|N2].
  { destruct (WitnessProof.vault_witness_proof_decode w) as [p|] eqn:Hd; [cbn [mbind option_bind]|done].
    destruct (pf_push _ _ _) as [v|] eqn:Hp; [|done]. intros Hm. split; [exact Hm|]. exists (I_pf p).
    split; [split; [reflexivity | exact Hd] | landed Hp]. }
  destruct (Z.eqb_spec k VAULT_WITNESS_EXPORT_SNAPSHOT) as [->|N3].
  { destruct (Z.ltb_spec (zlen w) 8) as [|Hge]; [done|]. set (sn := {| sn_seq := _; sn_bytes := _ |}).
    destruct (sn_push _ _ _) as [v|] eqn:Hp; [|done]. intros Hm. split; [exact Hm|]. exists (I_sn sn).
    split; [exact (conj eq_refl (conj Hge (conj eq_refl eq_refl))) | landed Hp]. }
  exfalso. unfold kind_known in Hk. lia.
Qed.

Lemma collect_complete it k w s :
  (forall n, realloc_ok n = true) -> arrays_ok s -> room s [it] -> payload_of it k w ->
  arrays_ok (collect realloc_ok k w s) /\ appended s [it] (collect realloc_ok k w s)
  /\ p_malformed (collect realloc_ok k w s) = p_malformed s.
Proof.
  intros Hmem (Vr & Vc & Vp & Vs) (Rr & Rc & Rp & Rs).
  destruct it as [r|c|p|sn]; cbn [payload_of]; [intros [-> Hd]..|intros (-> & Hl & Hq & Hb)];
    unfold collect; cbn -[vault_witness_record_decode WitnessCheckpoint.vault_witness_checkpoint_decode
      WitnessProof.vault_witness_proof_decode]; cbn in Rr, Rc, Rp, Rs.
  - destruct (push_ok 6 (p_recs s) r Hmem ltac:(lia) Vr ltac:(lia)) as (v & Hp & Hv).
    rewrite Hd. cbn [mbind option_bind]. unfold rec_push. change 64 with (2 ^ 6). rewrite Hp.
    split; [by split_and!|]. split; [landed Hp | reflexivity].
  - destruct (push_ok 5 (p_cps s) c Hmem ltac:(lia) Vc ltac:(lia)) as (v & Hp & Hv).
    rewrite Hd. cbn [mbind option_bind]. unfold cp_push. change 32 with (2 ^ 5). rewrite Hp.
    split; [by split_and!|]. split; [landed Hp | reflexivity].
  - destruct (push_ok 5 (p_pfs s) p Hmem ltac:(lia) Vp ltac:(lia)) as (v & Hp & Hv).
    rewrite Hd. cbn [mbind option_bind]. unfold pf_push. change 32 with (2 ^ 5). rewrite Hp.
    split; [by split_and!|]. split; [landed Hp | reflexivity].
  - destruct (push_ok 5 (p_sns s) sn Hmem ltac:(lia) Vs ltac:(lia)) as (v & Hp & Hv).
    rewrite (proj2 (Z.ltb_ge _ _)) by lia. rewrite Hq, Hb.
    replace {| sn_seq := sn_seq sn; sn_bytes := sn_bytes sn |} with sn by (by destruct sn).
    unfold sn_push. change 32 with (2 ^ 5). rewrite Hp.
    split; [by split_and!|]. split; [landed Hp | reflexivity].
Qed.

(** ** The loop *)

Lemma parse_loop_total fuel len rest s :
  is_bytes rest -> (length rest < fuel)%nat -> is_Some (parse_loop realloc_ok fuel len rest s).
Proof.
  revert rest s. induction fuel as [|fuel IH]; intros rest s Hb Hf; [lia|]. cbn [parse_loop].
  destruct (Z.ltb_spec (zlen rest) VAULT_WITNESS_EXPORT_HEADER_LEN) as [|Hge]; [by eexists|].
  destruct (_ || _) eqn:G; [by eexists|]. bool_to_prop. apply IH; [auto with aimee|].
  unfold VAULT_WITNESS_EXPORT_HEADER_LEN, zlen in *. rewrite length_drop.
  assert (Hr : 0 <= get_u32 (drop 12 rest) < 2 ^ 32)
    by (apply get_u32_range; [auto with aimee | rewrite length_drop; lia]). lia.
Qed.

Lemma parse_loop_sound fuel len rest s r' s' :
  is_bytes rest -> parse_loop realloc_ok fuel len rest s = Some (r', s') ->
  r' = [] -> p_malformed s' = false ->
  p_malformed s = false /\ exists its fs, rest = concat fs /\ Forall2 carries its fs /\ appended s its s'.
Proof.
  revert rest s. induction fuel as [|fuel IH]; intros rest s Hb; [done|]. cbn [parse_loop].
  destruct (Z.ltb_spec (zlen rest) VAULT_WITNESS_EXPORT_HEADER_LEN) as [|Hge].
  { intros [= -> ->] -> Hm. split; [done|]. exists [], []. split_and!; [done | constructor |].
    by apply appended_nil. }
  destruct (_ || _) eqn:G; [by intros [= _ <-] _ ?|].
  set (n := Z.to_nat _). set (s1 := count_frame s).
  intros Hl -> Hm. apply IH in Hl as (Hm1 & its & fs & Hrest & Hc & Happ); [|auto with aimee | done | done].
  destruct (vault_witness_export_parse (take n rest)) as [k w| |] eqn:Hp; [|done..].
  apply parse_inv in Hp as (Hk & Hw & _ & Hf); [|auto with aimee].
  destruct (collect_sound k w s1 Hk Hm1) as (Hm0 & it & Hit & Happ1). split; [exact Hm0|].
  exists (it :: its), (take n rest :: fs). split_and!.
  - cbn [concat]. by rewrite <- Hrest, take_drop.
  - constructor; [|done]. exists k, w. by split_and!.
  - eapply appended_cons; [|exact Happ]. exact Happ1.
Qed.

Lemma room_cons s it its s1 :
  appended s [it] s1 -> room s (it :: its) -> room s [it] /\ room s1 its.
Proof.
  intros (R & C & P & S) (Rr & Rc & Rp & Rs). unfold room. rewrite R, C, P, S, !length_app.
  unfold recs_of, cps_of, pfs_of, sns_of in *. destruct it; cbn in *; lia.
Qed.

Lemma parse_loop_complete fuel len fs its s :
  (forall n, realloc_ok n = true) -> (length (concat fs) < fuel)%nat -> zlen (concat fs) <= len ->
  Forall2 carries its fs -> arrays_ok s -> room s its ->
  exists s', parse_loop realloc_ok fuel len (concat fs) s = Some ([], s') /\ appended s its s'
    /\ p_malformed s' = p_malformed s.
Proof.
  intros Hmem Hf Hlen Hc. revert fuel s Hf Hlen.
  induction Hc as [|it f its fs (k & w & Hw & Hpay & ->) Hc IH]; intros fuel s Hf Hlen Hok Hroom;
    (destruct fuel as [|fuel]; [lia|]); cbn [parse_loop concat] in *.
  { exists s. split_and!; [done | by apply appended_nil | done]. }
  pose proof (export_frame_length k w) as Hfl. pose proof (zlen_nonneg w). pose proof (zlen_nonneg (concat fs)).
  rewrite zlen_app in Hlen. rewrite length_app in Hf.
  pose proof (frame_fields k w (concat fs) Hw) as (_ & _ & _ & _ & Hplen & _).
  unfold VAULT_WITNESS_EXPORT_HEADER_LEN. rewrite Hplen, zlen_app, Hfl.
  rewrite (proj2 (Z.ltb_ge (16 + _ + _) 16)), (proj2 (Z.ltb_ge len _)), (proj2 (Z.ltb_ge _ (16 + _))) by lia.
  cbn [orb]. rewrite <- Hfl. unfold zlen. rewrite Nat2Z.id, take_app_length, drop_app_length.
  assert (Hk : kind_known k = true) by (destruct it; destruct Hpay as [-> _]; done).
  rewrite parse_frame by done.
  assert (Hroom1 : room (count_frame s) [it]).
  { unfold room in *. cbn. unfold recs_of, cps_of, pfs_of, sns_of in *. destruct it; cbn in *; lia. }
  destruct (collect_complete it k w (count_frame s) Hmem Hok Hroom1 Hpay) as (Hok1 & Happ1 & Hm1).
  destruct (IH fuel (collect realloc_ok k w (count_frame s))) as (s' & Hl & Happ & Hm).
  - unfold zlen in Hfl. lia.
  - lia.
  - exact Hok1.
  - by apply (room_cons (count_frame s) it).
  - exists s'. split; [exact Hl|]. split; [|by rewrite Hm].
    eapply appended_cons; [|exact Happ]. exact Happ1.
Qed.

(** ** The counters *)

(** The counters say how much is in the arrays, and no frame is of an unknown
    kind: a frame of another kind does not parse. *)
Definition tally (s : parsed) : Prop :=
  p_records s = length (v_items (p_recs s)) /\ p_checkpoints s = length (v_items (p_cps s))
  /\ p_proofs s = length (v_items (p_pfs s)) /\ p_snapshots s = length (v_items (p_sns s))
  /\ p_unknown s = 0%nat
  /\ (p_malformed s = false ->
      p_frames s = (p_records s + p_checkpoints s + p_proofs s + p_snapshots s)%nat).

Lemma collect_tally k w s :
  kind_known k = true -> tally s -> tally (collect realloc_ok k w (count_frame s)).
Proof.
  intros Hk (Hr & Hc & Hp & Hs & Hu & Hf). unfold collect.
  destruct (Z.eqb_spec k VAULT_WITNESS_EXPORT_RECORD) as [->|N0].
  { destruct (vault_witness_record_decode w ≫= _) as [v|] eqn:E; [|by split_and!].
    apply bind_Some in E as (r & _ & E%push_items). unfold tally. cbn. rewrite E, length_app. cbn.
    split_and!; try done; [cbn in *; lia|]. intros Hm. specialize (Hf Hm). lia. }
  destruct (Z.eqb_spec k VAULT_WITNESS_EXPORT_CHECKPOINT) as [->|N1].
  { destruct (WitnessCheckpoint.vault_witness_checkpoint_decode w ≫= _) as [v|] eqn:E; [|by split_and!].
    apply bind_Some in E as (r & _ & E%push_items). unfold tally. cbn. rewrite E, length_app. cbn.
    split_and!; try done; [cbn in *; lia|]. intros Hm. specialize (Hf Hm). lia. }
  destruct (Z.eqb_spec k VAULT_WITNESS_EXPORT_PROOF) as [->|N2].
  { destruct (WitnessProof.vault_witness_proof_decode w ≫= _) as [v|] eqn:E; [|by split_and!].
    apply bind_Some in E as (r & _ & E%push_items). unfold tally. cbn. rewrite E, length_app. cbn.
    split_and!; try done; [cbn in *; lia|]. intros Hm. specialize (Hf Hm). lia. }
  destruct (Z.eqb_spec k VAULT_WITNESS_EXPORT_SNAPSHOT) as [->|N3].
  { destruct (zlen w <? 8); [by split_and!|]. destruct (sn_push _ _ _) as [v|] eqn:E; [|by split_and!].
    apply push_items in E. unfold tally. cbn. rewrite E, length_app. cbn.
    split_and!; try done; [cbn in *; lia|]. intros Hm. specialize (Hf Hm). lia. }
  exfalso. unfold kind_known in Hk. lia.
Qed.

Lemma parse_loop_tally fuel len rest s r' s' : is_bytes rest ->
  parse_loop realloc_ok fuel len rest s = Some (r', s') -> tally s -> tally s'.
Proof.
  revert rest s. induction fuel as [|fuel IH]; intros rest s Hb; [done|]. cbn [parse_loop].
  destruct (zlen rest <? VAULT_WITNESS_EXPORT_HEADER_LEN); [by intros [= _ <-]|].
  assert (Hmal : forall s, tally s -> tally (malformed s)).
  { intros t (? & ? & ? & ? & ? & ?). by split_and!. }
  destruct (_ || _); [intros [= _ <-]; apply Hmal|].
  intros Hl Ht. eapply IH; [|exact Hl|]; [auto with aimee|].
  destruct (vault_witness_export_parse _) as [k w| |] eqn:Hp.
  - apply parse_inv in Hp as (Hk & _); [|auto with aimee]. by apply collect_tally.
  - destruct Ht as (? & ? & ? & ? & ? & ?). by split_and!.
  - destruct Ht as (? & ? & ? & ? & ? & ?). by split_and!.
Qed.

Lemma parse_stream_tally stream s :
  is_bytes stream -> parse_stream realloc_ok stream = Some s -> tally s.
Proof.
  intros Hb. unfold parse_stream. destruct (parse_loop _ _ _ _ _) as [[r s1]|] eqn:Hl; [|done].
  apply parse_loop_tally in Hl as (? & ? & ? & ? & ? & ?); [|done | done].
  cbn [mbind option_bind]. case_bool_decide; intros [= <-]; by split_and!.
Qed.

Lemma items_split its :
  length its = (length (recs_of its) + length (cps_of its) + length (pfs_of its) + length (sns_of its))%nat.
Proof.
  unfold recs_of, cps_of, pfs_of, sns_of. induction its as [|it its IH]; [done|]. destruct it; cbn; lia.
Qed.

(** ** The whole stream *)

Lemma parse_stream_total stream : is_bytes stream -> is_Some (parse_stream realloc_ok stream).
Proof.
  intros Hb. unfold parse_stream.
  destruct (parse_loop_total (S (length stream)) (zlen stream) stream parsed0 Hb ltac:(lia)) as [[r s] ->].
  by eexists.
Qed.

Lemma parse_stream_sound stream s :
  is_bytes stream -> parse_stream realloc_ok stream = Some s -> p_malformed s = false ->
  exists its fs, stream = concat fs /\ Forall2 carries its fs /\ appended parsed0 its s.
Proof.
  intros Hb. unfold parse_stream.
  destruct (parse_loop _ _ _ _ _) as [[r s1]|] eqn:Hl; [cbn [mbind option_bind]|done].
  case_bool_decide as Hr; intros [= <-] Hm; [|done].
  eapply parse_loop_sound in Hl as (_ & ?); done.
Qed.

Lemma parse_stream_complete its fs :
  (forall n, realloc_ok n = true) -> Forall2 carries its fs -> room parsed0 its ->
  exists s, parse_stream realloc_ok (concat fs) = Some s /\ p_malformed s = false
    /\ appended parsed0 its s.
Proof.
  intros Hmem Hc Hroom. unfold parse_stream.
  destruct (parse_loop_complete (S (length (concat fs))) (zlen (concat fs)) fs its parsed0 Hmem)
    as (s & -> & Happ & Hm); [lia..| done | |done|].
  - repeat split; by left.
  - exists s. by split_and!.
Qed.

End Stream.

(** What stands in a well-formed frame is well formed. *)
Lemma carries_wf `{Sha256} it f : is_bytes f -> carries it f ->
  match it with
  | I_rec r => wf_record r
  | I_cp c => WitnessCheckpoint.wf_checkpoint c /\ WitnessCheckpoint.checkpoint_valid c = true
  | I_pf p => WitnessProof.wf_proof p /\ WitnessProof.proof_valid p = true
  | I_sn sn => is_bytes (sn_bytes sn)
  end.
Proof.
  intros Hb (k & w & _ & Hp & ->).
  assert (Hw : is_bytes w).
  { unfold frame_bytes in Hb. rewrite !is_bytes_app in Hb. tauto. }
  destruct it as [r|c|p|sn].
  - destruct Hp as [_ Hd]. by apply decode_inv in Hd as (_ & ? & _).
  - destruct Hp as [_ Hd]. apply WitnessCheckpoint.cp_decode_inv in Hd as (He & _ & ?); [|done].
    split; [done | by eapply WitnessCheckpoint.encode_valid].
  - destruct Hp as [_ Hd]. by apply WitnessProof.proof_decode_inv in Hd as (? & ? & _).
  - destruct Hp as (_ & _ & _ & <-). auto with aimee.
Qed.

End OfflineStream.
