(* ===== verification/OfflineVerdict.v ===== *)
(** * What the offline verifier's verdict means

    Over the model of [vault_witness_offline.c] ([WitnessOffline]): the
    verifier always reports; a report without tampering means that the
    stream is nothing but canonical frames, that the records of every shard
    are, up to repeats, one linked chain, that one run of signed checkpoints
    stands for all checkpoints, and that every proof and snapshot whose
    checkpoint is there agrees with its root; a healthy stream, in whatever
    order and however often its frames repeat, is reported clean. *)

From Stdlib Require Import ZArith Lia String Ascii Sorted Permutation.
From stdpp Require Import base numbers option sets list sorting.
From S2P Require Import Prelude Wire WitnessRecord WitnessMerkle WitnessProof.
From S2P Require Import WitnessCheckpoint WitnessVerify WitnessExport WitnessOffline OfflineStream.

Module OfflineVerdict.
Import WitnessRecord WitnessVerify WitnessExport WitnessOffline OfflineStream.

(** ** The comparison functions *)

Definition lex {A} (f g : A -> A -> Z) (a b : A) : Z := if negb (f a b =? 0) then f a b else g a b.

Lemma lex_consistent {A} (f g : A -> A -> Z) : consistent f -> consistent g -> consistent (lex f g).
Proof.
  intros [Fs Ft] [Gs Gt]. split; unfold lex.
  - intros a b. pose proof (Fs a b). pose proof (Fs b a). pose proof (Gs a b).
    destruct (Z.eqb_spec (f a b) 0), (Z.eqb_spec (f b a) 0); cbn [negb]; lia.
  - intros a b c. pose proof (Ft a b c). pose proof (Ft c a b). pose proof (Ft b c a). pose proof (Gt a b c).
    pose proof (Fs a b). pose proof (Fs b c). pose proof (Fs a c).
    pose proof (Fs b a). pose proof (Fs c b). pose proof (Fs c a).
    destruct (Z.eqb_spec (f a b) 0), (Z.eqb_spec (f b c) 0), (Z.eqb_spec (f a c) 0); cbn [negb]; lia.
Qed.

Lemma on_consistent {A B} (k : A -> B) (f : B -> B -> Z) :
  consistent f -> consistent (fun a b => f (k a) (k b)).
Proof. intros [Fs Ft]. split; intros; [apply Fs | by eapply Ft]. Qed.

Definition zcmp (a b : Z) : Z := if a <? b then -1 else if b <? a then 1 else 0.

Lemma zcmp_consistent : consistent zcmp.
Proof.
  split; unfold zcmp; intros a b; [|intros c].
  - destruct (Z.ltb_spec a b), (Z.ltb_spec b a); lia.
  - destruct (Z.ltb_spec a b), (Z.ltb_spec b a), (Z.ltb_spec b c), (Z.ltb_spec c b),
      (Z.ltb_spec a c), (Z.ltb_spec c a); lia.
Qed.

Lemma strcmp_zero a b : strcmp a b = 0 <-> a = b.
Proof.
  revert b. induction a as [|x a IH]; intros [|y b]; cbn; [done..|].
  destruct (Z.ltb_spec x y), (Z.ltb_spec y x); [naive_solver lia..|].
  rewrite IH. assert (x = y) as -> by lia. naive_solver.
Qed.

Lemma strcmp_consistent : consistent strcmp.
Proof.
  split.
  - intros a. induction a as [|x a IH]; intros [|y b]; cbn; [lia..|].
    destruct (Z.ltb_spec x y), (Z.ltb_spec y x); try lia. apply IH.
  - intros a. induction a as [|x a IH]; intros [|y b] [|z c]; cbn; try lia.
    destruct (Z.ltb_spec x y), (Z.ltb_spec y x), (Z.ltb_spec y z), (Z.ltb_spec z y),
      (Z.ltb_spec x z), (Z.ltb_spec z x); try lia. apply IH.
Qed.

(** The order of the shards, and of the records in them. *)
Definition shard_cmp : vault_witness_record_t -> vault_witness_record_t -> Z :=
  lex (fun a b => strcmp (tenant a) (tenant b)) (fun a b => strcmp (provider a) (provider b)).

Lemma shard_cmp_consistent : consistent shard_cmp.
Proof.
  apply lex_consistent; [apply (on_consistent tenant) | apply (on_consistent provider)];
    apply strcmp_consistent.
Qed.

Lemma rec_sort_cmp_lex a b :
  rec_sort_cmp a b = lex shard_cmp (fun a b => zcmp (shard_seq a) (shard_seq b)) a b.
Proof.
  unfold rec_sort_cmp, lex, shard_cmp, lex. cbv zeta.
  destruct (Z.eqb_spec (strcmp (tenant a) (tenant b)) 0) as [E|E]; cbn [negb]; [done|].
  apply Z.eqb_neq in E. by rewrite E.
Qed.

Lemma consistent_ext {A} (f g : A -> A -> Z) : (forall a b, f a b = g a b) -> consistent g -> consistent f.
Proof.
  intros E [Gs Gt]. split; intros; rewrite !E in *; [apply Gs | by eapply Gt].
Qed.

Lemma rec_sort_consistent : consistent rec_sort_cmp.
Proof.
  eapply consistent_ext; [apply rec_sort_cmp_lex|]. apply lex_consistent; [apply shard_cmp_consistent|].
  apply (on_consistent shard_seq), zcmp_consistent.
Qed.

Lemma cp_sort_consistent : consistent cp_sort_cmp.
Proof. exact (on_consistent WitnessCheckpoint.seq zcmp zcmp_consistent). Qed.

Lemma same_shard_iff a b : same_shard a b = true <-> tenant a = tenant b /\ provider a = provider b.
Proof. unfold same_shard. by rewrite andb_true_iff, !bytes_eqb_true. Qed.

Lemma same_shard_cmp a b : same_shard a b = true <-> shard_cmp a b = 0.
Proof.
  rewrite same_shard_iff, <- !strcmp_zero. unfold shard_cmp, lex.
  destruct (Z.eqb_spec (strcmp (tenant a) (tenant b)) 0); cbn [negb]; naive_solver.
Qed.

Lemma zcmp_zero a b : zcmp a b = 0 <-> a = b.
Proof. unfold zcmp. destruct (Z.ltb_spec a b), (Z.ltb_spec b a); lia. Qed.

Lemma same_record_key_cmp a b : same_record_key a b = true <-> rec_sort_cmp a b = 0.
Proof.
  unfold same_record_key. rewrite andb_true_iff, same_shard_cmp, rec_sort_cmp_lex, Z.eqb_eq.
  unfold lex. destruct (Z.eqb_spec (shard_cmp a b) 0); cbn [negb]; rewrite ?zcmp_zero; naive_solver.
Qed.

Lemma same_seq_cmp a b : same_seq a b = true <-> cp_sort_cmp a b = 0.
Proof. unfold same_seq. rewrite Z.eqb_eq. symmetry. apply zcmp_zero. Qed.

(** ** The collapse of a sorted array *)

Definition strictly {A} (cmp : A -> A -> Z) (a b : A) : Prop := cmp a b < 0.

Lemma strictly_trans {A} (cmp : A -> A -> Z) a b c :
  consistent cmp -> cmp a b < 0 -> cmp b c <= 0 -> cmp a c < 0.
Proof.
  intros [Hs Ht] Hab Hbc. pose proof (Ht a b c). pose proof (Ht b c a).
  pose proof (Hs a b). pose proof (Hs a c). pose proof (Hs c a). pose proof (Hs b a). lia.
Qed.

Lemma cmp_refl {A} (cmp : A -> A -> Z) a : consistent cmp -> cmp a a = 0.
Proof. intros [Hs _]. pose proof (Hs a a). lia. Qed.

Section Collapse.
Context {A : Type} (cmp : A -> A -> Z) (same : A -> A -> bool) (digest : A -> option bytes).
Context (Hcmp : consistent cmp) (Hsame : forall a b, same a b = true <-> cmp a b = 0).

Lemma collapse_spec last l kept dup conf :
  StronglySorted (cmp_le cmp) (option_list last ++ l) ->
  collapse same digest last l = (kept, dup, conf) ->
  StronglySorted (strictly cmp) (option_list last ++ kept)
  /\ (forall x, x ∈ kept -> x ∈ l)
  /\ (forall x, x ∈ l -> exists y, y ∈ option_list last ++ kept /\ cmp y x = 0
        /\ (conf = 0%nat -> y = x \/ same_digest digest y x = true)).
Proof.
  revert last kept dup conf. induction l as [|x l IH]; intros last kept dup conf Hs; cbn [collapse].
  { intros [= <- <- <-]. split; [|split; set_solver].
    destruct last; cbn; repeat constructor. }
  assert (Hnew : forall kept', (exists dup', collapse same digest (Some x) l = (kept', dup', conf)) ->
    (forall y, last = Some y -> cmp y x < 0) -> kept = x :: kept' ->
    StronglySorted (strictly cmp) (option_list last ++ kept)
    /\ (forall z, z ∈ kept -> z ∈ x :: l)
    /\ (forall z, z ∈ x :: l -> exists y, y ∈ option_list last ++ kept /\ cmp y z = 0
          /\ (conf = 0%nat -> y = z \/ same_digest digest y z = true))).
  { intros kept' (dup' & Hc) Hlt ->.
    apply IH in Hc as (Hsort & Hsub & Hcov); cbn [option_list app] in *.
    2:{ destruct last; cbn in Hs; [by inversion Hs | done]. }
    split_and!.
    - destruct last as [y|]; cbn [option_list app]; [|done]. constructor; [done|].
      specialize (Hlt y eq_refl). constructor; [exact Hlt|].
      inversion Hsort as [|? ? _ Hall]; subst. eapply Forall_impl; [exact Hall|].
      intros z Hz. unfold strictly in *. eapply strictly_trans; [done | exact Hlt | lia].
    - set_solver.
    - intros z [->|Hz]%elem_of_cons.
      + exists x. split; [set_solver|]. split; [by apply cmp_refl|]. by left.
      + destruct (Hcov z Hz) as (y & Hy & Hyz & Hd). exists y. split; [set_solver | done]. }
  destruct last as [y|].
  - assert (Hyx : cmp y x <= 0).
    { cbn in Hs. inversion Hs as [|? ? _ Hall]; subst. by inversion Hall. }
    destruct (same y x) eqn:Hk.
    + apply Hsame in Hk. destruct (collapse same digest (Some y) l) as [[k du] co] eqn:Hc.
      assert (Hrec := IH (Some y) k du co).
      destruct Hrec as (Hsort & Hsub & Hcov); [|done|].
      { cbn in Hs |- *. inversion Hs as [|? ? Hxl Hall]; subst. inversion Hxl; subst. inversion Hall; subst.
        by constructor. }
      intros Heq. assert (kept = k) as -> by (destruct (same_digest digest y x); congruence).
      split; [done|]. split; [set_solver|]. intros z [->|Hz]%elem_of_cons.
      * exists y. split; [cbn; set_solver|]. split; [done|]. intros ->. right.
        by destruct (same_digest digest y x).
      * destruct (Hcov z Hz) as (w & Hw & Hwz & Hd). exists w. split; [done|]. split; [done|].
        intros ->. apply Hd. destruct (same_digest digest y x); congruence.
    + destruct (collapse same digest (Some x) l) as [[k du] co] eqn:Hc. intros [= <- <- <-].
      apply (Hnew k); [by eexists | | done]. intros ? [= <-].
      assert (cmp y x <> 0) by (intros E; apply Hsame in E; congruence). lia.
  - destruct (collapse same digest (Some x) l) as [[k du] co] eqn:Hc. intros [= <- <- <-].
    by apply (Hnew k); [eexists | |].
Qed.

Lemma collapse_length last l kept dup conf :
  collapse same digest last l = (kept, dup, conf) -> (length kept + dup + conf = length l)%nat.
Proof.
  revert last kept dup conf. induction l as [|x l IH]; intros last kept dup conf; cbn [collapse].
  { by intros [= <- <- <-]. }
  assert (Hnew : forall o, (let '(k, du, co) := collapse same digest o l in (x :: k, du, co)) = (kept, dup, conf) ->
    (length kept + dup + conf = S (length l))%nat).
  { intros o. destruct (collapse same digest o l) as [[k du] co] eqn:E. intros [= <- <- <-].
    apply IH in E. cbn. lia. }
  destruct last as [y|]; [|apply Hnew]. destruct (same y x); [|apply Hnew].
  destruct (collapse same digest (Some y) l) as [[k du] co] eqn:E. apply IH in E.
  destruct (same_digest digest y x); intros [= <- <- <-]; cbn; lia.
Qed.

(** A sorted array in which equal keys mean equal elements with a digest has
    no conflict. *)
Lemma collapse_clean last l kept dup conf :
  (forall x y, x ∈ option_list last ++ l -> y ∈ option_list last ++ l -> cmp x y = 0 -> x = y) ->
  (forall x, x ∈ option_list last ++ l -> is_Some (digest x)) ->
  collapse same digest last l = (kept, dup, conf) -> conf = 0%nat.
Proof.
  revert last kept dup conf. induction l as [|x l IH]; intros last kept dup conf Hu Hd; cbn [collapse].
  { by intros [= <- <- <-]. }
  assert (Hnew : forall k du co, collapse same digest (Some x) l = (k, du, co) -> co = 0%nat).
  { intros k du co Hc. eapply IH; [| |exact Hc]; cbn; set_solver. }
  destruct last as [y|].
  - destruct (same y x) eqn:Hk.
    + destruct (collapse same digest (Some y) l) as [[k du] co] eqn:Hc.
      assert (co = 0%nat) as -> by (eapply IH; [| |exact Hc]; cbn; set_solver).
      apply Hsame in Hk. apply Hu in Hk as <-; [|cbn; set_solver..].
      destruct (Hd y ltac:(cbn; set_solver)) as [d E]. unfold same_digest. rewrite E, bytes_eqb_refl.
      by intros [= <- <- <-].
    + destruct (collapse same digest (Some x) l) as [[k du] co] eqn:Hc. intros [= <- <- <-]. by eapply Hnew.
  - destruct (collapse same digest (Some x) l) as [[k du] co] eqn:Hc. intros [= <- <- <-]. by eapply Hnew.
Qed.
End Collapse.

(** ** The groups of the sorted records *)

Lemma span_spec {A} (p : A -> bool) l a b :
  span p l = (a, b) ->
  l = (a ++ b)%list /\ (forall x, x ∈ a -> p x = true) /\ forall y b', b = y :: b' -> p y = false.
Proof.
  revert a b. induction l as [|x l IH]; intros a b; cbn.
  - intros [= <- <-]. split_and!; [done | set_solver | done].
  - destruct (p x) eqn:Hp.
    + destruct (span p l) as [a' b'] eqn:Hs. intros [= <- <-].
      destruct (IH a' b' eq_refl) as (-> & Ha & Hb). split_and!; [done | set_solver | done].
    + intros [= <- <-]. split_and!; [done | set_solver | by intros ? ? [= <- <-]].
Qed.

Lemma shard_le a b : rec_sort_cmp a b <= 0 -> shard_cmp a b <= 0.
Proof.
  rewrite rec_sort_cmp_lex. unfold lex. destruct (Z.eqb_spec (shard_cmp a b) 0); cbn [negb]; lia.
Qed.

(** After the group of [r] no record of its shard is left. *)
Lemma span_shard r l g rest :
  StronglySorted (strictly rec_sort_cmp) (r :: l) -> span (same_shard r) l = (g, rest) ->
  l = (g ++ rest)%list /\ (forall x, x ∈ g -> same_shard r x = true)
  /\ forall x, x ∈ rest -> same_shard r x = false.
Proof.
  intros Hs Hsp. apply span_spec in Hsp as (-> & Hg & Hrest). split_and!; [done..|].
  destruct rest as [|y rest]; [set_solver|]. specialize (Hrest y rest eq_refl).
  intros x Hx. destruct (same_shard r x) eqn:E; [|done]. exfalso.
  assert (Hry : rec_sort_cmp r y < 0 /\ (y = x \/ rec_sort_cmp y x < 0)).
  { inversion Hs as [|? ? Htl Hall]; subst. rewrite Forall_forall in Hall.
    split; [apply Hall; set_solver|].
    apply StronglySorted_app in Htl as (_ & _ & Htl). inversion Htl as [|? ? _ Hall2]; subst.
    rewrite Forall_forall in Hall2. apply elem_of_cons in Hx as [->|Hx]; [by left|].
    right. by apply Hall2. }
  destruct Hry as [Hry [->|Hyx]]; [congruence|].
  pose proof (shard_le r y ltac:(lia)). pose proof (shard_le y x ltac:(lia)).
  apply same_shard_cmp in E. pose proof (cmp_sign _ shard_cmp_consistent r x).
  pose proof (cmp_sign _ shard_cmp_consistent x r).
  pose proof (cmp_trans _ shard_cmp_consistent y x r). pose proof (cmp_sign _ shard_cmp_consistent r y).
  pose proof (cmp_sign _ shard_cmp_consistent y r).
  assert (Hz : shard_cmp r y = 0) by lia. apply same_shard_cmp in Hz. congruence.
Qed.

Lemma same_shard_refl a : same_shard a a = true.
Proof. by rewrite same_shard_iff. Qed.

Lemma same_shard_eq a b c : same_shard a b = true -> same_shard a c = same_shard b c.
Proof. rewrite same_shard_iff. intros [Ht Hp]. unfold same_shard. by rewrite Ht, Hp. Qed.

Lemma strictly_nodup {A} (cmp : A -> A -> Z) l :
  consistent cmp -> StronglySorted (strictly cmp) l -> NoDup l.
Proof.
  intros Hc. induction 1 as [|x l _ IH Hall]; constructor; [|done].
  intros Hx. rewrite Forall_forall in Hall. specialize (Hall x Hx). unfold strictly in Hall.
  rewrite cmp_refl in Hall by done. lia.
Qed.

(** Two ascending arrays with the same elements are the same. *)
Lemma strictly_unique {A} (cmp : A -> A -> Z) l k :
  consistent cmp -> StronglySorted (strictly cmp) l -> StronglySorted (strictly cmp) k ->
  (forall x, x ∈ l <-> x ∈ k) -> l = k.
Proof.
  intros Hc Hl Hk Hiff.
  assert (Hanti : AntiSymm (=) (strictly cmp)).
  { intros a b Hab Hba. unfold strictly in *. pose proof (cmp_sign _ Hc a b). lia. }
  apply (StronglySorted_unique (strictly cmp)); [done..|].
  apply NoDup_Permutation; [by eapply strictly_nodup..| done].
Qed.

Section Records.
Context `{Sha256}.

(** A linked chain is in ascending order. *)
Lemma chain_shard rs p d x : chain rs p d -> x ∈ rs ->
  same_shard x p = true /\ shard_seq x <= shard_seq p.
Proof.
  induction 1 as [r d D S | rs p dp r d C IH D T P S W]; intros Hx.
  - apply list_elem_of_singleton in Hx as ->. split; [apply same_shard_refl | lia].
  - apply elem_of_app in Hx as [Hx|Hx%list_elem_of_singleton].
    + destruct (IH Hx) as [Hs Hle]. split; [|lia]. rewrite same_shard_iff in *. rewrite T, P. done.
    + subst. split; [apply same_shard_refl | lia].
Qed.

Lemma chain_ascending rs p d : chain rs p d -> StronglySorted (strictly rec_sort_cmp) rs.
Proof.
  induction 1 as [r d D S | rs p dp r d C IH D T P S W]; [repeat constructor|].
  apply StronglySorted_app_2; [|done | repeat constructor].
  intros x y Hx ->%list_elem_of_singleton. destruct (chain_shard _ _ _ _ C Hx) as [Hs Hle].
  unfold strictly. rewrite rec_sort_cmp_lex. unfold lex.
  assert (shard_cmp x r = 0) as ->.
  { apply same_shard_cmp. rewrite same_shard_iff in *. by rewrite T, P. }
  cbn [negb Z.eqb]. unfold zcmp. rewrite (proj2 (Z.ltb_lt _ _)) by lia. lia.
Qed.

(** The records of [r]'s shard are one linked chain. *)
Definition shard_chain (recs : list vault_witness_record_t) (r : vault_witness_record_t) : Prop :=
  exists rs p d, chain rs p d /\ forall x, x ∈ rs <-> x ∈ recs /\ same_shard r x = true.

Lemma shard_loop_total fuel recs : (length recs <= fuel)%nat -> is_Some (shard_loop fuel recs).
Proof.
  revert recs. induction fuel as [|fuel IH]; intros [|r recs] Hl; cbn [length] in Hl; cbn [shard_loop];
    [done | lia | done|].
  destruct (span (same_shard r) recs) as [g rest] eqn:Hs. apply span_spec in Hs as (-> & _).
  rewrite length_app in Hl. destruct (IH rest ltac:(lia)) as [[ok br] ->]. cbn [mbind option_bind].
  destruct (vault_witness_verify_chain _).1; by eexists.
Qed.

(** The chain of the first group. *)
Lemma group_chain r g rest :
  StronglySorted (strictly rec_sort_cmp) (r :: g ++ rest) ->
  (forall x, x ∈ g -> same_shard r x = true) -> (forall x, x ∈ rest -> same_shard r x = false) ->
  (exists p d, chain (r :: g) p d) <-> shard_chain (r :: g ++ rest) r.
Proof.
  intros Hs Hg Hrest.
  assert (Hel : forall x, x ∈ r :: g <-> x ∈ r :: g ++ rest /\ same_shard r x = true).
  { intros x. split.
    - intros [->|Hx]%elem_of_cons; [split; [left | apply same_shard_refl]|].
      split; [set_solver | by apply Hg].
    - intros [[->|[Hx|Hx]%elem_of_app]%elem_of_cons Hsh]; [set_solver..|].
      by rewrite Hrest in Hsh. }
  split.
  - intros (p & d & C). by exists (r :: g), p, d.
  - intros (rs & p & d & C & Hiff). exists p, d.
    enough (r :: g = rs) as -> by done.
    apply (strictly_unique rec_sort_cmp); [apply rec_sort_consistent | | by eapply chain_ascending |].
    + rewrite (app_comm_cons g rest r) in Hs. by eapply StronglySorted_app_1_l.
    + intros x. by rewrite Hel, Hiff.
Qed.

Lemma shard_loop_spec fuel recs ok broken :
  Forall wf_record recs -> StronglySorted (strictly rec_sort_cmp) recs ->
  shard_loop fuel recs = Some (ok, broken) ->
  broken = 0%nat <-> forall r, r ∈ recs -> shard_chain recs r.
Proof.
  revert recs ok broken. induction fuel as [|fuel IH]; intros [|r recs] ok broken Hwf Hs; cbn [shard_loop];
    [intros [= <- <-]; set_solver | done | intros [= <- <-]; set_solver|].
  destruct (span (same_shard r) recs) as [g rest] eqn:Hsp.
  destruct (span_shard _ _ _ _ Hs Hsp) as (-> & Hg & Hrest). clear Hsp.
  destruct (shard_loop fuel rest) as [[ok' br']|] eqn:Hl; [cbn [mbind option_bind]|done].
  assert (Hwf' : Forall wf_record rest /\ Forall wf_record (r :: g)).
  { rewrite (app_comm_cons g rest r), Forall_app in Hwf. tauto. }
  apply IH in Hl; [|tauto | rewrite (app_comm_cons g rest r) in Hs; by eapply StronglySorted_app_1_r].
  pose proof (group_chain _ _ _ Hs Hg Hrest) as Hgroup.
  pose proof (verify_chain_ok (r :: g) (proj2 Hwf')) as Hok.
  assert (Htail : (forall x, x ∈ rest -> shard_chain rest x) <->
                  (forall x, x ∈ rest -> shard_chain (r :: g ++ rest) x)).
  { assert (Hin : forall x y, x ∈ rest ->
      (y ∈ r :: g ++ rest /\ same_shard x y = true <-> y ∈ rest /\ same_shard x y = true)).
    { intros x y Hx. split; intros [Hy Hsh]; (split; [|done]); [|set_solver].
      assert (Hyr : same_shard r y = false).
      { rewrite <- (Hrest x Hx). symmetry. rewrite same_shard_iff in Hsh. unfold same_shard.
        by destruct Hsh as [-> ->]. }
      apply elem_of_cons in Hy as [->|[Hy|Hy]%elem_of_app]; [|by rewrite Hg in Hyr | done].
      by rewrite same_shard_refl in Hyr. }
    split; intros Hall x Hx; destruct (Hall x Hx) as (rs & p & d & C & Hiff); exists rs, p, d;
      (split; [done|]); intros y; rewrite Hiff; [symmetry|]; by apply Hin. }
  assert (Hall : (forall x, x ∈ r :: g ++ rest -> shard_chain (r :: g ++ rest) x) <->
    shard_chain (r :: g ++ rest) r /\ forall x, x ∈ rest -> shard_chain (r :: g ++ rest) x).
  { split; [intros Hx; split; intros; apply Hx; set_solver|]. intros [H1 H2] x Hx.
    apply elem_of_cons in Hx as [->|[Hx|Hx]%elem_of_app]; [done | | by apply H2].
    destruct H1 as (rs & p & d & C & Hiff). exists rs, p, d. split; [done|]. intros y. rewrite Hiff.
    by rewrite (same_shard_eq r x) by (by apply Hg). }
  rewrite Hall, <- Htail, <- Hgroup, <- Hl, <- Hok.
  destruct (vault_witness_verify_chain (r :: g)).1; intros [= <- <-]; naive_solver.
Qed.

(** A chain's records have digests. *)
Lemma chain_digests rs p d x : chain rs p d -> x ∈ rs -> is_Some (vault_witness_record_digest x).
Proof.
  induction 1 as [r d D S | rs p dp r d C IH D T P S W]; intros Hx.
  - apply list_elem_of_singleton in Hx as ->. by eexists.
  - apply elem_of_app in Hx as [Hx|Hx%list_elem_of_singleton]; [by apply IH | subst; by eexists].
Qed.

Lemma same_digest_eq {A} (digest : A -> option bytes) a b :
  same_digest digest a b = true -> digest a = digest b.
Proof.
  unfold same_digest. destruct (digest a), (digest b); [|done..]. by intros ->%bytes_eqb_true.
Qed.

(** The records of [r]'s shard are, up to repeats with the same digest, one
    linked chain. *)
Definition shard_evidence (recs : list vault_witness_record_t) (r : vault_witness_record_t) : Prop :=
  exists rs p d, chain rs p d
    /\ (forall x, x ∈ rs -> x ∈ recs /\ same_shard r x = true)
    /\ forall x, x ∈ recs -> same_shard r x = true -> exists y, y ∈ rs
         /\ shard_seq y = shard_seq x /\ vault_witness_record_digest y = vault_witness_record_digest x.

Context `{Qsort}.

(** What is left of the records after sorting and collapsing. *)
Lemma kept_records recs kept dup conf :
  collapse same_record_key vault_witness_record_digest None (qsort rec_sort_cmp recs) = (kept, dup, conf) ->
  StronglySorted (strictly rec_sort_cmp) kept /\ (forall x, x ∈ kept -> x ∈ recs)
  /\ forall x, x ∈ recs -> exists y, y ∈ kept /\ rec_sort_cmp y x = 0
       /\ (conf = 0%nat -> vault_witness_record_digest y = vault_witness_record_digest x).
Proof.
  intros Hc. pose proof (qsort_perm _ _ recs rec_sort_consistent) as Hp.
  apply (collapse_spec rec_sort_cmp) in Hc as (Hs & Hsub & Hcov);
    [|apply rec_sort_consistent | apply same_record_key_cmp | apply (qsort_sorted _ _ _ rec_sort_consistent)].
  cbn [option_list app] in *. split_and!; [done | |].
  - intros x Hx. rewrite <- Hp. by apply Hsub.
  - intros x Hx. rewrite <- Hp in Hx. destruct (Hcov x Hx) as (y & Hy & Hyx & Hd).
    exists y. split_and!; [done..|]. intros E. destruct (Hd E) as [->|E']; [done | by apply same_digest_eq].
Qed.

Lemma check_records_total recs : is_Some (check_records recs).
Proof.
  unfold check_records. destruct (collapse _ _ _ _) as [[kept dup] conf].
  destruct (shard_loop_total (length kept) kept ltac:(lia)) as [[ok br] ->]. by eexists.
Qed.

Lemma records_tamper_iff rr :
  records_tamper rr = false <-> rr_conflict rr = 0%nat /\ rr_shards_broken rr = 0%nat.
Proof. unfold records_tamper. rewrite orb_false_iff, !Nat.ltb_ge. lia. Qed.

Lemma check_records_sound recs rr :
  Forall wf_record recs -> check_records recs = Some rr -> records_tamper rr = false ->
  forall r, r ∈ recs -> shard_evidence recs r.
Proof.
  intros Hwf Hrr [Hconf Hbr]%records_tamper_iff r Hr. unfold check_records in Hrr.
  destruct (collapse _ _ _ _) as [[kept dup] conf] eqn:Hc.
  destruct (shard_loop _ _) as [[ok br]|] eqn:Hl; [|done]. injection Hrr as <-.
  cbn in Hconf, Hbr. subst.
  apply kept_records in Hc as (Hs & Hsub & Hcov).
  assert (Hwfk : Forall wf_record kept).
  { rewrite Forall_forall in *. auto. }
  apply shard_loop_spec in Hl; [|done..]. pose proof (proj1 Hl eq_refl) as Hall.
  assert (Hkey : forall x y, rec_sort_cmp y x = 0 -> same_shard y x = true /\ shard_seq y = shard_seq x).
  { intros x y E%same_record_key_cmp. unfold same_record_key in E. bool_to_prop. done. }
  destruct (Hcov r Hr) as (k & Hk & Hkr & _). apply Hkey in Hkr as [Hkr _].
  destruct (Hall k Hk) as (rs & p & d & C & Hiff). exists rs, p, d. split; [done|]. split.
  - intros x Hx. apply Hiff in Hx as [Hx Hkx]. split; [by apply Hsub|].
    by rewrite <- (same_shard_eq k r).
  - intros x Hx Hrx. destruct (Hcov x Hx) as (y & Hy & Hyx & Hd). apply Hkey in Hyx as [Hyx Hseq].
    exists y. split_and!; [|done | by apply Hd]. apply Hiff. split; [done|].
    rewrite (same_shard_eq k r) by done. rewrite same_shard_iff in *. naive_solver congruence.
Qed.

(** Records that agree where their shard and number agree, and whose shards
    are chains, are reported clean. *)
Lemma check_records_complete recs rr :
  Forall wf_record recs ->
  (forall x y, x ∈ recs -> y ∈ recs -> same_record_key x y = true -> x = y) ->
  (forall r, r ∈ recs -> shard_chain recs r) ->
  check_records recs = Some rr -> records_tamper rr = false.
Proof.
  intros Hwf Hu Hall Hrr. apply records_tamper_iff. unfold check_records in Hrr.
  destruct (collapse _ _ _ _) as [[kept dup] conf] eqn:Hc.
  destruct (shard_loop _ _) as [[ok br]|] eqn:Hl; [|done]. injection Hrr as <-. cbn.
  pose proof Hc as (Hs & Hsub & Hcov)%kept_records.
  assert (Hsame : forall x, x ∈ kept <-> x ∈ recs).
  { intros x. split; [apply Hsub|]. intros Hx. destruct (Hcov x Hx) as (y & Hy & Hyx & _).
    enough (y = x) as <- by done. apply Hu; [by apply Hsub | done | by apply same_record_key_cmp]. }
  split.
  - eapply (collapse_clean rec_sort_cmp);
      [apply rec_sort_consistent | apply same_record_key_cmp | | | exact Hc];
      cbn [option_list app]; pose proof (qsort_perm _ _ recs rec_sort_consistent) as Hp.
    + intros x y Hx Hy E. rewrite Hp in Hx, Hy. apply Hu; [done..|]. by apply same_record_key_cmp.
    + intros x Hx. rewrite Hp in Hx. destruct (Hall x Hx) as (rs & p & d & C & Hiff).
      eapply chain_digests; [exact C|]. apply Hiff. split; [done | apply same_shard_refl].
  - apply shard_loop_spec in Hl as ->; [|rewrite Forall_forall in *; naive_solver | done].
    intros r Hr. destruct (Hall r) as (rs & p & d & C & Hiff); [by apply Hsame|].
    exists rs, p, d. split; [done|]. intros x. by rewrite Hiff, Hsame.
Qed.
End Records.

(** ** Checkpoints *)

Lemma sorted_weaken {A} (R Q : A -> A -> Prop) l :
  (forall a b, R a b -> Q a b) -> StronglySorted R l -> StronglySorted Q l.
Proof.
  intros Himp. induction 1 as [|x l _ IH Hall]; constructor; [done|].
  eapply Forall_impl; [exact Hall | apply Himp].
Qed.

Section Checkpoints.
Context `{Sha256} `{Ed25519} `{Qsort}.
Import WitnessCheckpoint.
Context (anchors : list anchor).

(** [run] stands for the checkpoints [cps]: one per sequence number, in
    ascending order, each signed under a known anchor, none but the first
    denying that it has a predecessor, and every checkpoint has the digest of
    the one that stands for it. *)
Record signed_run (cps run : list checkpoint) : Prop := {
  sr_sub : forall c, c ∈ run -> c ∈ cps;
  sr_order : StronglySorted (fun a b => seq a < seq b) run;
  sr_all : forall c, c ∈ cps -> exists k, k ∈ run /\ seq k = seq c
    /\ vault_witness_checkpoint_digest k = vault_witness_checkpoint_digest c;
  sr_signed : forall c, c ∈ run -> vault_witness_checkpoint_verify c anchors = VAULT_WITNESS_CP_OK;
  sr_linked : forall i a b, run !! i = Some a -> run !! S i = Some b -> has_predecessor b <> 0;
}.

(** Each checkpoint of the run names the digest of the one before it. *)
Definition continues (run : list checkpoint) : Prop :=
  forall i a b, run !! i = Some a -> run !! S i = Some b ->
    has_predecessor b <> 0 /\ vault_witness_checkpoint_digest a = Some (predecessor_digest b).

Lemma links_lookup run i l : links run !! i = Some l <->
  exists a b, run !! i = Some a /\ run !! S i = Some b /\ l = link a b.
Proof.
  unfold links. rewrite lookup_zip_with_Some.
  assert (E : tail run !! i = run !! S i) by (destruct run; [by destruct i | done]). rewrite E. naive_solver.
Qed.

Lemma links_forall (P : vault_witness_continuity_t -> Prop) run : Forall P (links run) <->
  forall i a b, run !! i = Some a -> run !! S i = Some b -> P (link a b).
Proof.
  rewrite Forall_lookup. split.
  - intros Hl i a b Ha Hb. apply (Hl i), links_lookup. by exists a, b.
  - intros Hl i l (a & b & Ha & Hb & ->)%links_lookup. by eapply Hl.
Qed.

Lemma link_ok a b : link a b = VAULT_WITNESS_CONTINUITY_OK <->
  has_predecessor b <> 0 /\ vault_witness_checkpoint_digest a = Some (predecessor_digest b).
Proof.
  unfold link. destruct (vault_witness_checkpoint_digest a) as [d|]; [|by split; [|intros [_ ?]]].
  destruct (Z.eqb_spec (has_predecessor b) 0) as [E|E]; [by split; [|intros [? _]]|].
  destruct (bytes_eqb (predecessor_digest b) d) eqn:Ed.
  - apply bytes_eqb_true in Ed as ->. done.
  - split; [done|]. intros [_ [= ->]]. by rewrite bytes_eqb_refl in Ed.
Qed.

(** The verdict on the run is OK exactly when every link holds. *)
Lemma run_continues kept :
  (match kept with [] => VAULT_WITNESS_CONTINUITY_OK | _ => (vault_witness_verify_checkpoint_run kept).1 end)
    = VAULT_WITNESS_CONTINUITY_OK <-> continues kept.
Proof.
  assert (E : continues kept <-> Forall (fun l => l = VAULT_WITNESS_CONTINUITY_OK) (links kept)).
  { rewrite links_forall. unfold continues. split; intros Hc i a b Ha Hb; apply link_ok; eauto. }
  rewrite E. assert (Hrun : (vault_witness_verify_checkpoint_run kept).1 = VAULT_WITNESS_CONTINUITY_OK
    <-> Forall (fun l => l = VAULT_WITNESS_CONTINUITY_OK) (links kept)).
  { rewrite checkpoint_run_spec.
    destruct (list_find (eq VAULT_WITNESS_CONTINUITY_BROKEN) (links kept)) as [[i l]|] eqn:Hf.
    { apply list_find_Some in Hf as (Hl & <- & _). split; [done|]. intros Hall.
      rewrite Forall_lookup in Hall. by apply Hall in Hl. }
    destruct (list_find (eq VAULT_WITNESS_CONTINUITY_UNPROVEN) (links kept)) as [[i l]|] eqn:Hg.
    { apply list_find_Some in Hg as (Hl & <- & _). split; [done|]. intros Hall.
      rewrite Forall_lookup in Hall. by apply Hall in Hl. }
    apply list_find_None in Hf, Hg. split; [|done]. intros _. rewrite Forall_forall in *.
    intros l Hl. specialize (Hf l Hl). specialize (Hg l Hl). by destruct l. }
  destruct kept; [|done]. split; [|done]. intros _. constructor.
Qed.

Lemma link_unbroken a b : link a b <> VAULT_WITNESS_CONTINUITY_BROKEN -> has_predecessor b <> 0.
Proof.
  unfold link. destruct (vault_witness_checkpoint_digest a); [|done].
  by destruct (Z.eqb_spec (has_predecessor b) 0).
Qed.

Lemma cp_cmp_lt a b : cp_sort_cmp a b < 0 <-> seq a < seq b.
Proof. unfold cp_sort_cmp. destruct (Z.ltb_spec (seq a) (seq b)), (Z.ltb_spec (seq b) (seq a)); lia. Qed.

Lemma cp_cmp_zero a b : cp_sort_cmp a b = 0 <-> seq a = seq b.
Proof. apply zcmp_zero. Qed.

Lemma kept_checkpoints cps kept dup conf :
  collapse same_seq vault_witness_checkpoint_digest None (qsort cp_sort_cmp cps) = (kept, dup, conf) ->
  StronglySorted (fun a b => seq a < seq b) kept /\ (forall x, x ∈ kept -> x ∈ cps)
  /\ forall x, x ∈ cps -> exists y, y ∈ kept /\ seq y = seq x
       /\ (conf = 0%nat -> vault_witness_checkpoint_digest y = vault_witness_checkpoint_digest x).
Proof.
  intros Hc. pose proof (qsort_perm _ _ cps cp_sort_consistent) as Hp.
  apply (collapse_spec cp_sort_cmp) in Hc as (Hs & Hsub & Hcov);
    [|apply cp_sort_consistent | apply same_seq_cmp | apply (qsort_sorted _ _ _ cp_sort_consistent)].
  cbn [option_list app] in *. split_and!.
  - eapply sorted_weaken; [|exact Hs]. intros a b. apply cp_cmp_lt.
  - intros x Hx. rewrite <- Hp. by apply Hsub.
  - intros x Hx. rewrite <- Hp in Hx. destruct (Hcov x Hx) as (y & Hy & Hyx & Hd).
    exists y. split_and!; [done | by apply cp_cmp_zero|].
    intros E. destruct (Hd E) as [->|E']; [done | by apply same_digest_eq].
Qed.

Lemma count_verdict_zero v cps :
  count_verdict v anchors cps = 0%nat <->
  forall c, c ∈ cps -> vault_witness_checkpoint_verify c anchors <> v.
Proof.
  unfold count_verdict. apply filter_none.
Qed.

Lemma run_not_broken kept :
  (match kept with [] => VAULT_WITNESS_CONTINUITY_OK | _ => (vault_witness_verify_checkpoint_run kept).1 end)
    <> VAULT_WITNESS_CONTINUITY_BROKEN
  <-> Forall (fun l => l <> VAULT_WITNESS_CONTINUITY_BROKEN) (links kept).
Proof.
  assert (Hrun : (vault_witness_verify_checkpoint_run kept).1 <> VAULT_WITNESS_CONTINUITY_BROKEN
    <-> Forall (fun l => l <> VAULT_WITNESS_CONTINUITY_BROKEN) (links kept)).
  { rewrite checkpoint_run_spec.
    destruct (list_find (eq VAULT_WITNESS_CONTINUITY_BROKEN) (links kept)) as [[i l]|] eqn:Hf.
    - apply list_find_Some in Hf as (Hl & <- & _). split; [done|]. intros Hall.
      rewrite Forall_lookup in Hall. by apply Hall in Hl.
    - apply list_find_None in Hf. split.
      + intros _. eapply Forall_impl; [exact Hf|]. cbn. congruence.
      + intros _. by destruct (list_find (eq VAULT_WITNESS_CONTINUITY_UNPROVEN) (links kept)) as [[? ?]|]. }
  destruct kept; [|done]. split; [|done]. intros _. constructor.
Qed.

Lemma checkpoints_tamper_iff cps kept cr :
  check_checkpoints anchors cps = (kept, cr) ->
  checkpoints_tamper cr = false <->
  cr_conflict cr = 0%nat
  /\ (forall c, c ∈ kept -> vault_witness_checkpoint_verify c anchors = VAULT_WITNESS_CP_OK)
  /\ Forall (fun l => l <> VAULT_WITNESS_CONTINUITY_BROKEN) (links kept).
Proof.
  unfold check_checkpoints. destruct (collapse _ _ _ _) as [[k dup] conf]. intros [= <- <-].
  unfold checkpoints_tamper. cbn [cr_conflict cr_bad_sig cr_unknown_key cr_revoked cr_other cr_continuity].
  rewrite !orb_false_iff, !Nat.ltb_ge, !Nat.le_0_r, !count_verdict_zero, bool_decide_eq_false, run_not_broken.
  split.
  - intros (((((? & Hb) & Hu) & Hr) & Hm) & ?). split_and!; [done | | done]. intros c Hc.
    specialize (Hb c Hc). specialize (Hu c Hc). specialize (Hr c Hc). specialize (Hm c Hc).
    by destruct (vault_witness_checkpoint_verify c anchors).
  - intros (? & Hok & ?). split_and!; try done; intros c Hc; by rewrite Hok.
Qed.

Lemma check_checkpoints_sound cps kept cr :
  check_checkpoints anchors cps = (kept, cr) -> checkpoints_tamper cr = false -> signed_run cps kept.
Proof.
  intros Hcc Ht. pose proof (proj1 (checkpoints_tamper_iff _ _ _ Hcc) Ht) as (Hconf & Hok & Hlink).
  unfold check_checkpoints in Hcc. destruct (collapse _ _ _ _) as [[k dup] conf] eqn:Hc.
  pose proof (f_equal fst Hcc) as E. pose proof (f_equal snd Hcc) as E'. cbn [fst snd] in E, E'. subst.
  cbn [cr_conflict] in Hconf. subst. apply kept_checkpoints in Hc as (Hs & Hsub & Hcov).
  split; [done..| | done |].
  - intros c Hin. destruct (Hcov c Hin) as (y & Hy & Hseq & Hd). exists y. auto.
  - intros i a b Ha Hb. rewrite links_forall in Hlink. apply (link_unbroken a b), (Hlink i); done.
Qed.

Lemma check_checkpoints_continuity cps kept cr : check_checkpoints anchors cps = (kept, cr) ->
  cr_continuity cr = VAULT_WITNESS_CONTINUITY_OK <-> continues kept.
Proof.
  unfold check_checkpoints. destruct (collapse _ _ _ _) as [[k dup] conf]. intros [= <- <-].
  cbn [cr_continuity]. apply run_continues.
Qed.

(** Neighbours of an ascending run link unless the later one denies having a
    predecessor. *)
Lemma links_unbroken run :
  StronglySorted (fun a b => seq a < seq b) run ->
  (forall c, c ∈ run -> is_Some (vault_witness_checkpoint_digest c)) ->
  (forall a b, a ∈ run -> b ∈ run -> seq a < seq b -> has_predecessor b <> 0) ->
  Forall (fun l => l <> VAULT_WITNESS_CONTINUITY_BROKEN) (links run).
Proof.
  unfold links. induction 1 as [|a run Hs IH Hall]; intros Hd Hp; [constructor|].
  destruct run as [|b run]; [constructor|]. cbn [tail zip_with]. constructor; [|apply IH; [intros c Hc; apply Hd; by right | intros x y Hx Hy; apply Hp; by right]].
  unfold link. destruct (Hd a ltac:(set_solver)) as [d ->].
  assert (Hb : has_predecessor b <> 0).
  { apply (Hp a b); [set_solver..|]. by inversion Hall. }
  apply Z.eqb_neq in Hb as ->. by case_match.
Qed.

Lemma check_checkpoints_complete cps kept cr :
  (forall a b, a ∈ cps -> b ∈ cps -> seq a = seq b -> a = b) ->
  (forall c, c ∈ cps -> vault_witness_checkpoint_verify c anchors = VAULT_WITNESS_CP_OK
     /\ is_Some (vault_witness_checkpoint_digest c)) ->
  (forall a b, a ∈ cps -> b ∈ cps -> seq a < seq b -> has_predecessor b <> 0) ->
  check_checkpoints anchors cps = (kept, cr) ->
  checkpoints_tamper cr = false /\ forall c, c ∈ kept <-> c ∈ cps.
Proof.
  intros Hu Hok Hp Hcc. rewrite (checkpoints_tamper_iff _ _ _ Hcc). unfold check_checkpoints in Hcc.
  destruct (collapse _ _ _ _) as [[k dup] conf] eqn:Hc.
  pose proof (f_equal fst Hcc) as E. pose proof (f_equal snd Hcc) as E'. cbn [fst snd] in E, E'. subst.
  cbn [cr_conflict]. pose proof Hc as (Hs & Hsub & Hcov)%kept_checkpoints.
  assert (Hsame : forall x, x ∈ kept <-> x ∈ cps).
  { intros x. split; [apply Hsub|]. intros Hx. destruct (Hcov x Hx) as (y & Hy & Hyx & _).
    enough (y = x) as <- by done. apply Hu; [by apply Hsub | done..]. }
  split; [|done]. split_and!.
  - eapply (collapse_clean cp_sort_cmp);
      [apply cp_sort_consistent | apply same_seq_cmp | | | exact Hc];
      cbn [option_list app]; pose proof (qsort_perm _ _ cps cp_sort_consistent) as Hperm.
    + intros x y Hx Hy Exy. rewrite Hperm in Hx, Hy. apply Hu; [done..|]. by apply cp_cmp_zero.
    + intros x Hx. rewrite Hperm in Hx. by apply Hok.
  - intros c Hin. apply Hok. by apply Hsame.
  - apply links_unbroken; [done | |].
    + intros c Hin. apply Hok. by apply Hsame.
    + intros x y Hx Hy. apply Hp; by apply Hsame.
Qed.

(** Every checkpoint of a clean run is a good one or the repeat of one. *)
Lemma check_checkpoints_counts cps kept cr :
  check_checkpoints anchors cps = (kept, cr) -> checkpoints_tamper cr = false ->
  (cr_ok cr + cr_duplicate cr = length cps)%nat /\ cr_continuity cr <> VAULT_WITNESS_CONTINUITY_BROKEN.
Proof.
  intros Hcc Ht. pose proof (proj1 (checkpoints_tamper_iff _ _ _ Hcc) Ht) as (Hconf & Hok & Hlink).
  unfold check_checkpoints in Hcc. destruct (collapse _ _ _ _) as [[k dup] conf] eqn:Hc.
  pose proof (f_equal fst Hcc) as E. pose proof (f_equal snd Hcc) as E'. cbn [fst snd] in E, E'. subst.
  cbn [cr_ok cr_duplicate cr_conflict cr_continuity] in *. split; [|by apply run_not_broken].
  apply collapse_length in Hc. rewrite (Permutation_length (qsort_perm _ _ cps cp_sort_consistent)) in Hc.
  unfold count_verdict. enough (length (filter (fun cp => vault_witness_checkpoint_verify cp anchors
    = VAULT_WITNESS_CP_OK) kept) = length kept) by lia.
  clear -Hok. induction kept as [|c kept IH]; [done|]. rewrite filter_cons_True by (apply Hok; by left).
  cbn [length]. f_equal. apply IH. intros x Hx. apply Hok. by right.
Qed.

(** In an ascending run the sequence number names the checkpoint. *)
Lemma matching_run run c :
  StronglySorted (fun a b => seq a < seq b) run -> c ∈ run -> matching run (seq c) = Some c.
Proof.
  unfold matching. induction 1 as [|a run Hs IH Hall]; intros Hc; [set_solver|]. cbn [find].
  apply elem_of_cons in Hc as [->|Hc]; [by rewrite Z.eqb_refl|].
  rewrite Forall_forall in Hall. specialize (Hall c Hc).
  rewrite (proj2 (Z.eqb_neq (seq a) (seq c))) by lia. by apply IH.
Qed.

Lemma matching_some run s c : matching run s = Some c -> c ∈ run /\ seq c = s.
Proof.
  intros [Hin E]%find_some. split; [by apply list_elem_of_In | lia].
Qed.
End Checkpoints.

Lemma count_items_zero v l : count_items v l = 0%nat <-> v ∉ l.
Proof.
  unfold count_items. rewrite filter_none. naive_solver.
Qed.

Lemma count_items_map {A} (f : A -> item_verdict) (g : A -> bool) v l :
  (forall x, x ∈ l -> f x = v <-> g x = true) -> count_items v (map f l) = length (List.filter g l).
Proof.
  unfold count_items. induction l as [|x l IH]; intros Hx; [done|]. cbn [map List.filter].
  assert (Hl : length (filter (eq v) (map f l)) = length (List.filter g l)).
  { apply IH. intros y Hy. apply Hx. by right. }
  pose proof (Hx x (list_elem_of_here _ _)) as Hxe. destruct (g x).
  - rewrite filter_cons_True by (symmetry; by apply Hxe). cbn [length]. by rewrite Hl.
  - rewrite filter_cons_False by (intros E; symmetry in E; by apply Hxe in E). done.
Qed.

Lemma filter_split {A} (g : A -> bool) l :
  (length (List.filter g l) + length (List.filter (fun x => negb (g x)) l) = length l)%nat.
Proof. induction l as [|x l IH]; [done|]. cbn. destruct (g x); cbn; lia. Qed.

(** ** The verdict *)

Section Verdict.
Context `{Sha256} `{Ed25519} `{Qsort}.
Context (realloc_ok calloc_ok : Z -> bool).
Abbreviation verify := (vault_witness_offline_verify realloc_ok calloc_ok).

(** What the items of a clean stream support. *)
Record evidence (anchors : list anchor) (its : list item) (run : list checkpoint) : Prop := {
  ev_chains : forall r, r ∈ recs_of its -> shard_evidence (recs_of its) r;
  ev_run : signed_run anchors (cps_of its) run;
  ev_proofs : forall p c, p ∈ pfs_of its -> c ∈ run ->
    WitnessCheckpoint.seq c = WitnessProof.checkpoint_seq p ->
    WitnessProof.vault_witness_proof_verify p (WitnessCheckpoint.root c) = true;
  ev_snapshots : forall sn c, sn ∈ sns_of its -> c ∈ run -> WitnessCheckpoint.seq c = sn_seq sn ->
    sha256 (sn_bytes sn) = WitnessCheckpoint.leaf_snapshot_digest c
    /\ snapshot_rebuilds_root calloc_ok (sn_bytes sn) (WitnessCheckpoint.root c) = 1;
}.

Lemma item_frame its fs it :
  is_bytes (concat fs) -> Forall2 carries its fs -> it ∈ its -> exists f, is_bytes f /\ carries it f.
Proof.
  intros Hb Hc Hit. apply list_elem_of_lookup in Hit as [i Hi].
  destruct (Forall2_lookup_l _ _ _ _ _ Hc Hi) as (f & Hf & Hcar). exists f. split; [|done].
  unfold is_bytes in *. rewrite Forall_concat in Hb. by eapply Forall_lookup_1.
Qed.

Lemma recs_wf its fs : is_bytes (concat fs) -> Forall2 carries its fs -> Forall wf_record (recs_of its).
Proof.
  intros Hb Hc. rewrite Forall_forall. intros r Hr. apply list_elem_of_omap in Hr as (it & Hit & E).
  destruct (item_frame its fs it Hb Hc Hit) as (f & Hf & Hcar).
  apply carries_wf in Hcar; [|done]. by destruct it; simplify_eq.
Qed.

Lemma report_clean s rr cr pv sv :
  (p_malformed s || records_tamper rr || checkpoints_tamper cr
    || (0 <? count_items V_bad pv)%nat || (0 <? count_items V_bad sv)%nat
    || (0 <? count_items V_root_mismatch sv)%nat) = false <->
  p_malformed s = false /\ records_tamper rr = false /\ checkpoints_tamper cr = false
  /\ (V_bad ∉ pv) /\ (V_bad ∉ sv) /\ (V_root_mismatch ∉ sv).
Proof. rewrite !orb_false_iff, !Nat.ltb_ge, !Nat.le_0_r, !count_items_zero. tauto. Qed.

Lemma check_proof_bad run p :
  StronglySorted (fun a b => WitnessCheckpoint.seq a < WitnessCheckpoint.seq b) run ->
  check_proof run p <> V_bad <->
  forall c, c ∈ run -> WitnessCheckpoint.seq c = WitnessProof.checkpoint_seq p ->
    WitnessProof.vault_witness_proof_verify p (WitnessCheckpoint.root c) = true.
Proof.
  intros Hs. unfold check_proof. split.
  - intros Hv c Hc E. rewrite <- E, (matching_run run c Hs Hc) in Hv.
    by destruct (WitnessProof.vault_witness_proof_verify _ _).
  - intros Hall. destruct (matching run _) as [c|] eqn:Hm; [|done].
    apply matching_some in Hm as [Hc E]. by rewrite (Hall c Hc E).
Qed.

Lemma check_snapshot_bad run sn :
  StronglySorted (fun a b => WitnessCheckpoint.seq a < WitnessCheckpoint.seq b) run ->
  check_snapshot calloc_ok run sn <> V_bad /\ check_snapshot calloc_ok run sn <> V_root_mismatch <->
  forall c, c ∈ run -> WitnessCheckpoint.seq c = sn_seq sn ->
    sha256 (sn_bytes sn) = WitnessCheckpoint.leaf_snapshot_digest c
    /\ snapshot_rebuilds_root calloc_ok (sn_bytes sn) (WitnessCheckpoint.root c) = 1.
Proof.
  intros Hs. unfold check_snapshot. split.
  - intros [Hv Hr] c Hc E. rewrite <- E, (matching_run run c Hs Hc) in Hv, Hr.
    destruct (bytes_eqb _ _) eqn:Hd; cbn [negb] in Hv, Hr; [|done]. apply bytes_eqb_true in Hd.
    by destruct (Z.eqb_spec (snapshot_rebuilds_root calloc_ok (sn_bytes sn) (WitnessCheckpoint.root c)) 1).
  - intros Hall. destruct (matching run _) as [c|] eqn:Hm; [|done].
    apply matching_some in Hm as [Hc E]. destruct (Hall c Hc E) as [-> ->]. by rewrite bytes_eqb_refl.
Qed.

(** Whatever the bytes, the verifier produces a report. *)
Theorem offline_total stream anchors : is_bytes stream -> is_Some (verify stream anchors).
Proof.
  intros Hb. unfold vault_witness_offline_verify.
  destruct (parse_stream_total realloc_ok stream Hb) as [s ->]. cbn [mbind option_bind].
  destruct (check_records_total (v_items (p_recs s))) as [rr ->]. cbn [mbind option_bind].
  destruct (check_checkpoints anchors _) as [cps cr]. by eexists.
Qed.

(** The report counts the items. *)
Definition counts (rep : vault_witness_offline_report_t) (its : list item) : Prop :=
  frames rep = length its /\ records rep = length (recs_of its) /\ checkpoints rep = length (cps_of its)
  /\ proofs rep = length (pfs_of its) /\ snapshots rep = length (sns_of its) /\ unknown_frames rep = 0%nat.

Lemma tally_counts s its : tally s -> p_malformed s = false -> appended parsed0 its s ->
  p_frames s = length its /\ p_records s = length (recs_of its) /\ p_checkpoints s = length (cps_of its)
  /\ p_proofs s = length (pfs_of its) /\ p_snapshots s = length (sns_of its) /\ p_unknown s = 0%nat.
Proof.
  intros (Hr & Hc & Hp & Hs & Hu & Hf) Hm (Er & Ec & Ep & Es). specialize (Hf Hm).
  cbn [parsed0 p_recs p_cps p_pfs p_sns vec_empty v_items app] in Er, Ec, Ep, Es.
  rewrite Er in Hr. rewrite Ec in Hc. rewrite Ep in Hp. rewrite Es in Hs. rewrite (items_split its).
  split_and!; (done || lia).
Qed.

Lemma clean_evidence stream anchors rep :
  is_bytes stream -> verify stream anchors = Some rep -> any_tamper rep = false ->
  exists its fs run, stream = concat fs /\ Forall2 carries its fs /\ evidence anchors its run
    /\ counts rep its /\ (continuity rep = WitnessCheckpoint.VAULT_WITNESS_CONTINUITY_OK <-> continues run).
Proof.
  intros Hb. unfold vault_witness_offline_verify.
  destruct (parse_stream realloc_ok stream) as [s|] eqn:Hp; [cbn [mbind option_bind]|done].
  destruct (check_records _) as [rr|] eqn:Hrr; [cbn [mbind option_bind]|done].
  destruct (check_checkpoints anchors _) as [run cr] eqn:Hcc.
  intros E. apply (inj Some) in E. subst rep. unfold counts.
  cbn [any_tamper continuity frames records checkpoints proofs snapshots unknown_frames].
  intros (Hm & Hr & Hc & Hpv & Hbad & Hroot)%report_clean.
  pose proof (parse_stream_tally _ _ _ Hb Hp) as Htally.
  destruct (parse_stream_sound _ _ _ Hb Hp Hm) as (its & fs & -> & Hcar & Happ).
  pose proof (tally_counts _ _ Htally Hm Happ) as Hcnt. destruct Happ as (Er & Ec & Ep & Es).
  cbn [parsed0 p_recs p_cps p_pfs p_sns vec_empty v_items app] in Er, Ec, Ep, Es.
  rewrite Er in Hrr. rewrite Ec in Hcc. rewrite Ep in Hpv. rewrite Es in Hbad, Hroot.
  pose proof (check_checkpoints_sound _ _ _ _ Hcc Hc) as Hrun. pose proof (sr_order _ _ _ Hrun) as Hs.
  exists its, fs, run. split; [done|]. split; [done|].
  split; [|split; [exact Hcnt | by eapply check_checkpoints_continuity]]. split.
  - eapply check_records_sound; [by eapply recs_wf | done | done].
  - done.
  - intros p c Hin. apply (check_proof_bad run p Hs). intros E. apply Hpv. rewrite <- E. by apply list_elem_of_fmap_2.
  - intros sn c Hin. apply (check_snapshot_bad run sn Hs).
    split; intros E; [apply Hbad | apply Hroot]; rewrite <- E; by apply list_elem_of_fmap_2.
Qed.

(** C6: A report without tampering is evidence.  The stream is nothing but
    canonical frames; the records of every shard in it are, up to repeats of
    the same digest, one linked chain from the genesis record on; one run of
    checkpoints, ascending, each signed under an unrevoked anchor and none
    after the first denying its predecessor, stands for all checkpoints; each
    of them names the digest of the one before it exactly when the continuity
    of the report is OK (a gap leaves it UNPROVEN, which the caller must look
    at); every proof whose checkpoint is there verifies against its root, and
    every such leaf snapshot hashes to the signed digest and rebuilds the
    signed root; and the report counts what is in the stream. *)
Theorem offline_clean_sound stream anchors rep :
  is_bytes stream -> verify stream anchors = Some rep -> any_tamper rep = false ->
  exists its fs run, stream = concat fs /\ Forall2 carries its fs /\ evidence anchors its run
    /\ counts rep its /\ (continuity rep = WitnessCheckpoint.VAULT_WITNESS_CONTINUITY_OK <-> continues run).
Proof. apply clean_evidence. Qed.

(** A stream of a healthy system: where two records, or two checkpoints, have
    the same number they are the same, the shards are chains, and what is
    signed holds.  Only which items there are matters, not their order or
    how often they repeat. *)
Record healthy (anchors : list anchor) (its : list item) : Prop := {
  he_record : forall x y, x ∈ recs_of its -> y ∈ recs_of its -> same_record_key x y = true -> x = y;
  he_chains : forall r, r ∈ recs_of its -> shard_chain (recs_of its) r;
  he_checkpoint : forall a b, a ∈ cps_of its -> b ∈ cps_of its ->
    WitnessCheckpoint.seq a = WitnessCheckpoint.seq b -> a = b;
  he_signed : forall c, c ∈ cps_of its ->
    WitnessCheckpoint.vault_witness_checkpoint_verify c anchors = WitnessCheckpoint.VAULT_WITNESS_CP_OK;
  he_linked : forall a b, a ∈ cps_of its -> b ∈ cps_of its ->
    WitnessCheckpoint.seq a < WitnessCheckpoint.seq b -> WitnessCheckpoint.has_predecessor b <> 0;
  he_proofs : forall p c, p ∈ pfs_of its -> c ∈ cps_of its ->
    WitnessCheckpoint.seq c = WitnessProof.checkpoint_seq p ->
    WitnessProof.vault_witness_proof_verify p (WitnessCheckpoint.root c) = true;
  he_snapshots : forall sn c, sn ∈ sns_of its -> c ∈ cps_of its -> WitnessCheckpoint.seq c = sn_seq sn ->
    sha256 (sn_bytes sn) = WitnessCheckpoint.leaf_snapshot_digest c
    /\ snapshot_rebuilds_root calloc_ok (sn_bytes sn) (WitnessCheckpoint.root c) = 1;
}.

Lemma cps_digest its fs c :
  is_bytes (concat fs) -> Forall2 carries its fs -> c ∈ cps_of its ->
  is_Some (WitnessCheckpoint.vault_witness_checkpoint_digest c).
Proof.
  intros Hb Hc Hin. apply list_elem_of_omap in Hin as (it & Hit & E).
  destruct (item_frame its fs it Hb Hc Hit) as (f & Hf & Hcar).
  apply carries_wf in Hcar; [|done]. destruct it; simplify_eq. destruct Hcar as [Hwf Hv].
  unfold WitnessCheckpoint.vault_witness_checkpoint_digest.
  rewrite WitnessCheckpoint.signable_512 by done. by eexists.
Qed.

(** The stream has a checkpoint with this sequence. *)
Definition has_cp (its : list item) (n : Z) : bool :=
  existsb (fun c => WitnessCheckpoint.seq c =? n) (cps_of its).

(** All the numbers of the report on a healthy stream: what was seen, all
    checkpoints good or repeats of good ones, all proofs and snapshots whose
    checkpoint is there good and the others left aside. *)
Record all_clear (rep : vault_witness_offline_report_t) (its : list item) : Prop := {
  ac_tamper : any_tamper rep = false;
  ac_malformed : report_malformed rep = false;
  ac_counts : counts rep its;
  ac_records : records_conflict rep = 0%nat /\ shards_broken rep = 0%nat;
  ac_checkpoints : (checkpoints_ok rep + checkpoints_duplicate rep = length (cps_of its))%nat;
  ac_continuity : continuity rep <> WitnessCheckpoint.VAULT_WITNESS_CONTINUITY_BROKEN;
  ac_proofs : proofs_ok rep = length (List.filter (fun p => has_cp its (WitnessProof.checkpoint_seq p)) (pfs_of its))
    /\ (proofs_ok rep + proofs_unmatched rep = length (pfs_of its))%nat;
  ac_snapshots : snapshots_ok rep = length (List.filter (fun sn => has_cp its (sn_seq sn)) (sns_of its))
    /\ (snapshots_ok rep + snapshots_unmatched rep = length (sns_of its))%nat;
}.

Lemma matching_has_cp its run n : (forall c, c ∈ run <-> c ∈ cps_of its) ->
  is_Some (matching run n) <-> has_cp its n = true.
Proof.
  intros Hrun. unfold has_cp. rewrite existsb_exists. split.
  - intros [c (Hc & E)%matching_some]. exists c. split; [by apply list_elem_of_In, Hrun | lia].
  - intros (c & Hc & E). unfold matching. destruct (find _ run) as [x|] eqn:Ef; [done|]. exfalso.
    assert (Hin : c ∈ run) by (by apply Hrun, list_elem_of_In).
    pose proof (find_none _ _ Ef c (proj1 (list_elem_of_In _ _) Hin)) as Hno. cbn in Hno. congruence.
Qed.

(** The verdicts on items of which none is bad. *)
Lemma verdict_counts {A} (f : A -> item_verdict) (key : A -> Z) its run l :
  (forall c, c ∈ run <-> c ∈ cps_of its) ->
  (forall x, f x = V_unmatched <-> matching run (key x) = None) ->
  (forall x, x ∈ l -> f x <> V_bad /\ f x <> V_root_mismatch) ->
  count_items V_ok (map f l) = length (List.filter (fun x => has_cp its (key x)) l)
  /\ (count_items V_ok (map f l) + count_items V_unmatched (map f l) = length l)%nat.
Proof.
  intros Hrun Hun Hbad.
  assert (Ho : count_items V_ok (map f l) = length (List.filter (fun x => has_cp its (key x)) l)).
  { apply count_items_map. intros x Hx. rewrite <- (matching_has_cp its run) by done.
    rewrite <- not_eq_None_Some, <- Hun. destruct (Hbad x Hx). by destruct (f x). }
  assert (Hu : count_items V_unmatched (map f l) = length (List.filter (fun x => negb (has_cp its (key x))) l)).
  { apply count_items_map. intros x Hx. rewrite Hun, eq_None_not_Some, (matching_has_cp its run) by done.
    by rewrite negb_true_iff, not_true_iff_false. }
  split; [done|]. rewrite Ho, Hu. apply filter_split.
Qed.

Lemma unmatched_proof run p : check_proof run p = V_unmatched <-> matching run (WitnessProof.checkpoint_seq p) = None.
Proof. unfold check_proof. destruct (matching run _); [|done]. by destruct (WitnessProof.vault_witness_proof_verify _ _). Qed.

Lemma unmatched_snapshot run sn : check_snapshot calloc_ok run sn = V_unmatched <-> matching run (sn_seq sn) = None.
Proof. unfold check_snapshot. destruct (matching run _); [|done]. destruct (negb _); [done|]. by destruct (_ =? 1). Qed.

(** C33: No false alarm: where memory is granted and each kind stays within the
    verifier's ceiling, the stream of a healthy system, its frames in any
    order and repeated any number of times, is reported without tampering,
    without malformed frames, with every frame counted under its kind, every
    checkpoint good or a repeat, and every proof and snapshot good exactly if
    its checkpoint is in the stream. *)
Theorem offline_healthy_clean anchors its fs :
  (forall n, realloc_ok n = true) -> is_bytes (concat fs) -> Forall2 carries its fs ->
  room parsed0 its -> healthy anchors its ->
  exists rep, verify (concat fs) anchors = Some rep /\ all_clear rep its.
Proof.
  intros Hmem Hb Hcar Hroom [Hr1 Hr2 Hc1 Hc2 Hc3 Hp Hs]. unfold vault_witness_offline_verify.
  destruct (parse_stream_complete realloc_ok its fs Hmem Hcar Hroom) as (s & Hps & Hm & Happ).
  pose proof (tally_counts s its (parse_stream_tally _ _ _ Hb Hps) Hm Happ) as Hcnt.
  rewrite Hps. cbn [mbind option_bind]. destruct Happ as (Er & Ec & Ep & Es).
  cbn [parsed0 p_recs p_cps p_pfs p_sns vec_empty v_items app] in Er, Ec, Ep, Es.
  rewrite Er, Ec, Ep, Es. destruct (check_records_total (recs_of its)) as [rr Hrr]. rewrite Hrr.
  cbn [mbind option_bind]. destruct (check_checkpoints anchors (cps_of its)) as [run cr] eqn:Hcc.
  assert (Hcp := check_checkpoints_complete anchors (cps_of its) run cr Hc1
    (fun c Hc => conj (Hc2 c Hc) (cps_digest its fs c Hb Hcar Hc)) Hc3 Hcc).
  destruct Hcp as [Hct Hrun]. pose proof (sr_order _ _ _ (check_checkpoints_sound _ _ _ _ Hcc Hct)) as Hso.
  assert (Hrt : records_tamper rr = false) by (eapply check_records_complete; [by eapply recs_wf | done..]).
  destruct (check_checkpoints_counts _ _ _ _ Hcc Hct) as [Hcn Hcb].
  assert (Hpb : forall p, p ∈ pfs_of its -> check_proof run p <> V_bad).
  { intros p Hin. apply (check_proof_bad run p Hso). intros c Hc. apply Hp; [done | by apply Hrun]. }
  assert (Hsb : forall sn, sn ∈ sns_of its -> check_snapshot calloc_ok run sn <> V_bad
    /\ check_snapshot calloc_ok run sn <> V_root_mismatch).
  { intros sn Hin. apply (check_snapshot_bad run sn Hso). intros c Hc. apply Hs; [done | by apply Hrun]. }
  eexists. split; [reflexivity|].
  split; cbn [any_tamper report_malformed records_conflict shards_broken checkpoints_ok checkpoints_duplicate
    continuity proofs_ok proofs_unmatched snapshots_ok snapshots_unmatched];
    [|exact Hm | exact Hcnt | by apply records_tamper_iff | exact Hcn | exact Hcb | |].
  - apply report_clean. split_and!; [done..| | |].
    + intros (p & E & Hin)%list_elem_of_fmap. symmetry in E. by apply (Hpb p Hin).
    + intros (sn & E & Hin)%list_elem_of_fmap. symmetry in E. by apply (proj1 (Hsb sn Hin)).
    + intros (sn & E & Hin)%list_elem_of_fmap. symmetry in E. by apply (proj2 (Hsb sn Hin)).
  - apply (verdict_counts _ _ its run); [done | apply unmatched_proof|]. intros p Hin. split; [by apply Hpb|].
    unfold check_proof. destruct (matching run _); [|done]. by destruct (WitnessProof.vault_witness_proof_verify _ _).
  - apply (verdict_counts _ _ its run); [done | apply unmatched_snapshot | exact Hsb].
Qed.

(** ** Proofs and snapshots of one checkpoint *)

(** The heads a snapshot lists. *)
Fixpoint snap_heads (count : nat) (p : bytes) (off : nat) : option (list head * nat) :=
  match count with
  | O => Some ([], off)
  | S count =>
      '(h, off) ← snap_leaf p off;
      '(hs, off) ← snap_heads count p off;
      Some (h :: hs, off)
  end.

Definition snapshot_heads (p : bytes) : list head :=
  match snap_heads (Z.to_nat (get_u32 p)) p 4 with Some (hs, _) => hs | None => [] end.

Lemma snap_leaves_heads n p off ls off' :
  snap_leaves n p off = Some (ls, off') ->
  exists hs, snap_heads n p off = Some (hs, off') /\ Forall2 (fun h l => head_leaf h = Some l) hs ls.
Proof.
  revert off ls. induction n as [|n IH]; intros off ls; cbn [snap_leaves snap_heads].
  { intros [= <- <-]. exists []. split; [done | constructor]. }
  destruct (snap_leaf p off) as [[h o1]|]; [cbn [mbind option_bind]|done].
  destruct (head_leaf h) as [l|] eqn:Hl; [cbn [mbind option_bind]|done].
  destruct (snap_leaves n p o1) as [[ls' o2]|] eqn:Hs; [cbn [mbind option_bind]|done].
  intros [= <- <-]. destruct (IH _ _ Hs) as (hs & -> & HF). exists (h :: hs). split; [done|].
  by constructor.
Qed.

Lemma snap_leaf_wf p off h off' : is_bytes p -> snap_leaf p off = Some (h, off') -> wf_head h.
Proof.
  intros Hb. unfold snap_leaf.
  destruct (snap_name p off _) as [[t o1]|]; [cbn [mbind option_bind]|done].
  destruct (snap_name p o1 _) as [[pr o2]|]; [cbn [mbind option_bind]|done].
  destruct (Z.ltb_spec (zlen p) (Z.of_nat o2 + 8 + 32)) as [|Hge]; [done|]. intros [= <- <-].
  unfold zlen in Hge. split; cbn [h_sequence h_hash].
  - apply get_u64_range; [auto with aimee | rewrite length_drop; lia].
  - rewrite length_take, length_drop. lia.
Qed.

Lemma snap_heads_wf n p off hs off' :
  is_bytes p -> snap_heads n p off = Some (hs, off') -> Forall wf_head hs.
Proof.
  intros Hb. revert off hs. induction n as [|n IH]; intros off hs; cbn [snap_heads].
  { intros [= <- <-]. constructor. }
  destruct (snap_leaf p off) as [[h o1]|] eqn:Hl; [cbn [mbind option_bind]|done].
  destruct (snap_heads n p o1) as [[hs' o2]|] eqn:Hs; [cbn [mbind option_bind]|done].
  intros [= <- <-]. constructor; [by eapply snap_leaf_wf | by eapply IH].
Qed.

(** A snapshot that rebuilds a root lists the heads committed under it. *)
Lemma rebuilds_commits p root : is_bytes p -> snapshot_rebuilds_root calloc_ok p root = 1 ->
  exists leaves, Forall2 (fun h l => head_leaf h = Some l) (snapshot_heads p) leaves
    /\ Forall wf_head (snapshot_heads p)
    /\ WitnessMerkle.vault_witness_merkle_root leaves = Some root.
Proof.
  intros Hb. unfold snapshot_rebuilds_root. destruct (zlen p <? 4); [done|].
  destruct (_ || _); [done|]. destruct (negb (calloc_ok _)); [done|].
  destruct (snap_leaves _ p 4) as [[leaves off]|] eqn:Hl; [|done].
  destruct (negb (_ =? zlen p)); [done|].
  destruct (WitnessMerkle.vault_witness_merkle_root leaves) as [rt|] eqn:Hr; [|done].
  destruct (bytes_eqb rt root) eqn:E; [|done]. apply bytes_eqb_true in E as ->. intros _.
  apply snap_leaves_heads in Hl as (hs & Hh & HF). unfold snapshot_heads. rewrite Hh.
  exists leaves. split_and!; [done | by eapply snap_heads_wf | done].
Qed.

(** In a stream without tampering, an inclusion proof and a leaf snapshot of
    one checkpoint agree: the shard head the proof speaks about is one the
    snapshot lists, or SHA-256 collides on its leaf message or on two node
    messages of its path. *)
Theorem offline_proof_committed stream anchors rep :
  is_bytes stream -> verify stream anchors = Some rep -> any_tamper rep = false ->
  exists its fs, stream = concat fs /\ Forall2 carries its fs /\
  forall p sn c, p ∈ pfs_of its -> sn ∈ sns_of its -> c ∈ cps_of its ->
    WitnessProof.checkpoint_seq p = WitnessCheckpoint.seq c -> sn_seq sn = WitnessCheckpoint.seq c ->
    exists leaves, Forall2 (fun h l => head_leaf h = Some l) (snapshot_heads (sn_bytes sn)) leaves
      /\ (proof_head p ∈ snapshot_heads (sn_bytes sn)
          \/ leaf_collision (proof_head p) (snapshot_heads (sn_bytes sn))
          \/ path_collision (proof_head p) leaves (WitnessProof.path p)).
Proof.
  intros Hb Hv Ht. destruct (clean_evidence _ _ _ Hb Hv Ht) as (its & fs & run & -> & Hcar & Hev & _).
  exists its, fs. split_and!; [done..|]. intros p sn c Hp Hsn Hc Ep Esn.
  destruct (sr_all _ _ _ (ev_run _ _ _ Hev) c Hc) as (k & Hk & Ek & _).
  pose proof (ev_proofs _ _ _ Hev p k Hp Hk ltac:(congruence)) as Hpv.
  destruct (ev_snapshots _ _ _ Hev sn k Hsn Hk ltac:(congruence)) as [_ Hroot].
  assert (Hsb : is_bytes (sn_bytes sn)).
  { apply list_elem_of_omap in Hsn as (it & Hit & E).
    destruct (item_frame its fs it Hb Hcar Hit) as (f & Hf & Hcf). apply carries_wf in Hcf; [|done].
    by destruct it; simplify_eq. }
  destruct (rebuilds_commits _ _ Hsb Hroot) as (leaves & HF & Hwf & Hmr).
  exists leaves. split; [done|].
  apply list_elem_of_omap in Hp as (it & Hit & E).
  destruct (item_frame its fs it Hb Hcar Hit) as (f & Hf & Hcf). apply carries_wf in Hcf; [|done].
  destruct it as [| |q|]; try discriminate E. apply (inj Some) in E. subst q.
  destruct Hcf as [(_ & Hsq & _ & _ & [Hh _] & Hpl & Hrows) Hval].
  unfold WitnessProof.vault_witness_proof_verify in Hpv. rewrite Hval in Hpv. cbn [negb] in Hpv.
  apply (inclusion_sound _ _ _ (WitnessCheckpoint.root k)); try done.
  eapply Forall_impl; [exact Hrows|]. by intros x [? _].
Qed.
End Verdict.

(** ** A sample stream *)

Section Sample.
#[local] Existing Instances toy toy_ed25519 stable_qsort.

Definition grant (_ : Z) : bool := true.

(** A second record of the same number that tells another story. *)
Definition rewritten_second : vault_witness_record_t :=
  {| source := source sample_second; seal_epoch := seal_epoch sample_second;
     fencing_token := fencing_token sample_second; shard_seq := shard_seq sample_second;
     has_source_pred := has_source_pred sample_second;
     is_first_in_shard := is_first_in_shard sample_second;
     source_hash := source_hash sample_second; source_pred_hash := source_pred_hash sample_second;
     witness_pred_hash := witness_pred_hash sample_second; source_id := source_id sample_second;
     tenant := tenant sample_second; provider := provider sample_second;
     request_id := request_id sample_second; principal := str "uid:1000";
     provider_cred := provider_cred sample_second; group_id := group_id sample_second;
     timestamp := timestamp sample_second |}.

Definition signed_head : head :=
  {| h_tenant := str "acme"; h_provider := str "aws"; h_sequence := 2;
     h_hash := default [] (vault_witness_record_digest sample_second) |}.

Definition snapshot_bytes : bytes :=
  (put_u32 1 ++ put_u16 4 ++ str "acme" ++ put_u16 3 ++ str "aws" ++ put_u64 2 ++ h_hash signed_head)%list.

Definition signed_leaves : list WitnessMerkle.vault_witness_leaf_t := omap head_leaf [signed_head].

Definition unsigned_cp : checkpoint :=
  {| WitnessCheckpoint.version := 1; WitnessCheckpoint.seq := 1;
     WitnessCheckpoint.root := default [] (WitnessMerkle.vault_witness_merkle_root signed_leaves);
     WitnessCheckpoint.has_predecessor := 0;
     WitnessCheckpoint.predecessor_digest := replicate 32 0;
     WitnessCheckpoint.shard_count := 1;
     WitnessCheckpoint.leaf_snapshot_digest := sha256 snapshot_bytes;
     WitnessCheckpoint.signer_key_id := replicate 16 5;
     WitnessCheckpoint.sig_alg := 1; WitnessCheckpoint.sig_version := 1;
     WitnessCheckpoint.created_at := str "2026-01-01T00:00:02Z";
     WitnessCheckpoint.signature := replicate 64 0 |}.

Definition sign_key : bytes := replicate 32 8.

Definition signed_cp : checkpoint :=
  default unsigned_cp
    (body ← WitnessCheckpoint.vault_witness_checkpoint_signable unsigned_cp 512;
     Some (WitnessCheckpoint.with_signature unsigned_cp 1 (toy_sign sign_key body))).

Definition anchor_set : list anchor :=
  [{| WitnessCheckpoint.key_id := replicate 16 5; WitnessCheckpoint.ed25519_pubkey := sign_key;
      WitnessCheckpoint.revoked := 0 |}].

Definition head_proof : proof :=
  {| WitnessProof.checkpoint_seq := 1; WitnessProof.tenant := str "acme"; WitnessProof.provider := str "aws";
     WitnessProof.sequence := 2; WitnessProof.head_hash := h_hash signed_head;
     WitnessProof.path := default [] (WitnessMerkle.vault_witness_merkle_proof signed_leaves 0) |}.

Definition frame_of (it : item) : bytes :=
  match it with
  | I_rec r => frame_bytes VAULT_WITNESS_EXPORT_RECORD
                 (default [] (vault_witness_record_encode r VAULT_WITNESS_RECORD_MAX))
  | I_cp c => frame_bytes VAULT_WITNESS_EXPORT_CHECKPOINT
                (default [] (WitnessCheckpoint.vault_witness_checkpoint_encode c 640))
  | I_pf p => frame_bytes VAULT_WITNESS_EXPORT_PROOF
                (default [] (WitnessProof.vault_witness_proof_encode p 4096))
  | I_sn sn => frame_bytes VAULT_WITNESS_EXPORT_SNAPSHOT (put_u64 (sn_seq sn) ++ sn_bytes sn)
  end.

Definition sample_items : list item :=
  [I_rec sample_second; I_cp signed_cp; I_sn {| sn_seq := 1; sn_bytes := snapshot_bytes |};
   I_rec sample_first; I_pf head_proof; I_rec sample_second; I_cp signed_cp].

Definition run_verify (its : list item) : option vault_witness_offline_report_t :=
  vault_witness_offline_verify grant grant (concat (map frame_of its)) anchor_set.

Definition tampered (its : list item) : option bool := any_tamper <$> run_verify its.

(** The repeats of a checkpoint are compared by the digest of their signed
    body, which leaves the signature out, and only the first in sort order is
    verified: a copy with a forged signature is unnoticed behind a good one
    and raises the alarm before it, and [qsort] does not say which comes
    first. *)
Theorem offline_order_sensitive :
  tampered [I_cp signed_cp; I_cp unsigned_cp] = Some false
  /\ tampered [I_cp unsigned_cp; I_cp signed_cp] = Some true.
Proof. split; vm_compute; reflexivity. Qed.

(** Chains and checkpoints are checked apart: a stream whose chain was
    rewritten after the checkpoint was signed is reported clean, although the
    signed snapshot and the proof name another digest for the head of the
    shard than that of the record in the stream. *)
Theorem offline_rewritten_unseen :
  tampered [I_rec sample_first; I_rec rewritten_second; I_cp signed_cp;
            I_sn {| sn_seq := 1; sn_bytes := snapshot_bytes |}; I_pf head_proof] = Some false
  /\ snapshot_heads snapshot_bytes = [signed_head]
  /\ vault_witness_record_digest rewritten_second <> Some (h_hash signed_head).
Proof.
  split; [vm_compute; reflexivity|]. split; [vm_compute; reflexivity|]. vm_compute. discriminate.
Qed.

Lemma sample_carries : Forall2 carries sample_items (map frame_of sample_items).
Proof.
  repeat (apply Forall2_cons_2); try apply Forall2_nil_2; eexists _, _;
    (split; [|split; [|reflexivity]]); try (vm_compute; reflexivity);
    (split; [reflexivity | vm_compute]); try reflexivity.
  split_and!; (reflexivity || discriminate).
Qed.

Lemma sample_bytes : is_bytes (concat (map frame_of sample_items)).
Proof. apply is_bytesb_true. vm_compute. reflexivity. Qed.

Lemma offline_clean_sound_witness :
  exists rep, run_verify sample_items = Some rep /\
  exists its fs run, concat (map frame_of sample_items) = concat fs /\ Forall2 carries its fs
    /\ evidence grant anchor_set its run /\ counts rep its
    /\ (continuity rep = WitnessCheckpoint.VAULT_WITNESS_CONTINUITY_OK <-> continues run).
Proof.
  eexists. split; [vm_compute; reflexivity|].
  eapply (offline_clean_sound grant grant (concat (map frame_of sample_items)) anchor_set).
  - exact sample_bytes.
  - vm_compute. reflexivity.
  - reflexivity.
Defined.

Lemma offline_proof_committed_witness :
  exists its fs, concat (map frame_of sample_items) = concat fs /\ Forall2 carries its fs /\
  forall p sn c, p ∈ pfs_of its -> sn ∈ sns_of its -> c ∈ cps_of its ->
    WitnessProof.checkpoint_seq p = WitnessCheckpoint.seq c -> sn_seq sn = WitnessCheckpoint.seq c ->
    exists leaves, Forall2 (fun h l => head_leaf h = Some l) (snapshot_heads (sn_bytes sn)) leaves
      /\ (proof_head p ∈ snapshot_heads (sn_bytes sn)
          \/ leaf_collision (proof_head p) (snapshot_heads (sn_bytes sn))
          \/ path_collision (proof_head p) leaves (WitnessProof.path p)).
Proof.
  eapply (offline_proof_committed grant grant (concat (map frame_of sample_items)) anchor_set).
  - exact sample_bytes.
  - vm_compute. reflexivity.
  - reflexivity.
Defined.

Lemma sample_recs x : x ∈ recs_of sample_items <-> x = sample_first \/ x = sample_second.
Proof. cbn. set_solver. Qed.

Lemma sample_cps x : x ∈ cps_of sample_items <-> x = signed_cp.
Proof. cbn. set_solver. Qed.

Lemma sample_shards r : r ∈ recs_of sample_items -> shard_chain (recs_of sample_items) r.
Proof.
  intros Hr. assert (Hc : exists p d, chain sample_chain p d).
  { apply verify_chain_ok; [exact sample_chain_wf | vm_compute; reflexivity]. }
  destruct Hc as (p & d & C). exists sample_chain, p, d. split; [done|]. intros x.
  rewrite sample_recs. unfold sample_chain.
  assert (Hsh : x = sample_first \/ x = sample_second -> same_shard r x = true).
  { apply sample_recs in Hr. intros Hx. destruct Hr as [->| ->], Hx as [->| ->]; vm_compute; reflexivity. }
  split; [intros Hx; assert (x = sample_first \/ x = sample_second) by set_solver; auto|].
  intros [[->| ->] _]; set_solver.
Qed.

Lemma sample_healthy : healthy grant anchor_set sample_items.
Proof.
  split.
  - intros x y Hx%sample_recs Hy%sample_recs E.
    destruct Hx as [->| ->], Hy as [->| ->]; (reflexivity || (vm_compute in E; discriminate E)).
  - apply sample_shards.
  - by intros a b ->%sample_cps ->%sample_cps _.
  - intros c ->%sample_cps. vm_compute. reflexivity.
  - intros a b ->%sample_cps ->%sample_cps Hlt. lia.
  - intros p c Hp ->%sample_cps _. assert (p = head_proof) as -> by (cbn in Hp; set_solver).
    vm_compute. reflexivity.
  - intros sn c Hsn ->%sample_cps _.
    assert (sn = {| sn_seq := 1; sn_bytes := snapshot_bytes |}) as -> by (cbn in Hsn; set_solver).
    split; vm_compute; reflexivity.
Qed.

Lemma offline_healthy_clean_witness :
  exists rep, vault_witness_offline_verify grant grant (concat (map frame_of sample_items)) anchor_set
      = Some rep /\ all_clear rep sample_items.
Proof.
  apply (offline_healthy_clean grant grant anchor_set sample_items).
  - intros n. reflexivity.
  - exact sample_bytes.
  - exact sample_carries.
  - unfold room. cbn. unfold OFFLINE_MAX_ITEMS. lia.
  - exact sample_healthy.
Defined.
End Sample.

End OfflineVerdict.
