(* ===== verification/TurnState.v ===== *)
(** * Turn manifests ([src/src/core/turn_integrity/turn_integrity.c], first part)

    The life cycle of one turn: creation, binding of the snapshot identities,
    and the transitions of the state machine.  Every operation returns the C
    return value, the manifest afterwards and the events handed to the
    callback ([cb] says whether one is installed).  [run] is the reachability
    relation over arbitrary call sequences, failing calls included.  Shown: a
    turn executes only after it was contextualised, contracted and
    authorised, and completes after executing only through verification;
    every successful call is announced by one event, numbered consecutively;
    bound snapshots never change. *)

From Stdlib Require Import ZArith Lia String Ascii.
From stdpp Require Import base numbers option list.
From S2P Require Import Prelude.

Module TurnState.

Definition TI_ID_MAX : nat := 128.
Definition TI_PRINCIPAL_MAX : nat := 128.
Definition TI_EVENT_MAX : nat := 48.
Definition TI_DETAIL_MAX : nat := 384.

Inductive ti_turn_state_t :=
| TI_TURN_RECEIVED
| TI_TURN_CONTEXTUALIZED
| TI_TURN_CONTRACTED
| TI_TURN_AUTHORIZED
| TI_TURN_EXECUTING
| TI_TURN_VERIFYING
| TI_TURN_REVIEWING
| TI_TURN_COMPLETED
| TI_TURN_BLOCKED
| TI_TURN_FAILED
| TI_TURN_CANCELLED.

#[global] Instance ti_turn_state_eq_dec : EqDecision ti_turn_state_t.
Proof. solve_decision. Defined.

Definition state_eqb (a b : ti_turn_state_t) : bool := bool_decide (a = b).

Record ti_turn_snapshots_t := {
  configuration_id : bytes;
  toolset_id : bytes;
  model_routing_id : bytes;
  policy_revision : bytes;
  context_manifest_id : bytes
}.

Record ti_turn_manifest_t := {
  turn_id : bytes;
  session_id : bytes;
  principal : bytes;
  snapshots : ti_turn_snapshots_t;
  state : ti_turn_state_t;
  sequence : Z
}.

Record ti_event_t := {
  ev_event : bytes;
  ev_turn_id : bytes;
  ev_session_id : bytes;
  ev_principal : bytes;
  ev_detail : bytes;
  ev_state : ti_turn_state_t;
  ev_sequence : Z
}.

(** A NULL source copies as the empty string. *)
Definition copy_bounded (cap : nat) (src : option bytes) : bytes :=
  snprintf_s cap (default [] src).

Definition ti_turn_state_name (state : ti_turn_state_t) : bytes :=
  match state with
  | TI_TURN_RECEIVED => str "received"
  | TI_TURN_CONTEXTUALIZED => str "contextualized"
  | TI_TURN_CONTRACTED => str "contracted"
  | TI_TURN_AUTHORIZED => str "authorized"
  | TI_TURN_EXECUTING => str "executing"
  | TI_TURN_VERIFYING => str "verifying"
  | TI_TURN_REVIEWING => str "reviewing"
  | TI_TURN_COMPLETED => str "completed"
  | TI_TURN_BLOCKED => str "blocked"
  | TI_TURN_FAILED => str "failed"
  | TI_TURN_CANCELLED => str "cancelled"
  end.

Definition ti_turn_state_terminal (state : ti_turn_state_t) : bool :=
  state_eqb state TI_TURN_COMPLETED || state_eqb state TI_TURN_BLOCKED
  || state_eqb state TI_TURN_FAILED || state_eqb state TI_TURN_CANCELLED.

Definition emit_event (cb : bool) (m : ti_turn_manifest_t) (name : bytes) (detail : option bytes)
    : list ti_event_t :=
  if negb cb then []
  else [{| ev_event := copy_bounded TI_EVENT_MAX (Some name);
           ev_turn_id := copy_bounded TI_ID_MAX (Some (turn_id m));
           ev_session_id := copy_bounded TI_ID_MAX (Some (session_id m));
           ev_principal := copy_bounded TI_PRINCIPAL_MAX (Some (principal m));
           ev_detail := copy_bounded TI_DETAIL_MAX detail;
           ev_state := state m;
           ev_sequence := sequence m |}].

Definition no_snapshots : ti_turn_snapshots_t :=
  {| configuration_id := []; toolset_id := []; model_routing_id := [];
     policy_revision := []; context_manifest_id := [] |}.

Definition ti_turn_manifest_init (cb : bool) (m : ti_turn_manifest_t)
    (turn_id session_id principal : option bytes)
    : Z * ti_turn_manifest_t * list ti_event_t :=
  match turn_id with
  | None | Some [] => (-1, m, [])
  | Some _ =>
      let m := {| turn_id := copy_bounded TI_ID_MAX turn_id;
                  session_id := copy_bounded TI_ID_MAX session_id;
                  principal := copy_bounded TI_PRINCIPAL_MAX principal;
                  snapshots := no_snapshots;
                  state := TI_TURN_RECEIVED;
                  sequence := 1 |} in
      (0, m, emit_event cb m (str "turn.created") (Some []))
  end.

(** Some identity is set: the first byte of one of the five arrays. *)
Definition bound (s : ti_turn_snapshots_t) : bool :=
  negb (bool_decide (configuration_id s = [])) || negb (bool_decide (toolset_id s = []))
  || negb (bool_decide (model_routing_id s = [])) || negb (bool_decide (policy_revision s = []))
  || negb (bool_decide (context_manifest_id s = [])).

Definition ti_turn_bind_snapshots (cb : bool) (m : ti_turn_manifest_t)
    (snaps : option ti_turn_snapshots_t) : Z * ti_turn_manifest_t * list ti_event_t :=
  match snaps with
  | None => (-1, m, [])
  | Some s =>
      if negb (state_eqb (state m) TI_TURN_RECEIVED) || bound (snapshots m) then (-1, m, [])
      else
        let m := {| turn_id := turn_id m; session_id := session_id m; principal := principal m;
                    snapshots := s; state := state m; sequence := u64 (sequence m + 1) |} in
        (0, m, emit_event cb m (str "turn.snapshot_bound") (Some []))
  end.

Definition normal_transition (from to : ti_turn_state_t) : bool :=
  match from with
  | TI_TURN_RECEIVED => state_eqb to TI_TURN_CONTEXTUALIZED
  | TI_TURN_CONTEXTUALIZED =>
      state_eqb to TI_TURN_CONTRACTED || state_eqb to TI_TURN_REVIEWING
      || state_eqb to TI_TURN_COMPLETED
  | TI_TURN_CONTRACTED => state_eqb to TI_TURN_AUTHORIZED
  | TI_TURN_AUTHORIZED => state_eqb to TI_TURN_EXECUTING
  | TI_TURN_EXECUTING => state_eqb to TI_TURN_VERIFYING
  | TI_TURN_VERIFYING => state_eqb to TI_TURN_REVIEWING || state_eqb to TI_TURN_COMPLETED
  | TI_TURN_REVIEWING => state_eqb to TI_TURN_COMPLETED
  | _ => false
  end.

(** The guard of [ti_turn_transition], negated. *)
Definition may_enter (from next : ti_turn_state_t) : bool :=
  negb (ti_turn_state_terminal from
        || (negb (state_eqb next TI_TURN_BLOCKED) && negb (state_eqb next TI_TURN_FAILED)
            && negb (state_eqb next TI_TURN_CANCELLED) && negb (normal_transition from next))).

Definition ti_turn_transition (cb : bool) (m : ti_turn_manifest_t) (next : ti_turn_state_t)
    (detail : option bytes) : Z * ti_turn_manifest_t * list ti_event_t :=
  if negb (may_enter (state m) next) then (-1, m, [])
  else
    let m := {| turn_id := turn_id m; session_id := session_id m; principal := principal m;
                snapshots := snapshots m; state := next; sequence := u64 (sequence m + 1) |} in
    let event_name := snprintf_s TI_EVENT_MAX (str "turn." ++ ti_turn_state_name next) in
    (0, m, emit_event cb m event_name detail).

(** ** Reachability

    [run cb m tr evs]: some sequence of calls on one manifest ended in [m];
    [tr] are the states it was in, in order, and [evs] the events. *)
Inductive run (cb : bool) : ti_turn_manifest_t -> list ti_turn_state_t -> list ti_event_t -> Prop :=
| run_init m0 tid sid pr m evs :
    ti_turn_manifest_init cb m0 tid sid pr = (0, m, evs) -> run cb m [state m] evs
| run_bind m tr evs snaps rc m' e :
    run cb m tr evs -> ti_turn_bind_snapshots cb m snaps = (rc, m', e) -> run cb m' tr (evs ++ e)
| run_transition m tr evs next detail rc m' e :
    run cb m tr evs -> ti_turn_transition cb m next detail = (rc, m', e) ->
    run cb m' (if rc =? 0 then tr ++ [next] else tr) (evs ++ e).

(** The manifests later calls can lead to. *)
Inductive later (cb : bool) : ti_turn_manifest_t -> ti_turn_manifest_t -> Prop :=
| later_refl m : later cb m m
| later_bind m m1 snaps rc m2 e :
    later cb m m1 -> ti_turn_bind_snapshots cb m1 snaps = (rc, m2, e) -> later cb m m2
| later_transition m m1 next detail rc m2 e :
    later cb m m1 -> ti_turn_transition cb m1 next detail = (rc, m2, e) -> later cb m m2.

Lemma surjective_pairing_3 {A B C} (x : A * B * C) : x = (x.1.1, x.1.2, x.2).
Proof. by destruct x as [[]]. Qed.

(** ** The paths of the machine *)

Definition all_states : list ti_turn_state_t :=
  [TI_TURN_RECEIVED; TI_TURN_CONTEXTUALIZED; TI_TURN_CONTRACTED; TI_TURN_AUTHORIZED;
   TI_TURN_EXECUTING; TI_TURN_VERIFYING; TI_TURN_REVIEWING; TI_TURN_COMPLETED;
   TI_TURN_BLOCKED; TI_TURN_FAILED; TI_TURN_CANCELLED].

(** All extensions of a path ending in [s]. *)
Fixpoint paths (fuel : nat) (pre : list ti_turn_state_t) (s : ti_turn_state_t)
    : list (list ti_turn_state_t) :=
  match fuel with
  | O => []
  | S fuel =>
      (pre ++ [s]) :: flat_map (paths fuel (pre ++ [s])) (filter (fun n => may_enter s n = true) all_states)
  end.

Definition turn_paths : list (list ti_turn_state_t) := paths 9 [] TI_TURN_RECEIVED.

Definition end_of (tr : list ti_turn_state_t) : ti_turn_state_t :=
  List.last tr TI_TURN_RECEIVED.

Lemma all_states_complete s : s ∈ all_states.
Proof. apply list_elem_of_In. destruct s; cbn; auto 12. Qed.

(** The list of paths is closed under the allowed transitions. *)
Lemma turn_paths_closed tr next : tr ∈ turn_paths -> may_enter (end_of tr) next = true ->
  tr ++ [next] ∈ turn_paths.
Proof.
  assert (forallb (fun tr => forallb (fun n =>
    implb (may_enter (end_of tr) n) (bool_decide (tr ++ [n] ∈ turn_paths))) all_states) turn_paths = true)
    as Hc by (vm_compute; reflexivity).
  intros Htr He. rewrite forallb_forall in Hc. specialize (Hc tr (proj1 (list_elem_of_In _ _) Htr)).
  rewrite forallb_forall in Hc.
  specialize (Hc next (proj1 (list_elem_of_In _ _) (all_states_complete next))).
  cbv beta in Hc. rewrite He in Hc. by apply bool_decide_eq_true in Hc.
Qed.

Lemma may_enter_step cb m next detail rc m' e : ti_turn_transition cb m next detail = (rc, m', e) ->
  (rc = 0 /\ may_enter (state m) next = true /\ state m' = next /\ snapshots m' = snapshots m
   /\ sequence m' = u64 (sequence m + 1)
   /\ e = emit_event cb m' (snprintf_s TI_EVENT_MAX (str "turn." ++ ti_turn_state_name next)) detail)
  \/ (rc = -1 /\ may_enter (state m) next = false /\ m' = m /\ e = []).
Proof.
  unfold ti_turn_transition. destruct (may_enter (state m) next); cbn [negb]; intros [= <- <- <-];
    [left | right]; by split_and!.
Qed.

Lemma bind_step cb m snaps rc m' e : ti_turn_bind_snapshots cb m snaps = (rc, m', e) ->
  (rc = 0 /\ state m = TI_TURN_RECEIVED /\ bound (snapshots m) = false /\ state m' = TI_TURN_RECEIVED
   /\ Some (snapshots m') = snaps /\ sequence m' = u64 (sequence m + 1)
   /\ e = emit_event cb m' (str "turn.snapshot_bound") (Some []))
  \/ (rc = -1 /\ m' = m /\ e = []).
Proof.
  unfold ti_turn_bind_snapshots. destruct snaps as [s|]; [|intros [= <- <- <-]; by right].
  destruct (_ || _) eqn:G; intros [= <- <- <-]; [by right | left]. unfold state_eqb in G. bool_to_prop. by split_and!.
Qed.

Lemma init_step cb m0 tid sid pr m evs : ti_turn_manifest_init cb m0 tid sid pr = (0, m, evs) ->
  state m = TI_TURN_RECEIVED /\ sequence m = 1 /\ snapshots m = no_snapshots
  /\ evs = emit_event cb m (str "turn.created") (Some []).
Proof. destruct tid as [[|c t]|]; cbn; [done| |done]. intros [= <- <-]. by split_and!. Qed.

(** The states a turn went through are a path of the machine. *)
Lemma run_path cb m tr evs : run cb m tr evs -> tr ∈ turn_paths /\ end_of tr = state m.
Proof.
  induction 1 as [m0 tid sid pr m evs E | m tr evs snaps rc m' e R [IH1 IH2] E
                 | m tr evs next detail rc m' e R [IH1 IH2] E].
  - apply init_step in E as (-> & _). split; [|done]. unfold turn_paths. cbn [paths]. left.
  - apply bind_step in E as [(_ & Hs & _ & Hs' & _)|(_ & -> & _)]; [|done]. by rewrite Hs', <- Hs.
  - apply may_enter_step in E as [(-> & He & Hs & _)|(-> & _ & -> & _)]; [|done]. cbn [Z.eqb].
    split; [apply turn_paths_closed; [done|]; by rewrite IH2|]. unfold end_of. by rewrite last_last.
Qed.

Definition starts_with (p tr : list ti_turn_state_t) : bool := bool_decide (take (length p) tr = p).

Definition executing_prefix : list ti_turn_state_t :=
  [TI_TURN_RECEIVED; TI_TURN_CONTEXTUALIZED; TI_TURN_CONTRACTED; TI_TURN_AUTHORIZED;
   TI_TURN_EXECUTING].

Definition gated (tr : list ti_turn_state_t) : bool :=
  (negb (bool_decide (TI_TURN_EXECUTING ∈ tr)) || (starts_with executing_prefix tr
    && (negb (state_eqb (end_of tr) TI_TURN_COMPLETED)
        || starts_with (executing_prefix ++ [TI_TURN_VERIFYING]) tr)))
  && (length tr <=? 8)%nat.

Lemma turn_paths_gated tr : tr ∈ turn_paths -> gated tr = true.
Proof.
  assert (forallb gated turn_paths = true) as H by (vm_compute; reflexivity).
  rewrite forallb_forall in H. intros Htr. by apply H, list_elem_of_In.
Qed.

(** ** Properties *)

(** C13: execution is gated: a turn that ever executes went through received,
    contextualized, contracted and authorized first, in this order and with
    nothing in between; a turn that completes after executing was verified
    directly after executing; and a turn makes at most seven transitions. *)
Theorem turn_execution_gated cb m tr evs : run cb m tr evs ->
  (TI_TURN_EXECUTING ∈ tr -> exists rest, tr = executing_prefix ++ rest
    /\ (state m = TI_TURN_COMPLETED -> exists rest', rest = TI_TURN_VERIFYING :: rest'))
  /\ (length tr <= 8)%nat.
Proof.
  intros R. apply run_path in R as [Hp He].
  pose proof (turn_paths_gated tr Hp) as Hc. unfold gated in Hc.
  apply andb_true_iff in Hc as [Hc Hl]. apply Nat.leb_le in Hl. split; [|done].
  intros Hx. rewrite bool_decide_true in Hc by done. cbn [negb orb] in Hc.
  apply andb_true_iff in Hc as [H1 H2]. unfold starts_with in *. bool_to_prop.
  exists (drop 5 tr). split; [by rewrite <- H1 at 1; rewrite take_drop|].
  intros Hm. rewrite <- He in Hm. unfold state_eqb in H2. rewrite Hm, bool_decide_true in H2 by done.
  cbn [negb orb] in H2. apply bool_decide_eq_true in H2.
  exists (drop 6 tr). rewrite <- (take_drop 6 tr) at 1. change (length (_ ++ _)) with 6%nat in H2.
  by rewrite H2.
Qed.

(** Terminal states absorb: once a turn completed, was blocked, failed or
    was cancelled, every later call fails and leaves the manifest unchanged. *)
Theorem turn_terminal_absorbing cb m m' : ti_turn_state_terminal (state m) = true ->
  later cb m m' -> m' = m.
Proof.
  intros Ht. induction 1 as [m | m m1 snaps rc m2 e L IH E | m m1 next detail rc m2 e L IH E]; [done|..];
    specialize (IH Ht); subst m1.
  - apply bind_step in E as [(_ & Hs & _)|(_ & -> & _)]; [|done]. by rewrite Hs in Ht.
  - apply may_enter_step in E as [(_ & He & _)|(_ & _ & -> & _)]; [|done].
    unfold may_enter in He. by rewrite Ht in He.
Qed.

(** Every successful call is announced once and in order: with a callback
    installed, the events of a turn carry the sequence numbers 1, 2, 3, ...
    (64-bit), and the last one carries the turn's current state and
    sequence. *)
Theorem turn_events_in_order m tr evs : run true m tr evs ->
  map ev_sequence evs = map u64 (seqZ 1 (Z.of_nat (length evs)))
  /\ exists e, last evs = Some e /\ ev_state e = state m /\ ev_sequence e = sequence m
       /\ sequence m = u64 (Z.of_nat (length evs)).
Proof.
  assert (forall evs (m m' : ti_turn_manifest_t) e name detail,
    map ev_sequence evs = map u64 (seqZ 1 (Z.of_nat (length evs))) ->
    sequence m = u64 (Z.of_nat (length evs)) -> sequence m' = u64 (sequence m + 1) ->
    e = emit_event true m' name detail ->
    map ev_sequence (evs ++ e) = map u64 (seqZ 1 (Z.of_nat (length (evs ++ e))))
    /\ exists x, last (evs ++ e) = Some x /\ ev_state x = state m' /\ ev_sequence x = sequence m'
       /\ sequence m' = u64 (Z.of_nat (length (evs ++ e)))) as Hext.
  { intros evs0 m0 m' e name detail Hm Hs Hs' ->. cbn [emit_event negb].
    assert (sequence m' = u64 (Z.of_nat (length evs0) + 1)) as Hsm.
    { rewrite Hs', Hs. unfold u64. by rewrite Zplus_mod_idemp_l. }
    rewrite length_app. cbn [length]. rewrite Nat2Z.inj_add. change (Z.of_nat 1) with 1. split.
    - rewrite seqZ_app by lia. rewrite !map_app, Hm. cbn. rewrite Hsm. by rewrite Z.add_comm.
    - eexists. rewrite last_snoc. split_and!; [done..|]. exact Hsm. }
  induction 1 as [m0 tid sid pr m evs E | m tr evs snaps rc m' e R (IH1 & x & IH2 & IH3 & IH4 & IH5) E
                 | m tr evs next detail rc m' e R (IH1 & x & IH2 & IH3 & IH4 & IH5) E].
  - apply init_step in E as (Hs & Hq & _ & ->). cbn. rewrite Hq. split; [done|].
    eexists. by split_and!.
  - apply bind_step in E as [(_ & _ & _ & _ & _ & Hq & He)|(_ & -> & ->)].
    + by eapply Hext.
    + rewrite app_nil_r. eauto 10.
  - apply may_enter_step in E as [(_ & _ & _ & _ & Hq & He)|(_ & _ & -> & ->)].
    + by eapply Hext.
    + rewrite app_nil_r. eauto 10.
Qed.

(** Bound snapshot identities never change: once one identity is bound, or
    the turn has left RECEIVED, no sequence of later calls changes the
    snapshots. *)
Theorem turn_snapshots_immutable cb m m' :
  bound (snapshots m) = true \/ state m <> TI_TURN_RECEIVED ->
  later cb m m' -> snapshots m' = snapshots m.
Proof.
  intros Hb L. cut (snapshots m' = snapshots m
    /\ (bound (snapshots m') = true \/ state m' <> TI_TURN_RECEIVED)); [tauto|].
  revert Hb. induction L as [m | m m1 snaps rc m2 e L IH E | m m1 next detail rc m2 e L IH E];
    intros Hb; [done|..]; destruct (IH Hb) as [IH1 IH2].
  - apply bind_step in E as [(_ & Hs & Hn & _)|(_ & -> & _)]; [|done].
    destruct IH2; [congruence | done].
  - apply may_enter_step in E as [(_ & He & Hs & Hq & _)|(_ & _ & -> & _)]; [|done].
    split; [congruence|]. destruct IH2 as [IH2|IH2]; [left; congruence | right].
    rewrite Hs. intros ->. revert He. by destruct (state m1).
Qed.

(** ** Samples *)

Definition blank : ti_turn_manifest_t :=
  {| turn_id := []; session_id := []; principal := []; snapshots := no_snapshots;
     state := TI_TURN_RECEIVED; sequence := 0 |}.

Definition some_snapshots : ti_turn_snapshots_t :=
  {| configuration_id := str "cfg-1"; toolset_id := []; model_routing_id := [];
     policy_revision := str "p7"; context_manifest_id := [] |}.

(** A turn that is created, bound, and taken through a list of transitions. *)
Definition sample_start : ti_turn_manifest_t * list ti_event_t :=
  let '(_, m, e) := ti_turn_manifest_init true blank (Some (str "turn-1")) None (Some (str "uid:0")) in
  let '(_, m, e') := ti_turn_bind_snapshots true m (Some some_snapshots) in (m, e ++ e').

Definition sample_go (st : ti_turn_manifest_t * list ti_event_t) (next : ti_turn_state_t)
    : ti_turn_manifest_t * list ti_event_t :=
  let '(_, m, e) := ti_turn_transition true st.1 next None in (m, st.2 ++ e).

Definition sample_done : ti_turn_manifest_t * list ti_event_t :=
  fold_left sample_go [TI_TURN_CONTEXTUALIZED; TI_TURN_CONTRACTED; TI_TURN_AUTHORIZED;
    TI_TURN_EXECUTING; TI_TURN_VERIFYING; TI_TURN_COMPLETED] sample_start.

Definition sample_trace : list ti_turn_state_t :=
  executing_prefix ++ [TI_TURN_VERIFYING; TI_TURN_COMPLETED].

Lemma sample_go_run st tr next : may_enter (state st.1) next = true -> run true st.1 tr st.2 ->
  run true (sample_go st next).1 (tr ++ [next]) (sample_go st next).2.
Proof.
  intros He R. unfold sample_go, ti_turn_transition. rewrite He. cbn [negb fst snd].
  apply (run_transition true st.1 tr st.2 next None 0 _ _ R). unfold ti_turn_transition. by rewrite He.
Qed.

Lemma sample_run : run true sample_done.1 sample_trace sample_done.2.
Proof.
  assert (run true sample_start.1 [TI_TURN_RECEIVED] sample_start.2) as R.
  { refine (run_bind true _ [TI_TURN_RECEIVED] _ (Some some_snapshots) 0 _ _
      (run_init true blank (Some (str "turn-1")) None (Some (str "uid:0")) _ _ eq_refl) _). reflexivity. }
  apply (sample_go_run _ _ TI_TURN_CONTEXTUALIZED) in R; [|reflexivity].
  apply (sample_go_run _ _ TI_TURN_CONTRACTED) in R; [|reflexivity].
  apply (sample_go_run _ _ TI_TURN_AUTHORIZED) in R; [|reflexivity].
  apply (sample_go_run _ _ TI_TURN_EXECUTING) in R; [|reflexivity].
  apply (sample_go_run _ _ TI_TURN_VERIFYING) in R; [|reflexivity].
  apply (sample_go_run _ _ TI_TURN_COMPLETED) in R; [|reflexivity]. exact R.
Qed.

Lemma turn_execution_gated_witness :
  TI_TURN_EXECUTING ∈ sample_trace /\
  exists rest, sample_trace = executing_prefix ++ rest
    /\ (state sample_done.1 = TI_TURN_COMPLETED -> exists rest', rest = TI_TURN_VERIFYING :: rest').
Proof.
  assert (TI_TURN_EXECUTING ∈ sample_trace) as Hx
    by (apply list_elem_of_In; cbn; auto 10).
  split; [exact Hx|]. apply (turn_execution_gated true _ _ _ sample_run). exact Hx.
Defined.

Lemma turn_terminal_absorbing_witness :
  (ti_turn_transition true sample_done.1 TI_TURN_EXECUTING None).1.2 = sample_done.1.
Proof.
  apply (turn_terminal_absorbing true sample_done.1); [reflexivity|].
  eapply later_transition; [apply later_refl | apply surjective_pairing_3].
Defined.

Lemma turn_events_in_order_witness :
  map ev_sequence sample_done.2 = map u64 (seqZ 1 (Z.of_nat (length sample_done.2)))
  /\ map ev_sequence sample_done.2 = [1; 2; 3; 4; 5; 6; 7; 8].
Proof. split; [apply (turn_events_in_order _ _ _ sample_run) | reflexivity]. Defined.

Lemma turn_snapshots_immutable_witness :
  bound (snapshots sample_start.1) = true /\
  snapshots (ti_turn_bind_snapshots true sample_start.1 (Some no_snapshots)).1.2
  = snapshots sample_start.1.
Proof.
  split; [reflexivity|]. apply (turn_snapshots_immutable true sample_start.1); [left; reflexivity|].
  eapply later_bind; [apply later_refl | apply surjective_pairing_3].
Defined.

(** Binding snapshots whose identities are all empty does not count as bound:
    a second call succeeds, although the header allows one call only. *)
Example bind_twice :
  let m := (ti_turn_manifest_init false blank (Some (str "turn-1")) None None).1.2 in
  let first := ti_turn_bind_snapshots false m (Some no_snapshots) in
  let second := ti_turn_bind_snapshots false first.1.2 (Some some_snapshots) in
  first.1.1 = 0 /\ second.1.1 = 0 /\ snapshots second.1.2 = some_snapshots.
Proof. by vm_compute. Qed.

End TurnState.
