(* ===== verification/TurnKnowledge.v ===== *)
(** * Knowledge epochs ([src/src/core/turn_integrity/turn_integrity.c], second part)

    The process-local registry of scoped knowledge epochs and of the epoch
    each session observed last: two arrays of 256 slots under one lock, so
    that every call is one atomic step on the table.  The abstract
    specification is a finite map from (domain, scope) to epoch.  Shown: for
    identifiers that fit their fields the calls refine the map operations
    while there is room; a basis is CURRENT exactly until its scope is
    advanced; session observation refines a map update.  Identifiers that do
    not fit are stored cut but compared whole: the last example shows the
    invalidation that is lost. *)

From Stdlib Require Import ZArith Lia String Ascii.
From stdpp Require Import base numbers option list gmap fin_maps.
From S2P Require Import Prelude.
From S2P Require Import SlotTable.
From S2P Require Import TurnState.

Module TurnKnowledge.

Definition TI_DOMAIN_MAX : nat := 48.
Definition TI_SCOPE_MAX : nat := 128.
Definition TI_KNOWLEDGE_SLOTS : nat := 256.
Definition TI_SESSION_SLOTS : nat := 256.

Record ti_knowledge_slot_t := {
  domain : bytes;
  scope_id : bytes;
  epoch : Z;
  in_use : bool
}.

Record ti_session_slot_t := {
  s_session_id : bytes;
  s_epoch : Z;
  s_in_use : bool
}.

Inductive ti_freshness_t :=
| TI_FRESHNESS_UNKNOWN
| TI_FRESHNESS_CURRENT
| TI_FRESHNESS_STALE.

Record ti_knowledge_basis_t := { b_domain : bytes; b_scope_id : bytes; b_epoch : Z }.

Definition free_knowledge : ti_knowledge_slot_t :=
  {| domain := []; scope_id := []; epoch := 0; in_use := false |}.
Definition free_session : ti_session_slot_t :=
  {| s_session_id := []; s_epoch := 0; s_in_use := false |}.

(** The slot found for the key and the table, in which a slot was claimed when
    [create] is set and the key was missing. *)
Definition knowledge_find_locked (t : list ti_knowledge_slot_t) (d s : bytes) (create : bool)
    : option nat * list ti_knowledge_slot_t :=
  match slot_scan in_use
          (fun slot => bytes_eqb (domain slot) d && bytes_eqb (scope_id slot) s) 0 None t with
  | (Some i, _) => (Some i, t)
  | (None, Some f) =>
      if negb create then (None, t)
      else (Some f, <[f := {| domain := snprintf_s TI_DOMAIN_MAX d;
                             scope_id := snprintf_s TI_SCOPE_MAX s;
                             epoch := 0; in_use := true |}]> t)
  | (None, None) => (None, t)
  end.

(** [!p || !p[0]]. *)
Definition absent (p : option bytes) : bool := bool_decide (default [] p = []).

Definition ti_knowledge_epoch_current (t : list ti_knowledge_slot_t) (d s : option bytes) : Z :=
  if absent d || absent s then 0
  else
    match (knowledge_find_locked t (default [] d) (default [] s) false).1 with
    | Some i => match t !! i with Some slot => epoch slot | None => 0 end
    | None => 0
    end.

Definition ti_knowledge_epoch_advance (cb : bool) (t : list ti_knowledge_slot_t)
    (d s reason : option bytes)
    : Z * list ti_knowledge_slot_t * list TurnState.ti_event_t :=
  if absent d || absent s then (0, t, [])
  else
    let '(found, t) := knowledge_find_locked t (default [] d) (default [] s) true in
    let '(e, t) :=
      match found with
      | Some i =>
          match t !! i with
          | Some slot =>
              let e := u64 (epoch slot + 1) in
              (e, <[i := {| domain := domain slot; scope_id := scope_id slot;
                           epoch := e; in_use := in_use slot |}]> t)
          | None => (0, t)
          end
      | None => (0, t)
      end in
    if negb (e =? 0) && cb then
      (e, t, [{| TurnState.ev_event := TurnState.copy_bounded TurnState.TI_EVENT_MAX (Some (str "knowledge.invalidated"));
                 TurnState.ev_turn_id := TurnState.copy_bounded TurnState.TI_ID_MAX s;
                 TurnState.ev_session_id := TurnState.copy_bounded TurnState.TI_ID_MAX d;
                 TurnState.ev_principal := [];
                 TurnState.ev_detail := TurnState.copy_bounded TurnState.TI_DETAIL_MAX reason;
                 TurnState.ev_state := TurnState.TI_TURN_RECEIVED;
                 TurnState.ev_sequence := e |}])
    else (e, t, []).

Definition ti_knowledge_basis_freshness (t : list ti_knowledge_slot_t) (b : ti_knowledge_basis_t)
    : ti_freshness_t :=
  if absent (Some (b_domain b)) || absent (Some (b_scope_id b)) then TI_FRESHNESS_UNKNOWN
  else if ti_knowledge_epoch_current t (Some (b_domain b)) (Some (b_scope_id b)) =? b_epoch b
       then TI_FRESHNESS_CURRENT else TI_FRESHNESS_STALE.

(** The verdict, [*previous_epoch_out] and the table afterwards. *)
Definition ti_session_knowledge_observe (t : list ti_session_slot_t) (sid : option bytes)
    (current_epoch : Z) : ti_freshness_t * Z * list ti_session_slot_t :=
  if absent sid then (TI_FRESHNESS_UNKNOWN, 0, t)
  else
    let id := default [] sid in
    match slot_scan s_in_use (fun slot => bytes_eqb (s_session_id slot) id) 0 None t with
    | (Some i, _) =>
        match t !! i with
        | Some slot =>
            let previous := s_epoch slot in
            (if previous =? current_epoch then TI_FRESHNESS_CURRENT else TI_FRESHNESS_STALE,
             previous,
             <[i := {| s_session_id := s_session_id slot; s_epoch := current_epoch;
                       s_in_use := s_in_use slot |}]> t)
        | None => (TI_FRESHNESS_UNKNOWN, 0, t)
        end
    | (None, Some f) =>
        (TI_FRESHNESS_UNKNOWN, 0,
         <[f := {| s_session_id := snprintf_s TurnState.TI_ID_MAX id; s_epoch := current_epoch;
                   s_in_use := true |}]> t)
    | (None, None) => (TI_FRESHNESS_UNKNOWN, 0, t)
    end.

Definition ti_knowledge_reset_for_test : list ti_knowledge_slot_t * list ti_session_slot_t :=
  (replicate TI_KNOWLEDGE_SLOTS free_knowledge, replicate TI_SESSION_SLOTS free_session).

(** ** The abstract map *)

Definition kentry (s : ti_knowledge_slot_t) : option ((bytes * bytes) * Z) :=
  if in_use s then Some ((domain s, scope_id s), epoch s) else None.
Definition sentry (s : ti_session_slot_t) : option (bytes * Z) :=
  if s_in_use s then Some (s_session_id s, s_epoch s) else None.

Abbreviation epochs := (abs kentry).
Abbreviation observed := (abs sentry).

(** Keys that the fixed-size fields hold without cutting. *)
Definition fits (d s : bytes) : Prop :=
  (0 < length d < TI_DOMAIN_MAX)%nat /\ (0 < length s < TI_SCOPE_MAX)%nat.

Definition wf_table (t : list ti_knowledge_slot_t) : Prop :=
  length t = TI_KNOWLEDGE_SLOTS /\ distinct kentry t
  /\ map_Forall (fun _ e => 0 <= e < 2 ^ 64) (epochs t).

Definition wf_sessions (t : list ti_session_slot_t) : Prop :=
  length t = TI_SESSION_SLOTS /\ distinct sentry t.

Lemma absent_false x : (0 < length x)%nat -> absent (Some x) = false.
Proof. intros Hx. apply bool_decide_eq_false. cbn. intros ->. cbn in Hx. lia. Qed.

(** What the search finds, in terms of the map. *)
Lemma find_spec t d s : distinct kentry t ->
  match slot_scan in_use
          (fun slot => bytes_eqb (domain slot) d && bytes_eqb (scope_id slot) s) 0 None t with
  | (Some i, _) => exists slot, t !! i = Some slot /\ kentry slot = Some ((d, s), epoch slot)
      /\ epochs t !! (d, s) = Some (epoch slot)
  | (None, Some f) => epochs t !! (d, s) = None
      /\ (size (epochs t) < length t)%nat /\ exists slot, t !! f = Some slot /\ kentry slot = None
  | (None, None) => epochs t !! (d, s) = None /\ ~ (size (epochs t) < length t)%nat
  end.
Proof.
  intros Hd. destruct (slot_scan _ _ _ _ _) as [[i|] f] eqn:E.
  - apply slot_scan_found in E as (n & slot & -> & Hn & Hu & Hm). exists slot.
    apply andb_true_iff in Hm as [H1 H2]. apply bytes_eqb_true in H1, H2. subst.
    assert (kentry slot = Some ((domain slot, scope_id slot), epoch slot)) as Hk
      by (unfold kentry; by rewrite Hu).
    split_and!; [done..|]. by eapply abs_lookup.
  - apply slot_scan_missing in E as [Hno Hf].
    assert (epochs t !! (d, s) = None) as Hnone.
    { apply abs_lookup_none. intros n slot v Hn. unfold kentry. destruct (in_use slot) eqn:Eu; [|done].
      intros [= <- <- <-]. specialize (Hno n slot Hn Eu). by rewrite !bytes_eqb_refl in Hno. }
    pose proof (free_slot_iff kentry t Hd) as Hfree. destruct f as [f|].
    + destruct Hf as (n & slot & -> & Hn & Hu). cbn.
      assert (kentry slot = None) by (unfold kentry; by rewrite Hu).
      split_and!; [done | apply Hfree; eauto | eauto].
    + split; [done|]. rewrite <- Hfree. intros (i & slot & Hi & Hk). specialize (Hf i slot Hi).
      unfold kentry in Hk. by rewrite Hf in Hk.
Qed.

Lemma current_spec t d s : distinct kentry t -> fits d s ->
  ti_knowledge_epoch_current t (Some d) (Some s) = default 0 (epochs t !! (d, s)).
Proof.
  intros Hd [Hfd Hfs]. unfold ti_knowledge_epoch_current, knowledge_find_locked.
  rewrite !absent_false by lia. cbn [orb default]. pose proof (find_spec t d s Hd) as F.
  cbn [from_option id] in *.
  destruct (slot_scan _ _ _ _ _) as [[i|] [f|]]; cbn [fst negb].
  - destruct F as (slot & -> & _ & ->). done.
  - destruct F as (slot & -> & _ & ->). done.
  - destruct F as (-> & _). done.
  - destruct F as (-> & _). done.
Qed.

(** There is room for the key: it has a slot, or a slot is free. *)
Definition room (t : list ti_knowledge_slot_t) (k : bytes * bytes) : Prop :=
  is_Some (epochs t !! k) \/ (size (epochs t) < TI_KNOWLEDGE_SLOTS)%nat.

#[global] Instance room_dec t k : Decision (room t k).
Proof. unfold room. apply _. Defined.

Lemma advance_spec cb t d s reason e t' evs : wf_table t -> fits d s ->
  ti_knowledge_epoch_advance cb t (Some d) (Some s) reason = (e, t', evs) ->
  if decide (room t (d, s))
  then e = u64 (default 0 (epochs t !! (d, s)) + 1) /\ epochs t' = <[(d, s) := e]> (epochs t)
       /\ wf_table t'
  else e = 0 /\ t' = t.
Proof.
  intros (Hlen & Hd & Hr) [Hfd Hfs]. unfold ti_knowledge_epoch_advance, knowledge_find_locked.
  rewrite !absent_false by lia. cbn [orb]. pose proof (find_spec t d s Hd) as F.
  cbn [default from_option id] in *. rewrite Hlen in F.
  assert (forall t1 v, distinct kentry t1 -> length t1 = length t ->
    epochs t1 = <[(d, s) := u64 v]> (epochs t) -> wf_table t1) as Hwf.
  { intros t1 v D L E. split_and!; [congruence | done|]. rewrite E. apply map_Forall_insert_2; [|done].
    apply u64_range. }
  destruct (slot_scan _ _ _ _ _) as [[i|] f]; [|destruct f as [f|]]; cbn [fst negb].
  - destruct F as (slot & Hi & Hk & Hl). rewrite Hi, Hl. cbn [default from_option id].
    assert (kentry {| domain := domain slot; scope_id := scope_id slot; epoch := u64 (epoch slot + 1);
      in_use := in_use slot |} = Some ((d, s), u64 (epoch slot + 1))) as Hk'.
    { unfold kentry in *. cbn. destruct (in_use slot); [|done]. by injection Hk as -> ->. }
    destruct (abs_update kentry t i slot _ (d, s) _ _ Hd Hi Hk Hk') as [D E].
    rewrite decide_True by (left; rewrite Hl; eauto).
    destruct (_ && cb); intros [= <- <- _]; (split_and!; [done..|]);
      (eapply Hwf; [done | apply length_insert | done]).
  - destruct F as (Hl & Hs & slot & Hi & Hk). rewrite Hl. cbn [default from_option id].
    rewrite decide_True by (right; done).
    assert (kentry {| domain := d; scope_id := s; epoch := 0; in_use := true |} = Some ((d, s), 0)) as Hk0 by done.
    rewrite !snprintf_s_fits by lia.
    destruct (abs_fresh kentry t f slot _ (d, s) _ Hd Hi Hk Hl Hk0) as [D E].
    assert (f < length t)%nat as Hlt by (by eapply lookup_lt_Some).
    rewrite list_lookup_insert_eq by done. cbn [domain scope_id epoch in_use].
    assert (kentry {| domain := d; scope_id := s; epoch := u64 (0 + 1); in_use := true |}
      = Some ((d, s), u64 (0 + 1))) as Hk1 by done.
    destruct (abs_update kentry _ f _ _ (d, s) _ _ D (list_lookup_insert_eq t f _ Hlt) Hk0 Hk1) as [D' E'].
    rewrite E, insert_insert_eq in E'.
    destruct (_ && cb); intros [= <- <- _]; (split_and!; [done..|]);
      (eapply Hwf; [done | by rewrite !length_insert | done]).
  - destruct F as (Hl & Hs). rewrite decide_False by (intros [Hsome|]; [rewrite Hl in Hsome; by destruct Hsome | done]).
    intros [= <- <- _]. done.
Qed.
(** ** Sequences of invalidations *)

Definition advances (cb : bool) (t : list ti_knowledge_slot_t) (ks : list (bytes * bytes))
    : list ti_knowledge_slot_t :=
  fold_left (fun t k => (ti_knowledge_epoch_advance cb t (Some k.1) (Some k.2) None).1.2) ks t.

Definition count (k : bytes * bytes) (ks : list (bytes * bytes)) : nat :=
  length (filter (fun x => x = k) ks).

Definition epoch_of (t : list ti_knowledge_slot_t) (k : bytes * bytes) : Z :=
  default 0 (epochs t !! k).

Lemma epoch_of_range t k : wf_table t -> 0 <= epoch_of t k < 2 ^ 64.
Proof.
  intros (_ & _ & Hr). unfold epoch_of. destruct (epochs t !! k) eqn:E; cbn; [|lia].
  by apply (Hr k).
Qed.

Lemma advances_spec cb t ks : wf_table t -> Forall (fun k => fits k.1 k.2) ks ->
  (size (dom (epochs t) ∪ list_to_set ks : gset (bytes * bytes)) <= TI_KNOWLEDGE_SLOTS)%nat ->
  wf_table (advances cb t ks)
  /\ forall k, epoch_of (advances cb t ks) k = u64 (epoch_of t k + Z.of_nat (count k ks)).
Proof.
  intros Hwf Hks. revert t Hwf. induction Hks as [|[d s] ks Hk Hks IH]; intros t Hwf Hsz.
  - split; [done|]. intros k. cbn. rewrite Z.add_0_r. symmetry. apply u64_small. by apply epoch_of_range.
  - unfold advances. cbn [fold_left fst snd].
    destruct (ti_knowledge_epoch_advance cb t (Some d) (Some s) None) as [[e t'] evs] eqn:E.
    apply advance_spec in E; [|done..]. cbn [fst snd].
    rewrite decide_True in E.
    2: { destruct (epochs t !! (d, s)) eqn:El; [left; eauto | right].
         assert ((d, s) ∉ dom (epochs t)) by (by apply not_elem_of_dom).
         apply Nat.lt_le_trans with (size (dom (epochs t) ∪ list_to_set ((d, s) :: ks) : gset (bytes * bytes)));
           [|done].
         rewrite <- size_dom. apply subset_size. set_solver. }
    destruct E as (He & Et & Hwf'). destruct (IH t' Hwf') as [IH1 IH2].
    { etrans; [|exact Hsz]. apply subseteq_size. rewrite Et, dom_insert_L. set_solver. }
    split; [done|]. intros k. unfold advances in IH2. rewrite IH2.
    unfold epoch_of, count. rewrite Et. cbn [filter list_filter].
    destruct (decide ((d, s) = k)) as [<-|Hne].
    + rewrite lookup_insert_eq. cbn [default from_option id length]. rewrite He. unfold u64.
      rewrite Zplus_mod_idemp_l. f_equal. rewrite Nat2Z.inj_succ, <- Z.add_assoc. f_equal. apply Z.add_comm.
    + by rewrite lookup_insert_ne.
Qed.

(** ** Sessions *)

Lemma session_find_spec t id : distinct sentry t ->
  match slot_scan s_in_use (fun slot => bytes_eqb (s_session_id slot) id) 0 None t with
  | (Some i, _) => exists slot, t !! i = Some slot /\ sentry slot = Some (id, s_epoch slot)
      /\ observed t !! id = Some (s_epoch slot)
  | (None, Some f) => observed t !! id = None
      /\ (size (observed t) < length t)%nat /\ exists slot, t !! f = Some slot /\ sentry slot = None
  | (None, None) => observed t !! id = None /\ ~ (size (observed t) < length t)%nat
  end.
Proof.
  intros Hd. destruct (slot_scan _ _ _ _ _) as [[i|] f] eqn:E.
  - apply slot_scan_found in E as (n & slot & -> & Hn & Hu & Hm). exists slot.
    apply bytes_eqb_true in Hm. subst id.
    assert (sentry slot = Some (s_session_id slot, s_epoch slot)) as Hk
      by (unfold sentry; by rewrite Hu).
    split_and!; [done..|]. by eapply abs_lookup.
  - apply slot_scan_missing in E as [Hno Hf].
    assert (observed t !! id = None) as Hnone.
    { apply abs_lookup_none. intros n slot v Hn. unfold sentry. destruct (s_in_use slot) eqn:Eu; [|done].
      intros [= <- <-]. specialize (Hno n slot Hn Eu). by rewrite bytes_eqb_refl in Hno. }
    pose proof (free_slot_iff sentry t Hd) as Hfree. destruct f as [f|].
    + destruct Hf as (n & slot & -> & Hn & Hu). cbn.
      assert (sentry slot = None) by (unfold sentry; by rewrite Hu).
      split_and!; [done | apply Hfree; eauto | eauto].
    + split; [done|]. rewrite <- Hfree. intros (i & slot & Hi & Hk). specialize (Hf i slot Hi).
      unfold sentry in Hk. by rewrite Hf in Hk.
Qed.

(** ** Properties *)

(** For identifiers that fit, advancing an epoch refines the map update:
    while there is room the scope's epoch (absent is 0) goes up by one modulo
    2^64, every other scope keeps its epoch, and the new value is returned;
    with the table full and the scope absent the call returns 0 and changes
    nothing. *)
Theorem knowledge_advance_refines cb t d s reason e t' evs : wf_table t -> fits d s ->
  ti_knowledge_epoch_advance cb t (Some d) (Some s) reason = (e, t', evs) ->
  if decide (room t (d, s))
  then e = u64 (default 0 (epochs t !! (d, s)) + 1) /\ epochs t' = <[(d, s) := e]> (epochs t)
       /\ wf_table t'
  else e = 0 /\ t' = t.
Proof. apply advance_spec. Qed.

(** A knowledge basis is CURRENT exactly as long as its scope is not
    invalidated: after any sequence of fewer than 2^64 invalidations that the
    table has room for, a basis taken before it is CURRENT iff its scope is
    not among the invalidated ones, and STALE otherwise. *)
Theorem knowledge_basis_fresh_iff cb t ks d s : wf_table t -> fits d s ->
  Forall (fun k => fits k.1 k.2) ks ->
  (size (dom (epochs t) ∪ list_to_set ks : gset (bytes * bytes)) <= TI_KNOWLEDGE_SLOTS)%nat ->
  Z.of_nat (length ks) < 2 ^ 64 ->
  let basis := {| b_domain := d; b_scope_id := s;
                  b_epoch := ti_knowledge_epoch_current t (Some d) (Some s) |} in
  ti_knowledge_basis_freshness (advances cb t ks) basis =
  if decide ((d, s) ∈ ks) then TI_FRESHNESS_STALE else TI_FRESHNESS_CURRENT.
Proof.
  intros Hwf Hfit Hks Hsz Hlen basis. pose proof Hfit as [Hfd Hfs].
  destruct (advances_spec cb t ks Hwf Hks Hsz) as [(_ & Hd' & _) He].
  unfold ti_knowledge_basis_freshness. cbn [b_domain b_scope_id b_epoch basis].
  rewrite !absent_false by lia. cbn [orb]. destruct Hwf as (Hl & Hd & Hr).
  rewrite !current_spec by done. fold (epoch_of t (d, s)). fold (epoch_of (advances cb t ks) (d, s)).
  rewrite He. pose proof (epoch_of_range t (d, s) ltac:(done)) as Hrange.
  assert (0 <= Z.of_nat (count (d, s) ks) < 2 ^ 64) as Hc.
  { unfold count. pose proof (length_filter (fun x => x = (d, s)) ks). lia. }
  destruct (decide ((d, s) ∈ ks)) as [Hin|Hno].
  - assert (count (d, s) ks <> 0)%nat.
    { unfold count. intros E0. apply length_zero_iff_nil in E0.
      assert ((d, s) ∈ filter (fun x => x = (d, s)) ks) as Hf by (by apply list_elem_of_filter).
      rewrite E0 in Hf. by apply not_elem_of_nil in Hf. }
    destruct (Z.eqb_spec (u64 (epoch_of t (d, s) + Z.of_nat (count (d, s) ks))) (epoch_of t (d, s))) as [E|];
      [|done]. unfold u64 in E. exfalso. dm_lia.
  - assert (count (d, s) ks = 0%nat) as ->.
    { unfold count. destruct (filter _ ks) as [|x l] eqn:Ef; [done|].
      assert (x ∈ filter (fun x => x = (d, s)) ks) as Hx by (rewrite Ef; left).
      apply list_elem_of_filter in Hx as [-> Hx]. done. }
    rewrite Z.add_0_r, u64_small by done. by rewrite Z.eqb_refl.
Qed.

(** Observing an epoch for a session refines the map update: a first
    observation is UNKNOWN and is recorded while there is room; later ones
    report the epoch observed before, CURRENT iff it is the same, and record
    the new one. *)
Theorem session_observe_refines t id cur v prev t' : wf_sessions t ->
  (0 < length id < TurnState.TI_ID_MAX)%nat ->
  ti_session_knowledge_observe t (Some id) cur = (v, prev, t') ->
  match observed t !! id with
  | Some p => prev = p /\ observed t' = <[id := cur]> (observed t) /\ wf_sessions t'
      /\ v = if p =? cur then TI_FRESHNESS_CURRENT else TI_FRESHNESS_STALE
  | None => v = TI_FRESHNESS_UNKNOWN /\ prev = 0 /\
      if decide (size (observed t) < TI_SESSION_SLOTS)%nat
      then observed t' = <[id := cur]> (observed t) /\ wf_sessions t'
      else t' = t
  end.
Proof.
  intros (Hlen & Hd) Hid. unfold ti_session_knowledge_observe. rewrite absent_false by lia.
  change (default [] (Some id)) with id. cbv zeta. pose proof (session_find_spec t id Hd) as F. rewrite Hlen in F.
  destruct (slot_scan _ _ _ _ _) as [[i|] f]; [|destruct f as [f|]].
  - destruct F as (slot & Hi & Hk & ->). rewrite Hi. intros [= <- <- <-].
    assert (sentry {| s_session_id := s_session_id slot; s_epoch := cur; s_in_use := s_in_use slot |}
      = Some (id, cur)) as Hk'.
    { unfold sentry in *. cbn. destruct (s_in_use slot); [|done]. by injection Hk as ->. }
    destruct (abs_update sentry t i slot _ id _ _ Hd Hi Hk Hk') as [D E].
    split_and!; [done..| |done]. split; [by rewrite length_insert | done].
  - destruct F as (Hl & Hs & slot & Hi & Hk). rewrite Hl, decide_True by done. intros [= <- <- <-].
    rewrite snprintf_s_fits by lia.
    destruct (abs_fresh sentry t f slot {| s_session_id := id; s_epoch := cur; s_in_use := true |}
      id cur Hd Hi Hk Hl eq_refl) as [D E].
    split_and!; [done..|]. split; [by rewrite length_insert | done].
  - destruct F as (Hl & Hs). rewrite Hl, decide_False by done. by intros [= <- <- <-].
Qed.

(** ** Samples *)

Definition empty_table : list ti_knowledge_slot_t := ti_knowledge_reset_for_test.1.

Lemma empty_epochs : epochs empty_table = ∅.
Proof. by vm_compute. Qed.

Lemma empty_knowledge_wf : wf_table empty_table.
Proof.
  split_and!; [done | |].
  - unfold distinct. replace (used kentry empty_table) with (@nil (bytes * bytes * Z)) by done. constructor.
  - rewrite empty_epochs. apply map_Forall_empty.
Qed.

Lemma knowledge_advance_refines_witness :
  let r := ti_knowledge_epoch_advance true empty_table (Some (str "repo")) (Some (str "s1")) None in
  room empty_table (str "repo", str "s1") /\ r.1.1 = 1
  /\ epochs r.1.2 = {[ (str "repo", str "s1") := 1 ]}.
Proof.
  intros r.
  assert (room empty_table (str "repo", str "s1")) as Hroom
    by (right; rewrite empty_epochs, map_size_empty; unfold TI_KNOWLEDGE_SLOTS; lia).
  assert (fits (str "repo") (str "s1")) as Hfits by (unfold fits, TI_DOMAIN_MAX, TI_SCOPE_MAX; cbn; lia).
  pose proof (knowledge_advance_refines true empty_table (str "repo") (str "s1") None r.1.1 r.1.2 r.2
    empty_knowledge_wf Hfits (TurnState.surjective_pairing_3 r)) as H.
  rewrite decide_True in H by exact Hroom. destruct H as (He & Ht & _).
  split; [exact Hroom|]. rewrite empty_epochs in He, Ht. split; [exact He|].
  rewrite Ht, He. reflexivity.
Defined.

Lemma knowledge_basis_fresh_iff_witness :
  let basis := {| b_domain := str "repo"; b_scope_id := str "s1";
                  b_epoch := ti_knowledge_epoch_current empty_table (Some (str "repo")) (Some (str "s1")) |} in
  ti_knowledge_basis_freshness (advances true empty_table [(str "repo", str "s2")]) basis
    = TI_FRESHNESS_CURRENT
  /\ ti_knowledge_basis_freshness (advances true empty_table [(str "repo", str "s1")]) basis
    = TI_FRESHNESS_STALE.
Proof.
  intros basis.
  assert (fits (str "repo") (str "s1")) as H1 by (unfold fits, TI_DOMAIN_MAX, TI_SCOPE_MAX; cbn; lia).
  assert (fits (str "repo") (str "s2")) as H2 by (unfold fits, TI_DOMAIN_MAX, TI_SCOPE_MAX; cbn; lia).
  assert (forall k : bytes * bytes,
    (size (dom (epochs empty_table) ∪ list_to_set [k] : gset (bytes * bytes)) <= TI_KNOWLEDGE_SLOTS)%nat) as Hsz.
  { intros k. rewrite empty_epochs, dom_empty_L, union_empty_l_L. cbn [list_to_set].
    rewrite union_empty_r_L, size_singleton. unfold TI_KNOWLEDGE_SLOTS. lia. }
  split.
  - apply (knowledge_basis_fresh_iff true empty_table [(str "repo", str "s2")] (str "repo") (str "s1")
      empty_knowledge_wf H1); [by apply Forall_singleton | apply Hsz | reflexivity].
  - apply (knowledge_basis_fresh_iff true empty_table [(str "repo", str "s1")] (str "repo") (str "s1")
      empty_knowledge_wf H1); [by apply Forall_singleton | apply Hsz | reflexivity].
Defined.

Lemma session_observe_refines_witness :
  let r := ti_session_knowledge_observe ti_knowledge_reset_for_test.2 (Some (str "sess")) 7 in
  r.1.1 = TI_FRESHNESS_UNKNOWN /\ r.1.2 = 0.
Proof.
  intros r.
  assert (wf_sessions ti_knowledge_reset_for_test.2) as Hwf.
  { split; [done|]. unfold distinct.
    replace (used sentry ti_knowledge_reset_for_test.2) with (@nil (bytes * Z)) by done. constructor. }
  assert (observed ti_knowledge_reset_for_test.2 !! str "sess" = None) as Hnone by (vm_compute; reflexivity).
  pose proof (session_observe_refines ti_knowledge_reset_for_test.2 (str "sess") 7 r.1.1 r.1.2 r.2 Hwf
    ltac:(unfold TurnState.TI_ID_MAX; cbn; lia) (TurnState.surjective_pairing_3 r)) as H.
  rewrite Hnone in H. destruct H as (Hv & Hp & _). split; [exact Hv | exact Hp].
Defined.

(** A domain of 50 bytes is stored cut to 47 and compared whole: each
    invalidation claims a new slot and returns epoch 1, the scope's epoch
    reads 0 throughout, and a basis taken before stays CURRENT. *)
Example long_domain_never_stale :
  let d := replicate 50 97 in
  let t0 := empty_table in
  let a := ti_knowledge_epoch_advance false t0 (Some d) (Some (str "s")) None in
  let b := ti_knowledge_epoch_advance false a.1.2 (Some d) (Some (str "s")) None in
  a.1.1 = 1 /\ b.1.1 = 1 /\ length (used kentry b.1.2) = 2%nat
  /\ ti_knowledge_epoch_current b.1.2 (Some d) (Some (str "s")) = 0.
Proof. by vm_compute. Qed.

End TurnKnowledge.
