(* ===== verification/TurnEffect.v ===== *)
(** * Effect contracts ([src/src/core/turn_integrity/turn_integrity.c], third part)

    A proposal binds a tool, a target and its arguments (as digests) before
    the call; validation compares the call about to happen with it; the
    contract then executes and finishes.  Operations return the C return
    value, the contract afterwards and the events.  [run] is reachability over
    arbitrary call sequences; [req] records whether a postcondition was ever
    accepted as required.  Shown: a contract never succeeds without its
    required postcondition; terminal contracts absorb every call; validation
    says 1 exactly for the proposed call with its authorization. *)

From Stdlib Require Import ZArith Lia String Ascii.
From stdpp Require Import base numbers option list.
From S2P Require Import Prelude.
From S2P Require Import Wire.
From S2P Require Import Digest.
From S2P Require Import TurnState.

Module TurnEffect.

Definition TI_TOOL_MAX : nat := 96.

Inductive ti_effect_class_t :=
| TI_EFFECT_READ_ONLY
| TI_EFFECT_REVERSIBLE
| TI_EFFECT_CONDITIONALLY_REVERSIBLE
| TI_EFFECT_IRREVERSIBLE
| TI_EFFECT_EXTERNAL_COMMUNICATION
| TI_EFFECT_UNCLASSIFIED.

#[global] Instance ti_effect_class_eq_dec : EqDecision ti_effect_class_t.
Proof. solve_decision. Defined.

Definition TI_EFFECT_MODE_OFF : Z := 0.
Definition TI_EFFECT_MODE_SHADOW : Z := 1.
Definition TI_EFFECT_MODE_ENFORCE : Z := 2.

Inductive ti_effect_state_t :=
| TI_EFFECT_PROPOSED
| TI_EFFECT_VALIDATED
| TI_EFFECT_EXECUTING
| TI_EFFECT_SUCCEEDED
| TI_EFFECT_FAILED
| TI_EFFECT_UNKNOWN_OUTCOME
| TI_EFFECT_REFUSED.

#[global] Instance ti_effect_state_eq_dec : EqDecision ti_effect_state_t.
Proof. solve_decision. Defined.

Inductive ti_postcondition_state_t :=
| TI_POSTCONDITION_NONE
| TI_POSTCONDITION_PENDING
| TI_POSTCONDITION_PASSED
| TI_POSTCONDITION_FAILED.

#[global] Instance ti_postcondition_eq_dec : EqDecision ti_postcondition_state_t.
Proof. solve_decision. Defined.

Definition TI_IDEMPOTENCY_UNKNOWN : Z := 0.
Definition TI_NON_IDEMPOTENT : Z := 2.

Record ti_effect_contract_t := {
  contract_id : bytes;
  session_id : bytes;
  tool : bytes;
  target_digest : bytes;
  arguments_digest : bytes;
  effect_class : ti_effect_class_t;
  mode : Z;
  state : ti_effect_state_t;
  postcondition : ti_postcondition_state_t;
  idempotency : Z;
  matched : bool;
  authorization_required : bool;
  authorized : bool;
  sequence : Z
}.

Definition ti_effect_class_name (c : ti_effect_class_t) : bytes :=
  match c with
  | TI_EFFECT_READ_ONLY => str "read_only"
  | TI_EFFECT_REVERSIBLE => str "reversible"
  | TI_EFFECT_CONDITIONALLY_REVERSIBLE => str "conditionally_reversible"
  | TI_EFFECT_IRREVERSIBLE => str "irreversible"
  | TI_EFFECT_EXTERNAL_COMMUNICATION => str "external_communication"
  | TI_EFFECT_UNCLASSIFIED => str "unclassified"
  end.

Definition ti_effect_state_name (s : ti_effect_state_t) : bytes :=
  match s with
  | TI_EFFECT_PROPOSED => str "proposed"
  | TI_EFFECT_VALIDATED => str "validated"
  | TI_EFFECT_EXECUTING => str "executing"
  | TI_EFFECT_SUCCEEDED => str "succeeded"
  | TI_EFFECT_FAILED => str "failed"
  | TI_EFFECT_UNKNOWN_OUTCOME => str "unknown_outcome"
  | TI_EFFECT_REFUSED => str "refused"
  end.

Definition flag (b : bool) : bytes := if b then str "1" else str "0".

(** The turn state an effect event carries. *)
Definition event_state (s : ti_effect_state_t) : TurnState.ti_turn_state_t :=
  match s with
  | TI_EFFECT_PROPOSED => TurnState.TI_TURN_CONTRACTED
  | TI_EFFECT_VALIDATED => TurnState.TI_TURN_AUTHORIZED
  | TI_EFFECT_EXECUTING => TurnState.TI_TURN_EXECUTING
  | TI_EFFECT_SUCCEEDED => TurnState.TI_TURN_COMPLETED
  | TI_EFFECT_REFUSED => TurnState.TI_TURN_BLOCKED
  | _ => TurnState.TI_TURN_FAILED
  end.

Definition emit_effect (cb : bool) (c : ti_effect_contract_t) (event_name : bytes)
    (reason_code : option bytes) : list TurnState.ti_event_t :=
  if negb cb then []
  else [{| TurnState.ev_event := TurnState.copy_bounded TurnState.TI_EVENT_MAX (Some event_name);
           TurnState.ev_turn_id := TurnState.copy_bounded TurnState.TI_ID_MAX (Some (contract_id c));
           TurnState.ev_session_id := TurnState.copy_bounded TurnState.TI_ID_MAX (Some (session_id c));
           TurnState.ev_principal := TurnState.copy_bounded TurnState.TI_PRINCIPAL_MAX (Some (tool c));
           TurnState.ev_detail := snprintf_s TurnState.TI_DETAIL_MAX
             (str "class=" ++ ti_effect_class_name (effect_class c)
              ++ str " state=" ++ ti_effect_state_name (state c)
              ++ str " matched=" ++ flag (matched c) ++ str " authorized=" ++ flag (authorized c)
              ++ str " target=" ++ target_digest c ++ str " arguments=" ++ arguments_digest c
              ++ str " reason=" ++ take 24 (default [] reason_code));
           TurnState.ev_state := event_state (state c);
           TurnState.ev_sequence := sequence c |}].

(** The event is sent unless the mode is OFF. *)
Definition announce (cb : bool) (c : ti_effect_contract_t) (name : bytes) (reason : option bytes)
    : list TurnState.ti_event_t :=
  if negb (mode c =? TI_EFFECT_MODE_OFF) then emit_effect cb c name reason else [].

(** [contract->state = s; contract->sequence++]. *)
Definition set_state (c : ti_effect_contract_t) (s : ti_effect_state_t) : ti_effect_contract_t :=
  {| contract_id := contract_id c; session_id := session_id c; tool := tool c;
     target_digest := target_digest c; arguments_digest := arguments_digest c;
     effect_class := effect_class c; mode := mode c; state := s;
     postcondition := postcondition c; idempotency := idempotency c; matched := matched c;
     authorization_required := authorization_required c; authorized := authorized c;
     sequence := u64 (sequence c + 1) |}.

Definition set_matched (c : ti_effect_contract_t) (m : bool) : ti_effect_contract_t :=
  {| contract_id := contract_id c; session_id := session_id c; tool := tool c;
     target_digest := target_digest c; arguments_digest := arguments_digest c;
     effect_class := effect_class c; mode := mode c; state := state c;
     postcondition := postcondition c; idempotency := idempotency c; matched := m;
     authorization_required := authorization_required c; authorized := authorized c;
     sequence := sequence c |}.

Definition set_postcondition (c : ti_effect_contract_t) (p : ti_postcondition_state_t) (seq : Z)
    : ti_effect_contract_t :=
  {| contract_id := contract_id c; session_id := session_id c; tool := tool c;
     target_digest := target_digest c; arguments_digest := arguments_digest c;
     effect_class := effect_class c; mode := mode c; state := state c;
     postcondition := p; idempotency := idempotency c; matched := matched c;
     authorization_required := authorization_required c; authorized := authorized c;
     sequence := seq |}.

Definition state_is (c : ti_effect_contract_t) (s : ti_effect_state_t) : bool :=
  bool_decide (state c = s).

Section effect.
Context `{Sha256}.

Definition effect_digest (value : option bytes) : option bytes :=
  aimee_sha256_hex (Some (default [] value)).

(** [counter] is [g_effect_sequence]; the result has its value afterwards. *)
Definition ti_effect_contract_init (cb : bool) (counter : Z) (c0 : ti_effect_contract_t)
    (sid tl target arguments_json : option bytes) (cls : ti_effect_class_t) (md : Z)
    : Z * ti_effect_contract_t * Z * list TurnState.ti_event_t :=
  if bool_decide (default [] tl = []) || (md <? TI_EFFECT_MODE_OFF) || (TI_EFFECT_MODE_ENFORCE <? md)
  then (-1, c0, counter, [])
  else
    let seq := counter in
    let counter := u64 (counter + 1) in
    let blank :=
      {| contract_id := snprintf_s TurnState.TI_ID_MAX (str "effect-" ++ dec_u64 seq);
         session_id := TurnState.copy_bounded TurnState.TI_ID_MAX sid;
         tool := TurnState.copy_bounded TI_TOOL_MAX tl;
         target_digest := []; arguments_digest := []; effect_class := TI_EFFECT_READ_ONLY;
         mode := 0; state := TI_EFFECT_PROPOSED; postcondition := TI_POSTCONDITION_NONE;
         idempotency := 0; matched := false; authorization_required := false;
         authorized := false; sequence := seq |} in
    match effect_digest target, effect_digest arguments_json with
    | Some td, Some ad =>
        let c :=
          {| contract_id := contract_id blank; session_id := session_id blank; tool := tool blank;
             target_digest := td; arguments_digest := ad; effect_class := cls; mode := md;
             state := TI_EFFECT_PROPOSED; postcondition := TI_POSTCONDITION_NONE;
             idempotency := TI_IDEMPOTENCY_UNKNOWN; matched := true;
             authorization_required := false; authorized := false; sequence := seq |} in
        (0, c, counter, announce cb c (str "effect.proposed") (Some []))
    | _, _ => (-1, blank, counter, [])
    end.

Definition ti_effect_contract_validate (cb : bool) (c : ti_effect_contract_t)
    (tl target arguments_json : option bytes) (cls : ti_effect_class_t)
    : Z * ti_effect_contract_t * list TurnState.ti_event_t :=
  match tl with
  | None => (-1, c, [])
  | Some tl =>
      if negb (state_is c TI_EFFECT_PROPOSED) then (-1, c, [])
      else
        match effect_digest target, effect_digest arguments_json with
        | Some td, Some ad =>
            let m := bytes_eqb (tool c) tl && bytes_eqb (target_digest c) td
                     && bytes_eqb (arguments_digest c) ad && bool_decide (effect_class c = cls)
                     && (negb (authorization_required c) || authorized c) in
            let c := set_state (set_matched c m) TI_EFFECT_VALIDATED in
            (if m then 1 else 0, c,
             announce cb c (if m then str "effect.validated" else str "effect.mismatch")
               (Some (if m then [] else str "proposal_drift")))
        | _, _ => (-1, c, [])
        end
  end.

Definition ti_effect_contract_set_authorization (c : ti_effect_contract_t) (required auth : Z)
    : Z * ti_effect_contract_t :=
  if negb (state_is c TI_EFFECT_PROPOSED) then (-1, c)
  else (0, {| contract_id := contract_id c; session_id := session_id c; tool := tool c;
              target_digest := target_digest c; arguments_digest := arguments_digest c;
              effect_class := effect_class c; mode := mode c; state := state c;
              postcondition := postcondition c; idempotency := idempotency c;
              matched := matched c; authorization_required := negb (required =? 0);
              authorized := negb (auth =? 0); sequence := sequence c |}).

Definition ti_effect_contract_set_idempotency (c : ti_effect_contract_t) (i : Z)
    : Z * ti_effect_contract_t :=
  if negb (state_is c TI_EFFECT_PROPOSED) || (i <? TI_IDEMPOTENCY_UNKNOWN) || (TI_NON_IDEMPOTENT <? i)
  then (-1, c)
  else (0, {| contract_id := contract_id c; session_id := session_id c; tool := tool c;
              target_digest := target_digest c; arguments_digest := arguments_digest c;
              effect_class := effect_class c; mode := mode c; state := state c;
              postcondition := postcondition c; idempotency := i;
              matched := matched c; authorization_required := authorization_required c;
              authorized := authorized c; sequence := sequence c |}).

Definition ti_effect_contract_mark_executing (cb : bool) (c : ti_effect_contract_t)
    : Z * ti_effect_contract_t * list TurnState.ti_event_t :=
  if negb (state_is c TI_EFFECT_VALIDATED) then (-1, c, [])
  else
    let c := set_state c TI_EFFECT_EXECUTING in
    (0, c, announce cb c (str "effect.executing") (Some [])).

Definition ti_effect_contract_require_postcondition (c : ti_effect_contract_t)
    : Z * ti_effect_contract_t :=
  if negb (state_is c TI_EFFECT_PROPOSED) && negb (state_is c TI_EFFECT_VALIDATED) then (-1, c)
  else (0, set_postcondition c TI_POSTCONDITION_PENDING (sequence c)).

Definition ti_effect_contract_record_postcondition (cb : bool) (c : ti_effect_contract_t)
    (passed : Z) (descriptor : option bytes)
    : Z * ti_effect_contract_t * list TurnState.ti_event_t :=
  if negb (state_is c TI_EFFECT_EXECUTING)
     || negb (bool_decide (postcondition c = TI_POSTCONDITION_PENDING)) then (-1, c, [])
  else
    let c := set_postcondition c
               (if passed =? 0 then TI_POSTCONDITION_FAILED else TI_POSTCONDITION_PASSED)
               (u64 (sequence c + 1)) in
    (0, c, announce cb c (str "effect.postcondition") descriptor).

(** The four outcomes [ti_effect_contract_finish] accepts. *)
Definition terminal (s : ti_effect_state_t) : bool :=
  match s with
  | TI_EFFECT_SUCCEEDED | TI_EFFECT_FAILED | TI_EFFECT_UNKNOWN_OUTCOME | TI_EFFECT_REFUSED => true
  | _ => false
  end.

Definition ti_effect_contract_finish (cb : bool) (c : ti_effect_contract_t)
    (outcome : ti_effect_state_t) (reason_code : option bytes)
    : Z * ti_effect_contract_t * list TurnState.ti_event_t :=
  if (negb (state_is c TI_EFFECT_PROPOSED) && negb (state_is c TI_EFFECT_VALIDATED)
      && negb (state_is c TI_EFFECT_EXECUTING)) || negb (terminal outcome) then (-1, c, [])
  else if bool_decide (outcome = TI_EFFECT_SUCCEEDED)
          && bool_decide (postcondition c = TI_POSTCONDITION_PENDING) then (-1, c, [])
  else if bool_decide (outcome = TI_EFFECT_SUCCEEDED)
          && bool_decide (postcondition c = TI_POSTCONDITION_FAILED) then (-1, c, [])
  else
    let c := set_state c outcome in
    (0, c, announce cb c (str "effect.completed") reason_code).

(** ** Call sequences *)

Inductive call :=
| CValidate (tl target arguments : option bytes) (cls : ti_effect_class_t)
| CAuthorize (required auth : Z)
| CIdempotency (i : Z)
| CExecute
| CRequire
| CRecord (passed : Z) (descriptor : option bytes)
| CFinish (outcome : ti_effect_state_t) (reason : option bytes).

(** The return value and the contract after one call. *)
Definition apply_call (cb : bool) (c : ti_effect_contract_t) (k : call) : Z * ti_effect_contract_t :=
  match k with
  | CValidate tl target arguments cls => (ti_effect_contract_validate cb c tl target arguments cls).1
  | CAuthorize required auth => ti_effect_contract_set_authorization c required auth
  | CIdempotency i => ti_effect_contract_set_idempotency c i
  | CExecute => (ti_effect_contract_mark_executing cb c).1
  | CRequire => ti_effect_contract_require_postcondition c
  | CRecord passed descriptor => (ti_effect_contract_record_postcondition cb c passed descriptor).1
  | CFinish outcome reason => (ti_effect_contract_finish cb c outcome reason).1
  end.

(** [run cb c req]: a sequence of calls on a fresh contract ended in [c], and
    [req] says whether a postcondition was accepted as required on the way. *)
Inductive run (cb : bool) : ti_effect_contract_t -> bool -> Prop :=
| run_init counter c0 sid tl target args cls md c counter' evs :
    ti_effect_contract_init cb counter c0 sid tl target args cls md = (0, c, counter', evs) ->
    run cb c false
| run_call c req k rc c' :
    run cb c req -> apply_call cb c k = (rc, c') ->
    run cb c' (req || match k with CRequire => rc =? 0 | _ => false end).

(** A terminal contract refuses every call. *)
Lemma terminal_call cb c k : terminal (state c) = true -> apply_call cb c k = (-1, c).
Proof.
  intros Ht. assert (state_is c TI_EFFECT_PROPOSED = false /\ state_is c TI_EFFECT_VALIDATED = false
    /\ state_is c TI_EFFECT_EXECUTING = false) as (E1 & E2 & E3)
    by (unfold state_is; by destruct (state c)).
  destruct k as [tl| | | | | |]; cbn [apply_call];
    unfold ti_effect_contract_validate, ti_effect_contract_set_authorization,
      ti_effect_contract_set_idempotency, ti_effect_contract_mark_executing,
      ti_effect_contract_require_postcondition, ti_effect_contract_record_postcondition,
      ti_effect_contract_finish; rewrite ?E1, ?E2, ?E3; cbn [negb andb orb]; try done.
  by destruct tl.
Qed.

Definition authorized_if_required (c : ti_effect_contract_t) : bool :=
  negb (authorization_required c) || authorized c.

(** A list of calls, and the requirement flag after it. *)
Fixpoint req_after (cb : bool) (c : ti_effect_contract_t) (req : bool) (ks : list call) : bool :=
  match ks with
  | [] => req
  | k :: ks =>
      req_after cb (apply_call cb c k).2
        (req || match k with CRequire => (apply_call cb c k).1 =? 0 | _ => false end) ks
  end.

Lemma run_calls cb c req ks : run cb c req ->
  run cb (fold_left (fun c k => (apply_call cb c k).2) ks c) (req_after cb c req ks).
Proof.
  revert c req. induction ks as [|k ks IH]; intros c req R; cbn; [done|].
  apply IH. apply (run_call cb c req k); [done|]. apply surjective_pairing.
Qed.

(** What holds of every reachable contract. *)
Record invariant (c : ti_effect_contract_t) (req : bool) : Prop := {
  inv_post : (postcondition c = TI_POSTCONDITION_NONE) <-> req = false;
  inv_early : state c = TI_EFFECT_PROPOSED \/ state c = TI_EFFECT_VALIDATED ->
    postcondition c = TI_POSTCONDITION_NONE \/ postcondition c = TI_POSTCONDITION_PENDING;
  inv_success : state c = TI_EFFECT_SUCCEEDED ->
    postcondition c <> TI_POSTCONDITION_PENDING /\ postcondition c <> TI_POSTCONDITION_FAILED;
  inv_auth : state c = TI_EFFECT_VALIDATED \/ state c = TI_EFFECT_EXECUTING ->
    matched c = true -> authorized_if_required c = true
}.

Lemma validate_cases cb c tl target args cls rc c' :
  apply_call cb c (CValidate tl target args cls) = (rc, c') ->
  (c' = c /\ rc = -1) \/ state c = TI_EFFECT_PROPOSED /\ exists m : bool,
    c' = set_state (set_matched c m) TI_EFFECT_VALIDATED /\ rc = (if m then 1 else 0)
    /\ (m = true -> authorized_if_required c = true).
Proof.
  cbn [apply_call]. unfold ti_effect_contract_validate, state_is. destruct tl as [tl|]; [|intros [= <- <-]; by left].
  case_bool_decide as Hs; cbn [negb]; [|intros [= <- <-]; by left].
  unfold effect_digest, aimee_sha256_hex, aimee_sha256_raw. cbn [mbind option_bind fst].
  intros E. right. split; [done|]. injection E as <- <-. eexists. split_and!; [done..|].
  intros E. apply andb_true_iff in E as [_ E]. exact E.
Qed.

(** The other calls: refused without change, or done under their guard. *)
Lemma call_cases cb c k rc c' : apply_call cb c k = (rc, c') ->
  (c' = c /\ rc = -1) \/
  match k with
  | CValidate _ _ _ _ => True
  | CAuthorize required auth => state c = TI_EFFECT_PROPOSED /\ state c' = state c
      /\ postcondition c' = postcondition c
  | CIdempotency _ => state c = TI_EFFECT_PROPOSED /\ state c' = state c
      /\ postcondition c' = postcondition c
  | CExecute => state c = TI_EFFECT_VALIDATED /\ c' = set_state c TI_EFFECT_EXECUTING
  | CRequire => (state c = TI_EFFECT_PROPOSED \/ state c = TI_EFFECT_VALIDATED) /\ rc = 0
      /\ c' = set_postcondition c TI_POSTCONDITION_PENDING (sequence c)
  | CRecord passed _ => state c = TI_EFFECT_EXECUTING /\ postcondition c = TI_POSTCONDITION_PENDING
      /\ exists p s, c' = set_postcondition c p s /\ p <> TI_POSTCONDITION_NONE
  | CFinish outcome _ => terminal outcome = true /\ c' = set_state c outcome
      /\ (outcome = TI_EFFECT_SUCCEEDED -> postcondition c <> TI_POSTCONDITION_PENDING
          /\ postcondition c <> TI_POSTCONDITION_FAILED)
  end.
Proof.
  destruct k; [by right|..]; cbn [apply_call];
    unfold ti_effect_contract_set_authorization, ti_effect_contract_set_idempotency,
      ti_effect_contract_mark_executing, ti_effect_contract_require_postcondition,
      ti_effect_contract_record_postcondition, ti_effect_contract_finish, state_is.
  - case_bool_decide; intros [= <- <-]; [right | left]; done.
  - destruct (_ || _) eqn:G; intros [= <- <-]; [by left | right]. bool_to_prop. by split_and!.
  - case_bool_decide; intros [= <- <-]; [right | left]; done.
  - repeat case_bool_decide; intros [= <- <-]; [right.. | left]; split_and!; auto.
  - repeat case_bool_decide; cbn [negb orb]; intros [= <- <-]; [right | left..]; try done.
    split_and!; [done..|]. eexists _, _. split; [done|]. by case_match.
  - destruct ((_ && _) || _) eqn:G; [intros [= <- <-]; by left|]. apply orb_false_iff in G as [_ G].
    apply negb_false_iff in G.
    destruct (bool_decide _ && _) eqn:G1 in |- *; [intros [= <- <-]; by left|].
    destruct (bool_decide (outcome = _) && bool_decide (postcondition c = TI_POSTCONDITION_FAILED)) eqn:G2;
      intros [= <- <-]; [by left | right]. split_and!; [done..|]. intros ->.
    rewrite bool_decide_true in G1, G2 by done. cbn [andb] in G1, G2. bool_to_prop. done.
Qed.

Lemma invariant_call cb c req k rc c' : invariant c req -> apply_call cb c k = (rc, c') ->
  invariant c' (req || match k with CRequire => rc =? 0 | _ => false end).
Proof.
  intros I E. pose proof (call_cases cb c k rc c' E) as [[-> ->]|C].
  { replace (match k with CRequire => -1 =? 0 | _ => false end) with false by (by destruct k).
    by rewrite orb_false_r. }
  destruct I as [I1 I2 I3 I4]. destruct k; rewrite ?orb_false_r.
  - apply validate_cases in E as [[-> ->]|(Hs & m & -> & -> & Hm)]; [done|].
    constructor; cbn; auto; done.
  - destruct C as (Hs & Hs' & Hp). constructor; rewrite ?Hs', ?Hp; auto. intros [?|?]; congruence.
  - destruct C as (Hs & Hs' & Hp). constructor; rewrite ?Hs', ?Hp; auto. intros [?|?]; congruence.
  - destruct C as (Hs & ->). constructor; cbn; auto; try (by intros []); done.
  - destruct C as (Hs & -> & ->). cbn [Z.eqb]. rewrite orb_true_r.
    constructor; cbn; auto; try done; intros E'; destruct Hs; congruence.
  - destruct C as (Hs & Hp & p & s & -> & Hn). constructor; cbn; auto; try (intros []; congruence); try congruence.
    rewrite Hp in I1. split; [done|]. intros E'. apply I1 in E'. done.
  - destruct C as (Ht & -> & Hsucc). constructor; cbn; auto; intros [E'|E']; by rewrite E' in Ht.
Qed.

Lemma run_invariant cb c req : run cb c req -> invariant c req.
Proof.
  induction 1 as [counter c0 sid tl target args cls md c counter' evs E | c req k rc c' R IH E].
  - unfold ti_effect_contract_init, effect_digest, aimee_sha256_hex, aimee_sha256_raw in E.
    destruct (_ || _); [done|]. cbn [mbind option_bind] in E.
    apply (f_equal (fun x => x.1.1.2)) in E. cbn in E. subst c.
    constructor; cbn; auto; try done; by intros [].
  - by eapply invariant_call.
Qed.

Lemma init_facts cb counter c0 sid tl target args cls md c counter' evs :
  ti_effect_contract_init cb counter c0 sid (Some tl) (Some target) (Some args) cls md
    = (0, c, counter', evs) ->
  state c = TI_EFFECT_PROPOSED /\ tool c = snprintf_s TI_TOOL_MAX tl
  /\ target_digest c = hex_bytes (sha256 target) /\ arguments_digest c = hex_bytes (sha256 args)
  /\ effect_class c = cls.
Proof.
  unfold ti_effect_contract_init, effect_digest, aimee_sha256_hex, aimee_sha256_raw. intros E.
  destruct (_ || _); [done|]. cbn [mbind option_bind] in E.
  apply (f_equal (fun x => x.1.1.2)) in E. cbn in E. by subst c.
Qed.

Lemma validate_rc cb c tl target args cls : state c = TI_EFFECT_PROPOSED ->
  (ti_effect_contract_validate cb c (Some tl) (Some target) (Some args) cls).1.1
  = if bytes_eqb (tool c) tl && bytes_eqb (target_digest c) (hex_bytes (sha256 target))
       && bytes_eqb (arguments_digest c) (hex_bytes (sha256 args)) && bool_decide (effect_class c = cls)
       && (negb (authorization_required c) || authorized c) then 1 else 0.
Proof.
  intros Hs. unfold ti_effect_contract_validate, state_is. rewrite bool_decide_true by done. reflexivity.
Qed.

(** ** Properties *)

(** C20: no success without the required postcondition: whatever calls were
    made, a contract that succeeded has its postcondition PASSED when one was
    ever accepted as required, and none otherwise. *)
Theorem effect_success_postcondition cb c req : run cb c req -> state c = TI_EFFECT_SUCCEEDED ->
  postcondition c = if req then TI_POSTCONDITION_PASSED else TI_POSTCONDITION_NONE.
Proof.
  intros R Hs. apply run_invariant in R as [I1 _ I3 _]. specialize (I3 Hs).
  destruct req; [|by apply I1]. destruct (postcondition c); try done; [|by destruct I3..].
  by destruct I1 as [I1 _]; specialize (I1 eq_refl).
Qed.

(** A contract that a call takes into execution was validated before, and
    if it matched its proposal then a required authorization was given before
    validation. *)
Theorem effect_executing_authorized cb c req : run cb c req -> state c = TI_EFFECT_EXECUTING ->
  matched c = true -> authorization_required c = true -> authorized c = true.
Proof.
  intros R Hs Hm Hr. apply run_invariant in R as [_ _ _ I4].
  specialize (I4 (or_intror Hs) Hm). unfold authorized_if_required in I4. by rewrite Hr in I4.
Qed.

(** Finished contracts absorb: no sequence of calls changes a contract that
    succeeded, failed, has an unknown outcome or was refused, and each of
    them returns -1. *)
Theorem effect_terminal_absorbing cb c ks : terminal (state c) = true ->
  fold_left (fun c k => (apply_call cb c k).2) ks c = c
  /\ Forall (fun k => (apply_call cb c k).1 = -1) ks.
Proof.
  intros Ht. split.
  - induction ks as [|k ks IH]; cbn; [done|]. by rewrite (terminal_call cb c k Ht).
  - apply Forall_forall. intros k _. by rewrite (terminal_call cb c k Ht).
Qed.

(** Validation accepts exactly the proposed call: for a tool name that fits
    its field, a contract proposed for one call and then given its
    authorization validates another call with 1 iff tool and class are the
    same, the target and argument digests are the same, and the authorization
    was given if required; equal digests mean equal texts or a SHA-256
    collision. *)
Theorem effect_validate_iff cb counter c0 sid tl target args cls md c counter' evs required auth
    tl' target' args' cls' :
  (length tl < TI_TOOL_MAX)%nat ->
  ti_effect_contract_init cb counter c0 sid (Some tl) (Some target) (Some args) cls md
    = (0, c, counter', evs) ->
  let c1 := (ti_effect_contract_set_authorization c required auth).2 in
  ((ti_effect_contract_validate cb c1 (Some tl') (Some target') (Some args') cls').1.1 = 1 <->
   tl' = tl /\ cls' = cls /\ sha256 target' = sha256 target /\ sha256 args' = sha256 args
   /\ (required = 0 \/ auth <> 0))
  /\ (sha256 target' = sha256 target -> target' = target \/ collides target' target)
  /\ (sha256 args' = sha256 args -> args' = args \/ collides args' args).
Proof.
  intros Hlen E c1.
  assert (forall x y, sha256 x = sha256 y -> x = y \/ collides x y) as Hcol.
  { intros x y Exy. destruct (decide (x = y)); [by left | by right]. }
  split; [|split; apply Hcol].
  destruct (init_facts _ _ _ _ _ _ _ _ _ _ _ _ E) as (Hs & Htl & Ht & Ha & Hc).
  unfold c1, ti_effect_contract_set_authorization, state_is. rewrite bool_decide_true by done.
  cbn [negb snd]. rewrite validate_rc by done.
  cbn [tool target_digest arguments_digest effect_class authorization_required authorized].
  rewrite Htl, Ht, Ha, Hc, snprintf_s_fits by done.
  assert (forall x y, hex_bytes (sha256 x) = hex_bytes (sha256 y) <-> sha256 y = sha256 x) as Hhex.
  { intros x y. split; [|by intros ->]. intros Ex. symmetry. apply hex_bytes_inj; [apply sha256_bytes..|done]. }
  match goal with |- (if ?m then _ else _) = 1 <-> ?R => cut (m = true <-> R) end.
  { intros Hm. rewrite <- Hm. case_match; split; done. }
  rewrite !andb_true_iff, !bytes_eqb_true, bool_decide_eq_true, !Hhex, orb_true_iff, negb_involutive,
    Z.eqb_eq, negb_true_iff, Z.eqb_neq. intuition congruence.
Qed.

End effect.

(** ** Samples *)

Definition blank : ti_effect_contract_t :=
  {| contract_id := []; session_id := []; tool := []; target_digest := []; arguments_digest := [];
     effect_class := TI_EFFECT_READ_ONLY; mode := 0; state := TI_EFFECT_PROPOSED;
     postcondition := TI_POSTCONDITION_NONE; idempotency := 0; matched := false;
     authorization_required := false; authorized := false; sequence := 0 |}.

Definition sample_init :=
  ti_effect_contract_init (H := toy) true 1 blank (Some (str "s1")) (Some (str "write_file"))
    (Some (str "a.txt")) (Some (str "{}")) TI_EFFECT_REVERSIBLE TI_EFFECT_MODE_ENFORCE.

Definition sample_calls : list call :=
  [CAuthorize 1 1; CRequire; CValidate (Some (str "write_file")) (Some (str "a.txt")) (Some (str "{}"))
     TI_EFFECT_REVERSIBLE; CExecute; CRecord 1 None; CFinish TI_EFFECT_SUCCEEDED None].

Definition after (n : nat) : ti_effect_contract_t :=
  fold_left (fun c k => (apply_call (H := toy) true c k).2) (take n sample_calls) sample_init.1.1.2.

Lemma sample_runs n : run (H := toy) true (after n)
  (req_after (H := toy) true sample_init.1.1.2 false (take n sample_calls)).
Proof.
  apply run_calls.
  apply (run_init (H := toy) true 1 blank (Some (str "s1")) (Some (str "write_file"))
      (Some (str "a.txt")) (Some (str "{}")) TI_EFFECT_REVERSIBLE TI_EFFECT_MODE_ENFORCE
      _ sample_init.1.2 sample_init.2). reflexivity.
Qed.

Lemma effect_success_postcondition_witness :
  state (after 6) = TI_EFFECT_SUCCEEDED /\ postcondition (after 6) = TI_POSTCONDITION_PASSED.
Proof.
  assert (state (after 6) = TI_EFFECT_SUCCEEDED) as Hs by (vm_compute; reflexivity).
  split; [exact Hs|].
  pose proof (effect_success_postcondition (H := toy) true (after 6) _ (sample_runs 6) Hs) as Hp.
  assert (req_after (H := toy) true sample_init.1.1.2 false (take 6 sample_calls) = true) as Hr
    by (vm_compute; reflexivity).
  rewrite Hr in Hp. exact Hp.
Defined.

Lemma effect_executing_authorized_witness :
  state (after 4) = TI_EFFECT_EXECUTING /\ authorized (after 4) = true.
Proof.
  assert (state (after 4) = TI_EFFECT_EXECUTING) as Hs by (vm_compute; reflexivity).
  split; [exact Hs|].
  apply (effect_executing_authorized (H := toy) true (after 4) _ (sample_runs 4) Hs);
    vm_compute; reflexivity.
Defined.

Lemma effect_terminal_absorbing_witness :
  terminal (state (after 6)) = true /\
  fold_left (fun c k => (apply_call (H := toy) true c k).2) [CExecute; CAuthorize 1 1] (after 6) = after 6.
Proof.
  assert (terminal (state (after 6)) = true) as Ht by (vm_compute; reflexivity).
  split; [exact Ht|].
  exact (proj1 (effect_terminal_absorbing (H := toy) true (after 6) [CExecute; CAuthorize 1 1] Ht)).
Defined.

Lemma effect_validate_iff_witness :
  (ti_effect_contract_validate (H := toy) true
     (ti_effect_contract_set_authorization sample_init.1.1.2 1 1).2
     (Some (str "write_file")) (Some (str "a.txt")) (Some (str "{}")) TI_EFFECT_REVERSIBLE).1.1 = 1.
Proof.
  assert ((length (str "write_file") < TI_TOOL_MAX)%nat) as Hl by (apply Nat.ltb_lt; reflexivity).
  assert (sample_init = (0, sample_init.1.1.2, sample_init.1.2, sample_init.2)) as E by reflexivity.
  apply (effect_validate_iff (H := toy) true 1 blank (Some (str "s1")) (str "write_file") (str "a.txt")
    (str "{}") TI_EFFECT_REVERSIBLE TI_EFFECT_MODE_ENFORCE _ _ _ 1 1 (str "write_file") (str "a.txt")
    (str "{}") TI_EFFECT_REVERSIBLE Hl E).
  split_and!; try reflexivity. right. discriminate.
Defined.

End TurnEffect.
