(* ===== verification/LoginThrottle.v ===== *)
(** * Login throttle ([src/src/kb/kb_login_throttle.c])

    The brute-force throttle of the pre-authentication login routes: two
    tables of 1024 slots, probed at most eight slots from the key's home
    position.  A table is the list of its slots; times are the [int64_t]
    seconds of the code, kept in [Z] (the additions stay far below 2^63 for
    every real clock).  The abstract state is the map from key to record.
    Shown: a record that is still live is never displaced by another
    identity; charging and checking act on the identity's own record as the
    pure functions [charged] and [refreshed]; after five failures inside a
    window the identity is refused for the documented, exponentially growing
    time whatever the other callers do; every wait is between 1 and 900
    seconds. *)

From Stdlib Require Import ZArith Lia String Ascii.
From stdpp Require Import base numbers option list gmap fin_maps.
From S2P Require Import Prelude.
From S2P Require Import SlotTable.

Module LoginThrottle.

Definition SLOTS : Z := 1024.
Definition PROBE_LIMIT : nat := 8.
Definition KB_LOGIN_THROTTLE_BUDGET : Z := 5.
Definition KB_LOGIN_THROTTLE_WINDOW_SEC : Z := 900.
Definition KB_LOGIN_THROTTLE_BASE_LOCK_SEC : Z := 30.
Definition KB_LOGIN_THROTTLE_MAX_LOCK_SEC : Z := 900.

Record slot_t := {
  key : Z;
  window_start : Z;
  locked_until : Z;
  fails : Z
}.

Definition free_slot : slot_t := {| key := 0; window_start := 0; locked_until := 0; fails := 0 |}.

(** FNV-1a over the seed and the text, then the splitmix64 finalizer. *)
Definition fnv_step (h c : Z) : Z := u64 (Z.lxor h c * 1099511628211).

Definition hash_key (g_seed : Z) (prefix s : bytes) : Z :=
  let h := Z.lxor 1469598103934665603 g_seed in
  let h := fold_left fnv_step prefix h in
  let h := fold_left fnv_step s h in
  let h := Z.lxor h (Z.shiftr h 30) in
  let h := u64 (h * 0xbf58476d1ce4e5b9) in
  let h := Z.lxor h (Z.shiftr h 27) in
  let h := u64 (h * 0x94d049bb133111eb) in
  let h := Z.lxor h (Z.shiftr h 31) in
  if h =? 0 then 1 else h.

Definition expired (s : slot_t) (now : Z) : bool :=
  if now <? window_start s then true
  else (locked_until s <=? now) && (KB_LOGIN_THROTTLE_WINDOW_SEC <=? now - window_start s).

Definition clamp_retry (seconds : Z) : Z :=
  if seconds <? 1 then 1
  else if KB_LOGIN_THROTTLE_MAX_LOCK_SEC <? seconds then KB_LOGIN_THROTTLE_MAX_LOCK_SEC
  else seconds.

(** [(base + probe) % SLOTS]. *)
Definition probe_at (k : Z) (probe : nat) : nat :=
  Z.to_nat ((k mod SLOTS + Z.of_nat probe) mod SLOTS).

Definition slot_at (table : list slot_t) (i : nat) : slot_t := nth i table free_slot.

(** The probe loop: the slot of the key itself, or the first reusable one. *)
Fixpoint probe_loop (table : list slot_t) (k now : Z) (probes : list nat) (reusable : option nat)
    : nat + option nat :=
  match probes with
  | [] => inr reusable
  | p :: probes =>
      let i := probe_at k p in
      let s := slot_at table i in
      if key s =? k then inl i
      else
        let reusable :=
          match reusable with
          | None => if (key s =? 0) || expired s now then Some i else None
          | Some j => Some j
          end in
        probe_loop table k now probes reusable
  end.

Definition fresh (k now : Z) : slot_t :=
  {| key := k; window_start := now; locked_until := 0; fails := 0 |}.

Definition take_slot (table : list slot_t) (k now : Z) : option nat * list slot_t :=
  match probe_loop table k now (seq 0 PROBE_LIMIT) None with
  | inl i =>
      if now <? window_start (slot_at table i) then (Some i, <[i := fresh k now]> table)
      else (Some i, table)
  | inr (Some i) => (Some i, <[i := fresh k now]> table)
  | inr None => (None, table)
  end.

(** The longest remaining wait in the saturated probe set. *)
Definition saturated_retry (table : list slot_t) (k now : Z) : Z :=
  fold_left
    (fun retry probe =>
       let occ := slot_at table (probe_at k probe) in
       let until := if 0 <? locked_until occ then locked_until occ
                    else window_start occ + KB_LOGIN_THROTTLE_WINDOW_SEC in
       let candidate := clamp_retry (until - now) in
       if retry <? candidate then candidate else retry)
    (seq 0 PROBE_LIMIT) 1.

Definition check_one (table : list slot_t) (k now : Z) : Z * list slot_t :=
  match take_slot table k now with
  | (None, table) => (saturated_retry table k now, table)
  | (Some i, table) =>
      let s := slot_at table i in
      if now <? locked_until s then (clamp_retry (locked_until s - now), table)
      else if (now <? window_start s) || (KB_LOGIN_THROTTLE_WINDOW_SEC <=? now - window_start s)
      then (0, <[i := {| key := key s; window_start := now; locked_until := locked_until s;
                         fails := 0 |}]> table)
      else (0, table)
  end.

(** [for (i = 0; i < over && lock < MAX; ++i) lock *= 2;] *)
Fixpoint lock_loop (over : nat) (lock : Z) : Z :=
  match over with
  | O => lock
  | S over => if lock <? KB_LOGIN_THROTTLE_MAX_LOCK_SEC then lock_loop over (lock * 2) else lock
  end.

(** The length of the lock for a number of failures at or past the budget. *)
Definition lock_sec (f : Z) : Z :=
  let over := f - KB_LOGIN_THROTTLE_BUDGET in
  let over := if 20 <? over then 20 else over in
  let lock := lock_loop (Z.to_nat over) KB_LOGIN_THROTTLE_BASE_LOCK_SEC in
  if KB_LOGIN_THROTTLE_MAX_LOCK_SEC <? lock then KB_LOGIN_THROTTLE_MAX_LOCK_SEC else lock.

(** One failure charged to a record: a spent window restarts, the count goes
    up, and at the budget the lock is set. *)
Definition charged (s : slot_t) (now : Z) : slot_t :=
  let restart := ((now <? window_start s) || (KB_LOGIN_THROTTLE_WINDOW_SEC <=? now - window_start s))
                 && (locked_until s <=? now) in
  let ws := if restart then now else window_start s in
  let f := if restart then 0 else fails s in
  let f := if f <? 1000000 then f + 1 else f in
  {| key := key s; window_start := ws;
     locked_until := if KB_LOGIN_THROTTLE_BUDGET <=? f then now + lock_sec f else locked_until s;
     fails := f |}.

Definition fail_one (table : list slot_t) (k now : Z) : list slot_t :=
  match take_slot table k now with
  | (None, table) => table
  | (Some i, table) => <[i := charged (slot_at table i) now]> table
  end.

Fixpoint clear_loop (table : list slot_t) (k : Z) (probes : list nat) : list slot_t :=
  match probes with
  | [] => table
  | p :: probes =>
      let i := probe_at k p in
      if negb (key (slot_at table i) =? k) then clear_loop table k probes
      else <[i := free_slot]> table
  end.

Definition clear_one (table : list slot_t) (k : Z) : list slot_t :=
  clear_loop table k (seq 0 PROBE_LIMIT).

(** The throttle: both tables and the seed; the peer is the request's. *)
Record throttle := { g_peer : list slot_t; g_user : list slot_t; g_seed : Z }.

Definition peer_or_unknown (g_peer_ip : bytes) : bytes :=
  if bool_decide (g_peer_ip = []) then str "<unknown-peer>" else g_peer_ip.

(** [g_peer_ip] is a 64-byte buffer. *)
Definition kb_login_throttle_set_peer (peer_ip : option bytes) : bytes :=
  snprintf_s 64 (default [] peer_ip).

Definition sane_now (now : Z) : Z := if now <? 0 then 0 else now.

Definition peer_key (t : throttle) (ip : bytes) : Z := hash_key (g_seed t) (str "peer:") (peer_or_unknown ip).
Definition user_key (t : throttle) (username : option bytes) : Z :=
  hash_key (g_seed t) (str "user:") (default [] username).

Definition kb_login_throttle_check (t : throttle) (ip : bytes) (username : option bytes) (now : Z)
    : Z * throttle :=
  let now := sane_now now in
  let '(a, peers) := check_one (g_peer t) (peer_key t ip) now in
  let '(b, users) := check_one (g_user t) (user_key t username) now in
  (if b <? a then a else b, {| g_peer := peers; g_user := users; g_seed := g_seed t |}).

Definition kb_login_throttle_record_failure (t : throttle) (ip : bytes) (username : option bytes)
    (now : Z) : throttle :=
  let now := sane_now now in
  {| g_peer := fail_one (g_peer t) (peer_key t ip) now;
     g_user := fail_one (g_user t) (user_key t username) now; g_seed := g_seed t |}.

Definition kb_login_throttle_record_success (t : throttle) (ip : bytes) (username : option bytes)
    : throttle :=
  {| g_peer := clear_one (g_peer t) (peer_key t ip);
     g_user := clear_one (g_user t) (user_key t username); g_seed := g_seed t |}.

Definition kb_login_throttle_reset (t : throttle) : throttle :=
  {| g_peer := replicate 1024 free_slot; g_user := replicate 1024 free_slot; g_seed := g_seed t |}.

Definition kb_login_throttle_set_seed_for_test (t : throttle) (seed : Z) : throttle :=
  {| g_peer := replicate 1024 free_slot; g_user := replicate 1024 free_slot; g_seed := seed |}.

(** ** The abstract map *)

Definition entry (s : slot_t) : option (Z * slot_t) :=
  if key s =? 0 then None else Some (key s, s).

Abbreviation records := (abs entry).

Definition wf_table (t : list slot_t) : Prop :=
  length t = Z.to_nat SLOTS /\ distinct entry t
  /\ forall i s, t !! i = Some s -> key s <> 0 -> exists p, (p < PROBE_LIMIT)%nat /\ i = probe_at (key s) p.

Lemma entry_some s k r : entry s = Some (k, r) -> key s = k /\ r = s /\ k <> 0.
Proof. unfold entry. destruct (Z.eqb_spec (key s) 0); [done|]. intros [= <- <-]. done. Qed.

Lemma entry_key s : key s <> 0 -> entry s = Some (key s, s).
Proof. intros. unfold entry. by destruct (Z.eqb_spec (key s) 0). Qed.

Lemma records_key t k r : records t !! k = Some r -> key r = k /\ k <> 0.
Proof. intros E. apply abs_lookup_inv in E as (i & s & _ & E). apply entry_some in E as (<- & -> & ?). done. Qed.

Lemma probe_at_lt k p : (probe_at k p < Z.to_nat SLOTS)%nat.
Proof. unfold probe_at, SLOTS. pose proof (Z.mod_pos_bound (k mod 1024 + Z.of_nat p) 1024). lia. Qed.

Lemma slot_at_lookup t i : (i < length t)%nat -> t !! i = Some (slot_at t i).
Proof.
  intros Hi. unfold slot_at. destruct (lookup_lt_is_Some_2 t i Hi) as [s Hs].
  by rewrite (nth_lookup_Some _ _ _ _ Hs).
Qed.

Lemma slot_at_probe t k p : wf_table t -> t !! probe_at k p = Some (slot_at t (probe_at k p)).
Proof. intros (Hl & _). apply slot_at_lookup. rewrite Hl. apply probe_at_lt. Qed.

Lemma probe_loop_spec t k now ps reusable :
  match probe_loop t k now ps reusable with
  | inl i => exists p, p ∈ ps /\ i = probe_at k p /\ key (slot_at t i) = k
  | inr r => (forall p, p ∈ ps -> key (slot_at t (probe_at k p)) <> k)
      /\ match reusable with
         | Some j => r = Some j
         | None =>
             match r with
             | Some i => exists p, p ∈ ps /\ i = probe_at k p
                 /\ (key (slot_at t i) = 0 \/ expired (slot_at t i) now = true)
             | None => forall p, p ∈ ps -> key (slot_at t (probe_at k p)) <> 0
                 /\ expired (slot_at t (probe_at k p)) now = false
             end
         end
  end.
Proof.
  revert reusable. induction ps as [|p ps IH]; intros reusable; cbn [probe_loop].
  - split; [intros p Hp; by apply not_elem_of_nil in Hp|]. destruct reusable; [done|].
    intros p Hp; by apply not_elem_of_nil in Hp.
  - destruct (Z.eqb_spec (key (slot_at t (probe_at k p))) k) as [Ek|Ek].
    { exists p. split; [left | done]. }
    set (r0 := match reusable with None => _ | Some j => Some j end).
    specialize (IH r0). destruct (probe_loop t k now ps r0) as [i|r].
    + destruct IH as (q & Hq & Hi). exists q. split; [by right | done].
    + destruct IH as [IH1 IH2]. split.
      { intros q Hq. apply elem_of_cons in Hq as [->|Hq]; [done | by apply IH1]. }
      destruct reusable as [j|]; [exact IH2|]. unfold r0 in IH2.
      destruct (_ || _) eqn:G.
      * subst r. exists p. split_and!; [left | done |]. apply orb_true_iff in G as [G|G]; bool_to_prop; auto.
      * destruct r as [i|].
        -- destruct IH2 as (q & Hq & Hi). exists q. split; [by right | done].
        -- intros q Hq. apply elem_of_cons in Hq as [->|Hq]; [|by apply IH2]. by bool_to_prop.
Qed.

(** The eight probes find the record whenever the table has one. *)
Lemma missing_record t k : wf_table t ->
  (forall p, p ∈ seq 0 PROBE_LIMIT -> key (slot_at t (probe_at k p)) <> k) -> records t !! k = None.
Proof.
  intros Hwf Hno. apply abs_lookup_none. intros i s v Hi E. apply entry_some in E as (Hk & -> & Hnz).
  destruct Hwf as (Hl & _ & Hp). destruct (Hp i s Hi ltac:(by rewrite Hk)) as (p & Hlt & ->).
  apply (Hno p); [apply elem_of_seq; lia|]. rewrite Hk in Hi.
  unfold slot_at. by rewrite (nth_lookup_Some _ _ _ _ Hi).
Qed.

(** Overwriting the slot of a key with a record of the same key. *)
Lemma put_slot t i k r r' : wf_table t -> t !! i = Some r -> key r = k -> key r' = k -> k <> 0 ->
  wf_table (<[i := r']> t) /\ records (<[i := r']> t) = <[k := r']> (records t).
Proof.
  intros (Hl & Hd & Hp) Hi Hk Hk' Hnz.
  destruct (abs_update entry t i r r' k r r' Hd Hi) as [D E];
    [rewrite <- Hk; apply entry_key; congruence | rewrite <- Hk'; apply entry_key; congruence |].
  split; [|done]. split_and!; [by rewrite length_insert | done|].
  intros j s Hj Hs. apply list_lookup_insert_Some in Hj as [(-> & -> & _)|(Hne & Hj)]; [|by apply Hp].
  rewrite Hk'. destruct (Hp j r Hi ltac:(congruence)) as (p & ? & ->). exists p. by rewrite Hk.
Qed.

(** Claiming a slot that is free or whose record is spent. *)
Lemma claim_slot t k now p : wf_table t -> k <> 0 -> records t !! k = None -> (p < PROBE_LIMIT)%nat ->
  let i := probe_at k p in
  key (slot_at t i) = 0 \/ expired (slot_at t i) now = true ->
  wf_table (<[i := fresh k now]> t) /\ records (<[i := fresh k now]> t) !! k = Some (fresh k now)
  /\ forall k' r, records t !! k' = Some r -> expired r now = false ->
       records (<[i := fresh k now]> t) !! k' = Some r.
Proof.
  intros Hwf Hk Hnone Hplt i Hreuse. pose proof (slot_at_probe t k p Hwf) as Hi. fold i in Hi.
  destruct Hwf as (Hl & Hd & Hp). set (s := slot_at t i) in *.
  assert (entry (fresh k now) = Some (k, fresh k now)) as Hf by (by apply entry_key).
  assert (forall t', length t' = length t -> distinct entry t' -> t' = <[i := fresh k now]> t -> wf_table t') as Hwf'.
  { intros t' L D ->. split_and!; [congruence | done|].
    intros j s' Hj Hs'. apply list_lookup_insert_Some in Hj as [(<- & <- & _)|(Hne & Hj)]; [|by apply Hp].
    by exists p. }
  destruct (Z.eq_dec (key s) 0) as [Hz|Hz].
  - destruct (abs_fresh entry t i s _ k _ Hd Hi ltac:(unfold entry; by rewrite Hz) Hnone Hf) as [D E].
    rewrite E. split_and!; [by apply Hwf'; rewrite ?length_insert | apply lookup_insert_eq|].
    intros k' r Hr _. rewrite lookup_insert_ne; [done | congruence].
  - destruct Hreuse as [|Hexp]; [done|]. pose proof (entry_key s Hz) as Hes.
    destruct (abs_free entry t i s free_slot (key s) s Hd Hi Hes eq_refl) as [D1 E1].
    assert (i < length t)%nat as Hlt by (rewrite Hl; apply probe_at_lt).
    destruct (abs_fresh entry _ i free_slot (fresh k now) k (fresh k now) D1
      (list_lookup_insert_eq t i free_slot Hlt) eq_refl) as [D2 E2];
      [rewrite E1; by apply lookup_delete_None; right | done|].
    rewrite list_insert_insert_eq in D2, E2.
    rewrite E2, E1. split_and!; [by apply Hwf'; rewrite ?length_insert | apply lookup_insert_eq|].
    intros k' r Hr Hlive. rewrite lookup_insert_ne by congruence.
    rewrite lookup_delete_ne; [done|]. intros <-.
    rewrite (abs_lookup entry t i s (key s) s Hd Hi Hes) in Hr. congruence.
Qed.
(** Live records of other identities are kept. *)
Definition keeps (t t' : list slot_t) (k now : Z) : Prop :=
  forall k' r, k' <> k -> records t !! k' = Some r -> expired r now = false ->
  records t' !! k' = Some r.

(** The record an operation of identity [k] works on: its own, reset when it
    was stamped in the future; a fresh one when it has none. *)
Definition own (t : list slot_t) (k now : Z) : slot_t :=
  match records t !! k with
  | Some r => if now <? window_start r then fresh k now else r
  | None => fresh k now
  end.

Lemma take_slot_spec t k now : wf_table t -> k <> 0 ->
  match take_slot t k now with
  | (Some i, t') => t' !! i = Some (own t k now) /\ slot_at t' i = own t k now
      /\ wf_table t' /\ records t' !! k = Some (own t k now) /\ keeps t t' k now
  | (None, t') => t' = t /\ records t !! k = None
  end.
Proof.
  intros Hwf Hk. unfold take_slot.
  pose proof (probe_loop_spec t k now (seq 0 PROBE_LIMIT) None) as P.
  assert (forall p x, (p < PROBE_LIMIT)%nat -> <[probe_at k p := x]> t !! probe_at k p = Some x) as Hins.
  { intros p x _. apply list_lookup_insert_eq. destruct Hwf as (-> & _). apply probe_at_lt. }
  assert (forall (t' : list slot_t) i x, t' !! i = Some x -> slot_at t' i = x) as Hat
    by (intros t' i x Hx; by apply nth_lookup_Some).
  destruct (probe_loop t k now (seq 0 PROBE_LIMIT) None) as [i|[i|]].
  - destruct P as (p & Hp & -> & Hkey). apply elem_of_seq in Hp.
    pose proof (slot_at_probe t k p Hwf) as Hi. set (s := slot_at t (probe_at k p)) in *.
    assert (records t !! k = Some s) as Hr.
    { destruct Hwf as (_ & Hd & _). eapply abs_lookup; [done..|]. rewrite <- Hkey. apply entry_key. congruence. }
    unfold own. rewrite Hr. destruct (now <? window_start s).
    + destruct (put_slot t (probe_at k p) k s (fresh k now) Hwf Hi Hkey eq_refl Hk) as [W E].
      assert (<[probe_at k p := fresh k now]> t !! probe_at k p = Some (fresh k now)) as Hx by (apply Hins; lia).
      split_and!; [done | by apply Hat | done | rewrite E; apply lookup_insert_eq|].
      intros k' r Hne Hr' _. rewrite E. by rewrite lookup_insert_ne.
    + split_and!; [done.. |]. intros k' r _ Hr' _. done.
  - destruct P as (Hno & p & Hp & -> & Hre). apply elem_of_seq in Hp.
    pose proof (missing_record t k Hwf Hno) as Hnone. unfold own. rewrite Hnone.
    destruct (claim_slot t k now p Hwf Hk Hnone ltac:(lia) Hre) as (W & R & Hkeep).
    assert (<[probe_at k p := fresh k now]> t !! probe_at k p = Some (fresh k now)) as Hx by (apply Hins; lia).
    split_and!; [done | by apply Hat | done | done|]. intros k' r _. apply Hkeep.
  - destruct P as (Hno & _). split; [done|]. by apply missing_record.
Qed.

Lemma own_key t k now : k <> 0 -> key (own t k now) = k.
Proof.
  intros Hk. unfold own. destruct (records t !! k) as [r|] eqn:E; [|done].
  destruct (now <? window_start r); [done|]. by apply records_key in E as [-> _].
Qed.

(** The check's effect on the record: a spent, unlocked window restarts. *)
Definition refreshed (s : slot_t) (now : Z) : slot_t :=
  if (locked_until s <=? now)
     && ((now <? window_start s) || (KB_LOGIN_THROTTLE_WINDOW_SEC <=? now - window_start s))
  then {| key := key s; window_start := now; locked_until := locked_until s; fails := 0 |} else s.

(** The probe set of the identity is full of other live records. *)
Definition crowded_out (t : list slot_t) (k now : Z) : bool :=
  match (take_slot t k now).1 with None => true | Some _ => false end.

Lemma not_crowded t k now r : wf_table t -> k <> 0 -> records t !! k = Some r ->
  crowded_out t k now = false.
Proof.
  intros Hwf Hk Hr. unfold crowded_out. pose proof (take_slot_spec t k now Hwf Hk) as T.
  destruct (take_slot t k now) as [[i|] t']; [done|]. destruct T as [_ T]. congruence.
Qed.

Lemma fail_one_spec t k now : wf_table t -> k <> 0 ->
  wf_table (fail_one t k now) /\ keeps t (fail_one t k now) k now /\
  if crowded_out t k now then fail_one t k now = t
  else records (fail_one t k now) !! k = Some (charged (own t k now) now).
Proof.
  intros Hwf Hk. pose proof (take_slot_spec t k now Hwf Hk) as T. unfold fail_one, crowded_out.
  destruct (take_slot t k now) as [[i|] t'] eqn:E; cbn [fst].
  - destruct T as (Hi & Hs & W & Hr & Hkeep). rewrite Hs.
    destruct (put_slot t' i k _ (charged (own t k now) now) W Hi) as [W' E'];
      [by apply own_key | cbn; by apply own_key | done|].
    split; [done|]. rewrite E'. split; [|apply lookup_insert_eq].
    intros k' r Hne Hr' Hl. rewrite E', lookup_insert_ne by done. by apply Hkeep.
  - destruct T as [-> _]. split_and!; [done| |done]. by intros k' r _ ? _.
Qed.

Lemma check_one_spec t k now : wf_table t -> k <> 0 ->
  let '(retry, t') := check_one t k now in
  wf_table t' /\ keeps t t' k now /\
  if crowded_out t k now then t' = t /\ retry = saturated_retry t k now
  else records t' !! k = Some (refreshed (own t k now) now)
       /\ retry = if now <? locked_until (own t k now)
                  then clamp_retry (locked_until (own t k now) - now) else 0.
Proof.
  intros Hwf Hk. pose proof (take_slot_spec t k now Hwf Hk) as T. unfold check_one, crowded_out.
  destruct (take_slot t k now) as [[i|] t'] eqn:E; cbn [fst].
  - destruct T as (Hi & Hs & W & Hr & Hkeep). rewrite Hs. unfold refreshed.
    destruct (Z.ltb_spec now (locked_until (own t k now))), (Z.leb_spec (locked_until (own t k now)) now); try lia.
    + by split_and!.
    + destruct (_ || _); [|by split_and!].
      cbn [andb].
      destruct (put_slot t' i k _ {| key := key (own t k now); window_start := now;
        locked_until := locked_until (own t k now); fails := 0 |} W Hi) as [W' E'];
        [by apply own_key | cbn; by apply own_key | done|].
      split; [done|]. rewrite E'. split; [|split; [apply lookup_insert_eq | done]].
      intros k' r Hne Hr' Hl. rewrite E', lookup_insert_ne by done. by apply Hkeep.
  - destruct T as [-> _]. split_and!; try done. by intros k' r _ ? _.
Qed.

Lemma clear_loop_spec t k ps : wf_table t -> k <> 0 ->
  (forall p, (p < PROBE_LIMIT)%nat -> p ∉ ps -> key (slot_at t (probe_at k p)) <> k) ->
  (forall p, p ∈ ps -> (p < PROBE_LIMIT)%nat) ->
  wf_table (clear_loop t k ps) /\ records (clear_loop t k ps) = delete k (records t).
Proof.
  intros Hwf Hk. induction ps as [|p ps IH]; intros Hdone Hlt; cbn [clear_loop].
  - split; [done|]. rewrite delete_id; [done|]. apply missing_record; [done|].
    intros p Hp. apply elem_of_seq in Hp. apply Hdone; [lia | apply not_elem_of_nil].
  - destruct (Z.eqb_spec (key (slot_at t (probe_at k p))) k) as [Ek|Ek]; cbn [negb].
    + pose proof (slot_at_probe t k p Hwf) as Hi. destruct Hwf as (Hl & Hd & Hp).
      destruct (abs_free entry t (probe_at k p) _ free_slot k (slot_at t (probe_at k p)) Hd Hi) as [D E];
        [rewrite <- Ek at 2; apply entry_key; congruence | done|].
      split; [|done]. split_and!; [by rewrite length_insert | done|].
      intros j s Hj Hs. apply list_lookup_insert_Some in Hj as [(<- & <- & _)|(Hne & Hj)]; [done | by apply Hp].
    + apply IH.
      * intros q Hq Hno. destruct (decide (q = p)) as [->|]; [done|]. apply Hdone; [done|].
        intros Hin. apply elem_of_cons in Hin as [|]; done.
      * intros q Hq. apply Hlt. by right.
Qed.

Lemma clear_one_spec t k : wf_table t -> k <> 0 ->
  wf_table (clear_one t k) /\ records (clear_one t k) = delete k (records t).
Proof.
  intros Hwf Hk. apply clear_loop_spec; [done..| |].
  - intros p Hp Hno. exfalso. apply Hno, elem_of_seq. lia.
  - intros p Hp. apply elem_of_seq in Hp. lia.
Qed.

(** ** Sequences of operations *)

Inductive op := OCheck (k : Z) | OFail (k : Z) | OClear (k : Z).

Definition op_key (o : op) : Z := match o with OCheck k | OFail k | OClear k => k end.

Definition step (t : list slot_t) (ot : op * Z) : list slot_t :=
  match ot.1 with
  | OCheck k => (check_one t k ot.2).2
  | OFail k => fail_one t k ot.2
  | OClear k => clear_one t k
  end.

Lemma step_other t o now k r : wf_table t -> op_key o <> 0 -> op_key o <> k ->
  records t !! k = Some r -> expired r now = false ->
  wf_table (step t (o, now)) /\ records (step t (o, now)) !! k = Some r.
Proof.
  intros Hwf Ho Hne Hr Hl. destruct o as [k'|k'|k']; cbn [step fst snd op_key] in *.
  - pose proof (check_one_spec t k' now Hwf Ho) as C. destruct (check_one t k' now) as [a t'].
    destruct C as (W & Hk & _). split; [done|]. by apply Hk.
  - destruct (fail_one_spec t k' now Hwf Ho) as (W & Hk & _). split; [done|]. by apply Hk.
  - destruct (clear_one_spec t k' Hwf Ho) as (W & E). split; [done|]. rewrite E.
    by rewrite lookup_delete_ne.
Qed.

(** The failures of one identity in a sequence. *)
Definition fail_times (k : Z) (ops : list (op * Z)) : list Z :=
  omap (fun ot => match ot.1 with OFail k' => if k' =? k then Some ot.2 else None | _ => None end) ops.

Definition in_window (r : slot_t) (now : Z) : Prop :=
  window_start r <= now < window_start r + KB_LOGIN_THROTTLE_WINDOW_SEC.

Lemma in_window_live r now : in_window r now -> expired r now = false.
Proof.
  unfold in_window, expired, KB_LOGIN_THROTTLE_WINDOW_SEC. intros Hw.
  destruct (Z.ltb_spec now (window_start r)); [lia|].
  destruct (Z.leb_spec 900 (now - window_start r)); [lia|]. by rewrite andb_false_r.
Qed.

Lemma charged_in_window r now : in_window r now -> window_start (charged r now) = window_start r
  /\ fails (charged r now) = (if fails r <? 1000000 then fails r + 1 else fails r).
Proof.
  unfold in_window, charged, KB_LOGIN_THROTTLE_WINDOW_SEC. intros Hw. cbn [window_start fails].
  destruct (Z.ltb_spec now (window_start r)); [lia|].
  destruct (Z.leb_spec 900 (now - window_start r)); [lia|]. done.
Qed.

(** Inside its window an identity's record only changes by its own failures,
    whatever the other identities do. *)
Lemma run_records t k r ops : wf_table t -> k <> 0 -> records t !! k = Some r ->
  Forall (fun ot => op_key ot.1 <> 0 /\ ot.1 <> OClear k /\ in_window r ot.2) ops ->
  wf_table (fold_left step ops t)
  /\ records (fold_left step ops t) !! k = Some (fold_left charged (fail_times k ops) r).
Proof.
  intros Hwf Hk Hr Hops. revert t r Hwf Hr Hops. induction ops as [|[o now] ops IH]; intros t r Hwf Hr Hops; [done|].
  apply Forall_cons in Hops as [(Hok & Hnc & Hw) Hops]. cbn [fst snd] in *.
  pose proof (in_window_live r now Hw) as Hlive. cbn [fold_left].
  assert (own t k now = r) as Hown.
  { unfold own. rewrite Hr. destruct (Z.ltb_spec now (window_start r)); [destruct Hw; lia | done]. }
  destruct (decide (op_key o = k)) as [Ek|Hne].
  2: { destruct (step_other t o now k r Hwf Hok Hne Hr Hlive) as [W R].
       replace (fail_times k ((o, now) :: ops)) with (fail_times k ops); [by apply IH|].
       unfold fail_times. cbn. destruct o; try done. cbn in Hne. by destruct (Z.eqb_spec k0 k). }
  destruct o as [k'|k'|k']; cbn [op_key] in Ek; subst k'; [..|done].
  - pose proof (check_one_spec t k now Hwf Hk) as C. cbn [step fst snd].
    destruct (check_one t k now) as [a t']. destruct C as (W & _ & C).
    rewrite (not_crowded t k now r Hwf Hk Hr) in C. destruct C as [R _]. rewrite Hown in R.
    replace (refreshed r now) with r in R; [by apply IH|].
    unfold refreshed, in_window, KB_LOGIN_THROTTLE_WINDOW_SEC in *.
    destruct (Z.ltb_spec now (window_start r)); [lia|].
    destruct (Z.leb_spec 900 (now - window_start r)); [lia|]. by rewrite andb_false_r.
  - cbn [step fst snd]. destruct (fail_one_spec t k now Hwf Hk) as (W & _ & C).
    rewrite (not_crowded t k now r Hwf Hk Hr) in C. rewrite Hown in C.
    replace (fail_times k ((OFail k, now) :: ops)) with (now :: fail_times k ops)
      by (unfold fail_times; cbn; by rewrite Z.eqb_refl).
    cbn [fold_left]. apply IH; [done..|]. eapply Forall_impl; [exact Hops|].
    intros [o' now'] (H1 & H2 & H3). split_and!; [done..|]. cbn [snd] in *. unfold in_window in *.
    by rewrite (proj1 (charged_in_window r now Hw)).
Qed.

(** While it is locked nothing but its own failures and success changes an
    identity's record, also when its window has run out. *)
Definition in_lock (r : slot_t) (now : Z) : Prop := window_start r <= now < locked_until r.

Lemma in_lock_live r now : in_lock r now -> expired r now = false.
Proof.
  unfold in_lock, expired. intros H. destruct (Z.ltb_spec now (window_start r)); [lia|].
  by destruct (Z.leb_spec (locked_until r) now); [lia|].
Qed.

Lemma run_locked t k r ops : wf_table t -> k <> 0 -> records t !! k = Some r ->
  Forall (fun ot => op_key ot.1 <> 0 /\ ot.1 <> OClear k /\ ot.1 <> OFail k /\ in_lock r ot.2) ops ->
  wf_table (fold_left step ops t) /\ records (fold_left step ops t) !! k = Some r.
Proof.
  intros Hwf Hk Hr Hops. revert t Hwf Hr. induction Hops as [|[o now] ops (Hok & Hnc & Hnf & Hl) _ IH]; intros t Hwf Hr; [done|].
  cbn [fst snd fold_left] in *. destruct (decide (op_key o = k)) as [Ek|Hne].
  2: { destruct (step_other t o now k r Hwf Hok Hne Hr (in_lock_live r now Hl)) as [W R]. by apply IH. }
  destruct o as [k'|k'|k']; cbn [op_key] in Ek; subst k'; [|done..].
  pose proof (check_one_spec t k now Hwf Hk) as C. cbn [step fst snd].
  destruct (check_one t k now) as [a t']. destruct C as (W & _ & C).
  rewrite (not_crowded t k now r Hwf Hk Hr) in C. destruct C as [R _]. apply IH; [done|]. etransitivity; [exact R|]. f_equal.
  unfold in_lock in Hl. assert (own t k now = r) as ->.
  { unfold own. rewrite Hr. by destruct (Z.ltb_spec now (window_start r)); [lia|]. }
  unfold refreshed. by destruct (Z.leb_spec (locked_until r) now); [lia|].
Qed.

(** ** The lock *)

Lemma lock_sec_formula f : KB_LOGIN_THROTTLE_BUDGET <= f ->
  lock_sec f = Z.min KB_LOGIN_THROTTLE_MAX_LOCK_SEC (KB_LOGIN_THROTTLE_BASE_LOCK_SEC * 2 ^ (f - KB_LOGIN_THROTTLE_BUDGET)).
Proof.
  unfold KB_LOGIN_THROTTLE_BUDGET. intros Hf. destruct (decide (f - 5 < 21)) as [Hs|Hl].
  - pose proof (check_range 21 (fun o => lock_sec (o + 5) =? Z.min KB_LOGIN_THROTTLE_MAX_LOCK_SEC
      (KB_LOGIN_THROTTLE_BASE_LOCK_SEC * 2 ^ o)) ltac:(vm_compute; reflexivity) (f - 5) ltac:(lia)) as Hc.
    cbv beta in Hc. apply Z.eqb_eq in Hc. by replace (f - 5 + 5) with f in Hc by lia.
  - unfold lock_sec, KB_LOGIN_THROTTLE_BUDGET. destruct (Z.ltb_spec 20 (f - 5)); [|lia].
    change (lock_loop (Z.to_nat 20) KB_LOGIN_THROTTLE_BASE_LOCK_SEC) with 960.
    change (KB_LOGIN_THROTTLE_MAX_LOCK_SEC <? 960) with true. cbn match.
    pose proof (Z.pow_le_mono_r 2 21 (f - 5) ltac:(lia) ltac:(lia)) as Hp.
    change (2 ^ 21) with 2097152 in Hp.
    unfold KB_LOGIN_THROTTLE_MAX_LOCK_SEC, KB_LOGIN_THROTTLE_BASE_LOCK_SEC. lia.
Qed.

(** The record after a run of failures inside the window. *)
Lemma fold_charged r times tl : Forall (in_window r) times -> 0 <= fails r <= 1000000 ->
  last times = Some tl ->
  let f := Z.min 1000000 (fails r + Z.of_nat (length times)) in
  let r' := fold_left charged times r in
  window_start r' = window_start r /\ fails r' = f
  /\ (KB_LOGIN_THROTTLE_BUDGET <= f -> locked_until r' = tl + lock_sec f).
Proof.
  revert tl. induction times as [|now times IH] using rev_ind; intros tl Hw Hf Hlast; [done|].
  rewrite last_snoc in Hlast. injection Hlast as <-. apply Forall_app in Hw as [Hw Hnow].
  apply Forall_cons in Hnow as [Hnow _]. cbv zeta. rewrite fold_left_app, length_app. cbn [fold_left length].
  assert (window_start (fold_left charged times r) = window_start r
    /\ fails (fold_left charged times r) = Z.min 1000000 (fails r + Z.of_nat (length times))) as [W F].
  { destruct (last times) as [x|] eqn:El.
    - destruct (IH x Hw Hf eq_refl) as (W & F & _). done.
    - apply last_None in El as ->. cbn. split; [done | lia]. }
  set (r1 := fold_left charged times r) in *.
  assert (in_window r1 now) as Hw1 by (unfold in_window in *; by rewrite W).
  destruct (charged_in_window r1 now Hw1) as [W' F']. rewrite W', F', W.
  assert ((if fails r1 <? 1000000 then fails r1 + 1 else fails r1)
    = Z.min 1000000 (fails r + Z.of_nat (length times + 1))) as Ef
    by (destruct (Z.ltb_spec (fails r1) 1000000); lia).
  split_and!; [done..|]. rewrite <- Ef, <- F'. intros Hb.
  unfold charged in F', Hb |- *. cbn [fails locked_until] in *.
  by rewrite (proj2 (Z.leb_le _ _)) by exact Hb.
Qed.

Lemma clamp_retry_range x : 1 <= clamp_retry x <= KB_LOGIN_THROTTLE_MAX_LOCK_SEC.
Proof.
  unfold clamp_retry, KB_LOGIN_THROTTLE_MAX_LOCK_SEC.
  destruct (Z.ltb_spec x 1); [lia|]. destruct (Z.ltb_spec 900 x); lia.
Qed.

Lemma saturated_retry_range t k now : 1 <= saturated_retry t k now <= KB_LOGIN_THROTTLE_MAX_LOCK_SEC.
Proof.
  unfold saturated_retry. set (f := fun _ _ => _).
  cut (forall ps acc, 1 <= acc <= KB_LOGIN_THROTTLE_MAX_LOCK_SEC ->
    1 <= fold_left f ps acc <= KB_LOGIN_THROTTLE_MAX_LOCK_SEC).
  { intros Hcut. apply Hcut. unfold KB_LOGIN_THROTTLE_MAX_LOCK_SEC. lia. }
  induction ps as [|p ps IH]; intros acc Ha; cbn [fold_left]; [done|].
  apply IH. unfold f. cbv zeta. destruct (_ <? clamp_retry _); [apply clamp_retry_range | done].
Qed.

Lemma check_one_range t k now : 0 <= (check_one t k now).1 <= KB_LOGIN_THROTTLE_MAX_LOCK_SEC.
Proof.
  unfold check_one. destruct (take_slot t k now) as [[i|] t'].
  - destruct (now <? _); [pose proof (clamp_retry_range (locked_until (slot_at t' i) - now)); cbn; lia|].
    by destruct (_ || _).
  - pose proof (saturated_retry_range t' k now). cbn [fst]. lia.
Qed.
(** ** Properties *)

(** A lockout cannot be cleared or displaced by anyone else: whatever another
    identity does (check, failure or success), an identity's record that is
    still live keeps its place and its contents. *)
Theorem throttle_isolated t o now k r : wf_table t -> op_key o <> 0 -> op_key o <> k ->
  records t !! k = Some r -> expired r now = false ->
  wf_table (step t (o, now)) /\ records (step t (o, now)) !! k = Some r.
Proof. apply step_other. Qed.

(** C12: the budget is enforced: take an identity with a record, and any
    sequence of checks and failures of any identities (and successes of
    others) inside its window.  If its failures reach the budget of five, then
    it is refused from its last failure on for min(900, 30 * 2^(failures - 5))
    seconds, with exactly the remaining time as the answer, also when the
    window has run out meanwhile and whatever the other identities do until
    then: their checks, failures and successes do not take its record away. *)
Theorem throttle_lockout t k r ops tl later now : wf_table t -> k <> 0 ->
  records t !! k = Some r -> 0 <= fails r <= 1000000 ->
  Forall (fun ot => op_key ot.1 <> 0 /\ ot.1 <> OClear k /\ in_window r ot.2) ops ->
  last (fail_times k ops) = Some tl ->
  let f := Z.min 1000000 (fails r + Z.of_nat (length (fail_times k ops))) in
  KB_LOGIN_THROTTLE_BUDGET <= f ->
  let until := tl + Z.min 900 (30 * 2 ^ (f - 5)) in
  Forall (fun ot => op_key ot.1 <> 0 /\ ot.1 <> OClear k /\ ot.1 <> OFail k /\ tl <= ot.2 < until) later ->
  tl <= now < until ->
  (check_one (fold_left step later (fold_left step ops t)) k now).1 = until - now
  /\ 1 <= (check_one (fold_left step later (fold_left step ops t)) k now).1.
Proof.
  intros Hwf Hk Hr Hf Hops Hlast f Hb until Hlater Hnow.
  destruct (run_records t k r ops Hwf Hk Hr Hops) as [W R].
  assert (Forall (in_window r) (fail_times k ops)) as Hw.
  { apply Forall_forall. intros x Hx. apply list_elem_of_omap in Hx as ([o y] & Hin & Hx).
    rewrite Forall_forall in Hops. destruct (Hops _ Hin) as (_ & _ & Hw). cbn [fst snd] in *.
    destruct o as [|k'|]; [done| |done]. destruct (k' =? k); [|done]. by injection Hx as <-. }
  destruct (fold_charged r (fail_times k ops) tl Hw Hf Hlast) as (Ws & _ & Hl).
  specialize (Hl Hb). rewrite lock_sec_formula in Hl by done. fold f in Hl.
  change (locked_until (fold_left charged (fail_times k ops) r) = until) in Hl.
  set (r' := fold_left charged (fail_times k ops) r) in *.
  assert (window_start r' <= tl) as Htl.
  { rewrite Ws. rewrite Forall_forall in Hw. apply Hw. apply last_Some in Hlast as [l ->].
    apply elem_of_app. right. left. }
  destruct (run_locked _ k r' later W Hk R) as [W' R'].
  { eapply Forall_impl; [exact Hlater|]. intros [o x] (H1 & H2 & H3 & H4). split_and!; [done..|].
    unfold in_lock. rewrite Hl. cbn [snd] in *. lia. }
  pose proof (check_one_spec _ k now W' Hk) as C.
  destruct (check_one (fold_left step later (fold_left step ops t)) k now) as [a t'].
  destruct C as (_ & _ & C). rewrite (not_crowded _ k now r' W' Hk R') in C. destruct C as [_ ->].
  assert (own (fold_left step later (fold_left step ops t)) k now = r') as ->.
  { unfold own. rewrite R'. by destruct (Z.ltb_spec now (window_start r')); [lia|]. }
  cbn [fst]. rewrite Hl. rewrite (proj2 (Z.ltb_lt now until)) by lia.
  assert (until - tl <= 900) by (unfold until; lia).
  unfold clamp_retry, KB_LOGIN_THROTTLE_MAX_LOCK_SEC. destruct (Z.ltb_spec (until - now) 1); [lia|].
  destruct (Z.ltb_spec 900 (until - now)); [lia|]. lia.
Qed.

(** Every answer of the check is 0 or a wait of at most 900 seconds, for any
    state, names and clock, and it is the longer of the two waits. *)
Theorem throttle_check_range t ip username now :
  0 <= (kb_login_throttle_check t ip username now).1 <= KB_LOGIN_THROTTLE_MAX_LOCK_SEC
  /\ (kb_login_throttle_check t ip username now).1
     = Z.max (check_one (g_peer t) (peer_key t ip) (sane_now now)).1
             (check_one (g_user t) (user_key t username) (sane_now now)).1.
Proof.
  unfold kb_login_throttle_check.
  pose proof (check_one_range (g_peer t) (peer_key t ip) (sane_now now)).
  pose proof (check_one_range (g_user t) (user_key t username) (sane_now now)).
  destruct (check_one (g_peer t) _ _) as [a ?], (check_one (g_user t) _ _) as [b ?]. cbn [fst] in *.
  destruct (Z.ltb_spec b a); lia.
Qed.

(** ** Samples *)

Definition empty_table : list slot_t := replicate 1024 free_slot.

Lemma empty_table_wf : wf_table empty_table.
Proof.
  split_and!; [done| |].
  - unfold distinct. replace (used entry empty_table) with (@nil (Z * slot_t)) by (vm_compute; reflexivity).
    constructor.
  - intros i s Hi Hs. apply lookup_replicate in Hi as [-> _]. done.
Qed.

(** A table in which key 1 was checked at time 1000. *)
Definition sample_table : list slot_t := (check_one empty_table 1 1000).2.

Lemma sample_table_ok : wf_table sample_table /\ records sample_table !! 1 = Some (fresh 1 1000).
Proof.
  pose proof (check_one_spec empty_table 1 1000 empty_table_wf ltac:(done)) as C.
  unfold sample_table. destruct (check_one empty_table 1 1000) as [a t'] eqn:E. cbn [snd].
  destruct C as (W & _ & _). split; [done|].
  assert (t' = (check_one empty_table 1 1000).2) as -> by (by rewrite E). vm_compute. reflexivity.
Qed.

Lemma throttle_isolated_witness :
  records (step sample_table (OFail 1025, 1100)) !! 1 = Some (fresh 1 1000).
Proof.
  apply (throttle_isolated sample_table (OFail 1025) 1100 1 (fresh 1 1000));
    [apply sample_table_ok | discriminate | discriminate | apply sample_table_ok | reflexivity].
Defined.

(** Seven failures late in the window; the lock outlasts the window, and a
    colliding identity tries to take the slot after it. *)
Definition sample_ops : list (op * Z) :=
  [(OFail 1, 1010); (OFail 1025, 1011); (OFail 1, 1020); (OCheck 1, 1021); (OFail 1, 1030);
   (OClear 1025, 1031); (OFail 1, 1040); (OFail 1, 1870); (OFail 1, 1880); (OFail 1, 1890)].
Definition sample_later : list (op * Z) := [(OFail 1025, 1905); (OCheck 1, 1950); (OFail 2049, 2000)].

Lemma throttle_lockout_witness :
  (check_one (fold_left step sample_later (fold_left step sample_ops sample_table)) 1 2005).1 = 5
  /\ 1 <= (check_one (fold_left step sample_later (fold_left step sample_ops sample_table)) 1 2005).1.
Proof.
  apply (throttle_lockout sample_table 1 (fresh 1 1000) sample_ops 1890 sample_later 2005).
  - apply sample_table_ok.
  - discriminate.
  - apply sample_table_ok.
  - cbn. lia.
  - unfold sample_ops, in_window, KB_LOGIN_THROTTLE_WINDOW_SEC.
    repeat (apply Forall_cons_2; [cbn; split_and!; (discriminate || lia)|]). apply Forall_nil_2.
  - reflexivity.
  - vm_compute. discriminate.
  - unfold sample_later. change (Z.min 1000000 (fails (fresh 1 1000) + Z.of_nat (length (fail_times 1 sample_ops)))) with 7.
    repeat (apply Forall_cons_2; [cbn; split_and!; (discriminate || lia)|]). apply Forall_nil_2.
  - vm_compute. split; [discriminate | reflexivity].
Defined.

(** The check claims a slot: eight checks of colliding identities, with no
    failure recorded at all, make a ninth identity of the probe set wait the
    full window. *)
Example check_fills_the_probe_set :
  let keys := map (fun i => 1 + 1024 * Z.of_nat i) (seq 0 8) in
  let t := fold_left (fun t k => (check_one t k 1000).2) keys empty_table in
  (check_one t (1 + 1024 * 8) 1000).1 = 900 /\ length (used entry t) = 8%nat
  /\ Forall (fun s => fails s = 0) t.
Proof.
  intros keys t. split_and!; [vm_compute; reflexivity.. |].
  apply (Forall_check _ (fun s => fails s =? 0)); [intros s; apply Z.eqb_eq | vm_compute; reflexivity].
Qed.

End LoginThrottle.
