(* ===== verification/MutationBudget.v ===== *)
(** * Mutation budgets ([src/src/modules/vault/vault_mutation_budget.c])

    The time budget of a vault mutation: a stall deadline renewed by strict
    progress, an overall ceiling bound once to the inventory, and one cleanup
    allowance.  Every clock reading is an argument (in call order), so that a
    call which reads the clock twice takes two readings; integers keep the C
    code's overflow checks.  Shown: the ceiling is the exact integer formula
    or a refusal, never a wrapped value; whatever calls follow, no granted
    deadline passes the ceiling (or the cleanup allowance), both of which are
    fixed once set; accepted progress tokens are strictly increasing. *)

From Stdlib Require Import ZArith Lia String Ascii Sorted.
From stdpp Require Import base numbers option list.
From S2P Require Import Prelude.

Module MutationBudget.

Definition VAULT_MUTATION_BUDGET_STALL_MS : Z := 15000.
Definition VAULT_MUTATION_BUDGET_FIXED_MS : Z := 190000.
Definition VAULT_MUTATION_BUDGET_DB_CALL_MS : Z := 2000.
Definition VAULT_MUTATION_BUDGET_CRYPTO_MS : Z := 100.
Definition VAULT_MUTATION_BUDGET_CLEANUP_MS : Z := 5000.
Definition UINT_MAX : Z := 2 ^ 32 - 1.

Record vault_mutation_budget_t := {
  started_ms : Z;
  hard_deadline_ms : Z;
  stall_deadline_ms : Z;
  cleanup_deadline_ms : Z;
  secret_count : Z;
  check_count : Z;
  progress_phase : Z;
  progress_position : Z;
  inventory_digest : bytes;
  clock : bool;
  inventory_bound : bool;
  progress_valid : bool;
  cleanup_active : bool
}.

Definition zero_budget : vault_mutation_budget_t :=
  {| started_ms := 0; hard_deadline_ms := 0; stall_deadline_ms := 0; cleanup_deadline_ms := 0;
     secret_count := 0; check_count := 0; progress_phase := 0; progress_position := 0;
     inventory_digest := replicate 32 0; clock := false; inventory_bound := false;
     progress_valid := false; cleanup_active := false |}.

(** [CLOCK_MONOTONIC] in milliseconds; [None] when [clock_gettime] fails. *)
Definition monotonic_ms (ts : option (Z * Z)) : Z :=
  match ts with
  | None => -1
  | Some (sec, nsec) =>
      if (sec <? 0) || (INT64_MAX / 1000 <? sec) then -1 else sec * 1000 + nsec / 1000000
  end.

Definition now_ms (b : vault_mutation_budget_t) (reading : Z) : Z := if clock b then reading else -1.

Definition add_ms (base delta : Z) : option Z :=
  if (base <? 0) || (INT64_MAX <? delta) || (INT64_MAX - delta <? base) then None
  else Some (base + delta).

Definition set_stall (b : vault_mutation_budget_t) (started stall : Z) : vault_mutation_budget_t :=
  {| started_ms := started; hard_deadline_ms := hard_deadline_ms b; stall_deadline_ms := stall;
     cleanup_deadline_ms := cleanup_deadline_ms b; secret_count := secret_count b;
     check_count := check_count b; progress_phase := progress_phase b;
     progress_position := progress_position b; inventory_digest := inventory_digest b;
     clock := true; inventory_bound := inventory_bound b; progress_valid := progress_valid b;
     cleanup_active := cleanup_active b |}.

Definition vault_mutation_budget_init_with_clock (reading : Z) : Z * vault_mutation_budget_t :=
  let started := reading in
  if started <? 0 then (-1, zero_budget)
  else
    match add_ms started VAULT_MUTATION_BUDGET_STALL_MS with
    | None => (-1, zero_budget)
    | Some stall => (0, set_stall zero_budget started stall)
    end.

Definition vault_mutation_budget_init (ts : option (Z * Z)) : Z * vault_mutation_budget_t :=
  vault_mutation_budget_init_with_clock (monotonic_ms ts).

Definition checked_add (value add : Z) : option Z :=
  if UINT64_MAX - add <? value then None else Some (value + add).

Definition checked_mul_add (value count cost : Z) : option Z :=
  if UINT64_MAX / cost <? count then None else checked_add value (count * cost).

(** The overall allowance for an inventory, with the checks in source order. *)
Definition allowance_ms (secrets checks : Z) : option Z :=
  let secret_pages := secrets / 128 + (if secrets mod 128 =? 0 then 0 else 1) in
  let check_pages := checks / 128 + (if checks mod 128 =? 0 then 0 else 1) in
  db_calls ← checked_add 64 secrets;
  db_calls ← checked_add db_calls checks;
  db_calls ← checked_mul_add db_calls secret_pages 2;
  db_calls ← checked_mul_add db_calls check_pages 3;
  crypto_ops ← checked_mul_add 0 secrets 3;
  crypto_ops ← checked_mul_add crypto_ops checks 4;
  allowance ← checked_mul_add VAULT_MUTATION_BUDGET_FIXED_MS db_calls VAULT_MUTATION_BUDGET_DB_CALL_MS;
  allowance ← checked_mul_add allowance crypto_ops VAULT_MUTATION_BUDGET_CRYPTO_MS;
  if INT64_MAX <? allowance then None else Some allowance.

Definition vault_mutation_budget_expired (b : vault_mutation_budget_t) (reading : Z) : bool :=
  let now := now_ms b reading in
  if now <? 0 then true
  else if cleanup_active b then cleanup_deadline_ms b <=? now
  else (stall_deadline_ms b <=? now) || (inventory_bound b && (hard_deadline_ms b <=? now)).

Definition vault_mutation_budget_bind_inventory (b : vault_mutation_budget_t) (secrets checks : Z)
    (digest : option bytes) (reading : Z) : Z * vault_mutation_budget_t :=
  match digest with
  | None => (-1, b)
  | Some digest =>
      if negb (clock b) then (-1, b)
      else if inventory_bound b then
        (if (secret_count b =? secrets) && (check_count b =? checks)
            && bytes_eqb (inventory_digest b) digest then 0 else -1, b)
      else
        match allowance_ms secrets checks with
        | None => (-1, b)
        | Some allowance =>
            match add_ms (started_ms b) allowance with
            | None => (-1, b)
            | Some hard =>
                let b := {| started_ms := started_ms b; hard_deadline_ms := hard;
                            stall_deadline_ms := stall_deadline_ms b;
                            cleanup_deadline_ms := cleanup_deadline_ms b;
                            secret_count := secrets; check_count := checks;
                            progress_phase := progress_phase b;
                            progress_position := progress_position b;
                            inventory_digest := digest; clock := clock b;
                            inventory_bound := true; progress_valid := progress_valid b;
                            cleanup_active := cleanup_active b |} in
                (if vault_mutation_budget_expired b reading then -1 else 0, b)
            end
        end
  end.

(** The token does not advance past the last accepted one. *)
Definition regress (b : vault_mutation_budget_t) (phase position : Z) : bool :=
  progress_valid b && ((phase <? progress_phase b)
    || ((phase =? progress_phase b) && (position <=? progress_position b))).

(** The two readings are the one of the call itself and the one of
    [vault_mutation_budget_expired]. *)
Definition vault_mutation_budget_progress (b : vault_mutation_budget_t) (phase position : Z)
    (reading reading' : Z) : Z * vault_mutation_budget_t :=
  let now := now_ms b reading in
  if (now <? 0) || vault_mutation_budget_expired b reading' || regress b phase position then (-1, b)
  else
    match add_ms now VAULT_MUTATION_BUDGET_STALL_MS with
    | None => (-1, b)
    | Some stall =>
        let stall := if inventory_bound b && (hard_deadline_ms b <? stall)
                     then hard_deadline_ms b else stall in
        (0, {| started_ms := started_ms b; hard_deadline_ms := hard_deadline_ms b;
               stall_deadline_ms := stall; cleanup_deadline_ms := cleanup_deadline_ms b;
               secret_count := secret_count b; check_count := check_count b;
               progress_phase := phase; progress_position := position;
               inventory_digest := inventory_digest b; clock := clock b;
               inventory_bound := inventory_bound b; progress_valid := true;
               cleanup_active := cleanup_active b |})
    end.

Definition vault_mutation_budget_deadline_ms (b : vault_mutation_budget_t) (per_call_ms reading : Z)
    : Z :=
  let now := now_ms b reading in
  if (now <? 0) || (per_call_ms =? 0) then -1
  else
    match add_ms now per_call_ms with
    | None => -1
    | Some end_ =>
        if cleanup_active b then
          if cleanup_deadline_ms b <=? now then -1
          else if end_ <? cleanup_deadline_ms b then end_ else cleanup_deadline_ms b
        else if (stall_deadline_ms b <=? now) || (inventory_bound b && (hard_deadline_ms b <=? now))
        then -1
        else
          let end_ := if stall_deadline_ms b <? end_ then stall_deadline_ms b else end_ in
          if inventory_bound b && (hard_deadline_ms b <? end_) then hard_deadline_ms b else end_
    end.

Definition vault_mutation_budget_begin_cleanup (b : vault_mutation_budget_t) (reading : Z)
    : Z * vault_mutation_budget_t :=
  let now := now_ms b reading in
  if now <? 0 then (-1, b)
  else if cleanup_active b then (if now <? cleanup_deadline_ms b then 0 else -1, b)
  else
    match add_ms now VAULT_MUTATION_BUDGET_CLEANUP_MS with
    | None => (-1, b)
    | Some d =>
        let b := {| started_ms := started_ms b; hard_deadline_ms := hard_deadline_ms b;
                    stall_deadline_ms := stall_deadline_ms b; cleanup_deadline_ms := d;
                    secret_count := secret_count b; check_count := check_count b;
                    progress_phase := progress_phase b; progress_position := progress_position b;
                    inventory_digest := inventory_digest b; clock := clock b;
                    inventory_bound := inventory_bound b; progress_valid := progress_valid b;
                    cleanup_active := true |} in
        (if now <? cleanup_deadline_ms b then 0 else -1, b)
    end.

(** ** The thread's current budget

    Budgets are compared by address; a positive number stands for one. *)
Record thread := { current_budget : option positive; current_depth : Z }.

Definition vault_mutation_budget_current (t : thread) : option positive := current_budget t.

Definition vault_mutation_budget_enter (t : thread) (b : option positive) : Z * thread :=
  match b with
  | None => (-1, t)
  | Some p =>
      if (match current_budget t with Some q => negb (bool_decide (q = p)) | None => false end)
         || (current_depth t =? UINT_MAX) then (-1, t)
      else (0, {| current_budget := Some p; current_depth := current_depth t + 1 |})
  end.

Definition vault_mutation_budget_leave (t : thread) (b : option positive) : Z * thread :=
  match b with
  | None => (-1, t)
  | Some p =>
      if negb (bool_decide (current_budget t = Some p)) || (current_depth t =? 0) then (-1, t)
      else
        let d := current_depth t - 1 in
        (0, {| current_budget := if d =? 0 then None else current_budget t; current_depth := d |})
  end.

(** ** The allowance as a formula *)

Definition pages (n : Z) : Z := (n + 127) / 128.

Definition db_calls (s c : Z) : Z := 64 + s + c + 2 * pages s + 3 * pages c.

Definition allowance_formula (s c : Z) : Z :=
  VAULT_MUTATION_BUDGET_FIXED_MS + VAULT_MUTATION_BUDGET_DB_CALL_MS * db_calls s c
  + VAULT_MUTATION_BUDGET_CRYPTO_MS * (3 * s + 4 * c).

Lemma pages_eq n : 0 <= n -> n / 128 + (if n mod 128 =? 0 then 0 else 1) = pages n.
Proof. intros Hn. unfold pages. destruct (Z.eqb_spec (n mod 128) 0); dm_lia. Qed.

Lemma checked_add_eq v a : checked_add v a = if v + a <=? UINT64_MAX then Some (v + a) else None.
Proof.
  unfold checked_add. destruct (Z.ltb_spec (UINT64_MAX - a) v), (Z.leb_spec (v + a) UINT64_MAX); (done || lia).
Qed.

Lemma checked_mul_add_eq v n cost : 0 <= v -> 0 < cost ->
  checked_mul_add v n cost = if v + n * cost <=? UINT64_MAX then Some (v + n * cost) else None.
Proof.
  intros Hv Hc. unfold checked_mul_add. rewrite checked_add_eq.
  destruct (Z.ltb_spec (UINT64_MAX / cost) n) as [Hlt|]; [|done].
  destruct (Z.leb_spec (v + n * cost) UINT64_MAX) as [Hle|]; [|done].
  assert (n <= UINT64_MAX / cost) by (apply Z.div_le_lower_bound; lia). lia.
Qed.

(** Turn the next overflow check into a comparison and split on it. *)
Ltac open_check :=
  match goal with
  | |- mbind _ (checked_add ?v ?a) = _ => rewrite (checked_add_eq v a)
  | |- mbind _ (checked_mul_add ?v ?n ?c) = _ => rewrite (checked_mul_add_eq v n c) by lia
  end.
Ltac case_leb :=
  match goal with
  | |- mbind _ (if ?a <=? UINT64_MAX then _ else _) = _ => destruct (Z.leb_spec a UINT64_MAX)
  end.

(** Every intermediate value is below the final one, so a check that fails
    means that the formula exceeds the range. *)
Lemma allowance_exact s c : 0 <= s < 2 ^ 64 -> 0 <= c < 2 ^ 64 ->
  allowance_ms s c
  = if allowance_formula s c <=? INT64_MAX then Some (allowance_formula s c) else None.
Proof.
  intros Hs Hc. unfold allowance_ms. rewrite !pages_eq by lia.
  assert (0 <= pages s) as Hps by (unfold pages; apply Z.div_pos; lia).
  assert (0 <= pages c) as Hpc by (unfold pages; apply Z.div_pos; lia).
  unfold allowance_formula, db_calls, VAULT_MUTATION_BUDGET_FIXED_MS, VAULT_MUTATION_BUDGET_DB_CALL_MS,
    VAULT_MUTATION_BUDGET_CRYPTO_MS.
  assert (INT64_MAX < UINT64_MAX) as HI by (vm_compute; reflexivity).
  set (pa := pages s) in *. set (pb := pages c) in *.
  destruct (Z.leb_spec (190000 + 2000 * (64 + s + c + 2 * pa + 3 * pb) + 100 * (3 * s + 4 * c)) INT64_MAX) as [Hok|Hbig].
  - repeat (open_check; case_leb; [cbn [mbind option_bind]|lia]).
    rewrite (proj2 (Z.ltb_ge _ _)) by lia. f_equal. lia.
  - repeat (open_check; case_leb; [cbn [mbind option_bind]|done]).
    by rewrite (proj2 (Z.ltb_lt _ _)) by lia.
Qed.

(** ** Later states *)

(** One step of any operation that changes a budget. *)
Inductive step : vault_mutation_budget_t -> vault_mutation_budget_t -> Prop :=
| step_bind b s c d n rc b' :
    vault_mutation_budget_bind_inventory b s c d n = (rc, b') -> step b b'
| step_progress b ph pos n n' rc b' :
    vault_mutation_budget_progress b ph pos n n' = (rc, b') -> step b b'
| step_cleanup b n rc b' :
    vault_mutation_budget_begin_cleanup b n = (rc, b') -> step b b'.

Inductive later : vault_mutation_budget_t -> vault_mutation_budget_t -> Prop :=
| later_refl b : later b b
| later_step b b1 b2 : later b b1 -> step b1 b2 -> later b b2.

(** What no step undoes. *)
Definition fixed (b b' : vault_mutation_budget_t) : Prop :=
  (inventory_bound b = true -> inventory_bound b' = true /\ hard_deadline_ms b' = hard_deadline_ms b)
  /\ (cleanup_active b = true -> cleanup_active b' = true
      /\ cleanup_deadline_ms b' = cleanup_deadline_ms b).

Lemma bind_cases b s c d n rc b' : vault_mutation_budget_bind_inventory b s c d n = (rc, b') ->
  b' = b \/ inventory_bound b = false /\ exists a dg, allowance_ms s c = Some a
    /\ add_ms (started_ms b) a = Some (hard_deadline_ms b') /\ d = Some dg
    /\ inventory_bound b' = true /\ cleanup_active b' = cleanup_active b
    /\ cleanup_deadline_ms b' = cleanup_deadline_ms b /\ started_ms b' = started_ms b.
Proof.
  unfold vault_mutation_budget_bind_inventory. destruct d as [dg|]; [|intros [= <- <-]; by left].
  destruct (clock b); cbn [negb]; [|intros [= <- <-]; by left].
  destruct (inventory_bound b) eqn:Hb; [intros [= <- <-]; by left|].
  destruct (allowance_ms s c) as [a|]; [|intros [= <- <-]; by left].
  destruct (add_ms (started_ms b) a) as [h|] eqn:Ha; [|intros [= <- <-]; by left].
  intros [= <- <-]. right. split; [done|]. by exists a, dg.
Qed.

Lemma progress_cases b ph pos n n' rc b' : vault_mutation_budget_progress b ph pos n n' = (rc, b') ->
  (rc = -1 /\ b' = b) \/ rc = 0 /\ regress b ph pos = false /\ inventory_bound b' = inventory_bound b
    /\ hard_deadline_ms b' = hard_deadline_ms b /\ cleanup_active b' = cleanup_active b
    /\ cleanup_deadline_ms b' = cleanup_deadline_ms b
    /\ progress_valid b' = true /\ progress_phase b' = ph /\ progress_position b' = pos.
Proof.
  unfold vault_mutation_budget_progress. destruct (_ || _) eqn:G; [intros [= <- <-]; by left|].
  bool_to_prop. destruct (add_ms _ _); intros [= <- <-]; [right | left]; by split_and!.
Qed.

Lemma cleanup_cases b n rc b' : vault_mutation_budget_begin_cleanup b n = (rc, b') ->
  b' = b \/ cleanup_active b = false /\ add_ms (now_ms b n) VAULT_MUTATION_BUDGET_CLEANUP_MS = Some (cleanup_deadline_ms b')
    /\ cleanup_active b' = true /\ inventory_bound b' = inventory_bound b
    /\ hard_deadline_ms b' = hard_deadline_ms b.
Proof.
  unfold vault_mutation_budget_begin_cleanup. destruct (_ <? 0); [intros [= <- <-]; by left|].
  destruct (cleanup_active b); [intros [= <- <-]; by left|].
  destruct (add_ms _ _) as [d|]; intros [= <- <-]; [right | by left]. by split_and!.
Qed.

Lemma step_fixed b b' : step b b' -> fixed b b'.
Proof.
  intros []; [destruct (bind_cases _ _ _ _ _ _ _ H) as [->|(Hn & a & dg & _ & _ & _ & Hb & Hc & Hd & _)]
             | destruct (progress_cases _ _ _ _ _ _ _ H) as [[_ ->]|(_ & _ & Hb & Hh & Hc & Hd & _)]
             | destruct (cleanup_cases _ _ _ _ H) as [->|(Hn & _ & Hc & Hb & Hh)]];
    split; intros E; split; congruence.
Qed.

Lemma later_fixed b b' : later b b' -> fixed b b'.
Proof.
  induction 1 as [b | b b1 b2 _ [IH1 IH2] S]; [by split|].
  apply step_fixed in S as [S1 S2]. split; intros E.
  - destruct (IH1 E) as [E1 E2], (S1 E1) as [E3 E4]. split; congruence.
  - destruct (IH2 E) as [E1 E2], (S2 E1) as [E3 E4]. split; congruence.
Qed.

(** A granted deadline is clipped by the ceiling in force. *)
Lemma deadline_clipped b per n d : vault_mutation_budget_deadline_ms b per n = d -> d <> -1 ->
  n < (if cleanup_active b then cleanup_deadline_ms b else stall_deadline_ms b)
  /\ d <= n + per
  /\ (if cleanup_active b then d <= cleanup_deadline_ms b
      else d <= stall_deadline_ms b /\ (inventory_bound b = true -> n < hard_deadline_ms b /\ d <= hard_deadline_ms b)).
Proof.
  unfold vault_mutation_budget_deadline_ms, now_ms. destruct (clock b); [|intros <-; by intros []].
  destruct (_ || _) eqn:G; [by intros <- []|]. unfold add_ms.
  destruct (_ || _) eqn:G2 in |- *; [by intros <- []|]. bool_to_prop.
  destruct (cleanup_active b).
  - destruct (Z.leb_spec (cleanup_deadline_ms b) n); [by intros <- []|].
    destruct (Z.ltb_spec (n + per) (cleanup_deadline_ms b)); intros <- _; lia.
  - destruct (Z.leb_spec (stall_deadline_ms b) n); [by intros <- []|]. cbn [orb].
    destruct (inventory_bound b); cbn [andb].
    + destruct (Z.leb_spec (hard_deadline_ms b) n); [by intros <- []|].
      destruct (Z.ltb_spec (stall_deadline_ms b) (n + per));
        match goal with |- context [?x <? ?y] => destruct (Z.ltb_spec x y) end; intros <- _; lia.
    + destruct (Z.ltb_spec (stall_deadline_ms b) (n + per)); intros <- _; (split_and!; [lia..|done]).
Qed.

(** Accepted progress tokens of a sequence of attempts, in order. *)
Fixpoint tokens (b : vault_mutation_budget_t) (ps : list (Z * Z * (Z * Z))) : list (Z * Z) :=
  match ps with
  | [] => []
  | (ph, pos, (n, n')) :: ps =>
      let r := vault_mutation_budget_progress b ph pos n n' in
      if r.1 =? 0 then (ph, pos) :: tokens r.2 ps else tokens r.2 ps
  end.

Definition token_lt (a b : Z * Z) : Prop := a.1 < b.1 \/ a.1 = b.1 /\ a.2 < b.2.

Lemma tokens_above b ps : progress_valid b = true ->
  Forall (token_lt (progress_phase b, progress_position b)) (tokens b ps).
Proof.
  revert b. induction ps as [|[[ph pos] [n n']] ps IH]; intros b Hv; cbn [tokens]; [constructor|].
  destruct (vault_mutation_budget_progress b ph pos n n') as [rc b'] eqn:E. cbn [fst snd].
  apply progress_cases in E as [[-> ->]|(-> & Hr & _ & _ & _ & _ & Hv' & Hp & Hq)]; [by apply IH|].
  cbn [Z.eqb]. unfold regress in Hr. rewrite Hv in Hr. cbn [andb] in Hr.
  assert (token_lt (progress_phase b, progress_position b) (ph, pos)) as Hlt
    by (unfold token_lt; cbn [fst snd]; bool_to_prop; apply andb_false_iff in H0 as [?|?]; bool_to_prop; lia).
  apply Forall_cons_2; [done|]. eapply Forall_impl; [apply (IH b' Hv')|].
  rewrite Hp, Hq. unfold token_lt in *. cbn [fst snd] in *. intros x. lia.
Qed.
(** ** Properties *)

(** The overall ceiling is exact: binding an inventory to a fresh budget
    sets the hard deadline to start + 190000 + 2000 * database calls + 100 *
    cryptographic operations when that value fits in 63 bits, and otherwise
    refuses and changes nothing; no intermediate overflow can produce a
    smaller ceiling. *)
Theorem budget_allowance_exact b s c d n rc b' : 0 <= s < 2 ^ 64 -> 0 <= c < 2 ^ 64 ->
  0 <= started_ms b -> clock b = true -> inventory_bound b = false ->
  vault_mutation_budget_bind_inventory b s c (Some d) n = (rc, b') ->
  if started_ms b + allowance_formula s c <=? INT64_MAX
  then inventory_bound b' = true /\ hard_deadline_ms b' = started_ms b + allowance_formula s c
       /\ (rc = 0 <-> vault_mutation_budget_expired b' n = false)
  else rc = -1 /\ b' = b.
Proof.
  intros Hs Hc Hst Hck Hb. unfold vault_mutation_budget_bind_inventory. rewrite Hck, Hb. cbn [negb].
  rewrite allowance_exact by done. unfold add_ms.
  destruct (Z.leb_spec (allowance_formula s c) INT64_MAX) as [Ha|Ha].
  - destruct (Z.ltb_spec (started_ms b) 0); [lia|].
    destruct (Z.ltb_spec INT64_MAX (allowance_formula s c)); [lia|]. cbn [orb].
    destruct (Z.ltb_spec (INT64_MAX - allowance_formula s c) (started_ms b)),
      (Z.leb_spec (started_ms b + allowance_formula s c) INT64_MAX); try lia; intros [= <- <-]; [done|].
    split_and!; [done..|]. by case_match.
  - destruct (Z.leb_spec (started_ms b + allowance_formula s c) INT64_MAX); [lia|]. by intros [= <- <-].
Qed.

(** The ceilings hold: whatever binding, progress and cleanup calls follow,
    the hard deadline of a bound budget and the cleanup deadline of an active
    cleanup never move, and every deadline granted later lies within them (and
    within the requested time). *)
Theorem budget_ceiling_holds b b' per n d : later b b' ->
  vault_mutation_budget_deadline_ms b' per n = d -> d <> -1 ->
  d <= n + per
  /\ (cleanup_active b = true -> n < cleanup_deadline_ms b /\ d <= cleanup_deadline_ms b)
  /\ (inventory_bound b = true -> cleanup_active b' = false ->
      n < hard_deadline_ms b /\ d <= hard_deadline_ms b).
Proof.
  intros L Hd Hne. apply later_fixed in L as [L1 L2].
  destruct (deadline_clipped b' per n d Hd Hne) as (H1 & H2 & H3). split_and!; [done|..].
  - intros Ec. destruct (L2 Ec) as [Ec' E]. rewrite Ec', E in *. done.
  - intros Eb Ec. destruct (L1 Eb) as [Eb' E]. rewrite Ec in H3. destruct H3 as [_ H3].
    rewrite <- E. by apply H3.
Qed.

(** Progress is strict: the tokens accepted over any sequence of attempts
    (with any clock readings) increase strictly in lexicographic order, so a
    repeated token or a phase regression never renews the stall deadline. *)
Theorem budget_progress_strict b ps : StronglySorted token_lt (tokens b ps).
Proof.
  revert b. induction ps as [|[[ph pos] [n n']] ps IH]; intros b; cbn [tokens]; [constructor|].
  destruct (vault_mutation_budget_progress b ph pos n n') as [rc b'] eqn:E. cbn [fst snd].
  apply progress_cases in E as [[-> ->]|(-> & Hr & _ & _ & _ & _ & Hv & Hp & Hq)]; [apply IH|].
  cbn [Z.eqb]. constructor; [apply IH|]. rewrite <- Hp, <- Hq. by apply tokens_above.
Qed.

(** The thread's budget nests: a second budget is refused while one is
    current, and after as many leaves as enters of one budget the thread has
    none again. *)
Theorem budget_nesting p q k : p <> q -> 0 < k <= UINT_MAX ->
  let t0 := {| current_budget := None; current_depth := 0 |} in
  let t := Nat.iter (Z.to_nat k) (fun t => (vault_mutation_budget_enter t (Some p)).2) t0 in
  t = {| current_budget := Some p; current_depth := k |}
  /\ vault_mutation_budget_enter t (Some q) = (-1, t)
  /\ Nat.iter (Z.to_nat k) (fun t => (vault_mutation_budget_leave t (Some p)).2) t = t0.
Proof.
  intros Hpq Hk t0 t. assert (t = {| current_budget := Some p; current_depth := k |}) as ->.
  { unfold t. cut (forall n : nat, Z.of_nat n <= UINT_MAX -> (0 < n)%nat ->
      Nat.iter n (fun t => (vault_mutation_budget_enter t (Some p)).2) t0
      = {| current_budget := Some p; current_depth := Z.of_nat n |}).
    { intros Hcut. rewrite Hcut by lia. by rewrite Z2Nat.id by lia. }
    induction n as [|n IH]; intros Hn Hpos; [lia|]. rewrite Nat.iter_succ.
    destruct (decide (n = 0%nat)) as [->|Hnz]; [done|]. rewrite IH by lia.
    unfold vault_mutation_budget_enter. cbn [current_budget current_depth].
    rewrite bool_decide_true by done. cbn [negb orb].
    destruct (Z.eqb_spec (Z.of_nat n) UINT_MAX); [lia|]. cbn [snd]. f_equal. lia. }
  split; [done|]. split.
  - unfold vault_mutation_budget_enter. cbn [current_budget]. by rewrite bool_decide_false.
  - cut (forall n m : nat, Nat.iter n (fun t => (vault_mutation_budget_leave t (Some p)).2)
      {| current_budget := Some p; current_depth := Z.of_nat (S m + n) |}
      = {| current_budget := Some p; current_depth := Z.of_nat (S m) |}).
    { intros Hcut. destruct (Z.to_nat k) as [|n] eqn:En; [lia|]. rewrite Nat.iter_succ.
      replace k with (Z.of_nat (1 + n)) by lia. rewrite (Hcut n 0%nat).
      unfold vault_mutation_budget_leave. cbn [current_budget]. by rewrite bool_decide_true. }
    induction n as [|n IH]; intros m; [by rewrite Nat.add_0_r|]. rewrite Nat.iter_succ.
    replace (S m + S n)%nat with (S (S m) + n)%nat by lia. rewrite IH.
    unfold vault_mutation_budget_leave. cbn [current_budget current_depth].
    rewrite bool_decide_true by done. cbn [negb orb].
    destruct (Z.eqb_spec (Z.of_nat (S (S m))) 0); [lia|].
    destruct (Z.eqb_spec (Z.of_nat (S (S m)) - 1) 0); [lia|]. cbn [snd]. f_equal. lia.
Qed.

(** ** Samples *)

Definition sample : vault_mutation_budget_t := (vault_mutation_budget_init_with_clock 1000).2.

Definition sample_bound : vault_mutation_budget_t :=
  (vault_mutation_budget_bind_inventory sample 10 4 (Some (replicate 32 1)) 1001).2.

Lemma budget_allowance_exact_witness :
  inventory_bound sample_bound = true
  /\ hard_deadline_ms sample_bound = 1000 + (190000 + 2000 * (64 + 10 + 4 + 2 + 3) + 100 * 46).
Proof.
  pose proof (budget_allowance_exact sample 10 4 (replicate 32 1) 1001 0 sample_bound
    ltac:(lia) ltac:(lia) ltac:(vm_compute; discriminate) eq_refl eq_refl eq_refl) as H.
  split; apply H.
Defined.

Lemma budget_ceiling_holds_witness :
  let b := (vault_mutation_budget_begin_cleanup sample_bound 2000).2 in
  let b' := (vault_mutation_budget_progress b 1 1 2100 2100).2 in
  vault_mutation_budget_deadline_ms b' 9000 2200 = 7000 /\ 7000 <= cleanup_deadline_ms b.
Proof.
  intros b b'. assert (vault_mutation_budget_deadline_ms b' 9000 2200 = 7000) as E by reflexivity.
  split; [exact E|].
  refine (proj2 (proj1 (proj2 (budget_ceiling_holds b b' 9000 2200 7000 _ E _)) _)).
  - eapply later_step; [apply later_refl|]. apply (step_progress b 1 1 2100 2100 0). reflexivity.
  - discriminate.
  - reflexivity.
Defined.

Lemma budget_nesting_witness :
  Nat.iter 3 (fun t => (vault_mutation_budget_leave t (Some 1%positive)).2)
    (Nat.iter 3 (fun t => (vault_mutation_budget_enter t (Some 1%positive)).2)
      {| current_budget := None; current_depth := 0 |})
  = {| current_budget := None; current_depth := 0 |}.
Proof. apply (budget_nesting 1%positive 2%positive 3); [discriminate | unfold UINT_MAX; lia]. Defined.

End MutationBudget.
