(* ===== verification/KekCache.v ===== *)
(** * KEK cache ([src/src/modules/vault/vault_kek_cache.c])

    The RAM-only cache of key-encryption keys: 64 slots keyed by principal,
    each with an expiry time, under one lock (so each call is one atomic
    step).  [pthread_atfork] is a parameter, the value the C library returns
    when the child handler is registered, on the first call that needs it.  The abstract state at a
    time is the map of the live entries.  Shown: the calls refine the map
    operations; a key past its expiry is never returned; a full cache refuses
    a new principal and keeps every live key; a forked child gets nothing. *)

From Stdlib Require Import ZArith Lia String Ascii.
From stdpp Require Import base numbers option list gmap fin_maps.
From S2P Require Import Prelude.
From S2P Require Import SlotTable.

Module KekCache.

Definition VAULT_KEK_CACHE_SLOTS : nat := 64.
Definition VAULT_KEK_CACHE_TTL_SECONDS : Z := 900.
Definition VAULT_PRINCIPAL_MAX : nat := 160.
Definition VAULT_KEK_LEN : nat := 32.

Record kek_slot_t := {
  used : bool;
  principal : bytes;
  kek : bytes;
  expires_epoch : Z
}.

(** The file's static variables; [g_atfork_once] says whether the
    [pthread_once] routine has run. *)
Record cache := {
  g_slots : list kek_slot_t;
  g_fork_child_invalid : bool;
  g_atfork_once : bool;
  g_atfork_status : Z
}.

Definition zero_slot : kek_slot_t :=
  {| used := false; principal := []; kek := replicate VAULT_KEK_LEN 0; expires_epoch := 0 |}.

Definition set_slots (c : cache) (slots : list kek_slot_t) : cache :=
  {| g_slots := slots; g_fork_child_invalid := g_fork_child_invalid c;
     g_atfork_once := g_atfork_once c; g_atfork_status := g_atfork_status c |}.

Definition init_cache : cache :=
  {| g_slots := replicate VAULT_KEK_CACHE_SLOTS zero_slot; g_fork_child_invalid := false;
     g_atfork_once := false; g_atfork_status := -1 |}.

(** The child hook zeroes the slot array and sets the flag. *)
Definition vault_kek_cache_after_fork_child (c : cache) : cache :=
  {| g_slots := replicate VAULT_KEK_CACHE_SLOTS zero_slot; g_fork_child_invalid := true;
     g_atfork_once := g_atfork_once c; g_atfork_status := g_atfork_status c |}.

Section ops.
Context (pthread_atfork : Z).

Definition register_atfork_once (c : cache) : cache :=
  {| g_slots := g_slots c; g_fork_child_invalid := g_fork_child_invalid c;
     g_atfork_once := true; g_atfork_status := pthread_atfork |}.

(** The conjunction is evaluated from the left: a child that has been
    invalidated does not register anything. *)
Definition cache_ready (c : cache) : Z * cache :=
  if g_fork_child_invalid c then (-1, c)
  else
    let c := if g_atfork_once c then c else register_atfork_once c in
    (if g_atfork_status c =? 0 then 0 else -1, c).

Definition slot_clear (s : kek_slot_t) : kek_slot_t :=
  {| used := false; principal := []; kek := replicate VAULT_KEK_LEN 0; expires_epoch := 0 |}.

(** The search loop from index [i]; an expired match is wiped on the way. *)
Fixpoint slot_find_live (i : nat) (slots : list kek_slot_t) (p : bytes) (now : Z)
    : option nat * list kek_slot_t :=
  match slots with
  | [] => (None, [])
  | s :: rest =>
      if negb (used s) || negb (bytes_eqb (principal s) p)
      then let '(f, rest) := slot_find_live (S i) rest p now in (f, s :: rest)
      else if expires_epoch s <=? now then (None, slot_clear s :: rest)
      else (Some i, s :: rest)
  end.

(** The reaping scan of [vault_kek_cache_put]: expired slots are wiped, the
    first free one is remembered. *)
Definition reap (now : Z) (s : kek_slot_t) : kek_slot_t :=
  if used s && (expires_epoch s <=? now) then slot_clear s else s.

Fixpoint reap_loop (now : Z) (i : nat) (found : option nat) (slots : list kek_slot_t)
    : option nat * list kek_slot_t :=
  match slots with
  | [] => (found, [])
  | s :: rest =>
      let s := reap now s in
      let found := if negb (used s) then match found with None => Some i | f => f end else found in
      let '(f, rest) := reap_loop now (S i) found rest in (f, s :: rest)
  end.

Definition vault_kek_cache_put (c : cache) (p : option bytes) (k : option bytes) (now : Z) : Z * cache :=
  let '(ready, c) := cache_ready c in
  match p, k with
  | Some p, Some k =>
      if negb (ready =? 0) || bool_decide (p = []) || (Z.of_nat VAULT_PRINCIPAL_MAX <=? zlen p)
      then (-1, c)
      else
        let '(s, slots) := slot_find_live 0 (g_slots c) p now in
        let '(s, slots) := match s with Some i => (Some i, slots) | None => reap_loop now 0 None slots end in
        match s with
        | Some i =>
            (0, set_slots c (<[i := {| used := true; principal := snprintf_s VAULT_PRINCIPAL_MAX p;
                                       kek := k; expires_epoch := now + VAULT_KEK_CACHE_TTL_SECONDS |}]> slots))
        | None => (-1, set_slots c slots)
        end
  | _, _ => (-1, c)
  end.

(** The return value, the bytes left in a non-null [kek_out], and the cache. *)
Definition vault_kek_cache_get (c : cache) (p : option bytes) (now : Z) : Z * bytes * cache :=
  let cleansed := replicate VAULT_KEK_LEN 0 in
  let '(ready, c) := cache_ready c in
  match p with
  | None => (-1, cleansed, c)
  | Some p =>
      if negb (ready =? 0) then (-1, cleansed, c)
      else
        let '(s, slots) := slot_find_live 0 (g_slots c) p now in
        match s ≫= (fun i => slots !! i) with
        | Some s => (0, kek s, set_slots c slots)
        | None => (-1, cleansed, set_slots c slots)
        end
  end.

Definition vault_kek_cache_has (c : cache) (p : option bytes) (now : Z) : Z * cache :=
  let '(ready, c) := cache_ready c in
  match p with
  | None => (0, c)
  | Some p =>
      if negb (ready =? 0) then (0, c)
      else
        match slot_find_live 0 (g_slots c) p now with
        | (Some _, slots) => (1, set_slots c slots)
        | (None, slots) => (0, set_slots c slots)
        end
  end.

Definition vault_kek_cache_evict (c : cache) (p : option bytes) : cache :=
  let '(ready, c) := cache_ready c in
  match p with
  | None => c
  | Some p =>
      if negb (ready =? 0) then c
      else set_slots c (map (fun s => if used s && bytes_eqb (principal s) p then slot_clear s else s)
                          (g_slots c))
  end.

Definition vault_kek_cache_clear (c : cache) : cache :=
  let '(ready, c) := cache_ready c in
  if negb (ready =? 0) then c
  else set_slots c (map (fun s => if used s then slot_clear s else s) (g_slots c)).

(** The counting loop: an expired slot is wiped, a live one counted. *)
Fixpoint count_loop (now : Z) (n : Z) (slots : list kek_slot_t) : Z * list kek_slot_t :=
  match slots with
  | [] => (n, [])
  | s :: rest =>
      if negb (used s) then let '(n, rest) := count_loop now n rest in (n, s :: rest)
      else if expires_epoch s <=? now
      then let '(n, rest) := count_loop now n rest in (n, slot_clear s :: rest)
      else let '(n, rest) := count_loop now (n + 1) rest in (n, s :: rest)
  end.

Definition vault_kek_cache_count (c : cache) (now : Z) : Z * cache :=
  let '(ready, c) := cache_ready c in
  if negb (ready =? 0) then (0, c)
  else let '(n, slots) := count_loop now 0 (g_slots c) in (n, set_slots c slots).

(** ** The abstract map *)

Definition entry (s : kek_slot_t) : option (bytes * (bytes * Z)) :=
  if used s then Some (principal s, (kek s, expires_epoch s)) else None.

Definition alive (now : Z) (e : bytes * (bytes * Z)) : Prop := now < e.2.2.

#[global] Instance alive_dec now e : Decision (alive now e).
Proof. unfold alive. apply _. Defined.

(** The live entries at a time. *)
Definition live (now : Z) (slots : list kek_slot_t) : gmap bytes (bytes * Z) :=
  filter (alive now) (abs entry slots).

Definition wf_cache (c : cache) : Prop :=
  length (g_slots c) = VAULT_KEK_CACHE_SLOTS /\ distinct entry (g_slots c).

Lemma live_lookup now slots p k e : live now slots !! p = Some (k, e) <->
  abs entry slots !! p = Some (k, e) /\ now < e.
Proof. unfold live. rewrite map_lookup_filter_Some. done. Qed.

Lemma entry_used s : used s = true -> entry s = Some (principal s, (kek s, expires_epoch s)).
Proof. intros E. unfold entry. by rewrite E. Qed.

(** Wiping an entry that is expired leaves the live map alone. *)
Lemma wipe_expired now slots i s : distinct entry slots -> slots !! i = Some s -> used s = true ->
  expires_epoch s <= now ->
  distinct entry (<[i := slot_clear s]> slots) /\ live now (<[i := slot_clear s]> slots) = live now slots
  /\ abs entry (<[i := slot_clear s]> slots) ⊆ abs entry slots.
Proof.
  intros Hd Hi Hu He. pose proof (entry_used s Hu) as Hs.
  destruct (abs_free entry slots i s (slot_clear s) _ _ Hd Hi Hs eq_refl) as [D E].
  split_and!; [done| |rewrite E; apply delete_subseteq].
  unfold live. rewrite E. rewrite map_filter_delete, delete_id; [done|].
  apply map_lookup_filter_None_2. right. intros [k e] Hl Ha.
  rewrite (abs_lookup entry slots i s _ _ Hd Hi Hs) in Hl. injection Hl as <- <-.
  unfold alive in Ha. cbn in Ha. lia.
Qed.

Lemma find_live_spec slots p now : distinct entry slots ->
  match slot_find_live 0 slots p now with
  | (Some i, slots') => slots' = slots /\ exists s, slots !! i = Some s /\ used s = true
      /\ principal s = p /\ live now slots !! p = Some (kek s, expires_epoch s)
  | (None, slots') => live now slots !! p = None /\ distinct entry slots'
      /\ live now slots' = live now slots /\ length slots' = length slots
      /\ abs entry slots' ⊆ abs entry slots
  end.
Proof.
  intros Hd.
  assert (forall n,
    match slot_find_live n slots p now with
    | (Some i, slots') => slots' = slots /\ exists j s, i = (n + j)%nat /\ slots !! j = Some s /\ used s = true
        /\ principal s = p /\ now < expires_epoch s
    | (None, slots') => (slots' = slots /\ forall j s, slots !! j = Some s -> used s = true -> principal s <> p)
        \/ exists j s, slots !! j = Some s /\ used s = true /\ principal s = p
             /\ expires_epoch s <= now /\ slots' = <[j := slot_clear s]> slots
    end) as L.
  { clear Hd. induction slots as [|s rest IH]; intros n; cbn [slot_find_live].
    { left. split; [done|]. intros j s Hj. by rewrite lookup_nil in Hj. }
    destruct (negb (used s) || negb (bytes_eqb (principal s) p)) eqn:G.
    - specialize (IH (S n)). destruct (slot_find_live (S n) rest p now) as [[i|] rest'].
      + destruct IH as (-> & j & s' & -> & Hj). split; [done|]. exists (S j), s'. split; [lia | done].
      + destruct IH as [[-> Hno]|(j & s' & Hj & Hu & Hp & He & ->)].
        * left. split; [done|]. intros [|j] s' Hj Hu Hp; cbn in Hj; [|by apply (Hno j s')].
          injection Hj as ->. rewrite Hu, Hp, bytes_eqb_refl in G. done.
        * right. exists (S j), s'. by split_and!.
    - apply orb_false_iff in G as [G1 G2]. apply negb_false_iff in G1, G2. apply bytes_eqb_true in G2.
      destruct (Z.leb_spec (expires_epoch s) now).
      + right. exists 0%nat, s. by split_and!.
      + split; [done|]. exists 0%nat, s. split_and!; [lia | done..]. }
  specialize (L 0%nat). destruct (slot_find_live 0 slots p now) as [[i|] slots'].
  - destruct L as (-> & j & s & -> & Hj & Hu & Hp & He). split; [done|]. exists s. cbn.
    split_and!; [done..|]. apply live_lookup. split; [|done]. rewrite <- Hp.
    eapply abs_lookup; [done..|]. by apply entry_used.
  - destruct L as [[-> Hno]|(j & s & Hj & Hu & Hp & He & ->)].
    + split_and!; try done. unfold live. apply map_lookup_filter_None_2. left.
      apply abs_lookup_none. intros j s v Hj Hs. unfold entry in Hs. destruct (used s) eqn:Hu; [|done].
      injection Hs as Hs _. by apply (Hno j s).
    + destruct (wipe_expired now slots j s Hd Hj Hu He) as (D & E & Hsub).
      split_and!; [|done|done|apply length_insert|done]. unfold live. apply map_lookup_filter_None_2. right.
      intros [k e] Hl Ha. rewrite <- Hp, (abs_lookup entry slots j s _ _ Hd Hj (entry_used s Hu)) in Hl.
      injection Hl as <- <-. unfold alive in Ha. cbn in Ha. lia.
Qed.

(** Reaping keeps exactly the live entries. *)
Lemma reap_map now slots : distinct entry slots ->
  distinct entry (map (reap now) slots) /\ abs entry (map (reap now) slots) = live now slots.
Proof.
  apply abs_retain. intros s. unfold reap, entry, alive. destruct (used s) eqn:Hu; cbn; [|by rewrite Hu].
  destruct (Z.leb_spec (expires_epoch s) now); cbn; [by rewrite decide_False by lia|].
  rewrite Hu. by rewrite decide_True by lia.
Qed.

Lemma live_live now slots slots' : abs entry slots' = live now slots -> live now slots' = live now slots.
Proof.
  intros E. unfold live at 1. rewrite E. apply map_filter_id.
  intros ? ? [_ ?]%map_lookup_filter_Some. done.
Qed.

Lemma live_sub now slots : live now slots ⊆ abs entry slots.
Proof. apply map_filter_subseteq. Qed.

Lemma reap_loop_eq now slots i found : reap_loop now i found slots =
  (match found with
   | Some f => Some f
   | None => (fun n => (i + n)%nat) <$> (fst <$> list_find (fun s => used s = false) (map (reap now) slots))
   end, map (reap now) slots).
Proof.
  revert i found. induction slots as [|s rest IH]; intros i found; [by destruct found|].
  cbn [reap_loop map list_find]. destruct (used (reap now s)) eqn:Hu; cbn [negb]; rewrite IH.
  - rewrite decide_False by done. destruct found; [done|]. f_equal.
    destruct (list_find _ _) as [[n x]|]; cbn; [f_equal; lia | done].
  - destruct found; [done|]. rewrite decide_True by done. cbn. do 2 f_equal. lia.
Qed.

(** What [put] does to the live map. *)
Definition put_ok (now : Z) (slots : list kek_slot_t) (p : bytes) : bool :=
  bool_decide (is_Some (live now slots !! p)) || bool_decide (size (live now slots) < VAULT_KEK_CACHE_SLOTS)%nat.

Lemma live_insert now slots slots' p k e : abs entry slots' = <[p := (k, e)]> (abs entry slots) ->
  now < e -> live now slots' = <[p := (k, e)]> (live now slots).
Proof. intros E He. unfold live. rewrite E. by rewrite map_filter_insert_True. Qed.

Lemma ready_slots c : g_slots (cache_ready c).2 = g_slots c.
Proof. unfold cache_ready. destruct (g_fork_child_invalid c), (g_atfork_once c); done. Qed.

(** The two outcomes of [put]. *)
Lemma put_outcome c p k now rc c' : wf_cache c -> vault_kek_cache_put c (Some p) (Some k) now = (rc, c') ->
  wf_cache c' /\
  (if bool_decide ((cache_ready c).1 = 0 /\ (0 < length p < VAULT_PRINCIPAL_MAX)%nat) && put_ok now (g_slots c) p
   then rc = 0 /\ live now (g_slots c')
                  = <[p := (k, now + VAULT_KEK_CACHE_TTL_SECONDS)]> (live now (g_slots c))
   else rc = -1 /\ live now (g_slots c') = live now (g_slots c)) /\
  abs entry (g_slots c') ⊆ (if rc =? 0 then <[p := (k, now + VAULT_KEK_CACHE_TTL_SECONDS)]> (abs entry (g_slots c))
                            else abs entry (g_slots c)).
Proof.
  intros [Hl Hd]. unfold vault_kek_cache_put. pose proof (ready_slots c) as Hrs.
  destruct (cache_ready c) as [ready c1]. cbn [fst snd] in *. rewrite <- Hrs in *. clear Hrs.
  destruct (negb (ready =? 0) || bool_decide (p = []) || (Z.of_nat VAULT_PRINCIPAL_MAX <=? zlen p)) eqn:G.
  { intros [= <- <-]. rewrite bool_decide_false; [by split_and!|]. intros [-> Hp].
    rewrite bool_decide_false in G by (intros ->; cbn in Hp; lia).
    cbn in G. apply Z.leb_le in G. unfold zlen in G. lia. }
  apply orb_false_iff in G as [[G1%negb_false_iff%Z.eqb_eq G2%bool_decide_eq_false]%orb_false_iff G3%Z.leb_gt].
  assert (0 < length p < VAULT_PRINCIPAL_MAX)%nat as Hp
    by (destruct p; [done | unfold zlen in G3; cbn [length] in *; lia]).
  rewrite bool_decide_true by done. cbn [andb]. rewrite snprintf_s_fits by lia.
  set (new := {| used := true; principal := p; kek := k; expires_epoch := now + VAULT_KEK_CACHE_TTL_SECONDS |}).
  assert (now < now + VAULT_KEK_CACHE_TTL_SECONDS) as Hfut by (unfold VAULT_KEK_CACHE_TTL_SECONDS; lia).
  pose proof (find_live_spec (g_slots c1) p now Hd) as F.
  destruct (slot_find_live 0 (g_slots c1) p now) as [[i|] slots].
  - destruct F as (-> & s & Hi & Hu & Hps & Hlive). intros [= <- <-]. cbn [g_slots set_slots Z.eqb].
    unfold put_ok. rewrite bool_decide_true by eauto. cbn [orb].
    destruct (abs_update entry (g_slots c1) i s new p (kek s, expires_epoch s)
      (k, now + VAULT_KEK_CACHE_TTL_SECONDS) Hd Hi) as [D E];
      [rewrite entry_used by done; by rewrite Hps | done|].
    unfold wf_cache; cbn [g_slots set_slots]. split_and!; [by rewrite length_insert | done | done | by apply live_insert | by rewrite E].
  - destruct F as (Hnone & Hd' & Hlive & Hlen & Hsub). unfold put_ok. rewrite Hnone.
    rewrite (bool_decide_false (is_Some None)) by (by intros []). cbn [orb].
    rewrite reap_loop_eq. destruct (reap_map now slots Hd') as [Dr Er]. rewrite Hlive in Er.
    pose proof (free_slot_iff entry (map (reap now) slots) Dr) as Hfree.
    rewrite length_map, Hlen, Hl, Er in Hfree. pose proof (live_live _ _ _ Er) as Elr.
    destruct (list_find _ (map (reap now) slots)) as [[i s]|] eqn:Ef; cbn [fmap option_fmap option_map fst].
    + apply list_find_Some in Ef as (Hi & Hu & _). intros [= <- <-]. cbn [g_slots set_slots Z.eqb].
      assert (entry s = None) as Hs by (unfold entry; by rewrite Hu).
      rewrite bool_decide_true by (apply Hfree; eauto).
      destruct (abs_fresh entry _ i s new p (k, now + VAULT_KEK_CACHE_TTL_SECONDS) Dr Hi Hs
        ltac:(by rewrite Er) eq_refl) as [D E].
      unfold wf_cache; cbn [g_slots set_slots]. split_and!; [by rewrite length_insert, length_map, Hlen | done | done | |].
      * rewrite (live_insert now _ _ _ _ _ E Hfut). by rewrite Elr.
      * rewrite E, Er. apply insert_mono, live_sub.
    + apply list_find_None in Ef. rewrite Forall_lookup in Ef. intros [= <- <-]. cbn [g_slots set_slots Z.eqb].
      rewrite bool_decide_false.
      2: { intros Hsz. apply Hfree in Hsz as (i & s & Hi & Hs). specialize (Ef i s Hi).
           unfold entry in Hs. by destruct (used s). }
      unfold wf_cache; cbn [g_slots set_slots]. split_and!; [by rewrite length_map, Hlen | done | done | done | rewrite Er; apply live_sub].
Qed.

(** What the lookups do: the answer is the live entry, and the live map is
    kept. *)
Lemma get_outcome c p now rc out c' : wf_cache c -> vault_kek_cache_get c (Some p) now = (rc, out, c') ->
  wf_cache c' /\ live now (g_slots c') = live now (g_slots c) /\ abs entry (g_slots c') ⊆ abs entry (g_slots c)
  /\ (rc, out) = (if (cache_ready c).1 =? 0 then
                    match live now (g_slots c) !! p with
                    | Some (k, _) => (0, k) | None => (-1, replicate VAULT_KEK_LEN 0) end
                  else (-1, replicate VAULT_KEK_LEN 0)).
Proof.
  intros [Hl Hd]. unfold vault_kek_cache_get. pose proof (ready_slots c) as Hrs.
  destruct (cache_ready c) as [ready c1]. cbn [fst snd] in *. rewrite <- Hrs in *. clear Hrs.
  destruct (ready =? 0); cbn [negb]; [|by intros [= <- <- <-]].
  pose proof (find_live_spec (g_slots c1) p now Hd) as F.
  destruct (slot_find_live 0 (g_slots c1) p now) as [[i|] slots]; cbn [mbind option_bind].
  - destruct F as (-> & s & Hi & Hu & Hps & Hlive). rewrite Hi, Hlive. by intros [= <- <- <-].
  - destruct F as (Hnone & Hd' & Hlive & Hlen & Hsub). rewrite Hnone. intros [= <- <- <-].
    unfold wf_cache. cbn [g_slots set_slots]. split_and!; try done. by rewrite Hlen.
Qed.

Lemma has_outcome c p now rc c' : wf_cache c -> vault_kek_cache_has c (Some p) now = (rc, c') ->
  wf_cache c' /\ live now (g_slots c') = live now (g_slots c) /\ abs entry (g_slots c') ⊆ abs entry (g_slots c)
  /\ rc = (if ((cache_ready c).1 =? 0) && bool_decide (is_Some (live now (g_slots c) !! p)) then 1 else 0).
Proof.
  intros [Hl Hd]. unfold vault_kek_cache_has. pose proof (ready_slots c) as Hrs.
  destruct (cache_ready c) as [ready c1]. cbn [fst snd] in *. rewrite <- Hrs in *. clear Hrs.
  destruct (ready =? 0); cbn [negb andb]; [|by intros [= <- <-]].
  pose proof (find_live_spec (g_slots c1) p now Hd) as F.
  destruct (slot_find_live 0 (g_slots c1) p now) as [[i|] slots].
  - destruct F as (-> & s & Hi & Hu & Hps & Hlive). rewrite Hlive, bool_decide_true by eauto.
    by intros [= <- <-].
  - destruct F as (Hnone & Hd' & Hlive & Hlen & Hsub).
    rewrite Hnone, (bool_decide_false (is_Some None)) by (by intros []). intros [= <- <-].
    unfold wf_cache. cbn [g_slots set_slots]. split_and!; try done. by rewrite Hlen.
Qed.

Lemma evict_outcome c p : wf_cache c ->
  wf_cache (vault_kek_cache_evict c (Some p))
  /\ abs entry (g_slots (vault_kek_cache_evict c (Some p)))
     = if (cache_ready c).1 =? 0 then delete p (abs entry (g_slots c)) else abs entry (g_slots c).
Proof.
  intros [Hl Hd]. unfold vault_kek_cache_evict. pose proof (ready_slots c) as Hrs.
  destruct (cache_ready c) as [ready c1]. cbn [fst snd] in *. rewrite <- Hrs in *. clear Hrs.
  destruct (ready =? 0); cbn [negb]; [|done]. unfold wf_cache; cbn [g_slots set_slots].
  set (f := fun s => if used s && bytes_eqb (principal s) p then slot_clear s else s).
  destruct (abs_retain entry f (fun e => e.1 <> p) (g_slots c1)) as [D E]; [|done|].
  - intros s. unfold f, entry. destruct (used s) eqn:Hu; cbn; [|by rewrite Hu].
    destruct (bytes_eqb (principal s) p) eqn:Hp.
    + apply bytes_eqb_true in Hp. by rewrite decide_False by (by intros []).
    + rewrite Hu, decide_True; [done|]. intros Hq. rewrite Hq, bytes_eqb_refl in Hp. done.
  - rewrite length_map. split_and!; [done..|]. rewrite E. apply map_eq. intros q. apply option_eq. intros v.
    rewrite map_lookup_filter_Some, lookup_delete_Some. cbn. split; intros []; split; congruence.
Qed.

Lemma clear_outcome c : wf_cache c -> wf_cache (vault_kek_cache_clear c)
  /\ abs entry (g_slots (vault_kek_cache_clear c))
     = if (cache_ready c).1 =? 0 then ∅ else abs entry (g_slots c).
Proof.
  intros [Hl Hd]. unfold vault_kek_cache_clear. pose proof (ready_slots c) as Hrs.
  destruct (cache_ready c) as [ready c1]. cbn [fst snd] in *. rewrite <- Hrs in *. clear Hrs.
  destruct (ready =? 0); cbn [negb]; [|done]. unfold wf_cache; cbn [g_slots set_slots].
  set (f := fun s => if used s then slot_clear s else s).
  destruct (abs_retain entry f (fun _ => False) (g_slots c1)) as [D E]; [|done|].
  - intros s. unfold f, entry. destruct (used s) eqn:Hu; cbn; [done | by rewrite Hu].
  - rewrite length_map. split_and!; [done..|]. rewrite E. apply map_empty. intros q.
    apply map_lookup_filter_None_2. right. intros ? _ [].
Qed.

Lemma count_loop_eq now n slots : count_loop now n slots =
  (n + Z.of_nat (length (SlotTable.used entry (map (reap now) slots))), map (reap now) slots).
Proof.
  revert n. induction slots as [|s rest IH]; intros n; [cbn; f_equal; lia|].
  cbn [count_loop]. rewrite map_cons, used_cons.
  assert (reap now s = if used s then if expires_epoch s <=? now then slot_clear s else s else s) as ->
    by (unfold reap; by destruct (used s)).
  destruct (used s) eqn:Hu; cbn [negb]; [destruct (expires_epoch s <=? now)|]; rewrite IH.
  - done.
  - rewrite entry_used by done. cbn [length]. f_equal. lia.
  - unfold entry at 2. by rewrite Hu.
Qed.

Lemma count_outcome c now n c' : wf_cache c -> vault_kek_cache_count c now = (n, c') ->
  wf_cache c' /\ live now (g_slots c') = live now (g_slots c) /\ abs entry (g_slots c') ⊆ abs entry (g_slots c)
  /\ n = if (cache_ready c).1 =? 0 then Z.of_nat (size (live now (g_slots c))) else 0.
Proof.
  intros [Hl Hd]. unfold vault_kek_cache_count. pose proof (ready_slots c) as Hrs.
  destruct (cache_ready c) as [ready c1]. cbn [fst snd] in *. rewrite <- Hrs in *. clear Hrs.
  destruct (ready =? 0); cbn [negb]; [|by intros [= <- <-]]. rewrite count_loop_eq.
  destruct (reap_map now (g_slots c1) Hd) as [D E]. intros [= <- <-].
  unfold wf_cache; cbn [g_slots set_slots]. rewrite length_map. split_and!; try done.
  - by apply live_live.
  - rewrite E. apply live_sub.
  - by rewrite <- E, abs_size.
Qed.

(** ** Runs of calls *)

Inductive call :=
  | Put (p k : bytes) (now : Z)
  | Get (p : bytes) (now : Z)
  | Has (p : bytes) (now : Z)
  | Evict (p : bytes)
  | Clear
  | Count (now : Z)
  | Fork.

(** One call: its return value, the bytes it writes out, the new state. *)
Definition step (c : cache) (o : call) : Z * bytes * cache :=
  match o with
  | Put p k now => let '(rc, c) := vault_kek_cache_put c (Some p) (Some k) now in (rc, [], c)
  | Get p now => vault_kek_cache_get c (Some p) now
  | Has p now => let '(rc, c) := vault_kek_cache_has c (Some p) now in (rc, [], c)
  | Evict p => (0, [], vault_kek_cache_evict c (Some p))
  | Clear => (0, [], vault_kek_cache_clear c)
  | Count now => let '(n, c) := vault_kek_cache_count c now in (n, [], c)
  | Fork => (0, [], vault_kek_cache_after_fork_child c)
  end.

(** What the calls so far grant: the key of the last successful put of each
    principal that has not been evicted, cleared or forked away since, with
    its deadline. *)
Definition grant (m : gmap bytes (bytes * Z)) (o : call) (rc : Z) (ready : Z) : gmap bytes (bytes * Z) :=
  match o with
  | Put p k now => if rc =? 0 then <[p := (k, now + VAULT_KEK_CACHE_TTL_SECONDS)]> m else m
  | Evict p => if ready =? 0 then delete p m else m
  | Clear => if ready =? 0 then ∅ else m
  | Fork => ∅
  | _ => m
  end.

Fixpoint run (c : cache) (m : gmap bytes (bytes * Z)) (os : list call) : cache * gmap bytes (bytes * Z) :=
  match os with
  | [] => (c, m)
  | o :: os =>
      let '(rc, _, c') := step c o in run c' (grant m o rc (cache_ready c).1) os
  end.

Definition inv (c : cache) (m : gmap bytes (bytes * Z)) : Prop :=
  wf_cache c /\ abs entry (g_slots c) ⊆ m.

Lemma zero_slots_abs n : abs entry (replicate n zero_slot) = ∅ /\ distinct entry (replicate n zero_slot).
Proof.
  unfold abs, distinct. assert (SlotTable.used entry (replicate n zero_slot) = []) as ->
    by (induction n; [done | exact IHn]). split; [done | constructor].
Qed.

Lemma step_inv c m o rc out c' : inv c m -> step c o = (rc, out, c') ->
  inv c' (grant m o rc (cache_ready c).1).
Proof.
  intros [Hw Hs]. destruct o; cbn [step grant].
  - destruct (vault_kek_cache_put _ _ _ _) as [r c2] eqn:E. intros [= <- <- <-].
    apply put_outcome in E as (? & _ & Hsub); [|done]. split; [done|]. destruct (r =? 0);
      (etrans; [exact Hsub|]); [by apply insert_mono | done].
  - intros E. apply get_outcome in E as (? & _ & ? & _); [|done]. split; [done | by etrans].
  - destruct (vault_kek_cache_has _ _ _) as [r c2] eqn:E. intros [= <- <- <-].
    apply has_outcome in E as (? & _ & ? & _); [|done]. split; [done | by etrans].
  - intros [= <- <- <-]. destruct (evict_outcome c p Hw) as [? E]. split; [done|]. rewrite E.
    destruct (_ =? 0); [by apply delete_mono | done].
  - intros [= <- <- <-]. destruct (clear_outcome c Hw) as [? E]. split; [done|]. rewrite E.
    by destruct (_ =? 0).
  - destruct (vault_kek_cache_count _ _) as [r c2] eqn:E. intros [= <- <- <-].
    apply count_outcome in E as (? & _ & ? & _); [|done]. split; [done | by etrans].
  - intros [= <- <- <-]. destruct (zero_slots_abs VAULT_KEK_CACHE_SLOTS) as [E D].
    split; [split; [apply length_replicate | exact D]|]. cbn [g_slots vault_kek_cache_after_fork_child].
    by rewrite E.
Qed.

Lemma run_inv c m os : inv c m -> inv (run c m os).1 (run c m os).2.
Proof.
  revert c m. induction os as [|o os IH]; intros c m Hi; [done|]. cbn [run].
  destruct (step c o) as [[rc out] c'] eqn:E. apply IH. by eapply step_inv.
Qed.

Lemma init_inv : inv init_cache ∅.
Proof.
  destruct (zero_slots_abs VAULT_KEK_CACHE_SLOTS) as [E D].
  split; [split; [apply length_replicate | exact D]|]. cbn [g_slots init_cache]. by rewrite E.
Qed.

(** C21: after any sequence of calls from program start, a lookup that
    succeeds returns the key of the principal's last successful put that no
    later evict, clear or fork removed, and only before that put's deadline;
    a lookup that fails leaves zeroes. *)
Theorem kek_get_only_granted (os : list call) (p : bytes) (now : Z) :
  let '(c, m) := run init_cache ∅ os in
  let '(rc, out, _) := vault_kek_cache_get c (Some p) now in
  (rc = 0 /\ exists e, m !! p = Some (out, e) /\ now < e)
  \/ (rc = -1 /\ out = replicate VAULT_KEK_LEN 0).
Proof.
  pose proof (run_inv _ _ os init_inv) as [Hw Hs]. destruct (run init_cache ∅ os) as [c m]. cbn in Hw, Hs.
  destruct (vault_kek_cache_get c (Some p) now) as [[rc out] c'] eqn:E.
  apply get_outcome in E as (_ & _ & _ & E); [|done]. destruct (_ =? 0); [|right; by injection E].
  destruct (live now (g_slots c) !! p) as [[k e]|] eqn:El; [|right; by injection E].
  injection E as -> ->. left. split; [done|]. exists e. apply live_lookup in El as [El ?].
  split; [by eapply lookup_weaken | done].
Qed.

(** A put refines a map update: it succeeds exactly when the cache is
    usable, the principal is a non-empty name that fits, and the principal is
    already live or fewer than 64 principals are; it then sets that one
    entry, and otherwise no live key changes (nothing is ever evicted to make
    room). *)
Theorem kek_put_refines (c : cache) (p k : bytes) (now : Z) (rc : Z) (c' : cache) : wf_cache c ->
  vault_kek_cache_put c (Some p) (Some k) now = (rc, c') ->
  wf_cache c' /\
  (if bool_decide ((cache_ready c).1 = 0 /\ (0 < length p < VAULT_PRINCIPAL_MAX)%nat) && put_ok now (g_slots c) p
   then rc = 0 /\ live now (g_slots c')
                  = <[p := (k, now + VAULT_KEK_CACHE_TTL_SECONDS)]> (live now (g_slots c))
   else rc = -1 /\ live now (g_slots c') = live now (g_slots c)).
Proof. intros Hw E. destruct (put_outcome c p k now rc c' Hw E) as (? & ? & _). done. Qed.

(** After a fork the child's cache is all zero bytes and stays closed:
    whatever calls it makes, a put or a lookup fails, and the count is 0. *)
Theorem kek_fork_child_closed (c : cache) (m : gmap bytes (bytes * Z)) (os : list call) (p k : bytes) (now : Z) :
  let d := (run (vault_kek_cache_after_fork_child c) m os).1 in
  g_slots d = replicate VAULT_KEK_CACHE_SLOTS zero_slot
  /\ (vault_kek_cache_put d (Some p) (Some k) now).1 = -1
  /\ (vault_kek_cache_get d (Some p) now).1 = (-1, replicate VAULT_KEK_LEN 0)
  /\ (vault_kek_cache_count d now).1 = 0.
Proof.
  cbn zeta.
  assert (forall d, g_slots d = replicate VAULT_KEK_CACHE_SLOTS zero_slot -> g_fork_child_invalid d = true ->
    forall m, let d' := (run d m os).1 in
    g_slots d' = replicate VAULT_KEK_CACHE_SLOTS zero_slot /\ g_fork_child_invalid d' = true) as L.
  { induction os as [|o os IH]; intros d Hd Hf n; [done|]. cbn [run].
    destruct o; cbn [step];
      unfold vault_kek_cache_put, vault_kek_cache_get, vault_kek_cache_has, vault_kek_cache_evict,
        vault_kek_cache_clear, vault_kek_cache_count, cache_ready; rewrite ?Hf; cbn [negb Z.eqb orb];
      by apply IH. }
  destruct (L (vault_kek_cache_after_fork_child c) eq_refl eq_refl m) as [Hs Hf].
  set (d := (run _ m os).1) in *. split; [done|].
  unfold vault_kek_cache_put, vault_kek_cache_get, vault_kek_cache_count, cache_ready. by rewrite Hf.
Qed.
End ops.

Lemma kek_put_refines_witness :
  (vault_kek_cache_put 0 init_cache (Some [97]) (Some [1; 2; 3]) 100).1 = 0
  /\ live 100 (g_slots (vault_kek_cache_put 0 init_cache (Some [97]) (Some [1; 2; 3]) 100).2)
     = <[[97] := ([1; 2; 3], 1000)]> ∅.
Proof.
  pose proof (kek_put_refines 0 init_cache [97] [1; 2; 3] 100
    (vault_kek_cache_put 0 init_cache (Some [97]) (Some [1; 2; 3]) 100).1
    (vault_kek_cache_put 0 init_cache (Some [97]) (Some [1; 2; 3]) 100).2
    (proj1 init_inv) (surjective_pairing _)) as [_ W].
  rewrite bool_decide_true in W by (split; [done | unfold VAULT_PRINCIPAL_MAX; cbn; lia]).
  assert (live 100 (g_slots init_cache) = ∅) as E0 by (vm_compute; done).
  unfold put_ok in W. rewrite E0 in W. rewrite orb_true_intro in W.
  - exact W.
  - right. apply bool_decide_true. rewrite map_size_empty. unfold VAULT_KEK_CACHE_SLOTS. lia.
Defined.
End KekCache.
