(* ===== verification/RuntimeSecret.v ===== *)
(** * The process-memory secret cache ([src/src/modules/vault/runtime_secret.c])

    A table of 1024 named credentials.  Each call holds the lock, so it is
    one step on the table; [malloc_ok] is the outcome of the allocation of a
    store.  Shown: under every sequence of calls the table is a finite map
    from names to values, and a lookup returns exactly the last value stored
    under the name and not removed since, when it fits the caller's buffer. *)

From Stdlib Require Import ZArith Lia String Ascii.
From stdpp Require Import base numbers option list gmap.
From S2P Require Import Prelude.
From S2P Require Import SlotTable.

Module RuntimeSecret.

Definition RUNTIME_SECRET_MAX : nat := 1024.
Definition RUNTIME_SECRET_NAME_MAX : nat := 128.
Definition RUNTIME_SECRET_VALUE_MAX : nat := 4096.

(** [value] is the allocated copy; [len] is its length. *)
Record runtime_secret_entry_t := { name : bytes; value : option bytes }.

Definition zero_entry : runtime_secret_entry_t := {| name := []; value := None |}.

Abbreviation table := (list runtime_secret_entry_t).

Definition g_entries_init : table := replicate RUNTIME_SECRET_MAX zero_entry.

(** The value is wiped and freed and the entry cleared; an entry without a
    value is left alone. *)
Definition secret_free (e : runtime_secret_entry_t) : runtime_secret_entry_t :=
  match value e with None => e | Some _ => zero_entry end.

Definition in_use (e : runtime_secret_entry_t) : bool := match value e with Some _ => true | None => false end.
Definition named (n : bytes) (e : runtime_secret_entry_t) : bool := bytes_eqb (name e) n.

Definition storable (n v : option bytes) : bool :=
  match n, v with
  | Some ((_ :: _) as n), Some ((_ :: _) as v) =>
      (length n <? RUNTIME_SECRET_NAME_MAX)%nat && (length v <? RUNTIME_SECRET_VALUE_MAX)%nat
  | _, _ => false
  end.

Definition runtime_secret_store (malloc_ok : bool) (n v : option bytes) (t : table) : Z * table :=
  if negb (storable n v) then (-1, t)
  else if negb malloc_ok then (-1, t)
  else
    let n := default [] n in
    match slot_scan in_use (named n) 0 None t with
    | (Some i, _) | (None, Some i) =>
        (0, <[i := {| name := snprintf_s RUNTIME_SECRET_NAME_MAX n; value := v |}]> t)
    | (None, None) => (-1, t)
    end.

(** The slot of a name, in the loops of the other calls. *)
Definition secret_slot (n : bytes) (t : table) : option nat := (slot_scan in_use (named n) 0 None t).1.

(** [out_len] is 0 also for a NULL buffer; the second component is what the
    buffer holds. *)
Definition runtime_secret_get (n : option bytes) (out_len : nat) (t : table) : bool * bytes :=
  match n, out_len with
  | Some n, S _ =>
      match secret_slot n t ≫= fun i => t !! i ≫= value with
      | Some v => if (length v <? out_len)%nat then (true, v) else (false, [])
      | None => (false, [])
      end
  | _, _ => (false, [])
  end.

Definition runtime_secret_has (n : option bytes) (t : table) : bool :=
  match n with
  | None => false
  | Some n => match secret_slot n t with Some _ => true | None => false end
  end.

Definition runtime_secret_remove (n : option bytes) (t : table) : table :=
  match n with
  | None => t
  | Some n => match secret_slot n t with Some i => alter secret_free i t | None => t end
  end.

Definition runtime_secret_clear (t : table) : table := map secret_free t.

(** ** The table as a map *)

Definition entry (e : runtime_secret_entry_t) : option (bytes * bytes) :=
  match value e with Some v => Some (name e, v) | None => None end.

Abbreviation secrets := (abs entry).

(** Names are distinct and there are 1024 entries. *)
Definition wf (t : table) : Prop := distinct entry t /\ length t = RUNTIME_SECRET_MAX.

Lemma slot_found t n i : distinct entry t -> secret_slot n t = Some i ->
  exists e v, t !! i = Some e /\ value e = Some v /\ name e = n /\ secrets t !! n = Some v.
Proof.
  intros Hd. unfold secret_slot. destruct (slot_scan _ _ _ _ _) as [[j|] f] eqn:E; cbn; [|done].
  intros [= ->]. apply slot_scan_found in E as (m & e & -> & He & Hu & Hm).
  unfold in_use in Hu. destruct (value e) as [v|] eqn:Hv; [|done]. apply bytes_eqb_true in Hm.
  exists e, v. split_and!; [done..|]. eapply abs_lookup; [done | exact He|]. unfold entry. by rewrite Hv, Hm.
Qed.

Lemma slot_missing t n : secret_slot n t = None -> secrets t !! n = None.
Proof.
  unfold secret_slot. destruct (slot_scan _ _ _ _ _) as [[j|] f] eqn:E; cbn; [done|]. intros _.
  apply slot_scan_missing in E as [Hno _]. apply abs_lookup_none. intros i e v He. unfold entry.
  destruct (value e) as [w|] eqn:Hv; [|done]. intros [= Hn _].
  assert (named n e = false) as Hf by (apply (Hno i); [done | unfold in_use; by rewrite Hv]).
  unfold named in Hf. by rewrite Hn, bytes_eqb_refl in Hf.
Qed.

Lemma slot_lookup t n : distinct entry t ->
  (secret_slot n t ≫= fun i => t !! i ≫= value) = secrets t !! n.
Proof.
  intros Hd. destruct (secret_slot n t) as [i|] eqn:E; cbn [mbind option_bind].
  - destruct (slot_found _ _ _ Hd E) as (e & v & He & Hv & _ & ->). by rewrite He.
  - symmetry. by apply slot_missing.
Qed.

(** A store: the new map, and when it is refused. *)
Lemma store_refines malloc_ok n v t :
  wf t -> storable (Some n) (Some v) = true -> malloc_ok = true ->
  let '(rc, t') := runtime_secret_store malloc_ok (Some n) (Some v) t in
  wf t' /\ ((rc = 0 /\ secrets t' = <[n := v]> (secrets t)
      /\ ~ (secrets t !! n = None /\ size (secrets t) = RUNTIME_SECRET_MAX))
    \/ (rc = -1 /\ t' = t /\ secrets t !! n = None /\ size (secrets t) = RUNTIME_SECRET_MAX)).
Proof.
  intros [Hd Hlen] Hs ->. unfold runtime_secret_store. rewrite Hs. cbn [negb default from_option id].
  assert (Hn : snprintf_s RUNTIME_SECRET_NAME_MAX n = n).
  { apply snprintf_s_fits. unfold storable in Hs. destruct n as [|c n]; [done|]. destruct v as [|d v]; [done|].
    apply andb_true_iff in Hs as [Hs _].
    by apply Nat.ltb_lt. }
  rewrite Hn. set (e' := {| name := n; value := Some v |}).
  assert (He' : entry e' = Some (n, v)) by done.
  destruct (slot_scan in_use (named n) 0 None t) as [[i|] f] eqn:E.
  - assert (Hi : secret_slot n t = Some i) by (unfold secret_slot; by rewrite E).
    destruct (slot_found _ _ _ Hd Hi) as (e & w & He & Hv & Hne & Hin).
    assert (Hent : entry e = Some (n, w)) by (unfold entry; by rewrite Hv, Hne).
    destruct (abs_update entry t i e e' n w v Hd He Hent He') as [D A].
    split; [split; [done | by rewrite length_insert] | left; split_and!; [done..|]].
    intros [Hno _]. congruence.
  - assert (Hi : secret_slot n t = None) by (unfold secret_slot; by rewrite E).
    pose proof (slot_missing _ _ Hi) as Hm. apply slot_scan_missing in E as [_ Hf].
    destruct f as [g|].
    + destruct Hf as (m & e & -> & He & Hu).
      assert (Hent : entry e = None) by (unfold in_use in Hu; unfold entry; by destruct (value e)).
      destruct (abs_fresh entry t m e e' n v Hd He Hent Hm He') as [D A].
      split; [split; [done | by rewrite length_insert] | left; split_and!; [done..|]].
      intros [_ Hsz]. assert (size (secrets t) < length t)%nat by (apply (free_slot_iff entry t Hd); eauto). lia.
    + split; [done|]. right. split_and!; [done..|].
      pose proof (free_slot_iff entry t Hd) as Hfree. pose proof (used_length entry t).
      rewrite abs_size in * by done. destruct (decide (length (used entry t) < length t)%nat) as [Hl|]; [|lia].
      apply Hfree in Hl as (i & e & He & Hent). apply Hf in He. unfold in_use, entry in *.
      by destruct (value e).
Qed.

Lemma remove_refines n t : wf t ->
  wf (runtime_secret_remove (Some n) t) /\ secrets (runtime_secret_remove (Some n) t) = delete n (secrets t).
Proof.
  intros [Hd Hlen]. unfold runtime_secret_remove. destruct (secret_slot n t) as [i|] eqn:E.
  - destruct (slot_found _ _ _ Hd E) as (e & v & He & Hv & Hne & _).
    assert (Halt : alter secret_free i t = <[i := zero_entry]> t).
    { apply list_eq. intros j. rewrite list_lookup_alter. destruct (decide (j = i)) as [->|Hj].
      - rewrite decide_True, He, list_lookup_insert_eq by (done || by eapply lookup_lt_Some).
        cbn. unfold secret_free. by rewrite Hv.
      - rewrite decide_False, list_lookup_insert_ne by congruence. done. }
    assert (Hent : entry e = Some (n, v)) by (unfold entry; by rewrite Hv, Hne).
    rewrite Halt. destruct (abs_free entry t i e zero_entry n v Hd He Hent eq_refl) as [D A].
    split; [split; [done | by rewrite length_insert] | done].
  - split; [done|]. symmetry. apply delete_id. by apply slot_missing.
Qed.

Lemma clear_refines t : wf t -> wf (runtime_secret_clear t) /\ secrets (runtime_secret_clear t) = ∅.
Proof.
  intros [_ Hlen]. assert (Hu : used entry (runtime_secret_clear t) = []).
  { unfold used, runtime_secret_clear. clear. induction t as [|e t IH]; [done|]. cbn.
    unfold secret_free, entry in *. destruct (value e) eqn:E; cbn; [done | by rewrite E]. }
  split; [split; [unfold distinct; rewrite Hu; apply NoDup_nil_2 | unfold runtime_secret_clear; by rewrite length_map]|].
  unfold abs. by rewrite Hu.
Qed.

(** ** Sequences of calls *)

Inductive call :=
  | Store (malloc_ok : bool) (n v : option bytes)
  | Remove (n : option bytes)
  | Clear.

Definition step (c : call) (t : table) : table :=
  match c with
  | Store m n v => (runtime_secret_store m n v t).2
  | Remove n => runtime_secret_remove n t
  | Clear => runtime_secret_clear t
  end.

(** What the calls promise of the map: a store that cannot be kept leaves it
    alone. *)
Definition spec_step (c : call) (m : gmap bytes bytes) : gmap bytes bytes :=
  match c with
  | Store ok (Some n) (Some v) =>
      if ok && storable (Some n) (Some v)
         && negb (bool_decide (m !! n = None /\ size m = RUNTIME_SECRET_MAX))
      then <[n := v]> m else m
  | Store _ _ _ => m
  | Remove (Some n) => delete n m
  | Remove None => m
  | Clear => ∅
  end.

Lemma step_refines c t : wf t -> wf (step c t) /\ secrets (step c t) = spec_step c (secrets t).
Proof.
  intros Hwf. destruct c as [ok n v|n|]; cbn [step spec_step].
  - destruct n as [n|]; [|by split]. destruct v as [v|]; [|unfold runtime_secret_store; cbn; by destruct n].
    destruct (storable (Some n) (Some v)) eqn:Hs;
      [|unfold runtime_secret_store; rewrite Hs, andb_false_r; by split].
    destruct ok; cbn [andb]; [|unfold runtime_secret_store; rewrite Hs; by split].
    pose proof (store_refines true n v t Hwf Hs eq_refl) as Hr. destruct Hwf as [Hd Hlen].
    destruct (runtime_secret_store true (Some n) (Some v) t) as [rc t'] eqn:E.
    destruct Hr as [Hwf' Hcases]. cbn [snd]. split; [done|].
    destruct Hcases as [(_ & -> & Hno)|(_ & -> & Hn & Hsz)].
    + by rewrite bool_decide_eq_false_2.
    + by rewrite bool_decide_eq_true_2.
  - destruct n as [n|]; [by apply remove_refines | done].
  - by apply clear_refines.
Qed.

Definition run (cs : list call) (t : table) : table := fold_left (fun t c => step c t) cs t.

Definition spec_run (cs : list call) (m : gmap bytes bytes) : gmap bytes bytes :=
  fold_left (fun m c => spec_step c m) cs m.

Lemma init_wf : wf g_entries_init /\ secrets g_entries_init = ∅.
Proof.
  assert (Hu : used entry g_entries_init = []) by (vm_compute; reflexivity).
  split; [split; [unfold distinct; rewrite Hu; apply NoDup_nil_2 | apply length_replicate]|].
  unfold abs. by rewrite Hu.
Qed.

Lemma run_refines cs : wf (run cs g_entries_init) /\ secrets (run cs g_entries_init) = spec_run cs ∅.
Proof.
  destruct init_wf as [Hwf Habs]. rewrite <- Habs. clear Habs. revert Hwf. generalize g_entries_init.
  unfold run, spec_run. induction cs as [|c cs IH]; intros t Hwf; [done|]. cbn [fold_left].
  destruct (step_refines c t Hwf) as [Hwf' <-]. by apply IH.
Qed.

(** After any sequence of stores, removals and clears from the start of the
    process, with allocations failing or not, a lookup finds a name exactly
    when the map the sequence builds holds a value for it that fits the
    buffer with its NUL, and returns that value; otherwise the buffer is the
    empty string. *)
Theorem secret_get_refines cs n out_len :
  runtime_secret_get (Some n) (S out_len) (run cs g_entries_init) =
  match spec_run cs ∅ !! n with
  | Some v => if (length v <? S out_len)%nat then (true, v) else (false, [])
  | None => (false, [])
  end.
Proof.
  destruct (run_refines cs) as [[Hd _] <-]. unfold runtime_secret_get. by rewrite slot_lookup.
Qed.

(** The table never holds more than 1024 secrets, and a value that was
    stored under a name is there until the name is stored again, removed or
    the table cleared. *)
Theorem secret_kept cs n v :
  spec_run cs ∅ !! n = Some v -> runtime_secret_has (Some n) (run cs g_entries_init) = true.
Proof.
  destruct (run_refines cs) as [[Hd _] <-]. intros Hn. unfold runtime_secret_has.
  destruct (secret_slot n _) eqn:E; [done|]. apply slot_missing in E. congruence.
Qed.

End RuntimeSecret.
