(* ===== verification/ResealReceipt.v ===== *)
(** * Reseal receipts ([src/src/modules/vault/vault_reseal_receipt.c])

    The persistent form of a receipt of a key reseal, its digest and the text
    form of its operation id.  A buffer is given by its address; the C code
    refuses buffers that overlap, which [overlaps] decides from addresses.
    [None] in an output is the cleansed buffer of a failing call.  Shown:
    decoding accepts exactly the format of receipts whose generations follow
    each other and encoding writes it, equality and digest are those of the receipts, and
    operation ids round-trip through their text form. *)

From Stdlib Require Import ZArith Lia String Ascii.
From stdpp Require Import base numbers option list.
From S2P Require Import Prelude Wire Digest.

Module ResealReceipt.

Definition VAULT_RESEAL_RECEIPT_V1_LEN : Z := 208.
Definition VAULT_RESEAL_OPERATION_ID_LEN : Z := 16.
Definition VAULT_RESEAL_OPERATION_HEX_LEN : Z := 32.

Record vault_tpm2_reseal_receipt_t := {
  operation_id : bytes;
  old_generation : Z;
  new_generation : Z;
  predecessor_digest : bytes;
  capsule_digest : bytes;
  future_digest : bytes;
  new_kek_digest : bytes;
  manifest_digest : bytes;
}.

(** [sizeof(vault_tpm2_reseal_receipt_t)] *)
Definition receipt_size : Z := 192.

Definition receipt_magic : bytes := str "AIMRSEAL".

Definition generations_valid (old_generation new_generation : Z) : bool :=
  (old_generation <=? INT64_MAX - 1) && (new_generation =? u64 (old_generation + 1)).

Definition overlaps (a : option Z) (a_len : Z) (b : option Z) (b_len : Z) : bool :=
  match a, b with
  | Some ap, Some bp => if ap <=? bp then bp - ap <? a_len else ap - bp <? b_len
  | _, _ => false
  end.

(** [r] is the pointer with what it points to, [out] the address of the
    output buffer. *)
Definition vault_reseal_receipt_encode (r : option (Z * vault_tpm2_reseal_receipt_t)) (out : option Z)
    : option bytes :=
  match out with
  | None => None
  | Some _ =>
      if overlaps (fst <$> r) receipt_size out VAULT_RESEAL_RECEIPT_V1_LEN then None
      else
        match r with
        | None => None
        | Some (_, r) =>
            if negb (generations_valid (old_generation r) (new_generation r)) then None
            else Some (receipt_magic ++ put_u16 1 ++ put_u16 0 ++ put_u32 192 ++ operation_id r
                       ++ put_u64 (old_generation r) ++ put_u64 (new_generation r)
                       ++ predecessor_digest r ++ capsule_digest r ++ future_digest r
                       ++ new_kek_digest r ++ manifest_digest r)
        end
  end.

Definition vault_reseal_receipt_decode (wire : option (Z * bytes)) (out : option Z)
    : option vault_tpm2_reseal_receipt_t :=
  match out with
  | None => None
  | Some _ =>
      match wire with
      | None => None
      | Some (a, w) =>
          if overlaps (Some a) (zlen w) out receipt_size then None
          else if negb (zlen w =? VAULT_RESEAL_RECEIPT_V1_LEN)
               || negb (bytes_eqb (take 8 w) receipt_magic)
               || negb (get_u16 (drop 8 w) =? 1) || negb (get_u16 (drop 10 w) =? 0)
               || negb (get_u32 (drop 12 w) =? 192) then None
          else
            let tmp :=
              {| operation_id := take 16 (drop 16 w);
                 old_generation := get_u64 (drop 32 w); new_generation := get_u64 (drop 40 w);
                 predecessor_digest := take 32 (drop 48 w); capsule_digest := take 32 (drop 80 w);
                 future_digest := take 32 (drop 112 w); new_kek_digest := take 32 (drop 144 w);
                 manifest_digest := take 32 (drop 176 w) |} in
            if negb (generations_valid (old_generation tmp) (new_generation tmp)) then None else Some tmp
      end
  end.

(** The decoded receipt is a local of the call, apart from every buffer. *)
Definition vault_reseal_receipt_digest `{Sha256} (wire : option (Z * bytes)) (local : Z) (digest : option Z)
    : option bytes :=
  match digest with
  | None => None
  | Some _ =>
      match wire with
      | None => None
      | Some (a, w) =>
          if overlaps (Some a) VAULT_RESEAL_RECEIPT_V1_LEN digest 32 then None
          else
            match vault_reseal_receipt_decode (Some (a, w)) (Some local) with
            | None => None
            | Some _ => Some (sha256 w)
            end
      end
  end.

(** [aw] and [bw] are the addresses of the two local buffers. *)
Definition vault_reseal_receipt_equal (a b : option (Z * vault_tpm2_reseal_receipt_t)) (aw bw : Z) : bool :=
  match a, b with
  | Some _, Some _ =>
      match vault_reseal_receipt_encode a (Some aw), vault_reseal_receipt_encode b (Some bw) with
      | Some x, Some y => bytes_eqb x y
      | _, _ => false
      end
  | _, _ => false
  end.

Definition vault_reseal_operation_id_to_hex (id : option (Z * bytes)) (out : option Z) : option bytes :=
  match out with
  | None => None
  | Some _ =>
      if overlaps (fst <$> id) VAULT_RESEAL_OPERATION_ID_LEN out (VAULT_RESEAL_OPERATION_HEX_LEN + 1) then None
      else
        match id with
        | None => None
        | Some (_, id) => Some (hex_bytes id)
        end
  end.

(** The value of a lower-case hex digit. *)
Definition nibble (c : Z) : option Z :=
  if (48 <=? c) && (c <=? 57) then Some (c - 48)
  else if (97 <=? c) && (c <=? 102) then Some (c - 97 + 10) else None.

(** The loop: each digit is or-ed into its half of the byte. *)
Fixpoint from_hex (hex : bytes) : option bytes :=
  match hex with
  | a :: b :: rest =>
      x ← nibble a; y ← nibble b; l ← from_hex rest;
      Some (u8 (Z.lor (Z.lor 0 (Z.shiftl x 4)) y) :: l)
  | [] => Some []
  | [_] => None
  end.

Definition vault_reseal_operation_id_from_hex (hex : option (Z * bytes)) (out : option Z) : option bytes :=
  match out with
  | None => None
  | Some _ =>
      if overlaps (fst <$> hex) (VAULT_RESEAL_OPERATION_HEX_LEN + 1) out VAULT_RESEAL_OPERATION_ID_LEN then None
      else
        match hex with
        | None => None
        | Some (_, h) => if negb (zlen h =? VAULT_RESEAL_OPERATION_HEX_LEN) then None else from_hex h
        end
  end.

(** ** Overlap *)

(** Two buffers that are not empty share a byte exactly when the test says
    so. *)
Lemma overlaps_iff a al b bl : 0 < al -> 0 < bl ->
  overlaps (Some a) al (Some b) bl = true <-> exists x, a <= x < a + al /\ b <= x < b + bl.
Proof.
  intros Ha Hb. unfold overlaps. destruct (Z.leb_spec a b); rewrite Z.ltb_lt; split.
  - intros. exists b. lia.
  - intros (x & ? & ?). lia.
  - intros. exists a. lia.
  - intros (x & ? & ?). lia.
Qed.

(** ** The wire form *)

(** What the field types of the struct guarantee. *)
Definition field (n : nat) (b : bytes) : Prop := length b = n /\ is_bytes b.

Definition wf_receipt (r : vault_tpm2_reseal_receipt_t) : Prop :=
  field 16 (operation_id r) /\ 0 <= old_generation r < 2 ^ 64 /\ 0 <= new_generation r < 2 ^ 64
  /\ field 32 (predecessor_digest r) /\ field 32 (capsule_digest r) /\ field 32 (future_digest r)
  /\ field 32 (new_kek_digest r) /\ field 32 (manifest_digest r).

Definition receipt_wire (r : vault_tpm2_reseal_receipt_t) : bytes :=
  (receipt_magic ++ put_u16 1 ++ put_u16 0 ++ put_u32 192 ++ operation_id r
   ++ put_u64 (old_generation r) ++ put_u64 (new_generation r)
   ++ predecessor_digest r ++ capsule_digest r ++ future_digest r
   ++ new_kek_digest r ++ manifest_digest r)%list.

Definition valid (r : vault_tpm2_reseal_receipt_t) : bool :=
  generations_valid (old_generation r) (new_generation r).

Lemma generations_follow old new :
  0 <= old < 2 ^ 64 -> generations_valid old new = true <-> old < INT64_MAX /\ new = old + 1.
Proof.
  intros Ho. unfold generations_valid, INT64_MAX, u64. rewrite andb_true_iff, Z.leb_le, Z.eqb_eq.
  split; intros [H1 H2]; (split; [lia|]).
  - rewrite Z.mod_small in H2 by lia. done.
  - rewrite Z.mod_small by lia. done.
Qed.

(** Cut a list of known length off the front. *)
Ltac cut L := first [rewrite (drop_field _ _ _ _ L) by lia | rewrite (take_field _ _ _ L)]; cbn [Nat.sub].

Lemma receipt_fields r : wf_receipt r ->
  let w := receipt_wire r in
  zlen w = 208 /\ take 8 w = receipt_magic /\ get_u16 (drop 8 w) = 1 /\ get_u16 (drop 10 w) = 0
  /\ get_u32 (drop 12 w) = 192 /\ take 16 (drop 16 w) = operation_id r
  /\ get_u64 (drop 32 w) = old_generation r /\ get_u64 (drop 40 w) = new_generation r
  /\ take 32 (drop 48 w) = predecessor_digest r /\ take 32 (drop 80 w) = capsule_digest r
  /\ take 32 (drop 112 w) = future_digest r /\ take 32 (drop 144 w) = new_kek_digest r
  /\ take 32 (drop 176 w) = manifest_digest r.
Proof.
  intros ([L0 _] & Ho & Hn & [L1 _] & [L2 _] & [L3 _] & [L4 _] & [L5 _]) w. unfold w, receipt_wire.
  assert (Hhead : forall n x, (16 <= n)%nat ->
    drop n (receipt_magic ++ put_u16 1 ++ put_u16 0 ++ put_u32 192 ++ x)%list = drop (n - 16) x).
  { intros n x Hx. rewrite !app_assoc. apply drop_field; [done | lia]. }
  assert (P : forall v, length (put_u64 v) = 8%nat) by apply put_u64_length.
  split_and!.
  - unfold zlen. rewrite !length_app, !P, L0, L1, L2, L3, L4, L5. done.
  - done.
  - done.
  - done.
  - done.
  - rewrite Hhead by lia. cbn [Nat.sub]. rewrite drop_0. by cut L0.
  - rewrite Hhead by lia. cbn [Nat.sub]. cut L0. rewrite drop_0. by apply get_put_u64.
  - rewrite Hhead by lia. cbn [Nat.sub]. cut L0. cut (P (old_generation r)). rewrite drop_0. by apply get_put_u64.
  - rewrite Hhead by lia. cbn [Nat.sub]. cut L0. cut (P (old_generation r)). cut (P (new_generation r)).
    rewrite drop_0. by cut L1.
  - rewrite Hhead by lia. cbn [Nat.sub]. cut L0. cut (P (old_generation r)). cut (P (new_generation r)).
    cut L1. rewrite drop_0. by cut L2.
  - rewrite Hhead by lia. cbn [Nat.sub]. cut L0. cut (P (old_generation r)). cut (P (new_generation r)).
    cut L1. cut L2. rewrite drop_0. by cut L3.
  - rewrite Hhead by lia. cbn [Nat.sub]. cut L0. cut (P (old_generation r)). cut (P (new_generation r)).
    cut L1. cut L2. cut L3. rewrite drop_0. by cut L4.
  - rewrite Hhead by lia. cbn [Nat.sub]. cut L0. cut (P (old_generation r)). cut (P (new_generation r)).
    cut L1. cut L2. cut L3. cut L4. rewrite drop_0. by rewrite take_ge by lia.
Qed.

Lemma overlaps_sym a al b bl : 0 < al -> 0 < bl ->
  overlaps (Some a) al (Some b) bl = overlaps (Some b) bl (Some a) al.
Proof. intros Ha Hb. apply eq_true_iff_eq. rewrite !overlaps_iff by done. naive_solver. Qed.

Lemma encode_iff a r b w :
  vault_reseal_receipt_encode (Some (a, r)) (Some b) = Some w
  <-> overlaps (Some a) receipt_size (Some b) VAULT_RESEAL_RECEIPT_V1_LEN = false /\ valid r = true
      /\ w = receipt_wire r.
Proof.
  unfold vault_reseal_receipt_encode, valid. cbn [fmap option_fmap option_map fst].
  destruct (overlaps _ _ _ _), (generations_valid _ _); cbn [negb]; naive_solver.
Qed.

Lemma peel {A} n m (l : list A) : drop m l = (take n (drop m l) ++ drop (m + n) l)%list.
Proof. by rewrite <- drop_drop, take_drop. Qed.

(** The receipt the decoder reads at its fixed offsets. *)
Definition read (w : bytes) : vault_tpm2_reseal_receipt_t :=
  {| operation_id := take 16 (drop 16 w);
     old_generation := get_u64 (drop 32 w); new_generation := get_u64 (drop 40 w);
     predecessor_digest := take 32 (drop 48 w); capsule_digest := take 32 (drop 80 w);
     future_digest := take 32 (drop 112 w); new_kek_digest := take 32 (drop 144 w);
     manifest_digest := take 32 (drop 176 w) |}.

Definition header_ok (w : bytes) : Prop :=
  zlen w = 208 /\ take 8 w = receipt_magic /\ get_u16 (drop 8 w) = 1 /\ get_u16 (drop 10 w) = 0
  /\ get_u32 (drop 12 w) = 192.

Lemma read_wf w : is_bytes w -> zlen w = 208 -> wf_receipt (read w).
Proof.
  intros Hw Hl. assert (length w = 208%nat) by (unfold zlen in Hl; lia).
  assert (F : forall n m, (m + n <= 208)%nat -> field n (take n (drop m w))).
  { intros n m Hm. split; [rewrite length_take, length_drop; lia | auto with aimee]. }
  unfold wf_receipt, read. cbn.
  split_and!; try (apply F; lia); apply get_u64_range; auto with aimee; rewrite length_drop; lia.
Qed.

Lemma read_wire w : is_bytes w -> header_ok w -> receipt_wire (read w) = w.
Proof.
  intros Hw (Hl & Hm & H1 & H2 & H3).
  assert (Hlen : length w = 208%nat) by (unfold zlen in Hl; lia).
  assert (L : forall n m, (m + n <= 208)%nat -> (n <= length (drop m w))%nat)
    by (intros; rewrite length_drop; lia).
  rewrite <- (drop_0 w) at 2.
  rewrite (peel 8 0 w); cbn [Nat.add]. rewrite (peel 2 8 w); cbn [Nat.add].
  rewrite (peel 2 10 w); cbn [Nat.add]. rewrite (peel 4 12 w); cbn [Nat.add].
  rewrite (peel 16 16 w); cbn [Nat.add]. rewrite (peel 8 32 w); cbn [Nat.add].
  rewrite (peel 8 40 w); cbn [Nat.add]. rewrite (peel 32 48 w); cbn [Nat.add].
  rewrite (peel 32 80 w); cbn [Nat.add]. rewrite (peel 32 112 w); cbn [Nat.add].
  rewrite (peel 32 144 w); cbn [Nat.add]. unfold receipt_wire, read. cbn [operation_id old_generation new_generation
    predecessor_digest capsule_digest future_digest new_kek_digest manifest_digest].
  rewrite <- Hm, <- H1, <- H2, <- H3, !put_get_u64, !put_get_u16, put_get_u32, drop_0
    by (auto with aimee; apply L; lia).
  by rewrite (take_ge (drop 176 w)) by (rewrite length_drop; lia).
Qed.

Lemma wire_header r : wf_receipt r -> header_ok (receipt_wire r) /\ read (receipt_wire r) = r.
Proof.
  intros Hr. destruct (receipt_fields r Hr) as (E0 & E1 & E2 & E3 & E4 & E5 & E6 & E7 & E8 & E9 & E10 & E11 & E12).
  split; [done|]. unfold read. rewrite E5, E6, E7, E8, E9, E10, E11, E12. by destruct r.
Qed.

Lemma decode_iff a w b r :
  vault_reseal_receipt_decode (Some (a, w)) (Some b) = Some r
  <-> overlaps (Some a) (zlen w) (Some b) receipt_size = false /\ header_ok w /\ valid (read w) = true
      /\ r = read w.
Proof.
  unfold vault_reseal_receipt_decode, header_ok, valid, read. cbv zeta.
  cbn [old_generation new_generation].
  destruct (overlaps _ _ _ _); [naive_solver|].
  rewrite <- (bytes_eqb_true (take 8 w)), <- !Z.eqb_eq.
  change VAULT_RESEAL_RECEIPT_V1_LEN with 208.
  destruct (zlen w =? 208), (bytes_eqb _ _), (get_u16 (drop 8 w) =? 1), (get_u16 (drop 10 w) =? 0),
    (get_u32 (drop 12 w) =? 192), (generations_valid _ _); cbn [negb orb];
    (split; [intros E; simplify_eq; done | intros (_ & (E0 & E1 & E2 & E3 & E4) & Ev & ->); done]).
Qed.

Lemma receipt_wire_inj r s : wf_receipt r -> wf_receipt s -> receipt_wire r = receipt_wire s -> r = s.
Proof.
  intros Hr Hs E. rewrite <- (proj2 (wire_header r Hr)), <- (proj2 (wire_header s Hs)). by rewrite E.
Qed.

(** The format of a receipt, big-endian. *)
Definition layout (r : vault_tpm2_reseal_receipt_t) : bytes :=
  (str "AIMRSEAL" ++ [0; 1] ++ [0; 0] ++ [0; 0; 0; 192] ++ operation_id r
   ++ be_put 8 (old_generation r) ++ be_put 8 (new_generation r)
   ++ predecessor_digest r ++ capsule_digest r ++ future_digest r ++ new_kek_digest r ++ manifest_digest r)%list.

Lemma wire_layout r : receipt_wire r = layout r.
Proof. unfold receipt_wire, layout. by rewrite !put_u64_be. Qed.

(** A receipt of the format: the generations follow each other. *)
Definition laid_out (r : vault_tpm2_reseal_receipt_t) (w : bytes) : Prop :=
  wf_receipt r /\ old_generation r < 2 ^ 63 - 1 /\ new_generation r = old_generation r + 1 /\ w = layout r.

Lemma valid_follow r : wf_receipt r ->
  valid r = true <-> old_generation r < 2 ^ 63 - 1 /\ new_generation r = old_generation r + 1.
Proof. intros (_ & H & _). by apply generations_follow. Qed.

Lemma apart_overlaps a al b bl : 0 < al -> 0 < bl -> ~ (exists x, a <= x < a + al /\ b <= x < b + bl) ->
  overlaps (Some a) al (Some b) bl = false.
Proof. intros Ha Hb H. apply not_true_iff_false. by rewrite overlaps_iff. Qed.

(** C40: Take a wire buffer of 208 bytes and a receipt that have no byte in
    common.  Decoding gives a receipt exactly when the buffer is the format of
    that receipt and the generations follow each other, the new one being the
    old one plus one and below [INT64_MAX]; encoding a receipt gives exactly
    the same buffer, and only of such a receipt. *)
Theorem receipt_decode_iff a w b r :
  is_bytes w -> ~ (exists x, a <= x < a + 208 /\ b <= x < b + 192) ->
  (vault_reseal_receipt_decode (Some (a, w)) (Some b) = Some r <-> laid_out r w)
  /\ (wf_receipt r -> vault_reseal_receipt_encode (Some (b, r)) (Some a) = Some w <-> laid_out r w).
Proof.
  intros Hw Hap. apply (apart_overlaps a 208 b 192) in Hap; [|lia..]. unfold laid_out.
  change (overlaps (Some a) VAULT_RESEAL_RECEIPT_V1_LEN (Some b) receipt_size = false) in Hap.
  rewrite decode_iff, encode_iff, (overlaps_sym b), Hap by done. rewrite <- wire_layout. split; [split|].
  - intros (_ & Hh & Hv & ->). rewrite read_wire by done.
    assert (R : wf_receipt (read w)) by (apply read_wf; [done | apply Hh]). apply (proj1 (valid_follow _ R)) in Hv as [V1 V2]. by split_and!.
  - intros (Hr & H1 & H2 & ->). destruct (wire_header r Hr) as [Hh E].
    rewrite E. split_and!; [|done|by apply valid_follow|done]. by rewrite (proj1 Hh).
  - intros Hr. pose proof (valid_follow r Hr) as V. clear -Hr V. tauto.
Qed.

(** Two receipts compare equal exactly when they are the same receipt and
    its generations follow each other. *)
Theorem receipt_equal_iff a r b s aw bw :
  wf_receipt r -> wf_receipt s ->
  overlaps (Some a) receipt_size (Some aw) VAULT_RESEAL_RECEIPT_V1_LEN = false ->
  overlaps (Some b) receipt_size (Some bw) VAULT_RESEAL_RECEIPT_V1_LEN = false ->
  vault_reseal_receipt_equal (Some (a, r)) (Some (b, s)) aw bw = true <-> r = s /\ valid r = true.
Proof.
  intros Hr Hs Ha Hb. unfold vault_reseal_receipt_equal.
  destruct (vault_reseal_receipt_encode (Some (a, r)) _) as [x|] eqn:Ex;
    [apply encode_iff in Ex as (_ & Vr & ->) |].
  2:{ split; [done|]. intros [_ V]. by rewrite (proj2 (encode_iff a r aw (receipt_wire r))) in Ex. }
  destruct (vault_reseal_receipt_encode (Some (b, s)) _) as [y|] eqn:Ey;
    [apply encode_iff in Ey as (_ & Vs & ->) |].
  - rewrite bytes_eqb_true. split; [|by intros [-> _]]. intros E. split; [by apply receipt_wire_inj | done].
  - split; [done|]. intros [<- V]. by rewrite (proj2 (encode_iff b r bw (receipt_wire r))) in Ey.
Qed.

(** A digest names its receipt: two wire buffers with the same digest
    decode to the same receipt, or are a collision of SHA-256. *)
Theorem receipt_digest_binds `{Sha256} a v b w l d1 d2 h :
  vault_reseal_receipt_digest (Some (a, v)) l (Some d1) = Some h ->
  vault_reseal_receipt_digest (Some (b, w)) l (Some d2) = Some h ->
  (exists r, vault_reseal_receipt_decode (Some (a, v)) (Some l) = Some r
             /\ vault_reseal_receipt_decode (Some (b, w)) (Some l) = Some r)
  \/ collides v w.
Proof.
  unfold vault_reseal_receipt_digest.
  destruct (overlaps (Some a) _ _ _), (overlaps (Some b) _ _ _); try done.
  destruct (vault_reseal_receipt_decode (Some (a, v)) _) as [r|] eqn:Er; [|done].
  destruct (vault_reseal_receipt_decode (Some (b, w)) _) as [s|] eqn:Es; [|done].
  intros [= <-] [= E]. destruct (decide (v = w)) as [<-|Hn]; [left|right; by split].
  apply decode_iff in Er as (_ & _ & _ & ->), Es as (_ & _ & _ & ->). eauto.
Qed.

(** ** Operation ids *)

Lemma nibble_iff c x : nibble c = Some x <-> 0 <= x < 16 /\ c = hex_digit x.
Proof.
  split.
  - intros E. assert (0 <= c < 256) as Hc
      by (revert E; unfold nibble; destruct (Z.leb_spec 48 c), (Z.leb_spec c 57); cbn [andb]; try lia;
          destruct (Z.leb_spec 97 c), (Z.leb_spec c 102); cbn [andb]; (lia || done)).
    pose proof (check_range 256 (fun c => match nibble c with
      | Some x => (0 <=? x) && (x <? 16) && (c =? hex_digit x) | None => true end)
      ltac:(vm_compute; reflexivity) c Hc) as Hx. cbv beta in Hx. rewrite E in Hx. lia.
  - intros [Hx ->].
    pose proof (check_range 16 (fun x => match nibble (hex_digit x) with Some y => y =? x | None => false end)
      ltac:(vm_compute; reflexivity) x Hx) as Hy. cbv beta in Hy.
    destruct (nibble _) as [y|]; [|done]. apply Z.eqb_eq in Hy. by subst.
Qed.

Definition glue (x y : Z) : Z := u8 (Z.lor (Z.lor 0 (Z.shiftl x 4)) y).

Lemma glue_digits x y : 0 <= x < 16 -> 0 <= y < 16 ->
  is_byte (glue x y) /\ hex_byte (glue x y) = [hex_digit x; hex_digit y].
Proof.
  intros Hx Hy. split; [apply u8_range|].
  pose proof (check_range 16 (fun x => forallb (fun y =>
      (Z.shiftr (glue x y) 4 =? x) && (Z.land (glue x y) 15 =? y)) (seqZ 0 16))
    ltac:(vm_compute; reflexivity) x Hx) as Hc. cbv beta in Hc.
  rewrite forallb_forall in Hc. specialize (Hc y). rewrite <- list_elem_of_In, elem_of_seqZ in Hc.
  unfold hex_byte. f_equal; [f_equal; lia|]. f_equal. f_equal. lia.
Qed.

Lemma byte_glued b : is_byte b ->
  0 <= Z.shiftr b 4 < 16 /\ 0 <= Z.land b 15 < 16 /\ glue (Z.shiftr b 4) (Z.land b 15) = b.
Proof.
  intros Hb.
  pose proof (check_range 256 (fun b => (0 <=? Z.shiftr b 4) && (Z.shiftr b 4 <? 16) && (0 <=? Z.land b 15)
      && (Z.land b 15 <? 16) && (glue (Z.shiftr b 4) (Z.land b 15) =? b))
    ltac:(vm_compute; reflexivity) b Hb) as Hc. cbv beta in Hc. lia.
Qed.

Lemma from_hex_iff h l : from_hex h = Some l <-> is_bytes l /\ h = hex_bytes l.
Proof.
  split.
  - revert l. induction h as [h IH] using (induction_ltof1 _ (@length Z)). unfold ltof in IH.
    destruct h as [|a [|b h]]; intros l E; [injection E as <-; by split; [constructor|] | done |].
    cbn [from_hex] in E.
    destruct (nibble a) as [x|] eqn:Ea, (nibble b) as [y|] eqn:Eb, (from_hex h) as [k|] eqn:Eh; try done.
    injection E as <-. apply nibble_iff in Ea as [Hx ->], Eb as [Hy ->].
    apply IH in Eh as [Hk ->]; [|cbn; lia]. fold (glue x y).
    destruct (glue_digits x y Hx Hy) as [Hg Eg]. split; [by constructor|].
    unfold hex_bytes. cbn [map concat]. by rewrite Eg.
  - intros [Hl ->]. induction Hl as [|b l Hb Hl IH]; [done|].
    destruct (byte_glued b Hb) as (Hx & Hy & Eg).
    change (hex_bytes (b :: l)) with (hex_digit (Z.shiftr b 4) :: hex_digit (Z.land b 15) :: hex_bytes l).
    cbn [from_hex].
    rewrite (proj2 (nibble_iff _ (Z.shiftr b 4)) (conj Hx eq_refl)).
    rewrite (proj2 (nibble_iff _ (Z.land b 15)) (conj Hy eq_refl)).
    cbn. rewrite IH. cbn. by fold (glue (Z.shiftr b 4) (Z.land b 15)); rewrite Eg.
Qed.

(** The text form of an operation id is one to one: between buffers that
    do not overlap a text reads as an id exactly when it is the text of that
    id, so an upper-case or a short spelling of an id is no name for it. *)
Theorem operation_id_hex_iff a h b id :
  overlaps (Some a) (VAULT_RESEAL_OPERATION_HEX_LEN + 1) (Some b) VAULT_RESEAL_OPERATION_ID_LEN = false ->
  vault_reseal_operation_id_from_hex (Some (a, h)) (Some b) = Some id
  <-> field 16 id /\ vault_reseal_operation_id_to_hex (Some (b, id)) (Some a) = Some h.
Proof.
  intros Hap. unfold vault_reseal_operation_id_from_hex, vault_reseal_operation_id_to_hex.
  cbn [fmap option_fmap option_map fst].
  rewrite (overlaps_sym b), Hap by done. unfold field, VAULT_RESEAL_OPERATION_HEX_LEN, zlen.
  destruct (Z.eqb_spec (Z.of_nat (length h)) 32) as [Hh|Hh]; cbn [negb].
  - rewrite from_hex_iff. split.
    + intros [Hid ->]. rewrite hex_bytes_length in Hh. split_and!; [lia | done..].
    + intros [[_ Hid] [= <-]]. done.
  - split; [done|]. intros [[Hl _] [= <-]]. rewrite hex_bytes_length in Hh. lia.
Qed.

(** ** Witnesses *)

Definition example : vault_tpm2_reseal_receipt_t :=
  {| operation_id := replicate 16 171; old_generation := 7; new_generation := 8;
     predecessor_digest := replicate 32 1; capsule_digest := replicate 32 2; future_digest := replicate 32 3;
     new_kek_digest := replicate 32 4; manifest_digest := replicate 32 5 |}.

Lemma example_wf : wf_receipt example.
Proof.
  assert (F : forall n c, 0 <= c < 256 -> field n (replicate n c))
    by (intros n c Hc; split; [apply length_replicate | by apply Forall_replicate]).
  unfold wf_receipt. cbn [example operation_id old_generation new_generation predecessor_digest capsule_digest
    future_digest new_kek_digest manifest_digest]. split_and!; (apply F || idtac); lia.
Qed.

Lemma receipt_decode_iff_witness :
  vault_reseal_receipt_decode (Some (4096, layout example)) (Some 8192) = Some example
  /\ vault_reseal_receipt_encode (Some (8192, example)) (Some 4096) = Some (layout example).
Proof.
  destruct (receipt_decode_iff 4096 (layout example) 8192 example) as [H1 H2];
    [apply is_bytesb_true; reflexivity | intros (x & ? & ?); lia|].
  assert (L : laid_out example (layout example)) by (split_and!; [exact example_wf | cbn; lia | reflexivity | reflexivity]).
  split; [apply H1; exact L | apply H2; [exact example_wf | exact L]].
Defined.

Lemma receipt_equal_iff_witness :
  vault_reseal_receipt_equal (Some (100, example)) (Some (100, example)) 5000 6000 = true.
Proof.
  apply (receipt_equal_iff 100 example 100 example 5000 6000);
    [exact example_wf | exact example_wf | reflexivity | reflexivity | split; reflexivity].
Defined.

Lemma receipt_digest_binds_witness :
  (exists r, vault_reseal_receipt_decode (Some (0, receipt_wire example)) (Some 900) = Some r
             /\ vault_reseal_receipt_decode (Some (300, receipt_wire example)) (Some 900) = Some r)
  \/ collides (H := toy) (receipt_wire example) (receipt_wire example).
Proof.
  apply (receipt_digest_binds (H := toy) 0 (receipt_wire example) 300 (receipt_wire example) 900 2000 2100
    (toy_sha256 (receipt_wire example))); reflexivity.
Defined.

Lemma operation_id_hex_iff_witness :
  vault_reseal_operation_id_from_hex (Some (64, hex_bytes (replicate 16 171))) (Some 0)
  = Some (replicate 16 171).
Proof.
  apply (operation_id_hex_iff 64 (hex_bytes (replicate 16 171)) 0 (replicate 16 171)); [reflexivity|].
  split; [split; [reflexivity | apply Forall_replicate; unfold is_byte; lia] | reflexivity].
Defined.
End ResealReceipt.
