(* ===== verification/Principal.v ===== *)
(** * Vault principal ([src/src/modules/vault/vault_principal.c])

    Classifies a connection (transport, peer uid, asserted web user, verified
    client certificate) and writes the principal that keys its vault.  The
    output buffer is given by its capacity, [None] for a null pointer; the
    result is the string it holds afterwards.  Shown: a principal determines
    the attested identity it was written for, whatever the other inputs; an
    asserted but unattested web user gets no principal and no bearer
    authority. *)

From Stdlib Require Import ZArith Lia String Ascii.
From stdpp Require Import base numbers option list.
From S2P Require Import Prelude.

Module Principal.

Inductive attested_transport_t :=
  | ATTEST_NONE | ATTEST_TCP_BEARER | ATTEST_UDS_PEERCRED
  | ATTEST_WEBCHAT_TRUSTED | ATTEST_TLS_BEARER | ATTEST_MTLS_CLIENT.

Definition VAULT_CERT_CN_MAX : nat := 128.
Definition VAULT_PRINCIPAL_MAX : nat := 160.
Definition VAULT_CERT_PRINCIPAL_PREFIX : bytes := str "cert:".

(** The characters a name may have. *)
Definition name_byte (c : Z) : bool :=
  ((65 <=? c) && (c <=? 90)) || ((97 <=? c) && (c <=? 122)) || ((48 <=? c) && (c <=? 57))
  || (c =? 46) || (c =? 95) || (c =? 45).

Definition vault_principal_name_sanitize (name : option bytes) (out : option nat) : Z * option bytes :=
  let cleared := match out with Some (S _) => Some [] | _ => None end in
  match name, out with
  | Some name, Some (S cap) =>
      if bool_decide (name = []) then (0, cleared)
      else if (VAULT_CERT_CN_MAX <? length name)%nat || (S cap <=? length name)%nat then (0, cleared)
      else if forallb name_byte name then (1, Some name)
      else (0, cleared)
  | _, _ => (0, cleared)
  end.

(** [s && s[0]] *)
Definition present (s : option bytes) : bool :=
  match s with Some (_ :: _) => true | _ => false end.

Definition vault_principal_resolve (is_tcp is_tls : bool) (peer_uid : Z) (webuser : option bytes)
    (webuser_attested : bool) (cert_cn : option bytes) (out : option nat)
    : attested_transport_t * option bytes :=
  let cleared := match out with Some (S _) => Some [] | _ => None end in
  match out with
  | None => (ATTEST_NONE, cleared)
  | Some out_len =>
      if (out_len <? VAULT_PRINCIPAL_MAX)%nat then (ATTEST_NONE, cleared)
      else if present cert_cn && is_tcp && is_tls
      then
        let '(ok, san) := vault_principal_name_sanitize cert_cn (Some (VAULT_CERT_CN_MAX + 1)%nat) in
        (ATTEST_MTLS_CLIENT,
         if ok =? 0 then cleared
         else Some (snprintf_s out_len (VAULT_CERT_PRINCIPAL_PREFIX ++ default [] san)))
      else
        let webuser_asserted := present webuser in
        let tls_bearer := is_tcp && is_tls && negb webuser_asserted in
        if webuser_asserted && webuser_attested
        then
          let '(ok, san) := vault_principal_name_sanitize webuser (Some (VAULT_CERT_CN_MAX + 1)%nat) in
          (ATTEST_WEBCHAT_TRUSTED,
           if ok =? 0 then cleared else Some (snprintf_s out_len (str "webuser:" ++ default [] san)))
        else if webuser_asserted
        then (if is_tcp then ATTEST_TCP_BEARER else ATTEST_UDS_PEERCRED, cleared)
        else if negb is_tcp
        then (ATTEST_UDS_PEERCRED,
              if 0 <=? peer_uid then Some (snprintf_s out_len (str "uid:" ++ dec_u64 peer_uid)) else cleared)
        else (if tls_bearer then ATTEST_TLS_BEARER else ATTEST_TCP_BEARER, cleared)
  end.

(** ** The identity a connection proves *)

Inductive identity :=
  | Cert (cn : bytes)
  | Webuser (name : bytes)
  | Uid (n : Z).

Record connection := {
  is_tcp : bool;
  is_tls : bool;
  peer_uid : Z;
  webuser : option bytes;
  webuser_attested : bool;
  cert_cn : option bytes
}.

Definition resolve (c : connection) (out_len : nat) : attested_transport_t * option bytes :=
  vault_principal_resolve (is_tcp c) (is_tls c) (peer_uid c) (webuser c) (webuser_attested c)
    (cert_cn c) (Some out_len).

(** A name of 1 to 128 permitted characters. *)
Definition good_name (s : bytes) : Prop :=
  s <> [] /\ (length s <= VAULT_CERT_CN_MAX)%nat /\ Forall (fun c => name_byte c = true) s.

(** What a connection may prove: a certificate over TLS on the network, a web
    user the local root peer attests when no such certificate is shown, a
    kernel-attested uid on the local socket when neither is asserted. *)
Definition proves (c : connection) (i : identity) : Prop :=
  match i with
  | Cert cn => is_tcp c = true /\ is_tls c = true /\ cert_cn c = Some cn /\ good_name cn
  | Webuser name => (present (cert_cn c) && is_tcp c && is_tls c = false) /\ webuser_attested c = true
      /\ webuser c = Some name /\ good_name name
  | Uid n => is_tcp c = false /\ present (webuser c) = false /\ peer_uid c = n /\ 0 <= n
  end.

Definition render (i : identity) : bytes :=
  match i with
  | Cert cn => str "cert:" ++ cn
  | Webuser name => str "webuser:" ++ name
  | Uid n => str "uid:" ++ dec_u64 n
  end.

Definition long_uid (c : connection) : Prop := peer_uid c < 2 ^ 63.

Lemma sanitize_ok name cap ok out : vault_principal_name_sanitize (Some name) (Some (S cap)) = (ok, out) ->
  (ok = 1 /\ out = Some name /\ good_name name) \/ (ok = 0 /\ out = Some [] /\ (~ good_name name \/ (cap < length name)%nat)).
Proof.
  unfold vault_principal_name_sanitize; cbv beta iota zeta. unfold good_name. case_bool_decide as Hn; [intros [= <- <-]; right; tauto|].
  destruct ((VAULT_CERT_CN_MAX <? length name)%nat || (S cap <=? length name)%nat) eqn:G.
  - intros [= <- <-]. right. split_and!; [done..|].
    apply orb_true_iff in G as [G%Nat.ltb_lt|G%Nat.leb_le]; [left | right]; [|lia]. intros (_ & H & _). lia.
  - apply orb_false_iff in G as [G1%Nat.ltb_ge G2%Nat.leb_gt].
    destruct (forallb name_byte name) eqn:F; intros [= <- <-].
    + left. split_and!; try done. apply Forall_forall. intros x Hx. apply (proj1 (forallb_forall name_byte name) F), list_elem_of_In, Hx.
    + right. split_and!; [done..|]. left. intros (_ & _ & H).
      apply not_true_iff_false in F. apply F, forallb_forall. intros x Hx%list_elem_of_In. rewrite Forall_forall in H. by apply H.
Qed.

(** The string written is the rendering of what the connection proves. *)
Lemma resolve_renders c out_len p : (VAULT_PRINCIPAL_MAX <= out_len)%nat ->
  (resolve c out_len).2 = Some p -> p <> [] -> exists i, proves c i /\ p = render i.
Proof.
  intros Ho. unfold resolve, vault_principal_resolve.
  destruct (Nat.ltb_spec out_len VAULT_PRINCIPAL_MAX); [lia|].
  destruct out_len as [|out_len]; [unfold VAULT_PRINCIPAL_MAX in Ho; lia|].
  destruct c as [tcp tls uid wu wa cn]; cbn [is_tcp is_tls peer_uid webuser webuser_attested cert_cn].
  assert (forall pre name, (length pre <= 8)%nat -> good_name name ->
    snprintf_s (S out_len) (pre ++ name) = pre ++ name) as Fit.
  { intros pre name Hp (_ & Hl & _). apply snprintf_s_fits. rewrite length_app.
    unfold VAULT_PRINCIPAL_MAX, VAULT_CERT_CN_MAX in *. lia. }
  destruct (present cn && tcp && tls) eqn:Ec.
  - apply andb_true_iff in Ec as [[Hc ->]%andb_true_iff ->]. destruct cn as [cn|]; [|done].
    destruct (vault_principal_name_sanitize (Some cn) _) as [ok san] eqn:S.
    apply sanitize_ok in S as [(-> & -> & G)|(-> & -> & _)]; cbn [Z.eqb snd default]; [|by intros [= <-]].
    intros Hp%(inj Some) _. exists (Cert cn). split; [done|]. rewrite <- Hp.
      apply (Fit (str "cert:")); [cbn; lia | done].
  - destruct (present wu) eqn:Hw; cbn [andb].
    + destruct wa; [|destruct tcp; intros [= <-]; done]. destruct wu as [wu|]; [|done].
      destruct (vault_principal_name_sanitize (Some wu) _) as [ok san] eqn:S.
      apply sanitize_ok in S as [(-> & -> & G)|(-> & -> & _)]; cbn [Z.eqb snd default]; [|by intros [= <-]].
      intros Hp%(inj Some) _. exists (Webuser wu). split; [done|]. rewrite <- Hp.
      apply (Fit (str "webuser:")); [cbn; lia | done].
    + destruct tcp; cbn [negb snd]; [by intros [= <-]|].
      destruct (Z.leb_spec 0 uid); [|by intros [= <-]]. intros Hp%(inj Some) _. exists (Uid uid).
      split; [done|]. rewrite <- Hp, snprintf_s_fits; [done|]. rewrite length_app. pose proof (dec_u64_length uid).
      unfold VAULT_PRINCIPAL_MAX in *. change (length (str "uid:")) with 4%nat. lia.
Qed.

Lemma render_inj i j : (forall n, i = Uid n -> 0 <= n < 2 ^ 63) -> (forall n, j = Uid n -> 0 <= n < 2 ^ 63) ->
  render i = render j -> i = j.
Proof.
  intros Hi Hj. destruct i as [a|a|a], j as [b|b|b]; cbn [render]; intros E;
    try (exfalso; apply (f_equal (fun l => take 1 l)) in E; done).
  - apply app_inv_head in E. by f_equal.
  - apply app_inv_head in E. by f_equal.
  - apply app_inv_head in E. specialize (Hi a eq_refl). specialize (Hj b eq_refl). f_equal.
    apply dec_u64_inj; [lia..|done].
Qed.

(** Two connections that are given the same non-empty vault principal
    have proved the same identity: the same sanitized certificate name over
    mutual TLS, the same root-attested web user, or the same kernel-attested
    uid.  No client-supplied name can produce a principal of another
    namespace. *)
Theorem principal_identifies (c d : connection) (m n : nat) (p : bytes) :
  (VAULT_PRINCIPAL_MAX <= m)%nat -> (VAULT_PRINCIPAL_MAX <= n)%nat -> long_uid c -> long_uid d ->
  (resolve c m).2 = Some p -> (resolve d n).2 = Some p -> p <> [] ->
  exists i, proves c i /\ proves d i /\ p = render i.
Proof.
  intros Hm Hn Hc Hd Ec Ed Hp.
  destruct (resolve_renders c m p Hm Ec Hp) as (i & Pi & Ei).
  destruct (resolve_renders d n p Hn Ed Hp) as (j & Pj & Ej).
  assert (i = j) as <-; [|eauto]. unfold long_uid in *. apply render_inj; [| |congruence].
  - intros k ->. cbn in Pi. destruct Pi as (_ & _ & <- & ?). lia.
  - intros k ->. cbn in Pj. destruct Pj as (_ & _ & <- & ?). lia.
Qed.

Definition tls_conn (cn : bytes) : connection :=
  {| is_tcp := true; is_tls := true; peer_uid := -1; webuser := None; webuser_attested := false;
     cert_cn := Some cn |}.

Lemma principal_identifies_witness :
  exists i, proves (tls_conn (str "build-01")) i /\ str "cert:build-01" = render i.
Proof.
  destruct (principal_identifies (tls_conn (str "build-01")) (tls_conn (str "build-01")) 160 200
    (str "cert:build-01")) as (i & A & _ & B);
    [unfold VAULT_PRINCIPAL_MAX; lia | unfold VAULT_PRINCIPAL_MAX; lia
    | unfold long_uid; cbn; lia | unfold long_uid; cbn; lia
    | vm_compute; reflexivity | vm_compute; reflexivity | discriminate |].
  exists i. split; assumption.
Defined.

(** A web user asserted without attestation never gains anything: the
    principal is empty and the connection is neither a trusted web chat nor a
    TLS bearer, so it is classified by its raw transport alone. *)
Theorem principal_spoof_refused (c : connection) (n : nat) : (VAULT_PRINCIPAL_MAX <= n)%nat ->
  present (webuser c) = true -> webuser_attested c = false ->
  present (cert_cn c) && is_tcp c && is_tls c = false ->
  resolve c n = (if is_tcp c then ATTEST_TCP_BEARER else ATTEST_UDS_PEERCRED, Some []).
Proof.
  intros Hn Hw Ha Hc. unfold resolve, vault_principal_resolve.
  destruct (Nat.ltb_spec n VAULT_PRINCIPAL_MAX); [lia|].
  destruct n as [|n]; [unfold VAULT_PRINCIPAL_MAX in Hn; lia|]. by rewrite Hc, Hw, Ha.
Qed.

Lemma principal_spoof_refused_witness :
  resolve {| is_tcp := true; is_tls := true; peer_uid := 0; webuser := Some (str "root");
             webuser_attested := false; cert_cn := None |} 160 = (ATTEST_TCP_BEARER, Some []).
Proof.
  apply principal_spoof_refused; [unfold VAULT_PRINCIPAL_MAX; lia | reflexivity | reflexivity | reflexivity].
Defined.

(** A local peer the kernel reports as uid 0 does get a principal. *)
Lemma principal_root_uid :
  resolve {| is_tcp := false; is_tls := false; peer_uid := 0; webuser := None;
             webuser_attested := false; cert_cn := None |} 160 = (ATTEST_UDS_PEERCRED, Some (str "uid:0")).
Proof. reflexivity. Qed.
End Principal.
