(* ===== verification/VaultCapability.v ===== *)
(** * Write grants for the server vault ([src/src/modules/vault/vault_capability.c])

    A file with one principal per line lists who may write the server's
    credentials; three gates combine it with how a connection was attested.
    The files are a map from paths to contents; what the system calls of one
    operation do (whether the file can be read, whether the buffer of the new
    text is allocated, what [write] returns, whether [rename] succeeds) is its
    [io] argument, so that failing calls are behaviours of the model.  Shown: the operations are the operations of a
    set of principals; whatever the system calls do, the file holds the old
    or the complete new list; and each gate admits exactly the connections
    its comment says, in a fixed order of strength. *)

From Stdlib Require Import ZArith Lia String Ascii.
From stdpp Require Import base numbers option list gmap.
From S2P Require Import Prelude.
From S2P Require Import Principal.

Open Scope string_scope.
Open Scope Z_scope.

Module VaultCapability.
Import Principal.

(** ** The file *)

Record store := { g_cap_path_override : bytes; files : gmap bytes bytes }.

(** The outcome of the system calls of one operation.  [io_read c] is what
    opening, measuring and reading a file with content [c] yields, and
    [io_malloc n] whether the buffer of [n] bytes for the new text is
    allocated. *)
Record io_t := {
  config_default_dir : option bytes;
  io_read : bytes -> option bytes;
  io_malloc : Z -> bool;
  io_open : bool;
  io_write : Z -> option Z;
  io_rename : bool;
}.

Definition vault_capability_set_path_for_test (path : option bytes) (s : store) : store :=
  {| g_cap_path_override := match path with Some p => snprintf_s 512 p | None => [] end;
     files := files s |}.

Definition cap_path (io : io_t) (s : store) (cap : Z) : option bytes :=
  if negb (bool_decide (g_cap_path_override s = [])) then
    if cap <=? zlen (g_cap_path_override s) then None else Some (g_cap_path_override s)
  else
    match config_default_dir io with
    | None | Some [] => None
    | Some base =>
        let p := (base ++ str "/.vault/server-write-grants")%list in
        if cap <=? zlen p then None else Some p
    end.

Definition principal_valid (p : option bytes) : bool :=
  match p with
  | None | Some [] => false
  | Some p =>
      if 160 <=? zlen p then false else negb (has_byte 10 p) && negb (has_byte 13 p)
  end.

(** The text in the buffer ends at its first NUL. *)
Definition cap_read (io : io_t) (path : bytes) (s : store) : option bytes :=
  c ← files s !! path; c_str <$> io_read io c.

(** The lines the loops walk over: what stands before each newline, and a
    last line without one. *)
Fixpoint lines (buf : bytes) : list bytes :=
  match buf with
  | [] => []
  | c :: r =>
      if c =? 10 then [] :: lines r
      else match lines r with [] => [[c]] | l :: ls => (c :: l) :: ls end
  end.

Definition line_match (buf : option bytes) (principal : bytes) : bool :=
  match buf with
  | None => false
  | Some b => existsb (fun l => bytes_eqb l principal) (lines b)
  end.

(** The temporary file is created, written and renamed over the store; on an
    error it is unlinked. *)
Definition cap_write_atomic (io : io_t) (path content : bytes) (s : store) : Z * store :=
  let tmp := (path ++ str ".tmp")%list in
  if 600 <=? zlen tmp then (-1, s)
  else if negb (io_open io) then (-1, s)
  else
    let ok := (zlen content =? 0)
              || match io_write io (zlen content) with Some w => w =? zlen content | None => false end in
    let gone := delete tmp (files s) in
    if negb ok || negb (io_rename io)
    then (-1, {| g_cap_path_override := g_cap_path_override s; files := gone |})
    else (0, {| g_cap_path_override := g_cap_path_override s; files := <[path := content]> gone |}).

(** ** Granting and revoking *)

Definition ends_line (b : bytes) : bool := bool_decide (last b = Some 10).

Definition vault_capability_grant (io : io_t) (principal : option bytes) (s : store) : Z * store :=
  if negb (principal_valid principal) then (-1, s)
  else
    let p := default [] principal in
    match cap_path io s 512 with
    | None => (-1, s)
    | Some path =>
        let buf := cap_read io path s in
        if line_match buf p then (0, s)
        else
          let b := default [] buf in
          let sep := if bool_decide (b = []) || ends_line b then [] else [10] in
          let need := zlen b + zlen sep + zlen p + 1 in
          if negb (io_malloc io (need + 1)) then (-1, s)
          else cap_write_atomic io path (b ++ sep ++ p ++ [10])%list s
    end.

Definition vault_capability_revoke (io : io_t) (principal : option bytes) (s : store) : Z * store :=
  if negb (principal_valid principal) then (-1, s)
  else
    let p := default [] principal in
    match cap_path io s 512 with
    | None => (-1, s)
    | Some path =>
        match cap_read io path s with
        | None => (0, s)
        | Some b =>
            if negb (line_match (Some b) p) then (0, s)
            else if negb (io_malloc io (zlen b + 1)) then (-1, s)
            else
              let kept := List.filter (fun l => negb (bytes_eqb l p) && negb (bool_decide (l = []))) (lines b) in
              cap_write_atomic io path (concat (map (fun l => l ++ [10])%list kept)) s
        end
    end.

Definition vault_capability_has (io : io_t) (principal : option bytes) (s : store) : bool :=
  if negb (principal_valid principal) then false
  else
    match cap_path io s 512 with
    | None => false
    | Some path => line_match (cap_read io path s) (default [] principal)
    end.

(** The text copied out and the count; [None] for the count is -1. *)
Definition vault_capability_list (io : io_t) (out_len : nat) (s : store) : bytes * Z :=
  match out_len with
  | O => ([], -1)
  | _ =>
      match cap_path io s 512 with
      | None => ([], -1)
      | Some path =>
          match cap_read io path s with
          | None => ([], 0)
          | Some b =>
              let newlines := Z.of_nat (length (List.filter (fun c => c =? 10) b)) in
              (snprintf_s out_len b,
               if negb (bool_decide (b = [])) && negb (ends_line b) then newlines + 1 else newlines)
          end
      end
  end.

(** ** The gates *)

Definition vault_capability_server_write_allowed (io : io_t) (transport : attested_transport_t)
    (principal : option bytes) (s : store) : bool :=
  match transport with
  | ATTEST_TLS_BEARER => true
  | ATTEST_UDS_PEERCRED | ATTEST_WEBCHAT_TRUSTED | ATTEST_MTLS_CLIENT => vault_capability_has io principal s
  | _ => false
  end.

Definition vault_capability_server_read_allowed (io : io_t) (transport : attested_transport_t)
    (principal : option bytes) (s : store) : bool :=
  match transport with
  | ATTEST_UDS_PEERCRED | ATTEST_WEBCHAT_TRUSTED | ATTEST_TLS_BEARER => true
  | ATTEST_MTLS_CLIENT => vault_capability_has io principal s
  | _ => false
  end.

Definition vault_agent_key_server_seal_allowed (transport : attested_transport_t) : bool :=
  match transport with
  | ATTEST_TLS_BEARER | ATTEST_MTLS_CLIENT | ATTEST_WEBCHAT_TRUSTED | ATTEST_UDS_PEERCRED => true
  | _ => false
  end.

(** ** Lines *)

Lemma lines_nil b : lines b = [] <-> b = [].
Proof.
  destruct b as [|c r]; [done|]. cbn. destruct (c =? 10); [done|]. by destruct (lines r).
Qed.

Lemma lines_cons c r : c <> 10 -> r <> [] -> exists l ls, lines r = l :: ls /\ lines (c :: r) = (c :: l) :: ls.
Proof.
  intros Hc Hr. cbn. apply Z.eqb_neq in Hc as ->.
  destruct (lines r) as [|l ls] eqn:E; [by apply lines_nil in E|].
  by exists l, ls.
Qed.

Lemma lines_newline b r : lines (b ++ 10 :: r) = (lines (b ++ [10]) ++ lines r)%list.
Proof.
  induction b as [|c b IH]; [done|]. destruct (decide (c = 10)) as [->|Hc].
  - cbn. by rewrite IH.
  - destruct (lines_cons c (b ++ 10 :: r) Hc) as (l & ls & E & E'); [by destruct b|].
    destruct (lines_cons c (b ++ [10]) Hc) as (l1 & ls1 & E1 & E1'); [by destruct b|].
    cbn [app]. rewrite E', E1'. rewrite IH, E1 in E. cbn in E. by injection E as <- <-.
Qed.

(** A newline after an unfinished line does not make another. *)
Lemma lines_finish b : b <> [] -> last b <> Some 10 -> lines (b ++ [10]) = lines b.
Proof.
  induction b as [|c b IH]; [done|]. intros _ Hl. destruct b as [|d b].
  - cbn in *. rewrite (proj2 (Z.eqb_neq c 10)) by congruence. done.
  - assert (IH' := IH ltac:(done) Hl). change ((c :: d :: b) ++ [10])%list with (c :: ((d :: b) ++ [10]))%list.
    destruct (decide (c = 10)) as [->|Hc].
    + change (lines (10 :: ?x)) with ([] :: lines x). by rewrite IH'.
    + destruct (lines_cons c ((d :: b) ++ [10]) Hc) as (l & ls & E & ->); [done|].
      destruct (lines_cons c (d :: b) Hc) as (l1 & ls1 & E1 & ->); [done|]. congruence.
Qed.

Lemma lines_single l : l <> [] -> (10 ∉ l) -> lines (l ++ [10]) = [l].
Proof.
  induction l as [|c l IH]; [done|]. intros _ Hn. apply not_elem_of_cons in Hn as [Hc Hn].
  destruct (decide (l = [])) as [->|Hl].
  - cbn. rewrite (proj2 (Z.eqb_neq c 10)) by congruence. done.
  - destruct (lines_cons c (l ++ [10])) as (k & ls & E & E'); [congruence | by destruct l|].
    cbn [app]. rewrite E'. rewrite IH in E by done. by injection E as <- <-.
Qed.

Lemma lines_join ls :
  Forall (fun l => l <> [] /\ (10 ∉ l)) ls -> lines (concat (map (fun l => l ++ [10])%list ls)) = ls.
Proof.
  induction 1 as [|l ls [Hne Hn] _ IH]; [done|]. cbn [map concat].
  rewrite <- app_assoc. cbn [app]. rewrite lines_newline, lines_single, IH by done. done.
Qed.

Lemma lines_no_newline b l : l ∈ lines b -> 10 ∉ l.
Proof.
  revert l. induction b as [|c b IH]; intros l Hl; [by apply elem_of_nil in Hl|].
  cbn in Hl. destruct (Z.eqb_spec c 10) as [->|Hc].
  - apply elem_of_cons in Hl as [->|Hl]; [set_solver | by apply IH].
  - destruct (lines b) as [|k ks] eqn:E; [apply list_elem_of_singleton in Hl as ->; set_solver|].
    apply elem_of_cons in Hl as [->|Hl]; [|apply IH; by right].
    assert (10 ∉ k) by (apply IH; left). set_solver.
Qed.

Lemma lines_cstr b l : Forall is_char b -> l ∈ lines b -> Forall is_char l.
Proof.
  intros Hb. revert l. induction Hb as [|c b Hc _ IH]; intros l Hl; [by apply elem_of_nil in Hl|].
  cbn in Hl. destruct (c =? 10).
  - apply elem_of_cons in Hl as [->|Hl]; [constructor | by apply IH].
  - destruct (lines b) as [|k ks]; [apply list_elem_of_singleton in Hl as ->; by apply Forall_singleton|].
    apply elem_of_cons in Hl as [->|Hl]; [constructor; [done | apply IH; left] | apply IH; by right].
Qed.

Lemma line_match_iff b p : line_match (Some b) p = true <-> p ∈ lines b.
Proof.
  cbn. rewrite existsb_exists. split.
  - intros (l & Hin & ->%bytes_eqb_true). by apply list_elem_of_In.
  - intros Hin. exists p. split; [by apply list_elem_of_In | apply bytes_eqb_refl].
Qed.

(** ** The operations on an intact file system *)

(** Every system call does what it is asked. *)
Definition intact (io : io_t) : Prop :=
  (forall c, io_read io c = Some c) /\ (forall n, io_malloc io n = true) /\ io_open io = true
  /\ (forall n, io_write io n = Some n) /\ io_rename io = true.

Lemma intact_malloc io n : intact io -> negb (io_malloc io n) = false.
Proof. by intros (_ & -> & _). Qed.

(** The principals a file lists. *)
Definition listed (io : io_t) (path : bytes) (s : store) : list bytes :=
  match cap_read io path s with Some b => lines b | None => [] end.

Lemma valid_text p : principal_valid (Some p) = true -> p <> [] /\ (10 ∉ p) /\ zlen p < 160.
Proof.
  unfold principal_valid, has_byte. destruct p as [|c p]; [done|].
  destruct (Z.leb_spec 160 (zlen (c :: p))); [done|]. intros Hv. bool_to_prop. done.
Qed.

Lemma has_iff io p s path :
  cap_path io s 512 = Some path ->
  vault_capability_has io (Some p) s = true <-> principal_valid (Some p) = true /\ p ∈ listed io path s.
Proof.
  intros Hp. unfold vault_capability_has, listed. rewrite Hp. cbn [default from_option id].
  destruct (principal_valid (Some p)); cbn [negb]; [|naive_solver].
  destruct (cap_read io path s) as [b|]; [rewrite line_match_iff; naive_solver|].
  split; [done|]. intros [_ Hin]. by apply elem_of_nil in Hin.
Qed.

Lemma path_short io s path : cap_path io s 512 = Some path -> zlen path < 512.
Proof.
  unfold cap_path. destruct (negb _).
  - destruct (Z.leb_spec 512 (zlen (g_cap_path_override s))); [done|]. by intros [= <-].
  - destruct (config_default_dir io) as [[|c b]|]; [done | | done]. cbv zeta.
    destruct (Z.leb_spec 512 (zlen ((c :: b) ++ str "/.vault/server-write-grants"))); [done|]. by intros [= <-].
Qed.

Lemma write_intact io path content s :
  intact io -> zlen path < 512 ->
  cap_write_atomic io path content s
  = (0, {| g_cap_path_override := g_cap_path_override s;
           files := <[path := content]> (delete (path ++ str ".tmp")%list (files s)) |}).
Proof.
  intros (_ & _ & Ho & Hw & Hr) Hp. unfold cap_write_atomic. rewrite Ho, Hr, Hw, Z.eqb_refl, orb_true_r.
  rewrite zlen_app. change (zlen (str ".tmp")) with 4. cbn [negb orb].
  by rewrite (proj2 (Z.leb_gt 600 _)) by lia.
Qed.

Lemma read_written io path content s :
  intact io -> cstr content ->
  cap_read io path {| g_cap_path_override := g_cap_path_override s;
    files := <[path := content]> (delete (path ++ str ".tmp")%list (files s)) |} = Some content.
Proof.
  intros (Hr & _) Hc. unfold cap_read. cbn [files]. rewrite lookup_insert_eq. cbn [mbind option_bind].
  rewrite Hr. cbn [fmap option_fmap option_map]. by rewrite c_str_id.
Qed.

Lemma cap_read_cstr io path s b : cap_read io path s = Some b -> (forall c, files s !! path = Some c -> is_bytes c) ->
  intact io -> cstr b.
Proof.
  unfold cap_read. intros Hb Hf (Hr & _). destruct (files s !! path) as [c|]; [|done].
  cbn [mbind option_bind] in Hb. rewrite Hr in Hb. cbn in Hb. injection Hb as <-. apply c_str_cstr. by apply Hf.
Qed.

(** The text after a grant lists what it listed before and the principal. *)
Lemma lines_granted b p :
  p <> [] -> (10 ∉ p) ->
  lines (b ++ (if bool_decide (b = []) || ends_line b then [] else [10]) ++ p ++ [10])
  = (lines b ++ [p])%list.
Proof.
  intros Hne Hn. unfold ends_line. case_bool_decide as Hb; cbn [orb].
  { subst. cbn [app lines]. by apply lines_single. }
  case_bool_decide as Hl; cbn [app].
  - apply last_Some in Hl as [b' ->]. rewrite <- app_assoc. cbn [app].
    by rewrite lines_newline, (lines_single p).
  - by rewrite lines_newline, (lines_single p), lines_finish.
Qed.

(** ** The grants as a set *)

Inductive op := Grant (p : bytes) | Revoke (p : bytes).

Definition op_principal (o : op) : bytes := match o with Grant p | Revoke p => p end.

Definition apply_op (io : io_t) (o : op) (s : store) : Z * store :=
  match o with
  | Grant p => vault_capability_grant io (Some p) s
  | Revoke p => vault_capability_revoke io (Some p) s
  end.

(** The results of the calls and the store they leave. *)
Fixpoint run_ops (io : io_t) (ops : list op) (s : store) : list Z * store :=
  match ops with
  | [] => ([], s)
  | o :: ops =>
      let '(rc, s) := apply_op io o s in
      let '(rcs, s) := run_ops io ops s in (rc :: rcs, s)
  end.

(** What the operations promise: a set of principals. *)
Definition spec_op (o : op) (S : gset bytes) : gset bytes :=
  match o with Grant p => {[p]} ∪ S | Revoke p => S ∖ {[p]} end.

Definition spec_ops (ops : list op) (S : gset bytes) : gset bytes := fold_left (fun S o => spec_op o S) ops S.

Definition holders (io : io_t) (path : bytes) (s : store) : gset bytes :=
  list_to_set (List.filter (fun l => principal_valid (Some l)) (listed io path s)).

Lemma elem_of_holders io path s q :
  q ∈ holders io path s <-> principal_valid (Some q) = true /\ q ∈ listed io path s.
Proof.
  unfold holders. rewrite elem_of_list_to_set, list_elem_of_In, filter_In, <- list_elem_of_In. tauto.
Qed.

(** The store file at [path] is text. *)
Definition text_store (path : bytes) (s : store) : Prop := forall c, files s !! path = Some c -> is_bytes c.

Lemma lines_revoked b p q :
  principal_valid (Some q) = true ->
  q ∈ lines (concat (map (fun l => l ++ [10])%list
        (List.filter (fun l => negb (bytes_eqb l p) && negb (bool_decide (l = []))) (lines b))))
  <-> q ∈ lines b /\ q <> p.
Proof.
  intros (Hne & _ & _)%valid_text. rewrite lines_join.
  - rewrite list_elem_of_In, filter_In, <- list_elem_of_In, andb_true_iff, !negb_true_iff, bytes_eqb_false,
      bool_decide_eq_false. tauto.
  - rewrite Forall_forall. intros l. rewrite list_elem_of_In, filter_In, <- list_elem_of_In. intros [Hin Hf].
    bool_to_prop. split; [done | by eapply lines_no_newline].
Qed.

(** One operation on an intact file system. *)
Section Intact.
Context (io : io_t) (path : bytes) (s : store).
Context (Hio : intact io) (Hpath : cap_path io s 512 = Some path) (Htext : text_store path s).

(** The result of an operation that succeeded and did what it promises. *)
Definition refines (o : op) (r : Z * store) : Prop :=
  r.1 = 0 /\ cap_path io r.2 512 = Some path /\ text_store path r.2
  /\ holders io path r.2 = spec_op o (holders io path s).

Lemma in_holders q : principal_valid (Some q) = true -> q ∈ holders io path s <-> q ∈ listed io path s.
Proof. intros. rewrite elem_of_holders. tauto. Qed.

Lemma unchanged_refines o : spec_op o (holders io path s) = holders io path s -> refines o (0, s).
Proof. intros E. by split_and!. Qed.

Lemma written_refines o content :
  principal_valid (Some (op_principal o)) = true -> cstr content ->
  (forall q, principal_valid (Some q) = true -> q ∈ lines content <-> q ∈ spec_op o (holders io path s)) ->
  refines o (cap_write_atomic io path content s).
Proof.
  intros Hv Hcc Hl. unfold refines.
  rewrite write_intact by (done || by eapply path_short). cbn [fst snd]. split; [done|].
  split; [exact Hpath|]. split.
  - intros c. cbn [files]. rewrite lookup_insert_eq. intros [= <-]. by apply cstr_is_bytes.
  - apply set_eq. intros q. rewrite elem_of_holders. unfold listed. rewrite read_written by done.
    split; [intros [Hq Hin]; by apply Hl|]. intros Hin.
    enough (Hq : principal_valid (Some q) = true) by (split; [done | by apply Hl]).
    destruct o as [p|p]; cbn [spec_op op_principal] in *.
    + apply elem_of_union in Hin as [->%elem_of_singleton|Hin]; [done|]. by apply elem_of_holders in Hin as [? _].
    + apply elem_of_difference in Hin as [Hin _]. by apply elem_of_holders in Hin as [? _].
Qed.

Lemma cstr_line p : cstr p -> cstr (p ++ [10]).
Proof. intros. apply cstr_app. split; [done|]. apply Forall_singleton. unfold is_char. lia. Qed.

Lemma grant_refines p :
  cstr p -> principal_valid (Some p) = true -> refines (Grant p) (vault_capability_grant io (Some p) s).
Proof.
  intros Hc Hv. pose proof (valid_text _ Hv) as (Hne & Hnl & _).
  unfold vault_capability_grant. rewrite Hv, Hpath. cbv zeta. rewrite intact_malloc by done.
  cbn [negb default from_option id].
  destruct (cap_read io path s) as [b|] eqn:Hb.
  - destruct (line_match (Some b) p) eqn:Hm.
    + apply line_match_iff in Hm. apply unchanged_refines. cbn [spec_op].
      assert (p ∈ holders io path s) by (rewrite in_holders by done; unfold listed; by rewrite Hb). set_solver.
    + cbn [default from_option id]. apply written_refines; [done | |].
      * apply cstr_app. split; [by eapply cap_read_cstr|].
        case_match; [by apply cstr_line|]. apply cstr_app. split; [|by apply cstr_line].
        apply Forall_singleton. unfold is_char. lia.
      * intros q Hq. rewrite lines_granted, elem_of_app, list_elem_of_singleton by done. cbn [spec_op].
        rewrite elem_of_union, elem_of_singleton, in_holders by done. unfold listed. rewrite Hb. tauto.
  - cbn [line_match default from_option id]. apply (written_refines (Grant p) (p ++ [10])%list); [done | by apply cstr_line|].
    intros q Hq. rewrite lines_single, list_elem_of_singleton by done. cbn [spec_op].
    rewrite elem_of_union, elem_of_singleton, in_holders by done. unfold listed. rewrite Hb. set_solver.
Qed.

Lemma revoke_refines p :
  principal_valid (Some p) = true -> refines (Revoke p) (vault_capability_revoke io (Some p) s).
Proof.
  intros Hv. unfold vault_capability_revoke. rewrite Hv, Hpath. cbn [negb default from_option id].
  assert (Hout : p ∉ listed io path s -> spec_op (Revoke p) (holders io path s) = holders io path s).
  { intros Hn. cbn [spec_op]. rewrite <- in_holders in Hn by done. set_solver. }
  destruct (cap_read io path s) as [b|] eqn:Hb.
  - destruct (line_match (Some b) p) eqn:Hm; cbn [negb].
    + rewrite intact_malloc by done. apply written_refines; [done | |].
      * pose proof (cap_read_cstr _ _ _ _ Hb Htext Hio) as Hcb. unfold cstr in *.
        rewrite Forall_concat, Forall_map, Forall_forall. intros l Hin.
        rewrite list_elem_of_In, filter_In, <- list_elem_of_In in Hin. destruct Hin as [Hin _].
        apply cstr_line. by eapply lines_cstr.
      * intros q Hq. rewrite lines_revoked by done. cbn [spec_op].
        rewrite elem_of_difference, elem_of_singleton, in_holders by done. unfold listed. by rewrite Hb.
    + apply unchanged_refines, Hout. unfold listed. rewrite Hb, <- line_match_iff, Hm. done.
  - apply unchanged_refines, Hout. unfold listed. rewrite Hb. set_solver.
Qed.
End Intact.

(** C36: Over any sequence of grants and revocations of valid principals the
    store is a set of principals: on an intact file system every call
    succeeds, and a principal holds the capability afterwards exactly when it
    is in the set the sequence builds from those listed at the start; no
    principal can bring another one in or out. *)
Theorem capability_refines_set io path ops s q :
  intact io -> cap_path io s 512 = Some path -> text_store path s ->
  Forall (fun o => cstr (op_principal o) /\ principal_valid (Some (op_principal o)) = true) ops ->
  Forall (eq 0) (run_ops io ops s).1
  /\ (vault_capability_has io (Some q) (run_ops io ops s).2 = true <-> q ∈ spec_ops ops (holders io path s)).
Proof.
  intros Hio Hpath Htext Hops. revert s Hpath Htext.
  induction Hops as [|o ops [Hc Hv] _ IH]; intros s Hpath Htext; cbn [run_ops].
  - split; [constructor|]. rewrite (has_iff io q s path Hpath). symmetry. apply elem_of_holders.
  - assert (Hr : refines io path s o (apply_op io o s)).
    { destruct o as [p|p]; [by apply grant_refines | by apply revoke_refines]. }
    destruct (apply_op io o s) as [rc s1]. destruct Hr as (Hrc & Hp' & Ht' & Hh). cbn in Hrc, Hp', Ht', Hh.
    destruct (IH s1 Hp' Ht') as [Hz Hq]. destruct (run_ops io ops s1) as [rcs s2]. cbn [fst snd] in *.
    split; [by constructor|]. unfold spec_ops. cbn [fold_left]. rewrite Hq. unfold spec_ops. by rewrite Hh.
Qed.

(** Whatever the system calls do, a grant or a revocation that reports an
    error leaves the list as it was. *)
Theorem capability_error_keeps_list io o s path :
  cap_path io s 512 = Some path -> (apply_op io o s).1 <> 0 ->
  files (apply_op io o s).2 !! path = files s !! path.
Proof.
  intros Hp. assert (Hw : forall content, (cap_write_atomic io path content s).1 <> 0 ->
    files (cap_write_atomic io path content s).2 !! path = files s !! path).
  { intros content. unfold cap_write_atomic.
    destruct (600 <=? _); [done|]. destruct (negb (io_open io)); [done|].
    destruct (_ || negb (io_rename io)); [|done]. intros _. cbn [snd files].
    apply lookup_delete_ne. intros E. apply (f_equal length) in E. rewrite length_app in E. cbn in E. lia. }
  destruct o as [p|p]; cbn [apply_op]; [unfold vault_capability_grant | unfold vault_capability_revoke];
    (destruct (negb (principal_valid _)); [done|]); rewrite Hp.
  - case_match; [done|]. cbv zeta. case_match; [done|]. apply Hw.
  - case_match; [|done]. case_match; [done|]. case_match; [done|]. apply Hw.
Qed.

(** A revocation reports success when the list cannot be read: the principal
    is listed, the call returns 0, and the file is as before. *)
Theorem revoke_unread io s path p :
  cap_path io s 512 = Some path -> cap_read io path s = None -> principal_valid (Some p) = true ->
  vault_capability_revoke io (Some p) s = (0, s).
Proof. intros Hp Hr Hv. unfold vault_capability_revoke. by rewrite Hv, Hp, Hr. Qed.

(** ** The gates *)

(** Who may write may list, and who may list may seal an agent's key; a
    plaintext bearer and an unattested connection may do nothing, whatever the
    list says. *)
Theorem gates_ordered io t p s :
  (vault_capability_server_write_allowed io t p s = true -> vault_capability_server_read_allowed io t p s = true)
  /\ (vault_capability_server_read_allowed io t p s = true -> vault_agent_key_server_seal_allowed t = true)
  /\ (vault_agent_key_server_seal_allowed t = true <-> t <> ATTEST_NONE /\ t <> ATTEST_TCP_BEARER).
Proof. destruct t; cbn; naive_solver. Qed.

(** A connection may write the server's credentials only as a native-TLS
    bearer, or with an identity it proved (a client certificate, an attested
    web user, a kernel-attested uid) whose principal is on the list. *)
Theorem write_needs_authority io s c n :
  (VAULT_PRINCIPAL_MAX <= n)%nat ->
  vault_capability_server_write_allowed io (resolve c n).1 (resolve c n).2 s = true ->
  (resolve c n).1 = ATTEST_TLS_BEARER
  \/ exists i path, proves c i /\ cap_path io s 512 = Some path /\ render i ∈ listed io path s.
Proof.
  intros Hn. destruct (resolve c n) as [t pr] eqn:Hr. cbn [fst snd].
  enough (Hhas : vault_capability_has io pr s = true ->
    exists i path, proves c i /\ cap_path io s 512 = Some path /\ render i ∈ listed io path s).
  { destruct t; cbn; auto; done. }
  unfold vault_capability_has. destruct (principal_valid pr) eqn:Hv; cbn [negb]; [|done].
  destruct pr as [p|]; [|done]. destruct (cap_path io s 512) as [path|] eqn:Hp; [|done].
  cbn [default from_option id]. intros Hm. apply valid_text in Hv as (Hne & _ & _).
  assert (Hr2 : (resolve c n).2 = Some p) by (by rewrite Hr).
  destruct (resolve_renders c n p Hn Hr2 Hne) as (i & Hi & ->). exists i, path. split_and!; [done..|].
  unfold listed. destruct (cap_read io path s) as [b|]; [|done]. by apply line_match_iff.
Qed.

(** ** Samples *)

Definition good_io : io_t :=
  {| config_default_dir := Some (str "/etc/aimee"); io_read := Some; io_malloc := fun _ => true; io_open := true; io_write := Some;
     io_rename := true |}.

Definition grants_path : bytes := str "/etc/aimee/.vault/server-write-grants".

Definition edited_store : store :=
  {| g_cap_path_override := []; files := {[ grants_path := (str "uid:0" ++ [10; 10] ++ str "webuser:al")%list ]} |}.

Lemma capability_refines_set_witness :
  let ops := [Grant (str "cert:build"); Revoke (str "uid:0")] in
  Forall (eq 0) (run_ops good_io ops edited_store).1
  /\ (vault_capability_has good_io (Some (str "webuser:al")) (run_ops good_io ops edited_store).2 = true <->
      str "webuser:al" ∈ spec_ops ops (holders good_io grants_path edited_store)).
Proof.
  intros ops. apply (capability_refines_set good_io grants_path ops edited_store).
  - by split_and!.
  - vm_compute. reflexivity.
  - intros c. assert (is_bytes (str "uid:0" ++ [10; 10] ++ str "webuser:al")%list) as Hb
      by (apply is_bytesb_true; vm_compute; reflexivity).
    unfold edited_store. cbn [files]. rewrite lookup_singleton_eq. by intros [= <-].
  - apply Forall_cons_2; [|apply Forall_singleton];
      (split; [apply cstrb_true; vm_compute; reflexivity | vm_compute; reflexivity]).
Defined.

Lemma write_needs_authority_witness :
  let c := {| is_tcp := false; is_tls := false; peer_uid := 0; webuser := None;
              webuser_attested := false; cert_cn := None |} in
  (resolve c 160).1 = ATTEST_TLS_BEARER
  \/ exists i path, proves c i /\ cap_path good_io edited_store 512 = Some path
       /\ render i ∈ listed good_io path edited_store.
Proof.
  intros c. apply (write_needs_authority good_io edited_store c 160).
  - unfold VAULT_PRINCIPAL_MAX. lia.
  - vm_compute. reflexivity.
Defined.

End VaultCapability.
