(* ===== verification/Auth.v ===== *)
(** * Connection credentials ([src/src/core/connection/auth.c])

    The comparison of two credentials, the bearer scheme of the
    [Authorization] header (build and parse), and the test that keeps a
    credential off an insecure remote connection.  C strings are byte lists
    without NUL, [None] is a null pointer; a pointer into the header is the
    suffix it points at.  Shown: comparison decides equality without an early
    exit; the parser accepts exactly the bearer grammar; a built header parses
    back to its token. *)

From Stdlib Require Import ZArith Lia String Ascii.
From stdpp Require Import base numbers option list.
From S2P Require Import Prelude.

Module Auth.

(** Reading a C string past its last character gives the terminator. *)
Definition at_ (s : bytes) (i : nat) : Z := default 0 (s !! i).

(** The loop from index [i] with [n] rounds left. *)
Fixpoint equal_n_loop (left right : bytes) (i n : nat) : bool :=
  match n with
  | O => true
  | S n =>
      if (at_ left i =? 0) || (at_ right i =? 0) then false
      else if negb (ascii_lower (at_ left i) =? ascii_lower (at_ right i)) then false
      else equal_n_loop left right (S i) n
  end.

Definition ascii_equal_n (left right : bytes) (length : nat) : bool := equal_n_loop left right 0 length.

(** The accumulating loop: every index is visited, whatever was seen. *)
Fixpoint diff_loop (left right : bytes) (i n : nat) (diff : Z) : Z :=
  match n with
  | O => diff
  | S n =>
      let x := if (i <? length left)%nat then at_ left i else 0 in
      let y := if (i <? length right)%nat then at_ right i else 0 in
      diff_loop left right (S i) n (Z.lor diff (Z.lxor x y))
  end.

Definition aimee_core_credential_equal (left right : option bytes) : bool :=
  let l := default [] left in
  let r := default [] right in
  let len := if (length r <? length l)%nat then length l else length r in
  diff_loop l r 0 len (Z.lxor (zlen l) (zlen r)) =? 0.

Definition credential_byte (ch : Z) : bool := (32 <? ch) && negb (ch =? 127).

Definition scheme : bytes := str "Bearer".

(** [while (token < end && *token == ' ') token++] *)
Fixpoint skip_spaces (token : bytes) : bytes :=
  match token with
  | c :: rest => if c =? 32 then skip_spaces rest else token
  | [] => []
  end.

(** The token span, [None] for the -1 return (both outputs are then null). *)
Definition aimee_core_bearer_token_span (value : option bytes) : option bytes :=
  match value with
  | None => None
  | Some value =>
      if (length value <=? length scheme + 1)%nat || negb (ascii_equal_n value scheme (length scheme))
         || negb (at_ value (length scheme) =? 32)
      then None
      else
        let token := skip_spaces (drop (length scheme + 1) value) in
        if bool_decide (token = []) then None
        else if forallb credential_byte token then Some token else None
  end.

Definition aimee_core_bearer_token (authorization_value : option bytes) : option bytes :=
  aimee_core_bearer_token_span authorization_value.

(** The return value and the string left in a non-null [out]. *)
Definition aimee_core_bearer_value (out_size : nat) (token : option bytes) : Z * option bytes :=
  match token with
  | None => (-1, None)
  | Some token =>
      if (out_size =? 0)%nat || bool_decide (token = []) then (-1, None)
      else if negb (forallb credential_byte token) then (-1, None)
      else
        let text := str "Bearer " ++ token in
        (if (0 <? zlen text) && (length text <? out_size)%nat then 0 else -1, Some (snprintf_s out_size text))
  end.

Definition aimee_core_host_is_loopback (host : option bytes) : bool :=
  match host with
  | None => false
  | Some host =>
      if bool_decide (host = []) then false
      else if ((length host =? 9)%nat && ascii_equal_n host (str "localhost") 9)
              || bytes_eqb host (str "::1") || bytes_eqb host (str "[::1]")
      then true
      else bytes_eqb (take 4 host) (str "127.")
  end.

Definition aimee_core_would_leak_credential (transport_is_secure : bool) (host credential : option bytes) : bool :=
  match credential with
  | Some (_ :: _) => negb transport_is_secure && negb (aimee_core_host_is_loopback host)
  | _ => false
  end.

(** ** Comparison *)

Lemma diff_loop_zero l r i n d : diff_loop l r i n d = 0 <->
  d = 0 /\ forall j, (i <= j < i + n)%nat ->
    (if (j <? length l)%nat then at_ l j else 0) = (if (j <? length r)%nat then at_ r j else 0).
Proof.
  revert i d. induction n as [|n IH]; intros i d; cbn [diff_loop].
  { split; [intros ->; split; [done | lia] | by intros [-> _]]. }
  rewrite IH, Z.lor_eq_0_iff, Z.lxor_eq_0_iff. split.
  - intros [[-> E] H]. split; [done|]. intros j Hj. destruct (decide (j = i)) as [->|]; [done | apply H; lia].
  - intros [-> H]. split; [split; [done | apply H; lia]|]. intros j Hj. apply H. lia.
Qed.

Lemma at_lookup s i : (i < length s)%nat -> s !! i = Some (at_ s i).
Proof. intros H. unfold at_. by destruct (lookup_lt_is_Some_2 s i H) as [c ->]. Qed.

(** The comparison of two credentials says yes exactly when they are the
    same string (a null pointer counts as the empty one), although it always
    walks the longer of the two to its end. *)
Theorem credential_equal_iff (left right : option bytes) :
  aimee_core_credential_equal left right = true <-> default [] left = default [] right.
Proof.
  unfold aimee_core_credential_equal. rewrite Z.eqb_eq, diff_loop_zero, Z.lxor_eq_0_iff.
  set (l := default [] left). set (r := default [] right). split; [|intros <-; done].
  unfold zlen. intros [Hl%Nat2Z.inj H]. rewrite Hl, Nat.ltb_irrefl in H. apply list_eq. intros i.
  destruct (decide (i < length r)%nat) as [Hi|Hi].
  - specialize (H i ltac:(lia)). rewrite (proj2 (Nat.ltb_lt i (length r)) Hi) in H.
    by rewrite !at_lookup, H by lia.
  - by rewrite !lookup_ge_None_2 by lia.
Qed.

(** ** The bearer grammar *)

Lemma equal_n_iff l r i n : equal_n_loop l r i n = true <->
  forall j, (i <= j < i + n)%nat -> at_ l j <> 0 /\ at_ r j <> 0 /\ ascii_lower (at_ l j) = ascii_lower (at_ r j).
Proof.
  revert i. induction n as [|n IH]; intros i; cbn [equal_n_loop]; [split; [lia | done]|].
  destruct (at_ l i =? 0) eqn:E1; [split; [done|]; intros H; destruct (H i ltac:(lia)); lia|].
  destruct (at_ r i =? 0) eqn:E2; [split; [done|]; intros H; destruct (H i ltac:(lia)) as (_ & ? & _); lia|].
  destruct (Z.eqb_spec (ascii_lower (at_ l i)) (ascii_lower (at_ r i))) as [E|E]; cbn [orb negb].
  - rewrite IH. split; intros H j Hj; [|apply H; lia].
    destruct (decide (j = i)) as [->|]; [split_and!; lia | apply H; lia].
  - split; [done|]. intros H. by destruct (H i ltac:(lia)) as (_ & _ & ?).
Qed.

(** A string starts with the scheme, whatever the letter case. *)
Lemma scheme_iff v : ascii_equal_n v scheme (length scheme) = true <->
  map ascii_lower (take 6 v) = str "bearer".
Proof.
  unfold ascii_equal_n. rewrite equal_n_iff. change (length scheme) with 6%nat.
  assert (forall c d, c = ascii_lower d -> 97 <= c <= 122 -> d <> 0 /\ ascii_lower d = c) as Nz.
  { intros c d -> Hc. split; [|done]. intros ->. unfold ascii_lower in Hc. cbn in Hc. lia. }
  split.
  - intros H.
    assert (6 <= length v)%nat as Hl.
    { destruct (decide (6 <= length v)%nat); [done|]. destruct (H 5%nat ltac:(lia)) as [H5 _].
      unfold at_ in H5. by rewrite lookup_ge_None_2 in H5 by lia. }
    destruct v as [|z [|z0 [|z1 [|z2 [|z3 [|z4 v]]]]]]; try (cbn in Hl; lia). cbn [take map].
    assert (forall j, (j < 6)%nat -> ascii_lower (at_ (z :: z0 :: z1 :: z2 :: z3 :: z4 :: v) j)
      = at_ (str "bearer") j) as L.
    { intros j Hj. rewrite (proj2 (proj2 (H j ltac:(lia)))). by do 6 (destruct j as [|j]; [done|]); lia. }
    assert (ascii_lower z = 98) as -> by exact (L 0%nat ltac:(lia)).
    assert (ascii_lower z0 = 101) as -> by exact (L 1%nat ltac:(lia)).
    assert (ascii_lower z1 = 97) as -> by exact (L 2%nat ltac:(lia)).
    assert (ascii_lower z2 = 114) as -> by exact (L 3%nat ltac:(lia)).
    assert (ascii_lower z3 = 101) as -> by exact (L 4%nat ltac:(lia)).
    assert (ascii_lower z4 = 114) as -> by exact (L 5%nat ltac:(lia)).
    done.
  - intros E j Hj. destruct v as [|a [|b [|c [|d [|e [|f v]]]]]]; try discriminate E.
    cbn [take map] in E. injection E as Ea Eb Ec Ed Ee Ef.
    do 6 (destruct j as [|j];
      [unfold at_; cbn [lookup list_lookup default];
       match goal with H : ascii_lower ?x = ?k |- ?x <> 0 /\ _ =>
         destruct (Nz k x (eq_sym H) ltac:(lia)) as [N _]; split_and!; [exact N | done | exact H] end |]); lia.
Qed.

Lemma skip_spaces_split l : exists k, l = replicate k 32 ++ skip_spaces l.
Proof.
  induction l as [|c l [k IH]]; cbn [skip_spaces]; [by exists 0%nat|].
  destruct (Z.eqb_spec c 32) as [->|]; [exists (S k); cbn; by rewrite <- IH | by exists 0%nat].
Qed.

Lemma skip_spaces_token k tok : forallb credential_byte tok = true ->
  skip_spaces (replicate k 32 ++ tok) = tok.
Proof.
  intros H. induction k as [|k IH]; [|exact IH]. destruct tok as [|c tok]; [done|]. cbn in H |- *.
  destruct (Z.eqb_spec c 32) as [->|]; [done | done].
Qed.

(** The grammar: the scheme in any letter case, spaces, a token of visible
    bytes. *)
Definition is_bearer (v tok : bytes) : Prop :=
  tok <> [] /\ forallb credential_byte tok = true /\
  exists s k, v = s ++ replicate (S k) 32 ++ tok /\ map ascii_lower s = str "bearer".

Lemma bearer_span_eq (v tok : bytes) :
  aimee_core_bearer_token_span (Some v) = Some tok <-> is_bearer v tok.
Proof.
  unfold aimee_core_bearer_token_span, is_bearer. change (length scheme) with 6%nat. cbv zeta. split.
  - destruct (_ || negb (at_ v 6 =? 32)) eqn:G; [done|].
    apply orb_false_iff in G as [[G1%Nat.leb_gt G2%negb_false_iff%scheme_iff]%orb_false_iff G3%negb_false_iff%Z.eqb_eq].
    case_bool_decide as Hn; [done|]. destruct (forallb credential_byte _) eqn:F; [|done].
    intros E%(inj Some). rewrite E in *. split_and!; [done..|].
    destruct (skip_spaces_split (drop (6 + 1) v)) as [k Hk]. rewrite E in Hk.
    exists (take 6 v), k. split; [|done]. cbn [replicate app]. rewrite <- Hk, <- G3.
    symmetry. apply take_drop_middle, at_lookup. lia.
  - intros (Hn & Hf & s & k & -> & Hs).
    assert (length s = 6%nat) as Hl by (by rewrite <- (length_map ascii_lower), Hs).
    assert (at_ (s ++ replicate (S k) 32 ++ tok) 6 = 32) as ->
      by (unfold at_; by rewrite lookup_app_r, Hl by lia).
    rewrite (proj2 (scheme_iff _)) by (by rewrite take_app_length').
    assert (drop (6 + 1) (s ++ replicate (S k) 32 ++ tok) = replicate k 32 ++ tok) as ->
      by (rewrite drop_app_ge, Hl by lia; done).
    rewrite skip_spaces_token, Hf by done. rewrite bool_decide_false by done.
    destruct (Nat.leb_spec (length (s ++ replicate (S k) 32 ++ tok)) (6 + 1)) as [H|H]; [|done].
    rewrite !length_app, Hl in H. cbn in H. destruct tok; [done | cbn in H; lia].
Qed.

(** The header parser returns a token exactly when the header is the
    word bearer in any letter case, one or more spaces, and that token, a
    non-empty run of bytes above space other than DEL. *)
Theorem bearer_span_iff (v tok : bytes) :
  aimee_core_bearer_token_span (Some v) = Some tok <-> is_bearer v tok.
Proof. apply bearer_span_eq. Qed.

(** Building a bearer header succeeds exactly when the token is a
    non-empty run of permitted bytes and the whole header fits with its
    terminator; the header then parses back to the token. *)
Theorem bearer_roundtrip (out_size : nat) (tok : bytes) :
  let '(rc, out) := aimee_core_bearer_value out_size (Some tok) in
  (rc = 0 <-> tok <> [] /\ forallb credential_byte tok = true /\ (7 + length tok < out_size)%nat)
  /\ (rc = 0 -> aimee_core_bearer_token out = Some tok).
Proof.
  unfold aimee_core_bearer_value. destruct (Nat.eqb_spec out_size 0) as [->|Ho]; [split; [split; lia | lia]|].
  case_bool_decide as Hn; cbn [orb]; [split; [|lia]; split; [lia | by intros []]|].
  destruct (forallb credential_byte tok) eqn:F; cbn [negb]; [|split; [|lia]; split; [lia | by intros (_ & ? & _)]].
  assert (length (str "Bearer " ++ tok) = (7 + length tok)%nat) as L by done.
  assert ((0 <? zlen (str "Bearer " ++ tok)) = true) as -> by (apply Z.ltb_lt; unfold zlen; lia).
  rewrite L. cbn [andb]. destruct (Nat.ltb_spec (7 + length tok) out_size) as [Hf|Hf].
  - split; [done|]. intros _. rewrite snprintf_s_fits by lia. apply bearer_span_eq. split_and!; [done..|].
    by exists (str "Bearer"), 0%nat.
  - split; [|lia]. split; [lia|]. intros (_ & _ & ?). lia.
Qed.

(** A remote host whose name starts with 127. counts as loopback. *)
Lemma loopback_prefix_accepted :
  aimee_core_host_is_loopback (Some (str "127.evil.example")) = true
  /\ aimee_core_would_leak_credential false (Some (str "127.evil.example")) (Some (str "token")) = false.
Proof. split; reflexivity. Qed.
End Auth.
