(* ===== verification/Endpoint.v ===== *)
(** * Endpoint parsing ([src/src/core/connection/endpoint.c])

    Parses [http[s]://host[:port][/...]] or [host[:port]] into host, port and
    whether the transport is secure.  A pointer into the text is the suffix it
    points at; a range is the list of its bytes.  Shown: the parser accepts
    exactly the endpoint grammar, with the host, port and scheme of the text,
    and every accepted port is a decimal number from 1 to 65535. *)

From Stdlib Require Import ZArith Lia String Ascii.
From stdpp Require Import base numbers option list.
From S2P Require Import Prelude.

Module Endpoint.

Definition AIMEE_COMM_HOST_MAX : nat := 255.
Definition AIMEE_COMM_PORT_MAX : nat := 15.

Record aimee_core_endpoint_t := { host : bytes; port : bytes; secure : bool }.

Definition zero_endpoint : aimee_core_endpoint_t := {| host := []; port := []; secure := false |}.

Definition copy_part (out_size : nat) (part : bytes) : option bytes :=
  if (length part =? 0)%nat || (out_size <=? length part)%nat then None else Some part.

Fixpoint port_loop (value : Z) (p : bytes) : bool :=
  match p with
  | [] => 0 <? value
  | c :: p =>
      if (c <? 48) || (57 <? c) then false
      else
        let value := u32 (value * 10 + (c - 48)) in
        if 65535 <? value then false else port_loop value p
  end.

Definition port_valid (port : bytes) : bool :=
  match port with [] => false | _ => port_loop 0 port end.

(** [strstr(l, pat) != NULL] *)
Fixpoint has_sub (pat l : bytes) : bool :=
  bytes_eqb (take (length pat) l) pat || match l with [] => false | _ :: l => has_sub pat l end.

(** The bytes before the first one the test accepts, and the rest from it:
    [strcspn] and [memchr]. *)
Fixpoint break (stop : Z -> bool) (l : bytes) : bytes * bytes :=
  match l with
  | [] => ([], [])
  | c :: r => if stop c then ([], l) else let '(a, b) := break stop r in (c :: a, b)
  end.

Definition path_start (c : Z) : bool := (c =? 47) || (c =? 63) || (c =? 35).

(** Host and port of the authority; the port is [None] when the text has
    none. *)
Definition split_authority (authority : bytes) : option (bytes * option bytes) :=
  if bool_decide (head authority = Some 91) then
    match break (Z.eqb 93) (tail authority) with
    | (_, []) => None
    | (h, _ :: []) => Some (h, None)
    | (h, _ :: c :: p) => if c =? 58 then Some (h, Some p) else None
    end
  else
    match break (Z.eqb 58) authority with
    | (h, []) => Some (h, None)
    | (h, _ :: p) => if has_byte 58 p then None else Some (h, Some p)
    end.

Definition aimee_core_endpoint_parse (value : option bytes) (out : aimee_core_endpoint_t)
    : Z * aimee_core_endpoint_t :=
  match value with
  | None | Some [] => (-1, out)
  | Some value =>
      let scheme :=
        if bytes_eqb (take 8 value) (str "https://") then Some (true, drop 8 value)
        else if bytes_eqb (take 7 value) (str "http://") then Some (false, drop 7 value)
        else if has_sub (str "://") value then None
        else Some (false, value) in
      match scheme with
      | None => (-1, zero_endpoint)
      | Some (sec, rest) =>
          let out := {| host := []; port := []; secure := sec |} in
          let authority := (break path_start rest).1 in
          if bool_decide (authority = []) || has_byte 64 authority then (-1, out)
          else
            match split_authority authority with
            | None => (-1, out)
            | Some (h, p) =>
                match copy_part (AIMEE_COMM_HOST_MAX + 1) h with
                | None => (-1, out)
                | Some h =>
                    let out := {| host := h; port := []; secure := sec |} in
                    match p with
                    | Some p =>
                        match copy_part (AIMEE_COMM_PORT_MAX + 1) p with
                        | None => (-1, out)
                        | Some p => (if port_valid p then 0 else -1, {| host := h; port := p; secure := sec |})
                        end
                    | None =>
                        let p := snprintf_s (AIMEE_COMM_PORT_MAX + 1) (if sec then str "443" else str "80") in
                        (if port_valid p then 0 else -1, {| host := h; port := p; secure := sec |})
                    end
                end
            end
      end
  end.

(** ** Ports *)

Definition decimal (c : Z) : Prop := 48 <= c <= 57.

Lemma port_loop_iff v p : 0 <= v <= 65535 -> port_loop v p = true <->
  Forall decimal p /\ 1 <= fold_left (fun v c => v * 10 + (c - 48)) p v <= 65535.
Proof.
  assert (forall p v w, Forall decimal p -> 0 <= v -> w = fold_left (fun v c => v * 10 + (c - 48)) p v -> v <= w) as Mono.
  { induction p0 as [|c p0 IH]; intros x w Hd Hx ->; [done|]. apply Forall_cons in Hd as [Hc Hd]. unfold decimal in Hc.
    cbn [fold_left]. pose proof (IH (x * 10 + (c - 48)) _ Hd ltac:(lia) eq_refl). lia. }
  revert v. induction p as [|c p IH]; intros v Hv; cbn [port_loop fold_left].
  { rewrite Z.ltb_lt. split; [intros; split; [done | lia] | intros []; lia]. }
  rewrite Forall_cons. unfold decimal at 1.
  destruct (Z.ltb_spec c 48); [split; [done | intros [[] _]; lia]|].
  destruct (Z.ltb_spec 57 c); [split; [done | intros [[] _]; lia]|]. cbn [orb].
  unfold u32. rewrite Z.mod_small by lia. destruct (Z.ltb_spec 65535 (v * 10 + (c - 48))) as [Hb|Hb].
  - split; [done|]. intros [[_ Hd] H']. pose proof (Mono p (v * 10 + (c - 48)) _ Hd ltac:(lia) eq_refl). lia.
  - rewrite IH by lia. split; [intros []; split; [split; [lia | done] | done] | intros [[_ ?] ?]; done].
Qed.

(** A decimal number from 1 to 65535. *)
Definition port_text (p : bytes) : Prop := p <> [] /\ Forall decimal p /\ 1 <= dec_value p <= 65535.

Lemma port_valid_iff p : port_valid p = true <-> port_text p.
Proof.
  unfold port_valid, port_text, dec_value. destruct p as [|c p]; [split; [done | by intros []]|].
  rewrite port_loop_iff by lia. split; [intros [? ?]; split; [done | split; done] | intros (_ & ? & ?); split; done].
Qed.

(** ** The grammar *)

Definition scheme_of (v : bytes) (sec : bool) (rest : bytes) : Prop :=
  (sec = true /\ v = str "https://" ++ rest) \/ (sec = false /\ v = str "http://" ++ rest) \/
  (sec = false /\ v = rest /\ has_sub (str "://") v = false).

Definition host_text (h : bytes) : Prop := h <> [] /\ (length h <= AIMEE_COMM_HOST_MAX)%nat.

(** An authority is a host, or a bracketed one, and maybe a port. *)
Definition authority_of (a : bytes) (h : bytes) (p : option bytes) : Prop :=
  let tail := match p with Some p => 58 :: p | None => [] end in
  (a = 91 :: h ++ 93 :: tail /\ 93 ∉ h) \/
  (a = h ++ tail /\ head h <> Some 91 /\ (58 ∉ h) /\ (58 ∉ default [] p)).

Definition is_endpoint (v : bytes) (e : aimee_core_endpoint_t) : Prop :=
  exists rest a path p,
    scheme_of v (secure e) rest /\ rest = a ++ path
    /\ Forall (fun c => path_start c = false) a /\ (forall c, head path = Some c -> path_start c = true)
    /\ (64 ∉ a) /\ a <> [] /\ authority_of a (host e) p /\ host_text (host e)
    /\ port e = default (if secure e then str "443" else str "80") p
    /\ port_text (port e) /\ (length (port e) <= AIMEE_COMM_PORT_MAX)%nat.

Lemma break_eq stop l a b : break stop l = (a, b) <->
  l = a ++ b /\ Forall (fun c => stop c = false) a /\ (forall c, head b = Some c -> stop c = true).
Proof.
  revert a b. induction l as [|c l IH]; intros a b; cbn [break].
  { split; [intros [= <- <-]; done|]. intros (E & _ & _). symmetry in E. by apply app_eq_nil in E as [-> ->]. }
  destruct (stop c) eqn:Ec.
  - split; [intros [= <- <-]; split_and!; [done..|]; by intros ? [= <-]|]. intros (E & Ha & Hb).
    destruct a as [|x a]; [by rewrite E|]. apply Forall_cons in Ha as [Hx _]. injection E as -> _. congruence.
  - destruct (break stop l) as [x y] eqn:Eb. pose proof (proj1 (IH x y) eq_refl) as (-> & Hx & Hy). split.
    + intros [= <- <-]. split_and!; [done | by constructor | done].
    + intros (E & Ha & Hb). destruct a as [|u a].
      { cbn in E. subst b. rewrite (Hb c eq_refl) in Ec. done. }
      injection E as <- E. apply Forall_cons in Ha as [_ Ha].
      assert ((x, y) = (a, b)) as [= -> ->] by (apply IH; split_and!; done). done.
Qed.

Lemma break_none stop l : break stop l = (l, []) <-> Forall (fun c => stop c = false) l.
Proof. rewrite break_eq, app_nil_r. split; [by intros (_ & ? & _) | by intros]. Qed.

Lemma notin_forall c l : Forall (fun x => Z.eqb c x = false) l <-> c ∉ l.
Proof.
  rewrite Forall_forall. split.
  - intros Hf Hin. specialize (Hf c Hin). by rewrite Z.eqb_refl in Hf.
  - intros Hn x Hx. apply Z.eqb_neq. intros <-. done.
Qed.

Lemma split_authority_iff a h p : split_authority a = Some (h, p) <-> authority_of a h p.
Proof.
  unfold split_authority, authority_of. case_bool_decide as Hh.
  - destruct a as [|c a]; [done|]. injection Hh as ->. cbn [tail]. split.
    + destruct (break (Z.eqb 93) a) as [x y] eqn:E. apply break_eq in E as (-> & Hx%notin_forall & Hy).
      destruct y as [|u [|c y]]; [done | |]; pose proof (Hy u eq_refl) as Hu; apply Z.eqb_eq in Hu as <-.
      * intros [= -> <-]. by left.
      * destruct (Z.eqb_spec c 58) as [->|]; [|done]. intros [= -> <-]. by left.
    + intros [[E Hn]|(E & Hn & _)].
      * injection E as ->. rewrite (proj2 (break_eq _ _ h _)) by
          (split_and!; [reflexivity | by apply notin_forall | by intros ? [= <-]]).
        by destruct p as [p|].
      * destruct h as [|x h]; [|cbn in E, Hn; congruence]. by destruct p.
  - destruct (break (Z.eqb 58) a) as [x y] eqn:E. pose proof (proj1 (break_eq _ _ _ _) E) as (Ea & Hx%notin_forall & Hy).
    split.
    + destruct y as [|u y].
      * intros [= <- <-]. right. rewrite app_nil_r in Ea. subst x. rewrite app_nil_r. by split_and!; [..|apply not_elem_of_nil].
      * pose proof (Hy u eq_refl) as Hu. apply Z.eqb_eq in Hu as <-.
        destruct (has_byte 58 y) eqn:Hb; [done|]. intros [= <- <-]. right. unfold has_byte in Hb.
        apply bool_decide_eq_false in Hb. split_and!; [done | | done | done].
        intros Hd. apply Hh. rewrite Ea. by destruct x.
    + intros [[Eb _]|(Eb & _ & Hn & Hp)]; [by destruct Hh; rewrite Eb|].
      assert ((x, y) = (h, match p with Some p => 58 :: p | None => [] end)) as [= -> ->].
      { rewrite <- E. apply break_eq. split_and!; [done | by apply notin_forall | by destruct p; [intros ? [= <-] | intros]]. }
      destruct p as [p|]; [|done]. unfold has_byte. by rewrite bool_decide_false.
Qed.

Lemma url_scheme_iff v sec rest :
  (if bytes_eqb (take 8 v) (str "https://") then Some (true, drop 8 v)
   else if bytes_eqb (take 7 v) (str "http://") then Some (false, drop 7 v)
   else if has_sub (str "://") v then None else Some (false, v)) = Some (sec, rest)
  <-> scheme_of v sec rest.
Proof.
  assert (forall pre w, has_sub (str "://") w = true -> has_sub (str "://") (pre ++ w) = true) as Sub.
  { intros pre w Hw. induction pre as [|c pre IH]; [done|]. cbn [app has_sub]. by rewrite IH, orb_true_r. }
  unfold scheme_of. destruct (bytes_eqb (take 8 v) (str "https://")) eqn:E1.
  { apply bytes_eqb_true in E1. rewrite <- (take_drop 8 v), E1. set (w := drop 8 v). split.
    - intros [= <- <-]. by left.
    - intros [[-> E]|[[_ E]|(_ & _ & E)]]; [by apply app_inv_head in E as -> | discriminate E |].
      assert (has_sub (str "://") (str "https://" ++ w) = true) as S by exact (Sub (str "https") (str "://" ++ w) eq_refl).
      congruence. }
  apply bytes_eqb_false in E1. destruct (bytes_eqb (take 7 v) (str "http://")) eqn:E2.
  { apply bytes_eqb_true in E2. rewrite <- (take_drop 7 v), E2 in E1 |- *. set (w := drop 7 v) in *. split.
    - intros [= <- <-]. right. by left.
    - intros [[-> E]|[[-> E]|(_ & _ & E)]]; [discriminate E | by apply app_inv_head in E as -> |].
      assert (has_sub (str "://") (str "http://" ++ w) = true) as S by exact (Sub (str "http") (str "://" ++ w) eq_refl).
      congruence. }
  apply bytes_eqb_false in E2.
  assert (forall x, v <> str "https://" ++ x) as N1 by (intros x ->; by apply E1).
  assert (forall x, v <> str "http://" ++ x) as N2 by (intros x ->; by apply E2).
  destruct (has_sub (str "://") v) eqn:E3; (split; [try done|]).
  - intros [[_ E]|[[_ E]|(_ & _ & E)]]; [by apply N1 in E | by apply N2 in E | done].
  - intros [= <- <-]. right. by right.
  - intros [[_ E]|[[_ E]|(-> & -> & _)]]; [by apply N1 in E | by apply N2 in E | done].
Qed.

Lemma copy_part_iff n l r : copy_part n l = Some r <-> l = r /\ l <> [] /\ (length l < n)%nat.
Proof.
  unfold copy_part. destruct (Nat.eqb_spec (length l) 0) as [E|E]; cbn [orb].
  { apply nil_length_inv in E as ->. split; [done | by intros (_ & ? & _)]. }
  destruct (Nat.leb_spec n (length l)); (split; [try done|]); [intros (_ & _ & ?); lia | |by intros (-> & _)].
  intros [= <-]. split_and!; [done | by intros -> | lia].
Qed.

(** A text parses to an endpoint exactly when it is an optional http or
    https scheme, an authority without user part, and a path; the host is the
    authority's (its brackets removed, a bare IPv6 address refused), the port
    its decimal port from 1 to 65535 or the scheme's default. *)
Theorem endpoint_parse_iff (v : bytes) (out e : aimee_core_endpoint_t) :
  aimee_core_endpoint_parse (Some v) out = (0, e) <-> v <> [] /\ is_endpoint v e.
Proof.
  split.
  - unfold aimee_core_endpoint_parse. destruct v as [|c0 v0]; [done|]. set (v := c0 :: v0). cbv zeta.
    intros E. split; [done|]. revert E.
    destruct (if bytes_eqb (take 8 v) _ then _ else _) as [[sec rest]|] eqn:Es; [|done]. apply url_scheme_iff in Es.
    destruct (break path_start rest) as [a path] eqn:Eb. apply break_eq in Eb as (Er & Ha & Hp). cbn [fst].
    case_bool_decide as Hn; [done|]. destruct (has_byte 64 a) eqn:Hat; [done|]. cbn [orb].
    unfold has_byte in Hat. apply bool_decide_eq_false in Hat.
    destruct (split_authority a) as [[h p]|] eqn:Ea; [|done]. apply split_authority_iff in Ea.
    destruct (copy_part _ h) as [h'|] eqn:Ech; [|done]. apply copy_part_iff in Ech as (<- & Hh & Lh).
    destruct p as [p|].
    + destruct (copy_part _ p) as [p'|] eqn:Ecp; [|done]. apply copy_part_iff in Ecp as (<- & Hpn & Lp).
      destruct (port_valid p) eqn:Ev; [|done]. apply port_valid_iff in Ev. intros [= <-].
      exists rest, a, path, (Some p). unfold host_text, AIMEE_COMM_HOST_MAX, AIMEE_COMM_PORT_MAX in *.
      cbn [host port secure default]. split_and!; (done || lia || apply Ev).
    + destruct (port_valid (snprintf_s _ _)) eqn:Ev; [|done]. apply port_valid_iff in Ev. intros [= <-].
      exists rest, a, path, None. unfold host_text, AIMEE_COMM_HOST_MAX, AIMEE_COMM_PORT_MAX in *.
      cbn [host port secure default]. split_and!; try (done || lia || apply Ev || by destruct sec). destruct sec; vm_compute; lia.
  - intros (Hne & rest & a & path & p & Es & Er & Ha & Hp & Hat & Hn & Ea & [Hh Lh] & Ep & Hpt & Lp).
    apply url_scheme_iff in Es. apply split_authority_iff in Ea. apply port_valid_iff in Hpt.
    unfold aimee_core_endpoint_parse. destruct v as [|c0 v0]; [done|]. set (v := c0 :: v0) in *. cbv zeta. rewrite Es.
    rewrite (proj2 (break_eq path_start rest a path) (conj Er (conj Ha Hp))). cbn [fst].
    rewrite bool_decide_false by done. unfold has_byte. rewrite bool_decide_false by done. cbn [orb]. rewrite Ea.
    rewrite (proj2 (copy_part_iff _ (host e) (host e))) by (split_and!; [done | done | lia]).
    destruct e as [h po sec]; cbn [host port secure] in *. destruct p as [p|]; cbn in Ep; subst po.
    + rewrite (proj2 (copy_part_iff _ p p)) by (split_and!; [done | by intros -> | lia]). by rewrite Hpt.
    + by destruct sec.
Qed.

Lemma endpoint_parse_iff_witness :
  is_endpoint (str "https://[::1]:8443/v1") {| host := str "::1"; port := str "8443"; secure := true |}.
Proof.
  apply (endpoint_parse_iff (str "https://[::1]:8443/v1") zero_endpoint). vm_compute. reflexivity.
Defined.
End Endpoint.
