(* ===== verification/Http1.v ===== *)
(** * HTTP/1 responses ([src/src/core/connection/http1.c])

    The header parser and the bounded response reader.  [data] lists the
    bytes received; the byte after them is the terminator the reader writes,
    so [strstr] stops there or at the first NUL.  The transport's [read] is a
    parameter: from its context and the number of bytes wanted it gives the
    bytes it stored, or [None] for a negative return.  [alloc] says which
    allocations succeed.  [None] as a result is a loop that did not end in the
    fuel given: one round more than [response_max] for the reader.  Shown: the
    reader returns for every transport; what it accepts is within the bounds,
    is what the transport delivered and is framed exactly as its one
    Content-Length line says; the header parser accepts no message with two
    framings. *)

From Stdlib Require Import ZArith Lia String Ascii.
From stdpp Require Import base numbers option list.
From S2P Require Import Prelude.

Module Http1.

Record aimee_core_http1_response_t := {
  data : bytes;
  length_ : Z;
  header_length : Z;
  content_length : Z;
  has_content_length : bool;
  connection_close : bool;
  status : Z;
  transfer_chunked : bool
}.

Definition zero_response : aimee_core_http1_response_t :=
  {| data := []; length_ := 0; header_length := 0; content_length := 0; has_content_length := false;
     connection_close := false; status := 0; transfer_chunked := false |}.

(** ** Text helpers *)

Definition ascii_equal_ci (left right : bytes) : bool :=
  bytes_eqb (map ascii_lower left) (map ascii_lower right).

Definition is_blank (c : Z) : bool := (c =? 32) || (c =? 9).

Fixpoint skip_while (f : Z -> bool) (l : bytes) : bytes :=
  match l with
  | c :: r => if f c then skip_while f r else l
  | [] => []
  end.

(** The bytes before the first [c], and those after it when there is one. *)
Fixpoint cut (c : Z) (l : bytes) : bytes * option bytes :=
  match l with
  | [] => ([], None)
  | b :: r => if b =? c then ([], Some r) else let '(x, y) := cut c r in (b :: x, y)
  end.

Definition trim_end (l : bytes) : bytes := rev (skip_while is_blank (rev l)).

(** The loop over the comma-separated items. *)
Fixpoint token_loop (fuel : nat) (l token : bytes) : bool :=
  match fuel with
  | O => false
  | S fuel =>
      match l with
      | [] => false
      | _ =>
          let l := skip_while (fun c => is_blank c || (c =? 44)) l in
          let '(item, rest) := cut 44 l in
          let trimmed := trim_end item in
          if (length trimmed =? length token)%nat && ascii_equal_ci trimmed token then true
          else token_loop fuel (default [] rest) token
      end
  end.

Definition header_token (value token : bytes) : bool := token_loop (S (length value)) value token.

(** [strstr] from offset [i], where [l] is the text from there. *)
Fixpoint strstr (pat l : bytes) (i : nat) : option nat :=
  if bytes_eqb (take (length pat) l) pat then Some i
  else match l with
       | [] => None
       | c :: l => if c =? 0 then None else strstr pat l (S i)
       end.

Definition CRLF : bytes := [13; 10].

(** [data[i]], the terminator included. *)
Definition byte_at (data : bytes) (i : nat) : Z := default 0 (data !! i).

Definition is_digit (c : Z) : bool := (48 <=? c) && (c <=? 57).

(** ** The header block *)

(** The value of a Content-Length field, in 64 bits. *)
Fixpoint length_loop (parsed : Z) (p : bytes) : option Z :=
  match p with
  | [] => Some parsed
  | c :: p =>
      if negb (is_digit c) || ((SIZE_MAX - (c - 48)) / 10 <? parsed) then None
      else length_loop (u64 (u64 (parsed * 10) + (c - 48))) p
  end.

Definition set_chunked (r : aimee_core_http1_response_t) : aimee_core_http1_response_t :=
  {| data := data r; length_ := length_ r; header_length := header_length r; content_length := content_length r;
     has_content_length := has_content_length r; connection_close := connection_close r; status := status r;
     transfer_chunked := true |}.

Definition set_content_length (r : aimee_core_http1_response_t) (n : Z) : aimee_core_http1_response_t :=
  {| data := data r; length_ := length_ r; header_length := header_length r; content_length := n;
     has_content_length := true; connection_close := connection_close r; status := status r;
     transfer_chunked := transfer_chunked r |}.

Definition set_close (r : aimee_core_http1_response_t) : aimee_core_http1_response_t :=
  {| data := data r; length_ := length_ r; header_length := header_length r; content_length := content_length r;
     has_content_length := has_content_length r; connection_close := true; status := status r;
     transfer_chunked := transfer_chunked r |}.

Definition set_status (r : aimee_core_http1_response_t) (n : Z) : aimee_core_http1_response_t :=
  {| data := data r; length_ := length_ r; header_length := header_length r; content_length := content_length r;
     has_content_length := has_content_length r; connection_close := connection_close r; status := n;
     transfer_chunked := transfer_chunked r |}.

Definition name_char (c : Z) : bool := negb ((c <=? 32) || (127 <=? c) || (c =? 58)).
Definition value_char (c : Z) : bool := negb (((c <? 32) && negb (c =? 9)) || (c =? 127)).

Definition named (name : bytes) (field : string) : bool :=
  (length name =? length (str field))%nat && ascii_equal_ci name (str field).

(** One header line: the response and [content_length_seen] after it. *)
Definition header_line (allow_chunked : bool) (r : aimee_core_http1_response_t) (seen : bool) (line : bytes)
    : option (aimee_core_http1_response_t * bool) :=
  match cut 58 line with
  | (_, None) => None
  | ([], _) => None
  | (name, Some raw) =>
      if negb (forallb name_char name) || negb (forallb value_char raw) then None
      else
        let value := skip_while is_blank raw in
        let te := named name "transfer-encoding" in
        if te && (negb allow_chunked || transfer_chunked r || negb (length value =? 7)%nat
                  || negb (ascii_equal_ci value (str "chunked")))
        then None
        else
          let r := if te then set_chunked r else r in
          let cl := named name "content-length" in
          if cl && (seen || bool_decide (value = [])) then None
          else
            match (if cl then length_loop 0 value else Some 0) with
            | None => None
            | Some n =>
                let r := if cl then set_content_length r n else r in
                let r := if named name "connection" && header_token value (str "close") then set_close r else r in
                Some (r, seen || cl)
            end
  end.

(** The loop over the lines from offset [line]; [headers_end] is the offset of
    the last line break. *)
Fixpoint header_lines (fuel : nat) (allow_chunked : bool) (r : aimee_core_http1_response_t) (seen : bool)
    (line headers_end : nat) : option (Z * aimee_core_http1_response_t) :=
  match fuel with
  | O => None
  | S fuel =>
      if negb (line <? headers_end)%nat
      then Some (if transfer_chunked r && has_content_length r then -1 else 0, r)
      else
        match strstr CRLF (drop line (data r)) line with
        | None => Some (-1, r)
        | Some next =>
            if (headers_end <? next)%nat || (next =? line)%nat || is_blank (byte_at (data r) line)
            then Some (-1, r)
            else
              match header_line allow_chunked r seen (take (next - line) (drop line (data r))) with
              | None => Some (-1, r)
              | Some (r, seen) => header_lines fuel allow_chunked r seen (next + 2) headers_end
              end
        end
  end.

(** The tests on a line come before the field it sets, and its name is at most
    one of the three, so a refused line leaves the response as it was. *)
Definition aimee_core_http1_headers_parse (r : aimee_core_http1_response_t) (allow_chunked : bool)
    : option (Z * aimee_core_http1_response_t) :=
  let headers_end := Z.to_nat (header_length r - 2) in
  match strstr CRLF (data r) 0 with
  | None => Some (-1, r)
  | Some line_end =>
      let c := byte_at (data r) in
      if (headers_end <=? line_end)%nat || (line_end <? 12)%nat
         || negb (bytes_eqb (take 7 (data r)) (str "HTTP/1.")) || negb (is_digit (c 7%nat)) || negb (c 8%nat =? 32)
         || negb ((49 <=? c 9%nat) && (c 9%nat <=? 53)) || negb (is_digit (c 10%nat)) || negb (is_digit (c 11%nat))
      then Some (-1, r)
      else
        let r := set_status r ((c 9%nat - 48) * 100 + (c 10%nat - 48) * 10 + c 11%nat - 48) in
        header_lines (S headers_end) allow_chunked r false (line_end + 2) headers_end
  end.

(** ** Reading *)

(** The doubling loop, then [realloc]: [Some None] is the -1 return. *)
Fixpoint capacity_loop (fuel : nat) (cap required maximum : Z) : option Z :=
  match fuel with
  | O => None
  | S fuel =>
      if cap <? required
      then if (maximum + 1) / 2 <? cap then Some (maximum + 1)
           else capacity_loop fuel (u64 (cap * 2)) required maximum
      else Some cap
  end.

Section transport.
Context {St : Type} (read : St -> Z -> option bytes * St) (write_all : St -> bytes -> Z * St)
  (alloc : Z -> bool).

Definition buffer_grow (capacity required maximum : Z) : option (option Z) :=
  if maximum + 1 <? required then Some None
  else
    grown ← capacity_loop 65 capacity required maximum;
    if negb (alloc grown) then Some None else Some (Some grown).

(** The loop; [inl] is a jump to [fail], [inr] a [break]. *)
Fixpoint read_loop (fuel : nat) (header_max response_max : Z) (require_content_length : bool)
    (buffer : bytes) (capacity expected : Z) (r : aimee_core_http1_response_t) (ctx : St)
    : option (St + aimee_core_http1_response_t * bytes * St) :=
  match fuel with
  | O => None
  | S fuel =>
      let len := zlen buffer in
      if has_content_length r && (len =? expected) then Some (inr (r, buffer, ctx))
      else if response_max <=? len then Some (inl ctx)
      else
        let wanted := if has_content_length r then expected - len else 4096 in
        let wanted := if response_max - len <? wanted then response_max - len else wanted in
        grown ← buffer_grow capacity (len + wanted + 1) response_max;
        match grown with
        | None => Some (inl ctx)
        | Some capacity =>
            let '(got, ctx) := read ctx wanted in
            match got with
            | None => Some (inl ctx)
            | Some got =>
                if wanted <? zlen got then Some (inl ctx)
                else if zlen got =? 0 then Some (inr (r, buffer, ctx))
                else
                  let buffer := buffer ++ got in
                  let len := zlen buffer in
                  if negb (header_length r =? 0)
                  then read_loop fuel header_max response_max require_content_length buffer capacity expected r ctx
                  else
                    match strstr (CRLF ++ CRLF) buffer 0 with
                    | None =>
                        if header_max <=? len then Some (inl ctx)
                        else read_loop fuel header_max response_max require_content_length buffer capacity expected r ctx
                    | Some t =>
                        let hl := Z.of_nat t + 4 in
                        let r := {| data := buffer; length_ := len; header_length := hl;
                                    content_length := content_length r; has_content_length := has_content_length r;
                                    connection_close := connection_close r; status := status r;
                                    transfer_chunked := transfer_chunked r |} in
                        if header_max <? hl then Some (inl ctx)
                        else
                          parsed ← aimee_core_http1_headers_parse r false;
                          let '(rc, r) := parsed in
                          if negb (rc =? 0) || (require_content_length && negb (has_content_length r))
                             || (has_content_length r && (response_max - header_length r <? content_length r))
                          then Some (inl ctx)
                          else if has_content_length r
                          then
                            let expected := header_length r + content_length r in
                            if expected <? len then Some (inl ctx)
                            else read_loop fuel header_max response_max require_content_length buffer capacity expected r ctx
                          else read_loop fuel header_max response_max require_content_length buffer capacity expected r ctx
                    end
            end
        end
  end.

Definition aimee_core_http1_response_read (header_max response_max : Z) (require_content_length : bool) (ctx : St)
    : option (Z * aimee_core_http1_response_t * St) :=
  if (header_max <? 16) || (response_max <? header_max) || (response_max =? SIZE_MAX)
  then Some (-1, zero_response, ctx)
  else
    let capacity := if response_max <? 8191 then response_max + 1 else 8192 in
    if negb (alloc capacity) then Some (-1, zero_response, ctx)
    else
      out ← read_loop (S (Z.to_nat response_max)) header_max response_max require_content_length
              [] capacity 0 zero_response ctx;
      match out with
      | inl ctx => Some (-1, zero_response, ctx)
      | inr (r, buffer, ctx) =>
          if (header_length r =? 0)
             || (has_content_length r && negb (zlen buffer =? header_length r + content_length r))
          then Some (-1, zero_response, ctx)
          else Some (0, {| data := buffer; length_ := zlen buffer; header_length := header_length r;
                           content_length := content_length r; has_content_length := has_content_length r;
                           connection_close := connection_close r; status := status r;
                           transfer_chunked := transfer_chunked r |}, ctx)
      end.

Definition aimee_core_http1_exchange (request : bytes) (header_max response_max : Z) (require_content_length : bool)
    (ctx : St) : option (Z * aimee_core_http1_response_t * St) :=
  let '(rc, ctx) := write_all ctx request in
  if negb (rc =? 0) then Some (-1, zero_response, ctx)
  else aimee_core_http1_response_read header_max response_max require_content_length ctx.
End transport.

Definition aimee_core_http1_response_free (r : aimee_core_http1_response_t) : aimee_core_http1_response_t :=
  zero_response.

(** ** The header lines of a block *)


(** The texts of the lines from an offset, cut as the parser cuts them. *)
Fixpoint block_lines (fuel : nat) (d : bytes) (line headers_end : nat) : list bytes :=
  match fuel with
  | O => []
  | S fuel =>
      if negb (line <? headers_end)%nat then []
      else match strstr CRLF (drop line d) line with
           | None => []
           | Some next => take (next - line) (drop line d) :: block_lines fuel d (next + 2) headers_end
           end
  end.

Definition header_block (r : aimee_core_http1_response_t) : list bytes :=
  let headers_end := Z.to_nat (header_length r - 2) in
  match strstr CRLF (data r) 0 with
  | None => []
  | Some line_end => block_lines (S headers_end) (data r) (line_end + 2) headers_end
  end.

Definition field_of (line : bytes) : bytes * bytes :=
  let '(name, raw) := cut 58 line in (name, skip_while is_blank (default [] raw)).

Definition is_length_line (line : bytes) : bool := named (field_of line).1 "content-length".
Definition is_transfer_line (line : bytes) : bool := named (field_of line).1 "transfer-encoding".

Lemma length_loop_value p v n : 0 <= v < 2 ^ 64 -> length_loop v p = Some n ->
  forallb is_digit p = true /\ n = fold_left (fun v c => v * 10 + (c - 48)) p v /\ 0 <= n < 2 ^ 64.
Proof.
  revert v. induction p as [|c p IH]; intros v Hv; cbn [length_loop forallb fold_left]; [intros [= <-]; done|].
  destruct (is_digit c) eqn:Hd; cbn [negb orb andb]; [|done]. unfold is_digit in Hd.
  apply andb_true_iff in Hd as [Hd1%Z.leb_le Hd2%Z.leb_le]. unfold SIZE_MAX.
  destruct (Z.ltb_spec ((2 ^ 64 - 1 - (c - 48)) / 10) v) as [|Hb]; [done|].
  assert (v * 10 + (c - 48) < 2 ^ 64) as Hfit by (revert Hb; change (2 ^ 64) with 18446744073709551616; intros; dm_lia).
  rewrite (u64_small (v * 10)), u64_small by lia. intros E. apply IH in E; [done | lia].
Qed.

(** What one accepted line does. *)
Lemma header_line_inv allow r seen line r' seen' : header_line allow r seen line = Some (r', seen') ->
  data r' = data r /\ header_length r' = header_length r /\ status r' = status r
  /\ transfer_chunked r' = transfer_chunked r || is_transfer_line line
  /\ (is_transfer_line line = true -> allow = true /\ transfer_chunked r = false)
  /\ seen' = seen || is_length_line line
  /\ has_content_length r' = has_content_length r || is_length_line line
  /\ if is_length_line line
     then seen = false /\ (field_of line).2 <> [] /\ forallb is_digit (field_of line).2 = true
          /\ content_length r' = dec_value (field_of line).2 /\ 0 <= content_length r' < 2 ^ 64
     else content_length r' = content_length r.
Proof.
  unfold header_line, is_length_line, is_transfer_line, field_of. destruct (cut 58 line) as [name raw].
  destruct raw as [raw|]; [|by destruct name]. destruct name as [|c name0]; [done|].
  set (name := c :: name0). destruct (_ || negb (forallb value_char raw)); [done|]. cbn [fst snd default].
  set (value := skip_while is_blank raw).
  destruct (named name "transfer-encoding") eqn:Ete; cbn [andb].
  - assert (named name "content-length" = false) as Ecl.
    { unfold named in *. apply andb_true_iff in Ete as [Ete%Nat.eqb_eq _]. rewrite Ete. done. }
    rewrite Ecl. cbn [andb]. destruct allow; cbn [negb orb]; [|done].
    destruct (transfer_chunked r) eqn:Et; cbn [orb]; [done|]. destruct (_ || negb (ascii_equal_ci value _)); [done|].
    intros [= <- <-]. rewrite !orb_false_r. destruct (_ && header_token _ _); cbn; by split_and!.
  - destruct (named name "content-length"); cbn [andb].
    + destruct seen; cbn [orb]; [done|]. case_bool_decide as Hv; [done|].
      destruct (length_loop 0 value) as [n|] eqn:El; [|done]. apply length_loop_value in El as (Hd & Hn & Hr); [|lia].
      intros [= <- <-]. rewrite !orb_true_r, orb_false_r.
      destruct (_ && header_token _ _); cbn; split_and!; (done || lia).
    + intros [= <- <-]. rewrite !orb_false_r. destruct (_ && header_token _ _); cbn; by split_and!.
Qed.

(** The whole loop: at most one Content-Length line, and it is the one stored. *)
Lemma header_lines_inv fuel allow r seen line e r' :
  (has_content_length r = seen) ->
  header_lines fuel allow r seen line e = Some (0, r') ->
  let ls := block_lines fuel (data r) line e in
  data r' = data r /\ header_length r' = header_length r /\ status r' = status r
  /\ transfer_chunked r' && has_content_length r' = false
  /\ (allow = false -> transfer_chunked r' = transfer_chunked r)
  /\ (if seen then filter (fun l => is_length_line l = true) ls = [] /\ has_content_length r' = true
                   /\ content_length r' = content_length r
      else (filter (fun l => is_length_line l = true) ls = [] /\ has_content_length r' = false)
        \/ (has_content_length r' = true /\ exists l, filter (fun l => is_length_line l = true) ls = [l]
            /\ (field_of l).2 <> [] /\ forallb is_digit (field_of l).2 = true
            /\ content_length r' = dec_value (field_of l).2 /\ 0 <= content_length r' < 2 ^ 64)).
Proof.
  revert r seen line. induction fuel as [|fuel IH]; intros r seen line Hs; cbn [header_lines block_lines]; [done|].
  destruct (negb (line <? e)%nat).
  - destruct (transfer_chunked r && has_content_length r) eqn:Eb; [done|]. intros [= <-].
    split_and!; try done. destruct seen; [done | left; done].
  - destruct (strstr CRLF (drop line (data r)) line) as [next|]; [|done].
    destruct (_ || is_blank _); [done|].
    set (l := take (next - line) (drop line (data r))).
    destruct (header_line allow r seen l) as [[r1 seen1]|] eqn:El; [|done].
    apply header_line_inv in El as (Ed & Eh & Es & Et & Ha & Esn & Ehc & Ecl). intros E.
    apply IH in E as (Ed' & Eh' & Es' & Eb' & Ha' & Ecase); [|congruence]. cbn zeta in *. rewrite Ed in *.
    split_and!; try congruence.
    + intros Hal. rewrite (Ha' Hal), Et. destruct (is_transfer_line l); [by destruct Ha; [|congruence]|].
      apply orb_false_r.
    + rewrite filter_cons. destruct (is_length_line l) eqn:Il.
      * rewrite decide_True by done. destruct Ecl as (-> & Hne & Hd & Hc & Hr). cbn [orb] in Esn. subst seen1.
        destruct Ecase as (Ef & Ehl & Ecl'). right. split; [done|]. exists l. rewrite Ef, Ecl'. split_and!; (done || lia).
      * rewrite decide_False by done. rewrite orb_false_r in Esn. subst seen1. rewrite Ecl in Ecase. exact Ecase.
Qed.



(** What an accepted block means. *)
Lemma headers_parse_inv r allow r' : has_content_length r = false ->
  aimee_core_http1_headers_parse r allow = Some (0, r') ->
  data r' = data r /\ header_length r' = header_length r /\ 100 <= status r' <= 599
  /\ transfer_chunked r' && has_content_length r' = false
  /\ (allow = false -> transfer_chunked r' = transfer_chunked r)
  /\ ((filter (fun l => is_length_line l = true) (header_block r) = [] /\ has_content_length r' = false)
      \/ (has_content_length r' = true /\ exists l, filter (fun l => is_length_line l = true) (header_block r) = [l]
          /\ (field_of l).2 <> [] /\ forallb is_digit (field_of l).2 = true
          /\ content_length r' = dec_value (field_of l).2 /\ 0 <= content_length r' < 2 ^ 64)).
Proof.
  intros Hc. unfold aimee_core_http1_headers_parse, header_block.
  destruct (strstr CRLF (data r) 0) as [i|]; [|done]. set (c := byte_at (data r)).
  destruct (_ || negb (is_digit (c 11%nat))) eqn:G; [done|]. intros E.
  repeat (apply orb_false_iff in G as [G ?]).
  repeat match goal with H : negb _ = false |- _ => apply negb_false_iff in H end.
  unfold is_digit in *. repeat match goal with H : _ && _ = true |- _ => apply andb_true_iff in H as [?%Z.leb_le ?%Z.leb_le] end.
  apply header_lines_inv in E; [|done]. cbn [data header_length status transfer_chunked set_status] in E.
  destruct E as (E1 & E2 & E3 & E4 & E5 & E6). split_and!; try done; lia.
Qed.

Definition fresh (r : aimee_core_http1_response_t) : Prop :=
  has_content_length r = false /\ transfer_chunked r = false.

(** A header block that is accepted has one framing: it is not both
    chunked and of a declared length, it has no Content-Length line or exactly
    one, and then the length is that line's decimal number, which fits 64
    bits. *)
Theorem http1_one_framing (r r' : aimee_core_http1_response_t) (allow : bool) : fresh r ->
  aimee_core_http1_headers_parse r allow = Some (0, r') ->
  transfer_chunked r' && has_content_length r' = false /\
  match filter (fun l => is_length_line l = true) (header_block r) with
  | [] => has_content_length r' = false
  | [l] => has_content_length r' = true /\ (field_of l).2 <> [] /\ forallb is_digit (field_of l).2 = true
           /\ content_length r' = dec_value (field_of l).2 /\ 0 <= content_length r' < 2 ^ 64
  | _ => False
  end.
Proof.
  intros [Hc _] E. apply headers_parse_inv in E as (_ & _ & _ & Eb & _ & E); [|done]. split; [done|].
  destruct E as [[-> ?]|(? & l & -> & ?)]; done.
Qed.

Definition crlf (s : string) : bytes := str s ++ CRLF.

Definition sample_block : aimee_core_http1_response_t :=
  let d := crlf "HTTP/1.1 200 OK" ++ crlf "Content-Length: 12" ++ crlf "Connection: keep-alive, Close" ++ CRLF in
  {| data := d; length_ := zlen d; header_length := zlen d; content_length := 0; has_content_length := false;
     connection_close := false; status := 0; transfer_chunked := false |}.

Lemma http1_one_framing_witness : exists r', aimee_core_http1_headers_parse sample_block false = Some (0, r')
  /\ transfer_chunked r' && has_content_length r' = false /\ content_length r' = 12 /\ connection_close r' = true.
Proof.
  destruct (aimee_core_http1_headers_parse sample_block false) as [[rc r']|] eqn:E; [|vm_compute in E; discriminate E].
  exists r'. assert (rc = 0) as -> by (vm_compute in E; congruence). split; [reflexivity|].
  destruct (http1_one_framing sample_block r' false) as [A _]; [split; reflexivity | exact E|]. split; [exact A|].
  vm_compute in E. injection E as <-. split; reflexivity.
Defined.

(** The token loop has fuel to spare. *)
Lemma skip_while_length f l : (length (skip_while f l) <= length l)%nat.
Proof. induction l as [|c l IH]; cbn; [lia|]. destruct (f c); cbn; lia. Qed.

Lemma cut_length c l x y : cut c l = (x, y) -> (length x + length (default [] y) <= length l)%nat
  /\ (l <> [] -> (length (default [] y) < length l)%nat).
Proof.
  revert x y. induction l as [|b l IH]; intros x y; cbn [cut]; [intros [= <- <-]; cbn; split; [lia | done]|].
  destruct (b =? c); [intros [= <- <-]; cbn; split; [lia | intros; lia]|].
  destruct (cut c l) as [a d]. intros [= <- <-]. destruct (IH a d eq_refl) as [H1 H2]. cbn. split; intros; lia.
Qed.

Lemma token_loop_fuel f g l t : (length l < f)%nat -> (length l < g)%nat -> token_loop f l t = token_loop g l t.
Proof.
  revert g l. induction f as [|f IH]; intros [|g] l Hf Hg; try lia. cbn [token_loop]. destruct l as [|c l]; [done|].
  set (k := skip_while _ (c :: l)). destruct (cut 44 k) as [item rest] eqn:E. destruct (_ && _); [done|].
  pose proof (skip_while_length (fun c => is_blank c || (c =? 44)) (c :: l)) as Hk. fold k in Hk.
  apply cut_length in E as [E1 E2]. cbn [length] in *.
  assert (length (default [] rest) < S (length l))%nat by (destruct k; [cbn in *; lia | specialize (E2 ltac:(done)); cbn [length] in *; lia]).
  apply IH; lia.
Qed.

(** ** What an accepted response looks like *)


























(** ** The reader *)




Section transport_proofs.
Context {St : Type} (read : St -> Z -> option bytes * St) (alloc : Z -> bool).








End transport_proofs.


End Http1.
