(* ===== verification/SseParser.v ===== *)
(** * Event-stream line parser ([src/src/sse_parser.c])

    The incremental parser that cuts a byte stream into lines and hands each
    to a callback.  The parser's buffer is the list of its [buf_len] bytes;
    the callback is a state transformer returning its status; [realloc_ok]
    says whether a reallocation succeeds.  [None] is a call that does not
    return: the doubling loop cannot reach a size above 2^63, and the
    delivery loop is given one round more than there are bytes.  Shown: below
    that size a call returns, and however the stream is cut into chunks the
    callback sees the stream's lines, in order, up to the first it rejects. *)

From Stdlib Require Import ZArith Lia String Ascii.
From stdpp Require Import base numbers option list.
From S2P Require Import Prelude.

Module SseParser.

Definition SSE_PARSER_INIT_CAP : Z := 4096.

Record sse_parser_t := { buf : bytes; buf_cap : Z }.

Definition sse_parser_init : sse_parser_t := {| buf := []; buf_cap := 0 |}.

Definition sse_parser_free (p : sse_parser_t) : sse_parser_t := {| buf := []; buf_cap := 0 |}.

Definition sse_parser_reset (p : sse_parser_t) : sse_parser_t := {| buf := []; buf_cap := buf_cap p |}.

(** [while (newcap < needed) newcap *= 2] in 64 bits. *)
Fixpoint grow_loop (fuel : nat) (newcap needed : Z) : option Z :=
  match fuel with
  | O => None
  | S fuel => if newcap <? needed then grow_loop fuel (u64 (newcap * 2)) needed else Some newcap
  end.

Definition sse_grow (realloc_ok : bool) (p : sse_parser_t) (needed : Z) : option (Z * sse_parser_t) :=
  if needed <=? buf_cap p then Some (0, p)
  else
    newcap ← grow_loop 65 (if buf_cap p =? 0 then SSE_PARSER_INIT_CAP else buf_cap p) needed;
    if negb realloc_ok then Some (-1, p) else Some (0, {| buf := buf p; buf_cap := newcap |}).

(** [memchr(cur, '\n', n)]: the bytes before the newline and after it. *)
Fixpoint memchr_nl (l : bytes) : option (bytes * bytes) :=
  match l with
  | [] => None
  | c :: l =>
      if c =? 10 then Some ([], l)
      else match memchr_nl l with Some (a, b) => Some (c :: a, b) | None => None end
  end.

Definition strip_cr (line : bytes) : bytes :=
  match last line with
  | Some 13 => removelast line
  | _ => line
  end.

Section callback.
Context {St : Type} (cb : St -> bytes -> Z * St).

(** The loop over the complete lines: the callback's status, what is left in
    the buffer, the callback's state. *)
Fixpoint line_loop (fuel : nat) (cur : bytes) (s : St) : option (Z * bytes * St) :=
  match fuel with
  | O => None
  | S fuel =>
      match memchr_nl cur with
      | None => Some (0, cur, s)
      | Some (line, rest) =>
          let '(rc, s) := cb s (strip_cr line) in
          if negb (rc =? 0) then Some (rc, [], s) else line_loop fuel rest s
      end
  end.

Definition sse_parser_feed (realloc_ok : bool) (p : sse_parser_t) (chunk : bytes) (s : St)
    : option (Z * sse_parser_t * St) :=
  g ← sse_grow realloc_ok p (u64 (zlen (buf p) + zlen chunk + 1));
  let '(rc, p) := g in
  if rc <? 0 then Some (-1, p, s)
  else
    let whole := buf p ++ chunk in
    r ← line_loop (S (length whole)) whole s;
    let '(rc, rest, s) := r in
    Some (rc, {| buf := rest; buf_cap := buf_cap p |}, s).

(** A client's loop: feed the chunks in turn until one is refused. *)
Fixpoint feed_all (p : sse_parser_t) (chunks : list bytes) (s : St) : option (Z * sse_parser_t * St) :=
  match chunks with
  | [] => Some (0, p, s)
  | c :: chunks =>
      r ← sse_parser_feed true p c s;
      let '(rc, p, s) := r in
      if negb (rc =? 0) then Some (rc, p, s) else feed_all p chunks s
  end.

(** ** The lines of a stream *)

(** The pieces ended by a newline and the unfinished rest. *)
Fixpoint split (l : bytes) : list bytes * bytes :=
  match l with
  | [] => ([], [])
  | c :: l =>
      let '(ls, t) := split l in
      if c =? 10 then ([] :: ls, t)
      else match ls with [] => ([], c :: t) | x :: ls => ((c :: x) :: ls, t) end
  end.

(** The callback over a list of lines, up to its first refusal. *)
Fixpoint deliver (s : St) (ls : list bytes) : Z * St :=
  match ls with
  | [] => (0, s)
  | l :: ls =>
      let '(rc, s) := cb s (strip_cr l) in
      if negb (rc =? 0) then (rc, s) else deliver s ls
  end.

Lemma split_memchr l : split l =
  match memchr_nl l with Some (x, y) => (x :: (split y).1, (split y).2) | None => ([], l) end.
Proof.
  induction l as [|c l IH]; [done|]. cbn [split memchr_nl].
  destruct (c =? 10); [by destruct (split l)|]. rewrite IH. by destruct (memchr_nl l) as [[x y]|].
Qed.

Lemma memchr_length l x y : memchr_nl l = Some (x, y) -> (length y < length l)%nat.
Proof.
  revert x. induction l as [|c l IH]; intros x; cbn [memchr_nl]; [done|].
  destruct (c =? 10); [intros [= <- <-]; cbn; lia|].
  destruct (memchr_nl l) as [[a b]|] eqn:E; [|done]. intros [= <- <-]. specialize (IH a eq_refl). cbn. lia.
Qed.

Lemma split_app a b : split (a ++ b) =
  ((split a).1 ++ (split ((split a).2 ++ b)).1, (split ((split a).2 ++ b)).2).
Proof.
  induction a as [|c a IH]; cbn [app]; [apply surjective_pairing|]. cbn [split]. rewrite IH.
  destruct (split a) as [ls t] eqn:Ea. cbn [fst snd]. destruct (c =? 10) eqn:Ec; [done|].
  destruct ls as [|x ls]; cbn [app fst snd]; [|done]. cbn [split].
  rewrite Ec. by destruct (split (t ++ b)) as [[|x ls] u].
Qed.

Lemma deliver_app s ls ms : deliver s (ls ++ ms) =
  let '(rc, s) := deliver s ls in if negb (rc =? 0) then (rc, s) else deliver s ms.
Proof.
  revert s. induction ls as [|l ls IH]; intros s; [done|]. cbn [app deliver].
  destruct (cb s (strip_cr l)) as [rc s']. destruct (rc =? 0) eqn:E; cbn [negb]; [apply IH | by rewrite E].
Qed.

Lemma line_loop_eq fuel l s : (length l < fuel)%nat -> line_loop fuel l s =
  let '(rc, s) := deliver s (split l).1 in Some (rc, if rc =? 0 then (split l).2 else [], s).
Proof.
  revert l s. induction fuel as [|fuel IH]; intros l s Hf; [lia|]. cbn [line_loop].
  rewrite split_memchr. destruct (memchr_nl l) as [[x y]|] eqn:E; [|done]. cbn [fst snd deliver].
  destruct (cb s (strip_cr x)) as [rc s']. destruct (rc =? 0) eqn:Er; cbn [negb]; [|by rewrite Er].
  apply IH. apply memchr_length in E. lia.
Qed.

(** ** Growth *)

Lemma grow_loop_some fuel c needed : 0 < c -> needed <= c * 2 ^ Z.of_nat fuel -> needed <= 2 ^ 63 ->
  exists c', grow_loop (S fuel) c needed = Some c' /\ needed <= c' /\ (c < 2 ^ 64 -> 0 < c' < 2 ^ 64).
Proof.
  revert c. induction fuel as [|fuel IH]; intros c Hc Hn Hm; cbn [grow_loop].
  - destruct (Z.ltb_spec c needed); [cbn in Hn; lia|]. exists c. split_and!; (done || lia).
  - destruct (Z.ltb_spec c needed) as [Hl|]; [|exists c; split_and!; (done || lia)].
    rewrite u64_small by lia. rewrite Nat2Z.inj_succ, Z.pow_succ_r in Hn by lia.
    destruct (IH (c * 2)) as (c' & E & L & B); [lia | lia | done|]. exists c'. split_and!; [exact E | done|].
    intros _. apply B. lia.
Qed.

Definition parser_ok (p : sse_parser_t) : Prop := 0 <= buf_cap p < 2 ^ 64.

Lemma sse_grow_some p needed : parser_ok p -> 0 < needed <= 2 ^ 63 ->
  exists c, sse_grow true p needed = Some (0, {| buf := buf p; buf_cap := c |}) /\ needed <= c < 2 ^ 64.
Proof.
  intros Hp Hn. unfold sse_grow, parser_ok in *.
  destruct (Z.leb_spec needed (buf_cap p)); [exists (buf_cap p); destruct p; split; [done | cbn in *; lia]|].
  set (c0 := if buf_cap p =? 0 then SSE_PARSER_INIT_CAP else buf_cap p).
  assert (0 < c0 < 2 ^ 64) as H0
    by (unfold c0; destruct (Z.eqb_spec (buf_cap p) 0); [unfold SSE_PARSER_INIT_CAP; lia | lia]).
  destruct (grow_loop_some 64 c0 needed) as (c' & -> & L & B); [lia | | lia|].
  - change (2 ^ Z.of_nat 64) with (2 ^ 64). nia.
  - cbn. exists c'. split; [done | lia].
Qed.

(** One call, when the sizes stay below 2^63. *)
Lemma feed_eq p chunk s : parser_ok p -> zlen (buf p) + zlen chunk < 2 ^ 63 ->
  exists c, 0 <= c < 2 ^ 64 /\ sse_parser_feed true p chunk s =
    let '(rc, s) := deliver s (split (buf p ++ chunk)).1 in
    Some (rc, {| buf := if rc =? 0 then (split (buf p ++ chunk)).2 else []; buf_cap := c |}, s).
Proof.
  intros Hp Hz. pose proof (zlen_nonneg (buf p)). pose proof (zlen_nonneg chunk).
  unfold sse_parser_feed. rewrite u64_small by lia.
  destruct (sse_grow_some p (zlen (buf p) + zlen chunk + 1) Hp ltac:(lia)) as (c & -> & Hc).
  exists c. split; [lia|]. cbn [mbind option_bind buf Z.ltb Z.compare]. rewrite line_loop_eq by lia.
  by destruct (deliver s (split (buf p ++ chunk)).1) as [rc s'].
Qed.

Lemma split_tail_length l : zlen (split l).2 <= zlen l.
Proof.
  induction l as [|c l IH]; [done|]. cbn [split]. destruct (split l) as [[|x ls] t]; cbn [snd] in IH;
    destruct (c =? 10); cbn [snd]; rewrite ?zlen_cons; lia.
Qed.


(** The unfinished rest holds no newline. *)
Lemma split_tail l : split (split l).2 = ([], (split l).2).
Proof.
  induction l as [|c l IH]; [done|]. cbn [split]. destruct (split l) as [[|x ls] t] eqn:E; cbn [snd] in IH;
    destruct (c =? 10) eqn:Ec; cbn [snd split]; rewrite ?IH, ?Ec; done.
Qed.

(** Whatever way a stream is cut into chunks, feeding them one after
    another to a fresh parser until a call is refused hands the callback
    exactly the lines of the whole stream, newline and one carriage return
    stripped, in order, up to the first line it refuses; that refusal's status
    is returned and the buffer is emptied, and otherwise the buffer keeps the
    unfinished last line. *)
Theorem sse_chunking (chunks : list bytes) (s : St) : zlen (concat chunks) < 2 ^ 63 ->
  exists c, feed_all sse_parser_init chunks s =
    let '(ls, rest) := split (concat chunks) in
    let '(rc, s') := deliver s ls in
    Some (rc, {| buf := if rc =? 0 then rest else []; buf_cap := c |}, s').
Proof.
  assert (forall p, parser_ok p -> split (buf p) = ([], buf p) -> zlen (buf p) + zlen (concat chunks) < 2 ^ 63 ->
    forall s, exists c, feed_all p chunks s =
      let '(rc, s') := deliver s (split (buf p ++ concat chunks)).1 in
      Some (rc, {| buf := if rc =? 0 then (split (buf p ++ concat chunks)).2 else []; buf_cap := c |}, s')) as L.
  { clear s. induction chunks as [|a chunks IH]; intros p Hp Ht Hz s.
    - exists (buf_cap p). cbn [concat feed_all]. rewrite app_nil_r, Ht. by destruct p.
    - cbn [concat] in Hz |- *. rewrite zlen_app in Hz. pose proof (zlen_nonneg (concat chunks)).
      cbn [feed_all]. destruct (feed_eq p a s Hp ltac:(lia)) as (c & Hc & ->).
      rewrite app_assoc, (split_app (buf p ++ a)). cbn [fst snd]. rewrite deliver_app.
      destruct (deliver s (split (buf p ++ a)).1) as [rc s'] eqn:Ed. cbn [mbind option_bind].
      destruct (rc =? 0) eqn:Er; cbn [negb]; [|exists c; by rewrite Er].
      pose proof (split_tail_length (buf p ++ a)) as Hl. rewrite zlen_app in Hl.
      apply (IH {| buf := (split (buf p ++ a)).2; buf_cap := c |});
        [exact Hc | apply split_tail | cbn [buf]; lia]. }
  intros Hz. destruct (L sse_parser_init) with (s := s) as [c E];
    [unfold parser_ok; cbn; lia | done | cbn [buf sse_parser_init]; rewrite zlen_nil; lia|].
  exists c. rewrite E. cbn [buf sse_parser_init app]. by destruct (split (concat chunks)).
Qed.
End callback.

(** A callback that keeps the lines and refuses the text stop. *)
Definition keep_until_stop (s : list bytes) (line : bytes) : Z * list bytes :=
  if bytes_eqb line (str "stop") then (1, s) else (0, s ++ [line]).

Lemma sse_chunking_witness : exists c,
  feed_all keep_until_stop sse_parser_init [str "da"; str "ta: 1"; [13]; [10; 10] ++ str "x"] []
  = Some (0, {| buf := str "x"; buf_cap := c |}, [str "data: 1"; []]).
Proof.
  destruct (sse_chunking keep_until_stop [str "da"; str "ta: 1"; [13]; [10; 10] ++ str "x"] []) as [c E];
    [vm_compute; reflexivity|].
  exists c. rewrite E. vm_compute. reflexivity.
Defined.
End SseParser.
