(* ===== verification/EventStream.v ===== *)
(** * AWS eventstream framing ([src/src/modules/aws/aws_eventstream.c])

    The decoder of the binary event stream: a prelude with two lengths and a
    CRC, typed headers, a payload and a CRC over everything before it.  A
    pointer into the caller's buffer is an offset; a read is a lookup in the
    buffer, and a read outside it makes the whole call [None], as does a
    header loop that runs out of fuel, so a [Some] result is a call that
    terminated inside its bounds.  The output arguments are taken to be
    non-null.  Shown: the table-driven CRC is the bitwise one; no input reads
    out of bounds; a buffer decodes exactly when it starts with the frame of
    some headers and payload, whose views are reported; more bytes never
    change a verdict. *)

From Stdlib Require Import ZArith Lia String Ascii.
From stdpp Require Import base numbers option list.
From S2P Require Import Prelude.
From S2P Require Import Wire.

Module EventStream.

(** ** CRC-32 *)

Definition k_crc32_table : list Z := [
   0x00000000; 0x77073096; 0xEE0E612C; 0x990951BA; 0x076DC419; 0x706AF48F; 0xE963A535; 0x9E6495A3;
   0x0EDB8832; 0x79DCB8A4; 0xE0D5E91E; 0x97D2D988; 0x09B64C2B; 0x7EB17CBD; 0xE7B82D07; 0x90BF1D91;
   0x1DB71064; 0x6AB020F2; 0xF3B97148; 0x84BE41DE; 0x1ADAD47D; 0x6DDDE4EB; 0xF4D4B551; 0x83D385C7;
   0x136C9856; 0x646BA8C0; 0xFD62F97A; 0x8A65C9EC; 0x14015C4F; 0x63066CD9; 0xFA0F3D63; 0x8D080DF5;
   0x3B6E20C8; 0x4C69105E; 0xD56041E4; 0xA2677172; 0x3C03E4D1; 0x4B04D447; 0xD20D85FD; 0xA50AB56B;
   0x35B5A8FA; 0x42B2986C; 0xDBBBC9D6; 0xACBCF940; 0x32D86CE3; 0x45DF5C75; 0xDCD60DCF; 0xABD13D59;
   0x26D930AC; 0x51DE003A; 0xC8D75180; 0xBFD06116; 0x21B4F4B5; 0x56B3C423; 0xCFBA9599; 0xB8BDA50F;
   0x2802B89E; 0x5F058808; 0xC60CD9B2; 0xB10BE924; 0x2F6F7C87; 0x58684C11; 0xC1611DAB; 0xB6662D3D;
   0x76DC4190; 0x01DB7106; 0x98D220BC; 0xEFD5102A; 0x71B18589; 0x06B6B51F; 0x9FBFE4A5; 0xE8B8D433;
   0x7807C9A2; 0x0F00F934; 0x9609A88E; 0xE10E9818; 0x7F6A0DBB; 0x086D3D2D; 0x91646C97; 0xE6635C01;
   0x6B6B51F4; 0x1C6C6162; 0x856530D8; 0xF262004E; 0x6C0695ED; 0x1B01A57B; 0x8208F4C1; 0xF50FC457;
   0x65B0D9C6; 0x12B7E950; 0x8BBEB8EA; 0xFCB9887C; 0x62DD1DDF; 0x15DA2D49; 0x8CD37CF3; 0xFBD44C65;
   0x4DB26158; 0x3AB551CE; 0xA3BC0074; 0xD4BB30E2; 0x4ADFA541; 0x3DD895D7; 0xA4D1C46D; 0xD3D6F4FB;
   0x4369E96A; 0x346ED9FC; 0xAD678846; 0xDA60B8D0; 0x44042D73; 0x33031DE5; 0xAA0A4C5F; 0xDD0D7CC9;
   0x5005713C; 0x270241AA; 0xBE0B1010; 0xC90C2086; 0x5768B525; 0x206F85B3; 0xB966D409; 0xCE61E49F;
   0x5EDEF90E; 0x29D9C998; 0xB0D09822; 0xC7D7A8B4; 0x59B33D17; 0x2EB40D81; 0xB7BD5C3B; 0xC0BA6CAD;
   0xEDB88320; 0x9ABFB3B6; 0x03B6E20C; 0x74B1D29A; 0xEAD54739; 0x9DD277AF; 0x04DB2615; 0x73DC1683;
   0xE3630B12; 0x94643B84; 0x0D6D6A3E; 0x7A6A5AA8; 0xE40ECF0B; 0x9309FF9D; 0x0A00AE27; 0x7D079EB1;
   0xF00F9344; 0x8708A3D2; 0x1E01F268; 0x6906C2FE; 0xF762575D; 0x806567CB; 0x196C3671; 0x6E6B06E7;
   0xFED41B76; 0x89D32BE0; 0x10DA7A5A; 0x67DD4ACC; 0xF9B9DF6F; 0x8EBEEFF9; 0x17B7BE43; 0x60B08ED5;
   0xD6D6A3E8; 0xA1D1937E; 0x38D8C2C4; 0x4FDFF252; 0xD1BB67F1; 0xA6BC5767; 0x3FB506DD; 0x48B2364B;
   0xD80D2BDA; 0xAF0A1B4C; 0x36034AF6; 0x41047A60; 0xDF60EFC3; 0xA867DF55; 0x316E8EEF; 0x4669BE79;
   0xCB61B38C; 0xBC66831A; 0x256FD2A0; 0x5268E236; 0xCC0C7795; 0xBB0B4703; 0x220216B9; 0x5505262F;
   0xC5BA3BBE; 0xB2BD0B28; 0x2BB45A92; 0x5CB36A04; 0xC2D7FFA7; 0xB5D0CF31; 0x2CD99E8B; 0x5BDEAE1D;
   0x9B64C2B0; 0xEC63F226; 0x756AA39C; 0x026D930A; 0x9C0906A9; 0xEB0E363F; 0x72076785; 0x05005713;
   0x95BF4A82; 0xE2B87A14; 0x7BB12BAE; 0x0CB61B38; 0x92D28E9B; 0xE5D5BE0D; 0x7CDCEFB7; 0x0BDBDF21;
   0x86D3D2D4; 0xF1D4E242; 0x68DDB3F8; 0x1FDA836E; 0x81BE16CD; 0xF6B9265B; 0x6FB077E1; 0x18B74777;
   0x88085AE6; 0xFF0F6A70; 0x66063BCA; 0x11010B5C; 0x8F659EFF; 0xF862AE69; 0x616BFFD3; 0x166CCF45;
   0xA00AE278; 0xD70DD2EE; 0x4E048354; 0x3903B3C2; 0xA7672661; 0xD06016F7; 0x4969474D; 0x3E6E77DB;
   0xAED16A4A; 0xD9D65ADC; 0x40DF0B66; 0x37D83BF0; 0xA9BCAE53; 0xDEBB9EC5; 0x47B2CF7F; 0x30B5FFE9;
   0xBDBDF21C; 0xCABAC28A; 0x53B39330; 0x24B4A3A6; 0xBAD03605; 0xCDD70693; 0x54DE5729; 0x23D967BF;
   0xB3667A2E; 0xC4614AB8; 0x5D681B02; 0x2A6F2B94; 0xB40BBE37; 0xC30C8EA1; 0x5A05DF1B; 0x2D02EF8D
].

Definition crc_byte (crc b : Z) : Z :=
  Z.lxor (nth (Z.to_nat (Z.land (Z.lxor crc b) 255)) k_crc32_table 0) (Z.shiftr crc 8).

Definition aws_es_crc32 (buf : bytes) : Z :=
  Z.lxor (fold_left crc_byte buf 0xFFFFFFFF) 0xFFFFFFFF.

#[global] Arguments aws_es_crc32 : simpl never.

(** ** Readers *)

Definition rd_u32be (buf : bytes) (p : nat) : option Z :=
  a ← buf !! p; b ← buf !! (p + 1)%nat; c ← buf !! (p + 2)%nat; d ← buf !! (p + 3)%nat;
  Some (Z.lor (Z.lor (Z.lor (u32 (Z.shiftl a 24)) (Z.shiftl b 16)) (Z.shiftl c 8)) d).

Definition rd_u16be (buf : bytes) (p : nat) : option Z :=
  a ← buf !! p; b ← buf !! (p + 1)%nat; Some (u16 (Z.lor (Z.shiftl a 8) b)).

(** The loop over 8 bytes, in 64 bits. *)
Fixpoint rd_loop (buf : bytes) (p n : nat) (v : Z) : option Z :=
  match n with
  | O => Some v
  | S n => b ← buf !! p; rd_loop buf (S p) n (Z.lor (u64 (Z.shiftl v 8)) b)
  end.

Definition rd_u64be (buf : bytes) (p : nat) : option Z := rd_loop buf p 8 0.

(** The conversion of an unsigned value to the signed type of [w] bytes. *)
Definition to_signed (w : nat) (v : Z) : Z :=
  if v <? 2 ^ (8 * Z.of_nat w - 1) then v else v - 2 ^ (8 * Z.of_nat w).

(** ** Messages *)

Definition AWS_ES_MAX_MESSAGE : Z := 16 * 1024 * 1024.
Definition AWS_ES_FRAMING_OVERHEAD : Z := 16.
Definition AWS_ES_MAX_HEADERS : nat := 32.

Inductive aws_es_status_t := AWS_ES_OK | AWS_ES_NEED_MORE | AWS_ES_ERROR.

Inductive aws_es_msg_type_t :=
  | AWS_ES_MSG_EVENT | AWS_ES_MSG_EXCEPTION | AWS_ES_MSG_ERROR | AWS_ES_MSG_UNKNOWN.

Definition AWS_ES_HDR_BOOL_TRUE : Z := 0.
Definition AWS_ES_HDR_BOOL_FALSE : Z := 1.
Definition AWS_ES_HDR_INT8 : Z := 2.
Definition AWS_ES_HDR_INT16 : Z := 3.
Definition AWS_ES_HDR_INT32 : Z := 4.
Definition AWS_ES_HDR_INT64 : Z := 5.
Definition AWS_ES_HDR_BYTES : Z := 6.
Definition AWS_ES_HDR_STRING : Z := 7.
Definition AWS_ES_HDR_TIMESTAMP : Z := 8.
Definition AWS_ES_HDR_UUID : Z := 9.

(** A view: an offset into the caller's buffer, or null, and a length. *)
Record aws_es_view_t := { ptr : option nat; len : nat }.

Record aws_es_header_t := {
  name : aws_es_view_t;
  value_type : Z;
  int_value : Z;
  value : aws_es_view_t
}.

(** [headers] lists the [n_headers] captured entries; a pointer to a captured
    header is its index. *)
Record aws_es_message_t := {
  headers : list aws_es_header_t;
  headers_truncated : bool;
  payload : aws_es_view_t;
  msg_type : aws_es_msg_type_t;
  message_type : option nat;
  event_type : option nat;
  content_type : option nat;
  exception_type : option nat;
  error_code : option nat;
  error_message : option nat
}.

Definition null_view : aws_es_view_t := {| ptr := None; len := 0 |}.

(** [memset(out, 0, sizeof *out)]; the enum value 0 is the event type. *)
Definition zero_message : aws_es_message_t :=
  {| headers := []; headers_truncated := false; payload := null_view; msg_type := AWS_ES_MSG_EVENT;
     message_type := None; event_type := None; content_type := None; exception_type := None;
     error_code := None; error_message := None |}.

Definition n_headers (out : aws_es_message_t) : nat := length (headers out).

Definition slice (buf : bytes) (p n : nat) : bytes := take n (drop p buf).

Definition name_eq (buf : bytes) (v : aws_es_view_t) (s : bytes) : bool :=
  match ptr v with
  | Some p => (len v =? length s)%nat && bytes_eqb (slice buf p (length s)) s
  | None => false
  end.

(** The [switch] on the value type at [cur]: [Some None] is the -1 return;
    otherwise the integer, the view and the advanced cursor. *)
Definition header_value (buf : bytes) (cur end_ : nat) (vt : Z) : option (option (Z * aws_es_view_t * nat)) :=
  let rem := (end_ - cur)%nat in
  let int_ (w : nat) (rd : option Z) :=
    if (rem <? w)%nat then Some None
    else v ← rd; Some (Some (to_signed w v, null_view, (cur + w)%nat)) in
  if vt =? AWS_ES_HDR_BOOL_TRUE then Some (Some (1, null_view, cur))
  else if vt =? AWS_ES_HDR_BOOL_FALSE then Some (Some (0, null_view, cur))
  else if vt =? AWS_ES_HDR_INT8 then int_ 1%nat (buf !! cur)
  else if vt =? AWS_ES_HDR_INT16 then int_ 2%nat (rd_u16be buf cur)
  else if vt =? AWS_ES_HDR_INT32 then int_ 4%nat (rd_u32be buf cur)
  else if (vt =? AWS_ES_HDR_INT64) || (vt =? AWS_ES_HDR_TIMESTAMP) then int_ 8%nat (rd_u64be buf cur)
  else if (vt =? AWS_ES_HDR_BYTES) || (vt =? AWS_ES_HDR_STRING) then
    if (rem <? 2)%nat then Some None
    else
      vlen ← rd_u16be buf cur;
      let vlen := Z.to_nat vlen in
      let cur := (cur + 2)%nat in
      let rem := (end_ - cur)%nat in
      if (rem <? vlen)%nat then Some None
      else Some (Some (0, {| ptr := Some cur; len := vlen |}, (cur + vlen)%nat))
  else if vt =? AWS_ES_HDR_UUID then
    if (rem <? 16)%nat then Some None
    else Some (Some (0, {| ptr := Some cur; len := 16 |}, (cur + 16)%nat))
  else Some None.

Definition capture (out : aws_es_message_t) (h : aws_es_header_t) : aws_es_message_t :=
  if (n_headers out <? AWS_ES_MAX_HEADERS)%nat
  then {| headers := headers out ++ [h]; headers_truncated := headers_truncated out; payload := payload out;
          msg_type := msg_type out; message_type := message_type out; event_type := event_type out;
          content_type := content_type out; exception_type := exception_type out;
          error_code := error_code out; error_message := error_message out |}
  else {| headers := headers out; headers_truncated := true; payload := payload out;
          msg_type := msg_type out; message_type := message_type out; event_type := event_type out;
          content_type := content_type out; exception_type := exception_type out;
          error_code := error_code out; error_message := error_message out |}.

Fixpoint header_loop (fuel : nat) (buf : bytes) (cur end_ : nat) (out : aws_es_message_t)
    : option (Z * aws_es_message_t) :=
  match fuel with
  | O => None
  | S fuel =>
      if negb (cur <? end_)%nat then Some (0, out)
      else
        let rem := (end_ - cur)%nat in
        if (rem <? 1)%nat then Some (-1, out) else
        name_len ← buf !! cur;
        let name_len := Z.to_nat name_len in
        let cur := (cur + 1)%nat in
        let rem := (end_ - cur)%nat in
        if (rem <? name_len)%nat then Some (-1, out) else
        let name_ptr := cur in
        let cur := (cur + name_len)%nat in
        let rem := (end_ - cur)%nat in
        if (rem <? 1)%nat then Some (-1, out) else
        vt ← buf !! cur;
        let cur := (cur + 1)%nat in
        r ← header_value buf cur end_ vt;
        match r with
        | None => Some (-1, out)
        | Some (iv, v, cur) =>
            header_loop fuel buf cur end_
              (capture out {| name := {| ptr := Some name_ptr; len := name_len |};
                              value_type := vt; int_value := iv; value := v |})
        end
  end.

(** Every round advances the cursor, so the block's length plus one is enough
    fuel. *)
Definition parse_headers (buf : bytes) (start end_ : nat) (out : aws_es_message_t)
    : option (Z * aws_es_message_t) :=
  header_loop (S (end_ - start)) buf start end_ out.

Definition find_header (buf : bytes) (out : aws_es_message_t) (s : bytes) : option nat :=
  fst <$> list_find (fun h => name_eq buf (name h) s = true) (headers out).

Definition classify (buf : bytes) (out : aws_es_message_t) : aws_es_message_t :=
  let mt := find_header buf out (str ":message-type") in
  {| headers := headers out; headers_truncated := headers_truncated out; payload := payload out;
     msg_type :=
       match mt ≫= (fun i => headers out !! i) with
       | Some h =>
           if value_type h =? AWS_ES_HDR_STRING then
             if name_eq buf (value h) (str "event") then AWS_ES_MSG_EVENT
             else if name_eq buf (value h) (str "exception") then AWS_ES_MSG_EXCEPTION
             else if name_eq buf (value h) (str "error") then AWS_ES_MSG_ERROR
             else AWS_ES_MSG_UNKNOWN
           else AWS_ES_MSG_UNKNOWN
       | None => AWS_ES_MSG_UNKNOWN
       end;
     message_type := mt;
     event_type := find_header buf out (str ":event-type");
     content_type := find_header buf out (str ":content-type");
     exception_type := find_header buf out (str ":exception-type");
     error_code := find_header buf out (str ":error-code");
     error_message := find_header buf out (str ":error-message") |}.

Definition set_payload (out : aws_es_message_t) (v : aws_es_view_t) : aws_es_message_t :=
  {| headers := headers out; headers_truncated := headers_truncated out; payload := v;
     msg_type := msg_type out; message_type := message_type out; event_type := event_type out;
     content_type := content_type out; exception_type := exception_type out;
     error_code := error_code out; error_message := error_message out |}.

(** The status, the message and the bytes consumed.  The lengths are 32-bit
    values widened to 64 bits, so the sums cannot wrap. *)
Definition aws_es_decode (buf : option bytes) : option (aws_es_status_t * aws_es_message_t * Z) :=
  match buf with
  | None => Some (AWS_ES_ERROR, zero_message, 0)
  | Some buf =>
      let out := zero_message in
      if (length buf <? 12)%nat then Some (AWS_ES_NEED_MORE, out, 0) else
      total_length ← rd_u32be buf 0;
      headers_length ← rd_u32be buf 4;
      prelude_crc ← rd_u32be buf 8;
      if total_length <? AWS_ES_FRAMING_OVERHEAD then Some (AWS_ES_ERROR, out, 0)
      else if AWS_ES_MAX_MESSAGE <? total_length then Some (AWS_ES_ERROR, out, 0)
      else if zlen buf <? total_length then Some (AWS_ES_NEED_MORE, out, 0)
      else if negb (aws_es_crc32 (take 8 buf) =? prelude_crc) then Some (AWS_ES_ERROR, out, 0)
      else
        let body_len := Z.to_nat (total_length - 4) in
        message_crc ← rd_u32be buf body_len;
        if negb (aws_es_crc32 (take body_len buf) =? message_crc) then Some (AWS_ES_ERROR, out, 0)
        else if total_length <? headers_length + AWS_ES_FRAMING_OVERHEAD then Some (AWS_ES_ERROR, out, 0)
        else
          let payload_length := total_length - headers_length - AWS_ES_FRAMING_OVERHEAD in
          let headers_start := 12%nat in
          let headers_end := (headers_start + Z.to_nat headers_length)%nat in
          r ← parse_headers buf headers_start headers_end out;
          let '(rc, out) := r in
          if negb (rc =? 0) then Some (AWS_ES_ERROR, out, 0)
          else
            let out := set_payload out
              {| ptr := if payload_length =? 0 then None else Some headers_end;
                 len := Z.to_nat payload_length |} in
            Some (AWS_ES_OK, classify buf out, total_length)
  end.

Definition aws_es_status_str (st : aws_es_status_t) : string :=
  match st with AWS_ES_OK => "OK" | AWS_ES_NEED_MORE => "NEED_MORE" | AWS_ES_ERROR => "ERROR" end.

(** ** The table is the bitwise CRC *)

(** One bit of the reflected polynomial division. *)
Definition crc_bit (x : Z) : Z :=
  if Z.odd x then Z.lxor (Z.shiftr x 1) 0xEDB88320 else Z.shiftr x 1.

Definition crc_bits (x : Z) : Z := Nat.iter 8 crc_bit x.

(** The reference CRC: eight bit steps per byte. *)
Definition crc32_reference (buf : bytes) : Z :=
  Z.lxor (fold_left (fun crc b => crc_bits (Z.lxor crc b)) buf 0xFFFFFFFF) 0xFFFFFFFF.

Lemma crc_bit_lxor x y : crc_bit (Z.lxor x y) = Z.lxor (crc_bit x) (crc_bit y).
Proof.
  unfold crc_bit. rewrite <- !Z.bit0_odd, Z.lxor_spec, Z.shiftr_lxor.
  set (p := 0xEDB88320). set (a := Z.shiftr x 1). set (b := Z.shiftr y 1).
  destruct (Z.testbit x 0), (Z.testbit y 0); cbn [xorb].
  - rewrite (Z.lxor_comm b p), Z.lxor_assoc, <- (Z.lxor_assoc p p b), Z.lxor_nilpotent. by rewrite Z.lxor_0_l.
  - by rewrite !Z.lxor_assoc, (Z.lxor_comm p b).
  - by rewrite Z.lxor_assoc.
  - done.
Qed.

Lemma crc_bits_lxor x y : crc_bits (Z.lxor x y) = Z.lxor (crc_bits x) (crc_bits y).
Proof. unfold crc_bits. cbn [Nat.iter nat_rect]. by rewrite !crc_bit_lxor. Qed.

Lemma crc_bits_high h : crc_bits (Z.shiftl h 8) = h.
Proof.
  assert (forall m n, m = n + 1 -> 0 <= n -> crc_bit (Z.shiftl h m) = Z.shiftl h n) as H.
  { intros m n -> Hn. unfold crc_bit.
    rewrite <- Z.bit0_odd, Z.shiftl_spec_low by lia.
    rewrite Z.shiftr_shiftl_l by lia. f_equal. lia. }
  unfold crc_bits. cbn [Nat.iter nat_rect].
  rewrite (H 8 7), (H 7 6), (H 6 5), (H 5 4), (H 4 3), (H 3 2), (H 2 1), (H 1 0) by lia. apply Z.shiftl_0_r.
Qed.

Lemma crc_table_ok i : 0 <= i < 256 -> nth (Z.to_nat i) k_crc32_table 0 = crc_bits i.
Proof.
  intros Hi. apply Z.eqb_eq. revert i Hi.
  apply (check_range 256 (fun i => nth (Z.to_nat i) k_crc32_table 0 =? crc_bits i)). vm_compute. reflexivity.
Qed.

Lemma crc_byte_bits crc b : is_byte b -> crc_byte crc b = crc_bits (Z.lxor crc b).
Proof.
  intros Hb. unfold crc_byte. set (x := Z.lxor crc b).
  assert (Z.shiftr crc 8 = Z.shiftr x 8) as ->.
  { unfold x. rewrite Z.shiftr_lxor, (shiftr_div b 8), (Z.div_small b) by (unfold is_byte in Hb; lia).
    by rewrite Z.lxor_0_r. }
  assert (x = Z.lxor (Z.land x 255) (Z.shiftl (Z.shiftr x 8) 8)) as E.
  { apply Z.bits_inj'. intros n Hn. rewrite Z.lxor_spec, Z.land_spec, Z.shiftl_spec by done.
    change 255 with (Z.ones 8). destruct (decide (n < 8)).
    - rewrite Z.ones_spec_low, (Z.testbit_neg_r _ (n - 8)) by lia. by destruct (Z.testbit x n).
    - rewrite Z.ones_spec_high, Z.shiftr_spec by lia. replace (n - 8 + 8) with n by lia.
      by destruct (Z.testbit x n). }
  rewrite E at 3. rewrite crc_bits_lxor, crc_bits_high, crc_table_ok; [done|].
  change 255 with (2 ^ 8 - 1). rewrite land_low_mod by lia. apply Z.mod_pos_bound. lia.
Qed.

(** The table-driven CRC computes the reflected CRC-32 of polynomial
    0xEDB88320, defined bit by bit, on every byte string. *)
Theorem crc32_table_correct (buf : bytes) : is_bytes buf -> aws_es_crc32 buf = crc32_reference buf.
Proof.
  intros Hb. unfold aws_es_crc32, crc32_reference. f_equal. generalize 0xFFFFFFFF.
  induction Hb as [|b buf Hb _ IH]; intros crc; [done|]. cbn [fold_left]. by rewrite crc_byte_bits.
Qed.

Lemma crc32_table_correct_witness : aws_es_crc32 (str "123456789") = 0xCBF43926
  /\ aws_es_crc32 (str "123456789") = crc32_reference (str "123456789").
Proof.
  split; [vm_compute; reflexivity|]. apply crc32_table_correct. apply is_bytesb_true. vm_compute. reflexivity.
Defined.

(** ** Slices and reads *)

Lemma slice_length buf p n : (p + n <= length buf)%nat -> length (slice buf p n) = n.
Proof. intros. unfold slice. rewrite length_take, length_drop. lia. Qed.

Lemma slice_add buf p n m : slice buf p (n + m) = slice buf p n ++ slice buf (p + n) m.
Proof. unfold slice. rewrite <- drop_drop. symmetry. apply take_take_drop. Qed.

Lemma slice_bytes buf p n : is_bytes buf -> is_bytes (slice buf p n).
Proof. intros. unfold slice. apply is_bytes_take. by apply is_bytes_drop. Qed.

Lemma slice_split buf p n l k : slice buf p n = l ++ k -> (p + n <= length buf)%nat ->
  slice buf p (length l) = l /\ slice buf (p + length l) (n - length l) = k /\ n = (length l + length k)%nat.
Proof.
  intros E Hn. pose proof (slice_length buf p n Hn) as L. rewrite E, length_app in L.
  replace n with (length l + length k)%nat in E by lia. rewrite slice_add in E.
  apply app_inj_length in E as [E1 E2]; [|rewrite slice_length by lia; done].
  split_and!; [done | | lia]. replace (n - length l)%nat with (length k) by lia. exact E2.
Qed.

Lemma slice_mid pre l post : slice (pre ++ l ++ post) (length pre) (length l) = l.
Proof. unfold slice. by rewrite drop_app_length, take_app_length. Qed.

Lemma slice_cons buf p n : (p < length buf)%nat -> exists b, buf !! p = Some b /\
  slice buf p (S n) = b :: slice buf (S p) n.
Proof.
  intros Hp. destruct (lookup_lt_is_Some_2 buf p Hp) as [b Hb]. exists b. split; [done|].
  unfold slice. by rewrite (drop_S _ _ _ Hb).
Qed.

Lemma rd_u8_slice buf p : is_bytes buf -> (p + 1 <= length buf)%nat ->
  buf !! p = Some (be_get (slice buf p 1)).
Proof.
  intros Hb Hp. destruct (slice_cons buf p 0 ltac:(lia)) as (b & E & ->). rewrite E.
  unfold slice. cbn. by rewrite take_0.
Qed.

Lemma rd_u16be_slice buf p : is_bytes buf -> (p + 2 <= length buf)%nat ->
  rd_u16be buf p = Some (be_get (slice buf p 2)).
Proof.
  intros Hb Hp. pose proof (slice_bytes buf p 2 Hb) as B.
  destruct (slice_cons buf p 1 ltac:(lia)) as (a & Ea & S1). destruct (slice_cons buf (S p) 0 ltac:(lia)) as (b & Eb & S2).
  rewrite S1, S2 in *. change (slice buf (S (S p)) 0) with (@nil Z) in *.
  unfold rd_u16be. replace (p + 1)%nat with (S p) by lia. rewrite Ea, Eb. cbn [mbind option_bind].
  unfold is_bytes in B. rewrite !Forall_cons in B. destruct B as (Ba & Bb & _).
  f_equal. exact (get_u16_be a b Ba Bb []).
Qed.

Lemma rd_u32be_slice buf p : is_bytes buf -> (p + 4 <= length buf)%nat ->
  rd_u32be buf p = Some (be_get (slice buf p 4)).
Proof.
  intros Hb Hp. pose proof (slice_bytes buf p 4 Hb) as B.
  destruct (slice_cons buf p 3 ltac:(lia)) as (a & Ea & S1). destruct (slice_cons buf (S p) 2 ltac:(lia)) as (b & Eb & S2).
  destruct (slice_cons buf (S (S p)) 1 ltac:(lia)) as (c & Ec & S3).
  destruct (slice_cons buf (S (S (S p))) 0 ltac:(lia)) as (d & Ed & S4).
  rewrite S1, S2, S3, S4 in *. change (slice buf (S (S (S (S p)))) 0) with (@nil Z) in *.
  unfold rd_u32be. replace (p + 1)%nat with (S p) by lia. replace (p + 2)%nat with (S (S p)) by lia.
  replace (p + 3)%nat with (S (S (S p))) by lia. rewrite Ea, Eb, Ec, Ed. cbn [mbind option_bind].
  f_equal. exact (get_u32_be a b c d [] B).
Qed.

Lemma rd_loop_slice buf p n v : is_bytes buf -> (p + n <= length buf)%nat -> 0 <= v ->
  v * 256 ^ Z.of_nat n + (256 ^ Z.of_nat n - 1) < 2 ^ 64 ->
  rd_loop buf p n v = Some (fold_left (fun v b => v * 256 + b) (slice buf p n) v).
Proof.
  intros Hb. revert p v. induction n as [|n IH]; intros p v Hp Hv Hr; [done|].
  destruct (slice_cons buf p n ltac:(lia)) as (b & E & ->). cbn [rd_loop fold_left]. rewrite E. cbn [mbind option_bind].
  assert (is_byte b) as Bb by (eapply Forall_lookup_1; [exact Hb | exact E]). unfold is_byte in Bb.
  rewrite Nat2Z.inj_succ, Z.pow_succ_r in Hr by lia.
  assert (1 <= 256 ^ Z.of_nat n) by (pose proof (Z.pow_pos_nonneg 256 (Z.of_nat n)); lia).
  unfold u64. rewrite (lor_step v b 64) by (done || nia). apply IH; [lia | lia | nia].
Qed.

Lemma rd_u64be_slice buf p : is_bytes buf -> (p + 8 <= length buf)%nat ->
  rd_u64be buf p = Some (be_get (slice buf p 8)).
Proof. intros Hb Hp. unfold rd_u64be, be_get. apply rd_loop_slice; [done | lia | lia | cbn; lia]. Qed.

(** ** Signed integers *)

Definition signed_range (w : nat) (z : Z) : Prop :=
  - 2 ^ (8 * Z.of_nat w - 1) <= z < 2 ^ (8 * Z.of_nat w - 1).

Definition put_signed (w : nat) (z : Z) : bytes := be_put w (z mod 2 ^ (8 * Z.of_nat w)).

Lemma pow_half w : (0 < w)%nat -> 2 ^ (8 * Z.of_nat w) = 2 * 2 ^ (8 * Z.of_nat w - 1)
  /\ 256 ^ Z.of_nat w = 2 ^ (8 * Z.of_nat w).
Proof.
  intros. split; [rewrite <- Z.pow_succ_r by lia; f_equal; lia|].
  change 256 with (2 ^ 8). by rewrite <- Z.pow_mul_r by lia.
Qed.

Lemma signed_put w s : (0 < w)%nat -> is_bytes s -> length s = w ->
  signed_range w (to_signed w (be_get s)) /\ put_signed w (to_signed w (be_get s)) = s.
Proof.
  intros Hw Hs Hl. destruct (pow_half w Hw) as [H1 H2]. pose proof (be_get_range s Hs) as R.
  unfold zlen in R. rewrite Hl, H2 in R. unfold signed_range, put_signed, to_signed.
  assert ((if be_get s <? 2 ^ (8 * Z.of_nat w - 1) then be_get s else be_get s - 2 ^ (8 * Z.of_nat w))
    mod 2 ^ (8 * Z.of_nat w) = be_get s) as ->.
  { destruct (_ <? _); [by apply Z.mod_small|]. rewrite <- (Z.mod_small (be_get s) (2 ^ (8 * Z.of_nat w))) at 2 by done.
    rewrite <- (Z_mod_plus_full (be_get s - 2 ^ (8 * Z.of_nat w)) 1). f_equal. lia. }
  split; [destruct (Z.ltb_spec (be_get s) (2 ^ (8 * Z.of_nat w - 1))); lia|].
  rewrite <- Hl at 1. by apply be_put_get.
Qed.

Lemma signed_get w z : (0 < w)%nat -> signed_range w z -> to_signed w (be_get (put_signed w z)) = z.
Proof.
  intros Hw R. destruct (pow_half w Hw) as [H1 H2]. unfold put_signed, signed_range in *.
  rewrite be_get_put by (rewrite H2; apply Z.mod_pos_bound; lia). unfold to_signed.
  destruct (decide (0 <= z)).
  - rewrite Z.mod_small by lia. destruct (Z.ltb_spec z (2 ^ (8 * Z.of_nat w - 1))); lia.
  - assert (z mod 2 ^ (8 * Z.of_nat w) = z + 2 ^ (8 * Z.of_nat w)) as ->.
    { rewrite <- (Z.mod_small (z + 2 ^ (8 * Z.of_nat w)) (2 ^ (8 * Z.of_nat w))) by lia.
      rewrite <- (Z_mod_plus_full z 1). f_equal. lia. }
    destruct (Z.ltb_spec (z + 2 ^ (8 * Z.of_nat w)) (2 ^ (8 * Z.of_nat w - 1))); lia.
Qed.

(** ** The wire format *)

Inductive hvalue :=
  | VBool (b : bool)
  | VInt8 (z : Z)
  | VInt16 (z : Z)
  | VInt32 (z : Z)
  | VInt64 (z : Z)
  | VBytes (l : bytes)
  | VString (l : bytes)
  | VTimestamp (z : Z)
  | VUuid (l : bytes).

Abbreviation header := (bytes * hvalue)%type.

Definition vtype (v : hvalue) : Z :=
  match v with
  | VBool true => 0 | VBool false => 1 | VInt8 _ => 2 | VInt16 _ => 3 | VInt32 _ => 4
  | VInt64 _ => 5 | VBytes _ => 6 | VString _ => 7 | VTimestamp _ => 8 | VUuid _ => 9
  end.

Definition vbytes (v : hvalue) : bytes :=
  match v with
  | VBool _ => []
  | VInt8 z => put_signed 1 z
  | VInt16 z => put_signed 2 z
  | VInt32 z => put_signed 4 z
  | VInt64 z | VTimestamp z => put_signed 8 z
  | VBytes l | VString l => be_put 2 (zlen l) ++ l
  | VUuid l => l
  end.

Definition vint (v : hvalue) : Z :=
  match v with
  | VBool b => if b then 1 else 0
  | VInt8 z | VInt16 z | VInt32 z | VInt64 z | VTimestamp z => z
  | _ => 0
  end.

(** Where the value of a header at offset [p] is reported. *)
Definition vview (p : nat) (v : hvalue) : aws_es_view_t :=
  match v with
  | VBytes l | VString l => {| ptr := Some (p + 2)%nat; len := length l |}
  | VUuid _ => {| ptr := Some p; len := 16 |}
  | _ => null_view
  end.

Definition value_wf (v : hvalue) : Prop :=
  match v with
  | VBool _ => True
  | VInt8 z => signed_range 1 z
  | VInt16 z => signed_range 2 z
  | VInt32 z => signed_range 4 z
  | VInt64 z | VTimestamp z => signed_range 8 z
  | VBytes l | VString l => zlen l < 2 ^ 16
  | VUuid l => length l = 16%nat
  end.

Definition header_wf (h : header) : Prop := (length h.1 < 256)%nat /\ value_wf h.2.

Definition enc_header (h : header) : bytes :=
  Z.of_nat (length h.1) :: h.1 ++ vtype h.2 :: vbytes h.2.

Definition enc_headers (hs : list header) : bytes := concat (map enc_header hs).

Definition value_at (p : nat) (h : header) : nat := (p + 1 + length h.1 + 1)%nat.

Definition header_at (p : nat) (h : header) : aws_es_header_t :=
  {| name := {| ptr := Some (p + 1)%nat; len := length h.1 |}; value_type := vtype h.2;
     int_value := vint h.2; value := vview (value_at p h) h.2 |}.

(** The captured form of consecutive headers from offset [p]. *)
Fixpoint place (p : nat) (hs : list header) : list aws_es_header_t :=
  match hs with
  | [] => []
  | h :: hs => header_at p h :: place (p + length (enc_header h)) hs
  end.

Lemma enc_header_length h : length (enc_header h) = (2 + length h.1 + length (vbytes h.2))%nat.
Proof. unfold enc_header. cbn [length]. rewrite length_app. cbn [length]. lia. Qed.

(** ** Values *)

Lemma int_value_some buf cur end_ w rd r : is_bytes buf -> (cur <= end_ <= length buf)%nat -> (0 < w)%nat ->
  ((cur + w <= length buf)%nat -> rd = Some (be_get (slice buf cur w))) ->
  (if (end_ - cur <? w)%nat then Some None
   else v ← rd; Some (Some (to_signed w v, null_view, (cur + w)%nat))) = r ->
  (r = Some None /\ (end_ < cur + w)%nat) \/ exists z, signed_range w z /\ slice buf cur w = put_signed w z
    /\ (cur + w <= end_)%nat /\ r = Some (Some (z, null_view, (cur + w)%nat)).
Proof.
  intros Hb Hc Hw Hrd <-. destruct (Nat.ltb_spec (end_ - cur) w); [left; split; [done | lia]|].
  rewrite Hrd by lia. right. exists (to_signed w (be_get (slice buf cur w))).
  destruct (signed_put w (slice buf cur w)) as [R E]; [done | by apply slice_bytes | apply slice_length; lia|].
  split_and!; [done | by symmetry | lia | done].
Qed.

(** Reading a value never leaves the buffer, and what it accepts is the
    encoding of the value it reports. *)
Lemma header_value_inv buf cur end_ vt : is_bytes buf -> (cur <= end_ <= length buf)%nat ->
  header_value buf cur end_ vt = Some None \/
  exists v, value_wf v /\ vtype v = vt /\ slice buf cur (length (vbytes v)) = vbytes v
    /\ (cur + length (vbytes v) <= end_)%nat
    /\ header_value buf cur end_ vt = Some (Some (vint v, vview cur v, (cur + length (vbytes v))%nat)).
Proof.
  intros Hb Hc. unfold header_value.
  assert (forall w z, length (put_signed w z) = w) as Lp by (intros; apply be_put_length).
  destruct (Z.eqb_spec vt AWS_ES_HDR_BOOL_TRUE) as [->|_].
  { right. exists (VBool true). cbn [vbytes length]. rewrite Nat.add_0_r. split_and!; (done || lia). }
  destruct (Z.eqb_spec vt AWS_ES_HDR_BOOL_FALSE) as [->|_].
  { right. exists (VBool false). cbn [vbytes length]. rewrite Nat.add_0_r. split_and!; (done || lia). }
  destruct (Z.eqb_spec vt AWS_ES_HDR_INT8) as [->|_].
  { edestruct (int_value_some buf cur end_ 1) as [[E _]|(z & ? & ? & ? & E)];
      [done | done | lia | apply (rd_u8_slice buf cur Hb) | reflexivity | by left |].
    right. exists (VInt8 z). cbn [vbytes]. rewrite Lp. by split_and!. }
  destruct (Z.eqb_spec vt AWS_ES_HDR_INT16) as [->|_].
  { edestruct (int_value_some buf cur end_ 2) as [[E _]|(z & ? & ? & ? & E)];
      [done | done | lia | apply (rd_u16be_slice buf cur Hb) | reflexivity | by left |].
    right. exists (VInt16 z). cbn [vbytes]. rewrite Lp. by split_and!. }
  destruct (Z.eqb_spec vt AWS_ES_HDR_INT32) as [->|_].
  { edestruct (int_value_some buf cur end_ 4) as [[E _]|(z & ? & ? & ? & E)];
      [done | done | lia | apply (rd_u32be_slice buf cur Hb) | reflexivity | by left |].
    right. exists (VInt32 z). cbn [vbytes]. rewrite Lp. by split_and!. }
  destruct ((vt =? AWS_ES_HDR_INT64) || (vt =? AWS_ES_HDR_TIMESTAMP)) eqn:T.
  { edestruct (int_value_some buf cur end_ 8) as [[E _]|(z & ? & ? & ? & E)];
      [done | done | lia | apply (rd_u64be_slice buf cur Hb) | reflexivity | by left |].
    right. apply orb_true_iff in T as [->%Z.eqb_eq | ->%Z.eqb_eq];
      [exists (VInt64 z) | exists (VTimestamp z)]; cbn [vbytes]; rewrite Lp; by split_and!. }
  clear T. destruct ((vt =? AWS_ES_HDR_BYTES) || (vt =? AWS_ES_HDR_STRING)) eqn:T.
  - destruct (Nat.ltb_spec (end_ - cur) 2); [by left|].
    rewrite (rd_u16be_slice buf cur Hb) by lia. cbn [mbind option_bind].
    pose proof (slice_bytes buf cur 2 Hb) as B2. pose proof (slice_length buf cur 2 ltac:(lia)) as L2.
    pose proof (be_get_range _ B2) as R. unfold zlen in R. rewrite L2 in R.
    destruct (Nat.ltb_spec (end_ - (cur + 2)) (Z.to_nat (be_get (slice buf cur 2)))) as [|Hf]; [by left|].
    set (n := Z.to_nat (be_get (slice buf cur 2))) in *. set (l := slice buf (cur + 2) n).
    assert (length l = n) as Ln by (apply slice_length; lia).
    assert (zlen l = be_get (slice buf cur 2)) as Lz by (unfold zlen; rewrite Ln; unfold n; lia).
    assert (length (be_put 2 (zlen l) ++ l) = (2 + n)%nat) as Lb by (rewrite length_app, be_put_length, Ln; done).
    assert (slice buf cur (2 + n) = be_put 2 (zlen l) ++ l) as Es.
    { rewrite slice_add. f_equal. rewrite Lz. rewrite <- L2 at 2. by rewrite be_put_get. }
    right. apply orb_true_iff in T as [->%Z.eqb_eq | ->%Z.eqb_eq];
      [exists (VBytes l) | exists (VString l)]; cbn [vbytes value_wf vview vint]; rewrite Lb, Lz, Ln, ?Nat.add_assoc;
      split_and!; try done; (lia || (rewrite <- Lz; exact Es)).
  - destruct (Z.eqb_spec vt AWS_ES_HDR_UUID) as [->|_]; [|by left].
    destruct (Nat.ltb_spec (end_ - cur) 16); [by left|].
    right. exists (VUuid (slice buf cur 16)). pose proof (slice_length buf cur 16 ltac:(lia)) as L16.
    cbn [vbytes value_wf vview vint]. rewrite L16. split_and!; (done || lia).
Qed.

(** A value's encoding is read back as that value. *)
Lemma header_value_enc buf cur end_ v : is_bytes buf -> (end_ <= length buf)%nat -> value_wf v ->
  (cur + length (vbytes v) <= end_)%nat -> slice buf cur (length (vbytes v)) = vbytes v ->
  header_value buf cur end_ (vtype v) = Some (Some (vint v, vview cur v, (cur + length (vbytes v))%nat)).
Proof.
  intros Hb He Hv Hc Hs.
  assert (forall w z rd, (0 < w)%nat -> signed_range w z -> (cur + w <= end_)%nat -> slice buf cur w = put_signed w z ->
    rd = Some (be_get (slice buf cur w)) ->
    (if (end_ - cur <? w)%nat then Some None
     else v ← rd; Some (Some (to_signed w v, null_view, (cur + w)%nat)))
    = Some (Some (z, null_view, (cur + w)%nat))) as Int.
  { intros w z rd Hw R Hcw E ->. destruct (Nat.ltb_spec (end_ - cur) w); [lia|]. cbn [mbind option_bind].
    by rewrite E, signed_get. }
  assert (forall w z, length (put_signed w z) = w) as Lp by (intros; apply be_put_length).
  assert (forall l, zlen l < 2 ^ 16 -> (cur + (2 + length l) <= end_)%nat -> slice buf cur (2 + length l) = be_put 2 (zlen l) ++ l ->
    (if (end_ - cur <? 2)%nat then Some None
     else vlen ← rd_u16be buf cur;
       if (end_ - (cur + 2) <? Z.to_nat vlen)%nat then Some None
       else Some (Some (0, {| ptr := Some (cur + 2)%nat; len := Z.to_nat vlen |}, (cur + 2 + Z.to_nat vlen)%nat)))
    = Some (Some (0, {| ptr := Some (cur + 2)%nat; len := length l |}, (cur + (2 + length l))%nat))) as Blob.
  { intros l Hl Hcl E. rewrite slice_add in E. apply app_inj_length in E as [E _];
      [|rewrite slice_length by lia; done].
    destruct (Nat.ltb_spec (end_ - cur) 2); [lia|]. rewrite (rd_u16be_slice buf cur Hb) by lia. rewrite E.
    rewrite be_get_put by (change (256 ^ Z.of_nat 2) with (2 ^ 16); unfold zlen in *; lia). cbn [mbind option_bind].
    unfold zlen. rewrite Nat2Z.id. destruct (Nat.ltb_spec (end_ - (cur + 2)) (length l)); [lia|].
    by rewrite Nat.add_assoc. }
  destruct v as [[]|z|z|z|z|l|l|z|l]; cbn [vbytes vint vview vtype value_wf] in *;
    rewrite ?Lp, ?(length_app (be_put 2 _)), ?be_put_length in Hs, Hc; rewrite ?Lp, ?(length_app (be_put 2 _)), ?be_put_length;
    unfold header_value; cbn [Z.eqb Pos.eqb orb AWS_ES_HDR_BOOL_TRUE AWS_ES_HDR_BOOL_FALSE AWS_ES_HDR_INT8 AWS_ES_HDR_INT16
      AWS_ES_HDR_INT32 AWS_ES_HDR_INT64 AWS_ES_HDR_BYTES AWS_ES_HDR_STRING AWS_ES_HDR_TIMESTAMP AWS_ES_HDR_UUID].
  - by rewrite Nat.add_0_r.
  - by rewrite Nat.add_0_r.
  - apply Int; [lia | done..|]. apply rd_u8_slice; [done | lia].
  - apply Int; [lia | done..|]. apply rd_u16be_slice; [done | lia].
  - apply Int; [lia | done..|]. apply rd_u32be_slice; [done | lia].
  - apply Int; [lia | done..|]. apply rd_u64be_slice; [done | lia].
  - by apply Blob.
  - by apply Blob.
  - apply Int; [lia | done..|]. apply rd_u64be_slice; [done | lia].
  - rewrite Hv in *. by destruct (Nat.ltb_spec (end_ - cur) 16); [lia|].
Qed.

(** ** The header loop *)

(** The body of one round, from a header's first byte. *)
Lemma header_loop_step fuel buf cur end_ out : is_bytes buf -> (cur < end_)%nat -> (end_ <= length buf)%nat ->
  header_loop (S fuel) buf cur end_ out = Some (-1, out) \/
  exists h, header_wf h /\ slice buf cur (length (enc_header h)) = enc_header h
    /\ (cur + length (enc_header h) <= end_)%nat
    /\ header_loop (S fuel) buf cur end_ out
       = header_loop fuel buf (cur + length (enc_header h)) end_ (capture out (header_at cur h)).
Proof.
  intros Hb Hc He. cbn [header_loop]. rewrite (proj2 (Nat.ltb_lt cur end_) Hc). cbn [negb].
  destruct (Nat.ltb_spec (end_ - cur) 1); [lia|].
  destruct (slice_cons buf cur 0 ltac:(lia)) as (a & Ea & _). rewrite Ea. cbn [mbind option_bind].
  assert (is_byte a) as Ba by (eapply Forall_lookup_1; [exact Hb | exact Ea]). unfold is_byte in Ba.
  destruct (Nat.ltb_spec (end_ - (cur + 1)) (Z.to_nat a)); [by left|].
  destruct (Nat.ltb_spec (end_ - (cur + 1 + Z.to_nat a)) 1); [by left|].
  set (q := (cur + 1 + Z.to_nat a)%nat) in *.
  destruct (slice_cons buf q 0 ltac:(lia)) as (t & Et & _). rewrite Et. cbn [mbind option_bind].
  destruct (header_value_inv buf (q + 1) end_ t Hb ltac:(lia)) as [E|(v & Wv & Tv & Sv & Lv & E)];
    rewrite E; cbn [mbind option_bind]; [by left|]. right.
  set (n := slice buf (cur + 1) (Z.to_nat a)).
  assert (length n = Z.to_nat a) as Ln by (apply slice_length; lia).
  exists (n, v). unfold header_at, value_at. rewrite enc_header_length. cbn [fst snd]. rewrite Ln, Tv.
  split_and!.
  - split; cbn [fst snd]; [lia | done].
  - unfold enc_header. cbn [fst snd]. rewrite Ln, Z2Nat.id by lia.
    replace (2 + Z.to_nat a + length (vbytes v))%nat with (S (Z.to_nat a + S (length (vbytes v)))) by lia.
    destruct (slice_cons buf cur (Z.to_nat a + S (length (vbytes v))) ltac:(lia)) as (a' & Ea' & ->).
    rewrite Ea in Ea'. injection Ea' as <-. f_equal. replace (S cur) with (cur + 1)%nat by lia.
    rewrite slice_add. f_equal. fold q.
    destruct (slice_cons buf q (length (vbytes v)) ltac:(lia)) as (t' & Et' & ->).
    rewrite Et in Et'. injection Et' as <-. rewrite Tv. f_equal. replace (S q) with (q + 1)%nat by lia. exact Sv.
  - unfold q in *. lia.
  - fold q. f_equal. unfold q. lia.
Qed.

(** The same, knowing which header is there. *)
Lemma header_loop_enc fuel buf cur end_ out h : is_bytes buf -> (end_ <= length buf)%nat -> header_wf h ->
  (cur + length (enc_header h) <= end_)%nat -> slice buf cur (length (enc_header h)) = enc_header h ->
  header_loop (S fuel) buf cur end_ out
  = header_loop fuel buf (cur + length (enc_header h)) end_ (capture out (header_at cur h)).
Proof.
  intros Hb He [Wn Wv] Hc Hs. rewrite enc_header_length in *. destruct h as [n v]; cbn [fst snd] in *.
  replace (2 + length n + length (vbytes v))%nat with (S (length n + S (length (vbytes v)))) in Hs by lia.
  destruct (slice_cons buf cur (length n + S (length (vbytes v))) ltac:(lia)) as (a & Ea & Es). rewrite Es in Hs.
  unfold enc_header in Hs. cbn [fst snd] in Hs. injection Hs as Ha Hs. rewrite slice_add in Hs.
  apply app_inj_length in Hs as [_ Hs]; [|apply slice_length; lia].
  destruct (slice_cons buf (S cur + length n) (length (vbytes v)) ltac:(lia)) as (t & Et & Es2). rewrite Es2 in Hs.
  injection Hs as Ht Hs. cbn [header_loop].
  destruct (Nat.ltb_spec cur end_); [|lia]. cbn [negb]. destruct (Nat.ltb_spec (end_ - cur) 1); [lia|].
  rewrite Ea, Ha. cbn [mbind option_bind]. rewrite Nat2Z.id.
  destruct (Nat.ltb_spec (end_ - (cur + 1)) (length n)); [lia|].
  destruct (Nat.ltb_spec (end_ - (cur + 1 + length n)) 1); [lia|].
  replace (S cur) with (cur + 1)%nat in * by lia. rewrite Et, Ht. cbn [mbind option_bind].
  rewrite (header_value_enc buf _ end_ v); [|done | lia | done | lia | rewrite <- Hs at 2; f_equal; lia].
  cbn [mbind option_bind]. unfold header_at, value_at. cbn [fst snd]. f_equal. lia.
Qed.

Lemma loop_inv fuel buf cur end_ out : is_bytes buf -> (cur <= end_ <= length buf)%nat -> (end_ - cur < fuel)%nat ->
  (exists out', header_loop fuel buf cur end_ out = Some (-1, out')) \/
  exists hs, Forall header_wf hs /\ slice buf cur (end_ - cur) = enc_headers hs
    /\ header_loop fuel buf cur end_ out = Some (0, fold_left capture (place cur hs) out).
Proof.
  intros Hb. revert cur out. induction fuel as [|fuel IH]; intros cur out Hc Hf; [lia|].
  destruct (decide (cur < end_)%nat) as [Hlt|Hge].
  - destruct (header_loop_step fuel buf cur end_ out Hb Hlt ltac:(lia)) as [->|(h & Wh & Sh & Lh & ->)]; [by left; eauto|].
    pose proof (enc_header_length h). destruct (IH (cur + length (enc_header h))%nat (capture out (header_at cur h)))
      as [?|(hs & Wh' & Sh' & ->)]; [lia | lia | by left|].
    right. exists (h :: hs). split_and!; [by constructor | | done].
    replace (end_ - cur)%nat with (length (enc_header h) + (end_ - (cur + length (enc_header h))))%nat by lia.
    by rewrite slice_add, Sh, Sh'.
  - right. exists []. cbn [header_loop]. destruct (Nat.ltb_spec cur end_); [lia|].
    split_and!; [done | | done]. by replace (end_ - cur)%nat with 0%nat by lia.
Qed.

Lemma loop_enc hs fuel buf cur end_ out : is_bytes buf -> (cur <= end_ <= length buf)%nat -> (end_ - cur < fuel)%nat ->
  Forall header_wf hs -> slice buf cur (end_ - cur) = enc_headers hs ->
  header_loop fuel buf cur end_ out = Some (0, fold_left capture (place cur hs) out).
Proof.
  intros Hb. revert fuel cur out. induction hs as [|h hs IH]; intros fuel cur out Hc Hf Hw Hs.
  - pose proof (slice_length buf cur (end_ - cur) ltac:(lia)) as L. rewrite Hs in L. cbn in L.
    destruct fuel as [|fuel]; [lia|]. cbn [header_loop]. by destruct (Nat.ltb_spec cur end_); [lia|].
  - apply Forall_cons in Hw as [Wh Hw]. change (enc_headers (h :: hs)) with (enc_header h ++ enc_headers hs) in Hs.
    apply slice_split in Hs as (S1 & S2 & L); [|lia]. pose proof (enc_header_length h).
    destruct fuel as [|fuel]; [lia|]. rewrite (header_loop_enc fuel buf cur end_ out h) by (done || lia).
    cbn [place fold_left]. apply IH; [lia | lia | done |]. rewrite <- S2. f_equal. lia.
Qed.

(** What the captures add up to: the first 32 headers. *)
Lemma capture_all hs out : (length (headers out) <= AWS_ES_MAX_HEADERS)%nat ->
  (headers_truncated out = true -> length (headers out) = AWS_ES_MAX_HEADERS) ->
  fold_left capture hs out =
  {| headers := take AWS_ES_MAX_HEADERS (headers out ++ hs);
     headers_truncated := headers_truncated out || (AWS_ES_MAX_HEADERS <? length (headers out) + length hs)%nat;
     payload := payload out; msg_type := msg_type out; message_type := message_type out;
     event_type := event_type out; content_type := content_type out; exception_type := exception_type out;
     error_code := error_code out; error_message := error_message out |}.
Proof.
  revert out. induction hs as [|h hs IH]; intros out Hl Ht; cbn [fold_left].
  - rewrite app_nil_r, take_ge by lia. cbn [length]. rewrite Nat.add_0_r.
    destruct (Nat.ltb_spec AWS_ES_MAX_HEADERS (length (headers out))); [lia|]. rewrite orb_false_r. by destruct out.
  - unfold capture at 2, n_headers. destruct (Nat.ltb_spec (length (headers out)) AWS_ES_MAX_HEADERS).
    + rewrite IH; cbn [headers headers_truncated payload msg_type message_type event_type content_type
        exception_type error_code error_message]; rewrite length_app; cbn [length].
      * f_equal; [by rewrite <- app_assoc | f_equal; f_equal; lia].
      * lia.
      * intros E. specialize (Ht E). lia.
    + rewrite IH; cbn [headers headers_truncated payload msg_type message_type event_type content_type
        exception_type error_code error_message length]; [|lia..].
      rewrite !take_app_le by lia. f_equal. cbn [orb]. symmetry. apply orb_true_iff. right. apply Nat.ltb_lt. lia.
Qed.

(** ** Frames and what is reported of them *)

Definition frame_body (hs : list header) (pl : bytes) : bytes :=
  let e := enc_headers hs in
  let prelude := be_put 4 (16 + zlen e + zlen pl) ++ be_put 4 (zlen e) in
  prelude ++ be_put 4 (aws_es_crc32 prelude) ++ e ++ pl.

Definition frame (hs : list header) (pl : bytes) : bytes :=
  frame_body hs pl ++ be_put 4 (aws_es_crc32 (frame_body hs pl)).

Definition frame_ok (hs : list header) (pl : bytes) : Prop :=
  Forall header_wf hs /\ zlen (frame hs pl) <= AWS_ES_MAX_MESSAGE.

(** The message reported for a frame: the first 32 headers with their offsets,
    the payload's place, and the classification by header names and by the
    text of the message type. *)
Definition header_index (hs : list header) (s : bytes) : option nat :=
  fst <$> list_find (fun h => h.1 = s) hs.

Definition described (hs : list header) (pl : bytes) : aws_es_message_t :=
  let cap := take AWS_ES_MAX_HEADERS hs in
  let find := fun s => header_index cap (str s) in
  {| headers := place 12 cap;
     headers_truncated := (AWS_ES_MAX_HEADERS <? length hs)%nat;
     payload := {| ptr := if bool_decide (pl = []) then None else Some (12 + length (enc_headers hs))%nat;
                   len := length pl |};
     msg_type :=
       match find ":message-type"%string ≫= (fun i => cap !! i) with
       | Some (_, VString l) =>
           if bytes_eqb l (str "event") then AWS_ES_MSG_EVENT
           else if bytes_eqb l (str "exception") then AWS_ES_MSG_EXCEPTION
           else if bytes_eqb l (str "error") then AWS_ES_MSG_ERROR
           else AWS_ES_MSG_UNKNOWN
       | _ => AWS_ES_MSG_UNKNOWN
       end;
     message_type := find ":message-type"%string;
     event_type := find ":event-type"%string;
     content_type := find ":content-type"%string;
     exception_type := find ":exception-type"%string;
     error_code := find ":error-code"%string;
     error_message := find ":error-message"%string |}.

Lemma place_take n p hs : take n (place p hs) = place p (take n hs).
Proof. revert p n. induction hs as [|h hs IH]; intros p [|n]; cbn; [done..|]. by rewrite IH. Qed.

Lemma place_length p hs : length (place p hs) = length hs.
Proof. revert p. induction hs as [|h hs IH]; intros p; cbn; [done|]. by rewrite IH. Qed.

(** The bytes of a list of headers are where [place] says. *)
Definition lies (buf : bytes) (p : nat) (hs : list header) : Prop :=
  slice buf p (length (enc_headers hs)) = enc_headers hs
  /\ (p + length (enc_headers hs) <= length buf)%nat.

Lemma lies_cons buf p h hs : lies buf p (h :: hs) ->
  lies buf p [h] /\ lies buf (p + length (enc_header h)) hs.
Proof.
  unfold lies. change (enc_headers (h :: hs)) with (enc_header h ++ enc_headers hs).
  change (enc_headers [h]) with (enc_header h ++ []). rewrite !app_nil_r. intros [E L].
  apply slice_split in E as (E1 & E2 & _); [|done]. rewrite !length_app in *.
  replace (length (enc_header h) + length (enc_headers hs) - length (enc_header h))%nat
    with (length (enc_headers hs)) in E2 by lia. split_and!; (done || lia).
Qed.

Lemma lies_take buf p hs n : lies buf p hs -> lies buf p (take n hs).
Proof.
  rewrite <- (take_drop n hs) at 1. unfold lies, enc_headers. rewrite map_app, concat_app. intros [E L].
  apply slice_split in E as (E1 & _ & _); [|done]. rewrite length_app in L. split; [done | lia].
Qed.

Lemma view_eq buf p n l s : slice buf p n = l -> length l = n ->
  name_eq buf {| ptr := Some p; len := n |} s = bytes_eqb l s.
Proof.
  intros E L. unfold name_eq. cbn [ptr len]. destruct (Nat.eqb_spec n (length s)) as [->|Hn]; cbn [andb].
  - by rewrite E.
  - symmetry. apply bytes_eqb_false. congruence.
Qed.

Lemma slice_inside buf p n a b c : slice buf p n = a ++ b ++ c -> (p + n <= length buf)%nat ->
  slice buf (p + length a) (length b) = b.
Proof.
  intros E L. apply slice_split in E as (_ & E & Hn); [|done].
  apply slice_split in E as (E & _ & _); [done | lia].
Qed.

Lemma lies_name buf p h s : lies buf p [h] -> name_eq buf (name (header_at p h)) s = bytes_eqb h.1 s.
Proof.
  intros [E L]. apply view_eq; [|done].
  refine (slice_inside buf p _ [_] h.1 _ _ L). rewrite E. apply app_nil_r.
Qed.

Lemma lies_string buf p n l s : lies buf p [(n, VString l)] ->
  name_eq buf (value (header_at p (n, VString l))) s = bytes_eqb l s.
Proof.
  intros [E L]. apply view_eq; [|done].
  replace (value_at p (n, VString l) + 2)%nat
    with (p + length ((Z.of_nat (length n) :: n ++ [7%Z]) ++ be_put 2 (zlen l)))%nat
    by (rewrite length_app, be_put_length; cbn [length]; rewrite length_app; unfold value_at; cbn [fst length]; lia).
  refine (slice_inside buf p _ _ l [] _ L). rewrite E. unfold enc_headers, enc_header. cbn [map concat fst snd vbytes vtype].
  by rewrite !app_nil_r, <- !app_comm_cons, <- !app_assoc.
Qed.

Lemma find_place buf p hs s : lies buf p hs ->
  fst <$> list_find (fun h => name_eq buf (name h) s = true) (place p hs) = header_index hs s.
Proof.
  unfold header_index. revert p. induction hs as [|h hs IH]; intros p L; [done|].
  apply lies_cons in L as [Lh L]. cbn [place list_find]. pose proof (lies_name buf p h s Lh) as E.
  destruct (decide (h.1 = s)) as [Hs|Hs].
  - rewrite decide_True; [done|]. rewrite E. by apply bytes_eqb_true.
  - rewrite decide_False by (rewrite E, bytes_eqb_true; done). specialize (IH _ L).
    destruct (list_find _ (place _ hs)) as [[i ?]|], (list_find _ hs) as [[j ?]|]; cbn in *; congruence.
Qed.

Lemma place_lookup buf p hs i : lies buf p hs ->
  match hs !! i with
  | Some h => exists q, place p hs !! i = Some (header_at q h) /\ lies buf q [h]
  | None => place p hs !! i = None
  end.
Proof.
  revert p i. induction hs as [|h hs IH]; intros p i L; [done|]. apply lies_cons in L as [Lh L].
  destruct i as [|i]; cbn [place lookup list_lookup]; [eauto | apply IH, L].
Qed.

(** The whole classification of a frame's headers. *)
Lemma classify_described buf hs pl out : lies buf 12 hs ->
  headers out = place 12 (take AWS_ES_MAX_HEADERS hs) ->
  headers_truncated out = (AWS_ES_MAX_HEADERS <? length hs)%nat ->
  payload out = payload (described hs pl) -> classify buf out = described hs pl.
Proof.
  intros L Eh Et Ep. apply (lies_take _ _ _ AWS_ES_MAX_HEADERS) in L.
  assert (forall s, find_header buf out s = header_index (take AWS_ES_MAX_HEADERS hs) s) as F
    by (intros s; unfold find_header; rewrite Eh; by apply find_place).
  unfold classify. rewrite !F, Eh, Et, Ep. unfold described. f_equal.
  destruct (header_index (take AWS_ES_MAX_HEADERS hs) (str ":message-type")) as [i|]; cbn [mbind option_bind]; [|done].
  pose proof (place_lookup buf 12 (take AWS_ES_MAX_HEADERS hs) i L) as Q.
  destruct (take AWS_ES_MAX_HEADERS hs !! i) as [[n v]|]; [|by rewrite Q]. destruct Q as (q & -> & Lq).
  destruct v as [[]|z|z|z|z|l|l|z|l]; try done. cbn [value_type header_at vtype snd]. by rewrite !(lies_string buf q n l _ Lq).
Qed.

(** ** CRC values fit 32 bits *)

Lemma lxor_range n a b : 0 <= n -> 0 <= a < 2 ^ n -> 0 <= b < 2 ^ n -> 0 <= Z.lxor a b < 2 ^ n.
Proof.
  intros Hn Ha Hb. assert (0 <= Z.lxor a b) as H0 by (apply Z.lxor_nonneg; lia). split; [done|].
  destruct (decide (Z.lxor a b = 0)) as [->|Hz]; [lia|]. apply Z.log2_lt_pow2; [lia|].
  pose proof (Z.log2_lxor a b ltac:(lia) ltac:(lia)) as L.
  assert (forall x, 0 <= x < 2 ^ n -> Z.lxor a b <> 0 -> 0 < n -> Z.log2 x < n) as Hx.
  { intros x Hx _ Hp. destruct (decide (x = 0)) as [->|]; [done|]. apply Z.log2_lt_pow2; lia. }
  assert (0 < n) as Hp.
  { destruct (decide (n = 0)) as [->|]; [|lia]. assert (a = 0) as -> by lia. assert (b = 0) as -> by lia. done. }
  pose proof (Hx a Ha Hz Hp). pose proof (Hx b Hb Hz Hp). lia.
Qed.

Lemma crc_range buf : 0 <= aws_es_crc32 buf < 2 ^ 32.
Proof.
  unfold aws_es_crc32. apply lxor_range; [lia | | lia].
  assert (forall crc, 0 <= crc < 2 ^ 32 -> 0 <= fold_left crc_byte buf crc < 2 ^ 32) as H; [|apply H; lia].
  induction buf as [|b buf IH]; intros crc Hc; [done|]. cbn [fold_left]. apply IH.
  unfold crc_byte. apply lxor_range; [lia | | rewrite shiftr_div by lia; change (2 ^ 8) with 256; change (2 ^ 32) with 4294967296 in *; dm_lia].
  assert (Forall (fun v => 0 <= v < 2 ^ 32) k_crc32_table) as F
    by (apply (Forall_check _ (fun v => (0 <=? v) && (v <? 2 ^ 32))); [intros x Hx; apply andb_true_iff in Hx as [?%Z.leb_le ?%Z.ltb_lt]; lia | vm_compute; reflexivity]).
  rewrite Forall_lookup in F. rewrite nth_lookup.
  destruct (k_crc32_table !! _) as [v|] eqn:E; [exact (F _ _ E) | cbn; lia].
Qed.

(** ** Decoding *)

(** Too few bytes: no whole prelude, or an acceptable length beyond them. *)
Definition incomplete (buf : bytes) : Prop :=
  (length buf < 12)%nat \/
  (AWS_ES_FRAMING_OVERHEAD <= be_get (slice buf 0 4) <= AWS_ES_MAX_MESSAGE /\ zlen buf < be_get (slice buf 0 4)).

Lemma frame_length hs pl : zlen (frame hs pl) = 16 + zlen (enc_headers hs) + zlen pl.
Proof.
  unfold frame, frame_body. rewrite !zlen_app.
  assert (forall v, zlen (be_put 4 v) = 4) as L by (intros; unfold zlen; by rewrite be_put_length). rewrite !L. lia.
Qed.

Lemma slice_at buf a b c p n : buf = a ++ b ++ c -> p = length a -> n = length b -> slice buf p n = b.
Proof. intros -> -> ->. apply slice_mid. Qed.

(** Where the parts of a frame are. *)
Lemma frame_layout hs pl rest :
  let buf := frame hs pl ++ rest in
  let body := frame_body hs pl in
  let e := enc_headers hs in
  let pre := be_put 4 (16 + zlen e + zlen pl) ++ be_put 4 (zlen e) in
  length body = (12 + length e + length pl)%nat /\ length buf = (16 + length e + length pl + length rest)%nat
  /\ slice buf 0 4 = be_put 4 (16 + zlen e + zlen pl) /\ slice buf 4 4 = be_put 4 (zlen e)
  /\ slice buf 8 4 = be_put 4 (aws_es_crc32 pre) /\ take 8 buf = pre
  /\ take (length body) buf = body /\ slice buf (length body) 4 = be_put 4 (aws_es_crc32 body)
  /\ lies buf 12 hs.
Proof.
  intros buf body e pre. set (T := 16 + zlen e + zlen pl) in *.
  assert (buf = be_put 4 T ++ be_put 4 (zlen e) ++ be_put 4 (aws_es_crc32 pre) ++ e ++ pl
    ++ be_put 4 (aws_es_crc32 body) ++ rest) as EB.
  { unfold buf, frame. fold body. unfold body at 1, frame_body. fold e. fold T. fold pre. unfold pre at 1.
    by rewrite <- !app_assoc. }
  assert (length body = (12 + length e + length pl)%nat) as LB
    by (unfold body, frame_body; rewrite !length_app, !be_put_length; fold e; lia).
  assert (length buf = (16 + length e + length pl + length rest)%nat) as BL
    by (rewrite EB, !length_app, !be_put_length; lia).
  assert (length pre = 8%nat) as Lp by (unfold pre; by rewrite length_app, !be_put_length).
  split_and!; [done | done | | | | | | |].
  - apply (slice_at buf [] _ _ _ _ EB); [done | by rewrite be_put_length].
  - apply (slice_at buf (be_put 4 T) _ _ _ _ EB); by rewrite be_put_length.
  - eapply (slice_at buf pre); [unfold pre; rewrite <- app_assoc; exact EB | done | by rewrite be_put_length].
  - rewrite EB, app_assoc. fold pre. by apply take_app_length'.
  - unfold buf, frame. fold body. rewrite <- app_assoc. by apply take_app_length'.
  - eapply (slice_at buf body); [unfold buf, frame; fold body; by rewrite <- app_assoc | done | by rewrite be_put_length].
  - split; [|fold e; lia]. fold e.
    eapply (slice_at buf (pre ++ be_put 4 (aws_es_crc32 pre)) e);
      [rewrite EB; unfold pre at 2; rewrite <- !app_assoc; reflexivity | | done].
    by rewrite length_app, be_put_length, Lp.
Qed.

(** The decoder on a whole frame. *)
Lemma frame_decodes hs pl rest : frame_ok hs pl -> is_bytes (frame hs pl ++ rest) ->
  aws_es_decode (Some (frame hs pl ++ rest)) = Some (AWS_ES_OK, described hs pl, zlen (frame hs pl)).
Proof.
  intros [Hw Hm] Hb. pose proof (frame_length hs pl) as FL.
  destruct (frame_layout hs pl rest) as (LB & BL & S0 & S4 & S8 & P8 & PB & SB & Lh).
  set (buf := frame hs pl ++ rest) in *. set (e := enc_headers hs) in *. set (T := 16 + zlen e + zlen pl) in *.
  set (body := frame_body hs pl) in *. unfold AWS_ES_MAX_MESSAGE in *.
  assert (T = Z.of_nat (16 + length e + length pl)) as Tn by (unfold T, zlen; lia).
  assert (forall v, 0 <= v < 2 ^ 32 -> be_get (be_put 4 v) = v) as G4
    by (intros v Hv; apply be_get_put; exact Hv).
  unfold aws_es_decode. destruct (Nat.ltb_spec (length buf) 12); [lia|].
  rewrite !(rd_u32be_slice buf _ Hb) by lia.
  rewrite S0, S4, S8, !G4 by (apply crc_range || (unfold zlen; lia) || lia). cbn [mbind option_bind].
  destruct (Z.ltb_spec T AWS_ES_FRAMING_OVERHEAD); [unfold AWS_ES_FRAMING_OVERHEAD in *; lia|].
  destruct (Z.ltb_spec AWS_ES_MAX_MESSAGE T); [unfold AWS_ES_MAX_MESSAGE in *; lia|].
  destruct (Z.ltb_spec (zlen buf) T); [unfold zlen in *; lia|]. rewrite P8, Z.eqb_refl. cbn [negb].
  replace (Z.to_nat (T - 4)) with (length body) by lia.
  rewrite (rd_u32be_slice buf _ Hb) by lia. rewrite SB, G4 by apply crc_range. cbn [mbind option_bind].
  rewrite PB, Z.eqb_refl. cbn [negb]. unfold AWS_ES_FRAMING_OVERHEAD.
  destruct (Z.ltb_spec T (zlen e + 16)); [unfold zlen in *; lia|].
  replace (Z.to_nat (zlen e)) with (length e) by (unfold zlen; lia). unfold parse_headers.
  rewrite (loop_enc hs) by
    (done || lia || (replace (12 + length e - 12)%nat with (length e) by lia; apply Lh)).
  cbn [mbind option_bind Z.eqb negb]. rewrite capture_all by (cbn; unfold AWS_ES_MAX_HEADERS; lia || done).
  f_equal. f_equal; [|lia]. f_equal. replace (T - zlen e - 16) with (zlen pl) by lia.
  apply classify_described; [done | apply place_take | cbn [headers_truncated set_payload zero_message orb headers length];
    by rewrite place_length |].
  cbn [payload set_payload described]. fold e. f_equal; [|unfold zlen; lia].
  case_bool_decide as Hp; [by rewrite Hp|]. destruct (Z.eqb_spec (zlen pl) 0) as [E0|]; [|done].
  by apply zlen_0 in E0.
Qed.

(** A buffer whose checks all pass starts with a frame. *)
Lemma checks_give_frame buf hs : let T := be_get (slice buf 0 4) in let H := be_get (slice buf 4 4) in
  is_bytes buf -> T <= zlen buf -> H + 16 <= T ->
  aws_es_crc32 (take 8 buf) = be_get (slice buf 8 4) ->
  aws_es_crc32 (take (Z.to_nat (T - 4)) buf) = be_get (slice buf (Z.to_nat (T - 4)) 4) ->
  slice buf 12 (Z.to_nat H) = enc_headers hs ->
  exists pl rest, buf = frame hs pl ++ rest /\ zlen (frame hs pl) = T.
Proof.
  intros T H Hb HT HH C1 C2 E.
  assert (16 <= length buf)%nat as L16.
  { assert (0 <= H) by (apply be_get_range, slice_bytes, Hb). unfold zlen in HT. lia. }
  assert (forall p, (p + 4 <= length buf)%nat -> is_bytes (slice buf p 4) /\ be_put 4 (be_get (slice buf p 4)) = slice buf p 4) as P4.
  { intros p Hp. split; [by apply slice_bytes|]. rewrite <- (slice_length buf p 4 Hp) at 1.
    by apply be_put_get, slice_bytes. }
  assert (0 <= H) as H0 by (apply be_get_range, slice_bytes, Hb).
  set (h := Z.to_nat H) in *. set (n := Z.to_nat (T - H - 16)).
  assert (length (enc_headers hs) = h) as Lh by (rewrite <- E; apply slice_length; unfold zlen in HT; lia).
  assert (length (slice buf (12 + h) n) = n) as Ln by (apply slice_length; unfold zlen in HT; lia).
  exists (slice buf (12 + h) n), (drop (Z.to_nat T) buf).
  assert (16 + zlen (enc_headers hs) + zlen (slice buf (12 + h) n) = T) as ET by (unfold zlen; rewrite Lh, Ln; lia).
  assert (zlen (enc_headers hs) = H) as EH by (unfold zlen; rewrite Lh; lia).
  assert (take (Z.to_nat (T - 4)) buf = frame_body hs (slice buf (12 + h) n)) as EB.
  { unfold frame_body. rewrite ET, EH. unfold T, H at 1 2. rewrite (proj2 (P4 0%nat ltac:(lia))), (proj2 (P4 4%nat ltac:(lia))).
    change (slice buf 0 4 ++ slice buf 4 4) with (slice buf 0 4 ++ slice buf (0 + 4) 4). rewrite <- slice_add.
    change (slice buf 0 (4 + 4)) with (take 8 buf). rewrite C1, (proj2 (P4 8%nat ltac:(lia))), <- E.
    change (take 8 buf) with (slice buf 0 8). rewrite <- (slice_add buf 12 h n).
    change (slice buf 12 (h + n)) with (slice buf (8 + 4) (h + n)). rewrite <- slice_add.
    change (slice buf 8 (4 + (h + n))) with (slice buf (0 + 8) (4 + (h + n))). rewrite <- slice_add.
    fold T. replace (8 + (4 + (h + n)))%nat with (Z.to_nat (T - 4)) by lia. reflexivity. }
  split; [|rewrite frame_length; lia]. unfold frame. rewrite <- EB, C2, (proj2 (P4 (Z.to_nat (T - 4)) ltac:(unfold zlen in HT; lia))).
  change (take (Z.to_nat (T - 4)) buf) with (slice buf 0 (Z.to_nat (T - 4))).
  change (slice buf (Z.to_nat (T - 4)) 4) with (slice buf (0 + Z.to_nat (T - 4)) 4). rewrite <- slice_add.
  unfold slice. rewrite drop_0. replace (Z.to_nat T) with (Z.to_nat (T - 4) + 4)%nat by lia. symmetry. apply take_drop.
Qed.

(** The three outcomes. *)
Lemma decode_cases buf : is_bytes buf ->
  (incomplete buf /\ aws_es_decode (Some buf) = Some (AWS_ES_NEED_MORE, zero_message, 0)) \/
  (~ incomplete buf /\ exists out, aws_es_decode (Some buf) = Some (AWS_ES_ERROR, out, 0)) \/
  (~ incomplete buf /\ exists hs pl rest, frame_ok hs pl /\ buf = frame hs pl ++ rest
    /\ aws_es_decode (Some buf) = Some (AWS_ES_OK, described hs pl, zlen (frame hs pl))).
Proof.
  intros Hb. destruct (decide (length buf < 12)%nat) as [Hs|Hs].
  { left. split; [by left|]. unfold aws_es_decode. by destruct (Nat.ltb_spec (length buf) 12); [|lia]. }
  unfold incomplete.
  set (T := be_get (slice buf 0 4)). set (H := be_get (slice buf 4 4)).
  assert (aws_es_decode (Some buf) =
    if T <? AWS_ES_FRAMING_OVERHEAD then Some (AWS_ES_ERROR, zero_message, 0)
    else if AWS_ES_MAX_MESSAGE <? T then Some (AWS_ES_ERROR, zero_message, 0)
    else if zlen buf <? T then Some (AWS_ES_NEED_MORE, zero_message, 0)
    else if negb (aws_es_crc32 (take 8 buf) =? be_get (slice buf 8 4)) then Some (AWS_ES_ERROR, zero_message, 0)
    else message_crc ← rd_u32be buf (Z.to_nat (T - 4));
      if negb (aws_es_crc32 (take (Z.to_nat (T - 4)) buf) =? message_crc) then Some (AWS_ES_ERROR, zero_message, 0)
      else if T <? H + AWS_ES_FRAMING_OVERHEAD then Some (AWS_ES_ERROR, zero_message, 0)
      else r ← parse_headers buf 12 (12 + Z.to_nat H) zero_message;
        let '(rc, out) := r in
        if negb (rc =? 0) then Some (AWS_ES_ERROR, out, 0)
        else Some (AWS_ES_OK, classify buf (set_payload out
               {| ptr := if T - H - AWS_ES_FRAMING_OVERHEAD =? 0 then None else Some (12 + Z.to_nat H)%nat;
                  len := Z.to_nat (T - H - AWS_ES_FRAMING_OVERHEAD) |}), T)) as E.
  { unfold aws_es_decode. destruct (Nat.ltb_spec (length buf) 12); [lia|].
    by rewrite !(rd_u32be_slice buf _ Hb) by lia. }
  unfold AWS_ES_FRAMING_OVERHEAD, AWS_ES_MAX_MESSAGE in *.
  destruct (Z.ltb_spec T 16) as [|G1]; [right; left; split; [lia | exists zero_message; exact E]|].
  destruct (Z.ltb_spec (16 * 1024 * 1024) T) as [|G2]; [right; left; split; [lia | exists zero_message; exact E]|].
  destruct (Z.ltb_spec (zlen buf) T) as [|G3]; [left; split; [right; lia | done]|].
  rewrite (rd_u32be_slice buf (Z.to_nat (T - 4)) Hb) in E by (unfold zlen in G3; lia). cbn [mbind option_bind] in E.
  destruct (Z.eqb_spec (aws_es_crc32 (take 8 buf)) (be_get (slice buf 8 4))) as [C1|]; [|right; left; split; [lia | exists zero_message; exact E]].
  destruct (Z.eqb_spec (aws_es_crc32 (take (Z.to_nat (T - 4)) buf)) (be_get (slice buf (Z.to_nat (T - 4)) 4))) as [C2|];
    [|right; left; split; [lia | exists zero_message; exact E]]. cbn [negb] in E.
  destruct (Z.ltb_spec T (H + 16)) as [|G4]; [right; left; split; [lia | exists zero_message; exact E]|].
  assert (0 <= H) as H0 by (apply be_get_range, slice_bytes, Hb).
  unfold parse_headers in E. destruct (loop_inv (S (12 + Z.to_nat H - 12)) buf 12 (12 + Z.to_nat H) zero_message Hb) as
    [[out' Ep]|(hs & Wh & Sh & Ep)]; [unfold zlen in G3; lia | lia | |].
  - rewrite Ep in E. right. left. split; [lia | exists out'; exact E].
  - right. right. split; [lia|]. replace (12 + Z.to_nat H - 12)%nat with (Z.to_nat H) in Sh by lia.
    destruct (checks_give_frame buf hs Hb G3 G4 C1 C2 Sh) as (pl & rest & Eb & ET).
    exists hs, pl, rest. assert (frame_ok hs pl) as Fo by (split; [done | rewrite ET; exact G2]).
    split_and!; [done..|]. rewrite Eb. apply frame_decodes; [done | by rewrite <- Eb].
Qed.

(** Whatever the bytes, the decoder reads only inside the buffer and its
    header loop ends: it returns a status, with nothing consumed unless that
    status is OK. *)
Theorem decode_memory_safe (buf : bytes) : is_bytes buf ->
  exists st out n, aws_es_decode (Some buf) = Some (st, out, n) /\ (st = AWS_ES_OK \/ n = 0).
Proof.
  intros Hb. destruct (decode_cases buf Hb) as [[_ E]|[[_ [out E]]|[_ (hs & pl & rest & _ & _ & E)]]];
    rewrite E; do 3 eexists; split; [reflexivity | by right | reflexivity | by right | reflexivity | by left].
Qed.

Lemma decode_memory_safe_witness : exists st out n,
  aws_es_decode (Some (replicate 20 255)) = Some (st, out, n) /\ (st = AWS_ES_OK \/ n = 0).
Proof. apply decode_memory_safe. apply is_bytesb_true. vm_compute. reflexivity. Defined.

(** C19: a buffer decodes to a message exactly when it starts with the frame
    of some well-formed headers and payload no larger than 16 MiB; the call
    consumes exactly that frame and reports its first 32 headers (and whether
    there were more), its payload and its classification, all in place. *)
Theorem decode_ok_iff (buf : bytes) (out : aws_es_message_t) (n : Z) : is_bytes buf ->
  aws_es_decode (Some buf) = Some (AWS_ES_OK, out, n) <->
  exists hs pl rest, frame_ok hs pl /\ buf = frame hs pl ++ rest
    /\ out = described hs pl /\ n = zlen (frame hs pl).
Proof.
  intros Hb. split.
  - intros E. destruct (decode_cases buf Hb) as [[_ E']|[[_ [o E']]|[_ (hs & pl & rest & Fo & Eb & E')]]];
      rewrite E' in E; apply (inj Some) in E; [discriminate E | discriminate E |].
    exists hs, pl, rest. split_and!; [done | done | |].
    + exact (eq_sym (f_equal (fun x => x.1.2) E)).
    + exact (eq_sym (f_equal snd E)).
  - intros (hs & pl & rest & Fo & -> & -> & ->). by apply frame_decodes.
Qed.

Definition sample_headers : list header :=
  [(str ":message-type", VString (str "event")); (str "n", VInt16 (-2)); (str "ok", VBool true)].

Lemma decode_ok_iff_witness :
  aws_es_decode (Some (frame sample_headers [1; 2; 3] ++ [9; 9]))
  = Some (AWS_ES_OK, described sample_headers [1; 2; 3], 50)
  /\ msg_type (described sample_headers [1; 2; 3]) = AWS_ES_MSG_EVENT.
Proof.
  split; [|vm_compute; reflexivity].
  apply (decode_ok_iff (frame sample_headers [1; 2; 3] ++ [9; 9])); [apply is_bytesb_true; vm_compute; reflexivity|].
  exists sample_headers, [1; 2; 3], [9; 9]. split; [|split; [reflexivity | split; [reflexivity | vm_compute; reflexivity]]].
  split; [|vm_compute; discriminate].
  unfold sample_headers. repeat constructor; unfold signed_range; cbn; lia.
Defined.

(** A buffer that is not incomplete holds any frame its extensions start
    with. *)
Lemma frame_cut buf more hs pl rest : frame_ok hs pl -> buf ++ more = frame hs pl ++ rest -> ~ incomplete buf ->
  exists rest', buf = frame hs pl ++ rest'.
Proof.
  intros [_ Hm] Eb Hi. destruct (frame_layout hs pl rest) as (_ & _ & S0 & _). cbn zeta in S0.
  rewrite <- Eb in S0. destruct (decide (length buf < 12)%nat) as [|H12]; [by destruct Hi; left|].
  assert (slice buf 0 4 = slice (buf ++ more) 0 4) as S0'
    by (unfold slice; rewrite !drop_0, take_app_le by lia; done).
  pose proof (frame_length hs pl) as FL. unfold AWS_ES_MAX_MESSAGE in *.
  pose proof (zlen_nonneg (enc_headers hs)). pose proof (zlen_nonneg pl).
  unfold incomplete in Hi. rewrite S0', S0, be_get_put in Hi by (change (256 ^ Z.of_nat 4) with (2 ^ 32); lia).
  rewrite <- FL in Hi. unfold AWS_ES_FRAMING_OVERHEAD, AWS_ES_MAX_MESSAGE in Hi.
  assert (zlen (frame hs pl) <= zlen buf) as Hl by lia.
  exists (take (length buf - length (frame hs pl)) rest). apply (f_equal (take (length buf))) in Eb.
  rewrite take_app_length in Eb. unfold zlen in Hl. by rewrite take_app_ge in Eb by lia.
Qed.

(** More bytes never change a verdict: once the decoder has answered OK
    or ERROR for a buffer, it gives the same status and consumes the same
    bytes for every extension of it, and the same message when OK.  It answers
    NEED_MORE for every proper prefix of a frame. *)
Theorem decode_stream_stable (buf more : bytes) : is_bytes (buf ++ more) ->
  (forall out n, aws_es_decode (Some buf) = Some (AWS_ES_OK, out, n) ->
     aws_es_decode (Some (buf ++ more)) = Some (AWS_ES_OK, out, n)) /\
  (forall out n, aws_es_decode (Some buf) = Some (AWS_ES_ERROR, out, n) ->
     exists out', aws_es_decode (Some (buf ++ more)) = Some (AWS_ES_ERROR, out', 0)) /\
  (forall hs pl, frame_ok hs pl -> frame hs pl = buf ++ more -> more <> [] ->
     aws_es_decode (Some buf) = Some (AWS_ES_NEED_MORE, zero_message, 0)).
Proof.
  intros Hbm. pose proof (proj1 (proj1 (is_bytes_app _ _) Hbm)) as Hb.
  split_and!.
  - intros out n E. destruct (decode_cases buf Hb) as [[_ E']|[[_ [o E']]|[_ (hs & pl & rest & Fo & Eb & E')]]];
      [rewrite E' in E; discriminate (inj Some _ _ E).. |].
    rewrite <- E, E', Eb, <- app_assoc. apply frame_decodes; [done|]. by rewrite app_assoc, <- Eb.
  - intros out n E. destruct (decode_cases buf Hb) as [[_ E']|[[Hi _]|[_ (hs & pl & rest & Fo & Eb & E')]]];
      [rewrite E' in E; discriminate (inj Some _ _ E) | | rewrite E' in E; discriminate (inj Some _ _ E)].
    destruct (decode_cases (buf ++ more) Hbm) as [[Hi' _]|[[_ ?]|[_ (hs & pl & rest & Fo & Eb & _)]]]; [|done|].
    + destruct Hi. unfold incomplete in *. rewrite length_app, zlen_app in Hi'.
      pose proof (zlen_nonneg more). destruct (decide (length buf < 12)%nat); [by left|]. right.
      unfold slice in *. rewrite !drop_0 in *. rewrite take_app_le in Hi' by lia. lia.
    + destruct (frame_cut buf more hs pl rest Fo Eb Hi) as [rest' ->]. rewrite frame_decodes in E by done. discriminate (inj Some _ _ E).
  - intros hs pl Fo Ef Hne. destruct (decode_cases buf Hb) as [[_ E']|Hno]; [done|]. exfalso.
    assert (~ incomplete buf) as Hi by (destruct Hno as [[Hi _]|[Hi _]]; exact Hi).
    destruct (frame_cut buf more hs pl [] Fo ltac:(by rewrite app_nil_r) Hi) as [rest' Eb].
    apply (f_equal length) in Ef, Eb. rewrite length_app in Ef, Eb. destruct more; [done | cbn [length] in Ef; lia].
Qed.

Lemma decode_stream_stable_witness :
  aws_es_decode (Some (take 30 (frame sample_headers [1; 2; 3]))) = Some (AWS_ES_NEED_MORE, zero_message, 0).
Proof.
  apply (decode_stream_stable (take 30 (frame sample_headers [1; 2; 3])) (drop 30 (frame sample_headers [1; 2; 3])))
    with (hs := sample_headers) (pl := [1; 2; 3]).
  - apply is_bytesb_true. vm_compute. reflexivity.
  - split; [|vm_compute; discriminate]. unfold sample_headers. repeat constructor; unfold signed_range; cbn; lia.
  - symmetry. apply take_drop.
  - vm_compute. discriminate.
Defined.

(** An ERROR return can leave captured headers in the message: here the second
    header has a value type that does not exist. *)
Definition bad_second_header : bytes :=
  let prelude := be_put 4 21 ++ be_put 4 5 in
  let body := prelude ++ be_put 4 (aws_es_crc32 prelude) ++ [1; 97; 0; 0; 10] in
  body ++ be_put 4 (aws_es_crc32 body).

Lemma error_keeps_headers : exists out, aws_es_decode (Some bad_second_header) = Some (AWS_ES_ERROR, out, 0)
  /\ out <> zero_message /\ n_headers out = 1%nat.
Proof. eexists. split; [vm_compute; reflexivity | split; [discriminate | reflexivity]]. Qed.
End EventStream.
