(* ===== verification/WormChain.v ===== *)
(** * Audit chain primitives ([src/src/modules/audit/audit_worm_chain.c])

    The row hashes (two versions), the checkpoint MAC and the key file of the
    append-only audit log.  A row's arguments are a record; a null text is
    [None].  The [dstr_t] buffer a message is built in is the list of bytes
    appended to it; the files and the random source are what the system calls
    returned.  Shown: a row hash or a checkpoint MAC determines everything it
    was computed from, unless two named messages collide under SHA-256, and
    the two row versions never share a message. *)

From Stdlib Require Import ZArith Lia String Ascii.
From stdpp Require Import base numbers option list.
From S2P Require Import Prelude.
From S2P Require Import Wire.
From S2P Require Import Digest.

Module WormChain.

Definition AUDIT_WORM_DOMAIN : bytes := str "aimee.audit.worm.v1".
Definition AUDIT_WORM_DOMAIN_V2 : bytes := str "aimee.audit.worm.v2".

(** [snprintf("%lld")] *)
Definition dec_i64 (z : Z) : bytes := if z <? 0 then 45 :: dec_u64 (- z) else dec_u64 z.

Section sha.
Context `{Sha256}.

Definition audit_worm_hex32 (md : bytes) : bytes := hex_bytes md.

(** The loop [dstr_appendf("%zu:", strlen(v)); dstr_append_str(v)]. *)
Definition append_fields (m : bytes) (fields : list bytes) : bytes :=
  fold_left (fun m v => m ++ dec_u64 (zlen v) ++ [58] ++ v) fields m.

Record row_v1 := {
  seq1 : Z; actor_role1 : option bytes; actor_principal1 : option bytes; action1 : option bytes;
  subject1 : option bytes; verdict1 : option bytes; key_id1 : option bytes; detail1 : option bytes
}.

Definition fields_v1 (r : row_v1) : list bytes :=
  dec_i64 (seq1 r) :: map (default []) [actor_role1 r; actor_principal1 r; action1 r; subject1 r;
    verdict1 r; key_id1 r; detail1 r].

Definition message_v1 (r : row_v1) (prev_hash : bytes) : bytes :=
  append_fields (AUDIT_WORM_DOMAIN ++ [10] ++ prev_hash ++ [10]) (fields_v1 r).

Definition audit_worm_row_hash (r : row_v1) (prev_hash : bytes) : bytes :=
  audit_worm_hex32 (default [] (aimee_sha256_raw (Some (message_v1 r prev_hash)))).

Record row_v2 := {
  seq : Z; ts : option bytes; actor_role : option bytes; actor_principal : option bytes;
  actor_issuer : option bytes; actor_subject : option bytes; transport_cn : option bytes; team_id : Z;
  selected_default_from : option bytes; action : option bytes; subject : option bytes;
  verdict : option bytes; key_id : option bytes; detail : option bytes
}.

Definition fields_v2 (r : row_v2) : list bytes :=
  [str "v2-full"; dec_i64 (seq r)] ++ map (default []) [ts r; actor_role r; actor_principal r;
    actor_issuer r; actor_subject r; transport_cn r] ++ [dec_i64 (team_id r)]
  ++ map (default []) [selected_default_from r; action r; subject r; verdict r; key_id r; detail r].

Definition message_v2 (r : row_v2) (prev_hash : option bytes) : bytes :=
  append_fields (AUDIT_WORM_DOMAIN_V2 ++ [10] ++ default [] prev_hash ++ [10]) (fields_v2 r).

Definition audit_worm_row_hash_v2 (r : row_v2) (prev_hash : option bytes) : bytes :=
  audit_worm_hex32 (default [] (aimee_sha256_raw (Some (message_v2 r prev_hash)))).

(** [malloc_ok] is whether the inner buffer could be allocated. *)
Definition hmac_key (key : bytes) : bytes :=
  let k := if (64 <? length key)%nat then default [] (aimee_sha256_raw (Some key)) else key in
  k ++ replicate (64 - length k) 0.

Definition worm_hmac_sha256 (malloc_ok : bool) (key msg : bytes) : bytes :=
  let k := hmac_key key in
  let ipad := map (fun b => Z.lxor b 0x36) k in
  let opad := map (fun b => Z.lxor b 0x5c) k in
  if negb malloc_ok then replicate 32 0
  else
    let inner := default [] (aimee_sha256_raw (Some (ipad ++ msg))) in
    default [] (aimee_sha256_raw (Some (opad ++ inner))).

Definition ckpt_message (head_hash : bytes) (head_seq : Z) (key_id : bytes) : bytes :=
  append_fields (AUDIT_WORM_DOMAIN ++ str "|ckpt|") [head_hash; dec_i64 head_seq; key_id].

Definition audit_worm_ckpt_mac (malloc_ok : bool) (key head_hash : bytes) (head_seq : Z) (key_id : bytes) : bytes :=
  audit_worm_hex32 (worm_hmac_sha256 malloc_ok key (ckpt_message head_hash head_seq key_id)).

(** What the system calls of the key load return: the bytes readable from the
    first [open] ([None] when it fails), the random bytes, whether the
    exclusive create succeeded, the second [open], the count [write] gives. *)
Record key_io := {
  first_open : option bytes;
  random_bytes : option bytes;
  created : bool;
  second_open : option bytes;
  written : Z
}.

(** [read(fd, key, 32)] of what is there: the key when all 32 bytes came. *)
Definition read_key (file : bytes) : option bytes :=
  let key := take 32 file in
  if negb (zlen key =? 32) then None else Some key.

Definition load_key_bytes (io : key_io) : option bytes :=
  match first_open io with
  | Some file => read_key file
  | None =>
      key ← random_bytes io;
      if negb (created io) then file ← second_open io; read_key file
      else if negb (written io =? 32) then None else Some key
  end.

Definition audit_worm_chain_key_load (io : key_io) : option (bytes * bytes) :=
  key ← load_key_bytes io;
  let full := audit_worm_hex32 (default [] (aimee_sha256_raw (Some key))) in
  Some (key, take 16 full).

(** ** The framing is injective *)

Definition field (v : bytes) : bytes := dec_u64 (zlen v) ++ [58] ++ v.

Lemma append_fields_eq m fs : append_fields m fs = m ++ concat (map field fs).
Proof.
  unfold append_fields. revert m. induction fs as [|v fs IH]; intros m; cbn [fold_left map concat]; [by rewrite app_nil_r|].
  rewrite IH. unfold field. by rewrite <- !app_assoc.
Qed.

(** A text cut at its first separator. *)
Lemma sep_inj (c : Z) a b x y : c ∉ a -> c ∉ b -> a ++ c :: x = b ++ c :: y -> a = b /\ x = y.
Proof.
  revert b. induction a as [|u a IH]; intros [|v b] Ha Hb E; cbn in E.
  - by injection E.
  - injection E as -> _. destruct Hb. left.
  - injection E as <- _. destruct Ha. left.
  - injection E as <- E. rewrite not_elem_of_cons in Ha, Hb. destruct Ha, Hb.
    destruct (IH b) as [-> ->]; done.
Qed.

Definition sized (v : bytes) : Prop := zlen v < 2 ^ 64.

Lemma field_inj v w x y : sized v -> sized w -> field v ++ x = field w ++ y -> v = w /\ x = y.
Proof.
  unfold sized, field. intros Hv Hw E. rewrite <- !app_assoc in E.
  assert (forall l, 0 <= zlen l -> 58 ∉ dec_u64 (zlen l)) as Hd.
  { intros l Hl Hin. pose proof (dec_loop_digits 20 (zlen l) Hl) as F. rewrite Forall_forall in F.
    specialize (F 58 Hin). lia. }
  apply sep_inj in E as [E1 E2]; [|apply Hd, zlen_nonneg..].
  apply dec_u64_inj in E1; [|split; [apply zlen_nonneg | done]..].
  unfold zlen in E1. apply Nat2Z.inj in E1. by apply app_inj_length in E2.
Qed.

Lemma fields_inj vs ws : length vs = length ws -> Forall sized vs -> Forall sized ws ->
  concat (map field vs) = concat (map field ws) -> vs = ws.
Proof.
  revert ws. induction vs as [|v vs IH]; intros [|w ws] Hl Hv Hw E; try done.
  apply Forall_cons in Hv as [? Hv], Hw as [? Hw]. cbn [map concat] in E.
  apply field_inj in E as [-> E]; [|done..]. f_equal. apply IH; [by injection Hl | done..].
Qed.

Lemma dec_i64_inj a b : - 2 ^ 63 <= a < 2 ^ 63 -> - 2 ^ 63 <= b < 2 ^ 63 -> dec_i64 a = dec_i64 b -> a = b.
Proof.
  intros Ha Hb. unfold dec_i64.
  assert (forall z w, 0 <= z -> 45 :: w <> dec_u64 z) as Hm.
  { intros z w Hz E. pose proof (dec_loop_digits 20 z Hz) as F. unfold dec_u64 in E. rewrite <- E in F.
    apply Forall_cons in F as [F _]. lia. }
  destruct (Z.ltb_spec a 0), (Z.ltb_spec b 0); intros E.
  - injection E as E. apply dec_u64_inj in E; lia.
  - by apply Hm in E.
  - symmetry in E. by apply Hm in E.
  - apply dec_u64_inj in E; lia.
Qed.

(** A header, a line, then the fields. *)
Lemma line_inj d p q x y : 10 ∉ p -> 10 ∉ q ->
  (d ++ [10] ++ p ++ [10]) ++ x = (d ++ [10] ++ q ++ [10]) ++ y -> p = q /\ x = y.
Proof.
  intros Hp Hq E. rewrite <- !app_assoc in E. apply app_inv_head, app_inv_head in E. by apply sep_inj in E.
Qed.

Lemma hash_binds x y : audit_worm_hex32 (default [] (aimee_sha256_raw (Some x)))
  = audit_worm_hex32 (default [] (aimee_sha256_raw (Some y))) -> x = y \/ collides x y.
Proof.
  intros E. unfold audit_worm_hex32 in E. apply hex_bytes_inj in E; [|apply sha256_bytes..]. cbn in E.
  destruct (decide (x = y)); [by left | by right].
Qed.

Definition row_ok (r : row_v2) : Prop :=
  - 2 ^ 63 <= seq r < 2 ^ 63 /\ - 2 ^ 63 <= team_id r < 2 ^ 63 /\ Forall sized (fields_v2 r).

Definition same_row (r s : row_v2) : Prop :=
  seq r = seq s /\ team_id r = team_id s /\ fields_v2 r = fields_v2 s.

(** Two audit rows with the same version-2 hash chain to the same
    previous hash and agree on the sequence number, the team and every text
    field (a null text counting as the empty one), unless their two messages
    collide under SHA-256. *)
Theorem worm_row_hash_binds (r s : row_v2) (p q : option bytes) : row_ok r -> row_ok s ->
  10 ∉ default [] p -> 10 ∉ default [] q ->
  audit_worm_row_hash_v2 r p = audit_worm_row_hash_v2 s q ->
  (same_row r s /\ default [] p = default [] q) \/ collides (message_v2 r p) (message_v2 s q).
Proof.
  intros (Rs & Rt & Rf) (Ss & St & Sf) Hp Hq E. apply hash_binds in E as [E|E]; [left | by right].
  unfold message_v2 in E. rewrite !append_fields_eq in E. apply line_inj in E as [Ep E]; [|done..].
  split; [|done]. apply fields_inj in E; [|done..]. split_and!; [| |done].
  - apply (f_equal (fun l => l !! 1%nat)) in E. cbn in E. apply (inj Some) in E. by apply dec_i64_inj.
  - apply (f_equal (fun l => l !! 8%nat)) in E. cbn in E. apply (inj Some) in E. by apply dec_i64_inj.
Qed.

(** A version-1 row and a version-2 row never have the same hash, and a
    checkpoint message is never a row message, unless SHA-256 collides. *)
Theorem worm_versions_separate (r : row_v1) (s : row_v2) (p : bytes) (q : option bytes) :
  (audit_worm_row_hash r p <> audit_worm_row_hash_v2 s q \/ collides (message_v1 r p) (message_v2 s q))
  /\ (forall h n k, ckpt_message h n k <> message_v1 r p /\ ckpt_message h n k <> message_v2 s q).
Proof.
  assert (forall d x l m, d = take (length d) x -> take (length d) (append_fields (x ++ l) m) = d) as T.
  { intros d x l m E. assert (length d <= length x)%nat by (rewrite E, length_take; lia).
    rewrite append_fields_eq, <- app_assoc, take_app_le by done. by symmetry. }
  split.
  - destruct (decide (audit_worm_row_hash r p = audit_worm_row_hash_v2 s q)) as [E|]; [|by left].
    right. apply hash_binds in E as [E|E]; [exfalso | done]. apply (f_equal (take 19)) in E.
    unfold message_v1, message_v2 in E.
    rewrite (T AUDIT_WORM_DOMAIN), (T AUDIT_WORM_DOMAIN_V2) in E by reflexivity. discriminate E.
  - intros h n k. unfold ckpt_message, message_v1, message_v2. rewrite !append_fields_eq, <- !app_assoc. split.
    + intros E. apply app_inv_head in E. discriminate E.
    + intros E. apply (f_equal (take 19)) in E. discriminate E.
Qed.

(** Under one 32-byte key, equal checkpoint MACs attest the same head hash,
    sequence number and key id, unless the inner or the outer message of the
    HMAC collides. *)
Theorem worm_ckpt_mac_binds (key h h' k k' : bytes) (n n' : Z) :
  sized h -> sized h' -> sized k -> sized k' -> - 2 ^ 63 <= n < 2 ^ 63 -> - 2 ^ 63 <= n' < 2 ^ 63 ->
  audit_worm_ckpt_mac true key h n k = audit_worm_ckpt_mac true key h' n' k' ->
  (h = h' /\ n = n' /\ k = k') \/
  (exists x y, (collides x y) /\ (x = map (fun b => Z.lxor b 0x36) (hmac_key key) ++ ckpt_message h n k \/
                                  exists i, x = map (fun b => Z.lxor b 0x5c) (hmac_key key) ++ i)).
Proof.
  intros Sh Sh' Sk Sk' Hn Hn' E. unfold audit_worm_ckpt_mac, worm_hmac_sha256 in E. cbn [negb] in E.
  apply hash_binds in E as [E|E]; [|right; do 2 eexists; split; [exact E | right; by eexists]].
  apply app_inv_head in E. cbn in E.
  destruct (decide (ckpt_message h n k = ckpt_message h' n' k')) as [M|M].
  - left. unfold ckpt_message in M. rewrite !append_fields_eq in M. apply app_inv_head in M.
    assert (forall z, sized (dec_i64 z)) as Sd.
    { intros z. unfold sized, zlen, dec_i64.
      assert (forall w, (length (dec_u64 w) <= 20)%nat) as L by (intros; apply dec_u64_length).
      pose proof (L z). pose proof (L (- z)). destruct (z <? 0); cbn [length]; lia. }
    apply fields_inj in M; [|done | by repeat constructor | by repeat constructor].
    injection M as -> M ->. by apply dec_i64_inj in M as ->.
  - right. do 2 eexists. split; [split; [|exact E] | left; reflexivity]. intros X. by apply app_inv_head in X.
Qed.
End sha.

Definition sample_row (t : option bytes) : row_v2 :=
  {| seq := 7; ts := t; actor_role := Some (str "operator"); actor_principal := Some (str "uid:0");
     actor_issuer := None; actor_subject := None; transport_cn := None; team_id := -1;
     selected_default_from := None; action := Some (str "vault.get"); subject := Some (str "cred");
     verdict := Some (str "allow"); key_id := None; detail := Some (str "{}") |}.

(** A null and an empty timestamp hash alike. *)
Lemma worm_row_hash_binds_witness :
  (same_row (sample_row None) (sample_row (Some [])) /\ str "00ff" = str "00ff")
  \/ @collides toy (message_v2 (sample_row None) (Some (str "00ff"))) (message_v2 (sample_row (Some [])) (Some (str "00ff"))).
Proof.
  apply (@worm_row_hash_binds toy (sample_row None) (sample_row (Some [])) (Some (str "00ff")) (Some (str "00ff"))).
  - split; [cbn; lia|]. split; [cbn; lia|]. repeat constructor; vm_compute; reflexivity.
  - split; [cbn; lia|]. split; [cbn; lia|]. repeat constructor; vm_compute; reflexivity.
  - cbn. rewrite !not_elem_of_cons. repeat split; try lia. apply not_elem_of_nil.
  - cbn. rewrite !not_elem_of_cons. repeat split; try lia. apply not_elem_of_nil.
  - vm_compute. reflexivity.
Defined.

Lemma worm_ckpt_mac_binds_witness :
  (str "ab" = str "ab" /\ 5 = 5 /\ str "k" = str "k") \/
  (exists x y, (@collides toy x y) /\
     (x = map (fun b => Z.lxor b 0x36) (@hmac_key toy (replicate 32 7)) ++ ckpt_message (str "ab") 5 (str "k") \/
      exists i, x = map (fun b => Z.lxor b 0x5c) (@hmac_key toy (replicate 32 7)) ++ i)).
Proof.
  apply (@worm_ckpt_mac_binds toy (replicate 32 7) (str "ab") (str "ab") (str "k") (str "k") 5 5);
    [vm_compute; reflexivity | vm_compute; reflexivity | vm_compute; reflexivity | vm_compute; reflexivity
    | lia | lia | reflexivity].
Defined.

(** A key that loads is 32 bytes and its id is the first 16 hexadecimal digits
    of its hash. *)
Lemma key_load_ok `{Sha256} io key id : (forall k, random_bytes io = Some k -> length k = 32%nat) ->
  audit_worm_chain_key_load io = Some (key, id) ->
  length key = 32%nat /\ id = take 16 (hex_bytes (sha256 key)) /\ length id = 16%nat.
Proof.
  intros Hr. unfold audit_worm_chain_key_load. destruct (load_key_bytes io) as [k|] eqn:E; [|done].
  cbn [mbind option_bind]. intros [= <- <-].
  assert (forall f k, read_key f = Some k -> length k = 32%nat) as Rk.
  { intros f k' Hf. unfold read_key in Hf. destruct (Z.eqb_spec (zlen (take 32 f)) 32) as [L|]; [|done].
    injection Hf as <-. unfold zlen in L. lia. }
  split_and!; [|done|].
  - unfold load_key_bytes in E. destruct (first_open io); [by eapply Rk|].
    destruct (random_bytes io) as [r|] eqn:R; [|done]. cbn [mbind option_bind] in E.
    destruct (created io); cbn [negb] in E.
    + destruct (written io =? 32); [|done]. injection E as <-. by apply Hr.
    + destruct (second_open io); [by eapply Rk | done].
  - rewrite length_take. unfold audit_worm_hex32. rewrite hex_bytes_length. cbn. rewrite sha256_length. done.
Qed.
End WormChain.
