(* ===== verification/Checks.v ===== *)
(** * Sequences of checks

    The validators of the sources run one check after the other and return
    the first diagnostic.  A check is an [option] of the diagnostic: [None]
    is the return code 0, [Some e] the return code -1 with the message [e].
    [c ;! c'] runs [c'] when [c] passed and [first_of f l] runs [f] along a
    list, as the loops do. *)

From Stdlib Require Import Lia.
From stdpp Require Import base option list.
From S2P Require Import Prelude.

Declare Scope check_scope.
Delimit Scope check_scope with check.

Definition check_seq {E : Type} (c c' : option E) : option E :=
  match c with Some e => Some e | None => c' end.

Infix ";!" := check_seq (at level 60, right associativity) : check_scope.

Open Scope check_scope.

(** [if (b) { err = e; return -1; }] *)
Definition refuse {E : Type} (b : bool) (e : E) : option E := if b then Some e else None.

Fixpoint first_of {A E : Type} (f : A -> option E) (l : list A) : option E :=
  match l with
  | [] => None
  | x :: l => f x ;! first_of f l
  end.

(** The loop [for i, for j > i] of the duplicate checks. *)
Fixpoint first_pair {A E : Type} (f : A -> A -> option E) (l : list A) : option E :=
  match l with
  | [] => None
  | x :: l => first_of (f x) l ;! first_pair f l
  end.

Section CheckFacts.
Context {A E : Type}.
Implicit Types (c : option E) (f : A -> option E).

Lemma check_seq_none c c' : (c ;! c') = None <-> c = None /\ c' = None.
Proof. destruct c; simpl; intuition congruence. Qed.

Lemma refuse_none b (e : E) : refuse b e = None <-> b = false.
Proof. destruct b; simpl; intuition congruence. Qed.

Lemma first_of_none f l : first_of f l = None <-> forall x, x ∈ l -> f x = None.
Proof.
  induction l as [|x l IH]; simpl.
  - split; [intros _ x Hx; by apply elem_of_nil in Hx | done].
  - rewrite check_seq_none, IH. setoid_rewrite elem_of_cons. firstorder congruence.
Qed.

(** A failing loop reports the first entry that fails. *)
Lemma first_of_some f l e :
  first_of f l = Some e -> exists x, x ∈ l /\ f x = Some e.
Proof.
  induction l as [|x l IH]; simpl; [done|]. destruct (f x) eqn:Hx; simpl.
  - intros [= <-]. exists x. split; [left | done].
  - intros (y & Hy & Hf)%IH. exists y. split; [by right | done].
Qed.

Lemma first_pair_none (f : A -> A -> option E) l :
  first_pair f l = None <->
  forall i j x y, (i < j)%nat -> l !! i = Some x -> l !! j = Some y -> f x y = None.
Proof.
  induction l as [|x l IH]; simpl.
  { split; [intros _ i j x y _ Hx; by rewrite lookup_nil in Hx | done]. }
  rewrite check_seq_none, first_of_none, IH. split.
  - intros [H1 H2] [|i] [|j] a b Hij Ha Hb; simplify_eq/=; try lia.
    + by apply H1, list_elem_of_lookup_2 with j.
    + apply (H2 i j); [lia | done..].
  - intros H. split.
    + intros y [j Hj]%list_elem_of_lookup. apply (H 0%nat (S j)); [lia | done..].
    + intros i j a b Hij Ha Hb. apply (H (S i) (S j)); [lia | done..].
Qed.

(** No two entries agree on the key: the keys have no duplicates. *)
Lemma first_pair_NoDup {K} `{EqDecision K} (key : A -> K) (e : A -> A -> E) l :
  first_pair (fun x y => refuse (bool_decide (key x = key y)) (e x y)) l = None <->
  NoDup (key <$> l).
Proof.
  rewrite first_pair_none. setoid_rewrite refuse_none. setoid_rewrite bool_decide_eq_false.
  rewrite NoDup_alt. split.
  - intros H i j k Hi Hj. apply list_lookup_fmap_Some in Hi as (x & Hx & Hkx).
    apply list_lookup_fmap_Some in Hj as (y & Hy & Hky).
    destruct (decide (i = j)); [done|]. exfalso.
    destruct (decide (i < j)%nat); [apply (H i j x y) | apply (H j i y x)];
      first [lia | done | congruence].
  - intros H i j x y Hij Hx Hy Heq.
    cut (i = j); [lia|]. apply (H i j (key x)).
    + by rewrite list_lookup_fmap, Hx.
    + by rewrite list_lookup_fmap, Hy, Heq.
Qed.
End CheckFacts.

(** [checks_in H] opens a hypothesis saying that a sequence passed, and
    [checks] a goal saying so. *)
Ltac checks_in H :=
  repeat first [ rewrite check_seq_none in H | rewrite refuse_none in H ].

Ltac checks :=
  repeat first [ rewrite check_seq_none | rewrite refuse_none ].

#[export] Hint Rewrite @check_seq_none @refuse_none : aimee.
