(* ===== verification/Json.v ===== *)
(** * Parsed trees and doubles

    The [cJSON] trees that [yaml_parse] and the request parsers hand to the
    sources, with the accessors the sources use, and the [double]s they and
    the work items carry: IEEE binary64 numbers, with infinities and NaN, as
    the Standard Library specifies them. *)

From Stdlib Require Import ZArith SpecFloat String.
From stdpp Require Import base option list.
From S2P Require Import Prelude.

(** ** Doubles *)

Definition double : Type := spec_float.

Definition d_zero : double := S754_zero false.
Definition d_add : double -> double -> double := SFadd 53 1024.
Definition d_mul : double -> double -> double := SFmul 53 1024.

(** [a > b], [a >= b] and [a != b]; every comparison with a NaN but the last
    is false. *)
Definition d_gt (a b : double) : bool := SFltb b a.
Definition d_ge (a b : double) : bool := SFleb b a.
Definition d_ne (a b : double) : bool := negb (SFeqb a b).

(** The double of a small integer, for concrete inputs. *)
Definition d_of_Z (z : Z) : double := binary_normalize 53 1024 z 0 false.

(** ** Trees

    [cJSON_CreateNumber] and the parsers store a number twice, as a double
    and truncated to an [int]; both are kept, since the sources read both. *)
Inductive json :=
  | JNull
  | JBool (b : bool)
  | JNumber (valueint : Z) (valuedouble : double)
  | JString (valuestring : bytes)
  | JArray (child : list json)
  | JObject (child : list (bytes * json)).

(** [cJSON_GetObjectItemCaseSensitive]: the first child with that name; a
    tree that is not an object has no named child. *)
Fixpoint assoc_first {A : Type} (key : bytes) (l : list (bytes * A)) : option A :=
  match l with
  | [] => None
  | (k, v) :: l => if bytes_eqb key k then Some v else assoc_first key l
  end.

Definition cJSON_GetObjectItemCaseSensitive (object : option json) (key : bytes) : option json :=
  match object with
  | Some (JObject child) => assoc_first key child
  | _ => None
  end.

Definition cJSON_IsTrue (j : option json) : bool :=
  match j with Some (JBool true) => true | _ => false end.

Definition cJSON_IsBool (j : option json) : bool :=
  match j with Some (JBool _) => true | _ => false end.

Definition cJSON_IsNumber (j : option json) : bool :=
  match j with Some (JNumber _ _) => true | _ => false end.

Definition cJSON_IsString (j : option json) : bool :=
  match j with Some (JString _) => true | _ => false end.

Definition cJSON_IsArray (j : option json) : bool :=
  match j with Some (JArray _) => true | _ => false end.

Definition cJSON_IsObject (j : option json) : bool :=
  match j with Some (JObject _) => true | _ => false end.

(** [(it && cJSON_IsString(it)) ? it->valuestring : NULL] *)
Definition json_string (j : option json) : option bytes :=
  match j with Some (JString s) => Some s | _ => None end.

Definition json_valueint (j : option json) : option Z :=
  match j with Some (JNumber n _) => Some n | _ => None end.

(** The elements of an array, none for anything else. *)
Definition json_elements (j : option json) : list json :=
  match j with Some (JArray l) => l | _ => [] end.

(** [strcasecmp(a, b) == 0] in the C locale. *)
Definition strcasecmp_eq (a b : bytes) : bool :=
  bytes_eqb (map ascii_lower a) (map ascii_lower b).

Lemma assoc_first_elem {A} key (l : list (bytes * A)) v :
  assoc_first key l = Some v -> (key, v) ∈ l.
Proof.
  induction l as [|[k w] l IH]; simpl; [done|].
  destruct (bytes_eqb key k) eqn:Hk; intros H.
  - apply bytes_eqb_true in Hk as ->. injection H as ->. left.
  - right. by apply IH.
Qed.

Lemma assoc_first_cons_ne {A} key k (v : A) l :
  key <> k -> assoc_first key ((k, v) :: l) = assoc_first key l.
Proof. intros Hne. simpl. by rewrite (proj2 (bytes_eqb_false key k) Hne). Qed.
