(* ===== verification/WfeDef.v ===== *)
(** * Workflow definitions
    ([src/src/modules/workflows/wfe_def.c], [wfe_def.h], [wfe_iface.h])

    A workflow is a declarative graph of block instances parsed from YAML.
    This file has the block and artifact vocabularies, the catalog that types
    each block's inputs and output, the parser from the YAML tree to the
    definition, and the accessors of a definition.  The YAML parser is a
    parameter of [wfe_def_parse]; the registry of configured blocks is the
    state of the file [WfeCustom] and is passed in.  Shown: a block's name
    determines it, a parsed definition is well formed (fields fit their
    buffers, no unknown block, at least one node, at most eight inputs a
    node), and a rejected gate loops back exactly when its node asks for it
    and the target exists. *)

From Stdlib Require Import ZArith Lia String Ascii.
From stdpp Require Import base numbers option list.
From S2P Require Import Prelude Checks Json.

Module WfeDef.

Definition WFE_ID_LEN : nat := 64.
Definition WFE_NAME_LEN : nat := 32.
Definition WFE_MAX_INS : nat := 8.

Inductive wfe_artifact_type_t :=
  | WFE_ART_NONE | WFE_ART_PROPOSAL | WFE_ART_PLAN | WFE_ART_BRANCH | WFE_ART_FROZEN_DIFF
  | WFE_ART_PR | WFE_ART_VERDICT | WFE_ART_APPROVAL | WFE_ART_INTENT.

Inductive wfe_block_type_t :=
  | WFE_BLK_UNKNOWN | WFE_BLK_AUTHOR_PROPOSAL | WFE_BLK_AUTHOR_PLAN | WFE_BLK_IMPLEMENT
  | WFE_BLK_DOCUMENT | WFE_BLK_FREEZE | WFE_BLK_GATE_ROUNDTABLE | WFE_BLK_GATE_HUMAN
  | WFE_BLK_PR_OPEN | WFE_BLK_MERGE | WFE_BLK_GATE_CI | WFE_BLK_CHECK_MERGEABLE
  | WFE_BLK_CUSTOM | WFE_BLK_UNDERSTAND | WFE_BLK_SPLIT | WFE_BLK_REVIEW
  | WFE_BLK_GATE_DELIVER | WFE_BLK_BRANCH_OPEN | WFE_BLK_FOREACH_WORKFLOW
  | WFE_BLK_SOURCE_ARCHIVE | WFE_BLK_TRIGGER_WATCH_DIR.

#[export] Instance wfe_artifact_type_eq_dec : EqDecision wfe_artifact_type_t.
Proof. solve_decision. Defined.

#[export] Instance wfe_block_type_eq_dec : EqDecision wfe_block_type_t.
Proof. solve_decision. Defined.

Record wfe_binding_t := {
  input_name : bytes;
  producer_id : bytes;
  output_name : bytes;
}.

Record wfe_node_t := {
  n_id : bytes;
  n_block : wfe_block_type_t;
  n_custom_name : bytes;
  n_params : option json;
  n_ins : list wfe_binding_t;
  n_next : bytes;
  n_on_pass : bytes;
  n_on_fail : bytes;
}.

(** [d_raw], the owned YAML tree, is what [n_params] borrows from; the nodes
    carry their part of it. *)
Record wfe_def_t := {
  d_name : bytes;
  d_start : bytes;
  d_version : bytes;
  d_enforced : bool;
  d_nodes : list wfe_node_t;
}.

(** ** The catalog *)

Record catalog_entry := {
  c_t : wfe_block_type_t;
  c_name : bytes;
  c_output : wfe_artifact_type_t;
  c_requires_input : bool;
  c_accepts : list wfe_artifact_type_t; (* up to the WFE_ART_NONE terminator *)
}.

Definition entry t name output req accepts : catalog_entry :=
  {| c_t := t; c_name := str name; c_output := output; c_requires_input := req;
     c_accepts := accepts |}.

Definition CATALOG : list catalog_entry := [
  entry WFE_BLK_AUTHOR_PROPOSAL "author.proposal" WFE_ART_PROPOSAL false [WFE_ART_PROPOSAL];
  entry WFE_BLK_TRIGGER_WATCH_DIR "trigger.watch-dir" WFE_ART_PROPOSAL false [];
  entry WFE_BLK_AUTHOR_PLAN "author.plan" WFE_ART_PLAN true [WFE_ART_PROPOSAL];
  entry WFE_BLK_IMPLEMENT "implement" WFE_ART_BRANCH true [WFE_ART_PLAN; WFE_ART_INTENT];
  entry WFE_BLK_DOCUMENT "document" WFE_ART_BRANCH true [WFE_ART_BRANCH];
  entry WFE_BLK_SOURCE_ARCHIVE "source.archive" WFE_ART_BRANCH true [WFE_ART_BRANCH];
  entry WFE_BLK_FREEZE "freeze" WFE_ART_FROZEN_DIFF true [WFE_ART_BRANCH];
  entry WFE_BLK_GATE_ROUNDTABLE "gate.roundtable" WFE_ART_VERDICT true
    [WFE_ART_PROPOSAL; WFE_ART_PLAN; WFE_ART_FROZEN_DIFF];
  entry WFE_BLK_GATE_HUMAN "gate.human" WFE_ART_APPROVAL true
    [WFE_ART_PROPOSAL; WFE_ART_PLAN; WFE_ART_BRANCH; WFE_ART_FROZEN_DIFF; WFE_ART_PR];
  entry WFE_BLK_PR_OPEN "pr.open" WFE_ART_PR true [WFE_ART_PROPOSAL; WFE_ART_FROZEN_DIFF];
  entry WFE_BLK_MERGE "merge" WFE_ART_NONE true [WFE_ART_PR];
  entry WFE_BLK_GATE_CI "gate.ci" WFE_ART_VERDICT true [WFE_ART_PR];
  entry WFE_BLK_CHECK_MERGEABLE "check.mergeable" WFE_ART_VERDICT true [WFE_ART_PR];
  entry WFE_BLK_UNDERSTAND "understand" WFE_ART_INTENT false [];
  entry WFE_BLK_SPLIT "split" WFE_ART_PLAN true [WFE_ART_INTENT; WFE_ART_PLAN];
  entry WFE_BLK_REVIEW "review" WFE_ART_VERDICT true [WFE_ART_FROZEN_DIFF; WFE_ART_BRANCH];
  entry WFE_BLK_GATE_DELIVER "gate.deliver" WFE_ART_NONE true [WFE_ART_VERDICT; WFE_ART_APPROVAL];
  entry WFE_BLK_BRANCH_OPEN "branch.open" WFE_ART_BRANCH false [WFE_ART_PLAN];
  entry WFE_BLK_FOREACH_WORKFLOW "foreach.workflow" WFE_ART_BRANCH true
    [WFE_ART_PLAN; WFE_ART_BRANCH]
].

Definition wfe_artifact_name (t : wfe_artifact_type_t) : bytes :=
  match t with
  | WFE_ART_NONE => str "none" | WFE_ART_PROPOSAL => str "proposal" | WFE_ART_PLAN => str "plan"
  | WFE_ART_BRANCH => str "branch" | WFE_ART_FROZEN_DIFF => str "frozen_diff"
  | WFE_ART_PR => str "pr" | WFE_ART_VERDICT => str "verdict"
  | WFE_ART_APPROVAL => str "approval" | WFE_ART_INTENT => str "intent"
  end.

Definition catalog_index (t : wfe_block_type_t) : option catalog_entry :=
  snd <$> list_find (fun e => c_t e = t) CATALOG.

Definition wfe_block_name (t : wfe_block_type_t) : bytes :=
  match catalog_index t with Some e => c_name e | None => str "unknown" end.

(** [custom name] is [wfe_custom_lookup(name) != NULL]. *)
Definition wfe_block_from_name (custom : bytes -> bool) (name : option bytes) : wfe_block_type_t :=
  match name with
  | None => WFE_BLK_UNKNOWN
  | Some name =>
      match list_find (fun e => c_name e = name) CATALOG with
      | Some (_, e) => c_t e
      | None => if custom name then WFE_BLK_CUSTOM else WFE_BLK_UNKNOWN
      end
  end.

Definition wfe_block_output (t : wfe_block_type_t) : wfe_artifact_type_t :=
  match catalog_index t with Some e => c_output e | None => WFE_ART_NONE end.

Definition wfe_block_requires_input (t : wfe_block_type_t) : bool :=
  match catalog_index t with Some e => c_requires_input e | None => false end.

Definition wfe_block_accepts_input (t : wfe_block_type_t) (inp : wfe_artifact_type_t) : bool :=
  match catalog_index t with
  | Some e => existsb (fun a => bool_decide (a = inp)) (c_accepts e)
  | None => false
  end.

(** ** Parsing *)

Definition copy_str (cap : nat) (src : option bytes) : bytes :=
  match src with None => [] | Some s => snprintf_s cap s end.

Definition obj_str (obj : option json) (key : string) : option bytes :=
  json_string (cJSON_GetObjectItemCaseSensitive obj (str key)).

(** [strrchr(ref, '.')]: what precedes and what follows the last dot. *)
Fixpoint strrchr_split (c : Z) (l : bytes) : option (bytes * bytes) :=
  match l with
  | [] => None
  | x :: l =>
      match strrchr_split c l with
      | Some (a, b) => Some (x :: a, b)
      | None => if x =? c then Some ([], l) else None
      end
  end.

(** ["<producer>[.<output>]"], as [(producer, output)]. *)
Definition parse_ref (ref : bytes) (prodcap outcap : nat) : bytes * bytes :=
  match strrchr_split 46 ref with
  | Some (prod, out) => (take (prodcap - 1) prod, copy_str outcap (Some out))
  | None => (copy_str prodcap (Some ref), copy_str outcap (Some (str "out")))
  end.

Inductive parse_error :=
  | PE_node_missing_id
  | PE_unknown_block (id : bytes) (blk : bytes)
  | PE_too_many_inputs (id : bytes)
  | PE_input_not_string (id : bytes) (input : bytes)
  | PE_registry
  | PE_yaml
  | PE_no_nodes.

Definition presult (A : Type) : Type := parse_error + A.

(** The loop over the [in] object; [n] bindings are already stored. *)
Fixpoint parse_inputs (id : bytes) (n : nat) (bs : list (bytes * json)) : presult (list wfe_binding_t) :=
  match bs with
  | [] => inr []
  | (key, b) :: bs =>
      if (WFE_MAX_INS <=? n)%nat then inl (PE_too_many_inputs id)
      else match b with
           | JString ref =>
               let '(prod, out) := parse_ref ref WFE_ID_LEN WFE_NAME_LEN in
               let bind := {| input_name := copy_str WFE_NAME_LEN (Some key);
                              producer_id := prod; output_name := out |} in
               match parse_inputs id (S n) bs with
               | inr rest => inr (bind :: rest)
               | inl e => inl e
               end
           | _ => inl (PE_input_not_string id key)
           end
  end.

(** The bindings of a node: an [in] that is not an object is ignored. *)
Definition parse_in (id : bytes) (jn : json) : presult (list wfe_binding_t) :=
  match cJSON_GetObjectItemCaseSensitive (Some jn) (str "in") with
  | Some (JObject bs) => parse_inputs id 0 bs
  | _ => inr []
  end.

Definition parse_node (custom : bytes -> bool) (jn : json) : presult wfe_node_t :=
  match obj_str (Some jn) "id" with
  | None | Some [] => inl PE_node_missing_id
  | Some id =>
      let nid := copy_str WFE_ID_LEN (Some id) in
      let blk := obj_str (Some jn) "block" in
      let block := wfe_block_from_name custom blk in
      if bool_decide (block = WFE_BLK_UNKNOWN) then inl (PE_unknown_block nid (default [] blk))
      else
        match parse_in nid jn with
        | inl e => inl e
        | inr ins =>
            inr {| n_id := nid; n_block := block;
                   n_custom_name := if bool_decide (block = WFE_BLK_CUSTOM)
                                    then copy_str WFE_NAME_LEN blk else [];
                   n_params := cJSON_GetObjectItemCaseSensitive (Some jn) (str "params");
                   n_ins := ins;
                   n_next := copy_str WFE_ID_LEN (obj_str (Some jn) "next");
                   n_on_pass := copy_str WFE_ID_LEN (obj_str (Some jn) "on_pass");
                   n_on_fail := copy_str WFE_ID_LEN (obj_str (Some jn) "on_fail") |}
        end
  end.

Fixpoint parse_nodes (custom : bytes -> bool) (js : list json) : presult (list wfe_node_t) :=
  match js with
  | [] => inr []
  | jn :: js =>
      match parse_node custom jn with
      | inl e => inl e
      | inr n => match parse_nodes custom js with inl e => inl e | inr ns => inr (n :: ns) end
      end
  end.

(** The [enforced] flag: a true boolean, a number other than zero, or the
    string [true] in any case. *)
Definition parse_enforced (jenf : option json) : bool :=
  match jenf with
  | Some (JBool b) => b
  | Some (JNumber _ d) => d_ne d d_zero
  | Some (JString s) => strcasecmp_eq s (str "true")
  | _ => false
  end.

(** [registry_ok] is [wfe_custom_registry_ensure() == 0]; allocation
    succeeds. *)
Definition wfe_def_parse (yaml_parse : bytes -> option json) (registry_ok : bool)
    (custom : bytes -> bool) (yaml_text : option bytes) : presult wfe_def_t :=
  if negb registry_ok then inl PE_registry
  else
    match yaml_parse (default [] yaml_text) with
    | Some (JObject fields) =>
        let root := Some (JObject fields) in
        match cJSON_GetObjectItemCaseSensitive root (str "nodes") with
        | Some (JArray (j0 :: js)) =>
            match parse_nodes custom (j0 :: js) with
            | inl e => inl e
            | inr nodes =>
                let name := copy_str WFE_ID_LEN (obj_str root "name") in
                let start := copy_str WFE_ID_LEN (obj_str root "start") in
                inr {| d_name := if bool_decide (name = []) then str "unnamed" else name;
                       d_start := if bool_decide (start = [])
                                  then copy_str WFE_ID_LEN (n_id <$> head nodes) else start;
                       d_version := [];
                       d_enforced := parse_enforced
                         (cJSON_GetObjectItemCaseSensitive root (str "enforced"));
                       d_nodes := nodes |}
            end
        | _ => inl PE_no_nodes
        end
    | _ => inl PE_yaml
    end.

(** ** Accessors *)

(** The node with that id and its position. *)
Definition find_node (d : wfe_def_t) (id : bytes) : option (nat * wfe_node_t) :=
  list_find (fun n => n_id n = id) (d_nodes d).

Definition wfe_def_node (d : wfe_def_t) (id : bytes) : option wfe_node_t :=
  snd <$> find_node d id.

Definition n_param (n : wfe_node_t) (key : string) : option json :=
  cJSON_GetObjectItemCaseSensitive (n_params n) (str key).

Inductive wfe_gate_reject_t :=
  | WFE_GATE_REJECT_TERMINAL | WFE_GATE_REJECT_RETRY | WFE_GATE_REJECT_ERR.

(** [out] is the capacity of [out_target], [None] for a null pointer or a
    zero size; the second result is what is written to it. *)
Definition wfe_gate_reject_target (d : option wfe_def_t) (gate_id : option bytes)
    (out : option nat) : wfe_gate_reject_t * option bytes :=
  match d, gate_id with
  | Some d, Some (c :: cs) =>
      match wfe_def_node d (c :: cs) with
      | None => (WFE_GATE_REJECT_TERMINAL, None)
      | Some node =>
          if negb (cJSON_IsTrue (n_param node "retry_on_reject")) then
            (WFE_GATE_REJECT_TERMINAL, None)
          else if bool_decide (n_on_fail node = [])
                  || bool_decide (wfe_def_node d (n_on_fail node) = None) then
            (WFE_GATE_REJECT_TERMINAL, None)
          else match out with
               | None => (WFE_GATE_REJECT_RETRY, None)
               | Some out_n =>
                   if (out_n <=? length (n_on_fail node))%nat then (WFE_GATE_REJECT_ERR, None)
                   else (WFE_GATE_REJECT_RETRY, Some (snprintf_s out_n (n_on_fail node)))
               end
      end
  | _, _ => (WFE_GATE_REJECT_ERR, None)
  end.

Definition WFE_DEFAULT_MAX_ITERS : Z := 20.

Definition wfe_node_max_iters (n : wfe_node_t) : Z :=
  match n_param n "max_iters" with
  | Some (JNumber v _) => if 0 <? v then v else WFE_DEFAULT_MAX_ITERS
  | _ => WFE_DEFAULT_MAX_ITERS
  end.

Inductive wfe_on_max_t := WFE_ON_MAX_HUMAN | WFE_ON_MAX_FAIL | WFE_ON_MAX_PASS.

Definition wfe_node_on_max (n : wfe_node_t) : wfe_on_max_t :=
  match n_param n "on_max" with
  | Some (JString s) =>
      if bytes_eqb s (str "fail") then WFE_ON_MAX_FAIL
      else if bytes_eqb s (str "pass") then WFE_ON_MAX_PASS
      else WFE_ON_MAX_HUMAN
  | _ => WFE_ON_MAX_HUMAN
  end.

(** ** Lookup *)

Lemma find_node_spec d id i n :
  find_node d id = Some (i, n) -> d_nodes d !! i = Some n /\ n_id n = id.
Proof. unfold find_node. intros (? & ? & _)%list_find_Some. done. Qed.

Lemma find_node_none d id : find_node d id = None <-> id ∉ (n_id <$> d_nodes d).
Proof.
  unfold find_node. rewrite list_find_None, Forall_forall, list_elem_of_fmap. split.
  - intros H (n & -> & Hn). by apply (H n).
  - intros H n Hn Heq. apply H. by exists n.
Qed.

Lemma find_node_lookup d i n :
  NoDup (n_id <$> d_nodes d) -> d_nodes d !! i = Some n -> find_node d (n_id n) = Some (i, n).
Proof.
  intros Hnd Hi. apply list_find_Some. split_and!; [done..|]. intros j m Hj Hlt Heq.
  cut (j = i); [lia|]. eapply (proj1 (NoDup_alt _) Hnd j i (n_id n)).
  - by rewrite list_lookup_fmap, Hj, <- Heq.
  - by rewrite list_lookup_fmap, Hi.
Qed.

Lemma wfe_def_node_some d id n :
  wfe_def_node d id = Some n <-> exists i, find_node d id = Some (i, n).
Proof.
  unfold wfe_def_node. destruct (find_node d id) as [[i m]|]; simpl; [|naive_solver].
  split; [intros [= ->]; by exists i | intros (j & [= _ ->]); done].
Qed.

Lemma wfe_def_node_spec d id n : wfe_def_node d id = Some n -> n ∈ d_nodes d /\ n_id n = id.
Proof.
  intros (i & Hf)%wfe_def_node_some. apply find_node_spec in Hf as [Hi Hid].
  split; [by eapply list_elem_of_lookup_2 | done].
Qed.

Lemma wfe_def_node_none d id : wfe_def_node d id = None <-> find_node d id = None.
Proof. unfold wfe_def_node. by destruct (find_node d id). Qed.

(** ** The catalog *)

(** Every block but the two that have no entry is in the catalog. *)
Definition builtin (t : wfe_block_type_t) : bool :=
  match t with WFE_BLK_UNKNOWN | WFE_BLK_CUSTOM => false | _ => true end.

Lemma catalog_index_builtin t : is_Some (catalog_index t) <-> builtin t = true.
Proof. destruct t; cbn; split; intros H; first [done | by destruct H | by eexists]. Qed.

(** The name of a built-in block determines it, whatever blocks are
    configured, and a name that resolves to a built-in block is that block's
    name. *)
Theorem block_name_roundtrip custom t s :
  builtin t = true ->
  (wfe_block_from_name custom (Some s) = t <-> s = wfe_block_name t).
Proof.
  intros Ht. split.
  - unfold wfe_block_from_name. destruct (list_find _ CATALOG) as [[i e]|] eqn:Hf.
    + apply list_find_Some in Hf as (Hi & <- & _). intros <-.
      do 19 (destruct i as [|i]; [by injection Hi as <-|]). done.
    + destruct (custom s); intros <-; discriminate Ht.
  - intros ->. by destruct t.
Qed.

(** ** What the parser guarantees *)

Record binding_fits (b : wfe_binding_t) : Prop := {
  bf_input : (length (input_name b) < WFE_NAME_LEN)%nat;
  bf_producer : (length (producer_id b) < WFE_ID_LEN)%nat;
  bf_output : (length (output_name b) < WFE_NAME_LEN)%nat;
}.

Record node_fits (n : wfe_node_t) : Prop := {
  nf_id : n_id n <> [];
  nf_id_len : (length (n_id n) < WFE_ID_LEN)%nat;
  nf_block : n_block n <> WFE_BLK_UNKNOWN;
  nf_custom_len : (length (n_custom_name n) < WFE_NAME_LEN)%nat;
  nf_ins_len : (length (n_ins n) <= WFE_MAX_INS)%nat;
  nf_ins : Forall binding_fits (n_ins n);
  nf_next : (length (n_next n) < WFE_ID_LEN)%nat;
  nf_on_pass : (length (n_on_pass n) < WFE_ID_LEN)%nat;
  nf_on_fail : (length (n_on_fail n) < WFE_ID_LEN)%nat;
}.

Lemma copy_str_length cap s : (0 < cap)%nat -> (length (copy_str cap s) < cap)%nat.
Proof. destruct s; simpl; [by apply snprintf_s_length | lia]. Qed.

Lemma parse_ref_length ref prod out :
  parse_ref ref WFE_ID_LEN WFE_NAME_LEN = (prod, out) ->
  (length prod < WFE_ID_LEN)%nat /\ (length out < WFE_NAME_LEN)%nat.
Proof.
  unfold parse_ref, WFE_ID_LEN, WFE_NAME_LEN. destruct (strrchr_split 46 ref) as [[a b]|];
    intros [= <- <-]; (split; [| apply snprintf_s_length; lia]).
  - rewrite length_take. lia.
  - apply snprintf_s_length. lia.
Qed.

Lemma parse_inputs_fits id n bs l :
  (n <= WFE_MAX_INS)%nat -> parse_inputs id n bs = inr l ->
  (n + length l <= WFE_MAX_INS)%nat /\ Forall binding_fits l.
Proof.
  revert n l. induction bs as [|[key b] bs IH]; intros n l Hn; cbn [parse_inputs].
  { intros [= <-]. simpl. split; [lia | constructor]. }
  destruct (Nat.leb_spec WFE_MAX_INS n) as [|Hlt]; [done|].
  destruct b as [| | |ref| |]; try done.
  destruct (parse_ref ref WFE_ID_LEN WFE_NAME_LEN) as [prod out] eqn:Hr.
  destruct (parse_inputs id (S n) bs) as [e|rest] eqn:Hrest; [done|]. intros [= <-].
  destruct (IH (S n) rest ltac:(lia) Hrest) as [Hl Hf]. apply parse_ref_length in Hr as [Hp Ho].
  split; [simpl; lia|]. constructor; [|done].
  constructor; [apply snprintf_s_length; cbv; lia | done | done].
Qed.

Lemma parse_in_fits id jn l :
  parse_in id jn = inr l -> (length l <= WFE_MAX_INS)%nat /\ Forall binding_fits l.
Proof.
  unfold parse_in. destruct (cJSON_GetObjectItemCaseSensitive _ _) as [[| | | | |bs]|];
    try (intros [= <-]; split; [simpl; unfold WFE_MAX_INS; lia | constructor]).
  intros H. by apply (parse_inputs_fits _ 0) in H as [? ?]; [|unfold WFE_MAX_INS; lia].
Qed.

Lemma snprintf_s_nonempty cap s : (1 < cap)%nat -> s <> [] -> snprintf_s cap s <> [].
Proof. intros Hc Hs H. destruct s; [done|]. unfold snprintf_s in H. by destruct cap as [|[|]]; try lia. Qed.

Lemma parse_node_fits custom jn n : parse_node custom jn = inr n -> node_fits n.
Proof.
  unfold parse_node. destruct (obj_str (Some jn) "id") as [id|] eqn:Hid; [|done].
  destruct id as [|c cs]; [done|]. case_bool_decide as Hb; [done|].
  destruct (parse_in _ jn) as [e|ins] eqn:Hins; [done|]. intros Hn.
  apply (inj inr) in Hn as <-. apply parse_in_fits in Hins as [Hl Hf].
  assert (1 < WFE_ID_LEN)%nat by (unfold WFE_ID_LEN; lia).
  assert (0 < WFE_NAME_LEN)%nat by (unfold WFE_NAME_LEN; lia).
  constructor; cbn [n_id n_block n_custom_name n_ins n_next n_on_pass n_on_fail];
    try done; try (apply copy_str_length; lia).
  case_bool_decide; [by apply copy_str_length | done].
Qed.

Lemma parse_nodes_fits custom js l :
  parse_nodes custom js = inr l -> length l = length js /\ Forall node_fits l.
Proof.
  revert l. induction js as [|jn js IH]; intros l; simpl; [by intros [= <-]|].
  destruct (parse_node custom jn) as [|n] eqn:Hn; [done|].
  destruct (parse_nodes custom js) as [|ns] eqn:Hns; [done|]. intros [= <-].
  destruct (IH ns eq_refl) as [Hl Hf]. split; [simpl; by rewrite Hl|].
  constructor; [by eapply parse_node_fits | done].
Qed.

(** A definition the parser returns has at least one node, a non-empty
    start and name that fit their columns, and nodes whose strings fit their
    buffers, whose block is known and which have at most eight inputs. *)
Theorem parse_well_formed yaml_parse ok custom text d :
  wfe_def_parse yaml_parse ok custom text = inr d ->
  d_nodes d <> [] /\ Forall node_fits (d_nodes d)
  /\ d_name d <> [] /\ (length (d_name d) < WFE_ID_LEN)%nat
  /\ d_start d <> [] /\ (length (d_start d) < WFE_ID_LEN)%nat.
Proof.
  unfold wfe_def_parse. destruct ok; [|done]. cbn [negb].
  destruct (yaml_parse _) as [[| | | | |fields]|]; try done. cbv zeta.
  destruct (cJSON_GetObjectItemCaseSensitive _ (str "nodes")) as [[| | | |[|j0 js]|]|]; try done.
  destruct (parse_nodes custom (j0 :: js)) as [|nodes] eqn:Hn; [done|].
  apply parse_nodes_fits in Hn as [Hlen Hfit]. intros [= <-]. cbn [d_nodes d_name d_start].
  destruct nodes as [|n0 nodes]; [done|]. inversion_clear Hfit as [|? ? H0 Hrest].
  split_and!; [done | by constructor | | | |].
  - by case_bool_decide.
  - case_bool_decide; [unfold WFE_ID_LEN; simpl; lia | apply copy_str_length; unfold WFE_ID_LEN; lia].
  - case_bool_decide; [|done]. apply snprintf_s_nonempty; [unfold WFE_ID_LEN; lia | apply H0].
  - case_bool_decide; apply copy_str_length; unfold WFE_ID_LEN; lia.
Qed.

(** ** References *)

Lemma strrchr_split_none c l : (c ∉ l) -> strrchr_split c l = None.
Proof.
  induction l as [|x l IH]; simpl; [done|]. intros [Hx Hl]%not_elem_of_cons.
  rewrite IH by done. destruct (Z.eqb_spec x c); [by subst | done].
Qed.

Lemma strrchr_split_app c a b : (c ∉ b) -> strrchr_split c (a ++ c :: b) = Some (a, b).
Proof.
  intros Hb. induction a as [|x a IH]; simpl; [|by rewrite IH].
  by rewrite strrchr_split_none, Z.eqb_refl.
Qed.

(** A reference written as a producer, a dot and an output handle is read
    back as these two when they fit their buffers and the handle has no dot;
    one without a dot names the handle [out]. *)
Theorem parse_ref_roundtrip prod out :
  (length prod < WFE_ID_LEN)%nat -> (length out < WFE_NAME_LEN)%nat -> (46 ∉ out) ->
  parse_ref (prod ++ 46 :: out) WFE_ID_LEN WFE_NAME_LEN = (prod, out)
  /\ ((46 ∉ prod) -> parse_ref prod WFE_ID_LEN WFE_NAME_LEN = (prod, str "out")).
Proof.
  intros Hp Ho Hd. unfold parse_ref. split.
  - rewrite strrchr_split_app by done. rewrite take_ge by lia.
    unfold copy_str. by rewrite snprintf_s_fits.
  - intros Hn. rewrite strrchr_split_none by done. unfold copy_str.
    by rewrite (snprintf_s_fits _ prod).
Qed.

(** ** Rejection at a gate *)

(** A rejected gate loops back exactly when its node exists, asks for it
    with [retry_on_reject: true], and has an [on_fail] edge to a node of the
    workflow; the target written is that edge, in full.  Otherwise nothing is
    written. *)
Theorem gate_reject_retry_iff d gate out_n r t :
  gate <> [] -> wfe_gate_reject_target (Some d) (Some gate) (Some out_n) = (r, t) ->
  (r = WFE_GATE_REJECT_RETRY <->
     exists n, wfe_def_node d gate = Some n
       /\ n_param n "retry_on_reject" = Some (JBool true)
       /\ n_on_fail n <> [] /\ is_Some (wfe_def_node d (n_on_fail n))
       /\ (length (n_on_fail n) < out_n)%nat /\ t = Some (n_on_fail n))
  /\ (r <> WFE_GATE_REJECT_RETRY -> t = None).
Proof.
  intros Hg. destruct gate as [|c cs]; [done|]. cbn [wfe_gate_reject_target].
  destruct (wfe_def_node d (c :: cs)) as [n|] eqn:Hn.
  2:{ intros [= <- <-]. split; [|done]. split; [done|]. by intros (? & ? & _). }
  assert (Ht : cJSON_IsTrue (n_param n "retry_on_reject") = true
               <-> n_param n "retry_on_reject" = Some (JBool true)).
  { destruct (n_param n "retry_on_reject") as [[|[]| | | |]|]; simpl; naive_solver. }
  destruct (cJSON_IsTrue _); cbn [negb].
  2:{ intros [= <- <-]. split; [|done]. split; [done|]. intros (m & [= <-] & Hm & _). naive_solver. }
  case_bool_decide as Hf; cbn [orb].
  { intros [= <- <-]. split; [|done]. split; [done|]. by intros (m & [= <-] & _ & ? & _). }
  case_bool_decide as Hd.
  { intros [= <- <-]. split; [|done]. split; [done|].
    intros (m & [= <-] & _ & _ & Hs & _). rewrite Hd in Hs. by destruct Hs. }
  destruct (Nat.leb_spec out_n (length (n_on_fail n))) as [Hl|Hl]; intros [= <- <-].
  { split; [|done]. split; [done|]. intros (m & [= <-] & _ & _ & _ & ? & _). lia. }
  split; [|done]. split; [|done]. intros _. exists n.
  rewrite snprintf_s_fits by done. split_and!; try done; [by apply Ht|].
  by apply not_eq_None_Some.
Qed.

(** ** Loop caps *)

Lemma wfe_node_max_iters_pos n : 0 < wfe_node_max_iters n.
Proof.
  unfold wfe_node_max_iters, WFE_DEFAULT_MAX_ITERS.
  destruct (n_param n "max_iters") as [[| |v w| | |]|]; try lia. destruct (Z.ltb_spec 0 v); lia.
Qed.

#[export] Hint Resolve wfe_node_max_iters_pos : aimee.

(** ** An example workflow

    understand -> implement -> review -> gate.deliver, with the review
    looping back to implement. *)

Definition demo_node (id : string) (b : wfe_block_type_t) (inp : list string) (params : option json)
    (next on_pass on_fail : string) : wfe_node_t :=
  {| n_id := str id; n_block := b; n_custom_name := []; n_params := params;
     n_ins := map (fun p => {| input_name := str "src"; producer_id := str p;
                               output_name := str "out" |}) inp;
     n_next := str next; n_on_pass := str on_pass; n_on_fail := str on_fail |}.

Definition reviewer_param : option json :=
  Some (JObject [(str "reviewer", JString (str "sentinel")); (str "retry_on_reject", JBool true)]).

Definition demo_def : wfe_def_t :=
  {| d_name := str "demo"; d_start := str "a"; d_version := []; d_enforced := true;
     d_nodes := [demo_node "a" WFE_BLK_UNDERSTAND [] None "b" "" "";
                 demo_node "b" WFE_BLK_IMPLEMENT ["a"%string] None "r" "" "";
                 demo_node "r" WFE_BLK_REVIEW ["b"%string] reviewer_param "" "d" "b";
                 demo_node "d" WFE_BLK_GATE_DELIVER ["r"%string] None "" "" ""] |}.

(** ** The properties at concrete inputs *)

Lemma block_name_roundtrip_witness :
  builtin WFE_BLK_GATE_DELIVER = true
  /\ (wfe_block_from_name (fun _ => true) (Some (str "gate.deliver")) = WFE_BLK_GATE_DELIVER
      <-> str "gate.deliver" = wfe_block_name WFE_BLK_GATE_DELIVER).
Proof. split; [done|]. by apply (block_name_roundtrip (fun _ => true) WFE_BLK_GATE_DELIVER). Defined.

(** A YAML reader that gives one tree, whatever the text. *)
Definition demo_yaml (_ : bytes) : option json :=
  Some (JObject [(str "nodes", JArray [JObject [(str "id", JString (str "a"));
                                                (str "block", JString (str "understand"))]])]).

Lemma parse_well_formed_witness :
  let d := {| d_name := str "unnamed"; d_start := str "a"; d_version := []; d_enforced := false;
              d_nodes := [demo_node "a" WFE_BLK_UNDERSTAND [] None "" "" ""] |} in
  d_nodes d <> [] /\ Forall node_fits (d_nodes d)
  /\ d_name d <> [] /\ (length (d_name d) < WFE_ID_LEN)%nat
  /\ d_start d <> [] /\ (length (d_start d) < WFE_ID_LEN)%nat.
Proof.
  intros d. apply (parse_well_formed demo_yaml true (fun _ => false) None d).
  vm_compute. reflexivity.
Defined.

Lemma parse_ref_roundtrip_witness :
  parse_ref (str "build" ++ 46 :: str "diff")%list WFE_ID_LEN WFE_NAME_LEN = (str "build", str "diff")
  /\ ((46 ∉ str "build") -> parse_ref (str "build") WFE_ID_LEN WFE_NAME_LEN = (str "build", str "out")).
Proof.
  apply (parse_ref_roundtrip (str "build") (str "diff")); [simpl; unfold WFE_ID_LEN; lia
    | simpl; unfold WFE_NAME_LEN; lia | apply (bool_decide_unpack _); vm_compute; exact I].
Defined.

Lemma gate_reject_retry_iff_witness :
  let c := wfe_gate_reject_target (Some demo_def) (Some (str "r")) (Some WFE_ID_LEN) in
  (fst c = WFE_GATE_REJECT_RETRY <->
     exists n, wfe_def_node demo_def (str "r") = Some n
       /\ n_param n "retry_on_reject" = Some (JBool true)
       /\ n_on_fail n <> [] /\ is_Some (wfe_def_node demo_def (n_on_fail n))
       /\ (length (n_on_fail n) < WFE_ID_LEN)%nat /\ snd c = Some (n_on_fail n))
  /\ (fst c <> WFE_GATE_REJECT_RETRY -> snd c = None).
Proof.
  intros c. apply (gate_reject_retry_iff demo_def (str "r") WFE_ID_LEN (fst c) (snd c)); [done|].
  vm_compute. reflexivity.
Defined.

End WfeDef.
