(* ===== verification/WfeCustom.v ===== *)
(** * Registry of configured blocks
    ([src/src/modules/workflows/wfe_custom.c])

    The blocks of [$AIMEE_HOME/workflows/blocks.yaml], loaded once into a
    table of at most 64 entries.  The registry is the state [registry];
    reading the file (ownership and permission checks included), verifying
    its signature and parsing the YAML are parameters of the load.  Shown:
    every load leaves a table in which names are non-empty, distinct and
    distinct from every built-in block, whatever the file holds; a refused
    file leaves no block at all and does not enable command blocks; and the
    typed inputs and output of a node resolve through the same table. *)

From Stdlib Require Import ZArith Lia String Ascii SpecFloat.
From stdpp Require Import base numbers option list.
From S2P Require Import Prelude Checks Json WfeDef.

Open Scope string_scope.
Open Scope Z_scope.

Module WfeCustom.
Import WfeDef.

Definition WFE_CUSTOM_MAX : nat := 64.
Definition WFE_CUSTOM_ARGV_MAX : nat := 32.
Definition WFE_CUSTOM_ARG_MAX : nat := 512.
Definition WFE_CUSTOM_COMMAND_TIMEOUT_MS_DEFAULT : Z := 120000.
Definition INT_MAX : Z := 2 ^ 31 - 1.

(** The executor of a block, with the fields that go with it. *)
Inductive wfe_custom_exec_t :=
  | WFE_EXEC_COMMAND (argv : list bytes)
  | WFE_EXEC_DELEGATE (persona : bytes) (prompt : bytes).

Record wfe_custom_block_t := {
  cb_name : bytes;
  cb_consumes : wfe_artifact_type_t;
  cb_produces : wfe_artifact_type_t;
  cb_executor : wfe_custom_exec_t;
}.

Record registry := {
  g_blocks : list wfe_custom_block_t;
  g_loaded : bool;
  g_allow_command : bool;
  g_command_timeout_ms : Z;
}.

Definition wfe_custom_registry_reset : registry :=
  {| g_blocks := []; g_loaded := false; g_allow_command := false;
     g_command_timeout_ms := WFE_CUSTOM_COMMAND_TIMEOUT_MS_DEFAULT |}.

Definition wfe_custom_count (r : registry) : Z := Z.of_nat (length (g_blocks r)).

Definition wfe_custom_at (r : registry) (i : Z) : option wfe_custom_block_t :=
  if (0 <=? i) && (i <? wfe_custom_count r) then g_blocks r !! Z.to_nat i else None.

Definition lookup_block (blocks : list wfe_custom_block_t) (name : bytes) : option wfe_custom_block_t :=
  snd <$> list_find (fun b => cb_name b = name) blocks.

Definition wfe_custom_lookup (r : registry) (name : option bytes) : option wfe_custom_block_t :=
  name ≫= lookup_block (g_blocks r).

(** The test [wfe_block_from_name] makes. *)
Definition is_custom (blocks : list wfe_custom_block_t) (name : bytes) : bool :=
  bool_decide (is_Some (lookup_block blocks name)).

Definition all_artifacts : list wfe_artifact_type_t :=
  [WFE_ART_NONE; WFE_ART_PROPOSAL; WFE_ART_PLAN; WFE_ART_BRANCH; WFE_ART_FROZEN_DIFF;
   WFE_ART_PR; WFE_ART_VERDICT; WFE_ART_APPROVAL; WFE_ART_INTENT].

(** [None] is the enumerator -1. *)
Definition artifact_from_name (s : bytes) : option wfe_artifact_type_t :=
  snd <$> list_find (fun a => wfe_artifact_name a = s) all_artifacts.

Inductive custom_error :=
  | CE_missing_name | CE_too_long (what : string) | CE_duplicate | CE_shadows_builtin
  | CE_consumes | CE_produces | CE_argv_empty | CE_argv_count | CE_argv_string | CE_argv_len
  | CE_delegate | CE_executor | CE_too_many.

Definition fit (cap : nat) (src : bytes) (what : string) : custom_error + bytes :=
  if (cap <=? length src)%nat then inl (CE_too_long what) else inr (snprintf_s cap src).

Fixpoint parse_argv (l : list json) : custom_error + list bytes :=
  match l with
  | [] => inr []
  | JString s :: l =>
      if (WFE_CUSTOM_ARG_MAX <=? length s)%nat then inl CE_argv_len
      else match parse_argv l with inl e => inl e | inr r => inr (s :: r) end
  | _ :: _ => inl CE_argv_string
  end.

Definition parse_executor (b : json) : custom_error + wfe_custom_exec_t :=
  let get key := cJSON_GetObjectItemCaseSensitive (Some b) (str key) in
  let ex := default [] (json_string (get "executor")) in
  if bytes_eqb ex (str "command") then
    match get "command" with
    | Some (JArray (a :: l)) =>
        if (WFE_CUSTOM_ARGV_MAX <? length (a :: l))%nat then inl CE_argv_count
        else match parse_argv (a :: l) with
             | inl e => inl e
             | inr argv => inr (WFE_EXEC_COMMAND argv)
             end
    | _ => inl CE_argv_empty
    end
  else if bytes_eqb ex (str "delegate") then
    match get "persona", get "prompt" with
    | Some (JString per), Some (JString pr) =>
        match fit WFE_NAME_LEN per "persona" with
        | inl e => inl e
        | inr p => inr (WFE_EXEC_DELEGATE p pr)
        end
    | _, _ => inl CE_delegate
    end
  else inl CE_executor.

(** [parse_one]: [blocks] are the entries already committed. *)
Definition parse_one (blocks : list wfe_custom_block_t) (b : json) : custom_error + wfe_custom_block_t :=
  let get key := cJSON_GetObjectItemCaseSensitive (Some b) (str key) in
  match get "name" with
  | Some (JString (c :: cs)) =>
      match fit WFE_NAME_LEN (c :: cs) "name" with
      | inl e => inl e
      | inr name =>
          if existsb (fun x => bytes_eqb (cb_name x) name) blocks then inl CE_duplicate
          else if negb (bool_decide (wfe_block_from_name (is_custom blocks) (Some name)
                                     = WFE_BLK_UNKNOWN)) then inl CE_shadows_builtin
          else
            match artifact_from_name (default (str "none") (json_string (get "consumes"))),
                  artifact_from_name (default (str "none") (json_string (get "produces"))) with
            | None, _ => inl CE_consumes
            | Some consumes, produces =>
                if bool_decide (produces = Some WFE_ART_BRANCH \/ produces = Some WFE_ART_NONE) then
                  match parse_executor b with
                  | inl e => inl e
                  | inr ex => inr {| cb_name := name; cb_consumes := consumes;
                                     cb_produces := default WFE_ART_NONE produces;
                                     cb_executor := ex |}
                  end
                else inl CE_produces
            end
      end
  | _ => inl CE_missing_name
  end.

(** The loop over [blocks:]. *)
Fixpoint parse_blocks (blocks : list wfe_custom_block_t) (l : list json)
    : custom_error + list wfe_custom_block_t :=
  match l with
  | [] => inr blocks
  | b :: l =>
      if (WFE_CUSTOM_MAX <=? length blocks)%nat then inl CE_too_many
      else match parse_one blocks b with
           | inl e => inl e
           | inr blk => parse_blocks (blocks ++ [blk]) l
           end
  end.

(** What opening, checking and reading the file gave: it does not exist, it
    was refused (not openable, not a regular operator-owned file, parent not
    operator-owned, unreadable), or its bytes. *)
Inductive file_read := FR_absent | FR_refused | FR_bytes (buf : bytes).

(** [command_timeout_ms]: [(int)ct->valuedouble], truncated toward zero. *)
Definition d_trunc (d : double) : Z :=
  match d with
  | S754_finite s m e =>
      let v := if 0 <=? e then Zpos m * 2 ^ e else Zpos m / 2 ^ (- e) in if s then - v else v
  | _ => 0
  end.

Definition command_timeout (ct : option json) : Z :=
  match ct with
  | Some (JNumber _ d) =>
      if d_gt d d_zero && SFleb d (d_of_Z INT_MAX) then d_trunc d
      else WFE_CUSTOM_COMMAND_TIMEOUT_MS_DEFAULT
  | _ => WFE_CUSTOM_COMMAND_TIMEOUT_MS_DEFAULT
  end.

Definition refused_registry : registry :=
  {| g_blocks := []; g_loaded := true; g_allow_command := false;
     g_command_timeout_ms := WFE_CUSTOM_COMMAND_TIMEOUT_MS_DEFAULT |}.

Section Load.
Context (yaml_parse : bytes -> option json) (artifact_trusted : bytes -> bool).

(** The return code and the registry afterwards.  The registry before the
    call does not matter: it is reset first. *)
Definition wfe_custom_registry_load (file : file_read) : Z * registry :=
  match file with
  | FR_absent => (0, refused_registry)
  | FR_refused => (-1, refused_registry)
  | FR_bytes buf =>
      if negb (artifact_trusted buf) then (-1, refused_registry)
      else
        match yaml_parse buf with
        | Some (JObject fields) =>
            let get key := cJSON_GetObjectItemCaseSensitive (Some (JObject fields)) (str key) in
            match parse_blocks [] (json_elements (get "blocks")) with
            | inl _ => (-1, refused_registry)
            | inr blocks =>
                (0, {| g_blocks := blocks; g_loaded := true;
                       g_allow_command := cJSON_IsTrue (get "allow_command");
                       g_command_timeout_ms := command_timeout (get "command_timeout_ms") |})
            end
        | _ => (-1, refused_registry)
        end
  end.

Definition wfe_custom_registry_ensure (r : registry) (file : file_read) : Z * registry :=
  if g_loaded r then (0, r) else wfe_custom_registry_load file.
End Load.

(** ** Typed inputs and output of a node *)

Section Nodes.
Context (r : registry).

Definition wfe_node_output (n : wfe_node_t) : wfe_artifact_type_t :=
  if bool_decide (n_block n = WFE_BLK_CUSTOM) then
    match wfe_custom_lookup r (Some (n_custom_name n)) with
    | Some c => cb_produces c
    | None => WFE_ART_NONE
    end
  else wfe_block_output (n_block n).

Definition wfe_node_accepts_input (n : wfe_node_t) (inp : wfe_artifact_type_t) : bool :=
  if bool_decide (n_block n = WFE_BLK_CUSTOM) then
    match wfe_custom_lookup r (Some (n_custom_name n)) with
    | Some c => bool_decide (cb_consumes c = inp)
    | None => false
    end
  else wfe_block_accepts_input (n_block n) inp.

Definition wfe_node_requires_input (n : wfe_node_t) : bool :=
  if bool_decide (n_block n = WFE_BLK_CUSTOM) then
    match wfe_custom_lookup r (Some (n_custom_name n)) with
    | Some c => negb (bool_decide (cb_consumes c = WFE_ART_NONE))
    | None => false
    end
  else wfe_block_requires_input (n_block n).
End Nodes.

(** ** The table invariant *)

Record block_ok (b : wfe_custom_block_t) : Prop := {
  bo_name : cb_name b <> [];
  bo_len : (length (cb_name b) < WFE_NAME_LEN)%nat;
  bo_builtin : forall t, builtin t = true -> cb_name b <> wfe_block_name t;
  bo_produces : cb_produces b = WFE_ART_BRANCH \/ cb_produces b = WFE_ART_NONE;
  bo_argv : forall argv, cb_executor b = WFE_EXEC_COMMAND argv ->
    (0 < length argv <= WFE_CUSTOM_ARGV_MAX)%nat
    /\ Forall (fun a => (length a < WFE_CUSTOM_ARG_MAX)%nat) argv;
}.

Record registry_ok (r : registry) : Prop := {
  ro_blocks : Forall block_ok (g_blocks r);
  ro_names : NoDup (cb_name <$> g_blocks r);
  ro_count : (length (g_blocks r) <= WFE_CUSTOM_MAX)%nat;
}.

Lemma parse_argv_ok l argv :
  parse_argv l = inr argv ->
  length argv = length l /\ Forall (fun a => (length a < WFE_CUSTOM_ARG_MAX)%nat) argv.
Proof.
  revert argv. induction l as [|j l IH]; intros argv; cbn [parse_argv]; [by intros [= <-]|].
  destruct j as [| | |s| |]; try done. destruct (Nat.leb_spec WFE_CUSTOM_ARG_MAX (length s)); [done|].
  destruct (parse_argv l) as [|r]; [done|]. intros [= <-].
  destruct (IH r eq_refl) as [Hl Hf]. split; [simpl; by rewrite Hl | by constructor].
Qed.

Lemma parse_executor_ok b ex argv :
  parse_executor b = inr ex -> ex = WFE_EXEC_COMMAND argv ->
  (0 < length argv <= WFE_CUSTOM_ARGV_MAX)%nat
  /\ Forall (fun a => (length a < WFE_CUSTOM_ARG_MAX)%nat) argv.
Proof.
  unfold parse_executor. intros H ->. case_match.
  - destruct (cJSON_GetObjectItemCaseSensitive (Some b) (str "command"))
      as [[| | | |[|a l]|]|]; try done.
    destruct (Nat.ltb_spec WFE_CUSTOM_ARGV_MAX (length (a :: l))) as [|Hle]; [done|].
    destruct (parse_argv (a :: l)) as [|argv'] eqn:Hp; [done|]. injection H as ->.
    apply parse_argv_ok in Hp as [Hl Hf]. rewrite Hl. simpl in *. split; [lia | done].
  - repeat (case_match; try done).
Qed.

Lemma fit_ok cap src what out :
  fit cap src what = inr out -> out = src /\ (length out < cap)%nat.
Proof.
  unfold fit. destruct (Nat.leb_spec cap (length src)) as [|Hl]; [done|].
  intros [= <-]. by rewrite snprintf_s_fits.
Qed.

(** A name that resolves to no block is neither configured nor built in. *)
Lemma unknown_name custom s t :
  wfe_block_from_name custom (Some s) = WFE_BLK_UNKNOWN -> builtin t = true ->
  s <> wfe_block_name t.
Proof. intros Hu Ht ->. revert Hu. by destruct t. Qed.

Lemma parse_one_ok blocks b blk :
  parse_one blocks b = inr blk -> block_ok blk /\ (cb_name blk ∉ (cb_name <$> blocks)).
Proof.
  unfold parse_one. destruct (cJSON_GetObjectItemCaseSensitive (Some b) (str "name")) as [[| | |[|c cs]| |]|]; try done.
  destruct (fit WFE_NAME_LEN (c :: cs) "name") as [|name] eqn:Hfit; [done|].
  apply fit_ok in Hfit as [-> Hlen].
  destruct (existsb _ blocks) eqn:Hdup; [done|]. case_bool_decide as Hu; [|done]. cbn [negb].
  destruct (artifact_from_name _) as [consumes|]; [|done].
  case_bool_decide as Hprod; [|done].
  destruct (parse_executor b) as [|ex] eqn:Hex; [done|]. intros <-%(inj inr). split.
  - constructor; cbn [cb_name cb_produces cb_executor]; [done | done | | |].
    + intros t. by eapply unknown_name.
    + by destruct Hprod as [-> | ->]; [left | right].
    + intros argv Heq. by eapply parse_executor_ok.
  - cbn [cb_name]. intros (x & Heq & Hx)%list_elem_of_fmap.
    rewrite <- not_true_iff_false in Hdup. apply Hdup. apply existsb_exists.
    exists x. split; [by apply list_elem_of_In | by apply bytes_eqb_true].
Qed.

Definition table_ok (blocks : list wfe_custom_block_t) : Prop :=
  Forall block_ok blocks /\ NoDup (cb_name <$> blocks) /\ (length blocks <= WFE_CUSTOM_MAX)%nat.

Lemma parse_blocks_ok blocks l out :
  table_ok blocks -> parse_blocks blocks l = inr out -> table_ok out.
Proof.
  revert blocks. induction l as [|b l IH]; intros blocks (Hf & Hn & Hl); cbn [parse_blocks].
  { by intros [= <-]. }
  destruct (Nat.leb_spec WFE_CUSTOM_MAX (length blocks)) as [|Hlt]; [done|].
  destruct (parse_one blocks b) as [|blk] eqn:Hp; [done|]. apply parse_one_ok in Hp as [Hok Hnew].
  apply IH. split_and!.
  - by apply Forall_app_2; [|constructor].
  - rewrite fmap_app. apply NoDup_app. split_and!; [done | | apply NoDup_singleton].
    intros x Hx Hx'. apply list_elem_of_singleton in Hx' as ->. done.
  - rewrite length_app. simpl. lia.
Qed.

Lemma refused_registry_ok : registry_ok refused_registry.
Proof. constructor; simpl; [constructor | constructor | unfold WFE_CUSTOM_MAX; lia]. Qed.

(** What a load leaves, in either case. *)
Lemma load_outcome yaml_parse trusted file rc r :
  wfe_custom_registry_load yaml_parse trusted file = (rc, r) ->
  registry_ok r /\ g_loaded r = true /\ (rc = 0 \/ rc = -1 /\ r = refused_registry).
Proof.
  unfold wfe_custom_registry_load. pose proof refused_registry_ok as Hr.
  destruct file as [| |buf]; try (intros [= <- <-]; auto).
  destruct (trusted buf); cbn [negb]; [|intros [= <- <-]; auto].
  destruct (yaml_parse buf) as [[| | | | |fields]|]; try (intros [= <- <-]; auto).
  destruct (parse_blocks [] _) as [|blocks] eqn:Hp; intros [= <- <-]; [auto|].
  apply parse_blocks_ok in Hp as (Hf & Hn & Hl).
  2:{ split_and!; [constructor | constructor | unfold WFE_CUSTOM_MAX; simpl; lia]. }
  split; [by constructor | auto].
Qed.

(** Whatever the file holds, loading it leaves a registry of at most 64
    blocks with distinct non-empty names, none the name of a built-in block,
    each producing a branch or nothing; a load that fails leaves no block and
    command blocks disabled. *)
Theorem registry_load_safe yaml_parse trusted file rc r :
  wfe_custom_registry_load yaml_parse trusted file = (rc, r) ->
  registry_ok r /\ (rc = 0 \/ rc = -1 /\ g_blocks r = [] /\ g_allow_command r = false).
Proof.
  intros (Hok & _ & Hrc)%load_outcome. split; [done|].
  destruct Hrc as [->|[-> ->]]; auto.
Qed.

Lemma lookup_block_elem blocks b :
  NoDup (cb_name <$> blocks) -> b ∈ blocks -> lookup_block blocks (cb_name b) = Some b.
Proof.
  intros Hnd [i Hi]%list_elem_of_lookup. unfold lookup_block.
  cut (list_find (fun x => cb_name x = cb_name b) blocks = Some (i, b)); [by intros ->|].
  apply list_find_Some. split_and!; [done..|]. intros j y Hj Hlt Heq.
  cut (j = i); [lia|]. eapply (proj1 (NoDup_alt _) Hnd j i (cb_name b)).
  - by rewrite list_lookup_fmap, Hj, <- Heq.
  - by rewrite list_lookup_fmap, Hi.
Qed.

(** In a loaded registry every block is found under its own name, and its
    name resolves to a configured block and to no built-in one, so no entry
    hides another and none changes what a built-in name means. *)
Theorem registry_resolves r b :
  registry_ok r -> b ∈ g_blocks r ->
  wfe_custom_lookup r (Some (cb_name b)) = Some b
  /\ wfe_block_from_name (is_custom (g_blocks r)) (Some (cb_name b)) = WFE_BLK_CUSTOM.
Proof.
  intros [Hf Hn _] Hb. pose proof (lookup_block_elem _ _ Hn Hb) as Hl. split; [done|].
  rewrite Forall_forall in Hf. pose proof (bo_builtin _ (Hf b Hb)) as Hnb.
  unfold wfe_block_from_name, is_custom. rewrite Hl.
  destruct (list_find _ CATALOG) as [[i e]|] eqn:Hfind; [exfalso|done].
  apply list_find_Some in Hfind as (Hi & He & _).
  pose proof (Hnb (c_t e)) as Hne. apply Hne.
  - do 19 (destruct i as [|i]; [by injection Hi as <-|]). done.
  - rewrite <- He. do 19 (destruct i as [|i]; [by injection Hi as <-|]). done.
Qed.

(** The registry is consulted once: after a file that was refused, the
    next [wfe_custom_registry_ensure] succeeds with no configured block, so a
    definition parsed then sees an empty registry instead of the error. *)
Theorem ensure_after_refusal yaml_parse trusted file r rc :
  wfe_custom_registry_ensure yaml_parse trusted wfe_custom_registry_reset file = (rc, r) ->
  rc <> 0 ->
  forall file', wfe_custom_registry_ensure yaml_parse trusted r file' = (0, r) /\ g_blocks r = [].
Proof.
  unfold wfe_custom_registry_ensure. cbn [g_loaded wfe_custom_registry_reset].
  intros (_ & Hl & Hrc)%load_outcome Hne file'. rewrite Hl.
  destruct Hrc as [->|[_ ->]]; [done|]. done.
Qed.

(** ** The properties at concrete inputs *)

Definition one_block_yaml (_ : bytes) : option json :=
  Some (JObject [(str "blocks", JArray [JObject
    [(str "name", JString (str "lint")); (str "produces", JString (str "branch"));
     (str "executor", JString (str "command")); (str "command", JArray [JString (str "make")])]])]).

Lemma registry_load_safe_witness :
  let c := wfe_custom_registry_load one_block_yaml (fun _ => true) (FR_bytes []) in
  registry_ok (snd c) /\ (fst c = 0 \/ fst c = -1 /\ g_blocks (snd c) = [] /\ g_allow_command (snd c) = false).
Proof.
  intros c. apply (registry_load_safe one_block_yaml (fun _ => true) (FR_bytes []) (fst c) (snd c)).
  vm_compute. reflexivity.
Defined.

Lemma ensure_after_refusal_witness :
  let r := refused_registry in
  forall file', wfe_custom_registry_ensure one_block_yaml (fun _ => false) r file' = (0, r)
    /\ g_blocks r = [].
Proof.
  intros r. by apply (ensure_after_refusal one_block_yaml (fun _ => false) (FR_bytes []) r (-1)).
Defined.

End WfeCustom.
