(* ===== verification/WfeGraph.v ===== *)
(** * Reachability in a workflow graph

    The control edges of a definition as a relation on node positions, its
    reflexive-transitive closure as the meaning of reachability, and the
    specification [explores] of a marking pass, which the recursive walk of
    the validator and the worklist of the delivery gate both meet: starting
    from the marks [a], the pass adds exactly what the targets reach. *)

From Stdlib Require Import ZArith Lia.
From stdpp Require Import base numbers option list relations.
From S2P Require Import Prelude Checks Json WfeDef.

Module WfeGraph.
Import WfeDef.

(** The edges a walk follows: [on_pass] and [next], and [on_fail] unless only
    the success edges are wanted. *)
Definition out_edges (success_only : bool) (n : wfe_node_t) : list bytes :=
  if success_only then [n_on_pass n; n_next n] else [n_on_pass n; n_next n; n_on_fail n].

(** A non-empty edge to the node at position [i]. *)
Definition leads (d : wfe_def_t) (e : bytes) (i : nat) : Prop :=
  e <> [] /\ exists n, find_node d e = Some (i, n).

Definition gstep (d : wfe_def_t) (so : bool) (i j : nat) : Prop :=
  exists n e, d_nodes d !! i = Some n /\ e ∈ out_edges so n /\ leads d e j.

Abbreviation reach d so := (rtc (gstep d so)).

(** ** Marks *)

Definition marked (seen : list bool) (i : nat) : Prop := seen !! i = Some true.

#[export] Instance marked_dec seen i : Decision (marked seen i).
Proof. unfold marked. apply _. Defined.

Definition unseen (seen : list bool) : nat := length (filter (fun b => b = false) seen).

Lemma unseen_insert seen i :
  seen !! i = Some false -> unseen seen = S (unseen (<[i:=true]> seen)).
Proof.
  unfold unseen. revert i. induction seen as [|b seen IH]; intros [|i]; simpl; try done.
  - intros [= ->]. by rewrite filter_cons_True, filter_cons_False.
  - intros Hi. rewrite !filter_cons. case_decide; simpl; by rewrite (IH i Hi).
Qed.

Lemma unseen_mono a b :
  length b = length a -> (forall i, marked a i -> marked b i) -> (unseen b <= unseen a)%nat.
Proof.
  unfold unseen, marked. revert b. induction a as [|x a IH]; intros [|y b]; simpl; try done; [lia..|].
  intros [= Hl] Hm. specialize (IH b Hl). rewrite !filter_cons.
  assert (forall i, a !! i = Some true -> b !! i = Some true) as Hm' by (intros i; apply (Hm (S i))).
  specialize (IH Hm'). pose proof (Hm 0%nat) as H0. simpl in H0.
  destruct x, y; repeat case_decide; simplify_eq/=; try lia. naive_solver.
Qed.

Lemma marked_insert seen i j :
  (i < length seen)%nat -> marked (<[i:=true]> seen) j <-> j = i \/ marked seen j.
Proof.
  intros Hi. unfold marked. destruct (decide (j = i)) as [->|Hne].
  - rewrite list_lookup_insert_eq by done. naive_solver.
  - rewrite list_lookup_insert_ne by done. naive_solver.
Qed.

Lemma not_marked seen i : (i < length seen)%nat -> ~ marked seen i -> seen !! i = Some false.
Proof.
  intros Hi Hn. destruct (lookup_lt_is_Some_2 _ _ Hi) as [[] Hb]; [|done]. by destruct Hn.
Qed.

Lemma unseen_le seen : (unseen seen <= length seen)%nat.
Proof. apply length_filter. Qed.

(** ** Exploring *)

(** [explores d so T a b]: the pass from the marks [a] with targets [T] left
    the marks [b]. *)
Record explores (d : wfe_def_t) (so : bool) (T : nat -> Prop) (a b : list bool) : Prop := {
  ex_length : length b = length a;
  ex_mono : forall i, marked a i -> marked b i;
  ex_target : forall i, T i -> marked b i;
  ex_sound : forall j, marked b j -> marked a j \/ exists i, T i /\ reach d so i j;
  ex_closed : forall j k, marked b j -> ~ marked a j -> gstep d so j k -> marked b k;
}.

Lemma explores_refl d so a : explores d so (fun _ => False) a a.
Proof. constructor; naive_solver. Qed.

Lemma explores_seq d so T T' a b c :
  explores d so T a b -> explores d so T' b c -> explores d so (fun i => T i \/ T' i) a c.
Proof.
  intros [L1 M1 T1 S1 C1] [L2 M2 T2 S2 C2]. constructor.
  - congruence.
  - auto.
  - intros i [?|?]; auto.
  - intros j Hj. destruct (S2 j Hj) as [[?|(i & ? & ?)]%S1|(i & ? & ?)]; eauto.
  - intros j k Hj Hna Hs. destruct (decide (marked b j)); [|by eapply C2].
    apply M2. by eapply C1.
Qed.

Lemma explores_ext d so T T' a b :
  (forall i, T i <-> T' i) -> explores d so T a b -> explores d so T' a b.
Proof.
  intros Heq [L M Tg S C]. constructor; try done.
  - intros i Hi. by apply Tg, Heq.
  - intros j Hj. destruct (S j Hj) as [?|(i & Hi & ?)]; [by left|].
    right. exists i. by rewrite <- Heq.
Qed.

(** Visiting a node: it is marked, then what its edges lead to is explored. *)
Lemma explores_visit d so i n a b :
  length a = length (d_nodes d) -> d_nodes d !! i = Some n -> ~ marked a i ->
  explores d so (fun j => exists e, e ∈ out_edges so n /\ leads d e j) (<[i:=true]> a) b ->
  explores d so (fun j => j = i) a b.
Proof.
  intros Hl Hi Hna [L M T S C].
  assert (Hlt : (i < length a)%nat) by (rewrite Hl; by eapply lookup_lt_Some).
  assert (Hstep : forall j, (exists e, e ∈ out_edges so n /\ leads d e j) <-> gstep d so i j).
  { intros j. split.
    - intros (e & ? & ?). by exists n, e.
    - intros (m & e & Hm & ? & ?). simplify_eq. by exists e. }
  constructor.
  - by rewrite L, length_insert.
  - intros j Hj. apply M. apply marked_insert; auto.
  - intros j ->. apply M. apply marked_insert; auto.
  - intros j Hj. destruct (S j Hj) as [Hm|(k & Hk & Hr)].
    + rewrite marked_insert in Hm by done. destruct Hm as [->|?]; [right | by left].
      exists i. split; [done | constructor].
    + right. exists i. split; [done|]. apply Hstep in Hk. by eapply rtc_l.
  - intros j k Hj Hnj Hs. destruct (decide (j = i)) as [->|Hne].
    + apply T. by apply Hstep.
    + apply (C j k); [done | | done]. rewrite marked_insert by done. naive_solver.
Qed.

(** From no marks, a pass marks exactly what its targets reach. *)
Lemma explores_exact d so T b :
  explores d so T (replicate (length (d_nodes d)) false) b ->
  forall j, marked b j <-> exists i, T i /\ reach d so i j.
Proof.
  intros [L M Tg S C]. set (a := replicate _ _) in *.
  assert (Hno : forall j, ~ marked a j).
  { intros j Hj. apply lookup_replicate in Hj as [? _]. done. }
  intros j. split.
  - intros Hj. destruct (S j Hj) as [Ha|?]; [by destruct (Hno j) | done].
  - intros (i & Hi & Hr). apply Tg in Hi. clear Tg. induction Hr as [x|x y z Hxy _ IH]; [done|].
    apply IH. by eapply C.
Qed.

End WfeGraph.
