(* ===== verification/WfeValidate.v ===== *)
(** * Workflow validator ([src/src/modules/workflows/wfe_validate.c])

    The load-time check of a definition: typed handles, graph health, gate
    rules, the delivery gate of enforced workflows, reviewer independence.
    [wfe_def_validate] runs the checks of the code in its order and returns
    the first diagnostic.  [valid_workflow] states what a workflow that
    passes is, without the loops: the two agree in both directions, so the
    validator refuses exactly the workflows that break a rule.  The recursive
    walk [mark_reachable] is given fuel; one more than the number of nodes is
    enough for every definition, and what it marks is what the start node
    reaches. *)

From Stdlib Require Import ZArith Lia String Ascii.
From stdpp Require Import base numbers option list relations.
From S2P Require Import Prelude Checks Json WfeDef WfeCustom WfeGraph.

Open Scope string_scope.
Open Scope Z_scope.

Module WfeValidate.
Import WfeDef WfeCustom WfeGraph.

Definition node_block_name (n : wfe_node_t) : bytes :=
  if bool_decide (n_block n = WFE_BLK_CUSTOM) then n_custom_name n else wfe_block_name (n_block n).

Definition param_bool (params : option json) (key : string) (dflt : bool) : bool :=
  match cJSON_GetObjectItemCaseSensitive params (str key) with
  | Some (JBool b) => b
  | _ => dflt
  end.

Definition param_str (params : option json) (key : string) : option bytes :=
  json_string (cJSON_GetObjectItemCaseSensitive params (str key)).

Definition panel_has_persona (params : option json) (persona : bytes) : bool :=
  let panel := cJSON_GetObjectItemCaseSensitive params (str "panel") in
  existsb (fun key =>
    existsb (fun it => match it with JString s => bytes_eqb s persona | _ => false end)
            (json_elements (cJSON_GetObjectItemCaseSensitive panel (str key))))
    ["required"; "eligible"].

(** The diagnostics, one per message of the code. *)
Inductive verr :=
  | VE_empty
  | VE_no_memory   (* -1 without a message *)
  | VE_duplicate_id (id : bytes)
  | VE_empty_id
  | VE_id_char (id : bytes)
  | VE_start (start : bytes)
  | VE_trigger_second (id : bytes)
  | VE_trigger_not_start (id : bytes)
  | VE_trigger_inputs (id : bytes)
  | VE_trigger_inbound (id from : bytes)
  | VE_unknown_block (id : bytes)
  | VE_bound_twice (id input : bytes)
  | VE_requires_input (id block : bytes)
  | VE_unknown_producer (id input producer : bytes)
  | VE_input_type (id block input producer : bytes) (out : bytes)
  | VE_single_lens (id : bytes)
  | VE_preauthorized (id : bytes)
  | VE_optional (id : bytes)
  | VE_max_iters (id : bytes)
  | VE_on_max (id : bytes)
  | VE_on_max_pass (id : bytes)
  | VE_edge (id label edge : bytes)
  | VE_no_terminal
  | VE_terminal_not_deliver (id : bytes)
  | VE_no_deliver
  | VE_unreachable (id : bytes)
  | VE_reviewer_missing (id : bytes)
  | VE_reviewer_on_panel (id reviewer roundtable : bytes)
  | VE_fuel.

Section Checks.
Context (reg : registry).

Definition check_inputs (d : wfe_def_t) (n : wfe_node_t) : option verr :=
  first_pair (fun a b => refuse (bool_decide (input_name a = input_name b))
                           (VE_bound_twice (n_id n) (input_name a))) (n_ins n)
  ;! refuse (wfe_node_requires_input reg n && bool_decide (n_ins n = []))
       (VE_requires_input (n_id n) (node_block_name n))
  ;! first_of (fun b =>
       match wfe_def_node d (producer_id b) with
       | None => Some (VE_unknown_producer (n_id n) (input_name b) (producer_id b))
       | Some prod =>
           let out := wfe_node_output reg prod in
           refuse (negb (wfe_node_accepts_input reg n out))
             (VE_input_type (n_id n) (node_block_name n) (input_name b) (producer_id b)
                (wfe_artifact_name out))
       end) (n_ins n).

Definition check_gate_rules (n : wfe_node_t) : option verr :=
  (if bool_decide (n_block n = WFE_BLK_GATE_ROUNDTABLE) then
     let required := cJSON_GetObjectItemCaseSensitive (n_param n "panel") (str "required") in
     refuse (Z.of_nat (length (json_elements required)) <? 2) (VE_single_lens (n_id n))
   else None)
  ;! if bool_decide (n_block n = WFE_BLK_GATE_HUMAN) then
       refuse (bool_decide (param_str (n_params n) "policy" = Some (str "preauthorized")))
         (VE_preauthorized (n_id n))
       ;! refuse (param_bool (n_params n) "optional" false) (VE_optional (n_id n))
     else None.

Definition check_loop_cap (n : wfe_node_t) : option verr :=
  match n_param n "max_iters" with
  | None => None
  | Some (JNumber v _) => refuse (v <=? 0) (VE_max_iters (n_id n))
  | Some _ => Some (VE_max_iters (n_id n))
  end
  ;! match n_param n "on_max" with
     | None => None
     | Some (JString s) =>
         refuse (negb (bytes_eqb s (str "pass")) && negb (bytes_eqb s (str "fail"))
                 && negb (bytes_eqb s (str "human"))) (VE_on_max (n_id n))
         ;! refuse (bytes_eqb s (str "pass") && bool_decide (n_on_pass n = [])
                    && bool_decide (n_next n = [])) (VE_on_max_pass (n_id n))
     | Some _ => Some (VE_on_max (n_id n))
     end.

Definition check_edge (d : wfe_def_t) (n : wfe_node_t) (edge : bytes) (label : string) : option verr :=
  if bool_decide (edge = []) then None
  else match wfe_def_node d edge with
       | None => Some (VE_edge (n_id n) (str label) edge)
       | Some _ => None
       end.

(** [None] is out of fuel. *)
Fixpoint mark_reachable (fuel : nat) (d : wfe_def_t) (id : bytes) (seen : list bool)
    : option (list bool) :=
  match fuel with
  | O => None
  | S fuel =>
      match find_node d id with
      | None => Some seen
      | Some (idx, n) =>
          if bool_decide (marked seen idx) then Some seen
          else
            let visit e seen :=
              if bool_decide (e = []) then Some seen else mark_reachable fuel d e seen in
            seen ← visit (n_next n) (<[idx := true]> seen);
            seen ← visit (n_on_pass n) seen;
            visit (n_on_fail n) seen
      end
  end.

Definition id_char (c : Z) : bool :=
  ((65 <=? c) && (c <=? 90)) || ((97 <=? c) && (c <=? 122)) || ((48 <=? c) && (c <=? 57))
  || (c =? 95) || (c =? 45).

Definition check_id (n : wfe_node_t) : option verr :=
  refuse (bool_decide (n_id n = [])) VE_empty_id
  ;! refuse (negb (forallb id_char (n_id n))) (VE_id_char (n_id n)).

(** The trigger loop: [i] is the position of the first node of [l] and
    [triggers] the number of trigger blocks before it. *)
Fixpoint check_triggers (d : wfe_def_t) (i triggers : nat) (l : list wfe_node_t) : option verr :=
  match l with
  | [] => None
  | n :: l =>
      if negb (bool_decide (n_block n = WFE_BLK_TRIGGER_WATCH_DIR)) then
        check_triggers d (S i) triggers l
      else
        refuse (1 <? S triggers)%nat (VE_trigger_second (n_id n))
        ;! refuse (negb (bytes_eqb (d_start d) (n_id n))) (VE_trigger_not_start (n_id n))
        ;! refuse (0 <? length (n_ins n))%nat (VE_trigger_inputs (n_id n))
        ;! first_of (fun jm : nat * wfe_node_t =>
             if (jm.1 =? i)%nat then None
             else refuse (bytes_eqb (n_next jm.2) (n_id n) || bytes_eqb (n_on_pass jm.2) (n_id n)
                          || bytes_eqb (n_on_fail jm.2) (n_id n))
                    (VE_trigger_inbound (n_id n) (n_id jm.2))) (imap pair (d_nodes d))
        ;! check_triggers d (S i) (S triggers) l
  end.

Definition check_node (d : wfe_def_t) (n : wfe_node_t) : option verr :=
  refuse (bool_decide (n_block n = WFE_BLK_UNKNOWN)) (VE_unknown_block (n_id n))
  ;! check_inputs d n
  ;! check_gate_rules n
  ;! check_loop_cap n
  ;! check_edge d n (n_next n) "next"
  ;! check_edge d n (n_on_pass n) "on_pass"
  ;! check_edge d n (n_on_fail n) "on_fail".

(** No outgoing control edge. *)
Definition is_terminal (n : wfe_node_t) : bool :=
  bool_decide (n_next n = []) && bool_decide (n_on_pass n = []) && bool_decide (n_on_fail n = []).

Definition check_deliver (d : wfe_def_t) : option verr :=
  first_of (fun n => refuse (is_terminal n && negb (bool_decide (n_block n = WFE_BLK_GATE_DELIVER)))
                       (VE_terminal_not_deliver (n_id n))) (d_nodes d)
  ;! refuse (negb (existsb is_terminal (d_nodes d))) VE_no_deliver.

(** [memory] says whether the array of marks is granted. *)
Definition check_reachable (memory : bool) (d : wfe_def_t) : option verr :=
  if negb memory then Some VE_no_memory
  else
  match mark_reachable (S (length (d_nodes d))) d (d_start d)
          (replicate (length (d_nodes d)) false) with
  | None => Some VE_fuel
  | Some seen =>
      first_of (fun p : wfe_node_t * bool => refuse (negb p.2) (VE_unreachable (n_id p.1)))
        (zip (d_nodes d) seen)
  end.

Definition check_review (d : wfe_def_t) (rv : wfe_node_t) : option verr :=
  if negb (bool_decide (n_block rv = WFE_BLK_REVIEW)) then None
  else
    match param_str (n_params rv) "reviewer" with
    | None | Some [] => refuse (d_enforced d) (VE_reviewer_missing (n_id rv))
    | Some reviewer =>
        first_of (fun m =>
          refuse (bool_decide (n_block m = WFE_BLK_GATE_ROUNDTABLE)
                  && panel_has_persona (n_params m) reviewer)
            (VE_reviewer_on_panel (n_id rv) reviewer (n_id m))) (d_nodes d)
    end.

Definition wfe_def_validate (memory : bool) (d : wfe_def_t) : option verr :=
  refuse (bool_decide (d_nodes d = [])) VE_empty
  ;! first_pair (fun a b => refuse (bool_decide (n_id a = n_id b)) (VE_duplicate_id (n_id a))) (d_nodes d)
  ;! first_of check_id (d_nodes d)
  ;! refuse (bool_decide (wfe_def_node d (d_start d) = None)) (VE_start (d_start d))
  ;! check_triggers d 0 0 (d_nodes d)
  ;! first_of (check_node d) (d_nodes d)
  ;! refuse (negb (existsb is_terminal (d_nodes d))) VE_no_terminal
  ;! (if d_enforced d then check_deliver d else None)
  ;! check_reachable memory d
  ;! first_of (check_review d) (d_nodes d).
End Checks.

(** ** The walk *)

Section Walk.
Context (d : wfe_def_t).
Abbreviation size := (length (d_nodes d)).

(** What one call of the walk, or a guarded call along an edge, does. *)
Definition walks (T : nat -> Prop) (a : list bool) (r : option (list bool)) : Prop :=
  exists b, r = Some b /\ explores d false T a b.

Lemma explores_fits T a b fuel :
  explores d false T a b -> length a = size -> (unseen a < fuel)%nat ->
  length b = size /\ (unseen b < fuel)%nat.
Proof.
  intros [L M _ _ _] Hl Hu. pose proof (unseen_mono a b L M). split; [congruence | lia].
Qed.

Lemma walks_seq T T' a r k :
  walks T a r ->
  (forall b, explores d false T a b -> walks T' b (k b)) ->
  walks (fun i => T i \/ T' i) a (r ≫= k).
Proof.
  intros (b & -> & Hb) Hk. destruct (Hk b Hb) as (c & Hc & Hcx). exists c. split; [done|].
  by eapply explores_seq.
Qed.

Lemma explores_marked i a : marked a i -> explores d false (fun j => j = i) a a.
Proof. intros Hi. constructor; naive_solver. Qed.

Lemma mark_reachable_walks fuel id a :
  length a = size -> (unseen a < fuel)%nat ->
  walks (fun i => exists n, find_node d id = Some (i, n)) a (mark_reachable fuel d id a).
Proof.
  revert id a. induction fuel as [|fuel IH]; intros id a Hl Hu; [lia|]. cbn [mark_reachable].
  destruct (find_node d id) as [[idx n]|] eqn:Hf.
  2:{ exists a. split; [done|]. eapply explores_ext, explores_refl. naive_solver. }
  apply find_node_spec in Hf as [Hidx _].
  assert (Hlt : (idx < length a)%nat) by (rewrite Hl; by eapply lookup_lt_Some).
  case_bool_decide as Hm.
  { exists a. split; [done|]. eapply explores_ext, explores_marked, Hm. naive_solver. }
  set (a1 := <[idx := true]> a).
  assert (Hl1 : length a1 = size) by (unfold a1; by rewrite length_insert).
  assert (Hu1 : (unseen a1 < fuel)%nat).
  { pose proof (unseen_insert a idx (not_marked _ _ Hlt Hm)). unfold a1. lia. }
  assert (Hvisit : forall e x, length x = size -> (unseen x < fuel)%nat ->
    walks (leads d e) x (if bool_decide (e = []) then Some x else mark_reachable fuel d e x)).
  { intros e x Hlx Hux. case_bool_decide as He.
    - exists x. split; [done|]. eapply explores_ext, explores_refl. unfold leads. naive_solver.
    - destruct (IH e x Hlx Hux) as (b & Hb & Hbx). exists b. split; [done|].
      eapply explores_ext, Hbx. unfold leads. naive_solver. }
  edestruct (walks_seq (leads d (n_next n))
    (fun i => leads d (n_on_pass n) i \/ leads d (n_on_fail n) i) a1) as (b & Hb & Hbx);
    [by apply Hvisit | | exists b; split; [exact Hb|] ].
  - intros x Hx. destruct (explores_fits _ _ _ _ Hx Hl1 Hu1) as [Hlx Hux].
    apply walks_seq; [by apply Hvisit|]. intros y Hy.
    destruct (explores_fits _ _ _ _ Hy Hlx Hux). by apply Hvisit.
  - eapply explores_ext; [|eapply (explores_visit _ _ idx n); [done | done | done |]].
    + naive_solver.
    + eapply explores_ext, Hbx. intros i. unfold out_edges. setoid_rewrite elem_of_cons. set_solver.
Qed.
End Walk.

(** The recursive walk of the validator returns on every graph, cycles
    included, with a recursion depth of at most the number of nodes plus one,
    and marks exactly the nodes reachable from the given one along control
    edges. *)
Theorem mark_reachable_exact d id :
  exists seen,
    mark_reachable (S (length (d_nodes d))) d id (replicate (length (d_nodes d)) false) = Some seen
    /\ length seen = length (d_nodes d)
    /\ forall j, marked seen j <-> exists i n, find_node d id = Some (i, n) /\ reach d false i j.
Proof.
  set (a := replicate (length (d_nodes d)) false).
  assert (Hl : length a = length (d_nodes d)) by apply length_replicate.
  destruct (mark_reachable_walks d (S (length (d_nodes d))) id a Hl) as (b & Hb & Hex).
  { pose proof (unseen_le a). lia. }
  exists b. split_and!; [done | rewrite (ex_length _ _ _ _ _ Hex); done|].
  intros j. rewrite (explores_exact _ _ _ _ Hex). naive_solver.
Qed.

(** ** What a valid workflow is *)

Section Spec.
Context (reg : registry) (d : wfe_def_t).

(** The bindings of a node: no slot is bound twice, a node that needs an
    input has one, and each is bound to a node of the workflow whose output
    has a type the node accepts. *)
Record node_typed (n : wfe_node_t) : Prop := {
  nt_slots : NoDup (input_name <$> n_ins n);
  nt_required : wfe_node_requires_input reg n = true -> n_ins n <> [];
  nt_bound : forall b, b ∈ n_ins n -> exists prod,
    wfe_def_node d (producer_id b) = Some prod
    /\ wfe_node_accepts_input reg n (wfe_node_output reg prod) = true;
}.

Record gate_sound (n : wfe_node_t) : Prop := {
  gs_panel : n_block n = WFE_BLK_GATE_ROUNDTABLE ->
    (2 <= length (json_elements
       (cJSON_GetObjectItemCaseSensitive (n_param n "panel") (str "required"))))%nat;
  gs_policy : n_block n = WFE_BLK_GATE_HUMAN ->
    n_param n "policy" <> Some (JString (str "preauthorized"));
  gs_optional : n_block n = WFE_BLK_GATE_HUMAN -> n_param n "optional" <> Some (JBool true);
}.

Record cap_sound (n : wfe_node_t) : Prop := {
  cs_iters : forall j, n_param n "max_iters" = Some j -> exists v w, j = JNumber v w /\ 0 < v;
  cs_on_max : forall j, n_param n "on_max" = Some j ->
    j = JString (str "pass") \/ j = JString (str "fail") \/ j = JString (str "human");
  cs_pass : wfe_node_on_max n = WFE_ON_MAX_PASS -> n_on_pass n <> [] \/ n_next n <> [];
}.

Definition edges_resolve (n : wfe_node_t) : Prop :=
  forall e, e ∈ out_edges false n -> e <> [] -> is_Some (wfe_def_node d e).

Record trigger_rule (i : nat) (n : wfe_node_t) : Prop := {
  tr_start : d_start d = n_id n;
  tr_ins : n_ins n = [];
  tr_inbound : forall j m, j <> i -> d_nodes d !! j = Some m -> (n_id n ∉ out_edges false m);
}.

Definition on_panel (params : option json) (persona : bytes) : Prop :=
  exists key, (key = "required" \/ key = "eligible") /\
    JString persona ∈ json_elements (cJSON_GetObjectItemCaseSensitive
      (cJSON_GetObjectItemCaseSensitive params (str "panel")) (str key)).

Definition review_rule (rv : wfe_node_t) : Prop :=
  match param_str (n_params rv) "reviewer" with
  | None | Some [] => d_enforced d = false
  | Some reviewer => forall m, m ∈ d_nodes d -> n_block m = WFE_BLK_GATE_ROUNDTABLE ->
      ~ on_panel (n_params m) reviewer
  end.

Record node_valid (n : wfe_node_t) : Prop := {
  nv_id : n_id n <> [] /\ Forall (fun c => id_char c = true) (n_id n);
  nv_block : n_block n <> WFE_BLK_UNKNOWN;
  nv_typed : node_typed n;
  nv_gate : gate_sound n;
  nv_cap : cap_sound n;
  nv_edges : edges_resolve n;
  nv_review : n_block n = WFE_BLK_REVIEW -> review_rule n;
}.

Record valid_workflow : Prop := {
  vw_ids : NoDup (n_id <$> d_nodes d);
  vw_nodes : forall n, n ∈ d_nodes d -> node_valid n;
  vw_triggers : forall i n, d_nodes d !! i = Some n ->
    n_block n = WFE_BLK_TRIGGER_WATCH_DIR -> trigger_rule i n;
  vw_terminal : exists n, n ∈ d_nodes d /\ is_terminal n = true;
  vw_deliver : d_enforced d = true -> forall n, n ∈ d_nodes d -> is_terminal n = true ->
    n_block n = WFE_BLK_GATE_DELIVER;
  vw_reachable : exists s n0, find_node d (d_start d) = Some (s, n0)
    /\ forall j, (j < length (d_nodes d))%nat -> reach d false s j;
}.
End Spec.

(** ** Each check against its rule *)

Section Iff.
Context (reg : registry) (d : wfe_def_t).

Lemma check_id_iff n :
  check_id n = None <-> n_id n <> [] /\ Forall (fun c => id_char c = true) (n_id n).
Proof.
  unfold check_id. checks. rewrite bool_decide_eq_false, negb_false_iff, forallb_forall, Forall_forall.
  by setoid_rewrite list_elem_of_In.
Qed.

Lemma check_inputs_iff n : check_inputs reg d n = None <-> node_typed reg d n.
Proof.
  unfold check_inputs. checks. rewrite (first_pair_NoDup input_name), first_of_none, andb_false_iff,
    bool_decide_eq_false.
  assert (Hb : (forall b, b ∈ n_ins n ->
      match wfe_def_node d (producer_id b) with
      | Some prod => refuse (negb (wfe_node_accepts_input reg n (wfe_node_output reg prod)))
          (VE_input_type (n_id n) (node_block_name n) (input_name b) (producer_id b)
             (wfe_artifact_name (wfe_node_output reg prod)))
      | None => Some (VE_unknown_producer (n_id n) (input_name b) (producer_id b))
      end = None) <->
      (forall b, b ∈ n_ins n -> exists prod, wfe_def_node d (producer_id b) = Some prod
        /\ wfe_node_accepts_input reg n (wfe_node_output reg prod) = true)).
  { apply forall_proper. intros b. apply forall_proper. intros _.
    destruct (wfe_def_node d (producer_id b)) as [prod|]; [|split; [done | by intros (? & ? & _)]].
    rewrite refuse_none, negb_false_iff. naive_solver. }
  cbv zeta. rewrite Hb. split.
  - intros (H1 & H2 & H3). constructor; try done. intros Hr. destruct H2; [congruence | done].
  - intros [H1 H2 H3]. split_and!; try done.
    destruct (wfe_node_requires_input reg n); [right; auto | by left].
Qed.

Lemma param_str_iff params key s :
  param_str params key = Some s
  <-> cJSON_GetObjectItemCaseSensitive params (str key) = Some (JString s).
Proof.
  unfold param_str. destruct (cJSON_GetObjectItemCaseSensitive params (str key)) as [[| | |t| |]|];
    simpl; naive_solver.
Qed.

Lemma param_bool_iff params key :
  param_bool params key false = true
  <-> cJSON_GetObjectItemCaseSensitive params (str key) = Some (JBool true).
Proof.
  unfold param_bool. destruct (cJSON_GetObjectItemCaseSensitive params (str key)) as [[|[]| | | |]|];
    simpl; naive_solver.
Qed.

Lemma check_gate_rules_iff n : check_gate_rules n = None <-> gate_sound n.
Proof.
  unfold check_gate_rules. rewrite check_seq_none.
  assert (H1 : (if bool_decide (n_block n = WFE_BLK_GATE_ROUNDTABLE)
     then refuse (Z.of_nat (length (json_elements
       (cJSON_GetObjectItemCaseSensitive (n_param n "panel") (str "required")))) <? 2)
       (VE_single_lens (n_id n)) else None) = None
    <-> (n_block n = WFE_BLK_GATE_ROUNDTABLE -> (2 <= length (json_elements
       (cJSON_GetObjectItemCaseSensitive (n_param n "panel") (str "required"))))%nat)).
  { case_bool_decide; [|by split]. rewrite refuse_none, Z.ltb_ge. intuition lia. }
  assert (H2 : (if bool_decide (n_block n = WFE_BLK_GATE_HUMAN)
     then refuse (bool_decide (param_str (n_params n) "policy" = Some (str "preauthorized")))
            (VE_preauthorized (n_id n))
          ;! refuse (param_bool (n_params n) "optional" false) (VE_optional (n_id n))
     else None) = None
    <-> (n_block n = WFE_BLK_GATE_HUMAN ->
          n_param n "policy" <> Some (JString (str "preauthorized"))
          /\ n_param n "optional" <> Some (JBool true))).
  { destruct (decide (n_block n = WFE_BLK_GATE_HUMAN)) as [Hb|Hb];
      [rewrite (bool_decide_eq_true_2 _ Hb) | rewrite (bool_decide_eq_false_2 _ Hb); by split].
    checks.
    rewrite bool_decide_eq_false, param_str_iff, <- not_true_iff_false, param_bool_iff.
    unfold n_param. tauto. }
  cbv zeta. rewrite H1, H2. split.
  - intros [HA HB]. constructor; [done | |]; intros Hh; by apply HB.
  - intros [HA HB HC]. split; [done|]. auto.
Qed.

Lemma on_max_pass_iff n :
  wfe_node_on_max n = WFE_ON_MAX_PASS <-> n_param n "on_max" = Some (JString (str "pass")).
Proof.
  unfold wfe_node_on_max. destruct (n_param n "on_max") as [[| | |s| |]|]; try by split.
  destruct (bytes_eqb s (str "fail")) eqn:Hf.
  { apply bytes_eqb_true in Hf as ->. split; [done|]. intros [=]. }
  destruct (bytes_eqb s (str "pass")) eqn:Hp.
  { apply bytes_eqb_true in Hp as ->. done. }
  apply bytes_eqb_false in Hp. split; [done|]. congruence.
Qed.

Lemma check_loop_cap_iff n : check_loop_cap n = None <-> cap_sound n.
Proof.
  unfold check_loop_cap. rewrite check_seq_none. split.
  - intros [H1 H2]. constructor.
    + intros j Hj. rewrite Hj in H1. destruct j as [| |v w| | |]; try done.
      rewrite refuse_none, Z.leb_gt in H1. by exists v, w.
    + intros j Hj. rewrite Hj in H2. destruct j as [| | |s| |]; try done.
      rewrite check_seq_none, !refuse_none in H2. destruct H2 as [H2 _].
      rewrite !andb_false_iff, !negb_false_iff, !bytes_eqb_true in H2. naive_solver.
    + intros Hp%on_max_pass_iff. rewrite Hp in H2. cbv beta iota in H2.
      rewrite check_seq_none, !refuse_none, bytes_eqb_refl in H2. destruct H2 as [_ H2].
      cbn [andb] in H2. rewrite andb_false_iff, !bool_decide_eq_false in H2. done.
  - intros [H1 H2 H3]. split.
    + destruct (n_param n "max_iters") as [j|]; [|done]. destruct (H1 j eq_refl) as (v & w & -> & Hv).
      apply refuse_none, Z.leb_gt. done.
    + rewrite on_max_pass_iff in H3. destruct (n_param n "on_max") as [j|]; [|done].
      destruct (H2 j eq_refl) as [-> | [-> | ->]]; [|done..].
      checks. split; [done|]. rewrite bytes_eqb_refl. cbn [andb].
      rewrite andb_false_iff, !bool_decide_eq_false. by apply H3.
Qed.

Lemma check_edge_iff n e label :
  check_edge d n e label = None <-> (e <> [] -> is_Some (wfe_def_node d e)).
Proof.
  unfold check_edge. case_bool_decide; [naive_solver|].
  destruct (wfe_def_node d e); [naive_solver|].
  split; [done|]. intros Hs. by destruct (Hs H).
Qed.

Lemma edges_iff n :
  check_edge d n (n_next n) "next" = None /\ check_edge d n (n_on_pass n) "on_pass" = None
  /\ check_edge d n (n_on_fail n) "on_fail" = None <-> edges_resolve d n.
Proof.
  rewrite !check_edge_iff. unfold edges_resolve, out_edges. setoid_rewrite elem_of_cons.
  setoid_rewrite elem_of_cons. setoid_rewrite elem_of_cons. setoid_rewrite elem_of_nil. naive_solver.
Qed.

Lemma panel_has_persona_iff params persona :
  panel_has_persona params persona = true <-> on_panel params persona.
Proof.
  unfold panel_has_persona, on_panel. rewrite existsb_exists. split.
  - intros (key & Hkey & (it & Hit & Heq)%existsb_exists). exists key. split; [by destruct Hkey as [<-|[<-|[]]]; auto|].
    destruct it as [| | |s| |]; try done. apply bytes_eqb_true in Heq as ->. by apply list_elem_of_In.
  - intros (key & Hkey & Hin). exists key. split; [by destruct Hkey as [->| ->]; simpl; auto|].
    apply existsb_exists. exists (JString persona). split; [by apply list_elem_of_In | apply bytes_eqb_refl].
Qed.

Lemma check_review_iff rv :
  check_review d rv = None <-> (n_block rv = WFE_BLK_REVIEW -> review_rule d rv).
Proof.
  unfold check_review, review_rule. case_bool_decide as Hb; cbn [negb]; [|naive_solver].
  destruct (param_str (n_params rv) "reviewer") as [[|c cs]|]; [rewrite refuse_none; naive_solver | |
    rewrite refuse_none; naive_solver].
  rewrite first_of_none. setoid_rewrite refuse_none. setoid_rewrite andb_false_iff.
  setoid_rewrite bool_decide_eq_false. setoid_rewrite <- not_true_iff_false.
  setoid_rewrite panel_has_persona_iff. split.
  - intros H _ m Hm Hr. destruct (H m Hm); [done..].
  - intros H m Hm. destruct (decide (n_block m = WFE_BLK_GATE_ROUNDTABLE)); [right | by left].
    by apply H.
Qed.

Lemma check_node_iff n :
  check_id n = None /\ check_node reg d n = None /\ check_review d n = None <-> node_valid reg d n.
Proof.
  unfold check_node. checks. rewrite bool_decide_eq_false, check_id_iff, check_inputs_iff,
    check_gate_rules_iff, check_loop_cap_iff, edges_iff, check_review_iff. split.
  - intros (H1 & (H2 & H3 & H4 & H5 & H6) & H7). by constructor.
  - intros [H1 H2 H3 H4 H5 H6 H7]. tauto.
Qed.

(** ** Triggers *)

Definition is_trigger (n : wfe_node_t) : bool :=
  bool_decide (n_block n = WFE_BLK_TRIGGER_WATCH_DIR).

Lemma trigger_checks_iff i n :
  negb (bytes_eqb (d_start d) (n_id n)) = false /\ (0 <? length (n_ins n))%nat = false
  /\ first_of (fun jm : nat * wfe_node_t =>
       if (jm.1 =? i)%nat then None
       else refuse (bytes_eqb (n_next jm.2) (n_id n) || bytes_eqb (n_on_pass jm.2) (n_id n)
                    || bytes_eqb (n_on_fail jm.2) (n_id n))
              (VE_trigger_inbound (n_id n) (n_id jm.2))) (imap pair (d_nodes d)) = None
  <-> trigger_rule d i n.
Proof.
  rewrite negb_false_iff, bytes_eqb_true, first_of_none.
  assert (Hlen : (0 <? length (n_ins n))%nat = false <-> n_ins n = []).
  { by destruct (n_ins n). }
  rewrite Hlen. clear Hlen.
  assert (Hin : (forall x : nat * wfe_node_t, x ∈ imap pair (d_nodes d) ->
      (if (x.1 =? i)%nat then None
       else refuse (bytes_eqb (n_next x.2) (n_id n) || bytes_eqb (n_on_pass x.2) (n_id n)
                    || bytes_eqb (n_on_fail x.2) (n_id n))
              (VE_trigger_inbound (n_id n) (n_id x.2))) = None)
    <-> (forall j m, j <> i -> d_nodes d !! j = Some m -> (n_id n ∉ out_edges false m))).
  { assert (Hm : forall m, (n_id n ∉ out_edges false m) <->
      bytes_eqb (n_next m) (n_id n) || bytes_eqb (n_on_pass m) (n_id n)
        || bytes_eqb (n_on_fail m) (n_id n) = false).
    { intros m. unfold out_edges. rewrite !not_elem_of_cons, !orb_false_iff, !bytes_eqb_false.
      pose proof (not_elem_of_nil (n_id n)). intuition congruence. }
    setoid_rewrite Hm. split.
    - intros H j m Hj Hl. specialize (H (j, m)). cbn [fst snd] in H.
      rewrite (proj2 (Nat.eqb_neq j i) Hj), refuse_none in H. apply H.
      apply elem_of_lookup_imap. by exists j, m.
    - intros H [j m] (j' & m' & [= <- <-] & Hl)%elem_of_lookup_imap. cbn [fst snd].
      destruct (Nat.eqb_spec j i) as [|Hne]; [done|]. apply refuse_none. by apply (H j m). }
  rewrite Hin. split; [intros (? & ? & ?); by constructor | intros [? ? ?]; done].
Qed.

Lemma check_triggers_sound i t l :
  check_triggers d i t l = None ->
  forall k n, l !! k = Some n -> is_trigger n = true -> trigger_rule d (i + k) n.
Proof.
  revert i t. induction l as [|m l IH]; intros i t; [done|]. cbn [check_triggers].
  fold (is_trigger m). destruct (is_trigger m) eqn:Hm; cbn [negb].
  - rewrite !check_seq_none, !refuse_none. intros (_ & H1 & H2 & H3 & H4) [|k] n Hk Hn.
    + injection Hk as <-. rewrite Nat.add_0_r. by apply trigger_checks_iff.
    + replace (i + S k)%nat with (S i + k)%nat by lia. by eapply IH.
  - intros H [|k] n Hk Hn; [injection Hk as <-; congruence|].
    replace (i + S k)%nat with (S i + k)%nat by lia. by eapply IH.
Qed.

Lemma check_triggers_complete i t l :
  (forall k n, l !! k = Some n -> is_trigger n = true -> trigger_rule d (i + k) n) ->
  (t + length (filter (fun n => is_trigger n = true) l) <= 1)%nat ->
  check_triggers d i t l = None.
Proof.
  revert i t. induction l as [|m l IH]; intros i t Hr Hc; [done|]. cbn [check_triggers].
  fold (is_trigger m). rewrite filter_cons in Hc.
  assert (Hrest : forall k n, l !! k = Some n -> is_trigger n = true -> trigger_rule d (S i + k) n).
  { intros k n Hk Hn. replace (S i + k)%nat with (i + S k)%nat by lia. by apply Hr. }
  destruct (is_trigger m) eqn:Hm; cbn [negb].
  - case_decide; [|done]. simpl in Hc. checks.
    pose proof (Hr 0%nat m eq_refl Hm) as H0. rewrite Nat.add_0_r in H0.
    apply trigger_checks_iff in H0 as (H1 & H2 & H3). split_and!; [|done..|].
    + apply Nat.ltb_ge. lia.
    + apply IH; [done | lia].
  - case_decide; [congruence|]. by apply IH.
Qed.

(** Only one node can be the start, so the rule leaves one trigger. *)
Lemma trigger_unique :
  NoDup (n_id <$> d_nodes d) ->
  (forall i n, d_nodes d !! i = Some n -> n_block n = WFE_BLK_TRIGGER_WATCH_DIR -> trigger_rule d i n) ->
  (length (filter (fun n => is_trigger n = true) (d_nodes d)) <= 1)%nat.
Proof.
  intros Hnd Hr.
  assert (Hall : Forall (fun n => n_id n = d_start d) (filter (fun n => is_trigger n = true) (d_nodes d))).
  { apply Forall_forall. intros n [Ht [i Hi]%list_elem_of_lookup]%list_elem_of_filter.
    apply bool_decide_eq_true in Ht. symmetry. by apply (Hr i n). }
  assert (Hsub : NoDup (n_id <$> filter (fun n => is_trigger n = true) (d_nodes d))).
  { eapply sublist_NoDup; [exact Hnd|]. apply fmap_sublist, sublist_filter. }
  destruct (filter _ (d_nodes d)) as [|x [|y l]]; simpl; [lia..|].
  inversion_clear Hall as [|? ? Hx Hl]. inversion_clear Hl as [|? ? Hy _].
  simpl in Hsub. rewrite Hx, Hy in Hsub. inversion_clear Hsub as [|? ? Hn _].
  exfalso. apply Hn. left.
Qed.

(** ** The graph checks *)

Lemma existsb_terminal_iff :
  existsb is_terminal (d_nodes d) = true <-> exists n, n ∈ d_nodes d /\ is_terminal n = true.
Proof. rewrite existsb_exists. by setoid_rewrite list_elem_of_In. Qed.

Lemma check_deliver_iff :
  existsb is_terminal (d_nodes d) = true ->
  (if d_enforced d then check_deliver d else None) = None <->
  (d_enforced d = true -> forall n, n ∈ d_nodes d -> is_terminal n = true ->
     n_block n = WFE_BLK_GATE_DELIVER).
Proof.
  intros Ht. destruct (d_enforced d); [|naive_solver].
  unfold check_deliver. checks. rewrite Ht, first_of_none. setoid_rewrite refuse_none.
  setoid_rewrite andb_false_iff. setoid_rewrite negb_false_iff. setoid_rewrite bool_decide_eq_true.
  split.
  - intros [H _] _ n Hn Hterm. destruct (H n Hn); [congruence | done].
  - intros H. split; [|done]. intros n Hn. destruct (is_terminal n) eqn:He; [right; auto | by left].
Qed.

Lemma check_reachable_iff memory :
  is_Some (find_node d (d_start d)) ->
  check_reachable memory d = None <->
  memory = true /\ exists s n0, find_node d (d_start d) = Some (s, n0)
    /\ forall j, (j < length (d_nodes d))%nat -> reach d false s j.
Proof.
  intros [[s n0] Hs]. unfold check_reachable. destruct memory; cbn [negb]; [|by split; [|intros [? _]]].
  destruct (mark_reachable_walks d (S (length (d_nodes d))) (d_start d)
    (replicate (length (d_nodes d)) false)) as (seen & -> & Hex).
  { apply length_replicate. }
  { pose proof (unseen_le (replicate (length (d_nodes d)) false)).
    rewrite length_replicate in *. lia. }
  pose proof (explores_exact _ _ _ _ Hex) as Hm.
  assert (Hl : length seen = length (d_nodes d)).
  { rewrite (ex_length _ _ _ _ _ Hex). apply length_replicate. }
  rewrite first_of_none. setoid_rewrite refuse_none. setoid_rewrite negb_false_iff. split.
  - intros H. split; [done|]. exists s, n0. split; [done|]. intros j Hj.
    destruct (lookup_lt_is_Some_2 seen j) as [b Hb]; [lia|].
    destruct (lookup_lt_is_Some_2 (d_nodes d) j) as [n Hn]; [lia|].
    assert (b = true) as ->.
    { apply (H (n, b)). apply (list_elem_of_lookup_2 _ j). apply lookup_zip_with_Some. naive_solver. }
    apply Hm in Hb as (i & (n1 & Hi) & Hr). rewrite Hs in Hi. by injection Hi as -> ->.
  - intros (_ & s' & n0' & Hs' & Hr) [n b] [j Hj]%list_elem_of_lookup.
    apply lookup_zip_with_Some in Hj as (n' & b' & [= -> ->] & Hn & Hb). cbn [snd].
    cut (marked seen j); [unfold marked; congruence|]. apply Hm. exists s'. split; [by exists n0'|].
    apply Hr. by eapply lookup_lt_Some.
Qed.
End Iff.

(** The validator against its rules, in both directions. *)
Lemma validate_spec reg memory d :
  wfe_def_validate reg memory d = None <-> memory = true /\ valid_workflow reg d.
Proof.
  unfold wfe_def_validate. checks.
  rewrite (first_pair_NoDup n_id), bool_decide_eq_false, bool_decide_eq_false,
    wfe_def_node_none, negb_false_iff. split.
  - intros (Hne & Hnd & Hid & Hstart & Htr & Hnode & Hterm & Hdel & Hreach & Hrev).
    rewrite check_deliver_iff in Hdel by done.
    rewrite check_reachable_iff in Hreach by (by apply not_eq_None_Some). destruct Hreach as [Hmem Hreach].
    rewrite existsb_terminal_iff in Hterm. rewrite first_of_none in Hid, Hnode, Hrev.
    split; [done|]. constructor; try done.
    + intros n Hn. apply check_node_iff. auto.
    + intros i n Hi Hb. eapply (check_triggers_sound d 0 0); [done | done |].
      by apply bool_decide_eq_true.
  - intros [-> [Hnd Hn Htr (n & Hin & Ht) Hdel (s & n0 & Hs & Hr)]].
    assert (Hterm : existsb is_terminal (d_nodes d) = true)
      by (apply existsb_terminal_iff; by exists n).
    setoid_rewrite <- check_node_iff in Hn. split_and!; try done.
    + intros He. rewrite He in Hin. by apply elem_of_nil in Hin.
    + apply first_of_none. intros x Hx. by apply Hn.
    + by rewrite Hs.
    + apply check_triggers_complete; [|simpl; by apply trigger_unique].
      intros k m Hk Hm. apply (Htr k m Hk). by apply bool_decide_eq_true in Hm.
    + apply first_of_none. intros x Hx. by apply Hn.
    + by apply check_deliver_iff.
    + apply check_reachable_iff; [by rewrite Hs|]. split; [done|]. by exists s, n0.
    + apply first_of_none. intros x Hx. by apply Hn.
Qed.

(** C18: The validator accepts exactly the workflows that keep its rules, when
    its array of marks is granted: unique safe ids, typed bindings, sound gates
    and caps, resolving edges, one trigger at most, which is the start and has
    no edge from another node, a node without edges, every such node of an
    enforced workflow a delivery gate, every node reachable from the start,
    and reviewers off the panels.  Without memory it refuses. *)
Theorem validate_iff reg memory d :
  wfe_def_validate reg memory d = None <-> memory = true /\ valid_workflow reg d.
Proof. apply validate_spec. Qed.

End WfeValidate.
