(* ===== verification/WfeDeliver.v ===== *)
(** * Delivery gate re-verification ([src/src/modules/workflows/wfe_deliver.c])

    Before [gate.deliver] advances, every verdict gate that lies on a success
    path to it must have an approving record.  [mark_reach] is the worklist
    walk of the code over its heap array of [n_nodes] integers: a push past
    the end of the array is undefined behaviour and is an outcome of its own
    here.  Fuel [3 n + 2] is enough: each node is expanded once and pushes at
    most three entries.  Shown: a walk that stays in bounds marks exactly
    what is reachable; then, with its memory granted, the re-check passes
    exactly when every gate that can lead to delivery has advanced, while a
    failed request for the stack makes it pass unchecked; some valid workflows
    push past the end of the array; and in a valid workflow a delivery gate is
    fed by verdict gates only. *)

From Stdlib Require Import ZArith Lia String Ascii.
From stdpp Require Import base numbers option list relations.
From S2P Require Import Prelude Checks Json WfeDef WfeCustom WfeGraph WfeValidate.

Open Scope string_scope.
Open Scope Z_scope.

Module WfeDeliver.
Import WfeDef WfeCustom WfeGraph WfeValidate.

Definition wfe_block_is_verdict_gate (t : wfe_block_type_t) : bool :=
  match t with
  | WFE_BLK_GATE_ROUNDTABLE | WFE_BLK_GATE_HUMAN | WFE_BLK_REVIEW | WFE_BLK_GATE_CI
  | WFE_BLK_CHECK_MERGEABLE => true
  | _ => false
  end.

(** [None] is the index -1. *)
Definition node_index (d : wfe_def_t) (id : bytes) : option nat :=
  if bool_decide (id = []) then None else fst <$> find_node d id.

Inductive walk_result :=
  | Walked (seen : list bool)
  | OutOfBounds   (* an access past the end of an array *)
  | WalkFuel.

(** Push the targets of the edges that are not marked; [None] is a push past
    the capacity. *)
Fixpoint push_edges (d : wfe_def_t) (cap : nat) (seen : list bool) (edges : list bytes)
    (stack : list nat) : option (list nat) :=
  match edges with
  | [] => Some stack
  | e :: edges =>
      match node_index d e with
      | Some j =>
          if bool_decide (marked seen j) then push_edges d cap seen edges stack
          else if (cap <=? length stack)%nat then None
          else push_edges d cap seen edges (j :: stack)
      | None => push_edges d cap seen edges stack
      end
  end.

Fixpoint reach_loop (fuel : nat) (d : wfe_def_t) (so : bool) (cap : nat) (stack : list nat)
    (seen : list bool) : walk_result :=
  match fuel with
  | O => WalkFuel
  | S fuel =>
      match stack with
      | [] => Walked seen
      | i :: stack =>
          if bool_decide (marked seen i) then reach_loop fuel d so cap stack seen
          else
            match d_nodes d !! i with
            | None => OutOfBounds
            | Some n =>
                let seen := <[i := true]> seen in
                match push_edges d cap seen (out_edges so n) stack with
                | None => OutOfBounds
                | Some stack => reach_loop fuel d so cap stack seen
                end
            end
      end
  end.

(** The answers of [calloc] to come; when none is left it grants. *)
Definition calloc (mem : list bool) : bool * list bool :=
  match mem with [] => (true, []) | b :: mem => (b, mem) end.

(** Without memory for its stack the walk returns, and marks nothing. *)
Definition mark_reach (d : wfe_def_t) (start_idx : option nat) (success_only : bool)
    (seen : list bool) (mem : list bool) : walk_result * list bool :=
  let n := length (d_nodes d) in
  let '(granted, mem) := calloc mem in
  if negb granted then (Walked seen, mem)
  else (reach_loop (3 * n + 2) d success_only (Nat.max n 1)
          (match start_idx with Some i => [i] | None => [] end) seen, mem).

Inductive deliver_result :=
  | Deliver_ok
  | Deliver_err (gate : bytes)
  | Deliver_bad_args
  | Deliver_no_memory
  | Deliver_undefined.

(** Seed from both success edges of the gate. *)
Definition gate_reaches (d : wfe_def_t) (n : wfe_node_t) (mem : list bool) : walk_result * list bool :=
  let none := replicate (length (d_nodes d)) false in
  let '(r, mem) := match node_index d (n_on_pass n) with
                   | Some i => mark_reach d (Some i) true none mem
                   | None => (Walked none, mem)
                   end in
  match r with
  | Walked seen =>
      match node_index d (n_next n) with
      | Some i => mark_reach d (Some i) true seen mem
      | None => (Walked seen, mem)
      end
  | r => (r, mem)
  end.

Fixpoint deliver_loop (d : wfe_def_t) (deliver_idx : nat) (advanced : bytes -> bool)
    (from_start : list bool) (i : nat) (l : list wfe_node_t) (mem : list bool) : deliver_result :=
  match l with
  | [] => Deliver_ok
  | n :: l =>
      if negb (wfe_block_is_verdict_gate (n_block n)) then
        deliver_loop d deliver_idx advanced from_start (S i) l mem
      else if negb (bool_decide (marked from_start i)) then
        deliver_loop d deliver_idx advanced from_start (S i) l mem
      else
        let '(granted, mem) := calloc mem in
        if negb granted then Deliver_no_memory
        else
          match gate_reaches d n mem with
          | (Walked from_gate, mem) =>
              if negb (bool_decide (marked from_gate deliver_idx)) then
                deliver_loop d deliver_idx advanced from_start (S i) l mem
              else if advanced (n_id n) then
                deliver_loop d deliver_idx advanced from_start (S i) l mem
              else Deliver_err (n_id n)
          | _ => Deliver_undefined
          end
  end.

Definition wfe_deliver_reverify (d : wfe_def_t) (deliver_id : bytes) (advanced : bytes -> bool)
    (mem : list bool) : deliver_result :=
  match node_index d deliver_id with
  | None => Deliver_bad_args
  | Some deliver_idx =>
      let '(granted, mem) := calloc mem in
      if negb granted then Deliver_no_memory
      else
        match mark_reach d (node_index d (d_start d)) false
                (replicate (length (d_nodes d)) false) mem with
        | (Walked from_start, mem) => deliver_loop d deliver_idx advanced from_start 0 (d_nodes d) mem
        | _ => Deliver_undefined
        end
  end.

(** ** The worklist walk *)

Lemma node_index_leads d e j : node_index d e = Some j <-> leads d e j.
Proof.
  unfold node_index, leads. case_bool_decide; [naive_solver|].
  destruct (find_node d e) as [[i n]|]; simpl; naive_solver.
Qed.

Lemma push_edges_spec d cap seen edges stack stack' :
  push_edges d cap seen edges stack = Some stack' ->
  (forall j, j ∈ stack' <-> j ∈ stack \/ (~ marked seen j /\ exists e, e ∈ edges /\ leads d e j))
  /\ (length stack' <= length stack + length edges)%nat
  /\ ((length stack <= cap)%nat -> (length stack' <= cap)%nat).
Proof.
  revert stack. induction edges as [|e edges IH]; intros stack; cbn [push_edges].
  { intros [= <-]. split_and!; [set_solver | simpl; lia | done]. }
  assert (Hskip : (forall j, leads d e j -> marked seen j) -> forall j,
    (~ marked seen j /\ exists e', e' ∈ e :: edges /\ leads d e' j) <->
    (~ marked seen j /\ exists e', e' ∈ edges /\ leads d e' j)).
  { intros Hm j. setoid_rewrite elem_of_cons. naive_solver. }
  destruct (node_index d e) as [j|] eqn:Hj.
  - apply node_index_leads in Hj. case_bool_decide as Hm.
    + intros (H1 & H2 & H3)%IH. split_and!; [|simpl; lia | done]. intros k. rewrite H1, Hskip; [done|].
      intros k' Hk'. destruct Hj as (? & ? & ?), Hk' as (? & ? & ?). by simplify_eq.
    + destruct (Nat.leb_spec cap (length stack)) as [|Hlt]; [done|].
      intros (H1 & H2 & H3)%IH. simpl in *. split_and!; [|lia | intros; apply H3; lia].
      intros k. rewrite H1, elem_of_cons. setoid_rewrite elem_of_cons. split; [naive_solver|].
      intros [?|(Hk & e' & [-> | He'] & Hl)]; [by auto | | naive_solver].
      left. left. destruct Hj as (? & ? & ?), Hl as (? & ? & ?). by simplify_eq.
  - intros (H1 & H2 & H3)%IH. split_and!; [|simpl; lia | done]. intros k. rewrite H1, Hskip; [done|].
    intros k' Hk'%node_index_leads. congruence.
Qed.

(** The loop invariant: [a] are the marks at entry and [T] the targets. *)
Record walking (d : wfe_def_t) (so : bool) (T : nat -> Prop) (a : list bool)
    (stack : list nat) (seen : list bool) : Prop := {
  wk_length : length seen = length a;
  wk_size : length a = length (d_nodes d);
  wk_mono : forall i, marked a i -> marked seen i;
  wk_target : forall i, T i -> marked seen i \/ i ∈ stack;
  wk_sound : forall j, marked seen j -> marked a j \/ exists i, T i /\ reach d so i j;
  wk_stack : forall j, j ∈ stack ->
    (j < length (d_nodes d))%nat /\ exists i, T i /\ reach d so i j;
  wk_closed : forall j k, marked seen j -> ~ marked a j -> gstep d so j k ->
    marked seen k \/ k ∈ stack;
}.

Lemma gstep_lt d so i j : gstep d so i j -> (j < length (d_nodes d))%nat.
Proof.
  intros (n & e & _ & _ & _ & m & Hf). apply find_node_spec in Hf as [Hj _]. by eapply lookup_lt_Some.
Qed.

Lemma walking_pop d so T a i stack seen :
  walking d so T a (i :: stack) seen -> marked seen i -> walking d so T a stack seen.
Proof.
  intros [] Hm. constructor; try done.
  - intros j [?|[->|?]%elem_of_cons]%wk_target0; auto.
  - intros j Hj. apply wk_stack0. by right.
  - intros j k Hj Hn Hs. destruct (wk_closed0 j k Hj Hn Hs) as [?|[->|?]%elem_of_cons]; auto.
Qed.

Lemma walking_expand d so T a i n stack seen stack' :
  walking d so T a (i :: stack) seen -> ~ marked seen i -> d_nodes d !! i = Some n ->
  (forall j, j ∈ stack' <->
     j ∈ stack \/ (~ marked (<[i := true]> seen) j /\ exists e, e ∈ out_edges so n /\ leads d e j)) ->
  walking d so T a stack' (<[i := true]> seen).
Proof.
  intros [] Hm Hn Hst.
  assert (Hi : (i < length seen)%nat).
  { rewrite wk_length0, wk_size0. by eapply lookup_lt_Some. }
  pose proof (fun j => marked_insert seen i j Hi) as Hins.
  destruct (wk_stack0 i ltac:(left)) as (_ & t & Ht & Hreach).
  assert (Hstep : forall j, (exists e, e ∈ out_edges so n /\ leads d e j) <-> gstep d so i j).
  { intros j. split; [intros (e & ? & ?); by exists n, e|].
    intros (m & e & Hm' & ? & ?). simplify_eq. by exists e. }
  constructor; try done.
  - by rewrite length_insert.
  - intros j Hj. apply Hins. auto.
  - intros j [?|[->|?]%elem_of_cons]%wk_target0; rewrite Hins, Hst; auto.
  - intros j [->|Hj]%Hins; [|by apply wk_sound0]. right. by exists t.
  - intros j [Hj|(_ & Hs)]%Hst; [apply wk_stack0; by right|]. apply Hstep in Hs.
    split; [by eapply gstep_lt|]. exists t. split; [done|]. by eapply rtc_r.
  - intros j k Hj Hna Hs. rewrite Hst. destruct (decide (marked (<[i:=true]> seen) k)); [by left|].
    right. apply Hins in Hj as [->|Hj]; [right; split; [done | by apply Hstep]|].
    destruct (wk_closed0 j k Hj Hna Hs) as [Hk|[->|Hk]%elem_of_cons]; [| |by left].
    + destruct n0. apply Hins. by right.
    + destruct n0. apply Hins. by left.
Qed.

Lemma walking_done d so T a seen : walking d so T a [] seen -> explores d so T a seen.
Proof.
  intros []. constructor; try done.
  - intros i Hi. by destruct (wk_target0 i Hi) as [?|?%elem_of_nil].
  - intros j k Hj Hn Hs. by destruct (wk_closed0 j k Hj Hn Hs) as [?|?%elem_of_nil].
Qed.

Lemma reach_loop_walks fuel d so cap T a stack seen r :
  walking d so T a stack seen -> (length stack + 3 * unseen seen < fuel)%nat ->
  reach_loop fuel d so cap stack seen = r ->
  r = OutOfBounds \/ exists b, r = Walked b /\ explores d so T a b.
Proof.
  intros Hw Hf <-. revert stack seen Hw Hf.
  induction fuel as [|fuel IH]; intros stack seen Hw Hf; [lia|]. cbn [reach_loop].
  destruct stack as [|i stack]; [right; exists seen; split; [done | by apply walking_done]|].
  simpl in Hf. case_bool_decide as Hm.
  { apply IH; [by eapply walking_pop | lia]. }
  destruct (wk_stack _ _ _ _ _ _ Hw i ltac:(left)) as [Hi _].
  destruct (lookup_lt_is_Some_2 _ _ Hi) as [n Hn]. rewrite Hn.
  destruct (push_edges _ _ _ _ _) as [stack'|] eqn:Hp; [|by left].
  apply push_edges_spec in Hp as (Hst & Hl & _). apply IH; [by eapply walking_expand|].
  assert (Hu : unseen seen = S (unseen (<[i:=true]> seen))).
  { apply unseen_insert, not_marked; [|done].
    by rewrite (wk_length _ _ _ _ _ _ Hw), (wk_size _ _ _ _ _ _ Hw). }
  assert (length (out_edges so n) <= 3)%nat by (destruct so; simpl; lia). lia.
Qed.

(** Every request of the list is granted. *)
Definition all_granted (mem : list bool) : Prop := Forall (fun b => b = true) mem.

Lemma calloc_granted mem : all_granted mem -> exists mem', calloc mem = (true, mem') /\ all_granted mem'.
Proof. destruct 1 as [|b mem -> Hm]; [exists []; split; [done | constructor] | by exists mem]. Qed.

(** The walk with its stack. *)
Definition walk (d : wfe_def_t) (from : option nat) (so : bool) (a : list bool) : walk_result :=
  reach_loop (3 * length (d_nodes d) + 2) d so (Nat.max (length (d_nodes d)) 1)
    (match from with Some i => [i] | None => [] end) a.

Lemma mark_reach_granted d i so a mem : all_granted mem ->
  exists mem', mark_reach d i so a mem = (walk d i so a, mem') /\ all_granted mem'.
Proof.
  intros (mem' & E & Hm)%calloc_granted. exists mem'. split; [|done]. unfold mark_reach. by rewrite E.
Qed.

(** A walk always ends, in or out of bounds. *)
Lemma walk_explores d i so a :
  length a = length (d_nodes d) -> (i < length (d_nodes d))%nat ->
  walk d (Some i) so a = OutOfBounds
  \/ exists b, walk d (Some i) so a = Walked b /\ explores d so (fun j => j = i) a b.
Proof.
  intros Hl Hi. unfold walk. eapply reach_loop_walks; [|  | done].
  - constructor; try done; try naive_solver.
    + intros j ->. right. left.
    + intros j ->%list_elem_of_singleton. split; [done|]. exists i. split; [done | constructor].
  - pose proof (unseen_le a). simpl. lia.
Qed.

Lemma gate_reaches_spec d n mem : all_granted mem -> exists mem', all_granted mem' /\
  (gate_reaches d n mem = (OutOfBounds, mem') \/ exists b, gate_reaches d n mem = (Walked b, mem')
    /\ forall j, marked b j <->
         exists k, (leads d (n_on_pass n) k \/ leads d (n_next n) k) /\ reach d true k j).
Proof.
  intros Hmem. set (none := replicate (length (d_nodes d)) false).
  assert (Hnone : length none = length (d_nodes d)) by apply length_replicate.
  assert (Hseed : forall e a m, length a = length (d_nodes d) -> all_granted m ->
    let r := match node_index d e with Some i => mark_reach d (Some i) true a m | None => (Walked a, m) end in
    exists m', all_granted m' /\ (r = (OutOfBounds, m')
      \/ exists b, r = (Walked b, m') /\ explores d true (leads d e) a b)).
  { intros e a m Ha Hm. cbv zeta. destruct (node_index d e) as [i|] eqn:He.
    - destruct (mark_reach_granted d (Some i) true a m Hm) as (m' & -> & Hm'). exists m'. split; [done|].
      apply node_index_leads in He as Hle. destruct (walk_explores d i true a Ha) as [Ho|(b & Hb & Hx)].
      + destruct Hle as (_ & k & Hf). apply find_node_spec in Hf as [Hi _]. by eapply lookup_lt_Some.
      + left. by rewrite Ho.
      + right. exists b. rewrite Hb. split; [done|]. eapply explores_ext, Hx. intros j.
        rewrite <- node_index_leads, He. naive_solver.
    - exists m. split; [done|]. right. exists a. split; [done|]. eapply explores_ext, explores_refl. intros j.
      rewrite <- node_index_leads, He. naive_solver. }
  unfold gate_reaches. fold none.
  destruct (Hseed (n_on_pass n) none mem Hnone Hmem) as (m1 & Hm1 & [->|(b & -> & Hb)]); [exists m1; auto|].
  assert (Hbl : length b = length (d_nodes d)) by (rewrite (ex_length _ _ _ _ _ Hb); done).
  destruct (Hseed (n_next n) b m1 Hbl Hm1) as (m2 & Hm2 & [->|(c & -> & Hc)]); exists m2; (split; [done|]); [auto|].
  right. exists c. split; [done|]. apply (explores_exact d true). by eapply explores_seq.
Qed.

(** The gates whose approval delivery depends on: verdict gates the start
    reaches, from whose success edges the delivery node is reachable by
    success edges. *)
Definition delivery_gating (d : wfe_def_t) (deliver i : nat) (n : wfe_node_t) : Prop :=
  d_nodes d !! i = Some n /\ wfe_block_is_verdict_gate (n_block n) = true
  /\ (exists s, leads d (d_start d) s /\ reach d false s i)
  /\ exists k, (leads d (n_on_pass n) k \/ leads d (n_next n) k) /\ reach d true k deliver.

Lemma deliver_loop_spec d dv adv from_start l pre mem r :
  all_granted mem -> d_nodes d = (pre ++ l)%list ->
  (forall j, marked from_start j <-> exists s, leads d (d_start d) s /\ reach d false s j) ->
  deliver_loop d dv adv from_start (length pre) l mem = r -> r <> Deliver_undefined ->
  (r = Deliver_ok <-> forall i n, (length pre <= i)%nat -> delivery_gating d dv i n -> adv (n_id n) = true)
  /\ r <> Deliver_bad_args.
Proof.
  intros Hmem Hl Hstart <-. revert pre mem Hmem Hl.
  induction l as [|n l IH]; intros pre mem Hmem Hl; cbn [deliver_loop].
  { intros _. split; [|done]. split; [|done]. intros _ i n Hi (Hn & _). apply lookup_lt_Some in Hn.
    rewrite Hl, length_app in Hn. simpl in Hn. lia. }
  assert (Hn : d_nodes d !! length pre = Some n).
  { by rewrite Hl, lookup_app_r, Nat.sub_diag. }
  assert (Hl' : d_nodes d = ((pre ++ [n]) ++ l)%list) by (by rewrite <- app_assoc).
  specialize (fun m Hm => IH (pre ++ [n])%list m Hm Hl'). rewrite length_app in IH. simpl in IH.
  replace (length pre + 1)%nat with (S (length pre)) in IH by lia.
  assert (Hnext : (delivery_gating d dv (length pre) n -> adv (n_id n) = true) ->
    (forall i m, (length pre <= i)%nat -> delivery_gating d dv i m -> adv (n_id m) = true) <->
    (forall i m, (S (length pre) <= i)%nat -> delivery_gating d dv i m -> adv (n_id m) = true)).
  { intros Hg. split; intros H i m Hi Hd; [apply (H i); [lia | done]|].
    destruct (decide (i = length pre)) as [->|]; [|apply (H i); [lia | done]].
    assert (m = n) as -> by (destruct Hd as (Hm & _); congruence). by apply Hg. }
  destruct (wfe_block_is_verdict_gate (n_block n)) eqn:Hv; cbn [negb].
  2:{ rewrite Hnext; [by apply IH|]. intros (_ & Hv' & _). congruence. }
  case_bool_decide as Hm; cbn [negb].
  2:{ rewrite Hnext; [by apply IH|]. intros (_ & _ & Hs & _). by apply Hstart in Hs. }
  destruct (calloc_granted mem Hmem) as (m1 & -> & Hm1). cbn [negb].
  destruct (gate_reaches_spec d n m1 Hm1) as (m2 & Hm2 & [->|(b & -> & Hb)]); [done|].
  case_bool_decide as Hd; cbn [negb].
  2:{ rewrite Hnext; [by apply IH|]. intros (_ & _ & _ & Hk). by apply Hb in Hk. }
  destruct (adv (n_id n)) eqn:Ha; [rewrite Hnext; [by apply IH | done]|].
  intros _. split; [|done]. split; [done|]. intros H.
  rewrite (H (length pre) n) in Ha; [done | lia |].
  split_and!; [done | done | by apply Hstart | by apply Hb].
Qed.

Lemma from_start_spec d :
  let r := walk d (node_index d (d_start d)) false (replicate (length (d_nodes d)) false) in
  r = OutOfBounds \/ exists b, r = Walked b
    /\ forall j, marked b j <-> exists s, leads d (d_start d) s /\ reach d false s j.
Proof.
  cbv zeta. destruct (node_index d (d_start d)) as [s|] eqn:Hs.
  - apply node_index_leads in Hs as Hle.
    destruct (walk_explores d s false (replicate (length (d_nodes d)) false))
      as [?|(b & Hb & Hx)]; [apply length_replicate | | by left|].
    + destruct Hle as (_ & m & Hf). apply find_node_spec in Hf as [Hi _]. by eapply lookup_lt_Some.
    + right. exists b. split; [done|]. intros j. rewrite (explores_exact _ _ _ _ Hx).
      setoid_rewrite <- node_index_leads. rewrite Hs. naive_solver.
  - right. exists (replicate (length (d_nodes d)) false). split.
    + unfold walk. by rewrite Nat.add_comm.
    + intros j. setoid_rewrite <- node_index_leads. rewrite Hs. split; [|naive_solver].
      intros Hj. by apply lookup_replicate in Hj as [? _].
Qed.

(** C34: When its requests for memory are granted and its walks stay inside
    their arrays, the re-check of a delivery gate passes exactly when every
    delivery-gating gate has an approving record: no gate on a success path
    to delivery is skipped and no other gate is asked for.  Without memory for
    the array of marks it fails. *)
Theorem deliver_reverify_iff d deliver_id dv adv mem :
  node_index d deliver_id = Some dv ->
  (all_granted mem -> wfe_deliver_reverify d deliver_id adv mem <> Deliver_undefined ->
   (wfe_deliver_reverify d deliver_id adv mem = Deliver_ok <->
    forall i n, delivery_gating d dv i n -> adv (n_id n) = true))
  /\ wfe_deliver_reverify d deliver_id adv (false :: mem) = Deliver_no_memory.
Proof.
  intros Hdv. unfold wfe_deliver_reverify. rewrite Hdv. split; [|done].
  intros (m1 & -> & Hm1)%calloc_granted. cbn [negb].
  destruct (mark_reach_granted d (node_index d (d_start d)) false (replicate (length (d_nodes d)) false) m1 Hm1)
    as (m2 & -> & Hm2).
  destruct (from_start_spec d) as [->|(b & -> & Hb)]; [done|]. intros Hu.
  destruct (deliver_loop_spec d dv adv b (d_nodes d) [] m2 _ Hm2 eq_refl Hb eq_refl Hu) as [H _].
  rewrite H. split; [intros Hall i n; apply Hall; simpl; lia | intros Hall i n _; apply Hall].
Qed.

(** Without memory for the stack of the first walk nothing is marked as
    reachable from the start, so no gate is asked for: the delivery passes
    whatever the records say. *)
Theorem deliver_unchecked_without_memory d deliver_id dv adv mem :
  node_index d deliver_id = Some dv -> wfe_deliver_reverify d deliver_id adv (true :: false :: mem) = Deliver_ok.
Proof.
  intros Hdv. unfold wfe_deliver_reverify. rewrite Hdv. cbn [calloc negb mark_reach].
  set (none := replicate _ false).
  assert (Hn : forall i, ~ marked none i) by (intros i Hi; by apply lookup_replicate in Hi as [? _]).
  clearbody none. generalize 0%nat. induction (d_nodes d) as [|n l IH] in |- *; intros i; [done|]. cbn [deliver_loop].
  destruct (wfe_block_is_verdict_gate (n_block n)); cbn [negb]; [|apply IH].
  rewrite bool_decide_eq_false_2 by apply Hn. apply IH.
Qed.

(** ** The bound of the stack *)

(** At most two of the three control edges are used. *)
Definition two_edges (n : wfe_node_t) : Prop :=
  n_next n = [] \/ n_on_pass n = [] \/ n_on_fail n = [].

Definition used (edges : list bytes) : nat := length (filter (fun e => e <> []) edges).

Lemma two_edges_used so n : two_edges n -> (used (out_edges so n) <= 2)%nat.
Proof.
  unfold used, out_edges, two_edges. intros Hn. destruct so; rewrite !filter_cons, filter_nil;
    repeat case_decide; simpl; try lia. naive_solver.
Qed.

Lemma push_edges_fits d cap seen edges stack :
  (length stack + used edges <= cap)%nat ->
  exists stack', push_edges d cap seen edges stack = Some stack'
    /\ (length stack' <= length stack + used edges)%nat.
Proof.
  revert stack. induction edges as [|e edges IH]; intros stack Hl; cbn [push_edges]; [exists stack; split; [done | lia]|].
  unfold used in *. rewrite filter_cons in Hl |- *.
  destruct (node_index d e) as [j|] eqn:Hj.
  - rewrite decide_True in Hl by (by apply node_index_leads in Hj as [? _]).
    rewrite decide_True by (by apply node_index_leads in Hj as [? _]). simpl in *.
    case_bool_decide.
    + destruct (IH stack) as (st & Hst & Hle); [lia|]. exists st. split; [done | lia].
    + destruct (Nat.leb_spec cap (length stack)) as [|_]; [lia|].
      destruct (IH (j :: stack)) as (st & Hst & Hle); [simpl; lia|]. exists st. split; [done|].
      simpl in Hle. lia.
  - destruct (IH stack) as (st & Hst & Hle); [case_decide; simpl in *; lia|].
    exists st. split; [done|]. case_decide; simpl in *; lia.
Qed.

Lemma push_edges_all_seen d cap seen edges stack :
  length seen = length (d_nodes d) -> unseen seen = 0%nat ->
  push_edges d cap seen edges stack = Some stack.
Proof.
  intros Hl Hu. induction edges as [|e edges IH]; cbn [push_edges]; [done|].
  destruct (node_index d e) as [j|] eqn:Hj; [|done]. rewrite bool_decide_eq_true_2; [done|].
  apply node_index_leads in Hj as (_ & n & Hf). apply find_node_spec in Hf as [Hj _].
  destruct (decide (marked seen j)) as [|Hm]; [done|].
  apply not_marked in Hm; [|rewrite Hl; by eapply lookup_lt_Some].
  apply unseen_insert in Hm. lia.
Qed.

(** With at most two edges a node, the stack holds at most one entry more
    than there are marked nodes. *)
Lemma reach_loop_fits fuel d so cap stack seen :
  Forall two_edges (d_nodes d) -> length seen = length (d_nodes d) -> cap = length (d_nodes d) ->
  Forall (fun i => (i < length seen)%nat) stack ->
  (length stack + unseen seen <= S cap)%nat ->
  reach_loop fuel d so cap stack seen <> OutOfBounds.
Proof.
  intros H2 Hl Hcap. revert stack seen Hl.
  induction fuel as [|fuel IH]; intros stack seen Hl Hs Hb; cbn [reach_loop]; [done|].
  destruct stack as [|i stack]; [done|]. inversion_clear Hs as [|? ? Hi Hs'].
  case_bool_decide as Hm; [apply IH; [done..|simpl in Hb; lia]|].
  destruct (lookup_lt_is_Some_2 (d_nodes d) i) as [n Hn]; [lia|]. rewrite Hn.
  set (seen' := <[i:=true]> seen).
  assert (Hl' : length seen' = length (d_nodes d)) by (unfold seen'; by rewrite length_insert).
  pose proof (unseen_insert seen i (not_marked _ _ Hi Hm)) as Hu. fold seen' in Hu.
  assert (Hused : (used (out_edges so n) <= 2)%nat).
  { apply two_edges_used. rewrite Forall_forall in H2. apply H2. by eapply list_elem_of_lookup_2. }
  assert (Hpush : exists st, push_edges d cap seen' (out_edges so n) stack = Some st
                    /\ (length st + unseen seen' <= S cap)%nat).
  { simpl in Hb. destruct (decide (unseen seen' = 0%nat)) as [H0|H0].
    - exists stack. split; [by apply push_edges_all_seen | lia].
    - destruct (push_edges_fits d cap seen' (out_edges so n) stack) as (st & Hst & Hle); [lia|].
      exists st. split; [done | lia]. }
  destruct Hpush as (st & Hst & Hle). rewrite Hst. apply IH; [done | | done].
  apply push_edges_spec in Hst as (Hst & _). apply Forall_forall. intros j Hj. rewrite Hl'.
  apply Hst in Hj as [Hj|(_ & e & _ & _ & m & Hf)].
  - rewrite Forall_forall in Hs'. rewrite <- Hl. by apply Hs'.
  - apply find_node_spec in Hf as [Hf _]. by eapply lookup_lt_Some.
Qed.

Lemma walk_fits d i so a :
  Forall two_edges (d_nodes d) -> length a = length (d_nodes d) ->
  from_option (fun i => (i < length (d_nodes d))%nat) True i ->
  walk d i so a <> OutOfBounds.
Proof.
  intros H2 Hl Hi. unfold walk. destruct i as [i|]; simpl in Hi.
  - rewrite Nat.max_l by lia. apply reach_loop_fits; try done; [constructor; [lia | done]|].
    pose proof (unseen_le a). simpl. lia.
  - by rewrite Nat.add_comm.
Qed.

Lemma node_index_lt d e i : node_index d e = Some i -> (i < length (d_nodes d))%nat.
Proof.
  intros (_ & m & Hf)%node_index_leads. apply find_node_spec in Hf as [Hi _]. by eapply lookup_lt_Some.
Qed.

(** With memory or without, a walk from a node of the workflow ends well. *)
Lemma mark_reach_fits d e i so a mem :
  Forall two_edges (d_nodes d) -> length a = length (d_nodes d) -> node_index d e = Some i ->
  exists b mem', mark_reach d (Some i) so a mem = (Walked b, mem') /\ length b = length (d_nodes d).
Proof.
  intros H2 Ha Hi%node_index_lt. unfold mark_reach. destruct (calloc mem) as [[] m]; cbn [negb]; [|by exists a, m].
  fold (walk d (Some i) so a). destruct (walk_explores d i so a Ha Hi) as [Ho|(b & Hb & Hx)].
  - by destruct (walk_fits d (Some i) so a H2 Ha Hi).
  - exists b, m. rewrite Hb. split; [done|]. by rewrite (ex_length _ _ _ _ _ Hx).
Qed.

Lemma gate_reaches_fits d n mem : Forall two_edges (d_nodes d) ->
  exists b mem', gate_reaches d n mem = (Walked b, mem').
Proof.
  intros H2. unfold gate_reaches. set (none := replicate (length (d_nodes d)) false).
  assert (Hnone : length none = length (d_nodes d)) by apply length_replicate.
  destruct (node_index d (n_on_pass n)) as [i|] eqn:Hp.
  - destruct (mark_reach_fits d _ i true none mem H2 Hnone Hp) as (b & m1 & -> & Hb).
    destruct (node_index d (n_next n)) as [j|] eqn:Hn; [|eauto].
    destruct (mark_reach_fits d _ j true b m1 H2 Hb Hn) as (c & m2 & -> & _). eauto.
  - destruct (node_index d (n_next n)) as [j|] eqn:Hn; [|eauto].
    destruct (mark_reach_fits d _ j true none mem H2 Hnone Hn) as (c & m2 & -> & _). eauto.
Qed.

(** In a workflow whose nodes use at most two of their three control
    edges, the re-check never writes past its stack and always gives an
    answer, whatever memory it is granted. *)
Theorem deliver_reverify_in_bounds d deliver_id adv mem :
  Forall two_edges (d_nodes d) -> wfe_deliver_reverify d deliver_id adv mem <> Deliver_undefined.
Proof.
  intros H2. unfold wfe_deliver_reverify. destruct (node_index d deliver_id) as [dv|]; [|done].
  destruct (calloc mem) as [[] m]; cbn [negb]; [|done].
  assert (Hw : exists b m', mark_reach d (node_index d (d_start d)) false (replicate (length (d_nodes d)) false) m
    = (Walked b, m')).
  { destruct (node_index d (d_start d)) as [s|] eqn:Hs.
    - destruct (mark_reach_fits d _ s false _ m H2 (length_replicate _ false) Hs) as (b & m' & -> & _). eauto.
    - unfold mark_reach. destruct (calloc m) as [[] m']; cbn [negb]; [rewrite Nat.add_comm|]; by eexists _, _. }
  destruct Hw as (b & m1 & ->). generalize 0%nat, m1. clear m m1.
  induction (d_nodes d) as [|n l IH] in |- *; intros i m; cbn [deliver_loop]; [done|].
  destruct (negb _); [apply IH|]. destruct (negb _); [apply IH|].
  destruct (calloc m) as [[] m1]; cbn [negb]; [|done].
  destruct (gate_reaches_fits d n m1 H2) as (c & m2 & ->). repeat (case_match; try apply IH; try done).
Qed.

(** Two nodes, the first with its three edges to the second. *)
Definition fork_node (id next : bytes) : wfe_node_t :=
  {| n_id := id; n_block := WFE_BLK_UNDERSTAND; n_custom_name := []; n_params := None;
     n_ins := []; n_next := next; n_on_pass := next; n_on_fail := next |}.

Definition fork_def : wfe_def_t :=
  {| d_name := str "fork"; d_start := str "a"; d_version := []; d_enforced := false;
     d_nodes := [fork_node (str "a") (str "b"); fork_node (str "b") []] |}.

(** A workflow the validator accepts can make the re-check write past the
    end of its stack: the array has one entry per node, but a node is pushed
    once for every edge to it. *)
Theorem deliver_reverify_overruns :
  wfe_def_validate wfe_custom_registry_reset true fork_def = None
  /\ forall adv, wfe_deliver_reverify fork_def (str "b") adv [] = Deliver_undefined.
Proof. split; [vm_compute; reflexivity|]. intros adv. vm_compute. reflexivity. Qed.

(** ** What feeds a delivery gate *)

Lemma output_verdict reg n :
  registry_ok reg ->
  wfe_node_output reg n = WFE_ART_VERDICT \/ wfe_node_output reg n = WFE_ART_APPROVAL ->
  wfe_block_is_verdict_gate (n_block n) = true.
Proof.
  intros Hreg. unfold wfe_node_output, wfe_custom_lookup. case_bool_decide as Hb.
  - cbn [mbind option_bind]. unfold lookup_block. destruct (list_find _ _) as [[i c]|] eqn:Hf; simpl; [|by intros [?|?]].
    apply list_find_Some in Hf as (Hi & _ & _).
    pose proof (ro_blocks _ Hreg) as Hall. rewrite Forall_forall in Hall.
    destruct (bo_produces _ (Hall c ltac:(by eapply list_elem_of_lookup_2))) as [-> | ->];
      by intros [?|?].
  - destruct (n_block n); cbn; by intros [?|?].
Qed.

(** C38: In a workflow the validator accepts, every delivery gate has an
    input, and each of its inputs is the output of a verdict gate of the
    workflow; a configured block cannot stand in for one. *)
Theorem deliver_inputs_typed reg memory d n :
  registry_ok reg -> wfe_def_validate reg memory d = None ->
  n ∈ d_nodes d -> n_block n = WFE_BLK_GATE_DELIVER ->
  n_ins n <> [] /\ forall b, b ∈ n_ins n -> exists prod,
    wfe_def_node d (producer_id b) = Some prod
    /\ wfe_block_is_verdict_gate (n_block prod) = true.
Proof.
  intros Hreg [_ Hv]%validate_spec Hn Hb.
  pose proof (nv_typed _ _ _ (vw_nodes _ _ Hv n Hn)) as [_ Hreq Hbound]. split.
  - apply Hreq. unfold wfe_node_requires_input. by rewrite Hb.
  - intros x Hx. destruct (Hbound x Hx) as (prod & Hp & Hacc). exists prod. split; [done|].
    apply (output_verdict reg); [done|]. revert Hacc. unfold wfe_node_accepts_input. rewrite Hb.
    rewrite bool_decide_eq_false_2 by done. destruct (wfe_node_output reg prod); cbn; auto; done.
Qed.

(** ** The properties at concrete inputs *)

(** Nothing has been approved: the review of the example is missing. *)
Lemma deliver_reverify_iff_witness :
  (wfe_deliver_reverify demo_def (str "d") (fun _ => false) [] = Deliver_ok <->
      forall i n, delivery_gating demo_def 3 i n -> false = true)
  /\ wfe_deliver_reverify demo_def (str "d") (fun _ => false) [false] = Deliver_no_memory.
Proof.
  destruct (deliver_reverify_iff demo_def (str "d") 3 (fun _ => false) []) as [H1 H2]; [vm_compute; reflexivity|].
  split; [|exact H2]. apply H1; [constructor | vm_compute; done].
Defined.

Lemma deliver_reverify_in_bounds_witness :
  wfe_deliver_reverify demo_def (str "d") (fun _ => true) [true; false] <> Deliver_undefined.
Proof.
  apply (deliver_reverify_in_bounds demo_def (str "d") (fun _ => true)).
  repeat constructor; vm_compute; tauto.
Defined.

Lemma deliver_inputs_typed_witness :
  let n := demo_node "d" WFE_BLK_GATE_DELIVER ["r"] None "" "" "" in
  n_ins n <> [] /\ forall b, b ∈ n_ins n -> exists prod,
    wfe_def_node demo_def (producer_id b) = Some prod
    /\ wfe_block_is_verdict_gate (n_block prod) = true.
Proof.
  intros n. apply (deliver_inputs_typed refused_registry true demo_def n);
    [apply refused_registry_ok | vm_compute; reflexivity | apply list_elem_of_In; simpl; tauto | done].
Defined.

End WfeDeliver.
