(* ===== verification/WfeIface.v ===== *)
(** * The execution seam ([src/src/modules/workflows/wfe_iface.c], [wfe_iface.h])

    The step result the engine switches on and its constructors, the failure
    taxonomy, the table of block executors, and the rails of autonomous
    merges.  The environment and [stat] are parameters.  Shown: the
    disposition never retries without new input, an executor table returns
    what was registered last for a block and nothing for the unknown block,
    and an autonomous base that passes the rail is none of the protected
    names in any case. *)

From Stdlib Require Import ZArith Lia String Ascii SpecFloat.
From stdpp Require Import base numbers option list.
From S2P Require Import Prelude Json WfeDef.

Open Scope string_scope.
Open Scope Z_scope.

Module WfeIface.
Import WfeDef.

Inductive wfe_step_status_t :=
  | WFE_STEP_ADVANCED | WFE_STEP_PENDING | WFE_STEP_FAILED | WFE_STEP_LOOPED.

Inductive wfe_pause_reason_t :=
  | WFE_PAUSE_NONE | WFE_PAUSE_PENDING_HUMAN | WFE_PAUSE_PANEL_DEGRADED
  | WFE_PAUSE_BUDGET_EXCEEDED | WFE_PAUSE_PANEL_UNREACHABLE | WFE_PAUSE_CI_PENDING
  | WFE_PAUSE_MERGE_PENDING | WFE_PAUSE_TURN_CAP | WFE_PAUSE_WALL_CAP | WFE_PAUSE_SLICES_RUNNING.

Inductive wfe_failure_class_t :=
  | WFE_FAIL_NONE | WFE_FAIL_TRANSIENT | WFE_FAIL_REFUSAL | WFE_FAIL_PERMANENT
  | WFE_FAIL_DEGRADED | WFE_FAIL_BUDGET | WFE_FAIL_FORGE | WFE_FAIL_CORRUPTION.

#[export] Instance wfe_step_status_eq_dec : EqDecision wfe_step_status_t.
Proof. solve_decision. Defined.

#[export] Instance wfe_pause_reason_eq_dec : EqDecision wfe_pause_reason_t.
Proof. solve_decision. Defined.

#[export] Instance wfe_failure_class_eq_dec : EqDecision wfe_failure_class_t.
Proof. solve_decision. Defined.

Record wfe_step_result_t := {
  r_status : wfe_step_status_t;
  r_pause_reason : wfe_pause_reason_t;
  r_reopen : bool;
  r_artifact_handle : bytes;
  r_content_hash : bytes;
  r_cost_usd : double;
  r_failure_class : wfe_failure_class_t;
  r_failure_has_new_input : bool;
}.

(** [memset(&r, 0, sizeof r)] followed by the status. *)
Definition step_zero (st : wfe_step_status_t) : wfe_step_result_t :=
  {| r_status := st; r_pause_reason := WFE_PAUSE_NONE; r_reopen := false;
     r_artifact_handle := []; r_content_hash := []; r_cost_usd := d_zero;
     r_failure_class := WFE_FAIL_NONE; r_failure_has_new_input := false |}.

Definition wfe_step_advanced (artifact_handle content_hash : option bytes) (cost_usd : double)
    : wfe_step_result_t :=
  {| r_status := WFE_STEP_ADVANCED; r_pause_reason := WFE_PAUSE_NONE; r_reopen := false;
     r_artifact_handle := copy_str 64 artifact_handle; r_content_hash := copy_str 65 content_hash;
     r_cost_usd := cost_usd; r_failure_class := WFE_FAIL_NONE; r_failure_has_new_input := false |}.

Definition wfe_step_pending (reason : wfe_pause_reason_t) : wfe_step_result_t :=
  {| r_status := WFE_STEP_PENDING; r_pause_reason := reason; r_reopen := false;
     r_artifact_handle := []; r_content_hash := []; r_cost_usd := d_zero;
     r_failure_class := WFE_FAIL_NONE; r_failure_has_new_input := false |}.

Definition failed_as (cls : wfe_failure_class_t) (new_input : bool) : wfe_step_result_t :=
  {| r_status := WFE_STEP_FAILED; r_pause_reason := WFE_PAUSE_NONE; r_reopen := false;
     r_artifact_handle := []; r_content_hash := []; r_cost_usd := d_zero;
     r_failure_class := cls; r_failure_has_new_input := new_input |}.

Definition wfe_step_failed : wfe_step_result_t := failed_as WFE_FAIL_PERMANENT false.

Definition wfe_step_failed_class (cls : wfe_failure_class_t) (has_new_input : bool) : wfe_step_result_t :=
  failed_as (if bool_decide (cls = WFE_FAIL_NONE) then WFE_FAIL_PERMANENT else cls) has_new_input.

Definition wfe_step_looped : wfe_step_result_t := step_zero WFE_STEP_LOOPED.

Inductive wfe_failure_disposition_t :=
  | WFE_FDISP_TERMINAL | WFE_FDISP_PARK_HUMAN | WFE_FDISP_RETRY | WFE_FDISP_PARK_STUCK.

Definition wfe_failure_disposition (cls : wfe_failure_class_t) (has_new_input : bool)
    : wfe_failure_disposition_t :=
  match cls with
  | WFE_FAIL_TRANSIENT => if has_new_input then WFE_FDISP_RETRY else WFE_FDISP_PARK_STUCK
  | WFE_FAIL_DEGRADED | WFE_FAIL_BUDGET | WFE_FAIL_FORGE => WFE_FDISP_PARK_HUMAN
  | WFE_FAIL_REFUSAL | WFE_FAIL_PERMANENT | WFE_FAIL_CORRUPTION | WFE_FAIL_NONE => WFE_FDISP_TERMINAL
  end.

(** ** Executor table *)

Section Executors.
Context {fn : Type}.

Definition exec_table : Type := wfe_block_type_t -> option fn.

Definition wfe_reset_block_executors : exec_table := fun _ => None.

Definition wfe_register_block_executor (g : exec_table) (type : wfe_block_type_t) (f : option fn)
    : exec_table :=
  if bool_decide (type = WFE_BLK_UNKNOWN) then g
  else fun t => if bool_decide (t = type) then f else g t.

Definition wfe_lookup_block_executor (g : exec_table) (type : wfe_block_type_t) : option fn :=
  if bool_decide (type = WFE_BLK_UNKNOWN) then None else g type.

Lemma lookup_register g t u f :
  wfe_lookup_block_executor (wfe_register_block_executor g t f) u =
  if bool_decide (t = u /\ u <> WFE_BLK_UNKNOWN) then f else wfe_lookup_block_executor g u.
Proof.
  unfold wfe_lookup_block_executor, wfe_register_block_executor.
  repeat case_bool_decide; naive_solver.
Qed.
End Executors.

(** ** Rails of autonomous runs *)

(** [is_dir p] is [stat(p)] succeeding on a directory and [env] the value of
    [AIMEE_WORKFLOW_REPO]. *)
Definition wfe_repo_local (is_dir : bytes -> bool) (env : option bytes) (wi_repo : option bytes) : bytes :=
  match wi_repo with
  | Some (c :: cs) =>
      if (c =? 47) && is_dir (c :: cs) then c :: cs
      else match env with Some (e :: es) => e :: es | _ => str "." end
  | _ => match env with Some (e :: es) => e :: es | _ => str "." end
  end.

Definition wfe_autonomous_base (env : option bytes) : bytes :=
  match env with Some (c :: cs) => c :: cs | _ => str "testing" end.

(** [s[i]], the terminating NUL past the end. *)
Definition char_at (s : bytes) (i : nat) : Z := default 0 (s !! i).

Definition wfe_base_is_protected (branch : option bytes) : bool :=
  match branch with
  | None | Some [] => true
  | Some b =>
      if strcasecmp_eq b (str "main") || strcasecmp_eq b (str "master") then true
      else strcasecmp_eq (take 7 b) (str "release")
           && ((char_at b 7 =? 47) || (char_at b 7 =? 45))
           && ((char_at b 8 =? 118) || ((48 <=? char_at b 8) && (char_at b 8 <=? 57)))
  end.

Definition wfe_autonomous_target_ok (env : option bytes) : bool :=
  negb (wfe_base_is_protected (Some (wfe_autonomous_base env))).

Definition wfe_base_is_feature (base : option bytes) : bool :=
  match base with
  | Some b => bytes_eqb (take 11 b) (str "aimee/feat/")
  | None => false
  end.

Definition wfe_pr_base_prefers_feature (env : option bytes) : bool :=
  negb (bool_decide (env = Some (str "default_branch"))).

(** 0.0005 as a double. *)
Definition default_rate : double := S754_finite false 4611686018427388 (-63).

Definition isfinite (d : double) : bool :=
  match d with S754_zero _ | S754_finite _ _ _ => true | _ => false end.

(** [strtod] gives the parsed value and whether the whole string was used. *)
Definition wfe_autonomy_cost_estimate (strtod : bytes -> double * bool) (env : option bytes)
    (elapsed_secs : double) : double :=
  let rate :=
    match env with
    | Some (c :: cs) =>
        let '(r, all) := strtod (c :: cs) in
        if all && isfinite r && d_gt r d_zero then r else default_rate
    | _ => default_rate
    end in
  if negb (d_gt elapsed_secs d_zero) then d_zero else d_mul elapsed_secs rate.

(** A failed step is retried only when it carries new input, and only a
    transient failure is. *)
Lemma retry_needs_new_input cls ni :
  wfe_failure_disposition cls ni = WFE_FDISP_RETRY <-> cls = WFE_FAIL_TRANSIENT /\ ni = true.
Proof. destruct cls, ni; simpl; naive_solver. Qed.

Lemma strcasecmp_eq_true a b : strcasecmp_eq a b = true <-> map ascii_lower a = map ascii_lower b.
Proof. apply bytes_eqb_true. Qed.

(** A base the rail lets through is not [main] or [master] in any case, is
    not empty, and is no [release/v..], [release-1..] branch. *)
Lemma target_ok_not_protected env :
  wfe_autonomous_target_ok env = true ->
  let b := wfe_autonomous_base env in
  b <> [] /\ map ascii_lower b <> str "main" /\ map ascii_lower b <> str "master"
  /\ forall sep c rest, b = (str "release" ++ sep :: c :: rest)%list -> sep = 47 \/ sep = 45 ->
       c <> 118 /\ ~ (48 <= c <= 57).
Proof.
  unfold wfe_autonomous_target_ok. rewrite negb_true_iff. cbv zeta.
  generalize (wfe_autonomous_base env). intros b Hb. destruct b as [|c0 cs0]; [done|].
  unfold wfe_base_is_protected in Hb. set (b := c0 :: cs0) in *.
  destruct (strcasecmp_eq b (str "main")) eqn:H1; [done|].
  destruct (strcasecmp_eq b (str "master")) eqn:H2; [done|]. cbn [orb] in Hb.
  rewrite <- not_true_iff_false, strcasecmp_eq_true in H1, H2.
  split_and!; [done | done | done|]. intros sep c rest Heq Hsep. rewrite Heq in Hb.
  change (take 7 (str "release" ++ sep :: c :: rest)) with (str "release") in Hb.
  change (char_at (str "release" ++ sep :: c :: rest) 7) with sep in Hb.
  change (char_at (str "release" ++ sep :: c :: rest) 8) with c in Hb.
  assert (strcasecmp_eq (str "release") (str "release") = true) as Hr by done. rewrite Hr in Hb.
  destruct Hsep as [-> | ->]; cbn [orb andb Z.eqb Pos.eqb] in Hb; bool_to_prop; split; try done;
    intros ?; destruct ((48 <=? c) && (c <=? 57)) eqn:E; try done; rewrite andb_false_iff in E;
    destruct E; bool_to_prop; lia.
Qed.

End WfeIface.
