(* ===== verification/WfeStore.v ===== *)
(** * Work-item store
    ([src/src/db1_client/wfe_store.h], [src/src/db1_client/lifecycle.c],
     [src/server-go/modules/aimee/families/lifecycle.go])

    The rows the workflow engine drives: work items, their audit events and
    the per-stage attempt counters.  The engine sees the store through the
    three calls of the class [WorkStore], of which nothing is assumed: a call
    may fail, and may fail after the store has done what it was asked.  [db]
    is the store itself with the statements of [lifecycle.go] as functions on
    its rows.  Two instances are given: [client_store], the client of the
    repository, whose calls cross a wire that may lose the request or the
    reply; and [documented_store], which does what [wfe_store.h] promises.
    The record call crosses the wire as text fields: the client writes the
    fields of an outcome in one order ([outcome_fields]), the handler reads
    them in another ([workItemRecordOutcome]), and the theorems say what
    follows. *)

From Stdlib Require Import ZArith Lia String Ascii SpecFloat.
From stdpp Require Import base numbers option list countable gmap fin_maps.
From S2P Require Import Prelude Json.

Open Scope string_scope.
Open Scope Z_scope.

Module WfeStore.

Record db1_work_item_t := {
  wi_repo : bytes;
  wi_proposal_path : bytes;
  wi_workflow_name : bytes;
  wi_workflow_version : bytes;
  wi_current_stage : bytes;
  wi_state : bytes;
  wi_mode : bytes;
  wi_pause_reason : bytes;
  wi_paused_state : bytes;
  wi_content_hash : bytes;
  wi_pr_ref : bytes;
  wi_parent_id : bytes;
  wi_cum_cost_usd : double;
  wi_max_cost_usd : double;
}.

Inductive disposition_t := OUTCOME_PAUSE | OUTCOME_TERMINAL | OUTCOME_ADVANCE.

#[export] Instance disposition_eq_dec : EqDecision disposition_t.
Proof. solve_decision. Defined.

Record db1_work_item_outcome_t := {
  o_work_item_id : bytes;
  o_node_id : bytes;
  o_disposition : disposition_t;
  o_state : bytes;
  o_pause_reason : bytes;
  o_pause_stage : bytes;
  o_next_stage : bytes;
  o_pr_ref : bytes;
  o_abandon_children : bool;
  o_cost_usd : double;
  o_event_kind : bytes;
  o_event_detail : bytes;
  o_event_hash : bytes;
  o_park_reason : bytes;
}.

Record db1_lifecycle_event_t := {
  ev_work_item_id : bytes;
  ev_stage : bytes;
  ev_kind : bytes;
  ev_actor : bytes;
  ev_detail : bytes;
  ev_content_hash : bytes;
  ev_cost_usd : double;
}.

Abbreviation rows_t := (gmap bytes db1_work_item_t).

Record db := {
  rows : rows_t;
  events : list db1_lifecycle_event_t;
  attempts : gmap (bytes * bytes) N; (* CHECK (attempts >= 0) *)
}.

(** ** The statements, on one row *)

Definition set_stage (stage hash : bytes) (w : db1_work_item_t) : db1_work_item_t :=
  {| wi_repo := wi_repo w; wi_proposal_path := wi_proposal_path w;
     wi_workflow_name := wi_workflow_name w; wi_workflow_version := wi_workflow_version w;
     wi_current_stage := stage; wi_state := wi_state w; wi_mode := wi_mode w;
     wi_pause_reason := wi_pause_reason w; wi_paused_state := wi_paused_state w;
     wi_content_hash := hash; wi_pr_ref := wi_pr_ref w; wi_parent_id := wi_parent_id w;
     wi_cum_cost_usd := wi_cum_cost_usd w; wi_max_cost_usd := wi_max_cost_usd w |}.

Definition set_pr_ref (pr : bytes) (w : db1_work_item_t) : db1_work_item_t :=
  {| wi_repo := wi_repo w; wi_proposal_path := wi_proposal_path w;
     wi_workflow_name := wi_workflow_name w; wi_workflow_version := wi_workflow_version w;
     wi_current_stage := wi_current_stage w; wi_state := wi_state w; wi_mode := wi_mode w;
     wi_pause_reason := wi_pause_reason w; wi_paused_state := wi_paused_state w;
     wi_content_hash := wi_content_hash w; wi_pr_ref := pr; wi_parent_id := wi_parent_id w;
     wi_cum_cost_usd := wi_cum_cost_usd w; wi_max_cost_usd := wi_max_cost_usd w |}.

Definition set_pause (reason stage : bytes) (w : db1_work_item_t) : db1_work_item_t :=
  {| wi_repo := wi_repo w; wi_proposal_path := wi_proposal_path w;
     wi_workflow_name := wi_workflow_name w; wi_workflow_version := wi_workflow_version w;
     wi_current_stage := wi_current_stage w; wi_state := wi_state w; wi_mode := wi_mode w;
     wi_pause_reason := reason; wi_paused_state := stage;
     wi_content_hash := wi_content_hash w; wi_pr_ref := wi_pr_ref w; wi_parent_id := wi_parent_id w;
     wi_cum_cost_usd := wi_cum_cost_usd w; wi_max_cost_usd := wi_max_cost_usd w |}.

Definition set_state (state : bytes) (w : db1_work_item_t) : db1_work_item_t :=
  {| wi_repo := wi_repo w; wi_proposal_path := wi_proposal_path w;
     wi_workflow_name := wi_workflow_name w; wi_workflow_version := wi_workflow_version w;
     wi_current_stage := wi_current_stage w; wi_state := state; wi_mode := wi_mode w;
     wi_pause_reason := wi_pause_reason w; wi_paused_state := wi_paused_state w;
     wi_content_hash := wi_content_hash w; wi_pr_ref := wi_pr_ref w; wi_parent_id := wi_parent_id w;
     wi_cum_cost_usd := wi_cum_cost_usd w; wi_max_cost_usd := wi_max_cost_usd w |}.

Definition add_cost (cost : double) (w : db1_work_item_t) : db1_work_item_t :=
  {| wi_repo := wi_repo w; wi_proposal_path := wi_proposal_path w;
     wi_workflow_name := wi_workflow_name w; wi_workflow_version := wi_workflow_version w;
     wi_current_stage := wi_current_stage w; wi_state := wi_state w; wi_mode := wi_mode w;
     wi_pause_reason := wi_pause_reason w; wi_paused_state := wi_paused_state w;
     wi_content_hash := wi_content_hash w; wi_pr_ref := wi_pr_ref w; wi_parent_id := wi_parent_id w;
     wi_cum_cost_usd := d_add (wi_cum_cost_usd w) cost; wi_max_cost_usd := wi_max_cost_usd w |}.

(** [workItemSetTerminalSQL]: the state is set and the pause cleared. *)
Definition set_terminal (state : bytes) (w : db1_work_item_t) : db1_work_item_t :=
  set_state state (set_pause [] [] w).

Definition terminalWorkItemStates : list bytes := [str "accepted"; str "rejected"; str "abandoned"].

(** [workItemAbandonChildrenSQL], on every row. *)
Definition abandon_child (parent : bytes) (w : db1_work_item_t) : db1_work_item_t :=
  if bool_decide (wi_parent_id w = parent /\ (wi_state w ∉ terminalWorkItemStates))
  then set_terminal (str "abandoned") w else w.

(** [UPDATE .. WHERE work_item_id = id] *)
Definition update_row (id : bytes) (f : db1_work_item_t -> db1_work_item_t) (m : rows_t) : rows_t :=
  alter f id m.

(** ** One outcome on the rows *)

(** What a recorded outcome does to the row it is for, whatever the order the
    fields travelled in. *)
Definition outcome_row (o : db1_work_item_outcome_t) (w : db1_work_item_t) : db1_work_item_t :=
  let w := if d_gt (o_cost_usd o) d_zero then add_cost (o_cost_usd o) w else w in
  match o_disposition o with
  | OUTCOME_PAUSE => set_pause (o_pause_reason o) (o_pause_stage o) w
  | OUTCOME_TERMINAL => set_terminal (o_state o) w
  | OUTCOME_ADVANCE =>
      let w := set_stage (o_next_stage o) (o_event_hash o) w in
      let w := if bool_decide (o_pr_ref o = []) then w else set_pr_ref (o_pr_ref o) w in
      if bool_decide (o_park_reason o = []) then w
      else set_pause (o_park_reason o) (o_next_stage o) w
  end.

Definition outcome_rows (o : db1_work_item_outcome_t) (m : rows_t) : rows_t :=
  let m := update_row (o_work_item_id o) (outcome_row o) m in
  if bool_decide (o_disposition o = OUTCOME_TERMINAL) && o_abandon_children o
  then abandon_child (o_work_item_id o) <$> m else m.

Definition attempts_of (id stage : bytes) (m : gmap (bytes * bytes) N) : Z :=
  Z.of_N (default 0%N (m !! (id, stage))).

(** ** The interface the engine uses *)

(** [work_item_get] is [Some] when the call answers 1. *)
Class WorkStore (S : Type) := {
  work_item_get : bytes -> S -> option db1_work_item_t * S;
  stage_attempt_inc : bytes -> bytes -> S -> Z * S;
  record_outcome : db1_work_item_outcome_t -> S -> Z * S;
}.

(** ** The store itself *)

Definition with_rows (f : rows_t -> rows_t) (s : db) : db :=
  {| rows := f (rows s); events := events s; attempts := attempts s |}.

Definition lifecycleEventAdd (e : db1_lifecycle_event_t) (s : db) : db :=
  {| rows := rows s; events := (events s ++ [e])%list; attempts := attempts s |}.

Definition stageAttemptInc (id stage : bytes) (s : db) : Z * db :=
  if bool_decide (id = []) || bool_decide (stage = []) then (-1, s)
  else
    let n := attempts_of id stage (attempts s) + 1 in
    (n, {| rows := rows s; events := events s; attempts := <[(id, stage) := Z.to_N n]> (attempts s) |}).

Definition stageAttemptReset (id stage : bytes) (s : db) : db :=
  {| rows := rows s; events := events s; attempts := delete (id, stage) (attempts s) |}.

Inductive status_t := StatusOK | StatusInvalid | StatusFailed.

(** [workItemGateApply]: the decision applies only while the row is parked as
    the caller saw it; 1 is applied, 0 the precondition no longer holds. *)
Definition workItemGateApply (id expect_stage expect_hash new_stage terminal_state : bytes) (s : db)
    : Z * db :=
  match rows s !! id with
  | Some w =>
      if bool_decide (wi_current_stage w = expect_stage /\ wi_content_hash w = expect_hash
                      /\ wi_pause_reason w = str "pending_human") then
        let f :=
          if negb (bool_decide (new_stage = [])) then
            fun w => set_pause [] [] (set_stage new_stage (wi_content_hash w) w)
          else if negb (bool_decide (terminal_state = [])) then set_terminal terminal_state
          else set_pause [] [] in
        (1, with_rows (update_row id f) s)
      else (0, s)
  | None => (0, s)
  end.

(** [workItemCreate]; the id and the pair of repository and path are unique. *)
Definition workItemCreate (id repo path workflow version stage mode : bytes) (s : db) : status_t * db :=
  if bool_decide (id = []) then (StatusInvalid, s)
  else if bool_decide (is_Some (rows s !! id))
          || bool_decide (map_Exists (fun _ w => wi_repo w = repo /\ wi_proposal_path w = path) (rows s))
  then (StatusFailed, s)
  else
    let w := {| wi_repo := repo; wi_proposal_path := path;
                wi_workflow_name := if bool_decide (workflow = []) then str "build" else workflow;
                wi_workflow_version := version; wi_current_stage := stage; wi_state := str "active";
                wi_mode := if bool_decide (mode = []) then str "interactive" else mode;
                wi_pause_reason := []; wi_paused_state := []; wi_content_hash := []; wi_pr_ref := [];
                wi_parent_id := []; wi_cum_cost_usd := d_zero; wi_max_cost_usd := d_zero |} in
    (StatusOK, with_rows <[id := w]> s).

(** ** The wire of a recorded outcome *)

Definition digit (c : Z) : bool := (48 <=? c) && (c <=? 57).

(** [strconv.Atoi] of a request cell; an empty cell is zero. *)
Definition go_atoi (cell : bytes) : option Z :=
  match cell with
  | [] => Some 0
  | c :: cs =>
      let '(neg, ds) := if c =? 45 then (true, cs) else if c =? 43 then (false, cs) else (false, cell) in
      if bool_decide (ds = []) || negb (forallb digit ds) then None
      else
        let v := fold_left (fun v d => v * 10 + (d - 48)) ds 0 in
        let v := if neg : bool then - v else v in
        if (- 2 ^ 63 <=? v) && (v <? 2 ^ 63) then Some v else None
  end.

Definition disposition_code (d : disposition_t) : Z :=
  match d with OUTCOME_PAUSE => 0 | OUTCOME_TERMINAL => 1 | OUTCOME_ADVANCE => 2 end.

Definition disposition_of (z : Z) : option disposition_t :=
  if z =? 0 then Some OUTCOME_PAUSE else if z =? 1 then Some OUTCOME_TERMINAL
  else if z =? 2 then Some OUTCOME_ADVANCE else None.

Section Wire.
(** [fmt_g] is [snprintf("%.17g")] and [atof] is [strconv.ParseFloat]. *)
Context (fmt_g : double -> bytes) (atof : bytes -> option double).

(** The fields in the order the client sends them ([lifecycle.c]). *)
Definition outcome_fields (o : db1_work_item_outcome_t) : list bytes :=
  [o_work_item_id o; o_node_id o; dec_u64 (disposition_code (o_disposition o)); o_state o;
   o_pause_reason o; o_pause_stage o; o_next_stage o; o_pr_ref o;
   dec_u64 (if o_abandon_children o then 1 else 0); fmt_g (o_cost_usd o);
   o_event_kind o; o_event_detail o; o_event_hash o; o_park_reason o].

(** The fields in the order the handler reads them ([lifecycle.go]). *)
Definition handler_fields (o : db1_work_item_outcome_t) : list bytes :=
  [o_work_item_id o; dec_u64 (disposition_code (o_disposition o)); fmt_g (o_cost_usd o); o_state o;
   o_pause_reason o; o_pause_stage o; o_next_stage o; o_pr_ref o; o_park_reason o; o_node_id o;
   o_event_kind o; o_event_detail o; o_event_hash o;
   dec_u64 (if o_abandon_children o then 1 else 0)].

Definition engine_event (id stage kind detail hash : bytes) (cost : double) : db1_lifecycle_event_t :=
  {| ev_work_item_id := id; ev_stage := stage; ev_kind := kind; ev_actor := str "engine";
     ev_detail := detail; ev_content_hash := hash; ev_cost_usd := cost |}.

(** The handler, its statements in order; every statement succeeds. *)
Definition workItemRecordOutcome (f : list bytes) (s : db) : status_t * db :=
  match f with
  | [id; disp; cost; state; pauseReason; pauseStage; nextStage; prRef; parkReason; nodeID;
     eventKind; eventDetail; eventHash; abandon] =>
      match go_atoi disp, atof cost, go_atoi abandon with
      | Some disp, Some cost, Some abandon =>
          if bool_decide (id = []) then (StatusInvalid, s)
          else
            match disposition_of disp with
            | None => (StatusInvalid, s)
            | Some disposition =>
                let s := if d_gt cost d_zero then with_rows (update_row id (add_cost cost)) s else s in
                let s :=
                  match disposition with
                  | OUTCOME_TERMINAL =>
                      let s := with_rows (update_row id (set_terminal state)) s in
                      if negb (abandon =? 0) then with_rows (fmap (abandon_child id)) s else s
                  | OUTCOME_PAUSE => with_rows (update_row id (set_pause pauseReason pauseStage)) s
                  | OUTCOME_ADVANCE =>
                      let s := with_rows (update_row id (set_stage nextStage eventHash)) s in
                      if bool_decide (prRef = []) then s
                      else with_rows (update_row id (set_pr_ref prRef)) s
                  end in
                let s := lifecycleEventAdd (engine_event id nodeID eventKind eventDetail eventHash cost) s in
                let s :=
                  if bool_decide (disposition = OUTCOME_ADVANCE) && negb (bool_decide (parkReason = []))
                  then lifecycleEventAdd (engine_event id nextStage (str "pause") parkReason [] d_zero)
                         (with_rows (update_row id (set_pause parkReason nextStage)) s)
                  else s in
                (StatusOK, s)
            end
      | _, _, _ => (StatusInvalid, s)
      end
  | _ => (StatusInvalid, s)
  end.

Definition write_result (st : status_t) : Z :=
  match st with StatusOK => 0 | _ => -1 end.

(** ** The client *)

(** What happens to one call: the request and the reply arrive, the request
    is not sent, or the reply is lost, or refused as malformed or too long,
    after the store did its part. *)
Inductive wire_t := W_delivered | W_unsent | W_reply_lost.

Record client := { c_db : db; c_wire : list wire_t }.

(** [db1_call]: -1 in all cases but the first, here [fail]; when the list is
    used up the wire holds. *)
Definition db1_call {A} (fail : A) (handle : db -> A * db) (c : client) : A * client :=
  match c_wire c with
  | W_unsent :: ws => (fail, {| c_db := c_db c; c_wire := ws |})
  | W_reply_lost :: ws => (fail, {| c_db := (handle (c_db c)).2; c_wire := ws |})
  | W_delivered :: ws =>
      let '(a, s) := handle (c_db c) in (a, {| c_db := s; c_wire := ws |})
  | [] => let '(a, s) := handle (c_db c) in (a, {| c_db := s; c_wire := [] |})
  end.

Definition db1_work_item_get (work_item_id : bytes) (c : client) : option db1_work_item_t * client :=
  if bool_decide (work_item_id = []) then (None, c)
  else db1_call None (fun s => (rows s !! work_item_id, s)) c.

(** [(int)] of the number the store answers. *)
Definition to_int (n : Z) : Z := (n + 2 ^ 31) mod 2 ^ 32 - 2 ^ 31.

Definition db1_stage_attempt_inc (work_item_id stage : bytes) (c : client) : Z * client :=
  if bool_decide (work_item_id = []) then (-1, c)
  else
    db1_call (-1) (fun s => let '(n, s) := stageAttemptInc work_item_id stage s in
                            (if n =? -1 then -1 else to_int n, s)) c.

Definition db1_work_item_record_outcome (o : db1_work_item_outcome_t) (c : client) : Z * client :=
  db1_call (-1) (fun s => let '(st, s) := workItemRecordOutcome (outcome_fields o) s in
                          (write_result st, s)) c.

Definition client_store : WorkStore client := {|
  work_item_get := db1_work_item_get;
  stage_attempt_inc := db1_stage_attempt_inc;
  record_outcome := db1_work_item_record_outcome;
|}.
End Wire.

(** ** The handler against the contract *)

(** The whole effect of an outcome: its rows, then its audit events. *)
Definition outcome_events (o : db1_work_item_outcome_t) : list db1_lifecycle_event_t :=
  engine_event (o_work_item_id o) (o_node_id o) (o_event_kind o) (o_event_detail o)
    (o_event_hash o) (o_cost_usd o)
  :: if bool_decide (o_disposition o = OUTCOME_ADVANCE) && negb (bool_decide (o_park_reason o = []))
     then [engine_event (o_work_item_id o) (o_next_stage o) (str "pause") (o_park_reason o) [] d_zero]
     else [].

Definition apply_outcome (o : db1_work_item_outcome_t) (s : db) : db :=
  {| rows := outcome_rows o (rows s); events := (events s ++ outcome_events o)%list;
     attempts := attempts s |}.

Lemma update_row_compose id f g m : update_row id f (update_row id g m) = update_row id (f ∘ g) m.
Proof. unfold update_row. apply alter_alter_eq. Qed.

Lemma update_row_id id m : update_row id (fun w => w) m = m.
Proof.
  unfold update_row. apply map_eq. intros i. destruct (decide (i = id)) as [->|].
  - rewrite lookup_alter_eq. by destruct (m !! id).
  - by rewrite lookup_alter_ne.
Qed.

Lemma go_atoi_disposition d : go_atoi (dec_u64 (disposition_code d)) = Some (disposition_code d).
Proof. by destruct d. Qed.

Lemma go_atoi_flag b : go_atoi (dec_u64 (if b : bool then 1 else 0)) = Some (if b then 1 else 0).
Proof. by destruct b. Qed.

Lemma disposition_of_code d : disposition_of (disposition_code d) = Some d.
Proof. by destruct d. Qed.

Lemma with_rows_rows f s : rows (with_rows f s) = f (rows s).
Proof. done. Qed.

(** Read in the order it expects, the handler implements the contract of
    the header: the row is charged, then paused, ended or advanced (and parked
    when the step crossed its cap), children are abandoned when asked, and the
    audit events are appended, all in one step. *)
Theorem record_outcome_refines fmt_g atof o s :
  o_work_item_id o <> [] -> atof (fmt_g (o_cost_usd o)) = Some (o_cost_usd o) ->
  workItemRecordOutcome atof (handler_fields fmt_g o) s = (StatusOK, apply_outcome o s).
Proof.
  intros Hid Hcost. unfold workItemRecordOutcome, handler_fields.
  rewrite go_atoi_disposition, Hcost, go_atoi_flag, (bool_decide_eq_false_2 _ Hid), disposition_of_code.
  f_equal. unfold apply_outcome, outcome_rows, outcome_row, outcome_events.
  set (id := o_work_item_id o). set (c := o_cost_usd o).
  assert (Hpre : rows (if d_gt c d_zero then with_rows (update_row id (add_cost c)) s else s)
    = update_row id (fun w => if d_gt c d_zero then add_cost c w else w) (rows s)).
  { destruct (d_gt c d_zero); [done | by rewrite update_row_id]. }
  assert (Hev : events (if d_gt c d_zero then with_rows (update_row id (add_cost c)) s else s)
    = events s) by (by destruct (d_gt c d_zero)).
  assert (Hat : attempts (if d_gt c d_zero then with_rows (update_row id (add_cost c)) s else s)
    = attempts s) by (by destruct (d_gt c d_zero)).
  revert Hpre Hev Hat.
  generalize (if d_gt c d_zero then with_rows (update_row id (add_cost c)) s else s).
  intros s1 Hpre Hev Hat.
  destruct (o_disposition o), (o_abandon_children o); cbv zeta;
    repeat case_bool_decide; try done;
    unfold lifecycleEventAdd, with_rows; simpl; rewrite Hpre, Hev, Hat, ?update_row_compose;
    f_equal; try (by rewrite <- app_assoc); done.
Qed.

(** Sent in the order the client writes it, no outcome of a step at a
    node whose id is not a number is recorded: the handler takes the node id
    for the disposition and refuses, and nothing is written. *)
Theorem record_outcome_wire_refused fmt_g atof o c :
  go_atoi (o_node_id o) = None ->
  db1_work_item_record_outcome fmt_g atof o c = (-1, {| c_db := c_db c; c_wire := tail (c_wire c) |}).
Proof.
  intros Hn. unfold db1_work_item_record_outcome, db1_call, workItemRecordOutcome, outcome_fields.
  rewrite Hn. by destruct (c_wire c) as [|[] ws].
Qed.

(** ** The store of the header *)

(** What [wfe_store.h] promises: an outcome is applied whole. *)
Definition documented_store : WorkStore db := {|
  work_item_get id s := (rows s !! id, s);
  stage_attempt_inc := stageAttemptInc;
  record_outcome o s := if bool_decide (o_work_item_id o = []) then (-1, s) else (0, apply_outcome o s);
|}.

(** ** Human decisions *)

Lemma lookup_update_row id f m : update_row id f m !! id = f <$> m !! id.
Proof. unfold update_row. apply lookup_alter_eq. Qed.

Lemma lookup_update_row_ne id j f m : id <> j -> update_row id f m !! j = m !! j.
Proof. unfold update_row. apply lookup_alter_ne. Qed.

(** A decision on a parked gate is applied at most once: whatever it was,
    the same decision presented again finds the gate no longer parked, and
    changes nothing. *)
Theorem gate_apply_once id stage hash new_stage terminal s s' :
  workItemGateApply id stage hash new_stage terminal s = (1, s') ->
  forall stage' hash' new_stage' terminal',
    workItemGateApply id stage' hash' new_stage' terminal' s' = (0, s').
Proof.
  unfold workItemGateApply at 1. destruct (rows s !! id) as [w|] eqn:Hw; [|done].
  case_bool_decide; [|done]. intros [= <-] stage' hash' new_stage' terminal'.
  unfold workItemGateApply. rewrite with_rows_rows, lookup_update_row, Hw. simpl.
  rewrite bool_decide_eq_false_2; [done|]. repeat case_match; naive_solver.
Qed.

(** ** The properties at concrete inputs *)

Definition parked_row : db1_work_item_t :=
  {| wi_repo := []; wi_proposal_path := []; wi_workflow_name := str "w"; wi_workflow_version := [];
     wi_current_stage := str "g"; wi_state := str "active"; wi_mode := str "interactive";
     wi_pause_reason := str "pending_human"; wi_paused_state := str "g"; wi_content_hash := str "h";
     wi_pr_ref := []; wi_parent_id := []; wi_cum_cost_usd := d_zero; wi_max_cost_usd := d_zero |}.

Definition parked_db : db := {| rows := {[ str "wi_1" := parked_row ]}; events := []; attempts := ∅ |}.

Definition end_outcome : db1_work_item_outcome_t :=
  {| o_work_item_id := str "wi_1"; o_node_id := str "g"; o_disposition := OUTCOME_TERMINAL;
     o_state := str "rejected"; o_pause_reason := []; o_pause_stage := []; o_next_stage := [];
     o_pr_ref := []; o_abandon_children := true; o_cost_usd := d_zero; o_event_kind := str "failed";
     o_event_detail := []; o_event_hash := []; o_park_reason := [] |}.

Lemma record_outcome_refines_witness :
  workItemRecordOutcome (fun _ => Some d_zero) (handler_fields (fun _ => str "0") end_outcome) parked_db
  = (StatusOK, apply_outcome end_outcome parked_db).
Proof.
  by apply (record_outcome_refines (fun _ => str "0") (fun _ => Some d_zero) end_outcome parked_db).
Defined.

Lemma record_outcome_wire_refused_witness :
  db1_work_item_record_outcome (fun _ => str "0") (fun _ => Some d_zero) end_outcome
    {| c_db := parked_db; c_wire := [] |} = (-1, {| c_db := parked_db; c_wire := [] |}).
Proof.
  by apply (record_outcome_wire_refused (fun _ => str "0") (fun _ => Some d_zero) end_outcome
    {| c_db := parked_db; c_wire := [] |}).
Defined.

Lemma gate_apply_once_witness :
  let c := workItemGateApply (str "wi_1") (str "g") (str "h") (str "b") [] parked_db in
  fst c = 1 /\ workItemGateApply (str "wi_1") (str "g") (str "h") [] (str "rejected") (snd c) = (0, snd c).
Proof.
  intros c. split; [vm_compute; reflexivity|].
  apply (gate_apply_once (str "wi_1") (str "g") (str "h") (str "b") [] parked_db (snd c)).
  vm_compute. reflexivity.
Defined.

End WfeStore.
