(* ===== verification/WfeEngine.v ===== *)
(** * Workflow engine ([src/src/modules/workflows/wfe_engine.c])

    [wfe_engine_advance] takes one step of a work item: it loads the
    workflow, runs the executor of the current node outside any transaction,
    decides the outcome and hands it to the store.  The store is any instance
    of [WorkStore], of which nothing is assumed; loading a workflow (reading, trust check, parsing), the
    executors, the version hash and the random bytes are parameters.  The
    result carries the return code, what the call reports and the store
    afterwards. *)

From Stdlib Require Import ZArith Lia String Ascii SpecFloat.
From stdpp Require Import base numbers option list relations gmap fin_maps.
From S2P Require Import Prelude Checks Json WfeDef WfeCustom WfeGraph WfeValidate WfeIface WfeStore.

Open Scope string_scope.
Open Scope Z_scope.

Module WfeEngine.
Import WfeDef WfeCustom WfeGraph WfeValidate WfeIface WfeStore.

(** ** Names *)

Definition hex_digit (n : Z) : Z := if n <? 10 then 48 + n else 87 + n.

(** [rnd] are the bytes read from the system, [None] when the read failed. *)
Definition mint_work_item_id (rnd : option bytes) : option bytes :=
  match rnd with
  | Some rnd =>
      if (length rnd =? 16)%nat then
        Some (str "wi_" ++ flat_map (fun b => [hex_digit (Z.shiftr b 4); hex_digit (Z.land b 15)]) rnd)%list
      else None
  | None => None
  end.

Fixpoint strip_slashes (rev_s : bytes) : bytes :=
  match rev_s with
  | c :: cs => if c =? 47 then strip_slashes cs else rev_s
  | [] => []
  end.

Definition normalize_repo (cap : nat) (inp : option bytes) : bytes :=
  match inp with
  | None => []
  | Some inp =>
      let s := reverse (strip_slashes (reverse (snprintf_s cap inp))) in
      let n := length s in
      if (4 <=? n)%nat && bytes_eqb (drop (n - 4) s) (str ".git") then take (n - 4) s else s
  end.

Definition pause_name (r : wfe_pause_reason_t) : bytes :=
  match r with
  | WFE_PAUSE_PENDING_HUMAN => str "pending_human"
  | WFE_PAUSE_PANEL_DEGRADED => str "panel_degraded"
  | WFE_PAUSE_BUDGET_EXCEEDED => str "budget_exceeded"
  | WFE_PAUSE_PANEL_UNREACHABLE => str "panel_unreachable"
  | WFE_PAUSE_CI_PENDING => str "ci_pending"
  | WFE_PAUSE_MERGE_PENDING => str "merge_pending"
  | WFE_PAUSE_TURN_CAP => str "turn_cap_exceeded"
  | WFE_PAUSE_WALL_CAP => str "wall_cap_exceeded"
  | WFE_PAUSE_SLICES_RUNNING => str "slices_running"
  | WFE_PAUSE_NONE => []
  end.

Definition pause_from_name (s : bytes) : wfe_pause_reason_t :=
  if bytes_eqb s (str "pending_human") then WFE_PAUSE_PENDING_HUMAN
  else if bytes_eqb s (str "panel_degraded") then WFE_PAUSE_PANEL_DEGRADED
  else if bytes_eqb s (str "budget_exceeded") then WFE_PAUSE_BUDGET_EXCEEDED
  else if bytes_eqb s (str "panel_unreachable") then WFE_PAUSE_PANEL_UNREACHABLE
  else if bytes_eqb s (str "ci_pending") then WFE_PAUSE_CI_PENDING
  else if bytes_eqb s (str "merge_pending") then WFE_PAUSE_MERGE_PENDING
  else if bytes_eqb s (str "turn_cap_exceeded") then WFE_PAUSE_TURN_CAP
  else if bytes_eqb s (str "wall_cap_exceeded") then WFE_PAUSE_WALL_CAP
  else if bytes_eqb s (str "slices_running") then WFE_PAUSE_SLICES_RUNNING
  else WFE_PAUSE_NONE.

Definition next_stage_for (n : wfe_node_t) (st : wfe_step_status_t) : bytes :=
  match st with
  | WFE_STEP_ADVANCED => if bool_decide (n_on_pass n = []) then n_next n else n_on_pass n
  | WFE_STEP_LOOPED => n_on_fail n
  | _ => []
  end.

(** ** What one call reports *)

Record wfe_advance_result_t := {
  a_last_status : wfe_step_status_t;
  a_stage : bytes;
  a_next_stage : bytes;
  a_terminal : bool;
  a_state : bytes;
  a_pause_reason : wfe_pause_reason_t;
  a_failure_class : wfe_failure_class_t;
  a_failure_has_new_input : bool;
}.

Definition result_zero : wfe_advance_result_t :=
  {| a_last_status := WFE_STEP_ADVANCED; a_stage := []; a_next_stage := []; a_terminal := false;
     a_state := []; a_pause_reason := WFE_PAUSE_NONE; a_failure_class := WFE_FAIL_NONE;
     a_failure_has_new_input := false |}.

(** The fields set so far: the state read, the stage that runs and, after the
    executor, its status and failure class. *)
Definition result_of (state stage : bytes) (st : wfe_step_status_t) (next : bytes) (terminal : bool)
    (pause : wfe_pause_reason_t) (r : option wfe_step_result_t) : wfe_advance_result_t :=
  {| a_last_status := st; a_stage := snprintf_s WFE_ID_LEN stage;
     a_next_stage := snprintf_s WFE_ID_LEN next; a_terminal := terminal;
     a_state := snprintf_s 24 state; a_pause_reason := pause;
     a_failure_class := match r with Some r => r_failure_class r | None => WFE_FAIL_NONE end;
     a_failure_has_new_input :=
       match r with Some r => r_failure_has_new_input r | None => false end |}.

(** ** Outcomes

    [wfe_outcome_init] clears every field but the two ids; each disposition
    then sets its own. *)
Definition wfe_outcome_init (work_item_id node_id : bytes) : db1_work_item_outcome_t :=
  {| o_work_item_id := snprintf_s 80 work_item_id; o_node_id := snprintf_s 64 node_id;
     o_disposition := OUTCOME_PAUSE; o_state := []; o_pause_reason := []; o_pause_stage := [];
     o_next_stage := []; o_pr_ref := []; o_abandon_children := false; o_cost_usd := d_zero;
     o_event_kind := []; o_event_detail := []; o_event_hash := []; o_park_reason := [] |}.

Definition oc_pause (oc : db1_work_item_outcome_t) (cost : double) (reason stage kind detail hash : bytes)
    : db1_work_item_outcome_t :=
  {| o_work_item_id := o_work_item_id oc; o_node_id := o_node_id oc;
     o_disposition := OUTCOME_PAUSE; o_state := [];
     o_pause_reason := snprintf_s 32 reason; o_pause_stage := snprintf_s 64 stage;
     o_next_stage := []; o_pr_ref := []; o_abandon_children := false; o_cost_usd := cost;
     o_event_kind := snprintf_s 32 kind; o_event_detail := snprintf_s 128 detail;
     o_event_hash := snprintf_s 72 hash; o_park_reason := [] |}.

Definition oc_terminal (oc : db1_work_item_outcome_t) (cost : double) (state : bytes)
    (abandon : bool) (detail hash : bytes) : db1_work_item_outcome_t :=
  {| o_work_item_id := o_work_item_id oc; o_node_id := o_node_id oc;
     o_disposition := OUTCOME_TERMINAL; o_state := snprintf_s 24 state;
     o_pause_reason := []; o_pause_stage := []; o_next_stage := []; o_pr_ref := [];
     o_abandon_children := abandon; o_cost_usd := cost;
     o_event_kind := str "terminal"; o_event_detail := snprintf_s 128 detail;
     o_event_hash := snprintf_s 72 hash; o_park_reason := [] |}.

Definition oc_advance (oc : db1_work_item_outcome_t) (cost : double) (next pr kind hash park : bytes)
    : db1_work_item_outcome_t :=
  {| o_work_item_id := o_work_item_id oc; o_node_id := o_node_id oc;
     o_disposition := OUTCOME_ADVANCE; o_state := []; o_pause_reason := []; o_pause_stage := [];
     o_next_stage := snprintf_s 64 next; o_pr_ref := snprintf_s 256 pr;
     o_abandon_children := false; o_cost_usd := cost;
     o_event_kind := snprintf_s 32 kind; o_event_detail := snprintf_s 128 next;
     o_event_hash := snprintf_s 72 hash; o_park_reason := snprintf_s 32 park |}.

Inductive engine_err :=
  | EE_unknown_item | EE_load | EE_stage | EE_executor | EE_budget_record | EE_loop_no_edge | EE_record.

(** ** The decision after the executor *)

Section Decide.
Context (work_item_id : bytes) (wi : db1_work_item_t) (node : wfe_node_t) (r : wfe_step_result_t).

Definition autonomous : bool := bytes_eqb (wi_mode wi) (str "autonomous").

Definition step_cost : double := if d_gt (r_cost_usd r) d_zero then r_cost_usd r else d_zero.

Definition base_outcome : db1_work_item_outcome_t := wfe_outcome_init work_item_id (n_id node).

Definition over_budget : bool :=
  d_gt (wi_max_cost_usd wi) d_zero
  && d_ge (d_add (wi_cum_cost_usd wi) (if d_gt (r_cost_usd r) d_zero then r_cost_usd r else d_zero))
       (wi_max_cost_usd wi).

Definition report (st : wfe_step_status_t) (next : bytes) (terminal : bool) (state : bytes)
    (pause : wfe_pause_reason_t) : wfe_advance_result_t :=
  result_of state (n_id node) st next terminal pause (Some r).

(** [WFE_STEP_PENDING] *)
Definition pending_outcome : db1_work_item_outcome_t * wfe_advance_result_t :=
  let name := pause_name (r_pause_reason r) in
  let pr := if bool_decide (name = []) then str "unspecified" else name in
  if bool_decide (r_pause_reason r = WFE_PAUSE_PENDING_HUMAN) && autonomous
     && negb (bool_decide (n_block node = WFE_BLK_GATE_HUMAN)) then
    (oc_terminal base_outcome step_cost (str "abandoned") true
       (str "abandoned: autonomous dead-end (no human to escalate to)") [],
     report WFE_STEP_PENDING [] true (str "abandoned") WFE_PAUSE_NONE)
  else
    (oc_pause base_outcome step_cost pr (n_id node) (str "pause") pr (r_content_hash r),
     report WFE_STEP_PENDING (n_id node) false (wi_state wi) (r_pause_reason r)).

(** The pause reason and event detail of a failed step. *)
Definition failure_reason : bytes * bytes :=
  match r_failure_class r with
  | WFE_FAIL_BUDGET => (str "budget_exceeded", str "budget")
  | WFE_FAIL_DEGRADED => (str "panel_degraded", str "degraded")
  | WFE_FAIL_FORGE => (str "pending_human", str "forge")
  | WFE_FAIL_TRANSIENT =>
      (str "stuck", if r_failure_has_new_input r then str "retry_expected_looped" else str "park_stuck")
  | _ => (str "failed", [])
  end.

Definition failed_outcome : db1_work_item_outcome_t * wfe_advance_result_t :=
  let '(reason, detail) := failure_reason in
  (oc_pause base_outcome step_cost reason (n_id node) (str "failed") detail [],
   report WFE_STEP_FAILED [] false (wi_state wi) WFE_PAUSE_NONE).

(** The last forward edge: [on_pass] when set, else [next]. *)
Definition forward_edge : bytes :=
  if bool_decide (n_on_pass node = []) then n_next node else n_on_pass node.

(** A loop-back whose attempt count reached the cap. *)
Definition capped_outcome (next : bytes) : db1_work_item_outcome_t * wfe_advance_result_t :=
  match wfe_node_on_max node with
  | WFE_ON_MAX_FAIL =>
      (oc_terminal base_outcome step_cost (str "rejected") false (str "rejected: max_iters reached") [],
       report WFE_STEP_LOOPED [] true (str "rejected") WFE_PAUSE_NONE)
  | WFE_ON_MAX_PASS =>
      (oc_advance base_outcome step_cost forward_edge [] (str "forced_pass") (r_content_hash r) [],
       report WFE_STEP_ADVANCED forward_edge false (wi_state wi) WFE_PAUSE_NONE)
  | WFE_ON_MAX_HUMAN =>
      if autonomous then
        (oc_terminal base_outcome step_cost (str "abandoned") true
           (str "abandoned: max_iters reached (autonomous, no human to escalate to)") [],
         report WFE_STEP_LOOPED [] true (str "abandoned") WFE_PAUSE_NONE)
      else
        (oc_pause base_outcome step_cost (str "pending_human") next (str "pause") (str "max_iters") [],
         report WFE_STEP_PENDING next false (wi_state wi) WFE_PAUSE_PENDING_HUMAN)
  end.

(** [pr.open] carries the opened reference in its content hash. *)
Definition move_pr : bytes :=
  if bool_decide (n_block node = WFE_BLK_PR_OPEN) && bool_decide (r_status r = WFE_STEP_ADVANCED)
  then r_content_hash r else [].

Definition move_kind : bytes :=
  if bool_decide (r_status r = WFE_STEP_LOOPED) then str "loop" else str "advance".

(** The step moves to [next]. *)
Definition move_outcome (next : bytes) : db1_work_item_outcome_t * wfe_advance_result_t :=
  if over_budget then
    (oc_advance base_outcome step_cost next move_pr move_kind (r_content_hash r) (str "budget_exceeded"),
     report WFE_STEP_PENDING next false (wi_state wi) WFE_PAUSE_BUDGET_EXCEEDED)
  else
    (oc_advance base_outcome step_cost next move_pr move_kind (r_content_hash r) [],
     report (r_status r) next false (wi_state wi) WFE_PAUSE_NONE).

Definition accepted_outcome : db1_work_item_outcome_t * wfe_advance_result_t :=
  (oc_terminal base_outcome step_cost (str "accepted") false (str "accepted") (r_content_hash r),
   report WFE_STEP_ADVANCED [] true (str "accepted") WFE_PAUSE_NONE).
End Decide.

(** ** One step *)

Record wfe_ctx := {
  ctx_work_item_id : bytes;
  ctx_def : wfe_def_t;
  ctx_node : wfe_node_t;
  ctx_wi : db1_work_item_t;
}.

Section Engine.
Context {S : Type} `{!WorkStore S}.
Context (load_workflow : bytes -> option wfe_def_t).
Context (execs : wfe_block_type_t -> option (wfe_ctx -> S -> wfe_step_result_t * S)).

(** The outcome of a step, with the attempt counter consulted on a loop-back;
    a loop-back without an edge is an error. *)
Definition decide_step (work_item_id : bytes) (wi : db1_work_item_t) (node : wfe_node_t)
    (r : wfe_step_result_t) (s : S)
    : option (db1_work_item_outcome_t * wfe_advance_result_t * S) :=
  match r_status r with
  | WFE_STEP_PENDING => let '(o, a) := pending_outcome work_item_id wi node r in Some (o, a, s)
  | WFE_STEP_FAILED => let '(o, a) := failed_outcome work_item_id wi node r in Some (o, a, s)
  | st =>
      let next := next_stage_for node st in
      if bool_decide (next = []) then
        if bool_decide (st = WFE_STEP_ADVANCED) then
          let '(o, a) := accepted_outcome work_item_id node r in Some (o, a, s)
        else None
      else if bool_decide (st = WFE_STEP_LOOPED) then
        let '(att, s) := stage_attempt_inc work_item_id (n_id node) s in
        if wfe_node_max_iters node <=? att then
          let '(o, a) := capped_outcome work_item_id wi node r next in Some (o, a, s)
        else let '(o, a) := move_outcome work_item_id wi node r next in Some (o, a, s)
      else let '(o, a) := move_outcome work_item_id wi node r next in Some (o, a, s)
  end.

Definition over_cap (wi : db1_work_item_t) : bool :=
  d_gt (wi_max_cost_usd wi) d_zero && d_ge (wi_cum_cost_usd wi) (wi_max_cost_usd wi).

(** The return code 0 is [inr]; the report of a failing call is not used. *)
Definition wfe_engine_advance (work_item_id : bytes) (s : S)
    : (engine_err + wfe_advance_result_t) * S :=
  let '(found, s) := work_item_get work_item_id s in
  match found with
  | None => (inl EE_unknown_item, s)
  | Some wi =>
      if negb (bytes_eqb (wi_state wi) (str "active")) then
        (inr (result_of (wi_state wi) [] WFE_STEP_ADVANCED [] true WFE_PAUSE_NONE None), s)
      else if negb (bool_decide (wi_pause_reason wi = [])) then
        (inr (result_of (wi_state wi) (wi_current_stage wi) WFE_STEP_PENDING (wi_current_stage wi)
                false (pause_from_name (wi_pause_reason wi)) None), s)
      else
        match load_workflow (wi_workflow_name wi) with
        | None => (inl EE_load, s)
        | Some d =>
            match wfe_def_node d (wi_current_stage wi) with
            | None => (inl EE_stage, s)
            | Some node =>
                match wfe_lookup_block_executor execs (n_block node) with
                | None => (inl EE_executor, s)
                | Some fn =>
                    if over_cap wi then
                      let pre := oc_pause (wfe_outcome_init work_item_id (n_id node)) d_zero
                                   (str "budget_exceeded") (n_id node) (str "pause")
                                   (str "budget_exceeded") [] in
                      let '(rc, s) := record_outcome pre s in
                      if rc =? 0 then
                        (inr (result_of (wi_state wi) (n_id node) WFE_STEP_PENDING (n_id node) false
                                WFE_PAUSE_BUDGET_EXCEEDED None), s)
                      else (inl EE_budget_record, s)
                    else
                      let '(r, s) := fn {| ctx_work_item_id := work_item_id; ctx_def := d;
                                           ctx_node := node; ctx_wi := wi |} s in
                      match decide_step work_item_id wi node r s with
                      | None => (inl EE_loop_no_edge, s)
                      | Some (oc, out, s) =>
                          let '(rc, s) := record_outcome oc s in
                          if rc =? 0 then (inr out, s) else (inl EE_record, s)
                      end
                end
            end
        end
  end.
End Engine.

(** ** Creating a work item *)

Inductive create_err := CR_load | CR_invalid (e : verr) | CR_too_long | CR_mint | CR_store.

Section Create.
Context (reg : registry) (memory : bool) (load_workflow : bytes -> option wfe_def_t)
        (compute_version : wfe_def_t -> bytes).

(** [(name, version, start, repo, id)]; [memory] says whether the validator's
    array is granted. *)
Definition wfe_work_item_resolve (workflow_name : bytes) (repo : option bytes) (rnd : option bytes)
    : create_err + (bytes * bytes * bytes * bytes * bytes) :=
  match load_workflow workflow_name with
  | None => inl CR_load
  | Some d =>
      match wfe_def_validate reg memory d with
      | Some e => inl (CR_invalid e)
      | None =>
          if (64 <=? length (d_name d))%nat || (64 <=? length (d_start d))%nat then inl CR_too_long
          else
            match mint_work_item_id rnd with
            | None => inl CR_mint
            | Some id =>
                inr (snprintf_s 64 (d_name d), compute_version d, snprintf_s 64 (d_start d),
                     normalize_repo 512 repo, snprintf_s 80 id)
            end
      end
  end.

Definition wfe_work_item_create (workflow_name : bytes) (repo : option bytes) (path mode : bytes)
    (rnd : option bytes) (s : db) : (create_err + bytes) * db :=
  match wfe_work_item_resolve workflow_name repo rnd with
  | inl e => (inl e, s)
  | inr (name, ver, start, norm, id) =>
      match workItemCreate id norm path name ver start mode s with
      | (StatusOK, s) =>
          (inr id, lifecycleEventAdd
             {| ev_work_item_id := id; ev_stage := start; ev_kind := str "create";
                ev_actor := str "user"; ev_detail := workflow_name; ev_content_hash := ver;
                ev_cost_usd := d_zero |} s)
      | (_, s) => (inl CR_store, s)
      end
  end.
End Create.

(** ** Names *)

Lemma pause_name_from r : pause_from_name (pause_name r) = r.
Proof. by destruct r. Qed.

(** The name of a pause reason is read back as that reason, and a text
    read as a reason other than none is that reason's name. *)
Theorem pause_name_roundtrip r s :
  pause_from_name (pause_name r) = r
  /\ (pause_from_name s = r -> r <> WFE_PAUSE_NONE -> s = pause_name r).
Proof.
  split; [apply pause_name_from|]. unfold pause_from_name. intros H Hr. revert H.
  repeat (case_match; [intros <-; by apply bytes_eqb_true|]). congruence.
Qed.

Lemma hex_digit_inj a b : 0 <= a < 16 -> 0 <= b < 16 -> hex_digit a = hex_digit b -> a = b.
Proof. unfold hex_digit. intros. destruct (Z.ltb_spec a 10), (Z.ltb_spec b 10); lia. Qed.

Lemma minted_byte_inj a b :
  is_byte a -> is_byte b ->
  hex_digit (Z.shiftr a 4) = hex_digit (Z.shiftr b 4) ->
  hex_digit (Z.land a 15) = hex_digit (Z.land b 15) -> a = b.
Proof.
  unfold is_byte. intros Ha Hb. rewrite !shiftr_div by lia. change 15 with (2 ^ 4 - 1).
  rewrite !land_low_mod by lia. change (2 ^ 4) with 16.
  intros H1 H2.
  assert (0 <= a / 16 < 16 /\ 0 <= b / 16 < 16) by (Z.to_euclidean_division_equations; lia).
  assert (0 <= a mod 16 < 16 /\ 0 <= b mod 16 < 16) by (Z.to_euclidean_division_equations; lia).
  apply hex_digit_inj in H1; [|tauto..]. apply hex_digit_inj in H2; [|tauto..].
  rewrite (Z.div_mod a 16), (Z.div_mod b 16) by lia. congruence.
Qed.

(** Work items minted from different random bytes have different ids,
    and an id is 35 characters long, so it fits every column it is stored
    in. *)
Theorem mint_injective r1 r2 id :
  is_bytes r1 -> is_bytes r2 -> mint_work_item_id (Some r1) = Some id ->
  (mint_work_item_id (Some r2) = Some id -> r1 = r2) /\ length id = 35%nat.
Proof.
  unfold mint_work_item_id. intros B1 B2.
  destruct (Nat.eqb_spec (length r1) 16) as [H1|]; [|done]. intros <-%(inj Some). split.
  - destruct (Nat.eqb_spec (length r2) 16) as [H2|]; [|done]. intros H%(inj Some).
    apply (inj (app _)) in H. assert (Hl : length r1 = length r2) by congruence. clear H1 H2.
    revert r2 B2 Hl H. induction B1 as [|a r1 Ha B1 IH]; intros [|b r2] B2 Hl H; try done.
    inversion_clear B2. simpl in H. injection H as Hhi Hlo Hrest.
    f_equal; [by symmetry; apply minted_byte_inj | apply IH; auto].
  - rewrite length_app. cbn [length str]. clear B1 B2.
    assert (Hf : forall r : bytes, length (flat_map (fun b => [hex_digit (Z.shiftr b 4); hex_digit (Z.land b 15)]) r)
      = (2 * length r)%nat) by (induction r as [|x r IHr]; simpl in *; lia).
    rewrite Hf, H1. done.
Qed.

End WfeEngine.
