(* ===== verification/WfeRun.v ===== *)
(** * Calls of the workflow engine

    What one call of [wfe_engine_advance] asks of the executors and of the
    store, for every store: nothing is assumed of the three calls of
    [WorkStore], so they may fail, answer nonsense, or fail after they took
    effect.  [traced] runs the engine over a store that also writes down the
    calls; [engine_call] is the specification, a table from the item's row,
    the node and the executor's answer to what is recorded, and
    [advance_refines] says that every call is one of its cases.  From it: an
    item of an enforced workflow is recorded as accepted only at a delivery
    gate whose executor answered that it advanced, a recorded move leads to a
    node of the workflow, an autonomous item is made to wait for a human only
    at a human gate or after a failed forge operation, and an error means that
    nothing was recorded with success.  Over the client of the repository no
    step at a node whose id is not a number succeeds. *)

From Stdlib Require Import ZArith Lia String Ascii SpecFloat.
From stdpp Require Import base numbers option list relations gmap fin_maps.
From S2P Require Import Prelude Checks Json WfeDef WfeCustom WfeGraph WfeValidate WfeIface.
From S2P Require Import WfeStore WfeEngine.

Open Scope string_scope.
Open Scope Z_scope.

Module WfeRun.
Import WfeDef WfeCustom WfeGraph WfeValidate WfeIface WfeStore WfeEngine.

Definition active (w : db1_work_item_t) : Prop := wi_state w = str "active".
Definition unparked (w : db1_work_item_t) : Prop := wi_pause_reason w = [].

(** ** The calls of a step *)

Inductive call :=
  | C_ran (ctx : wfe_ctx) (r : wfe_step_result_t)          (* an executor answered *)
  | C_counted (stage : bytes) (n : Z)                      (* the attempt counter answered *)
  | C_recorded (o : db1_work_item_outcome_t) (rc : Z).     (* an outcome was handed over *)

Section Traced.
Context {St : Type} `{!WorkStore St}.

Definition traced : Type := St * list call.

#[export] Instance traced_store : WorkStore traced := {
  work_item_get id t := let '(w, s) := work_item_get id t.1 in (w, (s, t.2));
  stage_attempt_inc id k t :=
    let '(n, s) := stage_attempt_inc id k t.1 in (n, (s, t.2 ++ [C_counted k n])%list);
  record_outcome o t :=
    let '(rc, s) := record_outcome o t.1 in (rc, (s, t.2 ++ [C_recorded o rc])%list);
}.

Definition traced_execs (execs : wfe_block_type_t -> option (wfe_ctx -> St -> wfe_step_result_t * St))
    (t : wfe_block_type_t) : option (wfe_ctx -> traced -> wfe_step_result_t * traced) :=
  (fun fn ctx u => let '(r, s) := fn ctx u.1 in (r, (s, u.2 ++ [C_ran ctx r])%list)) <$> execs t.
End Traced.

Arguments traced St : clear implicits.

(** ** The specification *)

(** What the engine decides on. *)
Inductive plan :=
  | Park (reason stage kind detail hash : bytes)
  | End (state : bytes) (children : bool) (detail hash : bytes)
  | Go (stage pr kind hash park : bytes).

(** The order that carries a plan out, each text cut to its field. *)
Definition order (id : bytes) (node : wfe_node_t) (cost : double) (p : plan) : db1_work_item_outcome_t :=
  match p with
  | Park reason stage kind detail hash =>
      {| o_work_item_id := take 79 id; o_node_id := take 63 (n_id node); o_disposition := OUTCOME_PAUSE;
         o_state := []; o_pause_reason := take 31 reason; o_pause_stage := take 63 stage; o_next_stage := [];
         o_pr_ref := []; o_abandon_children := false; o_cost_usd := cost; o_event_kind := take 31 kind;
         o_event_detail := take 127 detail; o_event_hash := take 71 hash; o_park_reason := [] |}
  | End state children detail hash =>
      {| o_work_item_id := take 79 id; o_node_id := take 63 (n_id node); o_disposition := OUTCOME_TERMINAL;
         o_state := take 23 state; o_pause_reason := []; o_pause_stage := []; o_next_stage := [];
         o_pr_ref := []; o_abandon_children := children; o_cost_usd := cost; o_event_kind := str "terminal";
         o_event_detail := take 127 detail; o_event_hash := take 71 hash; o_park_reason := [] |}
  | Go stage pr kind hash park =>
      {| o_work_item_id := take 79 id; o_node_id := take 63 (n_id node); o_disposition := OUTCOME_ADVANCE;
         o_state := []; o_pause_reason := []; o_pause_stage := []; o_next_stage := take 63 stage;
         o_pr_ref := take 255 pr; o_abandon_children := false; o_cost_usd := cost; o_event_kind := take 31 kind;
         o_event_detail := take 127 stage; o_event_hash := take 71 hash; o_park_reason := take 31 park |}
  end.

(** The cost charged for a step: never negative, and not NaN. *)
Definition paid (r : wfe_step_result_t) (cost : double) : Prop :=
  (d_gt (r_cost_usd r) d_zero = true /\ cost = r_cost_usd r)
  \/ (d_gt (r_cost_usd r) d_zero = false /\ cost = d_zero).

(** The item has a ceiling and has reached it; the step takes it there. *)
Definition spent (w : db1_work_item_t) : Prop :=
  d_gt (wi_max_cost_usd w) d_zero = true /\ d_ge (wi_cum_cost_usd w) (wi_max_cost_usd w) = true.

Definition crosses (w : db1_work_item_t) (cost : double) : Prop :=
  d_gt (wi_max_cost_usd w) d_zero = true
  /\ d_ge (d_add (wi_cum_cost_usd w) cost) (wi_max_cost_usd w) = true.

Definition parks (w : db1_work_item_t) (cost : double) (park : bytes) : Prop :=
  (crosses w cost /\ park = str "budget_exceeded") \/ (~ crosses w cost /\ park = []).

(** The edge taken forward: [on_pass] when there is one, else [next]. *)
Definition forward (node : wfe_node_t) (e : bytes) : Prop :=
  (n_on_pass node <> [] /\ e = n_on_pass node) \/ (n_on_pass node = [] /\ e = n_next node).

(** A wait for a human in a run that has none, away from a human gate. *)
Definition dead_end (w : db1_work_item_t) (node : wfe_node_t) (r : wfe_step_result_t) : Prop :=
  r_pause_reason r = WFE_PAUSE_PENDING_HUMAN /\ wi_mode w = str "autonomous"
  /\ n_block node <> WFE_BLK_GATE_HUMAN.

Definition wait_names : list (wfe_pause_reason_t * bytes) :=
  [(WFE_PAUSE_PENDING_HUMAN, str "pending_human"); (WFE_PAUSE_PANEL_DEGRADED, str "panel_degraded");
   (WFE_PAUSE_BUDGET_EXCEEDED, str "budget_exceeded"); (WFE_PAUSE_PANEL_UNREACHABLE, str "panel_unreachable");
   (WFE_PAUSE_CI_PENDING, str "ci_pending"); (WFE_PAUSE_MERGE_PENDING, str "merge_pending");
   (WFE_PAUSE_TURN_CAP, str "turn_cap_exceeded"); (WFE_PAUSE_WALL_CAP, str "wall_cap_exceeded");
   (WFE_PAUSE_SLICES_RUNNING, str "slices_running"); (WFE_PAUSE_NONE, str "unspecified")].

(** The reason and the audit detail of a failed step. *)
Inductive failure (r : wfe_step_result_t) : bytes -> bytes -> Prop :=
  | F_budget : r_failure_class r = WFE_FAIL_BUDGET -> failure r (str "budget_exceeded") (str "budget")
  | F_degraded : r_failure_class r = WFE_FAIL_DEGRADED -> failure r (str "panel_degraded") (str "degraded")
  | F_forge : r_failure_class r = WFE_FAIL_FORGE -> failure r (str "pending_human") (str "forge")
  | F_retry : r_failure_class r = WFE_FAIL_TRANSIENT -> r_failure_has_new_input r = true ->
      failure r (str "stuck") (str "retry_expected_looped")
  | F_stuck : r_failure_class r = WFE_FAIL_TRANSIENT -> r_failure_has_new_input r = false ->
      failure r (str "stuck") (str "park_stuck")
  | F_final : ~ r_failure_class r ∈ [WFE_FAIL_BUDGET; WFE_FAIL_DEGRADED; WFE_FAIL_FORGE; WFE_FAIL_TRANSIENT] ->
      failure r (str "failed") [].

(** The plan for the executor's answer [r], and the calls of the attempt
    counter it took; a counter that fails answers -1, which is below every
    cap. *)
Inductive planned (w : db1_work_item_t) (node : wfe_node_t) (r : wfe_step_result_t) (cost : double)
    : list call -> plan -> Prop :=
  | PL_dead_end : r_status r = WFE_STEP_PENDING -> dead_end w node r ->
      planned w node r cost []
        (End (str "abandoned") true (str "abandoned: autonomous dead-end (no human to escalate to)") [])
  | PL_wait reason : r_status r = WFE_STEP_PENDING -> ~ dead_end w node r ->
      (r_pause_reason r, reason) ∈ wait_names ->
      planned w node r cost [] (Park reason (n_id node) (str "pause") reason (r_content_hash r))
  | PL_failed reason detail : r_status r = WFE_STEP_FAILED -> failure r reason detail ->
      planned w node r cost [] (Park reason (n_id node) (str "failed") detail [])
  | PL_accept : r_status r = WFE_STEP_ADVANCED -> forward node [] ->
      planned w node r cost [] (End (str "accepted") false (str "accepted") (r_content_hash r))
  | PL_forward e pr park : r_status r = WFE_STEP_ADVANCED -> forward node e -> e <> [] ->
      pr = (if bool_decide (n_block node = WFE_BLK_PR_OPEN) then r_content_hash r else []) ->
      parks w cost park ->
      planned w node r cost [] (Go e pr (str "advance") (r_content_hash r) park)
  | PL_loop n park : r_status r = WFE_STEP_LOOPED -> n_on_fail node <> [] -> n < wfe_node_max_iters node ->
      parks w cost park ->
      planned w node r cost [C_counted (n_id node) n]
        (Go (n_on_fail node) [] (str "loop") (r_content_hash r) park)
  | PL_cap_fail n : r_status r = WFE_STEP_LOOPED -> n_on_fail node <> [] -> wfe_node_max_iters node <= n ->
      wfe_node_on_max node = WFE_ON_MAX_FAIL ->
      planned w node r cost [C_counted (n_id node) n]
        (End (str "rejected") false (str "rejected: max_iters reached") [])
  | PL_cap_pass n e : r_status r = WFE_STEP_LOOPED -> n_on_fail node <> [] -> wfe_node_max_iters node <= n ->
      wfe_node_on_max node = WFE_ON_MAX_PASS -> forward node e ->
      planned w node r cost [C_counted (n_id node) n] (Go e [] (str "forced_pass") (r_content_hash r) [])
  | PL_cap_dead_end n : r_status r = WFE_STEP_LOOPED -> n_on_fail node <> [] -> wfe_node_max_iters node <= n ->
      wfe_node_on_max node = WFE_ON_MAX_HUMAN -> wi_mode w = str "autonomous" ->
      planned w node r cost [C_counted (n_id node) n]
        (End (str "abandoned") true
           (str "abandoned: max_iters reached (autonomous, no human to escalate to)") [])
  | PL_cap_wait n : r_status r = WFE_STEP_LOOPED -> n_on_fail node <> [] -> wfe_node_max_iters node <= n ->
      wfe_node_on_max node = WFE_ON_MAX_HUMAN -> wi_mode w <> str "autonomous" ->
      planned w node r cost [C_counted (n_id node) n]
        (Park (str "pending_human") (n_on_fail node) (str "pause") (str "max_iters") []).

(** What a successful call reports of the plan. *)
Definition reported (w : db1_work_item_t) (node : wfe_node_t) (p : plan) (out : wfe_advance_result_t) : Prop :=
  a_stage out = take 63 (n_id node)
  /\ match p with
     | Park _ _ _ _ _ => a_terminal out = false /\ a_state out = take 23 (wi_state w)
     | End state _ _ _ => a_terminal out = true /\ a_state out = take 23 state
     | Go stage _ _ _ park =>
         a_terminal out = false /\ a_state out = take 23 (wi_state w) /\ a_next_stage out = take 63 stage
         /\ (park <> [] -> a_last_status out = WFE_STEP_PENDING)
     end.

(** The call returns 0 exactly when the store answered 0. *)
Definition answered (rc : Z) (e : engine_err) (ok : wfe_advance_result_t -> Prop)
    (res : engine_err + wfe_advance_result_t) : Prop :=
  (rc = 0 /\ exists out, res = inr out /\ ok out) \/ (rc <> 0 /\ res = inl e).

Section Spec.
Context {St : Type} `{!WorkStore St}.
Context (load_workflow : bytes -> option wfe_def_t).
Context (execs : wfe_block_type_t -> option (wfe_ctx -> St -> wfe_step_result_t * St)).
Context (id : bytes) (s : St).

(** An active item that is not parked, at a node of its workflow that has an
    executor; [s0] is the store after the row was read. *)
Record ready (w : db1_work_item_t) (s0 : St) (d : wfe_def_t) (node : wfe_node_t)
    (fn : wfe_ctx -> St -> wfe_step_result_t * St) : Prop := {
  rd_row : work_item_get id s = (Some w, s0);
  rd_active : active w;
  rd_unparked : unparked w;
  rd_load : load_workflow (wi_workflow_name w) = Some d;
  rd_node : wfe_def_node d (wi_current_stage w) = Some node;
  rd_exec : wfe_lookup_block_executor execs (n_block node) = Some fn;
}.

Inductive engine_call : engine_err + wfe_advance_result_t -> list call -> Prop :=
  | EC_unknown s0 : work_item_get id s = (None, s0) -> engine_call (inl EE_unknown_item) []
  | EC_ended w s0 out : work_item_get id s = (Some w, s0) -> ~ active w ->
      a_terminal out = true -> a_state out = take 23 (wi_state w) -> engine_call (inr out) []
  | EC_parked w s0 out : work_item_get id s = (Some w, s0) -> active w -> ~ unparked w ->
      a_terminal out = false -> a_last_status out = WFE_STEP_PENDING -> engine_call (inr out) []
  | EC_load w s0 : work_item_get id s = (Some w, s0) -> active w -> unparked w ->
      load_workflow (wi_workflow_name w) = None -> engine_call (inl EE_load) []
  | EC_stage w s0 d : work_item_get id s = (Some w, s0) -> active w -> unparked w ->
      load_workflow (wi_workflow_name w) = Some d -> wfe_def_node d (wi_current_stage w) = None ->
      engine_call (inl EE_stage) []
  | EC_executor w s0 d node : work_item_get id s = (Some w, s0) -> active w -> unparked w ->
      load_workflow (wi_workflow_name w) = Some d -> wfe_def_node d (wi_current_stage w) = Some node ->
      wfe_lookup_block_executor execs (n_block node) = None -> engine_call (inl EE_executor) []
  | EC_spent w s0 d node fn rc res : ready w s0 d node fn -> spent w ->
      answered rc EE_budget_record (fun out => a_last_status out = WFE_STEP_PENDING
        /\ a_pause_reason out = WFE_PAUSE_BUDGET_EXCEEDED /\ a_terminal out = false) res ->
      engine_call res
        [C_recorded (order id node d_zero (Park (str "budget_exceeded") (n_id node) (str "pause")
                                             (str "budget_exceeded") [])) rc]
  | EC_no_edge w s0 d node fn r s1 : ready w s0 d node fn -> ~ spent w ->
      fn {| ctx_work_item_id := id; ctx_def := d; ctx_node := node; ctx_wi := w |} s0 = (r, s1) ->
      r_status r = WFE_STEP_LOOPED -> n_on_fail node = [] ->
      engine_call (inl EE_loop_no_edge)
        [C_ran {| ctx_work_item_id := id; ctx_def := d; ctx_node := node; ctx_wi := w |} r]
  | EC_step w s0 d node fn r s1 cost counted p rc res : ready w s0 d node fn -> ~ spent w ->
      fn {| ctx_work_item_id := id; ctx_def := d; ctx_node := node; ctx_wi := w |} s0 = (r, s1) ->
      paid r cost -> planned w node r cost counted p -> answered rc EE_record (reported w node p) res ->
      engine_call res
        (C_ran {| ctx_work_item_id := id; ctx_def := d; ctx_node := node; ctx_wi := w |} r
         :: counted ++ [C_recorded (order id node cost p) rc]).
End Spec.

(** ** The decision against its table *)

Lemma step_cost_paid r : paid r (step_cost r).
Proof. unfold paid, step_cost. destruct (d_gt (r_cost_usd r) d_zero); auto. Qed.

Lemma forward_edge_forward node : forward node (forward_edge node).
Proof. unfold forward, forward_edge. case_bool_decide; auto. Qed.

Lemma forward_unique node e1 e2 : forward node e1 -> forward node e2 -> e1 = e2.
Proof. intros [[? ->]|[? ->]] [[? ->]|[? ->]]; done. Qed.

Lemma over_budget_iff w r : over_budget w r = true <-> crosses w (step_cost r).
Proof. unfold over_budget, crosses, step_cost. by rewrite andb_true_iff. Qed.

Lemma parks_iff w r : parks w (step_cost r) (if over_budget w r then str "budget_exceeded" else []).
Proof.
  unfold parks. destruct (over_budget w r) eqn:E; [left | right]; (split; [|done]).
  - by apply over_budget_iff.
  - rewrite <- over_budget_iff. congruence.
Qed.

Lemma autonomous_iff w : autonomous w = true <-> wi_mode w = str "autonomous".
Proof. unfold autonomous. split; [apply bytes_eqb_true | intros ->; apply bytes_eqb_refl]. Qed.

Lemma autonomous_false w : autonomous w = false -> wi_mode w <> str "autonomous".
Proof. rewrite <- autonomous_iff. congruence. Qed.

Section Decided.
Context {St : Type} `{!WorkStore St} (id : bytes) (w : db1_work_item_t) (node : wfe_node_t) (r : wfe_step_result_t).

(** [o] and [out] are the order and the report of a plan for [r]. *)
Definition decided (counted : list call) (o : db1_work_item_outcome_t) (out : wfe_advance_result_t) : Prop :=
  exists cost p, paid r cost /\ planned w node r cost counted p /\ o = order id node cost p /\ reported w node p out.

Ltac plan p := exists (step_cost r), p; split; [apply step_cost_paid|].

Lemma pending_decided : r_status r = WFE_STEP_PENDING ->
  decided [] (pending_outcome id w node r).1 (pending_outcome id w node r).2.
Proof.
  intros Hst. unfold pending_outcome. cbv zeta.
  destruct (bool_decide (r_pause_reason r = WFE_PAUSE_PENDING_HUMAN) && autonomous w
     && negb (bool_decide (n_block node = WFE_BLK_GATE_HUMAN))) eqn:Hdead; cbn [fst snd].
  - apply andb_true_iff in Hdead as [[Hp Ha]%andb_true_iff Hb]. apply autonomous_iff in Ha.
    apply negb_true_iff, bool_decide_eq_false in Hb. apply bool_decide_eq_true in Hp.
    plan (End (str "abandoned") true (str "abandoned: autonomous dead-end (no human to escalate to)") []).
    split; [by constructor | done].
  - set (reason := if bool_decide (pause_name (r_pause_reason r) = []) then str "unspecified"
                   else pause_name (r_pause_reason r)).
    plan (Park reason (n_id node) (str "pause") reason (r_content_hash r)). split; [|done].
    apply PL_wait; [done | |].
    + intros (Hp & Ha & Hb). rewrite Hp, bool_decide_eq_true_2, (proj2 (autonomous_iff w) Ha) in Hdead by done.
      by rewrite bool_decide_eq_false_2 in Hdead.
    + unfold reason. apply list_elem_of_In. destruct (r_pause_reason r); vm_compute; tauto.
Qed.

Lemma failure_reason_failure : failure r (failure_reason r).1 (failure_reason r).2.
Proof.
  unfold failure_reason. destruct (r_failure_class r) eqn:E; cbn [fst snd];
    try (constructor; by rewrite ?E); try (apply F_final; rewrite E; set_solver).
  destruct (r_failure_has_new_input r) eqn:Ei; [by apply F_retry | by apply F_stuck].
Qed.

Lemma failed_decided : r_status r = WFE_STEP_FAILED ->
  decided [] (failed_outcome id w node r).1 (failed_outcome id w node r).2.
Proof.
  intros Hst. unfold failed_outcome. pose proof failure_reason_failure as Hf.
  destruct (failure_reason r) as [reason detail]. cbn [fst snd] in *.
  plan (Park reason (n_id node) (str "failed") detail []). split; [by constructor | done].
Qed.

Lemma accepted_decided : r_status r = WFE_STEP_ADVANCED -> forward_edge node = [] ->
  decided [] (accepted_outcome id node r).1 (accepted_outcome id node r).2.
Proof.
  intros Hst Hf. plan (End (str "accepted") false (str "accepted") (r_content_hash r)).
  split; [constructor; [done|]; rewrite <- Hf; apply forward_edge_forward | done].
Qed.

Lemma capped_decided n : r_status r = WFE_STEP_LOOPED -> n_on_fail node <> [] -> wfe_node_max_iters node <= n ->
  decided [C_counted (n_id node) n] (capped_outcome id w node r (n_on_fail node)).1
    (capped_outcome id w node r (n_on_fail node)).2.
Proof.
  intros Hst Hf Hn. unfold capped_outcome. destruct (wfe_node_on_max node) eqn:Hmax.
  - destruct (autonomous w) eqn:Ha; cbn [fst snd].
    + plan (End (str "abandoned") true
        (str "abandoned: max_iters reached (autonomous, no human to escalate to)") []).
      split; [|done]. apply autonomous_iff in Ha. by apply PL_cap_dead_end.
    + plan (Park (str "pending_human") (n_on_fail node) (str "pause") (str "max_iters") []).
      split; [|done]. apply autonomous_false in Ha. by apply PL_cap_wait.
  - plan (End (str "rejected") false (str "rejected: max_iters reached") []).
    split; [by apply PL_cap_fail | done].
  - plan (Go (forward_edge node) [] (str "forced_pass") (r_content_hash r) []).
    split; [apply PL_cap_pass; try done; apply forward_edge_forward | by split_and!].
Qed.

Lemma move_decided next counted pr :
  planned w node r (step_cost r) counted
    (Go next pr (move_kind r) (r_content_hash r) (if over_budget w r then str "budget_exceeded" else [])) ->
  pr = move_pr node r ->
  decided counted (move_outcome id w node r next).1 (move_outcome id w node r next).2.
Proof.
  intros Hp ->. unfold move_outcome. eexists _, _. split; [apply step_cost_paid|]. split; [exact Hp|].
  destruct (over_budget w r); (split; [done|]); by split_and!.
Qed.

Lemma decide_step_decided (t : traced St) :
  match decide_step id w node r t with
  | None => r_status r = WFE_STEP_LOOPED /\ n_on_fail node = []
  | Some (o, out, t') => exists counted, t'.2 = (t.2 ++ counted)%list /\ decided counted o out
  end.
Proof.
  unfold decide_step. destruct (r_status r) eqn:Hst; cbn [next_stage_for].
  - fold (forward_edge node). case_bool_decide as Hf.
    + rewrite bool_decide_eq_true_2 by done. pose proof (accepted_decided Hst Hf) as Hd.
      destruct (accepted_outcome id node r). exists []. by rewrite app_nil_r.
    + rewrite bool_decide_eq_false_2 by done.
      pose proof (move_decided (forward_edge node) [] (move_pr node r)) as Hd.
      destruct (move_outcome id w node r (forward_edge node)). exists []. rewrite app_nil_r. split; [done|].
      apply Hd; [|done]. unfold move_kind, move_pr.
      rewrite Hst, (bool_decide_eq_false_2 (WFE_STEP_ADVANCED = WFE_STEP_LOOPED)) by done.
      rewrite (bool_decide_eq_true_2 (WFE_STEP_ADVANCED = WFE_STEP_ADVANCED)), andb_true_r by done. constructor; [done | apply forward_edge_forward | done | done | apply parks_iff].
  - pose proof (pending_decided Hst) as Hd. destruct (pending_outcome id w node r). exists [].
    by rewrite app_nil_r.
  - pose proof (failed_decided Hst) as Hd. destruct (failed_outcome id w node r). exists []. by rewrite app_nil_r.
  - case_bool_decide as Hf; [done|]. rewrite bool_decide_eq_true_2 by done.
    unfold stage_attempt_inc, traced_store. destruct (WfeStore.stage_attempt_inc id (n_id node) t.1) as [n s].
    destruct (Z.leb_spec (wfe_node_max_iters node) n) as [Hn|Hn].
    + pose proof (capped_decided n Hst Hf Hn) as Hd. destruct (capped_outcome id w node r _).
      by exists [C_counted (n_id node) n].
    + pose proof (move_decided (n_on_fail node) [C_counted (n_id node) n] []) as Hd.
      destruct (move_outcome id w node r _). exists [C_counted (n_id node) n]. split; [done|].
      apply Hd; [|unfold move_pr; by rewrite Hst, (bool_decide_eq_false_2 (WFE_STEP_LOOPED = _)), andb_false_r].
      unfold move_kind. rewrite Hst, bool_decide_eq_true_2 by done. constructor; try done. apply parks_iff.
Qed.
End Decided.

(** ** One call *)

Section Calls.
Context {St : Type} `{!WorkStore St}.
Context (load_workflow : bytes -> option wfe_def_t).
Context (execs : wfe_block_type_t -> option (wfe_ctx -> St -> wfe_step_result_t * St)).
Context (id : bytes).

(** The call over the store that writes the calls down, and these calls. *)
Definition traced_call (s : St) : (engine_err + wfe_advance_result_t) * traced St :=
  wfe_engine_advance load_workflow (traced_execs execs) id (s, []).

Definition calls (s : St) : list call := (traced_call s).2.2.

Lemma traced_lookup t : wfe_lookup_block_executor (traced_execs execs) t =
  (fun fn ctx u => let '(r, s) := fn ctx u.1 in (r, (s, u.2 ++ [C_ran ctx r])%list))
    <$> wfe_lookup_block_executor execs t.
Proof. unfold wfe_lookup_block_executor, traced_execs. by case_bool_decide. Qed.

Lemma traced_decide w node r (t : traced St) :
  match decide_step id w node r t with
  | None => decide_step id w node r t.1 = None
  | Some (o, out, t') => decide_step id w node r t.1 = Some (o, out, t'.1)
  end.
Proof.
  unfold decide_step. change (stage_attempt_inc id (n_id node) t) with
    (let '(n, s) := WfeStore.stage_attempt_inc id (n_id node) t.1 in (n, (s, (t.2 ++ [C_counted (n_id node) n])%list))).
  destruct (r_status r); cbn [next_stage_for].
  - repeat case_match; try done; naive_solver.
  - by destruct (pending_outcome id w node r).
  - by destruct (failed_outcome id w node r).
  - case_bool_decide; [done|]. rewrite bool_decide_eq_true_2 by done.
    destruct (WfeStore.stage_attempt_inc id (n_id node) t.1) as [n s].
    destruct (_ <=? n); [destruct (capped_outcome id w node r _) | destruct (move_outcome id w node r _)]; done.
Qed.

(** Writing the calls down changes nothing. *)
Lemma traced_call_same s :
  wfe_engine_advance load_workflow execs id s = ((traced_call s).1, (traced_call s).2.1).
Proof.
  unfold traced_call, wfe_engine_advance. change (work_item_get id (s, [])) with
    (let '(w, s0) := WfeStore.work_item_get id s in (w, (s0, @nil call))).
  destruct (WfeStore.work_item_get id s) as [[w|] s0]; [|done].
  destruct (negb _); [done|]. destruct (negb _); [done|].
  destruct (load_workflow _) as [d|]; [|done]. destruct (wfe_def_node d _) as [node|]; [|done].
  rewrite traced_lookup. destruct (wfe_lookup_block_executor execs _) as [fn|]; [|done].
  cbn [fmap option_fmap option_map]. destruct (over_cap w).
  - set (o := oc_pause _ _ _ _ _ _ _). change (record_outcome o (s0, [])) with
      (let '(rc, s1) := WfeStore.record_outcome o s0 in (rc, (s1, [C_recorded o rc]))).
    destruct (WfeStore.record_outcome o s0) as [rc s1]. by destruct (rc =? 0).
  - cbn [fst snd app]. set (ctx := {| ctx_work_item_id := id; ctx_def := d; ctx_node := node; ctx_wi := w |}).
    destruct (fn ctx s0) as [r s1].
    pose proof (traced_decide w node r (s1, [C_ran ctx r])) as Hd. cbn [fst] in Hd.
    destruct (decide_step (S := traced St) id w node r (s1, [C_ran ctx r])) as [[[o out] [s2 l]]|]; cbn [fst] in Hd; rewrite Hd; [|done].
    change (record_outcome o (s2, l)) with
      (let '(rc, s3) := WfeStore.record_outcome o s2 in (rc, (s3, (l ++ [C_recorded o rc])%list))).
    cbn [fst]. destruct (WfeStore.record_outcome o s2) as [rc s3]. by destruct (rc =? 0).
Qed.

Lemma over_cap_iff w : over_cap w = true <-> spent w.
Proof. unfold over_cap, spent. by rewrite andb_true_iff. Qed.

Lemma call_in_table s : engine_call load_workflow execs id s (traced_call s).1 (calls s).
Proof.
  unfold calls, traced_call, wfe_engine_advance. change (work_item_get id (s, [])) with
    (let '(w, s0) := WfeStore.work_item_get id s in (w, (s0, @nil call))).
  destruct (WfeStore.work_item_get id s) as [[w|] s0] eqn:Hget; [|by eapply EC_unknown].
  destruct (bytes_eqb (wi_state w) (str "active")) eqn:Ha; cbn [negb].
  2: { eapply EC_ended; [done | | done | done]. intros Hact. by rewrite Hact, bytes_eqb_refl in Ha. }
  apply bytes_eqb_true in Ha. case_bool_decide as Hu; cbn [negb].
  2: { by eapply EC_parked. }
  destruct (load_workflow (wi_workflow_name w)) as [d|] eqn:Hl; [|by eapply EC_load].
  destruct (wfe_def_node d (wi_current_stage w)) as [node|] eqn:Hn; [|by eapply EC_stage].
  rewrite traced_lookup. destruct (wfe_lookup_block_executor execs (n_block node)) as [fn|] eqn:He;
    [|by eapply EC_executor].
  cbn [fmap option_fmap option_map].
  assert (Hready : ready load_workflow execs id s w s0 d node fn) by done.
  destruct (over_cap w) eqn:Hc.
  - apply over_cap_iff in Hc. set (o := oc_pause _ _ _ _ _ _ _). change (record_outcome o (s0, [])) with
      (let '(rc, s1) := WfeStore.record_outcome o s0 in (rc, (s1, [C_recorded o rc]))).
    destruct (WfeStore.record_outcome o s0) as [rc s1].
    destruct (Z.eqb_spec rc 0) as [E|E]; (eapply EC_spent; [done | done|]); [left | by right].
    split; [done|]. by eexists.
  - assert (Hs : ~ spent w) by (rewrite <- over_cap_iff; congruence). cbn [fst snd app].
    set (ctx := {| ctx_work_item_id := id; ctx_def := d; ctx_node := node; ctx_wi := w |}).
    destruct (fn ctx s0) as [r s1] eqn:Hrun.
    pose proof (decide_step_decided id w node r (s1, [C_ran ctx r])) as Hd.
    destruct (decide_step (S := traced St) id w node r (s1, [C_ran ctx r])) as [[[o out] [s2 l]]|];
      [|destruct Hd as [Hst Hf]; by eapply EC_no_edge].
    destruct Hd as (counted & Hl2 & cost & p & Hpaid & Hp & -> & Hrep). cbn [snd app] in Hl2. subst l.
    change (record_outcome (order id node cost p) (s2, C_ran ctx r :: counted)) with
      (let '(rc, s3) := WfeStore.record_outcome (order id node cost p) s2 in
       (rc, (s3, (C_ran ctx r :: counted ++ [C_recorded (order id node cost p) rc])%list))).
    destruct (WfeStore.record_outcome (order id node cost p) s2) as [rc s3].
    destruct (Z.eqb_spec rc 0) as [E|E]; (eapply EC_step; [done..|]); [left | by right].
    split; [done|]. by exists out.
Qed.

(** C27: every call of the engine is one of the cases of the table, over any
    store: an item that is not active, parked, unknown or cannot be run is left
    alone; a spent one is parked before its executor runs; otherwise the
    executor of its node runs once and the one outcome handed to the store is
    the one planned for its answer, with the cost, texts, stage, reference and
    park reason the table gives, and the call succeeds exactly if the store
    answers 0.  The calls are those of the plain engine. *)
Theorem advance_refines s :
  engine_call load_workflow execs id s (traced_call s).1 (calls s)
  /\ wfe_engine_advance load_workflow execs id s = ((traced_call s).1, (traced_call s).2.1).
Proof. split; [apply call_in_table | apply traced_call_same]. Qed.

(** Where a recorded outcome comes from. *)
Inductive recorded_at (s : St) (o : db1_work_item_outcome_t) (rc : Z) : Prop :=
  | RA_spent w s0 d node fn : ready load_workflow execs id s w s0 d node fn ->
      o = order id node d_zero (Park (str "budget_exceeded") (n_id node) (str "pause") (str "budget_exceeded") []) ->
      recorded_at s o rc
  | RA_step w s0 d node fn r s1 cost counted p : ready load_workflow execs id s w s0 d node fn ->
      fn {| ctx_work_item_id := id; ctx_def := d; ctx_node := node; ctx_wi := w |} s0 = (r, s1) ->
      planned w node r cost counted p -> o = order id node cost p ->
      calls s = (C_ran {| ctx_work_item_id := id; ctx_def := d; ctx_node := node; ctx_wi := w |} r
                 :: counted ++ [C_recorded o rc])%list ->
      recorded_at s o rc.

Lemma planned_counted w node r cost counted p : planned w node r cost counted p ->
  counted = [] \/ exists n, counted = [C_counted (n_id node) n].
Proof. destruct 1; eauto. Qed.

Lemma recorded_from s o rc : C_recorded o rc ∈ calls s -> recorded_at s o rc.
Proof.
  pose proof (call_in_table s) as Hc. remember (calls s) as l eqn:El.
  destruct Hc as [| | | | | |w s0 d node fn rc' res Hr _ _|
                  |w s0 d node fn r s1 cost counted p rc' res Hr _ Hrun _ Hp _];
    try (by intros ?%elem_of_nil).
  - intros [= -> ->]%list_elem_of_singleton. by eapply RA_spent.
  - by intros ?%list_elem_of_singleton.
  - intros Hin. assert (o = order id node cost p /\ rc = rc') as [-> ->].
    { apply elem_of_cons in Hin as [?|[Hin|[= -> ->]%list_elem_of_singleton]%elem_of_app]; [done| |done].
      destruct (planned_counted _ _ _ _ _ _ Hp) as [->|[n ->]];
        [by apply elem_of_nil in Hin | by apply list_elem_of_singleton in Hin]. }
    by eapply RA_step.
Qed.

Lemma answered_rc rc e ok res : answered rc e ok res -> match res with inl _ => rc <> 0 | inr _ => rc = 0 end.
Proof. intros [(-> & out & -> & _)|[? ->]]; done. Qed.

(** C37: a call hands at most one outcome to the store, after at most one
    executor ran; when it returns an error no outcome was recorded with
    success, and when it returns success one was, unless the item is not
    active or is parked, in which case nothing was called. *)
Theorem advance_records_once s :
  (forall i o rc, calls s !! i = Some (C_recorded o rc) -> i = (length (calls s) - 1)%nat)
  /\ (forall i ctx r, calls s !! i = Some (C_ran ctx r) -> i = 0%nat)
  /\ match (traced_call s).1 with
     | inl _ => forall o, ~ C_recorded o 0 ∈ calls s
     | inr _ => (exists o, C_recorded o 0 ∈ calls s)
         \/ (calls s = [] /\ exists w s0, WfeStore.work_item_get id s = (Some w, s0) /\ ~ (active w /\ unparked w))
     end.
Proof.
  pose proof (call_in_table s) as Hc. destruct (traced_call s).1 as [e|out]; remember (calls s) as l; inversion Hc; subst;
    clear Hc; repeat match goal with
    | H : answered _ _ _ _ |- _ => apply answered_rc in H; cbn beta iota in H; try subst
    | H : planned _ _ _ _ _ _ |- _ => apply planned_counted in H as [->|[? ->]]
    end; (split; [intros [|[|[|i]]] ? ? Hi; cbn in Hi |- *; (lia || done)|]);
    (split; [intros [|[|[|i]]] ? ? Hi; cbn in Hi |- *; (lia || done)|]); try set_solver.
  all: intros o Ho; cbn [app] in Ho; rewrite !elem_of_cons, elem_of_nil in Ho;
    repeat destruct Ho as [Ho|Ho]; (discriminate Ho || done || congruence).
Qed.

(** Without edges forward. *)
Lemma forward_none node : forward node [] <-> n_on_pass node = [] /\ n_next node = [].
Proof.
  unfold forward. split; [intros [[H E]|[H E]]; [by symmetry in E | done]|].
  intros [-> ->]. by right.
Qed.

Lemma order_terminal node cost p : o_disposition (order id node cost p) = OUTCOME_TERMINAL ->
  exists state children detail hash, p = End state children detail hash
    /\ o_state (order id node cost p) = take 23 state.
Proof. destruct p; [done | | done]. intros _. by eexists _, _, _, _. Qed.

(** C5: in a workflow that the validator accepts and that is enforced, and in
    which a node with a failure edge also has an edge forward, an item is
    recorded as accepted only by a call that ran the executor of a delivery
    gate, the item's current node, and got the answer that it advanced; the
    record follows that answer with nothing between.  Of the store nothing is
    assumed. *)
Theorem accepted_only_at_delivery reg memory d s w s0 o rc :
  wfe_def_validate reg memory d = None -> d_enforced d = true ->
  (forall n, n ∈ d_nodes d -> n_on_fail n <> [] -> n_next n <> [] \/ n_on_pass n <> []) ->
  WfeStore.work_item_get id s = (Some w, s0) -> load_workflow (wi_workflow_name w) = Some d ->
  C_recorded o rc ∈ calls s -> o_disposition o = OUTCOME_TERMINAL -> o_state o = str "accepted" ->
  exists node fn r s1, wfe_def_node d (wi_current_stage w) = Some node /\ n_block node = WFE_BLK_GATE_DELIVER
    /\ execs WFE_BLK_GATE_DELIVER = Some fn
    /\ fn {| ctx_work_item_id := id; ctx_def := d; ctx_node := node; ctx_wi := w |} s0 = (r, s1)
    /\ r_status r = WFE_STEP_ADVANCED
    /\ calls s = [C_ran {| ctx_work_item_id := id; ctx_def := d; ctx_node := node; ctx_wi := w |} r; C_recorded o rc].
Proof.
  intros [_ Hv]%validate_spec Henf Hfwd Hget Hload Hin Hterm Hacc.
  destruct (recorded_from _ _ _ Hin) as [w' s0' d' node fn Hr ->|w' s0' d' node fn r s1 cost counted p Hr Hrun Hp Ho Hl].
  { done. }
  pose proof (rd_row _ _ _ _ _ _ _ _ _ Hr) as Hg. rewrite Hget in Hg. injection Hg as <- <-.
  pose proof (rd_load _ _ _ _ _ _ _ _ _ Hr) as Hld. rewrite Hload in Hld. injection Hld as <-.
  pose proof (rd_node _ _ _ _ _ _ _ _ _ Hr) as Hnode. pose proof (rd_exec _ _ _ _ _ _ _ _ _ Hr) as He.
  rewrite Ho in Hterm, Hacc. destruct (order_terminal _ _ _ Hterm) as (state & children & detail & hash & -> & Est).
  rewrite Est in Hacc. inversion Hp; subst; try (vm_compute in Hacc; discriminate Hacc).
  match goal with H : forward node [] |- _ => apply forward_none in H as [Hon Hnx] end.
  apply wfe_def_node_spec in Hnode as Hn. destruct Hn as [Hmem _].
  assert (Hblk : n_block node = WFE_BLK_GATE_DELIVER).
  { apply (vw_deliver _ _ Hv Henf node Hmem). unfold is_terminal. rewrite Hon, Hnx.
    destruct (decide (n_on_fail node = [])) as [->|Hof]; [done|]. by destruct (Hfwd node Hmem Hof). }
  rewrite Hblk in He. unfold wfe_lookup_block_executor in He. rewrite bool_decide_eq_false_2 in He by done.
  exists node, fn, r, s1. by split_and!.
Qed.

(** C28: a recorded move of an item of a workflow that was parsed and that the
    validator accepts follows a control edge of the item's current node, and
    leads to a node of the workflow. *)
Theorem moves_within_workflow reg memory d s w s0 o rc :
  wfe_def_validate reg memory d = None -> Forall node_fits (d_nodes d) ->
  WfeStore.work_item_get id s = (Some w, s0) -> load_workflow (wi_workflow_name w) = Some d ->
  C_recorded o rc ∈ calls s -> o_disposition o = OUTCOME_ADVANCE ->
  exists node target, wfe_def_node d (wi_current_stage w) = Some node
    /\ o_next_stage o ∈ [n_next node; n_on_pass node; n_on_fail node]
    /\ wfe_def_node d (o_next_stage o) = Some target /\ n_id target = o_next_stage o.
Proof.
  intros [_ Hv]%validate_spec Hfit Hget Hload Hin Hadv.
  destruct (recorded_from _ _ _ Hin) as [w' s0' d' node fn Hr ->|w' s0' d' node fn r s1 cost counted p Hr Hrun Hp -> Hl].
  { done. }
  pose proof (rd_row _ _ _ _ _ _ _ _ _ Hr) as Hg. rewrite Hget in Hg. injection Hg as <- <-.
  pose proof (rd_load _ _ _ _ _ _ _ _ _ Hr) as Hld. rewrite Hload in Hld. injection Hld as <-.
  pose proof (rd_node _ _ _ _ _ _ _ _ _ Hr) as Hnode. apply wfe_def_node_spec in Hnode as Hn. destruct Hn as [Hmem _].
  rewrite Forall_forall in Hfit. pose proof (Hfit node Hmem) as Hnf.
  pose proof (nv_edges _ _ _ (vw_nodes _ _ Hv node Hmem)) as Hedges.
  pose proof (cs_pass _ (nv_cap _ _ _ (vw_nodes _ _ Hv node Hmem))) as Hpass.
  assert (Hedge : forall e, e ∈ [n_next node; n_on_pass node; n_on_fail node] -> e <> [] ->
    exists target, take 63 e ∈ [n_next node; n_on_pass node; n_on_fail node]
      /\ wfe_def_node d (take 63 e) = Some target /\ n_id target = take 63 e).
  { intros e He Hne. assert (take 63 e = e) as ->.
    { apply take_ge. assert (length e < 64)%nat; [|lia].
      apply elem_of_cons in He as [->|[->|[->|He%elem_of_nil]%elem_of_cons]%elem_of_cons]; (done || apply Hnf). }
    destruct (Hedges e) as [target Ht]; [unfold out_edges; set_solver | done|].
    exists target. split_and!; [done..|]. by apply wfe_def_node_spec in Ht as [_ ?]. }
  assert (Hfw : forall e, forward node e -> e ∈ [n_next node; n_on_pass node; n_on_fail node]).
  { intros e [[_ ->]|[_ ->]]; set_solver. }
  exists node. destruct Hp as [ | | | |e pr park Hst Hf Hne _ _|n park Hst Hne _ _| |n e Hst Hne _ Hmax Hf| | ];
    cbn [o_disposition order] in Hadv; try discriminate Hadv; cbn [o_next_stage order].
  - destruct (Hedge e) as (target & E1 & E2 & E3); eauto.
  - destruct (Hedge (n_on_fail node)) as (target & E1 & E2 & E3); [set_solver | done | eauto].
  - destruct (Hedge e) as (target & E1 & E2 & E3); [eauto | | eauto].
    specialize (Hpass Hmax). destruct Hf as [[? ->]|[? ->]]; naive_solver.
Qed.

(** An autonomous item, which has no operator, is parked to wait for a human
    only when its current node is a human gate or a forge operation failed. *)
Theorem autonomous_waits s w s0 o rc :
  WfeStore.work_item_get id s = (Some w, s0) -> wi_mode w = str "autonomous" ->
  C_recorded o rc ∈ calls s -> o_disposition o = OUTCOME_PAUSE -> o_pause_reason o = str "pending_human" ->
  exists ctx r, C_ran ctx r ∈ calls s /\ ctx_wi ctx = w
    /\ (r_status r = WFE_STEP_PENDING /\ n_block (ctx_node ctx) = WFE_BLK_GATE_HUMAN
        \/ r_status r = WFE_STEP_FAILED /\ r_failure_class r = WFE_FAIL_FORGE).
Proof.
  intros Hget Hmode Hin Hpause Hreason.
  destruct (recorded_from _ _ _ Hin) as [w' s0' d' node fn Hr ->|w' s0' d' node fn r s1 cost counted p Hr Hrun Hp -> Hl].
  { vm_compute in Hreason. discriminate Hreason. }
  pose proof (rd_row _ _ _ _ _ _ _ _ _ Hr) as Hg. rewrite Hget in Hg. injection Hg as <- <-.
  eexists _, r. split; [rewrite Hl; apply list_elem_of_here|]. split; [done|]. cbn [ctx_node].
  destruct Hp as [ |reason Hst Hnd Hwait|reason detail Hst Hf| | | | | | | ];
    cbn [o_disposition order] in Hpause; try discriminate Hpause; cbn [o_pause_reason order] in Hreason; [| |done].
  - left. split; [done|]. destruct (decide (n_block node = WFE_BLK_GATE_HUMAN)) as [|Hb]; [done|]. destruct Hnd.
    split_and!; [|done..]. apply list_elem_of_In in Hwait. unfold wait_names in Hwait. cbn [In] in Hwait.
    repeat (destruct Hwait as [[= <- <-]|Hwait]; [first [done | vm_compute in Hreason; discriminate Hreason]|]). done.
  - right. split; [done|]. destruct Hf; try (vm_compute in Hreason; discriminate Hreason). done.
Qed.
End Calls.

(** ** The client of the repository *)

Lemma decide_node {St : Type} `{!WorkStore St} id w node r (s : St) o out s' :
  decide_step id w node r s = Some (o, out, s') ->
  o_node_id o = take 63 (n_id node) /\ (s' = s \/ s' = (stage_attempt_inc id (n_id node) s).2).
Proof.
  unfold decide_step, pending_outcome, failed_outcome, accepted_outcome, capped_outcome, move_outcome. cbv zeta.
  destruct (stage_attempt_inc id (n_id node) s) as [n s1].
  repeat (case_match; try discriminate); intros [= <- <- <-]; simplify_eq;
    (split; [reflexivity | first [by left | by right]]).
Qed.

Lemma client_inc_rows id stage c : rows (c_db (db1_stage_attempt_inc id stage c).2) = rows (c_db c).
Proof.
  unfold db1_stage_attempt_inc, db1_call, stageAttemptInc. repeat (case_match; simplify_eq; try done).
Qed.

Section Client.
Context (fmt_g : double -> bytes) (atof : bytes -> option double).
#[local] Instance the_client : WorkStore client := client_store fmt_g atof.
Context (load_workflow : bytes -> option wfe_def_t).
Context (execs : wfe_block_type_t -> option (wfe_ctx -> client -> wfe_step_result_t * client)).
Context (id : bytes).

Lemma client_refuses o c : go_atoi (o_node_id o) = None ->
  (record_outcome o c).1 = -1 /\ c_db (record_outcome o c).2 = c_db c.
Proof.
  intros Ho. change (record_outcome o c) with (db1_work_item_record_outcome fmt_g atof o c).
  unfold db1_work_item_record_outcome, db1_call, workItemRecordOutcome, outcome_fields. rewrite Ho.
  by destruct (c_wire c) as [|[] ws].
Qed.

(** C32: with the client and the handler of the repository no call advances,
    parks or ends an active item at a node whose id is not a number: every
    outcome is refused, whatever the executor answers and whatever the wire
    does, the call is an error, and the rows stay as the executor left them. *)
Theorem client_never_records c w c0 d node :
  work_item_get id c = (Some w, c0) -> active w -> unparked w ->
  load_workflow (wi_workflow_name w) = Some d -> wfe_def_node d (wi_current_stage w) = Some node ->
  go_atoi (take 63 (n_id node)) = None ->
  exists e c', wfe_engine_advance load_workflow execs id c = (inl e, c')
    /\ (rows (c_db c') = rows (c_db c0)
        \/ exists fn r c1, execs (n_block node) = Some fn
             /\ fn {| ctx_work_item_id := id; ctx_def := d; ctx_node := node; ctx_wi := w |} c0 = (r, c1)
             /\ rows (c_db c') = rows (c_db c1)).
Proof.
  intros Hget Ha Hu Hl Hn Hid. unfold wfe_engine_advance. rewrite Hget, Ha, bytes_eqb_refl. cbn [negb].
  rewrite bool_decide_eq_true_2 by done. cbn [negb]. rewrite Hl, Hn.
  destruct (wfe_lookup_block_executor execs (n_block node)) as [fn|] eqn:He; [|eexists _, c0; split; [done | by left]].
  assert (Hfn : execs (n_block node) = Some fn) by (unfold wfe_lookup_block_executor in He; by case_bool_decide).
  destruct (over_cap w).
  - set (o := oc_pause _ _ _ _ _ _ _). destruct (client_refuses o c0) as [Hrc Hdb]; [exact Hid|].
    destruct (record_outcome o c0) as [rc c1]. cbn [fst snd] in Hrc, Hdb. subst rc.
    eexists _, c1. split; [done|]. left. by rewrite Hdb.
  - destruct (fn _ c0) as [r c1] eqn:Hrun.
    assert (Hright : forall c', rows (c_db c') = rows (c_db c1) -> rows (c_db c') = rows (c_db c0)
      \/ exists fn0 r0 c2, execs (n_block node) = Some fn0
           /\ fn0 {| ctx_work_item_id := id; ctx_def := d; ctx_node := node; ctx_wi := w |} c0 = (r0, c2)
           /\ rows (c_db c') = rows (c_db c2)) by (intros c' Hc; right; by exists fn, r, c1).
    destruct (decide_step id w node r c1) as [[[o out] c2]|] eqn:Hd;
      [|eexists _, c1; split; [done | by apply Hright]].
    apply decide_node in Hd as [Ho Hc2]. destruct (client_refuses o c2) as [Hrc Hdb]; [by rewrite Ho|].
    destruct (record_outcome o c2) as [rc c3]. cbn [fst snd] in Hrc, Hdb. subst rc.
    eexists _, c3. split; [done|]. apply Hright. rewrite Hdb. destruct Hc2 as [->| ->]; [done|].
    apply client_inc_rows.
Qed.
End Client.

(** ** Runs of the example *)

(** The same parts, wired so that implement has only a failure edge. *)
Definition bypass_def : wfe_def_t :=
  {| d_name := str "bypass"; d_start := str "a"; d_version := []; d_enforced := true;
     d_nodes := [demo_node "a" WFE_BLK_UNDERSTAND [] None "b" "" "";
                 demo_node "b" WFE_BLK_IMPLEMENT ["a"] None "" "" "r";
                 demo_node "r" WFE_BLK_REVIEW ["b"] reviewer_param "d" "" "b";
                 demo_node "d" WFE_BLK_GATE_DELIVER ["r"] None "" "" ""] |}.

Definition demo_row (stage mode : string) : db1_work_item_t :=
  {| wi_repo := str "/repo"; wi_proposal_path := str "p.md"; wi_workflow_name := str "demo";
     wi_workflow_version := []; wi_current_stage := str stage; wi_state := str "active";
     wi_mode := str mode; wi_pause_reason := []; wi_paused_state := []; wi_content_hash := [];
     wi_pr_ref := []; wi_parent_id := []; wi_cum_cost_usd := d_zero; wi_max_cost_usd := d_zero |}.

Definition demo_id : bytes := str "wi_1".

Definition demo_db (stage mode : string) : db :=
  {| rows := {[ demo_id := demo_row stage mode ]}; events := []; attempts := ∅ |}.

Definition demo_load (d : wfe_def_t) (_ : bytes) : option wfe_def_t := Some d.

(** Every block has an executor that answers [r]. *)
Definition demo_execs {St} (r : wfe_step_result_t) (_ : wfe_block_type_t)
    : option (wfe_ctx -> St -> wfe_step_result_t * St) := Some (fun _ s => (r, s)).

Lemma demo_fits : Forall node_fits (d_nodes demo_def).
Proof.
  repeat constructor; simpl; try (unfold WFE_ID_LEN, WFE_NAME_LEN, WFE_MAX_INS; lia); try done.
Qed.

Section Documented.
#[local] Existing Instance documented_store.

(** The calls of one step of the example with every executor answering [r]. *)
Definition demo_calls (d : wfe_def_t) (r : wfe_step_result_t) (stage mode : string) : list call :=
  calls (demo_load d) (demo_execs r) demo_id (demo_db stage mode).

Definition demo_ctx (d : wfe_def_t) (stage mode : string) : wfe_ctx :=
  {| ctx_work_item_id := demo_id; ctx_def := d;
     ctx_node := default (demo_node "" WFE_BLK_UNKNOWN [] None "" "" "") (wfe_def_node d (str stage));
     ctx_wi := demo_row stage mode |}.

Definition demo_accepted : db1_work_item_outcome_t :=
  order demo_id (ctx_node (demo_ctx demo_def "d" "autonomous")) d_zero
    (End (str "accepted") false (str "accepted") []).

(** The validator's rule for enforced workflows does not make delivery
    unavoidable: this workflow is accepted by it, yet a work item at its
    implement node is recorded as accepted as soon as implement advances, with
    neither the review nor the delivery gate crossed, because a node whose
    only edge is [on_fail] counts as having an exit for the validator and as
    the end of the workflow for the engine. *)
Theorem enforced_bypass :
  wfe_def_validate refused_registry true bypass_def = None
  /\ exists out s', wfe_engine_advance (demo_load bypass_def)
         (demo_execs (wfe_step_advanced None None d_zero)) demo_id (demo_db "b" "autonomous")
       = (inr out, s')
     /\ a_state out = str "accepted"
     /\ wi_state <$> rows s' !! demo_id = Some (str "accepted").
Proof.
  split; [vm_compute; reflexivity|]. eexists _, _. split; [reflexivity|].
  split; [vm_compute; reflexivity|]. vm_compute. reflexivity.
Qed.

Lemma accepted_only_at_delivery_witness :
  demo_calls demo_def (wfe_step_advanced None None d_zero) "d" "autonomous"
    = [C_ran (demo_ctx demo_def "d" "autonomous") (wfe_step_advanced None None d_zero); C_recorded demo_accepted 0]
  /\ exists node fn r s1, wfe_def_node demo_def (str "d") = Some node /\ n_block node = WFE_BLK_GATE_DELIVER
    /\ demo_execs (wfe_step_advanced None None d_zero) WFE_BLK_GATE_DELIVER = Some fn
    /\ fn {| ctx_work_item_id := demo_id; ctx_def := demo_def; ctx_node := node;
             ctx_wi := demo_row "d" "autonomous" |} (demo_db "d" "autonomous") = (r, s1)
    /\ r_status r = WFE_STEP_ADVANCED
    /\ demo_calls demo_def (wfe_step_advanced None None d_zero) "d" "autonomous"
       = [C_ran {| ctx_work_item_id := demo_id; ctx_def := demo_def; ctx_node := node;
                   ctx_wi := demo_row "d" "autonomous" |} r; C_recorded demo_accepted 0].
Proof.
  split; [vm_compute; reflexivity|].
  apply (accepted_only_at_delivery (demo_load demo_def) (demo_execs (wfe_step_advanced None None d_zero)) demo_id
    refused_registry true demo_def (demo_db "d" "autonomous") (demo_row "d" "autonomous")
    (demo_db "d" "autonomous") demo_accepted 0).
  - vm_compute. reflexivity.
  - reflexivity.
  - intros n Hn. repeat (apply elem_of_cons in Hn as [->|Hn]; [vm_compute; intros Hf; first [by destruct Hf | by left | by right]|]).
    by apply elem_of_nil in Hn.
  - vm_compute. reflexivity.
  - reflexivity.
  - apply list_elem_of_In. vm_compute. right. left. reflexivity.
  - reflexivity.
  - vm_compute. reflexivity.
Defined.

Definition demo_looped : db1_work_item_outcome_t :=
  order demo_id (ctx_node (demo_ctx demo_def "r" "interactive")) d_zero (Go (str "b") [] (str "loop") [] []).

Lemma moves_within_workflow_witness :
  C_recorded demo_looped 0 ∈ demo_calls demo_def wfe_step_looped "r" "interactive"
  /\ exists node target, wfe_def_node demo_def (str "r") = Some node
    /\ o_next_stage demo_looped ∈ [n_next node; n_on_pass node; n_on_fail node]
    /\ wfe_def_node demo_def (o_next_stage demo_looped) = Some target /\ n_id target = o_next_stage demo_looped.
Proof.
  assert (Hin : C_recorded demo_looped 0 ∈ demo_calls demo_def wfe_step_looped "r" "interactive").
  { apply list_elem_of_In. vm_compute. right. right. left. reflexivity. }
  split; [exact Hin|].
  apply (moves_within_workflow (demo_load demo_def) (demo_execs wfe_step_looped) demo_id
    refused_registry true demo_def (demo_db "r" "interactive") (demo_row "r" "interactive")
    (demo_db "r" "interactive") demo_looped 0); first [exact Hin | exact demo_fits | vm_compute; reflexivity].
Defined.

Definition demo_forge : db1_work_item_outcome_t :=
  order demo_id (ctx_node (demo_ctx demo_def "b" "autonomous")) d_zero
    (Park (str "pending_human") (str "b") (str "failed") (str "forge") []).

Lemma autonomous_waits_witness :
  exists ctx r, C_ran ctx r ∈ demo_calls demo_def (wfe_step_failed_class WFE_FAIL_FORGE false) "b" "autonomous"
    /\ ctx_wi ctx = demo_row "b" "autonomous"
    /\ (r_status r = WFE_STEP_PENDING /\ n_block (ctx_node ctx) = WFE_BLK_GATE_HUMAN
        \/ r_status r = WFE_STEP_FAILED /\ r_failure_class r = WFE_FAIL_FORGE).
Proof.
  apply (autonomous_waits (demo_load demo_def) (demo_execs (wfe_step_failed_class WFE_FAIL_FORGE false)) demo_id
    (demo_db "b" "autonomous") (demo_row "b" "autonomous") (demo_db "b" "autonomous") demo_forge 0);
    try (vm_compute; reflexivity).
  apply list_elem_of_In. vm_compute. right. left. reflexivity.
Defined.
End Documented.

Lemma client_never_records_witness :
  exists e c', wfe_engine_advance (WorkStore0 := the_client (fun _ => str "0") (fun _ => Some d_zero))
      (demo_load demo_def) (demo_execs (wfe_step_advanced None None d_zero)) demo_id
      {| c_db := demo_db "a" "autonomous"; c_wire := [] |} = (inl e, c')
    /\ (rows (c_db c') = rows (demo_db "a" "autonomous")
        \/ exists fn r c1, demo_execs (wfe_step_advanced None None d_zero) WFE_BLK_UNDERSTAND = Some fn
             /\ fn (demo_ctx demo_def "a" "autonomous") {| c_db := demo_db "a" "autonomous"; c_wire := [] |} = (r, c1)
             /\ rows (c_db c') = rows (c_db c1)).
Proof.
  apply (client_never_records (fun _ => str "0") (fun _ => Some d_zero) (demo_load demo_def)
    (demo_execs (wfe_step_advanced None None d_zero)) demo_id {| c_db := demo_db "a" "autonomous"; c_wire := [] |}
    (demo_row "a" "autonomous") {| c_db := demo_db "a" "autonomous"; c_wire := [] |} demo_def
    (ctx_node (demo_ctx demo_def "a" "autonomous"))); vm_compute; reflexivity.
Defined.

End WfeRun.
