(* ===== verification/Sha256Impl.v ===== *)
(** * The workflow module's own SHA-256 ([wfe_canonical.c])

    [sha256_compute] pads the message, builds the schedule of each block and
    runs the rounds on 32-bit words; every addition is taken modulo [2 ^ 32]
    and a shift to the left drops what leaves the word.  It is compared with
    the definition of the standard ([Fips]): rotations as arithmetic on the
    word, the schedule as a recurrence, the padding as the least number of
    zeros.  The function is an instance of [Sha256], the interface the
    theorems about digests are proved against. *)

From Stdlib Require Import ZArith Lia String Ascii.
From stdpp Require Import base numbers option list.
From S2P Require Import Prelude Wire Digest.

Module Sha256Impl.

(** ** The code *)

(** A [uint32_t] shifted to the left keeps its low 32 bits. *)
Definition ror32 (x n : Z) : Z := Z.lor (Z.shiftr x n) (u32 (Z.shiftl x (32 - n))).

(** A 32-bit literal of the tables, by its halves. *)
Definition word_lit (hi lo : Z) : Z := Z.lor (Z.shiftl hi 16) lo.

Definition K : list Z := [
  word_lit 0x428a 0x2f98; word_lit 0x7137 0x4491; word_lit 0xb5c0 0xfbcf; word_lit 0xe9b5 0xdba5;
  word_lit 0x3956 0xc25b; word_lit 0x59f1 0x11f1; word_lit 0x923f 0x82a4; word_lit 0xab1c 0x5ed5;
  word_lit 0xd807 0xaa98; word_lit 0x1283 0x5b01; word_lit 0x2431 0x85be; word_lit 0x550c 0x7dc3;
  word_lit 0x72be 0x5d74; word_lit 0x80de 0xb1fe; word_lit 0x9bdc 0x06a7; word_lit 0xc19b 0xf174;
  word_lit 0xe49b 0x69c1; word_lit 0xefbe 0x4786; word_lit 0x0fc1 0x9dc6; word_lit 0x240c 0xa1cc;
  word_lit 0x2de9 0x2c6f; word_lit 0x4a74 0x84aa; word_lit 0x5cb0 0xa9dc; word_lit 0x76f9 0x88da;
  word_lit 0x983e 0x5152; word_lit 0xa831 0xc66d; word_lit 0xb003 0x27c8; word_lit 0xbf59 0x7fc7;
  word_lit 0xc6e0 0x0bf3; word_lit 0xd5a7 0x9147; word_lit 0x06ca 0x6351; word_lit 0x1429 0x2967;
  word_lit 0x27b7 0x0a85; word_lit 0x2e1b 0x2138; word_lit 0x4d2c 0x6dfc; word_lit 0x5338 0x0d13;
  word_lit 0x650a 0x7354; word_lit 0x766a 0x0abb; word_lit 0x81c2 0xc92e; word_lit 0x9272 0x2c85;
  word_lit 0xa2bf 0xe8a1; word_lit 0xa81a 0x664b; word_lit 0xc24b 0x8b70; word_lit 0xc76c 0x51a3;
  word_lit 0xd192 0xe819; word_lit 0xd699 0x0624; word_lit 0xf40e 0x3585; word_lit 0x106a 0xa070;
  word_lit 0x19a4 0xc116; word_lit 0x1e37 0x6c08; word_lit 0x2748 0x774c; word_lit 0x34b0 0xbcb5;
  word_lit 0x391c 0x0cb3; word_lit 0x4ed8 0xaa4a; word_lit 0x5b9c 0xca4f; word_lit 0x682e 0x6ff3;
  word_lit 0x748f 0x82ee; word_lit 0x78a5 0x636f; word_lit 0x84c8 0x7814; word_lit 0x8cc7 0x0208;
  word_lit 0x90be 0xfffa; word_lit 0xa450 0x6ceb; word_lit 0xbef9 0xa3f7; word_lit 0xc671 0x78f2].

Definition h_init : list Z := [
  word_lit 0x6a09 0xe667; word_lit 0xbb67 0xae85; word_lit 0x3c6e 0xf372; word_lit 0xa54f 0xf53a;
  word_lit 0x510e 0x527f; word_lit 0x9b05 0x688c; word_lit 0x1f83 0xd9ab; word_lit 0x5be0 0xcd19].

(** [while (total % 64 != 56) total++;], at most 63 rounds. *)
Fixpoint pad_total (fuel : nat) (total : Z) : Z :=
  match fuel with
  | O => total
  | S fuel => if total mod 64 =? 56 then total else pad_total fuel (total + 1)
  end.

(** The padded message: the data, [0x80], zeros from [calloc], and the number
    of bits, written from the last byte backwards. *)
Definition pad_message (data : bytes) : bytes :=
  let len := zlen data in
  let total := pad_total 64 (len + 1) in
  let bits := u64 (len * 8) in
  (data ++ [0x80] ++ replicate (Z.to_nat (total - (len + 1))) 0
   ++ rev (map (fun i => u8 (Z.shiftr bits (8 * i))) (seqZ 0 8)))%list.

Definition load_word (msg : bytes) (off : nat) : Z :=
  Z.lor (Z.lor (Z.lor (Z.shiftl (nth off msg 0) 24) (Z.shiftl (nth (off + 1) msg 0) 16))
               (Z.shiftl (nth (off + 2) msg 0) 8)) (nth (off + 3) msg 0).

(** The loop from 16 to 63: [w] holds the words computed so far. *)
Definition schedule_step (w : list Z) (i : nat) : list Z :=
  let w15 := nth (i - 15) w 0 in
  let w2 := nth (i - 2) w 0 in
  let s0 := Z.lxor (Z.lxor (ror32 w15 7) (ror32 w15 18)) (Z.shiftr w15 3) in
  let s1 := Z.lxor (Z.lxor (ror32 w2 17) (ror32 w2 19)) (Z.shiftr w2 10) in
  (w ++ [u32 (nth (i - 16) w 0 + s0 + nth (i - 7) w 0 + s1)])%list.

Definition schedule (msg : bytes) (off : nat) : list Z :=
  fold_left schedule_step (seq 16 48) (map (fun i => load_word msg (off + i * 4)) (seq 0 16)).

Definition regs : Type := Z * Z * Z * Z * Z * Z * Z * Z.

Definition round (w : list Z) (r : regs) (i : nat) : regs :=
  let '(a, b, c, d, e, f, g, hh) := r in
  let S1 := Z.lxor (Z.lxor (ror32 e 6) (ror32 e 11)) (ror32 e 25) in
  let ch := Z.lxor (Z.land e f) (Z.land (u32 (Z.lnot e)) g) in
  let t1 := u32 (hh + S1 + ch + nth i K 0 + nth i w 0) in
  let S0 := Z.lxor (Z.lxor (ror32 a 2) (ror32 a 13)) (ror32 a 22) in
  let maj := Z.lxor (Z.lxor (Z.land a b) (Z.land a c)) (Z.land b c) in
  let t2 := u32 (S0 + maj) in
  (u32 (t1 + t2), a, b, c, u32 (d + t1), e, f, g).

Definition block (msg : bytes) (h : list Z) (off : nat) : list Z :=
  let w := schedule msg off in
  let at_h i := nth i h 0 in
  let '(a, b, c, d, e, f, g, hh) :=
    fold_left (round w) (seq 0 64)
      (at_h 0%nat, at_h 1%nat, at_h 2%nat, at_h 3%nat, at_h 4%nat, at_h 5%nat, at_h 6%nat, at_h 7%nat) in
  [u32 (at_h 0%nat + a); u32 (at_h 1%nat + b); u32 (at_h 2%nat + c); u32 (at_h 3%nat + d);
   u32 (at_h 4%nat + e); u32 (at_h 5%nat + f); u32 (at_h 6%nat + g); u32 (at_h 7%nat + hh)].

Definition store_word (h : Z) : bytes :=
  [u8 (Z.shiftr h 24); u8 (Z.shiftr h 16); u8 (Z.shiftr h 8); u8 h].

(** [calloc_ok] is whether the buffer could be allocated. *)
Definition sha256_compute (calloc_ok : bool) (data : bytes) : bytes :=
  if negb calloc_ok then replicate 32 0
  else
    let msg := pad_message data in
    let h := fold_left (block msg) (map (fun k => (k * 64)%nat) (seq 0 (length msg / 64))) h_init in
    concat (map store_word h).

(** [None] is the return value -1; an absent input hashes the empty string. *)
Definition wfe_sha256_raw (calloc_ok : bool) (data : option bytes) : bytes :=
  sha256_compute calloc_ok (default [] data).

Definition wfe_sha256_hex (calloc_ok : bool) (data : option bytes) : option bytes :=
  md ← sha256_compute calloc_ok <$> data; Some (hex_bytes md).

(** ** The standard's definition *)

Module Fips.
(** The constants: the first 32 bits of the fractional parts of the cube roots
    of the first 64 primes, and of the square roots of the first eight.  The
    roots are of the number scaled by [2 ^ 32]. *)
Definition primes : list Z :=
  filter (fun p => forallb (fun d => negb (p mod d =? 0)) (seqZ 2 (p - 2)) = true) (seqZ 2 310).
Fixpoint cbrt (n : Z) (bits : nat) (r : Z) : Z :=
  match bits with
  | O => r
  | S b =>
      let r' := r + 2 ^ Z.of_nat b in
      cbrt n b (if r' * r' * r' <=? n then r' else r)
  end.
Definition K (t : nat) : Z := cbrt (nth t primes 0 * 2 ^ 96) 40 0 mod 2 ^ 32.
Definition H0 (i : nat) : Z := Z.sqrt (nth i primes 0 * 2 ^ 64) mod 2 ^ 32.

Definition rotr (n x : Z) : Z := x / 2 ^ n + (x mod 2 ^ n) * 2 ^ (32 - n).
Definition shr (n x : Z) : Z := x / 2 ^ n.
Definition sigma0 (x : Z) : Z := Z.lxor (Z.lxor (rotr 7 x) (rotr 18 x)) (shr 3 x).
Definition sigma1 (x : Z) : Z := Z.lxor (Z.lxor (rotr 17 x) (rotr 19 x)) (shr 10 x).
Definition Sigma0 (x : Z) : Z := Z.lxor (Z.lxor (rotr 2 x) (rotr 13 x)) (rotr 22 x).
Definition Sigma1 (x : Z) : Z := Z.lxor (Z.lxor (rotr 6 x) (rotr 11 x)) (rotr 25 x).
Definition Ch (x y z : Z) : Z := Z.lxor (Z.land x y) (Z.land (2 ^ 32 - 1 - x) z).
Definition Maj (x y z : Z) : Z := Z.lxor (Z.lxor (Z.land x y) (Z.land x z)) (Z.land y z).

(** The schedule as a recurrence over the words of the block: [below n] is
    the schedule up to, and not including, [n]. *)
Fixpoint below (M : nat -> Z) (n : nat) : nat -> Z :=
  match n with
  | O => fun _ => 0
  | S n => fun t =>
      if decide (t = n) then
        if decide (n < 16)%nat then M n
        else (sigma1 (below M n (n - 2)%nat) + below M n (n - 7)%nat
              + sigma0 (below M n (n - 15)%nat) + below M n (n - 16)%nat) mod 2 ^ 32
      else below M n t
  end.
Definition W (M : nat -> Z) (t : nat) : Z := below M (S t) t.

(** The state after [t] rounds. *)
Fixpoint rounds (M : nat -> Z) (s0 : regs) (t : nat) : regs :=
  match t with
  | O => s0
  | S t =>
      let '(a, b, c, d, e, f, g, h) := rounds M s0 t in
      let T1 := h + Sigma1 e + Ch e f g + K t + W M t in
      let T2 := Sigma0 a + Maj a b c in
      ((T1 + T2) mod 2 ^ 32, a, b, c, (d + T1) mod 2 ^ 32, e, f, g)
  end.

Definition hash_block (H : regs) (M : nat -> Z) : regs :=
  let '(h0, h1, h2, h3, h4, h5, h6, h7) := H in
  let '(a, b, c, d, e, f, g, h) := rounds M H 64 in
  ((h0 + a) mod 2 ^ 32, (h1 + b) mod 2 ^ 32, (h2 + c) mod 2 ^ 32, (h3 + d) mod 2 ^ 32,
   (h4 + e) mod 2 ^ 32, (h5 + f) mod 2 ^ 32, (h6 + g) mod 2 ^ 32, (h7 + h) mod 2 ^ 32).

(** A one bit, the least number of zero bits that leaves room for 64 bits in
    the last block, and the length in bits; on whole bytes. *)
Definition pad (data : bytes) : bytes :=
  (data ++ [0x80] ++ replicate (Z.to_nat ((55 - zlen data) mod 64)) 0 ++ be_put 8 (8 * zlen data))%list.

(** The words of the block that starts at byte [off]. *)
Definition words (msg : bytes) (off t : nat) : Z := be_get (take 4 (drop (off + 4 * t) msg)).

Fixpoint hash_blocks (msg : bytes) (n : nat) : regs :=
  match n with
  | O => (H0 0, H0 1, H0 2, H0 3, H0 4, H0 5, H0 6, H0 7)
  | S n => hash_block (hash_blocks msg n) (words msg (64 * n))
  end.

Definition sha256 (data : bytes) : bytes :=
  let '(h0, h1, h2, h3, h4, h5, h6, h7) := hash_blocks (pad data) (length (pad data) / 64) in
  (be_put 4 h0 ++ be_put 4 h1 ++ be_put 4 h2 ++ be_put 4 h3
   ++ be_put 4 h4 ++ be_put 4 h5 ++ be_put 4 h6 ++ be_put 4 h7)%list.
End Fips.

(** ** Words *)

Definition is_word (x : Z) : Prop := 0 <= x < 2 ^ 32.

Lemma u32_word x : is_word (u32 x).
Proof. apply Z.mod_pos_bound. lia. Qed.

Lemma ror32_rotr x n : is_word x -> 0 < n < 32 -> ror32 x n = Fips.rotr n x.
Proof.
  intros Hx Hn. unfold ror32, Fips.rotr, u32. unfold is_word in Hx.
  rewrite Z.shiftr_div_pow2, Z.shiftl_mul_pow2 by lia.
  replace (2 ^ 32) with (2 ^ n * 2 ^ (32 - n)) by (rewrite <- Z.pow_add_r by lia; f_equal; lia).
  rewrite Z.mul_mod_distr_r by (apply Z.pow_nonzero; lia).
  rewrite Z.lor_comm, <- (Z.shiftl_mul_pow2 _ (32 - n)) by lia.
  rewrite lor_shiftl_add; [rewrite Z.shiftl_mul_pow2 by lia; apply Z.add_comm | lia |].
  split; [apply Z.div_pos; lia|]. apply Z.div_lt_upper_bound; [lia|].
  rewrite <- Z.pow_add_r by lia. replace (n + (32 - n)) with 32 by lia. lia.
Qed.

Lemma rotr_word x n : is_word x -> 0 < n < 32 -> is_word (Fips.rotr n x).
Proof.
  unfold is_word, Fips.rotr. intros Hx Hn.
  assert (2 ^ 32 = 2 ^ n * 2 ^ (32 - n)) as E by (rewrite <- Z.pow_add_r by lia; f_equal; lia).
  pose proof (Z.pow_pos_nonneg 2 n ltac:(lia) ltac:(lia)).
  pose proof (Z.pow_pos_nonneg 2 (32 - n) ltac:(lia) ltac:(lia)).
  pose proof (Z.mod_pos_bound x (2 ^ n) ltac:(lia)).
  assert (0 <= x / 2 ^ n < 2 ^ (32 - n)).
  { split; [apply Z.div_pos; lia | apply Z.div_lt_upper_bound; lia]. }
  rewrite E. nia.
Qed.

Lemma u32_lnot e : is_word e -> u32 (Z.lnot e) = 2 ^ 32 - 1 - e.
Proof.
  unfold is_word, u32. intros He. unfold Z.lnot.
  symmetry. apply Z.mod_unique_pos with (-1); lia.
Qed.

(** ** The schedule *)

Lemma load_word_get msg off :
  is_bytes msg -> (off + 4 <= length msg)%nat -> load_word msg off = be_get (take 4 (drop off msg)).
Proof.
  intros Hm Hl. unfold load_word.
  destruct (drop off msg) as [|b0 [|b1 [|b2 [|b3 l]]]] eqn:Hd;
    try (apply (f_equal length) in Hd; rewrite length_drop in Hd; simpl in Hd; lia).
  assert (forall k, nth (off + k) msg 0 = nth k (b0 :: b1 :: b2 :: b3 :: l) 0) as Hn.
  { intros k. rewrite <- Hd. rewrite <- (take_drop off msg) at 1.
    rewrite app_nth2; rewrite length_take; [f_equal; lia | lia]. }
  rewrite <- (Nat.add_0_r off) at 1. rewrite !Hn. cbn [nth take].
  assert (Forall is_byte [b0; b1; b2; b3]) as Hb.
  { apply (Forall_drop _ off) in Hm. rewrite Hd in Hm. by apply (Forall_take _ 4) in Hm. }
  apply Forall_cons in Hb as [H0 Hb]. apply Forall_cons in Hb as [H1 Hb].
  apply Forall_cons in Hb as [H2 Hb]. apply Forall_cons in Hb as [H3 _]. unfold is_byte in *.
  unfold be_get. cbn [fold_left].
  replace (Z.shiftl b0 24) with (Z.shiftl (Z.shiftl b0 8) 16) by (by rewrite Z.shiftl_shiftl).
  rewrite <- Z.shiftl_lor, (lor_shiftl_add b0 b1 8) by lia.
  replace (Z.shiftl (b0 * 2 ^ 8 + b1) 16) with (Z.shiftl (Z.shiftl (b0 * 2 ^ 8 + b1) 8) 8)
    by (by rewrite Z.shiftl_shiftl).
  rewrite <- Z.shiftl_lor, (lor_shiftl_add _ b2 8) by lia. rewrite (lor_shiftl_add _ b3 8) by lia.
  rewrite take_0. cbn [fold_left]. change (2 ^ 8) with 256. ring.
Qed.

Lemma W_eq M t :
  Fips.W M t = if decide (t < 16)%nat then M t
    else (Fips.sigma1 (Fips.W M (t - 2)) + Fips.W M (t - 7)
          + Fips.sigma0 (Fips.W M (t - 15)) + Fips.W M (t - 16)) mod 2 ^ 32.
Proof.
  assert (forall n k, (k < n)%nat -> Fips.below M n k = Fips.W M k) as Hb.
  { induction n as [|n IH]; intros k Hk; [lia|]. destruct (decide (k = n)) as [->|Hne]; [done|].
    cbn [Fips.below]. rewrite decide_False by done. apply IH. lia. }
  unfold Fips.W at 1. cbn [Fips.below]. rewrite decide_True by done.
  destruct (decide (t < 16)%nat); [done|]. by rewrite !Hb by lia.
Qed.

Lemma W_word M t : (forall k, (k < 16)%nat -> is_word (M k)) -> is_word (Fips.W M t).
Proof.
  intros HM. rewrite W_eq. destruct (decide (t < 16)%nat); [by apply HM | apply Z.mod_pos_bound; lia].
Qed.

(** The first [16 + k] words are those of the recurrence. *)
Lemma schedule_prefix M w0 k :
  (forall t, (t < 16)%nat -> is_word (M t)) ->
  length w0 = 16%nat -> (forall t, (t < 16)%nat -> nth t w0 0 = M t) ->
  let w := fold_left schedule_step (seq 16 k) w0 in
  length w = (16 + k)%nat /\ forall t, (t < 16 + k)%nat -> nth t w 0 = Fips.W M t.
Proof.
  intros HM Hl Hw. induction k as [|k [IHl IHw]].
  - split; [done|]. intros t Ht. cbn [seq fold_left]. rewrite W_eq, decide_True by lia. apply Hw. lia.
  - rewrite seq_S, fold_left_app. cbn [fold_left]. set (w := fold_left _ _ _) in *.
    unfold schedule_step at 1. cbv zeta. split.
    + rewrite length_app. cbn [length]. lia.
    + unfold schedule_step. cbv zeta. intros t Ht. destruct (decide (t = 16 + k)%nat) as [->|Hne].
      * rewrite app_nth2, IHl, Nat.sub_diag by lia. cbn [nth].
        rewrite !IHw by lia. rewrite (W_eq M (16 + k)), decide_False by lia.
        unfold Fips.sigma0, Fips.sigma1, Fips.shr.
        rewrite !ror32_rotr by first [lia | by apply W_word]. rewrite !Z.shiftr_div_pow2 by lia.
        unfold u32. f_equal. lia.
      * rewrite app_nth1 by lia. apply IHw. lia.
Qed.

Lemma words_word msg off t : is_bytes msg -> is_word (Fips.words msg off t).
Proof.
  intros Hm. unfold Fips.words.
  pose proof (be_get_range (take 4 (drop (off + 4 * t) msg)) ltac:(auto with aimee)) as Hr.
  assert (256 ^ zlen (take 4 (drop (off + 4 * t) msg)) <= 256 ^ 4); [|unfold is_word; lia].
  apply Z.pow_le_mono_r; [lia|]. unfold zlen. rewrite length_take. lia.
Qed.

Lemma schedule_W msg off t :
  is_bytes msg -> (off + 64 <= length msg)%nat -> (t < 64)%nat ->
  nth t (schedule msg off) 0 = Fips.W (Fips.words msg off) t.
Proof.
  intros Hm Hl Ht. unfold schedule.
  edestruct (schedule_prefix (Fips.words msg off)) as [_ H]; [| | |apply H; cbn; lia].
  - intros; by apply words_word.
  - by rewrite length_map, length_seq.
  - intros k Hk. rewrite (nth_indep _ 0 (load_word msg (off + 0 * 4)))
      by (rewrite length_map, length_seq; lia).
    rewrite (map_nth (fun i => load_word msg (off + i * 4)%nat)), seq_nth by lia.
    rewrite load_word_get by (done || lia). unfold Fips.words. do 3 f_equal. lia.
Qed.

(** ** The rounds *)

Definition regs_ok (r : regs) : Prop :=
  let '(a, b, c, d, e, f, g, h) := r in
  is_word a /\ is_word b /\ is_word c /\ is_word d /\ is_word e /\ is_word f /\ is_word g /\ is_word h.

Lemma rounds_ok M r t : regs_ok r -> regs_ok (Fips.rounds M r t).
Proof.
  intros Hr. induction t as [|t IH]; [done|]. cbn [Fips.rounds].
  destruct (Fips.rounds M r t) as [[[[[[[a b] c] d] e] f] g] h].
  destruct IH as (? & ? & ? & ? & ? & ? & ? & ?).
  unfold regs_ok. split_and!; try done; apply Z.mod_pos_bound; lia.
Qed.

(** The code's tables hold the standard's constants. *)
Lemma tables_fips : K = map Fips.K (seq 0 64) /\ h_init = map Fips.H0 (seq 0 8).
Proof. split; vm_compute; reflexivity. Qed.

Lemma K_fips t : (t < 64)%nat -> nth t K 0 = Fips.K t.
Proof.
  intros Ht. rewrite (proj1 tables_fips), (nth_indep _ 0 (Fips.K 0)) by (by rewrite length_map, length_seq).
  by rewrite map_nth, seq_nth.
Qed.

(** One round of the code is one round of the standard. *)
Lemma round_spec w a b c d e f g h t :
  is_word a -> is_word e ->
  let T1 := h + Fips.Sigma1 e + Fips.Ch e f g + nth t K 0 + nth t w 0 in
  let T2 := Fips.Sigma0 a + Fips.Maj a b c in
  round w (a, b, c, d, e, f, g, h) t
  = ((T1 + T2) mod 2 ^ 32, a, b, c, (d + T1) mod 2 ^ 32, e, f, g).
Proof.
  intros Ha He. unfold round, Fips.Sigma1, Fips.Sigma0, Fips.Ch, Fips.Maj.
  rewrite !ror32_rotr by (done || lia). rewrite u32_lnot by done. cbv zeta. unfold u32.
  rewrite <- Z.add_mod, Z.add_mod_idemp_r by lia. done.
Qed.

Lemma fold_rounds w M r n :
  regs_ok r -> (n <= 64)%nat -> (forall t, (t < 64)%nat -> nth t w 0 = Fips.W M t) ->
  fold_left (round w) (seq 0 n) r = Fips.rounds M r n.
Proof.
  intros Hr Hn Hw. induction n as [|n IH]; [done|].
  rewrite seq_S, fold_left_app, IH by lia. cbn [fold_left Fips.rounds].
  pose proof (rounds_ok M r n Hr) as Hok.
  destruct (Fips.rounds M r n) as [[[[[[[a b] c] d] e] f] g] h].
  destruct Hok as (? & _ & _ & _ & ? & _). cbn [Nat.add].
  rewrite round_spec by done. cbv zeta. by rewrite Hw, K_fips by lia.
Qed.

(** ** The blocks *)

Definition regs_list (r : regs) : list Z :=
  let '(a, b, c, d, e, f, g, h) := r in [a; b; c; d; e; f; g; h].

Lemma block_spec msg r off :
  is_bytes msg -> regs_ok r -> (off + 64 <= length msg)%nat ->
  block msg (regs_list r) off = regs_list (Fips.hash_block r (Fips.words msg off)).
Proof.
  intros Hm Hr Hl. unfold block, Fips.hash_block.
  destruct r as [[[[[[[a b] c] d] e] f] g] h]. cbn [regs_list nth].
  rewrite (fold_rounds _ (Fips.words msg off)); [|done..|intros; by apply schedule_W].
  by destruct (Fips.rounds _ _ _) as [[[[[[[a' b'] c'] d'] e'] f'] g'] h'].
Qed.

Lemma hash_block_ok H M : regs_ok (Fips.hash_block H M).
Proof.
  unfold Fips.hash_block. destruct H as [[[[[[[a b] c] d] e] f] g] h].
  destruct (Fips.rounds _ _ _) as [[[[[[[a' b'] c'] d'] e'] f'] g'] h'].
  unfold regs_ok, is_word. repeat split; apply Z.mod_pos_bound; lia.
Qed.

Lemma hash_blocks_ok msg n : regs_ok (Fips.hash_blocks msg n).
Proof.
  destruct n; [repeat split; apply Z.mod_pos_bound; lia | apply hash_block_ok].
Qed.

Lemma fold_blocks msg n :
  is_bytes msg -> (64 * n <= length msg)%nat ->
  fold_left (block msg) (map (fun k => (k * 64)%nat) (seq 0 n)) h_init
  = regs_list (Fips.hash_blocks msg n).
Proof.
  intros Hm. induction n as [|n IH]; intros Hl; [exact (proj2 tables_fips)|].
  rewrite seq_S, map_app, fold_left_app, IH by lia. cbn [map fold_left Nat.add Fips.hash_blocks].
  rewrite block_spec; [|done | apply hash_blocks_ok | lia]. by rewrite (Nat.mul_comm n 64).
Qed.

(** ** The padding *)

Lemma pad_total_spec fuel t :
  (Z.to_nat ((56 - t) mod 64) <= fuel)%nat -> pad_total fuel t = t + (56 - t) mod 64.
Proof.
  revert t. induction fuel as [|fuel IH]; intros t Hf; cbn [pad_total].
  - pose proof (Z.mod_pos_bound (56 - t) 64 ltac:(lia)). lia.
  - destruct (Z.eqb_spec (t mod 64) 56) as [E|E].
    + enough ((56 - t) mod 64 = 0) by lia. rewrite <- E.
      rewrite <- (Z.mod_mod t 64) at 1 by lia. rewrite E.
      rewrite Zminus_mod, E. done.
    + assert ((56 - t) mod 64 = 1 + (56 - (t + 1)) mod 64) as Hs.
      { pose proof (Z.mod_pos_bound t 64 ltac:(lia)). Z.div_mod_to_equations. lia. }
      rewrite IH by lia. lia.
Qed.

Lemma be_put_mod n v m :
  0 <= v -> (n <= m)%nat -> be_put n (v mod 256 ^ Z.of_nat m) = be_put n v.
Proof.
  intros Hv Hnm. apply be_get_inj; [apply be_put_is_bytes..| by rewrite !be_put_length |].
  pose proof (Z.pow_pos_nonneg 256 (Z.of_nat m) ltac:(lia) ltac:(lia)).
  rewrite !be_get_put_mod; [|done | apply Z.mod_pos_bound; lia].
  replace (256 ^ Z.of_nat m) with (256 ^ Z.of_nat n * 256 ^ (Z.of_nat m - Z.of_nat n))
    by (rewrite <- Z.pow_add_r by lia; f_equal; lia).
  rewrite Z.rem_mul_r by (try apply Z.pow_nonzero; lia || apply Z.pow_pos_nonneg; lia).
  rewrite Z.mul_comm, Z.mod_add, Z.mod_mod by (apply Z.pow_nonzero; lia). done.
Qed.

Lemma pad_message_spec data : pad_message data = Fips.pad data.
Proof.
  unfold pad_message, Fips.pad. cbv zeta. pose proof (zlen_nonneg data) as Hn.
  rewrite pad_total_spec.
  2: { pose proof (Z.mod_pos_bound (56 - (zlen data + 1)) 64 ltac:(lia)). lia. }
  replace (56 - (zlen data + 1)) with (55 - zlen data) by lia.
  do 2 f_equal. f_equal; [f_equal; lia|].
  rewrite <- (be_put_mod 8 (8 * zlen data) 8) by lia.
  rewrite (Z.mul_comm 8). unfold u64. change (256 ^ Z.of_nat 8) with (2 ^ 64). reflexivity.
Qed.

Lemma pad_length data : (length (Fips.pad data) mod 64 = 0)%nat.
Proof.
  apply Nat2Z.inj. rewrite Nat2Z.inj_mod. unfold Fips.pad.
  rewrite !length_app, length_replicate, be_put_length. cbn [length].
  pose proof (Z.mod_pos_bound (55 - zlen data) 64 ltac:(lia)).
  rewrite !Nat2Z.inj_add, Z2Nat.id by lia. fold (zlen data).
  Z.div_mod_to_equations. lia.
Qed.

Lemma pad_bytes data : is_bytes data -> is_bytes (Fips.pad data).
Proof.
  intros Hd. unfold Fips.pad. rewrite !is_bytes_app. split_and!; [done | by repeat constructor | |].
  - apply Forall_replicate. unfold is_byte. lia.
  - apply be_put_is_bytes.
Qed.

Lemma store_word_put h : store_word h = be_put 4 h.
Proof. unfold store_word. cbn [be_put]. by rewrite Z.shiftr_0_r. Qed.

(** C35: When its buffer is allocated, the implementation computes the digest
    of the standard, for every message. *)
Theorem sha256_compute_fips data :
  is_bytes data -> sha256_compute true data = Fips.sha256 data.
Proof.
  intros Hd. unfold sha256_compute, Fips.sha256. cbn [negb]. rewrite pad_message_spec.
  rewrite fold_blocks; [|by apply pad_bytes | apply Nat.Div0.mul_div_le].
  destruct (Fips.hash_blocks _ _) as [[[[[[[a b] c] d] e] f] g] h].
  cbn [regs_list map concat]. rewrite !store_word_put. by rewrite app_nil_r.
Qed.

(** The digest of the example of the standard. *)
Lemma sha256_compute_fips_witness :
  sha256_compute true (str "abc") = Fips.sha256 (str "abc")
  /\ hex_bytes (sha256_compute true (str "abc"))
     = str "ba7816bf8f01cfea414140de5dae2223b00361a396177a9cb410ff61f20015ad".
Proof.
  split; [|vm_compute; reflexivity].
  apply (sha256_compute_fips (str "abc")). apply is_bytes_str.
Defined.

(** ** The interface *)

Lemma store_words_length l : length (concat (map store_word l)) = (4 * length l)%nat.
Proof. induction l as [|x l IH]; [done|]. cbn [map concat]. rewrite length_app, IH. cbn. lia. Qed.

Lemma fold_left_inv {A B} (P : A -> Prop) (f : A -> B -> A) l a :
  P a -> (forall a x, P a -> P (f a x)) -> P (fold_left f l a).
Proof. intros Ha Hf. revert a Ha. induction l; simpl; auto. Qed.

Lemma block_length msg h off : length (block msg h off) = 8%nat.
Proof.
  unfold block. by destruct (fold_left (round _) _ _) as [[[[[[[a b] c] d] e] f] g] h'].
Qed.

Lemma blocks_length msg l h :
  length h = 8%nat -> length (fold_left (block msg) l h) = 8%nat.
Proof.
  intros Hh. apply (fold_left_inv (fun h => length h = 8%nat)); [done|]. intros; apply block_length.
Qed.

Lemma sha256_compute_length m : length (sha256_compute true m) = 32%nat.
Proof. unfold sha256_compute. cbn [negb]. by rewrite store_words_length, blocks_length. Qed.

Lemma sha256_compute_bytes m : is_bytes (sha256_compute true m).
Proof.
  unfold sha256_compute. cbn [negb]. generalize (fold_left (block (pad_message m))
    (map (fun k => (k * 64)%nat) (seq 0 (length (pad_message m) / 64))) h_init) as l.
  induction l as [|x l IH]; [constructor|]. cbn [map concat]. apply is_bytes_app. split; [|done].
  repeat constructor; apply u8_range.
Qed.

Definition wfe_sha256 : Sha256 :=
  {| sha256 := sha256_compute true; sha256_length := sha256_compute_length;
     sha256_bytes := sha256_compute_bytes |}.

End Sha256Impl.
