(* ===== verification/WfeApproval.v ===== *)
(** * Signed approvals ([wfe_approval.c], [wfe_store_lists.c])

    A human approval of a gate is an event of the work item's log whose detail
    carries an HMAC over the item, the gate, the artifact's hash, the actor and
    a time stamp, under a key only the operator can read.  The reading of the
    key file is modelled over what the system calls return; parsing of JSON is
    a parameter.  Also here: the bounded reading of the event log, which every
    user of the log goes through.

    Shown: what an approval that is found must be; that a signature fixes the
    approved tuple, or two named messages collide; that a recorded approval is
    found again while the log is within its reading bound, and is not beyond
    it. *)

From Stdlib Require Import ZArith Lia String Ascii SpecFloat.
From stdpp Require Import base numbers option list gmap fin_maps.
From S2P Require Import Prelude Wire Digest Json Sha256Impl WfeStore.

Open Scope string_scope.
Open Scope Z_scope.

Module WfeApproval.
Import Sha256Impl WfeStore.

(** ** The event log *)

Definition DB1_LIFECYCLE_EVENT_MAX : nat := 512.

Definition db1_lifecycle_event_add (e : db1_lifecycle_event_t) (s : db) : Z * db :=
  if bool_decide (ev_work_item_id e = []) then (-1, s) else (0, lifecycleEventAdd e s).

(** A reply value that does not fit its buffer fails the whole call. *)
Definition event_fits (e : db1_lifecycle_event_t) : bool :=
  (length (ev_stage e) <? 64)%nat && (length (ev_kind e) <? 24)%nat && (length (ev_actor e) <? 64)%nat
  && (length (ev_detail e) <? 512)%nat && (length (ev_content_hash e) <? 72)%nat.

(** [None] is the return value -1; the statement reads the oldest events
    first, up to the bound. *)
Definition db1_lifecycle_event_list_bounded (wi : bytes) (max : nat) (s : db)
    : option (list db1_lifecycle_event_t) :=
  if bool_decide (wi = []) || (max =? 0)%nat then None
  else
    let max := Nat.min max 512 in
    let evs := take max (filter (fun e => ev_work_item_id e = wi) (events s)) in
    if forallb event_fits evs then Some evs else None.

Definition db1_lifecycle_event_list (wi : bytes) (s : db) : option (list db1_lifecycle_event_t) :=
  db1_lifecycle_event_list_bounded wi DB1_LIFECYCLE_EVENT_MAX s.

(** ** The key *)

Definition WFE_KEY_LEN : nat := 32.

(** What [fstat] and [read] say of the opened file. *)
Record key_file := {
  kf_fstat_ok : bool;
  kf_regular : bool;
  kf_mode : Z;
  kf_nlink : Z;
  kf_content : bytes;
}.

(** [open] with [O_NOFOLLOW] fails on a missing file and on a link; [63] is
    the octal 0077. *)
Definition load_key (fd : option key_file) : option bytes :=
  match fd with
  | None => None
  | Some f =>
      if negb (kf_fstat_ok f) || negb (kf_regular f) || negb (Z.land (kf_mode f) 63 =? 0)
         || negb (kf_nlink f =? 1) then None
      else
        let key := take WFE_KEY_LEN (kf_content f) in
        if (length key =? WFE_KEY_LEN)%nat then Some key else None
  end.

Section Sign.
Context (calloc_ok : bool).

(** A message is cut after 2048 bytes. *)
Definition hmac_sha256 (key msg : bytes) : bytes :=
  let k0 := if (64 <? length key)%nat then wfe_sha256_raw calloc_ok (Some key) else key in
  let k := (k0 ++ replicate (64 - length k0) 0)%list in
  let ipad := map (fun b => Z.lxor b 0x36) k in
  let opad := map (fun b => Z.lxor b 0x5c) k in
  let inner := wfe_sha256_raw calloc_ok (Some (ipad ++ take 2048 msg)%list) in
  wfe_sha256_raw calloc_ok (Some (opad ++ inner)%list).

(** ["v1|%s|%s|%s|%s|%s"] *)
Definition approval_text (wi gate hash actor ts : bytes) : bytes :=
  (str "v1|" ++ wi ++ str "|" ++ gate ++ str "|" ++ hash ++ str "|" ++ actor ++ str "|" ++ ts)%list.

Definition approval_msg (cap : nat) (wi gate hash actor ts : bytes) : bytes :=
  snprintf_s cap (approval_text wi gate hash actor ts).

Definition wfe_approval_sign (fd : option key_file) (wi gate hash actor ts : bytes) : option bytes :=
  key ← load_key fd; Some (hex_bytes (hmac_sha256 key (approval_msg 2048 wi gate hash actor ts))).

(** The comparison goes over all 64 characters. *)
Definition sig_diff (expect sig : bytes) : Z :=
  fold_left (fun d '(a, b) => Z.lor d (Z.lxor a b)) (zip expect sig) 0.

Definition wfe_approval_verify (fd : option key_file) (wi gate hash actor ts : bytes)
    (sig_hex : option bytes) : bool :=
  match sig_hex, wfe_approval_sign fd wi gate hash actor ts with
  | Some sig, Some expect => (length sig =? 64)%nat && (sig_diff expect sig =? 0)
  | _, _ => false
  end.

(** [{"ts":"..","sig":".."}], 34 being the quotation mark. *)
Definition approval_detail (ts sig : bytes) : bytes :=
  ([123; 34] ++ str "ts" ++ [34; 58; 34] ++ ts ++ [34; 44; 34] ++ str "sig" ++ [34; 58; 34] ++ sig
   ++ [34; 125])%list.

Definition wfe_approval_record (fd : option key_file) (wi gate : bytes) (hash actor : option bytes)
    (s : db) : Z * db :=
  let ts := snprintf_s 40 (default [] hash) in
  let act := default (str "user") actor in
  match wfe_approval_sign fd wi gate (default [] hash) act ts with
  | None => (-1, s)
  | Some sig =>
      db1_lifecycle_event_add
        {| ev_work_item_id := wi; ev_stage := gate; ev_kind := str "approve"; ev_actor := act;
           ev_detail := snprintf_s 256 (approval_detail ts sig);
           ev_content_hash := default [] hash; ev_cost_usd := d_zero |} s
  end.

Section Present.
Context (cJSON_Parse : bytes -> option json).

(** The body of the loop: this event is a valid approval. *)
Definition approval_valid (fd : option key_file) (wi gate hash : bytes) (e : db1_lifecycle_event_t)
    : bool :=
  if negb (bytes_eqb (ev_kind e) (str "approve")) then false
  else if negb (bytes_eqb (ev_stage e) gate) then false
  else if negb (bytes_eqb (ev_content_hash e) hash) then false
  else
    match cJSON_Parse (ev_detail e) with
    | None => false
    | Some d =>
        match cJSON_GetObjectItemCaseSensitive (Some d) (str "ts"),
              cJSON_GetObjectItemCaseSensitive (Some d) (str "sig") with
        | Some (JString ts), Some (JString sig) =>
            wfe_approval_verify fd wi gate (ev_content_hash e) (ev_actor e) ts (Some sig)
        | _, _ => false
        end
    end.

Definition wfe_approval_present (fd : option key_file) (wi gate : bytes) (hash : option bytes) (s : db)
    : bool :=
  existsb (approval_valid fd wi gate (default [] hash))
    (default [] (db1_lifecycle_event_list wi s)).
End Present.
End Sign.

(** ** Reading the log *)

Lemma event_list_spec wi s evs :
  db1_lifecycle_event_list wi s = Some evs ->
  evs = take 512 (filter (fun e => ev_work_item_id e = wi) (events s)) /\ Forall (fun e => event_fits e) evs.
Proof.
  unfold db1_lifecycle_event_list, db1_lifecycle_event_list_bounded.
  destruct (bool_decide (wi = []) || _); [done|]. cbv zeta. cbn [Nat.min DB1_LIFECYCLE_EVENT_MAX].
  set (l := take _ _). destruct (forallb event_fits l) eqn:Hf; [|done]. intros [= <-].
  split; [done|]. apply (Forall_check (fun e => event_fits e) event_fits); [|done].
  intros x ->. done.
Qed.

Lemma event_list_elem wi s evs e :
  db1_lifecycle_event_list wi s = Some evs -> e ∈ evs -> e ∈ events s /\ ev_work_item_id e = wi.
Proof.
  intros [-> _]%event_list_spec He. apply elem_of_take in He as (i & Hi & _).
  apply list_elem_of_lookup_2, list_elem_of_filter in Hi. tauto.
Qed.

(** ** Comparing signatures *)

Lemma sig_diff_zero a b : length a = length b -> sig_diff a b = 0 <-> a = b.
Proof.
  unfold sig_diff. intros Hl.
  assert (forall d, fold_left (fun d '(a, b) => Z.lor d (Z.lxor a b)) (zip a b) d = 0 <-> d = 0 /\ a = b)
    as H; [|rewrite H; naive_solver].
  revert b Hl. induction a as [|x a IH]; intros [|y b] Hl d; simplify_eq/=; [naive_solver|].
  rewrite IH, Z.lor_eq_0_iff, Z.lxor_eq_0_iff by done. naive_solver.
Qed.

Lemma wfe_sha256_raw_length m : length (wfe_sha256_raw true m) = 32%nat.
Proof. apply sha256_compute_length. Qed.

Lemma sign_length fd wi gate hash actor ts sig :
  wfe_approval_sign true fd wi gate hash actor ts = Some sig -> length sig = 64%nat.
Proof.
  unfold wfe_approval_sign. destruct (load_key fd) as [key|]; [|done]. cbn [mbind option_bind].
  intros [= <-]. rewrite hex_bytes_length. unfold hmac_sha256. cbv zeta. by rewrite wfe_sha256_raw_length.
Qed.

Lemma verify_iff fd wi gate hash actor ts sig :
  wfe_approval_verify true fd wi gate hash actor ts (Some sig) = true
  <-> wfe_approval_sign true fd wi gate hash actor ts = Some sig.
Proof.
  unfold wfe_approval_verify.
  destruct (wfe_approval_sign true fd wi gate hash actor ts) as [expect|] eqn:He; [|done].
  pose proof (sign_length _ _ _ _ _ _ _ He) as Hl. rewrite andb_true_iff, Nat.eqb_eq, Z.eqb_eq. split.
  - intros [Hs Hd]. apply sig_diff_zero in Hd; [by subst | lia].
  - intros [= ->]. split; [done|]. by apply sig_diff_zero.
Qed.

(** What the detail of an event says. *)
Definition detail_says (cJSON_Parse : bytes -> option json) (detail ts sig : bytes) : Prop :=
  exists d, cJSON_Parse detail = Some d
    /\ cJSON_GetObjectItemCaseSensitive (Some d) (str "ts") = Some (JString ts)
    /\ cJSON_GetObjectItemCaseSensitive (Some d) (str "sig") = Some (JString sig).

Lemma approval_valid_iff parse fd wi gate hash e :
  approval_valid true parse fd wi gate hash e = true <->
  ev_kind e = str "approve" /\ ev_stage e = gate /\ ev_content_hash e = hash
  /\ exists ts sig, detail_says parse (ev_detail e) ts sig
     /\ wfe_approval_sign true fd wi gate hash (ev_actor e) ts = Some sig.
Proof.
  unfold approval_valid, detail_says.
  destruct (bytes_eqb (ev_kind e) (str "approve")) eqn:Hk; cbn [negb];
    [apply bytes_eqb_true in Hk | apply bytes_eqb_false in Hk; split; [done | tauto]].
  destruct (bytes_eqb (ev_stage e) gate) eqn:Hs; cbn [negb];
    [apply bytes_eqb_true in Hs | apply bytes_eqb_false in Hs; split; [done | tauto]].
  destruct (bytes_eqb (ev_content_hash e) hash) eqn:Hh; cbn [negb];
    [apply bytes_eqb_true in Hh | apply bytes_eqb_false in Hh; split; [done | tauto]].
  rewrite Hh. split.
  - intros H. split_and!; [done..|].
    destruct (parse (ev_detail e)) as [d|] eqn:Hd; [|done].
    destruct (cJSON_GetObjectItemCaseSensitive (Some d) (str "ts")) as [[]|] eqn:Ht; try done.
    destruct (cJSON_GetObjectItemCaseSensitive (Some d) (str "sig")) as [[]|] eqn:Hg; try done.
    apply verify_iff in H. eauto 10.
  - intros (_ & _ & _ & ts & sig & (d & -> & -> & ->) & Hsig). by apply verify_iff.
Qed.

(** An approval is found exactly when the readable part of the item's log
    holds an approve event for this gate and this artifact hash whose
    signature is the one of its recorded actor and time stamp under the
    operator's key; no event of another item, gate or artifact counts. *)
Theorem approval_present_iff parse fd wi gate hash s :
  wfe_approval_present true parse fd wi gate (Some hash) s = true <->
  exists evs e ts sig, db1_lifecycle_event_list wi s = Some evs /\ e ∈ evs
    /\ ev_kind e = str "approve" /\ ev_stage e = gate /\ ev_content_hash e = hash
    /\ detail_says parse (ev_detail e) ts sig
    /\ wfe_approval_sign true fd wi gate hash (ev_actor e) ts = Some sig.
Proof.
  unfold wfe_approval_present. cbn [default]. rewrite existsb_exists. split.
  - intros (e & He & Hv). destruct (db1_lifecycle_event_list wi s) as [evs|] eqn:Hl; [|done].
    apply approval_valid_iff in Hv as (? & ? & ? & ts & sig & ? & ?).
    exists evs, e, ts, sig. by rewrite list_elem_of_In.
  - intros (evs & e & ts & sig & -> & He & ? & ? & ? & ? & ?). exists e.
    split; [by apply list_elem_of_In|]. apply approval_valid_iff. eauto 10.
Qed.

(** ** What a signature fixes *)

(** Two nested hashes agree only when the messages do, or there is a
    collision. *)
Lemma nested_hash_binds `{Sha256} i o m m' :
  sha256 (o ++ sha256 (i ++ m))%list = sha256 (o ++ sha256 (i ++ m'))%list ->
  m = m' \/ collides (i ++ m)%list (i ++ m')%list
  \/ collides (o ++ sha256 (i ++ m))%list (o ++ sha256 (i ++ m'))%list.
Proof.
  intros E. destruct (decide (m = m')) as [|Hm]; [by left|]. right.
  destruct (decide (sha256 (i ++ m)%list = sha256 (i ++ m')%list)) as [Hi|Hi].
  - left. split; [|done]. intros Hx. by apply app_inv_head in Hx.
  - right. split; [|done]. intros Hx. by apply app_inv_head in Hx.
Qed.

Definition no_bar (f : bytes) : Prop := (124 ∉ f).

Lemma bar_split (f f' r r' : bytes) :
  no_bar f -> no_bar f' -> (f ++ 124 :: r = f' ++ 124 :: r')%list -> f = f' /\ r = r'.
Proof.
  intros Hf Hf'. revert f' Hf'. induction f as [|c f IH]; intros [|c' f'] Hf' E; simplify_eq/=.
  - done.
  - exfalso. apply Hf'. left.
  - exfalso. apply Hf. left.
  - destruct (IH ltac:(intros H; apply Hf; by right) f' ltac:(intros H; apply Hf'; by right)) as [-> ->];
      [congruence | done].
Qed.

(** The text determines its fields when the first four hold no separator. *)
Lemma approval_text_inj wi gate hash actor ts wi' gate' hash' actor' ts' :
  no_bar wi -> no_bar gate -> no_bar hash -> no_bar actor ->
  no_bar wi' -> no_bar gate' -> no_bar hash' -> no_bar actor' ->
  approval_text wi gate hash actor ts = approval_text wi' gate' hash' actor' ts' ->
  wi = wi' /\ gate = gate' /\ hash = hash' /\ actor = actor' /\ ts = ts'.
Proof.
  intros ???????? E. unfold approval_text in E. change (str "|") with [124] in E.
  apply app_inv_head in E. cbn [app] in E.
  apply bar_split in E as [-> E]; [|done..]. apply bar_split in E as [-> E]; [|done..].
  apply bar_split in E as [-> E]; [|done..]. by apply bar_split in E as [-> ->]; [|done..].
Qed.

(** A tuple whose text is signed in full. *)
Record signable (wi gate hash actor ts : bytes) : Prop := {
  sg_wi : no_bar wi; sg_gate : no_bar gate; sg_hash : no_bar hash; sg_actor : no_bar actor;
  sg_fits : (length (approval_text wi gate hash actor ts) < 2048)%nat;
}.

(** The two texts under the pads, for a key. *)
Definition mac_text (key : bytes) (pad : Z) (m : bytes) : bytes :=
  (map (fun b => Z.lxor b pad) (key ++ replicate (64 - length key) 0) ++ m)%list.

Lemma load_key_length fd key : load_key fd = Some key -> length key = 32%nat.
Proof.
  unfold load_key. destruct fd as [f|]; [|done]. destruct (_ || _); [done|]. cbv zeta.
  destruct (Nat.eqb_spec (length (take WFE_KEY_LEN (kf_content f))) WFE_KEY_LEN) as [Hl|]; [|done].
  by intros [= <-].
Qed.

Lemma hmac_text key msg :
  length key = 32%nat -> (length msg <= 2048)%nat ->
  hmac_sha256 true key msg
  = @sha256 wfe_sha256 (mac_text key 0x5c (@sha256 wfe_sha256 (mac_text key 0x36 msg))).
Proof.
  intros Hk Hm. unfold hmac_sha256. rewrite Hk. cbn [Nat.ltb Nat.leb]. cbv zeta.
  by rewrite take_ge by done.
Qed.

Lemma sign_text fd key wi gate hash actor ts sig :
  load_key fd = Some key -> (length (approval_text wi gate hash actor ts) < 2048)%nat ->
  wfe_approval_sign true fd wi gate hash actor ts = Some sig ->
  sig = hex_bytes (@sha256 wfe_sha256 (mac_text key 0x5c (@sha256 wfe_sha256
          (mac_text key 0x36 (approval_text wi gate hash actor ts))))).
Proof.
  intros Hk Hf. unfold wfe_approval_sign, approval_msg. rewrite Hk, snprintf_s_fits by done.
  cbn [mbind option_bind]. rewrite hmac_text; [| by eapply load_key_length | lia].
  intros H%(inj Some). by subst.
Qed.

(** Two approvals with the same signature under one key approve the same
    item, gate, artifact hash, actor and time stamp, or one of two named pairs
    of messages is a collision of SHA-256. *)
Theorem approval_signature_binds fd key wi gate hash actor ts wi' gate' hash' actor' ts' sig :
  load_key fd = Some key ->
  signable wi gate hash actor ts -> signable wi' gate' hash' actor' ts' ->
  wfe_approval_sign true fd wi gate hash actor ts = Some sig ->
  wfe_approval_sign true fd wi' gate' hash' actor' ts' = Some sig ->
  (wi = wi' /\ gate = gate' /\ hash = hash' /\ actor = actor' /\ ts = ts')
  \/ exists x y, @collides wfe_sha256 x y
       /\ (x = mac_text key 0x36 (approval_text wi gate hash actor ts)
           \/ x = mac_text key 0x5c (@sha256 wfe_sha256
                    (mac_text key 0x36 (approval_text wi gate hash actor ts)))).
Proof.
  intros Hk [? ? ? ? Hf] [? ? ? ? Hf'] Hs Hs'.
  pose proof (sign_text _ _ _ _ _ _ _ _ Hk Hf Hs) as E. rewrite (sign_text _ _ _ _ _ _ _ _ Hk Hf' Hs') in E.
  apply hex_bytes_inj in E; [|apply sha256_compute_bytes..]. symmetry in E. unfold mac_text in *.
  apply (@nested_hash_binds wfe_sha256) in E as [E|[E|E]].
  - left. by apply approval_text_inj.
  - right. eexists _, _. split; [exact E | by left].
  - right. eexists _, _. split; [exact E | by right].
Qed.

(** ** A recorded approval is found *)

(** Documented behaviour of the JSON parser on text without quotation marks,
    backslashes and control characters. *)
Definition plain_char (c : Z) : Prop := 32 <= c < 127 /\ c <> 34 /\ c <> 92.

Definition parses_details (cJSON_Parse : bytes -> option json) : Prop :=
  forall ts sig, Forall plain_char ts -> Forall plain_char sig ->
    cJSON_Parse (approval_detail ts sig)
    = Some (JObject [(str "ts", JString ts); (str "sig", JString sig)]).

Lemma hex_plain c : is_hex c -> plain_char c.
Proof. unfold is_hex, plain_char. lia. Qed.

Lemma approval_detail_length ts sig : length (approval_detail ts sig) = (length ts + length sig + 18)%nat.
Proof. unfold approval_detail. rewrite !length_app. cbn. lia. Qed.

Section RecordPresent.
Context (parse : bytes -> option json) (Hparse : parses_details parse).
Context (fd : option key_file) (wi gate hash actor : bytes) (s : db).
Context (Hgate : (length gate < 64)%nat) (Hactor : (length actor < 64)%nat)
        (Hhash : (length hash < 72)%nat) (Hplain : Forall plain_char hash).

Ltac event_cbn := cbn [lifecycleEventAdd rows events attempts ev_work_item_id ev_stage ev_kind
  ev_actor ev_detail ev_content_hash ev_cost_usd].

Lemma record_event s' :
  wfe_approval_record true fd wi gate (Some hash) (Some actor) s = (0, s') ->
  wi <> [] /\ exists e sig, events s' = (events s ++ [e])%list /\ rows s' = rows s
    /\ attempts s' = attempts s
    /\ ev_work_item_id e = wi /\ event_fits e = true
    /\ ev_kind e = str "approve" /\ ev_stage e = gate /\ ev_content_hash e = hash
    /\ ev_actor e = actor /\ detail_says parse (ev_detail e) (snprintf_s 40 hash) sig
    /\ wfe_approval_sign true fd wi gate hash actor (snprintf_s 40 hash) = Some sig.
Proof.
  unfold wfe_approval_record. cbv zeta. cbn [default from_option id].
  destruct (wfe_approval_sign true fd wi gate hash actor (snprintf_s 40 hash)) as [sig|] eqn:Hs; [|done].
  unfold db1_lifecycle_event_add. cbn [ev_work_item_id].
  destruct (decide (wi = [])) as [Hwi|Hwi];
    [rewrite (bool_decide_eq_true_2 _ Hwi) | rewrite (bool_decide_eq_false_2 _ Hwi)]; [intros Hx; discriminate Hx|].
  intros Hs'%(f_equal snd). cbn [snd] in Hs'. subst s'. split; [done|].
  pose proof (sign_length _ _ _ _ _ _ _ Hs) as Hl.
  pose proof (snprintf_s_length 40 hash ltac:(lia)) as Ht.
  assert (Forall plain_char sig) as Hsig.
  { unfold wfe_approval_sign in Hs. destruct (load_key fd); [|done]. cbn [mbind option_bind] in Hs.
    injection Hs as <-. eapply Forall_impl; [apply hex_bytes_hex, sha256_compute_bytes | apply hex_plain]. }
  rewrite snprintf_s_fits by (rewrite approval_detail_length; lia).
  eexists _, sig. split; [reflexivity|]. event_cbn. split_and!; try done.
  - unfold event_fits. event_cbn. rewrite approval_detail_length.
    repeat (apply andb_true_iff; split); try (apply Nat.ltb_lt; lia). done.
  - unfold detail_says. eexists. split; [apply Hparse; [by apply Forall_take | done]|]. done.
Qed.

(** An approval that was recorded is found afterwards, as long as the
    item's log is shorter than the 512 events a reader sees. *)
Theorem approval_record_present evs s' :
  db1_lifecycle_event_list wi s = Some evs -> (length evs < 512)%nat ->
  wfe_approval_record true fd wi gate (Some hash) (Some actor) s = (0, s') ->
  wfe_approval_present true parse fd wi gate (Some hash) s' = true.
Proof using All.
  intros Hl Hn (Hwi & e & sig & He & _ & _ & Hid & Hfit & Hk & Hst & Hh & Ha & Hd & Hs)%record_event.
  apply event_list_spec in Hl as [Hevs Hfits].
  set (old := filter (fun e => ev_work_item_id e = wi) (events s)) in *.
  assert (length old < 512)%nat as Hold by (rewrite Hevs, length_take in Hn; lia).
  rewrite take_ge in Hevs by lia.
  assert (db1_lifecycle_event_list wi s' = Some (old ++ [e])%list) as Hl'.
  { unfold db1_lifecycle_event_list, db1_lifecycle_event_list_bounded.
    rewrite (bool_decide_eq_false_2 _ Hwi). cbn [orb DB1_LIFECYCLE_EVENT_MAX Nat.eqb Nat.min]. cbv zeta.
    rewrite He, filter_app, filter_cons_True, filter_nil by done. fold old.
    rewrite take_ge by (rewrite length_app; cbn [length]; lia).
    rewrite (proj2 (forallb_forall event_fits _)); [done|].
    intros x Hx. apply list_elem_of_In, elem_of_app in Hx as [Hx|Hx].
    - rewrite Forall_forall in Hfits. rewrite Hevs in Hfits. by apply Is_true_true, Hfits.
    - by apply list_elem_of_singleton in Hx as ->. }
  unfold wfe_approval_present. rewrite Hl'. cbn [default]. apply existsb_exists. exists e. split.
  - apply list_elem_of_In, elem_of_app. right. by apply list_elem_of_singleton.
  - apply approval_valid_iff. rewrite Ha. eauto 10.
Qed.
End RecordPresent.

(** ** Beyond the reading bound *)

Lemma event_list_full wi s s' e :
  events s' = (events s ++ [e])%list ->
  (512 <= length (filter (fun e => ev_work_item_id e = wi) (events s)))%nat ->
  db1_lifecycle_event_list wi s' = db1_lifecycle_event_list wi s.
Proof.
  intros He Hn. unfold db1_lifecycle_event_list, db1_lifecycle_event_list_bounded.
  destruct (_ || _); [done|]. cbn [DB1_LIFECYCLE_EVENT_MAX Nat.min]. cbv zeta.
  by rewrite He, filter_app, take_app_le by done.
Qed.

(** Once an item has 512 events, recording an approval succeeds but no
    reader sees it: whether an approval is found no longer changes, for any
    gate and artifact. *)
Theorem approval_lost_beyond_bound calloc_ok parse fd wi gate hash actor s s' :
  (512 <= length (filter (fun e => ev_work_item_id e = wi) (events s)))%nat ->
  wfe_approval_record calloc_ok fd wi gate hash actor s = (0, s') ->
  forall gate' hash', wfe_approval_present calloc_ok parse fd wi gate' hash' s'
                      = wfe_approval_present calloc_ok parse fd wi gate' hash' s.
Proof.
  intros Hn Hr gate' hash'. unfold wfe_approval_present. f_equal. f_equal.
  unfold wfe_approval_record in Hr. cbv zeta in Hr.
  destruct (wfe_approval_sign _ _ _ _ _ _ _) as [sig|]; [|done].
  unfold db1_lifecycle_event_add in Hr. destruct (bool_decide _); [done|].
  apply (f_equal snd) in Hr. cbn [snd] in Hr. subst s'. by eapply event_list_full.
Qed.

(** When the digest's buffer cannot be allocated the digest is zero and
    nobody is told: any readable key then signs and accepts the same constant,
    whatever is approved. *)
Theorem approval_forged_without_memory fd wi gate hash actor ts :
  is_Some (load_key fd) ->
  wfe_approval_verify false fd wi gate hash actor ts (Some (replicate 64 48)) = true.
Proof.
  intros [key Hk]. unfold wfe_approval_verify, wfe_approval_sign. rewrite Hk.
  cbn [mbind option_bind]. vm_compute. reflexivity.
Qed.

(** ** The properties at concrete inputs *)

(** A parser of exactly the details that are recorded. *)
Fixpoint until_quote (l : bytes) : bytes :=
  match l with [] => [] | c :: l => if c =? 34 then [] else c :: until_quote l end.

Definition detail_parse (l : bytes) : option json :=
  let ts := until_quote (drop 7 l) in
  let sig := until_quote (drop (16 + length ts) l) in
  Some (JObject [(str "ts", JString ts); (str "sig", JString sig)]).

Lemma until_quote_app a r : Forall plain_char a -> until_quote (a ++ 34 :: r)%list = a.
Proof.
  induction 1 as [|c a [_ [Hc _]] Ha IH]; [done|]. cbn [until_quote app].
  apply Z.eqb_neq in Hc as ->. by rewrite IH.
Qed.

Lemma detail_parse_ok : parses_details detail_parse.
Proof.
  intros ts sig Hts Hsig. unfold detail_parse, approval_detail. cbv zeta.
  set (tail := ([34; 44; 34] ++ str "sig" ++ [34; 58; 34] ++ sig ++ [34; 125])%list).
  change ([123; 34] ++ str "ts" ++ [34; 58; 34] ++ ts ++ tail)%list
    with ([123; 34; 116; 115; 34; 58; 34] ++ ts ++ tail)%list.
  change (drop 7 ([123; 34; 116; 115; 34; 58; 34] ++ ts ++ tail)%list) with (ts ++ tail)%list.
  assert (until_quote (ts ++ tail)%list = ts) as -> by by apply until_quote_app.
  change (drop (16 + length ts) ([123; 34; 116; 115; 34; 58; 34] ++ ts ++ tail)%list)
    with (drop (9 + length ts) (ts ++ tail)%list).
  rewrite Nat.add_comm, <- drop_drop, drop_app_length.
  change (drop 9 tail) with (sig ++ [34; 125])%list. by rewrite until_quote_app.
Qed.

Definition demo_key : option key_file :=
  Some {| kf_fstat_ok := true; kf_regular := true; kf_mode := 384; kf_nlink := 1;
          kf_content := replicate 32 7 |}.

Definition empty_db : db := {| rows := ∅; events := []; attempts := ∅ |}.

Lemma approval_record_present_witness :
  let c := wfe_approval_record true demo_key (str "wi_1") (str "gate") (Some (str "ab12")) (Some (str "op")) empty_db in
  wfe_approval_present true detail_parse demo_key (str "wi_1") (str "gate") (Some (str "ab12")) (snd c) = true.
Proof.
  intros c.
  apply (approval_record_present detail_parse detail_parse_ok demo_key (str "wi_1") (str "gate")
           (str "ab12") (str "op") empty_db) with (evs := []);
    [cbn; lia | cbn; lia | cbn; lia | cbn; repeat (apply Forall_cons; split; [unfold plain_char; lia|]); apply Forall_nil_2 | done | cbn; lia |].
  vm_compute. reflexivity.
Defined.

Definition demo_sig : bytes :=
  default [] (wfe_approval_sign true demo_key (str "wi_1") (str "gate") (str "ab12") (str "op") (str "t")).

Lemma approval_signature_binds_witness :
  let t := approval_text (str "wi_1") (str "gate") (str "ab12") (str "op") (str "t") in
  (str "wi_1" = str "wi_1" /\ str "gate" = str "gate" /\ str "ab12" = str "ab12"
   /\ str "op" = str "op" /\ str "t" = str "t")
  \/ exists x y, @collides wfe_sha256 x y
       /\ (x = mac_text (replicate 32 7) 0x36 t
           \/ x = mac_text (replicate 32 7) 0x5c (@sha256 wfe_sha256 (mac_text (replicate 32 7) 0x36 t))).
Proof.
  intros t.
  assert (signable (str "wi_1") (str "gate") (str "ab12") (str "op") (str "t")).
  { split; [apply (bool_decide_unpack _); vm_compute; exact I..|cbn; lia]. }
  apply (approval_signature_binds demo_key (replicate 32 7) (str "wi_1") (str "gate") (str "ab12")
           (str "op") (str "t") (str "wi_1") (str "gate") (str "ab12") (str "op") (str "t") demo_sig);
    [reflexivity | done | done | vm_compute; reflexivity | vm_compute; reflexivity].
Defined.

End WfeApproval.
