(* ===== verification/WfeGate.v ===== *)
(** * Deciding a parked gate ([server/server_http_routes.c])

    [rh_workflow_gate] is the operator's endpoint: it approves or rejects the
    human gate a run is parked at.  It reads the row, checks the request,
    records a signed approval or works out where a rejection leads, and then
    applies the decision with one guarded statement.  Other requests may run
    between the reading and that statement: [interfere] is what they do to the
    store.

    Shown: a pause is cleared only after a signed approval of that gate and
    artifact is in the log; a panel cannot be force-passed while its workflow
    loads, and can when it does not; a gate sends a run
    back at most three times while the log is within the bound a reader sees,
    and without bound beyond it; a refused request changes no row. *)

From Stdlib Require Import ZArith Lia String Ascii SpecFloat.
From stdpp Require Import base numbers option list gmap fin_maps.
From S2P Require Import Prelude Json Sha256Impl WfeDef WfeStore WfeApproval.

Open Scope string_scope.
Open Scope Z_scope.

Module WfeGate.
Import WfeDef WfeStore WfeApproval.

Definition GATE_MAX_REJECT_RETRIES : Z := 3.

(** The rejections that sent the run back from this gate, among the events a
    reader sees; -1 when the log cannot be read. *)
Definition gate_count_reject_retries (id gate : bytes) (s : db) : Z :=
  match db1_lifecycle_event_list id s with
  | None => -1
  | Some ev =>
      Z.of_nat (length (filter (fun e => ev_kind e = str "reject_retry" /\ ev_stage e = gate) ev))
  end.

Inductive gate_error :=
  | GE_missing_id | GE_no_such_item | GE_wrong_gate | GE_bad_decision | GE_roundtable
  | GE_record_failed | GE_apply_failed | GE_not_parked.

(** A reply of 200 names the decision; any other has a code and a reason. *)
Inductive gate_reply := GR_ok (kind : bytes) | GR_err (code : Z) (e : gate_error).

Section Gate.
Context (load_workflow : bytes -> option wfe_def_t) (cJSON_Parse : bytes -> option json).
Context (calloc_ok : bool) (fd : option key_file) (principal : option bytes).
Context (interfere : db -> db).

Definition gate_actor : bytes :=
  match principal with Some (c :: p) => c :: p | _ => str "operator" end.

(** The audit event at the end; its outcome is not looked at. *)
Definition gate_event (id gate kind detail hash : bytes) (s : db) : db :=
  snd (db1_lifecycle_event_add
         {| ev_work_item_id := id; ev_stage := gate; ev_kind := kind; ev_actor := gate_actor;
            ev_detail := snprintf_s 256 detail; ev_content_hash := hash; ev_cost_usd := d_zero |} s).

Definition gate_approve (id : bytes) (wi : db1_work_item_t) (s : db) : gate_reply * db :=
  let gate := wi_current_stage wi in
  let hash := wi_content_hash wi in
  let present := wfe_approval_present calloc_ok cJSON_Parse fd id gate (Some hash) s in
  let '(rc, s1) :=
    if present then (0, s)
    else wfe_approval_record calloc_ok fd id gate (Some hash) (Some gate_actor) s in
  if negb (rc =? 0) then (GR_err 500 GE_record_failed, s1)
  else
    let '(g, s2) := workItemGateApply id gate hash [] [] (interfere s1) in
    if g <? 0 then (GR_err 500 GE_apply_failed, s2)
    else if g =? 0 then
      (if present then GR_ok (str "approve") else GR_err 409 GE_not_parked, s2)
    else (GR_ok (str "approve"), gate_event id gate (str "approve") [] hash s2).

(** Where a rejection leads: the loop-back target, if there is one. *)
Definition reject_target (wi : db1_work_item_t) (retries : Z) : option bytes :=
  if retries <? 0 then None
  else if retries <? GATE_MAX_REJECT_RETRIES then
    match load_workflow (wi_workflow_name wi) with
    | Some def =>
        match wfe_gate_reject_target (Some def) (Some (wi_current_stage wi)) (Some WFE_ID_LEN) with
        | (WFE_GATE_REJECT_RETRY, Some target) => Some target
        | _ => None
        end
    | None => None
    end
  else None.

Definition reject_detail (gate : bytes) (target : option bytes) (retries : Z) : bytes :=
  match target with
  | Some t => (str "from=" ++ gate ++ str " to=" ++ t)%list
  | None =>
      (str "stage=" ++ gate ++ str " reason="
       ++ (if (retries <? 0)%Z then str "retry_count_unavailable"
           else if (GATE_MAX_REJECT_RETRIES <=? retries)%Z then str "retry_cap_exceeded"
           else str "rejected"))%list
  end.

Definition gate_reject (id : bytes) (wi : db1_work_item_t) (s : db) : gate_reply * db :=
  let gate := wi_current_stage wi in
  let hash := wi_content_hash wi in
  let retries := gate_count_reject_retries id gate s in
  let target := reject_target wi retries in
  let kind := match target with Some _ => str "reject_retry" | None => str "reject" end in
  let '(g, s2) :=
    workItemGateApply id gate hash (default [] target)
      (match target with Some _ => [] | None => str "rejected" end) (interfere s) in
  if g <? 0 then (GR_err 500 GE_apply_failed, s2)
  else if g =? 0 then (GR_err 409 GE_not_parked, s2)
  else (GR_ok kind, gate_event id gate kind (reject_detail gate target retries) hash s2).

(** A panel's gate is not for a human to pass. *)
Definition is_roundtable (wi : db1_work_item_t) : bool :=
  match load_workflow (wi_workflow_name wi) with
  | Some def =>
      match wfe_def_node def (wi_current_stage wi) with
      | Some n => bool_decide (n_block n = WFE_BLK_GATE_ROUNDTABLE)
      | None => false
      end
  | None => false
  end.

Definition rh_workflow_gate (id : bytes) (body : option bytes) (s : db) : gate_reply * db :=
  if bool_decide (id = []) then (GR_err 400 GE_missing_id, s)
  else
    match rows s !! id with
    | None => (GR_err 404 GE_no_such_item, s)
    | Some wi =>
        let doc := body ≫= cJSON_Parse in
        let decision :=
          snprintf_s 16 (default [] (json_string (cJSON_GetObjectItemCaseSensitive doc (str "decision")))) in
        let jgate := default [] (json_string (cJSON_GetObjectItemCaseSensitive doc (str "gate"))) in
        if negb (bytes_eqb jgate []) && negb (bytes_eqb jgate (wi_current_stage wi)) then
          (GR_err 409 GE_wrong_gate, s)
        else if negb (bytes_eqb decision (str "approve")) && negb (bytes_eqb decision (str "reject")) then
          (GR_err 400 GE_bad_decision, s)
        else if bytes_eqb decision (str "approve") then
          if is_roundtable wi then (GR_err 409 GE_roundtable, s) else gate_approve id wi s
        else gate_reject id wi s
    end.
End Gate.

(** ** The parts of a decision *)

Lemma gate_apply_cases id stage hash ns ts s g s' :
  workItemGateApply id stage hash ns ts s = (g, s') ->
  (g = 0 /\ s' = s) \/
  g = 1 /\ events s' = events s /\ exists w, rows s !! id = Some w
    /\ wi_pause_reason w = str "pending_human" /\ wi_current_stage w = stage /\ wi_content_hash w = hash.
Proof.
  unfold workItemGateApply. destruct (rows s !! id) as [w|] eqn:Hw.
  - case_bool_decide as Hp; intros H.
    + right. pose proof (f_equal fst H) as Hg. pose proof (f_equal snd H) as Hs. cbn [fst snd] in Hg, Hs.
      subst g s'. split; [done|]. split; [done|]. exists w. tauto.
    + left. by simplify_eq.
  - intros [= <- <-]. by left.
Qed.

Lemma gate_event_events principal id gate kind detail hash s :
  exists l, events (gate_event principal id gate kind detail hash s) = (events s ++ l)%list
    /\ (l = [] \/ exists e, l = [e] /\ ev_work_item_id e = id /\ ev_kind e = kind /\ ev_stage e = gate).
Proof.
  unfold gate_event, db1_lifecycle_event_add. cbn [ev_work_item_id].
  destruct (bool_decide (id = [])); cbn [snd].
  - exists []. rewrite app_nil_r. auto.
  - eexists [_]. split; [reflexivity|]. right. eexists. split; [reflexivity|]. done.
Qed.

Lemma gate_event_rows principal id gate kind detail hash s :
  rows (gate_event principal id gate kind detail hash s) = rows s.
Proof. unfold gate_event, db1_lifecycle_event_add. by destruct (bool_decide _). Qed.

(** The two paths of a request that passed the checks. *)
Lemma gate_paths lw parse co fd p itf id body s r s' :
  rh_workflow_gate lw parse co fd p itf id body s = (r, s') ->
  (exists code e, r = GR_err code e /\ s' = s)
  \/ exists wi, rows s !! id = Some wi
       /\ (gate_approve parse co fd p itf id wi s = (r, s') /\ is_roundtable lw wi = false
           \/ gate_reject lw p itf id wi s = (r, s')).
Proof.
  unfold rh_workflow_gate. cbv zeta. destruct (bool_decide (id = [])); [intros [= <- <-]; eauto|].
  destruct (rows s !! id) as [wi|]; [|intros [= <- <-]; eauto].
  destruct (_ && _); [intros [= <- <-]; eauto|].
  destruct (_ && _); [intros [= <- <-]; eauto|].
  destruct (bytes_eqb _ _); [|intros; right; eauto].
  destruct (is_roundtable lw wi) eqn:Hr; [intros [= <- <-]; eauto|]. intros; right; eauto.
Qed.

(** ** Approvals *)

(** What other requests do to the log: they append to it. *)
Definition appends (f : db -> db) : Prop := forall s, events s `prefix_of` events (f s).

(** The columns of a row fit the buffers a log reader has for them. *)
Record row_fits (w : db1_work_item_t) : Prop := {
  rf_stage : (length (wi_current_stage w) < 64)%nat;
  rf_hash : (length (wi_content_hash w) < 72)%nat;
  rf_plain : Forall plain_char (wi_content_hash w);
}.

(** A signed approval of the row's gate and artifact is in the log. *)
Definition approval_logged (parse : bytes -> option json) (fd : option key_file) (id : bytes)
    (w : db1_work_item_t) (evs : list db1_lifecycle_event_t) : Prop :=
  exists e, e ∈ evs /\ ev_work_item_id e = id
    /\ approval_valid true parse fd id (wi_current_stage w) (wi_content_hash w) e = true.

Lemma approval_logged_mono parse fd id w evs evs' :
  approval_logged parse fd id w evs -> evs `prefix_of` evs' -> approval_logged parse fd id w evs'.
Proof.
  intros (e & He & ?) [l ->]. exists e. split; [|done]. apply elem_of_app. by left.
Qed.

Lemma approve_recorded parse fd p id wi s rc s1 :
  parses_details parse -> row_fits wi -> (length (gate_actor p) < 64)%nat ->
  (if wfe_approval_present true parse fd id (wi_current_stage wi) (Some (wi_content_hash wi)) s
   then (0, s)
   else wfe_approval_record true fd id (wi_current_stage wi) (Some (wi_content_hash wi))
          (Some (gate_actor p)) s) = (rc, s1) ->
  rc = 0 -> rows s1 = rows s /\ approval_logged parse fd id wi (events s1).
Proof.
  intros Hp [Hst Hh Hpl] Ha Hif ->.
  destruct (wfe_approval_present true parse fd id _ _ s) eqn:Hpr.
  - injection Hif as <-. split; [done|]. unfold wfe_approval_present in Hpr. cbn [default from_option] in Hpr.
    apply existsb_exists in Hpr as (e & He & Hv).
    destruct (db1_lifecycle_event_list id s) as [evs|] eqn:Hl; [|done]. cbn in He.
    apply list_elem_of_In, (event_list_elem _ _ _ _ Hl) in He as [??]. by exists e.
  - apply (record_event parse Hp) in Hif as (_ & e & sig & He & Hr & _ & Hid & _ & ? & ? & ? & Hac & ? & ?); [|done..].
    split; [done|]. exists e. split; [rewrite He; apply elem_of_app; right; by apply list_elem_of_singleton|].
    split; [done|]. apply approval_valid_iff. rewrite Hac. eauto 10.
Qed.

(** The item is parked at the gate of a panel, as far as its workflow can be
    loaded. *)
Definition at_panel (lw : bytes -> option wfe_def_t) (wi : db1_work_item_t) : Prop :=
  exists def n, lw (wi_workflow_name wi) = Some def /\ wfe_def_node def (wi_current_stage wi) = Some n
    /\ n_block n = WFE_BLK_GATE_ROUNDTABLE.

Lemma not_roundtable lw wi : is_roundtable lw wi = false -> ~ at_panel lw wi.
Proof. unfold is_roundtable. intros Hr (def & n & El & En & Hb). by rewrite El, En, Hb in Hr. Qed.

(** C23: A request that answers that the gate is approved leaves, in the
    log, an approve event of this item, gate and artifact that carries a valid
    signature of the operator's key, when the digests get their buffers; and
    with or without memory the gate is not one that the item's workflow, if it
    loads, gives to a panel.  It holds whatever other requests do to the store
    in the meantime. *)
Theorem gate_approve_signed lw parse co fd p itf id body s s' wi :
  parses_details parse -> appends itf -> row_fits wi -> (length (gate_actor p) < 64)%nat ->
  rows s !! id = Some wi ->
  rh_workflow_gate lw parse co fd p itf id body s = (GR_ok (str "approve"), s') ->
  (co = true -> approval_logged parse fd id wi (events s')) /\ ~ at_panel lw wi.
Proof.
  intros Hp Hi Hf Ha Hw [(? & ? & [=] & _)|(wi' & Hw' & Hpath)]%gate_paths.
  rewrite Hw in Hw'. injection Hw' as <-. destruct Hpath as [[Happ Hr]|Hrej].
  - split; [intros ->|by apply not_roundtable]. unfold gate_approve in Happ. cbv zeta in Happ.
    destruct (if wfe_approval_present _ _ _ _ _ _ _ then _ else _) as [rc s1] eqn:Hrec.
    destruct (Z.eqb_spec rc 0) as [Hrc|]; cbn [negb] in Happ; [|discriminate].
    destruct (approve_recorded _ _ _ _ _ _ _ _ Hp Hf Ha Hrec Hrc) as [_ Hlog].
    apply (approval_logged_mono _ _ _ _ _ (events (itf s1))) in Hlog; [|apply Hi].
    destruct (workItemGateApply _ _ _ _ _ _) as [g s2] eqn:Hg.
    assert (events s2 = events (itf s1)) as He2 by (apply gate_apply_cases in Hg as [[_ ->]|(_ & ? & _)]; done).
    rewrite <- He2 in Hlog. destruct (g <? 0); [discriminate|]. destruct (g =? 0).
    + destruct (wfe_approval_present _ _ _ _ _ _ _); [|discriminate]. by injection Happ as <-.
    + apply (f_equal snd) in Happ. cbn [snd] in Happ. subst s'.
      destruct (gate_event_events p id (wi_current_stage wi) (str "approve") [] (wi_content_hash wi) s2)
        as (l & -> & _). eapply approval_logged_mono; [done | by exists l].
  - exfalso. unfold gate_reject in Hrej. cbv zeta in Hrej.
    destruct (workItemGateApply _ _ _ _ _ _) as [g s2].
    destruct (g <? 0); [discriminate|]. destruct (g =? 0); [discriminate|].
    apply (f_equal fst) in Hrej. cbn [fst] in Hrej. by destruct (reject_target _ _ _).
Qed.

(** ** Rejections *)

Definition is_retry (id gate : bytes) (e : db1_lifecycle_event_t) : Prop :=
  ev_work_item_id e = id /\ ev_kind e = str "reject_retry" /\ ev_stage e = gate.

(** The rejections that sent item [id] back from [gate], in the whole log. *)
Definition retries_of (id gate : bytes) (evs : list db1_lifecycle_event_t) : nat :=
  length (filter (is_retry id gate) evs).

Lemma retries_of_app id gate l k :
  retries_of id gate (l ++ k)%list = (retries_of id gate l + retries_of id gate k)%nat.
Proof. unfold retries_of. by rewrite filter_app, length_app. Qed.

Lemma retries_of_single id gate e :
  retries_of id gate [e] = if decide (is_retry id gate e) then 1%nat else 0%nat.
Proof. unfold retries_of. rewrite filter_cons, filter_nil. by destruct (decide _). Qed.

(** Within the bound a reader counts them all. *)
Lemma count_reject_retries_all id gate s evs :
  db1_lifecycle_event_list id s = Some evs ->
  (length (filter (fun e => ev_work_item_id e = id) (events s)) <= 512)%nat ->
  gate_count_reject_retries id gate s = Z.of_nat (retries_of id gate (events s)).
Proof.
  intros Hl Hn. unfold gate_count_reject_retries. rewrite Hl.
  apply event_list_spec in Hl as [-> _]. rewrite take_ge by done.
  rewrite list_filter_filter. unfold retries_of. do 2 f_equal.
  apply list_filter_iff. intros e. unfold is_retry. tauto.
Qed.

Lemma approve_retries parse co fd p id wi s r s' gate :
  gate_approve parse co fd p (fun s => s) id wi s = (r, s') ->
  retries_of id gate (events s') = retries_of id gate (events s).
Proof.
  unfold gate_approve. cbv zeta.
  destruct (if wfe_approval_present _ _ _ _ _ _ _ then _ else _) as [rc s1] eqn:Hrec.
  assert (retries_of id gate (events s1) = retries_of id gate (events s)) as H1.
  { destruct (wfe_approval_present _ _ _ _ _ _ _); [by injection Hrec as _ <-|].
    unfold wfe_approval_record in Hrec. cbv zeta in Hrec.
    destruct (wfe_approval_sign _ _ _ _ _ _ _) as [sig|]; [|by injection Hrec as _ <-].
    unfold db1_lifecycle_event_add in Hrec. destruct (bool_decide _); apply (f_equal snd) in Hrec;
      cbn [snd] in Hrec; subst s1; [done|]. cbn [lifecycleEventAdd events].
    rewrite retries_of_app, retries_of_single, decide_False; [lia|]. unfold is_retry. cbn. intros (_ & ? & _). done. }
  destruct (negb (rc =? 0)); [by intros [= _ <-]|].
  destruct (workItemGateApply _ _ _ _ _ _) as [g s2] eqn:Hg.
  assert (events s2 = events s1) as He2 by (apply gate_apply_cases in Hg as [[_ ->]|(_ & ? & _)]; done).
  rewrite <- He2 in H1. rewrite <- H1. destruct (g <? 0); [by intros [= _ <-]|].
  destruct (g =? 0); [by intros [= _ <-]|]. intros Hr%(f_equal snd). cbn [snd] in Hr. subst s'.
  destruct (gate_event_events p id (wi_current_stage wi) (str "approve") [] (wi_content_hash wi) s2)
    as (l & -> & Hl). rewrite retries_of_app.
  destruct Hl as [->|(e & -> & _ & Hk & _)]; [cbn; lia|].
  rewrite retries_of_single, decide_False; [lia|]. unfold is_retry. rewrite Hk. by intros (_ & ? & _).
Qed.

Lemma reject_retries lw p id wi s r s' gate :
  gate_reject lw p (fun s => s) id wi s = (r, s') ->
  retries_of id gate (events s') = retries_of id gate (events s)
  \/ gate = wi_current_stage wi /\ 0 <= gate_count_reject_retries id gate s < GATE_MAX_REJECT_RETRIES
     /\ retries_of id gate (events s') = S (retries_of id gate (events s)).
Proof.
  unfold gate_reject. cbv zeta.
  destruct (workItemGateApply _ _ _ _ _ _) as [g s2] eqn:Hg.
  assert (events s2 = events s) as He2 by (apply gate_apply_cases in Hg as [[_ ->]|(_ & ? & _)]; done).
  rewrite <- He2. destruct (g <? 0); [by intros [= _ <-]; left|].
  destruct (g =? 0); [by intros [= _ <-]; left|]. intros Hr%(f_equal snd). cbn [snd] in Hr. subst s'.
  match goal with |- context [gate_event p id ?st ?k ?d ?h s2] =>
    destruct (gate_event_events p id st k d h s2) as (l & -> & Hl) end.
  rewrite retries_of_app. destruct Hl as [->|(e & -> & He & Hk & Hst)]; [left; cbn; lia|].
  rewrite retries_of_single. destruct (decide (is_retry id gate e)) as [(_ & Hrt & Hgt)|]; [right|left; lia].
  rewrite Hgt in Hst. subst gate. split; [done|]. rewrite Hk in Hrt.
  unfold reject_target in Hrt.
  destruct (Z.ltb_spec (gate_count_reject_retries id (wi_current_stage wi) s) 0); [done|].
  destruct (Z.ltb_spec (gate_count_reject_retries id (wi_current_stage wi) s) GATE_MAX_REJECT_RETRIES); [|done].
  lia.
Qed.

(** While an item's log is within the 512 events a reader sees, a
    decision never sends it back from one gate more than three times, counted
    over the whole life of the item. *)
Theorem gate_retries_bounded lw parse co fd p id body s r s' evs gate :
  db1_lifecycle_event_list id s = Some evs ->
  (length (filter (fun e => ev_work_item_id e = id) (events s)) <= 512)%nat ->
  Z.of_nat (retries_of id gate (events s)) <= GATE_MAX_REJECT_RETRIES ->
  rh_workflow_gate lw parse co fd p (fun s => s) id body s = (r, s') ->
  Z.of_nat (retries_of id gate (events s')) <= GATE_MAX_REJECT_RETRIES.
Proof.
  intros Hl Hn Hb [(? & ? & _ & ->)|(wi & _ & [[Ha _]|Hr])]%gate_paths; [done| |].
  - by erewrite approve_retries by exact Ha.
  - apply (reject_retries _ _ _ _ _ _ _ gate) in Hr as [->|(_ & Hc & ->)]; [done|].
    rewrite (count_reject_retries_all _ _ _ _ Hl Hn) in Hc. lia.
Qed.

(** ** Refusals *)

(** A request that is refused, for whatever reason, leaves every row as
    it was: only an approval event may have been added to the log. *)
Theorem gate_error_keeps_rows lw parse co fd p id body s code e s' :
  rh_workflow_gate lw parse co fd p (fun s => s) id body s = (GR_err code e, s') -> rows s' = rows s.
Proof.
  intros [(? & ? & _ & ->)|(wi & _ & [[Ha _]|Hr])]%gate_paths; [done| |].
  - unfold gate_approve in Ha. cbv zeta in Ha.
    destruct (if wfe_approval_present _ _ _ _ _ _ _ then _ else _) as [rc s1] eqn:Hrec.
    assert (rows s1 = rows s) as H1.
    { destruct (wfe_approval_present _ _ _ _ _ _ _); [by injection Hrec as _ <-|].
      unfold wfe_approval_record in Hrec. cbv zeta in Hrec.
      destruct (wfe_approval_sign _ _ _ _ _ _ _) as [sig|]; [|by injection Hrec as _ <-].
      unfold db1_lifecycle_event_add in Hrec. destruct (bool_decide _); apply (f_equal snd) in Hrec;
        cbn [snd] in Hrec; by subst s1. }
    destruct (negb (rc =? 0)); [by injection Ha as _ _ <-|].
    destruct (workItemGateApply _ _ _ _ _ _) as [g s2] eqn:Hg.
    apply gate_apply_cases in Hg as [[-> ->]|(-> & _)]; [|discriminate].
    cbn [Z.ltb Z.eqb Z.compare] in Ha. by injection Ha as _ <-.
  - unfold gate_reject in Hr. cbv zeta in Hr.
    destruct (workItemGateApply _ _ _ _ _ _) as [g s2] eqn:Hg.
    apply gate_apply_cases in Hg as [[-> ->]|(-> & _)]; [|discriminate]. by injection Hr as _ _ <-.
Qed.

(** ** The properties at concrete inputs *)

(** Two request bodies, and the details of recorded approvals. *)
Definition body_parse (l : bytes) : option json :=
  if bytes_eqb l (str "approve") || bytes_eqb l (str "reject") then
    Some (JObject [(str "decision", JString l)])
  else detail_parse l.

Lemma body_parse_ok : parses_details body_parse.
Proof. intros ts sig Hts Hsig. rewrite <- (detail_parse_ok ts sig) by done. reflexivity. Qed.

Definition gate_row : db1_work_item_t :=
  {| wi_repo := []; wi_proposal_path := []; wi_workflow_name := str "demo"; wi_workflow_version := [];
     wi_current_stage := str "r"; wi_state := str "active"; wi_mode := str "interactive";
     wi_pause_reason := str "pending_human"; wi_paused_state := str "r"; wi_content_hash := str "ab";
     wi_pr_ref := []; wi_parent_id := []; wi_cum_cost_usd := d_zero; wi_max_cost_usd := d_zero |}.

Definition log_event (kind : string) : db1_lifecycle_event_t :=
  {| ev_work_item_id := str "wi_1"; ev_stage := str "r"; ev_kind := str kind; ev_actor := str "op";
     ev_detail := []; ev_content_hash := []; ev_cost_usd := d_zero |}.

Definition gate_db (evs : list db1_lifecycle_event_t) : db :=
  {| rows := {[ str "wi_1" := gate_row ]}; events := evs; attempts := ∅ |}.

(** One decision on the example workflow, parked at its review. *)
Definition demo_gate (decision : string) (s : db) : gate_reply * db :=
  rh_workflow_gate (fun _ => Some demo_def) body_parse true demo_key (Some (str "op")) (fun s => s)
    (str "wi_1") (Some (str decision)) s.

(** Beyond the bound the budget of a gate no longer holds: with 512
    events before them, the rejections that were already made are not counted,
    and a fourth, like every later one, sends the run back again. *)
Theorem gate_retries_lost :
  let s := gate_db (replicate 512 (log_event "note") ++ replicate 3 (log_event "reject_retry"))%list in
  let '(r, s') := demo_gate "reject" s in
  r = GR_ok (str "reject_retry") /\ retries_of (str "wi_1") (str "r") (events s') = 4%nat.
Proof. vm_compute. done. Qed.

(** A panel in the place of the review. *)
Definition panel_def : wfe_def_t :=
  {| d_name := str "demo"; d_start := str "r"; d_version := []; d_enforced := false;
     d_nodes := [demo_node "r" WFE_BLK_GATE_ROUNDTABLE [] None "" "" ""] |}.

(** Whether a gate is a panel's is asked of the workflow as it loads now: when
    it does not load, the approval that would be refused goes through. *)
Theorem panel_passed_unloaded :
  let approve lw := fst (rh_workflow_gate lw body_parse true demo_key (Some (str "op")) (fun s => s)
                           (str "wi_1") (Some (str "approve")) (gate_db [])) in
  approve (fun _ => Some panel_def) = GR_err 409 GE_roundtable
  /\ approve (fun _ => None) = GR_ok (str "approve").
Proof. split; vm_compute; reflexivity. Qed.

Lemma gate_approve_signed_witness :
  let c := demo_gate "approve" (gate_db []) in
  (true = true -> approval_logged body_parse demo_key (str "wi_1") gate_row (events (snd c)))
  /\ ~ at_panel (fun _ => Some demo_def) gate_row.
Proof.
  intros c.
  apply (gate_approve_signed (fun _ => Some demo_def) body_parse true demo_key (Some (str "op")) (fun s => s)
           (str "wi_1") (Some (str "approve")) (gate_db []) (snd c) gate_row).
  - apply body_parse_ok.
  - by intros s.
  - split; [cbn; lia | cbn; lia |]. cbn. repeat (apply Forall_cons; split; [unfold plain_char; lia|]).
    apply Forall_nil_2.
  - cbn. lia.
  - done.
  - vm_compute. reflexivity.
Defined.

Lemma gate_retries_bounded_witness :
  let s := gate_db (replicate 3 (log_event "reject_retry")) in
  let c := demo_gate "reject" s in
  fst c = GR_ok (str "reject")
  /\ Z.of_nat (retries_of (str "wi_1") (str "r") (events (snd c))) <= GATE_MAX_REJECT_RETRIES.
Proof.
  intros s c. split; [vm_compute; reflexivity|].
  apply (gate_retries_bounded (fun _ => Some demo_def) body_parse true demo_key (Some (str "op"))
           (str "wi_1") (Some (str "reject")) s (fst c) (snd c) (events s) (str "r"));
    [vm_compute; reflexivity | vm_compute; lia | vm_compute; done | vm_compute; reflexivity].
Defined.

Lemma gate_error_keeps_rows_witness :
  let c := demo_gate "postpone" (gate_db []) in
  fst c = GR_err 400 GE_bad_decision /\ rows (snd c) = rows (gate_db []).
Proof.
  intros c. split; [vm_compute; reflexivity|].
  apply (gate_error_keeps_rows (fun _ => Some demo_def) body_parse true demo_key (Some (str "op"))
           (str "wi_1") (Some (str "postpone")) (gate_db []) 400 GE_bad_decision (snd c)).
  vm_compute. reflexivity.
Defined.

End WfeGate.
