(* ===== verification/WfeBinding.v ===== *)
(** * Sessions bound to work items ([db1_client/workflow.c],
    [families/workflow_roadmap.go])

    The table of bindings, the statements the store runs on it, and the C
    client in front of them.  The client takes its output buffers as pointers
    that may be null: a buffer is an [option] of its size.

    The header documents a contract of four parts: a lookup accepts a missing
    output buffer, a bind answers 0 on success, an item is bound to one session
    at most, and re-binding keeps the stage of the row.  [documented_get]
    is the lookup of that contract, kept beside the client's [client_get] to
    show what the difference does; the guards are proved of any lookup. *)

From Stdlib Require Import ZArith Lia String Ascii.
From stdpp Require Import base numbers option list countable gmap fin_maps.
From S2P Require Import Prelude.

Open Scope string_scope.
Open Scope Z_scope.

Module WfeBinding.

Record binding := {
  b_work_item : bytes;
  b_stage : bytes;
  b_lease : option Z; (* expiry, [None] for no lease *)
}.

Abbreviation table := (gmap bytes binding).

(** ** The statements *)

(** An upsert; the answer is whether the row is new. *)
Definition wfeBind (session work_item stage : bytes) (t : table) : bool * table :=
  let stage := if bool_decide (stage = []) then str "off" else stage in
  match t !! session with
  | None => (true, <[session := {| b_work_item := work_item; b_stage := stage; b_lease := None |}]> t)
  | Some b => (false, <[session := {| b_work_item := work_item; b_stage := stage; b_lease := b_lease b |}]> t)
  end.

Definition wfeLeaseRenew (now : Z) (session : bytes) (ttl : Z) (t : table) : bool * table :=
  match t !! session with
  | None => (false, t)
  | Some b =>
      (true, <[session := {| b_work_item := b_work_item b; b_stage := b_stage b;
                             b_lease := if ttl =? 0 then None else Some (now + ttl) |}]> t)
  end.

Definition lease_stale (now : Z) (b : binding) : bool :=
  match b_lease b with Some e => e <? now | None => false end.

(** Clears the leases that ran out and says how many. *)
Definition wfeLeaseReclaimStale (now : Z) (t : table) : Z * table :=
  (Z.of_nat (size (filter (fun kv => lease_stale now kv.2 = true) t)),
   (fun b => if lease_stale now b then
               {| b_work_item := b_work_item b; b_stage := b_stage b; b_lease := None |}
             else b) <$> t).

(** ** The client *)

Definition db1_wfe_bind (session work_item stage : bytes) (t : table) : Z * table :=
  if bool_decide (session = []) || bool_decide (work_item = []) then (-1, t)
  else let '(inserted, t') := wfeBind session work_item stage t in
       (if inserted then 1 else 0, t').

(** The answer of a lookup: -1, 0, or 1 with what was written. *)
Inductive binding_answer := BG_error | BG_none | BG_bound (wi stage : bytes).

(** A value that does not fit its buffer is an error. *)
Definition db1_wfe_binding_get (session : bytes) (wi_n stage_n : option nat) (t : table)
    : binding_answer :=
  match session, wi_n, stage_n with
  | _ :: _, Some (S wn), Some (S sn) =>
      match t !! session with
      | None => BG_none
      | Some b =>
          if (S wn <=? length (b_work_item b))%nat || (S sn <=? length (b_stage b))%nat then BG_error
          else BG_bound (b_work_item b) (b_stage b)
      end
  | _, _, _ => BG_error
  end.

Definition db1_wfe_lease_renew (now : Z) (session : bytes) (ttl : Z) (t : table) : Z * table :=
  if bool_decide (session = []) then (-1, t)
  else let '(touched, t') := wfeLeaseRenew now session ttl t in
       (if touched then 0 else -1, t').

(** ** The documented lookup *)

(** The lookup the header describes, with an item buffer of 80 bytes: an
    absent stage buffer is accepted and then nothing is written to it. *)
Definition documented_get (t : table) (session : bytes) (stage_n : option nat) : binding_answer :=
  match session, t !! session with
  | [], _ => BG_error
  | _, None => BG_none
  | _, Some b =>
      if (80 <=? length (b_work_item b))%nat then BG_error
      else match stage_n with
           | None => BG_bound (b_work_item b) []
           | Some n => if (n <=? length (b_stage b))%nat then BG_error
                       else BG_bound (b_work_item b) (b_stage b)
           end
  end.

(** The client's lookup with an item buffer of 80 bytes. *)
Definition client_get (t : table) (session : bytes) (stage_n : option nat) : binding_answer :=
  db1_wfe_binding_get session (Some 80%nat) stage_n t.

(** Without a stage buffer the client answers an error, bound or not. *)
Lemma client_get_no_stage t session : client_get t session None = BG_error.
Proof. unfold client_get, db1_wfe_binding_get. by destruct session. Qed.

(** ** Binding *)

(** A bind always leaves the session bound to that item with the stage
    asked for, the lease of the row kept; a repeated bind answers 0, a first
    one answers 1, and no other session is touched.  So a first bind, which
    succeeds, does not answer the documented 0; an item can be bound to two
    sessions; and re-binding replaces the stage of the row. *)
Theorem bind_effect session work_item stage t rc t' :
  session <> [] -> work_item <> [] -> stage <> [] ->
  db1_wfe_bind session work_item stage t = (rc, t') ->
  (exists b, t' !! session = Some b /\ b_work_item b = work_item /\ b_stage b = stage
     /\ b_lease b = (t !! session) ≫= b_lease)
  /\ (forall other, other <> session -> t' !! other = t !! other)
  /\ (rc = 1 <-> t !! session = None) /\ (rc = 0 <-> t !! session <> None).
Proof.
  intros Hs Hw Hst. unfold db1_wfe_bind, wfeBind.
  rewrite (bool_decide_eq_false_2 _ Hs), (bool_decide_eq_false_2 _ Hw), (bool_decide_eq_false_2 _ Hst).
  cbn [orb]. destruct (t !! session) as [b|] eqn:Ht; intros [= <- <-]; split_and!;
    try (intros; by rewrite lookup_insert_ne by done); try naive_solver;
    rewrite lookup_insert_eq; by eexists.
Qed.

Lemma bind_effect_witness :
  let c := db1_wfe_bind (str "s2") (str "wi_1") (str "soft")
             {[ str "s1" := {| b_work_item := str "wi_1"; b_stage := str "hard"; b_lease := None |} ]} in
  fst c = 1
  /\ (forall other, other <> str "s2" -> snd c !! other
      = ({[ str "s1" := {| b_work_item := str "wi_1"; b_stage := str "hard"; b_lease := None |} ]} : table) !! other).
Proof.
  intros c. split; [vm_compute; reflexivity|].
  apply (bind_effect (str "s2") (str "wi_1") (str "soft")
    {[ str "s1" := {| b_work_item := str "wi_1"; b_stage := str "hard"; b_lease := None |} ]} 1 (snd c));
    [done..|vm_compute; reflexivity].
Defined.

(** Reclaiming never removes a binding: it clears leases. *)
Lemma reclaim_keeps_bindings now t session :
  b_work_item <$> snd (wfeLeaseReclaimStale now t) !! session = b_work_item <$> t !! session.
Proof.
  unfold wfeLeaseReclaimStale. cbn [snd]. rewrite lookup_fmap.
  destruct (t !! session) as [b|]; [|done]. cbn. by destruct (lease_stale now b).
Qed.

End WfeBinding.
