(* ===== verification/ToolEgress.v ===== *)
(** * Which tools leave the trust boundary ([tool_egress.c],
    [wfe_externalization.c], [server/agent_tools.c])

    Every built-in tool declares its egress in a table, compared with the real
    tool table when the server starts; tools of other MCP servers count as
    external, and two name lists remain for the rest.  The declaration table
    is an argument of its lookups, [TOOLS] being the one of the source.

    Shown: the start-up check passes exactly on tables that cover each other
    one to one, and it passes on the tables of the source; what the denylist
    answers for a tool of an MCP server; that a tool that marks work as
    delivered need not be on the denylist, although it is documented to be. *)

From Stdlib Require Import ZArith Lia String Ascii.
From stdpp Require Import base numbers option list.
From S2P Require Import Prelude Checks Json.

Open Scope string_scope.
Open Scope Z_scope.

Module ToolEgress.

(** ** Case-insensitive text *)

(** [tolower] in the C locale. *)
Fixpoint eq_ci (a b : bytes) : bool :=
  match a, b with
  | [], [] => true
  | c :: a, d :: b => if ascii_lower c =? ascii_lower d then eq_ci a b else false
  | _, _ => false
  end.

(** The loop [while (i < nl && p[i] && tolower(p[i]) == needle[i])]: the
    needle is a prefix, up to case; the needle is lower case. *)
Fixpoint prefix_ci (p needle : bytes) {struct needle} : bool :=
  match needle, p with
  | [], _ => true
  | n :: needle, c :: p => if ascii_lower c =? n then prefix_ci p needle else false
  | _, [] => false
  end.

Fixpoint has_ci_from (hay needle : bytes) : bool :=
  match hay with
  | [] => false
  | c :: rest => if prefix_ci (c :: rest) needle then true else has_ci_from rest needle
  end.

Definition has_ci (hay needle : bytes) : bool :=
  match needle with [] => false | _ => has_ci_from hay needle end.

(** ** The declarations *)

Inductive tool_egress_t :=
  | TOOL_EGRESS_UNSET | TOOL_EGRESS_NONE | TOOL_EGRESS_EXTERNAL | TOOL_EGRESS_COMMAND.

#[export] Instance tool_egress_eq_dec : EqDecision tool_egress_t.
Proof. solve_decision. Defined.

Record egress_entry_t := {
  e_name : bytes;
  e_cls : tool_egress_t;
  e_canonical : option bytes;
}.

Definition declare (cls : tool_egress_t) (name : string) : egress_entry_t :=
  {| e_name := str name; e_cls := cls; e_canonical := None |}.

Definition alias (cls : tool_egress_t) (name canonical : string) : egress_entry_t :=
  {| e_name := str name; e_cls := cls; e_canonical := Some (str canonical) |}.

Definition TOOLS : list egress_entry_t :=
  (map (declare TOOL_EGRESS_COMMAND)
     ["bash"; "execute_script"; "verify"; "test"; "run_tests"; "run_background_process"]
   ++ [declare TOOL_EGRESS_EXTERNAL "web_read"; alias TOOL_EGRESS_EXTERNAL "webread" "web_read";
       declare TOOL_EGRESS_EXTERNAL "web_search"; alias TOOL_EGRESS_EXTERNAL "websearch" "web_search";
       declare TOOL_EGRESS_EXTERNAL "git_push"; declare TOOL_EGRESS_EXTERNAL "git_pr"]
   ++ map (declare TOOL_EGRESS_NONE)
        ["request_input"; "read_file"; "write_file"; "edit_file"; "list_files"; "grep";
         "tool_output_get"; "env_get"; "git_log"; "git_diff"; "git_status"; "git_branch"; "git_commit";
         "code_search"; "find_symbol"; "context_contract_expand"; "read_symbol"; "edit_symbol";
         "create_note"; "list_notes"; "search_notes"; "search_docs"; "search_memory";
         "get_background_output"; "kill_background_process"; "list_background_processes"])%list.

Section Table.
Context (tools : list egress_entry_t).

Definition tool_egress_for (tool_name : bytes) : tool_egress_t :=
  match tool_name with
  | [] => TOOL_EGRESS_UNSET
  | _ => match list_find (fun e => eq_ci tool_name (e_name e) = true) tools with
         | Some (_, e) => e_cls e
         | None => TOOL_EGRESS_UNSET
         end
  end.

Definition tool_egress_is_external (tool_name : bytes) : bool :=
  bool_decide (tool_egress_for tool_name = TOOL_EGRESS_EXTERNAL).

Definition tool_egress_count : Z := Z.of_nat (length tools).

(** [tools[index]], for the accessors below. *)
Definition entry_at (index : Z) : option egress_entry_t :=
  if (index <? 0) || (tool_egress_count <=? index) then None else tools !! Z.to_nat index.

Definition tool_egress_name_at (index : Z) : option bytes := e_name <$> entry_at index.

Definition tool_egress_class_at (index : Z) : tool_egress_t :=
  match entry_at index with Some e => e_cls e | None => TOOL_EGRESS_UNSET end.

Definition tool_egress_canonical_at (index : Z) : option bytes := entry_at index ≫= e_canonical.

Definition tool_egress_is_alias_at (index : Z) : bool := bool_decide (is_Some (tool_egress_canonical_at index)).

(** ** The start-up check *)

Inductive egress_error :=
  | EG_undeclared (name : bytes) | EG_tool_twice (name : bytes) | EG_declared_twice (name : bytes)
  | EG_alias_dangling (name canon : bytes) | EG_alias_disagrees (name canon : bytes)
  | EG_stale (name : bytes).

(** Loop 1 and 2 over the built-in names. *)
Fixpoint check_builtins (names : list bytes) : option egress_error :=
  match names with
  | [] => None
  | name :: rest =>
      refuse (bool_decide (tool_egress_for name = TOOL_EGRESS_UNSET)) (EG_undeclared name)
      ;! refuse (existsb (eq_ci name) rest) (EG_tool_twice name)
      ;! check_builtins rest
  end%check.

(** Loop 3 over the declarations. *)
Definition check_declarations : option egress_error :=
  first_pair (fun e e' => refuse (eq_ci (e_name e) (e_name e')) (EG_declared_twice (e_name e))) tools.

(** Loop 4: an alias resolves to a canonical entry of its class, a canonical
    entry to a built-in. *)
Definition check_entry (builtins : list bytes) (e : egress_entry_t) : option egress_error :=
  match e_canonical e with
  | Some canon =>
      match list_find (fun t => eq_ci canon (e_name t) = true /\ e_canonical t = None) tools with
      | None => Some (EG_alias_dangling (e_name e) canon)
      | Some (_, t) => refuse (negb (bool_decide (e_cls t = e_cls e))) (EG_alias_disagrees (e_name e) canon)
      end
  | None => refuse (negb (existsb (eq_ci (e_name e)) builtins)) (EG_stale (e_name e))
  end.

Definition agent_tools_validate_egress_table (builtins : list bytes) : option egress_error :=
  (check_builtins builtins ;! check_declarations ;! first_of (check_entry builtins) tools)%check.
End Table.

(** The names of [g_builtin_tools]. *)
Definition g_builtin_tools : list bytes := map str
  ["request_input"; "bash"; "execute_script"; "read_file"; "tool_output_get"; "write_file"; "edit_file";
   "list_files"; "verify"; "git_log"; "grep"; "git_diff"; "git_status"; "git_commit"; "git_push";
   "git_branch"; "git_pr"; "env_get"; "test"; "code_search"; "web_search"; "web_read"; "create_note";
   "list_notes"; "search_notes"; "run_background_process"; "get_background_output";
   "kill_background_process"; "list_background_processes"; "search_docs"; "context_contract_expand";
   "find_symbol"; "read_symbol"; "edit_symbol"; "run_tests"; "search_memory"].

Definition tool_egress_class_name (cls : tool_egress_t) : bytes :=
  match cls with
  | TOOL_EGRESS_NONE => str "none" | TOOL_EGRESS_EXTERNAL => str "external"
  | TOOL_EGRESS_COMMAND => str "command" | TOOL_EGRESS_UNSET => str "unset"
  end.

(** ** The denylists *)

Definition DENY_EXACT : list bytes := map str
  ["pr.open"; "pr_open"; "propose_pr"; "open_pr"; "merge"; "pr.merge"; "git_push"; "git-push"; "push";
   "gh_pr"; "web_fetch"; "webfetch"; "fetch"; "http"; "http_request"; "web_read"; "webread"; "curl";
   "wget"; "send_email"; "email"; "notify"; "notification"; "slack"; "post_comment"; "comment"].

Definition DENY_SUBSTR : list bytes := map str
  ["push"; "create_pull"; "pull_request"; "merge"; "publish"; "deploy"; "release"; "upload"; "egress";
   "outbound"; "webhook"; "notify"].

(** [strncasecmp(s, p, strlen(p)) == 0] for a lower-case [p]. *)
Definition strncasecmp_prefix (s p : bytes) : bool := prefix_ci s p.

Definition is_third_party_mcp_tool (tool_name : bytes) : bool :=
  if negb (strncasecmp_prefix tool_name (str "mcp__")) then false
  else if strcasecmp_eq tool_name (str "mcp__aimee") then false
  else if strncasecmp_prefix tool_name (str "mcp__aimee__") then false
  else true.

Definition wfe_is_externalization_tool (tool_name : bytes) : bool :=
  match tool_name with
  | [] => false
  | _ =>
      if tool_egress_is_external TOOLS tool_name then true
      else if is_third_party_mcp_tool tool_name then true
      else if existsb (eq_ci tool_name) DENY_EXACT then true
      else existsb (has_ci tool_name) DENY_SUBSTR
  end.

Definition wfe_externalization_tool_permitted (tool_name : option bytes) (delivered : bool) : bool :=
  if delivered then true
  else match tool_name with
       | None => false
       | Some t => negb (wfe_is_externalization_tool t)
       end.

Definition DELIVER_EXACT : list bytes := map str
  ["pr.open"; "pr_open"; "open_pr"; "propose_pr"; "pr.merge"; "merge"; "gh_pr"; "accept"; "mark_done";
   "mark-done"; "deploy"; "publish"; "release"; "tag"; "close_issue"; "issue_close"].

Definition DELIVER_SUBSTR : list bytes := map str
  ["create_pull"; "pull_request"; "merge"; "publish"; "deploy"; "release"].

Definition wfe_is_deliver_primitive (tool_name : bytes) : bool :=
  match tool_name with
  | [] => false
  | _ => if existsb (eq_ci tool_name) DELIVER_EXACT then true
         else existsb (has_ci tool_name) DELIVER_SUBSTR
  end.

(** ** Text up to case *)

Definition lower : bytes -> bytes := map ascii_lower.

Lemma eq_ci_iff a b : eq_ci a b = true <-> lower a = lower b.
Proof.
  revert b. induction a as [|c a IH]; intros [|d b]; cbn; try done.
  destruct (Z.eqb_spec (ascii_lower c) (ascii_lower d)) as [E|E].
  - rewrite IH, E. split; congruence.
  - split; [done | congruence].
Qed.

Lemma eq_ci_refl a : eq_ci a a = true.
Proof. by apply eq_ci_iff. Qed.

Lemma eq_ci_sym a b : eq_ci a b = eq_ci b a.
Proof. apply eq_true_iff_eq. rewrite !eq_ci_iff. done. Qed.

Lemma prefix_ci_iff p n : prefix_ci p n = true <-> exists a b, (p = a ++ b)%list /\ lower a = n.
Proof.
  revert p. induction n as [|x n IH]; intros p.
  - split; [intros _; exists [], p; done | done].
  - destruct p as [|c p]; cbn [prefix_ci].
    + split; [done|]. intros ([|??] & b & Hp & Ha); done.
    + destruct (Z.eqb_spec (ascii_lower c) x) as [<-|E].
      * rewrite IH. split.
        -- intros (a & b & -> & <-). by exists (c :: a), b.
        -- intros ([|d a] & b & Hp & Ha); simplify_eq/=. eauto.
      * split; [done|]. intros ([|d a] & b & Hp & Ha); simplify_eq/=.
Qed.

Lemma has_ci_iff hay n :
  has_ci hay n = true <-> n <> [] /\ exists a b c, (hay = a ++ b ++ c)%list /\ lower b = n.
Proof.
  unfold has_ci. destruct n as [|x n]; [split; [done | by intros []]|].
  trans (exists a b c, (hay = a ++ b ++ c)%list /\ lower b = x :: n); [|naive_solver].
  induction hay as [|h hay IH]; cbn [has_ci_from].
  - split; [done|]. intros ([|??] & [|??] & c & Hh & Hb); done.
  - destruct (prefix_ci (h :: hay) (x :: n)) eqn:Hp.
    + split; [intros _ | done]. apply prefix_ci_iff in Hp as (b & c & Hh & Hb). by exists [], b, c.
    + rewrite IH. split.
      * intros (a & b & c & -> & Hb). by exists (h :: a), b, c.
      * intros ([|h' a] & b & c & Hh & Hb).
        -- rewrite (proj2 (prefix_ci_iff _ _)) in Hp; [done|]. by exists b, c.
        -- simplify_eq/=. eauto.
Qed.

(** ** What the start-up check guarantees *)

Section Coverage.
Context (tools : list egress_entry_t) (builtins : list bytes).

Record covers : Prop := {
  cv_declared : forall b, b ∈ builtins -> tool_egress_for tools b <> TOOL_EGRESS_UNSET;
  cv_tools_once : NoDup (lower <$> builtins);
  cv_entries_once : NoDup ((fun e => lower (e_name e)) <$> tools);
  cv_alias : forall e c, e ∈ tools -> e_canonical e = Some c ->
    exists t, t ∈ tools /\ lower (e_name t) = lower c /\ e_canonical t = None /\ e_cls t = e_cls e;
  cv_registered : forall e, e ∈ tools -> e_canonical e = None ->
    exists b, b ∈ builtins /\ lower b = lower (e_name e);
}.

Lemma existsb_ci name l : existsb (eq_ci name) l = true <-> exists b, b ∈ l /\ lower b = lower name.
Proof.
  rewrite existsb_exists. setoid_rewrite eq_ci_iff. setoid_rewrite <- list_elem_of_In.
  naive_solver.
Qed.

Lemma check_builtins_iff l :
  check_builtins tools l = None <->
  (forall b, b ∈ l -> tool_egress_for tools b <> TOOL_EGRESS_UNSET) /\ NoDup (lower <$> l).
Proof.
  induction l as [|b l IH]; cbn [check_builtins].
  { split; [intros _; split; [intros b Hb; by apply elem_of_nil in Hb | constructor] | done]. }
  checks. rewrite IH, bool_decide_eq_false, <- not_true_iff_false, existsb_ci.
  setoid_rewrite elem_of_cons. rewrite fmap_cons, NoDup_cons, list_elem_of_fmap. split.
  - intros (Hb & Hd & Hl & Hn). split_and!; [naive_solver | | done].
    intros (y & Hy & Hyl). apply Hd. eauto.
  - intros (Hb & Hd & Hn). split_and!; [naive_solver | | naive_solver | done].
    intros (y & Hyl & Hy). apply Hd. eauto.
Qed.

Lemma check_declarations_iff :
  check_declarations tools = None <-> NoDup ((fun e => lower (e_name e)) <$> tools).
Proof.
  unfold check_declarations. rewrite <- (first_pair_NoDup (fun e => lower (e_name e))
    (fun e _ => EG_declared_twice (e_name e))).
  rewrite !first_pair_none. setoid_rewrite refuse_none. setoid_rewrite bool_decide_eq_false.
  setoid_rewrite <- not_true_iff_false. setoid_rewrite eq_ci_iff. done.
Qed.

Lemma check_entry_iff e :
  NoDup ((fun e => lower (e_name e)) <$> tools) ->
  check_entry tools builtins e = None <->
  (forall c, e_canonical e = Some c ->
     exists t, t ∈ tools /\ lower (e_name t) = lower c /\ e_canonical t = None /\ e_cls t = e_cls e)
  /\ (e_canonical e = None -> exists b, b ∈ builtins /\ lower b = lower (e_name e)).
Proof.
  intros Hnd. unfold check_entry. destruct (e_canonical e) as [c|].
  - destruct (list_find _ tools) as [[i t]|] eqn:Hf.
    + apply list_find_Some in Hf as (Ht & [Hc Hcan] & _). apply eq_ci_iff in Hc.
      rewrite refuse_none, negb_false_iff, bool_decide_eq_true. split.
      * intros Hcls. split; [|done]. intros c' [= <-]. exists t.
        split; [by eapply list_elem_of_lookup_2 | done].
      * intros [H _]. destruct (H c eq_refl) as (t' & [j Hj]%list_elem_of_lookup & Hn & _ & <-).
        assert (i = j) as <-; [|by simplify_eq].
        apply (proj1 (NoDup_alt _) Hnd i j (lower c)); rewrite list_lookup_fmap.
        -- rewrite Ht. simpl. by rewrite Hc.
        -- rewrite Hj. simpl. by rewrite Hn.
    + split; [done|]. intros [H _]. destruct (H c eq_refl) as (t & Ht & Hn & Hcan & _).
      apply list_find_None in Hf. rewrite Forall_forall in Hf. destruct (Hf t Ht).
      split; [by apply eq_ci_iff | done].
  - rewrite refuse_none, negb_false_iff, existsb_ci. naive_solver.
Qed.

Lemma egress_check_spec : agent_tools_validate_egress_table tools builtins = None <-> covers.
Proof.
  unfold agent_tools_validate_egress_table. checks.
  rewrite check_builtins_iff, check_declarations_iff, first_of_none. split.
  - intros ((? & ?) & Hnd & He). split; [done..| |];
      intros e; [intros c|]; intros Hin; destruct (proj1 (check_entry_iff e Hnd) (He e Hin)); eauto.
  - intros [? ? Hnd Ha Hr]. split_and!; [done..|]. intros e Hin. apply check_entry_iff; [done|].
    split; [intros c; by apply Ha | by apply Hr].
Qed.
End Coverage.

(** The start-up check passes exactly when the tool table and the
    declarations cover each other: every built-in resolves to a class, no name
    occurs twice up to case in either table, an alias resolves to a canonical
    entry of the same class and a canonical entry to a built-in.  The tables
    of the source pass it. *)
Theorem egress_check_iff tools builtins :
  (agent_tools_validate_egress_table tools builtins = None <-> covers tools builtins)
  /\ agent_tools_validate_egress_table TOOLS g_builtin_tools = None.
Proof. split; [apply egress_check_spec | vm_compute; reflexivity]. Qed.

(** The check does not ask that a built-in has a canonical entry: an alias of
    another tool will do, although it is said never to stand in for one. *)
Lemma alias_stands_in :
  let tools := [declare TOOL_EGRESS_EXTERNAL "web_read"; alias TOOL_EGRESS_EXTERNAL "webread" "web_read"] in
  agent_tools_validate_egress_table tools [str "web_read"; str "webread"] = None
  /\ (forall e, e ∈ tools -> e_name e = str "webread" -> e_canonical e <> None).
Proof.
  split; [vm_compute; reflexivity|]. intros e He. apply list_elem_of_In in He as [<-|[<-|[]]]; by intros [=].
Qed.

(** ** Tools of other servers *)

Lemma lower_idemp l : lower (lower l) = lower l.
Proof.
  induction l as [|c l IH]; [done|]. unfold lower in *. cbn [map]. rewrite IH. f_equal.
  unfold ascii_lower. destruct ((65 <=? c) && (c <=? 90)) eqn:E; [|by rewrite E].
  bool_to_prop. destruct ((65 <=? c + 32) && (c + 32 <=? 90)) eqn:F; [bool_to_prop; lia | done].
Qed.

Lemma lower_app a b : lower (a ++ b)%list = (lower a ++ lower b)%list.
Proof. apply map_app. Qed.

Lemma lower_underscore l : 95 ∈ lower l -> 95 ∈ l.
Proof.
  unfold lower. intros H. apply list_elem_of_In, in_map_iff in H as (c & Hc & Hin).
  apply list_elem_of_In. unfold ascii_lower in Hc.
  destruct ((65 <=? c) && (c <=? 90)) eqn:E; bool_to_prop; [lia | by subst].
Qed.

(** A text without underscores before its first [_] is determined. *)
Lemma underscore_split a b r r' :
  (95 ∉ a) -> (95 ∉ b) -> (a ++ 95 :: r = b ++ 95 :: r')%list -> a = b.
Proof.
  revert b. induction a as [|c a IH]; intros [|d b] Ha Hb E; simplify_eq/=; [done|..].
  - exfalso. apply Hb. left.
  - exfalso. apply Ha. left.
  - f_equal. apply (IH b); [intros H; apply Ha; by right | intros H; apply Hb; by right | done].
Qed.

Lemma aimee_plain : 95 ∉ str "aimee".
Proof. apply (bool_decide_unpack _). vm_compute. exact I. Qed.

Lemma third_party_mcp server tool :
  (95 ∉ server) -> lower server <> str "aimee" ->
  is_third_party_mcp_tool (str "mcp__" ++ server ++ str "__" ++ tool)%list = true.
Proof.
  intros Hs Ha. unfold is_third_party_mcp_tool, strncasecmp_prefix.
  set (t := (str "mcp__" ++ server ++ str "__" ++ tool)%list).
  assert (lower t = str "mcp__" ++ lower server ++ [95; 95] ++ lower tool)%list as Ht
    by (unfold t; by rewrite !lower_app).
  assert (95 ∉ lower server) as Hs' by (intros H; by apply Hs, lower_underscore).
  rewrite (proj2 (prefix_ci_iff t (str "mcp__")));
    [|exists (str "mcp__"), (server ++ str "__" ++ tool)%list; done]. cbn [negb].
  destruct (strcasecmp_eq t (str "mcp__aimee")) eqn:E1.
  { exfalso. unfold strcasecmp_eq in E1. apply bytes_eqb_true in E1. fold (lower t) in E1. rewrite Ht in E1.
    change (map ascii_lower (str "mcp__aimee")) with (str "mcp__" ++ str "aimee")%list in E1.
    apply app_inv_head in E1.
    assert (95 ∈ str "aimee") as H95; [|by apply aimee_plain].
    rewrite <- E1. apply elem_of_app. right. left. }
  destruct (prefix_ci t (str "mcp__aimee__")) eqn:E2; [|done]. exfalso.
  apply prefix_ci_iff in E2 as (a & b & Hab & Hl).
  assert (lower t = str "mcp__" ++ str "aimee" ++ [95; 95] ++ lower b)%list as Ht'
    by (rewrite Hab, lower_app, Hl; done).
  rewrite Ht in Ht'. apply app_inv_head in Ht'. apply Ha.
  apply (underscore_split _ _ (95 :: lower tool)%list (95 :: lower b)%list); [done| |done].
  apply aimee_plain.
Qed.

(** Before delivery no tool of another MCP server is permitted, whatever
    its name: a server is exempt only when its name is [aimee], up to case. *)
Theorem third_party_denied server tool :
  (95 ∉ server) -> lower server <> str "aimee" ->
  wfe_externalization_tool_permitted
    (Some (str "mcp__" ++ server ++ str "__" ++ tool)%list) false = false.
Proof.
  intros Hs Ha. cbn [wfe_externalization_tool_permitted]. apply negb_false_iff.
  unfold wfe_is_externalization_tool. rewrite (third_party_mcp server tool Hs Ha).
  cbn [str app]. by destruct (tool_egress_is_external _ _).
Qed.

Lemma third_party_denied_witness :
  wfe_externalization_tool_permitted (Some (str "mcp__files__read")) false = false.
Proof.
  by apply (third_party_denied (str "files") (str "read"));
    [apply (bool_decide_unpack _); vm_compute; exact I | vm_compute].
Defined.

(** A server may opt out with an underscore in its name. *)
Lemma aimee_prefix_exempt :
  wfe_externalization_tool_permitted (Some (str "mcp__aimee__evil__exfiltrate")) false = true.
Proof. vm_compute. reflexivity. Qed.

(** ** Delivery *)

(** A tool that marks work as delivered is denied before delivery,
    except for six names on the delivery list that the denylist lacks. *)
Theorem deliver_denied_or_listed t :
  wfe_is_deliver_primitive t = true ->
  wfe_is_externalization_tool t = true
  \/ lower t ∈ map str ["accept"; "mark_done"; "mark-done"; "tag"; "close_issue"; "issue_close"].
Proof.
  unfold wfe_is_deliver_primitive, wfe_is_externalization_tool. destruct t as [|c t]; [done|].
  destruct (tool_egress_is_external _ _); [by left|]. destruct (is_third_party_mcp_tool _); [by left|].
  set (n := c :: t). destruct (existsb (eq_ci n) DELIVER_EXACT) eqn:Hd.
  - intros _. apply existsb_ci in Hd as (b & Hb & Hl).
    destruct (existsb (eq_ci n) DENY_EXACT) eqn:Hx; [by left|].
    destruct (existsb (has_ci n) DENY_SUBSTR) eqn:Hy; [by left|]. right.
    rewrite <- Hl. apply list_elem_of_In. apply list_elem_of_In in Hb.
    assert (forall d, eq_ci n d = true -> In d DENY_EXACT -> False) as HX.
    { intros d Hd Hin. rewrite (proj2 (existsb_exists _ _)) in Hx; [done|]. eauto. }
    assert (forall d, lower n = lower d -> existsb (has_ci d) DENY_SUBSTR = true -> False) as HY.
    { intros d Hd (k & Hk & Hin)%existsb_exists. apply has_ci_iff in Hin as (Hne & x & y & z & Hdx & Hyl).
      rewrite (proj2 (existsb_exists _ _)) in Hy; [done|]. exists k. split; [done|].
      apply has_ci_iff. split; [done|]. rewrite Hdx in Hd. rewrite !lower_app in Hd.
      exists (take (length x) n), (take (length y) (drop (length x) n)),
        (drop (length y) (drop (length x) n)). split; [by rewrite !take_drop|].
      unfold lower in *. rewrite <- firstn_map, <- skipn_map, Hd.
      rewrite drop_app_length', take_app_length'; [done|by rewrite length_map..]. }
    cbn in Hb |- *.
    repeat (destruct Hb as [<-|Hb];
      [first [ exfalso; apply (HX _ (proj2 (eq_ci_iff _ _) (eq_sym Hl))); cbn; tauto
             | exfalso; apply (HY _ (eq_sym Hl)); vm_compute; reflexivity
             | cbn; tauto ]|]). done.
  - intros Hs. left. destruct (existsb (eq_ci n) DENY_EXACT); [done|].
    apply existsb_exists in Hs as (k & Hk & Hin). apply existsb_exists. exists k. split; [|done].
    cbn in Hk |- *. tauto.
Qed.

Lemma deliver_denied_or_listed_witness :
  wfe_is_externalization_tool (str "Auto_Deploy") = true
  \/ lower (str "Auto_Deploy")
     ∈ map str ["accept"; "mark_done"; "mark-done"; "tag"; "close_issue"; "issue_close"].
Proof. apply (deliver_denied_or_listed (str "Auto_Deploy")). vm_compute. reflexivity. Defined.

(** The documented inclusion fails on these. *)
Lemma deliver_not_denied :
  wfe_is_deliver_primitive (str "accept") = true
  /\ wfe_externalization_tool_permitted (Some (str "accept")) false = true.
Proof. vm_compute. done. Qed.

End ToolEgress.
