(* ===== verification/WfeEnforce.v ===== *)
(** * The enforcement of workflows on sessions ([wfe_enforce.c],
    [wfe_block_resolve.c])

    The policy cores (which tools a block leaves to a session, what a failure
    means, the dial of the rollout) and the guard at tool dispatch, which
    resolves a session's block from the store and denies what leaves the trust
    boundary before delivery.  The guard looks up bindings through
    [binding_get], an item buffer of 80 bytes and a stage buffer that may be
    absent: what it does is proved of the answers of any lookup, and of the
    client that exists, which makes it allow everything. *)

From Stdlib Require Import ZArith Lia String Ascii SpecFloat.
From stdpp Require Import base numbers option list countable gmap fin_maps.
From S2P Require Import Prelude Json WfeDef WfeStore WfeBinding ToolEgress.

Open Scope string_scope.
Open Scope Z_scope.

Module WfeEnforce.
Import WfeDef WfeStore WfeBinding ToolEgress.

(** ** Surfaces *)

Inductive wfe_tool_surface_t := WFE_SURFACE_READONLY | WFE_SURFACE_DELEGATE | WFE_SURFACE_FULL.

Definition wfe_block_default_surface (t : wfe_block_type_t) : wfe_tool_surface_t :=
  match t with
  | WFE_BLK_UNDERSTAND | WFE_BLK_SPLIT | WFE_BLK_REVIEW | WFE_BLK_FREEZE | WFE_BLK_GATE_ROUNDTABLE
  | WFE_BLK_GATE_HUMAN | WFE_BLK_GATE_CI | WFE_BLK_CHECK_MERGEABLE | WFE_BLK_GATE_DELIVER =>
      WFE_SURFACE_READONLY
  | WFE_BLK_IMPLEMENT | WFE_BLK_DOCUMENT => WFE_SURFACE_DELEGATE
  | _ => WFE_SURFACE_FULL
  end.

Definition wfe_is_write_tool (t : bytes) : bool :=
  match t with
  | [] => false
  | _ =>
      if existsb (eq_ci t) (map str ["Edit"; "Write"; "NotebookEdit"; "MultiEdit"; "str_replace";
                                     "apply_patch"; "patch"]) then true
      else has_ci t (str "write_file") || has_ci t (str "edit_file") || has_ci t (str "apply_patch")
           || has_ci t (str "create_file")
  end.

Definition wfe_is_delegate_tool (t : bytes) : bool :=
  match t with
  | [] => false
  | _ =>
      if existsb (eq_ci t) (map str ["delegate"; "Task"; "Agent"; "spawn_agent"; "Subagent"]) then true
      else has_ci t (str "delegate") || has_ci t (str "subagent")
  end.

Definition wfe_surface_allows (surface : wfe_tool_surface_t) (tool_name : option bytes) (delivered : bool)
    : bool :=
  match tool_name with
  | None | Some [] => false
  | Some t =>
      if negb delivered && wfe_is_deliver_primitive t then false
      else match surface with
           | WFE_SURFACE_FULL => true
           | WFE_SURFACE_DELEGATE => negb (wfe_is_write_tool t)
           | WFE_SURFACE_READONLY => negb (wfe_is_write_tool t || wfe_is_delegate_tool t)
           end
  end.

(** ** Failures and the dial *)

Inductive wfe_fail_class_t := WFE_FAIL_INSTRUMENTATION | WFE_FAIL_POLICY.
Inductive wfe_fail_action_t := WFE_ACT_FAIL_OPEN_CHAT | WFE_ACT_FAIL_CLOSED.

Definition wfe_enforce_fail_action (cls : wfe_fail_class_t) (hard is_deliver_or_write : bool)
    : wfe_fail_action_t :=
  match cls with
  | WFE_FAIL_POLICY => WFE_ACT_FAIL_CLOSED
  | WFE_FAIL_INSTRUMENTATION =>
      if hard && is_deliver_or_write then WFE_ACT_FAIL_CLOSED else WFE_ACT_FAIL_OPEN_CHAT
  end.

Inductive wfe_enforce_stage_t :=
  | WFE_ENFORCE_OFF | WFE_ENFORCE_ADVISORY | WFE_ENFORCE_SOFT | WFE_ENFORCE_HARD.

#[export] Instance wfe_enforce_stage_eq_dec : EqDecision wfe_enforce_stage_t.
Proof. solve_decision. Defined.

Definition wfe_enforce_stage_parse (s : option bytes) : wfe_enforce_stage_t :=
  match s with
  | None | Some [] => WFE_ENFORCE_OFF
  | Some s =>
      if eq_ci s (str "advisory") then WFE_ENFORCE_ADVISORY
      else if eq_ci s (str "soft") then WFE_ENFORCE_SOFT
      else if eq_ci s (str "hard") then WFE_ENFORCE_HARD
      else WFE_ENFORCE_OFF
  end.

Definition wfe_enforce_stage_name (s : wfe_enforce_stage_t) : bytes :=
  match s with
  | WFE_ENFORCE_ADVISORY => str "advisory" | WFE_ENFORCE_SOFT => str "soft"
  | WFE_ENFORCE_HARD => str "hard" | WFE_ENFORCE_OFF => str "off"
  end.

Definition wfe_enforce_stage_restricts (s : wfe_enforce_stage_t) : bool :=
  match s with WFE_ENFORCE_SOFT | WFE_ENFORCE_HARD => true | _ => false end.

Definition wfe_enforce_stage_refuses (s : wfe_enforce_stage_t) : bool :=
  match s with WFE_ENFORCE_HARD => true | _ => false end.

Definition wfe_advance_cas_ok (observed actual : option bytes) : Z :=
  match observed, actual with
  | Some (c :: o), Some (d :: a) => if bytes_eqb (c :: o) (d :: a) then 1 else 0
  | _, _ => -1
  end.

Definition safe_char (c : Z) : bool :=
  ((65 <=? c) && (c <=? 90)) || ((97 <=? c) && (c <=? 122)) || ((48 <=? c) && (c <=? 57))
  || (c =? 95) || (c =? 45) || (c =? 46).

Definition safe_id (s : bytes) : bool :=
  match s with [] => false | _ => forallb safe_char s end.

(** What is written to the buffer of [n] bytes. *)
Definition wfe_enforce_user_message (stage : wfe_enforce_stage_t) (gate work_item_id : bytes) (n : nat)
    : bytes :=
  let g := if safe_id gate then gate else str "the workflow gate" in
  let verb := if wfe_enforce_stage_refuses stage then str "was blocked" else str "is being held" in
  snprintf_s n
    (str "This change " ++ verb ++ str ": it must pass " ++ g ++ str " before it can be delivered"
     ++ (if safe_id work_item_id then str " (work item " ++ work_item_id ++ str ")." else str "."))%list.

(** [strtol v = (n, r)]: the value and what is left of the text. *)
Definition wfe_lease_ttl_secs (strtol : bytes -> Z * bytes) (env : option bytes) : Z :=
  match env with
  | Some (c :: v) =>
      let '(n, rest) := strtol (c :: v) in
      if bool_decide (rest = []) && (0 <=? n) && (n <=? 604800) then n else 3600
  | _ => 3600
  end.

(** ** The block of a session *)

Definition block_is_gate (b : wfe_block_type_t) : bool :=
  match b with
  | WFE_BLK_GATE_ROUNDTABLE | WFE_BLK_GATE_HUMAN | WFE_BLK_GATE_CI | WFE_BLK_CHECK_MERGEABLE
  | WFE_BLK_GATE_DELIVER => true
  | _ => false
  end.

Record wfe_block_ctx_t := {
  bc_enforced : bool;
  bc_surface : wfe_tool_surface_t;
  bc_delivered : bool;
  bc_advanceable : bool;
  bc_work_item_id : bytes;
  bc_stage : bytes;
}.

Inductive wfe_toolcall_action_t := WFE_TC_ALLOW | WFE_TC_WARN | WFE_TC_DENY.

Definition wfe_toolcall_decide (stage : wfe_enforce_stage_t) (policy_blocks : bool)
    : wfe_toolcall_action_t :=
  if negb policy_blocks then WFE_TC_ALLOW
  else if wfe_enforce_stage_refuses stage then WFE_TC_DENY
  else if wfe_enforce_stage_restricts stage then WFE_TC_WARN
  else WFE_TC_ALLOW.

Definition WFE_GUARD_GATE : bytes := str "gate.deliver".

(** A quoted word of a JSON text. *)
Definition quoted (s : bytes) : bytes := ([34] ++ s ++ [34])%list.

Definition guard_detail (key : bytes) (act value : bytes) : bytes :=
  ([123] ++ quoted (str "guard") ++ [58] ++ quoted (str "externalization") ++ [44]
   ++ quoted (str "action") ++ [58] ++ quoted act ++ [44] ++ quoted key ++ [58] ++ quoted value ++ [125])%list.

Definition guard_event (wi stage detail : bytes) : db1_lifecycle_event_t :=
  {| ev_work_item_id := wi; ev_stage := stage; ev_kind := str "toolcall_guard"; ev_actor := str "enforce-s2";
     ev_detail := detail; ev_content_hash := []; ev_cost_usd := d_zero |}.

Section Guard.
Context (binding_get : bytes -> option nat -> binding_answer).
Context (load_workflow : bytes -> option wfe_def_t).

(** The item a session is bound to, as the guard asks for it. *)
Definition bound_item (session_id : bytes) : option bytes :=
  match binding_get session_id None with
  | BG_bound (c :: wi) _ => Some (c :: wi)
  | _ => None
  end.

Definition wfe_block_resolve (session_id : bytes) (s : db) : option wfe_block_ctx_t :=
  match session_id with
  | [] => None
  | _ =>
      wi ← bound_item session_id;
      item ← rows s !! wi;
      def ← load_workflow (wi_workflow_name item);
      node ← wfe_def_node def (wi_current_stage item);
      Some {| bc_enforced := d_enforced def; bc_surface := wfe_block_default_surface (n_block node);
              bc_delivered := bytes_eqb (wi_state item) (str "accepted");
              bc_advanceable := negb (block_is_gate (n_block node));
              bc_work_item_id := snprintf_s 80 wi; bc_stage := snprintf_s 64 (wi_current_stage item) |}
  end.

(** The action, the message and the store afterwards; a failure to log the
    decision is not looked at. *)
Definition wfe_mcp_toolcall_action (env : option bytes) (session_id tool_name : bytes) (msg_n : nat) (s : db)
    : wfe_toolcall_action_t * bytes * db :=
  let stage := wfe_enforce_stage_parse env in
  if bool_decide (stage = WFE_ENFORCE_OFF) || bool_decide (tool_name = []) then (WFE_TC_ALLOW, [], s)
  else if negb (wfe_is_externalization_tool tool_name) then (WFE_TC_ALLOW, [], s)
  else
    match wfe_block_resolve session_id s with
    | Some ctx =>
        if negb (bc_enforced ctx) then (WFE_TC_ALLOW, [], s)
        else
          let blocks := negb (wfe_externalization_tool_permitted (Some tool_name) (bc_delivered ctx)) in
          match wfe_toolcall_decide stage blocks with
          | WFE_TC_ALLOW => (WFE_TC_ALLOW, [], s)
          | act =>
              let verb := match act with WFE_TC_DENY => str "deny" | _ => str "warn" end in
              let detail := snprintf_s 128 (guard_detail (str "stage") verb (wfe_enforce_stage_name stage)) in
              (act, wfe_enforce_user_message stage WFE_GUARD_GATE (bc_work_item_id ctx) msg_n,
               lifecycleEventAdd (guard_event (bc_work_item_id ctx) (bc_stage ctx) detail) s)
          end
    | None =>
        match bound_item session_id with
        | None => (WFE_TC_ALLOW, [], s)
        | Some wi =>
            if negb (wfe_enforce_stage_refuses stage) then (WFE_TC_ALLOW, [], s)
            else
              (WFE_TC_DENY, wfe_enforce_user_message stage WFE_GUARD_GATE wi msg_n,
               lifecycleEventAdd
                 (guard_event wi [] (guard_detail (str "reason") (str "deny") (str "unresolved"))) s)
        end
    end.
End Guard.

(** ** The policy cores *)

(** Each surface allows what the narrower one allows, and before
    delivery none allows a delivering tool. *)
Theorem surface_monotone t delivered :
  (wfe_surface_allows WFE_SURFACE_READONLY t delivered = true ->
   wfe_surface_allows WFE_SURFACE_DELEGATE t delivered = true)
  /\ (wfe_surface_allows WFE_SURFACE_DELEGATE t delivered = true ->
      wfe_surface_allows WFE_SURFACE_FULL t delivered = true)
  /\ (forall surface name, t = Some name -> wfe_is_deliver_primitive name = true ->
      wfe_surface_allows surface t false = false).
Proof.
  unfold wfe_surface_allows. split_and!.
  - destruct t as [[|c t]|]; [done| |done]. destruct (negb delivered && _); [done|].
    by destruct (wfe_is_write_tool (c :: t)).
  - destruct t as [[|c t]|]; [done| |done]. by destruct (negb delivered && _).
  - intros surface name -> Hd. destruct name as [|c t]; [done|]. by rewrite Hd.
Qed.

(** The surfaces differ: a delegate launch and a direct write. *)
Lemma surface_strict :
  wfe_surface_allows WFE_SURFACE_READONLY (Some (str "Task")) false = false
  /\ wfe_surface_allows WFE_SURFACE_DELEGATE (Some (str "Task")) false = true
  /\ wfe_surface_allows WFE_SURFACE_DELEGATE (Some (str "Edit")) false = false
  /\ wfe_surface_allows WFE_SURFACE_FULL (Some (str "Edit")) false = true.
Proof. vm_compute. done. Qed.

Lemma surface_monotone_witness :
  wfe_surface_allows WFE_SURFACE_DELEGATE (Some (str "grep")) false = true
  /\ wfe_surface_allows WFE_SURFACE_FULL (Some (str "merge")) false = false.
Proof.
  split.
  - apply (surface_monotone (Some (str "grep")) false). vm_compute. reflexivity.
  - by apply (surface_monotone (Some (str "merge")) false) with (name := str "merge"); [|vm_compute].
Defined.

Lemma stage_name_parse st : wfe_enforce_stage_parse (Some (wfe_enforce_stage_name st)) = st.
Proof. by destruct st. Qed.

(** Characters a message may hold: printable, and none a JSON text escapes. *)
Definition message_char (c : Z) : Prop := 32 <= c < 127 /\ c <> 34 /\ c <> 92.

Lemma safe_id_chars s : safe_id s = true -> Forall message_char s.
Proof.
  intros Hs. assert (forallb safe_char s = true) as Hf by (by destruct s).
  apply (Forall_check message_char safe_char); [|done].
  intros c Hc. unfold safe_char in Hc. unfold message_char.
  repeat (apply orb_true_iff in Hc as [Hc|Hc]); bool_to_prop; lia.
Qed.

Lemma message_text s :
  forallb (fun c => (32 <=? c) && (c <? 127) && negb (c =? 34) && negb (c =? 92)) (str s) = true ->
  Forall message_char (str s).
Proof. apply Forall_check. intros c Hc. bool_to_prop. unfold message_char. lia. Qed.

(** Whatever names reach it, the message to the user is printable text
    without quotation marks and backslashes, cut to its buffer: it can be put
    into a JSON string as it is. *)
Theorem user_message_plain stage gate wi n :
  Forall message_char (wfe_enforce_user_message stage gate wi n)
  /\ ((0 < n)%nat -> (length (wfe_enforce_user_message stage gate wi n) < n)%nat).
Proof.
  split; [|apply snprintf_s_length]. unfold wfe_enforce_user_message. cbv zeta. apply Forall_take.
  rewrite !Forall_app. split_and!; try (by apply message_text).
  - destruct (wfe_enforce_stage_refuses stage); by apply message_text.
  - destruct (safe_id gate) eqn:Hg; [by apply safe_id_chars | by apply message_text].
  - destruct (safe_id wi) eqn:Hw; [|by apply message_text].
    rewrite !Forall_app. split_and!; [by apply message_text | by apply safe_id_chars | by apply message_text].
Qed.

Lemma user_message_plain_witness :
  let m := wfe_enforce_user_message WFE_ENFORCE_HARD [34; 10] (str "wi_1") 64 in
  Forall message_char m /\ (length m < 64)%nat.
Proof.
  intros m. split; [apply (user_message_plain WFE_ENFORCE_HARD [34; 10] (str "wi_1") 64)|].
  apply (user_message_plain WFE_ENFORCE_HARD [34; 10] (str "wi_1") 64). lia.
Defined.

(** ** The guard *)

Section GuardFacts.
Context (get : bytes -> option nat -> binding_answer) (load_workflow : bytes -> option wfe_def_t) (s : db).

(** The item has passed what its workflow asks before delivery: the item and
    its node are there, and the workflow is not enforced or the item was
    accepted. *)
Definition may_externalize (wi : bytes) : Prop :=
  exists item def node, rows s !! wi = Some item
    /\ load_workflow (wi_workflow_name item) = Some def
    /\ wfe_def_node def (wi_current_stage item) = Some node
    /\ (d_enforced def = false \/ wi_state item = str "accepted").

Lemma bound_item_iff session wi : bound_item get session = Some wi <->
  wi <> [] /\ exists st, get session None = BG_bound wi st.
Proof.
  clear load_workflow. unfold bound_item. destruct (get session None) as [| |[|c w] st]; split; try naive_solver.
Qed.

Lemma resolve_cases session wi :
  session <> [] -> bound_item get session = Some wi ->
  (may_externalize wi ->
    exists ctx, wfe_block_resolve get load_workflow session s = Some ctx
      /\ (bc_enforced ctx = false \/ bc_delivered ctx = true))
  /\ (~ may_externalize wi ->
      wfe_block_resolve get load_workflow session s = None
      \/ exists ctx, wfe_block_resolve get load_workflow session s = Some ctx
           /\ bc_enforced ctx = true /\ bc_delivered ctx = false).
Proof.
  intros Hs Hb. unfold wfe_block_resolve. destruct session as [|c session]; [done|].
  rewrite Hb. cbn [mbind option_bind]. unfold may_externalize.
  destruct (rows s !! wi) as [item|]; cbn [mbind option_bind];
    [|split; [by intros (? & ? & ? & [=] & _) | by left]].
  destruct (load_workflow (wi_workflow_name item)) as [def|] eqn:Hdef; cbn [mbind option_bind];
    [|split; [intros (? & ? & ? & [= <-] & ? & _); congruence | by left]].
  destruct (wfe_def_node def (wi_current_stage item)) as [node|] eqn:Hnode; cbn [mbind option_bind];
    [|split; [intros (? & ? & ? & [= <-] & ? & ? & _); congruence | by left]].
  split.
  - intros (? & ? & ? & [= <-] & ? & ? & Hor). eexists. split; [reflexivity|]. cbn.
    destruct Hor as [He|Ha]; [left; congruence | right; by apply bytes_eqb_true].
  - intros Hn. right. eexists. split; [reflexivity|]. cbn. split.
    + destruct (d_enforced def) eqn:He; [done|]. exfalso. apply Hn. eauto 10.
    + apply bytes_eqb_false. intros Ha. apply Hn. eauto 10.
Qed.

Lemma resolve_unbound session : session = [] \/ bound_item get session = None ->
  wfe_block_resolve get load_workflow session s = None.
Proof.
  unfold wfe_block_resolve. intros [-> | Hb]; [done|]. destruct session; [done|]. by rewrite Hb.
Qed.

(** The guard over the answers of any lookup. *)
Lemma guard_denies env session tool msg_n :
  fst (fst (wfe_mcp_toolcall_action get load_workflow env session tool msg_n s)) = WFE_TC_DENY <->
  wfe_enforce_stage_parse env = WFE_ENFORCE_HARD /\ tool <> [] /\ wfe_is_externalization_tool tool = true
  /\ exists wi, bound_item get session = Some wi /\ (session = [] \/ ~ may_externalize wi).
Proof.
  unfold wfe_mcp_toolcall_action. cbv zeta.
  destruct (decide (wfe_enforce_stage_parse env = WFE_ENFORCE_OFF)) as [Ho|Ho].
  { rewrite (bool_decide_eq_true_2 _ Ho), Ho. split; [done | by intros (? & _)]. }
  rewrite (bool_decide_eq_false_2 _ Ho). cbn [orb].
  case_bool_decide as Htl; [by split; [|intros (_ & ? & _)]|].
  destruct (wfe_is_externalization_tool tool) eqn:Hx; cbn [negb]; [|split; [done | by intros (_ & _ & ? & _)]].
  destruct (bound_item get session) as [wi|] eqn:Hb.
  2: { rewrite resolve_unbound by auto. split; [done|]. intros (_ & _ & _ & wi & ? & _). done. }
  destruct (decide (session = [])) as [Hs|Hs].
  { rewrite resolve_unbound by auto. destruct (wfe_enforce_stage_parse env); cbn; split; try done; intros H;
      [by destruct H as (? & _)..|]. split_and!; try done. exists wi. auto. }
  destruct (resolve_cases session wi Hs Hb) as [Hyes Hno]. split.
  - intros Hden. assert (~ may_externalize wi) as Hm.
    { intros Hm. destruct (Hyes Hm) as (ctx & Hr & Hor). rewrite Hr in Hden.
      unfold wfe_externalization_tool_permitted, wfe_toolcall_decide in Hden.
      destruct Hor as [He|He]; rewrite He in Hden; cbn in Hden; [done|].
      by destruct (negb (bc_enforced ctx)). }
    split_and!; [|done..|exists wi; auto].
    destruct (Hno Hm) as [Hr|(ctx & Hr & He & Hdl)]; rewrite Hr in Hden.
    + by destruct (wfe_enforce_stage_parse env).
    + unfold wfe_externalization_tool_permitted, wfe_toolcall_decide in Hden. rewrite He, Hdl, Hx in Hden.
      by destruct (wfe_enforce_stage_parse env).
  - intros (Hh & _ & _ & wi' & [= <-] & [?|Hm]); [done|]. rewrite Hh.
    destruct (Hno Hm) as [Hr|(ctx & Hr & He & Hdl)]; rewrite Hr; [done|].
    unfold wfe_externalization_tool_permitted, wfe_toolcall_decide. by rewrite He, Hdl, Hx.
Qed.
End GuardFacts.

(** With the client that exists the guard never warns and never denies:
    it asks for the binding without a stage buffer, the client answers that
    with an error, and the guard takes the error for an unbound session. *)
Lemma guard_allows_all load_workflow t env session tool msg_n s :
  wfe_mcp_toolcall_action (client_get t) load_workflow env session tool msg_n s = (WFE_TC_ALLOW, [], s).
Proof.
  unfold wfe_mcp_toolcall_action. cbv zeta.
  destruct (_ || _); [done|]. destruct (negb _); [done|].
  assert (bound_item (client_get t) session = None) as Hb
    by (unfold bound_item; by rewrite client_get_no_stage).
  assert (wfe_block_resolve (client_get t) load_workflow session s = None) as ->
    by (unfold wfe_block_resolve; rewrite Hb; by destruct session).
  by rewrite Hb.
Qed.

(** C9: Whatever the lookup of a binding answers, the guard denies a call
    exactly when the dial is hard, the tool leaves the trust boundary, the
    lookup, asked without a stage buffer, answers that the session is bound
    to an item, and that item is not one that may externalize: one that is
    found with its workflow and node, and was accepted or whose workflow is
    not enforced.  The client of the repository answers such a lookup with an
    error, so with it the guard allows every call. *)
Theorem guard_denies_iff get load_workflow env session tool msg_n s :
  (fst (fst (wfe_mcp_toolcall_action get load_workflow env session tool msg_n s)) = WFE_TC_DENY <->
   wfe_enforce_stage_parse env = WFE_ENFORCE_HARD /\ tool <> [] /\ wfe_is_externalization_tool tool = true
   /\ exists wi st, wi <> [] /\ get session None = BG_bound wi st
        /\ (session = [] \/ ~ may_externalize load_workflow s wi))
  /\ forall t, wfe_mcp_toolcall_action (client_get t) load_workflow env session tool msg_n s = (WFE_TC_ALLOW, [], s).
Proof.
  split; [|intros t; apply guard_allows_all]. rewrite guard_denies.
  split; intros (Hh & Ht & Hx & wi & Hwi); (split_and!; [done..|]).
  - destruct Hwi as [Hb Hor]. apply bound_item_iff in Hb as [Hne [st Hg]]. exists wi, st. auto.
  - destruct Hwi as (st & Hne & Hg & Hor). exists wi. split; [apply bound_item_iff; eauto | done].
Qed.

(** ** The guard at a concrete input *)

Definition guard_table : table :=
  {[ str "s1" := {| b_work_item := str "wi_1"; b_stage := str "hard"; b_lease := None |} ]}.

(** Over a lookup that keeps to its header the guard denies. *)
Lemma guard_denies_documented :
  fst (fst (wfe_mcp_toolcall_action (documented_get guard_table) (fun _ => Some demo_def)
              (Some (str "hard")) (str "s1") (str "git_push") 128 parked_db)) = WFE_TC_DENY.
Proof. vm_compute. reflexivity. Qed.


End WfeEnforce.
