(* ===== verification/WfeRouter.v ===== *)
(** * Routing a request to a workflow
    ([wfe_router.c], [wfe_router_catalog.c])

    The catalog of workflows, its validation and its loading from a
    directory, the prefilter on the text of a message, the decision, the
    parser of a classifier's answer, the advisory record and the sampling
    rule.  A C string is the list of its bytes, so the end of the list is the
    NUL; a null catalog behaves as an empty one and a null message as an empty
    one throughout, and are not told apart.  Parameters: the YAML reader, the
    rendering of a double, and what the file calls answer.

    Shown: whatever the directory holds, a catalog that loads is valid, and
    loading fails only on a file that claims to be the default; over a loaded
    catalog a message leads to a lane that may write only when the user named
    it or the classifier did; a record of the decision holds no text of the
    message; the classifier's answer is the last catalog id that stands as a
    word of its reply. *)

From Stdlib Require Import ZArith Lia String Ascii.
From stdpp Require Import base numbers option list.
From S2P Require Import Prelude Json.

Open Scope string_scope.
Open Scope Z_scope.

Module WfeRouter.

Definition WFE_ROUTER_ID_LEN : nat := 64.
Definition WFE_ROUTER_MAX_WF : nat := 64.
Definition WFE_ROUTER_MAX_TAGS : nat := 16.
Definition WFE_ROUTER_TAG_LEN : nat := 40.

Record wfe_router_wf_t := {
  wf_id : bytes;
  wf_tags : list bytes;
  is_default : bool;
  read_only : bool;
  enforced : bool;
}.

Abbreviation wfe_router_catalog_t := (list wfe_router_wf_t).

Inductive wfe_prefilter_outcome_t := WFE_PREFILTER_CONVERSE | WFE_PREFILTER_NAMED | WFE_PREFILTER_DEFER.

Inductive wfe_route_source_t := WFE_ROUTE_SRC_PREFILTER | WFE_ROUTE_SRC_CLASSIFIER | WFE_ROUTE_SRC_DEFAULT.

Record wfe_route_decision_t := {
  workflow_id : bytes;
  source : wfe_route_source_t;
  user_provided_name : bool;
  reason : bytes;
}.

(** ** Characters, in the C locale *)

Definition isspace (c : Z) : bool := (c =? 32) || ((9 <=? c) && (c <=? 13)).
Definition isdigit (c : Z) : bool := (48 <=? c) && (c <=? 57).
Definition isalpha (c : Z) : bool := ((65 <=? c) && (c <=? 90)) || ((97 <=? c) && (c <=? 122)).
Definition isalnum (c : Z) : bool := isalpha c || isdigit c.

(** The byte a pointer points to. *)
Definition here (s : bytes) : Z := match s with [] => 0 | c :: _ => c end.

(** ** Words and tokens of a message *)

Definition CHANGE_VERBS : list bytes :=
  map str ["add"; "fix"; "change"; "implement"; "refactor"; "delete"; "remove"; "rename";
           "create"; "build"; "deploy"; "update"; "write"; "edit"; "patch"; "migrate";
           "install"; "configure"; "generate"; "replace"; "revert"].

Fixpoint starts_with_ci (s pfx : bytes) {struct pfx} : bool :=
  match pfx, s with
  | [], _ => true
  | _ :: _, [] => false
  | p :: pfx, c :: s => (ascii_lower c =? ascii_lower p) && starts_with_ci s pfx
  end.

(** The inner loop: the word stands here and ends at a boundary. *)
Fixpoint word_here (p w : bytes) {struct w} : bool :=
  match w, p with
  | [], _ => negb (isalnum (here p))
  | _ :: _, [] => false
  | a :: w, c :: p => (ascii_lower c =? ascii_lower a) && word_here p w
  end.

(** [before] is the byte before the position, if there is one. *)
Fixpoint has_word_from (before : option Z) (hay w : bytes) : bool :=
  match hay with
  | [] => false
  | c :: r =>
      (if match before with Some b => isalnum b | None => false end then false else word_here hay w)
      || has_word_from (Some c) r w
  end.

Definition has_word (hay w : bytes) : bool := has_word_from None hay w.

Fixpoint skip_alnum (k : nat) (s : bytes) : bytes :=
  match k, s with
  | S k, c :: r => if isalnum c then skip_alnum k r else s
  | _, _ => s
  end.

(** After a dot: a letter, at most four letters or digits, then a boundary. *)
Definition ext_here (s : bytes) : bool := isalpha (here s) && negb (isalnum (here (skip_alnum 4 s))).

Fixpoint has_ext (s : bytes) : bool :=
  match s with
  | [] => false
  | c :: r => ((c =? 46) && ext_here r) || has_ext r
  end.

(** A fence of three backticks holds a backtick. *)
Definition has_code_token (s : bytes) : bool :=
  existsb (Z.eqb 47) s || existsb (Z.eqb 96) s || has_ext s.

Definition is_blank (s : bytes) : bool := forallb isspace s.

Fixpoint skip_space (s : bytes) : bytes :=
  match s with [] => [] | c :: r => if isspace c then skip_space r else s end.

(** ** The catalog *)

Definition router_id_char (c : Z) : bool :=
  ((65 <=? c) && (c <=? 90)) || ((97 <=? c) && (c <=? 122)) || ((48 <=? c) && (c <=? 57))
  || (c =? 95) || (c =? 45).

Definition wfe_router_id_valid (id : bytes) : bool :=
  match id with
  | [] => false
  | _ => forallb router_id_char id && (length id <? WFE_ROUTER_ID_LEN)%nat
  end.

Definition wfe_router_find (cat : wfe_router_catalog_t) (id : bytes) : option wfe_router_wf_t :=
  find (fun w => bytes_eqb (wf_id w) id) cat.

Definition wfe_router_default (cat : wfe_router_catalog_t) : option wfe_router_wf_t := find is_default cat.

Inductive catalog_err :=
  | CE_empty | CE_bad_id (i : nat) | CE_duplicate (id : bytes) | CE_default_writes (id : bytes)
  | CE_defaults (found : nat) | CE_no_converse.

(** The loop over the entries from index [i]; the number of defaults. *)
Fixpoint validate_entries (i : nat) (cat : wfe_router_catalog_t) : catalog_err + nat :=
  match cat with
  | [] => inr 0%nat
  | w :: cat =>
      if negb (wfe_router_id_valid (wf_id w)) then inl (CE_bad_id i)
      else if existsb (fun v => bytes_eqb (wf_id w) (wf_id v)) cat then inl (CE_duplicate (wf_id w))
      else if is_default w && negb (read_only w) then inl (CE_default_writes (wf_id w))
      else
        match validate_entries (S i) cat with
        | inl e => inl e
        | inr n => inr (if is_default w then S n else n)
        end
  end.

(** [None] is the return value 0. *)
Definition wfe_router_catalog_validate (cat : wfe_router_catalog_t) : option catalog_err :=
  match cat with
  | [] => Some CE_empty
  | _ =>
      match validate_entries 0 cat with
      | inl e => Some e
      | inr n =>
          if negb (n =? 1)%nat then Some (CE_defaults n)
          else match wfe_router_find cat (str "converse") with
               | None => Some CE_no_converse
               | Some _ => None
               end
      end
  end.

(** ** The prefilter *)

(** The bytes up to the next white space, at most [n]. *)
Fixpoint take_word (n : nat) (s : bytes) : bytes :=
  match n, s with
  | S n, c :: r => if isspace c then [] else c :: take_word n r
  | _, _ => []
  end.

(** The name in a buffer of [n] bytes. *)
Definition parse_use (msg : bytes) (n : nat) : bytes :=
  let p := skip_space msg in
  if negb (starts_with_ci p (str "use ")) then []
  else take_word (n - 1) (skip_space (drop 4 p)).

(** The outcome, what is written to [matched_id] of [idlen] bytes and the
    reason in a buffer of [rlen] bytes. *)
Definition wfe_router_prefilter (msg : bytes) (cat : wfe_router_catalog_t) (idlen rlen : nat)
    : wfe_prefilter_outcome_t * bytes * bytes :=
  let why := fun s => snprintf_s rlen (str s) in
  if is_blank msg then (WFE_PREFILTER_CONVERSE, [], why "empty-message")
  else if starts_with_ci (skip_space msg) (str "just chat")
  then (WFE_PREFILTER_CONVERSE, [], why "explicit-just-chat")
  else
    let name := parse_use msg WFE_ROUTER_ID_LEN in
    if negb (bool_decide (name = [])) then
      match wfe_router_find cat name with
      | Some _ => (WFE_PREFILTER_NAMED, snprintf_s idlen name, why "explicit-use-name")
      | None => (WFE_PREFILTER_DEFER, [], why "unknown-use-name")
      end
    else
      let verb := existsb (has_word msg) CHANGE_VERBS in
      let code := has_code_token msg in
      if negb verb && negb code then (WFE_PREFILTER_CONVERSE, [], why "no-change-signal")
      else (WFE_PREFILTER_DEFER, [], why (if verb then "change-verb-defer" else "code-token-defer")).

(** ** The decision *)

Definition wfe_router_decide (msg : bytes) (cat : wfe_router_catalog_t) (classifier_id : option bytes)
    : wfe_route_decision_t :=
  let dflt_id := match wfe_router_default cat with Some w => wf_id w | None => str "research" end in
  let out := fun id src named why =>
    {| workflow_id := snprintf_s WFE_ROUTER_ID_LEN id; source := src; user_provided_name := named;
       reason := snprintf_s 96 why |} in
  match wfe_router_prefilter msg cat WFE_ROUTER_ID_LEN 96 with
  | (WFE_PREFILTER_NAMED, named, why) => out named WFE_ROUTE_SRC_PREFILTER true why
  | (WFE_PREFILTER_CONVERSE, _, why) => out (str "converse") WFE_ROUTE_SRC_PREFILTER false why
  | (WFE_PREFILTER_DEFER, _, _) =>
      match classifier_id with
      | Some id =>
          match wfe_router_find cat id with
          | Some _ => out id WFE_ROUTE_SRC_CLASSIFIER false (str "classifier")
          | None => out dflt_id WFE_ROUTE_SRC_DEFAULT false (str "classifier-out-of-catalog")
          end
      | None => out dflt_id WFE_ROUTE_SRC_DEFAULT false (str "defer-no-classifier")
      end
  end.

(** ** The classifier *)

(** [t] is the text written so far if nothing were cut off; its length is the
    offset the code keeps, and each write is guarded by it. *)
Definition more (n : nat) (t s : bytes) : bytes := if (length t <? n)%nat then (t ++ s)%list else t.

Fixpoint prompt_tags (n : nat) (first : bool) (tags : list bytes) (t : bytes) : bytes :=
  match tags with
  | [] => t
  | g :: tags =>
      if (length t <? n)%nat
      then prompt_tags n false tags (t ++ (if first then str " tags: " else str ",") ++ g)%list
      else t
  end.

Fixpoint prompt_entries (n : nat) (cat : wfe_router_catalog_t) (t : bytes) : bytes :=
  match cat with
  | [] => t
  | w :: cat =>
      if (length t <? n)%nat then
        let t := (t ++ str "- " ++ wf_id w ++ (if read_only w then str " (read-only)" else []))%list in
        prompt_entries n cat (more n (prompt_tags n true (wf_tags w) t) [10])
      else t
  end.

Definition wfe_router_classify_prompt (cat : wfe_router_catalog_t) (n : nat) : bytes :=
  let t := (str "You are a request router. Classify the user's request into EXACTLY ONE of "
            ++ str "these workflow ids and reply with ONLY that id (no other text):" ++ [10])%list in
  let t := prompt_entries n cat t in
  let df := match wfe_router_default cat with Some w => wf_id w | None => str "research" end in
  snprintf_s n (more n t (str "If none clearly fit, or the request is read-only/ambiguous, reply: " ++ df ++ [10])%list).

(** [strncmp(p, id, strlen(id)) == 0] and the byte after is a boundary. *)
Fixpoint id_here (p id : bytes) {struct id} : bool :=
  match id, p with
  | [], _ => negb (router_id_char (here p))
  | _ :: _, [] => false
  | a :: id, c :: p => (c =? a) && id_here p id
  end.

(** The last match of the scan; [found] is the one before this position. *)
Fixpoint scan_response (cat : wfe_router_catalog_t) (before : option Z) (p : bytes) (found : option bytes)
    : option bytes :=
  match p with
  | [] => found
  | c :: r =>
      let found :=
        if match before with Some b => router_id_char b | None => false end then found
        else match find (fun w => id_here p (wf_id w)) cat with
             | Some w => Some (wf_id w)
             | None => found
             end in
      scan_response cat (Some c) r found
  end.

(** [None] is the return value -1. *)
Definition wfe_router_parse_classification (response : bytes) (cat : wfe_router_catalog_t) (n : nat)
    : option bytes :=
  snprintf_s n <$> scan_response cat None response None.

(** ** The advisory record *)

Definition prefilter_name (o : wfe_prefilter_outcome_t) : bytes :=
  match o with
  | WFE_PREFILTER_CONVERSE => str "converse"
  | WFE_PREFILTER_NAMED => str "named"
  | WFE_PREFILTER_DEFER => str "defer"
  end.

Definition source_name (s : wfe_route_source_t) : bytes :=
  match s with
  | WFE_ROUTE_SRC_PREFILTER => str "prefilter"
  | WFE_ROUTE_SRC_CLASSIFIER => str "classifier"
  | WFE_ROUTE_SRC_DEFAULT => str "default"
  end.

Definition bool_text (b : bool) : bytes := if b then str "true" else str "false".

(** A name and its value in double quotes. *)
Definition json_text (key : string) (v : bytes) : bytes :=
  ([34] ++ str key ++ [34; 58; 34] ++ v ++ [34])%list.

Definition json_word (key : string) (v : bytes) : bytes := ([34] ++ str key ++ [34; 58] ++ v)%list.

(** [fmt1] renders a double with one decimal. *)
Definition wfe_router_advisory_payload (fmt1 : double -> bytes) (d : wfe_route_decision_t)
    (prefilter : wfe_prefilter_outcome_t) (sampled : bool) (classifier_ms : double) (n : nat) : bytes :=
  let head := ([123] ++ json_text "workflow_id" (workflow_id d) ++ [44]
               ++ json_text "source" (source_name (source d)) ++ [44]
               ++ json_text "prefilter" (prefilter_name prefilter) ++ [44]
               ++ json_word "user_provided_name" (bool_text (user_provided_name d)) ++ [44]
               ++ json_word "sampled" (bool_text sampled) ++ [44]
               ++ json_text "reason" (reason d))%list in
  snprintf_s n
    (if d_ge classifier_ms d_zero
     then head ++ [44] ++ json_word "classifier_ms" (fmt1 classifier_ms) ++ [125]
     else head ++ [125])%list.

(** ** Sampling *)

Definition fnv_step (h b : Z) : Z := u32 (Z.lxor h b * 16777619).

Definition wfe_router_should_sample (session_id : bytes) (turn_index one_in_n : Z) : bool :=
  if one_in_n <=? 1 then true
  else
    let h := fold_left fnv_step session_id 2166136261 in
    let t := u32 turn_index in
    let h := fold_left (fun h i => fnv_step h (Z.land (Z.shiftr t (i * 8)) 255)) [0; 1; 2; 3] h in
    h mod one_in_n =? 0.

(** ** Loading the catalog *)

Definition obj_true (root : option json) (key : string) : bool :=
  let it := cJSON_GetObjectItemCaseSensitive root (str key) in
  cJSON_IsTrue it || match json_string it with Some s => bytes_eqb s (str "true") | None => false end.

Definition router_obj_str (root : option json) (key : string) : option bytes :=
  json_string (cJSON_GetObjectItemCaseSensitive root (str key)).

Definition add_lane (c : wfe_router_catalog_t) (id : bytes) (dflt ro : bool) : wfe_router_catalog_t :=
  if (WFE_ROUTER_MAX_WF <=? length c)%nat then c
  else (c ++ [{| wf_id := snprintf_s WFE_ROUTER_ID_LEN id; wf_tags := []; is_default := dflt;
                 read_only := ro; enforced := false |}])%list.

Definition ends_yaml (n : bytes) : bool :=
  (5 <? length n)%nat && bytes_eqb (drop (length n - 5) n) (str ".yaml").

(** What the calls on an entry of the directory answer: [None] when it cannot
    be opened without following a link; whether [fstat] says it is a regular
    file, its size, and the bytes [read] delivers, at most that many. *)
Record dir_entry := {
  d_name : bytes;
  d_file : option (bool * Z * bytes);
}.

(** [None] for a size out of bounds. *)
Definition read_fd (sz : Z) (data : bytes) : option bytes :=
  if (sz <? 0) || (4 * 2 ^ 20 <? sz) then None else Some (take (Z.to_nat sz) data).

Definition tags_of (root : option json) : list bytes :=
  let strings := omap (fun t => match t with JString (c :: s) => Some (c :: s) | _ => None end)
                   (json_elements (cJSON_GetObjectItemCaseSensitive root (str "intent_tags"))) in
  map (snprintf_s WFE_ROUTER_TAG_LEN) (take WFE_ROUTER_MAX_TAGS strings).

Inductive load_err := LE_default (name : bytes) | LE_invalid (e : catalog_err).

Section Load.
Context (yaml_parse : bytes -> option json).

(** The tree of an entry, if it gets that far. *)
Definition entry_tree (dir : bytes) (e : dir_entry) : option json :=
  if negb (ends_yaml (d_name e)) then None
  else if Nat.leb 2048 (length (dir ++ [47] ++ d_name e)%list) then None
  else
    match d_file e with
    | None => None
    | Some (regular, sz, data) =>
        if negb regular then None else buf ← read_fd sz data; yaml_parse (c_str buf)
    end.

(** The body of the loop. *)
Definition load_entry (dir : bytes) (e : dir_entry) (out : wfe_router_catalog_t)
    : bytes + wfe_router_catalog_t :=
  match entry_tree dir e with
  | None => inr out
  | Some root =>
      match router_obj_str (Some root) "name" with
      | None => inr out
      | Some name =>
          if wfe_router_id_valid name && negb (bool_decide (is_Some (wfe_router_find out name)))
             && (length out <? WFE_ROUTER_MAX_WF)%nat
          then
            if obj_true (Some root) "default" then inl name
            else
              inr (out ++ [{| wf_id := snprintf_s WFE_ROUTER_ID_LEN name; wf_tags := tags_of (Some root);
                              is_default := false; read_only := obj_true (Some root) "read_only";
                              enforced := obj_true (Some root) "enforced" |}])%list
          else inr out
      end
  end.

Fixpoint load_entries (dir : bytes) (es : list dir_entry) (out : wfe_router_catalog_t)
    : bytes + wfe_router_catalog_t :=
  match es with
  | [] => inr out
  | e :: es =>
      match load_entry dir e out with
      | inl name => inl name
      | inr out => load_entries dir es out
      end
  end.

Definition built_in : wfe_router_catalog_t :=
  add_lane (add_lane [] (str "converse") false true) (str "research") true true.

(** [entries] is [None] when the directory cannot be opened. *)
Definition wfe_router_catalog_load (aimee_home : bytes) (entries : option (list dir_entry))
    : load_err + wfe_router_catalog_t :=
  let dir := (aimee_home ++ str "/workflows")%list in
  let validated := fun out =>
    match wfe_router_catalog_validate out with Some e => inl (LE_invalid e) | None => inr out end in
  if (1024 <=? length dir)%nat then validated built_in
  else
    match entries with
    | None => validated built_in
    | Some es =>
        match load_entries dir es built_in with
        | inl name => inl (LE_default name)
        | inr out => validated out
        end
    end.
End Load.

(** ** The catalog *)

Definition converse_id : bytes := str "converse".
Definition research_id : bytes := str "research".

(** What the header asks of a catalog. *)
Record well_formed (cat : wfe_router_catalog_t) : Prop := {
  wfc_ids : Forall (fun w => wfe_router_id_valid (wf_id w) = true) cat;
  wfc_unique : NoDup (map wf_id cat);
  wfc_defaults : length (filter (fun w => is_default w = true) cat) = 1%nat;
  wfc_safe : Forall (fun w => is_default w = true -> read_only w = true) cat;
  wfc_converse : converse_id ∈ map wf_id cat;
}.

Lemma find_id cat id : is_Some (wfe_router_find cat id) <-> id ∈ map wf_id cat.
Proof.
  unfold wfe_router_find. split.
  - intros [w Hw]. apply find_some in Hw as [Hin E%bytes_eqb_true]. subst id.
    apply list_elem_of_fmap. exists w. split; [done | by apply list_elem_of_In].
  - intros (w & -> & Hw)%list_elem_of_fmap. destruct (find _ cat) eqn:E; [by eexists|].
    apply list_elem_of_In, (find_none _ _ E w) in Hw. by rewrite bytes_eqb_refl in Hw.
Qed.

Lemma find_in cat id w : wfe_router_find cat id = Some w -> w ∈ cat /\ wf_id w = id.
Proof. intros [Hin E%bytes_eqb_true]%find_some. split; [by apply list_elem_of_In | done]. Qed.

Lemma existsb_id id (cat : wfe_router_catalog_t) :
  existsb (fun v => bytes_eqb id (wf_id v)) cat = true <-> id ∈ map wf_id cat.
Proof.
  rewrite existsb_exists, list_elem_of_fmap. split.
  - intros (v & Hv & E%bytes_eqb_true). exists v. by rewrite list_elem_of_In.
  - intros (v & -> & Hv). exists v. rewrite <- list_elem_of_In. split; [done | apply bytes_eqb_refl].
Qed.

Lemma validate_entries_iff i cat n :
  validate_entries i cat = inr n <->
  Forall (fun w => wfe_router_id_valid (wf_id w) = true) cat /\ NoDup (map wf_id cat)
  /\ Forall (fun w => is_default w = true -> read_only w = true) cat
  /\ length (filter (fun w => is_default w = true) cat) = n.
Proof.
  revert i n. induction cat as [|w cat IH]; intros i n; cbn [validate_entries map].
  { split; [intros [= <-]; split_and!; auto using NoDup_nil_2 | intros (_ & _ & _ & <-); done]. }
  rewrite !Forall_cons, NoDup_cons, <- existsb_id, filter_cons.
  destruct (wfe_router_id_valid (wf_id w)) eqn:Hid; cbn [negb]; [|naive_solver].
  destruct (existsb _ cat) eqn:Hex; [naive_solver|].
  specialize (IH (S i)). destruct (validate_entries (S i) cat) as [e|m].
  - split; [by destruct (is_default w), (read_only w)|]. intros ((_ & H1) & (_ & H2) & (_ & H3) & _).
    discriminate (proj2 (IH _) (conj H1 (conj H2 (conj H3 eq_refl)))).
  - destruct (proj1 (IH m) eq_refl) as (H1 & H2 & H3 & Hm).
    destruct (is_default w) eqn:Hd, (read_only w) eqn:Hr; cbn [andb negb];
      (destruct (decide _) as [Ht|Ht]; [|try done]); try done;
      (split; [intros [= <-]; split_and!; try done; cbn; congruence
              | intros (_ & _ & [Hw _] & <-); cbn in *; (by rewrite Hm) || (by specialize (Hw eq_refl)) ]).
Qed.

(** The validator accepts exactly the catalogs the header asks for. *)
Theorem catalog_validate_iff cat : wfe_router_catalog_validate cat = None <-> well_formed cat.
Proof.
  unfold wfe_router_catalog_validate.
  destruct cat as [|w0 c0] eqn:Ec; [split; [done | intros [_ _ _ _ H]; by apply not_elem_of_nil in H]|].
  rewrite <- Ec. clear w0 c0 Ec. destruct (validate_entries 0 cat) as [e|n] eqn:E.
  - split; [done|]. intros [H1 H2 H3 H4 _].
    by rewrite (proj2 (validate_entries_iff 0 cat 1%nat)) in E.
  - apply validate_entries_iff in E as (H1 & H2 & H3 & Hn). subst n.
    destruct (Nat.eqb_spec (length (filter (fun w => is_default w = true) cat)) 1) as [Hn|Hn]; cbn [negb].
    + pose proof (find_id cat converse_id) as Hf. unfold converse_id in Hf at 1.
      destruct (wfe_router_find cat (str "converse")) as [w|].
      * split; [|done]. intros _. split; try done. apply Hf. by eexists.
      * split; [done|]. intros [_ _ _ _ H]. by apply Hf in H as [? ?].
    + split; [done|]. by intros [_ _ H _ _].
Qed.

(** ** Loading *)

(** What the loop keeps: the two built-in lanes in front, valid and distinct
    names, no second default, no more entries than the table has. *)
Definition grown (out : wfe_router_catalog_t) : Prop :=
  exists rest, out = (built_in ++ rest)%list
    /\ Forall (fun w => wfe_router_id_valid (wf_id w) = true) rest
    /\ Forall (fun w => is_default w = false) rest
    /\ NoDup (map wf_id out) /\ (length out <= WFE_ROUTER_MAX_WF)%nat.

Lemma id_valid_fits id : wfe_router_id_valid id = true -> snprintf_s WFE_ROUTER_ID_LEN id = id.
Proof.
  unfold wfe_router_id_valid. destruct id as [|c id]; [done|].
  intros [_ Hl%Nat.ltb_lt]%andb_true_iff. apply snprintf_s_fits. unfold WFE_ROUTER_ID_LEN in *. lia.
Qed.

Section LoadFacts.
Context (yaml_parse : bytes -> option json) (dir : bytes).

(** The file of this entry claims to be the default under a usable name. *)
Definition claims_default (e : dir_entry) (name : bytes) : Prop :=
  exists root, entry_tree yaml_parse dir e = Some root /\ router_obj_str (Some root) "name" = Some name
    /\ wfe_router_id_valid name = true /\ obj_true (Some root) "default" = true.

Lemma load_entry_grows e out : grown out ->
  match load_entry yaml_parse dir e out with
  | inl name => claims_default e name
  | inr out => grown out
  end.
Proof.
  intros Hg. unfold load_entry. destruct (entry_tree yaml_parse dir e) as [root|] eqn:Er; [|done].
  destruct (router_obj_str (Some root) "name") as [name|] eqn:En; [|done].
  destruct (_ && _ && _) eqn:Hc; [|done].
  apply andb_true_iff in Hc as [[Hv Hf]%andb_true_iff Hl%Nat.ltb_lt].
  destruct (obj_true (Some root) "default") eqn:Hd; [by exists root|].
  apply negb_true_iff, bool_decide_eq_false in Hf. rewrite find_id in Hf.
  destruct Hg as (rest & -> & Hi & Hnd & Hu & _).
  eexists (rest ++ [_])%list. split; [by rewrite app_assoc|].
  rewrite !Forall_app, !Forall_singleton, map_app, NoDup_app, length_app. cbn [wf_id is_default map].
  rewrite id_valid_fits by done. split_and!; try done; [|apply NoDup_singleton | cbn [length]; lia].
  intros x Hx ->%list_elem_of_singleton. done.
Qed.

Lemma load_entries_grow es out : grown out ->
  match load_entries yaml_parse dir es out with
  | inl name => Exists (fun e => claims_default e name) es
  | inr out => grown out
  end.
Proof.
  revert out. induction es as [|e es IH]; intros out Hg; [done|]. cbn [load_entries].
  pose proof (load_entry_grows e out Hg) as He. destruct (load_entry _ _ e out) as [name|out'].
  - by constructor.
  - specialize (IH out' He). destruct (load_entries _ _ es out'); [by constructor 2 | done].
Qed.
End LoadFacts.

Lemma built_in_grown : grown built_in.
Proof.
  exists []. split; [by rewrite app_nil_r|]. split_and!; [constructor | constructor | | vm_compute; lia].
  apply (bool_decide_unpack _). vm_compute. exact I.
Qed.

Lemma grown_well_formed out : grown out -> well_formed out.
Proof.
  intros (rest & -> & Hi & Hd & Hu & _). split.
  - apply Forall_app. split; [by repeat constructor | done].
  - done.
  - rewrite filter_app, length_app, (proj2 (filter_none _ rest)); [done|].
    intros w Hw. rewrite (proj1 (Forall_forall _ _) Hd w Hw). done.
  - apply Forall_app. split; [by repeat constructor|]. eapply Forall_impl; [exact Hd|]. intros w Hw. by rewrite Hw.
  - rewrite map_app, elem_of_app. left. apply (bool_decide_unpack _). vm_compute. exact I.
Qed.

(** Facts of a catalog that loaded. *)
Lemma grown_lanes out w : grown out -> w ∈ out ->
  (wf_id w = converse_id -> read_only w = true /\ enforced w = false)
  /\ (is_default w = true -> wf_id w = research_id /\ read_only w = true /\ enforced w = false).
Proof.
  intros (rest & -> & _ & Hd & Hu & _) [Hw|Hw]%elem_of_app.
  - cbn in Hw. apply elem_of_cons in Hw as [->|[->|[]%not_elem_of_nil]%elem_of_cons]; cbn; done.
  - split.
    + intros E. exfalso. rewrite map_app, NoDup_app in Hu. destruct Hu as (_ & Hu & _).
      apply (Hu converse_id); [apply (bool_decide_unpack _); vm_compute; exact I|].
      rewrite <- E. apply list_elem_of_fmap. eauto.
    + by rewrite (proj1 (Forall_forall _ _) Hd w Hw).
Qed.

Lemma catalog_load_outcome yaml_parse home entries :
  match wfe_router_catalog_load yaml_parse home entries with
  | inr cat => grown cat
  | inl (LE_default name) =>
      exists es, entries = Some es /\ Exists (fun e => claims_default yaml_parse (home ++ str "/workflows") e name) es
  | inl (LE_invalid _) => False
  end.
Proof.
  unfold wfe_router_catalog_load.
  assert (V : forall out, grown out ->
    match wfe_router_catalog_validate out with Some e => inl (LE_invalid e) | None => inr out end
    = @inr load_err _ out)
    by (intros out Hg; by rewrite (proj2 (catalog_validate_iff out) (grown_well_formed out Hg))).
  destruct (1024 <=? _)%nat; [rewrite V by apply built_in_grown; apply built_in_grown|].
  destruct entries as [es|]; [|rewrite V by apply built_in_grown; apply built_in_grown].
  pose proof (load_entries_grow yaml_parse (home ++ str "/workflows") es built_in built_in_grown) as H.
  destruct (load_entries _ _ es built_in) as [name|out]; [by exists es | by rewrite V].
Qed.

(** Whatever the workflow directory holds, loading the catalog fails only
    because a file with a usable name claims to be the default; otherwise the
    catalog is well-formed, its default is the built-in research lane, both
    built-in lanes are read-only and outside enforcement, and it fits the
    table. *)
Theorem catalog_load_safe yaml_parse home entries :
  match wfe_router_catalog_load yaml_parse home entries with
  | inr cat =>
      well_formed cat /\ (length cat <= WFE_ROUTER_MAX_WF)%nat
      /\ forall w, w ∈ cat -> wf_id w = converse_id \/ is_default w = true ->
           read_only w = true /\ enforced w = false /\ (is_default w = true -> wf_id w = research_id)
  | inl (LE_default name) =>
      exists es, entries = Some es /\ Exists (fun e => claims_default yaml_parse (home ++ str "/workflows") e name) es
  | inl (LE_invalid _) => False
  end.
Proof.
  pose proof (catalog_load_outcome yaml_parse home entries) as H.
  destruct (wfe_router_catalog_load _ _ _) as [e|cat]; [done|]. split_and!.
  - by apply grown_well_formed.
  - by destruct H as (? & _ & _ & _ & _ & ?).
  - intros w Hw. destruct (grown_lanes cat w H Hw) as [H1 H2]. naive_solver.
Qed.

(** ** The decision *)

(** The message starts with the word use, in any case, and a name: [tok] is
    the whole word that follows. *)
Definition uses (msg tok : bytes) : Prop :=
  exists sp u gap rest,
    msg = (sp ++ u ++ [32] ++ gap ++ tok ++ rest)%list /\ forallb isspace sp = true
    /\ map ascii_lower u = str "use" /\ forallb isspace gap = true
    /\ forallb (fun c => negb (isspace c)) tok = true
    /\ match rest with [] => True | c :: _ => isspace c = true end.

Lemma skip_space_split s : exists sp, s = (sp ++ skip_space s)%list /\ forallb isspace sp = true
  /\ match skip_space s with [] => True | c :: _ => isspace c = false end.
Proof.
  induction s as [|c s IH]; [by exists []|]. cbn [skip_space]. destruct (isspace c) eqn:E.
  - destruct IH as (sp & Hs & Hsp & Hh). exists (c :: sp). split; [by rewrite Hs at 1|].
    cbn [forallb]. by rewrite E.
  - by exists [].
Qed.

Lemma starts_with_split s pfx : starts_with_ci s pfx = true ->
  exists u r, s = (u ++ r)%list /\ map ascii_lower u = map ascii_lower pfx.
Proof.
  revert s. induction pfx as [|p pfx IH]; intros s H; [by exists [], s|].
  destruct s as [|c s]; [done|]. cbn [starts_with_ci] in H. apply andb_true_iff in H as [E%Z.eqb_eq H].
  destruct (IH s H) as (u & r & -> & Hu). exists (c :: u), r. split; [done|]. cbn [map]. by rewrite E, Hu.
Qed.

(** The word at the front of a text, and what is kept of it. *)
Lemma take_word_split n s : exists tok rest, s = (tok ++ rest)%list /\ take_word n s = take n tok
  /\ forallb (fun c => negb (isspace c)) tok = true
  /\ match rest with [] => True | c :: _ => isspace c = true end.
Proof.
  revert n. induction s as [|c s IH]; intros n; [exists [], []; by destruct n|].
  destruct (isspace c) eqn:E.
  - exists [], (c :: s). split_and!; [done| |done|done]. destruct n; [done|]. cbn [take_word]. by rewrite E.
  - destruct (IH (n - 1)%nat) as (tok & rest & -> & Ht & Hf & Hr). exists (c :: tok), rest.
    split_and!; [done| | |done].
    + destruct n as [|n]; [done|]. cbn [take_word]. rewrite E. cbn [take]. f_equal.
      by replace n with (S n - 1)%nat by lia.
    + cbn [forallb]. by rewrite E.
Qed.

Lemma lower_space c : ascii_lower c = 32 -> c = 32.
Proof. unfold ascii_lower. destruct (Z.leb_spec 65 c), (Z.leb_spec c 90); cbn [andb]; lia. Qed.

Lemma parse_use_uses msg n : parse_use msg n <> [] -> exists tok, uses msg tok /\ parse_use msg n = take (n - 1) tok.
Proof.
  unfold parse_use. destruct (skip_space_split msg) as (sp & Hm & Hsp & _).
  destruct (starts_with_ci (skip_space msg) _) eqn:Hs; cbn [negb]; [|done]. intros _.
  apply starts_with_split in Hs as (u & r & Hu & Hlow).
  destruct u as [|a [|b [|c [|d [|? ?]]]]]; try discriminate Hlow. cbn [map] in Hlow.
  assert (d = 32) as -> by (apply lower_space; by injection Hlow).
  rewrite Hu. cbn [app drop]. rewrite drop_0.
  destruct (skip_space_split r) as (gap & Hr & Hgap & _).
  destruct (take_word_split (n - 1) (skip_space r)) as (tok & rest & Ht & Hw & Hf & Hrest).
  exists tok. split; [|done]. exists sp, [a; b; c], gap, rest. split_and!; try done.
  - rewrite Hm at 1. rewrite Hu. cbn [app]. by rewrite Hr at 1; rewrite Ht.
  - cbn [map]. by injection Hlow as -> -> ->.
Qed.

Definition reasons : list bytes :=
  map str ["empty-message"; "explicit-just-chat"; "explicit-use-name"; "no-change-signal"; "classifier";
           "classifier-out-of-catalog"; "defer-no-classifier"].

Lemma default_found cat : well_formed cat -> exists w, wfe_router_default cat = Some w /\ w ∈ cat /\ is_default w = true.
Proof.
  intros Hc. unfold wfe_router_default. destruct (find is_default cat) as [w|] eqn:E.
  - exists w. apply find_some in E as [Hin Hd]. split_and!; [done | by apply list_elem_of_In | done].
  - exfalso. assert (length (filter (fun w => is_default w = true) cat) = 0%nat) as Hz
      by (apply filter_none; intros x Hx%list_elem_of_In Hd; by rewrite (find_none _ _ E x Hx) in Hd).
    pose proof (wfc_defaults cat Hc). lia.
Qed.

Lemma ids_fit cat w : well_formed cat -> w ∈ cat -> snprintf_s WFE_ROUTER_ID_LEN (wf_id w) = wf_id w.
Proof. intros Hc Hw. apply id_valid_fits. exact (proj1 (Forall_forall _ _) (wfc_ids cat Hc) w Hw). Qed.

Lemma wf_unique cat w v : well_formed cat -> w ∈ cat -> v ∈ cat -> wf_id w = wf_id v -> w = v.
Proof.
  intros Hc [i Hi]%list_elem_of_lookup [j Hj]%list_elem_of_lookup E.
  assert (i = j) as <-; [|congruence]. apply (NoDup_lookup (map wf_id cat) i j (wf_id w)).
  - apply (wfc_unique cat Hc).
  - change (map wf_id cat) with (wf_id <$> cat). by rewrite list_lookup_fmap, Hi.
  - change (map wf_id cat) with (wf_id <$> cat). by rewrite list_lookup_fmap, Hj, E.
Qed.

(** The ways a decision comes about. *)
Inductive routed (msg : bytes) (cls : option bytes) (w : wfe_router_wf_t) : wfe_route_decision_t -> Prop :=
  | RD_converse r : wf_id w = converse_id -> r ∈ reasons ->
      routed msg cls w {| workflow_id := wf_id w; source := WFE_ROUTE_SRC_PREFILTER;
                          user_provided_name := false; reason := r |}
  | RD_named tok r : uses msg tok -> wf_id w = take 63 tok -> r ∈ reasons ->
      routed msg cls w {| workflow_id := wf_id w; source := WFE_ROUTE_SRC_PREFILTER;
                          user_provided_name := true; reason := r |}
  | RD_classified r : cls = Some (wf_id w) -> r ∈ reasons ->
      routed msg cls w {| workflow_id := wf_id w; source := WFE_ROUTE_SRC_CLASSIFIER;
                          user_provided_name := false; reason := r |}
  | RD_default r : is_default w = true -> r ∈ reasons ->
      routed msg cls w {| workflow_id := wf_id w; source := WFE_ROUTE_SRC_DEFAULT;
                          user_provided_name := false; reason := r |}.

(** One of the fixed texts, whole in its buffers. *)
Ltac fixed_reason := apply (bool_decide_unpack _); vm_compute; exact I.

Lemma prefilter_cases msg cat :
  match wfe_router_prefilter msg cat WFE_ROUTER_ID_LEN 96 with
  | (WFE_PREFILTER_CONVERSE, _, why) => snprintf_s 96 why ∈ reasons
  | (WFE_PREFILTER_NAMED, id, why) =>
      snprintf_s 96 why ∈ reasons /\ exists w tok, wfe_router_find cat (wf_id w) = Some w
        /\ id = snprintf_s WFE_ROUTER_ID_LEN (wf_id w) /\ uses msg tok /\ wf_id w = take 63 tok
  | (WFE_PREFILTER_DEFER, _, _) => True
  end.
Proof.
  unfold wfe_router_prefilter. destruct (is_blank msg); [fixed_reason|].
  destruct (starts_with_ci _ _); [fixed_reason|].
  destruct (bool_decide (parse_use msg WFE_ROUTER_ID_LEN = [])) eqn:Hn; cbn [negb].
  - destruct (negb _ && negb _); [fixed_reason | done].
  - apply bool_decide_eq_false in Hn. destruct (parse_use_uses _ _ Hn) as (tok & Hu & Ht).
    destruct (wfe_router_find cat _) as [w|] eqn:Hf; [|done]. split; [fixed_reason|].
    destruct (find_in _ _ _ Hf) as [_ Hid]. exists w, tok. rewrite <- Hid in Hf.
    rewrite Hid. split_and!; [by rewrite <- Hid | done | done | by rewrite Ht].
Qed.

Lemma decide_routed msg cat cls : well_formed cat ->
  exists w, w ∈ cat /\ routed msg cls w (wfe_router_decide msg cat cls).
Proof.
  intros Hc. destruct (default_found cat Hc) as (wd & Ed & Hd & Hdd).
  unfold wfe_router_decide. rewrite Ed. pose proof (prefilter_cases msg cat) as Hp.
  destruct (wfe_router_prefilter msg cat _ _) as [[[] id] why].
  - destruct (proj2 (find_id cat converse_id) (wfc_converse cat Hc)) as [w [Hw E]%find_in].
    exists w. split; [done|]. change (str "converse") with converse_id. rewrite <- E, (ids_fit cat w) by done.
    by constructor.
  - destruct Hp as (Hwhy & w & tok & Hf & -> & Hu & Ht). apply find_in in Hf as [Hw _].
    exists w. split; [done|]. rewrite !(ids_fit cat w) by done. by apply (RD_named _ _ _ tok).
  - assert (Hdef : forall r, snprintf_s 96 r ∈ reasons -> exists w, w ∈ cat /\ routed msg cls w
      {| workflow_id := snprintf_s WFE_ROUTER_ID_LEN (wf_id wd); source := WFE_ROUTE_SRC_DEFAULT;
         user_provided_name := false; reason := snprintf_s 96 r |}).
    { intros r Hr. exists wd. split; [done|]. rewrite (ids_fit cat wd) by done. by constructor. }
    destruct cls as [id'|]; [|apply Hdef; fixed_reason].
    destruct (wfe_router_find cat id') as [w|] eqn:Hf; [|apply Hdef; fixed_reason].
    apply find_in in Hf as [Hw <-]. exists w. split; [done|]. rewrite (ids_fit cat w) by done.
    constructor; [done | fixed_reason].
Qed.

(** C30: over a catalog that loaded, every message is routed to one of its
    workflows, and to one that may write only when the first 63 bytes of the
    word after use in the message are its id (see [use_name_cut] for a longer
    word) or the classifier answered its id; the record of the decision is
    one of seven fixed reasons and a catalog id, never text of the message. *)
Theorem route_safe yaml_parse home entries cat msg cls :
  wfe_router_catalog_load yaml_parse home entries = inr cat ->
  let d := wfe_router_decide msg cat cls in
  exists w, w ∈ cat /\ workflow_id d = wf_id w /\ reason d ∈ reasons
    /\ (read_only w = true
        \/ (user_provided_name d = true /\ exists tok, uses msg tok /\ wf_id w = take 63 tok)
        \/ (source d = WFE_ROUTE_SRC_CLASSIFIER /\ cls = Some (wf_id w))).
Proof.
  intros Hl d. pose proof (catalog_load_outcome yaml_parse home entries) as Hg. rewrite Hl in Hg.
  destruct (decide_routed msg cat cls (grown_well_formed cat Hg)) as (w & Hw & Hr).
  destruct (grown_lanes cat w Hg Hw) as [Hcv Hdf]. fold d in Hr. exists w. split; [done|].
  inversion Hr; cbn; split_and!; try done; naive_solver.
Qed.

(** Without the classifier only a name in the message leads to an enforced
    workflow. *)
Lemma enforced_named yaml_parse home entries cat msg w :
  wfe_router_catalog_load yaml_parse home entries = inr cat ->
  wfe_router_find cat (workflow_id (wfe_router_decide msg cat None)) = Some w -> enforced w = true ->
  w ∈ cat /\ exists tok, uses msg tok /\ wf_id w = take 63 tok.
Proof.
  intros Hl [Hw Hid]%find_in He. split; [done|]. pose proof (catalog_load_outcome yaml_parse home entries) as Hg.
  rewrite Hl in Hg. pose proof (grown_well_formed cat Hg) as Hc.
  destruct (decide_routed msg cat None Hc) as (v & Hv & Hr).
  assert (v = w) as -> by (apply (wf_unique cat v w Hc Hv Hw); rewrite Hid; by inversion Hr).
  destruct (grown_lanes cat w Hg Hw) as [Hcv Hdf].
  inversion Hr as [? E|tok ? Hu Ht|? E|? E]; [destruct (Hcv E) | by exists tok | done | destruct (Hdf E) as (_ & _ & ?)];
    congruence.
Qed.

(** A word longer than 63 bytes after use is cut and then looked up, so it
    names a workflow that is only its beginning. *)
Theorem use_name_cut :
  let long := replicate 63 97 in
  let lane := {| wf_id := long; wf_tags := []; is_default := false; read_only := false; enforced := true |} in
  let d := wfe_router_decide (str "use " ++ long ++ str "-and-more") (built_in ++ [lane]) None in
  well_formed (built_in ++ [lane]) /\ workflow_id d = long /\ user_provided_name d = true.
Proof. cbv zeta. split; [apply catalog_validate_iff; by vm_compute | by vm_compute]. Qed.

(** ** The classifier's answer *)

(** A catalog id stands at offset [k] of the text as a word of its own. *)
Definition stands (cat : wfe_router_catalog_t) (before : option Z) (p : bytes) (k : nat) (id : bytes) : Prop :=
  exists a b, p = (a ++ id ++ b)%list /\ length a = k /\ id ∈ map wf_id cat
    /\ match last a with
       | Some c => router_id_char c = false
       | None => match before with Some c => router_id_char c = false | None => True end
       end
    /\ match b with [] => True | c :: _ => router_id_char c = false end.

Lemma id_here_iff p id : id_here p id = true <->
  exists b, p = (id ++ b)%list /\ match b with [] => True | c :: _ => router_id_char c = false end.
Proof.
  revert p. induction id as [|a id IH]; intros p; cbn [id_here].
  - rewrite negb_true_iff. split.
    + intros H. exists p. split; [done|]. by destruct p.
    + intros (b & -> & H). by destruct b.
  - destruct p as [|c p]; [split; [done | by intros (b & ? & _)]|].
    rewrite andb_true_iff, Z.eqb_eq, IH. split.
    + intros [-> (b & -> & Hb)]. by exists b.
    + intros (b & [= -> ->] & Hb). split; [done | by exists b].
Qed.

(** Two ids at one place are the same id. *)
Lemma id_here_unique p i j : forallb router_id_char i = true -> forallb router_id_char j = true ->
  id_here p i = true -> id_here p j = true -> i = j.
Proof.
  revert p j. induction i as [|a i IH]; intros [|c p] [|b j]; cbn [id_here forallb here]; try done;
    rewrite ?andb_true_iff, ?negb_true_iff, ?Z.eqb_eq; intros Hi Hj H1 H2; destruct_and?; subst;
    try congruence.
  f_equal. by eapply IH.
Qed.

Lemma stands_here cat before p id : id <> [] ->
  stands cat before p 0 id <->
  match before with Some c => router_id_char c = false | None => True end /\ id ∈ map wf_id cat
  /\ id_here p id = true.
Proof.
  intros Hne. rewrite id_here_iff. split.
  - intros (a & b & -> & Ha & Hid & Hb & Hr). apply nil_length_inv in Ha as ->. cbn in *. eauto.
  - intros (Hb & Hid & b & -> & Hr). exists [], b. by split_and!.
Qed.

Lemma stands_later cat before c p k id :
  stands cat before (c :: p) (S k) id <-> stands cat (Some c) p k id.
Proof.
  split.
  - intros (a & b & E & Ha & Hid & Hb & Hr). destruct a as [|x a]; [done|]. injection E as -> ->.
    exists a, b. split_and!; try done; [by injection Ha|]. destruct a as [|y a]; [exact Hb|].
    rewrite last_cons in Hb. by destruct (last (y :: a)) eqn:El; [|apply last_None in El].
  - intros (a & b & -> & Ha & Hid & Hb & Hr). exists (c :: a), b. split_and!; try done; [cbn; lia|].
    rewrite last_cons. by destruct (last a).
Qed.

Section Answer.
Context (cat : wfe_router_catalog_t) (Hcat : well_formed cat).

Lemma cat_id id : id ∈ map wf_id cat -> id <> [] /\ forallb router_id_char id = true.
Proof.
  intros (w & -> & Hw)%list_elem_of_fmap. pose proof (proj1 (Forall_forall _ _) (wfc_ids cat Hcat) w Hw) as Hv.
  unfold wfe_router_id_valid in Hv. destruct (wf_id w); [done|].
  apply andb_true_iff in Hv as [Hv _]. by split.
Qed.

(** The search of the inner loop finds the id that stands here, if one does. *)
Lemma find_here p id :
  wf_id <$> find (fun w => id_here p (wf_id w)) cat = Some id <-> id ∈ map wf_id cat /\ id_here p id = true.
Proof.
  split.
  - destruct (find _ cat) as [w|] eqn:E; [|done]. intros [= <-]. apply find_some in E as [Hw Hh].
    split; [apply list_elem_of_fmap; exists w; by rewrite list_elem_of_In | done].
  - intros [Hid Hh]. destruct (find _ cat) as [w|] eqn:E.
    + apply find_some in E as [Hw%list_elem_of_In Hw']. cbn. f_equal.
      apply (id_here_unique p); [|apply cat_id, Hid|done|done].
      apply cat_id, list_elem_of_fmap. eauto.
    + apply list_elem_of_fmap in Hid as (w & -> & Hw%list_elem_of_In). by rewrite (find_none _ _ E w Hw) in Hh.
Qed.

Lemma stands_found before c p i : stands cat before (c :: p) 0 i <->
  match before with Some b => router_id_char b = false | None => True end
  /\ wf_id <$> find (fun w => id_here (c :: p) (wf_id w)) cat = Some i.
Proof.
  rewrite find_here. split.
  - intros Hs. assert (i <> []) by (destruct Hs as (a & b & _ & _ & Hi & _); exact (proj1 (cat_id i Hi))).
    by apply stands_here in Hs.
  - intros (Hb & Hi & Hh). apply stands_here; [exact (proj1 (cat_id i Hi)) | done].
Qed.

(** What one round of the scan remembers. *)
Definition remembered (before : option Z) (p : bytes) (found : option bytes) : option bytes :=
  if match before with Some b => router_id_char b | None => false end then found
  else match find (fun w => id_here p (wf_id w)) cat with Some w => Some (wf_id w) | None => found end.

Lemma remembered_cases before c p found :
  (exists i, stands cat before (c :: p) 0 i /\ remembered before (c :: p) found = Some i)
  \/ ((forall i, ~ stands cat before (c :: p) 0 i) /\ remembered before (c :: p) found = found).
Proof.
  unfold remembered. setoid_rewrite stands_found.
  destruct before as [b|]; [destruct (router_id_char b)|]; [right; naive_solver | |];
    (destruct (find _ cat) as [w|]; [left; by exists (wf_id w) | right; naive_solver]).
Qed.

(** [id] is the last catalog id that stands in the text. *)
Definition last_standing (before : option Z) (p : bytes) (id : bytes) : Prop :=
  exists k, stands cat before p k id /\ forall k' id', stands cat before p k' id' -> (k' <= k)%nat.

Lemma scan_response_iff before p found id :
  scan_response cat before p found = Some id <->
  last_standing before p id \/ ((forall k id', ~ stands cat before p k id') /\ found = Some id).
Proof.
  revert before found. induction p as [|c p IH]; intros before found; cbn [scan_response].
  { assert (Hno : forall k id', ~ stands cat before [] k id').
    { intros k id' (a & b & E & _ & Hid & _). apply cat_id in Hid as [Hne _]. by destruct a, id'. }
    split; [by right | intros [(k & Hk & _) | [_ H]]; [by destruct (Hno k id) | done]]. }
  rewrite IH. clear IH. fold (remembered before (c :: p) found).
  pose proof (remembered_cases before c p found) as Hfound. set (found' := remembered _ _ _) in *.
  clearbody found'. split.
  - intros [(k & Hk & Hmax) | [Hno ->]].
    + left. exists (S k). split; [by apply stands_later|]. intros [|k'] id' Hk'; [lia|].
      apply stands_later in Hk'. apply Hmax in Hk'. lia.
    + destruct Hfound as [(i & Hi & [= ->]) | [Hn <-]].
      * left. exists 0%nat. split; [done|]. intros [|k'] id' Hk'; [lia|].
        apply stands_later in Hk'. by destruct (Hno k' id').
      * right. split; [|done]. intros [|k'] id' Hk'; [by destruct (Hn id')|].
        apply stands_later in Hk'. by destruct (Hno k' id').
  - intros [(k & Hk & Hmax) | [Hno ->]].
    + destruct k as [|k].
      * right. split.
        -- intros k' id' Hk'. apply (stands_later cat before c p), Hmax in Hk'. lia.
        -- destruct Hfound as [(i & [_ Hi]%stands_found & ->) | [Hn _]]; [|by destruct (Hn id)].
           apply stands_found in Hk as [_ Hk]. congruence.
      * left. exists k. split; [by apply stands_later in Hk|]. intros k' id' Hk'.
        apply (stands_later cat before c p), Hmax in Hk'. lia.
    + destruct Hfound as [(i & Hi & _) | [_ ->]]; [by destruct (Hno 0%nat i)|]. right. split; [|done].
      intros k id' Hk. apply (stands_later cat before c p) in Hk. by destruct (Hno (S k) id').
Qed.
End Answer.

(** Over a well-formed catalog and with room for an id, the classifier's
    reply is read as the last catalog id that stands in it as a word of its
    own, and as no answer exactly when none does. *)
Theorem classification_iff response cat n id :
  well_formed cat -> (WFE_ROUTER_ID_LEN <= n)%nat ->
  wfe_router_parse_classification response cat n = Some id <-> last_standing cat None response id.
Proof.
  intros Hc Hn. unfold wfe_router_parse_classification.
  assert (Hfit : forall i, scan_response cat None response None = Some i -> snprintf_s n i = i).
  { intros i [(k & (a & b & _ & _ & Hi & _) & _) | [_ Hi]]%scan_response_iff; [|done|done].
    apply list_elem_of_fmap in Hi as (w & -> & Hw). pose proof (proj1 (Forall_forall _ _) (wfc_ids cat Hc) w Hw) as Hv.
    unfold wfe_router_id_valid in Hv. destruct (wf_id w) as [|x l] eqn:E; [done|].
    apply andb_true_iff in Hv as [_ Hl%Nat.ltb_lt]. apply snprintf_s_fits. lia. }
  split.
  - destruct (scan_response _ _ _ _) as [i|] eqn:E; [|done]. cbn. rewrite Hfit by done. intros [= <-].
    apply scan_response_iff in E as [?|[_ ?]]; done.
  - intros Hl. assert (scan_response cat None response None = Some id) as E by (apply scan_response_iff; auto).
    rewrite E. cbn. by rewrite Hfit.
Qed.

(** The header says the first id wins; the last one does. *)
Theorem last_id_wins :
  wfe_router_parse_classification (str "not converse but research") built_in 64 = Some (str "research").
Proof. by vm_compute. Qed.

(** ** Samples *)

Definition sample_yaml (_ : bytes) : option json :=
  Some (JObject [(str "name", JString (str "managed-change")); (str "enforced", JBool true)]).

Definition sample_dir : list dir_entry :=
  [{| d_name := str "managed-change.yaml"; d_file := Some (true, 3, str "a: b") |};
   {| d_name := str "notes.txt"; d_file := None |}].

Definition sample_catalog : wfe_router_catalog_t :=
  (built_in ++ [{| wf_id := str "managed-change"; wf_tags := []; is_default := false; read_only := false;
                   enforced := true |}])%list.

Lemma sample_loads : wfe_router_catalog_load sample_yaml (str "/home/a") (Some sample_dir) = inr sample_catalog.
Proof. by vm_compute. Qed.

Lemma route_safe_witness :
  let d := wfe_router_decide (str "Use managed-change: fix the parser") sample_catalog None in
  exists w, w ∈ sample_catalog /\ workflow_id d = wf_id w /\ reason d ∈ reasons
    /\ (read_only w = true
        \/ (user_provided_name d = true
            /\ exists tok, uses (str "Use managed-change: fix the parser") tok /\ wf_id w = take 63 tok)
        \/ (source d = WFE_ROUTE_SRC_CLASSIFIER /\ None = Some (wf_id w))).
Proof. apply (route_safe sample_yaml (str "/home/a") (Some sample_dir)), sample_loads. Defined.

Lemma classification_iff_witness :
  last_standing built_in None (str "not converse but research") (str "research").
Proof.
  apply (classification_iff (str "not converse but research") built_in 64 (str "research"));
    [apply catalog_validate_iff; vm_compute; reflexivity | unfold WFE_ROUTER_ID_LEN; lia | vm_compute; reflexivity].
Defined.
End WfeRouter.
