(* ===== verification/WfeIngress.v ===== *)
(** * Binding a session to a work item
    ([wfe_bind_ingress.c], [wfe_autonomous_route.c], [router_advise.c])

    The path from a message to a binding: the dial, the lookup of the session,
    the router, the creation or resumption of the session's work item, the
    bind and its bookkeeping; and the choice of a workflow for an autonomous
    submission.  The state is the store, the table of bindings and the two
    counters of the health detector.  The lookup of a binding is a parameter,
    so that the theorems hold of the client that exists and of the documented
    one; the catalog of a call is what loading it answered; the JSON printer
    and the reply of the workflows module are parameters too.

    Shown: two sessions never come to share a work item, whatever happens to
    the rows in between; a call binds a session only with the dial on and a
    message that names an enforced workflow; an autonomous submission gets an
    approved workflow or the floor; and, with the client that exists and the
    arguments its only caller passes, a call never answers that the session
    is bound. *)

From Stdlib Require Import ZArith Lia String Ascii.
From stdpp Require Import base numbers option list countable gmap fin_maps.
From S2P Require Import Prelude Json WfeDef WfeCustom WfeValidate WfeStore WfeEngine WfeApproval WfeBinding WfeEnforce WfeRouter.

Import WfeDef WfeCustom WfeStore WfeEngine WfeApproval WfeBinding WfeEnforce WfeRouter.

Open Scope string_scope.
Open Scope Z_scope.

Module WfeIngress.

(** ** The health detector *)

Definition BIND_HEALTH_WARN_AFTER : Z := 3.

Record health := { routes_since_bind : Z; health_warned : bool }.

(** The counters, and the number in the warning when one is logged. *)
Definition wfe_bind_health_note_enforced_route (h : health) : health * option Z :=
  let since := routes_since_bind h + 1 in
  if (BIND_HEALTH_WARN_AFTER <=? since) && negb (health_warned h)
  then ({| routes_since_bind := since; health_warned := true |}, Some since)
  else ({| routes_since_bind := since; health_warned := health_warned h |}, None).

Definition wfe_bind_health_note_bind (h : health) : health :=
  {| routes_since_bind := 0; health_warned := false |}.

(** ** The state *)

Record ingress := { i_db : db; i_table : table; i_health : health }.

Definition with_db (s : db) (i : ingress) : ingress :=
  {| i_db := s; i_table := i_table i; i_health := i_health i |}.

Definition with_table (t : table) (i : ingress) : ingress :=
  {| i_db := i_db i; i_table := t; i_health := i_health i |}.

Definition with_health (h : health) (i : ingress) : ingress :=
  {| i_db := i_db i; i_table := i_table i; i_health := h |}.

(** ** The store calls *)

(** 1 with the row. *)
Definition db1_work_item_get (wi : bytes) (s : db) : option db1_work_item_t :=
  if bool_decide (wi = []) then None else rows s !! wi.

(** 1 with an id that fits the buffer of [n] bytes; an empty repository is an
    error of the client. *)
Definition db1_work_item_id_by_proposal (repo path : bytes) (n : nat) (s : db) : option bytes :=
  if bool_decide (repo = []) || bool_decide (path = []) || (n =? 0)%nat then None
  else
    match map_to_list (filter (fun kv => wi_repo kv.2 = repo /\ wi_proposal_path kv.2 = path) (rows s)) with
    | (id, _) :: _ => if negb (bool_decide (id = [])) && (length id <? n)%nat then Some id else None
    | [] => None
    end.

Section Ingress.
Context (reg : registry) (memory : bool) (load_workflow : bytes -> option wfe_def_t) (compute_version : wfe_def_t -> bytes).
Context (binding_get : table -> bytes -> option nat -> binding_answer).
Context (print_object : list (bytes * bytes) -> option bytes).

(** ** Records *)

Definition bind_event (wi kind detail : bytes) : db1_lifecycle_event_t :=
  {| ev_work_item_id := wi; ev_stage := []; ev_kind := kind; ev_actor := str "bind-s2"; ev_detail := detail;
     ev_content_hash := []; ev_cost_usd := d_zero |}.

Definition audit_bind (wi workflow stage : bytes) (resumed : bool) (s : db) : db :=
  match print_object [(str "workflow", workflow); (str "stage", stage)] with
  | None => s
  | Some d => (db1_lifecycle_event_add (bind_event wi (if resumed then str "resume" else str "bind") d) s).2
  end.

Definition held_detail (held current : bytes) : bytes :=
  ([123] ++ json_text "held" held ++ [44] ++ json_text "current" current ++ [125])%list.

Definition wfe_scope_add_surface (catalog : load_err + wfe_router_catalog_t) (wi message : bytes) (s : db) : db :=
  if bool_decide (wi = []) || bool_decide (message = []) then s
  else
    match db1_work_item_get wi s, catalog with
    | Some item, inr cat =>
        let d := wfe_router_decide message cat None in
        match wfe_router_find cat (workflow_id d) with
        | None => s
        | Some w =>
            if negb (enforced w) || bytes_eqb (workflow_id d) (wi_workflow_name item) then s
            else
              let detail := snprintf_s 192 (held_detail (workflow_id d) (wi_workflow_name item)) in
              let already := existsb (fun e => bytes_eqb (ev_kind e) (str "scope_add_held")
                                               && bytes_eqb (ev_detail e) detail)
                               (default [] (db1_lifecycle_event_list wi s)) in
              if already then s
              else (db1_lifecycle_event_add (bind_event wi (str "scope_add_held") detail) s).2
        end
    | _, _ => s
    end.

(** ** The bind *)

(** The last part: bind [id] and keep the books. *)
Definition bind_item (stage : wfe_enforce_stage_t) (now ttl : Z) (session id workflow : bytes) (resumed : bool)
    (i : ingress) : Z * ingress :=
  let '(rc, t) := db1_wfe_bind session id (wfe_enforce_stage_name stage) (i_table i) in
  let i := with_table t i in
  if negb (rc =? 0) then (0, i)
  else
    let i := with_table (db1_wfe_lease_renew now session ttl (i_table i)).2 i in
    let i := with_db (audit_bind id workflow (wfe_enforce_stage_name stage) resumed (i_db i)) i in
    (1, with_health (wfe_bind_health_note_bind (i_health i)) i).

(** From the routed workflow on.  [printed] is what [snprintf] was asked to
    write, whose length it answers; [proposal] what fits the buffer. *)
Definition bind_routed (stage : wfe_enforce_stage_t) (now ttl : Z) (session : bytes) (repo rnd : option bytes)
    (workflow : bytes) (i : ingress) : Z * ingress :=
  let printed := (str "interactive/" ++ session)%list in
  let proposal := snprintf_s 128 printed in
  if (128 <=? length printed)%nat then (0, i)
  else
    match wfe_work_item_create reg memory load_workflow compute_version workflow (Some (default [] repo)) proposal
            (str "interactive") rnd (i_db i) with
    | (inr id, s) => bind_item stage now ttl session id workflow false (with_db s i)
    | (inl _, s) =>
        match db1_work_item_id_by_proposal (default [] repo) proposal 80 s with
        | Some id => bind_item stage now ttl session id workflow true (with_db s i)
        | None => (0, with_db s i)
        end
    end.

(** [env] is the dial, [rnd] the random bytes of a new id, [ttl] the lease,
    [catalog] what loading the catalog answers in this call. *)
Definition wfe_bind_interactive (env : option bytes) (catalog : load_err + wfe_router_catalog_t)
    (now ttl : Z) (rnd : option bytes) (session_id message repo : option bytes) (i : ingress) : Z * ingress :=
  match session_id with
  | None | Some [] => (0, i)
  | Some session =>
      let stage := wfe_enforce_stage_parse env in
      if bool_decide (stage = WFE_ENFORCE_OFF) then (0, i)
      else
        let i := with_table (wfeLeaseReclaimStale now (i_table i)).2 i in
        match binding_get (i_table i) session None with
        | BG_bound (c :: wi) _ =>
            (1, with_db (wfe_scope_add_surface catalog (c :: wi) (default [] message) (i_db i)) i)
        | _ =>
            if bool_decide (default [] message = []) then (0, i)
            else
              match catalog with
              | inl _ => (0, i)
              | inr cat =>
                  let d := wfe_router_decide (default [] message) cat None in
                  match wfe_router_find cat (workflow_id d) with
                  | None => (0, i)
                  | Some w =>
                      if negb (enforced w) then (0, i)
                      else
                        let i := with_health (wfe_bind_health_note_enforced_route (i_health i)).1 i in
                        bind_routed stage now ttl session repo rnd (workflow_id d) i
                  end
              end
        end
  end.
End Ingress.

(** ** Autonomous submissions *)

Definition WFE_AUTONOMOUS_FLOOR : bytes := str "managed-change".
Definition WFE_SWEEP_WORKFLOW_FLOOR : bytes := str "manual-review".
Definition WFE_AUTONOMOUS_ID_MAX : nat := 128.

Section Autonomous.
(** The workflows module: its reply to a router id and the flag. *)
Context (module_call : bytes -> bool -> option json).

Definition autonomous_route (router_id : option bytes) (enforced : bool) (out_len : nat) : bool * bytes :=
  match module_call (default [] router_id) enforced with
  | None => (false, [])
  | Some reply =>
      let sel := cJSON_IsTrue (cJSON_GetObjectItemCaseSensitive (Some reply) (str "selectable")) in
      let workflow := cJSON_GetObjectItemCaseSensitive (Some reply) (str "workflow") in
      if negb sel then (false, [])
      else
        match json_string workflow, out_len with
        | Some (c :: name), S _ => if (length (c :: name) <? out_len)%nat then (true, c :: name) else (false, [])
        | _, _ => (false, [])
        end
  end.

Definition wfe_autonomous_selectable (id : option bytes) (enforced : bool) : bool :=
  (autonomous_route id enforced WFE_AUTONOMOUS_ID_MAX).1.

(** The workflow and the clamped flag. *)
Definition wfe_autonomous_clamp (router_id : bytes) (enforced : bool) : bytes * bool :=
  let sel := (autonomous_route (Some router_id) enforced WFE_AUTONOMOUS_ID_MAX).1 in
  (if sel then router_id else WFE_AUTONOMOUS_FLOOR, negb sel).

(** *** The workflows module ([server-go/modules/workflows/autonomous.go]) *)

Definition readOnlyLanes : list bytes := [str "converse"; str "research"].

Definition AutonomousSelectable (id : bytes) (enforced : bool) : bool :=
  if bool_decide (id = []) || negb enforced then false else negb (existsb (bytes_eqb id) readOnlyLanes).

(** The reply, as the caller reads it. *)
Definition AutonomousClamp (router_id : bytes) (enforced : bool) : json :=
  let sel := AutonomousSelectable router_id enforced in
  JObject [(str "selectable", JBool sel);
           (str "workflow", JString (if sel then router_id else WFE_AUTONOMOUS_FLOOR));
           (str "clamped", JBool (negb sel))].

(** The tag of a proposal: eight hexadecimal digits of a 32-bit hash. *)
Definition hex32 (v : Z) : bytes :=
  map (fun i => let d := Z.land (Z.shiftr v (4 * i)) 15 in if d <? 10 then 48 + d else 87 + d)
    [7; 6; 5; 4; 3; 2; 1; 0].

Definition s4_proposal_tag (s : bytes) (n : nat) : bytes :=
  snprintf_s n (hex32 (fold_left fnv_step s 2166136261)).

Record pick := { p_workflow : bytes; p_source : bytes; p_raw : bytes; p_tag : bytes; p_clamped : bool }.

(** The sizes are those of the output buffers. *)
Definition router_autonomous_pick (catalog : load_err + wfe_router_catalog_t) (text : bytes)
    (wf_n src_n raw_n tag_n : nat) : pick :=
  let tag := s4_proposal_tag text tag_n in
  match catalog with
  | inl _ => {| p_workflow := snprintf_s wf_n WFE_AUTONOMOUS_FLOOR; p_source := snprintf_s src_n (str "cat-error");
                p_raw := []; p_tag := tag; p_clamped := true |}
  | inr cat =>
      let d := wfe_router_decide text cat None in
      let flag := match wfe_router_find cat (workflow_id d) with Some w => enforced w | None => false end in
      let '(chosen, clamped) := wfe_autonomous_clamp (workflow_id d) flag in
      {| p_workflow := snprintf_s wf_n chosen; p_source := snprintf_s src_n (source_name (source d));
         p_raw := snprintf_s raw_n (workflow_id d); p_tag := tag; p_clamped := clamped |}
  end.
End Autonomous.

(** ** What a call leaves in the rows *)

Definition session_path (session : bytes) : bytes := (str "interactive/" ++ session)%list.

Lemma session_path_inj s1 s2 : session_path s1 = session_path s2 -> s1 = s2.
Proof. apply app_inv_head. Qed.

(** The rows of [s] are there in [s'] with their repository and path. *)
Definition keeps_paths (s s' : db) : Prop :=
  forall id w, rows s !! id = Some w ->
    exists w', rows s' !! id = Some w' /\ wi_proposal_path w' = wi_proposal_path w /\ wi_repo w' = wi_repo w.

Lemma keeps_paths_refl s : keeps_paths s s.
Proof. intros id w. eauto. Qed.

Lemma keeps_paths_rows s s' : rows s = rows s' -> keeps_paths s s'.
Proof. intros E id w. rewrite E. eauto. Qed.

Lemma event_add_rows e s : rows (db1_lifecycle_event_add e s).2 = rows s.
Proof. unfold db1_lifecycle_event_add. by destruct (bool_decide _). Qed.

Lemma audit_bind_rows print wi wf st resumed s : rows (audit_bind print wi wf st resumed s) = rows s.
Proof. unfold audit_bind. destruct (print _); [apply event_add_rows | done]. Qed.

Lemma scope_add_rows catalog wi message s : rows (wfe_scope_add_surface catalog wi message s) = rows s.
Proof.
  unfold wfe_scope_add_surface. repeat (case_match; try done). apply event_add_rows.
Qed.

(** A creation adds the new item under its path, or fails and leaves the
    rows. *)
Lemma create_rows reg memory load ver workflow repo path mode rnd s :
  match wfe_work_item_create reg memory load ver workflow repo path mode rnd s with
  | (inr id, s') => exists w, rows s !! id = None /\ rows s' = <[id := w]> (rows s)
      /\ wi_proposal_path w = path /\ wi_repo w = normalize_repo 512 repo /\ id <> []
      /\ (forall id' w', rows s !! id' = Some w' -> wi_repo w' = normalize_repo 512 repo ->
          wi_proposal_path w' <> path)
  | (inl _, s') => s' = s
  end.
Proof.
  unfold wfe_work_item_create.
  destruct (wfe_work_item_resolve _ _ _ _ _ _ _) as [e|[[[[name v] start] norm] id]] eqn:Er; [done|].
  assert (norm = normalize_repo 512 repo) as ->.
  { unfold wfe_work_item_resolve in Er. repeat (case_match; try done). by injection Er. }
  unfold workItemCreate. destruct (bool_decide (id = [])) eqn:E1; [done|].
  destruct (bool_decide (is_Some _)) eqn:E2; [done|].
  destruct (bool_decide (map_Exists _ _)) eqn:E3; [done|]. cbn [orb].
  apply bool_decide_eq_false in E1, E2, E3. eexists. split_and!; [| reflexivity | done | done | done |].
  - destruct (rows s !! id); [by destruct E2 | done].
  - intros id' w' Hw Hr Hp. apply E3. apply map_Exists_lookup. eauto.
Qed.

Lemma by_proposal_found repo path n s id : db1_work_item_id_by_proposal repo path n s = Some id ->
  repo <> [] /\ id <> [] /\ exists w, rows s !! id = Some w /\ wi_proposal_path w = path /\ wi_repo w = repo.
Proof.
  unfold db1_work_item_id_by_proposal. destruct (bool_decide (repo = [])) eqn:Er; [done|].
  apply bool_decide_eq_false in Er. destruct (_ || _); [done|].
  destruct (map_to_list _) as [|[k w] l] eqn:E; [done|].
  destruct (bool_decide (k = [])) eqn:Ek; [done|]. destruct (length k <? n)%nat; [|done]. intros [= ->].
  apply bool_decide_eq_false in Ek. split_and!; [done..|]. assert (Hin : (id, w) ∈ map_to_list
    (filter (fun kv => wi_repo kv.2 = repo /\ wi_proposal_path kv.2 = path) (rows s))) by (rewrite E; left).
  apply elem_of_map_to_list, map_lookup_filter_Some in Hin as [Hw [Hr Hp]]. by exists w.
Qed.

(** ** The table of bindings *)

Definition item_of (t : table) (session : bytes) : option bytes := b_work_item <$> t !! session.

Lemma reclaim_items now t session : item_of (wfeLeaseReclaimStale now t).2 session = item_of t session.
Proof.
  unfold item_of, wfeLeaseReclaimStale. cbn [snd]. rewrite lookup_fmap.
  destruct (t !! session) as [b|]; [|done]. cbn. by destruct (lease_stale now b).
Qed.

Lemma renew_items now ttl session t s' :
  item_of (db1_wfe_lease_renew now session ttl t).2 s' = item_of t s'.
Proof.
  unfold item_of, db1_wfe_lease_renew, wfeLeaseRenew. destruct (bool_decide (session = [])); [done|].
  destruct (t !! session) as [b|] eqn:E; [|done]. cbn [snd].
  destruct (decide (s' = session)) as [->|Hn]; [|by rewrite lookup_insert_ne].
  by rewrite lookup_insert_eq, E.
Qed.

Lemma bind_items session id stage t : session <> [] -> id <> [] ->
  (forall s', item_of (db1_wfe_bind session id stage t).2 s'
              = if decide (s' = session) then Some id else item_of t s')
  /\ (db1_wfe_bind session id stage t).1 = match item_of t session with Some _ => 0 | None => 1 end.
Proof.
  intros Hs Hid. unfold item_of, db1_wfe_bind, wfeBind.
  rewrite (bool_decide_false (session = [])), (bool_decide_false (id = [])) by done. cbn [orb].
  split; [intros s'|]; destruct (t !! session) eqn:E; cbn [snd fst fmap option_fmap option_map]; try done;
    (destruct (decide (s' = session)) as [->|Hn]; [by rewrite lookup_insert_eq | by rewrite lookup_insert_ne]).
Qed.

(** ** Whose item it is *)

Section Own.
Context (R : bytes -> Prop).

(** A session's item is a row under that session's path, with a repository
    that [R] allows. *)
Definition own (i : ingress) : Prop :=
  forall session wi, item_of (i_table i) session = Some wi ->
    exists w, rows (i_db i) !! wi = Some w /\ wi_proposal_path w = session_path session /\ R (wi_repo w).

Lemma own_frame i i' :
  (forall s, item_of (i_table i') s = item_of (i_table i) s) -> keeps_paths (i_db i) (i_db i') ->
  own i -> own i'.
Proof.
  intros Ht Hd Ho session wi. rewrite Ht. intros (w & Hw & Hp & Hr)%Ho.
  destruct (Hd wi w Hw) as (w' & Hw' & Hp' & Hr'). exists w'. rewrite Hp', Hr'. done.
Qed.

Lemma bind_item_own print stage now ttl session id wf resumed i w :
  session <> [] -> id <> [] -> own i -> rows (i_db i) !! id = Some w -> wi_proposal_path w = session_path session ->
  R (wi_repo w) -> own (bind_item print stage now ttl session id wf resumed i).2.
Proof.
  intros Hs Hid Ho Hw Hp Hr. unfold bind_item.
  destruct (bind_items session id (wfe_enforce_stage_name stage) (i_table i) Hs Hid) as [Hi _].
  destruct (db1_wfe_bind _ _ _ _) as [rc t]. cbn [snd] in Hi.
  assert (Hb : own (with_table t i)).
  { intros s wi. cbn [i_table with_table i_db]. rewrite Hi. destruct (decide (s = session)) as [->|]; [|apply Ho].
    intros [= <-]. by exists w. }
  destruct (negb (rc =? 0)); [done|]. cbn [snd].
  apply (own_frame (with_table t i)); [intros s; apply renew_items | | done].
  apply keeps_paths_rows. cbn. by rewrite audit_bind_rows.
Qed.

Context (reg : registry) (memory : bool) (load_workflow : bytes -> option wfe_def_t) (compute_version : wfe_def_t -> bytes).
Context (binding_get : table -> bytes -> option nat -> binding_answer).
Context (print_object : list (bytes * bytes) -> option bytes).

Lemma bind_routed_own stage now ttl session repo rnd wf i :
  session <> [] -> R (normalize_repo 512 (Some (default [] repo))) -> R (default [] repo) -> own i ->
  own (bind_routed reg memory load_workflow compute_version print_object stage now ttl session repo rnd wf i).2.
Proof.
  intros Hs Hn Hrepo Ho. unfold bind_routed. destruct (Nat.leb_spec 128 (length (str "interactive/" ++ session))) as [|Hl]; [done|].
  rewrite snprintf_s_fits by exact Hl. cbv zeta. clear Hl.
  pose proof (create_rows reg memory load_workflow compute_version wf (Some (default [] repo)) (session_path session)
    (str "interactive") rnd (i_db i)) as Hc. fold (session_path session).
  destruct (wfe_work_item_create _ _ _ _ _ _ _ _ _ _) as [[e|id] s].
  - subst s. destruct (db1_work_item_id_by_proposal _ _ _ _) as [id|] eqn:E.
    + apply by_proposal_found in E as (_ & Hid & w & Hw & Hp & Hr). apply (bind_item_own _ _ _ _ _ _ _ _ _ w); try done.
      by rewrite Hr.
    + by apply (own_frame i); [|apply keeps_paths_refl|].
  - destruct Hc as (w & Hnew & Hrows & Hp & Hr & Hid & _).
    apply (bind_item_own _ _ _ _ _ _ _ _ _ w); try done; [|cbn; by rewrite Hrows, lookup_insert_eq | by rewrite Hr].
    apply (own_frame i); [done | | done]. intros k v Hk. exists v. cbn. rewrite Hrows.
    by rewrite lookup_insert_ne by congruence.
Qed.

Lemma bind_interactive_own env catalog now ttl rnd session message repo i :
  R (normalize_repo 512 (Some (default [] repo))) -> R (default [] repo) -> own i ->
  own (wfe_bind_interactive reg memory load_workflow compute_version binding_get print_object env catalog now ttl rnd
         session message repo i).2.
Proof.
  intros Hn Hrepo Ho. unfold wfe_bind_interactive. destruct session as [[|c session]|]; [done| |done].
  destruct (bool_decide _); [done|]. set (i1 := with_table _ i).
  assert (H1 : own i1) by (apply (own_frame i); [intros s; apply reclaim_items | apply keeps_paths_refl | done]).
  clearbody i1.
  assert (H0 : forall z : Z, own (z, i1).2) by done.
  destruct (binding_get _ _ _) as [| |[|b wi] st].
  all: try (by apply (own_frame i1); [|apply keeps_paths_rows; cbn; by rewrite scope_add_rows|]).
  all: destruct (bool_decide _); [apply H0|]; destruct catalog as [|cat]; [apply H0|].
  all: destruct (wfe_router_find cat _) as [w|]; [|apply H0]; destruct (negb (enforced w)); [apply H0|].
  all: apply bind_routed_own; done.
Qed.
End Own.

(** ** Calls, and what happens between them *)

(** A call with any environment, and any change of the store that keeps the
    rows and where they came from: engine steps, gates, other requests. *)
Inductive istep (R : bytes -> Prop) (G : (table -> bytes -> option nat -> binding_answer) -> Prop)
    : ingress -> ingress -> Prop :=
  | IS_call reg memory load ver get print env catalog now ttl rnd session message repo i :
      G get -> R (normalize_repo 512 (Some (default [] repo))) -> R (default [] repo) ->
      istep R G i (wfe_bind_interactive reg memory load ver get print env catalog now ttl rnd session message repo i).2
  | IS_rows i s : keeps_paths (i_db i) s -> istep R G i (with_db s i).

Lemma own_steps R G i i' : rtc (istep R G) i i' -> own R i -> own R i'.
Proof.
  induction 1 as [|i j k Hs _ IH]; [done|]. intros Ho. apply IH.
  destruct Hs; [by apply bind_interactive_own | by apply (own_frame R i)].
Qed.

Lemma own_empty R i : i_table i = ∅ -> own R i.
Proof. intros E session wi. unfold item_of. by rewrite E, lookup_empty. Qed.

(** C31: sessions never come to share a work item: from an empty table, after
    any calls with any lookup, catalog, dial and message and any changes of the
    store between them that keep the rows, two sessions bound to one item are
    one session. *)
Theorem sessions_apart i0 i s1 s2 b1 b2 :
  i_table i0 = ∅ -> rtc (istep (fun _ => True) (fun _ => True)) i0 i ->
  i_table i !! s1 = Some b1 -> i_table i !! s2 = Some b2 -> b_work_item b1 = b_work_item b2 -> s1 = s2.
Proof.
  intros H0 Hsteps H1 H2 E.
  pose proof (own_steps _ _ _ _ Hsteps (own_empty _ i0 H0)) as Ho.
  destruct (Ho s1 (b_work_item b1)) as (w1 & Hw1 & Hp1 & _); [unfold item_of; by rewrite H1|].
  destruct (Ho s2 (b_work_item b2)) as (w2 & Hw2 & Hp2 & _); [unfold item_of; by rewrite H2|].
  apply session_path_inj. congruence.
Qed.

(** ** When a call binds *)

Lemma bind_item_others print stage now ttl session id wf resumed i s' :
  s' <> session ->
  item_of (i_table (bind_item print stage now ttl session id wf resumed i).2) s' = item_of (i_table i) s'.
Proof.
  intros Hn. unfold bind_item.
  assert (Hb : item_of (db1_wfe_bind session id (wfe_enforce_stage_name stage) (i_table i)).2 s'
               = item_of (i_table i) s').
  { unfold db1_wfe_bind. destruct (_ || _); [done|]. unfold wfeBind, item_of.
    destruct (i_table i !! session); cbn [snd]; by rewrite lookup_insert_ne. }
  destruct (db1_wfe_bind _ _ _ _) as [rc t]. cbn [snd] in Hb. destruct (negb _); [done|].
  cbn. by rewrite renew_items.
Qed.

Lemma bind_routed_others reg memory load ver print stage now ttl session repo rnd wf i s' :
  s' <> session ->
  item_of (i_table (bind_routed reg memory load ver print stage now ttl session repo rnd wf i).2) s' = item_of (i_table i) s'.
Proof.
  intros Hn. unfold bind_routed. destruct (128 <=? _)%nat; [done|].
  destruct (wfe_work_item_create _ _ _ _ _ _ _ _ _ _) as [[e|id] s].
  - destruct (db1_work_item_id_by_proposal _ _ _ _); [by rewrite bind_item_others | done].
  - by rewrite bind_item_others.
Qed.

(** A call changes the item of a session only if it is the call's own
    session, the dial is on and the message names, by use and an id of the
    loaded catalog, an enforced workflow; a change verb or a path in the text
    is not enough, and the classifier is not asked. *)
Theorem binds_only_named yaml_parse home entries cat reg memory load ver get print env now ttl rnd session message repo i s' :
  wfe_router_catalog_load yaml_parse home entries = inr cat ->
  item_of (i_table (wfe_bind_interactive reg memory load ver get print env (inr cat) now ttl rnd session message repo i).2) s'
    <> item_of (i_table i) s' ->
  session = Some s' /\ wfe_enforce_stage_parse env <> WFE_ENFORCE_OFF
  /\ exists w tok, w ∈ cat /\ enforced w = true /\ uses (default [] message) tok /\ wf_id w = take 63 tok.
Proof.
  intros Hload. unfold wfe_bind_interactive. destruct session as [[|c session]|]; [done| |done].
  destruct (bool_decide _) eqn:Hst; [done|]. apply bool_decide_eq_false in Hst.
  rewrite <- (reclaim_items now (i_table i) s'). set (i1 := with_table _ i).
  change (wfeLeaseReclaimStale now (i_table i)).2 with (i_table i1). clearbody i1.
  destruct (get _ _ _) as [| |[|b wi] st]; try done.
  all: destruct (bool_decide (default [] message = [])); [done|].
  all: destruct (wfe_router_find cat _) as [w|] eqn:Hf; [|done].
  all: destruct (enforced w) eqn:He; cbn [negb]; [|done]; intros Hch.
  all: destruct (enforced_named _ _ _ _ _ _ Hload Hf He) as (Hw & tok & Hu & Ht).
  all: (split_and!; [|done|by exists w, tok]).
  all: f_equal; destruct (decide (s' = c :: session)) as [->|Hn]; [done|]; destruct Hch.
  all: by rewrite bind_routed_others.
Qed.

(** ** The client that exists *)

(** With the client's own lookup and no repository, which is how the
    router's hook calls it, a call never answers that the session is bound,
    whatever calls and store changes came before: the first bind is taken for a
    failure, and a later turn can neither see the binding nor resume its item. *)
Theorem bind_never_reported i0 i reg memory load ver print env catalog now ttl rnd session message :
  i_table i0 = ∅ -> rtc (istep (fun repo => repo = []) (fun get => get = client_get)) i0 i ->
  (wfe_bind_interactive reg memory load ver client_get print env catalog now ttl rnd session message None i).1 = 0.
Proof.
  intros H0 Hsteps. pose proof (own_steps _ _ _ _ Hsteps (own_empty _ i0 H0)) as Ho.
  unfold wfe_bind_interactive. destruct session as [[|c session]|]; [done| |done].
  destruct (bool_decide _); [done|]. rewrite client_get_no_stage.
  destruct (bool_decide _); [done|]. destruct catalog as [|cat]; [done|].
  destruct (wfe_router_find cat _) as [w|]; [|done]. destruct (negb (enforced w)); [done|].
  set (i1 := with_health _ _). assert (Ht : forall s, item_of (i_table i1) s = item_of (i_table i) s)
    by (intros s; apply reclaim_items). assert (Hd : i_db i1 = i_db i) by done. clearbody i1.
  unfold bind_routed. destruct (Nat.leb_spec 128 (length (str "interactive/" ++ c :: session))) as [|Hl]; [done|].
  rewrite snprintf_s_fits by exact Hl. cbv zeta. clear Hl. cbn [default from_option id].
  pose proof (create_rows reg memory load ver (workflow_id (wfe_router_decide (default [] message) cat None)) (Some [])
    (session_path (c :: session)) (str "interactive") rnd (i_db i1)) as Hc. unfold session_path in Hc.
  destruct (wfe_work_item_create _ _ _ _ _ _ _ _ _ _) as [[e|id] s]; [done|].
  destruct Hc as (w' & _ & _ & _ & _ & Hid & Hfree). unfold bind_item.
  destruct (bind_items (c :: session) id (wfe_enforce_stage_name (wfe_enforce_stage_parse env)) (i_table i1))
    as [_ Hrc]; [done|done|]. cbn [i_table with_db].
  destruct (db1_wfe_bind _ _ _ _) as [rc t]. cbn [fst] in Hrc. rewrite Ht in Hrc. subst rc.
  destruct (item_of (i_table i) (c :: session)) as [wi|] eqn:E; [|done]. exfalso.
  apply Ho in E as (w0 & Hw0 & Hp & Hr). rewrite Hd in Hfree. by apply (Hfree wi w0 Hw0).
Qed.

(** ** Autonomous submissions *)

(** The module answers, or its call fails. *)
Definition module_keeps (call : bytes -> bool -> option json) : Prop :=
  forall id e, call id e = None \/ call id e = Some (AutonomousClamp id e).

Lemma route_kept call id e n : module_keeps call ->
  (autonomous_route call (Some id) e n).1 = true -> AutonomousSelectable id e = true.
Proof.
  intros Hcall. unfold autonomous_route. change (default [] (Some id)) with id.
  destruct (Hcall id e) as [->| ->]; [done|].
  replace (cJSON_GetObjectItemCaseSensitive (Some (AutonomousClamp id e)) (str "selectable"))
    with (Some (JBool (AutonomousSelectable id e))) by reflexivity.
  by destruct (AutonomousSelectable id e).
Qed.

(** An autonomous submission is given the floor, or an enforced workflow
    of the loaded catalog that its text names and that is not read-only by
    name; every failure of the catalog or of the module leads to the floor. *)
Theorem autonomous_pick_gated yaml_parse home entries call text wf_n src_n raw_n tag_n :
  module_keeps call -> (WFE_ROUTER_ID_LEN <= wf_n)%nat ->
  let p := router_autonomous_pick call (wfe_router_catalog_load yaml_parse home entries) text wf_n src_n raw_n tag_n in
  (p_clamped p = true /\ p_workflow p = WFE_AUTONOMOUS_FLOOR)
  \/ (p_clamped p = false /\ exists cat w tok, wfe_router_catalog_load yaml_parse home entries = inr cat /\ w ∈ cat
       /\ enforced w = true /\ p_workflow p = wf_id w /\ ~ wf_id w ∈ readOnlyLanes
       /\ uses text tok /\ wf_id w = take 63 tok).
Proof.
  intros Hcall Hn. assert (Hfit : forall x : bytes, (length x < WFE_ROUTER_ID_LEN)%nat -> snprintf_s wf_n x = x)
    by (intros x Hx; apply snprintf_s_fits; lia).
  unfold router_autonomous_pick. destruct (wfe_router_catalog_load _ _ _) as [e|cat] eqn:Hload;
    [left; split; [done | by apply Hfit; vm_compute; lia]|].
  unfold wfe_autonomous_clamp. set (d := wfe_router_decide text cat None).
  destruct (autonomous_route _ _ _ _) as [[] name] eqn:Hr; cbn [fst negb p_clamped p_workflow];
    [right | left; split; [done | by apply Hfit; vm_compute; lia]].
  pose proof (route_kept call _ _ _ Hcall (f_equal fst Hr)) as Hs. unfold AutonomousSelectable in Hs.
  destruct (bool_decide (workflow_id d = [])); [done|].
  destruct (wfe_router_find cat (workflow_id d)) as [w|] eqn:Hf; [|done].
  destruct (enforced w) eqn:He; [|done]. cbn [negb orb] in Hs.
  destruct (enforced_named _ _ _ _ _ _ Hload Hf He) as (Hw & tok & Hu & Ht).
  apply find_in in Hf as [_ Hid]. split; [done|]. exists cat, w, tok. split_and!; try done.
  - rewrite <- Hid. apply Hfit. pose proof (catalog_load_outcome yaml_parse home entries) as Hg. rewrite Hload in Hg.
    rewrite <- (ids_fit cat w (grown_well_formed cat Hg) Hw). unfold snprintf_s. rewrite length_take.
    unfold WFE_ROUTER_ID_LEN. lia.
  - rewrite <- Hid in Hs. apply negb_true_iff in Hs. intros Hin.
    enough (existsb (bytes_eqb (wf_id w)) readOnlyLanes = true) by congruence. apply existsb_exists.
    exists (wf_id w). rewrite <- list_elem_of_In. split; [done | apply bytes_eqb_refl].
Qed.

(** ** Samples *)

Definition sample_call (rnd : Z) (session message : string) : ingress -> Z * ingress :=
  wfe_bind_interactive refused_registry true (fun _ => Some demo_def) (fun _ => str "v1") client_get (fun _ => Some (str "{}"))
    (Some (str "hard")) (inr sample_catalog) 0 3600 (Some (replicate 16 rnd)) (Some (str session))
    (Some (str message)) None.

Definition empty_ingress : ingress :=
  {| i_db := {| rows := ∅; events := []; attempts := ∅ |}; i_table := ∅;
     i_health := {| routes_since_bind := 0; health_warned := false |} |}.

Definition sample_message : string := "use managed-change for the parser".

Definition sample_bound : ingress := (sample_call 7 "s1" sample_message empty_ingress).2.

Definition sample_item : bytes := default [] (item_of (i_table sample_bound) (str "s1")).

Lemma sample_reached R G : G client_get -> R [] -> rtc (istep R G) empty_ingress sample_bound.
Proof. intros Hg Hr. apply rtc_once. by constructor. Qed.

Definition sample_binding : binding :=
  {| b_work_item := sample_item; b_stage := str "hard"; b_lease := None |}.

Lemma sessions_apart_witness :
  i_table sample_bound !! str "s1" = Some sample_binding /\ sample_item <> [] /\ str "s1" = str "s1".
Proof.
  split_and!; [vm_compute; reflexivity | vm_compute; discriminate|].
  apply (sessions_apart empty_ingress sample_bound (str "s1") (str "s1") sample_binding sample_binding);
    [reflexivity | apply sample_reached; done | vm_compute; reflexivity | vm_compute; reflexivity | reflexivity].
Defined.

Lemma binds_only_named_witness :
  Some (str "s1") = Some (str "s1") /\ wfe_enforce_stage_parse (Some (str "hard")) <> WFE_ENFORCE_OFF
  /\ exists w tok, w ∈ sample_catalog /\ enforced w = true /\ uses (str sample_message) tok /\ wf_id w = take 63 tok.
Proof.
  apply (binds_only_named sample_yaml (str "/home/a") (Some sample_dir) sample_catalog refused_registry true
    (fun _ => Some demo_def) (fun _ => str "v1") client_get (fun _ => Some (str "{}")) (Some (str "hard")) 0 3600
    (Some (replicate 16 7)) (Some (str "s1")) (Some (str sample_message)) None empty_ingress (str "s1") sample_loads).
  vm_compute. discriminate.
Defined.

Lemma bind_never_reported_witness : (sample_call 9 "s1" sample_message sample_bound).1 = 0.
Proof.
  apply (bind_never_reported empty_ingress sample_bound); [reflexivity | apply sample_reached; done].
Defined.

Definition sample_module (id : bytes) (e : bool) : option json := Some (AutonomousClamp id e).

Lemma autonomous_pick_gated_witness :
  let load := wfe_router_catalog_load sample_yaml (str "/home/a") (Some sample_dir) in
  let p := router_autonomous_pick sample_module load (str sample_message) 64 16 64 16 in
  (p_clamped p = true /\ p_workflow p = WFE_AUTONOMOUS_FLOOR)
  \/ (p_clamped p = false /\ exists cat w tok, load = inr cat /\ w ∈ cat
       /\ enforced w = true /\ p_workflow p = wf_id w /\ ~ wf_id w ∈ readOnlyLanes
       /\ uses (str sample_message) tok /\ wf_id w = take 63 tok).
Proof.
  apply (autonomous_pick_gated sample_yaml (str "/home/a") (Some sample_dir) sample_module);
    [intros id e; by right | unfold WFE_ROUTER_ID_LEN; lia].
Defined.
End WfeIngress.
