(* ===== verification/ServerPolicy.v ===== *)
(** * Server access policy

    The capability bits of [headers/server.h], the registry that gives each
    method its capabilities ([server_auth.c]) and the table of the [/v1]
    routes with the lookups over it ([server_http_routes.c]).  The rows are
    those of the sources, in their order; a handler is kept by name, since
    only its absence (a streaming route) is read here. *)

From Stdlib Require Import ZArith Lia String.
From stdpp Require Import base numbers list strings.
From S2P Require Import Prelude.

Module ServerPolicy.

(** ** Capabilities *)

Definition CAP_CHAT : Z := Z.shiftl 1 0.
Definition CAP_DELEGATE : Z := Z.shiftl 1 1.
Definition CAP_TOOL_EXECUTE : Z := Z.shiftl 1 2.
Definition CAP_TOOL_BASH : Z := Z.shiftl 1 3.
Definition CAP_TOOL_WRITE : Z := Z.shiftl 1 4.
Definition CAP_MEMORY_READ : Z := Z.shiftl 1 5.
Definition CAP_MEMORY_WRITE : Z := Z.shiftl 1 6.
Definition CAP_RULES_READ : Z := Z.shiftl 1 7.
Definition CAP_RULES_ADMIN : Z := Z.shiftl 1 8.
Definition CAP_DESCRIBE_READ : Z := Z.shiftl 1 9.
Definition CAP_DESCRIBE_ADMIN : Z := Z.shiftl 1 10.
Definition CAP_INDEX_READ : Z := Z.shiftl 1 11.
Definition CAP_INDEX_ADMIN : Z := Z.shiftl 1 12.
Definition CAP_SESSION_READ : Z := Z.shiftl 1 13.
Definition CAP_SESSION_ADMIN : Z := Z.shiftl 1 14.
Definition CAP_DASHBOARD_READ : Z := Z.shiftl 1 15.
Definition CAP_WORKFLOW_ADMIN : Z := Z.shiftl 1 16.
Definition CAP_SHADOW_ADMIN : Z := Z.shiftl 1 17.
Definition CAP_GRANT_ADMIN : Z := Z.shiftl 1 18.
Definition CAP_MEMORY_ADMIN : Z := Z.shiftl 1 19.
Definition CAP_CROSS_SCOPE_READ : Z := Z.shiftl 1 20.

(** The union of some capabilities. *)
Definition caps (l : list Z) : Z := fold_left Z.lor l 0.

Definition CAPS_ALL : Z := 0x1FFFFF.
Definition CAPS_READ_ONLY : Z :=
  caps [CAP_CHAT; CAP_MEMORY_READ; CAP_RULES_READ; CAP_INDEX_READ; CAP_SESSION_READ; CAP_DESCRIBE_READ].
Definition CAPS_AUTHENTICATED : Z :=
  caps [CAPS_READ_ONLY; CAP_DELEGATE; CAP_TOOL_EXECUTE; CAP_TOOL_BASH; CAP_TOOL_WRITE;
        CAP_MEMORY_WRITE; CAP_MEMORY_ADMIN; CAP_RULES_ADMIN; CAP_SESSION_ADMIN].

(** [(need & ~have) == 0] on 32-bit masks. *)
Definition covers (have need : Z) : bool := Z.land need (u32 (Z.lnot have)) =? 0.

Definition SERVER_REMOTE_WRITES_OFF : Z := 0.
Definition SERVER_REMOTE_WRITES_DATA : Z := 1.
Definition SERVER_REMOTE_WRITES_FULL : Z := 2.

(** ** The methods *)

Record method_policy_t := { mp_method : bytes; required_caps : Z; mp_description : bytes }.

Definition method (name : string) (c : Z) (d : string) : method_policy_t :=
  {| mp_method := str name; required_caps := c; mp_description := str d |}.

Definition method_registry_1 : list method_policy_t :=
  [ method "server.info" 0 "server information";
    method "server.health" 0 "server health check";
    method "api.status" CAP_SESSION_READ "public /v1 API status";
    method "api.enable" CAP_SESSION_ADMIN "enable public /v1 API listener";
    method "api.rotate_bearer" CAP_SESSION_ADMIN "rotate the public /v1 API bearer";
    method "api.enroll_bearer" CAP_SESSION_ADMIN "add a /v1 API bearer without revoking existing ones";
    method "api.disable" CAP_SESSION_ADMIN "disable public /v1 API listener";
    method "init.run" CAP_TOOL_EXECUTE "initialize local stores";
    method "launch.run" CAP_TOOL_EXECUTE "launch session";
    method "hud.status" CAP_SESSION_READ "HUD status";
    method "model.*" CAP_DELEGATE "model roster configuration";
    method "webchat.*" CAP_DASHBOARD_READ "webchat client operation";
    method "auth" 0 "authenticate";
    method "hooks.pre" CAP_TOOL_EXECUTE "pre-tool hook";
    method "hooks.post" CAP_TOOL_EXECUTE "post-tool hook";
    method "hooks.session_start" CAP_TOOL_EXECUTE "session-start hook";
    method "hooks.session_end" CAP_TOOL_EXECUTE "session-end hook";
    method "session.*" CAP_SESSION_READ "session operation";
    method "trajectory.export" CAP_SESSION_READ "trajectory export";
    method "trajectory.batch" CAP_DELEGATE "trajectory batch generation";
    method "memory.hygiene" CAP_MEMORY_WRITE "inspect scoped hygiene and queue review proposals";
    method "task.projection" CAP_MEMORY_WRITE "operate on owned disposable task state and promotion drafts";
    method "memory.store" CAP_MEMORY_WRITE "store memory";
    method "memory.delete" CAP_MEMORY_ADMIN "delete a memory";
    method "memory.supersede" CAP_MEMORY_WRITE "supersede a memory";
    method "memory.update" CAP_MEMORY_WRITE "update memory content";
    method "memory.reject" CAP_MEMORY_WRITE "reject a memory";
    method "memory.restore" CAP_MEMORY_ADMIN "restore a rejected memory";
    method "memory.review_list" CAP_MEMORY_READ "review visible memories";
    method "memory.correction_proposals" CAP_MEMORY_READ "inspect correction drafts";
    method "memory.review_correction" CAP_MEMORY_WRITE "review a correction draft";
    method "memory.reembed_start" CAP_INDEX_ADMIN "stage a memory embedding version";
    method "memory.reembed_cutover" CAP_INDEX_ADMIN "activate a memory embedding version";
    method "memory.reembed_rollback" CAP_INDEX_ADMIN "restore a memory embedding version";
    method "memory.reembed_status" CAP_MEMORY_READ "inspect memory embedding progress";
    method "memory.repair" CAP_INDEX_ADMIN "repair memory vectors";
    method "memory.rebuild" CAP_INDEX_ADMIN "rebuild memory vectors";
    method "memory.reindex" CAP_INDEX_ADMIN "rebuild memory metadata";
    method "facts.retract" CAP_MEMORY_WRITE "retract a typed fact";
    method "entities.merge" CAP_MEMORY_WRITE "merge two entities";
    method "entities.unmerge" CAP_MEMORY_WRITE "reverse an entity merge";
    method "memory.user_capture" CAP_MEMORY_WRITE "capture per-user memory";
    method "learning.approaches" CAP_MEMORY_READ "read scoped canonical approach observations";
    method "learning.task_cost" CAP_MEMORY_READ "report declared task costs without policy promotion";
    method "action.receipt" CAP_TOOL_EXECUTE "inspect and reconcile owned action receipts";
    method "learning.application" CAP_MEMORY_WRITE "record receipt-bound user procedure feedback";
    method "memory.receipt_forget" CAP_MEMORY_WRITE "remove owned encrypted receipt replay payloads";
    method "memory.*" CAP_MEMORY_READ "memory operation";
    method "blast_radius.preview" CAP_INDEX_READ "blast radius preview";
    method "index.*" CAP_INDEX_READ "index operation";
    method "rules.delete" CAP_RULES_ADMIN "delete rule";
    method "rules.*" CAP_RULES_READ "rules operation";
    method "skill.list" CAP_SESSION_READ "skill list";
    method "skill.show" CAP_SESSION_READ "skill show";
    method "skill.*" CAP_TOOL_WRITE "skill mutation";
    method "toolset.*" CAP_SESSION_READ "toolset operation";
    method "collab_rules.approve" CAP_RULES_ADMIN "approve collab rule";
    method "collab_rules.reject" CAP_RULES_ADMIN "reject collab rule";
    method "collab_rules.retire" CAP_RULES_ADMIN "retire collab rule";
    method "collab_rules.*" CAP_RULES_READ "collab rules operation";
    method "wm.*" CAP_SESSION_READ "working memory operation";
    method "primary.*" CAP_SESSION_READ "primary agent selection";
    method "work.*" CAP_TOOL_EXECUTE "work queue operation";
    method "attempt.*" CAP_SESSION_READ "attempt log operation";
    method "dashboard.*" CAP_DASHBOARD_READ "dashboard operation";
    method "economizer.*" CAP_DASHBOARD_READ "economizer telemetry";
    method "audit.verify" CAP_DASHBOARD_READ "WORM audit chain verify";
    method "audit.captures" CAP_DASHBOARD_READ "list audit-on-bus capture streams";
    method "audit.replay" CAP_DASHBOARD_READ "replay an audit-on-bus capture stream";
    method "audit.checkpoint" CAP_TOOL_EXECUTE "WORM audit checkpoint";
    method "audit.seal" CAP_TOOL_EXECUTE "WORM audit seal snapshot";
    method "audit.snapshot" CAP_TOOL_EXECUTE "WORM audit metric snapshot";
    method "hosts.list" CAP_DASHBOARD_READ "host + GPU inventory";
    method "embedders.list" CAP_DASHBOARD_READ "selectable embedder inventory";
    method "lsp.*" CAP_DASHBOARD_READ "lsp status";
    method "workspace.context" CAP_INDEX_READ "workspace context";
    method "workspace.get" CAP_INDEX_READ "workspace manifest";
    method "workspace.list" CAP_INDEX_READ "list workspaces";
    method "workspace.add" CAP_TOOL_EXECUTE "register a workspace";
    method "workspace.remove" CAP_TOOL_EXECUTE "remove a workspace";
    method "workspace.mirror-sync" CAP_TOOL_EXECUTE "sync client diff to a mirror workspace";
    method "runner.poll" CAP_TOOL_EXECUTE "detached workspace runner poll";
    method "runner.respond" CAP_TOOL_EXECUTE "detached workspace runner respond" ].

Definition method_registry_2 : list method_policy_t :=
  [ method "tool.execute" CAP_TOOL_EXECUTE "execute tool";
    method "delegate" CAP_DELEGATE "delegate task";
    method "delegate.aggregate" CAP_DELEGATE "Mixture-of-Agents ensemble aggregate";
    method "roundtable.review" CAP_DELEGATE "Go roundtable review transport";
    method "dev.sweep" CAP_DELEGATE "deepening sweep (spawns proposer delegates; analysis-only)";
    method "delegate.status" CAP_DELEGATE "delegate status";
    method "delegate.reservation.forget" CAP_DELEGATE "release a delegate replay reservation";
    method "delegate.cancel_unassigned" CAP_DELEGATE "cancel an unassigned delegate job";
    method "vault.unlock" CAP_DELEGATE "unlock the credential vault";
    method "vault.rekey" CAP_DELEGATE "re-key the credential vault (password change)";
    method "vault.set" CAP_DELEGATE "store a vault credential";
    method "vault.set_server" CAP_DELEGATE "store a server-principal vault credential";
    method "vault.capability" CAP_DELEGATE "manage the vault:write:server capability";
    method "vault.list" CAP_DELEGATE "list vault credential names";
    method "vault.delete" CAP_DELEGATE "delete a vault credential";
    method "vault.lock" CAP_DELEGATE "lock the credential vault";
    method "cert.issue" CAP_DELEGATE "issue an mTLS client cert";
    method "cert.sign" CAP_DELEGATE "sign a client-generated mTLS CSR";
    method "cert.list" CAP_DELEGATE "list issued mTLS client certs";
    method "cert.revoke" CAP_DELEGATE "revoke an mTLS client cert";
    method "jobs.list" CAP_DELEGATE "list delegate jobs";
    method "jobs.status" CAP_DELEGATE "delegate job status";
    method "jobs.logs" CAP_DELEGATE "delegate job logs";
    method "jobs.cancel" CAP_DELEGATE "cancel delegate job";
    method "aux.config_show" CAP_SESSION_READ "auxiliary model config";
    method "config.show" CAP_SESSION_READ "show configuration";
    method "config.get" CAP_SESSION_READ "read configuration value";
    method "config.deploy_env" CAP_SESSION_READ "emit compose env for the backend record";
    method "config.set" CAP_SESSION_ADMIN "set configuration value";
    method "pipeline.status" CAP_SESSION_READ "roundtable authoring pipeline status";
    method "pipeline.list" CAP_SESSION_READ "list roundtable authoring pipelines";
    method "pipeline.*" CAP_DELEGATE "roundtable authoring pipeline control";
    method "aux.test" CAP_DELEGATE "execute auxiliary model test";
    method "delegate.reply" CAP_DELEGATE "delegate reply";
    method "delegate.log" CAP_DELEGATE "delegation episode log";
    method "delegate.backend_list" CAP_DELEGATE "list delegate execution backends";
    method "delegate.backend_exec" CAP_DELEGATE "execute through a delegate backend";
    method "delegate.sandbox_list" CAP_DELEGATE "list delegate sandbox images";
    method "delegate.sandbox_gc" CAP_DELEGATE "prune delegate sandbox images";
    method "episode.list" CAP_DELEGATE "list delegation episodes";
    method "model.episodes" CAP_DELEGATE "agent episode history";
    method "eval.*" CAP_DELEGATE "eval harness";
    method "chat.send_stream" CAP_CHAT "chat stream";
    method "model.generate" CAP_CHAT "tool-free canonical completion";
    method "chat.graceful_cancel" CAP_CHAT "cancel an in-flight chat turn (owner-authz)";
    method "chat.interrupt" CAP_CHAT "stop an in-flight turn and queue a steer (owner-authz)";
    method "mcp.tools_list" CAP_SESSION_READ "MCP tool list";
    method "mcp.tools_wait" CAP_SESSION_READ "wait for the MCP tool list to change";
    method "mcp.audit" CAP_TOOL_EXECUTE "MCP OSV audit";
    method "mcp.recheck" CAP_TOOL_EXECUTE "MCP OSV recheck";
    method "mcp.call" CAP_TOOL_EXECUTE "MCP tool call";
    method "help.get" CAP_SESSION_READ "read the built-in help index";
    method "trigger.*" CAP_TOOL_EXECUTE "trigger operation";
    method "kb.search" CAP_INDEX_READ "knowledge search";
    method "evidence.trace_retrieval_event" CAP_INDEX_READ "audit retrieval-evidence trace";
    method "evidence.provenance_retrieval_event" CAP_INDEX_READ "audit source provenance";
    method "evidence.fidelity_retrieval_event" CAP_INDEX_READ "audit answer fidelity";
    method "css.signals" CAP_INDEX_READ "css migration signals (read + enumerate)";
    method "kb.status" CAP_DASHBOARD_READ "knowledge base status";
    method "optimize.export" CAP_DASHBOARD_READ "bandit optimization export";
    method "optimize.promote" CAP_INDEX_ADMIN "promote a bandit arm to default";
    method "optimize.replay_record" CAP_INDEX_ADMIN "record bandit replay attribution";
    method "calibration.readiness" CAP_DASHBOARD_READ "calibration readiness report";
    method "demotion.check" CAP_DASHBOARD_READ "demotion dry-run report";
    method "ranker.export_view" CAP_DASHBOARD_READ "ranker training-view export";
    method "ranker.fit" CAP_TOOL_EXECUTE "fit + benchmark-gate the ranker model";
    method "kb.build" CAP_INDEX_ADMIN "build knowledge base";
    method "kb.ingest" CAP_INDEX_ADMIN "ingest corpus";
    method "kb.update" CAP_INDEX_ADMIN "update knowledge base";
    method "kb.docs.push" CAP_INDEX_ADMIN "push documents into the knowledge base (ingest)";
    method "kb.ingest.status" CAP_INDEX_READ "knowledge-base ingest status (read)";
    method "kb.reembed" CAP_INDEX_ADMIN "reset and re-embed the vector store (dim change)";
    method "kb.erase-subject" CAP_SESSION_ADMIN "erase one subject's mutable content graph";
    method "memory.embed" CAP_INDEX_ADMIN "(re)generate memory embeddings";
    method "index.scan" CAP_INDEX_ADMIN "scan / re-index the codebase";
    method "graph.sync_code" CAP_INDEX_ADMIN "sync the code graph";
    method "graph.*" CAP_INDEX_READ "code graph query";
    method "curator.synthesize" CAP_INDEX_ADMIN "curator synthesis";
    method "curator.*" CAP_INDEX_READ "curator query";
    method "cron.list" CAP_SESSION_READ "list cron jobs";
    method "cron.show" CAP_SESSION_READ "show cron job";
    method "cron.history" CAP_SESSION_READ "cron job history";
    method "cron.*" CAP_TOOL_EXECUTE "cron job mutation";
    method "provider.connection_models" CAP_SESSION_READ "list connection models";
    method "provider.connections" CAP_SESSION_READ "list configured providers";
    method "provider.list" CAP_SESSION_READ "list providers";
    method "provider.get" CAP_SESSION_READ "get provider";
    method "provider.show" CAP_SESSION_READ "show provider";
    method "provider.models" CAP_SESSION_READ "provider models";
    method "provider.quota" CAP_SESSION_READ "provider quota";
    method "provider.*" CAP_SESSION_ADMIN "provider configuration";
    method "catalog.list" CAP_SESSION_READ "list catalogued models";
    method "catalog.show" CAP_SESSION_READ "show a catalogued model";
    method "catalog.refresh" CAP_SESSION_ADMIN "refresh model catalog";
    method "identity.snapshot" CAP_SESSION_ADMIN "snapshot identity";
    method "identity.*" CAP_SESSION_READ "identity query";
    method "dogfood.report" CAP_DASHBOARD_READ "dogfood report";
    method "dogfood.*" CAP_TOOL_EXECUTE "dogfood feedback";
    method "insights.overview" CAP_DASHBOARD_READ "insights overview";
    method "workers" CAP_DASHBOARD_READ "server worker-pool status";
    method "delegate.launch" CAP_DELEGATE "launch delegate";
    method "job.*" CAP_DELEGATE "delegate job operation";
    method "rules.generate" CAP_RULES_ADMIN "generate collab rules";
    method "worktree.gc" CAP_TOOL_EXECUTE "garbage-collect delegate worktrees" ].

Definition method_registry : list method_policy_t := (method_registry_1 ++ method_registry_2)%list.

(** A trailing star makes a pattern a prefix. *)
Definition is_prefix_pat (pat : bytes) : bool := bool_decide (last pat = Some 42).

(** [strncmp(s, p, strlen(p)) == 0]. *)
Definition starts_with (s p : bytes) : bool := bytes_eqb (take (length p) s) p.

Definition server_policy_for_method (m : bytes) : option method_policy_t :=
  match find (fun p => negb (is_prefix_pat (mp_method p)) && bytes_eqb m (mp_method p)) method_registry with
  | Some p => Some p
  | None =>
      find (fun p => is_prefix_pat (mp_method p)
                     && starts_with m (take (length (mp_method p) - 1) (mp_method p))) method_registry
  end.

Definition server_capability_for_method (m : bytes) : Z :=
  match server_policy_for_method m with Some p => required_caps p | None => CAPS_ALL end.

(** ** The routes *)

Inductive route_match_kind_t := RM_EXACT | RM_PREFIX.

#[global] Instance route_match_kind_t_eq_dec : EqDecision route_match_kind_t.
Proof. solve_decision. Defined.

Record http_route_t := {
  r_verb : bytes;
  r_path : bytes;
  r_suffix : option bytes;
  r_kind : route_match_kind_t;
  r_op : option bytes;
  r_caps : Z;
  r_handler : option string
}.

Definition route (v p : string) (s : option string) (k : route_match_kind_t) (o : option string) (c : Z)
    (h : option string) : http_route_t :=
  {| r_verb := str v; r_path := str p; r_suffix := str <$> s; r_kind := k; r_op := str <$> o; r_caps := c;
      r_handler := h |}.

Definition v1_routes_1 : list http_route_t :=
  [ route "GET" "/v1/health" None RM_EXACT None 0 (Some "rh_health");
    route "GET" "/v1/ready" None RM_EXACT None 0 (Some "rh_ready");
    route "POST" "/v1/management/challenge" None RM_EXACT None 0 (Some "rh_management_challenge");
    route "POST" "/v1/management/action/challenge" None RM_EXACT None 0 (Some "rh_management_action_challenge");
    route "POST" "/v1/management/read/challenge" None RM_EXACT None 0 (Some "rh_management_read_challenge");
    route "POST" "/v1/management/read/config/challenge" None RM_EXACT None 0 (Some
      "rh_management_read_config_challenge");
    route "GET" "/v1/management/health" None RM_EXACT None 0 (Some "rh_management_health");
    route "POST" "/v1/management/action" None RM_EXACT None 0 (Some "rh_management_action");
    route "GET" "/v1/management/read/agents" None RM_EXACT None 0 (Some "rh_management_read_agents");
    route "GET" "/v1/management/read/config" None RM_EXACT None 0 (Some "rh_management_read_config");
    route "GET" "/v1/version" None RM_EXACT None 0 (Some "rh_version");
    route "GET" "/v1/capabilities" None RM_EXACT None 0 (Some "rh_capabilities");
    route "GET" "/v1/models" None RM_EXACT None 0 (Some "rh_models");
    route "GET" "/v1/openapi.json" None RM_EXACT None 0 (Some "rh_openapi");
    route "GET" "/v1/cli/manifest" None RM_EXACT None 0 (Some "rh_cli_manifest");
    route "GET" "/v1/openapi.yaml" None RM_EXACT None 0 (Some "rh_openapi");
    route "GET" "/v1/rules" None RM_EXACT (Some "rules.list") 0 (Some "rh_rules");
    route "GET" "/v1/dashboard/memory" None RM_EXACT None CAP_DASHBOARD_READ (Some "rh_dashboard_memory");
    route "GET" "/v1/dashboard/reminders" None RM_EXACT None CAP_DASHBOARD_READ (Some "rh_dashboard_reminders");
    route "GET" "/v1/kb/status" None RM_EXACT None CAP_DASHBOARD_READ (Some "rh_kb_status");
    route "GET" "/v1/kb/ingest/status" None RM_EXACT None CAP_INDEX_READ (Some "rh_kb_ingest_status");
    route "GET" "/v1/kb/curator" None RM_EXACT None CAP_DASHBOARD_READ (Some "rh_kb_curator");
    route "GET" "/v1/agents" None RM_EXACT None CAP_DASHBOARD_READ (Some "rh_agents");
    route "GET" "/v1/roadmap" None RM_EXACT None CAP_DASHBOARD_READ (Some "rh_roadmap");
    route "GET" "/v1/curiosity" None RM_EXACT None CAP_DASHBOARD_READ (Some "rh_curiosity");
    route "GET" "/v1/notes" None RM_EXACT None CAP_SESSION_READ (Some "rh_notes");
    route "POST" "/v1/kb/search" None RM_EXACT None CAP_INDEX_READ (Some "rh_kb_search");
    route "POST" "/v1/memory/recall" None RM_EXACT (Some "memory.recall") 0 (Some "rh_memory_recall");
    route "POST" "/v1/native/primitive" None RM_EXACT None CAP_MEMORY_READ (Some "rh_native_primitive");
    route "POST" "/v1/notes/search" None RM_EXACT None CAP_SESSION_READ (Some "rh_notes_search");
    route "POST" "/v1/memory/validity" None RM_EXACT (Some "memory.validity") 0 (Some "rh_dispatch_op");
    route "POST" "/v1/memory/hygiene" None RM_EXACT (Some "memory.hygiene") 0 (Some "rh_dispatch_op");
    route "POST" "/v1/memory/search" None RM_EXACT (Some "memory.search") 0 (Some "rh_dispatch_op");
    route "POST" "/v1/memory/list" None RM_EXACT (Some "memory.list") 0 (Some "rh_dispatch_op");
    route "POST" "/v1/memory/review" None RM_EXACT (Some "memory.review_list") 0 (Some "rh_dispatch_op");
    route "POST" "/v1/memory/reject" None RM_EXACT (Some "memory.reject") 0 (Some "rh_dispatch_op");
    route "POST" "/v1/memory/restore" None RM_EXACT (Some "memory.restore") 0 (Some "rh_dispatch_op");
    route "GET" "/v1/memory/stats" None RM_EXACT (Some "memory.stats") 0 (Some "rh_dispatch_op");
    route "POST" "/v1/memory/get" None RM_EXACT (Some "memory.get") 0 (Some "rh_dispatch_op");
    route "POST" "/v1/memory/evidence" None RM_EXACT (Some "memory.evidence") 0 (Some "rh_dispatch_op");
    route "POST" "/v1/action/receipt" None RM_EXACT (Some "action.receipt") 0 (Some "rh_dispatch_op");
    route "POST" "/v1/task/projection" None RM_EXACT (Some "task.projection") 0 (Some "rh_dispatch_op");
    route "POST" "/v1/memory/serve" None RM_EXACT (Some "memory.serve") 0 (Some "rh_dispatch_op");
    route "POST" "/v1/memory/claim-card" None RM_EXACT (Some "memory.claim_card") 0 (Some "rh_dispatch_op");
    route "POST" "/v1/memory/delete" None RM_EXACT (Some "memory.delete") 0 (Some "rh_dispatch_op");
    route "POST" "/v1/memory/supersede" None RM_EXACT (Some "memory.supersede") 0 (Some "rh_dispatch_op");
    route "POST" "/v1/memory/correction_proposals" None RM_EXACT (Some "memory.correction_proposals") 0 (Some
      "rh_dispatch_op");
    route "POST" "/v1/memory/review_correction" None RM_EXACT (Some "memory.review_correction") 0 (Some
      "rh_dispatch_op");
    route "GET" "/v1/memory/read" None RM_EXACT (Some "memory.read") 0 (Some "rh_dispatch_op");
    route "POST" "/v1/memory/store" None RM_EXACT (Some "memory.store") 0 (Some "rh_dispatch_op");
    route "POST" "/v1/wm/set" None RM_EXACT (Some "wm.set") 0 (Some "rh_dispatch_op");
    route "POST" "/v1/attempts/record" None RM_EXACT (Some "attempt.record") 0 (Some "rh_dispatch_op");
    route "POST" "/v1/rules/delete" None RM_EXACT (Some "rules.delete") 0 (Some "rh_dispatch_op");
    route "POST" "/v1/facts/retract" None RM_EXACT (Some "facts.retract") 0 (Some "rh_dispatch_op");
    route "POST" "/v1/entities/merge" None RM_EXACT (Some "entities.merge") 0 (Some "rh_dispatch_op");
    route "POST" "/v1/entities/unmerge" None RM_EXACT (Some "entities.unmerge") 0 (Some "rh_dispatch_op");
    route "POST" "/v1/collab_rules/approve" None RM_EXACT (Some "collab_rules.approve") 0 (Some "rh_dispatch_op");
    route "POST" "/v1/collab_rules/reject" None RM_EXACT (Some "collab_rules.reject") 0 (Some "rh_dispatch_op");
    route "POST" "/v1/collab_rules/retire" None RM_EXACT (Some "collab_rules.retire") 0 (Some "rh_dispatch_op");
    route "POST" "/v1/skills/create" None RM_EXACT (Some "skill.create") 0 (Some "rh_dispatch_op");
    route "POST" "/v1/skills/edit" None RM_EXACT (Some "skill.edit") 0 (Some "rh_dispatch_op");
    route "POST" "/v1/skills/archive" None RM_EXACT (Some "skill.archive") 0 (Some "rh_dispatch_op");
    route "POST" "/v1/skills/pin" None RM_EXACT (Some "skill.pin") 0 (Some "rh_dispatch_op");
    route "POST" "/v1/index/find" None RM_EXACT (Some "index.find") 0 (Some "rh_dispatch_op");
    route "POST" "/v1/index/list" None RM_EXACT (Some "index.list") 0 (Some "rh_dispatch_op");
    route "POST" "/v1/index/verify" None RM_EXACT (Some "index.verify") 0 (Some "rh_dispatch_op");
    route "POST" "/v1/index/structure" None RM_EXACT (Some "index.structure") 0 (Some "rh_dispatch_op");
    route "POST" "/v1/index/span" None RM_EXACT (Some "index.span") 0 (Some "rh_dispatch_op");
    route "POST" "/v1/index/investigate" None RM_EXACT (Some "index.investigate") 0 (Some "rh_dispatch_op");
    route "POST" "/v1/index/hybrid" None RM_EXACT (Some "index.hybrid") 0 (Some "rh_dispatch_op");
    route "POST" "/v1/index/find_callers" None RM_EXACT (Some "index.find_callers") 0 (Some "rh_dispatch_op");
    route "POST" "/v1/index/deps" None RM_EXACT (Some "index.deps") 0 (Some "rh_dispatch_op");
    route "POST" "/v1/index/blast_radius" None RM_EXACT (Some "index.blast_radius") 0 (Some "rh_dispatch_op");
    route "GET" "/v1/skills" None RM_EXACT (Some "skill.list") 0 (Some "rh_dispatch_op");
    route "POST" "/v1/skills/show" None RM_EXACT (Some "skill.show") 0 (Some "rh_dispatch_op");
    route "GET" "/v1/hosts" None RM_EXACT (Some "hosts.list") 0 (Some "rh_dispatch_op");
    route "GET" "/v1/embedders" None RM_EXACT (Some "embedders.list") 0 (Some "rh_dispatch_op");
    route "GET" "/v1/hud" None RM_EXACT (Some "hud.status") 0 (Some "rh_dispatch_op");
    route "POST" "/v1/trajectory/export" None RM_EXACT (Some "trajectory.export") 0 (Some "rh_dispatch_op");
    route "GET" "/v1/toolsets" None RM_EXACT (Some "toolset.list") 0 (Some "rh_dispatch_op");
    route "POST" "/v1/toolsets/show" None RM_EXACT (Some "toolset.show") 0 (Some "rh_dispatch_op");
    route "POST" "/v1/hooks/pre" None RM_EXACT (Some "hooks.pre") 0 (Some "rh_dispatch_op");
    route "POST" "/v1/hooks/post" None RM_EXACT (Some "hooks.post") 0 (Some "rh_dispatch_op");
    route "POST" "/v1/hooks/session_start" None RM_EXACT (Some "hooks.session_start") 0 (Some "rh_dispatch_op");
    route "POST" "/v1/hooks/session_end" None RM_EXACT (Some "hooks.session_end") 0 (Some "rh_dispatch_op") ].

Definition v1_routes_2 : list http_route_t :=
  [ route "POST" "/v1/session/brief_assemble" None RM_EXACT (Some "session.brief_assemble") 0 (Some "rh_dispatch_op");
    route "POST" "/v1/memory/user_capture" None RM_EXACT (Some "memory.user_capture") 0 (Some "rh_dispatch_op");
    route "POST" "/v1/tools/execute" None RM_EXACT (Some "tool.execute") 0 (Some "rh_dispatch_op");
    route "GET" "/v1/collab_rules" None RM_EXACT (Some "collab_rules.list") 0 (Some "rh_dispatch_op");
    route "GET" "/v1/collab_rules/active" None RM_EXACT (Some "collab_rules.list_active") 0 (Some "rh_dispatch_op");
    route "POST" "/v1/wm/list" None RM_EXACT (Some "wm.list") 0 (Some "rh_dispatch_op");
    route "POST" "/v1/attempts/list" None RM_EXACT (Some "attempt.list") 0 (Some "rh_dispatch_op");
    route "GET" "/v1/aux/config" None RM_EXACT (Some "aux.config_show") 0 (Some "rh_dispatch_op");
    route "GET" "/v1/config" None RM_EXACT (Some "config.show") 0 (Some "rh_dispatch_op");
    route "POST" "/v1/config/get" None RM_EXACT (Some "config.get") 0 (Some "rh_dispatch_op");
    route "GET" "/v1/config/deploy-env" None RM_EXACT (Some "config.deploy_env") 0 (Some "rh_dispatch_op");
    route "POST" "/v1/config/set" None RM_EXACT (Some "config.set") 0 (Some "rh_dispatch_op");
    route "GET" "/v1/cron" None RM_EXACT (Some "cron.list") 0 (Some "rh_dispatch_op");
    route "POST" "/v1/cron/add" None RM_EXACT (Some "cron.add") 0 (Some "rh_dispatch_op");
    route "POST" "/v1/cron/show" None RM_EXACT (Some "cron.show") 0 (Some "rh_dispatch_op");
    route "POST" "/v1/cron/history" None RM_EXACT (Some "cron.history") 0 (Some "rh_dispatch_op");
    route "POST" "/v1/cron/run" None RM_EXACT (Some "cron.run") 0 (Some "rh_dispatch_op");
    route "POST" "/v1/cron/enable" None RM_EXACT (Some "cron.enable") 0 (Some "rh_dispatch_op");
    route "POST" "/v1/cron/disable" None RM_EXACT (Some "cron.disable") 0 (Some "rh_dispatch_op");
    route "POST" "/v1/cron/remove" None RM_EXACT (Some "cron.remove") 0 (Some "rh_dispatch_op");
    route "GET" "/v1/delegate/log" None RM_EXACT (Some "delegate.log") 0 (Some "rh_dispatch_op");
    route "GET" "/v1/delegate/backend_list" None RM_EXACT (Some "delegate.backend_list") 0 (Some "rh_dispatch_op");
    route "POST" "/v1/delegate/status" None RM_EXACT (Some "delegate.status") 0 (Some "rh_dispatch_op");
    route "GET" "/v1/delegate/sandbox/images" None RM_EXACT (Some "delegate.sandbox_list") 0 (Some "rh_dispatch_op");
    route "POST" "/v1/delegate/sandbox/gc" None RM_EXACT (Some "delegate.sandbox_gc") 0 (Some "rh_dispatch_op");
    route "POST" "/v1/vault/unlock" None RM_EXACT (Some "vault.unlock") 0 (Some "rh_dispatch_op");
    route "POST" "/v1/vault/rekey" None RM_EXACT (Some "vault.rekey") 0 (Some "rh_dispatch_op");
    route "POST" "/v1/vault/set" None RM_EXACT (Some "vault.set") 0 (Some "rh_dispatch_op");
    route "POST" "/v1/vault/set_server" None RM_EXACT (Some "vault.set_server") 0 (Some "rh_dispatch_op");
    route "POST" "/v1/vault/capability" None RM_EXACT (Some "vault.capability") 0 (Some "rh_dispatch_op");
    route "POST" "/v1/vault/list" None RM_EXACT (Some "vault.list") 0 (Some "rh_dispatch_op");
    route "POST" "/v1/vault/delete" None RM_EXACT (Some "vault.delete") 0 (Some "rh_dispatch_op");
    route "POST" "/v1/vault/lock" None RM_EXACT (Some "vault.lock") 0 (Some "rh_dispatch_op");
    route "POST" "/v1/cert/issue" None RM_EXACT (Some "cert.issue") 0 (Some "rh_dispatch_op");
    route "POST" "/v1/cert/sign" None RM_EXACT (Some "cert.sign") 0 (Some "rh_dispatch_op");
    route "POST" "/v1/cert/list" None RM_EXACT (Some "cert.list") 0 (Some "rh_dispatch_op");
    route "POST" "/v1/cert/revoke" None RM_EXACT (Some "cert.revoke") 0 (Some "rh_dispatch_op");
    route "POST" "/v1/delegate/run" None RM_EXACT (Some "delegate") 0 (Some "rh_dispatch_op");
    route "POST" "/v1/delegate/reply" None RM_EXACT (Some "delegate.reply") 0 (Some "rh_dispatch_op");
    route "POST" "/v1/delegate/launch" None RM_EXACT (Some "delegate.launch") 0 (Some "rh_dispatch_op");
    route "POST" "/v1/delegate/reservation/forget" None RM_EXACT (Some "delegate.reservation.forget") 0 (Some
      "rh_dispatch_op");
    route "POST" "/v1/delegate/cancel_unassigned" None RM_EXACT (Some "delegate.cancel_unassigned") 0 (Some
      "rh_dispatch_op");
    route "POST" "/v1/delegate/backend_exec" None RM_EXACT (Some "delegate.backend_exec") 0 (Some "rh_dispatch_op");
    route "GET" "/v1/job/list" None RM_EXACT (Some "job.list") 0 (Some "rh_dispatch_op");
    route "POST" "/v1/job/start" None RM_EXACT (Some "job.start") 0 (Some "rh_dispatch_op");
    route "POST" "/v1/job/status" None RM_EXACT (Some "job.status") 0 (Some "rh_dispatch_op");
    route "POST" "/v1/job/cancel" None RM_EXACT (Some "job.cancel") 0 (Some "rh_dispatch_op");
    route "GET" "/v1/jobs/list" None RM_EXACT (Some "jobs.list") 0 (Some "rh_dispatch_op");
    route "POST" "/v1/jobs/status" None RM_EXACT (Some "jobs.status") 0 (Some "rh_dispatch_op");
    route "POST" "/v1/jobs/logs" None RM_EXACT (Some "jobs.logs") 0 (Some "rh_dispatch_op");
    route "POST" "/v1/jobs/cancel" None RM_EXACT (Some "jobs.cancel") 0 (Some "rh_dispatch_op");
    route "GET" "/v1/model/list" None RM_EXACT (Some "model.list") 0 (Some "rh_dispatch_op");
    route "GET" "/v1/model/local" None RM_EXACT (Some "model.local") 0 (Some "rh_dispatch_op");
    route "POST" "/v1/model/add" None RM_EXACT (Some "model.add") 0 (Some "rh_dispatch_op");
    route "POST" "/v1/model/remove" None RM_EXACT (Some "model.remove") 0 (Some "rh_dispatch_op");
    route "POST" "/v1/model/enable" None RM_EXACT (Some "model.enable") 0 (Some "rh_dispatch_op");
    route "POST" "/v1/model/roles" None RM_EXACT (Some "model.roles") 0 (Some "rh_dispatch_op");
    route "POST" "/v1/model/personas" None RM_EXACT (Some "model.personas") 0 (Some "rh_dispatch_op");
    route "POST" "/v1/model/set" None RM_EXACT (Some "model.set") 0 (Some "rh_dispatch_op");
    route "POST" "/v1/model/disable" None RM_EXACT (Some "model.disable") 0 (Some "rh_dispatch_op");
    route "POST" "/v1/model/probe" None RM_EXACT (Some "model.probe") 0 (Some "rh_dispatch_op");
    route "GET" "/v1/model/stats" None RM_EXACT (Some "model.stats") 0 (Some "rh_dispatch_op");
    route "POST" "/v1/model/draft" None RM_EXACT (Some "model.draft") 0 (Some "rh_dispatch_op");
    route "POST" "/v1/model/generate" None RM_EXACT (Some "model.generate") 0 (Some "rh_dispatch_op");
    route "POST" "/v1/model/setup" None RM_EXACT (Some "model.setup") 0 (Some "rh_dispatch_op");
    route "POST" "/v1/model/setup_poll" None RM_EXACT (Some "model.setup_poll") 0 (Some "rh_dispatch_op");
    route "POST" "/v1/model/cli_oauth_start" None RM_EXACT (Some "model.cli_oauth_start") 0 (Some "rh_dispatch_op");
    route "POST" "/v1/model/cli_oauth_code" None RM_EXACT (Some "model.cli_oauth_code") 0 (Some "rh_dispatch_op");
    route "POST" "/v1/model/cli_oauth_poll" None RM_EXACT (Some "model.cli_oauth_poll") 0 (Some "rh_dispatch_op");
    route "POST" "/v1/model/episodes" None RM_EXACT (Some "model.episodes") 0 (Some "rh_dispatch_op");
    route "GET" "/v1/agent/list" None RM_EXACT (Some "model.list") 0 (Some "rh_dispatch_op");
    route "GET" "/v1/agent/local" None RM_EXACT (Some "model.local") 0 (Some "rh_dispatch_op");
    route "POST" "/v1/agent/add" None RM_EXACT (Some "model.add") 0 (Some "rh_dispatch_op");
    route "POST" "/v1/agent/remove" None RM_EXACT (Some "model.remove") 0 (Some "rh_dispatch_op");
    route "POST" "/v1/agent/enable" None RM_EXACT (Some "model.enable") 0 (Some "rh_dispatch_op");
    route "POST" "/v1/agent/roles" None RM_EXACT (Some "model.roles") 0 (Some "rh_dispatch_op");
    route "POST" "/v1/agent/personas" None RM_EXACT (Some "model.personas") 0 (Some "rh_dispatch_op");
    route "POST" "/v1/agent/set" None RM_EXACT (Some "model.set") 0 (Some "rh_dispatch_op");
    route "POST" "/v1/agent/disable" None RM_EXACT (Some "model.disable") 0 (Some "rh_dispatch_op");
    route "POST" "/v1/agent/probe" None RM_EXACT (Some "model.probe") 0 (Some "rh_dispatch_op");
    route "GET" "/v1/agent/stats" None RM_EXACT (Some "model.stats") 0 (Some "rh_dispatch_op");
    route "POST" "/v1/agent/draft" None RM_EXACT (Some "model.draft") 0 (Some "rh_dispatch_op");
    route "POST" "/v1/agent/setup" None RM_EXACT (Some "model.setup") 0 (Some "rh_dispatch_op");
    route "POST" "/v1/agent/setup_poll" None RM_EXACT (Some "model.setup_poll") 0 (Some "rh_dispatch_op");
    route "POST" "/v1/agent/cli_oauth_start" None RM_EXACT (Some "model.cli_oauth_start") 0 (Some "rh_dispatch_op");
    route "POST" "/v1/agent/cli_oauth_code" None RM_EXACT (Some "model.cli_oauth_code") 0 (Some "rh_dispatch_op");
    route "POST" "/v1/agent/cli_oauth_poll" None RM_EXACT (Some "model.cli_oauth_poll") 0 (Some "rh_dispatch_op");
    route "POST" "/v1/agent/episodes" None RM_EXACT (Some "model.episodes") 0 (Some "rh_dispatch_op");
    route "GET" "/v1/episode/list" None RM_EXACT (Some "episode.list") 0 (Some "rh_dispatch_op");
    route "POST" "/v1/provider/connection_models" None RM_EXACT (Some "provider.connection_models") 0 (Some
      "rh_dispatch_op");
    route "GET" "/v1/provider/connections" None RM_EXACT (Some "provider.connections") 0 (Some "rh_dispatch_op");
    route "POST" "/v1/provider/save_connection" None RM_EXACT (Some "provider.save_connection") 0 (Some
      "rh_dispatch_op");
    route "POST" "/v1/provider/remove_connection" None RM_EXACT (Some "provider.remove_connection") 0 (Some
      "rh_dispatch_op");
    route "GET" "/v1/provider/list" None RM_EXACT (Some "provider.list") 0 (Some "rh_dispatch_op");
    route "GET" "/v1/provider/models" None RM_EXACT (Some "provider.models") 0 (Some "rh_dispatch_op");
    route "POST" "/v1/provider/get" None RM_EXACT (Some "provider.get") 0 (Some "rh_dispatch_op");
    route "POST" "/v1/provider/show" None RM_EXACT (Some "provider.show") 0 (Some "rh_dispatch_op");
    route "POST" "/v1/provider/set" None RM_EXACT (Some "provider.set") 0 (Some "rh_dispatch_op");
    route "POST" "/v1/provider/quota" None RM_EXACT (Some "provider.quota") 0 (Some "rh_dispatch_op");
    route "POST" "/v1/provider/test" None RM_EXACT (Some "provider.test") 0 (Some "rh_dispatch_op");
    route "GET" "/v1/catalog/list" None RM_EXACT (Some "catalog.list") 0 (Some "rh_dispatch_op");
    route "GET" "/v1/catalog/show" None RM_EXACT (Some "catalog.show") 0 (Some "rh_dispatch_op");
    route "POST" "/v1/catalog/refresh" None RM_EXACT (Some "catalog.refresh") 0 (Some "rh_dispatch_op");
    route "GET" "/v1/api/status" None RM_EXACT (Some "api.status") 0 (Some "rh_dispatch_op");
    route "POST" "/v1/api/enable" None RM_EXACT (Some "api.enable") 0 (Some "rh_dispatch_op");
    route "POST" "/v1/api/rotate_bearer" None RM_EXACT (Some "api.rotate_bearer") 0 (Some "rh_dispatch_op");
    route "POST" "/v1/api/enroll_bearer" None RM_EXACT (Some "api.enroll_bearer") 0 (Some "rh_dispatch_op");
    route "POST" "/v1/api/disable" None RM_EXACT (Some "api.disable") 0 (Some "rh_dispatch_op");
    route "GET" "/v1/dashboard/all" None RM_EXACT (Some "dashboard.all") 0 (Some "rh_dispatch_op");
    route "GET" "/v1/dashboard/audit" None RM_EXACT (Some "dashboard.audit") 0 (Some "rh_dispatch_op") ].

Definition v1_routes_3 : list http_route_t :=
  [ route "POST" "/v1/memory/receipt/forget" None RM_EXACT (Some "memory.receipt_forget") 0 (Some "rh_dispatch_op");
    route "POST" "/v1/memory/health" None RM_EXACT (Some "memory.health") 0 (Some "rh_dispatch_op");
    route "POST" "/v1/memory/receipt" None RM_EXACT (Some "memory.receipt") 0 (Some "rh_dispatch_op");
    route "POST" "/v1/learning/task_cost" None RM_EXACT (Some "learning.task_cost") 0 (Some "rh_dispatch_op");
    route "POST" "/v1/learning/application" None RM_EXACT (Some "learning.application") 0 (Some "rh_dispatch_op");
    route "GET" "/v1/audit/verify" None RM_EXACT (Some "audit.verify") 0 (Some "rh_dispatch_op");
    route "GET" "/v1/audit/captures" None RM_EXACT (Some "audit.captures") 0 (Some "rh_dispatch_op");
    route "POST" "/v1/audit/replay" None RM_EXACT (Some "audit.replay") 0 (Some "rh_dispatch_op");
    route "POST" "/v1/audit/checkpoint" None RM_EXACT (Some "audit.checkpoint") 0 (Some "rh_dispatch_op");
    route "POST" "/v1/audit/seal" None RM_EXACT (Some "audit.seal") 0 (Some "rh_dispatch_op");
    route "POST" "/v1/audit/snapshot" None RM_EXACT (Some "audit.snapshot") 0 (Some "rh_dispatch_op");
    route "GET" "/v1/dashboard/delegations" None RM_EXACT (Some "dashboard.delegations") 0 (Some "rh_dispatch_op");
    route "GET" "/v1/dashboard/logs" None RM_EXACT (Some "dashboard.logs") 0 (Some "rh_dispatch_op");
    route "GET" "/v1/dashboard/memory_stats" None RM_EXACT (Some "dashboard.memory_stats") 0 (Some "rh_dispatch_op");
    route "GET" "/v1/dashboard/metrics" None RM_EXACT (Some "dashboard.metrics") 0 (Some "rh_dispatch_op");
    route "GET" "/v1/economizer/stats" None RM_EXACT (Some "economizer.stats") 0 (Some "rh_dispatch_op");
    route "GET" "/v1/dashboard/onboard" None RM_EXACT (Some "dashboard.onboard") 0 (Some "rh_dispatch_op");
    route "GET" "/v1/dashboard/plans" None RM_EXACT (Some "dashboard.plans") 0 (Some "rh_dispatch_op");
    route "GET" "/v1/dashboard/traces" None RM_EXACT (Some "dashboard.traces") 0 (Some "rh_dispatch_op");
    route "GET" "/v1/insights/overview" None RM_EXACT (Some "insights.overview") 0 (Some "rh_dispatch_op");
    route "GET" "/v1/optimize/export" None RM_EXACT (Some "optimize.export") 0 (Some "rh_dispatch_op");
    route "POST" "/v1/optimize/promote" None RM_EXACT (Some "optimize.promote") 0 (Some "rh_dispatch_op");
    route "POST" "/v1/optimize/replay-record" None RM_EXACT (Some "optimize.replay_record") 0 (Some "rh_dispatch_op");
    route "GET" "/v1/calibration/readiness" None RM_EXACT (Some "calibration.readiness") 0 (Some "rh_dispatch_op");
    route "GET" "/v1/demotion/check" None RM_EXACT (Some "demotion.check") 0 (Some "rh_dispatch_op");
    route "GET" "/v1/intelligence/ranker/export-view" None RM_EXACT (Some "ranker.export_view") 0 (Some
      "rh_dispatch_op");
    route "POST" "/v1/intelligence/ranker/fit" None RM_EXACT (Some "ranker.fit") 0 (Some "rh_dispatch_op");
    route "GET" "/v1/identity/show" None RM_EXACT (Some "identity.show") 0 (Some "rh_dispatch_op");
    route "POST" "/v1/identity/diff" None RM_EXACT (Some "identity.diff") 0 (Some "rh_dispatch_op");
    route "POST" "/v1/identity/snapshot" None RM_EXACT (Some "identity.snapshot") 0 (Some "rh_dispatch_op");
    route "GET" "/v1/dogfood/report" None RM_EXACT (Some "dogfood.report") 0 (Some "rh_dispatch_op");
    route "POST" "/v1/dogfood/review" None RM_EXACT (Some "dogfood.review") 0 (Some "rh_dispatch_op");
    route "POST" "/v1/dogfood/tag" None RM_EXACT (Some "dogfood.tag") 0 (Some "rh_dispatch_op");
    route "POST" "/v1/lsp/diagnostics_summary" None RM_EXACT (Some "lsp.diagnostics_summary") 0 (Some
      "rh_dispatch_op");
    route "POST" "/v1/curator/contradictions" None RM_EXACT (Some "curator.contradictions") 0 (Some "rh_dispatch_op");
    route "POST" "/v1/curator/implements" None RM_EXACT (Some "curator.implements") 0 (Some "rh_dispatch_op");
    route "POST" "/v1/curator/invalidated" None RM_EXACT (Some "curator.invalidated") 0 (Some "rh_dispatch_op");
    route "POST" "/v1/curator/stages" None RM_EXACT (Some "curator.stages") 0 (Some "rh_dispatch_op");
    route "POST" "/v1/graph/explain" None RM_EXACT (Some "graph.explain") 0 (Some "rh_dispatch_op");
    route "POST" "/v1/code/audit" None RM_EXACT (Some "code.audit") 0 (Some "rh_dispatch_op");
    route "POST" "/v1/audit/trace" None RM_EXACT (Some "evidence.trace_retrieval_event") 0 (Some "rh_dispatch_op");
    route "POST" "/v1/audit/provenance" None RM_EXACT (Some "evidence.provenance_retrieval_event") 0 (Some
      "rh_dispatch_op");
    route "POST" "/v1/audit/fidelity" None RM_EXACT (Some "evidence.fidelity_retrieval_event") 0 (Some
      "rh_dispatch_op");
    route "POST" "/v1/css/signals" None RM_EXACT (Some "css.signals") 0 (Some "rh_dispatch_op");
    route "POST" "/v1/trajectory/batch" None RM_EXACT (Some "trajectory.batch") 0 (Some "rh_dispatch_op");
    route "POST" "/v1/wm/context" None RM_EXACT (Some "wm.context") 0 (Some "rh_dispatch_op");
    route "POST" "/v1/wm/get" None RM_EXACT (Some "wm.get") 0 (Some "rh_dispatch_op");
    route "POST" "/v1/skills/autostub" None RM_EXACT (Some "skill.autostub") 0 (Some "rh_dispatch_op");
    route "POST" "/v1/skills/eval" None RM_EXACT (Some "skill.eval") 0 (Some "rh_dispatch_op");
    route "POST" "/v1/skills/eval-exec" None RM_EXACT (Some "skill.eval_exec") CAP_TOOL_EXECUTE (Some
      "rh_dispatch_op");
    route "POST" "/v1/skills/lifecycle" None RM_EXACT (Some "skill.lifecycle") 0 (Some "rh_dispatch_op");
    route "POST" "/v1/skills/lint" None RM_EXACT (Some "skill.lint") 0 (Some "rh_dispatch_op");
    route "POST" "/v1/skills/patch" None RM_EXACT (Some "skill.patch") 0 (Some "rh_dispatch_op");
    route "POST" "/v1/skills/unpin" None RM_EXACT (Some "skill.unpin") 0 (Some "rh_dispatch_op");
    route "POST" "/v1/sessions/create" None RM_EXACT (Some "session.create") 0 (Some "rh_dispatch_op");
    route "POST" "/v1/sessions/record_transcript" None RM_EXACT (Some "session.record_transcript") 0 (Some
      "rh_dispatch_op");
    route "POST" "/v1/sessions/close" None RM_EXACT (Some "session.close") 0 (Some "rh_dispatch_op");
    route "POST" "/v1/sessions/get" None RM_EXACT (Some "session.get") 0 (Some "rh_dispatch_op");
    route "POST" "/v1/sessions/list" None RM_EXACT (Some "session.list") 0 (Some "rh_dispatch_op");
    route "POST" "/v1/sessions/brief" None RM_EXACT (Some "session.brief") 0 (Some "rh_dispatch_op");
    route "GET" "/v1/sessions/presence" None RM_EXACT (Some "session.presence") 0 (Some "rh_dispatch_op");
    route "POST" "/v1/toolsets/resolve" None RM_EXACT (Some "toolset.resolve") 0 (Some "rh_dispatch_op");
    route "POST" "/v1/blast_radius/preview" None RM_EXACT (Some "blast_radius.preview") 0 (Some "rh_dispatch_op");
    route "GET" "/v1/mcp/tools_list" None RM_EXACT (Some "mcp.tools_list") 0 (Some "rh_dispatch_op");
    route "POST" "/v1/mcp/tools_wait" None RM_EXACT (Some "mcp.tools_wait") 0 (Some "rh_dispatch_op");
    route "POST" "/v1/mcp/audit" None RM_EXACT (Some "mcp.audit") 0 (Some "rh_dispatch_op");
    route "POST" "/v1/mcp/recheck" None RM_EXACT (Some "mcp.recheck") 0 (Some "rh_dispatch_op");
    route "POST" "/v1/mcp/call" None RM_EXACT (Some "mcp.call") 0 (Some "rh_dispatch_op");
    route "POST" "/v1/help" None RM_EXACT (Some "help.get") 0 (Some "rh_dispatch_op");
    route "POST" "/v1/workspaces/context" None RM_EXACT (Some "workspace.context") 0 (Some "rh_dispatch_op");
    route "POST" "/v1/worktree/gc" None RM_EXACT (Some "worktree.gc") 0 (Some "rh_dispatch_op");
    route "POST" "/v1/aux/test" None RM_EXACT (Some "aux.test") 0 (Some "rh_dispatch_op");
    route "GET" "/v1/eval/results" None RM_EXACT (Some "eval.results") 0 (Some "rh_dispatch_op");
    route "GET" "/v1/eval/candidates" None RM_EXACT (Some "eval.candidates") 0 (Some "rh_dispatch_op");
    route "POST" "/v1/eval/candidates" None RM_EXACT (Some "eval.candidates-update") 0 (Some "rh_dispatch_op");
    route "POST" "/v1/learning/approaches" None RM_EXACT (Some "learning.approaches") CAP_MEMORY_READ (Some
      "rh_dispatch_op");
    route "GET" "/v1/learning/attribution" None RM_EXACT (Some "learning.attribution") 0 (Some "rh_dispatch_op");
    route "POST" "/v1/learning/resolve" None RM_EXACT (Some "learning.resolve") 0 (Some "rh_dispatch_op");
    route "POST" "/v1/learning/fate" None RM_EXACT (Some "learning.fate") 0 (Some "rh_dispatch_op");
    route "GET" "/v1/pipeline/list" None RM_EXACT (Some "pipeline.list") 0 (Some "rh_dispatch_op");
    route "POST" "/v1/pipeline/status" None RM_EXACT (Some "pipeline.status") 0 (Some "rh_dispatch_op");
    route "POST" "/v1/pipeline/start" None RM_EXACT (Some "pipeline.start") 0 (Some "rh_dispatch_op");
    route "POST" "/v1/pipeline/cancel" None RM_EXACT (Some "pipeline.cancel") 0 (Some "rh_dispatch_op");
    route "POST" "/v1/pipeline/resume" None RM_EXACT (Some "pipeline.resume") 0 (Some "rh_dispatch_op");
    route "POST" "/v1/pipeline/advance" None RM_EXACT (Some "pipeline.advance") 0 (Some "rh_dispatch_op");
    route "POST" "/v1/pipeline/gate" None RM_EXACT (Some "pipeline.gate") 0 (Some "rh_dispatch_op");
    route "GET" "/v1/trigger/list" None RM_EXACT (Some "trigger.list") 0 (Some "rh_dispatch_op");
    route "POST" "/v1/trigger/status" None RM_EXACT (Some "trigger.status") 0 (Some "rh_dispatch_op");
    route "POST" "/v1/trigger/fire" None RM_EXACT (Some "trigger.fire") 0 (Some "rh_dispatch_op");
    route "POST" "/v1/trigger/cancel" None RM_EXACT (Some "trigger.cancel") 0 (Some "rh_dispatch_op");
    route "POST" "/v1/init/run" None RM_EXACT (Some "init.run") 0 (Some "rh_dispatch_op");
    route "POST" "/v1/launch/run" None RM_EXACT (Some "launch.run") 0 (Some "rh_dispatch_op");
    route "GET" "/v1/server/info" None RM_EXACT (Some "server.info") 0 (Some "rh_dispatch_op");
    route "GET" "/v1/server/health" None RM_EXACT (Some "server.health") 0 (Some "rh_dispatch_op");
    route "GET" "/v1/workers" None RM_EXACT (Some "workers") 0 (Some "rh_dispatch_op");
    route "POST" "/v1/kb/build" None RM_EXACT (Some "kb.build") 0 (Some "rh_dispatch_op_async");
    route "POST" "/v1/kb/ingest" None RM_EXACT (Some "kb.ingest") 0 (Some "rh_dispatch_op_async");
    route "POST" "/v1/kb/update" None RM_EXACT (Some "kb.update") 0 (Some "rh_dispatch_op_async");
    route "POST" "/v1/kb/docs/push" None RM_EXACT (Some "kb.docs.push") 0 (Some "rh_dispatch_op_async");
    route "POST" "/v1/kb/reembed" None RM_EXACT (Some "kb.reembed") 0 (Some "rh_dispatch_op_async");
    route "POST" "/v1/kb/erase-subject" None RM_EXACT (Some "kb.erase-subject") 0 (Some "rh_dispatch_op_async");
    route "POST" "/v1/memory/embed" None RM_EXACT (Some "memory.embed") 0 (Some "rh_dispatch_op_async");
    route "POST" "/v1/graph/sync_code" None RM_EXACT (Some "graph.sync_code") 0 (Some "rh_dispatch_op_async");
    route "POST" "/v1/index/scan" None RM_EXACT (Some "index.scan") 0 (Some "rh_dispatch_op_async");
    route "POST" "/v1/index/ingest" None RM_EXACT (Some "index.ingest") 0 (Some "rh_dispatch_op_async");
    route "POST" "/v1/memory/benchmark" None RM_EXACT (Some "memory.benchmark") 0 (Some "rh_dispatch_op_async") ].

Definition v1_routes_4 : list http_route_t :=
  [ route "POST" "/v1/curator/synthesize" None RM_EXACT (Some "curator.synthesize") 0 (Some "rh_dispatch_op_async");
    route "POST" "/v1/rules/generate" None RM_EXACT (Some "rules.generate") 0 (Some "rh_dispatch_op_async");
    route "POST" "/v1/eval/run" None RM_EXACT (Some "eval.run") 0 (Some "rh_dispatch_op_async");
    route "POST" "/v1/delegate/aggregate" None RM_EXACT (Some "delegate.aggregate") 0 (Some "rh_dispatch_op_async");
    route "POST" "/v1/roundtable/review" None RM_EXACT (Some "roundtable.review") 0 (Some "rh_dispatch_op_async");
    route "POST" "/v1/dev/sweep" None RM_EXACT (Some "dev.sweep") 0 (Some "rh_dispatch_op_async");
    route "POST" "/v1/chat/completions" None RM_EXACT (Some "chat.send_stream") 0 (Some "rh_chat");
    route "POST" "/v1/completions" None RM_EXACT (Some "chat.send_stream") 0 (Some "rh_completions");
    route "POST" "/v1/responses" None RM_EXACT (Some "chat.send_stream") 0 (Some "rh_responses");
    route "POST" "/v1/embeddings" None RM_EXACT None CAP_CHAT (Some "rh_embeddings");
    route "POST" "/v1/messages" None RM_EXACT (Some "chat.send_stream") 0 (Some "rh_messages");
    route "POST" "/v1/messages/count_tokens" None RM_EXACT None CAP_CHAT (Some "rh_count_tokens");
    route "POST" "/v1/shadow/enable" None RM_EXACT None CAP_SHADOW_ADMIN (Some "rh_shadow_enable");
    route "POST" "/v1/shadow/disable" None RM_EXACT None CAP_SHADOW_ADMIN (Some "rh_shadow_disable");
    route "POST" "/v1/shadow/subscribe" None RM_EXACT None CAP_SHADOW_ADMIN (Some "rh_shadow_subscribe");
    route "POST" "/v1/shadow/unsubscribe" None RM_EXACT None CAP_SHADOW_ADMIN (Some "rh_shadow_unsubscribe");
    route "POST" "/v1/chat/stream" None RM_EXACT (Some "chat.send_stream") 0 None;
    route "POST" "/v1/chat/graceful_cancel" None RM_EXACT (Some "chat.graceful_cancel") 0 (Some
      "rh_chat_graceful_cancel");
    route "POST" "/v1/chat/interrupt" None RM_EXACT (Some "chat.interrupt") 0 (Some "rh_dispatch_op");
    route "POST" "/v1/chat/control-reply" None RM_EXACT None CAP_CHAT (Some "rh_chat_control_reply");
    route "POST" "/v1/chat/live" None RM_EXACT None CAP_SESSION_READ (Some "rh_chat_live");
    route "POST" "/v1/cli/session" None RM_EXACT None CAP_CHAT (Some "rh_cli_session_create");
    route "POST" "/v1/cli/session/" (Some "/input") RM_PREFIX None CAP_CHAT (Some "rh_cli_session_input");
    route "POST" "/v1/cli/session/" (Some "/resize") RM_PREFIX None CAP_CHAT (Some "rh_cli_session_resize");
    route "GET" "/v1/cli/session/" (Some "/stream") RM_PREFIX None CAP_CHAT None;
    route "DELETE" "/v1/cli/session/" None RM_PREFIX None CAP_CHAT (Some "rh_cli_session_delete");
    route "POST" "/v1/dev/submit" None RM_EXACT None CAP_DELEGATE (Some "rh_dev_submit");
    route "POST" "/v1/dev/ci-event" None RM_EXACT None 0 (Some "rh_dev_ci_event");
    route "POST" "/v1/runs" None RM_EXACT None CAP_CHAT (Some "rh_runs_post");
    route "POST" "/v1/runs/" (Some "/stop") RM_PREFIX None CAP_CHAT (Some "rh_runs_stop");
    route "POST" "/v1/commands/" None RM_PREFIX None CAP_CHAT (Some "rh_command_invoke");
    route "GET" "/v1/runs/" (Some "/events") RM_PREFIX None CAP_SESSION_READ None;
    route "GET" "/v1/runs/" None RM_PREFIX None CAP_SESSION_READ (Some "rh_runs_get");
    route "GET" "/v1/persona" None RM_EXACT None CAP_SESSION_READ (Some "rh_persona_current");
    route "GET" "/v1/personas" None RM_EXACT None CAP_SESSION_READ (Some "rh_personas_list");
    route "POST" "/v1/personas" None RM_EXACT None CAP_SESSION_ADMIN (Some "rh_personas_create");
    route "GET" "/v1/personas/" None RM_PREFIX None CAP_SESSION_READ (Some "rh_persona_show");
    route "PUT" "/v1/personas/" None RM_PREFIX None CAP_SESSION_ADMIN (Some "rh_persona_put");
    route "DELETE" "/v1/personas/" None RM_PREFIX None CAP_SESSION_ADMIN (Some "rh_persona_delete");
    route "GET" "/v1/role_templates" None RM_EXACT None CAP_SESSION_READ (Some "rh_role_templates_list");
    route "GET" "/v1/role_templates/" None RM_PREFIX None CAP_SESSION_READ (Some "rh_role_template_show");
    route "PUT" "/v1/role_templates/" None RM_PREFIX None CAP_SESSION_ADMIN (Some "rh_role_template_put");
    route "DELETE" "/v1/role_templates/" None RM_PREFIX None CAP_SESSION_ADMIN (Some "rh_role_template_delete");
    route "GET" "/v1/roundtables" None RM_EXACT None CAP_SESSION_READ (Some "rh_roundtables_list");
    route "POST" "/v1/roundtables" None RM_EXACT None CAP_SESSION_ADMIN (Some "rh_roundtables_create");
    route "POST" "/v1/roundtables/active" None RM_EXACT None CAP_SESSION_ADMIN (Some "rh_roundtable_set_active");
    route "GET" "/v1/roundtables/" None RM_PREFIX None CAP_SESSION_READ (Some "rh_roundtable_show");
    route "PUT" "/v1/roundtables/" None RM_PREFIX None CAP_SESSION_ADMIN (Some "rh_roundtable_put");
    route "DELETE" "/v1/roundtables/" None RM_PREFIX None CAP_SESSION_ADMIN (Some "rh_roundtable_delete");
    route "GET" "/v1/workflow/blocks" None RM_EXACT None CAP_DASHBOARD_READ (Some "rh_wf_blocks");
    route "PUT" "/v1/workflow/blocks/" None RM_PREFIX None CAP_SESSION_ADMIN (Some "rh_wf_block_put");
    route "DELETE" "/v1/workflow/blocks/" None RM_PREFIX None CAP_SESSION_ADMIN (Some "rh_wf_block_delete");
    route "GET" "/v1/workflow/defs" None RM_EXACT None CAP_DASHBOARD_READ (Some "rh_wf_list");
    route "GET" "/v1/workflow/triggers" None RM_EXACT None CAP_DASHBOARD_READ (Some "rh_wf_triggers");
    route "GET" "/v1/workflow/defs/" None RM_PREFIX None CAP_DASHBOARD_READ (Some "rh_wf_get");
    route "POST" "/v1/workflow/validate" None RM_EXACT None CAP_DASHBOARD_READ (Some "rh_wf_validate");
    route "POST" "/v1/workflow/save" None RM_EXACT None CAP_SESSION_ADMIN (Some "rh_wf_save");
    route "GET" "/v1/workflow/items" None RM_EXACT None CAP_DASHBOARD_READ (Some "rh_wf_items");
    route "GET" "/v1/workflow/items/all" None RM_EXACT None CAP_WORKFLOW_ADMIN (Some "rh_wf_items_all");
    route "POST" "/v1/workflow/items/" (Some "/gate") RM_PREFIX None CAP_WORKFLOW_ADMIN (Some "rh_workflow_gate");
    route "GET" "/v1/workflow/items/" (Some "/events") RM_PREFIX None CAP_DASHBOARD_READ (Some "rh_wf_events");
    route "GET" "/v1/workflow/items/" (Some "/proposal") RM_PREFIX None CAP_DASHBOARD_READ (Some "rh_wf_proposal");
    route "POST" "/v1/workflow/items/" (Some "/pause") RM_PREFIX None CAP_DASHBOARD_READ (Some "rh_wf_item_pause");
    route "POST" "/v1/workflow/items/" (Some "/resume") RM_PREFIX None CAP_DASHBOARD_READ (Some "rh_wf_item_resume");
    route "POST" "/v1/workflow/items/" (Some "/stop") RM_PREFIX None CAP_DASHBOARD_READ (Some "rh_wf_item_stop");
    route "GET" "/v1/workflow/items/" None RM_PREFIX None CAP_DASHBOARD_READ (Some "rh_wf_item") ].

Definition v1_routes_5 : list http_route_t :=
  [ route "DELETE" "/v1/workflow/items/" None RM_PREFIX None CAP_DASHBOARD_READ (Some "rh_wf_item_delete");
    route "GET" "/v1/workflow/repo/tree" None RM_EXACT None CAP_DASHBOARD_READ (Some "rh_wf_repo_tree");
    route "GET" "/v1/workflow/repo/file" None RM_EXACT None CAP_DASHBOARD_READ (Some "rh_wf_repo_file");
    route "GET" "/v1/sessions" None RM_EXACT None CAP_SESSION_READ (Some "rh_sessions_list");
    route "POST" "/v1/sessions/" (Some "/attach") RM_PREFIX None CAP_SESSION_READ (Some "rh_session_attach");
    route "POST" "/v1/sessions/" (Some "/detach") RM_PREFIX None CAP_SESSION_READ (Some "rh_session_detach");
    route "GET" "/v1/sessions/" (Some "/persona") RM_PREFIX None CAP_SESSION_READ (Some "rh_session_persona_get");
    route "POST" "/v1/sessions/" (Some "/persona") RM_PREFIX None CAP_SESSION_ADMIN (Some "rh_session_persona_set");
    route "GET" "/v1/sessions/" (Some "/events") RM_PREFIX None CAP_SESSION_READ None;
    route "GET" "/v1/sessions/" (Some "/primary") RM_PREFIX None 0 (Some "rh_session_primary_get");
    route "POST" "/v1/sessions/" (Some "/primary") RM_PREFIX None CAP_SESSION_READ (Some "rh_session_primary_set");
    route "DELETE" "/v1/sessions/" (Some "/primary") RM_PREFIX None CAP_SESSION_READ (Some
      "rh_session_primary_clear");
    route "GET" "/v1/workspaces" None RM_EXACT (Some "workspace.list") 0 (Some "rh_dispatch_op");
    route "POST" "/v1/workspaces" None RM_EXACT (Some "workspace.add") 0 (Some "rh_workspaces_register");
    route "POST" "/v1/workspace/clone" None RM_EXACT None CAP_TOOL_EXECUTE (Some "rh_workspace_clone");
    route "POST" "/v1/workspace/git" None RM_EXACT None CAP_TOOL_EXECUTE (Some "rh_workspace_git");
    route "POST" "/v1/workspace/mirror-sync" None RM_EXACT (Some "workspace.mirror-sync") 0 (Some "rh_dispatch_op");
    route "POST" "/v1/internal/forge/execute" None RM_EXACT None CAP_TOOL_EXECUTE (Some "rh_internal_forge_execute");
    route "POST" "/v1/workspace/session-dir" None RM_EXACT None CAP_INDEX_READ (Some "rh_workspace_session_dir");
    route "GET" "/v1/workspace/projects" None RM_EXACT None CAP_INDEX_READ (Some "rh_workspace_projects");
    route "POST" "/v1/workspace/projects/delete" None RM_EXACT None CAP_TOOL_EXECUTE (Some
      "rh_workspace_projects_delete");
    route "GET" "/v1/workspace/org-repos" None RM_EXACT None CAP_INDEX_READ (Some "rh_workspace_org_repos");
    route "POST" "/v1/workspace/clone-org" None RM_EXACT None CAP_TOOL_EXECUTE (Some "rh_workspace_clone_org");
    route "POST" "/v1/workspace/editor" None RM_EXACT None CAP_TOOL_EXECUTE (Some "rh_workspace_editor");
    route "GET" "/v1/git/credentials" None RM_EXACT None CAP_TOOL_EXECUTE (Some "rh_git_credentials");
    route "POST" "/v1/git/credentials" None RM_EXACT None CAP_TOOL_EXECUTE (Some "rh_git_credentials");
    route "DELETE" "/v1/git/credentials" None RM_EXACT None CAP_TOOL_EXECUTE (Some "rh_git_credentials");
    route "POST" "/v1/git/sshkey" None RM_EXACT None CAP_TOOL_EXECUTE (Some "rh_git_sshkey");
    route "DELETE" "/v1/git/sshkey" None RM_EXACT None CAP_TOOL_EXECUTE (Some "rh_git_sshkey");
    route "POST" "/v1/git/oauth/github/start" None RM_EXACT None CAP_TOOL_EXECUTE (Some "rh_git_oauth_github_start");
    route "POST" "/v1/git/oauth/github/poll" None RM_EXACT None CAP_TOOL_EXECUTE (Some "rh_git_oauth_github_poll");
    route "GET" "/v1/git/oauth/github/config" None RM_EXACT None CAP_TOOL_EXECUTE (Some "rh_git_oauth_github_config");
    route "POST" "/v1/git/oauth/github/config" None RM_EXACT None CAP_TOOL_EXECUTE (Some
      "rh_git_oauth_github_config");
    route "POST" "/v1/git/oauth/github/web/start" None RM_EXACT None CAP_TOOL_EXECUTE (Some
      "rh_git_oauth_github_web_start");
    route "POST" "/v1/git/oauth/github/web/callback" None RM_EXACT None CAP_TOOL_EXECUTE (Some
      "rh_git_oauth_github_web_callback");
    route "POST" "/v1/git/oauth/device/start" None RM_EXACT None CAP_TOOL_EXECUTE (Some "rh_git_oauth_device_start");
    route "POST" "/v1/git/oauth/device/poll" None RM_EXACT None CAP_TOOL_EXECUTE (Some "rh_git_oauth_device_poll");
    route "GET" "/v1/git/oauth/device/config" None RM_EXACT None CAP_TOOL_EXECUTE (Some "rh_git_oauth_device_config");
    route "POST" "/v1/git/oauth/device/config" None RM_EXACT None CAP_TOOL_EXECUTE (Some
      "rh_git_oauth_device_config");
    route "GET" "/v1/clients" None RM_EXACT None CAP_TOOL_EXECUTE (Some "rh_clients");
    route "POST" "/v1/clients" None RM_EXACT None CAP_TOOL_EXECUTE (Some "rh_clients");
    route "POST" "/v1/clients/revoke" None RM_EXACT None CAP_TOOL_EXECUTE (Some "rh_clients");
    route "POST" "/v1/deploy/apply" None RM_EXACT None CAP_TOOL_EXECUTE (Some "rh_deploy_apply");
    route "GET" "/v1/deploy/status" None RM_EXACT None CAP_TOOL_EXECUTE (Some "rh_deploy_status");
    route "GET" "/v1/server/forensics" None RM_EXACT None CAP_TOOL_EXECUTE (Some "rh_server_forensics");
    route "GET" "/v1/workspaces/" None RM_PREFIX (Some "workspace.get") 0 (Some "rh_workspace_get");
    route "DELETE" "/v1/workspaces/" None RM_PREFIX (Some "workspace.remove") 0 (Some "rh_workspace_remove");
    route "POST" "/v1/runner/poll" None RM_EXACT None CAP_TOOL_EXECUTE (Some "rh_runner_poll");
    route "POST" "/v1/runner/respond" None RM_EXACT None CAP_TOOL_EXECUTE (Some "rh_runner_respond") ].

Definition g_v1_routes : list http_route_t :=
  (v1_routes_1 ++ v1_routes_2 ++ v1_routes_3 ++ v1_routes_4 ++ v1_routes_5)%list.

(** From the first slash on, when there is one. *)
Fixpoint from_slash (s : bytes) : option bytes :=
  match s with
  | [] => None
  | c :: r => if c =? 47 then Some s else from_slash r
  end.

(** One row: the dynamic segment when the row matches. *)
Definition row_match (e : http_route_t) (m path : bytes) : option bytes :=
  if negb (bytes_eqb m (r_verb e)) then None
  else
    match r_kind e with
    | RM_EXACT => if bytes_eqb path (r_path e) then Some [] else None
    | RM_PREFIX =>
        if negb (starts_with path (r_path e)) then None
        else
          let rest := drop (length (r_path e)) path in
          match r_suffix e, from_slash rest with
          | Some sfx, Some tail =>
              if bytes_eqb tail sfx then Some (take (length rest - length tail) rest) else None
          | Some _, None => None
          | None, Some _ => None
          | None, None => if bool_decide (rest = []) then None else Some rest
          end
    end.

Fixpoint route_in (es : list http_route_t) (m path : bytes) (id_cap : nat) : option (http_route_t * bytes) :=
  match es with
  | [] => None
  | e :: es =>
      match row_match e m path with
      | Some id => Some (e, take (id_cap - 1) id)
      | None => route_in es m path id_cap
      end
  end.

(** The row and its dynamic segment, cut to the buffer of [id_cap] bytes. *)
Definition route_match (m path : bytes) (id_cap : nat) : option (http_route_t * bytes) :=
  route_in g_v1_routes m path id_cap.

Definition row_caps (e : http_route_t) : Z :=
  match r_op e with Some o => server_capability_for_method o | None => r_caps e end.

Definition v1_route_caps_lookup (m path : bytes) : Z :=
  match route_match m path 0 with Some (e, _) => row_caps e | None => 0 end.

Definition g_v1_write_ops : list bytes :=
  map str
    [ "memory.store";
      "memory.reject";
      "memory.restore";
      "index.ingest";
      "work.add";
      "work.claim";
      "work.complete";
      "work.fail";
      "wm.set";
      "attempt.record";
      "rules.delete";
      "facts.retract";
      "entities.merge";
      "entities.unmerge";
      "collab_rules.approve";
      "collab_rules.reject";
      "collab_rules.retire";
      "skill.create";
      "skill.edit";
      "skill.archive";
      "skill.pin" ].

Definition row_writes (e : http_route_t) : bool :=
  match r_op e with Some o => existsb (bytes_eqb o) g_v1_write_ops | None => false end.

Definition v1_route_is_local_only (m path : bytes) : bool :=
  match route_match m path 0 with Some (e, _) => row_writes e | None => false end.


(** ** What a row matches *)

Lemma starts_with_app s p : starts_with s p = true <-> exists r, s = (p ++ r)%list.
Proof.
  unfold starts_with. rewrite bytes_eqb_true. split.
  - intros <-. exists (drop (length p) s). by rewrite take_drop.
  - intros [r ->]. by rewrite take_app_length.
Qed.

Lemma from_slash_some s t : from_slash s = Some t <->
  exists id r, s = (id ++ t)%list /\ t = 47 :: r /\ ~ 47 ∈ id.
Proof.
  revert t. induction s as [|c s IH]; intros t; cbn [from_slash].
  - split; [done|]. intros (id & r & H & -> & _). by destruct id.
  - destruct (Z.eqb_spec c 47) as [->|Hc].
    + split.
      * intros [= <-]. exists [], s. split_and!; [done..|]. apply not_elem_of_nil.
      * intros ([|x id] & r & H & -> & Hn); [by injection H as <-|].
        injection H as <- _. destruct Hn. left.
    + rewrite IH. split.
      * intros (id & r & -> & -> & Hn). exists (c :: id), r. split_and!; [done..|].
        rewrite elem_of_cons. naive_solver.
      * intros ([|x id] & r & H & -> & Hn); [by injection H as ->|]. injection H as <- ->.
        exists id, r. split_and!; [done..|]. intros Hin. apply Hn. by right.
Qed.

Lemma from_slash_none s : from_slash s = None <-> ~ 47 ∈ s.
Proof.
  induction s as [|c s IH]; cbn [from_slash]; [by rewrite elem_of_nil; naive_solver|].
  rewrite elem_of_cons. destruct (Z.eqb_spec c 47) as [->|Hc]; [naive_solver|]. rewrite IH. naive_solver.
Qed.

(** The paths of a row: the fixed path, or the prefix, one nonempty or, before
    a suffix, possibly empty segment without a slash, and the suffix. *)
Inductive row_path (e : http_route_t) : bytes -> bytes -> Prop :=
  | RP_exact : r_kind e = RM_EXACT -> row_path e (r_path e) []
  | RP_segment id : r_kind e = RM_PREFIX -> r_suffix e = None -> id <> [] -> ~ 47 ∈ id ->
      row_path e (r_path e ++ id)%list id
  | RP_suffix id r : r_kind e = RM_PREFIX -> r_suffix e = Some (47 :: r) -> ~ 47 ∈ id ->
      row_path e (r_path e ++ id ++ 47 :: r)%list id.

Lemma row_match_complete e path id : row_path e path id -> row_match e (r_verb e) path = Some id.
Proof.
  unfold row_match. rewrite bytes_eqb_refl. cbn [negb].
  destruct 1 as [Hk | id Hk Hs Hne Hn | id r Hk Hs Hn]; rewrite Hk; [by rewrite bytes_eqb_refl| |].
  all: rewrite (proj2 (starts_with_app _ _)) by (by eexists); cbn [negb]; rewrite drop_app_length, Hs.
  - rewrite (proj2 (from_slash_none id) Hn). by rewrite bool_decide_eq_false_2.
  - rewrite (proj2 (from_slash_some (id ++ 47 :: r) (47 :: r))) by (by exists id, r).
    by rewrite bytes_eqb_refl, length_app, Nat.add_sub, take_app_length.
Qed.

Lemma row_match_sound e m path id : row_match e m path = Some id -> m = r_verb e /\ row_path e path id.
Proof.
  unfold row_match. destruct (bytes_eqb m (r_verb e)) eqn:Hm; cbn [negb]; [|done].
  apply bytes_eqb_true in Hm as ->. intros H. split; [done|]. revert H.
  destruct (r_kind e) eqn:Hk.
  - destruct (bytes_eqb path (r_path e)) eqn:Hp; [|done]. apply bytes_eqb_true in Hp as ->.
    intros [= <-]. by constructor.
  - destruct (starts_with path (r_path e)) eqn:Hs; cbn [negb]; [|done].
    apply starts_with_app in Hs as [rest ->]. rewrite drop_app_length.
    destruct (r_suffix e) as [sfx|] eqn:Hsfx, (from_slash rest) as [tail|] eqn:Ht; try done.
    + apply from_slash_some in Ht as (id' & r & -> & -> & Hn).
      destruct (bytes_eqb (47 :: r) sfx) eqn:He; [|done]. apply bytes_eqb_true in He as <-.
      rewrite length_app, Nat.add_sub, take_app_length. intros [= <-]. by constructor.
    + apply from_slash_none in Ht. case_bool_decide; [done|]. intros [= <-]. by constructor.
Qed.

Lemma row_match_iff e m path id : row_match e m path = Some id <-> m = r_verb e /\ row_path e path id.
Proof. split; [apply row_match_sound | intros [-> H]; by apply row_match_complete]. Qed.

(** The lookup takes the first row that matches. *)
Lemma route_in_split es m path n e id : route_in es m path n = Some (e, id) ->
  exists l r s, es = (l ++ e :: r)%list /\ m = r_verb e /\ row_path e path s /\ id = take (n - 1) s
    /\ Forall (fun e' => row_match e' m path = None) l.
Proof.
  induction es as [|e' es IH]; cbn [route_in]; [done|].
  destruct (row_match e' m path) as [s|] eqn:Hr.
  - intros [= -> <-]. apply row_match_iff in Hr as [-> Hp]. exists [], es, s. split_and!; try done.
  - intros H. destruct (IH H) as (l & r & s & -> & ? & ? & ? & ?). exists (e' :: l), r, s.
    split_and!; try done. by constructor.
Qed.

Lemma route_in_none es m path n : route_in es m path n = None <-> Forall (fun e => row_match e m path = None) es.
Proof.
  induction es as [|e es IH]; cbn [route_in]; [by split; constructor|].
  rewrite Forall_cons, <- IH. destruct (row_match e m path); naive_solver.
Qed.

(** ** Which rows overlap *)

(** Two prefix rows of one verb, the first with the shorter or equal prefix,
    have no path in common. *)
Definition prefixes_apart (e1 e2 : http_route_t) : bool :=
  if negb (starts_with (r_path e2) (r_path e1)) then true
  else
    let q := drop (length (r_path e1)) (r_path e2) in
    match from_slash q, r_suffix e1 with
    | Some _, None => true
    | Some q', Some s => negb (starts_with s q')
    | None, None => if bool_decide (q = []) then bool_decide (is_Some (r_suffix e2)) else false
    | None, Some s => if bool_decide (q = []) then negb (bool_decide (r_suffix e2 = Some s)) else false
    end.

Definition rows_apart (e1 e2 : http_route_t) : bool :=
  negb (bytes_eqb (r_verb e1) (r_verb e2))
  || match r_kind e1, r_kind e2 with
     | RM_EXACT, _ => negb (bool_decide (is_Some (row_match e2 (r_verb e2) (r_path e1))))
     | _, RM_EXACT => negb (bool_decide (is_Some (row_match e1 (r_verb e1) (r_path e2))))
     | RM_PREFIX, RM_PREFIX => prefixes_apart e1 e2 && prefixes_apart e2 e1
     end.

Lemma from_slash_app q t : from_slash (q ++ t) =
  match from_slash q with Some q' => Some (q' ++ t)%list | None => from_slash t end.
Proof. induction q as [|c q IH]; cbn; [done|]. by destruct (c =? 47). Qed.

(** What follows the prefix of a row. *)
Definition segment (sfx : option bytes) (t : bytes) : Prop := t <> [] /\ from_slash t = sfx.

Lemma row_path_segment e path id : r_kind e = RM_PREFIX -> row_path e path id ->
  exists t, path = (r_path e ++ t)%list /\ segment (r_suffix e) t.
Proof.
  intros Hk [Hk' | i _ Hs Hne Hn | i r _ Hs Hn]; [congruence| |].
  - exists i. split; [done|]. split; [done|]. by rewrite Hs, (proj2 (from_slash_none i)).
  - exists (i ++ 47 :: r)%list. split; [done|]. split; [by destruct i|]. rewrite Hs.
    apply from_slash_some. by exists i, r.
Qed.

Lemma prefixes_apart_sound e1 e2 q t2 : prefixes_apart e1 e2 = true -> r_path e2 = (r_path e1 ++ q)%list ->
  segment (r_suffix e1) (q ++ t2) -> segment (r_suffix e2) t2 -> False.
Proof.
  unfold prefixes_apart. intros Ha E [_ H1] [Hne H2]. revert Ha.
  rewrite (proj2 (starts_with_app (r_path e2) (r_path e1))) by (by exists q). cbn [negb].
  rewrite E, drop_app_length. rewrite from_slash_app in H1.
  destruct (from_slash q) as [q'|], (r_suffix e1) as [s|]; try done.
  - injection H1 as <-. by rewrite (proj2 (starts_with_app (q' ++ t2) q')) by (by exists t2).
  - case_bool_decide; [|done]. rewrite <- H1, H2. by rewrite bool_decide_eq_true_2.
  - case_bool_decide; [|done]. rewrite <- H2, H1. by rewrite bool_decide_eq_false_2 by (by intros []).
Qed.

Lemma app_prefixes (p1 p2 t1 t2 : bytes) : (p1 ++ t1 = p2 ++ t2)%list ->
  exists q, (p2 = p1 ++ q /\ t1 = q ++ t2)%list \/ (p1 = p2 ++ q /\ t2 = q ++ t1)%list.
Proof.
  intros E. destruct (decide (length p1 <= length p2)%nat) as [Hl|Hl].
  - exists (drop (length p1) p2). left. apply (f_equal (fun l => (take (length p1) l, drop (length p1) l))) in E.
    rewrite take_app_length, drop_app_length, take_app_le, drop_app_le in E by lia. injection E as E1 E2.
    by rewrite E1 at 1; rewrite take_drop.
  - exists (drop (length p2) p1). right. apply (f_equal (fun l => (take (length p2) l, drop (length p2) l))) in E.
    rewrite take_app_length, drop_app_length, take_app_le, drop_app_le in E by lia. injection E as E1 E2.
    by rewrite <- E1 at 1; rewrite take_drop.
Qed.

Lemma exact_path e path id : r_kind e = RM_EXACT -> row_path e path id -> path = r_path e.
Proof. intros Hk [|? Hk'|? ? Hk']; congruence. Qed.

Lemma rows_apart_sound e1 e2 m path i1 i2 : rows_apart e1 e2 = true ->
  row_match e1 m path = Some i1 -> row_match e2 m path = Some i2 -> False.
Proof.
  intros Ha H1 H2. pose proof H1 as [-> P1]%row_match_iff. pose proof H2 as [Ev P2]%row_match_iff.
  unfold rows_apart in Ha. rewrite Ev, bytes_eqb_refl in Ha. cbn [negb orb] in Ha.
  destruct (r_kind e1) eqn:K1; [|destruct (r_kind e2) eqn:K2].
  - pose proof (exact_path _ _ _ K1 P1) as ->. rewrite <- Ev, H2 in Ha. by rewrite bool_decide_eq_true_2 in Ha.
  - pose proof (exact_path _ _ _ K2 P2) as ->. rewrite <- Ev, H1 in Ha. by rewrite bool_decide_eq_true_2 in Ha.
  - apply andb_true_iff in Ha as [A12 A21].
    destruct (row_path_segment _ _ _ K1 P1) as (t1 & E1 & S1).
    destruct (row_path_segment _ _ _ K2 P2) as (t2 & E2 & S2). rewrite E1 in E2.
    destruct (app_prefixes _ _ _ _ E2) as (q & [[Eq ->]|[Eq ->]]).
    + by apply (prefixes_apart_sound e1 e2 q t2).
    + by apply (prefixes_apart_sound e2 e1 q t1).
Qed.

(** A check of every pair of a list, first to last. *)
Fixpoint pairwise {A} (f : A -> A -> bool) (l : list A) : bool :=
  match l with [] => true | x :: l => forallb (f x) l && pairwise f l end.

Lemma pairwise_filter {A} (f : A -> A -> bool) (P : A -> Prop) `{!forall x, Decision (P x)} l :
  pairwise f l = true -> pairwise f (filter P l) = true.
Proof.
  induction l as [|x l IH]; [done|]. cbn [pairwise]. intros [H1 H2]%andb_true_iff.
  rewrite filter_cons. destruct (decide (P x)); [|by apply IH]. cbn [pairwise]. rewrite IH, andb_true_r by done.
  rewrite forallb_forall in *. intros y Hy. apply H1, list_elem_of_In.
  by apply list_elem_of_In, list_elem_of_filter in Hy as [_ Hy].
Qed.

(** The lookup only sees the rows that match. *)
Lemma route_in_filter es m path n :
  route_in es m path n = route_in (filter (fun e => is_Some (row_match e m path)) es) m path n.
Proof.
  induction es as [|e es IH]; [done|]. rewrite filter_cons. destruct (decide _) as [[i Hi]|Hn]; cbn [route_in].
  - by rewrite Hi.
  - destruct (row_match e m path); [by destruct Hn | exact IH].
Qed.

(** The one path that two rows claim. *)
Definition items_all : bytes := str "/v1/workflow/items/all".

Definition is_items_all (e : http_route_t) : bool :=
  bytes_eqb (r_verb e) (str "GET") && bytes_eqb (r_path e) items_all && bool_decide (r_kind e = RM_EXACT).

Lemma table_pairs : pairwise (fun e1 e2 => rows_apart e1 e2 || is_items_all e1) g_v1_routes = true.
Proof. vm_compute. reflexivity. Qed.

Lemma one_row m path : (m, path) <> (str "GET", items_all) ->
  (length (filter (fun e => is_Some (row_match e m path)) g_v1_routes) <= 1)%nat.
Proof.
  intros Hne. pose proof (pairwise_filter _ (fun e => is_Some (row_match e m path)) _ table_pairs) as Hp.
  pose proof (fun e => list_elem_of_filter (fun e => is_Some (row_match e m path)) g_v1_routes e) as Hin.
  destruct (filter _ g_v1_routes) as [|e1 [|e2 es]]; cbn [length]; [lia..|].
  destruct (proj1 (Hin e1)) as [[i1 H1] _]; [left|].
  destruct (proj1 (Hin e2)) as [[i2 H2] _]; [right; left|].
  cbn [pairwise forallb] in Hp. apply andb_true_iff in Hp as [Hp _]. apply andb_true_iff in Hp as [Hp _].
  apply orb_true_iff in Hp as [Hp|Hp]; [by destruct (rows_apart_sound e1 e2 m path i1 i2)|].
  unfold is_items_all in Hp. bool_to_prop.
  apply bytes_eqb_true in H. apply bytes_eqb_true in H3. apply row_match_iff in H1 as [-> P1].
  rewrite (exact_path _ _ _ H0 P1) in Hne. congruence.
Qed.

(** Apart from one path, the order of the rows does not matter: any table
    with the same rows gives every request the row, the dynamic segment and
    with them the capabilities this one gives it. *)
Theorem route_order_irrelevant es m path n : es ≡ₚ g_v1_routes -> (m, path) <> (str "GET", items_all) ->
  route_in es m path n = route_match m path n.
Proof.
  intros Hp Hne. unfold route_match. rewrite (route_in_filter es), (route_in_filter g_v1_routes).
  pose proof (one_row m path Hne) as Hl.
  pose proof (filter_Permutation (fun e => is_Some (row_match e m path)) es g_v1_routes Hp) as Hf.
  destruct (filter _ g_v1_routes) as [|e [|e2 l]]; cbn [length] in Hl; [| |lia].
  - by apply Permutation_nil_r in Hf as ->.
  - by apply Permutation_singleton_r in Hf as ->.
Qed.

(** On that path it does: with the two rows swapped the list of all items
    would be open to the capability for one's own. *)
Theorem items_all_order : exists es, es ≡ₚ g_v1_routes
  /\ row_caps <$> (fst <$> route_in es (str "GET") items_all 0) = Some CAP_DASHBOARD_READ
  /\ row_caps <$> (fst <$> route_match (str "GET") items_all 0) = Some CAP_WORKFLOW_ADMIN.
Proof.
  exists (reverse g_v1_routes). split; [apply reverse_Permutation|]. split; vm_compute; reflexivity.
Qed.

(** ** Methods without a policy *)

(** A route's method that no row of the registry covers asks for every
    capability. *)
Theorem unregistered_ops : forall o, (exists e, e ∈ g_v1_routes /\ r_op e = Some o) ->
  server_policy_for_method o = None <->
  o ∈ map str ["code.audit"; "learning.attribution"; "learning.resolve"; "learning.fate"].
Proof.
  set (ops := remove_dups (omap r_op g_v1_routes)).
  intros o (e & He & Ho).
  assert (Hops : o ∈ ops) by (apply elem_of_remove_dups, list_elem_of_omap; by exists e).
  assert (Hall : forallb (fun o => eqb (bool_decide (server_policy_for_method o = None))
     (bool_decide (o ∈ map str ["code.audit"; "learning.attribution"; "learning.resolve"; "learning.fate"])))
      ops = true)
    by (vm_compute; reflexivity).
  rewrite forallb_forall in Hall. specialize (Hall o (proj1 (list_elem_of_In _ _) Hops)).
  apply eqb_prop in Hall. split; intros H.
  - rewrite bool_decide_eq_true_2 in Hall by done. symmetry in Hall. by apply bool_decide_eq_true in Hall.
  - rewrite (bool_decide_eq_true_2 (o ∈ _)) in Hall by done. by apply bool_decide_eq_true in Hall.
Qed.

Lemma route_order_irrelevant_witness :
  route_in (reverse g_v1_routes) (str "POST") (str "/v1/runs/abc/stop") 64
  = route_match (str "POST") (str "/v1/runs/abc/stop") 64.
Proof. apply (route_order_irrelevant (reverse g_v1_routes)); [apply reverse_Permutation | done]. Defined.

End ServerPolicy.
