(* ===== verification/HttpRequest.v ===== *)
(** * Requests of the [/v1] listener

    How the server reads an HTTP request before it decides anything about it:
    the request line ([handle_conn_impl] of [server_http.c]), the value of a
    header ([http_header]), the framing check of [server_http_keepalive.c]
    and the session suffix of a bearer ([server_http_identity.c]).  A request
    is the C string in the read buffer; the number of bytes read is separate,
    since a NUL in them ends the string. *)

From Stdlib Require Import ZArith Lia String.
From stdpp Require Import base numbers list.
From S2P Require Import Prelude ServerPolicy.

Module HttpRequest.
Import ServerPolicy.

(** ** Text *)

Definition c_space (c : Z) : bool := (c =? 32) || ((9 <=? c) && (c <=? 13)).
Definition blank (c : Z) : bool := (c =? 32) || (c =? 9).

Fixpoint skip (f : Z -> bool) (s : bytes) : bytes :=
  match s with c :: r => if f c then skip f r else s | [] => [] end.

(** What a [%<n>s] of [sscanf] stores, and what is left. *)
Fixpoint word (n : nat) (s : bytes) : bytes * bytes :=
  match n, s with
  | S n, c :: r => if c_space c then ([], s) else let '(w, t) := word n r in (c :: w, t)
  | _, _ => ([], s)
  end.

Definition scan_s (n : nat) (s : bytes) : bytes * bytes := word n (skip c_space s).

Definition CRLF : bytes := [13; 10].

(** The lines between the line ends. *)
Fixpoint lines_of (s : bytes) : list bytes :=
  match s with
  | [] => [[]]
  | c :: r =>
      match r with
      | d :: r' => if (c =? 13) && (d =? 10) then [] :: lines_of r'
                   else match lines_of r with l :: ls => (c :: l) :: ls | [] => [[c]] end
      | [] => [[c]]
      end
  end.

(** [strstr(s, pat)]: what stands before the first occurrence. *)
Fixpoint before (pat s : bytes) : option bytes :=
  if starts_with s pat then Some []
  else match s with [] => None | c :: r => cons c <$> before pat r end.

(** ** Headers *)

Definition same_name (a b : bytes) : bool := bytes_eqb (map ascii_lower a) (map ascii_lower b).

(** The value of a line that holds the header [name]. *)
Definition line_value (name line : bytes) : option bytes :=
  if (length name <? length line)%nat && same_name (take (length name) line) name
     && bool_decide (line !! length name = Some 58)
  then Some (skip blank (drop (S (length name)) line))
  else None.

(** The value in a buffer of [n] bytes, when the header is found. *)
Definition http_header (buf name : bytes) (n : nat) : option bytes :=
  match n with
  | O => None
  | S n => take n <$> head (omap (line_value name) (lines_of buf))
  end.

(** ** The request line *)

Definition request_line (buf : bytes) : option (bytes * bytes) :=
  let '(method, r) := scan_s 15 buf in
  let '(path, _) := scan_s 511 r in
  if bool_decide (method = []) || bool_decide (path = []) then None else Some (method, path).

(** The path before the first question mark, and the query after it. *)
Fixpoint cut_query (path : bytes) : bytes * bytes :=
  match path with
  | [] => ([], [])
  | c :: r => if c =? 63 then ([], r) else let '(p, q) := cut_query r in (c :: p, q)
  end.

(** ** Framing *)

Definition header_name_char (c : Z) : bool :=
  ((97 <=? c) && (c <=? 122)) || ((65 <=? c) && (c <=? 90)) || ((48 <=? c) && (c <=? 57))
  || existsb (Z.eqb c) (str "!#$%&'*+-.^_`|~").

(** Line ends are whole. *)
Fixpoint line_ends_ok (prev : Z) (s : bytes) : bool :=
  match s with
  | [] => true
  | c :: r =>
      negb ((c =? 0) || ((c =? 13) && negb (bool_decide (head r = Some 10))) || ((c =? 10) && negb (prev =? 13)))
      && line_ends_ok c r
  end.

Definition request_line_ok (line : bytes) : bool :=
  let '(method, r) := scan_s 15 line in
  let '(target, r) := scan_s 4096 r in
  let '(version, r) := scan_s 15 r in
  negb (bool_decide (method = [])) && negb (bool_decide (target = [])) && negb (bool_decide (version = []))
  && bool_decide (skip c_space r = []) && bytes_eqb version (str "HTTP/1.1") && bool_decide (head target = Some 47).

Record framing := { content_len : Z; have_cl : nat; have_connection : nat; have_host : nat; headers : nat }.

Definition framing0 : framing :=
  {| content_len := 0; have_cl := 0; have_connection := 0; have_host := 0; headers := 0 |}.

(** At the first colon. *)
Fixpoint cut_colon (s : bytes) : option (bytes * bytes) :=
  match s with
  | [] => None
  | c :: r => if c =? 58 then Some ([], r) else '(a, b) ← cut_colon r; Some (c :: a, b)
  end.

Fixpoint decimal (s : bytes) (v : Z) : option Z :=
  match s with
  | [] => Some v
  | c :: r =>
      if (c <? 48) || (57 <? c) || ((SIZE_MAX - (c - 48)) / 10 <? v) then None
      else decimal r (v * 10 + (c - 48))
  end.

Definition one (b : bool) (n : nat) : option nat :=
  if b then match n with O => Some 1%nat | S _ => None end else Some n.

(** One header line. *)
Definition header_line (st : framing) (line : bytes) : option framing :=
  if (64 <=? headers st)%nat || existsb blank (take 1 line) then None
  else
    '(name, rest) ← cut_colon line;
    let value := skip blank rest in
    let named := fun n => same_name name (str n) in
    if bool_decide (name = []) || negb (forallb header_name_char name) || named "Transfer-Encoding"%string then None
    else if named "Host"%string && bool_decide (value = []) then None
    else
      h ← one (named "Host"%string) (have_host st);
      k ← one (named "Connection"%string) (have_connection st);
      c ← one (named "Content-Length"%string) (have_cl st);
      len ← (if named "Content-Length"%string
             then if bool_decide (value = []) then None else decimal value 0
             else Some (content_len st));
      Some {| content_len := len; have_cl := c; have_connection := k; have_host := h; headers := S (headers st) |}.

Fixpoint header_lines (st : framing) (ls : list bytes) : option framing :=
  match ls with [] => Some st | l :: ls => st ← header_line st l; header_lines st ls end.

Definition server_http_request_framing_valid (request : bytes) (total : Z) : bool :=
  match before (CRLF ++ CRLF) request with
  | None => false
  | Some pre =>
      let head_len := zlen pre + 4 in
      match lines_of pre with
      | [] => false
      | line :: hs =>
          line_ends_ok 0 (pre ++ CRLF ++ CRLF) && (zlen line <=? 8192) && request_line_ok line
          && match header_lines framing0 hs with
             | Some st => (have_host st =? 1)%nat && (total <=? u64 (head_len + content_len st))
             | None => false
             end
      end
  end.

(** ** The session suffix of a bearer *)

Definition AIMEE_SESSION_BEARER_MARKER : bytes := str ".aimee-session.".

Definition lower_hex_char (c : Z) : bool := ((48 <=? c) && (c <=? 57)) || ((97 <=? c) && (c <=? 102)).

(** The credential without the suffix and the session it names, in buffers of
    the given sizes; without a whole suffix the credential is kept. *)
Definition server_http_session_bearer_unbind (presented : option bytes) (bearer_n session_n : nat)
    : bool * bytes * bytes :=
  let p := default [] presented in
  let kept := (false, snprintf_s bearer_n p, []) in
  match presented, before AIMEE_SESSION_BEARER_MARKER p with
  | Some _, Some base =>
      let sid := drop (length base + length AIMEE_SESSION_BEARER_MARKER) p in
      if negb (length sid =? 32)%nat || negb (forallb lower_hex_char sid) || bool_decide (base = [])
         || (bearer_n <=? length base)%nat || (session_n <? 33)%nat
      then kept
      else (true, base, sid)
  | _, _ => kept
  end.

(** ** Lines *)

Definition clean (l : bytes) : Prop := Forall (fun c => c <> 0 /\ c <> 13 /\ c <> 10) l.

Fixpoint join (l : bytes) (ls : list bytes) : bytes :=
  match ls with [] => l | k :: ks => (l ++ CRLF ++ join k ks)%list end.

Lemma lines_of_nonempty s : lines_of s <> [].
Proof.
  destruct s as [|c [|d r]]; [done..|]. cbn [lines_of]. destruct ((c =? 13) && (d =? 10)); [done|].
  by repeat case_match.
Qed.

Lemma lines_of_skip c r : (c =? 13) && bool_decide (head r = Some 10) = false ->
  exists l ls, lines_of r = l :: ls /\ lines_of (c :: r) = (c :: l) :: ls.
Proof.
  intros H. destruct r as [|d r]; [by exists [], []|]. cbn [head] in H.
  assert (E : (c =? 13) && (d =? 10) = false).
  { destruct (c =? 13); [|done]. destruct (Z.eqb_spec d 10) as [->|]; [|done].
    by rewrite bool_decide_eq_true_2 in H. }
  destruct (lines_of (d :: r)) as [|l ls] eqn:Hl; [by destruct (lines_of_nonempty (d :: r))|].
  exists l, ls. split; [done|]. change (lines_of (c :: d :: r)) with
    (if (c =? 13) && (d =? 10) then [] :: lines_of r
     else match lines_of (d :: r) with l :: ls => (c :: l) :: ls | [] => [[c]] end).
  by rewrite E, Hl.
Qed.

Lemma lines_of_clean l : clean l -> forall t, lines_of (l ++ CRLF ++ t) = l :: lines_of t.
Proof.
  induction 1 as [|c l (H0 & H13 & H10) Hl IH]; intros t; [done|]. cbn [app].
  destruct (lines_of_skip c (l ++ CRLF ++ t)) as (k & ks & Hk & ->).
  { by rewrite (proj2 (Z.eqb_neq c 13)). }
  rewrite IH in Hk. by injection Hk as <- <-.
Qed.

Lemma lines_of_clean_end l : clean l -> lines_of l = [l].
Proof.
  induction 1 as [|c l (H0 & H13 & H10) Hl IH]; [done|].
  destruct (lines_of_skip c l) as (k & ks & Hk & ->); [by rewrite (proj2 (Z.eqb_neq c 13))|].
  rewrite IH in Hk. by injection Hk as <- <-.
Qed.

Lemma lines_of_join l ls : clean l -> Forall clean ls -> lines_of (join l ls) = l :: ls.
Proof.
  intros Hl Hls. revert l Hl. induction Hls as [|k ks Hk Hks IH]; intros l Hl; cbn [join].
  - by apply lines_of_clean_end.
  - by rewrite lines_of_clean, IH.
Qed.

(** Induction that follows the splitting into lines. *)
Lemma lines_ind (P : bytes -> Prop) :
  P [] -> (forall r, P r -> P (13 :: 10 :: r)) ->
  (forall c r, (c =? 13) && bool_decide (head r = Some 10) = false -> P r -> P (c :: r)) -> forall s, P s.
Proof.
  intros H0 H1 H2 s. remember (length s) as n eqn:Hn. revert s Hn.
  induction (lt_wf n) as [n _ IH]. intros [|c r] ->; [done|].
  destruct ((c =? 13) && bool_decide (head r = Some 10)) eqn:E.
  - apply andb_true_iff in E as [->%Z.eqb_eq E%bool_decide_eq_true]. destruct r as [|d r]; [done|].
    injection E as ->. apply H1. apply (IH (length r)); [cbn; lia | done].
  - apply H2; [done|]. apply (IH (length r)); [cbn; lia | done].
Qed.

Lemma join_lines_of s : exists l ls, lines_of s = l :: ls /\ s = join l ls.
Proof.
  induction s as [|r (l & ls & Hl & ->)|c r E (l & ls & Hl & Hr)] using lines_ind.
  - by exists [], [].
  - exists [], (l :: ls). split; [|done]. cbn [lines_of]. by rewrite Hl.
  - destruct (lines_of_skip c r E) as (k & ks & Hk & ->). rewrite Hk in Hl. injection Hl as -> ->.
    exists (c :: l), ls. split; [done|]. rewrite Hr. by destruct ls.
Qed.

Lemma line_ends_sound t s : forall prev, prev <> 13 -> line_ends_ok prev (s ++ CRLF ++ t) = true ->
  Forall clean (lines_of s).
Proof.
  induction s as [|r IH|c r E IH] using lines_ind; intros prev Hp; [by repeat constructor| |].
  - cbn. rewrite bool_decide_eq_true_2 by done. cbn. intros H. constructor; [constructor|].
    by apply (IH 10).
  - cbn [app line_ends_ok]. intros [H1 H2]%andb_true_iff.
    destruct (lines_of_skip c r E) as (l & ls & Hl & ->).
    destruct (Z.eqb_spec c 0) as [|Hc0]; [done|]. destruct (Z.eqb_spec c 10) as [->|Hc10].
    { by rewrite (proj2 (Z.eqb_neq prev 13)) in H1. }
    destruct (Z.eqb_spec c 13) as [->|Hc13].
    { destruct r as [|d r]; cbn in H1, E; [by rewrite bool_decide_eq_false_2 in H1 | by rewrite E in H1]. }
    specialize (IH c Hc13 H2). rewrite Hl in IH. inversion_clear IH. constructor; [|done].
    by constructor.
Qed.

Lemma line_ends_clean l prev t : clean l ->
  line_ends_ok prev (l ++ t) = line_ends_ok (default prev (last l)) t.
Proof.
  intros Hl. revert prev. induction Hl as [|c l (H0 & H13 & H10) Hl IH]; intros prev; [done|].
  cbn [app line_ends_ok]. rewrite !(proj2 (Z.eqb_neq c _)) by done. cbn. rewrite IH.
  rewrite last_cons. by destruct (last l).
Qed.

Lemma line_ends_complete l ls prev : clean l -> Forall clean ls -> prev <> 13 ->
  line_ends_ok prev (join l ls ++ CRLF ++ CRLF) = true.
Proof.
  intros Hl Hls. revert l prev Hl. induction Hls as [|k ks Hk Hks IH]; intros l prev Hl Hp; cbn [join].
  - rewrite line_ends_clean by done. reflexivity.
  - rewrite <- !app_assoc, line_ends_clean by done. cbn [app line_ends_ok CRLF].
    rewrite bool_decide_eq_true_2 by done. cbn. by apply (IH k 10).
Qed.

Lemma before_some pat s pre : before pat s = Some pre -> exists rest, s = (pre ++ pat ++ rest)%list.
Proof.
  revert pre. induction s as [|c s IH]; intros pre; cbn [before].
  - destruct (starts_with [] pat) eqn:E; [|done]. intros [= <-].
    apply starts_with_app in E as [r E]. by exists r.
  - destruct (starts_with (c :: s) pat) eqn:E.
    + intros [= <-]. apply starts_with_app in E as [r E]. by exists r.
    + destruct (before pat s) as [q|] eqn:Hb; [|done]. intros [= <-].
      destruct (IH q eq_refl) as [rest ->]. by exists rest.
Qed.

Lemma before_mono pat s t pre : before pat s = Some pre -> before pat (s ++ t) = Some pre.
Proof.
  revert pre. induction s as [|c s IH]; intros pre Hb.
  - apply before_some in Hb as [rest Hb]. symmetry in Hb. apply app_eq_nil in Hb as [-> [-> ->]%app_eq_nil].
    by destruct t.
  - pose proof Hb as [rest Hs]%before_some. cbn [before app] in *.
    destruct (starts_with (c :: s) pat) eqn:E.
    + apply starts_with_app in E as [r E]. injection Hb as <-.
      rewrite (proj2 (starts_with_app (c :: s ++ t) pat)); [done|]. exists (r ++ t).
      change (c :: s ++ t) with ((c :: s) ++ t). by rewrite E, app_assoc.
    + destruct (before pat s) as [q|] eqn:Hq; [|done]. injection Hb as <-. rewrite (IH q eq_refl).
      assert (E' : starts_with (c :: s ++ t) pat = false); [|by rewrite E'].
      unfold starts_with in *. rewrite <- E. f_equal. change (c :: s ++ t) with ((c :: s) ++ t).
      apply take_app_le. rewrite Hs, !length_app. lia.
Qed.

Lemma before_clean pat l t : clean l -> before (13 :: pat) (l ++ t) = app l <$> before (13 :: pat) t.
Proof.
  induction 1 as [|c l (H0 & H13 & H10) Hl IH]; cbn [app].
  - by destruct (before (13 :: pat) t).
  - assert (Hs : starts_with (c :: l ++ t) (13 :: pat) = false).
    { unfold starts_with. apply bytes_eqb_false. cbn. congruence. }
    cbn [before]. rewrite Hs, IH. by destruct (before (13 :: pat) t).
Qed.

Lemma before_join l ls rest : clean l -> Forall (fun k => k <> [] /\ clean k) ls ->
  before (CRLF ++ CRLF) (join l ls ++ CRLF ++ CRLF ++ rest) = Some (join l ls).
Proof.
  intros Hl Hls. revert l Hl. induction Hls as [|k ks [Hne Hk] Hks IH]; intros l Hl; cbn [join].
  - change (CRLF ++ CRLF)%list with (13 :: [10; 13; 10]). rewrite before_clean by done.
    assert (E : before (13 :: [10; 13; 10]) (CRLF ++ CRLF ++ rest) = Some []) by reflexivity.
    rewrite E. cbn [fmap option_fmap option_map]. by rewrite app_nil_r.
  - rewrite <- !app_assoc. change (CRLF ++ CRLF)%list with (13 :: [10; 13; 10]).
    rewrite before_clean by done. destruct k as [|c k]; [done|]. pose proof Hk as Hck. inversion Hck as [|? ? (? & ? & ?)].
    change (CRLF ++ join (c :: k) ks ++ CRLF ++ CRLF ++ rest)%list
      with (13 :: 10 :: (join (c :: k) ks ++ CRLF ++ CRLF ++ rest))%list.
    assert (Hj : exists q, join (c :: k) ks = c :: q) by (destruct ks; by eexists).
    destruct Hj as [q Hj]. cbn [before]. unfold starts_with at 1 2. cbn [take length].
    rewrite Hj at 1. cbn [app take]. rewrite !(proj2 (bytes_eqb_false _ _)) by congruence.
    change (13 :: [10; 13; 10]) with (CRLF ++ CRLF)%list. rewrite (IH (c :: k)) by done. reflexivity.
Qed.

(** ** Fields *)

Definition token (n : bytes) : Prop := n <> [] /\ forallb header_name_char n = true.

Definition text (f : bytes * bytes) : bytes := (f.1 ++ 58 :: f.2)%list.

(** The values of the fields with a name. *)
Definition named (k : string) (fs : list (bytes * bytes)) : list bytes :=
  map snd (filter (fun f => same_name f.1 (str k) = true) fs).

(** The length a value states. *)
Definition number (v : bytes) : option Z :=
  if bool_decide (skip blank v = []) then None else decimal (skip blank v) 0.

Lemma name_char_facts c : header_name_char c = true -> c <> 58 /\ c <> 32 /\ c <> 9 /\ c <> 0 /\ c <> 13 /\ c <> 10.
Proof.
  intros H. split_and!; intros ->; revert H; vm_compute; done.
Qed.

Lemma cut_colon_iff l n v : cut_colon l = Some (n, v) <-> l = (n ++ 58 :: v)%list /\ ~ 58 ∈ n.
Proof.
  revert n v. induction l as [|c l IH]; intros n v; cbn [cut_colon].
  - split; [done|]. intros [H _]. by destruct n.
  - destruct (Z.eqb_spec c 58) as [->|Hc].
    + split; [intros [= <- <-]; split; [done | apply not_elem_of_nil]|].
      intros [H Hn]. destruct n as [|x n]; [by injection H as <-|]. injection H as <- _. destruct Hn. left.
    + split.
      * destruct (cut_colon l) as [[a b]|] eqn:E; [|done]. intros [= <- <-].
        destruct (proj1 (IH a b) eq_refl) as [-> Ha]. split; [done|]. rewrite elem_of_cons. naive_solver.
      * intros [H Hn]. destruct n as [|x n]; [by injection H as -> _|]. injection H as <- ->.
        assert (Hn' : 58 ∉ n) by (intros ?; apply Hn; by right).
        by rewrite (proj2 (IH n v) (conj eq_refl Hn')).
Qed.

Lemma token_no_colon n : token n -> ~ 58 ∈ n.
Proof.
  intros [_ H] Hin. rewrite forallb_forall in H. apply list_elem_of_In, H, name_char_facts in Hin. naive_solver.
Qed.

Lemma named_cons k n v fs :
  named k ((n, v) :: fs) = if same_name n (str k) then v :: named k fs else named k fs.
Proof. unfold named. rewrite filter_cons. cbn [fst]. by destruct (same_name n (str k)). Qed.

(** One field, the test of its first byte gone. *)
Lemma header_line_field st n v : token n -> header_line st (text (n, v)) =
  if (64 <=? headers st)%nat || same_name n (str "Transfer-Encoding")
     || (same_name n (str "Host") && bool_decide (skip blank v = [])) then None
  else
    h ← one (same_name n (str "Host")) (have_host st);
    k ← one (same_name n (str "Connection")) (have_connection st);
    c ← one (same_name n (str "Content-Length")) (have_cl st);
    len ← (if same_name n (str "Content-Length") then number v else Some (content_len st));
    Some {| content_len := len; have_cl := c; have_connection := k; have_host := h; headers := S (headers st) |}.
Proof.
  intros Ht. pose proof (token_no_colon n Ht) as Hn. destruct Ht as [Hne Hc]. unfold header_line, text. cbn [fst snd].
  assert (Hb : existsb blank (take 1 (n ++ 58 :: v)) = false).
  { destruct n as [|c n]; [done|]. cbn in Hc |- *. apply andb_true_iff in Hc as [Hc _].
    apply name_char_facts in Hc as (_ & ? & ? & _). unfold blank. by rewrite !(proj2 (Z.eqb_neq c _)). }
  rewrite Hb, (proj2 (cut_colon_iff _ n v) (conj eq_refl Hn)). cbn [mbind option_bind].
  rewrite (bool_decide_eq_false_2 (n = [])), Hc by done. cbn [negb orb].
  unfold number. destruct (64 <=? headers st)%nat; [done|]. cbn [orb].
  destruct (same_name n (str "Transfer-Encoding")); [done|]. cbn [orb].
  by destruct (same_name n (str "Host") && _).
Qed.

Lemma header_line_shape st l st' : header_line st l = Some st' -> exists n v, token n /\ l = text (n, v).
Proof.
  unfold header_line. destruct (_ || existsb _ _); [done|]. destruct (cut_colon l) as [[n v]|] eqn:E; [|done].
  cbn [mbind option_bind].
  apply cut_colon_iff in E as [-> _]. case_bool_decide as Hn; [done|]. cbn [orb].
  destruct (forallb header_name_char n) eqn:Hc; [|done]. by exists n, v.
Qed.

Lemma one_iff b n m : (n <= 1)%nat -> one b n = Some m <-> m = (n + (if b then 1 else 0))%nat /\ (m <= 1)%nat.
Proof. intros Hn. destruct b, n as [|[]]; cbn; try lia; split; intros H; try lia; naive_solver lia. Qed.

Definition small (st : framing) : Prop :=
  (have_host st <= 1 /\ have_connection st <= 1 /\ have_cl st <= 1 /\ headers st <= 64)%nat.

(** The state after some fields. *)
Definition after (st : framing) (fs : list (bytes * bytes)) (st' : framing) : Prop :=
  named "Transfer-Encoding" fs = [] /\ Forall (fun v => skip blank v <> []) (named "Host" fs)
  /\ have_host st' = (have_host st + length (named "Host" fs))%nat
  /\ have_connection st' = (have_connection st + length (named "Connection" fs))%nat
  /\ have_cl st' = (have_cl st + length (named "Content-Length" fs))%nat
  /\ headers st' = (headers st + length fs)%nat /\ small st'
  /\ match named "Content-Length" fs with
     | [] => content_len st' = content_len st
     | v :: _ => number v = Some (content_len st')
     end.

Lemma header_line_iff st n v st' : token n -> small st ->
  header_line st (text (n, v)) = Some st' <-> after st [(n, v)] st'.
Proof.
  intros Ht (Hh & Hk & Hc & Hn). rewrite header_line_field by done. unfold after, small. rewrite !named_cons.
  change (named _ []) with (@nil bytes). cbn [length].
  destruct (64 <=? headers st)%nat eqn:E64; [apply Nat.leb_le in E64; split; [done | lia]|]. apply Nat.leb_gt in E64.
  destruct (same_name n (str "Transfer-Encoding")); [split; [done | by intros [? _]]|]. cbn [orb].
  destruct (same_name n (str "Host") && bool_decide (skip blank v = [])) eqn:Eh.
  { apply andb_true_iff in Eh as [-> Eh%bool_decide_eq_true]. split; [done|].
    intros (_ & Hf & _). by inversion_clear Hf. }
  assert (Hf : Forall (fun w => skip blank w <> []) (if same_name n (str "Host") then [v] else [])).
  { destruct (same_name n (str "Host")); [|constructor]. constructor; [|constructor].
    by apply bool_decide_eq_false in Eh. }
  set (bh := same_name n (str "Host")) in *. set (bk := same_name n (str "Connection")).
  set (bc := same_name n (str "Content-Length")).
  pose proof (fun m => one_iff bh (have_host st) m Hh) as Oh.
  pose proof (fun m => one_iff bk (have_connection st) m Hk) as Ok.
  pose proof (fun m => one_iff bc (have_cl st) m Hc) as Oc.
  destruct (one bh (have_host st)) as [h|]; cbn [mbind option_bind].
  2: { split; [done|]. intros (_ & _ & E & _ & _ & _ & (Hs & _) & _). enough (None = Some (have_host st')) by done.
       apply Oh. destruct bh; cbn in E; lia. }
  destruct (one bk (have_connection st)) as [k|]; cbn [mbind option_bind].
  2: { split; [done|]. intros (_ & _ & _ & E & _ & _ & (_ & Hs & _) & _).
       enough (None = Some (have_connection st')) by done. apply Ok. destruct bk; cbn in E; lia. }
  destruct (one bc (have_cl st)) as [c|]; cbn [mbind option_bind].
  2: { split; [done|]. intros (_ & _ & _ & _ & E & _ & (_ & _ & Hs & _) & _).
       enough (None = Some (have_cl st')) by done. apply Oc. destruct bc; cbn in E; lia. }
  destruct (proj1 (Oh h) eq_refl), (proj1 (Ok k) eq_refl), (proj1 (Oc c) eq_refl).
  destruct st' as [len' c' k' h' n']. cbn [have_host have_connection have_cl headers content_len].
  destruct bh, bk, bc; cbn [length] in *; try (destruct (number v) as [len|]; cbn [mbind option_bind]).
  all: split; [intros H'; simplify_eq H'; intros; subst; split_and!; (done || lia)|].
  all: intros (_ & _ & -> & -> & -> & -> & _ & E); try done; do 2 f_equal; try lia; congruence.
Qed.

Lemma after_small st fs st' : after st fs st' -> small st'.
Proof. by intros (_ & _ & _ & _ & _ & _ & H & _). Qed.

Lemma after_cons st n v fs st' : after st ((n, v) :: fs) st' <-> exists st1, after st [(n, v)] st1 /\ after st1 fs st'.
Proof.
  unfold after, small. rewrite !named_cons. change (named _ []) with (@nil bytes).
  destruct (same_name n (str "Transfer-Encoding")); [naive_solver|].
  set (bh := same_name n (str "Host")). set (bk := same_name n (str "Connection")).
  set (bc := same_name n (str "Content-Length")). split.
  - intros (Ht & Hf & E1 & E2 & E3 & E4 & (S1 & S2 & S3 & S4) & Hl).
    set (len := if bc then default 0 (number v) else content_len st).
    exists {| content_len := len; have_cl := have_cl st + (if bc then 1 else 0);
              have_connection := have_connection st + (if bk then 1 else 0);
              have_host := have_host st + (if bh then 1 else 0); headers := S (headers st) |}.
    cbn [have_host have_connection have_cl headers content_len length]. unfold len.
    destruct bh, bk, bc; cbn [length] in *;
      try (apply Forall_cons in Hf as [Hv Hf]); rewrite ?Hl; split_and!; try done; try lia; try (by repeat constructor).
    all: destruct (named "Content-Length" fs); cbn [length] in *; (done || lia).
  - intros (st1 & (_ & Hf1 & E1 & E2 & E3 & E4 & S1 & Hl1) & (Ht & Hf & F1 & F2 & F3 & F4 & (S2 & S3 & S4 & S5) & Hl)).
    destruct bh, bk, bc; cbn [length] in *;
      try (apply Forall_cons in Hf1 as [Hv _]); split_and!; try done; try lia; try (by constructor).
    all: destruct (named "Content-Length" fs); cbn [length] in *; first [congruence | lia].
Qed.

Lemma header_lines_iff fs st st' : Forall (fun f => token f.1) fs -> small st ->
  header_lines st (map text fs) = Some st' <-> after st fs st'.
Proof.
  intros Hfs. revert st. induction Hfs as [|[n v] fs Hn Hfs IH]; intros st Hs; cbn [map header_lines].
  - unfold after. change (named _ []) with (@nil bytes). cbn [length]. destruct st, st', Hs as (? & ? & ? & ?).
    cbn [have_host have_connection have_cl headers content_len] in *. split.
    + intros [= -> -> -> -> ->]. unfold small; cbn. split_and!; (done || lia || constructor).
    + intros (_ & _ & -> & -> & -> & -> & _ & ->). do 2 f_equal; lia.
  - rewrite after_cons. split.
    + destruct (header_line st (text (n, v))) as [st1|] eqn:E; [|done]. cbn [mbind option_bind].
      apply header_line_iff in E; [|done..]. intros H. exists st1. split; [done|]. apply IH; [|done].
      by apply after_small in E.
    + intros (st1 & H1 & H2). pose proof (after_small _ _ _ H1) as Hs1.
      apply header_line_iff in H1; [|done..]. rewrite H1. cbn [mbind option_bind]. by apply IH.
Qed.

(** ** Which requests are framed *)

(** A request whose message ends at one place: whole lines, three words on
    the first, at most 64 fields with token names, one [Host], no
    [Transfer-Encoding], at most one [Connection] and one [Content-Length],
    and no byte read beyond the length it states. *)
Record framed (request : bytes) (total : Z) (line : bytes) (fs : list (bytes * bytes)) (rest : bytes) (len : Z)
    : Prop := {
  fr_text : request = (join line (map text fs) ++ CRLF ++ CRLF ++ rest)%list;
  fr_clean : Forall clean (line :: map text fs);
  fr_words : request_line_ok line = true /\ zlen line <= 8192;
  fr_tokens : Forall (fun f => token f.1) fs /\ (length fs <= 64)%nat;
  fr_coding : named "Transfer-Encoding" fs = [];
  fr_host : exists v, named "Host" fs = [v] /\ skip blank v <> [];
  fr_connection : (length (named "Connection" fs) <= 1)%nat;
  fr_length : (named "Content-Length" fs = [] /\ len = 0)
              \/ exists v, named "Content-Length" fs = [v] /\ number v = Some len;
  fr_total : total <= u64 (zlen (join line (map text fs)) + 4 + len)
}.

Lemma header_lines_shape ls st st' : header_lines st ls = Some st' ->
  exists fs, ls = map text fs /\ Forall (fun f => token f.1) fs.
Proof.
  revert st. induction ls as [|l ls IH]; intros st; cbn [header_lines]; [by exists []|].
  destruct (header_line st l) as [st1|] eqn:E; [|done]. cbn [mbind option_bind]. intros H.
  apply header_line_shape in E as (n & v & Hn & ->). destruct (IH _ H) as (fs & -> & Hfs).
  exists ((n, v) :: fs). split; [done|]. by constructor.
Qed.

Lemma framing0_small : small framing0.
Proof. unfold small, framing0. cbn. lia. Qed.

(** C16: the framing check accepts exactly the requests whose head is a list
    of whole lines that leave one reading of where the message ends. *)
Theorem framing_iff request total :
  server_http_request_framing_valid request total = true <->
  exists line fs rest len, framed request total line fs rest len.
Proof.
  unfold server_http_request_framing_valid. split.
  - destruct (before _ request) as [pre|] eqn:Hb; [|done]. apply before_some in Hb as [rest Hr].
    destruct (join_lines_of pre) as (line & ls & Hl & Hj). rewrite Hl. intros H. bool_to_prop.
    rename H0 into Hst, H1 into Hreq, H2 into Hlen, H into Hends.
    apply (line_ends_sound CRLF pre 0) in Hends; [|done]. rewrite Hl in Hends.
    destruct (header_lines framing0 ls) as [st|] eqn:Hh; [|done].
    destruct (header_lines_shape _ _ _ Hh) as (fs & -> & Hfs).
    apply header_lines_iff in Hh as (Ht & Hf & Eh & Ek & Ec & En & (S1 & S2 & S3 & S4) & Hcl);
      [|done | apply framing0_small]. bool_to_prop. apply Nat.eqb_eq in H.
    cbn [framing0 have_host have_connection have_cl headers content_len] in *.
    exists line, fs, rest, (content_len st). constructor; try done.
    + rewrite Hr, Hj. by rewrite <- app_assoc.
    + split; [done | lia].
    + destruct (named "Host" fs) as [|v [|]]; cbn [length] in *; [lia| |lia]. exists v. by inversion Hf.
    + lia.
    + destruct (named "Content-Length" fs) as [|v [|]]; cbn [length] in *; [by left | right; by exists v | lia].
    + by rewrite <- Hj.
  - intros (line & fs & rest & len & [-> Hc [Hreq Hl] [Ht Hn] Hte (v & Hv & Hvb) Hk Hcl Htot]).
    inversion_clear Hc as [|? ? Hcl0 Hcls].
    rewrite before_join; [|done|].
    2: { rewrite Forall_forall in Hcls |- *. intros k Hk'. split; [|by apply Hcls].
         apply list_elem_of_fmap in Hk' as ([n w] & -> & _). by destruct n. }
    rewrite lines_of_join, line_ends_complete, Hreq by done. rewrite (proj2 (Z.leb_le _ _) Hl). cbn [andb].
    assert (Hst : header_lines framing0 (map text fs) = Some {| content_len := len;
      have_cl := length (named "Content-Length" fs); have_connection := length (named "Connection" fs);
      have_host := 1; headers := length fs |}).
    { apply header_lines_iff; [done | apply framing0_small|]. unfold after, small, framing0. rewrite Hv, Hte.
      cbn [have_host have_connection have_cl headers content_len length].
      assert (length (named "Content-Length" fs) <= 1)%nat by (destruct Hcl as [[-> _]|(w & -> & _)]; cbn; lia).
      split_and!; try done; try lia; [by repeat constructor|]. by destruct Hcl as [[-> ->]|(w & -> & Hw)]. }
    rewrite Hst. cbn [have_host content_len]. apply andb_true_iff. split; [done|]. by apply Z.leb_le.
Qed.

(** ** Headers outside the head *)

(** The lookup does not stop where the head ends: a line of the body is taken
    for a header when no field has the name. *)
Definition body_header : bytes :=
  (str "POST /v1/rules/delete HTTP/1.1" ++ CRLF ++ str "Host: a" ++ CRLF ++ str "Content-Length: 19" ++ CRLF ++ CRLF
   ++ CRLF ++ str "x-api-key: secret")%list.

Theorem header_in_body :
  server_http_request_framing_valid body_header (zlen body_header) = true
  /\ named "x-api-key" [(str "Host", str " a"); (str "Content-Length", str " 19")] = []
  /\ http_header body_header (str "x-api-key") 512 = Some (str "secret").
Proof. split_and!; vm_compute; reflexivity. Qed.

Lemma framing_iff_witness : exists line fs rest len, framed body_header (zlen body_header) line fs rest len.
Proof. apply (framing_iff body_header (zlen body_header)). vm_compute. reflexivity. Defined.

End HttpRequest.
