(* ===== verification/ManagementRequest.v ===== *)
(** * Requests of the management lane

    The lane's listener checks the grammar of a request before it looks at who
    sends it ([server_http_management.c]): the general check, and the exact
    set of headers of the health, action and read routes.  The routes and
    their classification by transport are here as well.  A request is the
    whole head, up to and including its blank line. *)

From Stdlib Require Import ZArith Lia String.
From stdpp Require Import base numbers list.
From S2P Require Import Prelude Auth ServerPolicy HttpRequest.

Module ManagementRequest.
Import Auth ServerPolicy HttpRequest.

(** ** Routes *)

Definition server_http_management_health_route (m path : bytes) : bool :=
  (bytes_eqb m (str "POST") && bytes_eqb path (str "/v1/management/challenge"))
  || (bytes_eqb m (str "GET") && bytes_eqb path (str "/v1/management/health")).

Definition server_http_management_action_route (m path : bytes) : bool :=
  bytes_eqb m (str "POST")
  && (bytes_eqb path (str "/v1/management/action/challenge") || bytes_eqb path (str "/v1/management/action")).

Definition server_http_management_read_route (m path : bytes) : bool :=
  (bytes_eqb m (str "POST") && bytes_eqb path (str "/v1/management/read/challenge"))
  || (bytes_eqb m (str "POST") && bytes_eqb path (str "/v1/management/read/config/challenge"))
  || (bytes_eqb m (str "GET")
      && (bytes_eqb path (str "/v1/management/read/agents") || bytes_eqb path (str "/v1/management/read/config"))).

Definition server_http_management_route (m path : bytes) : bool :=
  server_http_management_health_route m path || server_http_management_action_route m path
  || server_http_management_read_route m path.

Inductive server_http_management_auth_t :=
  | SERVER_HTTP_MANAGEMENT_NOT_APPLICABLE | SERVER_HTTP_MANAGEMENT_ALLOW | SERVER_HTTP_MANAGEMENT_DENY.

Definition server_http_management_auth (m path : bytes) (management_lane verified_peer management_profile : bool)
    (peer_cn : bytes) : server_http_management_auth_t :=
  let rt := server_http_management_route m path in
  let profile := verified_peer && management_profile in
  if management_lane && rt then
    if profile && bytes_eqb peer_cn (str "p5-kb-management") then SERVER_HTTP_MANAGEMENT_ALLOW
    else SERVER_HTTP_MANAGEMENT_DENY
  else if management_lane || rt || profile then SERVER_HTTP_MANAGEMENT_DENY
  else SERVER_HTTP_MANAGEMENT_NOT_APPLICABLE.

(** ** Grammar *)

Definition SHTTP_READ_MAX : Z := 8192.
Definition SERVER_MGMT_ACTION_BODY_MAX : Z := 256.
Definition KB_MGMT_STATUS_JSON_MAX : nat := 4096.

Definition trim (v : bytes) : bytes := reverse (skip blank (reverse (skip blank v))).

(** The name before the first colon and the value without the blanks around
    it. *)
Definition field (line : bytes) : option (bytes * bytes) :=
  '(name, rest) ← cut_colon line;
  if bool_decide (name = []) then None else Some (name, trim rest).

(** The stricter reading: no blank before the line or before its colon. *)
Definition strict_field (line : bytes) : option (bytes * bytes) :=
  '(name, value) ← field line;
  if existsb blank (take 1 name) || existsb blank (take 1 (reverse name)) then None else Some (name, value).

Definition is_named (k : string) (f : bytes * bytes) : bool := same_name f.1 (str k).

Definition has_prefix (k : string) (f : bytes * bytes) : bool :=
  same_name (take (length (str k)) f.1) (str k).

Definition syntax_length (v : bytes) : bool :=
  negb (bool_decide (v = [])) && (length v <=? 3)%nat && negb ((1 <? length v)%nat && bool_decide (head v = Some 48))
  && forallb (fun c => (48 <=? c) && (c <=? 57)) v.

Fixpoint syntax_lines (content_length_count : nat) (ls : list bytes) : bool :=
  match ls with
  | [] => true
  | l :: ls =>
      match strict_field l with
      | None => false
      | Some f =>
          if is_named "Content-Length" f
          then (content_length_count =? 0)%nat && syntax_length f.2 && syntax_lines (S content_length_count) ls
          else if is_named "Transfer-Encoding" f || is_named "Expect" f || is_named "Upgrade" f then false
          else syntax_lines content_length_count ls
      end
  end.

Definition request_text (m path : bytes) : bytes := (m ++ 32 :: path ++ str " HTTP/1.1")%list.

(** The lines of the head after the request line, when the request is a whole
    head with the given request line. *)
Definition head_lines (m path request : bytes) : option (list bytes) :=
  pre ← before (CRLF ++ CRLF) request;
  if negb (length request =? length pre + 4)%nat then None
  else match lines_of pre with
       | line :: ls => if bytes_eqb line (request_text m path) then Some ls else None
       | [] => None
       end.

Definition server_http_management_request_syntax_valid (m path request : bytes) : bool :=
  if bool_decide (request = []) || (SHTTP_READ_MAX <=? zlen request) || has_byte 0 request then false
  else match head_lines m path request with Some ls => syntax_lines 0 ls | None => false end.

(** ** Action and read routes *)

Record lane := { m_host : nat; m_ct : nat; m_cl : nat; m_conn : nat; m_auth : nat; m_staple : nat; body_len : Z }.

Definition lane0 : lane :=
  {| m_host := 0; m_ct := 0; m_cl := 0; m_conn := 0; m_auth := 0; m_staple := 0; body_len := 0 |}.

(** [x = ++x == 1 && ok ? x : 99]. *)
Definition bump (ok : bool) (x : nat) : nat := if (S x =? 1)%nat && ok then S x else 99.

Definition same_value (v : bytes) (k : string) : bool := same_name v (str k).

Definition forbidden (f : bytes * bytes) : bool :=
  is_named "Transfer-Encoding" f || is_named "Expect" f || is_named "Upgrade" f || has_prefix "Proxy-" f
  || is_named "Forwarded" f || has_prefix "X-Forwarded-" f || is_named "Content-Encoding" f || is_named "Trailer" f.

Definition connection_value (challenge : bool) : string := if challenge then "keep-alive" else "close".

Definition host_ok (v : bytes) : bool := negb (bool_decide (v = [])).
Definition type_ok (v : bytes) : bool := same_value v "application/json".
Definition auth_ok (v : bytes) : bool :=
  (length v <=? 4096)%nat && bool_decide (is_Some (aimee_core_bearer_token_span (Some v))).
Definition staple_ok (v : bytes) : bool := negb (bool_decide (v = [])) && (length v <=? KB_MGMT_STATUS_JSON_MAX)%nat.

Definition lane_field (challenge : bool) (st : lane) (f : bytes * bytes) : option lane :=
  let v := f.2 in
  if is_named "Host" f then
    Some {| m_host := bump (host_ok v) (m_host st); m_ct := m_ct st; m_cl := m_cl st; m_conn := m_conn st;
            m_auth := m_auth st; m_staple := m_staple st; body_len := body_len st |}
  else if is_named "Content-Type" f then
    Some {| m_host := m_host st; m_ct := bump (type_ok v) (m_ct st); m_cl := m_cl st; m_conn := m_conn st;
            m_auth := m_auth st; m_staple := m_staple st; body_len := body_len st |}
  else if is_named "Content-Length" f then
    n ← decimal v 0;
    if bool_decide (v = []) then None
    else Some {| m_host := m_host st; m_ct := m_ct st; m_cl := S (m_cl st); m_conn := m_conn st;
                 m_auth := m_auth st; m_staple := m_staple st; body_len := n |}
  else if is_named "Connection" f then
    Some {| m_host := m_host st; m_ct := m_ct st; m_cl := m_cl st;
            m_conn := bump (same_value v (connection_value challenge)) (m_conn st);
            m_auth := m_auth st; m_staple := m_staple st; body_len := body_len st |}
  else if is_named "Authorization" f then
    Some {| m_host := m_host st; m_ct := m_ct st; m_cl := m_cl st; m_conn := m_conn st;
            m_auth := bump (auth_ok v) (m_auth st); m_staple := m_staple st; body_len := body_len st |}
  else if is_named "X-Aimee-Management-Status" f then
    Some {| m_host := m_host st; m_ct := m_ct st; m_cl := m_cl st; m_conn := m_conn st; m_auth := m_auth st;
            m_staple := bump (staple_ok v) (m_staple st); body_len := body_len st |}
  else if forbidden f then None
  else Some st.

Fixpoint lane_lines (challenge : bool) (st : lane) (ls : list bytes) : option lane :=
  match ls with
  | [] => Some st
  | l :: ls => f ← field l; st ← lane_field challenge st f; lane_lines challenge st ls
  end.

Definition server_http_management_action_framing_valid (m path request : bytes) : bool :=
  if negb (server_http_management_action_route m path) || bool_decide (request = [])
     || negb (server_http_management_request_syntax_valid m path request)
  then false
  else
    let challenge := bytes_eqb path (str "/v1/management/action/challenge") in
    match ls ← head_lines m path request; lane_lines challenge lane0 ls with
    | None => false
    | Some st =>
        (m_host st =? 1)%nat && (m_ct st =? 1)%nat && (m_cl st =? 1)%nat && (m_conn st =? 1)%nat
        && (if challenge then (body_len st =? 0) && (m_auth st =? 0)%nat && (m_staple st =? 0)%nat
            else (0 <? body_len st) && (body_len st <=? SERVER_MGMT_ACTION_BODY_MAX) && (m_auth st =? 1)%nat
                 && (m_staple st =? 1)%nat)
    end.

Definition server_http_management_read_framing_valid (m path request : bytes) : bool :=
  if negb (server_http_management_read_route m path) || bool_decide (request = [])
     || negb (server_http_management_request_syntax_valid m path request)
  then false
  else
    let challenge := bytes_eqb path (str "/v1/management/read/challenge")
                     || bytes_eqb path (str "/v1/management/read/config/challenge") in
    match ls ← head_lines m path request; lane_lines challenge lane0 ls with
    | None => false
    | Some st =>
        (m_host st =? 1)%nat && (m_cl st =? 1)%nat && (body_len st =? 0) && (m_conn st =? 1)%nat
        && (if challenge then (m_ct st =? 1)%nat && (m_auth st =? 0)%nat && (m_staple st =? 0)%nat
            else (m_ct st =? 0)%nat && (m_auth st =? 1)%nat && (m_staple st =? 1)%nat)
    end.

(** ** Health routes *)

Record counts := { content_length_count : nat; host_count : nat; content_type_count : nat; connection_count : nat;
                   status_count : nat }.

Definition counts0 : counts :=
  {| content_length_count := 0; host_count := 0; content_type_count := 0; connection_count := 0; status_count := 0 |}.

Definition health_field (health : bool) (st : counts) (f : bytes * bytes) : option counts :=
  let v := f.2 in
  if is_named "Content-Length" f then
    if (content_length_count st =? 0)%nat && bytes_eqb v (str "0")
    then Some {| content_length_count := 1; host_count := host_count st; content_type_count := content_type_count st;
                 connection_count := connection_count st; status_count := status_count st |}
    else None
  else if is_named "Transfer-Encoding" f then None
  else if is_named "Expect" f || is_named "Upgrade" f then None
  else if is_named "Host" f then
    if (host_count st =? 0)%nat && host_ok v
    then Some {| content_length_count := content_length_count st; host_count := 1;
                 content_type_count := content_type_count st; connection_count := connection_count st;
                 status_count := status_count st |}
    else None
  else if is_named "Content-Type" f then
    if (content_type_count st =? 0)%nat && type_ok v
    then Some {| content_length_count := content_length_count st; host_count := host_count st;
                 content_type_count := 1; connection_count := connection_count st; status_count := status_count st |}
    else None
  else if is_named "Connection" f then
    if (connection_count st =? 0)%nat && same_value v "keep-alive"
    then Some {| content_length_count := content_length_count st; host_count := host_count st;
                 content_type_count := content_type_count st; connection_count := 1; status_count := status_count st |}
    else None
  else if is_named "X-Aimee-Management-Status" f then
    if (status_count st =? 0)%nat && host_ok v && health
    then Some {| content_length_count := content_length_count st; host_count := host_count st;
                 content_type_count := content_type_count st; connection_count := connection_count st;
                 status_count := 1 |}
    else None
  else Some st.

Fixpoint health_lines (health : bool) (st : counts) (ls : list bytes) : option counts :=
  match ls with
  | [] => Some st
  | l :: ls => f ← strict_field l; st ← health_field health st f; health_lines health st ls
  end.

Definition server_http_management_framing_valid (m path request : bytes) : bool :=
  if negb (server_http_management_health_route m path) || bool_decide (request = [])
     || negb (server_http_management_request_syntax_valid m path request)
  then false
  else
    let health := bytes_eqb path (str "/v1/management/health") in
    match ls ← head_lines m path request; health_lines health counts0 ls with
    | None => false
    | Some st =>
        (content_length_count st =? 1)%nat && (host_count st =? 1)%nat && (content_type_count st =? 1)%nat
        && (connection_count st =? 1)%nat && (status_count st =? (if health then 1 else 0))%nat
    end.

(** The check of [handle_conn_impl]. *)
Definition management_request_valid (m path request : bytes) : bool :=
  server_http_management_request_syntax_valid m path request
  && (negb (server_http_management_health_route m path) || server_http_management_framing_valid m path request)
  && (negb (server_http_management_action_route m path) || server_http_management_action_framing_valid m path request)
  && (negb (server_http_management_read_route m path) || server_http_management_read_framing_valid m path request).

(** ** What an accepted head holds *)

(** The values of the fields with a name. *)
Definition values (k : string) (fs : list (bytes * bytes)) : list bytes := map snd (List.filter (is_named k) fs).

Fixpoint lane_fields (challenge : bool) (st : lane) (fs : list (bytes * bytes)) : option lane :=
  match fs with [] => Some st | f :: fs => st ← lane_field challenge st f; lane_fields challenge st fs end.

Lemma lane_lines_fields challenge ls st st' : lane_lines challenge st ls = Some st' ->
  exists fs, mapM field ls = Some fs /\ lane_fields challenge st fs = Some st'.
Proof.
  revert st. induction ls as [|l ls IH]; intros st; cbn [lane_lines]; [intros [= <-]; by exists []|].
  destruct (field l) as [f|] eqn:Ef; [|done]. cbn [mbind option_bind].
  destruct (lane_field challenge st f) as [st1|] eqn:E1; [|done]. cbn [mbind option_bind].
  intros (fs & Hm & Hf)%IH. exists (f :: fs). cbn [mapM lane_fields].
  rewrite Ef, Hm, E1. done.
Qed.

Lemma is_named_lower k f : is_named k f = true -> map ascii_lower f.1 = map ascii_lower (str k).
Proof. apply bytes_eqb_true. Qed.

(** The chain of tests reads the name in lower case only. *)
Definition lower_is (n : bytes) (k : string) : bool := bytes_eqb n (map ascii_lower (str k)).
Definition lower_has (n : bytes) (k : string) : bool :=
  bytes_eqb (take (length (str k)) n) (map ascii_lower (str k)).

Lemma forbidden_lower f : let n := map ascii_lower f.1 in
  forbidden f = lower_is n "Transfer-Encoding" || lower_is n "Expect" || lower_is n "Upgrade" || lower_has n "Proxy-"
    || lower_is n "Forwarded" || lower_has n "X-Forwarded-" || lower_is n "Content-Encoding" || lower_is n "Trailer".
Proof. cbv zeta. unfold lower_has. rewrite !firstn_map. reflexivity. Qed.

Lemma bump_one (ok : bytes -> bool) vs :
  foldl (fun n v => bump (ok v) n) 0%nat vs = 1%nat <-> exists v, vs = [v] /\ ok v = true.
Proof.
  assert (H99 : forall l, foldl (fun n v => bump (ok v) n) 99%nat l = 99%nat).
  { induction l as [|v l IH]; [done|]. cbn [foldl]. exact IH. }
  split.
  - destruct vs as [|v vs]; [done|]. cbn [foldl]. unfold bump at 2. cbn [Nat.eqb andb]. destruct (ok v) eqn:E.
    + destruct vs as [|w vs]; [by exists v|]. cbn [foldl]. unfold bump at 2. cbn [Nat.eqb andb]. by rewrite H99.
    + by rewrite H99.
  - intros (v & -> & E). cbn [foldl]. unfold bump. by rewrite E.
Qed.

Lemma bump_none (ok : bytes -> bool) vs : foldl (fun n v => bump (ok v) n) 0%nat vs = 0%nat <-> vs = [].
Proof.
  assert (Hpos : forall l n, (0 < n)%nat -> (0 < foldl (fun n v => bump (ok v) n) n l)%nat).
  { induction l as [|v l IH]; [done|]. intros n Hn. cbn [foldl]. apply IH. unfold bump. destruct (_ && _); lia. }
  split; [|by intros ->]. destruct vs as [|v vs]; [done|]. cbn [foldl]. intros H0.
  assert (0 < bump (ok v) 0)%nat as Hb by (unfold bump; destruct (_ && _); lia). specialize (Hpos vs _ Hb). lia.
Qed.

(** The counters after a list of fields. *)
Record counted (challenge : bool) (st : lane) (fs : list (bytes * bytes)) (st' : lane) : Prop := {
  k_host : m_host st' = foldl (fun n v => bump (host_ok v) n) (m_host st) (values "Host" fs);
  k_ct : m_ct st' = foldl (fun n v => bump (type_ok v) n) (m_ct st) (values "Content-Type" fs);
  k_conn : m_conn st' = foldl (fun n v => bump (same_value v (connection_value challenge)) n) (m_conn st)
             (values "Connection" fs);
  k_auth : m_auth st' = foldl (fun n v => bump (auth_ok v) n) (m_auth st) (values "Authorization" fs);
  k_staple : m_staple st' = foldl (fun n v => bump (staple_ok v) n) (m_staple st)
               (values "X-Aimee-Management-Status" fs);
  k_cl : m_cl st' = (m_cl st + length (values "Content-Length" fs))%nat;
  k_len : match last (values "Content-Length" fs) with
          | Some v => v <> [] /\ decimal v 0 = Some (body_len st')
          | None => body_len st' = body_len st
          end;
  k_clean : Forall (fun f => forbidden f = false) fs
}.

Lemma values_cons k f fs : values k (f :: fs) = if is_named k f then f.2 :: values k fs else values k fs.
Proof. unfold values. cbn [List.filter]. by destruct (is_named k f). Qed.

(** One named field: no other test of the chain holds. *)
Ltac counted_field N :=
  let L := fresh "L" in
  pose proof (is_named_lower _ _ N) as L;
  constructor; rewrite ?values_cons;
  repeat match goal with
  | |- context [is_named ?k ?f] =>
      first [rewrite (N : is_named k f = true)
            | assert (is_named k f = false) as -> by (unfold is_named, same_name; rewrite L; reflexivity)]
  end;
  try (constructor; [rewrite forbidden_lower; cbv zeta; rewrite L; reflexivity | assumption]);
  cbn [m_host m_ct m_cl m_conn m_auth m_staple body_len foldl] in *.

Lemma lane_fields_counted challenge fs st st' : lane_fields challenge st fs = Some st' -> counted challenge st fs st'.
Proof.
  revert st. induction fs as [|f fs IH]; intros st; cbn [lane_fields]; [intros [= <-]; by constructor|].
  destruct (lane_field challenge st f) as [st1|] eqn:E; [|done]. cbn [mbind option_bind]. intros H%IH. clear IH.
  destruct H as [H1 H2 H3 H4 H5 H6 H7 H8]. revert E. unfold lane_field. cbv zeta.
  destruct (is_named "Host" f) eqn:N1; [intros [= <-]; by counted_field N1|].
  destruct (is_named "Content-Type" f) eqn:N2; [intros [= <-]; by counted_field N2|].
  destruct (is_named "Content-Length" f) eqn:N3.
  { destruct (decimal f.2 0) as [n|] eqn:Ed; [|done]. cbn [mbind option_bind]. case_bool_decide; [done|].
    intros [= <-]. counted_field N3; try done; [cbn in *; lia|].
    rewrite last_cons. destruct (last _); [done|]. cbn in H7. by rewrite H7. }
  destruct (is_named "Connection" f) eqn:N4; [intros [= <-]; by counted_field N4|].
  destruct (is_named "Authorization" f) eqn:N5; [intros [= <-]; by counted_field N5|].
  destruct (is_named "X-Aimee-Management-Status" f) eqn:N6; [intros [= <-]; by counted_field N6|].
  destruct (forbidden f) eqn:N7; [done|]. intros [= <-].
  constructor; rewrite ?values_cons, ?N1, ?N2, ?N3, ?N4, ?N5, ?N6; try done. by constructor.
Qed.

Lemma head_lines_join m path request ls : head_lines m path request = Some ls ->
  request = (join (request_text m path) ls ++ CRLF ++ CRLF)%list.
Proof.
  unfold head_lines. destruct (before _ request) as [pre|] eqn:Eb; [|done]. cbn [mbind option_bind].
  apply before_some in Eb as [rest Er]. destruct (Nat.eqb_spec (length request) (length pre + 4)) as [Hl|]; [|done].
  cbn [negb]. destruct (join_lines_of pre) as (l & k & -> & Hp).
  destruct (bytes_eqb l _) eqn:E; [|done]. apply bytes_eqb_true in E as ->. intros [= ->].
  rewrite Er, !length_app in Hl. cbn in Hl. destruct rest; [|cbn in Hl; lia]. by rewrite Er, Hp, app_nil_r.
Qed.

(** Exactly one field has the name, and its value is good. *)
Definition single (k : string) (ok : bytes -> bool) (fs : list (bytes * bytes)) : Prop :=
  exists v, values k fs = [v] /\ ok v = true.

Lemma counted_length challenge fs st : counted challenge lane0 fs st -> m_cl st = 1%nat ->
  exists n, values "Content-Length" fs = [n] /\ decimal n 0 = Some (body_len st).
Proof.
  intros Hc H1. pose proof (k_cl _ _ _ _ Hc) as Hn. pose proof (k_len _ _ _ _ Hc) as Hl. rewrite H1 in Hn.
  destruct (values "Content-Length" fs) as [|n [|]]; [done| |done]. exists n. by destruct Hl.
Qed.

(** C25: an action the lane lets through is a whole head of exactly one
    spelling of each thing it says: its request line, one host, one JSON
    content type, one length, one connection option, and no coding, upgrade,
    proxy or forwarding field; a challenge has no body, credential or status,
    and the action itself has a body of at most 256 bytes, one bearer and one
    status. *)
Theorem management_action_framed m path request :
  server_http_management_action_framing_valid m path request = true ->
  let challenge := bytes_eqb path (str "/v1/management/action/challenge") in
  exists ls fs len,
    request = (join (request_text m path) ls ++ CRLF ++ CRLF)%list /\ mapM field ls = Some fs
    /\ Forall (fun f => forbidden f = false) fs
    /\ single "Host" host_ok fs /\ single "Content-Type" type_ok fs
    /\ single "Connection" (fun v => same_value v (connection_value challenge)) fs
    /\ single "Content-Length" (fun n => bool_decide (decimal n 0 = Some len)) fs
    /\ if challenge
       then len = 0 /\ values "Authorization" fs = [] /\ values "X-Aimee-Management-Status" fs = []
       else 0 < len <= SERVER_MGMT_ACTION_BODY_MAX /\ single "Authorization" auth_ok fs
            /\ single "X-Aimee-Management-Status" staple_ok fs.
Proof.
  intros H challenge. revert H. unfold server_http_management_action_framing_valid. fold challenge.
  destruct (_ || _); [done|]. destruct (head_lines m path request) as [ls|] eqn:Eh; [|done].
  cbn [mbind option_bind]. destruct (lane_lines challenge lane0 ls) as [st|] eqn:El; [|done].
  apply head_lines_join in Eh. apply lane_lines_fields in El as (fs & Hm & Hc%lane_fields_counted).
  intros [[[[Hh Ht]%andb_prop Hl]%andb_prop Hk]%andb_prop Hrest]%andb_prop.
  apply Nat.eqb_eq in Hh, Ht, Hl, Hk. destruct (counted_length _ _ _ Hc Hl) as (n & Hn & Hd).
  pose proof Hc as [H1 H2 H3 H4 H5 _ _ H8]. rewrite Hh in H1. rewrite Ht in H2. rewrite Hk in H3.
  cbn [lane0 m_host m_ct m_conn m_auth m_staple] in *.
  exists ls, fs, (body_len st). split_and!; try done.
  - by apply bump_one.
  - by apply bump_one.
  - by apply bump_one.
  - exists n. split; [done | by apply bool_decide_eq_true].
  - destruct challenge.
    + apply andb_prop in Hrest as [[Hb%Z.eqb_eq Ha%Nat.eqb_eq]%andb_prop Hs%Nat.eqb_eq].
      rewrite Ha in H4. rewrite Hs in H5. split_and!; [done | by eapply bump_none | by eapply bump_none].
    + apply andb_prop in Hrest as [[[Hb%Z.ltb_lt Hm'%Z.leb_le]%andb_prop Ha%Nat.eqb_eq]%andb_prop Hs%Nat.eqb_eq].
      rewrite Ha in H4. rewrite Hs in H5. split_and!; [done..| by apply bump_one | by apply bump_one].
Qed.

Definition sample_action : bytes :=
  (str "POST /v1/management/action HTTP/1.1" ++ CRLF ++ str "Host: a" ++ CRLF ++ str "Content-Type: application/json"
   ++ CRLF ++ str "Content-Length: 17" ++ CRLF ++ str "Connection: close" ++ CRLF ++ str "Authorization: Bearer abc"
   ++ CRLF ++ str "X-Aimee-Management-Status: {}" ++ CRLF ++ CRLF)%list.

Lemma management_action_framed_witness : exists ls fs,
  sample_action = (join (request_text (str "POST") (str "/v1/management/action")) ls ++ CRLF ++ CRLF)%list
  /\ mapM field ls = Some fs /\ single "Authorization" auth_ok fs.
Proof.
  destruct (management_action_framed (str "POST") (str "/v1/management/action") sample_action)
    as (ls & fs & len & Hr & Hm & _ & _ & _ & _ & _ & Hc).
  - vm_compute. reflexivity.
  - exists ls, fs. split; [exact Hr|]. split; [exact Hm|]. apply Hc.
Defined.

End ManagementRequest.
