(* ===== verification/AuthToken.v ===== *)
(** * Signed tokens

    The verifier of the two kinds of signed token the server accepts
    ([shared/auth_token_verify.c]): the management token and the identity
    token that carries a caller's write tier.  Both are compact JWS with an
    RS256 signature by a key of a JWKS document.  The JSON reader, the
    construction of an RSA key and the signature check are parameters; a
    token, a document and a decoded segment are lists of bytes. *)

From Stdlib Require Import ZArith Lia String.
From stdpp Require Import base numbers list strings.
From S2P Require Import Prelude Json Base64 ServerPolicy.

Module AuthToken.
Import Base64 ServerPolicy.

Definition TOKEN_WIRE_MAX : Z := 8192.
Definition TOKEN_HEADER_MAX : Z := 1024.
Definition TOKEN_PAYLOAD_MAX : Z := 4096.
Definition TOKEN_SIG_MAX : Z := 1024.
Definition JWKS_MAX : Z := 65536.
Definition JSON_INT_MAX : Z := 9007199254740991.
Definition SERVER_IDENTITY_TOKEN_MAX_LIFETIME : Z := 3600.
Definition SERVER_MGMT_TOKEN_MAX_LIFETIME : Z := 90.

(** ** Segments *)

Definition b64_decode (inp : bytes) (cap : Z) : option bytes :=
  match inp with
  | [] => None
  | _ => aimee_codec_base64_decode inp cap AIMEE_BASE64_URL_CANONICAL
  end.

Definition decode_segment (s : bytes) (cap : Z) : option bytes :=
  out ← b64_decode s cap; if has_byte 0 out then None else Some out.

(** An escaped NUL inside a string of the text. *)
Fixpoint decoded_nul_escape (quoted : bool) (raw : bytes) : bool :=
  match raw with
  | [] => false
  | c :: r =>
      if negb quoted then decoded_nul_escape (c =? 34) r
      else if c =? 34 then decoded_nul_escape false r
      else if negb (c =? 92) then decoded_nul_escape true r
      else
        match r with
        | [] => false
        | d :: r' => if (d =? 117) && starts_with r' (str "0000") then true else decoded_nul_escape true r'
        end
  end.

(** ** Trees *)

Fixpoint distinct (keys : list bytes) : bool :=
  match keys with [] => true | k :: ks => negb (existsb (bytes_eqb k) ks) && distinct ks end.

Fixpoint no_duplicate_members (j : json) : bool :=
  match j with
  | JObject child =>
      distinct (map fst child)
      && (fix all (l : list (bytes * json)) :=
            match l with [] => true | (_, v) :: l => no_duplicate_members v && all l end) child
  | JArray child =>
      (fix all (l : list json) := match l with [] => true | v :: l => no_duplicate_members v && all l end) child
  | _ => true
  end.

(** The place of a name in the list. *)
Fixpoint name_index (names : list bytes) (k : bytes) : option nat :=
  match names with
  | [] => None
  | n :: names => if bytes_eqb k n then Some O else S <$> name_index names k
  end.

Fixpoint exact_loop (names : list bytes) (child : list (bytes * json)) (values : list (option json))
    : option (list (option json)) :=
  match child with
  | [] => Some values
  | (k, v) :: child =>
      match name_index names k with
      | None => None
      | Some i =>
          match values !! i with
          | Some None => exact_loop names child (<[i := Some v]> values)
          | _ => None
          end
      end
  end.

(** The values of an object with exactly these members, in this order. *)
Definition exact_object (object : json) (names : list bytes) : option (list json) :=
  match object with
  | JObject child =>
      values ← exact_loop names child (replicate (length names) None);
      if (length child =? length names)%nat then mapM id values else None
  | _ => None
  end.

(** ** Numbers as they are written *)

Definition json_space (c : Z) : bool := (c =? 32) || (c =? 9) || (c =? 13) || (c =? 10).

Fixpoint skip_space (s : bytes) : bytes :=
  match s with c :: r => if json_space c then skip_space r else s | [] => [] end.

Definition is_digit (c : Z) : bool := (48 <=? c) && (c <=? 57).

(** The value of the leading digits, and what follows them. *)
Fixpoint digits (s : bytes) (v : Z) : option (Z * bytes) :=
  match s with
  | c :: r =>
      if is_digit c then
        let d := c - 48 in
        if (JSON_INT_MAX - d) / 10 <? v then None else digits r (v * 10 + d)
      else Some (v, s)
  | [] => Some (v, [])
  end.

(** A canonical unsigned decimal that ends at a comma or brace. *)
Definition number_at (s : bytes) : option Z :=
  match skip_space s with
  | [] => None
  | c :: r =>
      if negb (is_digit c) || ((c =? 48) && match r with d :: _ => is_digit d | [] => false end) then None
      else
        '(v, rest) ← digits (c :: r) 0;
        match skip_space rest with
        | e :: _ => if (e =? 44) || (e =? 125) then Some v else None
        | [] => None
        end
  end.

(** The scan for a top-level member; inside a string the state is what was
    read of it and whether the next byte is escaped. *)
Fixpoint raw_scan (name raw : bytes) (inside : option (bytes * bool)) (depth matches result : Z) : option Z :=
  match raw with
  | [] =>
      match inside with
      | Some _ => None
      | None => if matches =? 1 then Some result else None
      end
  | c :: r =>
      match inside with
      | None =>
          if c =? 34 then raw_scan name r (Some ([], false)) depth matches result
          else
            let depth := if (c =? 123) || (c =? 91) then depth + 1
                         else if (c =? 125) || (c =? 93) then depth - 1 else depth in
            raw_scan name r None depth matches result
      | Some (key, escaped) =>
          if negb escaped && (c =? 34) then
            let after := skip_space r in
            if negb (depth =? 1) || negb (bool_decide (head after = Some 58)) || negb (bytes_eqb key name)
            then raw_scan name r None depth matches result
            else
              match number_at (tail after) with
              | None => None
              | Some v => raw_scan name r None depth (matches + 1) v
              end
          else raw_scan name r (Some ((key ++ [c])%list, negb escaped && (c =? 92))) depth matches result
      end
  end.

Definition raw_uint (raw : bytes) (name : string) : option Z := raw_scan (str name) raw None 0 0 0.

(** ** Text forms *)

Definition token_char (c : Z) : bool :=
  ((65 <=? c) && (c <=? 90)) || ((97 <=? c) && (c <=? 122)) || is_digit c || (c =? 46) || (c =? 95) || (c =? 45).

Definition within (s : bytes) (min max : nat) : bool := (min <=? length s)%nat && (length s <=? max)%nat.

Definition ascii_token (s : bytes) (min max : nat) : bool := within s min max && forallb token_char s.

Definition printable (c : Z) : bool := negb ((c <? 32) || (c =? 127)).

Definition control_free (s : bytes) (min max : nat) : bool := within s min max && forallb printable s.

Definition hex_char (c : Z) : bool := is_digit c || ((97 <=? c) && (c <=? 102)).

Definition lower_hex (s : bytes) (exact max : nat) : bool :=
  match exact with
  | S _ => (length s =? exact)%nat
  | O => within s 1 max
  end && forallb hex_char s.

Fixpoint component_bytes (s : bytes) : bool :=
  match s with
  | [] => true
  | c :: r =>
      if (c <? 32) || (c =? 127) || (c =? 58) then false
      else if negb (c =? 37) then component_bytes r
      else
        match r with
        | a :: b :: r' => (((a =? 50) && (b =? 53)) || ((a =? 51) && (b =? 65))) && component_bytes r'
        | _ => false
        end
  end.

Definition identity_component (s : bytes) : bool := negb (bool_decide (s = [])) && component_bytes s.

Definition bare_username (s : bytes) : bool :=
  within s 1 32
  && match s with
     | f :: r => (((65 <=? f) && (f <=? 90)) || ((97 <=? f) && (f <=? 122)) || is_digit f || (f =? 95))
                 && forallb token_char r
     | [] => false
     end.

(** At the first colon. *)
Fixpoint at_colon (s : bytes) : option (bytes * bytes) :=
  match s with
  | [] => None
  | c :: r => if c =? 58 then Some ([], r) else '(a, b) ← at_colon r; Some (c :: a, b)
  end.

Definition identity_key (s : bytes) : bool :=
  if (576 <? length s)%nat then false
  else if bytes_eqb s (str "owner") then true
  else
    let oidc := starts_with s (str "oidc:") in
    let cert := starts_with s (str "cert:") in
    if negb oidc && negb cert then false
    else
      match at_colon (drop 5 s) with
      | None => false
      | Some (first, second) =>
          if has_byte 58 second || negb (identity_component first) || negb (identity_component second) then false
          else oidc || lower_hex second 0 79
      end.

Definition server_identity_subject_valid (s : bytes) : bool :=
  if (576 <? length s)%nat then false
  else if starts_with s (str "oidc:") || starts_with s (str "cert:") || bytes_eqb s (str "owner") then identity_key s
  else bare_username s.

Definition copy_string (item : json) (cap : nat) : option bytes :=
  match item with JString s => if (length s <? cap)%nat then Some s else None | _ => None end.

Definition exact_secret (actual expected : bytes) (n : nat) : bool :=
  (length actual =? n)%nat && (length expected =? n)%nat && bytes_eqb actual expected.

(** The member is this string. *)
Definition string_is (j : json) (s : bytes) : bool := match j with JString v => bytes_eqb v s | _ => false end.
Definition string_ok (f : bytes -> bool) (j : json) : bool := match j with JString v => f v | _ => false end.

(** ** Claims *)

Inductive kb_identity_tier_t := KB_IDENTITY_TIER_OFF | KB_IDENTITY_TIER_DATA | KB_IDENTITY_TIER_FULL.

Record aimee_identity_claims_t := {
  c_issuer : bytes;
  c_audience : bytes;
  c_subject : bytes;
  c_team_id : Z;
  c_tier : kb_identity_tier_t;
  c_jti : bytes;
  c_kid : bytes;
  c_issued_at : Z;
  c_expires_at : Z
}.

Record server_mgmt_token_claims_t := {
  m_version : Z;
  m_issuer : bytes;
  m_audience : bytes;
  m_subject : bytes;
  m_team_id : Z;
  m_capability : bytes;
  m_jti : bytes;
  m_correlation_id : bytes;
  m_request_sha256 : bytes;
  m_peer_issuer : bytes;
  m_peer_serial : bytes;
  m_peer_fingerprint : bytes;
  m_kid : bytes;
  m_issued_at : Z;
  m_expires_at : Z
}.

(** The result of a verifier, with the claims it writes. *)
Inductive token_result (A : Type) := TOKEN_INVALID | TOKEN_OK (claims : A) | TOKEN_UNKNOWN_KID.
Arguments TOKEN_INVALID {A}.
Arguments TOKEN_OK {A} claims.
Arguments TOKEN_UNKNOWN_KID {A}.

Inductive key_select_result_t (K : Type) := KEY_SELECT_INVALID | KEY_SELECT_OK (key : K) | KEY_SELECT_UNKNOWN.
Arguments KEY_SELECT_INVALID {K}.
Arguments KEY_SELECT_OK {K} key.
Arguments KEY_SELECT_UNKNOWN {K}.

(** ** The compact form *)

(** At the first dot. *)
Fixpoint at_dot (s : bytes) : option (bytes * bytes) :=
  match s with
  | [] => None
  | c :: r => if c =? 46 then Some ([], r) else '(a, b) ← at_dot r; Some (c :: a, b)
  end.

(** The three encoded segments. *)
Definition segments (jwt : bytes) : option (bytes * bytes * bytes) :=
  '(h, r) ← at_dot jwt;
  '(p, s) ← at_dot r;
  if bool_decide (h = []) || bool_decide (p = []) || bool_decide (s = []) || has_byte 46 s then None
  else Some (h, p, s).

Definition wire_ok (jwt jwks : bytes) : bool :=
  negb (bool_decide (jwt = [])) && (zlen jwt <=? TOKEN_WIRE_MAX) && negb (has_byte 0 jwt)
  && negb (bool_decide (jwks = [])) && (zlen jwks <=? JWKS_MAX).

Lemma at_dot_split s a b : at_dot s = Some (a, b) -> s = (a ++ 46 :: b)%list /\ ~ 46 ∈ a.
Proof.
  revert a b. induction s as [|c s IH]; intros a b; cbn [at_dot]; [done|].
  destruct (Z.eqb_spec c 46) as [->|Hc].
  - intros [= <- <-]. split; [done | apply not_elem_of_nil].
  - destruct (at_dot s) as [[a' b']|]; [|done]. intros [= <- <-].
    destruct (IH a' b' eq_refl) as [-> Ha]. split; [done|]. rewrite elem_of_cons. naive_solver.
Qed.

(** The dots are where the segments end. *)
Lemma segments_split jwt h p s : segments jwt = Some (h, p, s) ->
  jwt = (h ++ 46 :: p ++ 46 :: s)%list /\ h <> [] /\ p <> [] /\ s <> [] /\ ~ 46 ∈ h /\ ~ 46 ∈ p /\ ~ 46 ∈ s.
Proof.
  unfold segments. destruct (at_dot jwt) as [[h' r]|] eqn:E1; [|done]. cbn [mbind option_bind].
  destruct (at_dot r) as [[p' s']|] eqn:E2; [|done]. cbn [mbind option_bind].
  destruct (_ || has_byte 46 s') eqn:E; [done|]. intros [= <- <- <-]. unfold has_byte in E. bool_to_prop.
  apply at_dot_split in E1 as [-> ?]. apply at_dot_split in E2 as [-> ?]. done.
Qed.

(** The bytes a token stands for. *)
Definition decoded (jwt : bytes) : option (bytes * bytes * bytes) :=
  '(h, p, s) ← segments jwt;
  header ← b64_decode h TOKEN_HEADER_MAX;
  payload ← b64_decode p TOKEN_PAYLOAD_MAX;
  signature ← b64_decode s TOKEN_SIG_MAX;
  Some (header, payload, signature).

Lemma b64_decode_inj s t cap out : is_bytes s -> is_bytes t -> 0 <= cap ->
  b64_decode s cap = Some out -> b64_decode t cap = Some out -> s = t.
Proof.
  intros Hs Ht Hcap. unfold b64_decode. destruct s as [|c s]; [done|]. destruct t as [|d t]; [done|]. intros H1 H2.
  destruct (decode_inverse AIMEE_BASE64_URL _ _ _ Hs Hcap H1) as (_ & <- & _).
  by destruct (decode_inverse AIMEE_BASE64_URL _ _ _ Ht Hcap H2) as (_ & <- & _).
Qed.

(** A token has one spelling: two texts with the same header, payload and
    signature bytes are the same text, so a used token cannot come back in
    another spelling. *)
Theorem token_one_spelling jwt jwt' d : is_bytes jwt -> is_bytes jwt' ->
  decoded jwt = Some d -> decoded jwt' = Some d -> jwt = jwt'.
Proof.
  intros B B'. unfold decoded.
  destruct (segments jwt) as [[[h p] s]|] eqn:Es; [|done]. destruct (segments jwt') as [[[h' p'] s']|] eqn:Es'; [|done].
  cbn [mbind option_bind].
  destruct (b64_decode h _) as [a|] eqn:Ha; [|done]. destruct (b64_decode p _) as [b|] eqn:Hb; [|done].
  destruct (b64_decode s _) as [e|] eqn:He; [|done]. cbn [mbind option_bind]. intros [= <-].
  destruct (b64_decode h' _) as [a'|] eqn:Ha'; [|done]. destruct (b64_decode p' _) as [b'|] eqn:Hb'; [|done].
  destruct (b64_decode s' _) as [e'|] eqn:He'; [|done]. cbn [mbind option_bind]. intros [= -> -> ->].
  apply segments_split in Es as (-> & _). apply segments_split in Es' as (-> & _).
  apply is_bytes_app in B as [Bh B], B' as [Bh' B']. inversion_clear B as [|? ? _ B0]. inversion_clear B' as [|? ? _ B0'].
  apply is_bytes_app in B0 as [Bp B0], B0' as [Bp' B0'].
  inversion_clear B0 as [|? ? _ Bs]. inversion_clear B0' as [|? ? _ Bs'].
  rewrite (b64_decode_inj h h' TOKEN_HEADER_MAX a), (b64_decode_inj p p' TOKEN_PAYLOAD_MAX b),
    (b64_decode_inj s s' TOKEN_SIG_MAX e); done.
Qed.
Section Verify.
(** [cJSON_ParseWithLengthOpts] on a whole text, the RSA key of a modulus and
    an exponent, and the PKCS #1 check of a SHA-256 signature. *)
Context (json_parse : bytes -> option json).
Context {key : Type} (rsa_key : Z -> Z -> option key) (rsa_verify : key -> bytes -> bytes -> bool).

Definition parse_json (raw : bytes) : option json :=
  if negb (bool_decide (head raw = Some 123)) || negb (bool_decide (last raw = Some 125))
     || decoded_nul_escape false raw then None
  else match json_parse raw with Some (JObject child) => Some (JObject child) | _ => None end.

Definition num_bits (n : Z) : Z := if n =? 0 then 0 else Z.log2 n + 1.

Definition rsa_from_jwk (k : json) : option key :=
  match cJSON_GetObjectItemCaseSensitive (Some k) (str "n"), cJSON_GetObjectItemCaseSensitive (Some k) (str "e") with
  | Some (JString nj), Some (JString ej) =>
      nb ← b64_decode nj 1024;
      eb ← b64_decode ej 8;
      if (zlen nb <? 256) || (1024 <? zlen nb) || bool_decide (eb = []) || bool_decide (head nb = Some 0)
         || ((1 <? zlen eb) && bool_decide (head eb = Some 0)) then None
      else
        let n := be_get nb in
        let e := be_get eb in
        if (num_bits n <? 2048) || (8192 <? num_bits n) || negb (Z.odd n) || (31 <? num_bits e) || (e <? 3)
           || negb (Z.odd e) then None
        else rsa_key n e
  | _, _ => None
  end.

Definition key_names : list bytes := map str ["kty"; "kid"; "use"; "alg"; "n"; "e"]%string.

(** One key of the document, checked whether it is wanted or not. *)
Definition check_key (k : json) (others : list json) : option (bytes * key) :=
  match exact_object k key_names with
  | Some [kty; id; use; alg; n; e] =>
      let repeated := existsb (fun o =>
        match id, cJSON_GetObjectItemCaseSensitive (Some o) (str "kid") with
        | JString a, Some (JString b) => bytes_eqb a b
        | _, _ => false
        end) others in
      if repeated || negb (string_is kty (str "RSA")) || negb (string_ok (fun s => ascii_token s 1 64) id)
         || negb (string_is use (str "sig")) || negb (string_is alg (str "RS256"))
         || negb (string_ok (fun _ => true) n) || negb (string_ok (fun _ => true) e) then None
      else
        validated ← rsa_from_jwk k;
        match id with JString a => Some (a, validated) | _ => None end
  | _ => None
  end.

Fixpoint select_loop (keys : list json) (kid : bytes) (chosen : option key) : key_select_result_t key :=
  match keys with
  | [] => match chosen with Some k => KEY_SELECT_OK k | None => KEY_SELECT_UNKNOWN end
  | k :: others =>
      match check_key k others with
      | None => KEY_SELECT_INVALID
      | Some (id, validated) =>
          if bytes_eqb id kid then
            match chosen with Some _ => KEY_SELECT_INVALID | None => select_loop others kid (Some validated) end
          else select_loop others kid chosen
      end
  end.

Definition select_key (jwks kid : bytes) : key_select_result_t key :=
  match parse_json jwks with
  | None => KEY_SELECT_INVALID
  | Some root =>
      if negb (no_duplicate_members root) then KEY_SELECT_INVALID
      else
        match exact_object root [str "keys"] with
        | Some [JArray (k :: keys)] => select_loop (k :: keys) kid None
        | _ => KEY_SELECT_INVALID
        end
  end.

(** *** Headers *)

Definition header_names : list bytes := map str ["alg"; "typ"; "kid"]%string.

Definition header_kid (typ : string) (header : json) : option bytes :=
  if negb (no_duplicate_members header) then None
  else
    match exact_object header header_names with
    | Some [alg; ty; kid] =>
        if string_is alg (str "RS256") && string_is ty (str typ) && string_ok (fun s => ascii_token s 1 64) kid
        then copy_string kid 65 else None
    | _ => None
    end.

Definition parse_header (header : json) : option bytes := header_kid "JWT" header.
Definition parse_identity_header (header : json) : option bytes := header_kid "aimee-id+jwt" header.

(** *** Payloads *)

(** The window every token is held to. *)
Definition times_ok (version team issued expires now lifetime : Z) : bool :=
  negb (negb (version =? 1) || (team <=? 0) || (now <? 0) || (now <? issued) || (expires <=? now)
        || (expires <=? issued) || (lifetime <? expires - issued)).

Definition identity_tier_from_str (s : bytes) : option kb_identity_tier_t :=
  if bytes_eqb s (str "off") then Some KB_IDENTITY_TIER_OFF
  else if bytes_eqb s (str "data") then Some KB_IDENTITY_TIER_DATA
  else if bytes_eqb s (str "full") then Some KB_IDENTITY_TIER_FULL
  else None.

Definition identity_names : list bytes :=
  map str ["v"; "iss"; "aud"; "sub"; "team_id"; "tier"; "jti"; "iat"; "exp"]%string.

Definition parse_identity_payload (payload : json) (raw issuer audience : bytes) (now : Z) (kid : bytes)
    : option aimee_identity_claims_t :=
  if negb (no_duplicate_members payload) then None
  else
    v ← exact_object payload identity_names;
    version ← raw_uint raw "v";
    team ← raw_uint raw "team_id";
    issued ← raw_uint raw "iat";
    expires ← raw_uint raw "exp";
    if negb (times_ok version team issued expires now SERVER_IDENTITY_TOKEN_MAX_LIFETIME) then None
    else
      match v with
      | [JNumber _ _; JString iss; JString aud; JString sub; JNumber _ _; JString tier; JString jti;
         JNumber _ _; JNumber _ _] =>
          if negb (bytes_eqb iss issuer) || negb (bytes_eqb aud audience)
             || negb (server_identity_subject_valid sub) then None
          else
            t ← identity_tier_from_str tier;
            if negb (ascii_token jti 8 128) then None
            else
              iss ← copy_string (JString iss) 256;
              aud ← copy_string (JString aud) 128;
              sub ← copy_string (JString sub) 577;
              jti ← copy_string (JString jti) 129;
              Some {| c_issuer := iss; c_audience := aud; c_subject := sub; c_team_id := team; c_tier := t;
                      c_jti := jti; c_kid := kid; c_issued_at := issued; c_expires_at := expires |}
      | _ => None
      end.

Definition mgmt_names : list bytes :=
  map str ["v"; "iss"; "aud"; "sub"; "team_id"; "cap"; "jti"; "correlation_id"; "request_sha256"; "peer_issuer";
           "peer_serial"; "peer_fingerprint"; "iat"; "exp"]%string.

(** The connection a management token is bound to. *)
Record peer := { p_issuer : bytes; p_serial : bytes; p_fingerprint : bytes }.

Definition parse_payload (payload : json) (raw issuer audience : bytes) (pr : peer) (request_sha256 : option bytes)
    (now : Z) (kid : bytes) : option server_mgmt_token_claims_t :=
  if negb (no_duplicate_members payload) then None
  else
    v ← exact_object payload mgmt_names;
    version ← raw_uint raw "v";
    team ← raw_uint raw "team_id";
    issued ← raw_uint raw "iat";
    expires ← raw_uint raw "exp";
    if negb (times_ok version team issued expires now SERVER_MGMT_TOKEN_MAX_LIFETIME) then None
    else
      match v with
      | [JNumber _ _; JString iss; JString aud; JString sub; JNumber _ _; JString cap; JString jti; JString corr;
         JString digest; JString pi; JString ps; JString pf; JNumber _ _; JNumber _ _] =>
          if negb (bytes_eqb iss issuer) || negb (bytes_eqb aud audience) || negb (identity_key sub)
             || (negb (bytes_eqb cap (str "remote_writes")) && negb (bytes_eqb cap (str "remote_reads")))
             || negb (ascii_token jti 16 128) || negb (ascii_token corr 1 128) || negb (lower_hex digest 64 64)
             || match request_sha256 with Some r => negb (exact_secret digest r 64) | None => false end
             || negb (control_free pi 1 511) || negb (bytes_eqb pi (p_issuer pr))
             || negb (lower_hex ps 0 79) || negb (bytes_eqb ps (p_serial pr))
             || negb (lower_hex pf 64 64) || negb (exact_secret pf (p_fingerprint pr) 64) then None
          else
            iss ← copy_string (JString iss) 256;
            aud ← copy_string (JString aud) 128;
            sub ← copy_string (JString sub) 577;
            cap ← copy_string (JString cap) 65;
            jti ← copy_string (JString jti) 129;
            corr ← copy_string (JString corr) 129;
            digest ← copy_string (JString digest) 65;
            pi ← copy_string (JString pi) 512;
            ps ← copy_string (JString ps) 80;
            pf ← copy_string (JString pf) 65;
            Some {| m_version := 1; m_issuer := iss; m_audience := aud; m_subject := sub; m_team_id := team;
                    m_capability := cap; m_jti := jti; m_correlation_id := corr; m_request_sha256 := digest;
                    m_peer_issuer := pi; m_peer_serial := ps; m_peer_fingerprint := pf; m_kid := kid;
                    m_issued_at := issued; m_expires_at := expires |}
      | _ => None
      end.

(** *** Tokens *)

(** The decoded and parsed parts: the header, the payload with its text, and
    the signature. *)
Definition decode_token (h p s : bytes) : option (json * json * bytes * bytes) :=
  header_raw ← decode_segment h TOKEN_HEADER_MAX;
  payload_raw ← decode_segment p TOKEN_PAYLOAD_MAX;
  signature ← b64_decode s TOKEN_SIG_MAX;
  if bool_decide (signature = []) then None
  else
    header ← parse_json header_raw;
    payload ← parse_json payload_raw;
    Some (header, payload, payload_raw, signature).

Definition verify_core (jwt jwks issuer audience : bytes) (pr : peer) (request_sha256 : option bytes)
    (required_capability : option bytes) (now : Z) : token_result server_mgmt_token_claims_t :=
  if negb (control_free issuer 1 255) || negb (ascii_token audience 1 127) || negb (control_free (p_issuer pr) 1 511)
     || negb (lower_hex (p_serial pr) 0 79) || negb (lower_hex (p_fingerprint pr) 64 64)
     || match request_sha256 with Some r => negb (lower_hex r 64 64) | None => false end || (now <? 0)
     || negb (wire_ok jwt jwks) then TOKEN_INVALID
  else
    match segments jwt with
    | None => TOKEN_INVALID
    | Some (h, p, s) =>
        match decode_token h p s with
        | None => TOKEN_INVALID
        | Some (header, payload, raw, signature) =>
            match parse_header header with
            | None => TOKEN_INVALID
            | Some kid =>
                match select_key jwks kid with
                | KEY_SELECT_UNKNOWN => TOKEN_UNKNOWN_KID
                | KEY_SELECT_INVALID => TOKEN_INVALID
                | KEY_SELECT_OK k =>
                    if negb (rsa_verify k (h ++ 46 :: p)%list signature) then TOKEN_INVALID
                    else
                      match parse_payload payload raw issuer audience pr request_sha256 now kid with
                      | None => TOKEN_INVALID
                      | Some c =>
                          if match required_capability with
                             | Some r => negb (bytes_eqb (m_capability c) r)
                             | None => false
                             end then TOKEN_INVALID
                          else TOKEN_OK c
                      end
                end
            end
        end
    end.

Definition server_mgmt_token_verify_ex (jwt jwks issuer audience : bytes) (pr : peer) (request_sha256 : option bytes)
    (now : Z) : token_result server_mgmt_token_claims_t :=
  match request_sha256 with
  | None => TOKEN_INVALID
  | Some _ => verify_core jwt jwks issuer audience pr request_sha256 (Some (str "remote_writes")) now
  end.

Definition server_mgmt_token_verify (jwt jwks issuer audience : bytes) (pr : peer) (request_sha256 : option bytes)
    (now : Z) : bool :=
  match server_mgmt_token_verify_ex jwt jwks issuer audience pr request_sha256 now with
  | TOKEN_OK _ => true
  | _ => false
  end.

Definition server_mgmt_token_verify_read_claims_ex (jwt jwks issuer audience : bytes) (pr : peer) (now : Z)
    : token_result server_mgmt_token_claims_t :=
  verify_core jwt jwks issuer audience pr None (Some (str "remote_reads")) now.

Definition server_identity_token_verify (jwt jwks issuer audience : bytes) (now : Z)
    : token_result aimee_identity_claims_t :=
  if negb (control_free issuer 1 255) || negb (ascii_token audience 1 127) || (now <? 0)
     || negb (wire_ok jwt jwks) then TOKEN_INVALID
  else
    match segments jwt with
    | None => TOKEN_INVALID
    | Some (h, p, s) =>
        match decode_token h p s with
        | None => TOKEN_INVALID
        | Some (header, payload, raw, signature) =>
            match parse_identity_header header with
            | None => TOKEN_INVALID
            | Some kid =>
                match select_key jwks kid with
                | KEY_SELECT_UNKNOWN => TOKEN_UNKNOWN_KID
                | KEY_SELECT_INVALID => TOKEN_INVALID
                | KEY_SELECT_OK k =>
                    if negb (rsa_verify k (h ++ 46 :: p)%list signature) then TOKEN_INVALID
                    else
                      match parse_identity_payload payload raw issuer audience now kid with
                      | None => TOKEN_INVALID
                      | Some c => TOKEN_OK c
                      end
                end
            end
        end
    end.

(** ** What an accepted token is *)

(** The member [n] of an object. *)
Definition member (object : json) (n : string) (v : json) : Prop :=
  cJSON_GetObjectItemCaseSensitive (Some object) (str n) = Some v.

Lemma name_index_lookup names k i : name_index names k = Some i -> names !! i = Some k.
Proof.
  revert i. induction names as [|n names IH]; intros i; cbn [name_index]; [done|].
  destruct (bytes_eqb k n) eqn:E; [intros [= <-]; by apply bytes_eqb_true in E as ->|].
  destruct (name_index names k) as [j|]; [|done]. intros [= <-]. by apply IH.
Qed.

(** A slot that is set keeps its value, and its name does not come again. *)
Lemma exact_loop_set names child values out i k v : exact_loop names child values = Some out ->
  name_index names k = Some i -> values !! i = Some (Some v) -> out !! i = Some (Some v) /\ assoc_first k child = None.
Proof.
  revert values. induction child as [|[k' w] child IH]; intros values; cbn [exact_loop assoc_first].
  - intros [= <-]. done.
  - destruct (name_index names k') as [j|] eqn:Hj; [|done]. destruct (values !! j) as [[]|] eqn:Hv; try done.
    intros H Hi Hs. assert (Hne : i <> j) by congruence. assert (Hk : k <> k') by congruence.
    rewrite (proj2 (bytes_eqb_false k k') Hk). apply (IH _ H Hi). by rewrite list_lookup_insert_ne.
Qed.

Lemma exact_loop_sound names child values out : exact_loop names child values = Some out ->
  forall i v, out !! i = Some (Some v) ->
    values !! i = Some (Some v) \/ exists k, names !! i = Some k /\ assoc_first k child = Some v.
Proof.
  revert values. induction child as [|[k w] child IH]; intros values; cbn [exact_loop assoc_first].
  - intros [= <-] i v. by left.
  - destruct (name_index names k) as [j|] eqn:Hj; [|done]. destruct (values !! j) as [[]|] eqn:Hv; try done.
    intros H i v Ho.
    assert (Hset : <[j:=Some w]> values !! j = Some (Some w)) 
      by (apply list_lookup_insert_eq; by eapply lookup_lt_Some).
    destruct (exact_loop_set _ _ _ _ j k w H Hj Hset) as [Hoj Hk].
    destruct (decide (i = j)) as [->|Hne].
    + right. exists k. rewrite bytes_eqb_refl. split; [by apply name_index_lookup | congruence].
    + destruct (IH _ H i v Ho) as [Hi|(k' & Hk' & Hin)].
      * rewrite list_lookup_insert_ne in Hi by done. by left.
      * right. exists k'. split; [done|]. destruct (bytes_eqb k' k) eqn:E; [|done].
        apply bytes_eqb_true in E as ->. congruence.
Qed.

Lemma exact_object_member object names vs i n v : exact_object object (map str names) = Some vs ->
  names !! i = Some n -> vs !! i = Some v -> member object n v.
Proof.
  destruct object as [| | | | |child]; try done. unfold exact_object, member.
  destruct (exact_loop _ child _) as [out|] eqn:E; [|done]. cbn [mbind option_bind].
  destruct (_ =? _)%nat; [|done]. intros Hm Hn Hv. cbn [cJSON_GetObjectItemCaseSensitive].
  assert (Ho : out !! i = Some (Some v)).
  { apply mapM_Some in Hm. destruct (Forall2_lookup_r _ _ _ _ _ Hm Hv) as (x & Hx & Hxv). rewrite Hx. by f_equal. }
  destruct (exact_loop_sound _ _ _ _ E i v Ho) as [Hi|(k & Hk & Hin)].
  - by apply lookup_replicate in Hi as [Hi _].
  - change (map str names) with (str <$> names) in Hk. rewrite list_lookup_fmap, Hn in Hk. by injection Hk as <-.
Qed.

Lemma string_is_eq j s : string_is j s = true -> j = JString s.
Proof. destruct j; try done. by intros ->%bytes_eqb_true. Qed.

Lemma header_kid_members typ header kid : header_kid typ header = Some kid ->
  no_duplicate_members header = true /\ member header "alg" (JString (str "RS256"))
  /\ member header "typ" (JString (str typ)) /\ member header "kid" (JString kid).
Proof.
  unfold header_kid. destruct (no_duplicate_members header) eqn:Hd; [|done]. cbn [negb].
  destruct (exact_object header header_names) as [[|alg [|ty [|k []]]]|] eqn:E; try done.
  destruct (_ && _) eqn:H; [|done]. bool_to_prop. apply string_is_eq in H as ->. apply string_is_eq in H1 as ->.
  destruct k as [| | |k| |]; try done. cbn [copy_string]. destruct (_ <? _)%nat; [|done]. intros [= ->].
  split_and!; [done|..].
  - by apply (exact_object_member _ _ _ 0 "alg" _ E).
  - by apply (exact_object_member _ _ _ 1 "typ" _ E).
  - by apply (exact_object_member _ _ _ 2 "kid" _ E).
Qed.

(** *** Keys *)

(** A key of the document with its id. *)
Definition keyed (j : json) (id : bytes) (k : key) : Prop :=
  member j "kid" (JString id) /\ member j "kty" (JString (str "RSA")) /\ member j "alg" (JString (str "RS256"))
  /\ member j "use" (JString (str "sig")) /\ rsa_from_jwk j = Some k.

Lemma check_key_keyed j others id k : check_key j others = Some (id, k) ->
  keyed j id k /\ Forall (fun o => ~ member o "kid" (JString id)) others.
Proof.
  unfold check_key. destruct (exact_object j key_names) as [[|kty [|i [|use [|alg [|n [|e []]]]]]]|] eqn:E; try done.
  destruct (_ || _) eqn:H; [done|]. bool_to_prop.
  repeat match goal with H : string_is _ _ = true |- _ => apply string_is_eq in H as -> end.
  destruct (rsa_from_jwk j) as [k'|] eqn:Hr; [|done]. cbn [mbind option_bind].
  destruct i as [| | |a| |]; try done. intros [= <- <-]. split.
  - split_and!; [by apply (exact_object_member _ _ _ 1 "kid" _ E) | by apply (exact_object_member _ _ _ 0 "kty" _ E)
      | by apply (exact_object_member _ _ _ 3 "alg" _ E) | by apply (exact_object_member _ _ _ 2 "use" _ E) | done].
  - apply Forall_forall. intros o Ho Hm.
    match goal with H : existsb _ _ = false |- _ => apply not_true_iff_false in H; destruct H end.
    apply existsb_exists. exists o. split; [by apply list_elem_of_In|]. unfold member in Hm. by rewrite Hm, bytes_eqb_refl.
Qed.

Lemma select_loop_sound keys kid chosen k : select_loop keys kid chosen = KEY_SELECT_OK k ->
  (chosen = Some k /\ Forall (fun j => ~ member j "kid" (JString kid)) keys)
  \/ (chosen = None /\ exists l j r, keys = (l ++ j :: r)%list /\ keyed j kid k
        /\ Forall (fun j' => ~ member j' "kid" (JString kid)) (l ++ r)).
Proof.
  revert chosen. induction keys as [|j others IH]; intros chosen; cbn [select_loop].
  - destruct chosen; [|done]. intros [= ->]. left. by split.
  - destruct (check_key j others) as [[id k']|] eqn:Hc; [|done]. apply check_key_keyed in Hc as [Hj Ho].
    destruct (bytes_eqb id kid) eqn:E.
    + apply bytes_eqb_true in E as ->. destruct chosen; [done|]. intros H.
      destruct (IH _ H) as [[[= ->] Hf]|[? _]]; [|done]. right. split; [done|]. by exists [], j, others.
    + apply bytes_eqb_false in E. assert (Hn : ~ member j "kid" (JString kid)).
      { intros Hm. destruct Hj as [Hid _]. unfold member in *. congruence. }
      intros H. destruct (IH _ H) as [[-> Hf]|[-> (l & j' & r & -> & Hk & Hf)]]; [left | right]; split; try done.
      * by constructor.
      * exists (j :: l), j', r. split_and!; [done..|]. by constructor.
Qed.

(** The document names one key with the id, and that key is taken. *)
Lemma select_key_sound jwks kid k : select_key jwks kid = KEY_SELECT_OK k ->
  exists root l j r, parse_json jwks = Some root /\ member root "keys" (JArray (l ++ j :: r)) /\ keyed j kid k
    /\ Forall (fun j' => ~ member j' "kid" (JString kid)) (l ++ r).
Proof.
  unfold select_key. destruct (parse_json jwks) as [root|] eqn:Hp; [|done].
  destruct (no_duplicate_members root); [|done]. cbn [negb].
  destruct (exact_object root [str "keys"]) as [[|[| | | |[|a keys]|] []]|] eqn:E; try done.
  intros [[? _]|[_ (l & j & r & Hk & Hj & Hf)]]%select_loop_sound; [done|].
  exists root, l, j, r. split_and!; [done | | done..]. rewrite <- Hk.
  by apply (exact_object_member root ["keys"] [JArray (a :: keys)] 0 "keys" _ E).
Qed.

(** *** Numbers *)

Lemma digits_range s v w r : digits s v = Some (w, r) -> 0 <= v <= JSON_INT_MAX -> 0 <= w <= JSON_INT_MAX.
Proof.
  revert v. induction s as [|c s IH]; intros v; cbn [digits]; [by intros [= <- <-]|].
  destruct (is_digit c) eqn:Hc; [|by intros [= <- <-]].
  destruct (_ <? v) eqn:Hv; [done|]. intros H Hr. apply (IH _ H). unfold is_digit in Hc. bool_to_prop.
  pose proof (Z.mul_div_le (JSON_INT_MAX - (c - 48)) 10). lia.
Qed.

Lemma number_at_range s v : number_at s = Some v -> 0 <= v <= JSON_INT_MAX.
Proof.
  unfold number_at. destruct (skip_space s) as [|c r]; [done|]. destruct (_ || _); [done|].
  destruct (digits (c :: r) 0) as [[w rest]|] eqn:E; [|done]. cbn [mbind option_bind].
  intros H. assert (w = v) as <- by (repeat case_match; congruence).
  apply (digits_range _ _ _ _ E). unfold JSON_INT_MAX. lia.
Qed.

Lemma raw_scan_range name raw inside depth matches result v : raw_scan name raw inside depth matches result = Some v ->
  0 <= result <= JSON_INT_MAX -> 0 <= v <= JSON_INT_MAX.
Proof.
  revert inside depth matches result. induction raw as [|c raw IH]; intros inside depth matches result; cbn [raw_scan].
  - destruct inside; [done|]. destruct (matches =? 1); [|done]. by intros [= <-].
  - destruct inside as [[k esc]|]; [|destruct (c =? 34); apply IH].
    destruct (negb esc && (c =? 34)); [|apply IH]. destruct (_ || _); [apply IH|].
    destruct (number_at (tail (skip_space raw))) as [w|] eqn:E; [|done]. intros H _. apply (IH _ _ _ _ H).
    by apply number_at_range in E.
Qed.

Lemma raw_uint_range raw name v : raw_uint raw name = Some v -> 0 <= v <= JSON_INT_MAX.
Proof. intros H. apply (raw_scan_range _ _ _ _ _ _ _ H). unfold JSON_INT_MAX. lia. Qed.

(** *** Where a number stands *)

(** The inside of a string up to some byte, and whether the next is escaped. *)
Inductive literal : bytes -> bool -> Prop :=
  | lit_start : literal [] false
  | lit_byte k c : literal k false -> c <> 34 -> c <> 92 -> literal (k ++ [c]) false
  | lit_backslash k : literal k false -> literal (k ++ [92]) true
  | lit_escaped k c : literal k true -> literal (k ++ [c]) false.

(** A text that ends outside of strings, and how many braces and brackets are
    open there. *)
Inductive outside : bytes -> Z -> Prop :=
  | out_start : outside [] 0
  | out_open p d c : outside p d -> c = 123 \/ c = 91 -> outside (p ++ [c]) (d + 1)
  | out_close p d c : outside p d -> c = 125 \/ c = 93 -> outside (p ++ [c]) (d - 1)
  | out_byte p d c : outside p d -> c <> 34 -> c <> 123 -> c <> 91 -> c <> 125 -> c <> 93 -> outside (p ++ [c]) d
  | out_string p d k : outside p d -> literal k false -> outside (p ++ 34 :: k ++ [34]) d.

Definition spaces (s : bytes) : Prop := Forall (fun c => c = 32 \/ c = 9 \/ c = 13 \/ c = 10) s.

(** A decimal without leading zeros. *)
Definition decimal_text (ds : bytes) (v : Z) : Prop :=
  ds <> [] /\ Forall (fun c => 48 <= c <= 57) ds /\ (head ds = Some 48 -> ds = [48])
  /\ v = fold_left (fun a c => a * 10 + (c - 48)) ds 0.

(** In the text of an object the member [name] is written with the number [v]. *)
Definition numbered (raw : bytes) (name : string) (v : Z) : Prop :=
  exists pre sp1 sp2 ds sp3 e post,
    raw = (pre ++ [34] ++ str name ++ [34] ++ sp1 ++ [58] ++ sp2 ++ ds ++ sp3 ++ e :: post)%list
    /\ outside pre 1 /\ spaces sp1 /\ spaces sp2 /\ spaces sp3 /\ decimal_text ds v /\ (e = 44 \/ e = 125).

Lemma skip_space_cut s : exists sp, s = (sp ++ skip_space s)%list /\ spaces sp.
Proof.
  induction s as [|c s (sp & E & H)]; [by exists []; split; [|constructor]|]. cbn [skip_space].
  destruct (json_space c) eqn:J; [|by exists []; split; [|constructor]].
  exists (c :: sp). split; [cbn; by f_equal|]. constructor; [|done]. unfold json_space in J. bool_to_prop. lia.
Qed.

Lemma digits_split s v w r : digits s v = Some (w, r) ->
  exists ds, s = (ds ++ r)%list /\ Forall (fun c => 48 <= c <= 57) ds
    /\ w = fold_left (fun a c => a * 10 + (c - 48)) ds v
    /\ match s with c :: _ => is_digit c = true -> head ds = Some c | [] => True end
    /\ match r with c :: _ => is_digit c = false | [] => True end.
Proof.
  revert v. induction s as [|c s IH]; intros v; cbn [digits]; [intros [= <- <-]; by exists []|].
  destruct (is_digit c) eqn:Hc; [|intros [= <- <-]; by exists []].
  destruct (_ <? v); [done|]. intros H. destruct (IH _ H) as (ds & -> & F & W & _ & R).
  exists (c :: ds). split_and!; [done| |exact W|done|done]. constructor; [|done]. unfold is_digit in Hc. bool_to_prop. lia.
Qed.

Lemma number_at_split s v : number_at s = Some v ->
  exists sp2 ds sp3 e post, s = (sp2 ++ ds ++ sp3 ++ e :: post)%list
    /\ spaces sp2 /\ spaces sp3 /\ decimal_text ds v /\ (e = 44 \/ e = 125).
Proof.
  unfold number_at. destruct (skip_space_cut s) as (sp2 & E2 & S2). destruct (skip_space s) as [|c r]; [done|].
  destruct (_ || _) eqn:G; [done|]. destruct (digits (c :: r) 0) as [[w rest]|] eqn:D; [|done]. cbn [mbind option_bind].
  apply digits_split in D as (ds & Ed & F & W & Hd & _). bool_to_prop. destruct (skip_space_cut rest) as (sp3 & E3 & S3).
  destruct (skip_space rest) as [|e post]; [done|]. destruct (_ || _) eqn:T; [|done]. intros [= <-].
  exists sp2, ds, sp3, e, post. assert (is_digit c = true) as Hc by done. specialize (Hd Hc).
  destruct ds as [|c' ds]; [done|]. injection Hd as ->. split_and!; try done.
  - by rewrite E2, Ed, E3.
  - split_and!; try done. intros [= ->]. injection Ed as ->. destruct ds as [|d ds]; [done|].
    inversion_clear F as [|? ? _ F']. inversion_clear F' as [|? ? F'' _]. exfalso. cbn in H0. unfold is_digit in H0. bool_to_prop. lia.
  - bool_to_prop. lia.
Qed.

(** What the scan has read: a text outside of strings, or one and the string
    it is in. *)
Definition scanned (pre : bytes) (inside : option (bytes * bool)) (depth : Z) : Prop :=
  match inside with
  | None => outside pre depth
  | Some (k, esc) => exists p, pre = (p ++ 34 :: k)%list /\ outside p depth /\ literal k esc
  end.

Lemma raw_scan_numbered name raw pre inside depth matches result v :
  raw_scan (str name) raw inside depth matches result = Some v -> scanned pre inside depth -> 0 <= matches ->
  (matches <> 0 -> numbered (pre ++ raw) name result) -> numbered (pre ++ raw) name v.
Proof.
  revert pre inside depth matches result. induction raw as [|c raw IH]; intros pre inside depth matches result; cbn [raw_scan].
  - destruct inside; [done|]. destruct (Z.eqb_spec matches 1); [|done]. intros [= <-] _ _ H. apply H. lia.
  - replace (pre ++ c :: raw)%list with ((pre ++ [c]) ++ raw)%list by (by rewrite <- app_assoc).
    destruct inside as [[k esc]|]; cbn [scanned].
    2: { intros R O M N. destruct (Z.eqb_spec c 34) as [->|Hc].
         { apply (IH _ _ _ _ _ R); [|done|done]. exists pre. by split_and!; [..|constructor]. }
         apply (IH _ _ _ _ _ R); [|done|done]. clear R. cbn [scanned].
         destruct ((c =? 123) || (c =? 91)) eqn:B1; [apply out_open; [done|]; bool_to_prop; lia|].
         destruct ((c =? 125) || (c =? 93)) eqn:B2; [apply out_close; [done|]; bool_to_prop; lia|].
         bool_to_prop. by apply out_byte. }
    intros R (p & Ep & O & L) M N. destruct (negb esc && (c =? 34)) eqn:Q.
    2: { apply (IH _ _ _ _ _ R); [|done|done]. exists p. split_and!; [by rewrite Ep, <- app_assoc|done|].
         destruct esc; cbn [negb andb] in *; [by apply lit_escaped|]. bool_to_prop.
         destruct (Z.eqb_spec c 92) as [->|]; [by apply lit_backslash | by apply lit_byte]. }
    bool_to_prop. destruct esc; [done|]. assert (c = 34) as -> by lia.
    assert (O' : outside (pre ++ [34]) depth) by (rewrite Ep, <- app_assoc; by apply out_string).
    destruct (_ || _) eqn:G; [by apply (IH _ _ _ _ _ R)|].
    destruct (number_at (tail (skip_space raw))) as [w|] eqn:E; [|done]. apply (IH _ _ _ _ _ R); [exact O'|lia|].
    intros _. bool_to_prop. apply number_at_split in E as (sp2 & ds & sp3 & e & post & E & S2 & S3 & D & T).
    destruct (skip_space_cut raw) as (sp1 & E1 & S1). destruct (skip_space raw) as [|x after]; [done|].
    assert (x = 58) as -> by (by match goal with H : head _ = _ |- _ => injection H end). cbn [tail] in E.
    assert (k = str name) as -> by (by apply bytes_eqb_true). assert (depth = 1) as -> by done.
    exists p, sp1, sp2, ds, sp3, e, post. split_and!; try done. rewrite Ep, E1, E. by rewrite <- !app_assoc.
Qed.

Lemma raw_uint_numbered raw name v : raw_uint raw name = Some v -> numbered raw name v.
Proof. intros H. apply (raw_scan_numbered name raw [] None 0 0 0 v H); [constructor | lia | done]. Qed.

(** *** The identity token *)

Definition tier_text (t : kb_identity_tier_t) : string :=
  match t with
  | KB_IDENTITY_TIER_OFF => "off"
  | KB_IDENTITY_TIER_DATA => "data"
  | KB_IDENTITY_TIER_FULL => "full"
  end%string.

Lemma tier_from_str s t : identity_tier_from_str s = Some t -> s = str (tier_text t).
Proof.
  unfold identity_tier_from_str. destruct (bytes_eqb s (str "off")) eqn:E; [apply bytes_eqb_true in E; by intros [= <-]|].
  clear E. destruct (bytes_eqb s (str "data")) eqn:E; [apply bytes_eqb_true in E; by intros [= <-]|]. clear E.
  destruct (bytes_eqb s (str "full")) eqn:E; [apply bytes_eqb_true in E; by intros [= <-] | done].
Qed.

(** What the payload says, of which [raw] is the text. *)
Record claimed (payload : json) (raw : bytes) (issuer audience : bytes) (now : Z) (c : aimee_identity_claims_t) : Prop := {
  cl_iss : member payload "iss" (JString issuer) /\ c_issuer c = issuer;
  cl_aud : member payload "aud" (JString audience) /\ c_audience c = audience;
  cl_sub : member payload "sub" (JString (c_subject c)) /\ server_identity_subject_valid (c_subject c) = true;
  cl_tier : member payload "tier" (JString (str (tier_text (c_tier c))));
  cl_jti : member payload "jti" (JString (c_jti c)) /\ ascii_token (c_jti c) 8 128 = true;
  cl_version : numbered raw "v" 1;
  cl_team : numbered raw "team_id" (c_team_id c) /\ 0 < c_team_id c <= JSON_INT_MAX;
  cl_times : numbered raw "iat" (c_issued_at c) /\ numbered raw "exp" (c_expires_at c);
  cl_window : 0 <= c_issued_at c <= now /\ now < c_expires_at c <= JSON_INT_MAX;
  cl_lifetime : c_expires_at c <= c_issued_at c + SERVER_IDENTITY_TOKEN_MAX_LIFETIME
}.

Lemma copy_string_eq v cap w : copy_string (JString v) cap = Some w -> w = v.
Proof. cbn [copy_string]. destruct (_ <? _)%nat; congruence. Qed.

Lemma identity_payload_claimed payload raw issuer audience now kid c :
  parse_identity_payload payload raw issuer audience now kid = Some c ->
  claimed payload raw issuer audience now c /\ c_kid c = kid.
Proof.
  unfold parse_identity_payload. destruct (no_duplicate_members payload); [|done]. cbn [negb].
  destruct (exact_object payload identity_names) as [v|] eqn:E; [|done]. cbn [mbind option_bind].
  destruct (raw_uint raw "v") as [version|] eqn:Ev; [|done]. cbn [mbind option_bind].
  destruct (raw_uint raw "team_id") as [team|] eqn:Et; [|done]. cbn [mbind option_bind].
  destruct (raw_uint raw "iat") as [issued|] eqn:Ei; [|done]. cbn [mbind option_bind].
  destruct (raw_uint raw "exp") as [expires|] eqn:Ex; [|done]. cbn [mbind option_bind].
  pose proof (raw_uint_range _ _ _ Et). pose proof (raw_uint_range _ _ _ Ei). pose proof (raw_uint_range _ _ _ Ex).
  apply raw_uint_numbered in Ev, Et, Ei, Ex.
  destruct (times_ok _ _ _ _ _ _) eqn:Hok; [|done]. cbn [negb]. unfold times_ok in Hok. bool_to_prop.
  destruct v as [|[| |? ?| | |] v]; try done. destruct v as [|[| | |iss| |] v]; try done.
  destruct v as [|[| | |aud| |] v]; try done. destruct v as [|[| | |sub| |] v]; try done.
  destruct v as [|[| |? ?| | |] v]; try done. destruct v as [|[| | |tier| |] v]; try done.
  destruct v as [|[| | |jti| |] v]; try done. destruct v as [|[| |? ?| | |] v]; try done.
  destruct v as [|[| |? ?| | |] [|]]; try done.
  destruct (negb (bytes_eqb iss issuer) || _ || _) eqn:Hids; [done|]. bool_to_prop.
  repeat match goal with H : bytes_eqb _ _ = true |- _ => apply bytes_eqb_true in H as -> end.
  destruct (identity_tier_from_str tier) as [t|] eqn:Htier; [|done]. apply tier_from_str in Htier as ->.
  cbn [mbind option_bind]. destruct (ascii_token jti 8 128) eqn:Hjti; [|done]. cbn [negb].
  destruct (copy_string (JString issuer) 256) as [a|] eqn:Ca; [|done].
  destruct (copy_string (JString audience) 128) as [b|] eqn:Cb; [|done].
  destruct (copy_string (JString sub) 577) as [d|] eqn:Cd; [|done].
  destruct (copy_string (JString jti) 129) as [e|] eqn:Ce; [|done].
  apply copy_string_eq in Ca as ->, Cb as ->, Cd as ->, Ce as ->. cbn [mbind option_bind]. intros [= <-].
  split; [|done]. constructor; cbn [c_issuer c_audience c_subject c_tier c_jti c_team_id c_issued_at c_expires_at]; try done; try lia.
  - split; [by apply (exact_object_member _ _ _ 1 "iss" _ E) | done].
  - split; [by apply (exact_object_member _ _ _ 2 "aud" _ E) | done].
  - split; [by apply (exact_object_member _ _ _ 3 "sub" _ E) | done].
  - by apply (exact_object_member _ _ _ 5 "tier" _ E).
  - split; [by apply (exact_object_member _ _ _ 6 "jti" _ E) | done].
  - by assert (version = 1) as <- by lia.
  - split; [done | lia].
Qed.

Lemma decode_token_payload h p s header payload raw signature :
  decode_token h p s = Some (header, payload, raw, signature) ->
  b64_decode p TOKEN_PAYLOAD_MAX = Some raw /\ parse_json raw = Some payload /\ b64_decode s TOKEN_SIG_MAX = Some signature.
Proof.
  unfold decode_token, decode_segment. destruct (b64_decode h _) as [a|]; [|done]. cbn [mbind option_bind]. destruct (has_byte 0 a); [done|].
  destruct (b64_decode p _) as [b|]; [|done]. cbn [mbind option_bind]. destruct (has_byte 0 b); [done|].
  destruct (b64_decode s _) as [e|]; [|done]. cbn [mbind option_bind]. destruct (bool_decide _); [done|].
  destruct (parse_json a); [|done]. cbn [mbind option_bind]. destruct (parse_json b) eqn:E; [|done]. cbn [mbind option_bind].
  intros [= -> -> -> ->]. done.
Qed.

(** The key that the document [jwks] names by [kid], and no other. *)
Definition names_key (jwks kid : bytes) (k : key) : Prop :=
  exists root l j r, parse_json jwks = Some root /\ member root "keys" (JArray (l ++ j :: r)) /\ keyed j kid k
    /\ Forall (fun j' => ~ member j' "kid" (JString kid)) (l ++ r).

(** C14: an accepted identity token is three canonical Base64 segments between
    two dots; its first two carry, dot included, a signature by the one key
    the document names; its header has the type of identity tokens; and the
    claims handed out are those of the signed payload: the members of that
    name, and for the team, the two times and the version the decimal numbers
    written in its text; for this issuer and audience, of a valid subject,
    within a window of at most an hour that is open now. *)
Theorem identity_token_sound jwt jwks issuer audience now c :
  server_identity_token_verify jwt jwks issuer audience now = TOKEN_OK c ->
  exists h p s header payload raw signature k,
    jwt = (h ++ 46 :: p ++ 46 :: s)%list /\ ~ 46 ∈ h /\ ~ 46 ∈ p /\ ~ 46 ∈ s
    /\ b64_decode p TOKEN_PAYLOAD_MAX = Some raw /\ parse_json raw = Some payload
    /\ b64_decode s TOKEN_SIG_MAX = Some signature
    /\ decode_token h p s = Some (header, payload, raw, signature)
    /\ names_key jwks (c_kid c) k /\ rsa_verify k (h ++ 46 :: p) signature = true
    /\ member header "typ" (JString (str "aimee-id+jwt")) /\ member header "kid" (JString (c_kid c))
    /\ claimed payload raw issuer audience now c.
Proof.
  unfold server_identity_token_verify. destruct (_ || _); [done|].
  destruct (segments jwt) as [[[h p] s]|] eqn:Es; [|done].
  destruct (decode_token h p s) as [[[[header payload] raw] signature]|] eqn:Ed; [|done].
  destruct (parse_identity_header header) as [kid|] eqn:Eh; [|done].
  destruct (select_key jwks kid) as [|k|] eqn:Ek; try done.
  destruct (rsa_verify k _ signature) eqn:Ev; [|done]. cbn [negb].
  destruct (parse_identity_payload _ _ _ _ _ _) as [c'|] eqn:Ep; [|done]. intros [= ->].
  apply identity_payload_claimed in Ep as [Hc ->]. apply segments_split in Es as (-> & _ & _ & _ & ? & ? & ?).
  apply header_kid_members in Eh as (_ & _ & ? & ?).
  apply decode_token_payload in Ed as Hd.
  exists h, p, s, header, payload, raw, signature, k. split_and!; try apply Hd; try done. by apply select_key_sound.
Qed.

(** No token is good for both purposes: what verifies as an identity
    token is refused as a management token, under any documents, names, peers
    and times, and the other way round. *)
Theorem token_kinds_apart jwt jwks issuer audience now c jwks' issuer' audience' pr sha cap now' :
  server_identity_token_verify jwt jwks issuer audience now = TOKEN_OK c ->
  verify_core jwt jwks' issuer' audience' pr sha cap now' = TOKEN_INVALID.
Proof.
  unfold server_identity_token_verify. destruct (_ || _); [done|].
  destruct (segments jwt) as [[[h p] s]|] eqn:Es; [|done].
  destruct (decode_token h p s) as [[[[header payload] raw] signature]|] eqn:Ed; [|done].
  destruct (parse_identity_header header) as [kid|] eqn:Eh; [|done]. intros _.
  unfold verify_core. destruct (_ || negb _); [done|]. rewrite Es, Ed.
  destruct (parse_header header) as [kid'|] eqn:Eh'; [|done].
  apply header_kid_members in Eh as (_ & _ & Ht & _). apply header_kid_members in Eh' as (_ & _ & Ht' & _).
  unfold member in Ht, Ht'. rewrite Ht in Ht'. by vm_compute in Ht'.
Qed.

End Verify.

(** ** A sample token *)

Definition q (s : string) : bytes := map (fun c => if c =? 39 then 34 else c) (str s).
Definition b64 (l : bytes) : bytes := default [] (aimee_codec_base64_encode l 4096 AIMEE_BASE64_URL).

Definition sample_header : bytes := q "{'alg':'RS256','typ':'aimee-id+jwt','kid':'k1'}".
Definition sample_payload : bytes :=
  q "{'v':1,'iss':'kb','aud':'srv','sub':'ann','team_id':7,'tier':'data','jti':'abcdefgh','iat':100,'exp':200}".
Definition sample_modulus : bytes := (replicate 255 255 ++ [1])%list.
Definition sample_jwks : bytes := q "{'keys':[]}".

Definition jstr (s : string) : json := JString (str s).
Definition jnum (n : Z) : json := JNumber n (d_of_Z n).

(** A reader that knows three texts. *)
Definition sample_parse (raw : bytes) : option json :=
  if bytes_eqb raw sample_header then
    Some (JObject [(str "alg", jstr "RS256"); (str "typ", jstr "aimee-id+jwt"); (str "kid", jstr "k1")])
  else if bytes_eqb raw sample_payload then
    Some (JObject [(str "v", jnum 1); (str "iss", jstr "kb"); (str "aud", jstr "srv"); (str "sub", jstr "ann");
                   (str "team_id", jnum 7); (str "tier", jstr "data"); (str "jti", jstr "abcdefgh");
                   (str "iat", jnum 100); (str "exp", jnum 200)])
  else if bytes_eqb raw sample_jwks then
    Some (JObject [(str "keys", JArray [JObject
      [(str "kty", jstr "RSA"); (str "kid", jstr "k1"); (str "use", jstr "sig"); (str "alg", jstr "RS256");
       (str "n", JString (b64 sample_modulus)); (str "e", JString (b64 [1; 0; 1]))]])])
  else None.

Definition sample_rsa (n e : Z) : option (Z * Z) := Some (n, e).
Definition sample_check (_ : Z * Z) (_ signature : bytes) : bool := bytes_eqb signature [9; 9; 9].

Definition sample_token : bytes := (b64 sample_header ++ 46 :: b64 sample_payload ++ 46 :: b64 [9; 9; 9])%list.

Definition sample_claims : aimee_identity_claims_t :=
  {| c_issuer := str "kb"; c_audience := str "srv"; c_subject := str "ann"; c_team_id := 7;
     c_tier := KB_IDENTITY_TIER_DATA; c_jti := str "abcdefgh"; c_kid := str "k1"; c_issued_at := 100;
     c_expires_at := 200 |}.

Lemma sample_verifies :
  server_identity_token_verify sample_parse sample_rsa sample_check sample_token sample_jwks (str "kb") (str "srv") 150
  = TOKEN_OK sample_claims.
Proof. vm_compute. reflexivity. Qed.

Lemma identity_token_sound_witness :
  exists payload raw, claimed payload raw (str "kb") (str "srv") 150 sample_claims /\ numbered raw "team_id" 7.
Proof.
  destruct (identity_token_sound _ _ _ _ _ _ _ _ _ sample_verifies)
    as (h & p & s & header & payload & raw & signature & k & _ & _ & _ & _ & _ & _ & _ & _ & _ & _ & _ & _ & Hc).
  exists payload, raw. split; [exact Hc|]. exact (proj1 (cl_team _ _ _ _ _ _ Hc)).
Defined.

Definition sample_peer : peer := {| p_issuer := str "ca"; p_serial := str "0a"; p_fingerprint := replicate 64 97 |}.

Lemma token_kinds_apart_witness :
  verify_core sample_parse sample_rsa sample_check sample_token sample_jwks (str "kb") (str "srv") sample_peer None
    None 150 = TOKEN_INVALID.
Proof. exact (token_kinds_apart _ _ _ _ _ _ _ _ _ _ _ _ _ _ _ _ sample_verifies). Defined.

Lemma token_one_spelling_witness : sample_token = (b64 sample_header ++ 46 :: b64 sample_payload ++ 46 :: str "CQkJ")%list.
Proof.
  apply (token_one_spelling sample_token _ (sample_header, sample_payload, [9; 9; 9])).
  - apply is_bytesb_true. vm_compute. reflexivity.
  - apply is_bytesb_true. vm_compute. reflexivity.
  - vm_compute. reflexivity.
  - vm_compute. reflexivity.
Defined.

End AuthToken.
