(* ===== verification/ReplayStore.v ===== *)
(** * The replay stores

    A token is good once: its id is recorded when it is spent.  The Go
    handlers behind the two stores
    ([server-go/modules/aimee/families/jti_replay.go]), the client's wrapper
    ([jti_replay_consume.c]) and the hook of the write tier
    ([server_write_tier_replay_db1]).  A call is one transaction on the table
    of ids; which of its statements fail is an input, and a commit that
    reports failure may still have taken effect.  The integers of a request
    travel as decimal text, which is not modelled. *)

From Stdlib Require Import ZArith Lia String.
From stdpp Require Import base numbers list gmap sorting.
From S2P Require Import Prelude AuthToken.

Module ReplayStore.
Import AuthToken.

Definition jtiOK : Z := 0.
Definition jtiReplay : Z := 1.
Definition jtiSaturated : Z := 2.
Definition jtiStorage : Z := 3.
Definition jtiInvalid : Z := 4.
Definition jtiLiveLimit : nat := 4096.

(** ** Fields *)

Definition asciiToken (s : bytes) (min max : nat) : bool :=
  negb ((length s <? min)%nat || (max <? length s)%nat) && forallb token_char s.

Definition controlFree (s : bytes) (min max : nat) : bool :=
  negb ((length s <? min)%nat || (max <? length s)%nat) && forallb printable s.

Definition lowercaseHex (s : bytes) (min max : nat) : bool :=
  negb ((length s <? min)%nat || (max <? length s)%nat) && forallb hex_char s.

Definition validTier (s : bytes) : bool :=
  bytes_eqb s (str "off") || bytes_eqb s (str "data") || bytes_eqb s (str "full").

Definition jtiTimes (issued expires consumed : Z) : bool :=
  (0 <=? issued) && (issued <? expires) && (issued <=? consumed) && (consumed <? expires).

(** ** The table *)

Record jti_row := { row_expires : Z; row_consumed : Z; row_fields : list bytes }.

Abbreviation jti_table := (gmap bytes jti_row).

(** [ORDER BY expires_at, jti]. *)
Fixpoint bytes_le (a b : bytes) : bool :=
  match a, b with
  | [], _ => true
  | _ :: _, [] => false
  | x :: a, y :: b => (x <? y) || ((x =? y) && bytes_le a b)
  end.

Definition older (a b : bytes * jti_row) : Prop :=
  (row_expires a.2 <? row_expires b.2) || ((row_expires a.2 =? row_expires b.2) && bytes_le a.1 b.1) = true.

#[global] Instance older_dec : RelDecision older.
Proof. intros a b. unfold older. apply _. Defined.

(** The bounded sweep of expired ids. *)
Definition gc (now : Z) (t : jti_table) : jti_table :=
  let expired := filter (fun kv => row_expires kv.2 < now) (map_to_list t) in
  foldr (fun kv t => delete kv.1 t) t (take 4096 (merge_sort older expired)).

(** Which statements of a transaction succeed; [commit] says whether it is
    reported and whether it took effect. *)
Record outcomes := { o_begin : bool; o_gc : bool; o_count : bool; o_insert : bool; o_commit : bool; o_applied : bool }.

Definition committed (o : outcomes) (answer : Z) (t t' : jti_table) : Z * jti_table :=
  if o_commit o then (answer, t') else (jtiStorage, if o_applied o then t' else t).

(** The shared body of both operations. *)
Definition consume (o : outcomes) (jti : bytes) (row : jti_row) (consumedAt : Z) (t : jti_table) : Z * jti_table :=
  if negb (o_begin o) || negb (o_gc o) || negb (o_count o) then (jtiStorage, t)
  else
    let t1 := gc consumedAt t in
    if (jtiLiveLimit <=? size t1)%nat then committed o jtiSaturated t t1
    else if negb (o_insert o) then (jtiStorage, t)
    else
      match t1 !! jti with
      | Some _ => (jtiReplay, t)
      | None => committed o jtiOK t (<[jti := row]> t1)
      end.

(** ** The two operations *)

Record server_identity_jti_t := {
  id_jti : bytes; id_issuer : bytes; id_kid : bytes; id_audience : bytes; id_subject : bytes;
  id_team : Z; id_tier : bytes; id_issued : Z; id_expires : Z
}.

Definition identityConsume (o : outcomes) (f : server_identity_jti_t) (consumedAt : Z) (t : jti_table)
    : Z * jti_table :=
  if negb (asciiToken (id_jti f) 8 128) || negb (controlFree (id_issuer f) 1 255) || negb (asciiToken (id_kid f) 1 64)
     || negb (asciiToken (id_audience f) 1 127) || negb (controlFree (id_subject f) 1 576) || (id_team f <=? 0)
     || negb (validTier (id_tier f)) || negb (jtiTimes (id_issued f) (id_expires f) consumedAt)
  then (jtiInvalid, t)
  else
    consume o (id_jti f)
      {| row_expires := id_expires f; row_consumed := consumedAt;
         row_fields := [id_issuer f; id_kid f; id_audience f; id_subject f; id_tier f] |} consumedAt t.

Record server_management_jti_t := {
  mg_jti : bytes; mg_issuer : bytes; mg_kid : bytes; mg_audience : bytes; mg_subject : bytes; mg_team : Z;
  mg_capability : bytes; mg_peer_issuer : bytes; mg_peer_serial : bytes; mg_peer_fingerprint : bytes;
  mg_request_sha256 : bytes; mg_correlation_id : bytes; mg_issued : Z; mg_expires : Z
}.

Definition managementConsume (o : outcomes) (f : server_management_jti_t) (consumedAt : Z) (t : jti_table)
    : Z * jti_table :=
  if negb (asciiToken (mg_jti f) 16 128) || negb (controlFree (mg_issuer f) 1 255) || negb (asciiToken (mg_kid f) 1 64)
     || negb (asciiToken (mg_audience f) 1 127) || negb (controlFree (mg_subject f) 1 576) || (mg_team f <=? 0)
     || negb (asciiToken (mg_capability f) 1 64) || negb (controlFree (mg_peer_issuer f) 1 511)
     || negb (lowercaseHex (mg_peer_serial f) 1 79) || negb (lowercaseHex (mg_peer_fingerprint f) 64 64)
     || negb (lowercaseHex (mg_request_sha256 f) 64 64) || negb (asciiToken (mg_correlation_id f) 1 128)
     || negb (jtiTimes (mg_issued f) (mg_expires f) consumedAt)
  then (jtiInvalid, t)
  else
    consume o (mg_jti f)
      {| row_expires := mg_expires f; row_consumed := consumedAt;
         row_fields := [mg_issuer f; mg_kid f; mg_audience f; mg_subject f; mg_capability f; mg_peer_issuer f;
                        mg_peer_serial f; mg_peer_fingerprint f; mg_request_sha256 f; mg_correlation_id f] |}
      consumedAt t.

(** ** The client *)

(** A reply that does not come, or is none of the codes, is a storage
    failure; [reached] says whether the call completed. *)
Definition db1_identity_jti_consume (o : outcomes) (reached : bool) (f : server_identity_jti_t) (consumed_at : Z)
    (t : jti_table) : Z * jti_table :=
  let '(rc, t') := identityConsume o f consumed_at t in
  let rc := if reached then rc else -1 in
  (if (rc <? jtiOK) || (jtiInvalid <? rc) then jtiStorage else rc, t').

Definition record_of (c : aimee_identity_claims_t) : server_identity_jti_t :=
  {| id_jti := c_jti c; id_issuer := c_issuer c; id_kid := c_kid c; id_audience := c_audience c;
     id_subject := c_subject c; id_team := c_team_id c; id_tier := str (tier_text (c_tier c));
     id_issued := c_issued_at c; id_expires := c_expires_at c |}.

(** 0 for an id not seen before and now recorded, 1 for a replay, -1 for
    anything else. *)
Definition server_write_tier_replay_db1 (o : outcomes) (reached : bool) (c : aimee_identity_claims_t) (now : Z)
    (t : jti_table) : Z * jti_table :=
  let '(rc, t') := db1_identity_jti_consume o reached (record_of c) now t in
  (if rc =? jtiOK then 0 else if rc =? jtiReplay then 1 else -1, t').

(** ** The sweep *)

Lemma gc_lookup now t j r : t !! j = Some r -> now <= row_expires r -> gc now t !! j = Some r.
Proof.
  intros Hj Hr. unfold gc.
  assert (Hall : Forall (fun kv : bytes * jti_row => kv.1 <> j)
    (take 4096 (merge_sort older (filter (fun kv => row_expires kv.2 < now) (map_to_list t))))).
  { apply Forall_take, Forall_forall. intros [k s] Hk.
    rewrite merge_sort_Permutation in Hk. apply list_elem_of_filter in Hk as [He Hk].
    apply elem_of_map_to_list in Hk. cbn in *. intros ->. rewrite Hj in Hk. injection Hk as <-. lia. }
  induction Hall as [|[k s] l Hk Hl IH]; cbn; [done|]. by rewrite lookup_delete_ne.
Qed.

Lemma gc_size now t : (size (gc now t) <= size t)%nat.
Proof.
  unfold gc. induction (take 4096 _) as [|[k s] l IH]; cbn; [lia|]. etrans; [|exact IH].
  rewrite map_size_delete. destruct (_ !! k); cbn; lia.
Qed.

(** ** Spending *)

Lemma consume_keeps o jti row now t j r : t !! j = Some r -> now <= row_expires r ->
  (consume o jti row now t).2 !! j = Some r.
Proof.
  intros Hj Hr. pose proof (gc_lookup now t j r Hj Hr) as Hg. unfold consume, committed.
  destruct (_ || _); [done|]. destruct (_ <=? _)%nat; [by destruct (o_commit o), (o_applied o)|].
  destruct (negb (o_insert o)); [done|]. destruct (gc now t !! jti) as [r'|] eqn:E; [done|].
  assert (jti <> j) by congruence.
  destruct (o_commit o), (o_applied o); cbn; rewrite ?lookup_insert_ne by done; done.
Qed.

Lemma consume_ok o jti row now t t' : consume o jti row now t = (jtiOK, t') ->
  gc now t !! jti = None /\ t' !! jti = Some row.
Proof.
  unfold consume, committed. destruct (_ || _); [done|]. destruct (_ <=? _)%nat; [by destruct (o_commit o)|].
  destruct (negb (o_insert o)); [done|]. destruct (gc now t !! jti) as [r'|] eqn:E; [done|].
  destruct (o_commit o); [|done]. intros [= <-]. split; [done | apply lookup_insert_eq].
Qed.

Lemma consume_size o jti row now t : (size t <= jtiLiveLimit)%nat ->
  (size (consume o jti row now t).2 <= jtiLiveLimit)%nat.
Proof.
  intros Ht. pose proof (gc_size now t) as Hg. unfold consume, committed.
  destruct (_ || _); [done|]. destruct (_ <=? _)%nat eqn:E; [destruct (o_commit o), (o_applied o); cbn; lia|].
  apply Nat.leb_gt in E. destruct (negb (o_insert o)); [done|]. destruct (gc now t !! jti) as [r'|] eqn:Hn; [done|].
  assert (Hs : (size (<[jti:=row]> (gc now t)) <= jtiLiveLimit)%nat) by (rewrite map_size_insert, Hn; lia).
  by destruct (o_commit o), (o_applied o).
Qed.

(** One call of the hook. *)
Record spending := { k_outcomes : outcomes; k_reached : bool; k_claims : aimee_identity_claims_t; k_now : Z }.

Definition spend (k : spending) (t : jti_table) : Z * jti_table :=
  server_write_tier_replay_db1 (k_outcomes k) (k_reached k) (k_claims k) (k_now k) t.

Definition spend_all (ks : list spending) (t : jti_table) : jti_table := fold_left (fun t k => (spend k t).2) ks t.

(** What the call does to the table, and when it answers 0. *)
Lemma spend_cases k t : exists rc,
  (identityConsume (k_outcomes k) (record_of (k_claims k)) (k_now k) t) = (rc, (spend k t).2)
  /\ ((spend k t).1 = 0 -> rc = jtiOK).
Proof.
  unfold spend, server_write_tier_replay_db1, db1_identity_jti_consume.
  destruct (identityConsume _ _ _ t) as [rc t'] eqn:E. exists rc. cbn. split; [done|].
  destruct (k_reached k); cbn; [|done]. unfold jtiOK, jtiInvalid, jtiStorage, jtiReplay.
  destruct (_ || _); cbn; [done|]. destruct (Z.eqb_spec rc 0); [done|]. by destruct (rc =? 1).
Qed.

Lemma spend_keeps k t j r : t !! j = Some r -> k_now k <= row_expires r -> (spend k t).2 !! j = Some r.
Proof.
  intros Hj Hr. destruct (spend_cases k t) as (rc & E & _). unfold identityConsume in E.
  destruct (_ || _) in E; [by injection E as _ <-|].
  apply (f_equal snd) in E. cbn in E. rewrite <- E. by apply consume_keeps.
Qed.

Lemma spend_ok k t : (spend k t).1 = 0 ->
  gc (k_now k) t !! c_jti (k_claims k) = None /\ k_now k < c_expires_at (k_claims k)
  /\ exists r, (spend k t).2 !! c_jti (k_claims k) = Some r /\ row_expires r = c_expires_at (k_claims k).
Proof.
  intros H0. destruct (spend_cases k t) as (rc & E & Hrc). rewrite (Hrc H0) in E. unfold identityConsume in E.
  destruct (_ || _) eqn:Hv in E; [done|]. apply consume_ok in E as [Hn Hs]. split; [exact Hn|]. split.
  - unfold jtiTimes in Hv. bool_to_prop. cbn in *. lia.
  - eexists. split; [exact Hs | done].
Qed.

Lemma spend_all_keeps ks t j r : t !! j = Some r -> Forall (fun k => k_now k <= row_expires r) ks ->
  spend_all ks t !! j = Some r.
Proof.
  intros Hj Hks. revert t Hj. induction Hks as [|k ks Hk Hks IH]; intros t Hj; [done|].
  unfold spend_all. cbn. apply IH. by apply spend_keeps.
Qed.

(** A token is spent at most once: whatever other tokens are spent before
    and between, whichever transactions fail and however late the sweep runs,
    of two calls with the same claims the later one is not answered with 0,
    provided the clock does not run backwards. *)
Theorem token_spent_once t ks1 a ks2 b : StronglySorted Z.le (map k_now (a :: ks2 ++ [b])) ->
  k_claims b = k_claims a -> (spend a (spend_all ks1 t)).1 = 0 ->
  (spend b (spend_all (ks1 ++ a :: ks2) t)).1 <> 0.
Proof.
  intros Hsort Hc Ha Hb. destruct (spend_ok a _ Ha) as (_ & _ & r & Hr & Er).
  destruct (spend_ok b _ Hb) as (Hn & Hlt & _). rewrite Hc in Hn, Hlt.
  cbn [map] in Hsort. apply StronglySorted_inv in Hsort as [Hsort Hle].
  rewrite map_app in Hsort, Hle. apply Forall_app in Hle as [Hle _].
  assert (Hbefore : Forall (fun k => k_now k <= k_now b) ks2).
  { clear -Hsort. induction ks2 as [|k ks IH]; [constructor|]. cbn [map app] in Hsort.
    apply StronglySorted_inv in Hsort as [Hs Hk]. apply Forall_app in Hk as [_ Hk]. inversion_clear Hk.
    constructor; [done | by apply IH]. }
  assert (Hkeep : spend_all (ks1 ++ a :: ks2) t !! c_jti (k_claims a) = Some r).
  { unfold spend_all. rewrite fold_left_app. cbn [fold_left]. apply spend_all_keeps; [done|].
    eapply Forall_impl; [exact Hbefore|]. cbn. intros k Hk. rewrite Er. lia. }
  assert (Hgc : gc (k_now b) (spend_all (ks1 ++ a :: ks2) t) !! c_jti (k_claims a) = Some r)
    by (apply gc_lookup; [done | rewrite Er; lia]).
  congruence.
Qed.

(** The table never outgrows its limit: when it is full of live ids, the
    next token is refused and none is dropped. *)
Theorem replay_table_bounded t ks : (size t <= jtiLiveLimit)%nat -> (size (spend_all ks t) <= jtiLiveLimit)%nat.
Proof.
  revert t. induction ks as [|k ks IH]; intros t Ht; [done|]. unfold spend_all. cbn [fold_left]. apply IH.
  destruct (spend_cases k t) as (rc & E & _). unfold identityConsume in E.
  destruct (_ || _) in E; [by injection E as _ <-|].
  apply (f_equal snd) in E. cbn in E. rewrite <- E. by apply consume_size.
Qed.

(** ** Samples *)

Definition all_ok : outcomes :=
  {| o_begin := true; o_gc := true; o_count := true; o_insert := true; o_commit := true; o_applied := true |}.

Definition sample_spending (now : Z) : spending :=
  {| k_outcomes := all_ok; k_reached := true; k_claims := sample_claims; k_now := now |}.

Lemma token_spent_once_witness :
  (spend (sample_spending 150) ∅).1 = 0 /\ (spend (sample_spending 160) (spend_all [sample_spending 150] ∅)).1 <> 0.
Proof.
  split; [vm_compute; reflexivity|].
  apply (token_spent_once ∅ [] (sample_spending 150) [] (sample_spending 160)).
  - repeat constructor; cbn; lia.
  - reflexivity.
  - vm_compute. reflexivity.
Defined.

Lemma replay_table_bounded_witness : (size (spend_all [sample_spending 150; sample_spending 160] ∅) <= 4096)%nat.
Proof. apply (replay_table_bounded ∅ [sample_spending 150; sample_spending 160]). vm_compute. lia. Defined.

End ReplayStore.
