(* ===== verification/WriteTier.v ===== *)
(** * The write tier of a request

    What a signed identity token lets a remote caller write: the policy
    ([server_write_tier.c]), its binding to this server's name, team and keys
    ([server_runtime_identity.c], [server_write_tier_db1.c]) and the reading
    of the token from a request ([server_http_resolve_write_tier]).  A token
    is verified when the request arrives and spent only when it is served;
    the table of spent ids is passed along.  The environment and the loading
    of the key document are parameters. *)

From Stdlib Require Import ZArith Lia String.
From stdpp Require Import base numbers list gmap.
From S2P Require Import Prelude Json Auth AuthToken ReplayStore ServerPolicy HttpRequest.

Module WriteTier.
Import Auth AuthToken ReplayStore ServerPolicy HttpRequest.

Inductive server_write_tier_outcome_t :=
  | SERVER_WRITE_TIER_ABSENT | SERVER_WRITE_TIER_OK | SERVER_WRITE_TIER_INVALID | SERVER_WRITE_TIER_UNKNOWN_KID
  | SERVER_WRITE_TIER_WRONG_TEAM | SERVER_WRITE_TIER_NO_TEAM_CONFIGURED | SERVER_WRITE_TIER_REPLAY
  | SERVER_WRITE_TIER_REPLAY_UNAVAILABLE.

#[global] Instance outcome_eq_dec : EqDecision server_write_tier_outcome_t.
Proof. solve_decision. Defined.

Definition server_write_tier_outcome_str (o : server_write_tier_outcome_t) : string :=
  match o with
  | SERVER_WRITE_TIER_ABSENT => "absent"
  | SERVER_WRITE_TIER_OK => "ok"
  | SERVER_WRITE_TIER_INVALID => "invalid"
  | SERVER_WRITE_TIER_UNKNOWN_KID => "unknown_kid"
  | SERVER_WRITE_TIER_WRONG_TEAM => "wrong_team"
  | SERVER_WRITE_TIER_REPLAY => "replay"
  | SERVER_WRITE_TIER_REPLAY_UNAVAILABLE => "replay_unavailable"
  | SERVER_WRITE_TIER_NO_TEAM_CONFIGURED => "no_team_configured"
  end.

(** The hook that spends a token, on the table of spent ids. *)
Definition replay_fn : Type := aimee_identity_claims_t -> Z -> jti_table -> Z * jti_table.

Record server_write_tier_config_t := {
  jwks_json : option bytes; expected_issuer : option bytes; expected_audience : option bytes;
  enrolled_teams : option (list Z); replay : option replay_fn
}.

Definition team_is_enrolled (config : server_write_tier_config_t) (team : Z) : bool :=
  existsb (fun t => t =? team) (default [] (enrolled_teams config)).

Definition server_has_no_team (config : server_write_tier_config_t) : bool :=
  match enrolled_teams config with None | Some [] => true | Some _ => false end.

Definition tier_from_claims (t : kb_identity_tier_t) : Z :=
  match t with
  | KB_IDENTITY_TIER_OFF => SERVER_REMOTE_WRITES_OFF
  | KB_IDENTITY_TIER_DATA => SERVER_REMOTE_WRITES_DATA
  | KB_IDENTITY_TIER_FULL => SERVER_REMOTE_WRITES_FULL
  end.

(** A tier, why, and the claims that are handed out. *)
Abbreviation verdict := (Z * server_write_tier_outcome_t * option aimee_identity_claims_t)%type.

Definition deny (o : server_write_tier_outcome_t) : verdict := (SERVER_REMOTE_WRITES_OFF, o, None).

(** No token: null, of length 0, or starting with a NUL. *)
Definition no_token (token : option bytes) : bool :=
  match token with None | Some [] => true | Some (c :: _) => c =? 0 end.

(** ** This server *)

Inductive server_runtime_identity_state_t :=
  | SERVER_RUNTIME_IDENTITY_READY (server_id : bytes) (team : Z)
  | SERVER_RUNTIME_IDENTITY_NO_TEAM | SERVER_RUNTIME_IDENTITY_NO_SERVER_ID.

Definition server_id_char (c : Z) : bool :=
  is_digit c || ((65 <=? c) && (c <=? 90)) || ((97 <=? c) && (c <=? 122)) || existsb (Z.eqb c) (str "._-").

Definition server_id_valid (value : option bytes) (cap : nat) : option bytes :=
  v ← value;
  if bool_decide (v = []) || (cap <=? length v)%nat || (127 <? length v)%nat || negb (forallb server_id_char v)
  then None else Some v.

(** The digits at the start of a text, and the rest. *)
Fixpoint digit_run (s : bytes) : bytes * bytes :=
  match s with
  | c :: r => if is_digit c then let '(d, t) := digit_run r in (c :: d, t) else ([], s)
  | [] => ([], [])
  end.

(** [strtoll(s, &end, 10)]: the number and the rest, nothing when it is out of
    range. *)
Definition strtoll (s : bytes) : option (Z * bytes) :=
  let r := skip c_space s in
  let '(negative, r) := match r with c :: t => if c =? 45 then (true, t) else if c =? 43 then (false, t) else (false, r)
                        | [] => (false, r) end in
  let '(d, t) := digit_run r in
  if bool_decide (d = []) then Some (0, s)
  else
    let v := if negative then - dec_value d else dec_value d in
    if (v <? - 2 ^ 63) || (INT64_MAX <? v) then None else Some (v, t).

Definition team_id_valid (value : option bytes) : option Z :=
  v ← value;
  if bool_decide (v = []) then None
  else '(parsed, e) ← strtoll v; if negb (bool_decide (e = [])) || (parsed <=? 0) then None else Some parsed.

(** The variables the server reads, and the name and team of the enrolled
    certificate. *)
Record environment := {
  AIMEE_SERVER_ID : option bytes; AIMEE_SERVER_TEAM_ID : option bytes; managed_metadata : option (bytes * Z);
  AIMEE_SERVER_MGMT_JWKS_TRUST_BUNDLE : option bytes
}.

Definition is_set (v : option bytes) : bool := match v with Some (_ :: _) => true | _ => false end.

Definition server_runtime_identity_load (e : environment) (server_id_cap : nat) : server_runtime_identity_state_t :=
  if (server_id_cap <? 2)%nat then SERVER_RUNTIME_IDENTITY_NO_TEAM
  else if is_set (AIMEE_SERVER_ID e) || is_set (AIMEE_SERVER_TEAM_ID e) then
    match team_id_valid (AIMEE_SERVER_TEAM_ID e) with
    | None => SERVER_RUNTIME_IDENTITY_NO_TEAM
    | Some team =>
        match server_id_valid (AIMEE_SERVER_ID e) server_id_cap with
        | None => SERVER_RUNTIME_IDENTITY_NO_SERVER_ID
        | Some id => SERVER_RUNTIME_IDENTITY_READY id team
        end
    end
  else
    match managed_metadata e with
    | Some (managed, team) =>
        if team <=? 0 then SERVER_RUNTIME_IDENTITY_NO_TEAM
        else match server_id_valid (Some managed) server_id_cap with
             | Some id => SERVER_RUNTIME_IDENTITY_READY id team
             | None => SERVER_RUNTIME_IDENTITY_NO_TEAM
             end
    | None => SERVER_RUNTIME_IDENTITY_NO_TEAM
    end.

Definition server_runtime_server_id_load (e : environment) (server_id_cap : nat) : option bytes :=
  if (server_id_cap <? 2)%nat then None
  else if is_set (AIMEE_SERVER_ID e) then server_id_valid (AIMEE_SERVER_ID e) server_id_cap
  else if is_set (AIMEE_SERVER_TEAM_ID e) then None
  else '(managed, team) ← managed_metadata e; if team <=? 0 then None else server_id_valid (Some managed) server_id_cap.

Definition SERVER_WRITE_TIER_SERVER_ID_MAX : nat := 128.

Definition server_write_tier_team_configured (e : environment) : bool :=
  match server_runtime_identity_load e SERVER_WRITE_TIER_SERVER_ID_MAX with
  | SERVER_RUNTIME_IDENTITY_READY _ _ => true
  | _ => false
  end.

Inductive server_write_tier_config_state_t :=
  | SERVER_WRITE_TIER_CONFIG_READY | SERVER_WRITE_TIER_CONFIG_NO_TEAM | SERVER_WRITE_TIER_CONFIG_NO_SERVER_ID
  | SERVER_WRITE_TIER_CONFIG_NO_TRUST_BUNDLE.

Definition server_write_tier_config_state (readable : bytes -> bool) (e : environment)
    : server_write_tier_config_state_t :=
  match server_runtime_identity_load e SERVER_WRITE_TIER_SERVER_ID_MAX with
  | SERVER_RUNTIME_IDENTITY_NO_TEAM => SERVER_WRITE_TIER_CONFIG_NO_TEAM
  | SERVER_RUNTIME_IDENTITY_NO_SERVER_ID => SERVER_WRITE_TIER_CONFIG_NO_SERVER_ID
  | SERVER_RUNTIME_IDENTITY_READY _ _ =>
      match AIMEE_SERVER_MGMT_JWKS_TRUST_BUNDLE e with
      | Some (c :: r) => if readable (c :: r) then SERVER_WRITE_TIER_CONFIG_READY
                         else SERVER_WRITE_TIER_CONFIG_NO_TRUST_BUNDLE
      | _ => SERVER_WRITE_TIER_CONFIG_NO_TRUST_BUNDLE
      end
  end.

(** ** The policy *)

Section Policy.
(** The JSON reader, the keys and their check, as in the token verifier. *)
Context (json_parse : bytes -> option json).
Context {key : Type} (rsa_key : Z -> Z -> option key) (rsa_verify : key -> bytes -> bytes -> bool).
(** The key document loaded through the trust bundle at a path, when both
    files are good at the time. *)
Context (load_keys : bytes -> Z -> option bytes).

Definition server_write_tier_verify (token : option bytes) (config : server_write_tier_config_t) (now : Z) : verdict :=
  match jwks_json config, expected_issuer config, expected_audience config with
  | Some jwks, Some issuer, Some audience =>
      if now <? 0 then deny SERVER_WRITE_TIER_INVALID
      else if no_token token then deny SERVER_WRITE_TIER_ABSENT
      else
        match server_identity_token_verify json_parse rsa_key rsa_verify (default [] token) jwks issuer audience now with
        | TOKEN_UNKNOWN_KID => deny SERVER_WRITE_TIER_UNKNOWN_KID
        | TOKEN_INVALID => deny SERVER_WRITE_TIER_INVALID
        | TOKEN_OK claims =>
            if server_has_no_team config || negb (team_is_enrolled config (c_team_id claims))
            then deny (if server_has_no_team config then SERVER_WRITE_TIER_NO_TEAM_CONFIGURED
                       else SERVER_WRITE_TIER_WRONG_TEAM)
            else (tier_from_claims (c_tier claims), SERVER_WRITE_TIER_OK, Some claims)
        end
  | _, _, _ => deny SERVER_WRITE_TIER_INVALID
  end.

Definition server_write_tier_consume (claims : aimee_identity_claims_t) (config : server_write_tier_config_t) (now : Z)
    (t : jti_table) : (Z * server_write_tier_outcome_t) * jti_table :=
  match replay config with
  | None => ((SERVER_REMOTE_WRITES_OFF, SERVER_WRITE_TIER_INVALID), t)
  | Some hook =>
      if now <? 0 then ((SERVER_REMOTE_WRITES_OFF, SERVER_WRITE_TIER_INVALID), t)
      else
        let '(consumed, t) := hook claims now t in
        (if 0 <? consumed then (SERVER_REMOTE_WRITES_OFF, SERVER_WRITE_TIER_REPLAY)
         else if consumed <? 0 then (SERVER_REMOTE_WRITES_OFF, SERVER_WRITE_TIER_REPLAY_UNAVAILABLE)
         else (tier_from_claims (c_tier claims), SERVER_WRITE_TIER_OK), t)
  end.

Definition server_write_tier_resolve (token : option bytes) (config : server_write_tier_config_t) (now : Z)
    (t : jti_table) : verdict * jti_table :=
  match replay config with
  | None => (deny SERVER_WRITE_TIER_INVALID, t)
  | Some _ =>
      match server_write_tier_verify token config now with
      | (_, SERVER_WRITE_TIER_OK, Some claims) =>
          let '((tier, outcome), t) := server_write_tier_consume claims config now t in
          ((tier, outcome, if decide (outcome = SERVER_WRITE_TIER_OK) then Some claims else None), t)
      | (tier, outcome, _) => ((tier, outcome, None), t)
      end
  end.

(** ** The binding to this server *)

(** The configuration, or why there is none. *)
Definition build_config (e : environment) (hook : replay_fn) (now : Z)
    : server_write_tier_outcome_t + server_write_tier_config_t :=
  match server_runtime_identity_load e SERVER_WRITE_TIER_SERVER_ID_MAX with
  | SERVER_RUNTIME_IDENTITY_READY server_id team =>
      match AIMEE_SERVER_MGMT_JWKS_TRUST_BUNDLE e with
      | Some (c :: r) =>
          match load_keys (c :: r) now with
          | Some (k :: ks) =>
              inr {| jwks_json := Some (k :: ks); expected_issuer := Some (str "kb");
                     expected_audience := Some server_id; enrolled_teams := Some [team]; replay := Some hook |}
          | _ => inl SERVER_WRITE_TIER_INVALID
          end
      | _ => inl SERVER_WRITE_TIER_INVALID
      end
  | _ => inl SERVER_WRITE_TIER_NO_TEAM_CONFIGURED
  end.

Definition server_write_tier_verify_for_request (e : environment) (hook : replay_fn) (token : option bytes) (now : Z)
    : verdict :=
  if no_token token then deny SERVER_WRITE_TIER_ABSENT
  else match build_config e hook now with
       | inl outcome => deny outcome
       | inr config => server_write_tier_verify token config now
       end.

Definition server_write_tier_consume_for_request (e : environment) (hook : replay_fn)
    (claims : aimee_identity_claims_t) (now : Z) (t : jti_table) : (Z * server_write_tier_outcome_t) * jti_table :=
  match build_config e hook now with
  | inl outcome => ((SERVER_REMOTE_WRITES_OFF, outcome), t)
  | inr config => server_write_tier_consume claims config now t
  end.

(** ** The token of a request *)

Definition KB_IDENTITY_TOKEN_WIRE_MAX : nat := 4096.

(** The credential of the Authorization header, when it could be a token. *)
Definition request_identity (buf : bytes) : option bytes :=
  auth_value ← http_header buf (str "Authorization") (KB_IDENTITY_TOKEN_WIRE_MAX + 1);
  let credential := skip (Z.eqb 32) (default auth_value (aimee_core_bearer_token (Some auth_value))) in
  if has_byte 46 credential then Some (take KB_IDENTITY_TOKEN_WIRE_MAX credential) else None.

(** The tier, and the claims of a verified token. *)
Definition server_http_resolve_write_tier (e : environment) (hook : replay_fn) (is_tcp : bool) (buf : bytes) (now : Z)
    : Z * option aimee_identity_claims_t :=
  if negb is_tcp then (SERVER_REMOTE_WRITES_OFF, None)
  else
    let '(tier, _, claims) := server_write_tier_verify_for_request e hook (request_identity buf) now in
    (tier, claims).

(** ** Fail closed *)

(** The token verifies under the configuration, for one of its teams. *)
Record admitted (token : option bytes) (config : server_write_tier_config_t) (now : Z) (c : aimee_identity_claims_t)
    : Prop := {
  ad_token : no_token token = false;
  ad_verified : exists jwks issuer audience, jwks_json config = Some jwks /\ expected_issuer config = Some issuer
    /\ expected_audience config = Some audience
    /\ server_identity_token_verify json_parse rsa_key rsa_verify (default [] token) jwks issuer audience now
       = TOKEN_OK c;
  ad_team : c_team_id c ∈ default [] (enrolled_teams config)
}.

Lemma team_is_enrolled_iff config team :
  team_is_enrolled config team = true <-> team ∈ default [] (enrolled_teams config).
Proof.
  unfold team_is_enrolled. rewrite existsb_exists, list_elem_of_In. split.
  - by intros (x & Hx & ->%Z.eqb_eq).
  - intros Hx. exists team. split; [done | apply Z.eqb_refl].
Qed.

Lemma verify_cases token config now :
  (exists o, server_write_tier_verify token config now = deny o /\ o <> SERVER_WRITE_TIER_OK)
  \/ exists c, server_write_tier_verify token config now
             = (tier_from_claims (c_tier c), SERVER_WRITE_TIER_OK, Some c) /\ admitted token config now c.
Proof.
  unfold server_write_tier_verify.
  destruct (jwks_json config) as [jwks|] eqn:Ej, (expected_issuer config) as [iss|] eqn:Ei,
    (expected_audience config) as [aud|] eqn:Ea; try (by left; eauto).
  destruct (now <? 0); [by left; eauto|]. destruct (no_token token) eqn:En; [by left; eauto|].
  destruct (server_identity_token_verify _ _ _ _ _ _ _ _) as [|c|] eqn:Ev; [by left; eauto| |by left; eauto].
  destruct (server_has_no_team config) eqn:Et; [by left; eauto|].
  destruct (team_is_enrolled config (c_team_id c)) eqn:Em; [|by left; eauto].
  right. exists c. split; [done|]. constructor; [done | eauto 8 | by apply team_is_enrolled_iff].
Qed.

Lemma consume_cases c config now t :
  (exists o t', server_write_tier_consume c config now t = ((SERVER_REMOTE_WRITES_OFF, o), t')
     /\ o <> SERVER_WRITE_TIER_OK
     /\ (t' = t \/ exists hook, replay config = Some hook /\ t' = (hook c now t).2))
  \/ exists hook t', replay config = Some hook /\ hook c now t = (0, t')
     /\ server_write_tier_consume c config now t = ((tier_from_claims (c_tier c), SERVER_WRITE_TIER_OK), t').
Proof.
  unfold server_write_tier_consume. destruct (replay config) as [hook|]; [|left; by eauto 10].
  destruct (now <? 0); [left; by eauto 10|]. destruct (hook c now t) as [rc t'] eqn:E.
  destruct (Z.ltb_spec 0 rc); [left; do 2 eexists; split_and!; [done..|]; right; exists hook; by rewrite E|].
  destruct (Z.ltb_spec rc 0); [left; do 2 eexists; split_and!; [done..|]; right; exists hook; by rewrite E|].
  right. exists hook, t'. assert (rc = 0) as -> by lia. done.
Qed.

(** C17: the write tier fails closed: claims and a tier are handed out only for
    a token that verifies under the configured keys, issuer and audience, for
    an enrolled team, and whose id the replay hook has just recorded as new;
    every other outcome is the off tier.  The hook is called for no other
    token, so one minted for another team never takes a place in the table. *)
Theorem write_tier_fail_closed token config now t :
  let '((tier, outcome, claims), t') := server_write_tier_resolve token config now t in
  match claims with
  | Some c => outcome = SERVER_WRITE_TIER_OK /\ tier = tier_from_claims (c_tier c) /\ admitted token config now c
              /\ exists hook, replay config = Some hook /\ hook c now t = (0, t')
  | None => outcome <> SERVER_WRITE_TIER_OK /\ tier = SERVER_REMOTE_WRITES_OFF
            /\ (t' = t \/ exists c hook, admitted token config now c /\ replay config = Some hook
                                       /\ t' = (hook c now t).2)
  end.
Proof.
  unfold server_write_tier_resolve. destruct (replay config) as [hook|] eqn:Er; [|by cbn; eauto].
  destruct (verify_cases token config now) as [(o & -> & Ho)|(c & -> & Hc)].
  - cbn. by destruct o; cbn; eauto.
  - destruct (consume_cases c config now t) as [(o & t' & -> & Ho & Ht)|(hk & t' & Hr & Hh & ->)].
    + rewrite decide_False by done. split_and!; [done..|].
      destruct Ht as [->|(hk & Hr & ->)]; [by left|]. right. exists c, hk. split_and!; [done| |done]. by rewrite <- Er.
    + rewrite decide_True by done. split_and!; [done..|]. exists hk. split; [|done]. by rewrite <- Er.
Qed.

(** ** On this server *)

(** The token verifies for this server: under the keys it loads, the issuer
    and its own name, for its own team. *)
Definition identified (e : environment) (token : option bytes) (now : Z) (c : aimee_identity_claims_t) : Prop :=
  exists server_id path jwks tok,
    token = Some tok
    /\ server_runtime_identity_load e SERVER_WRITE_TIER_SERVER_ID_MAX
       = SERVER_RUNTIME_IDENTITY_READY server_id (c_team_id c)
    /\ AIMEE_SERVER_MGMT_JWKS_TRUST_BUNDLE e = Some path /\ load_keys path now = Some jwks
    /\ server_identity_token_verify json_parse rsa_key rsa_verify tok jwks (str "kb") server_id now = TOKEN_OK c.

Definition config_of (hook : replay_fn) (server_id : bytes) (team : Z) (jwks : bytes) : server_write_tier_config_t :=
  {| jwks_json := Some jwks; expected_issuer := Some (str "kb"); expected_audience := Some server_id;
     enrolled_teams := Some [team]; replay := Some hook |}.

Lemma build_config_cases e hook now :
  (exists o, build_config e hook now = inl o /\ o <> SERVER_WRITE_TIER_OK)
  \/ exists server_id team path jwks, build_config e hook now = inr (config_of hook server_id team jwks)
     /\ server_runtime_identity_load e SERVER_WRITE_TIER_SERVER_ID_MAX = SERVER_RUNTIME_IDENTITY_READY server_id team
     /\ AIMEE_SERVER_MGMT_JWKS_TRUST_BUNDLE e = Some path /\ load_keys path now = Some jwks.
Proof.
  unfold build_config.
  destruct (server_runtime_identity_load e _) as [server_id team| |]; [|by left; eauto..].
  destruct (AIMEE_SERVER_MGMT_JWKS_TRUST_BUNDLE e) as [[|b bs]|]; [by left; eauto| |by left; eauto].
  destruct (load_keys (b :: bs) now) as [[|k ks]|] eqn:El; [by left; eauto| |by left; eauto].
  right. exists server_id, team, (b :: bs), (k :: ks). done.
Qed.

Lemma verify_for_request_cases e hook token now :
  (exists o, server_write_tier_verify_for_request e hook token now = deny o)
  \/ exists c, server_write_tier_verify_for_request e hook token now
             = (tier_from_claims (c_tier c), SERVER_WRITE_TIER_OK, Some c) /\ identified e token now c.
Proof.
  unfold server_write_tier_verify_for_request. destruct (no_token token) eqn:En; [by left; eauto|].
  destruct (build_config_cases e hook now) as [(o & -> & _)|(server_id & team & path & jwks & -> & Es & Eb & El)];
    [by left; eauto|].
  destruct (verify_cases token (config_of hook server_id team jwks) now)
    as [(o & -> & _)|(c & -> & [_ (jwks' & iss & aud & [= <-] & [= <-] & [= <-] & Hv) Ht])]; [by left; eauto|].
  apply list_elem_of_singleton in Ht as <-. right. exists c. split; [done|].
  destruct token as [tok|]; [|done]. by exists server_id, path, jwks, tok.
Qed.

Lemma resolve_write_tier_cases e hook is_tcp buf now :
  server_http_resolve_write_tier e hook is_tcp buf now = (SERVER_REMOTE_WRITES_OFF, None)
  \/ exists c, server_http_resolve_write_tier e hook is_tcp buf now = (tier_from_claims (c_tier c), Some c)
             /\ is_tcp = true /\ identified e (request_identity buf) now c.
Proof.
  unfold server_http_resolve_write_tier. destruct is_tcp; [|by left]. cbn [negb].
  destruct (verify_for_request_cases e hook (request_identity buf) now) as [(o & ->)|(c & -> & Hc)]; [by left|].
  right. by exists c.
Qed.

Lemma consume_for_request_ok e hook c now t tier t' :
  server_write_tier_consume_for_request e hook c now t = ((tier, SERVER_WRITE_TIER_OK), t') ->
  hook c now t = (0, t').
Proof.
  unfold server_write_tier_consume_for_request.
  destruct (build_config_cases e hook now) as [(o & -> & Ho)|(server_id & team & path & jwks & -> & _)];
    [by intros [= _ -> _]|].
  destruct (consume_cases c (config_of hook server_id team jwks) now t)
    as [(o & u & -> & Ho & _)|(h & u & [= <-] & Hh & ->)]; [by intros [= _ -> _] | by intros [= _ <-]].
Qed.

Lemma consume_for_request_denied e hook c now t tier o t' :
  server_write_tier_consume_for_request e hook c now t = ((tier, o), t') -> o <> SERVER_WRITE_TIER_OK ->
  tier = SERVER_REMOTE_WRITES_OFF.
Proof.
  unfold server_write_tier_consume_for_request.
  destruct (build_config_cases e hook now) as [(o' & -> & Ho)|(server_id & team & path & jwks & -> & _)];
    [by intros [= <- _ _]|].
  destruct (consume_cases c (config_of hook server_id team jwks) now t)
    as [(o' & u & -> & Ho & _)|(h & u & [= <-] & Hh & ->)]; [by intros [= <- _ _] | by intros [= _ <- _]].
Qed.

(** Whatever the answer, the table is left or the hook has been called. *)
Lemma consume_for_request_table e hook c now t :
  (server_write_tier_consume_for_request e hook c now t).2 = t
  \/ (server_write_tier_consume_for_request e hook c now t).2 = (hook c now t).2.
Proof.
  unfold server_write_tier_consume_for_request.
  destruct (build_config_cases e hook now) as [(o & -> & Ho)|(server_id & team & path & jwks & -> & _)]; [by left|].
  destruct (consume_cases c (config_of hook server_id team jwks) now t)
    as [(o & u & -> & _ & [->|(h & [= <-] & ->)])|(h & u & [= <-] & Hh & ->)];
    [by left | by right | right; by rewrite Hh].
Qed.

End Policy.
End WriteTier.
