(* ===== verification/ServerAuthz.v ===== *)
(** * Who may call which route

    The bearers the listener accepts ([server_bearer_auth.c]), the
    capabilities of a connection and the route gate ([server_http_authz.c],
    [server_http_keepalive.c]) and the rate limit
    ([server_http_response.c]).  The store of device grants is a
    parameter. *)

From Stdlib Require Import ZArith Lia String.
From stdpp Require Import base numbers list gmap sorting.
From S2P Require Import Prelude Wire Digest Json Auth ServerPolicy HttpRequest.

Module ServerAuthz.
Import Auth ServerPolicy HttpRequest.

(** ** Bearers *)

Definition AIMEE_API_BEARER_EXTRA_MAX : nat := 7.

(** The live primary and the enrolled ones. *)
Record bearers := { g_bearer : bytes; g_bearer_extra : list bytes }.

Definition server_http_set_bearer_extra (l : list (option bytes)) (b : bearers) : bearers :=
  {| g_bearer := g_bearer b;
     g_bearer_extra := take AIMEE_API_BEARER_EXTRA_MAX
       (omap (fun x => match x with Some (c :: r) => Some (snprintf_s 256 (c :: r)) | _ => None end) l) |}.

Definition server_http_enrolled_bearer_count (b : bearers) : nat := length (g_bearer_extra b).

Definition server_http_update_primary_bearer (bearer : option bytes) (revoke_enrolled : bool) (b : bearers) : bearers :=
  {| g_bearer := snprintf_s 256 (default [] bearer);
     g_bearer_extra := if revoke_enrolled then [] else g_bearer_extra b |}.

Definition server_http_primary_bearer_snapshot (b : bearers) (n : nat) : bytes := snprintf_s n (g_bearer b).

Definition server_ct_equal (a b : option bytes) : bool := aimee_core_credential_equal a b.

Definition server_http_bearer_matches (presented : option bytes) (cfg : bytes) : bool :=
  match presented with
  | None | Some [] => false
  | Some p =>
      if bool_decide (cfg = []) then false
      else
        let '(_, base, _) := server_http_session_bearer_unbind (Some p) 4097 33 in
        server_ct_equal (Some base) (Some cfg)
  end.

Definition server_http_authorize_multi (is_tcp : bool) (cfg : bytes) (extra : list bytes)
    (auth api_key : option bytes) (has_session_key : bool) : Z :=
  let have_bearer := negb (bool_decide (cfg = [])) in
  if has_session_key && negb have_bearer then 503
  else if negb is_tcp then 0
  else if negb have_bearer then 503
  else
    let presented := aimee_core_bearer_token auth in
    let authorized := server_http_bearer_matches presented cfg || server_http_bearer_matches api_key cfg
      || existsb (fun e => negb (bool_decide (e = []))
                           && (server_http_bearer_matches presented e || server_http_bearer_matches api_key e)) extra in
    if authorized then 0 else 401.

Section Devices.
Context `{Sha256}.
(** The grant store's reply to a token's digest: nothing when the call fails,
    otherwise the document, when it parses. *)
Context (authorize_device : bytes -> option (option json)).

Definition bearer_sha256 (bearer : bytes) : option bytes :=
  match bearer with [] => None | _ => aimee_sha256_hex (Some bearer) end.

(** The devices are asked for each token of 64 bytes until one is accepted;
    [None] stands for the early 503. *)
Fixpoint ask_devices (tokens : list (option bytes)) : option bool :=
  match tokens with
  | [] => Some false
  | Some token :: tokens =>
      if negb (length token =? 64)%nat then ask_devices tokens
      else
        match bearer_sha256 token with
        | None => None
        | Some digest =>
            match authorize_device digest with
            | None => None
            | Some reply =>
                if bool_decide (json_valueint (cJSON_GetObjectItemCaseSensitive reply (str "code")) = Some 200)
                then Some true else ask_devices tokens
            end
        end
  | None :: tokens => ask_devices tokens
  end.

(** The status and whether a device token was accepted. *)
Definition server_http_authorize_enrolled_request (is_tcp : bool) (b : bearers) (auth api_key : option bytes)
    (has_session_key : bool) : Z * bool :=
  let result := server_http_authorize_multi is_tcp (g_bearer b) (g_bearer_extra b) auth api_key has_session_key in
  if (result =? 401) && is_tcp then
    match ask_devices [aimee_core_bearer_token auth; api_key] with
    | None => (503, false)
    | Some true => (0, true)
    | Some false => (401, false)
    end
  else (result, false).

Definition server_http_authorize_client_request (is_tcp : bool) (b : bearers) (auth api_key : option bytes)
    (has_session_key mtls : bool) (m path : bytes) : Z :=
  let '(status, device) := server_http_authorize_enrolled_request is_tcp b auth api_key has_session_key in
  if (status =? 0) && device && negb mtls
     && negb (bytes_eqb m (str "POST") && bytes_eqb path (str "/v1/cert/sign"))
     && negb (bytes_eqb m (str "GET") && bytes_eqb path (str "/v1/health"))
  then 401 else status.

(** The grant store accepts the token. *)
Definition device_accepts (token : bytes) : Prop :=
  length token = 64%nat
  /\ exists digest reply, bearer_sha256 token = Some digest /\ authorize_device digest = Some reply
     /\ json_valueint (cJSON_GetObjectItemCaseSensitive reply (str "code")) = Some 200.

Lemma ask_devices_accepted tokens : ask_devices tokens = Some true ->
  exists token, Some token ∈ tokens /\ device_accepts token.
Proof.
  induction tokens as [|[token|] tokens IH]; cbn [ask_devices]; [done| |].
  - destruct (Nat.eqb_spec (length token) 64) as [Hl|Hl]; cbn [negb].
    2: { intros (t & Ht & Ha)%IH. exists t. split; [by apply list_elem_of_further | done]. }
    destruct (bearer_sha256 token) as [digest|] eqn:Ed; [|done].
    destruct (authorize_device digest) as [reply|] eqn:Er; [|done].
    case_bool_decide as Hc.
    + intros _. exists token. split; [apply list_elem_of_here|]. split; [done|]. by exists digest, reply.
    + intros (t & Ht & Ha)%IH. exists t. split; [by apply list_elem_of_further | done].
  - intros (t & Ht & Ha)%IH. exists t. split; [by apply list_elem_of_further | done].
Qed.

(** What a device may ask for before it has a certificate. *)
Definition device_route (m path : bytes) : bool :=
  (bytes_eqb m (str "POST") && bytes_eqb path (str "/v1/cert/sign"))
  || (bytes_eqb m (str "GET") && bytes_eqb path (str "/v1/health")).

Lemma client_authorized b auth api_key session mtls m path :
  server_http_authorize_client_request true b auth api_key session mtls m path = 0 ->
  server_http_authorize_multi true (g_bearer b) (g_bearer_extra b) auth api_key session = 0
  \/ ((mtls || device_route m path = true)
      /\ exists token, (aimee_core_bearer_token auth = Some token \/ api_key = Some token) /\ device_accepts token).
Proof.
  unfold server_http_authorize_client_request, server_http_authorize_enrolled_request, device_route.
  destruct (Z.eqb_spec (server_http_authorize_multi true (g_bearer b) (g_bearer_extra b) auth api_key session) 401)
    as [E|E]; cbn [andb]; [|rewrite andb_false_r; by left].
  destruct (ask_devices _) as [[|]|] eqn:Ed; [|done..]. cbn [Z.eqb andb].
  apply ask_devices_accepted in Ed as (token & Ht & Ha). intros H0. right. split.
  - destruct mtls; [done|]. cbn [negb andb orb] in *.
    destruct (bytes_eqb m (str "POST") && _); [done|]. cbn [negb andb orb] in *.
    by destruct (bytes_eqb m (str "GET") && _).
  - exists token. split; [|done]. apply elem_of_cons in Ht as [<-|[<-|Ht%elem_of_nil]%elem_of_cons]; auto. done.
Qed.
End Devices.

(** ** Connections and routes *)

Inductive pki_cert_status_t := PKI_CERT_VALID | PKI_CERT_REVOKED | PKI_CERT_EXPIRED | PKI_CERT_UNKNOWN | PKI_CERT_ERROR.

Definition server_http_mtls_recheck_status (s : pki_cert_status_t) : Z :=
  match s with PKI_CERT_VALID => 200 | PKI_CERT_ERROR => 503 | _ => 403 end.

(** [caps & ~bit] on 32-bit masks. *)
Definition without (c bit : Z) : Z := Z.land c (u32 (Z.lnot bit)).

Definition server_http_conn_caps (is_tcp : bool) (bearer : bytes) (remote_writes : Z) : Z :=
  if negb is_tcp then CAPS_ALL
  else if starts_with bearer (str "scope:") then without CAPS_READ_ONLY CAP_CHAT
  else if SERVER_REMOTE_WRITES_FULL <=? remote_writes then CAPS_ALL
  else CAPS_AUTHENTICATED.

Definition server_http_effective_conn_caps (is_tcp : bool) (bearer : bytes) (remote_writes mtls_mode : Z)
    (mtls_authenticated : bool) : Z :=
  if negb is_tcp || (mtls_mode <=? 0) then server_http_conn_caps is_tcp bearer remote_writes
  else if mtls_authenticated then if SERVER_REMOTE_WRITES_FULL <=? remote_writes then CAPS_ALL else CAPS_AUTHENTICATED
  else without CAPS_READ_ONLY CAP_CHAT.

Definition server_http_enrollment_caps (c : Z) (is_tcp mtls_authenticated native_tls : bool) (bearer m path : bytes) : Z :=
  if is_tcp && negb mtls_authenticated && native_tls && negb (bool_decide (bearer = []))
     && negb (starts_with bearer (str "scope:")) && bytes_eqb m (str "POST")
  then
    if bytes_eqb path (str "/v1/cert/sign") then Z.lor c CAP_DELEGATE
    else if bytes_eqb path (str "/v1/api/enroll_bearer") then Z.lor c CAP_SESSION_ADMIN
    else c
  else c.

(** The three routes of a client that has no certificate yet. *)
Definition enrollment_route (m path : bytes) : bool :=
  bytes_eqb m (str "POST")
  && (bytes_eqb path (str "/v1/api/rotate_bearer") || bytes_eqb path (str "/v1/api/enroll_bearer")
      || bytes_eqb path (str "/v1/cert/sign")).

Definition server_http_mtls_transport_allowed (is_tcp : bool) (mtls_mode : Z) (mtls_authenticated : bool)
    (m path : bytes) : bool :=
  if negb is_tcp || (mtls_mode <? 2) || mtls_authenticated then true else enrollment_route m path.

Definition v1_route_tcp_exempt (m path : bytes) : bool :=
  bytes_eqb path (str "/v1/runner/poll") || bytes_eqb path (str "/v1/runner/respond")
  || enrollment_route m path
  || (bytes_eqb m (str "POST") && bytes_eqb path (str "/v1/workspaces"))
  || (bytes_eqb m (str "POST") && bytes_eqb path (str "/v1/workspace/mirror-sync"))
  || (bytes_eqb m (str "DELETE") && starts_with path (str "/v1/workspaces/")).

Definition v1_route_requires_uds (m path : bytes) : bool := false.

(** The tier the route asks for over TCP: none, for a data write, or for
    anything else beyond the read set. *)
Definition need_tier (m path : bytes) : Z :=
  if v1_route_is_local_only m path then SERVER_REMOTE_WRITES_DATA
  else if negb (without (v1_route_caps_lookup m path) CAPS_READ_ONLY =? 0) then SERVER_REMOTE_WRITES_FULL
  else SERVER_REMOTE_WRITES_OFF.

Definition server_http_route_allowed_caps (is_tcp : bool) (have : Z) (m path : bytes) (remote_writes : Z) : bool :=
  if is_tcp && v1_route_requires_uds m path then false
  else if is_tcp && negb (v1_route_tcp_exempt m path) && negb (need_tier m path =? SERVER_REMOTE_WRITES_OFF)
          && (remote_writes <? need_tier m path) then false
  else covers have (v1_route_caps_lookup m path).

Definition server_http_route_allowed (is_tcp : bool) (bearer m path : bytes) (remote_writes : Z) : bool :=
  server_http_route_allowed_caps is_tcp (server_http_conn_caps is_tcp bearer remote_writes) m path remote_writes.

Definition server_http_retired_global_would_allow (is_tcp : bool) (bearer : bytes) (remote_writes : Z) (m path : bytes)
    : bool :=
  if remote_writes =? SERVER_REMOTE_WRITES_OFF then false else server_http_route_allowed is_tcp bearer m path remote_writes.

(** ** The rate limit *)

Definition SHTTP_RATE_WINDOW_SECS : Z := 60.

Record server_http_rate_state_t := { window_start : Z; rate_count : Z }.

(** 0 for an admitted request, otherwise the seconds to wait. *)
Definition server_http_rate_check (st : server_http_rate_state_t) (limit_per_min now : Z)
    : Z * server_http_rate_state_t :=
  if limit_per_min <=? 0 then (0, st)
  else
    let st := if (SHTTP_RATE_WINDOW_SECS <=? now - window_start st) || (now <? window_start st)
              then {| window_start := now; rate_count := 0 |} else st in
    if rate_count st <? limit_per_min
    then (0, {| window_start := window_start st; rate_count := rate_count st + 1 |})
    else
      let retry := SHTTP_RATE_WINDOW_SECS - (now - window_start st) in
      (if 0 <? retry then retry else 1, st).

(** The checks of a run of requests at the given times: how many were
    admitted, and the state left. *)
Fixpoint rate_run (limit : Z) (times : list Z) (st : server_http_rate_state_t) : Z * server_http_rate_state_t :=
  match times with
  | [] => (0, st)
  | now :: times =>
      let '(retry, st) := server_http_rate_check st limit now in
      let '(n, st) := rate_run limit times st in
      ((if retry =? 0 then 1 else 0) + n, st)
  end.

(** What one check does: it stays in the window, or opens a new one. *)
Lemma rate_check_cases st limit now retry st' : 0 < limit -> server_http_rate_check st limit now = (retry, st') ->
  0 <= retry
  /\ ((window_start st' = window_start st /\ window_start st <= now < window_start st + SHTTP_RATE_WINDOW_SECS
       /\ rate_count st' = rate_count st + (if retry =? 0 then 1 else 0)
       /\ (retry = 0 -> rate_count st < limit))
     \/ (window_start st' = now /\ rate_count st' = 1 /\ retry = 0
        /\ ~ (window_start st <= now < window_start st + SHTTP_RATE_WINDOW_SECS))).
Proof.
  intros Hl. unfold server_http_rate_check, SHTTP_RATE_WINDOW_SECS. destruct (Z.leb_spec limit 0); [lia|].
  destruct (Z.leb_spec 60 (now - window_start st)); cbn [orb].
  { cbn [rate_count window_start]. destruct (Z.ltb_spec 0 limit); [|lia]. intros [= <- <-]. cbn. lia. }
  destruct (Z.ltb_spec now (window_start st)).
  { cbn [rate_count window_start]. destruct (Z.ltb_spec 0 limit); [|lia]. intros [= <- <-]. cbn. lia. }
  destruct (Z.ltb_spec (rate_count st) limit); [intros [= <- <-]; cbn; lia|].
  destruct (Z.ltb_spec 0 (60 - (now - window_start st))); [|lia]. intros [= <- <-].
  destruct (Z.eqb_spec (60 - (now - window_start st)) 0); lia.
Qed.

(** While the times stay in one window, it fills up to the limit. *)
Lemma rate_run_window limit times st : 0 < limit ->
  Forall (fun now => window_start st <= now < window_start st + SHTTP_RATE_WINDOW_SECS) times ->
  rate_count st <= limit ->
  (rate_run limit times st).1 + rate_count st <= limit.
Proof.
  intros Hl Ht. revert st Ht. induction times as [|now times IH]; intros st Ht Hc; cbn [rate_run]; [cbn; lia|].
  inversion_clear Ht as [|? ? Hnow Hts]. destruct (server_http_rate_check st limit now) as [retry st1] eqn:E.
  destruct (rate_check_cases _ _ _ _ _ Hl E) as [Hr [(Hw & _ & Hn & Hlt)|(_ & _ & _ & Hout)]]; [|done].
  assert (Hc1 : rate_count st1 <= limit) by (destruct (Z.eqb_spec retry 0); lia).
  specialize (IH st1). rewrite Hw in IH. specialize (IH Hts Hc1).
  destruct (rate_run limit times st1) as [n st2]. cbn [fst] in *. lia.
Qed.

(** C39: with a limit set, any run of requests within one minute, in the order
    of the clock, has at most twice the limit of them admitted, whatever the
    state it starts in: the windows are fixed, so two of them can meet in the
    minute but never three. *)
Theorem rate_limit_bound limit times st from : 0 < limit -> rate_count st <= limit -> 0 <= rate_count st ->
  StronglySorted Z.le times -> Forall (fun now => from <= now < from + SHTTP_RATE_WINDOW_SECS) times ->
  (rate_run limit times st).1 <= 2 * limit.
Proof.
  intros Hl Hc H0 Hs Hf. cut ((rate_run limit times st).1 + rate_count st <= 2 * limit); [lia|].
  revert st Hc H0. induction times as [|now times IH]; intros st Hc H0; [cbn; lia|].
  cbn [rate_run]. apply StronglySorted_inv in Hs as [Hs Hle]. inversion_clear Hf as [|? ? Hn Hft].
  destruct (server_http_rate_check st limit now) as [retry st1] eqn:E.
  destruct (rate_check_cases _ _ _ _ _ Hl E) as [Hr [(Hw & _ & Hcn & Hlt)|(Hw & Hcn & -> & _)]].
  - assert (Hc1 : rate_count st1 <= limit) by (destruct (Z.eqb_spec retry 0); lia).
    specialize (IH Hs Hft st1 Hc1). destruct (rate_run limit times st1) as [n st2]. cbn [fst] in *.
    destruct (Z.eqb_spec retry 0); lia.
  - assert (Hin : Forall (fun t => window_start st1 <= t < window_start st1 + SHTTP_RATE_WINDOW_SECS) times).
    { rewrite Hw. rewrite Forall_forall in Hle, Hft |- *. intros t Ht. specialize (Hle t Ht). specialize (Hft t Ht). lia. }
    pose proof (rate_run_window limit times st1 Hl Hin ltac:(lia)) as Hrun.
    destruct (rate_run limit times st1) as [n st2]. cbn [fst] in *. cbn. lia.
Qed.

Lemma rate_limit_bound_witness :
  (rate_run 2 [100; 101; 118; 119; 120; 121; 159]
     {| window_start := 60; rate_count := 0 |}).1 <= 4.
Proof.
  apply (rate_limit_bound 2 [100; 101; 118; 119; 120; 121; 159] {| window_start := 60; rate_count := 0 |} 100);
    [lia | cbn; lia | cbn; lia | repeat constructor; lia | repeat constructor; unfold SHTTP_RATE_WINDOW_SECS; lia].
Defined.

(** ** Which credentials match *)

(** A bearer in which no session suffix can be read. *)
Definition plain (e : bytes) : Prop := before AIMEE_SESSION_BEARER_MARKER (e ++ AIMEE_SESSION_BEARER_MARKER) = Some e.

#[global] Instance plain_dec e : Decision (plain e).
Proof. unfold plain. apply _. Defined.

(** [p] is the bearer [e], or [e] with the suffix of a session. *)
Definition spells (p e : bytes) : Prop :=
  p = e \/ exists sid, p = (e ++ AIMEE_SESSION_BEARER_MARKER ++ sid)%list /\ length sid = 32%nat
                      /\ forallb lower_hex_char sid = true.

Lemma plain_no_marker e : plain e -> before AIMEE_SESSION_BEARER_MARKER e = None.
Proof.
  intros He. destruct (before _ e) as [pre|] eqn:E; [|done]. exfalso.
  pose proof (before_mono _ _ AIMEE_SESSION_BEARER_MARKER _ E) as Hm. unfold plain in He. rewrite He in Hm.
  injection Hm as ->. apply before_some in E as [rest E]. apply (f_equal length) in E.
  rewrite !length_app in E. cbn in E. lia.
Qed.

Lemma matches_iff p e : plain e -> e <> [] -> (length e < 256)%nat ->
  server_http_bearer_matches (Some p) e = true <-> spells p e.
Proof.
  intros Hp He Hl. unfold server_http_bearer_matches, server_ct_equal, server_http_session_bearer_unbind.
  rewrite (bool_decide_eq_false_2 (e = [])) by done. cbn [default id].
  destruct p as [|c p]; [split; [done|]; intros [<-|(sid & Hs & _)]; [done | by destruct e]|].
  generalize (c :: p) as w. clear c p. intros w. unfold snprintf_s. change (4097 - 1)%nat with 4096%nat.
  assert (Hkeep : aimee_core_credential_equal (Some (take 4096 w)) (Some e) = true <-> w = e).
  { rewrite credential_equal_iff. cbn [default id]. split; [|intros Hw; rewrite Hw; apply take_ge; lia].
    intros E. rewrite <- E. symmetry. apply take_ge. apply (f_equal length) in E. rewrite length_take in E. lia. }
  destruct (before AIMEE_SESSION_BEARER_MARKER w) as [base|] eqn:Eb.
  - pose proof Eb as [sid Hw]%before_some.
    assert (Hsid : drop (length base + length AIMEE_SESSION_BEARER_MARKER) w = sid)
      by (by rewrite Hw, app_assoc, <- length_app, drop_app_length). rewrite Hsid.
    assert (Hne : w <> e) by (intros ->; rewrite plain_no_marker in Eb by done; done).
    assert (Hsp : spells w e <-> base = e /\ length sid = 32%nat /\ forallb lower_hex_char sid = true).
    { split.
      - intros [?|(sid' & Hw' & H32 & Hhex)]; [done|]. unfold plain in Hp.
        apply (before_mono _ _ sid') in Hp. rewrite <- app_assoc, <- Hw', Eb in Hp. injection Hp as ->.
        rewrite Hw in Hw'. apply app_inv_head, app_inv_head in Hw' as ->. done.
      - intros (-> & H32 & Hhex). right. exists sid. done. }
    rewrite Hsp. destruct (Nat.eqb_spec (length sid) 32) as [H32|H32]; cbn [negb orb].
    + destruct (forallb lower_hex_char sid); cbn [negb orb].
      * case_bool_decide as Hb0; cbn [orb]; [rewrite Hkeep; split; [done | by intros (-> & _)]|].
        destruct (Nat.leb_spec 4097 (length base)); cbn [orb];
          [rewrite Hkeep; split; [done | intros (-> & _); lia]|].
        cbn [Nat.ltb Nat.leb orb]. rewrite credential_equal_iff. cbn [default id]. split; [by intros -> | by intros (-> & _)].
      * rewrite Hkeep. split; [done | by intros (_ & _ & ?)].
    + rewrite Hkeep. split; [done | by intros (_ & ? & _)].
  - rewrite Hkeep. split; [by left|]. intros [?|(sid & Hw & _)]; [done|]. exfalso.
    apply (before_mono _ _ sid) in Hp. rewrite <- app_assoc, <- Hw, Eb in Hp. done.
Qed.

(** The request carries a credential that spells [e]. *)
Definition presents (auth api_key : option bytes) (e : bytes) : Prop :=
  exists p, (aimee_core_bearer_token auth = Some p \/ api_key = Some p) /\ spells p e.

Definition good_bearer (e : bytes) : Prop := plain e /\ (length e < 256)%nat.

Lemma presents_iff auth api_key e : good_bearer e -> e <> [] ->
  server_http_bearer_matches (aimee_core_bearer_token auth) e || server_http_bearer_matches api_key e = true
  <-> presents auth api_key e.
Proof.
  intros [Hp Hl] He. unfold presents. rewrite orb_true_iff. split.
  - intros [Hm|Hm].
    + destruct (aimee_core_bearer_token auth) as [p|]; [|done]. apply matches_iff in Hm; eauto.
    + destruct api_key as [p|]; [|done]. apply matches_iff in Hm; eauto.
  - intros (p & [E|E] & Hs%matches_iff); rewrite ?E; eauto.
Qed.

Lemma presents_extra auth api_key extra : Forall good_bearer extra ->
  existsb (fun e => negb (bool_decide (e = []))
    && (server_http_bearer_matches (aimee_core_bearer_token auth) e || server_http_bearer_matches api_key e)) extra = true
  <-> Exists (fun e => e <> [] /\ presents auth api_key e) extra.
Proof.
  induction 1 as [|e extra He _ IH]; [split; [done | by intros ?%Exists_nil]|].
  cbn [existsb]. rewrite orb_true_iff, IH, Exists_cons. apply or_iff_compat_r.
  rewrite andb_true_iff, negb_true_iff, bool_decide_eq_false.
  split; intros [Hn Hm]; (split; [done|]); by apply presents_iff.
Qed.

Lemma bearers_status cfg extra auth api_key session :
  Forall good_bearer (cfg :: extra) ->
  let status := server_http_authorize_multi true cfg extra auth api_key session in
  (status = 0 <-> cfg <> [] /\ Exists (fun e => e <> [] /\ presents auth api_key e) (cfg :: extra))
  /\ (status <> 0 -> status = if decide (cfg = []) then 503 else 401).
Proof.
  intros Hg status. subst status. unfold server_http_authorize_multi.
  inversion_clear Hg as [|? ? Hc He]. destruct (decide (cfg = [])) as [->|Hn].
  { destruct session; cbn; split; [split; [done | by intros []]|done| split; [done | by intros []]|done]. }
  rewrite bool_decide_eq_false_2 by done. cbn [negb]. rewrite andb_false_r. cbn [negb].
  match goal with |- context [if ?b then 0 else 401] => set (ok := b) end.
  assert (Hok : ok = true <-> Exists (fun e => e <> [] /\ presents auth api_key e) (cfg :: extra)).
  { unfold ok. rewrite orb_true_iff, presents_extra, presents_iff, Exists_cons by done.
    split; [intros [?|?]; [left | right] | intros [[_ ?]|?]; [left | right]]; done. }
  rewrite <- Hok. clearbody ok. destruct ok; split; [done | done | | done]. split; [done | by intros []].
Qed.

(** A request over TCP passes the configured bearers exactly when a
    primary is set and its Authorization or its API key spells the primary or
    an enrolled one, alone or with a session suffix; otherwise the answer is
    503 without a primary and 401 with one. *)
Theorem bearer_authorized_iff cfg extra auth api_key session :
  Forall good_bearer (cfg :: extra) ->
  let status := server_http_authorize_multi true cfg extra auth api_key session in
  (status = 0 <-> cfg <> [] /\ Exists (fun e => e <> [] /\ presents auth api_key e) (cfg :: extra))
  /\ (status <> 0 -> status = if decide (cfg = []) then 503 else 401).
Proof. apply bearers_status. Qed.

Definition sample_sid : bytes := replicate 32 97.

Lemma bearer_authorized_iff_witness :
  server_http_authorize_multi true (str "s3cret") [str "other"]
    (Some (str "Bearer s3cret.aimee-session." ++ sample_sid)) None false = 0.
Proof.
  apply (bearer_authorized_iff (str "s3cret") [str "other"]
           (Some (str "Bearer s3cret.aimee-session." ++ sample_sid)) None false).
  - repeat constructor; cbn; try lia; vm_compute; reflexivity.
  - split; [done|]. left. split; [done|]. exists (str "s3cret.aimee-session." ++ sample_sid). split.
    + left. vm_compute. reflexivity.
    + right. exists sample_sid. vm_compute. done.
Defined.

(** Replacing the primary and revoking leaves only the new primary. *)
Lemma rotation_revokes b bearer auth api_key session :
  plain (snprintf_s 256 bearer) ->
  let b' := server_http_update_primary_bearer (Some bearer) true b in
  server_http_authorize_multi true (g_bearer b') (g_bearer_extra b') auth api_key session = 0 ->
  presents auth api_key (snprintf_s 256 bearer).
Proof.
  intros Hp b' Hz. subst b'. cbn [server_http_update_primary_bearer g_bearer g_bearer_extra default] in Hz.
  assert (Hg : Forall good_bearer [snprintf_s 256 bearer])
    by (constructor; [split; [done | apply snprintf_s_length; lia] | constructor]).
  destruct (bearers_status (snprintf_s 256 bearer) [] auth api_key session Hg) as [[H0 _] _].
  destruct (H0 Hz) as [_ [[_ ?]|He%Exists_nil]%Exists_cons]; done.
Qed.

End ServerAuthz.
