(* ===== verification/ServerGate.v ===== *)
(** * The gate of a request

    What [handle_conn_impl] of [server_http.c] decides between the bytes of a
    request and its dispatch, in the order it decides it: the request line,
    the framing, the management lane, the client certificate, the write tier
    of a signed token, the grant of a certificate, the credential, the rate
    limit, the capabilities of the route, and last the spending of the token.
    Requests are taken one at a time; what the TLS layer, the certificate
    roster, the grant store and the clock answer belongs to the request. *)

From Stdlib Require Import ZArith Lia String.
From stdpp Require Import base numbers list gmap sorting.
From S2P Require Import Prelude Wire Digest Json Auth AuthToken ReplayStore ServerPolicy HttpRequest ManagementRequest WriteTier ServerAuthz.

Module ServerGate.
Import Auth AuthToken ReplayStore ServerPolicy HttpRequest ManagementRequest WriteTier ServerAuthz.

(** What the ramp from optional to required certificates answers. *)
Record ramp := { noted : Z; ramp_ready : Z; prepared : bool; advanced : Z }.

Record request := {
  is_tcp : bool; is_management : bool;
  r_bytes : bytes;
  r_ssl : bool;
  r_peer : option bytes;                      (** the serial of a verified peer *)
  r_cert : option (bool * bytes);             (** its management profile and name *)
  r_cert_status : pki_cert_status_t;
  r_ramp : ramp;
  r_grant : Z;                                (** the tier of the certificate's grant *)
  r_account : bool;                           (** the local peer is a host account *)
  r_devices : bytes -> option (option json);
  r_env : environment;
  r_now_tier : Z; r_now_rate : Z; r_now_spend : Z;
  r_outcomes : outcomes; r_reached : bool
}.

Record server := {
  s_bearers : bearers;
  s_rate : server_http_rate_state_t; s_rate_limit : Z;
  s_remote_writes : Z; s_ignored : Z;
  s_mode : Z;
  s_jtis : jti_table
}.

Definition with_mode (mode : Z) (s : server) : server :=
  {| s_bearers := s_bearers s; s_rate := s_rate s; s_rate_limit := s_rate_limit s;
     s_remote_writes := s_remote_writes s; s_ignored := s_ignored s; s_mode := mode; s_jtis := s_jtis s |}.

Definition with_rate (rate : server_http_rate_state_t) (s : server) : server :=
  {| s_bearers := s_bearers s; s_rate := rate; s_rate_limit := s_rate_limit s;
     s_remote_writes := s_remote_writes s; s_ignored := s_ignored s; s_mode := s_mode s; s_jtis := s_jtis s |}.

Definition server_http_note_global_ignored (s : server) : server :=
  {| s_bearers := s_bearers s; s_rate := s_rate s; s_rate_limit := s_rate_limit s;
     s_remote_writes := s_remote_writes s; s_ignored := u64 (s_ignored s + 1); s_mode := s_mode s;
     s_jtis := s_jtis s |}.

Definition with_jtis (t : jti_table) (s : server) : server :=
  {| s_bearers := s_bearers s; s_rate := s_rate s; s_rate_limit := s_rate_limit s;
     s_remote_writes := s_remote_writes s; s_ignored := s_ignored s; s_mode := s_mode s; s_jtis := t |}.

Inductive response := Refused (status : Z) | Proxied | Served (method path query : bytes).

(** ** The steps *)

(** [server_http_first_user_apply_cert_grant]: the return value and the tier. *)
Definition server_http_first_user_apply_cert_grant (mtls_authenticated : bool) (cert_serial : option bytes)
    (granted tier : Z) : Z * Z :=
  match cert_serial with
  | Some (_ :: _) =>
      if negb mtls_authenticated then (0, tier)
      else if granted <? 0 then (-1, tier)
      else (granted, if tier <? granted then granted else tier)
  | _ => (0, tier)
  end.

(** The mode after a presentation in the optional mode. *)
Definition ramped (a : ramp) (mode : Z) : Z :=
  if (mode =? 1) && (noted a =? 0) && (ramp_ready a =? 1) && prepared a && (advanced a =? 1) then 2 else mode.

Definition verified_peer (r : request) : option bytes := if r_ssl r then r_peer r else None.

(** The status of a refusal, or whether the management lane and the
    certificate are accepted, and the mode that holds from here. *)
Definition transport (r : request) (mode : Z) (m path : bytes) : Z + (bool * bool * Z) :=
  let peer := verified_peer r in
  let cert := match peer with Some _ => r_cert r | None => None end in
  match server_http_management_auth m path (is_management r) (bool_decide (is_Some cert))
          (default false (fst <$> cert)) (default [] (snd <$> cert)) with
  | SERVER_HTTP_MANAGEMENT_DENY => inl (if server_http_management_route m path then 401 else 403)
  | SERVER_HTTP_MANAGEMENT_ALLOW => inr (true, false, mode)
  | SERVER_HTTP_MANAGEMENT_NOT_APPLICABLE =>
      match peer with
      | Some (_ :: _) =>
          match r_cert_status r with
          | PKI_CERT_VALID => inr (false, true, ramped (r_ramp r) mode)
          | cs => inl (server_http_mtls_recheck_status cs)
          end
      | _ => inr (false, false, mode)
      end
  end.

Definition hook_of (r : request) : replay_fn := server_write_tier_replay_db1 (r_outcomes r) (r_reached r).

Definition auth_of (buf : bytes) : option bytes :=
  http_header buf (str "Authorization") (KB_IDENTITY_TOKEN_WIRE_MAX + 8).
Definition api_key_of (buf : bytes) : option bytes := http_header buf (str "x-api-key") 512.
Definition has_session_key (buf : bytes) : bool :=
  bool_decide (is_Some (http_header buf (str "X-Aimee-Session-Key") 256)).

(** The capabilities of the connection for this request. *)
Definition request_caps (r : request) (b : bearers) (tier mode : Z) (management mtls : bool) (m path : bytes) : Z :=
  let bearer := server_http_primary_bearer_snapshot b 256 in
  server_http_enrollment_caps
    (if management then 0 else server_http_effective_conn_caps (is_tcp r) bearer tier mode mtls)
    (is_tcp r) mtls (r_ssl r) bearer m path.

Section Gate.
Context `{Sha256}.
Context (json_parse : bytes -> option json).
Context {key : Type} (rsa_key : Z -> Z -> option key) (rsa_verify : key -> bytes -> bytes -> bool).
Context (load_keys : bytes -> Z -> option bytes).

(** The last step: the token is spent. *)
Definition spend_token (r : request) (claims : option aimee_identity_claims_t) (served : response) (s : server)
    : response * server :=
  match claims with
  | None => (served, s)
  | Some c =>
      let '((tier, consumed), t) :=
        server_write_tier_consume_for_request load_keys (r_env r) (hook_of r) c (r_now_spend r) (s_jtis s) in
      let s := with_jtis t s in
      if (tier =? SERVER_REMOTE_WRITES_OFF) && negb (bool_decide (consumed = SERVER_WRITE_TIER_OK))
      then (Refused 403, s) else (served, s)
  end.

(** From the credential on. *)
Definition authorize (r : request) (management mtls : bool) (mode tier : Z) (claims : option aimee_identity_claims_t)
    (buf m path query : bytes) (s : server) : response * server :=
  let caps := request_caps r (s_bearers s) tier mode management mtls m path in
  if negb (is_tcp r) && negb (r_account r) then (Refused 403, s)
  else
    let az := if management then 0
              else server_http_authorize_client_request (r_devices r) (is_tcp r) (s_bearers s) (auth_of buf)
                     (api_key_of buf) (has_session_key buf) mtls m path in
    if negb (az =? 0) then (Refused az, s)
    else
      let '(retry, rate) := if is_tcp r && negb management
                            then server_http_rate_check (s_rate s) (s_rate_limit s) (r_now_rate r)
                            else (0, s_rate s) in
      let s := with_rate rate s in
      if 0 <? retry then (Refused 429, s)
      else if is_tcp r && negb (server_http_route_allowed_caps (is_tcp r) caps m path tier) then
        (Refused 403,
         if negb management
            && server_http_retired_global_would_allow (is_tcp r)
                 (server_http_primary_bearer_snapshot (s_bearers s) 256) (s_remote_writes s) m path
         then server_http_note_global_ignored s else s)
      else spend_token r claims (Served m path query) s.

(** The head of a request, its blank line included. *)
Definition head_of (buf : bytes) : bytes :=
  match before (CRLF ++ CRLF) buf with Some pre => take (length pre + 4) buf | None => buf end.

Definition proxy_request (r : request) (m target : bytes) : bool :=
  negb (is_tcp r) && (bytes_eqb m (str "CONNECT") || starts_with target (str "http://")).

Definition handle_conn (r : request) (s : server) : response * server :=
  let buf := c_str (r_bytes r) in
  if is_management r && bool_decide (before (CRLF ++ CRLF) buf = None) then (Refused 400, s)
  else
    match request_line buf with
    | None => (Refused 400, s)
    | Some (m, target) =>
        if proxy_request r m target then (Proxied, s)
        else
          let '(path, query) := cut_query target in
          if negb (is_management r) && negb (server_http_request_framing_valid buf (zlen (r_bytes r)))
          then (Refused 400, s)
          else if is_management r && negb (management_request_valid m path (head_of buf)) then (Refused 400, s)
          else
            match transport r (s_mode s) m path with
            | inl status => (Refused status, s)
            | inr (management, mtls, mode) =>
                let s := with_mode mode s in
                if negb (server_http_mtls_transport_allowed (is_tcp r) mode (mtls || management) m path)
                then (Refused 401, s)
                else
                  let '(tier, claims) := server_http_resolve_write_tier json_parse rsa_key rsa_verify load_keys
                                           (r_env r) (hook_of r) (is_tcp r) buf (r_now_tier r) in
                  let '(granted, tier) :=
                    server_http_first_user_apply_cert_grant mtls (verified_peer r) (r_grant r) tier in
                  if granted <? 0 then (Refused 503, s)
                  else authorize r management mtls mode tier claims buf m path query s
            end
    end.

(** ** What a served request has passed *)

Abbreviation resolved r buf := (server_http_resolve_write_tier json_parse rsa_key rsa_verify load_keys
  (r_env r) (hook_of r) (is_tcp r) buf (r_now_tier r)).

Lemma spend_token_served r claims m path q s m' path' q' s' :
  spend_token r claims (Served m path q) s = (Served m' path' q', s') ->
  m' = m /\ path' = path /\ q' = q /\ s_mode s' = s_mode s /\ s_bearers s' = s_bearers s
  /\ match claims with
     | Some c => hook_of r c (r_now_spend r) (s_jtis s) = (0, s_jtis s')
     | None => s_jtis s' = s_jtis s
     end.
Proof.
  unfold spend_token. destruct claims as [c|]; [|by intros [= <- <- <- <-]].
  destruct (server_write_tier_consume_for_request _ _ _ _ _ _) as [[tier o] t] eqn:E.
  case_bool_decide as Ho; [|by rewrite (consume_for_request_denied _ _ _ _ _ _ _ _ _ E Ho)].
  rewrite andb_false_r. intros [= <- <- <- <-]. subst o. apply consume_for_request_ok in E. done.
Qed.

(** The steps, with what each has found. *)
Record passed (r : request) (s : server) (m path : bytes) (s' : server) (management mtls : bool) (tier : Z)
    (claims : option aimee_identity_claims_t) : Prop := {
  p_framed : is_management r = false ->
    server_http_request_framing_valid (c_str (r_bytes r)) (zlen (r_bytes r)) = true;
  p_lane : is_management r = true -> management_request_valid m path (head_of (c_str (r_bytes r))) = true;
  p_transport : transport r (s_mode s) m path = inr (management, mtls, s_mode s');
  p_certificate : server_http_mtls_transport_allowed (is_tcp r) (s_mode s') (mtls || management) m path = true;
  p_tier : exists tier0 granted, resolved r (c_str (r_bytes r)) = (tier0, claims) /\ 0 <= granted
    /\ server_http_first_user_apply_cert_grant mtls (verified_peer r) (r_grant r) tier0 = (granted, tier);
  p_account : is_tcp r = false -> r_account r = true;
  p_credential : management = false ->
    server_http_authorize_client_request (r_devices r) (is_tcp r) (s_bearers s) (auth_of (c_str (r_bytes r)))
      (api_key_of (c_str (r_bytes r))) (has_session_key (c_str (r_bytes r))) mtls m path = 0;
  p_route : is_tcp r = true ->
    server_http_route_allowed_caps true
      (request_caps r (s_bearers s) tier (s_mode s') management mtls m path) m path tier = true;
  p_spent : match claims with
            | Some c => hook_of r c (r_now_spend r) (s_jtis s) = (0, s_jtis s')
            | None => s_jtis s' = s_jtis s
            end
}.

Lemma authorize_served r management mtls mode tier claims buf m path query s m' path' q' s' :
  authorize r management mtls mode tier claims buf m path query s = (Served m' path' q', s') ->
  m' = m /\ path' = path /\ s_mode s' = s_mode s
  /\ (is_tcp r = false -> r_account r = true)
  /\ (management = false -> server_http_authorize_client_request (r_devices r) (is_tcp r) (s_bearers s) (auth_of buf)
                              (api_key_of buf) (has_session_key buf) mtls m path = 0)
  /\ (is_tcp r = true -> server_http_route_allowed_caps true
       (request_caps r (s_bearers s) tier mode management mtls m path) m path tier = true)
  /\ match claims with
     | Some c => hook_of r c (r_now_spend r) (s_jtis s) = (0, s_jtis s')
     | None => s_jtis s' = s_jtis s
     end.
Proof.
  unfold authorize. destruct (negb (is_tcp r) && negb (r_account r)) eqn:Ea; [done|].
  destruct (negb (_ =? 0)) eqn:Ez; [done|].
  destruct (if is_tcp r && negb management then _ else _) as [retry rate].
  destruct (0 <? retry); [done|].
  destruct (is_tcp r && negb (server_http_route_allowed_caps _ _ _ _ _)) eqn:Er; [done|].
  intros (-> & -> & _ & Hm & _ & Ht)%spend_token_served. split_and!; try done.
  - intros Htcp. rewrite Htcp in Ea. by destruct (r_account r).
  - intros ->. by apply negb_false_iff, Z.eqb_eq in Ez.
  - intros Htcp. rewrite Htcp in Er. by apply negb_false_iff in Er.
Qed.

Lemma handle_conn_served r s m path q s' : handle_conn r s = (Served m path q, s') ->
  exists management mtls tier claims, passed r s m path s' management mtls tier claims.
Proof.
  unfold handle_conn. destruct (is_management r && _) eqn:E0; [done|].
  destruct (request_line _) as [[m0 target]|] eqn:El; [|done]. destruct (proxy_request r m0 target); [done|].
  destruct (cut_query target) as [path0 query].
  destruct (negb (is_management r) && _) eqn:Ef; [done|]. destruct (is_management r && negb _) eqn:Em; [done|].
  destruct (transport r (s_mode s) m0 path0) as [|[[management mtls] mode]] eqn:Et; [done|].
  destruct (negb (server_http_mtls_transport_allowed _ _ _ _ _)) eqn:Ec; [done|].
  destruct (resolved r _) as [tier0 claims] eqn:Ev.
  destruct (server_http_first_user_apply_cert_grant _ _ _ _) as [granted tier] eqn:Eg.
  destruct (Z.ltb_spec granted 0); [done|]. intros (-> & -> & Hmode & Ha & Hz & Hr & Ht)%authorize_served.
  cbn [with_mode s_mode s_bearers s_jtis] in *. subst mode. exists management, mtls, tier, claims. constructor.
  - intros Hn. rewrite Hn in Ef. by apply negb_false_iff in Ef.
  - intros Hn. rewrite Hn in Em. by apply negb_false_iff in Em.
  - done.
  - by apply negb_false_iff in Ec.
  - by exists tier0, granted.
  - done.
  - done.
  - done.
  - done.
Qed.

(** The peer has a certificate on the roster. *)
Definition certified (r : request) : bool :=
  match verified_peer r with
  | Some (_ :: _) => match r_cert_status r with PKI_CERT_VALID => true | _ => false end
  | _ => false
  end.

(** Off the management lane. *)
Lemma transport_data r mode m path management mtls mode' : is_management r = false ->
  transport r mode m path = inr (management, mtls, mode') ->
  management = false /\ mtls = certified r /\ server_http_management_route m path = false.
Proof.
  intros Hm. unfold transport, certified, server_http_management_auth. rewrite Hm. cbn [andb orb].
  destruct (server_http_management_route m path); cbn [orb]; [done|].
  destruct (bool_decide _ && _); [done|].
  destruct (verified_peer r) as [[|c l]|]; [by intros [= <- <- _]| |by intros [= <- <- _]].
  by destruct (r_cert_status r); intros [= <- <- _].
Qed.

(** Where the tier of a request comes from: nothing, a token verified for
    this server and spent by this request, or the grant of a certificate. *)
Inductive entitled (r : request) (s s' : server) : Z -> Prop :=
  | by_nothing : entitled r s s' SERVER_REMOTE_WRITES_OFF
  | by_token c : identified json_parse rsa_key rsa_verify load_keys (r_env r)
                   (request_identity (c_str (r_bytes r))) (r_now_tier r) c ->
      hook_of r c (r_now_spend r) (s_jtis s) = (0, s_jtis s') ->
      entitled r s s' (tier_from_claims (c_tier c))
  | by_certificate : certified r = true -> 0 <= r_grant r -> entitled r s s' (r_grant r).

Lemma passed_entitled r s m path s' management tier claims :
  passed r s m path s' management (certified r) tier claims -> entitled r s s' tier.
Proof.
  intros [_ _ _ _ (tier0 & granted & Ev & Hg & Ec) _ _ _ Hs].
  assert (Ht : entitled r s s' tier0).
  { destruct (resolve_write_tier_cases json_parse rsa_key rsa_verify load_keys (r_env r) (hook_of r) (is_tcp r)
      (c_str (r_bytes r)) (r_now_tier r)) as [E|(c & E & _ & Hc)]; rewrite E in Ev; injection Ev as <- <-.
    - constructor.
    - by apply by_token. }
  unfold server_http_first_user_apply_cert_grant in Ec. unfold certified in Ec.
  destruct (verified_peer r) as [[|c l]|] eqn:Ep; [by injection Ec as _ <-| |by injection Ec as _ <-].
  destruct (r_cert_status r) eqn:Es; cbn [negb] in Ec; try by injection Ec as _ <-.
  destruct (Z.ltb_spec (r_grant r) 0); [injection Ec as <- _; lia|]. injection Ec as <- <-.
  destruct (tier0 <? r_grant r); [|done]. apply by_certificate; [|done]. unfold certified. by rewrite Ep, Es.
Qed.

Lemma entitled_nonneg r s s' tier : entitled r s s' tier -> 0 <= tier.
Proof. intros [|c _ _|_ Hg]; [done | by destruct (c_tier c) | done]. Qed.

(** The request carries a credential the server accepts. *)
Definition credentialed (r : request) (s : server) (m path : bytes) : Prop :=
  let auth := auth_of (c_str (r_bytes r)) in
  let api_key := api_key_of (c_str (r_bytes r)) in
  (g_bearer (s_bearers s) <> []
   /\ Exists (fun e => e <> [] /\ presents auth api_key e) (g_bearer (s_bearers s) :: g_bearer_extra (s_bearers s)))
  \/ ((certified r || device_route m path = true)
      /\ exists token, (aimee_core_bearer_token auth = Some token \/ api_key = Some token)
                      /\ device_accepts (r_devices r) token).

(** C3: whatever the ordinary listener serves over TCP, when every configured
    bearer is plain text below 256 bytes, is well framed, is no management
    route, and carries a configured bearer or a device's token, which alone
    reaches only enrolment and health; once certificates are required it comes
    with one on the roster or asks for an enrolment route;
    and, exempt routes apart, the tier its route asks for is covered by a
    signed token, verified for this server and spent by this very request, or
    by the grant of its certificate, whose capabilities cover the route's. *)
Theorem served_over_tcp r s m path q s' :
  Forall good_bearer (g_bearer (s_bearers s) :: g_bearer_extra (s_bearers s)) ->
  is_tcp r = true -> is_management r = false -> handle_conn r s = (Served m path q, s') ->
  server_http_request_framing_valid (c_str (r_bytes r)) (zlen (r_bytes r)) = true
  /\ server_http_management_route m path = false
  /\ credentialed r s m path
  /\ (2 <= s_mode s' -> certified r = true \/ enrollment_route m path = true)
  /\ exists tier, entitled r s s' tier
     /\ (v1_route_tcp_exempt m path = true \/ need_tier m path <= tier)
     /\ covers (request_caps r (s_bearers s) tier (s_mode s') false (certified r) m path)
          (v1_route_caps_lookup m path) = true.
Proof.
  intros Hb Ht Hm (management & mtls & tier & claims & Hp)%handle_conn_served.
  destruct (transport_data _ _ _ _ _ _ _ Hm (p_transport _ _ _ _ _ _ _ _ _ Hp)) as (-> & -> & Hr).
  pose proof (passed_entitled _ _ _ _ _ _ _ _ Hp) as He. destruct Hp as [Hf _ _ Hc _ _ Hz Hrt _].
  specialize (Hf Hm). specialize (Hz eq_refl). specialize (Hrt Ht). rewrite Ht in Hc, Hz. split_and!; try done.
  - apply client_authorized in Hz as [Hz|Hz]; [|by right]. left.
    by apply (bearers_status _ _ _ _ _ Hb) in Hz.
  - intros Hmode. unfold server_http_mtls_transport_allowed in Hc. cbn [negb orb] in Hc.
    rewrite (proj2 (Z.ltb_ge _ _) Hmode), orb_false_r in Hc. destruct (certified r); [by left | by right].
  - exists tier. unfold server_http_route_allowed_caps, v1_route_requires_uds in Hrt. cbn [andb] in Hrt.
    destruct (v1_route_tcp_exempt m path); cbn [negb andb] in Hrt; [by split_and!; [|left|]|].
    pose proof (entitled_nonneg _ _ _ _ He). destruct (Z.eqb_spec (need_tier m path) SERVER_REMOTE_WRITES_OFF) as [En|];
      cbn [negb andb] in Hrt; [split_and!; [done | right; by rewrite En | done]|].
    destruct (Z.ltb_spec tier (need_tier m path)); [done|]. by split_and!; [|right|].
Qed.

(** C15: the management lane is apart: a management route is served on its
    listener only, the listener serves nothing else, and only to a verified
    peer whose certificate has the management profile and name. *)
Theorem management_apart r s m path q s' : handle_conn r s = (Served m path q, s') ->
  server_http_management_route m path = is_management r
  /\ (is_management r = true ->
      is_Some (verified_peer r) /\ r_cert r = Some (true, str "p5-kb-management")
      /\ management_request_valid m path (head_of (c_str (r_bytes r))) = true).
Proof.
  intros (management & mtls & tier & claims & [_ Hl Ht _ _ _ _ _ _])%handle_conn_served.
  destruct (is_management r) eqn:Em; [|by apply transport_data in Ht as (_ & _ & ->)].
  unfold transport, server_http_management_auth in Ht. rewrite Em in Ht. cbn [andb orb] in Ht.
  destruct (server_http_management_route m path); [|done]. split; [done|]. intros _.
  destruct (verified_peer r) as [serial|]; [|done].
  destruct (r_cert r) as [[profile cn]|]; [|done].
  rewrite bool_decide_eq_true_2 in Ht by eauto. destruct profile; [|done].
  change (default [] (snd <$> Some (true, cn))) with cn in Ht. cbn [fmap option_fmap option_map default fst andb] in Ht.
  destruct (bytes_eqb cn (str "p5-kb-management")) eqn:Ec; [|done].
  apply bytes_eqb_true in Ec as ->. split_and!; eauto.
Qed.

(** ** Runs *)

(** What happens to the server: a request, a new primary bearer, a new list
    of enrolled ones. *)
Inductive event :=
  | Handle (r : request) | Update_primary (bearer : option bytes) (revoke_enrolled : bool)
  | Set_extra (l : list (option bytes)).

Definition with_bearers (b : bearers) (s : server) : server :=
  {| s_bearers := b; s_rate := s_rate s; s_rate_limit := s_rate_limit s; s_remote_writes := s_remote_writes s;
     s_ignored := s_ignored s; s_mode := s_mode s; s_jtis := s_jtis s |}.

Definition step (e : event) (s : server) : server :=
  match e with
  | Handle r => (handle_conn r s).2
  | Update_primary bearer revoke => with_bearers (server_http_update_primary_bearer bearer revoke (s_bearers s)) s
  | Set_extra l => with_bearers (server_http_set_bearer_extra l (s_bearers s)) s
  end.

Definition run (es : list event) (s : server) : server := fold_left (fun s e => step e s) es s.

(** The claims of the token a request carries, when it verifies. *)
Definition claims_of (r : request) : option aimee_identity_claims_t := (resolved r (c_str (r_bytes r))).2.

Definition spending_of (r : request) (c : aimee_identity_claims_t) : spending :=
  {| k_outcomes := r_outcomes r; k_reached := r_reached r; k_claims := c; k_now := r_now_spend r |}.

Lemma authorize_table r management mtls mode tier claims buf m path query s :
  s_jtis (authorize r management mtls mode tier claims buf m path query s).2 = s_jtis s
  \/ exists c, s_jtis (authorize r management mtls mode tier claims buf m path query s).2
             = (spend (spending_of r c) (s_jtis s)).2.
Proof.
  unfold authorize. destruct (negb (is_tcp r) && negb (r_account r)); [by left|]. destruct (negb (_ =? 0)); [by left|].
  destruct (if is_tcp r && negb management then _ else _) as [retry rate]. destruct (0 <? retry); [by left|].
  destruct (is_tcp r && negb _); [left; by destruct (negb management && _)|].
  unfold spend_token. destruct claims as [c|]; [|by left].
  pose proof (consume_for_request_table load_keys (r_env r) (hook_of r) c (r_now_spend r) (s_jtis s)) as Ht.
  change (s_jtis (with_rate rate s)) with (s_jtis s).
  destruct (server_write_tier_consume_for_request _ _ _ _ _ _) as [[tr o] t]. cbn [snd] in Ht.
  destruct (_ && negb _); (destruct Ht as [-> | ->]; [by left | right; by exists c]).
Qed.

Lemma handle_conn_table r s :
  s_jtis (handle_conn r s).2 = s_jtis s
  \/ exists c, s_jtis (handle_conn r s).2 = (spend (spending_of r c) (s_jtis s)).2.
Proof.
  unfold handle_conn. destruct (is_management r && _); [by left|].
  destruct (request_line _) as [[m target]|]; [|by left]. destruct (proxy_request r m target); [by left|].
  destruct (cut_query target) as [path query]. destruct (negb (is_management r) && _); [by left|].
  destruct (is_management r && negb _); [by left|].
  destruct (transport r (s_mode s) m path) as [|[[management mtls] mode]]; [by left|].
  destruct (negb _); [by left|]. destruct (resolved r _) as [tier0 claims].
  destruct (server_http_first_user_apply_cert_grant _ _ _ _) as [granted tier]. destruct (granted <? 0); [by left|].
  exact (authorize_table r management mtls mode tier claims _ m path query (with_mode mode s)).
Qed.

Lemma run_keeps es s j row : s_jtis s !! j = Some row ->
  Forall (fun e => match e with Handle r => r_now_spend r <= row_expires row | _ => True end) es ->
  s_jtis (run es s) !! j = Some row.
Proof.
  intros Hj He. revert s Hj. induction He as [|e es He _ IH]; intros s Hj; [done|]. apply IH.
  destruct e as [r| |]; cbn [step]; [|done..].
  destruct (handle_conn_table r s) as [->|(c & ->)]; [done | by apply spend_keeps].
Qed.

Lemma served_spends r s m path q s' c : handle_conn r s = (Served m path q, s') -> claims_of r = Some c ->
  spend (spending_of r c) (s_jtis s) = (0, s_jtis s').
Proof.
  intros (management & mtls & tier & claims & [_ _ _ _ (tier0 & granted & Ev & _ & _) _ _ _ Hs])%handle_conn_served Hc.
  unfold claims_of in Hc. rewrite Ev in Hc. cbn in Hc. by subst claims.
Qed.

(** C4: a signed token is served at most once: after a request is served with
    it, no later request that carries it is served, whatever requests,
    rotations of the bearers and failures of the store come between and
    whatever the two requests ask for, as long as the clock of those between is
    not ahead of the later request's. *)
Theorem token_served_once s a es b c m path q :
  Forall (fun e => match e with Handle r => r_now_spend r <= r_now_spend b | _ => True end) es ->
  claims_of a = Some c -> claims_of b = Some c -> (handle_conn a s).1 = Served m path q ->
  forall m' path' q', (handle_conn b (run es (handle_conn a s).2)).1 <> Served m' path' q'.
Proof.
  intros Ht Ha Hb Hs m' path' q' Hs'.
  destruct (handle_conn a s) as [ra s1] eqn:Ea. cbn [fst snd] in *. subst ra.
  apply served_spends with (c := c) in Ea; [|done].
  destruct (spend_ok (spending_of a c) (s_jtis s)) as (_ & _ & row & Hr & Er); [by rewrite Ea|].
  rewrite Ea in Hr. cbn [snd] in Hr.
  destruct (handle_conn b (run es s1)) as [rb s2] eqn:Eb. cbn [fst] in Hs'. subst rb.
  apply served_spends with (c := c) in Eb; [|done].
  destruct (spend_ok (spending_of b c) (s_jtis (run es s1))) as (Hn & Hlt & _); [by rewrite Eb|].
  cbn [spending_of k_claims k_now] in *.
  assert (Hkeep : s_jtis (run es s1) !! c_jti c = Some row).
  { apply run_keeps; [done|]. eapply Forall_impl; [exact Ht|]. intros [r| |]; cbn; [|done..]. rewrite Er. lia. }
  apply (gc_lookup (r_now_spend b)) in Hkeep; [congruence | rewrite Er; lia].
Qed.

End Gate.

(** ** Samples *)

(** Computed by evaluation, as in the other samples. *)
Definition sample_env : environment :=
  {| AIMEE_SERVER_ID := Some (str "srv"); AIMEE_SERVER_TEAM_ID := Some (str "7"); managed_metadata := None;
     AIMEE_SERVER_MGMT_JWKS_TRUST_BUNDLE := Some (str "/trust") |}.

Definition sample_load (path : bytes) (now : Z) : option bytes := Some sample_jwks.

Definition line_of (l : bytes) : bytes := (l ++ CRLF)%list.

(** A remote caller stores a memory, with a bearer and a signed token. *)
Definition sample_text : bytes :=
  (line_of (str "POST /v1/memory/store HTTP/1.1") ++ line_of (str "Host: a") ++ line_of (str "x-api-key: s3cret")
   ++ line_of (str "Authorization: Bearer " ++ sample_token) ++ CRLF)%list.

Definition sample_request (now : Z) : request :=
  {| is_tcp := true; is_management := false; r_bytes := sample_text; r_ssl := true; r_peer := None; r_cert := None;
     r_cert_status := PKI_CERT_UNKNOWN; r_ramp := {| noted := 1; ramp_ready := 0; prepared := false; advanced := 0 |};
     r_grant := 0; r_account := false; r_devices := fun _ => None; r_env := sample_env; r_now_tier := now;
     r_now_rate := now; r_now_spend := now; r_outcomes := all_ok; r_reached := true |}.

Definition sample_server : server :=
  {| s_bearers := {| g_bearer := str "s3cret"; g_bearer_extra := [] |};
     s_rate := {| window_start := 0; rate_count := 0 |}; s_rate_limit := 10; s_remote_writes := 0; s_ignored := 0;
     s_mode := 0; s_jtis := ∅ |}.

Abbreviation sample_gate := (@handle_conn toy sample_parse (Z * Z) sample_rsa sample_check sample_load).

Lemma sample_served : exists s', sample_gate (sample_request 150) sample_server
                              = (Served (str "POST") (str "/v1/memory/store") [], s').
Proof. eexists. vm_compute. reflexivity. Qed.

Lemma served_over_tcp_witness : exists s' tier,
  entitled sample_parse sample_rsa sample_check sample_load (sample_request 150) sample_server s' tier
  /\ need_tier (str "POST") (str "/v1/memory/store") <= tier.
Proof.
  destruct sample_served as [s' Hs].
  destruct (@served_over_tcp toy sample_parse (Z * Z) sample_rsa sample_check sample_load (sample_request 150) sample_server
              (str "POST") (str "/v1/memory/store") [] s') as (_ & _ & _ & _ & tier & He & Ht & _).
  - constructor; [|constructor]. split; [vm_compute; reflexivity | cbn; lia].
  - reflexivity.
  - reflexivity.
  - exact Hs.
  - exists s', tier. split; [exact He|]. destruct Ht as [Ht|Ht]; [vm_compute in Ht; discriminate | exact Ht].
Defined.

Lemma token_served_once_witness :
  (sample_gate (sample_request 160)
     (@run toy sample_parse (Z * Z) sample_rsa sample_check sample_load
        [Update_primary (Some (str "s3cret")) true; Handle (sample_request 155)]
        (sample_gate (sample_request 150) sample_server).2)).1
  <> Served (str "POST") (str "/v1/memory/store") [].
Proof.
  apply (@token_served_once toy sample_parse (Z * Z) sample_rsa sample_check sample_load sample_server (sample_request 150)
           [Update_primary (Some (str "s3cret")) true; Handle (sample_request 155)] (sample_request 160) sample_claims
           (str "POST") (str "/v1/memory/store") []).
  - repeat constructor. cbn. lia.
  - vm_compute. reflexivity.
  - vm_compute. reflexivity.
  - vm_compute. reflexivity.
Defined.

(** The management authority asks for the health of the server. *)
Definition sample_health : bytes :=
  (line_of (str "GET /v1/management/health HTTP/1.1") ++ line_of (str "Host: a")
   ++ line_of (str "Content-Type: application/json") ++ line_of (str "Content-Length: 0")
   ++ line_of (str "Connection: keep-alive") ++ line_of (str "X-Aimee-Management-Status: {}") ++ CRLF)%list.

Definition sample_management : request :=
  {| is_tcp := true; is_management := true; r_bytes := sample_health; r_ssl := true; r_peer := Some (str "0a");
     r_cert := Some (true, str "p5-kb-management"); r_cert_status := PKI_CERT_UNKNOWN;
     r_ramp := {| noted := 1; ramp_ready := 0; prepared := false; advanced := 0 |}; r_grant := 0; r_account := false;
     r_devices := fun _ => None; r_env := sample_env; r_now_tier := 150; r_now_rate := 150; r_now_spend := 150;
     r_outcomes := all_ok; r_reached := true |}.

Lemma management_apart_witness : is_Some (verified_peer sample_management).
Proof.
  destruct (@management_apart toy sample_parse (Z * Z) sample_rsa sample_check sample_load sample_management sample_server
              (str "GET") (str "/v1/management/health") [] sample_server) as [_ Hm].
  - vm_compute. reflexivity.
  - destruct Hm as [Hm _]; [reflexivity | exact Hm].
Defined.

End ServerGate.
