(* ===== verification/CText.v ===== *)
(** * C text

    The searches of [string.h] on the text of a C string, shared by the
    guardrails: prefixes, the first occurrence of a pattern, the last
    occurrence of a character, the segments between slashes. *)

From Stdlib Require Import ZArith Lia.
From stdpp Require Import base numbers list.
From S2P Require Import Prelude.

Module CText.

(** [strncmp(s, p, strlen(p)) == 0]. *)
Fixpoint begins (s p : bytes) {struct p} : bool :=
  match p, s with
  | [], _ => true
  | a :: p, b :: s => (b =? a) && begins s p
  | _ :: _, [] => false
  end.

(** [strstr(s, p)]: the text from the first occurrence on. *)
Fixpoint strstr (s p : bytes) : option bytes :=
  if begins s p then Some s else match s with [] => None | _ :: r => strstr r p end.

Definition contains (s p : bytes) : bool := bool_decide (is_Some (strstr s p)).

(** [strrchr(s, c)]: what precedes the last occurrence and what follows it. *)
Fixpoint strrchr (c : Z) (s : bytes) : option (bytes * bytes) :=
  match s with
  | [] => None
  | d :: r =>
      match strrchr c r with
      | Some (a, b) => Some (d :: a, b)
      | None => if d =? c then Some ([], r) else None
      end
  end.

(** [isspace] in the C locale. *)
Definition isspace (c : Z) : bool := (c =? 32) || ((9 <=? c) && (c <=? 13)).

Fixpoint drop_while (f : Z -> bool) (s : bytes) : bytes :=
  match s with c :: r => if f c then drop_while f r else s | [] => [] end.

(** [strtok_r(s, "/")]: the segments that are not empty. *)
Fixpoint cut_at (c : Z) (s : bytes) : list bytes :=
  match s with
  | [] => [[]]
  | d :: r =>
      if d =? c then [] :: cut_at c r
      else match cut_at c r with w :: ws => (d :: w) :: ws | [] => [[d]] end
  end.

Definition segments (s : bytes) : list bytes := List.filter (fun w => negb (bool_decide (w = []))) (cut_at 47 s).

(** ** Facts *)

Lemma begins_iff s p : begins s p = true <-> exists r, s = (p ++ r)%list.
Proof.
  revert s. induction p as [|a p IH]; intros s; cbn [begins app]; [split; [intros _; by exists s | done]|].
  destruct s as [|b s]; [split; [done | by intros [r ?]]|].
  rewrite andb_true_iff, Z.eqb_eq, IH. split.
  - intros [-> [r ->]]. by exists r.
  - intros [r [= -> ->]]. split; [done | by exists r].
Qed.

Lemma strstr_some s p t : strstr s p = Some t -> exists a, s = (a ++ t)%list /\ begins t p = true.
Proof.
  induction s as [|c s IH]; cbn [strstr].
  - destruct (begins [] p) eqn:E; [|done]. intros [= <-]. by exists [].
  - destruct (begins (c :: s) p) eqn:E; [intros [= <-]; by exists []|].
    intros (a & -> & Hb)%IH. by exists (c :: a).
Qed.

(** The text from the first occurrence on, and nothing earlier. *)
Lemma strstr_first s p t : strstr s p = Some t <->
  exists a, s = (a ++ t)%list /\ begins t p = true
    /\ forall a' b, s = (a' ++ p ++ b)%list -> (length a <= length a')%nat.
Proof.
  revert t. induction s as [|c s IH]; intros t; cbn [strstr].
  - destruct (begins [] p) eqn:E; (split; [|intros (a & Ha & Hb & _)]).
    + intros [= <-]. exists []. split_and!; [done..|]. cbn. lia.
    + symmetry in Ha. apply app_nil in Ha as [_ ->]. done.
    + done.
    + symmetry in Ha. apply app_nil in Ha as [_ ->]. congruence.
  - destruct (begins (c :: s) p) eqn:E.
    + split.
      * intros [= <-]. exists []. split_and!; [done..|]. cbn. lia.
      * intros (a & Ha & _ & Hm). apply begins_iff in E as [b Hb]. specialize (Hm [] b Hb). cbn in Hm.
        destruct a; [|cbn in Hm; lia]. cbn in Ha. congruence.
    + rewrite IH. split.
      * intros (a & -> & Hb & Hm). exists (c :: a). split_and!; [done..|]. intros [|d a'] b Hs.
        -- cbn in Hs. assert (begins (c :: a ++ t) p = true) by (apply begins_iff; by exists b). congruence.
        -- injection Hs as -> Hs. apply Hm in Hs. cbn. lia.
      * intros (a & Ha & Hb & Hm). destruct a as [|d a]; [cbn in Ha; congruence|]. injection Ha as <- ->.
        exists a. split_and!; [done..|]. intros a' b Hs. specialize (Hm (c :: a') b). cbn in Hm. rewrite Hs in Hm.
        specialize (Hm eq_refl). lia.
Qed.

Lemma contains_iff s p : contains s p = true <-> exists a b, s = (a ++ p ++ b)%list.
Proof.
  unfold contains. rewrite bool_decide_eq_true. split.
  - intros [t (a & -> & (b & ->)%begins_iff)%strstr_some]. by exists a, b.
  - intros (a & b & ->). induction a as [|c a IH]; cbn [app].
    + exists (p ++ b). assert (begins (p ++ b) p = true) as E by (apply begins_iff; by exists b).
      destruct (p ++ b); cbn [strstr]; by rewrite E.
    + cbn [strstr]. destruct (begins (c :: a ++ p ++ b) p); [by eexists | exact IH].
Qed.

Lemma contains_cons c s p : contains (c :: s) p = begins (c :: s) p || contains s p.
Proof.
  unfold contains. cbn [strstr]. destruct (begins (c :: s) p); [|done]. by apply bool_decide_eq_true_2.
Qed.

Lemma contains_false s p : contains s p = false <-> forall a b, s <> (a ++ p ++ b)%list.
Proof.
  rewrite <- not_true_iff_false, contains_iff. split; [intros H a b ?; apply H; by exists a, b|].
  by intros H (a & b & ?); apply (H a b).
Qed.

Lemma strrchr_none c s : strrchr c s = None <-> ~ c ∈ s.
Proof.
  induction s as [|d s IH]; cbn [strrchr]; [split; [intros _ ?%elem_of_nil; done | done]|].
  rewrite not_elem_of_cons, <- IH. destruct (strrchr c s) as [[a b]|]; [split; [done | by intros [_ ?]]|].
  destruct (Z.eqb_spec d c) as [->|Hd]; [split; [done | by intros [? _]]|]. split; [|done]. split; [congruence | done].
Qed.

Lemma strrchr_some c s a b : strrchr c s = Some (a, b) <-> s = (a ++ c :: b)%list /\ ~ c ∈ b.
Proof.
  split.
  - revert a. induction s as [|d s IH]; intros a; cbn [strrchr]; [done|].
    destruct (strrchr c s) as [[a' b']|] eqn:E.
    + intros [= <- <-]. destruct (IH a' eq_refl) as [-> ?]. done.
    + destruct (Z.eqb_spec d c) as [->|]; [|done]. intros [= <- <-]. by rewrite <- strrchr_none.
  - intros [-> Hb]. induction a as [|d a IH]; cbn [app strrchr].
    + by rewrite (proj2 (strrchr_none c b) Hb), Z.eqb_refl.
    + by rewrite IH.
Qed.

(** A pattern that stands after a byte it does not hold is found there, or
    earlier and whole. *)
Lemma strstr_after u c p t : p <> [] -> ~ c ∈ p ->
  strstr (u ++ c :: p ++ t) p = Some (p ++ t)
  \/ exists u1 u2, u = (u1 ++ p ++ u2)%list /\ strstr (u ++ c :: p ++ t) p = Some (p ++ u2 ++ c :: p ++ t).
Proof.
  intros Hp Hc. assert (Hself : strstr (p ++ t) p = Some (p ++ t)).
  { assert (E : begins (p ++ t) p = true) by (apply begins_iff; by exists t). destruct (p ++ t); cbn [strstr]; by rewrite E. }
  induction u as [|d u IH]; cbn [app strstr].
  - left. destruct (begins (c :: p ++ t) p) eqn:E; [|exact Hself]. exfalso. destruct p as [|a p]; [done|].
    cbn [begins] in E. apply andb_true_iff in E as [->%Z.eqb_eq _]. apply Hc. by left.
  - destruct (begins (d :: u ++ c :: p ++ t) p) eqn:E.
    + right. apply begins_iff in E as [r E]. rewrite app_comm_cons in E.
      apply app_eq_inv in E as [(k & Ek & _)|(k & Ek & Er)].
      * exists [], k. split; [done|]. by rewrite app_comm_cons, Ek, <- app_assoc.
      * destruct k as [|x k]; cbn [app] in Er.
        -- rewrite app_nil_r in Ek. exists [], []. rewrite app_nil_r. split; [done|]. by rewrite app_comm_cons, <- Ek.
        -- exfalso. injection Er as <- _. apply Hc. rewrite Ek. apply elem_of_app. right. by left.
    + destruct IH as [IH | (u1 & u2 & -> & IH)]; [by left|]. right. by exists (d :: u1), u2.
Qed.

Lemma drop_while_to f u c y : f c = false ->
  exists v, drop_while f (u ++ c :: y) = (v ++ c :: y)%list /\ (length v <= length u)%nat.
Proof.
  intros Hc. induction u as [|d u (v & E & Hv)]; cbn [app drop_while].
  - rewrite Hc. by exists [].
  - destruct (f d); [exists v | exists (d :: u)]; split; cbn [length]; done || lia.
Qed.

End CText.
