(* ===== verification/Guardrails.v ===== *)
(** * Guardrails on paths and commands

    The checks of [modules/guardrails/guardrails.c] on what an agent is about
    to touch: the policy lists and their loading, the sensitivity of a path,
    the resolution of a path before it is compared, the classification of a
    shell command as a write, and the scanner for broken C strings.  The file
    system ([realpath], the policy file), the environment and the code index
    are parameters; memory for small copies does not run out, and the buffers
    handed in have room for two bytes. *)

From Stdlib Require Import ZArith Lia String.
From stdpp Require Import base numbers list relations.
From S2P Require Import Prelude Json CText.

Module Guardrails.
Import CText.

(** ** C strings that run over a line *)

Inductive mode := IN_CODE | IN_STRING | IN_CHAR | IN_LINE_COMMENT | IN_BLOCK_COMMENT.

(** The loop over the bytes from [p] on, with the terminator beyond them.  A
    backslash that ends the text inside a literal moves [p] past the
    terminator: the next read is outside the text, and there is no answer. *)
Fixpoint source_loop (m : mode) (p : bytes) : option bool :=
  match p with
  | [] => Some false
  | c :: r =>
      match m with
      | IN_BLOCK_COMMENT =>
          if c =? 42 then match r with d :: r' => if d =? 47 then source_loop IN_CODE r' else source_loop m r
                          | [] => Some false end
          else source_loop m r
      | IN_LINE_COMMENT => source_loop (if c =? 10 then IN_CODE else m) r
      | IN_CHAR =>
          if c =? 92 then match r with _ :: r' => source_loop m r' | [] => None end
          else source_loop (if c =? 39 then IN_CODE else m) r
      | IN_STRING =>
          if c =? 92 then match r with _ :: r' => source_loop m r' | [] => None end
          else if c =? 34 then source_loop IN_CODE r
          else if c =? 10 then Some true
          else source_loop m r
      | IN_CODE =>
          if c =? 47 then
            match r with
            | d :: r' => if d =? 47 then source_loop IN_LINE_COMMENT r'
                         else if d =? 42 then source_loop IN_BLOCK_COMMENT r'
                         else source_loop m r
            | [] => Some false
            end
          else source_loop (if c =? 39 then IN_CHAR else if c =? 34 then IN_STRING else m) r
      end
  end.

Definition c_source_has_bare_string_newline (content : option bytes) : option bool :=
  match content with None => Some false | Some s => source_loop IN_CODE s end.

(** ** The policy *)

Definition POLICY_MAX_ITEMS : nat := 64.
Definition MAX_PATH_LEN : nat := 4096.

Abbreviation policy_list_t := (list bytes).

Record guardrail_policy_t := {
  sensitive_patterns : policy_list_t; sensitive_exact : policy_list_t; db_extensions : policy_list_t;
  path_denies : policy_list_t; write_cmds : policy_list_t; git_write_cmds : policy_list_t;
  package_cmds : policy_list_t;
  loaded_path : bytes; loaded_mtime : Z; loaded_exists : bool; valid : bool
}.

Definition default_sensitive_patterns : policy_list_t :=
  map str [".env"; ".env."; "credentials"; "secrets"; "password"; ".key"; ".pem"; ".crt"; ".p12"; ".pfx"]%string.
Definition default_sensitive_exact : policy_list_t :=
  map str [".env"; ".env.local"; ".env.production"; "credentials.json"; "secrets.json"; "id_rsa"; "id_ed25519"]%string.
Definition default_db_extensions : policy_list_t := map str [".db"; ".sqlite"; ".sqlite3"]%string.
Definition default_path_denies : policy_list_t :=
  map str [".ssh/"; ".gnupg/"; ".aws/credentials"; ".env"; "/etc/shadow"; "/etc/passwd"]%string.
Definition default_write_cmds : policy_list_t :=
  (map str ["rm "%string] ++ [str "rm" ++ [9]]
   ++ map str ["rmdir "; "mv "; "cp "; "chmod "; "chown "; "mkdir "; "touch "; "tee "; "dd "; "ln "; "truncate ";
               "install "]%string)%list.
Definition default_git_write_cmds : policy_list_t :=
  map str ["git commit"; "git push"; "git pull"; "git fetch"; "git clone"; "git reset"; "git checkout"; "git rebase";
           "git merge"; "git stash"; "git clean"; "git branch -d"; "git branch -D"; "git tag"; "git add";
           "git restore"; "git rm"; "git mv"]%string.
Definition default_package_cmds : policy_list_t :=
  map str ["pip install"; "pip uninstall"; "npm install"; "npm uninstall"; "apt-get install"; "apt install";
           "cargo install"; "go install"; "dnf install"; "dnf remove"; "dnf erase"; "dnf upgrade"; "dnf update";
           "yum install"; "yum remove"; "yum erase"; "yum upgrade"; "yum update"; "rpm -i"; "rpm -e"; "rpm -U";
           "rpm --install"; "rpm --erase"; "rpm --upgrade"]%string.

Definition policy_list_clear : policy_list_t := [].

Definition policy_list_add_literals (l items : policy_list_t) : policy_list_t :=
  (l ++ take (POLICY_MAX_ITEMS - length l) items)%list.

Definition policy_reset_locked : guardrail_policy_t :=
  {| sensitive_patterns := policy_list_clear; sensitive_exact := policy_list_clear;
     db_extensions := policy_list_clear; path_denies := policy_list_clear; write_cmds := policy_list_clear;
     git_write_cmds := policy_list_clear; package_cmds := policy_list_clear; loaded_path := []; loaded_mtime := 0;
     loaded_exists := false; valid := false |}.

Definition policy_load_defaults_locked (g : guardrail_policy_t) : guardrail_policy_t :=
  {| sensitive_patterns := policy_list_add_literals (sensitive_patterns g) default_sensitive_patterns;
     sensitive_exact := policy_list_add_literals (sensitive_exact g) default_sensitive_exact;
     db_extensions := policy_list_add_literals (db_extensions g) default_db_extensions;
     path_denies := policy_list_add_literals (path_denies g) default_path_denies;
     write_cmds := policy_list_add_literals (write_cmds g) default_write_cmds;
     git_write_cmds := policy_list_add_literals (git_write_cmds g) default_git_write_cmds;
     package_cmds := policy_list_add_literals (package_cmds g) default_package_cmds;
     loaded_path := loaded_path g; loaded_mtime := loaded_mtime g; loaded_exists := loaded_exists g;
     valid := valid g |}.

(** The strings of the array under the key replace the list. *)
Definition policy_load_json_list (l : policy_list_t) (root : option json) (k : string) : policy_list_t :=
  match cJSON_GetObjectItemCaseSensitive root (str k) with
  | Some (JArray items) =>
      take POLICY_MAX_ITEMS
        (omap (fun i => match i with JString (c :: r) => Some (c :: r) | _ => None end) items)
  | _ => l
  end.

Definition policy_load_json (g : guardrail_policy_t) (root : option json) : guardrail_policy_t :=
  {| sensitive_patterns := policy_load_json_list (sensitive_patterns g) root "sensitive_patterns";
     sensitive_exact := policy_load_json_list (sensitive_exact g) root "sensitive_exact";
     db_extensions := policy_load_json_list (db_extensions g) root "db_extensions";
     path_denies := policy_load_json_list (path_denies g) root "path_denies";
     write_cmds := policy_load_json_list (write_cmds g) root "write_commands";
     git_write_cmds := policy_load_json_list (git_write_cmds g) root "git_write_commands";
     package_cmds := policy_load_json_list (package_cmds g) root "package_commands";
     loaded_path := loaded_path g; loaded_mtime := loaded_mtime g; loaded_exists := loaded_exists g;
     valid := valid g |}.

Definition with_loaded (g : guardrail_policy_t) (path : bytes) (mtime : Z) (exists_ : bool) : guardrail_policy_t :=
  {| sensitive_patterns := sensitive_patterns g; sensitive_exact := sensitive_exact g;
     db_extensions := db_extensions g; path_denies := path_denies g; write_cmds := write_cmds g;
     git_write_cmds := git_write_cmds g; package_cmds := package_cmds g; loaded_path := path;
     loaded_mtime := mtime; loaded_exists := exists_; valid := true |}.

(** The override of the environment, else the file of the home directory. *)
Definition guardrails_policy_path (override config_dir : option bytes) : bytes :=
  match override, config_dir with
  | Some (c :: r), _ => snprintf_s MAX_PATH_LEN (c :: r)
  | _, Some (c :: r) => snprintf_s MAX_PATH_LEN ((c :: r) ++ str "/guardrails.json")
  | _, _ => []
  end.

(** What the file system and the reader say of the policy file: its time and
    the tree of its contents, when they can be read. *)
Record policy_file := { pf_mtime : Z; pf_tree : option json }.

Definition guardrails_policy_ensure_loaded (path : bytes) (stat : option policy_file) (g : guardrail_policy_t)
    : guardrail_policy_t :=
  let found := match path with [] => None | _ => stat end in
  let exists_ := bool_decide (is_Some found) in
  let mtime := default 0 (pf_mtime <$> found) in
  if valid g && bytes_eqb (loaded_path g) path && Bool.eqb (loaded_exists g) exists_
     && (negb exists_ || (loaded_mtime g =? mtime))
  then g
  else
    let g := policy_load_defaults_locked policy_reset_locked in
    let g := match found with
             | Some f => if cJSON_IsObject (pf_tree f) then policy_load_json g (pf_tree f) else g
             | None => g
             end in
    with_loaded g path mtime exists_.

Definition guardrails_policy_reset (g : guardrail_policy_t) : guardrail_policy_t := policy_reset_locked.

Definition policy_list_matches_exact (l : policy_list_t) (value : bytes) : bool := existsb (bytes_eqb value) l.
Definition policy_list_matches_substring (l : policy_list_t) (value : bytes) : bool := existsb (contains value) l.
Definition policy_list_matching_substring (l : policy_list_t) (value : bytes) : option bytes := find (contains value) l.
Definition policy_list_matches_prefix (l : policy_list_t) (value : bytes) : bool := existsb (begins value) l.

(** ** The sensitivity of a path *)

Inductive severity_t := SEV_GREEN | SEV_YELLOW | SEV_AMBER | SEV_RED | SEV_BLOCK.

Definition severity_rank (s : severity_t) : Z :=
  match s with SEV_GREEN => 0 | SEV_YELLOW => 1 | SEV_AMBER => 2 | SEV_RED => 3 | SEV_BLOCK => 4 end.

Record classification_t := { c_path : bytes; c_severity : severity_t; c_reason : bytes }.

Definition basename_of (path : bytes) : bytes :=
  match strrchr 47 path with Some (_, b) => b | None => path end.

Definition is_env_template (filename : bytes) : bool :=
  bytes_eqb filename (str ".env.example") || bytes_eqb filename (str ".env.sample")
  || bytes_eqb filename (str ".env.template").

Definition has_db_extension (g : guardrail_policy_t) (filename : bytes) : bool :=
  match strrchr 46 filename with
  | Some (_, ext) => policy_list_matches_exact (db_extensions g) (46 :: ext)
  | None => false
  end.

Definition is_sensitive_file (g : guardrail_policy_t) (path : bytes) : bool :=
  if is_env_template (basename_of path) then false
  else policy_list_matches_substring (sensitive_patterns g) path.

Definition classify_path_sensitivity (g : guardrail_policy_t) (file_path : bytes) : classification_t :=
  let path := snprintf_s MAX_PATH_LEN file_path in
  let out := fun sev reason => {| c_path := path; c_severity := sev; c_reason := snprintf_s 256 reason |} in
  let fname := basename_of file_path in
  if is_env_template fname then out SEV_GREEN []
  else if policy_list_matches_exact (sensitive_exact g) fname then out SEV_BLOCK (str "sensitive file")
  else
    match policy_list_matching_substring (sensitive_patterns g) fname with
    | Some pattern => out SEV_BLOCK (str "sensitive file pattern: " ++ pattern)%list
    | None => if has_db_extension g fname then out SEV_RED (str "database file") else out SEV_GREEN []
    end.

(** [dependents] is what the code index answers, when it does. *)
Definition classify_path (g : guardrail_policy_t) (dependents : option Z) (file_path : bytes) : classification_t :=
  let result := classify_path_sensitivity g file_path in
  if severity_rank SEV_RED <=? severity_rank (c_severity result) then result
  else
    let out := fun sev text n =>
      {| c_path := c_path result; c_severity := sev;
         c_reason := snprintf_s 256 (str text ++ dec_u64 n ++ str " dependents")%list |} in
    match dependents with
    | Some n =>
        if 5 <=? n then out SEV_RED "High blast radius: "%string n
        else if 1 <=? n then out SEV_YELLOW "Moderate blast radius: "%string n
        else result
    | None => result
    end.

(** ** The resolution of a path *)

Section Paths.
(** The canonical path of what exists. *)
Context (realpath : bytes -> option bytes).

(** One segment on the stack of at most 256. *)
Definition push_segment (stack : list bytes) (seg : bytes) : list bytes :=
  if bytes_eqb seg (str ".") then stack
  else if bytes_eqb seg (str "..") then take (length stack - 1) stack
  else if (length stack <? 256)%nat then (stack ++ [seg])%list else stack.

(** Writing the segments, each after a slash, while there is room. *)
Fixpoint write_segments (buf_len : nat) (segs : list bytes) (buf : bytes) : bytes :=
  match segs with
  | [] => buf
  | s :: segs =>
      if negb (length buf <? buf_len - 2)%nat then buf
      else
        let buf := (buf ++ [47])%list in
        if (buf_len <=? length buf + length s)%nat then buf else write_segments buf_len segs (buf ++ s)%list
  end.

Definition collapse (buf_len : nat) (buf : bytes) : bytes :=
  let out := write_segments buf_len (fold_left push_segment (segments (snprintf_s MAX_PATH_LEN buf)) []) [] in
  match out with [] => if (1 <? buf_len)%nat then [47] else [] | _ => out end.

(** The path before it is looked up. *)
Definition expand (home : option bytes) (cwd : option bytes) (path : bytes) (buf_len : nat) : bytes :=
  match path with
  | 126 :: r =>
      if match r with [] => true | d :: _ => d =? 47 end
      then match home with Some h => snprintf_s buf_len (h ++ r)%list | None => snprintf_s buf_len path end
      else match cwd with Some (c :: w) => snprintf_s buf_len ((c :: w) ++ 47 :: path)%list
           | _ => snprintf_s buf_len path end
  | 47 :: _ => snprintf_s buf_len path
  | _ => match cwd with Some (c :: w) => snprintf_s buf_len ((c :: w) ++ 47 :: path)%list
         | _ => snprintf_s buf_len path end
  end.

(** The directory is resolved when the file is not there. *)
Definition resolve_parent (buf : bytes) (buf_len : nat) : bytes :=
  match strrchr 47 (snprintf_s MAX_PATH_LEN buf) with
  | Some (c :: dir, name) =>
      match realpath (c :: dir) with
      | Some resolved => snprintf_s buf_len (resolved ++ 47 :: name)%list
      | None => buf
      end
  | _ => buf
  end.

Definition normalize_path (home : option bytes) (path : option bytes) (cwd : option bytes) (buf_len : nat) : bytes :=
  match path with
  | None | Some [] => []
  | Some path =>
      let buf := expand home cwd path buf_len in
      match realpath buf with
      | Some resolved => snprintf_s buf_len resolved
      | None =>
          let buf := resolve_parent buf buf_len in
          if contains buf (str "/./") || contains buf (str "/../") then collapse buf_len buf else buf
      end
  end.

Inductive path_error := EMPTY_PATH | TRAVERSAL | PATH_TOO_LONG | UNRESOLVED_PARENT | SENSITIVE | NO_ROOM.

Definition traverses (path : bytes) : bool :=
  contains path (str "/../") || bool_decide (strstr path (str "/..") = Some (str "/.."))
  || begins path (str "../") || bytes_eqb path (str "..").

(** The canonical path, also of a file that is not there yet. *)
Definition canonical_of (path : bytes) : path_error + bytes :=
  match realpath path with
  | Some c => inr c
  | None =>
      if (MAX_PATH_LEN <=? length path)%nat then inl PATH_TOO_LONG
      else
        let '(parent, name) :=
          match strrchr 47 path with
          | Some ([], b) => (str "/", b)
          | Some (a, b) => (a, b)
          | None => (str ".", path)
          end in
        if bool_decide (name = []) then inl UNRESOLVED_PARENT
        else match realpath parent with
             | None => inl UNRESOLVED_PARENT
             | Some dir =>
                 let full := (dir ++ (if bool_decide (last dir = Some 47) then [] else [47]) ++ name)%list in
                 if (MAX_PATH_LEN <=? length full)%nat then inl PATH_TOO_LONG else inr full
             end
  end.

Definition guardrails_check_sensitive_path (g : guardrail_policy_t) (path : bytes) (resolved_len : nat)
    : path_error + bytes :=
  if bool_decide (path = []) || (resolved_len =? 0)%nat then inl EMPTY_PATH
  else if traverses path then inl TRAVERSAL
  else
    match canonical_of path with
    | inl e => inl e
    | inr canonical =>
        if severity_rank SEV_RED <=? severity_rank (c_severity (classify_path_sensitivity g canonical))
        then inl SENSITIVE
        else if existsb (contains canonical) (path_denies g) then inl SENSITIVE
        else if (resolved_len <? length canonical + 1)%nat then inl NO_ROOM
        else inr canonical
    end.
End Paths.

(** ** Commands *)

(** The copy with the text between quotes, and escaped characters, blanked;
    [room] is what can still be written before the terminator. *)
Fixpoint mask_loop (quote : Z) (p : bytes) (room : nat) : bytes :=
  match p, room with
  | [], _ | _, O => []
  | c :: r, S room =>
      if quote =? 39 then
        if c =? 39 then c :: mask_loop 0 r room else 32 :: mask_loop quote r room
      else if (c =? 92) && negb (bool_decide (r = [])) then
        match room, r with
        | S room, _ :: r' => 32 :: 32 :: mask_loop quote r' room
        | _, _ => [32]
        end
      else if quote =? 34 then
        if c =? 34 then c :: mask_loop 0 r room else 32 :: mask_loop quote r room
      else if (c =? 39) || (c =? 34) then c :: mask_loop c r room
      else c :: mask_loop 0 r room
  end.

Definition mask_quoted_regions (inp : bytes) (outcap : nat) : bytes := mask_loop 0 inp (outcap - 1).

Definition redirection_target_is_dev_null (p : bytes) : bool :=
  let p := drop_while isspace (drop_while (fun c => (c =? 62) || (c =? 60)) p) in
  begins p (str "/dev/null")
  && match drop 9 p with
     | [] => true
     | c :: _ => isspace c || (c =? 124) || (c =? 38) || (c =? 59)
     end.

(** A redirection into a file starts here. *)
Definition redirects_here (p : bytes) : bool :=
  match p with
  | [] => false
  | c :: r =>
      let fd := (c =? 49) || (c =? 50) in
      let next := fun k d => bool_decide (r !! k = Some d) in
      if (c =? 62) && next 0%nat 38 then false
      else if fd && next 0%nat 62 && next 1%nat 38 then false
      else if (c =? 62) && redirection_target_is_dev_null p then false
      else if fd && next 0%nat 62 && redirection_target_is_dev_null r then false
      else (c =? 62) || (fd && next 0%nat 62)
  end.

Fixpoint redirects (p : bytes) : bool :=
  match p with [] => false | _ :: r => redirects_here p || redirects r end.

Definition matches_write (g : guardrail_policy_t) (command : bytes) : bool :=
  policy_list_matches_prefix (write_cmds g) command || policy_list_matches_prefix (git_write_cmds g) command
  || policy_list_matches_prefix (package_cmds g) command.

(** The sub-commands after a separator; every round moves past one. *)
Fixpoint after_separator (fuel : nat) (g : guardrail_policy_t) (sep pos : bytes) : bool :=
  match fuel with
  | O => false
  | S fuel =>
      match strstr pos sep with
      | None => false
      | Some t =>
          let pos := drop_while (fun c => (c =? 32) || (c =? 9)) (drop (length sep) t) in
          matches_write g pos || after_separator fuel g sep pos
      end
  end.

Definition separators : list bytes := map str [" | "; " || "; " && "; "; "]%string.

(** [memory] says whether a copy of a long command can be made. *)
Definition is_write_command (g : guardrail_policy_t) (memory : bool) (command : option bytes) : bool :=
  match command with
  | None => false
  | Some command =>
      let command := drop_while isspace command in
      if matches_write g command then true
      else if negb ((length command + 1 <=? 1024)%nat || memory) then false
      else
        let scan := mask_quoted_regions command (length command + 1) in
        redirects (tail scan) || contains scan (str "sed -i") || contains scan (str "perl -pi")
        || existsb (fun sep => after_separator (S (length scan)) g sep scan) separators
  end.

(** ** What the scanner finds *)

(** The inside of a literal: pairs of a backslash and any byte, and bytes
    that are neither a backslash nor one of [stop]. *)
Inductive literal (stop : list Z) : bytes -> Prop :=
  | lit_nil : literal stop []
  | lit_pair c b : literal stop b -> literal stop (92 :: c :: b)
  | lit_byte c b : c <> 92 -> ~ c ∈ stop -> literal stop b -> literal stop (c :: b).

(** One lexical element of C at the start of a text, and the text after it. *)
Inductive element : bytes -> bytes -> Prop :=
  | el_line body r : ~ 10 ∈ body -> element (47 :: 47 :: body ++ 10 :: r) r
  | el_block body r : contains (body ++ [42]) [42; 47] = false -> element (47 :: 42 :: body ++ 42 :: 47 :: r) r
  | el_char body r : literal [39] body -> element (39 :: body ++ 39 :: r) r
  | el_string body r : literal [34; 10] body -> element (34 :: body ++ 34 :: r) r
  | el_byte c r : c <> 39 -> c <> 34 -> (c = 47 -> ~ head r = Some 47 /\ ~ head r = Some 42) -> element (c :: r) r.

(** The text reads, element by element, up to a string with a line end in it. *)
Definition broken_string (s : bytes) : Prop :=
  exists body rest, rtc element s (34 :: body ++ 10 :: rest) /\ literal [34; 10] body.

Lemma two_step (P : bytes -> Prop) : P [] -> (forall c, P [c]) ->
  (forall c d r, P r -> P (d :: r) -> P (c :: d :: r)) -> forall s, P s.
Proof.
  intros H0 H1 H2 s. enough (P s /\ forall c, P (c :: s)) by tauto.
  induction s as [|d s [IH1 IH2]]; [by split; [|intros c; apply H1]|]. split; [apply IH2|].
  intros c. apply H2; [done | apply IH2].
Qed.

Lemma scan_string s : source_loop IN_STRING s = Some true ->
  (exists body rest, s = (body ++ 10 :: rest)%list /\ literal [34; 10] body)
  \/ exists body r, s = (body ++ 34 :: r)%list /\ literal [34; 10] body /\ source_loop IN_CODE r = Some true.
Proof.
  induction s as [|c|c d r IH1 IH2] using two_step; cbn [source_loop]; [done| |].
  - destruct (c =? 92); [done|]. destruct (c =? 34); [done|].
    destruct (Z.eqb_spec c 10) as [->|]; [|done]. intros _. left. exists [], []. split; [done | constructor].
  - destruct (Z.eqb_spec c 92) as [->|H92].
    { intros [(b & t & -> & Hb)|(b & t & -> & Hb & Ht)]%IH1; [left | right];
        exists (92 :: d :: b), t; split_and!; try done; by constructor. }
    destruct (Z.eqb_spec c 34) as [->|H34]; [intros Ht; right; exists [], (d :: r); split_and!; [done|constructor|done]|].
    destruct (Z.eqb_spec c 10) as [->|H10]; [intros _; left; exists [], (d :: r); split; [done|constructor]|].
    assert (Hc : ~ c ∈ [34; 10]) by (rewrite !not_elem_of_cons; split_and!; try done; by intros ?%elem_of_nil).
    intros [(b & t & E & Hb)|(b & t & E & Hb & Ht)]%IH2; [left | right];
      exists (c :: b), t; rewrite E; split_and!; try done; by constructor.
Qed.

Lemma scan_char s : source_loop IN_CHAR s = Some true ->
  exists body r, s = (body ++ 39 :: r)%list /\ literal [39] body /\ source_loop IN_CODE r = Some true.
Proof.
  induction s as [|c|c d r IH1 IH2] using two_step; cbn [source_loop]; [done| |].
  - destruct (c =? 92); [done|]. by destruct (c =? 39).
  - destruct (Z.eqb_spec c 92) as [->|H92].
    { intros (b & t & -> & Hb & Ht)%IH1. exists (92 :: d :: b), t. split_and!; try done; by constructor. }
    destruct (Z.eqb_spec c 39) as [->|H39]; [intros Ht; exists [], (d :: r); split_and!; [done|constructor|done]|].
    assert (Hc : ~ c ∈ [39]) by (rewrite not_elem_of_cons; split; [done | by intros ?%elem_of_nil]).
    intros (b & t & E & Hb & Ht)%IH2. exists (c :: b), t. rewrite E. split_and!; try done; by constructor.
Qed.

Lemma scan_line s : source_loop IN_LINE_COMMENT s = Some true ->
  exists body r, s = (body ++ 10 :: r)%list /\ ~ 10 ∈ body /\ source_loop IN_CODE r = Some true.
Proof.
  induction s as [|c s IH]; cbn [source_loop]; [done|]. destruct (Z.eqb_spec c 10) as [->|Hc].
  - intros Ht. exists [], s. split_and!; [done | by intros ?%elem_of_nil | done].
  - intros (b & r & -> & Hb & Ht)%IH. exists (c :: b), r. split_and!; try done. by rewrite not_elem_of_cons.
Qed.

Lemma scan_block s : source_loop IN_BLOCK_COMMENT s = Some true ->
  exists body r, s = (body ++ 42 :: 47 :: r)%list /\ contains (body ++ [42]) [42; 47] = false
    /\ source_loop IN_CODE r = Some true.
Proof.
  induction s as [|c s IH]; cbn [source_loop]; [done|]. destruct (Z.eqb_spec c 42) as [->|Hc].
  - destruct s as [|d s]; [done|]. destruct (Z.eqb_spec d 47) as [->|Hd].
    + intros Ht. exists [], s. done.
    + intros (b & r & E & Hb & Ht)%IH. exists (42 :: b), r. rewrite E. split_and!; try done.
      destruct b as [|x b]; injection E as -> _; [done|]. cbn [app] in *. rewrite contains_cons, Hb. cbn [begins].
      by rewrite (proj2 (Z.eqb_neq x 47) Hd).
  - intros (b & r & -> & Hb & Ht)%IH. exists (c :: b), r. split_and!; try done.
    cbn [app]. rewrite contains_cons, Hb. cbn [begins]. by rewrite (proj2 (Z.eqb_neq c 42) Hc).
Qed.

(** An element is skipped. *)
Lemma literal_string body t : literal [34; 10] body -> source_loop IN_STRING (body ++ t) = source_loop IN_STRING t.
Proof.
  induction 1 as [|c b _ IH|c b H92 Hc _ IH]; [done | exact IH|]. cbn [app source_loop].
  rewrite !not_elem_of_cons in Hc. destruct Hc as (H34 & H10 & _).
  by rewrite (proj2 (Z.eqb_neq c 92) H92), (proj2 (Z.eqb_neq c 34)), (proj2 (Z.eqb_neq c 10)) by done.
Qed.

Lemma literal_char body t : literal [39] body -> source_loop IN_CHAR (body ++ t) = source_loop IN_CHAR t.
Proof.
  induction 1 as [|c b _ IH|c b H92 Hc _ IH]; [done | exact IH|]. cbn [app source_loop].
  rewrite not_elem_of_cons in Hc. destruct Hc as [H39 _].
  by rewrite (proj2 (Z.eqb_neq c 92) H92), (proj2 (Z.eqb_neq c 39)) by done.
Qed.

Lemma line_body body t : ~ 10 ∈ body -> source_loop IN_LINE_COMMENT (body ++ t) = source_loop IN_LINE_COMMENT t.
Proof.
  induction body as [|c b IH]; [done|]. intros [Hc Hb]%not_elem_of_cons. cbn [app source_loop].
  rewrite (proj2 (Z.eqb_neq c 10)) by done. by apply IH.
Qed.

Lemma block_body body r : contains (body ++ [42]) [42; 47] = false ->
  source_loop IN_BLOCK_COMMENT (body ++ 42 :: 47 :: r) = source_loop IN_CODE r.
Proof.
  induction body as [|c b IH]; [done|]. intros Hb.
  assert (Hrest : contains (b ++ [42]) [42; 47] = false).
  { rewrite contains_false in Hb |- *. intros x y E. apply (Hb (c :: x) y). cbn. by rewrite E. }
  cbn [app source_loop]. destruct (Z.eqb_spec c 42) as [->|Hc]; [|by apply IH].
  destruct (b ++ 42 :: 47 :: r) as [|d t] eqn:E; [by destruct b|].
  destruct (Z.eqb_spec d 47) as [->|Hd]; [|by apply IH]. exfalso.
  destruct b as [|x b]; [done|]. injection E as -> _. rewrite contains_false in Hb. by apply (Hb [] (b ++ [42])).
Qed.

Lemma element_skip s t : element s t -> source_loop IN_CODE s = source_loop IN_CODE t.
Proof.
  destruct 1 as [body r Hb|body r Hb|body r Hb|body r Hb|c r H39 H34 H47]; cbn [source_loop Z.eqb Pos.eqb].
  - by rewrite line_body.
  - by apply block_body.
  - by rewrite literal_char.
  - by rewrite literal_string.
  - rewrite (proj2 (Z.eqb_neq c 39) H39), (proj2 (Z.eqb_neq c 34) H34).
    destruct (Z.eqb_spec c 47) as [->|]; [|done]. destruct r as [|d r]; [done|]. destruct (H47 eq_refl) as [H1 H2].
    cbn in H1, H2. rewrite (proj2 (Z.eqb_neq d 47)), (proj2 (Z.eqb_neq d 42)) by congruence. done.
Qed.

(** The scanner reports a text exactly when it reads, element by element,
    up to a string literal with a bare line end: comments, character
    literals, escapes and finished strings before it are skipped whole. *)
Theorem bare_newline_iff s : c_source_has_bare_string_newline (Some s) = Some true <-> broken_string s.
Proof.
  cbn [c_source_has_bare_string_newline]. split.
  - induction s as [s IH] using (induction_ltof1 _ (@length Z)). unfold ltof in IH. intros H.
    assert (Hstep : forall t, element s t -> source_loop IN_CODE t = Some true -> broken_string s).
    { intros t Hst Ht. assert (Hlt : (length t < length s)%nat).
      { destruct Hst; cbn [length]; rewrite ?length_app; cbn [length]; lia. }
      destruct (IH t Hlt Ht) as (body & rest & Hr & Hb). exists body, rest. split; [|done]. by eapply rtc_l. }
    destruct s as [|c r]; [done|]. cbn [source_loop] in H.
    destruct (Z.eqb_spec c 47) as [->|H47].
    + destruct r as [|d r]; [done|]. destruct (Z.eqb_spec d 47) as [->|Hd1].
      { apply scan_line in H as (b & t & -> & Hb & Ht). by apply (Hstep t); [constructor|]. }
      destruct (Z.eqb_spec d 42) as [->|Hd2].
      { apply scan_block in H as (b & t & -> & Hb & Ht). by apply (Hstep t); [constructor|]. }
      apply (Hstep (d :: r)); [|done]. constructor; [done..|]. intros _. cbn. split; congruence.
    + destruct (Z.eqb_spec c 39) as [->|H39].
      { apply scan_char in H as (b & t & -> & Hb & Ht). by apply (Hstep t); [constructor|]. }
      destruct (Z.eqb_spec c 34) as [->|H34]; [|by apply (Hstep r); [constructor|]].
      apply scan_string in H as [(b & t & -> & Hb)|(b & t & -> & Hb & Ht)];
        [exists b, t; split; [apply rtc_refl | done] | by apply (Hstep t); [constructor|]].
  - intros (body & rest & Hr & Hb). remember (34 :: body ++ 10 :: rest)%list as u eqn:Eu.
    induction Hr as [u|s t u Hst _ IH]; [|rewrite (element_skip _ _ Hst); by apply IH].
    subst u. cbn [source_loop Z.eqb Pos.eqb]. by rewrite literal_string.
Qed.

(** A text that ends in a backslash inside a literal sends the scanner past
    its end. *)
Lemma scan_past_end : c_source_has_bare_string_newline (Some (34 :: str "abc" ++ [92])) = None.
Proof. reflexivity. Qed.

(** ** Which paths are let through *)

(** The name of a file is sensitive: listed, or with a listed fragment, or
    with the extension of a database; templates of environments are not. *)
Definition sensitive_name (g : guardrail_policy_t) (f : bytes) : Prop :=
  is_env_template f = false
  /\ (f ∈ sensitive_exact g \/ (exists p, p ∈ sensitive_patterns g /\ exists a b, f = (a ++ p ++ b)%list)
      \/ exists a ext, f = (a ++ 46 :: ext)%list /\ ~ 46 ∈ ext /\ (46 :: ext) ∈ db_extensions g).

Lemma matches_exact_iff l v : policy_list_matches_exact l v = true <-> v ∈ l.
Proof.
  unfold policy_list_matches_exact. rewrite existsb_exists, list_elem_of_In. split.
  - by intros (x & Hx & ->%bytes_eqb_true).
  - intros H. exists v. split; [done | apply bytes_eqb_refl].
Qed.

Lemma matching_substring_none l v : policy_list_matching_substring l v = None <->
  forall p, p ∈ l -> contains v p = false.
Proof.
  unfold policy_list_matching_substring. split.
  - intros H p Hp. by apply (find_none _ _ H), list_elem_of_In.
  - intros H. destruct (find (contains v) l) as [p|] eqn:E; [|done].
    apply find_some in E as [Hp E]. rewrite (H p) in E; [done|]. by apply list_elem_of_In.
Qed.

Lemma db_extension_iff g f : has_db_extension g f = true <->
  exists a ext, f = (a ++ 46 :: ext)%list /\ ~ 46 ∈ ext /\ (46 :: ext) ∈ db_extensions g.
Proof.
  unfold has_db_extension. destruct (strrchr 46 f) as [[a ext]|] eqn:E.
  - rewrite matches_exact_iff. split.
    + intros H. apply strrchr_some in E as [-> Hn]. by exists a, ext.
    + intros (a' & ext' & Hf & Hn & H). assert (E' : strrchr 46 f = Some (a', ext')) by (by apply strrchr_some).
      congruence.
  - apply strrchr_none in E. split; [done|]. intros (a & ext & -> & _). exfalso. apply E, elem_of_app. right.
    apply list_elem_of_here.
Qed.

Lemma sensitivity_iff g path :
  (severity_rank SEV_RED <=? severity_rank (c_severity (classify_path_sensitivity g path))) = true
  <-> sensitive_name g (basename_of path).
Proof.
  unfold classify_path_sensitivity, sensitive_name. set (f := basename_of path). cbv zeta.
  destruct (is_env_template f); [split; [done | by intros [? _]]|].
  destruct (policy_list_matches_exact (sensitive_exact g) f) eqn:Ex.
  { split; [|done]. intros _. split; [done|]. left. by apply matches_exact_iff. }
  assert (Hx : ~ f ∈ sensitive_exact g) by (rewrite <- matches_exact_iff; congruence).
  destruct (policy_list_matching_substring (sensitive_patterns g) f) as [p|] eqn:Ep.
  { split; [|done]. intros _. split; [done|]. right. left. apply find_some in Ep as [Hp Hc].
    exists p. split; [by apply list_elem_of_In | by apply contains_iff]. }
  assert (Hp : ~ exists p, p ∈ sensitive_patterns g /\ exists a b, f = (a ++ p ++ b)%list).
  { intros (p & Hin & Hc%contains_iff). rewrite (proj1 (matching_substring_none _ _) Ep p Hin) in Hc. done. }
  destruct (has_db_extension g f) eqn:Ed; cbn [c_severity severity_rank].
  { split; [|done]. intros _. split; [done|]. right. right. by apply db_extension_iff. }
  split; [done|]. intros (_ & [?|[?|Hd%db_extension_iff]]); [done|done|congruence].
Qed.

Section PathTheorems.
Context (realpath : bytes -> option bytes).

(** The directory and the name a path is split into at its last slash. *)
Definition split_as (path parent name : bytes) : Prop :=
  ~ 47 ∈ name
  /\ (path = 47 :: name /\ parent = str "/"
      \/ parent <> [] /\ path = (parent ++ 47 :: name)%list
      \/ path = name /\ parent = str ".").

(** Where a canonical path comes from: what exists, or a new name in a
    directory that exists, both within the bound on paths. *)
Definition canonical_for (path c : bytes) : Prop :=
  realpath path = Some c
  \/ realpath path = None /\ (length path < MAX_PATH_LEN)%nat /\ (length c < MAX_PATH_LEN)%nat
     /\ exists parent name dir, split_as path parent name /\ name <> [] /\ realpath parent = Some dir
        /\ c = (dir ++ (if bool_decide (last dir = Some 47) then [] else [47]) ++ name)%list.

Lemma split_as_iff path parent name : split_as path parent name <->
  (parent, name) = match strrchr 47 path with
                   | Some ([], b) => (str "/", b)
                   | Some (a, b) => (a, b)
                   | None => (str ".", path)
                   end.
Proof.
  unfold split_as. split.
  - intros [Hn [[-> ->]|[[Hp ->]|[-> ->]]]].
    + by rewrite (proj2 (strrchr_some 47 (47 :: name) [] name)).
    + rewrite (proj2 (strrchr_some 47 (parent ++ 47 :: name) parent name)) by done. by destruct parent.
    + by rewrite (proj2 (strrchr_none 47 name)).
  - destruct (strrchr 47 path) as [[[|x a] b]|] eqn:E; intros [= -> ->].
    + apply strrchr_some in E as [-> ?]. auto.
    + apply strrchr_some in E as [-> ?]. auto.
    + apply strrchr_none in E. auto.
Qed.

Lemma canonical_of_iff path c : canonical_of realpath path = inr c <-> canonical_for path c.
Proof.
  unfold canonical_of, canonical_for. destruct (realpath path) as [c'|] eqn:Er.
  { split; [intros [= ->]; by left | intros [[= ->]|[? _]]; done]. }
  destruct (Nat.leb_spec MAX_PATH_LEN (length path)) as [Hl|Hl].
  { split; [done|]. intros [?|(_ & ? & _)]; [done|lia]. }
  pose proof (fun parent name => proj2 (split_as_iff path parent name)) as Hback.
  pose proof (fun parent name => proj1 (split_as_iff path parent name)) as Hsp.
  destruct (match strrchr 47 path with Some ([], _) => _ | Some (_, _) => _ | None => _ end) as [parent name].
  specialize (Hback parent name eq_refl). case_bool_decide as Hn.
  { split; [done|]. intros [?|(_ & _ & _ & p & n & d & [= -> ->]%Hsp & ? & _)]; done. }
  destruct (realpath parent) as [dir|] eqn:Ep.
  2: { split; [done|]. intros [?|(_ & _ & _ & p & n & d & [= -> ->]%Hsp & _ & ? & _)]; congruence. }
  cbv zeta. destruct (Nat.leb_spec MAX_PATH_LEN (length (dir ++ (if bool_decide (last dir = Some 47) then [] else [47]) ++ name))) as [Hf|Hf].
  - split; [done|]. intros [?|(_ & _ & ? & p & n & d & [= -> ->]%Hsp & _ & ? & ->)]; [done|].
    simplify_eq. lia.
  - split.
    + intros [= <-]. right. split_and!; [done..|]. by exists parent, name, dir.
    + intros [?|(_ & _ & _ & p & n & d & [= -> ->]%Hsp & _ & ? & ->)]; [done|]. by simplify_eq.
Qed.

(** The paths refused as written: a parent step inside, at the start or
    alone, and one at the end unless an earlier name starts with two dots. *)
Definition climbs (path : bytes) : Prop :=
  (exists a b, path = (a ++ str "/../" ++ b)%list)
  \/ (exists a, path = (a ++ str "/..")%list
       /\ forall a' b, path = (a' ++ str "/.." ++ b)%list -> (length a <= length a')%nat)
  \/ (exists b, path = (str "../" ++ b)%list) \/ path = str "..".

Lemma traverses_iff path : traverses path = true <-> climbs path.
Proof.
  unfold traverses, climbs. rewrite !orb_true_iff, contains_iff, bool_decide_eq_true, begins_iff, strstr_first.
  assert (E : bytes_eqb path (str "..") = true <-> path = str "..").
  { split; [apply bytes_eqb_true | intros ->; apply bytes_eqb_refl]. }
  rewrite E. split.
  - intros [[[H|(a & Ha & _ & Hm)]|H]|H]; [by left | right; left; by exists a | auto..].
  - intros [H|[(a & Ha & Hm)|[H|H]]]; [auto | left; left; right; exists a; by split_and! | auto..].
Qed.

(** C10: a path is let through exactly when it is not empty, it is not one of
    the climbing paths, it resolves to a file that exists or to a new name in
    a directory that exists, that file's name is not sensitive, no denied
    fragment occurs anywhere in its canonical path, and this fits the caller's
    buffer; what is handed out is that canonical path. *)
Theorem sensitive_path_iff g path resolved_len c :
  guardrails_check_sensitive_path realpath g path resolved_len = inr c <->
  path <> [] /\ ~ climbs path /\ canonical_for path c /\ ~ sensitive_name g (basename_of c)
  /\ (forall d, d ∈ path_denies g -> forall a b, c <> (a ++ d ++ b)%list) /\ (length c < resolved_len)%nat.
Proof.
  rewrite <- traverses_iff, <- canonical_of_iff, not_true_iff_false. unfold guardrails_check_sensitive_path.
  case_bool_decide as Hp; [by split; [|intros [? _]]|]. cbn [orb].
  destruct (Nat.eqb_spec resolved_len 0) as [Hl|Hl]; [split; [done | intros (_ & _ & _ & _ & _ & ?); lia]|].
  destruct (traverses path); [by split; [|intros (_ & ? & _)]|].
  destruct (canonical_of realpath path) as [e|c'] eqn:Ec; [by split; [|intros (_ & _ & ? & _)]|].
  destruct (severity_rank SEV_RED <=? _) eqn:Es.
  { apply sensitivity_iff in Es. split; [done|]. intros (_ & _ & [= ->] & Hs & _). done. }
  assert (Hs : ~ sensitive_name g (basename_of c')) by (rewrite <- sensitivity_iff; congruence).
  destruct (existsb (contains c') (path_denies g)) eqn:Ed.
  { split; [done|]. intros (_ & _ & [= ->] & _ & Hd & _). exfalso. apply existsb_exists in Ed as (d & Hin & Hc).
    apply contains_iff in Hc as (a & b & Hc). by apply (Hd d (proj2 (list_elem_of_In _ _) Hin) a b). }
  destruct (Nat.ltb_spec resolved_len (length c' + 1)) as [Hf|Hf].
  { split; [done|]. intros (_ & _ & [= ->] & _ & _ & ?). lia. }
  split; [|by intros (_ & _ & [= ->] & _)]. intros [= <-]. split_and!; [done..| |lia].
  intros d Hin a b Hc. assert (Hcd : contains c' d = true) by (apply contains_iff; by exists a, b).
  enough (existsb (contains c') (path_denies g) = true) by congruence.
  apply existsb_exists. exists d. split; [by apply list_elem_of_In | done].
Qed.
End PathTheorems.

(** ** Paths that cannot be resolved *)

(** The meaning of dots, without a bound on the depth. *)
Definition dot_step (stack : list bytes) (seg : bytes) : list bytes :=
  if bytes_eqb seg (str ".") then stack
  else if bytes_eqb seg (str "..") then take (length stack - 1) stack else (stack ++ [seg])%list.

Definition undot (path : bytes) : list bytes := fold_left dot_step (segments path) [].

Definition render (segs : list bytes) : bytes :=
  match segs with [] => [47] | _ => concat (map (cons 47) segs) end.

Definition room (segs : list bytes) : nat := length (concat (map (cons 47) segs)).

Lemma segs_room_cons s segs : room (s :: segs) = (S (length s) + room segs)%nat.
Proof. unfold room. cbn. by rewrite length_app. Qed.

Lemma room_app l k : room (l ++ k) = (room l + room k)%nat.
Proof. unfold room. by rewrite map_app, concat_app, length_app. Qed.

Lemma room_take n l : (room (take n l) <= room l)%nat.
Proof. rewrite <- (take_drop n l) at 2. rewrite room_app. lia. Qed.

Lemma cut_at_room s : room (cut_at 47 s) = S (length s).
Proof.
  induction s as [|c s IH]; [done|]. cbn [cut_at]. destruct (c =? 47).
  - rewrite segs_room_cons, IH. done.
  - destruct (cut_at 47 s) as [|w ws]; [done|]. rewrite segs_room_cons in *. cbn [length]. lia.
Qed.

Lemma filter_room l : (room (List.filter (fun w => negb (bool_decide (w = []))) l) <= room l)%nat.
Proof.
  induction l as [|w l IH]; [done|]. cbn [List.filter]. destruct (negb _); rewrite ?segs_room_cons; lia.
Qed.

Lemma segments_room r : (room (segments (47%Z :: r)) <= S (length r))%nat.
Proof.
  unfold segments. cbn [cut_at Z.eqb Pos.eqb List.filter]. rewrite bool_decide_eq_true_2 by done. cbn [negb].
  etrans; [apply filter_room|]. by rewrite cut_at_room.
Qed.

Lemma segments_nonempty s : Forall (fun w => w <> []) (segments s).
Proof.
  apply Forall_forall. intros w Hw%list_elem_of_In. apply filter_In in Hw as [_ Hw].
  by apply negb_true_iff, bool_decide_eq_false in Hw.
Qed.

(** While the depth stays within the stack, it holds what the dots mean. *)
Lemma push_segments segs stack : (length stack + length segs <= 256)%nat ->
  fold_left push_segment segs stack = fold_left dot_step segs stack.
Proof.
  revert stack. induction segs as [|seg segs IH]; intros stack Hl; [done|]. cbn [fold_left length] in *.
  assert (E : push_segment stack seg = dot_step stack seg).
  { unfold push_segment, dot_step. destruct (bytes_eqb seg (str ".")); [done|]. destruct (bytes_eqb seg _); [done|].
    by rewrite (proj2 (Nat.ltb_lt _ _)) by lia. }
  rewrite E. apply IH. unfold dot_step. destruct (bytes_eqb seg (str ".")); [lia|].
  destruct (bytes_eqb seg _); rewrite ?length_take, ?length_app; cbn [length]; lia.
Qed.

(** A segment that is a name. *)
Definition is_name (seg : bytes) : Prop := seg <> [] /\ seg <> str "." /\ seg <> str "..".

Lemma dot_steps segs stack : Forall (fun w => w <> []) segs -> Forall is_name stack ->
  Forall is_name (fold_left dot_step segs stack)
  /\ (room (fold_left dot_step segs stack) <= room stack + room segs)%nat.
Proof.
  intros Hs. revert stack. induction Hs as [|seg segs Hn _ IH]; intros stack Hst; cbn [fold_left].
  { split; [done|]. change (room []) with 0%nat. lia. }
  assert (H : Forall is_name (dot_step stack seg) /\ (room (dot_step stack seg) <= room stack + S (length seg))%nat).
  { unfold dot_step. destruct (bytes_eqb seg (str ".")) eqn:E1; [split; [done | lia]|].
    destruct (bytes_eqb seg (str "..")) eqn:E2.
    - split; [by apply Forall_take|]. pose proof (room_take (length stack - 1) stack). lia.
    - apply bytes_eqb_false in E1, E2. split; [apply Forall_app; split; [done|]; by repeat constructor|].
      rewrite room_app, segs_room_cons. change (room []) with 0%nat. lia. }
  destruct H as [H1 H2]. destruct (IH _ H1) as [H3 H4]. split; [done|]. rewrite segs_room_cons. lia.
Qed.

Lemma write_segments_fits buf_len segs buf : Forall is_name segs -> (length buf + room segs < buf_len)%nat ->
  write_segments buf_len segs buf = (buf ++ concat (map (cons 47) segs))%list.
Proof.
  intros Hs. revert buf. induction Hs as [|s segs [Hn _] _ IH]; intros buf Hl; cbn [write_segments map concat].
  { by rewrite app_nil_r. }
  rewrite segs_room_cons in Hl. assert (0 < length s)%nat by (destruct s; [done | cbn; lia]).
  rewrite (proj2 (Nat.ltb_lt _ _)) by lia. cbn [negb]. rewrite length_app. cbn [length].
  rewrite (proj2 (Nat.leb_gt _ _)) by lia. rewrite IH by (rewrite !length_app; cbn [length]; lia).
  by rewrite <- !app_assoc.
Qed.

Lemma collapse_undot buf_len r : (length r + 1 < buf_len)%nat -> (buf_len <= MAX_PATH_LEN)%nat ->
  (length (segments (47%Z :: r)) <= 256)%nat -> collapse buf_len (47 :: r) = render (undot (47 :: r)).
Proof.
  intros Hl Hm Hd. unfold collapse, undot. rewrite snprintf_s_fits by (cbn [length]; lia).
  rewrite push_segments by (cbn [length]; lia).
  destruct (dot_steps (segments (47 :: r)) [] (segments_nonempty _) (Forall_nil_2 _)) as [Hn Hr].
  change (room []) with 0%nat in Hr. pose proof (segments_room r).
  rewrite write_segments_fits by (done || (cbn [length]; lia)). cbn [app].
  destruct (fold_left dot_step (segments (47 :: r)) []) as [|w ws]; [|done]. cbn [map concat render].
  by rewrite (proj2 (Nat.ltb_lt 1 buf_len)) by lia.
Qed.

(** An absolute path of which nothing exists, with a dot segment inside
    and at most 256 segments, is normalized to what its dots mean: no segment
    of the result is empty, one dot or two dots. *)
Theorem normalize_lexical realpath home cwd r buf_len :
  (forall p, realpath p = None) -> (length r + 1 < buf_len)%nat -> (buf_len <= MAX_PATH_LEN)%nat ->
  contains (47 :: r) (str "/./") || contains (47 :: r) (str "/../") = true ->
  (length (segments (47%Z :: r)) <= 256)%nat ->
  normalize_path realpath home (Some (47 :: r)) cwd buf_len = render (undot (47 :: r))
  /\ Forall is_name (undot (47 :: r)).
Proof.
  intros Hr Hl Hm Hc Hd. split.
  - unfold normalize_path, expand, resolve_parent. rewrite snprintf_s_fits by (cbn [length]; lia). rewrite Hr.
    assert (E : match strrchr 47 (snprintf_s MAX_PATH_LEN (47 :: r)) with
      | Some (c :: dir, name) => match realpath (c :: dir) with
                                 | Some resolved => snprintf_s buf_len (resolved ++ 47 :: name)
                                 | None => 47 :: r end
      | _ => 47 :: r end = 47 :: r).
    { destruct (strrchr 47 _) as [[[|c dir] name]|]; [done| |done]. by rewrite Hr. }
    rewrite E, Hc. by apply collapse_undot.
  - apply dot_steps; [apply segments_nonempty | constructor].
Qed.

Lemma normalize_lexical_witness :
  normalize_path (fun _ => None) None (Some (str "/a/./b/../../c/d/../e")) None 4096 = str "/c/e".
Proof.
  destruct (normalize_lexical (fun _ => None) None None (str "a/./b/../../c/d/../e") 4096) as [E _].
  - done.
  - cbn. lia.
  - unfold MAX_PATH_LEN. lia.
  - vm_compute. reflexivity.
  - vm_compute. lia.
  - etransitivity; [exact E | vm_compute; reflexivity].
Defined.

(** ** Which writes are seen *)


Abbreviation masked s := (mask_loop 0 s (length s)).





















(** ** Samples *)

Definition sample_policy : guardrail_policy_t := guardrails_policy_ensure_loaded (str "/h/guardrails.json") None policy_reset_locked.

(** A file system with two directories and a link. *)
Definition sample_realpath (p : bytes) : option bytes :=
  if bytes_eqb p (str "/w") then Some (str "/w")
  else if bytes_eqb p (str "/w/link") then Some (str "/home/u/.ssh/config")
  else if bytes_eqb p (str "/w/notes.txt") then Some (str "/w/notes.txt")
  else None.

(** A new name and what a link leads to. *)
Lemma sample_paths :
  guardrails_check_sensitive_path sample_realpath sample_policy (str "/w/new.txt") 64 = inr (str "/w/new.txt")
  /\ guardrails_check_sensitive_path sample_realpath sample_policy (str "/w/link") 64 = inl SENSITIVE.
Proof. split; vm_compute; reflexivity. Qed.


(** Templates of environments are let through by the name, yet the denied
    fragment .env refuses them. *)
Lemma template_denied :
  is_env_template (str ".env.example") = true
  /\ guardrails_check_sensitive_path sample_realpath sample_policy (str "/w/.env.example") 64 = inl SENSITIVE.
Proof. split; vm_compute; reflexivity. Qed.

(** Only the first slash followed by two dots is compared with the end. *)
Lemma trailing_dots_pass : traverses (str "/w/..a/..") = false /\ traverses (str "/w/a/..") = true.
Proof. split; vm_compute; reflexivity. Qed.

(** A path that cannot be resolved keeps its last two dots, and one with more
    than 256 segments loses the wrong one. *)
Lemma dots_kept : normalize_path (fun _ => None) None (Some (str "/x/y/..")) None 4096 = str "/x/y/..".
Proof. vm_compute. reflexivity. Qed.

Definition deep (n : nat) : bytes := concat (replicate n (str "/d")).

Lemma deep_path_wrong :
  normalize_path (fun _ => None) None (Some (deep 256 ++ str "/e/../f")) None 4096 = (deep 255 ++ str "/f")%list.
Proof. vm_compute. reflexivity. Qed.

(** Writes that are not seen: a redirection of both streams, one at the very
    start, and a command right after a semicolon. *)
Lemma writes_missed :
  Forall (fun c => is_write_command sample_policy true (Some (str c)) = false)
    ["echo hi >&out"; ">out"; "true;rm -rf x"; "(rm -rf x)"; "echo a > \x/dev/null"]%string.
Proof. repeat constructor; vm_compute; reflexivity. Qed.

End Guardrails.
