(* ===== verification/Rewrap.v ===== *)
(** * The key change of the vault: data and interfaces
    ([src/src/modules/kb/c/org_vault_rewrap.h],
     [src/src/modules/vault/vault_reseal_orchestrator.h])

    Changing the vault's key-encryption key touches three parties: a database
    that holds the wrapped keys and one row per operation, the custody of the
    key in a TPM, and a driver that moves an operation from state to state.
    This file holds what they exchange: the states and results, the rows, and
    the two tables of operations the driver is given, over a world [W] they
    change; and the state monad the driver is written in, with its triples. *)

From Stdlib Require Import ZArith Lia.
From stdpp Require Import base numbers option list.
From S2P Require Import Prelude ResealReceipt.

Module Rewrap.

(** ** States and results *)

Inductive kb_store_vault_rewrap_state_t :=
  | RW_PREPARING | RW_CUSTODY_PREPARED | RW_WRAPS_STAGED | RW_RESEAL_COMMITTING | RW_RESEALED
  | RW_PROMOTED | RW_COMPLETED | RW_ABORTED | RW_RECOVERY_REQUIRED.

Inductive kb_store_vault_rewrap_result_t :=
  | DB_OK | DB_NOT_FOUND | DB_BUSY | DB_CONFLICT | DB_INVALID | DB_TRANSIENT | DB_INTEGRITY | DB_ERROR.

Inductive vault_tpm2_reseal_status_t :=
  | TPM_ABSENT | TPM_PREPARED | TPM_NV_ADVANCED | TPM_INSTALLED | TPM_CLEANED | TPM_CONFLICT | TPM_CORRUPT.

Inductive vault_tpm2_reseal_result_t :=
  | CU_OK | CU_ERR | CU_NOT_BUILT | CU_BUSY | CU_INTEGRITY.

Inductive vault_maintenance_result_t :=
  | VM_OK | VM_ERROR | VM_INVALID | VM_BUSY | VM_WRONG_OWNER | VM_EPOCH | VM_SEALED.

Inductive vault_reseal_orchestrator_mode_t := MODE_START | MODE_RESUME.

Inductive vault_reseal_orchestrator_result_t :=
  | OR_COMPLETED | OR_SAFE_RETRY | OR_BUSY | OR_ABORTED | OR_RECOVERY_REQUIRED | OR_INTEGRITY
  | OR_INVALID | OR_UNSUPPORTED | OR_ERROR.

#[global] Instance state_eq_dec : EqDecision kb_store_vault_rewrap_state_t.
Proof. solve_decision. Defined.
#[global] Instance result_eq_dec : EqDecision kb_store_vault_rewrap_result_t.
Proof. solve_decision. Defined.
#[global] Instance status_eq_dec : EqDecision vault_tpm2_reseal_status_t.
Proof. solve_decision. Defined.
#[global] Instance custody_result_eq_dec : EqDecision vault_tpm2_reseal_result_t.
Proof. solve_decision. Defined.
#[global] Instance maintenance_eq_dec : EqDecision vault_maintenance_result_t.
Proof. solve_decision. Defined.
#[global] Instance mode_eq_dec : EqDecision vault_reseal_orchestrator_mode_t.
Proof. solve_decision. Defined.
#[global] Instance orchestrator_eq_dec : EqDecision vault_reseal_orchestrator_result_t.
Proof. solve_decision. Defined.

(** ** Rows *)

Definition KB_STORE_VAULT_REWRAP_PAGE_MAX : nat := 128.
Definition VAULT_WRAPPED_DEK_LEN : nat := 40.
Definition VAULT_KEK_LEN : nat := 32.

(** The flags of the struct are options here. *)
Record kb_store_vault_rewrap_snapshot_t := {
  ss_operation_id : bytes;
  ss_state : kb_store_vault_rewrap_state_t;
  ss_seal_epoch : Z;
  ss_fencing_token : Z;
  ss_old_generation : Z;
  ss_new_generation : Z;
  ss_receipt : option (bytes * bytes);        (** with its digest *)
  ss_secret_count : Z;
  ss_check_count : Z;
  ss_inventory_digest : option bytes;
  ss_stage_digest : option bytes;
  ss_failure_class : bytes;
  ss_failure_from_state : option kb_store_vault_rewrap_state_t
}.

(** What [memset] leaves. *)
Definition snapshot_zero : kb_store_vault_rewrap_snapshot_t :=
  {| ss_operation_id := replicate 16 0; ss_state := RW_PREPARING; ss_seal_epoch := 0; ss_fencing_token := 0;
     ss_old_generation := 0; ss_new_generation := 0; ss_receipt := None; ss_secret_count := 0;
     ss_check_count := 0; ss_inventory_digest := None; ss_stage_digest := None; ss_failure_class := [];
     ss_failure_from_state := None |}.

Record kb_store_vault_rewrap_secret_t := {
  source_id : Z;
  version : Z;
  principal : bytes;
  agent : bytes;
  cred : bytes;
  source_digest : bytes;
  wrapped_dek : bytes
}.

Record kb_store_vault_rewrap_check_t := {
  ck_principal : bytes;
  ck_source_digest : bytes;
  kek_check : bytes
}.

(** A cursor is the text it holds, of at most 640 bytes. *)
Definition kb_store_vault_rewrap_cursor_t : Type := bytes.

Record kb_store_vault_rewrap_inventory_summary_t := {
  in_secret_count : Z;
  in_check_count : Z;
  in_inventory_digest : bytes
}.

Record kb_store_vault_rewrap_verify_summary_t := {
  vs_secret_count : Z;
  vs_check_count : Z;
  vs_receipt_digest : bytes;
  vs_inventory_digest : bytes;
  vs_stage_digest : bytes
}.

(** ** The operations the driver is given

    A transaction is a value of [TX] that the operations change; the handle
    is [None] when it is NULL.  A page is the list of the rows written. *)
Record kb_store_vault_rewrap_ops_t (W TX : Type) := {
  tx_begin : W -> kb_store_vault_rewrap_result_t * option TX * W;
  tx_commit : option TX -> W -> kb_store_vault_rewrap_result_t * option TX * W;
  tx_rollback : option TX -> W -> option TX * W;
  snapshot : bytes -> W -> kb_store_vault_rewrap_result_t * kb_store_vault_rewrap_snapshot_t * W;
  begin : bytes -> bytes -> bytes -> Z -> Z -> TX -> W -> kb_store_vault_rewrap_result_t * TX * W;
  record_prepared : bytes -> Z -> Z -> Z -> bytes -> TX -> W -> kb_store_vault_rewrap_result_t * TX * W;
  source_secret_page : bytes -> Z -> Z -> Z -> TX -> W ->
    kb_store_vault_rewrap_result_t * list kb_store_vault_rewrap_secret_t * TX * W;
  source_check_page : bytes -> Z -> kb_store_vault_rewrap_cursor_t -> Z -> TX -> W ->
    kb_store_vault_rewrap_result_t * (list kb_store_vault_rewrap_check_t * kb_store_vault_rewrap_cursor_t) * TX * W;
  stage_dek : bytes -> Z -> kb_store_vault_rewrap_secret_t -> bytes -> TX -> W ->
    kb_store_vault_rewrap_result_t * TX * W;
  stage_check : bytes -> Z -> kb_store_vault_rewrap_check_t -> bytes -> TX -> W ->
    kb_store_vault_rewrap_result_t * TX * W;
  inventory_summary : bytes -> Z -> TX -> W ->
    kb_store_vault_rewrap_result_t * kb_store_vault_rewrap_inventory_summary_t * TX * W;
  stage_finish : bytes -> Z -> kb_store_vault_rewrap_inventory_summary_t -> TX -> W ->
    kb_store_vault_rewrap_result_t * TX * W;
  mark_committing : bytes -> Z -> TX -> W -> kb_store_vault_rewrap_result_t * TX * W;
  mark_resealed : bytes -> Z -> bytes -> TX -> W -> kb_store_vault_rewrap_result_t * TX * W;
  promote : bytes -> Z -> TX -> W -> kb_store_vault_rewrap_result_t * TX * W;
  abort : bytes -> Z -> bytes -> TX -> W -> kb_store_vault_rewrap_result_t * TX * W;
  recovery_required : bytes -> Z -> bytes -> TX -> W -> kb_store_vault_rewrap_result_t * TX * W;
  verify_summary : bytes -> Z -> TX -> W ->
    kb_store_vault_rewrap_result_t * kb_store_vault_rewrap_verify_summary_t * TX * W;
  verify_secret_page : bytes -> Z -> Z -> Z -> TX -> W ->
    kb_store_vault_rewrap_result_t * list kb_store_vault_rewrap_secret_t * TX * W;
  verify_check_page : bytes -> Z -> kb_store_vault_rewrap_cursor_t -> Z -> TX -> W ->
    kb_store_vault_rewrap_result_t * (list kb_store_vault_rewrap_check_t * kb_store_vault_rewrap_cursor_t) * TX * W;
  verify_crypto_ack : bytes -> Z -> TX -> W -> kb_store_vault_rewrap_result_t * TX * W;
  complete : bytes -> Z -> bytes -> bytes -> bytes -> TX -> W -> kb_store_vault_rewrap_result_t * TX * W
}.

(** The custody's operations take the operator's secret.  A wrap that fails
    is [None]; [guard_active_kek] is what [guard_with_active_kek] does before
    it calls back with the key, whose result it then returns. *)
Record vault_reseal_custody_ops_t (W : Type) := {
  supported : bool;
  nv_generation : bytes -> W -> vault_tpm2_reseal_result_t * Z * W;
  prepare : bytes -> Z -> bytes -> bytes -> W ->
    vault_tpm2_reseal_result_t * ResealReceipt.vault_tpm2_reseal_receipt_t * W;
  discover : bytes -> Z -> bytes -> W ->
    vault_tpm2_reseal_result_t * (ResealReceipt.vault_tpm2_reseal_receipt_t * vault_tpm2_reseal_status_t) * W;
  recover_kek : ResealReceipt.vault_tpm2_reseal_receipt_t -> bytes -> W -> vault_tpm2_reseal_result_t * bytes * W;
  status : ResealReceipt.vault_tpm2_reseal_receipt_t -> bytes -> W ->
    vault_tpm2_reseal_result_t * vault_tpm2_reseal_status_t * W;
  commit : ResealReceipt.vault_tpm2_reseal_receipt_t -> bytes -> W ->
    vault_tpm2_reseal_result_t * vault_tpm2_reseal_status_t * W;
  custody_abort : ResealReceipt.vault_tpm2_reseal_receipt_t -> bytes -> W -> vault_tpm2_reseal_result_t * W;
  guard_begin : W -> vault_maintenance_result_t * W;
  guard_sync_epoch : Z -> W -> vault_maintenance_result_t * W;
  guard_unseal : bytes -> W -> vault_maintenance_result_t * W;
  guard_seal : W -> vault_maintenance_result_t * W;
  guard_active_kek : W -> (vault_maintenance_result_t + bytes) * W;
  guard_end : W -> vault_maintenance_result_t * W;
  random : W -> option bytes * W;
  dek_wrap : bytes -> bytes -> option bytes;
  dek_unwrap : bytes -> bytes -> option bytes;
  check_wrap : bytes -> option bytes;
  check_verify : bytes -> bytes -> bool
}.

(** What the driver also uses of its host: protected memory and the clock. *)
Record host_ops (W : Type) := {
  arena_new : W -> bool * W;
  read_clock : W -> Z * W;
  allocate : W -> bool * W
}.

(** ** The driver's monad *)

Definition M (S A : Type) : Type := S -> A * S.

Definition ret {S A} (a : A) : M S A := fun s => (a, s).

Definition bind {S A B} (m : M S A) (k : A -> M S B) : M S B := fun s => let '(a, s') := m s in k a s'.

Declare Scope rewrap_scope.
Notation "x <- m ;; k" := (bind m (fun x => k)) (at level 100, m at next level, right associativity) : rewrap_scope.
Notation "m ;;; k" := (bind m (fun _ => k)) (at level 100, right associativity) : rewrap_scope.

(** Code with a jump to an exit: the left of the sum is what the exit gets. *)
Definition try_ {S E A B} (m : M S (E + A)) (k : A -> M S (E + B)) : M S (E + B) :=
  bind m (fun r => match r with inl e => ret (inl e) | inr a => k a end).

Notation "x <-? m ;; k" := (try_ m (fun x => k)) (at level 100, m at next level, right associativity) : rewrap_scope.
Notation "m ?; k" := (try_ m (fun _ => k)) (at level 100, right associativity) : rewrap_scope.

(** ** Triples *)

Definition triple {S A} (P : S -> Prop) (m : M S A) (Q : A -> S -> Prop) : Prop :=
  forall s, P s -> Q (m s).1 (m s).2.

Lemma triple_ret {S A} (P : S -> Prop) (a : A) (Q : A -> S -> Prop) :
  (forall s, P s -> Q a s) -> triple P (ret a) Q.
Proof. intros H s Hs. by apply H. Qed.

Lemma triple_bind {S A B} P (m : M S A) R (k : A -> M S B) Q :
  triple P m R -> (forall a, triple (R a) (k a) Q) -> triple P (bind m k) Q.
Proof.
  intros Hm Hk s Hs. specialize (Hm s Hs). unfold bind. destruct (m s) as [a s']. by apply (Hk a).
Qed.

Lemma triple_weaken {S A} (P P' : S -> Prop) (m : M S A) (Q Q' : A -> S -> Prop) :
  triple P m Q -> (forall s, P' s -> P s) -> (forall a s, Q a s -> Q' a s) -> triple P' m Q'.
Proof. intros Hm HP HQ s Hs. by apply HQ, Hm, HP. Qed.

Lemma triple_pure {S A} (F : Prop) (P : S -> Prop) (m : M S A) (Q : A -> S -> Prop) :
  (F -> triple P m Q) -> triple (fun s => F /\ P s) m Q.
Proof. intros H s [HF Hs]. by apply H. Qed.

Lemma triple_ex {S A X} (P : X -> S -> Prop) (m : M S A) (Q : A -> S -> Prop) :
  (forall x, triple (P x) m Q) -> triple (fun s => exists x, P x s) m Q.
Proof. intros H s [x Hs]. by apply (H x). Qed.

Lemma triple_try {S E A B} P (m : M S (E + A)) R (k : A -> M S (E + B)) Q :
  triple P m R -> (forall e, forall s, R (inl e) s -> Q (inl e) s) ->
  (forall a, triple (R (inr a)) (k a) Q) -> triple P (try_ m k) Q.
Proof.
  intros Hm He Hk. eapply triple_bind; [exact Hm|]. intros [e|a]; [apply triple_ret; auto | apply Hk].
Qed.

End Rewrap.

Arguments Rewrap.tx_begin {W TX}. Arguments Rewrap.tx_commit {W TX}. Arguments Rewrap.tx_rollback {W TX}.
Arguments Rewrap.snapshot {W TX}. Arguments Rewrap.begin {W TX}. Arguments Rewrap.record_prepared {W TX}.
Arguments Rewrap.source_secret_page {W TX}. Arguments Rewrap.source_check_page {W TX}.
Arguments Rewrap.stage_dek {W TX}. Arguments Rewrap.stage_check {W TX}. Arguments Rewrap.inventory_summary {W TX}.
Arguments Rewrap.stage_finish {W TX}. Arguments Rewrap.mark_committing {W TX}. Arguments Rewrap.mark_resealed {W TX}.
Arguments Rewrap.promote {W TX}. Arguments Rewrap.abort {W TX}. Arguments Rewrap.recovery_required {W TX}.
Arguments Rewrap.verify_summary {W TX}. Arguments Rewrap.verify_secret_page {W TX}.
Arguments Rewrap.verify_check_page {W TX}. Arguments Rewrap.verify_crypto_ack {W TX}. Arguments Rewrap.complete {W TX}.
Arguments Rewrap.supported {W}. Arguments Rewrap.nv_generation {W}. Arguments Rewrap.prepare {W}.
Arguments Rewrap.discover {W}. Arguments Rewrap.recover_kek {W}. Arguments Rewrap.status {W}.
Arguments Rewrap.commit {W}. Arguments Rewrap.custody_abort {W}. Arguments Rewrap.guard_begin {W}.
Arguments Rewrap.guard_sync_epoch {W}. Arguments Rewrap.guard_unseal {W}. Arguments Rewrap.guard_seal {W}.
Arguments Rewrap.guard_active_kek {W}. Arguments Rewrap.guard_end {W}. Arguments Rewrap.random {W}.
Arguments Rewrap.dek_wrap {W}. Arguments Rewrap.dek_unwrap {W}. Arguments Rewrap.check_wrap {W}.
Arguments Rewrap.check_verify {W}. Arguments Rewrap.arena_new {W}. Arguments Rewrap.read_clock {W}.
Arguments Rewrap.allocate {W}.
