(* ===== verification/ResealRun.v ===== *)
(** * The driver of a key change
    ([src/src/modules/vault/vault_reseal_orchestrator.c])

    One call of the driver reads the durable state of an operation, asks the
    custody what it holds, and takes the one edge that fits both, at most
    sixteen times.  The database, the custody and the host are the tables of
    operations of [Rewrap]; the driver's own variables are a record threaded
    through its monad.  Pointers of the request and the two tables are taken
    to be set; wiping of buffers is not observable here. *)

From Stdlib Require Import ZArith Lia String Ascii.
From stdpp Require Import base numbers option list.
From S2P Require Import Prelude ResealReceipt MutationBudget Rewrap.

Module ResealRun.
Import Rewrap.
Open Scope rewrap_scope.

Definition VAULT_RESEAL_ORCHESTRATOR_SECRET_MAX : Z := 4096.
Definition VAULT_RESEAL_ORCHESTRATOR_EDGE_MAX : nat := 16.

Record vault_reseal_orchestrator_request_t := {
  rq_mode : vault_reseal_orchestrator_mode_t;
  rq_operation_id : bytes;
  rq_actor : bytes;
  rq_request_id : bytes;
  rq_provider_secret : bytes;
  rq_budget : positive
}.

(** [secret_workspace_t]: the key of the new generation. *)
Record secret_workspace_t := { new_kek : bytes; has_new_kek : bool }.

Record vault_reseal_orchestrator_output_t := {
  out_state : kb_store_vault_rewrap_state_t;
  out_seal_epoch : Z;
  out_fencing_token : Z;
  out_old_generation : Z;
  out_new_generation : Z;
  out_failure_class : bytes
}.

Definition request_valid (r : vault_reseal_orchestrator_request_t) : bool :=
  negb (bool_decide (rq_provider_secret r = []))
  && (zlen (rq_provider_secret r) <=? VAULT_RESEAL_ORCHESTRATOR_SECRET_MAX)
  && (1 <=? zlen (rq_actor r)) && (zlen (rq_actor r) <=? 575)
  && (1 <=? zlen (rq_request_id r)) && (zlen (rq_request_id r) <=? 200)
  && negb (has_byte 0 (rq_provider_secret r)).

(** ** Results of the parties as results of the driver *)

Definition db_result (r : kb_store_vault_rewrap_result_t) : vault_reseal_orchestrator_result_t :=
  match r with
  | DB_OK => OR_COMPLETED
  | DB_BUSY => OR_BUSY
  | DB_CONFLICT | DB_TRANSIENT => OR_SAFE_RETRY
  | DB_INTEGRITY => OR_INTEGRITY
  | DB_INVALID => OR_INVALID
  | DB_NOT_FOUND | DB_ERROR => OR_ERROR
  end.

Definition custody_result (r : vault_tpm2_reseal_result_t) : vault_reseal_orchestrator_result_t :=
  match r with
  | CU_NOT_BUILT => OR_UNSUPPORTED
  | CU_BUSY => OR_BUSY
  | CU_INTEGRITY => OR_INTEGRITY
  | CU_OK | CU_ERR => OR_SAFE_RETRY
  end.

Definition guard_callback_result (guard_result : vault_maintenance_result_t)
    (callback_result : vault_reseal_orchestrator_result_t) : vault_reseal_orchestrator_result_t :=
  if bool_decide (guard_result = VM_OK) then callback_result
  else if negb (bool_decide (callback_result = OR_COMPLETED)) && negb (bool_decide (callback_result = OR_ERROR))
  then callback_result
  else if bool_decide (guard_result = VM_BUSY) then OR_BUSY else OR_SAFE_RETRY.

Definition guard_operation_result (guard_result : vault_maintenance_result_t) : vault_reseal_orchestrator_result_t :=
  match guard_result with
  | VM_BUSY => OR_BUSY
  | VM_EPOCH | VM_INVALID | VM_WRONG_OWNER => OR_INTEGRITY
  | VM_OK | VM_ERROR | VM_SEALED => OR_SAFE_RETRY
  end.

(** The new cursor is after the old one, byte by byte. *)
Fixpoint bytes_lt (a b : bytes) : bool :=
  match a, b with
  | [], [] => false
  | [], _ :: _ => true
  | _ :: _, [] => false
  | x :: a, y :: b => (x <? y) || ((x =? y) && bytes_lt a b)
  end.

Definition cursor_advances (before after : kb_store_vault_rewrap_cursor_t) : bool :=
  (zlen before <=? 640) && (zlen after <=? 640) && bytes_lt before after.

Definition output_snapshot (s : kb_store_vault_rewrap_snapshot_t) : vault_reseal_orchestrator_output_t :=
  {| out_state := ss_state s; out_seal_epoch := ss_seal_epoch s; out_fencing_token := ss_fencing_token s;
     out_old_generation := ss_old_generation s; out_new_generation := ss_new_generation s;
     out_failure_class := take 64 (ss_failure_class s) |}.

(** Local buffers of the calls do not overlap. *)
Definition decode (wire : bytes) : option ResealReceipt.vault_tpm2_reseal_receipt_t :=
  ResealReceipt.vault_reseal_receipt_decode (Some (0, wire)) (Some 4096).
Definition encode (r : ResealReceipt.vault_tpm2_reseal_receipt_t) : option bytes :=
  ResealReceipt.vault_reseal_receipt_encode (Some (0, r)) (Some 4096).

Definition receipt_from_snapshot (s : kb_store_vault_rewrap_snapshot_t)
    : option ResealReceipt.vault_tpm2_reseal_receipt_t :=
  match ss_receipt s with Some (wire, _) => decode wire | None => None end.

(** A receipt as [memset] leaves it. *)
Definition receipt_zero : ResealReceipt.vault_tpm2_reseal_receipt_t :=
  {| ResealReceipt.operation_id := replicate 16 0; ResealReceipt.old_generation := 0;
     ResealReceipt.new_generation := 0; ResealReceipt.predecessor_digest := replicate 32 0;
     ResealReceipt.capsule_digest := replicate 32 0; ResealReceipt.future_digest := replicate 32 0;
     ResealReceipt.new_kek_digest := replicate 32 0; ResealReceipt.manifest_digest := replicate 32 0 |}.

Section Driver.
Context {W TX : Type}.
Variable db : kb_store_vault_rewrap_ops_t W TX.
Variable cu : vault_reseal_custody_ops_t W.
Variable host : host_ops W.

(** ** The variables of a call *)

Record vars := {
  world : W;
  tx : option TX;
  budget : MutationBudget.vault_mutation_budget_t;
  progress : Z;
  workspace : secret_workspace_t;
  last_state : option kb_store_vault_rewrap_state_t;
  output : option vault_reseal_orchestrator_output_t;
  thread : MutationBudget.thread
}.

Definition set_world (w : W) (s : vars) : vars :=
  {| world := w; tx := tx s; budget := budget s; progress := progress s; workspace := workspace s;
     last_state := last_state s; output := output s; thread := thread s |}.
Definition set_tx (t : option TX) (s : vars) : vars :=
  {| world := world s; tx := t; budget := budget s; progress := progress s; workspace := workspace s;
     last_state := last_state s; output := output s; thread := thread s |}.
Definition set_budget (b : MutationBudget.vault_mutation_budget_t) (p : Z) (s : vars) : vars :=
  {| world := world s; tx := tx s; budget := b; progress := p; workspace := workspace s;
     last_state := last_state s; output := output s; thread := thread s |}.
Definition set_workspace (x : secret_workspace_t) (s : vars) : vars :=
  {| world := world s; tx := tx s; budget := budget s; progress := progress s; workspace := x;
     last_state := last_state s; output := output s; thread := thread s |}.
Definition set_last (x : kb_store_vault_rewrap_state_t) (s : vars) : vars :=
  {| world := world s; tx := tx s; budget := budget s; progress := progress s; workspace := workspace s;
     last_state := Some x; output := output s; thread := thread s |}.
Definition set_output (x : vault_reseal_orchestrator_output_t) (s : vars) : vars :=
  {| world := world s; tx := tx s; budget := budget s; progress := progress s; workspace := workspace s;
     last_state := last_state s; output := Some x; thread := thread s |}.
Definition set_thread (x : MutationBudget.thread) (s : vars) : vars :=
  {| world := world s; tx := tx s; budget := budget s; progress := progress s; workspace := workspace s;
     last_state := last_state s; output := output s; thread := x |}.

(** A call on the world. *)
Definition call {A} (f : W -> A * W) : M vars A := fun s => let '(a, w) := f (world s) in (a, set_world w s).

(** A call on the open transaction; [nil] is what a NULL handle gives. *)
Definition on_tx {A} (nil : A) (f : TX -> W -> A * TX * W) : M vars A := fun s =>
  match tx s with
  | None => (nil, s)
  | Some t => let '(a, t', w) := f t (world s) in (a, set_tx (Some t') (set_world w s))
  end.

Definition do_tx_begin : M vars kb_store_vault_rewrap_result_t := fun s =>
  let '(r, t, w) := Rewrap.tx_begin db (world s) in (r, set_tx t (set_world w s)).

Definition do_tx_rollback : M vars unit := fun s =>
  let '(t, w) := Rewrap.tx_rollback db (tx s) (world s) in (tt, set_tx t (set_world w s)).

Definition do_tx_commit : M vars kb_store_vault_rewrap_result_t := fun s =>
  let '(r, t, w) := Rewrap.tx_commit db (tx s) (world s) in (r, set_tx t (set_world w s)).

(** ** The budget *)

Definition budget_advance : M vars bool := fun s =>
  if progress s <? UINT64_MAX then
    let '(now, w) := Rewrap.read_clock host (world s) in
    let '(now', w) := Rewrap.read_clock host w in
    let p := progress s + 1 in
    let '(rc, b) := MutationBudget.vault_mutation_budget_progress (budget s) 1 p now now' in
    (rc =? 0, set_budget b p (set_world w s))
  else (false, s).

Definition bind_inventory (secrets checks : Z) (digest : option bytes) : M vars bool := fun s =>
  let '(now, w) := Rewrap.read_clock host (world s) in
  let '(rc, b) := MutationBudget.vault_mutation_budget_bind_inventory (budget s) (u64 secrets) (u64 checks) digest now in
  (rc =? 0, set_budget b (progress s) (set_world w s)).

Definition begin_cleanup : M vars bool := fun s =>
  let '(now, w) := Rewrap.read_clock host (world s) in
  let '(rc, b) := MutationBudget.vault_mutation_budget_begin_cleanup (budget s) now in
  (rc =? 0, set_budget b (progress s) (set_world w s)).

(** ** One transaction *)

Definition tx_finish (edge : kb_store_vault_rewrap_result_t) : M vars vault_reseal_orchestrator_result_t :=
  if negb (bool_decide (edge = DB_OK)) then do_tx_rollback ;;; ret (db_result edge)
  else
    committed <- do_tx_commit ;;
    (fun s => if bool_decide (is_Some (tx s)) then do_tx_rollback s else (tt, s)) ;;;
    ret (db_result committed).

(** [tx_begin], one statement, [tx_finish]; the statement's own result too. *)
Definition in_tx (f : TX -> W -> kb_store_vault_rewrap_result_t * TX * W)
    : M vars (kb_store_vault_rewrap_result_t * vault_reseal_orchestrator_result_t) :=
  r <- do_tx_begin ;;
  r <- (if bool_decide (r = DB_OK) then on_tx DB_INVALID f else ret r) ;;
  o <- tx_finish r ;;
  ret (r, o).

Definition terminal_edge (s : kb_store_vault_rewrap_snapshot_t) (failure : string) (aborting : bool)
    : M vars vault_reseal_orchestrator_result_t :=
  x <- in_tx ((if aborting then Rewrap.abort db else Rewrap.recovery_required db)
           (ss_operation_id s) (ss_fencing_token s) (str failure)) ;;
  ret x.2.

Definition simple_edge (s : kb_store_vault_rewrap_snapshot_t)
    (fn : bytes -> Z -> TX -> W -> kb_store_vault_rewrap_result_t * TX * W) : M vars vault_reseal_orchestrator_result_t :=
  x <- in_tx (fn (ss_operation_id s) (ss_fencing_token s)) ;; ret x.2.

(** The exit of a callback with [r]. *)
Definition fail {A} (r : kb_store_vault_rewrap_result_t) : M vars (kb_store_vault_rewrap_result_t + A) := ret (inl r).

Definition check_db (r : kb_store_vault_rewrap_result_t) : M vars (kb_store_vault_rewrap_result_t + unit) :=
  if bool_decide (r = DB_OK) then ret (inr tt) else fail r.

Definition check (b : bool) (r : kb_store_vault_rewrap_result_t) : M vars (kb_store_vault_rewrap_result_t + unit) :=
  if b then ret (inr tt) else fail r.

Definition advance_or (r : kb_store_vault_rewrap_result_t) : M vars (kb_store_vault_rewrap_result_t + unit) :=
  ok <- budget_advance ;; check ok r.

(** ** Staging *)

(** One row; the result is the new [after] and [seen_secrets]. *)
Definition stage_secret (op : bytes) (fence : Z) (old_kek : bytes) (count : Z) (row : kb_store_vault_rewrap_secret_t)
    (after seen : Z) : M vars (kb_store_vault_rewrap_result_t + (Z * Z)) := fun s0 =>
  (if source_id row <=? after then fail DB_INTEGRITY
   else
     match Rewrap.dek_unwrap cu old_kek (wrapped_dek row) with
     | None => fail DB_INTEGRITY
     | Some dek =>
         match Rewrap.dek_wrap cu (new_kek (workspace s0)) dek with
         | None => fail DB_INTEGRITY
         | Some wrapped =>
             r <- on_tx DB_INVALID (Rewrap.stage_dek db op fence row wrapped) ;;
             check_db r ?;
             (if (seen =? INT64_MAX) || (count <? seen + 1) then fail DB_INTEGRITY
              else advance_or DB_INTEGRITY ?; ret (inr (source_id row, seen + 1)))
         end
     end) s0.

Fixpoint stage_secrets (op : bytes) (fence : Z) (old_kek : bytes) (count : Z)
    (rows : list kb_store_vault_rewrap_secret_t) (after seen : Z)
    : M vars (kb_store_vault_rewrap_result_t + (Z * Z)) :=
  match rows with
  | [] => ret (inr (after, seen))
  | row :: rows =>
      x <-? stage_secret op fence old_kek count row after seen ;;
      stage_secrets op fence old_kek count rows x.1 x.2
  end.

Definition secret_page_loop (op : bytes) (fence : Z) (old_kek : bytes) (count : Z) : nat -> Z -> Z ->
    M vars (kb_store_vault_rewrap_result_t + Z) :=
  fix loop fuel after seen :=
    match fuel with
    | O => fail DB_ERROR
    | S fuel =>
        p <- on_tx (DB_INVALID, []) (fun t w =>
               let '(r, rows, t, w) := Rewrap.source_secret_page db op fence after 128 t w in ((r, rows), t, w)) ;;
        check_db p.1 ?;
        (if (KB_STORE_VAULT_REWRAP_PAGE_MAX <? length p.2)%nat then fail DB_INTEGRITY
         else
           match p.2 with
           | [] => ret (inr seen)
           | rows => x <-? stage_secrets op fence old_kek count rows after seen ;; loop fuel x.1 x.2
           end)
    end.

Definition stage_check_row (op : bytes) (fence : Z) (old_kek : bytes) (count : Z) (row : kb_store_vault_rewrap_check_t)
    (seen : Z) : M vars (kb_store_vault_rewrap_result_t + Z) := fun s0 =>
  (let store wrapped :=
     r <- on_tx DB_INVALID (Rewrap.stage_check db op fence row wrapped) ;;
     check_db r ?;
     (if (seen =? INT64_MAX) || (count <? seen + 1) then fail DB_INTEGRITY
      else advance_or DB_INTEGRITY ?; ret (inr (seen + 1))) in
   match kek_check row with
   | [] => store []
   | _ :: _ =>
       if negb (length (kek_check row) =? VAULT_WRAPPED_DEK_LEN)%nat
          || negb (Rewrap.check_verify cu old_kek (kek_check row)) then fail DB_INTEGRITY
       else
         match Rewrap.check_wrap cu (new_kek (workspace s0)) with
         | None => fail DB_INTEGRITY
         | Some wrapped => store wrapped
         end
   end) s0.

Fixpoint stage_checks (op : bytes) (fence : Z) (old_kek : bytes) (count : Z)
    (rows : list kb_store_vault_rewrap_check_t) (seen : Z) : M vars (kb_store_vault_rewrap_result_t + Z) :=
  match rows with
  | [] => ret (inr seen)
  | row :: rows =>
      seen <-? stage_check_row op fence old_kek count row seen ;; stage_checks op fence old_kek count rows seen
  end.

Definition check_page_loop (op : bytes) (fence : Z) (old_kek : bytes) (count : Z)
    : nat -> kb_store_vault_rewrap_cursor_t -> Z -> M vars (kb_store_vault_rewrap_result_t + Z) :=
  fix loop fuel cursor seen :=
    match fuel with
    | O => fail DB_ERROR
    | S fuel =>
        p <- on_tx (DB_INVALID, ([], [])) (fun t w =>
               let '(r, page, t, w) := Rewrap.source_check_page db op fence cursor 128 t w in ((r, page), t, w)) ;;
        check_db p.1 ?;
        (let '(rows, next) := p.2 in
         if (KB_STORE_VAULT_REWRAP_PAGE_MAX <? length rows)%nat then fail DB_INTEGRITY
         else
           match rows with
           | [] => ret (inr seen)
           | rows =>
               if negb (cursor_advances cursor next) then fail DB_INTEGRITY
               else seen <-? stage_checks op fence old_kek count rows seen ;; loop fuel next seen
           end)
    end.

(** Between [tx_begin] and [stage_finish]: each page but the last holds a row
    that is counted, so as many rounds as there are rows and two are enough. *)
Definition rounds (count : Z) : nat := S (S (Z.to_nat count)).

Definition stage_body (s : kb_store_vault_rewrap_snapshot_t) (old_kek : bytes)
    : M vars (kb_store_vault_rewrap_result_t + kb_store_vault_rewrap_inventory_summary_t) :=
  let op := ss_operation_id s in
  let fence := ss_fencing_token s in
  p <- on_tx (DB_INVALID, {| in_secret_count := 0; in_check_count := 0; in_inventory_digest := [] |}) (fun t w =>
         let '(r, i, t, w) := Rewrap.inventory_summary db op fence t w in ((r, i), t, w)) ;;
  check_db p.1 ?;
  (let inventory := p.2 in
   ok <- bind_inventory (in_secret_count inventory) (in_check_count inventory) (Some (in_inventory_digest inventory)) ;;
   check ok DB_INTEGRITY ?;
   advance_or DB_INTEGRITY ?;
   seen_secrets <-? secret_page_loop op fence old_kek (in_secret_count inventory) (rounds (in_secret_count inventory)) 0 0 ;;
   seen_checks <-? check_page_loop op fence old_kek (in_check_count inventory) (rounds (in_check_count inventory)) [] 0 ;;
   check ((seen_secrets =? in_secret_count inventory) && (seen_checks =? in_check_count inventory)) DB_INTEGRITY ?;
   ret (inr inventory)).

Definition callback_status (r : vault_reseal_orchestrator_result_t) : vault_maintenance_result_t :=
  if bool_decide (r = OR_COMPLETED) then VM_OK else VM_ERROR.

(** The common frame of both callbacks: two buffers, a transaction, the body,
    its last statement and the commit. *)
Definition callback {A} (body : M vars (kb_store_vault_rewrap_result_t + A))
    (last : A -> M vars kb_store_vault_rewrap_result_t) : M vars vault_reseal_orchestrator_result_t :=
  secrets <- call (Rewrap.allocate host) ;;
  checks <- call (Rewrap.allocate host) ;;
  if negb (secrets && checks) then ret OR_ERROR
  else
    r <- do_tx_begin ;;
    if negb (bool_decide (r = DB_OK)) then ret (db_result r)
    else
      e <- body ;;
      match e with
      | inl r => do_tx_rollback ;;; ret (db_result r)
      | inr a =>
          r <- last a ;;
          r <- (if bool_decide (r = DB_OK)
                then ok <- budget_advance ;; ret (if ok then DB_OK else DB_TRANSIENT) else ret r) ;;
          tx_finish r
      end.

Definition stage_callback (s : kb_store_vault_rewrap_snapshot_t) (old_kek : bytes)
    : M vars vault_reseal_orchestrator_result_t :=
  callback (stage_body s old_kek) (fun inventory =>
    on_tx DB_INVALID (Rewrap.stage_finish db (ss_operation_id s) (ss_fencing_token s) inventory)).

(** ** Verifying *)

Fixpoint verify_secrets (kek : bytes) (rows : list kb_store_vault_rewrap_secret_t) (after : Z) : option Z :=
  match rows with
  | [] => Some after
  | row :: rows =>
      if (source_id row <=? after) || negb (bool_decide (is_Some (Rewrap.dek_unwrap cu kek (wrapped_dek row))))
      then None
      else verify_secrets kek rows (source_id row)
  end.

Definition page_limit (remaining : Z) : Z := if remaining <? 128 then remaining else 128.

Definition verify_secret_loop (op : bytes) (fence : Z) (kek : bytes) (count : Z)
    : nat -> Z -> Z -> M vars (kb_store_vault_rewrap_result_t + (Z * Z)) :=
  fix loop fuel after seen :=
    if count <=? seen then ret (inr (after, seen))
    else
      match fuel with
      | O => fail DB_ERROR
      | S fuel =>
          let remaining := count - seen in
          let limit := page_limit remaining in
          p <- on_tx (DB_INVALID, []) (fun t w =>
                 let '(r, rows, t, w) := Rewrap.verify_secret_page db op fence after limit t w in ((r, rows), t, w)) ;;
          check_db p.1 ?;
          (let n := Z.of_nat (length p.2) in
           if (n =? 0) || (limit <? n) || (remaining <? n) then fail DB_INTEGRITY
           else
             match verify_secrets kek p.2 after with
             | None => fail DB_INTEGRITY
             | Some after => advance_or DB_TRANSIENT ?; loop fuel after (seen + n)
             end)
      end.

Definition check_row_ok (kek : bytes) (row : kb_store_vault_rewrap_check_t) : bool :=
  match kek_check row with
  | [] => true
  | _ :: _ => (length (kek_check row) =? VAULT_WRAPPED_DEK_LEN)%nat && Rewrap.check_verify cu kek (kek_check row)
  end.

Definition verify_check_loop (op : bytes) (fence : Z) (kek : bytes) (count : Z)
    : nat -> kb_store_vault_rewrap_cursor_t -> Z ->
      M vars (kb_store_vault_rewrap_result_t + (kb_store_vault_rewrap_cursor_t * Z)) :=
  fix loop fuel cursor seen :=
    if count <=? seen then ret (inr (cursor, seen))
    else
      match fuel with
      | O => fail DB_ERROR
      | S fuel =>
          let remaining := count - seen in
          let limit := page_limit remaining in
          p <- on_tx (DB_INVALID, ([], [])) (fun t w =>
                 let '(r, page, t, w) := Rewrap.verify_check_page db op fence cursor limit t w in ((r, page), t, w)) ;;
          check_db p.1 ?;
          (let '(rows, next) := p.2 in
           let n := Z.of_nat (length rows) in
           if (n =? 0) || (limit <? n) || (remaining <? n) || negb (cursor_advances cursor next) then fail DB_INTEGRITY
           else if negb (forallb (check_row_ok kek) rows) then fail DB_INTEGRITY
           else advance_or DB_TRANSIENT ?; loop fuel next (seen + n))
      end.

Definition verify_body (s : kb_store_vault_rewrap_snapshot_t) (kek : bytes)
    : M vars (kb_store_vault_rewrap_result_t + kb_store_vault_rewrap_verify_summary_t) :=
  let op := ss_operation_id s in
  let fence := ss_fencing_token s in
  p <- on_tx (DB_INVALID, {| vs_secret_count := 0; vs_check_count := 0; vs_receipt_digest := [];
                             vs_inventory_digest := []; vs_stage_digest := [] |}) (fun t w =>
         let '(r, i, t, w) := Rewrap.verify_summary db op fence t w in ((r, i), t, w)) ;;
  check_db p.1 ?;
  (let sum := p.2 in
   ok <- bind_inventory (vs_secret_count sum) (vs_check_count sum) (Some (vs_inventory_digest sum)) ;;
   check ok DB_INTEGRITY ?;
   advance_or DB_INTEGRITY ?;
   a <-? verify_secret_loop op fence kek (vs_secret_count sum) (Z.to_nat (vs_secret_count sum)) 0 0 ;;
   p <- on_tx (DB_INVALID, []) (fun t w =>
          let '(r, rows, t, w) := Rewrap.verify_secret_page db op fence a.1 1 t w in ((r, rows), t, w)) ;;
   check_db p.1 ?;
   check (bool_decide (p.2 = [])) DB_INTEGRITY ?;
   c <-? verify_check_loop op fence kek (vs_check_count sum) (Z.to_nat (vs_check_count sum)) [] 0 ;;
   q <- on_tx (DB_INVALID, ([], [])) (fun t w =>
          let '(r, page, t, w) := Rewrap.verify_check_page db op fence c.1 1 t w in ((r, page), t, w)) ;;
   check_db q.1 ?;
   check (bool_decide (q.2.1 = []) && bool_decide (q.2.2 = c.1)) DB_INTEGRITY ?;
   check ((a.2 =? vs_secret_count sum) && (c.2 =? vs_check_count sum)) DB_INTEGRITY ?;
   ret (inr sum)).

Definition verify_callback (s : kb_store_vault_rewrap_snapshot_t) (kek : bytes)
    : M vars vault_reseal_orchestrator_result_t :=
  let op := ss_operation_id s in
  let fence := ss_fencing_token s in
  callback (verify_body s kek) (fun sum =>
    r <- on_tx DB_INVALID (Rewrap.verify_crypto_ack db op fence) ;;
    if bool_decide (r = DB_OK)
    then on_tx DB_INVALID (Rewrap.complete db op fence (vs_receipt_digest sum) (vs_inventory_digest sum)
                            (vs_stage_digest sum))
    else ret r).

(** [guard_with_active_kek] with one of the two callbacks. *)
Definition with_active_kek (cb : bytes -> M vars vault_reseal_orchestrator_result_t)
    : M vars vault_reseal_orchestrator_result_t :=
  k <- call (Rewrap.guard_active_kek cu) ;;
  match k with
  | inl e => ret (guard_callback_result e OR_ERROR)
  | inr kek => r <- cb kek ;; ret (guard_callback_result (callback_status r) r)
  end.

(** ** Edges *)

Definition bad (r : vault_reseal_orchestrator_result_t) : bool :=
  bool_decide (r = OR_INTEGRITY) || bool_decide (r = OR_INVALID).

Definition set_kek (kek : bytes) (has : bool) : M vars unit := fun s =>
  (tt, set_workspace {| new_kek := kek; has_new_kek := has |} s).

(** [recover_kek] into the workspace. *)
Definition recover (receipt : ResealReceipt.vault_tpm2_reseal_receipt_t) (secret : bytes)
    : M vars vault_tpm2_reseal_result_t :=
  x <- call (Rewrap.recover_kek cu receipt secret) ;;
  set_kek x.2 (bool_decide (x.1 = CU_OK)) ;;;
  ret x.1.

(** What a preparation ends with: a receipt to record, a result to report, or
    an edge that was already taken. *)
Inductive prepared :=
  | PR_receipt (r : ResealReceipt.vault_tpm2_reseal_receipt_t)
  | PR_result (r : vault_reseal_orchestrator_result_t)
  | PR_done (r : vault_reseal_orchestrator_result_t).

(** The response of [prepare] was lost or bad: see what it left. *)
Definition rediscover (s : kb_store_vault_rewrap_snapshot_t) (secret : bytes) (cr : vault_tpm2_reseal_result_t)
    : M vars prepared :=
  x <- call (Rewrap.discover cu (ss_operation_id s) (u64 (ss_old_generation s)) secret) ;;
  let '(dc, (dr, ds)) := x in
  if bool_decide (dc = CU_OK) && bool_decide (ds = TPM_PREPARED) then
    rr <- recover dr secret ;;
    ret (if bool_decide (rr = CU_OK) then PR_receipt dr else PR_result (custody_result rr))
  else if bool_decide (dc = CU_OK) && negb (bool_decide (ds = TPM_ABSENT)) then
    o <- terminal_edge s "generation_conflict" false ;; ret (PR_done o)
  else if bool_decide (dc = CU_INTEGRITY) then ret (PR_result OR_INTEGRITY)
  else if negb (bool_decide (dc = CU_OK)) then ret (PR_result (custody_result dc))
  else ret (PR_result (custody_result cr)).

Definition prepare_new (s : kb_store_vault_rewrap_snapshot_t) (secret : bytes) : M vars prepared :=
  k <- call (Rewrap.random cu) ;;
  match k with
  | None => ret (PR_result OR_ERROR)
  | Some kek =>
      set_kek kek true ;;;
      x <- call (Rewrap.prepare cu (ss_operation_id s) (u64 (ss_old_generation s)) kek secret) ;;
      if bool_decide (x.1 = CU_OK) then ret (PR_receipt x.2) else rediscover s secret x.1
  end.

Definition record_receipt (s : kb_store_vault_rewrap_snapshot_t) (receipt : ResealReceipt.vault_tpm2_reseal_receipt_t)
    : M vars vault_reseal_orchestrator_result_t :=
  match encode receipt with
  | None => terminal_edge s "receipt_mismatch" false
  | Some wire =>
      x <- in_tx (Rewrap.record_prepared db (ss_operation_id s) (ss_fencing_token s) (ss_old_generation s)
                   (ss_new_generation s) wire) ;;
      ret x.2
  end.

Definition preparing_edge (s : kb_store_vault_rewrap_snapshot_t) (st : vault_tpm2_reseal_status_t)
    (receipt : ResealReceipt.vault_tpm2_reseal_receipt_t) (secret : bytes) : M vars vault_reseal_orchestrator_result_t :=
  p <- (if bool_decide (st = TPM_ABSENT) then prepare_new s secret
        else cr <- recover receipt secret ;;
             ret (if bool_decide (cr = CU_OK) then PR_receipt receipt else PR_result (custody_result cr))) ;;
  match p with
  | PR_done o => ret o
  | PR_result o => if bad o then terminal_edge s "receipt_mismatch" false else ret o
  | PR_receipt r =>
      o <- record_receipt s r ;;
      if bad o then terminal_edge s "receipt_mismatch" false else ret o
  end.

(** [r], or the terminal edge when it is one of [bad]. *)
Definition or_terminal (s : kb_store_vault_rewrap_snapshot_t) (failure : string)
    (when : vault_reseal_orchestrator_result_t -> bool) (r : vault_reseal_orchestrator_result_t)
    : M vars vault_reseal_orchestrator_result_t :=
  if when r then terminal_edge s failure false else ret r.

Definition is_integrity (r : vault_reseal_orchestrator_result_t) : bool := bool_decide (r = OR_INTEGRITY).

Definition staging_edge (s : kb_store_vault_rewrap_snapshot_t) (receipt : ResealReceipt.vault_tpm2_reseal_receipt_t)
    (secret : bytes) : M vars vault_reseal_orchestrator_result_t := fun s0 =>
  (cr <- (if has_new_kek (workspace s0) then ret CU_OK else recover receipt secret) ;;
   if negb (bool_decide (cr = CU_OK)) then or_terminal s "custody_integrity" is_integrity (custody_result cr)
   else
     u <- call (Rewrap.guard_unseal cu secret) ;;
     if negb (bool_decide (u = VM_OK)) then ret (guard_operation_result u)
     else
       r <- with_active_kek (stage_callback s) ;;
       or_terminal s "source_integrity" is_integrity r) s0.

Definition missing_edge (s : kb_store_vault_rewrap_snapshot_t) (receipt : ResealReceipt.vault_tpm2_reseal_receipt_t)
    (secret : bytes) : M vars vault_reseal_orchestrator_result_t :=
  ar <- call (Rewrap.custody_abort cu receipt secret) ;;
  if negb (bool_decide (ar = CU_OK)) then ret (custody_result ar)
  else
    x <- call (Rewrap.discover cu (ss_operation_id s) (u64 (ss_old_generation s)) secret) ;;
    let '(dr, (_, after_abort)) := x in
    if bool_decide (dr = CU_OK) && bool_decide (after_abort = TPM_ABSENT) then
      g <- call (Rewrap.nv_generation cu secret) ;;
      if negb (bool_decide (g.1 = CU_OK)) then ret (custody_result g.1)
      else if negb (g.2 =? u64 (ss_old_generation s)) then terminal_edge s "generation_conflict" false
      else terminal_edge s "prepared_missing" true
    else if bool_decide (dr = CU_OK) || bool_decide (dr = CU_INTEGRITY) then
      terminal_edge s "custody_integrity" false
    else ret (custody_result dr).

Definition committing_edge (s : kb_store_vault_rewrap_snapshot_t) (receipt : ResealReceipt.vault_tpm2_reseal_receipt_t)
    (secret : bytes) : M vars vault_reseal_orchestrator_result_t :=
  x <- call (Rewrap.commit cu receipt secret) ;;
  let '(cr, installed) := x in
  if negb (bool_decide (cr = CU_OK)) then or_terminal s "custody_integrity" is_integrity (custody_result cr)
  else if negb (bool_decide (installed = TPM_INSTALLED)) then terminal_edge s "custody_integrity" false
  else
    y <- in_tx (Rewrap.mark_resealed db (ss_operation_id s) (ss_fencing_token s)
                 (match ss_receipt s with Some (_, d) => d | None => replicate 32 0 end)) ;;
    or_terminal s "receipt_mismatch" bad y.2.

Definition promoted_edge (s : kb_store_vault_rewrap_snapshot_t) (secret : bytes)
    : M vars vault_reseal_orchestrator_result_t :=
  r <- call (Rewrap.guard_seal cu) ;;
  if negb (bool_decide (r = VM_OK)) then ret (guard_operation_result r)
  else
    u <- call (Rewrap.guard_unseal cu secret) ;;
    if negb (bool_decide (u = VM_OK)) then ret (guard_operation_result u)
    else
      o <- with_active_kek (verify_callback s) ;;
      or_terminal s "verification_integrity" is_integrity o.

(** The edge that fits the state and what the custody holds. *)
Definition take_edge (s : kb_store_vault_rewrap_snapshot_t) (receipt : ResealReceipt.vault_tpm2_reseal_receipt_t)
    (st : vault_tpm2_reseal_status_t) (secret : bytes) : M vars vault_reseal_orchestrator_result_t :=
  match ss_state s, st with
  | RW_ABORTED, TPM_ABSENT => ret OR_ABORTED
  | RW_ABORTED, _ => ret OR_INTEGRITY
  | RW_COMPLETED, (TPM_INSTALLED | TPM_CLEANED) => ret OR_COMPLETED
  | RW_COMPLETED, _ => ret OR_INTEGRITY
  | RW_PREPARING, (TPM_ABSENT | TPM_PREPARED) => preparing_edge s st receipt secret
  | RW_CUSTODY_PREPARED, TPM_PREPARED => staging_edge s receipt secret
  | (RW_CUSTODY_PREPARED | RW_WRAPS_STAGED), TPM_ABSENT => missing_edge s receipt secret
  | RW_WRAPS_STAGED, TPM_PREPARED =>
      r <- simple_edge s (Rewrap.mark_committing db) ;; or_terminal s "commit_intent_integrity" bad r
  | RW_RESEAL_COMMITTING, (TPM_PREPARED | TPM_NV_ADVANCED | TPM_INSTALLED) => committing_edge s receipt secret
  | RW_RESEALED, TPM_INSTALLED =>
      r <- simple_edge s (Rewrap.promote db) ;; or_terminal s "promotion_integrity" bad r
  | RW_PROMOTED, TPM_INSTALLED => promoted_edge s secret
  | _, _ => terminal_edge s "generation_conflict" false
  end.

(** ** Rounds *)

(** How a round ends: with the result of the call, or with the next round,
    the result so far and whether the operation is still to be begun. *)
Inductive verdict :=
  | Stop (r : vault_reseal_orchestrator_result_t)
  | Again (r : vault_reseal_orchestrator_result_t) (starting : bool).

Definition begin_edge (req : vault_reseal_orchestrator_request_t) (old_generation new_generation : Z) : M vars verdict :=
  x <- in_tx (Rewrap.begin db (rq_actor req) (rq_request_id req) (rq_operation_id req) old_generation new_generation) ;;
  let '(begin_result, result) := x in
  let result := match begin_result with DB_CONFLICT | DB_INTEGRITY | DB_INVALID => OR_INTEGRITY | _ => result end in
  ret (if bool_decide (result = OR_COMPLETED) then Again result false else Stop result).

Definition first_edge (req : vault_reseal_orchestrator_request_t) : M vars verdict :=
  g <- call (Rewrap.nv_generation cu (rq_provider_secret req)) ;;
  let '(cr, gen) := g in
  if negb (bool_decide (cr = CU_OK)) then ret (Stop (custody_result cr))
  else if INT64_MAX <=? gen then ret (Stop OR_INTEGRITY)
  else begin_edge req gen (gen + 1).

Definition active (st : kb_store_vault_rewrap_state_t) : bool :=
  negb (bool_decide (st = RW_COMPLETED)) && negb (bool_decide (st = RW_ABORTED)).

(** What the custody holds for the operation. *)
Definition ask_custody (s : kb_store_vault_rewrap_snapshot_t) (secret : bytes)
    : M vars (vault_tpm2_reseal_result_t * (ResealReceipt.vault_tpm2_reseal_receipt_t * vault_tpm2_reseal_status_t)) :=
  if bool_decide (ss_state s = RW_PREPARING)
     || (bool_decide (ss_state s = RW_ABORTED) && bool_decide (ss_receipt s = None)) then
    call (Rewrap.discover cu (ss_operation_id s) (u64 (ss_old_generation s)) secret)
  else
    match receipt_from_snapshot s with
    | Some receipt =>
        x <- call (Rewrap.status cu receipt secret) ;; ret (x.1, (receipt, x.2))
    | None => ret (CU_INTEGRITY, (receipt_zero, TPM_CORRUPT))
    end.

Definition settle (r : vault_reseal_orchestrator_result_t) : M vars verdict := fun s =>
  (if negb (bool_decide (r = OR_COMPLETED)) then Stop r
   else match output s with
        | Some o => if bool_decide (out_state o = RW_COMPLETED) then Stop r else Again OR_SAFE_RETRY false
        | None => Again OR_SAFE_RETRY false
        end, s).

(** From the reported snapshot on. *)
Definition drive (req : vault_reseal_orchestrator_request_t) (s : kb_store_vault_rewrap_snapshot_t) : M vars verdict :=
  (fun v => (tt, set_output (output_snapshot s) v)) ;;;
  if bool_decide (ss_state s = RW_RECOVERY_REQUIRED) then ret (Stop OR_RECOVERY_REQUIRED)
  else
    sync <- (if active (ss_state s) then call (Rewrap.guard_sync_epoch cu (u64 (ss_seal_epoch s))) else ret VM_OK) ;;
    if negb (bool_decide (sync = VM_OK)) then ret (Stop (guard_operation_result sync))
    else
      c <- ask_custody s (rq_provider_secret req) ;;
      let '(cr, (receipt, st)) := c in
      if negb (bool_decide (cr = CU_OK)) then
        let result := custody_result cr in
        result <- (if is_integrity result && active (ss_state s) then terminal_edge s "custody_integrity" false
                   else ret result) ;;
        ret (if bool_decide (result = OR_COMPLETED) then Again OR_SAFE_RETRY false else Stop result)
      else
        result <- take_edge s receipt st (rq_provider_secret req) ;;
        settle result.

Definition changed (x : option kb_store_vault_rewrap_state_t) (st : kb_store_vault_rewrap_state_t) : bool :=
  negb (bool_decide (x = Some st)).

Definition edge_round (req : vault_reseal_orchestrator_request_t) (starting : bool) : M vars verdict :=
  x <- call (Rewrap.snapshot db (rq_operation_id req)) ;;
  let '(sr, s) := x in
  if bool_decide (sr = DB_NOT_FOUND) && starting then first_edge req
  else if negb (bool_decide (sr = DB_OK)) then
    ret (Stop (if bool_decide (sr = DB_NOT_FOUND) then OR_INVALID else db_result sr))
  else
    bound <- (match ss_inventory_digest s with
              | Some d => bind_inventory (ss_secret_count s) (ss_check_count s) (Some d)
              | None => ret true
              end) ;;
    if negb bound then ret (Stop OR_INTEGRITY)
    else
      stalled <- (fun v =>
        if changed (last_state v) (ss_state s) then
          let '(ok, v) := budget_advance v in (negb ok, if ok then set_last (ss_state s) v else v)
        else (false, v)) ;;
      if (stalled : bool) then ret (Stop OR_SAFE_RETRY)
      else if starting then begin_edge req (ss_old_generation s) (ss_new_generation s)
      else drive req s.

Fixpoint edges (n : nat) (req : vault_reseal_orchestrator_request_t) (starting : bool)
    (result : vault_reseal_orchestrator_result_t) : M vars vault_reseal_orchestrator_result_t :=
  match n with
  | O => ret result
  | S n =>
      v <- edge_round req starting ;;
      match v with
      | Stop r => ret r
      | Again r starting => edges n req starting r
      end
  end.

Definition close_guard (result : vault_reseal_orchestrator_result_t) : M vars vault_reseal_orchestrator_result_t :=
  a <- begin_cleanup ;;
  b <- call (Rewrap.guard_seal cu) ;;
  c <- call (Rewrap.guard_end cu) ;;
  ret (if (a : bool) && bool_decide (b = VM_OK) && bool_decide (c = VM_OK) then result else OR_ERROR).

Definition guarded (req : vault_reseal_orchestrator_request_t) : M vars vault_reseal_orchestrator_result_t :=
  a <- call (Rewrap.arena_new host) ;;
  if negb a then ret OR_ERROR
  else
    b <- call (Rewrap.arena_new host) ;;
    if negb b then ret OR_ERROR
    else
      set_kek (replicate VAULT_KEK_LEN 0) false ;;;
      g <- call (Rewrap.guard_begin cu) ;;
      if negb (bool_decide (g = VM_OK)) then ret (if bool_decide (g = VM_BUSY) then OR_BUSY else OR_ERROR)
      else
        result <- edges VAULT_RESEAL_ORCHESTRATOR_EDGE_MAX req (bool_decide (rq_mode req = MODE_START)) OR_ERROR ;;
        close_guard result.

Definition vault_reseal_orchestrator_run (req : vault_reseal_orchestrator_request_t)
    : M vars vault_reseal_orchestrator_result_t :=
  if negb (request_valid req) then ret OR_INVALID
  else if negb (Rewrap.supported cu) then ret OR_UNSUPPORTED
  else
    e <- (fun s => let '(rc, t) := MutationBudget.vault_mutation_budget_enter (thread s) (Some (rq_budget req)) in
                   (rc, set_thread t s)) ;;
    if negb (e =? 0) then ret OR_INVALID
    else
      result <- guarded req ;;
      l <- (fun s => let '(rc, t) := MutationBudget.vault_mutation_budget_leave (thread s) (Some (rq_budget req)) in
                     (rc, set_thread t s)) ;;
      ret (if l =? 0 then result else OR_ERROR).

(** A call on a world: fresh variables, a budget and the thread's stack. *)
Definition run (req : vault_reseal_orchestrator_request_t) (b : MutationBudget.vault_mutation_budget_t)
    (t : MutationBudget.thread) (w : W)
    : vault_reseal_orchestrator_result_t * option vault_reseal_orchestrator_output_t * W :=
  let '(r, s) := vault_reseal_orchestrator_run req
    {| world := w; tx := None; budget := b; progress := 0;
       workspace := {| new_kek := replicate VAULT_KEK_LEN 0; has_new_kek := false |};
       last_state := None; output := None; thread := t |} in
  (r, output s, world s).

End Driver.
End ResealRun.
