(* ===== verification/ResealPages.v ===== *)
(** * The page loops of the driver end

    The loops of [ResealRun] over pages of rows have fuel; here, for any
    store, custody and host, more fuel than they are given changes nothing:
    each round but the last counts a row, and no more rows than the inventory
    has are ever counted. *)

From Stdlib Require Import ZArith Lia String Ascii.
From stdpp Require Import base numbers option list.
From S2P Require Import Prelude ResealReceipt MutationBudget Rewrap ResealRun.

Module ResealPages.
Import Rewrap ResealRun.
Open Scope rewrap_scope.

Section Pages.
Context {W TX : Type}.
Variable db : kb_store_vault_rewrap_ops_t W TX.
Variable cu : vault_reseal_custody_ops_t W.
Variable host : host_ops W.
Local Abbreviation S0 := (@vars W TX).
Local Abbreviation fails_or Q := (fun x (_ : S0) => match x with inl _ => True | inr y => Q y end).

Lemma try_ext {E A B} (m : M S0 (E + A)) (k k' : A -> M S0 (E + B)) s :
  (forall a s', (m s).1 = inr a -> k a s' = k' a s') -> try_ m k s = try_ m k' s.
Proof. intros H. unfold try_, bind. destruct (m s) as [[e|a] s']; [done|]. by apply H. Qed.

Lemma triple_any {A} (m : M S0 A) : triple (fun _ => True) m (fun _ _ => True).
Proof. done. Qed.

Lemma triple_then {E A B} (m : M S0 (E + A)) (k : A -> M S0 (E + B)) Q :
  (forall a, triple (fun _ => True) (k a) (fails_or Q)) -> triple (fun _ => True) (try_ m k) (fails_or Q).
Proof. intros H. eapply triple_try; [apply triple_any | done | exact H]. Qed.

Lemma triple_fail {A} r (Q : A -> Prop) : triple (fun _ => True) (fail r) (fails_or Q).
Proof. by apply triple_ret. Qed.

(** A row that is staged is counted, within the inventory. *)
Lemma counted {A} seen count r (a : A) (Q : A -> Prop) : (seen + 1 <= count -> Q a) ->
  triple (fun _ => True)
    (if (seen =? INT64_MAX) || (count <? seen + 1) then fail DB_INTEGRITY
     else advance_or host r ?; ret (inr a)) (fails_or Q).
Proof.
  intros HQ. destruct (_ || _) eqn:B; [apply triple_fail|]. apply orb_false_iff in B as [_ B%Z.ltb_ge].
  apply triple_then. intros u. apply triple_ret. intros s _. by apply HQ.
Qed.

Lemma row_counted {A} seen count (m : M S0 kb_store_vault_rewrap_result_t) (a : A) (Q : A -> Prop) :
  (seen + 1 <= count -> Q a) ->
  triple (fun _ => True)
    (r <- m ;;
     check_db r ?;
     (if (seen =? INT64_MAX) || (count <? seen + 1) then fail DB_INTEGRITY
      else advance_or host DB_INTEGRITY ?; ret (inr a))) (fails_or Q).
Proof. intros HQ. eapply triple_bind; [apply triple_any|]. intros r. apply triple_then. intros u. by apply counted. Qed.

Lemma stage_secret_counts op fence kek count row after seen :
  triple (fun _ => True) (stage_secret db cu host op fence kek count row after seen)
    (fails_or (fun y => y.2 = seen + 1 /\ y.2 <= count)).
Proof.
  intros s _. unfold stage_secret. destruct (_ <=? _); [by apply triple_fail|].
  destruct (Rewrap.dek_unwrap _ _ _); [|by apply triple_fail]. destruct (Rewrap.dek_wrap _ _ _); [|by apply triple_fail].
  by apply (row_counted seen count _ (source_id row, seen + 1) (fun y => y.2 = seen + 1 /\ y.2 <= count)).
Qed.

Lemma stage_secrets_count op fence kek count rows after seen :
  triple (fun _ => True) (stage_secrets db cu host op fence kek count rows after seen)
    (fails_or (fun y => y.2 = seen + Z.of_nat (length rows) /\ (rows <> [] -> y.2 <= count))).
Proof.
  revert after seen. induction rows as [|row rows IH]; intros after seen.
  - apply triple_ret. intros s _. cbn. split; [lia | done].
  - cbn [stage_secrets]. eapply triple_try; [apply stage_secret_counts | done|]. intros x s [H1 H2].
    specialize (IH x.1 x.2 s I). destruct (stage_secrets _ _ _ _ _ _ _ rows x.1 x.2 s) as [[e|y] s']; [done|].
    cbn in *. destruct IH as [H3 H4]. cbn [length]. split; [lia|]. intros _.
    destruct rows; [cbn in H3; lia | by apply H4].
Qed.

Lemma stage_check_counts op fence kek count row seen :
  triple (fun _ => True) (stage_check_row db cu host op fence kek count row seen)
    (fails_or (fun y => y = seen + 1 /\ y <= count)).
Proof.
  intros s _. unfold stage_check_row. cbn zeta.
  pose proof (fun w => row_counted seen count (on_tx DB_INVALID (Rewrap.stage_check db op fence row w)) (seen + 1)
    (fun y => y = seen + 1 /\ y <= count) ltac:(done)) as H.
  destruct (kek_check row); [by apply H|]. destruct (negb _ || negb _); [by apply triple_fail|].
  destruct (Rewrap.check_wrap _ _); [by apply H | by apply triple_fail].
Qed.

Lemma stage_checks_count op fence kek count rows seen :
  triple (fun _ => True) (stage_checks db cu host op fence kek count rows seen)
    (fails_or (fun y => y = seen + Z.of_nat (length rows) /\ (rows <> [] -> y <= count))).
Proof.
  revert seen. induction rows as [|row rows IH]; intros seen.
  - apply triple_ret. intros s _. cbn. split; [lia | done].
  - cbn [stage_checks]. eapply triple_try; [apply stage_check_counts | done|]. intros x s [H1 H2].
    specialize (IH x s I). destruct (stage_checks _ _ _ _ _ _ _ rows x s) as [[e|y] s']; [done|].
    cbn in *. destruct IH as [H3 H4]. cbn [length]. split; [lia|]. intros _.
    destruct rows; [cbn in H3; lia | by apply H4].
Qed.

(** ** More fuel changes nothing *)

Lemma bind_ext {A B} (m : M S0 A) (k k' : A -> M S0 B) s : (forall a s', k a s' = k' a s') -> bind m k s = bind m k' s.
Proof. intros H. unfold bind. by destruct (m s). Qed.

Lemma secret_pages_fuel op fence kek count n m after seen s :
  (Z.to_nat (count - seen) + 1 <= n)%nat -> (Z.to_nat (count - seen) + 1 <= m)%nat ->
  secret_page_loop db cu host op fence kek count n after seen s = secret_page_loop db cu host op fence kek count m after seen s.
Proof.
  revert m after seen s. induction n as [|n IH]; intros [|m] after seen s Hn Hm; try lia. cbn [secret_page_loop].
  apply bind_ext. intros p s1. apply try_ext. intros _ s2 _. destruct (_ <? _)%nat; [done|].
  destruct p.2 as [|row rows]; [done|]. apply try_ext. intros x s3 E.
  pose proof (stage_secrets_count op fence kek count (row :: rows) after seen s2 I) as H. rewrite E in H.
  destruct H as [H1 H2]. specialize (H2 ltac:(done)). cbn [length] in H1. apply IH; lia.
Qed.

Lemma check_pages_fuel op fence kek count n m cursor seen s :
  (Z.to_nat (count - seen) + 1 <= n)%nat -> (Z.to_nat (count - seen) + 1 <= m)%nat ->
  check_page_loop db cu host op fence kek count n cursor seen s = check_page_loop db cu host op fence kek count m cursor seen s.
Proof.
  revert m cursor seen s. induction n as [|n IH]; intros [|m] cursor seen s Hn Hm; try lia. cbn [check_page_loop].
  apply bind_ext. intros [r [rows next]] s1. apply try_ext. intros _ s2 _. cbn [fst snd]. destruct (_ <? _)%nat; [done|].
  destruct rows as [|row rows]; [done|]. destruct (negb _); [done|]. apply try_ext. intros x s3 E.
  pose proof (stage_checks_count op fence kek count (row :: rows) seen s2 I) as H. rewrite E in H.
  destruct H as [H1 H2]. specialize (H2 ltac:(done)). cbn [length] in H1. apply IH; lia.
Qed.

Lemma verify_secrets_fuel op fence kek count n m after seen s :
  (Z.to_nat (count - seen) <= n)%nat -> (Z.to_nat (count - seen) <= m)%nat ->
  verify_secret_loop db cu host op fence kek count n after seen s = verify_secret_loop db cu host op fence kek count m after seen s.
Proof.
  revert m after seen s. induction n as [|n IH]; intros [|m] after seen s Hn Hm;
    cbn [verify_secret_loop]; destruct (Z.leb_spec count seen) as [|Hc]; try done; try lia.
  apply bind_ext. intros p s1. apply try_ext. intros _ s2 _. destruct (_ || _) eqn:B; [done|].
  destruct (verify_secrets _ _ _ _); [|done]. apply try_ext. intros _ s3 _.
  apply orb_false_iff in B as [[B _]%orb_false_iff _]. apply Z.eqb_neq in B. apply IH; lia.
Qed.

Lemma verify_checks_fuel op fence kek count n m cursor seen s :
  (Z.to_nat (count - seen) <= n)%nat -> (Z.to_nat (count - seen) <= m)%nat ->
  verify_check_loop db cu host op fence kek count n cursor seen s = verify_check_loop db cu host op fence kek count m cursor seen s.
Proof.
  revert m cursor seen s. induction n as [|n IH]; intros [|m] cursor seen s Hn Hm;
    cbn [verify_check_loop]; destruct (Z.leb_spec count seen) as [|Hc]; try done; try lia.
  apply bind_ext. intros [r [rows next]] s1. apply try_ext. intros _ s2 _. cbn [fst snd]. destruct (_ || _) eqn:B; [done|].
  destruct (forallb _ _); cbn [negb]; [|done]. apply try_ext. intros _ s3 _.
  apply orb_false_iff in B as [[[B _]%orb_false_iff _]%orb_false_iff _]. apply Z.eqb_neq in B. apply IH; lia.
Qed.

(** C29: The loops over pages of secrets and of checks, when staging and when
    verifying, end within the rounds the driver's model gives them, whatever
    the store, the custody and the host answer: with more rounds every one of
    the four does exactly the same, on the same variables and world, so none
    of them ever stops for want of rounds. *)
Theorem page_loops_have_fuel op fence kek count extra s :
  let n := (rounds count + extra)%nat in
  let m := (Z.to_nat count + extra)%nat in
  secret_page_loop db cu host op fence kek count n 0 0 s = secret_page_loop db cu host op fence kek count (rounds count) 0 0 s
  /\ check_page_loop db cu host op fence kek count n [] 0 s = check_page_loop db cu host op fence kek count (rounds count) [] 0 s
  /\ verify_secret_loop db cu host op fence kek count m 0 0 s = verify_secret_loop db cu host op fence kek count (Z.to_nat count) 0 0 s
  /\ verify_check_loop db cu host op fence kek count m [] 0 s = verify_check_loop db cu host op fence kek count (Z.to_nat count) [] 0 s.
Proof.
  intros n m. unfold n, m, rounds.
  split_and!; [apply secret_pages_fuel | apply check_pages_fuel | apply verify_secrets_fuel | apply verify_checks_fuel]; lia.
Qed.

End Pages.
End ResealPages.
