(* ===== verification/RewrapSql.v ===== *)
(** * The database of a key change ([src/src/modules/kb/c/schema.sql])

    The rows of the vault and of the operations that change its key, and the
    stored procedures the store calls, as functions that change a database or
    raise an SQLSTATE.  Tables read in the order of their key are lists kept
    in that order; the others are finite maps.  Operation ids are kept as
    their sixteen bytes, whose text form is [ResealReceipt]'s.  Time stamps
    and the copy of each checkpoint into the witness log are left out, and so
    are the locks: a transaction runs alone. *)

From Stdlib Require Import ZArith Lia String Ascii.
From stdpp Require Import base numbers option list gmap sorting.
From S2P Require Import Prelude Wire Rewrap.

Module RewrapSql.
Import Rewrap.

(** ** Tables *)

Record control := {
  c_sealed : bool;
  c_seal_epoch : Z;
  c_fencing_token : Z;
  c_maintenance_kind : bytes;
  c_maintenance_id : bytes;
  c_last_opened_rewrap_fence : Z
}.

Record operation := {
  o_request_id : bytes;
  o_actor : bytes;
  o_state : kb_store_vault_rewrap_state_t;
  o_seal_epoch : Z;
  o_fencing_token : Z;
  o_old_generation : Z;
  o_new_generation : Z;
  o_receipt : option (bytes * bytes);
  o_secret_count : Z;
  o_check_count : Z;
  o_inventory_digest : option bytes;
  o_stage_digest : option bytes;
  o_failure_class : bytes;
  o_failure_from_state : option kb_store_vault_rewrap_state_t
}.

Record secret_row := { s_principal : bytes; s_agent : bytes; s_cred : bytes; s_version : Z; s_wrapped_dek : bytes }.

Record dek_stage := {
  d_principal : bytes; d_agent : bytes; d_cred : bytes; d_version : Z; d_source_digest : bytes; d_new : bytes
}.

Record check_stage := { k_source_digest : bytes; k_new : bytes }.

Inductive event_kind := EV_intent | EV_resealed | EV_completed | EV_abort | EV_recovery_required.

Record worm_row := {
  w_state : kb_store_vault_rewrap_state_t;
  w_seal_epoch : Z;
  w_fencing_token : Z;
  w_receipt_digest : option bytes;
  w_inventory_digest : option bytes;
  w_stage_digest : option bytes;
  w_actor : bytes;
  w_detail : bytes
}.

#[global] Instance event_kind_eq_dec : EqDecision event_kind.
Proof. solve_decision. Defined.
#[global] Instance event_kind_countable : Countable event_kind.
Proof.
  refine (inj_countable' (fun k => match k with EV_intent => 0 | EV_resealed => 1 | EV_completed => 2
            | EV_abort => 3 | EV_recovery_required => 4 end)
          (fun n => match n with 0 => EV_intent | 1 => EV_resealed | 2 => EV_completed
            | 3 => EV_abort | _ => EV_recovery_required end) _); by intros [].
Defined.
#[global] Instance worm_row_eq_dec : EqDecision worm_row.
Proof. solve_decision. Defined.
#[global] Instance dek_stage_eq_dec : EqDecision dek_stage.
Proof. solve_decision. Defined.
#[global] Instance check_stage_eq_dec : EqDecision check_stage.
Proof. solve_decision. Defined.

(** [secrets] is in the order of the ids, [salts] in that of the principals. *)
Record database := {
  ctl : control;
  operations : gmap bytes operation;
  secrets : list (Z * secret_row);
  salts : list (bytes * bytes);
  deks : gmap (bytes * Z) dek_stage;
  checks : gmap (bytes * bytes) check_stage;
  worm : gmap (bytes * event_kind) worm_row;
  rotation_active : bool
}.

Definition set_ctl (c : control) (d : database) : database :=
  {| ctl := c; operations := operations d; secrets := secrets d; salts := salts d; deks := deks d;
     checks := checks d; worm := worm d; rotation_active := rotation_active d |}.
Definition set_op (op : bytes) (o : operation) (d : database) : database :=
  {| ctl := ctl d; operations := <[op := o]> (operations d); secrets := secrets d; salts := salts d;
     deks := deks d; checks := checks d; worm := worm d; rotation_active := rotation_active d |}.
Definition set_vault (s : list (Z * secret_row)) (k : list (bytes * bytes)) (d : database) : database :=
  {| ctl := ctl d; operations := operations d; secrets := s; salts := k; deks := deks d;
     checks := checks d; worm := worm d; rotation_active := rotation_active d |}.
Definition set_stages (s : gmap (bytes * Z) dek_stage) (k : gmap (bytes * bytes) check_stage) (d : database) : database :=
  {| ctl := ctl d; operations := operations d; secrets := secrets d; salts := salts d; deks := s;
     checks := k; worm := worm d; rotation_active := rotation_active d |}.
Definition set_worm (w : gmap (bytes * event_kind) worm_row) (d : database) : database :=
  {| ctl := ctl d; operations := operations d; secrets := secrets d; salts := salts d; deks := deks d;
     checks := checks d; worm := w; rotation_active := rotation_active d |}.

Definition with_state (st : kb_store_vault_rewrap_state_t) (o : operation) : operation :=
  {| o_request_id := o_request_id o; o_actor := o_actor o; o_state := st; o_seal_epoch := o_seal_epoch o;
     o_fencing_token := o_fencing_token o; o_old_generation := o_old_generation o;
     o_new_generation := o_new_generation o; o_receipt := o_receipt o; o_secret_count := o_secret_count o;
     o_check_count := o_check_count o; o_inventory_digest := o_inventory_digest o;
     o_stage_digest := o_stage_digest o; o_failure_class := o_failure_class o;
     o_failure_from_state := o_failure_from_state o |}.

(** ** Statements *)

(** A statement changes the database and answers, or raises an SQLSTATE. *)
Definition sql (A : Type) : Type := database -> bytes + (A * database).

Definition raise {A} (state : string) : bytes + A := inl (str state).

(** [SELECT * INTO STRICT]: no row is [no_data_found]. *)
Definition strict {A B} (x : option A) (k : A -> bytes + B) : bytes + B :=
  match x with Some a => k a | None => raise "P0002" end.

Definition guard {A} (ok : bool) (state : string) (k : bytes + A) : bytes + A := if ok then k else raise state.

Definition op_ok (op : bytes) (fence : Z) : bool := (length op =? 16)%nat && (1 <=? fence).

Definition kind_reseal : bytes := str "tpm2-reseal".

Definition terminal (st : kb_store_vault_rewrap_state_t) : bool :=
  match st with RW_ABORTED | RW_RECOVERY_REQUIRED | RW_COMPLETED => true | _ => false end.

(** The vault is sealed for this operation under this fence. *)
Definition control_live (op : bytes) (fence : Z) (d : database) : bool :=
  c_sealed (ctl d) && bytes_eqb (c_maintenance_kind (ctl d)) kind_reseal
  && bytes_eqb (c_maintenance_id (ctl d)) op && (c_fencing_token (ctl d) =? fence).

Definition org_vault_rewrap_assert_live (op : bytes) (fence : Z) (d : database) : bool :=
  control_live op fence d
  && match operations d !! op with
     | Some o => (o_fencing_token o =? fence) && negb (terminal (o_state o))
     | None => false
     end.

Section Sql.
Context `{Sha256}.

Definition pack (b : bytes) : bytes := (put_u32 (zlen b) ++ b)%list.

Definition event_state (k : event_kind) : kb_store_vault_rewrap_state_t :=
  match k with
  | EV_intent => RW_PREPARING | EV_resealed => RW_RESEALED | EV_completed => RW_COMPLETED
  | EV_abort => RW_ABORTED | EV_recovery_required => RW_RECOVERY_REQUIRED
  end.

Definition checkpoint (o : operation) (detail : bytes) : worm_row :=
  {| w_state := o_state o; w_seal_epoch := o_seal_epoch o; w_fencing_token := o_fencing_token o;
     w_receipt_digest := snd <$> o_receipt o; w_inventory_digest := o_inventory_digest o;
     w_stage_digest := o_stage_digest o; w_actor := o_actor o; w_detail := detail |}.

(** The id of an event is a digest of the operation and the kind, which are
    the key of the row; it adds nothing to the comparison. *)
Definition org_vault_rewrap_worm_append (op : bytes) (kind : event_kind) (detail : bytes) : sql unit := fun d =>
  strict (operations d !! op) (fun o =>
    guard (bool_decide (o_state o = event_state kind) && (zlen detail <=? 1000)) "22023"
      (match worm d !! (op, kind) with
       | None => inr (tt, set_worm (<[(op, kind) := checkpoint o detail]> (worm d)) d)
       | Some w => guard (bool_decide (w = checkpoint o detail)) "23505" (inr (tt, d))
       end)).

(** [f] then [k]. *)
Definition andthen {A B} (f : sql A) (k : A -> sql B) : sql B := fun d =>
  match f d with inl e => inl e | inr (a, d') => k a d' end.

(** ** Beginning *)

Definition hex_text (b : bytes) : bool :=
  forallb (fun c => ((48 <=? c) && (c <=? 57)) || ((97 <=? c) && (c <=? 102))) b.

Definition fresh_operation (request actor : bytes) (epoch fence old new : Z) : operation :=
  {| o_request_id := request; o_actor := actor; o_state := RW_PREPARING; o_seal_epoch := epoch;
     o_fencing_token := fence; o_old_generation := old; o_new_generation := new; o_receipt := None;
     o_secret_count := 0; o_check_count := 0; o_inventory_digest := None; o_stage_digest := None;
     o_failure_class := []; o_failure_from_state := None |}.

(** The operation of a request, whose ids are unique. *)
Definition by_request (request : bytes) (d : database) : option (bytes * operation) :=
  List.find (fun p => bytes_eqb (o_request_id p.2) request) (map_to_list (operations d)).

Definition busy_operation (last_opened : Z) (o : operation) : bool :=
  match o_state o with
  | RW_ABORTED => false
  | RW_COMPLETED => last_opened <? o_fencing_token o
  | _ => true
  end.

Definition same_request (actor : bytes) (old new : Z) (o : operation) : bool :=
  bytes_eqb (o_actor o) actor && (o_old_generation o =? old) && (o_new_generation o =? new).

Definition org_vault_rewrap_reserve (actor request op : bytes) (old new : Z) : sql (bytes * operation) := fun d =>
  guard (bytes_eqb actor (str "uid:0") && (length request =? 32)%nat && hex_text request
         && (length op =? 16)%nat && (0 <=? old) && negb (old =? INT64_MAX) && (new =? old + 1)) "22023"
    (match by_request request d with
     | Some (id, o) => guard (same_request actor old new o) "23505" (inr ((id, o), d))
     | None =>
         let c := ctl d in
         guard (negb (c_sealed c) && bool_decide (c_maintenance_kind c = []) && bool_decide (c_maintenance_id c = [])
                && negb (rotation_active d)
                && forallb (fun p => negb (busy_operation (c_last_opened_rewrap_fence c) p.2))
                     (map_to_list (operations d))) "55000"
           (guard ((c_seal_epoch c <=? 9223372036854775805) && (c_fencing_token c <=? 9223372036854775804)) "22003"
              (match operations d !! op with
               | Some _ => raise "P7C01"
               | None =>
                   let o := fresh_operation request actor (c_seal_epoch c + 1) (c_fencing_token c + 1) old new in
                   let d := set_ctl {| c_sealed := true; c_seal_epoch := c_seal_epoch c + 1;
                                       c_fencing_token := c_fencing_token c + 1; c_maintenance_kind := kind_reseal;
                                       c_maintenance_id := op;
                                       c_last_opened_rewrap_fence := c_last_opened_rewrap_fence c |}
                              (set_op op o d) in
                   andthen (org_vault_rewrap_worm_append op EV_intent []) (fun _ d => inr ((op, o), d)) d
               end))
     end).

(** ** Recording the receipt *)

Definition record (receipt digest : bytes) (o : operation) : operation :=
  {| o_request_id := o_request_id o; o_actor := o_actor o; o_state := RW_CUSTODY_PREPARED;
     o_seal_epoch := o_seal_epoch o; o_fencing_token := o_fencing_token o;
     o_old_generation := o_old_generation o; o_new_generation := o_new_generation o;
     o_receipt := Some (receipt, digest); o_secret_count := o_secret_count o; o_check_count := o_check_count o;
     o_inventory_digest := o_inventory_digest o; o_stage_digest := o_stage_digest o;
     o_failure_class := o_failure_class o; o_failure_from_state := o_failure_from_state o |}.

Definition org_vault_rewrap_record_prepared (op : bytes) (fence : Z) (receipt digest : bytes)
    : sql kb_store_vault_rewrap_state_t := fun d =>
  guard (op_ok op fence && (1 <=? zlen receipt) && (zlen receipt <=? 4096) && (length digest =? 32)%nat
         && bytes_eqb (sha256 receipt) digest) "22023"
    (strict (operations d !! op) (fun o =>
       if negb (bool_decide (o_state o = RW_PREPARING)) then
         guard ((o_fencing_token o =? fence) && bool_decide (o_receipt o = Some (receipt, digest))
                && (negb (bool_decide (o_state o = RW_RECOVERY_REQUIRED))
                    || match o_failure_from_state o with Some RW_PREPARING | None => false | Some _ => true end))
           "40001" (inr (o_state o, d))
       else
         guard ((o_fencing_token o =? fence) && control_live op fence d) "40001"
           (inr (RW_CUSTODY_PREPARED, set_op op (record receipt digest o) d)))).

(** ** Reading the inventory *)

Definition org_vault_rewrap_snapshot (op : bytes) (d : database) : option operation := operations d !! op.

(** The guards of the paging procedures. *)
Definition live_in (st : kb_store_vault_rewrap_state_t) (conflict : string) {A} (op : bytes) (fence : Z)
    (k : operation -> bytes + (A * database)) (d : database) : bytes + (A * database) :=
  strict (operations d !! op) (fun o =>
    guard (org_vault_rewrap_assert_live op fence d) "40001"
      (guard ((o_fencing_token o =? fence) && bool_decide (o_state o = st)) conflict (k o))).

Definition org_vault_rewrap_secret_page (op : bytes) (fence after limit : Z) : sql (list (Z * secret_row)) := fun d =>
  guard (op_ok op fence && (1 <=? limit) && (limit <=? 128) && (0 <=? after)) "22023"
    (live_in RW_CUSTODY_PREPARED "40001" op fence (fun _ =>
       inr (take (Z.to_nat limit) (List.filter (fun p => after <? p.1) (secrets d)), d)) d).

Fixpoint bytes_ltb (a b : bytes) : bool :=
  match a, b with
  | [], [] => false
  | [], _ :: _ => true
  | _ :: _, [] => false
  | x :: a, y :: b => (x <? y) || ((x =? y) && bytes_ltb a b)
  end.

Definition org_vault_rewrap_check_page (op : bytes) (fence : Z) (after : bytes) (limit : Z) : sql (list (bytes * bytes)) := fun d =>
  guard (op_ok op fence && (zlen after <=? 640) && (1 <=? limit) && (limit <=? 128)) "22023"
    (live_in RW_CUSTODY_PREPARED "P7C01" op fence (fun _ =>
       inr (take (Z.to_nat limit) (List.filter (fun p => bytes_ltb after p.1) (salts d)), d)) d).

(** ** Staging *)

Definition lookup_secret (id : Z) (d : database) : option secret_row :=
  snd <$> List.find (fun p => p.1 =? id) (secrets d).
Definition lookup_salt (p : bytes) (d : database) : option bytes :=
  snd <$> List.find (fun q => bytes_eqb q.1 p) (salts d).

Definition staged_states (st : kb_store_vault_rewrap_state_t) : bool :=
  match st with RW_PREPARING | RW_ABORTED => false | _ => true end.

Definition org_vault_rewrap_stage_dek (op : bytes) (fence source : Z) (row : dek_stage) : sql unit := fun d =>
  guard (op_ok op fence && (1 <=? source) && negb (bool_decide (d_principal row = [])) && (1 <=? d_version row)
         && (length (d_source_digest row) =? 32)%nat && (length (d_new row) =? 40)%nat) "22023"
    (strict (operations d !! op) (fun o =>
       match deks d !! (op, source) with
       | Some x =>
           guard ((o_fencing_token o =? fence) && bool_decide (x = row)) "23505"
             (guard (staged_states (o_state o)) "40001" (inr (tt, d)))
       | None =>
           guard ((o_fencing_token o =? fence) && bool_decide (o_state o = RW_CUSTODY_PREPARED)) "40001"
             (guard (org_vault_rewrap_assert_live op fence d) "40001"
                (strict (lookup_secret source d) (fun s =>
                   guard (bytes_eqb (s_principal s) (d_principal row) && bytes_eqb (s_agent s) (d_agent row)
                          && bytes_eqb (s_cred s) (d_cred row) && (s_version s =? d_version row)
                          && bytes_eqb (sha256 (s_wrapped_dek s)) (d_source_digest row)
                          && negb (bytes_eqb (d_new row) (s_wrapped_dek s))) "40001"
                     (inr (tt, set_stages (<[(op, source) := row]> (deks d)) (checks d) d)))))
       end)).

Definition org_vault_rewrap_stage_check (op : bytes) (fence : Z) (p : bytes) (row : check_stage) : sql unit := fun d =>
  guard (op_ok op fence && negb (bool_decide (p = [])) && (length (k_source_digest row) =? 32)%nat
         && ((length (k_new row) =? 0)%nat || (length (k_new row) =? 40)%nat)) "22023"
    (strict (operations d !! op) (fun o =>
       match checks d !! (op, p) with
       | Some x =>
           guard ((o_fencing_token o =? fence) && bool_decide (x = row)) "23505"
             (guard (staged_states (o_state o)) "40001" (inr (tt, d)))
       | None =>
           guard ((o_fencing_token o =? fence) && bool_decide (o_state o = RW_CUSTODY_PREPARED)) "40001"
             (guard (org_vault_rewrap_assert_live op fence d) "40001"
                (strict (lookup_salt p d) (fun kc =>
                   guard (bytes_eqb (sha256 kc) (k_source_digest row)
                          && Bool.eqb (length kc =? 0)%nat (length (k_new row) =? 0)%nat
                          && ((length kc =? 0)%nat || negb (bytes_eqb (k_new row) kc))) "40001"
                     (inr (tt, set_stages (deks d) (<[(op, p) := row]> (checks d)) d)))))
       end)).

(** The rows of an operation, in the order of their keys. *)
Definition by_id {A} (a b : Z * A) : Prop := a.1 <= b.1.
Definition by_name {A} (a b : bytes * A) : Prop := bytes_ltb b.1 a.1 = false.
#[global] Instance by_id_dec {A} : RelDecision (@by_id A).
Proof. intros a b. unfold Decision, by_id. apply Z.le_dec. Defined.
#[global] Instance by_name_dec {A} : RelDecision (@by_name A).
Proof. intros a b. unfold Decision, by_name. apply bool_eq_dec. Defined.

Definition deks_of (op : bytes) (d : database) : list (Z * dek_stage) :=
  merge_sort by_id (omap (fun p => if bytes_eqb p.1.1 op then Some (p.1.2, p.2) else None) (map_to_list (deks d))).
Definition checks_of (op : bytes) (d : database) : list (bytes * check_stage) :=
  merge_sort by_name (omap (fun p => if bytes_eqb p.1.1 op then Some (p.1.2, p.2) else None) (map_to_list (checks d))).
Definition count_deks (op : bytes) (d : database) : Z :=
  Z.of_nat (length (List.filter (fun p => bytes_eqb p.1.1 op) (map_to_list (deks d)))).
Definition count_checks (op : bytes) (d : database) : Z :=
  Z.of_nat (length (List.filter (fun p => bytes_eqb p.1.1 op) (map_to_list (checks d)))).

Definition secret_inventory (d : database) : bytes :=
  fold_left (fun h p => sha256 (h ++ [83] ++ put_u64 p.1 ++ pack (s_principal p.2) ++ pack (s_agent p.2)
                                ++ pack (s_cred p.2) ++ put_u64 (s_version p.2) ++ pack (s_wrapped_dek p.2))%list)
    (secrets d) (sha256 (str "aimee-vault-rewrap-secret-inventory-v1")).
Definition check_inventory (d : database) : bytes :=
  fold_left (fun h p => sha256 (h ++ [86] ++ pack p.1 ++ pack p.2)%list)
    (salts d) (sha256 (str "aimee-vault-rewrap-check-inventory-v1")).
Definition secret_stage (op : bytes) (d : database) : bytes :=
  fold_left (fun h p => sha256 (h ++ [83] ++ put_u64 p.1 ++ pack (d_principal p.2) ++ pack (d_agent p.2)
                                ++ pack (d_cred p.2) ++ put_u64 (d_version p.2) ++ d_source_digest p.2
                                ++ pack (d_new p.2))%list)
    (deks_of op d) (sha256 (str "aimee-vault-rewrap-secret-stage-v1")).
Definition check_stage_digest (op : bytes) (d : database) : bytes :=
  fold_left (fun h p => sha256 (h ++ [86] ++ pack p.1 ++ k_source_digest p.2 ++ pack (k_new p.2))%list)
    (checks_of op d) (sha256 (str "aimee-vault-rewrap-check-stage-v1")).

Definition inventory_digest (d : database) : bytes :=
  sha256 (str "aimee-vault-rewrap-inventory-v1" ++ put_u64 (Z.of_nat (length (secrets d))) ++ secret_inventory d
          ++ put_u64 (Z.of_nat (length (salts d))) ++ check_inventory d)%list.
Definition stage_digest (op : bytes) (d : database) : bytes :=
  sha256 (str "aimee-vault-rewrap-stage-v1" ++ put_u64 (Z.of_nat (length (deks_of op d))) ++ secret_stage op d
          ++ put_u64 (Z.of_nat (length (checks_of op d))) ++ check_stage_digest op d)%list.

Definition secret_count (d : database) : Z := Z.of_nat (length (secrets d)).
Definition check_count (d : database) : Z := Z.of_nat (length (salts d)).

Definition org_vault_rewrap_inventory_summary (op : bytes) (fence : Z) : sql (Z * Z * bytes) := fun d =>
  guard (op_ok op fence) "22023"
    (strict (operations d !! op) (fun o =>
       guard ((o_fencing_token o =? fence) && bool_decide (o_state o = RW_CUSTODY_PREPARED)) "P7C01"
         (guard (org_vault_rewrap_assert_live op fence d) "40001"
            (inr ((secret_count d, check_count d, inventory_digest d), d))))).

(** Every secret has its staged row, which is of the row as it is. *)
Definition dek_fits (op : bytes) (d : database) (p : Z * secret_row) : bool :=
  match deks d !! (op, p.1) with
  | None => false
  | Some x => bytes_eqb (d_principal x) (s_principal p.2) && bytes_eqb (d_agent x) (s_agent p.2)
              && bytes_eqb (d_cred x) (s_cred p.2) && (d_version x =? s_version p.2)
              && bytes_eqb (d_source_digest x) (sha256 (s_wrapped_dek p.2))
  end.
Definition check_fits (op : bytes) (d : database) (p : bytes * bytes) : bool :=
  match checks d !! (op, p.1) with
  | None => false
  | Some x => bytes_eqb (k_source_digest x) (sha256 p.2)
  end.
(** Every staged row is of a secret that is there. *)
Definition no_strays (op : bytes) (d : database) : bool :=
  forallb (fun p => negb (bytes_eqb p.1.1 op) || bool_decide (is_Some (lookup_secret p.1.2 d))) (map_to_list (deks d))
  && forallb (fun p => negb (bytes_eqb p.1.1 op) || bool_decide (is_Some (lookup_salt p.1.2 d))) (map_to_list (checks d)).

Definition dek_new_ok (op : bytes) (d : database) (p : Z * secret_row) : bool :=
  match deks d !! (op, p.1) with
  | None => false
  | Some x => (length (d_new x) =? 40)%nat && negb (bytes_eqb (d_new x) (s_wrapped_dek p.2))
  end.
Definition check_new_ok (op : bytes) (d : database) (p : bytes * bytes) : bool :=
  match checks d !! (op, p.1) with
  | None => false
  | Some x => ((length (k_new x) =? 0)%nat || (length (k_new x) =? 40)%nat)
              && Bool.eqb (length p.2 =? 0)%nat (length (k_new x) =? 0)%nat
              && ((length p.2 =? 0)%nat || negb (bytes_eqb (k_new x) p.2))
  end.

Definition staged (secrets checks : Z) (inventory stage : bytes) (o : operation) : operation :=
  {| o_request_id := o_request_id o; o_actor := o_actor o; o_state := RW_WRAPS_STAGED;
     o_seal_epoch := o_seal_epoch o; o_fencing_token := o_fencing_token o;
     o_old_generation := o_old_generation o; o_new_generation := o_new_generation o; o_receipt := o_receipt o;
     o_secret_count := secrets; o_check_count := checks; o_inventory_digest := Some inventory;
     o_stage_digest := Some stage; o_failure_class := o_failure_class o;
     o_failure_from_state := o_failure_from_state o |}.

Definition org_vault_rewrap_stage_finish (op : bytes) (fence expected_secrets expected_checks : Z)
    (expected_inventory : bytes) : sql kb_store_vault_rewrap_state_t := fun d =>
  guard (op_ok op fence && (0 <=? expected_secrets) && (0 <=? expected_checks)
         && (length expected_inventory =? 32)%nat) "22023"
    (strict (operations d !! op) (fun o =>
       if negb (bool_decide (o_state o = RW_CUSTODY_PREPARED)) then
         guard ((o_fencing_token o =? fence) && negb (bool_decide (o_state o = RW_PREPARING))
                && bool_decide (is_Some (o_inventory_digest o)) && bool_decide (is_Some (o_stage_digest o))) "40001"
           (inr (o_state o, d))
       else
         guard (o_fencing_token o =? fence) "40001"
           (guard (org_vault_rewrap_assert_live op fence d) "40001"
              (guard (forallb (fun p => dek_fits op d p && dek_new_ok op d p) (secrets d)
                      && forallb (fun p => check_fits op d p && check_new_ok op d p) (salts d)
                      && no_strays op d) "40001"
                 (guard ((secret_count d =? expected_secrets) && (check_count d =? expected_checks)
                         && bytes_eqb (inventory_digest d) expected_inventory
                         && (secret_count d =? count_deks op d) && (check_count d =? count_checks op d)) "P7B01"
                    (inr (RW_WRAPS_STAGED,
                          set_op op (staged (secret_count d) (check_count d) (inventory_digest d) (stage_digest op d) o)
                            d))))))).

(** ** Committing *)

Definition all_digests (o : operation) : bool :=
  bool_decide (is_Some (o_receipt o)) && bool_decide (is_Some (o_inventory_digest o))
  && bool_decide (is_Some (o_stage_digest o)).

(** A checkpoint of the kind with the operation's digests. *)
Definition witnessed (op : bytes) (kind : event_kind) (full : bool) (o : operation) (d : database) : bool :=
  match worm d !! (op, kind) with
  | None => false
  | Some w =>
      bool_decide (w_state w = event_state kind) && (w_fencing_token w =? o_fencing_token o)
      && bool_decide (w_receipt_digest w = snd <$> o_receipt o)
      && (negb full || (bool_decide (w_inventory_digest w = o_inventory_digest o)
                        && bool_decide (w_stage_digest w = o_stage_digest o)))
  end.

Definition org_vault_rewrap_mark_committing (op : bytes) (fence : Z) : sql kb_store_vault_rewrap_state_t := fun d =>
  guard (op_ok op fence) "22023"
    (strict (operations d !! op) (fun o =>
       if negb (bool_decide (o_state o = RW_WRAPS_STAGED)) then
         guard ((o_fencing_token o =? fence) && all_digests o
                && match o_state o with
                   | RW_RESEAL_COMMITTING | RW_RESEALED | RW_PROMOTED => true
                   | RW_COMPLETED => witnessed op EV_completed true o d
                   | RW_RECOVERY_REQUIRED =>
                       match o_failure_from_state o with
                       | Some RW_RESEAL_COMMITTING => true
                       | Some (RW_RESEALED | RW_PROMOTED) => witnessed op EV_resealed false o d
                       | _ => false
                       end
                   | _ => false
                   end) "40001" (inr (o_state o, d))
       else
         guard (o_fencing_token o =? fence) "40001"
           (guard (org_vault_rewrap_assert_live op fence d) "40001"
              (inr (RW_RESEAL_COMMITTING, set_op op (with_state RW_RESEAL_COMMITTING o) d))))).

Definition org_vault_rewrap_mark_resealed (op : bytes) (fence : Z) (digest : bytes)
    : sql kb_store_vault_rewrap_state_t := fun d =>
  guard (op_ok op fence && (length digest =? 32)%nat) "22023"
    (strict (operations d !! op) (fun o =>
       if negb (bool_decide (o_state o = RW_RESEAL_COMMITTING)) then
         guard ((o_fencing_token o =? fence) && bool_decide (snd <$> o_receipt o = Some digest)
                && match o_state o with
                   | RW_RESEALED | RW_PROMOTED => true
                   | RW_COMPLETED => witnessed op EV_completed true o d
                   | RW_RECOVERY_REQUIRED =>
                       match o_failure_from_state o with
                       | Some (RW_RESEALED | RW_PROMOTED) => witnessed op EV_resealed false o d
                       | _ => false
                       end
                   | _ => false
                   end) "40001" (inr (o_state o, d))
       else
         guard ((o_fencing_token o =? fence) && bool_decide (snd <$> o_receipt o = Some digest)) "40001"
           (guard (org_vault_rewrap_assert_live op fence d) "40001"
              (andthen (org_vault_rewrap_worm_append op EV_resealed []) (fun _ d => inr (RW_RESEALED, d))
                 (set_op op (with_state RW_RESEALED o) d))))).

(** ** Promoting *)

Definition promote_secret (op : bytes) (d : database) (p : Z * secret_row) : Z * secret_row :=
  match deks d !! (op, p.1) with
  | Some x => if dek_fits op d p then
                (p.1, {| s_principal := s_principal p.2; s_agent := s_agent p.2; s_cred := s_cred p.2;
                         s_version := s_version p.2; s_wrapped_dek := d_new x |})
              else p
  | None => p
  end.
Definition promote_salt (op : bytes) (d : database) (p : bytes * bytes) : bytes * bytes :=
  match checks d !! (op, p.1) with
  | Some x => if check_fits op d p then (p.1, k_new x) else p
  | None => p
  end.

Definition org_vault_rewrap_promote (op : bytes) (fence : Z) : sql kb_store_vault_rewrap_state_t := fun d =>
  guard (op_ok op fence) "22023"
    (strict (operations d !! op) (fun o =>
       if bool_decide (o_state o = RW_RECOVERY_REQUIRED) && (o_fencing_token o =? fence)
          && bool_decide (o_failure_from_state o = Some RW_PROMOTED)
          && match worm d !! (op, EV_recovery_required) with
             | Some w => bytes_eqb (w_detail w) (str "from_state=promoted;class=" ++ o_failure_class o)
             | None => false
             end
       then inr (RW_RECOVERY_REQUIRED, d)
       else if bool_decide (o_state o = RW_COMPLETED) && (o_fencing_token o =? fence)
               && witnessed op EV_completed true o d
       then inr (RW_COMPLETED, d)
       else if bool_decide (o_state o = RW_PROMOTED) then
         guard (o_fencing_token o =? fence) "40001" (inr (RW_PROMOTED, d))
       else
         guard (bool_decide (o_state o = RW_RESEALED)) "40001"
           (guard (o_fencing_token o =? fence) "40001"
              (guard (org_vault_rewrap_assert_live op fence d) "40001"
                 (guard (forallb (dek_fits op d) (secrets d) && forallb (check_fits op d) (salts d) && no_strays op d)
                    "40001"
                    (guard ((secret_count d =? o_secret_count o) && (check_count d =? o_check_count o)
                            && bool_decide (o_inventory_digest o = Some (inventory_digest d))
                            && bool_decide (o_stage_digest o = Some (stage_digest op d))
                            && (o_secret_count o =? count_deks op d) && (o_check_count o =? count_checks op d)) "40001"
                       (inr (RW_PROMOTED,
                             set_op op (with_state RW_PROMOTED o)
                               (set_vault (promote_secret op d <$> secrets d) (promote_salt op d <$> salts d) d))))))))).

(** ** Verifying *)

Definition promoted_secret (op : bytes) (d : database) (p : Z * secret_row) : bool :=
  match deks d !! (op, p.1) with
  | None => false
  | Some x => bytes_eqb (d_principal x) (s_principal p.2) && bytes_eqb (d_agent x) (s_agent p.2)
              && bytes_eqb (d_cred x) (s_cred p.2) && (d_version x =? s_version p.2)
              && bytes_eqb (d_new x) (s_wrapped_dek p.2)
  end.
Definition promoted_salt (op : bytes) (d : database) (p : bytes * bytes) : bool :=
  match checks d !! (op, p.1) with
  | None => false
  | Some x => bytes_eqb (k_new x) p.2
  end.

Definition org_vault_rewrap_verify_summary (op : bytes) (fence : Z) : sql (Z * Z * bytes * bytes * bytes) := fun d =>
  guard (op_ok op fence) "22023"
    (live_in RW_PROMOTED "P7C01" op fence (fun o =>
       match o_receipt o, o_inventory_digest o, o_stage_digest o with
       | Some (receipt, digest), Some inventory, Some stage =>
           guard ((zlen receipt =? 208) && bytes_eqb (sha256 receipt) digest
                  && (o_secret_count o =? count_deks op d) && (o_secret_count o =? secret_count d)
                  && (o_check_count o =? count_checks op d) && (o_check_count o =? check_count d)
                  && forallb (fun p => promoted_secret op d p && (length (s_wrapped_dek p.2) =? 40)%nat) (secrets d)
                  && forallb (fun p => promoted_salt op d p
                                       && ((length p.2 =? 0)%nat || (length p.2 =? 40)%nat)) (salts d)
                  && no_strays op d && bytes_eqb (stage_digest op d) stage
                  && bool_decide (worm d !! (op, EV_resealed)
                                  = Some (checkpoint (with_state RW_RESEALED o) []))) "P7I01"
             (inr ((o_secret_count o, o_check_count o, digest, inventory, stage), d))
       | _, _, _ => raise "P7I01"
       end) d).

Definition org_vault_rewrap_verify_secret_page (op : bytes) (fence after limit : Z) : sql (list (Z * secret_row)) := fun d =>
  guard (op_ok op fence && (0 <=? after) && (1 <=? limit) && (limit <=? 128)) "22023"
    (guard (org_vault_rewrap_assert_live op fence d) "40001"
       (guard (match operations d !! op with
               | Some o => (o_fencing_token o =? fence) && bool_decide (o_state o = RW_PROMOTED)
               | None => false end) "P7C01"
          (inr (take (Z.to_nat limit) (List.filter (fun p => (after <? p.1) && promoted_secret op d p) (secrets d)), d)))).

Definition org_vault_rewrap_verify_check_page (op : bytes) (fence : Z) (after : bytes) (limit : Z)
    : sql (list (bytes * bytes)) := fun d =>
  guard (op_ok op fence && (zlen after <=? 640) && (1 <=? limit) && (limit <=? 128)) "22023"
    (guard (org_vault_rewrap_assert_live op fence d) "40001"
       (guard (match operations d !! op with
               | Some o => (o_fencing_token o =? fence) && bool_decide (o_state o = RW_PROMOTED)
               | None => false end) "P7C01"
          (inr (take (Z.to_nat limit) (List.filter (fun p => bytes_ltb after p.1 && promoted_salt op d p) (salts d)), d)))).

(** ** Ending *)

Definition bump (sealed : bool) (clear : bool) (c : control) : control :=
  {| c_sealed := sealed; c_seal_epoch := c_seal_epoch c; c_fencing_token := c_fencing_token c + 1;
     c_maintenance_kind := if clear then [] else c_maintenance_kind c;
     c_maintenance_id := if clear then [] else c_maintenance_id c;
     c_last_opened_rewrap_fence := c_last_opened_rewrap_fence c |}.

Definition org_vault_rewrap_complete (op : bytes) (fence : Z) (receipt inventory stage : bytes)
    : sql kb_store_vault_rewrap_state_t := fun d =>
  guard (op_ok op fence && (length receipt =? 32)%nat && (length inventory =? 32)%nat && (length stage =? 32)%nat) "22023"
    (strict (operations d !! op) (fun o =>
       let same := bool_decide (snd <$> o_receipt o = Some receipt) && bool_decide (o_inventory_digest o = Some inventory)
                   && bool_decide (o_stage_digest o = Some stage) in
       if bool_decide (o_state o = RW_COMPLETED) then
         guard ((o_fencing_token o =? fence) && same) "23505"
           (andthen (org_vault_rewrap_worm_append op EV_completed []) (fun _ d => inr (RW_COMPLETED, d)) d)
       else
         guard (bool_decide (o_state o = RW_PROMOTED)) "P7C01"
           (guard (o_fencing_token o =? fence) "P7C01"
              (guard same "P7I01"
                 (guard (org_vault_rewrap_assert_live op fence d) "40001"
                    (guard (negb (c_fencing_token (ctl d) =? INT64_MAX)) "22003"
                       (andthen (org_vault_rewrap_worm_append op EV_completed [])
                          (fun _ d => inr (RW_COMPLETED, set_ctl (bump (c_sealed (ctl d)) true (ctl d)) d))
                          (set_op op (with_state RW_COMPLETED o) d)))))))).

Definition failure_ok (f : bytes) : bool :=
  match f with
  | [] => false
  | c :: r => ((97 <=? c) && (c <=? 122)) && (length r <=? 63)%nat
              && forallb (fun c => ((97 <=? c) && (c <=? 122)) || ((48 <=? c) && (c <=? 57)) || (c =? 95)) r
  end.

Definition failed (st : kb_store_vault_rewrap_state_t) (failure : bytes)
    (from : option kb_store_vault_rewrap_state_t) (o : operation) : operation :=
  {| o_request_id := o_request_id o; o_actor := o_actor o; o_state := st; o_seal_epoch := o_seal_epoch o;
     o_fencing_token := o_fencing_token o; o_old_generation := o_old_generation o;
     o_new_generation := o_new_generation o; o_receipt := o_receipt o; o_secret_count := o_secret_count o;
     o_check_count := o_check_count o; o_inventory_digest := o_inventory_digest o;
     o_stage_digest := o_stage_digest o; o_failure_class := failure; o_failure_from_state := from |}.

Definition org_vault_rewrap_abort (op : bytes) (fence : Z) (failure : bytes) : sql kb_store_vault_rewrap_state_t := fun d =>
  guard (op_ok op fence && failure_ok failure) "22023"
    (strict (operations d !! op) (fun o =>
       if bool_decide (o_state o = RW_ABORTED) then
         guard ((o_fencing_token o =? fence) && bytes_eqb (o_failure_class o) failure) "23505" (inr (RW_ABORTED, d))
       else
         guard (match o_state o with RW_PREPARING | RW_CUSTODY_PREPARED | RW_WRAPS_STAGED => true | _ => false end) "40001"
           (guard (o_fencing_token o =? fence) "40001"
              (guard (org_vault_rewrap_assert_live op fence d) "40001"
                 (guard (negb (c_fencing_token (ctl d) =? INT64_MAX)) "22003"
                    (andthen (org_vault_rewrap_worm_append op EV_abort failure)
                       (fun _ d => inr (RW_ABORTED,
                          set_ctl (bump false true (ctl d))
                            (set_stages (filter (fun p => p.1.1 <> op) (deks d)) (filter (fun p => p.1.1 <> op) (checks d)) d)))
                       (set_op op (failed RW_ABORTED failure (o_failure_from_state o) o) d))))))).

Definition state_text (st : kb_store_vault_rewrap_state_t) : bytes :=
  match st with
  | RW_PREPARING => str "preparing" | RW_CUSTODY_PREPARED => str "custody_prepared"
  | RW_WRAPS_STAGED => str "wraps_staged" | RW_RESEAL_COMMITTING => str "reseal_committing"
  | RW_RESEALED => str "resealed" | RW_PROMOTED => str "promoted" | RW_COMPLETED => str "completed"
  | RW_ABORTED => str "aborted" | RW_RECOVERY_REQUIRED => str "recovery_required"
  end.

Definition failure_detail (from : kb_store_vault_rewrap_state_t) (failure : bytes) : bytes :=
  (str "from_state=" ++ state_text from ++ str ";class=" ++ failure)%list.

Definition org_vault_rewrap_recovery_required (op : bytes) (fence : Z) (failure : bytes)
    : sql kb_store_vault_rewrap_state_t := fun d =>
  guard (op_ok op fence && failure_ok failure) "22023"
    (strict (operations d !! op) (fun o =>
       if bool_decide (o_state o = RW_RECOVERY_REQUIRED) then
         guard ((o_fencing_token o =? fence) && bytes_eqb (o_failure_class o) failure
                && match o_failure_from_state o with Some st => negb (terminal st) | None => false end) "23505"
           (andthen (org_vault_rewrap_worm_append op EV_recovery_required
                       (failure_detail (default RW_PREPARING (o_failure_from_state o)) failure))
              (fun _ d => inr (RW_RECOVERY_REQUIRED, d)) d)
       else
         guard (negb (terminal (o_state o))) "40001"
           (guard (o_fencing_token o =? fence) "40001"
              (guard (org_vault_rewrap_assert_live op fence d) "40001"
                 (guard (negb (c_fencing_token (ctl d) =? INT64_MAX)) "22003"
                    (andthen (org_vault_rewrap_worm_append op EV_recovery_required (failure_detail (o_state o) failure))
                       (fun _ d => inr (RW_RECOVERY_REQUIRED, set_ctl (bump (c_sealed (ctl d)) false (ctl d)) d))
                       (set_op op (failed RW_RECOVERY_REQUIRED failure (Some (o_state o)) o) d))))))).

End Sql.
End RewrapSql.
