(* ===== verification/RewrapStore.v ===== *)
(** * The operator's store of a key change
    ([src/src/modules/kb/c/vault_operator_rewrap_runtime.c],
     [org_vault_rewrap.c] for the classification of SQLSTATEs)

    One connection to the database under a mutex.  A transaction works on a
    copy of the database that a commit makes durable; its handle has a phase
    that decides which statements may follow and whether it may be committed.
    Every call to the server takes the next number of [faults]: it may be
    refused, or be lost before or after it took effect, and a lost call makes
    the connection uncertain until it is made anew.  A call whose local
    deadline has passed is not sent at all and leaves the connection as it is:
    a commit or a rollback that is not sent, as [late_ends] tells, leaves its
    transaction open under a mutex that is free again. *)

From Stdlib Require Import ZArith Lia String Ascii.
From stdpp Require Import base numbers option list gmap.
From S2P Require Import Prelude Wire ResealReceipt Rewrap RewrapSql.

Module RewrapStore.
Import Rewrap.
Import RewrapSql (database, secret_row, operation, sql).

Definition state_is (s : bytes) (t : string) : bool := bytes_eqb s (str t).
Definition class_is (s : bytes) (t : string) : bool := bytes_eqb (take 2 s) (str t).

Definition kb_store_vault_rewrap_classify_sqlstate (s : bytes) : kb_store_vault_rewrap_result_t :=
  if negb (length s =? 5)%nat then DB_ERROR
  else if state_is s "55000" then DB_BUSY
  else if state_is s "P7C01" || state_is s "23505" then DB_CONFLICT
  else if state_is s "P7I01" || state_is s "P7B01" then DB_INTEGRITY
  else if state_is s "40001" || state_is s "40P01" then DB_TRANSIENT
  else if state_is s "22023" || state_is s "22003" || state_is s "25001" then DB_INVALID
  else if class_is s "08" || class_is s "53" || class_is s "57" then DB_TRANSIENT
  else DB_ERROR.

(** ** The connection *)

Record store := {
  durable : database;
  session : option (database * bool);    (** the open transaction, and whether it failed *)
  mutex_held : bool;
  transaction_active : bool;
  uncertain : bool;
  faults : list Z;
  late_ends : list bool    (** which ends of transactions find their deadline passed *)
}.

Definition set_session (s : option (database * bool)) (w : store) : store :=
  {| durable := durable w; session := s; mutex_held := mutex_held w; transaction_active := transaction_active w;
     uncertain := uncertain w; faults := faults w; late_ends := late_ends w |}.
Definition set_durable (d : database) (w : store) : store :=
  {| durable := d; session := session w; mutex_held := mutex_held w; transaction_active := transaction_active w;
     uncertain := uncertain w; faults := faults w; late_ends := late_ends w |}.
Definition set_held (b : bool) (w : store) : store :=
  {| durable := durable w; session := session w; mutex_held := b; transaction_active := transaction_active w;
     uncertain := uncertain w; faults := faults w; late_ends := late_ends w |}.
Definition set_active (b : bool) (w : store) : store :=
  {| durable := durable w; session := session w; mutex_held := mutex_held w; transaction_active := b;
     uncertain := uncertain w; faults := faults w; late_ends := late_ends w |}.
Definition set_uncertain (b : bool) (w : store) : store :=
  {| durable := durable w; session := session w; mutex_held := mutex_held w;
     transaction_active := transaction_active w; uncertain := b; faults := faults w; late_ends := late_ends w |}.

Definition fault : M store Z := fun w =>
  (match faults w with f :: _ => f | [] => 0 end,
   {| durable := durable w; session := session w; mutex_held := mutex_held w;
      transaction_active := transaction_active w; uncertain := uncertain w; faults := tail (faults w);
      late_ends := late_ends w |}).

(** Whether the end of a transaction finds its deadline passed. *)
Definition late_end : M store bool := fun w =>
  (match late_ends w with b :: _ => b | [] => false end,
   {| durable := durable w; session := session w; mutex_held := mutex_held w;
      transaction_active := transaction_active w; uncertain := uncertain w; faults := faults w;
      late_ends := tail (late_ends w) |}).

(** A statement in the open transaction, or alone: 1 is a lost connection,
    2 a serialization failure, 4 a local deadline that has passed, so that
    nothing is sent. *)
Definition query {A} (f : sql A) : M store (kb_store_vault_rewrap_result_t + A) := fun w =>
  let '(e, w) := fault w in
  if (e =? 4) || uncertain w then (inl DB_TRANSIENT, w)
  else if e =? 1 then (inl DB_TRANSIENT, set_uncertain true w)
  else
    match session w with
    | None => match f (durable w) with
              | inl s => (inl (kb_store_vault_rewrap_classify_sqlstate s), w)
              | inr (a, _) => (inr a, w)
              end
    | Some (_, true) => (inl DB_ERROR, w)
    | Some (d, false) =>
        if e =? 2 then (inl DB_TRANSIENT, set_session (Some (d, true)) w)
        else match f d with
             | inl s => (inl (kb_store_vault_rewrap_classify_sqlstate s), set_session (Some (d, true)) w)
             | inr (a, d') => (inr a, set_session (Some (d', false)) w)
             end
    end.

Inductive command_t := BEGIN | COMMIT | ROLLBACK.

(** 3 is a commit whose response was lost after it took effect.  The server
    takes a [BEGIN] in an open transaction with a warning and goes on in it,
    and refuses one in a transaction that failed. *)
Definition command (c : command_t) : M store bool := fun w =>
  let '(e, w) := fault w in
  let '(late, w) := match c with BEGIN => (e =? 4, w) | _ => late_end w end in
  if late || uncertain w then (false, w)
  else if e =? 1 then (false, set_uncertain true w)
  else
    match c with
    | BEGIN =>
        if e =? 2 then (false, w)
        else match session w with
             | None => (true, set_session (Some (durable w, false)) w)
             | Some (_, broken) => (negb broken, w)
             end
    | ROLLBACK => (true, set_session None w)
    | COMMIT =>
        match session w with
        | Some (d, false) =>
            if e =? 2 then (false, set_session None w)
            else if e =? 3 then (false, set_uncertain true (set_session None (set_durable d w)))
            else (true, set_session None (set_durable d w))
        | _ => (true, set_session None w)
        end
    end.

(** The server ends the transaction of a connection that is made anew. *)
Definition recover_uncertain_locked : M store Z := fun w =>
  if negb (uncertain w) then (0, w)
  else
    let '(e, w) := fault w in
    if e =? 0 then (1, set_active false (set_uncertain false (set_session None w)))
    else (-1, w).

(** [deadline] and [lock_until]: the mutex is not recursive. *)
Definition lock : M store bool := fun w =>
  let '(e, w) := fault w in
  if negb (e =? 0) || mutex_held w then (false, w) else (true, set_held true w).

Definition unlock : M store unit := fun w => (tt, set_held false w).

(** ** Transactions *)

Inductive tx_phase :=
  | TX_GENERAL | TX_STAGING | TX_STAGE_DONE | TX_SINGLE_DONE | TX_PROMOTE_DONE | TX_VERIFY_SECRET
  | TX_VERIFY_CHECK | TX_VERIFY_CONSUMED | TX_ACKED | TX_COMPLETE | TX_FAILED.

#[global] Instance tx_phase_eq_dec : EqDecision tx_phase.
Proof. solve_decision. Defined.

Record kb_store_vault_rewrap_tx := {
  phase : tx_phase;
  operation_id : bytes;
  fence : Z;
  expected_secrets : Z;
  expected_checks : Z;
  consumed_secrets : Z;
  consumed_checks : Z;
  last_secret : Z;
  cursor : bytes;
  secret_exhausted : bool;
  check_exhausted : bool;
  receipt_digest : bytes;
  inventory_digest : bytes;
  stage_digest : bytes
}.

Definition tx_zero : kb_store_vault_rewrap_tx :=
  {| phase := TX_GENERAL; operation_id := replicate 16 0; fence := 0; expected_secrets := 0; expected_checks := 0;
     consumed_secrets := 0; consumed_checks := 0; last_secret := 0; cursor := []; secret_exhausted := false;
     check_exhausted := false; receipt_digest := replicate 32 0; inventory_digest := replicate 32 0;
     stage_digest := replicate 32 0 |}.

Definition set_phase (p : tx_phase) (t : kb_store_vault_rewrap_tx) : kb_store_vault_rewrap_tx :=
  {| phase := p; operation_id := operation_id t; fence := fence t; expected_secrets := expected_secrets t;
     expected_checks := expected_checks t; consumed_secrets := consumed_secrets t;
     consumed_checks := consumed_checks t; last_secret := last_secret t; cursor := cursor t;
     secret_exhausted := secret_exhausted t; check_exhausted := check_exhausted t;
     receipt_digest := receipt_digest t; inventory_digest := inventory_digest t; stage_digest := stage_digest t |}.
Definition set_secrets (last consumed : Z) (done : bool) (t : kb_store_vault_rewrap_tx) : kb_store_vault_rewrap_tx :=
  {| phase := phase t; operation_id := operation_id t; fence := fence t; expected_secrets := expected_secrets t;
     expected_checks := expected_checks t; consumed_secrets := consumed;
     consumed_checks := consumed_checks t; last_secret := last; cursor := cursor t;
     secret_exhausted := done; check_exhausted := check_exhausted t;
     receipt_digest := receipt_digest t; inventory_digest := inventory_digest t; stage_digest := stage_digest t |}.
Definition set_checks (c : bytes) (consumed : Z) (done : bool) (t : kb_store_vault_rewrap_tx) : kb_store_vault_rewrap_tx :=
  {| phase := phase t; operation_id := operation_id t; fence := fence t; expected_secrets := expected_secrets t;
     expected_checks := expected_checks t; consumed_secrets := consumed_secrets t;
     consumed_checks := consumed; last_secret := last_secret t; cursor := c;
     secret_exhausted := secret_exhausted t; check_exhausted := done;
     receipt_digest := receipt_digest t; inventory_digest := inventory_digest t; stage_digest := stage_digest t |}.
Definition set_summary (op : bytes) (f : Z) (v : kb_store_vault_rewrap_verify_summary_t)
    (t : kb_store_vault_rewrap_tx) : kb_store_vault_rewrap_tx :=
  {| phase := TX_VERIFY_SECRET; operation_id := op; fence := f; expected_secrets := vs_secret_count v;
     expected_checks := vs_check_count v; consumed_secrets := consumed_secrets t;
     consumed_checks := consumed_checks t; last_secret := last_secret t; cursor := cursor t;
     secret_exhausted := secret_exhausted t; check_exhausted := check_exhausted t;
     receipt_digest := vs_receipt_digest v; inventory_digest := vs_inventory_digest v;
     stage_digest := vs_stage_digest v |}.

Definition in_phase (t : kb_store_vault_rewrap_tx) (p : tx_phase) : bool := bool_decide (phase t = p).
Definition tx_valid (t : kb_store_vault_rewrap_tx) : bool := negb (in_phase t TX_FAILED).

Definition tx_begin (w : store) : kb_store_vault_rewrap_result_t * option kb_store_vault_rewrap_tx * store :=
  let '(ok, w) := lock w in
  if negb ok then (DB_TRANSIENT, None, w)
  else if transaction_active w then (DB_TRANSIENT, None, (unlock w).2)
  else
    let '(ok, w) := command BEGIN w in
    if negb ok then (DB_TRANSIENT, None, (unlock w).2)
    else
      let '(e, w) := fault w in
      if negb (e =? 0) then let '(_, w) := command ROLLBACK w in (DB_ERROR, None, (unlock w).2)
      else (DB_OK, Some tx_zero, set_active true w).

Definition tx_end (commit : bool) (tp : option kb_store_vault_rewrap_tx) (w : store)
    : kb_store_vault_rewrap_result_t * option kb_store_vault_rewrap_tx * store :=
  match tp with
  | None => (DB_INVALID, None, w)
  | Some t =>
      if negb (tx_valid t) then (DB_INVALID, Some t, w)
      else if commit && negb (in_phase t TX_SINGLE_DONE || in_phase t TX_STAGE_DONE || in_phase t TX_PROMOTE_DONE
                              || in_phase t TX_COMPLETE)
      then (DB_INVALID, Some (set_phase TX_FAILED t), w)
      else
        let '(ok, w) := command (if commit then COMMIT else ROLLBACK) w in
        let w := set_active false w in
        let '(_, w) := recover_uncertain_locked w in
        (if ok then DB_OK else DB_TRANSIENT, None, (unlock w).2)
  end.

Definition tx_commit := tx_end true.
Definition tx_rollback (tp : option kb_store_vault_rewrap_tx) (w : store) : option kb_store_vault_rewrap_tx * store :=
  match tp with
  | None => (None, w)
  | Some t => let '(_, t, w) := tx_end false (Some t) w in (t, w)
  end.

Section Store.
Context `{Sha256}.

(** ** Snapshots *)

Definition failure_valid (s : bytes) : bool := bool_decide (s = []) || RewrapSql.failure_ok s.

Definition shape_none (o : operation) : bool :=
  bool_decide (RewrapSql.o_receipt o = None) && bool_decide (RewrapSql.o_inventory_digest o = None)
  && bool_decide (RewrapSql.o_stage_digest o = None) && (RewrapSql.o_secret_count o =? 0)
  && (RewrapSql.o_check_count o =? 0).
Definition shape_prepared (o : operation) : bool :=
  bool_decide (is_Some (RewrapSql.o_receipt o)) && bool_decide (RewrapSql.o_inventory_digest o = None)
  && bool_decide (RewrapSql.o_stage_digest o = None) && (RewrapSql.o_secret_count o =? 0)
  && (RewrapSql.o_check_count o =? 0).
Definition shape_staged (o : operation) : bool :=
  bool_decide (is_Some (RewrapSql.o_receipt o)) && bool_decide (is_Some (RewrapSql.o_inventory_digest o))
  && bool_decide (is_Some (RewrapSql.o_stage_digest o)).

Definition snapshot_shape (o : operation) : bool :=
  let has_failure := negb (bool_decide (RewrapSql.o_failure_class o = [])) in
  let from := RewrapSql.o_failure_from_state o in
  let nofail := negb has_failure && bool_decide (from = None) in
  match RewrapSql.o_state o with
  | RW_PREPARING => nofail && shape_none o
  | RW_CUSTODY_PREPARED => nofail && shape_prepared o
  | RW_WRAPS_STAGED | RW_RESEAL_COMMITTING | RW_RESEALED | RW_PROMOTED | RW_COMPLETED => nofail && shape_staged o
  | RW_ABORTED => has_failure && bool_decide (from = None) && (shape_none o || shape_prepared o || shape_staged o)
  | RW_RECOVERY_REQUIRED =>
      has_failure
      && match from with
         | None => false
         | Some RW_PREPARING => shape_none o
         | Some RW_CUSTODY_PREPARED => shape_prepared o
         | Some (RW_WRAPS_STAGED | RW_RESEAL_COMMITTING | RW_RESEALED | RW_PROMOTED) => shape_staged o
         | Some _ => false
         end
  end.

Definition decode_receipt (wire : bytes) : option ResealReceipt.vault_tpm2_reseal_receipt_t :=
  ResealReceipt.vault_reseal_receipt_decode (Some (0, wire)) (Some 4096).

Definition receipt_fits (op : bytes) (o : operation) : bool :=
  match RewrapSql.o_receipt o with
  | None => true
  | Some (wire, digest) =>
      match decode_receipt wire with
      | None => false
      | Some r =>
          bytes_eqb (sha256 wire) digest && bytes_eqb (ResealReceipt.operation_id r) op
          && (ResealReceipt.old_generation r =? u64 (RewrapSql.o_old_generation o))
          && (ResealReceipt.new_generation r =? u64 (RewrapSql.o_new_generation o))
      end
  end.

Definition snapshot_decode (op : bytes) (o : operation) : option kb_store_vault_rewrap_snapshot_t :=
  if (1 <=? RewrapSql.o_seal_epoch o) && (1 <=? RewrapSql.o_fencing_token o) && (0 <=? RewrapSql.o_old_generation o)
     && negb (RewrapSql.o_old_generation o =? INT64_MAX)
     && (RewrapSql.o_new_generation o =? RewrapSql.o_old_generation o + 1)
     && (0 <=? RewrapSql.o_secret_count o) && (0 <=? RewrapSql.o_check_count o) && receipt_fits op o
     && Bool.eqb (bool_decide (is_Some (RewrapSql.o_inventory_digest o)))
                 (bool_decide (is_Some (RewrapSql.o_stage_digest o)))
     && failure_valid (RewrapSql.o_failure_class o) && snapshot_shape o
  then Some {| ss_operation_id := op; ss_state := RewrapSql.o_state o; ss_seal_epoch := RewrapSql.o_seal_epoch o;
               ss_fencing_token := RewrapSql.o_fencing_token o; ss_old_generation := RewrapSql.o_old_generation o;
               ss_new_generation := RewrapSql.o_new_generation o; ss_receipt := RewrapSql.o_receipt o;
               ss_secret_count := RewrapSql.o_secret_count o; ss_check_count := RewrapSql.o_check_count o;
               ss_inventory_digest := RewrapSql.o_inventory_digest o; ss_stage_digest := RewrapSql.o_stage_digest o;
               ss_failure_class := RewrapSql.o_failure_class o;
               ss_failure_from_state := RewrapSql.o_failure_from_state o |}
  else None.

Definition snapshot (op : bytes) (w : store)
    : kb_store_vault_rewrap_result_t * kb_store_vault_rewrap_snapshot_t * store :=
  let '(ok, w) := lock w in
  if negb ok then (DB_TRANSIENT, snapshot_zero, w)
  else
    let '(r, w) := query (fun d => inr (RewrapSql.org_vault_rewrap_snapshot op d, d)) w in
    let w := (unlock w).2 in
    match r with
    | inl e => (e, snapshot_zero, w)
    | inr None => (DB_NOT_FOUND, snapshot_zero, w)
    | inr (Some o) => match snapshot_decode op o with
                      | None => (DB_INTEGRITY, snapshot_zero, w)
                      | Some s => (DB_OK, s, w)
                      end
    end.

(** ** Statements of one row *)

(** [fail]: the handle is marked and the result handed on. *)
Definition failed (r : kb_store_vault_rewrap_result_t) (t : kb_store_vault_rewrap_tx) (w : store)
    : kb_store_vault_rewrap_result_t * kb_store_vault_rewrap_tx * store := (r, set_phase TX_FAILED t, w).

Definition begin (actor request op : bytes) (oldg newg : Z) (t : kb_store_vault_rewrap_tx) (w : store)
    : kb_store_vault_rewrap_result_t * kb_store_vault_rewrap_tx * store :=
  if negb (tx_valid t && in_phase t TX_GENERAL) || (oldg <? 0) || (oldg =? INT64_MAX) || negb (newg =? oldg + 1)
  then failed DB_INVALID t w
  else
    let '(r, w) := query (RewrapSql.org_vault_rewrap_reserve actor request op oldg newg) w in
    match r with
    | inl e => failed e t w
    | inr (returned, o) =>
        if negb (bytes_eqb returned op) || (RewrapSql.o_seal_epoch o <? 1) || (RewrapSql.o_fencing_token o <? 1)
        then failed DB_INTEGRITY t w
        else (DB_OK, set_phase TX_SINGLE_DONE t, w)
    end.

Definition single_state {A} (done : tx_phase) (op : bytes) (f : Z) (q : sql A) (t : kb_store_vault_rewrap_tx) (w : store)
    : kb_store_vault_rewrap_result_t * kb_store_vault_rewrap_tx * store :=
  if negb (tx_valid t) || (f <? 1) then failed DB_INVALID t w
  else
    let '(r, w) := query q w in
    match r with
    | inl e => failed e t w
    | inr _ => (DB_OK, set_phase done t, w)
    end.

Definition record_prepared (op : bytes) (f og ng : Z) (receipt : bytes) (t : kb_store_vault_rewrap_tx) (w : store)
    : kb_store_vault_rewrap_result_t * kb_store_vault_rewrap_tx * store :=
  match decode_receipt receipt with
  | None => failed DB_INVALID t w
  | Some _ =>
      single_state TX_SINGLE_DONE op f (RewrapSql.org_vault_rewrap_record_prepared op f receipt (sha256 receipt)) t w
  end.

(** ** Pages *)

Definition text_ok (cap : Z) (b : bytes) : bool := (zlen b <? cap) && negb (has_byte 0 b).

Fixpoint decode_secrets (verify : bool) (after : Z) (rows : list (Z * secret_row))
    : option (list kb_store_vault_rewrap_secret_t) :=
  match rows with
  | [] => Some []
  | (id, s) :: rows =>
      if text_ok 641 (RewrapSql.s_principal s) && text_ok 257 (RewrapSql.s_agent s) && text_ok 257 (RewrapSql.s_cred s)
         && (after <? id) && (1 <=? RewrapSql.s_version s)
         && (length (RewrapSql.s_wrapped_dek s) =? VAULT_WRAPPED_DEK_LEN)%nat
      then rest ← decode_secrets verify id rows;
           Some ({| source_id := id; version := RewrapSql.s_version s; principal := RewrapSql.s_principal s;
                    agent := RewrapSql.s_agent s; cred := RewrapSql.s_cred s;
                    source_digest := if verify then replicate 32 0 else sha256 (RewrapSql.s_wrapped_dek s);
                    wrapped_dek := RewrapSql.s_wrapped_dek s |} :: rest)
      else None
  end.

Definition secret_page (verify : bool) (op : bytes) (f after limit : Z) (t : kb_store_vault_rewrap_tx) (w : store)
    : kb_store_vault_rewrap_result_t * list kb_store_vault_rewrap_secret_t * kb_store_vault_rewrap_tx * store :=
  if negb (tx_valid t) || (limit <? 1) || (128 <? limit) || (after <? 0) then (DB_INVALID, [], set_phase TX_FAILED t, w)
  else
    let '(r, w) := query (if verify then RewrapSql.org_vault_rewrap_verify_secret_page op f after limit
                          else RewrapSql.org_vault_rewrap_secret_page op f after limit) w in
    match r with
    | inl e => (e, [], set_phase TX_FAILED t, w)
    | inr rows =>
        if limit <? Z.of_nat (length rows) then (DB_INTEGRITY, [], set_phase TX_FAILED t, w)
        else match decode_secrets verify after rows with
             | None => (DB_INTEGRITY, [], set_phase TX_FAILED t, w)
             | Some rows => (DB_OK, rows, t, w)
             end
    end.

(** [TX_GENERAL] turns into [TX_STAGING] at the first use. *)
Definition to_staging (t : kb_store_vault_rewrap_tx) : kb_store_vault_rewrap_tx :=
  if in_phase t TX_GENERAL then set_phase TX_STAGING t else t.

Definition last_id (d : Z) (rows : list kb_store_vault_rewrap_secret_t) : Z :=
  match last rows with Some r => source_id r | None => d end.

Definition source_secret_page (op : bytes) (f a limit : Z) (t : kb_store_vault_rewrap_tx) (w : store)
    : kb_store_vault_rewrap_result_t * list kb_store_vault_rewrap_secret_t * kb_store_vault_rewrap_tx * store :=
  let t := to_staging t in
  if negb (in_phase t TX_STAGING) || negb (a =? last_secret t) || secret_exhausted t
  then (DB_INVALID, [], set_phase TX_FAILED t, w)
  else
    let '(r, rows, t, w) := secret_page false op f a limit t w in
    if bool_decide (r = DB_OK)
    then (r, rows, set_secrets (last_id (last_secret t) rows) (consumed_secrets t) (bool_decide (rows = [])) t, w)
    else (r, rows, t, w).

(** Continuation bytes, most significant first. *)
Fixpoint utf8_tail (need : nat) (cp : Z) (s : bytes) : option (Z * bytes) :=
  match need, s with
  | O, _ => Some (cp, s)
  | S n, d :: r => if Z.land d 192 =? 128 then utf8_tail n (Z.lor (Z.shiftl cp 6) (Z.land d 63)) r else None
  | S _, [] => None
  end.

Definition utf8_head (c : Z) : option (nat * Z) :=
  if (194 <=? c) && (c <=? 223) then Some (1%nat, Z.land c 31)
  else if (224 <=? c) && (c <=? 239) then Some (2%nat, Z.land c 15)
  else if (240 <=? c) && (c <=? 244) then Some (3%nat, Z.land c 7)
  else None.

Fixpoint utf8_loop (fuel : nat) (s : bytes) : bool :=
  match fuel, s with
  | _, [] => true
  | O, _ => false
  | S fuel, c :: r =>
      if c =? 0 then false
      else if c <? 128 then utf8_loop fuel r
      else
        match utf8_head c with
        | None => false
        | Some (q, cp) =>
            match utf8_tail q cp r with
            | None => false
            | Some (cp, r) =>
                if ((q =? 2)%nat && (cp <? 2048)) || ((q =? 3)%nat && (cp <? 65536))
                   || ((55296 <=? cp) && (cp <=? 57343)) || (1114111 <? cp)
                then false else utf8_loop fuel r
            end
        end
  end.

Definition utf8_valid (s : bytes) : bool := utf8_loop (length s) s.

(** The sign of [memcmp], then of the lengths. *)
Definition cursor_cmp (a b : bytes) : Z :=
  if RewrapSql.bytes_ltb a b then -1 else if bytes_eqb a b then 0 else 1.

(** The rows of a page and the cursor after it. *)
Fixpoint decode_checks (verify : bool) (next : bytes) (rows : list (bytes * bytes))
    : option (list kb_store_vault_rewrap_check_t * bytes) :=
  match rows with
  | [] => Some ([], next)
  | (p, kc) :: rows =>
      if text_ok 641 p && ((length kc =? 0)%nat || (length kc =? VAULT_WRAPPED_DEK_LEN)%nat) && (1 <=? zlen p)
         && utf8_valid p && (0 <? cursor_cmp p next)
      then x ← decode_checks verify p rows;
           Some ({| ck_principal := p; ck_source_digest := if verify then replicate 32 0 else sha256 kc;
                    kek_check := kc |} :: x.1, x.2)
      else None
  end.

Definition check_page (verify : bool) (op : bytes) (f : Z) (a : bytes) (lim : Z) (t : kb_store_vault_rewrap_tx) (w : store)
    : kb_store_vault_rewrap_result_t * (list kb_store_vault_rewrap_check_t * bytes) * kb_store_vault_rewrap_tx * store :=
  if negb (tx_valid t) || (640 <? zlen a) || (lim <? 1) || (128 <? lim) then (DB_INVALID, ([], []), set_phase TX_FAILED t, w)
  else
    let '(r, w) := query (if verify then RewrapSql.org_vault_rewrap_verify_check_page op f a lim
                          else RewrapSql.org_vault_rewrap_check_page op f a lim) w in
    match r with
    | inl e => (e, ([], []), set_phase TX_FAILED t, w)
    | inr rows =>
        if lim <? Z.of_nat (length rows) then (DB_INTEGRITY, ([], []), set_phase TX_FAILED t, w)
        else match decode_checks verify a rows with
             | None => (DB_INTEGRITY, ([], []), set_phase TX_FAILED t, w)
             | Some page => (DB_OK, page, t, w)
             end
    end.

Definition source_check_page (op : bytes) (f : Z) (a : bytes) (lim : Z) (t : kb_store_vault_rewrap_tx) (w : store)
    : kb_store_vault_rewrap_result_t * (list kb_store_vault_rewrap_check_t * bytes) * kb_store_vault_rewrap_tx * store :=
  let t := to_staging t in
  if negb (in_phase t TX_STAGING) || negb (bytes_eqb a (cursor t)) || check_exhausted t
  then (DB_INVALID, ([], []), set_phase TX_FAILED t, w)
  else
    let '(r, page, t, w) := check_page false op f a lim t w in
    if bool_decide (r = DB_OK)
    then (r, page, set_checks page.2 (consumed_checks t) (bool_decide (page.1 = [])) t, w)
    else (r, page, t, w).

(** ** Staging *)

(** [op_query] for a procedure that returns nothing. *)
Definition void_query (f : Z) (q : sql unit) (t : kb_store_vault_rewrap_tx) (w : store)
    : kb_store_vault_rewrap_result_t * kb_store_vault_rewrap_tx * store :=
  if negb (tx_valid t) || (f <? 1) then failed DB_INVALID t w
  else let '(r, w) := query q w in match r with inl e => failed e t w | inr _ => (DB_OK, t, w) end.

Definition stage_dek (op : bytes) (f : Z) (s : kb_store_vault_rewrap_secret_t) (nw : bytes)
    (t : kb_store_vault_rewrap_tx) (w : store) : kb_store_vault_rewrap_result_t * kb_store_vault_rewrap_tx * store :=
  if negb (in_phase t TX_STAGING) then failed DB_INVALID t w
  else
    void_query f (RewrapSql.org_vault_rewrap_stage_dek op f (source_id s)
      {| RewrapSql.d_principal := principal s; RewrapSql.d_agent := agent s; RewrapSql.d_cred := cred s;
         RewrapSql.d_version := version s; RewrapSql.d_source_digest := source_digest s; RewrapSql.d_new := nw |}) t w.

Definition stage_check (op : bytes) (f : Z) (s : kb_store_vault_rewrap_check_t) (nw : bytes)
    (t : kb_store_vault_rewrap_tx) (w : store) : kb_store_vault_rewrap_result_t * kb_store_vault_rewrap_tx * store :=
  if negb (in_phase t TX_STAGING) || negb ((length nw =? 0)%nat || (length nw =? 40)%nat) then failed DB_INVALID t w
  else
    void_query f (RewrapSql.org_vault_rewrap_stage_check op f (ck_principal s)
      {| RewrapSql.k_source_digest := ck_source_digest s; RewrapSql.k_new := nw |}) t w.

Definition inventory_summary (op : bytes) (f : Z) (t : kb_store_vault_rewrap_tx) (w : store)
    : kb_store_vault_rewrap_result_t * kb_store_vault_rewrap_inventory_summary_t * kb_store_vault_rewrap_tx * store :=
  let zero := {| in_secret_count := 0; in_check_count := 0; in_inventory_digest := replicate 32 0 |} in
  if negb (in_phase t TX_GENERAL || in_phase t TX_STAGING) then (DB_INVALID, zero, set_phase TX_FAILED t, w)
  else
    let '(r, w) := query (RewrapSql.org_vault_rewrap_inventory_summary op f) w in
    match r with
    | inl e => (e, zero, set_phase TX_FAILED t, w)
    | inr (sc, cc, digest) =>
        if (sc <? 0) || (cc <? 0) || negb (length digest =? 32)%nat then (DB_INTEGRITY, zero, set_phase TX_FAILED t, w)
        else (DB_OK, {| in_secret_count := sc; in_check_count := cc; in_inventory_digest := digest |},
              set_phase TX_STAGING t, w)
    end.

Definition stage_finish (op : bytes) (f : Z) (expected : kb_store_vault_rewrap_inventory_summary_t)
    (t : kb_store_vault_rewrap_tx) (w : store) : kb_store_vault_rewrap_result_t * kb_store_vault_rewrap_tx * store :=
  if negb (secret_exhausted t) || negb (check_exhausted t) || (in_secret_count expected <? 0)
     || (in_check_count expected <? 0) then failed DB_INVALID t w
  else single_state TX_STAGE_DONE op f
         (RewrapSql.org_vault_rewrap_stage_finish op f (in_secret_count expected) (in_check_count expected)
            (in_inventory_digest expected)) t w.

(** ** Edges *)

Definition mark_committing (op : bytes) (f : Z) :=
  single_state TX_SINGLE_DONE op f (RewrapSql.org_vault_rewrap_mark_committing op f).
Definition mark_resealed (op : bytes) (f : Z) (d : bytes) :=
  single_state TX_SINGLE_DONE op f (RewrapSql.org_vault_rewrap_mark_resealed op f d).
Definition promote (op : bytes) (f : Z) :=
  single_state TX_PROMOTE_DONE op f (RewrapSql.org_vault_rewrap_promote op f).
Definition abort_op (op : bytes) (f : Z) (x : bytes) (t : kb_store_vault_rewrap_tx) (w : store) :=
  if bool_decide (x = []) then failed DB_INVALID t w
  else single_state TX_SINGLE_DONE op f (RewrapSql.org_vault_rewrap_abort op f x) t w.
Definition recovery (op : bytes) (f : Z) (x : bytes) (t : kb_store_vault_rewrap_tx) (w : store) :=
  if bool_decide (x = []) then failed DB_INVALID t w
  else single_state TX_SINGLE_DONE op f (RewrapSql.org_vault_rewrap_recovery_required op f x) t w.

(** ** Verifying *)

Definition verify_summary (op : bytes) (f : Z) (t : kb_store_vault_rewrap_tx) (w : store)
    : kb_store_vault_rewrap_result_t * kb_store_vault_rewrap_verify_summary_t * kb_store_vault_rewrap_tx * store :=
  let zero := {| vs_secret_count := 0; vs_check_count := 0; vs_receipt_digest := replicate 32 0;
                 vs_inventory_digest := replicate 32 0; vs_stage_digest := replicate 32 0 |} in
  if negb (tx_valid t && in_phase t TX_GENERAL) then (DB_INVALID, zero, set_phase TX_FAILED t, w)
  else
    let '(r, w) := query (RewrapSql.org_vault_rewrap_verify_summary op f) w in
    match r with
    | inl e => (e, zero, set_phase TX_FAILED t, w)
    | inr (sc, cc, rd, id, sd) =>
        if (sc <? 0) || (cc <? 0) || negb (length rd =? 32)%nat || negb (length id =? 32)%nat || negb (length sd =? 32)%nat
        then (DB_INTEGRITY, zero, set_phase TX_FAILED t, w)
        else
          let v := {| vs_secret_count := sc; vs_check_count := cc; vs_receipt_digest := rd; vs_inventory_digest := id;
                      vs_stage_digest := sd |} in
          (DB_OK, v, set_summary op f v t, w)
    end.

Definition verify_secret_page (op : bytes) (f a limit : Z) (t : kb_store_vault_rewrap_tx) (w : store)
    : kb_store_vault_rewrap_result_t * list kb_store_vault_rewrap_secret_t * kb_store_vault_rewrap_tx * store :=
  if negb (in_phase t TX_VERIFY_SECRET) || negb (a =? last_secret t) then (DB_INVALID, [], set_phase TX_FAILED t, w)
  else
    let '(r, rows, t, w) := secret_page true op f a limit t w in
    if negb (bool_decide (r = DB_OK)) then (r, rows, t, w)
    else
      let n := Z.of_nat (length rows) in
      if expected_secrets t - consumed_secrets t <? n then (DB_INTEGRITY, rows, set_phase TX_FAILED t, w)
      else
        let t := set_secrets (last_id (last_secret t) rows) (consumed_secrets t + n) (secret_exhausted t) t in
        if negb (n =? 0) then (r, rows, t, w)
        else if consumed_secrets t =? expected_secrets t then (r, rows, set_phase TX_VERIFY_CHECK t, w)
        else (DB_INTEGRITY, rows, set_phase TX_FAILED t, w).

Definition verify_check_page (op : bytes) (f : Z) (a : bytes) (lim : Z) (t : kb_store_vault_rewrap_tx) (w : store)
    : kb_store_vault_rewrap_result_t * (list kb_store_vault_rewrap_check_t * bytes) * kb_store_vault_rewrap_tx * store :=
  if negb (in_phase t TX_VERIFY_CHECK) || negb (bytes_eqb a (cursor t)) then (DB_INVALID, ([], []), set_phase TX_FAILED t, w)
  else
    let '(r, page, t, w) := check_page true op f a lim t w in
    if negb (bool_decide (r = DB_OK)) then (r, page, t, w)
    else
      let n := Z.of_nat (length page.1) in
      if expected_checks t - consumed_checks t <? n then (DB_INTEGRITY, page, set_phase TX_FAILED t, w)
      else
        let t := set_checks page.2 (consumed_checks t + n) (check_exhausted t) t in
        if negb (n =? 0) then (r, page, t, w)
        else if consumed_checks t =? expected_checks t then (r, page, set_phase TX_VERIFY_CONSUMED t, w)
        else (DB_INTEGRITY, page, set_phase TX_FAILED t, w).

Definition verify_ack (op : bytes) (f : Z) (t : kb_store_vault_rewrap_tx) (w : store)
    : kb_store_vault_rewrap_result_t * kb_store_vault_rewrap_tx * store :=
  if negb (tx_valid t) || negb (in_phase t TX_VERIFY_CONSUMED) || negb (f =? fence t)
     || negb (bytes_eqb op (operation_id t)) then failed DB_INVALID t w
  else (DB_OK, set_phase TX_ACKED t, w).

Definition complete (op : bytes) (f : Z) (r i s : bytes) (t : kb_store_vault_rewrap_tx) (w : store)
    : kb_store_vault_rewrap_result_t * kb_store_vault_rewrap_tx * store :=
  if negb (tx_valid t) || negb (in_phase t TX_ACKED) || negb (f =? fence t) || negb (bytes_eqb op (operation_id t))
     || negb (bytes_eqb r (receipt_digest t)) || negb (bytes_eqb i (inventory_digest t))
     || negb (bytes_eqb s (stage_digest t)) then failed DB_INVALID t w
  else single_state TX_COMPLETE op f (RewrapSql.org_vault_rewrap_complete op f r i s) t w.

Definition kb_store_vault_operator_rewrap_ops : kb_store_vault_rewrap_ops_t store kb_store_vault_rewrap_tx :=
  {| Rewrap.tx_begin := tx_begin; Rewrap.tx_commit := tx_commit; Rewrap.tx_rollback := tx_rollback;
     Rewrap.snapshot := snapshot; Rewrap.begin := begin; Rewrap.record_prepared := record_prepared;
     Rewrap.source_secret_page := source_secret_page; Rewrap.source_check_page := source_check_page;
     Rewrap.stage_dek := stage_dek; Rewrap.stage_check := stage_check; Rewrap.inventory_summary := inventory_summary;
     Rewrap.stage_finish := stage_finish; Rewrap.mark_committing := mark_committing;
     Rewrap.mark_resealed := mark_resealed; Rewrap.promote := promote; Rewrap.abort := abort_op;
     Rewrap.recovery_required := recovery; Rewrap.verify_summary := verify_summary;
     Rewrap.verify_secret_page := verify_secret_page; Rewrap.verify_check_page := verify_check_page;
     Rewrap.verify_crypto_ack := verify_ack; Rewrap.complete := complete |}.

End Store.
End RewrapStore.
