(* ===== verification/ResealCustody.v ===== *)
(** * Custody of the vault's key in a TPM
    ([src/src/modules/vault/vault_custody_tpm2.c], [vault_server_key.c],
     [vault_kek_check.c], [vault_reseal_orchestrator.c] for the table)

    The key is sealed in a blob bound to a generation; the TPM's counter says
    which generation is current and never goes back.  A change of the key
    prepares a bundle with the new key sealed twice, to the current and to the
    next generation, then advances the counter, then installs the second blob.
    The TPM and the key wrap are classes: what is used of them is their laws.
    Every call to the TPM or the file system takes the next number of
    [faults]: it may fail, or take effect and report a failure; from some
    point on failing alone, it is what a crash leaves.  A directory whose
    rename was reported is taken to keep it.  The temporary files of a
    preparation are its local values. *)

From Stdlib Require Import ZArith Lia String Ascii.
From stdpp Require Import base numbers option list.
From S2P Require Import Prelude Wire ResealReceipt Rewrap.

(** What is used of the TPM: [tpm_create] is [Esys_Create] of a sealed object
    under the policy of a generation, marshalled, [tpm_unseal] is loading it,
    the policy session and [Esys_Unseal] with the counter at [nv].  A TPM
    seals at most 128 bytes. *)
Class Tpm2 := {
  tpm_create : bytes -> Z -> bytes -> bytes -> bytes * bytes;
  tpm_unmarshals : bytes -> bytes -> bool;
  tpm_public_fits : Z -> bytes -> bool;
  tpm_unseal : bytes -> bytes -> bytes -> Z -> Z -> option bytes;
  tpm_create_unmarshals : forall data gen auth e, (length data <= 128)%nat ->
    tpm_unmarshals (tpm_create data gen auth e).1 (tpm_create data gen auth e).2 = true;
  tpm_create_size : forall data gen auth e, (length data <= 128)%nat ->
    zlen (tpm_create data gen auth e).1 + zlen (tpm_create data gen auth e).2 <= 8168;
  tpm_unseal_created : forall data gen auth e, (length data <= 128)%nat ->
    tpm_unseal (tpm_create data gen auth e).1 (tpm_create data gen auth e).2 auth gen gen = Some data
}.

(** What is used of OpenSSL: the AES-256 key wrap of RFC 3394, which adds eight
    bytes and undoes what it wrapped under the same key, and HKDF with SHA-256
    of a key, a salt and an info. *)
Class KeyWrap := {
  aes_256_wrap : bytes -> bytes -> option bytes;
  aes_256_unwrap : bytes -> bytes -> option bytes;
  hkdf_sha256 : bytes -> bytes -> bytes -> bytes;
  aes_256_wrap_length : forall kek dek w, aes_256_wrap kek dek = Some w -> length w = (length dek + 8)%nat;
  aes_256_unwrap_wrap : forall kek dek w, aes_256_wrap kek dek = Some w -> aes_256_unwrap kek w = Some dek
}.

Module ResealCustody.
Import Rewrap.
Open Scope rewrap_scope.

Definition TPM2_BLOB_MAX : Z := 8192.
Definition TPM2_RESEAL_BUNDLE_HDR : nat := 176.
Definition TPM2_RESEAL_BUNDLE_MAX : Z := 16560.
Definition TPM2_BLOB_MAGIC_V1 : bytes := (str "AIMTPM2" ++ [0])%list.
Definition TPM2_BLOB_MAGIC_V2 : bytes := str "AIMTPM2B".
Definition TPM2_RESEAL_BUNDLE_MAGIC : bytes := (str "AIMRSB1" ++ [0])%list.
Definition TPM2_AUTH_SALT : bytes := (str "aimee-tpm2-av1" ++ [0; 0])%list.
Definition VAULT_DEK_LEN : nat := 32.
Definition VAULT_KEK_INFO : string := "aimee-vault-kek-v1".

(** ** State *)

(** The TPM and the files first, then the process. *)
Record custody := {
  nv : Z;
  nv_authvalue : bytes;
  blob : option bytes;
  bundle : option bytes;
  nv_auth : option bytes;       (** set on the handle of the counter *)
  sealed : bool;
  kek_ready : bool;
  kek : bytes;
  owned_guard : bool;
  use_epoch : Z;
  primary_epoch : option Z;
  entropy : list bytes;
  faults : list Z
}.

Definition set_faults (f : list Z) (c : custody) : custody :=
  {| nv := nv c; nv_authvalue := nv_authvalue c; blob := blob c; bundle := bundle c; nv_auth := nv_auth c;
     sealed := sealed c; kek_ready := kek_ready c; kek := kek c; owned_guard := owned_guard c;
     use_epoch := use_epoch c; primary_epoch := primary_epoch c; entropy := entropy c; faults := f |}.
Definition set_nv (n : Z) (c : custody) : custody :=
  {| nv := n; nv_authvalue := nv_authvalue c; blob := blob c; bundle := bundle c; nv_auth := nv_auth c;
     sealed := sealed c; kek_ready := kek_ready c; kek := kek c; owned_guard := owned_guard c;
     use_epoch := use_epoch c; primary_epoch := primary_epoch c; entropy := entropy c; faults := faults c |}.
Definition set_files (b u : option bytes) (c : custody) : custody :=
  {| nv := nv c; nv_authvalue := nv_authvalue c; blob := b; bundle := u; nv_auth := nv_auth c;
     sealed := sealed c; kek_ready := kek_ready c; kek := kek c; owned_guard := owned_guard c;
     use_epoch := use_epoch c; primary_epoch := primary_epoch c; entropy := entropy c; faults := faults c |}.
Definition set_nv_auth (a : bytes) (c : custody) : custody :=
  {| nv := nv c; nv_authvalue := nv_authvalue c; blob := blob c; bundle := bundle c; nv_auth := Some a;
     sealed := sealed c; kek_ready := kek_ready c; kek := kek c; owned_guard := owned_guard c;
     use_epoch := use_epoch c; primary_epoch := primary_epoch c; entropy := entropy c; faults := faults c |}.
Definition set_cache (s r : bool) (k : bytes) (c : custody) : custody :=
  {| nv := nv c; nv_authvalue := nv_authvalue c; blob := blob c; bundle := bundle c; nv_auth := nv_auth c;
     sealed := s; kek_ready := r; kek := k; owned_guard := owned_guard c;
     use_epoch := use_epoch c; primary_epoch := primary_epoch c; entropy := entropy c; faults := faults c |}.
Definition set_guard (g : bool) (u : Z) (p : option Z) (c : custody) : custody :=
  {| nv := nv c; nv_authvalue := nv_authvalue c; blob := blob c; bundle := bundle c; nv_auth := nv_auth c;
     sealed := sealed c; kek_ready := kek_ready c; kek := kek c; owned_guard := g;
     use_epoch := u; primary_epoch := p; entropy := entropy c; faults := faults c |}.
Definition set_entropy (e : list bytes) (c : custody) : custody :=
  {| nv := nv c; nv_authvalue := nv_authvalue c; blob := blob c; bundle := bundle c; nv_auth := nv_auth c;
     sealed := sealed c; kek_ready := kek_ready c; kek := kek c; owned_guard := owned_guard c;
     use_epoch := use_epoch c; primary_epoch := primary_epoch c; entropy := e; faults := faults c |}.

Definition fault : M custody Z := fun c =>
  (match faults c with f :: _ => f | [] => 0 end, set_faults (tail (faults c)) c).

(** A call that changes nothing and may fail: [tpm2_process_ready],
    [ensure_ready], [ensure_primary], [reseal_lock], [fsync_parent]. *)
Definition works : M custody bool := e <- fault ;; ret (e =? 0).

Definition when (b : bool) {A} (m : M custody A) (d : A) : M custody A := if b then m else ret d.

(** The left to right evaluation of [&&]. *)
Definition and_ (a b : M custody bool) : M custody bool := x <- a ;; if x then b else ret false.

Definition draw : M custody bytes := fun c =>
  (match entropy c with e :: _ => e | [] => [] end, set_entropy (tail (entropy c)) c).

Definition reseal_mark_sealed : M custody unit := fun c => (tt, set_cache true false (replicate VAULT_KEK_LEN 0) c).

Section Tpm.
Context {HS : Sha256} {HT : Tpm2} {HK : KeyWrap}.

(** ** Keys *)

(** The contexts of OpenSSL are taken to be allocated. *)
Definition vault_dek_wrap (kek dek : bytes) : option bytes :=
  match aes_256_wrap kek dek with
  | Some w => if (length w =? VAULT_WRAPPED_DEK_LEN)%nat then Some w else None
  | None => None
  end.

Definition vault_dek_unwrap (kek wrapped : bytes) : option bytes :=
  match aes_256_unwrap kek wrapped with
  | Some d => if (length d =? VAULT_DEK_LEN)%nat then Some d else None
  | None => None
  end.

(** With a root key and a salt of their fixed lengths. *)
Definition vault_kek_derive (root salt : bytes) : bytes := hkdf_sha256 root salt (str VAULT_KEK_INFO).

Definition derive_authvalue (secret : bytes) : bytes := vault_kek_derive (sha256 secret) TPM2_AUTH_SALT.

(** ** The counter *)

(** With [allow_create] 0. *)
Definition nv_ensure (secret : bytes) : M custody bool :=
  ok <- works ;;
  if ok then (fun c => (true, set_nv_auth (derive_authvalue secret) c)) else ret false.

(** The TPM checks the authorization value set on the handle. *)
Definition nv_authorized (c : custody) : bool := bool_decide (nv_auth c = Some (nv_authvalue c)).

Definition nv_read : M custody (option Z) :=
  ok <- works ;; fun c => (if ok && nv_authorized c then Some (nv c) else None, c).

(** 2 is an increment that takes effect and reports a failure. *)
Definition nv_increment : M custody bool :=
  e <- fault ;; fun c =>
  if negb (nv_authorized c) then (false, c)
  else if e =? 0 then (true, set_nv (nv c + 1) c)
  else if e =? 2 then (false, set_nv (nv c + 1) c)
  else (false, c).

(** ** Blobs *)

Definition blob_bytes (generation : Z) (pub priv : bytes) : bytes :=
  (TPM2_BLOB_MAGIC_V2 ++ put_u64 generation ++ put_u32 (zlen pub) ++ put_u32 (zlen priv) ++ pub ++ priv)%list.

(** The generation, the public and the private part. *)
Definition blob_bytes_unmarshal_v2 (b : bytes) : option (Z * bytes * bytes) :=
  if (length b <? 24)%nat || (TPM2_BLOB_MAX <? zlen b) || negb (bytes_eqb (take 8 b) TPM2_BLOB_MAGIC_V2) then None
  else
    let pub_len := get_u32 (drop 16 b) in
    let priv_len := get_u32 (drop 20 b) in
    if negb (24 + pub_len + priv_len =? zlen b) then None
    else
      let pub := take (Z.to_nat pub_len) (drop 24 b) in
      let priv := drop (24 + Z.to_nat pub_len) b in
      if tpm_unmarshals pub priv then Some (get_u64 (drop 8 b), pub, priv) else None.

(** A recognized blob: [None] is one of the first version. *)
Definition blob_read (b : bytes) : option (option (Z * bytes * bytes)) :=
  if (length b <? 8)%nat || (TPM2_BLOB_MAX <? zlen b) then None
  else if bytes_eqb (take 8 b) TPM2_BLOB_MAGIC_V1 then Some None
  else Some <$> blob_bytes_unmarshal_v2 b.

Definition compute_seal_policy : M custody bool := ok <- works ;; fun c => (ok && nv_authorized c, c).

Definition blob_bytes_validate (b : bytes) (expected_generation : Z) : M custody bool :=
  match blob_bytes_unmarshal_v2 b with
  | None => ret false
  | Some (generation, pub, _) =>
      if negb (generation =? expected_generation) then ret false
      else ok <- compute_seal_policy ;; ret (ok && tpm_public_fits expected_generation pub)
  end.

(** A file of 1 to [cap] bytes. *)
Definition raw_read (path : custody -> option bytes) (cap : Z) : M custody (option bytes) :=
  ok <- works ;; fun c =>
  (match path c with
   | Some b => if ok && negb (length b =? 0)%nat && (zlen b <=? cap) then Some b else None
   | None => None
   end, c).

(** The digest of the blob in place when it is one of the generation. *)
Definition blob_file_digest_validate (expected_generation : Z) : M custody (option bytes) :=
  b <- raw_read blob TPM2_BLOB_MAX ;;
  match b with
  | None => ret None
  | Some b => ok <- blob_bytes_validate b expected_generation ;; ret (if ok : bool then Some (sha256 b) else None)
  end.

Definition blob_is (generation : Z) (digest : bytes) : M custody bool :=
  d <- blob_file_digest_validate generation ;; ret (bool_decide (d = Some digest)).

(** [Esys_Create], [blob_write] and the bytes read back. *)
Definition seal_generation_path (k : bytes) (generation : Z) (secret : bytes) : M custody (option bytes) :=
  ok <- compute_seal_policy ;;
  if negb ok then ret None
  else
    created <- works ;;
    if negb created then ret None
    else
      e <- draw ;;
      (let '(pub, priv) := tpm_create (k ++ put_u64 generation)%list generation (derive_authvalue secret) e in
       written <- works ;;
       ret (if written then Some (blob_bytes generation pub priv) else None)).

(** The key in an object: the policy, the data's length and its generation
    against the blob's and the counter's. *)
Definition sealed_key (pub priv auth : bytes) (bound_gen live : Z) : option bytes :=
  match tpm_unseal pub priv auth bound_gen live with
  | None => None
  | Some data =>
      if (length data =? VAULT_KEK_LEN + 8)%nat && (get_u64 (drop VAULT_KEK_LEN data) =? bound_gen) && (live =? bound_gen)
      then Some (take VAULT_KEK_LEN data) else None
  end.

Definition unseal_loaded_locked (pub priv : bytes) (bound_gen : Z) (secret : bytes) : M custody (option bytes) :=
  n <- nv_ensure secret ;;
  if negb n then ret None
  else
    ok <- works ;;
    if negb ok then ret None
    else
      live <- nv_read ;; fun c =>
      (match live with
       | None => None
       | Some live => sealed_key pub priv (derive_authvalue secret) bound_gen live
       end, c).

(** ** Bundles *)

Definition receipt_from_header (h : bytes) : ResealReceipt.vault_tpm2_reseal_receipt_t :=
  {| ResealReceipt.operation_id := take 16 (drop 8 h);
     ResealReceipt.old_generation := get_u64 (drop 24 h); ResealReceipt.new_generation := get_u64 (drop 32 h);
     ResealReceipt.predecessor_digest := take 32 (drop 40 h); ResealReceipt.capsule_digest := take 32 (drop 72 h);
     ResealReceipt.future_digest := take 32 (drop 104 h); ResealReceipt.new_kek_digest := take 32 (drop 136 h);
     ResealReceipt.manifest_digest := sha256 (take TPM2_RESEAL_BUNDLE_HDR h) |}.

Record reseal_bundle_t := {
  capsule : bytes;
  future : bytes;
  receipt : ResealReceipt.vault_tpm2_reseal_receipt_t
}.

(** The checks on the bytes. *)
Definition bundle_parse (b : bytes) : option reseal_bundle_t :=
  if (length b <? TPM2_RESEAL_BUNDLE_HDR)%nat || negb (bytes_eqb (take 8 b) TPM2_RESEAL_BUNDLE_MAGIC) then None
  else
    let clen := get_u32 (drop 168 b) in
    let flen := get_u32 (drop 172 b) in
    if (clen =? 0) || (flen =? 0) || (TPM2_BLOB_MAX <? clen) || (TPM2_BLOB_MAX <? flen)
       || negb (Z.of_nat TPM2_RESEAL_BUNDLE_HDR + clen + flen =? zlen b) then None
    else
      let cap := take (Z.to_nat clen) (drop TPM2_RESEAL_BUNDLE_HDR b) in
      let fut := drop (TPM2_RESEAL_BUNDLE_HDR + Z.to_nat clen) b in
      if negb (bytes_eqb (sha256 cap) (take 32 (drop 72 b))) || negb (bytes_eqb (sha256 fut) (take 32 (drop 104 b)))
      then None
      else Some {| capsule := cap; future := fut; receipt := receipt_from_header b |}.

Inductive load_result := LOAD_absent | LOAD_corrupt | LOAD_ok (b : reseal_bundle_t).

Definition bundle_load : M custody load_result :=
  x <- raw_read bundle TPM2_RESEAL_BUNDLE_MAX ;;
  match x with
  | None => fun c => (if bool_decide (bundle c = None) then LOAD_absent else LOAD_corrupt, c)
  | Some bytes =>
      match bundle_parse bytes with
      | None => ret LOAD_corrupt
      | Some b =>
          ok <- and_ (blob_bytes_validate (capsule b) (ResealReceipt.old_generation (receipt b)))
                     (blob_bytes_validate (future b) (ResealReceipt.new_generation (receipt b))) ;;
          ret (if ok : bool then LOAD_ok b else LOAD_corrupt)
      end
  end.

(** ** Status *)

Definition follows (old new : Z) : bool := negb (old =? UINT64_MAX) && (new =? old + 1).

(** Without a bundle. *)
Definition status_absent (r : option ResealReceipt.vault_tpm2_reseal_receipt_t) (n : Z)
    : M custody (vault_tpm2_reseal_result_t * vault_tpm2_reseal_status_t) :=
  match r with
  | None => ret (CU_OK, TPM_ABSENT)
  | Some r =>
      let old := ResealReceipt.old_generation r in
      let new := ResealReceipt.new_generation r in
      if negb (follows old new) then ret (CU_INTEGRITY, TPM_CONFLICT)
      else if n =? new then
        ok <- and_ (blob_is new (ResealReceipt.future_digest r)) works ;;
        ret (if ok : bool then (CU_OK, TPM_CLEANED) else (CU_INTEGRITY, TPM_CONFLICT))
      else if n =? old then
        ok <- and_ (blob_is old (ResealReceipt.predecessor_digest r)) works ;;
        ret (if ok : bool then (CU_OK, TPM_ABSENT) else (CU_INTEGRITY, TPM_CONFLICT))
      else ret (CU_INTEGRITY, TPM_CONFLICT)
  end.

(** The struct in two buffers that do not overlap. *)
Definition receipt_equal (a b : ResealReceipt.vault_tpm2_reseal_receipt_t) : bool :=
  ResealReceipt.vault_reseal_receipt_equal (Some (0, a)) (Some (4096, b)) 8192 12288.

(** With one; [out] is what [*out] held. *)
Definition status_bundle (r : option ResealReceipt.vault_tpm2_reseal_receipt_t) (b : reseal_bundle_t) (n : Z)
    (out : vault_tpm2_reseal_status_t) : M custody (vault_tpm2_reseal_result_t * vault_tpm2_reseal_status_t) :=
  let br := receipt b in
  let old := ResealReceipt.old_generation br in
  let new := ResealReceipt.new_generation br in
  if match r with Some r => negb (receipt_equal r br) | None => false end || negb (follows old new)
  then ret (CU_INTEGRITY, TPM_CONFLICT)
  else
    prepared <- when (n =? old) (blob_is old (ResealReceipt.predecessor_digest br)) false ;;
    if prepared : bool then ret (CU_OK, TPM_PREPARED)
    else
      installed <- when (n =? new) (blob_is new (ResealReceipt.future_digest br)) false ;;
      if installed : bool then
        synced <- works ;; ret (if synced then (CU_OK, TPM_INSTALLED) else (CU_ERR, out))
      else
        advanced <- when (n =? new) (blob_is old (ResealReceipt.predecessor_digest br)) false ;;
        ret (if advanced : bool then (CU_OK, TPM_NV_ADVANCED) else (CU_INTEGRITY, TPM_CONFLICT)).

Definition reseal_status_locked (r : option ResealReceipt.vault_tpm2_reseal_receipt_t) (secret : bytes)
    (out : vault_tpm2_reseal_status_t)
    : M custody (vault_tpm2_reseal_result_t * vault_tpm2_reseal_status_t * option reseal_bundle_t) :=
  e <- nv_ensure secret ;;
  n <- (if e : bool then nv_read else ret None) ;;
  match n with
  | None => ret (CU_ERR, out, None)
  | Some n =>
      l <- bundle_load ;;
      match l with
      | LOAD_corrupt => ret (CU_INTEGRITY, TPM_CORRUPT, None)
      | LOAD_absent => x <- status_absent r n ;; ret (x, None)
      | LOAD_ok b => x <- status_bundle r b n out ;; ret (x, Some b)
      end
  end.

(** [ensure_ready], [ensure_primary]. *)
Definition tpm_ready : M custody bool := and_ works works.

(** ** Preparing *)

Definition receipt_zero : ResealReceipt.vault_tpm2_reseal_receipt_t :=
  {| ResealReceipt.operation_id := replicate 16 0; ResealReceipt.old_generation := 0;
     ResealReceipt.new_generation := 0; ResealReceipt.predecessor_digest := replicate 32 0;
     ResealReceipt.capsule_digest := replicate 32 0; ResealReceipt.future_digest := replicate 32 0;
     ResealReceipt.new_kek_digest := replicate 32 0; ResealReceipt.manifest_digest := replicate 32 0 |}.

Definition bundle_bytes (op : bytes) (n : Z) (pred cap fut k : bytes) : bytes :=
  (TPM2_RESEAL_BUNDLE_MAGIC ++ op ++ put_u64 n ++ put_u64 (n + 1) ++ pred ++ sha256 cap ++ sha256 fut ++ sha256 k
   ++ put_u32 (zlen cap) ++ put_u32 (zlen fut) ++ cap ++ fut)%list.

(** [raw_write_atomic] of the bundle, which must not exist, and of the blob:
    2 takes effect and reports that the directory was not synced. *)
Definition write_bundle (b : bytes) : M custody bool :=
  e <- fault ;; fun c =>
  if (e =? 0) && bool_decide (bundle c = None) then (true, set_files (blob c) (Some b) c)
  else if (e =? 2) && bool_decide (bundle c = None) then (false, set_files (blob c) (Some b) c)
  else (false, c).
Definition write_blob (b : bytes) : M custody bool :=
  e <- fault ;; fun c =>
  if e =? 0 then (true, set_files (Some b) (bundle c) c)
  else if e =? 2 then (false, set_files (Some b) (bundle c) c)
  else (false, c).
Definition unlink_bundle : M custody bool :=
  e <- fault ;; fun c => if (e =? 0) && negb (bool_decide (bundle c = None)) then (true, set_files (blob c) None c) else (false, c).

(** A bundle is there already. *)
Definition prepare_existing (op : bytes) (expected : Z) (k secret : bytes) (existing : reseal_bundle_t)
    : M custody (vault_tpm2_reseal_result_t * ResealReceipt.vault_tpm2_reseal_receipt_t) :=
  let r := receipt existing in
  if (ResealReceipt.old_generation r =? expected) && bytes_eqb (ResealReceipt.operation_id r) op
     && bytes_eqb (ResealReceipt.new_kek_digest r) (sha256 k) then
    x <- reseal_status_locked (Some r) secret TPM_CORRUPT ;;
    ok <- when (bool_decide (x.1.1 = CU_OK) && bool_decide (x.1.2 = TPM_PREPARED)) works false ;;
    ret (if ok : bool then (CU_OK, r) else (CU_INTEGRITY, receipt_zero))
  else ret (CU_INTEGRITY, receipt_zero).

(** From the two seals to the bundle. *)
Definition prepare_seal (op : bytes) (n : Z) (pred k secret : bytes)
    : M custody (vault_tpm2_reseal_result_t * ResealReceipt.vault_tpm2_reseal_receipt_t) :=
  cap <- seal_generation_path k n secret ;;
  fut <- (if bool_decide (cap = None) then ret None else seal_generation_path k (n + 1) secret) ;;
  match cap, fut with
  | Some cap, Some fut =>
      reread <- and_ works works ;;
      if negb reread then ret (CU_ERR, receipt_zero)
      else
        let b := bundle_bytes op n pred cap fut k in
        w <- write_bundle b ;;
        ret (if w : bool then (CU_OK, receipt_from_header b) else (CU_ERR, receipt_zero))
  | _, _ => ret (CU_ERR, receipt_zero)
  end.

Definition prepare_fresh (op : bytes) (expected : Z) (k secret : bytes)
    : M custody (vault_tpm2_reseal_result_t * ResealReceipt.vault_tpm2_reseal_receipt_t) :=
  n <- nv_read ;;
  match n with
  | None => ret (CU_ERR, receipt_zero)
  | Some n =>
      if negb (n =? expected) then ret (CU_ERR, receipt_zero)
      else
        pred <- blob_file_digest_validate expected ;;
        match pred with
        | None => ret (CU_ERR, receipt_zero)
        | Some pred => prepare_seal op n pred k secret
        end
  end.

Definition vault_custody_tpm2_reseal_prepare (op : bytes) (expected : Z) (k secret : bytes)
    : M custody (vault_tpm2_reseal_result_t * ResealReceipt.vault_tpm2_reseal_receipt_t) :=
  p <- works ;;
  if negb p || (expected =? UINT64_MAX) then ret (CU_ERR, receipt_zero)
  else
    reseal_mark_sealed ;;;
    ok <- and_ (and_ tpm_ready (nv_ensure secret)) works ;;
    if negb ok then ret (CU_ERR, receipt_zero)
    else
      er <- bundle_load ;;
      match er with
      | LOAD_ok existing => prepare_existing op expected k secret existing
      | LOAD_corrupt => ret (CU_INTEGRITY, receipt_zero)
      | LOAD_absent => prepare_fresh op expected k secret
      end.

(** ** Looking *)

Definition discovered (op : bytes) (expected : Z)
    (x : vault_tpm2_reseal_result_t * vault_tpm2_reseal_status_t * option reseal_bundle_t)
    : vault_tpm2_reseal_result_t * (ResealReceipt.vault_tpm2_reseal_receipt_t * vault_tpm2_reseal_status_t) :=
  let '(rc, st, b) := x in
  if negb (bool_decide (rc = CU_OK)) then (rc, (receipt_zero, st))
  else if bool_decide (st = TPM_ABSENT) then (CU_OK, (receipt_zero, TPM_ABSENT))
  else
    match b with
    | Some b =>
        let r := receipt b in
        if (bool_decide (st = TPM_PREPARED) || bool_decide (st = TPM_NV_ADVANCED) || bool_decide (st = TPM_INSTALLED))
           && (ResealReceipt.old_generation r =? expected) && (ResealReceipt.new_generation r =? expected + 1)
           && bytes_eqb (ResealReceipt.operation_id r) op
        then (CU_OK, (r, st)) else (CU_INTEGRITY, (receipt_zero, TPM_CONFLICT))
    | None => (CU_INTEGRITY, (receipt_zero, TPM_CONFLICT))
    end.

Definition vault_custody_tpm2_reseal_discover (op : bytes) (expected : Z) (secret : bytes)
    : M custody (vault_tpm2_reseal_result_t * (ResealReceipt.vault_tpm2_reseal_receipt_t * vault_tpm2_reseal_status_t)) :=
  p <- works ;;
  if negb p || (expected =? UINT64_MAX) then ret (CU_ERR, (receipt_zero, TPM_CORRUPT))
  else
    reseal_mark_sealed ;;;
    ok <- tpm_ready ;;
    if negb ok then ret (CU_ERR, (receipt_zero, TPM_CORRUPT))
    else
      l <- works ;;
      if negb l then ret (CU_BUSY, (receipt_zero, TPM_CORRUPT))
      else x <- reseal_status_locked None secret TPM_CORRUPT ;; reseal_mark_sealed ;;; ret (discovered op expected x).

Definition zero_key : bytes := replicate VAULT_KEK_LEN 0.

(** The capsule of a prepared bundle. *)
Definition recover_capsule (r : ResealReceipt.vault_tpm2_reseal_receipt_t) (secret : bytes) (b : reseal_bundle_t)
    : M custody (vault_tpm2_reseal_result_t * bytes) :=
  match blob_bytes_unmarshal_v2 (capsule b) with
  | None => ret (CU_INTEGRITY, zero_key)
  | Some (generation, pub, priv) =>
      if negb (generation =? ResealReceipt.old_generation r) then ret (CU_INTEGRITY, zero_key)
      else
        k <- unseal_loaded_locked pub priv generation secret ;;
        ret (match k with
             | Some k => if bytes_eqb (sha256 k) (ResealReceipt.new_kek_digest r) then (CU_OK, k) else (CU_INTEGRITY, zero_key)
             | None => (CU_INTEGRITY, zero_key)
             end)
  end.

Definition vault_custody_tpm2_reseal_recover_kek (r : ResealReceipt.vault_tpm2_reseal_receipt_t) (secret : bytes)
    : M custody (vault_tpm2_reseal_result_t * bytes) :=
  p <- works ;;
  if negb p then ret (CU_ERR, zero_key)
  else
    reseal_mark_sealed ;;;
    ok <- tpm_ready ;;
    if negb ok then ret (CU_ERR, zero_key)
    else
      l <- works ;;
      if negb l then ret (CU_BUSY, zero_key)
      else
        x <- reseal_status_locked (Some r) secret TPM_CORRUPT ;;
        y <- match x with
             | (rc, st, b) =>
                 if negb (bool_decide (rc = CU_OK)) then ret (rc, zero_key)
                 else if negb (bool_decide (st = TPM_PREPARED)) then ret (CU_INTEGRITY, zero_key)
                 else match b with Some b => recover_capsule r secret b | None => ret (CU_INTEGRITY, zero_key) end
             end ;;
        reseal_mark_sealed ;;; ret y.

Definition vault_custody_tpm2_reseal_status (r : ResealReceipt.vault_tpm2_reseal_receipt_t) (secret : bytes)
    : M custody (vault_tpm2_reseal_result_t * vault_tpm2_reseal_status_t) :=
  p <- works ;;
  if negb p then ret (CU_ERR, TPM_CORRUPT)
  else
    reseal_mark_sealed ;;;
    ok <- and_ tpm_ready works ;;
    if negb ok then ret (CU_ERR, TPM_CORRUPT)
    else x <- reseal_status_locked (Some r) secret TPM_CORRUPT ;; ret x.1.

(** ** Committing *)

(** [PREPARED]: the counter moves; the left is the end of the call. *)
Definition commit_advance (r : ResealReceipt.vault_tpm2_reseal_receipt_t)
    : M custody ((vault_tpm2_reseal_result_t * vault_tpm2_reseal_status_t) + unit) :=
  before <- nv_read ;;
  same <- when (bool_decide (before = Some (ResealReceipt.old_generation r)))
            (blob_is (ResealReceipt.old_generation r) (ResealReceipt.predecessor_digest r)) false ;;
  if negb same then ret (inl (CU_INTEGRITY, TPM_CONFLICT))
  else
    inc <- nv_increment ;;
    seen <- (if inc : bool then ret true
             else o <- nv_read ;; ret (bool_decide (o = Some (ResealReceipt.new_generation r)))) ;;
    if negb seen then ret (inl (CU_ERR, TPM_PREPARED))
    else
      o <- nv_read ;;
      ret (if bool_decide (o = Some (ResealReceipt.new_generation r)) then inr tt else inl (CU_ERR, TPM_PREPARED)).

(** [NV_ADVANCED]: the future blob goes in place and is looked at again. *)
Definition commit_install (r : ResealReceipt.vault_tpm2_reseal_receipt_t) (secret : bytes) (b : reseal_bundle_t)
    : M custody (vault_tpm2_reseal_result_t * vault_tpm2_reseal_status_t) :=
  future_valid <- blob_is (ResealReceipt.new_generation r) (ResealReceipt.future_digest r) ;;
  w <- (if future_valid : bool then ret (inr tt)
        else
          old <- blob_is (ResealReceipt.old_generation r) (ResealReceipt.predecessor_digest r) ;;
          if negb old then ret (inl (CU_INTEGRITY, TPM_CONFLICT))
          else ok <- write_blob (future b) ;; ret (if ok : bool then inr tt else inl (CU_ERR, TPM_NV_ADVANCED))) ;;
  match w with
  | inl e => ret e
  | inr _ =>
      synced <- works ;;
      if negb synced then ret (CU_ERR, TPM_NV_ADVANCED)
      else
        x <- reseal_status_locked (Some r) secret TPM_NV_ADVANCED ;;
        let '(rc, st, _) := x in
        ret (if bool_decide (rc = CU_OK) && negb (bool_decide (st = TPM_INSTALLED)) then (CU_INTEGRITY, st) else (rc, st))
  end.

Definition commit_from (r : ResealReceipt.vault_tpm2_reseal_receipt_t) (secret : bytes)
    (x : vault_tpm2_reseal_result_t * vault_tpm2_reseal_status_t * option reseal_bundle_t)
    : M custody (vault_tpm2_reseal_result_t * vault_tpm2_reseal_status_t) :=
  match x with
  | (CU_OK, TPM_CLEANED, _) => ret (CU_INTEGRITY, TPM_CLEANED)
  | (CU_OK, TPM_INSTALLED, _) => ret (CU_OK, TPM_INSTALLED)
  | (CU_OK, TPM_PREPARED, Some b) =>
      a <- commit_advance r ;;
      match a with inl e => ret e | inr _ => commit_install r secret b end
  | (CU_OK, TPM_NV_ADVANCED, Some b) => commit_install r secret b
  | (CU_OK, st, _) => ret (CU_ERR, st)
  | (rc, st, _) => ret (rc, st)
  end.

Definition vault_custody_tpm2_reseal_commit (r : ResealReceipt.vault_tpm2_reseal_receipt_t) (secret : bytes)
    : M custody (vault_tpm2_reseal_result_t * vault_tpm2_reseal_status_t) :=
  p <- works ;;
  if negb p then ret (CU_ERR, TPM_CORRUPT)
  else
    reseal_mark_sealed ;;;
    ok <- and_ tpm_ready works ;;
    if negb ok then ret (CU_ERR, TPM_CORRUPT)
    else
      x <- reseal_status_locked (Some r) secret TPM_CORRUPT ;;
      y <- commit_from r secret x ;;
      reseal_mark_sealed ;;; ret y.

(** ** Removing the bundle *)

Definition remove_if (one two : vault_tpm2_reseal_status_t) (r : ResealReceipt.vault_tpm2_reseal_receipt_t)
    (secret : bytes) : M custody vault_tpm2_reseal_result_t :=
  p <- works ;;
  if negb p then ret CU_ERR
  else
    reseal_mark_sealed ;;;
    ok <- and_ tpm_ready works ;;
    rc <- (if negb ok then ret CU_ERR
           else
             x <- reseal_status_locked (Some r) secret TPM_CORRUPT ;;
             let '(rc, st, _) := x in
             if negb (bool_decide (rc = CU_OK)) || negb (bool_decide (st = one) || bool_decide (st = two)) then ret CU_ERR
             else
               gone <- (if bool_decide (st = two) then ret true else unlink_bundle) ;;
               if negb gone then ret CU_ERR
               else if bool_decide (two = TPM_CLEANED) && bool_decide (st = two) then ret CU_OK
               else synced <- works ;; ret (if synced then CU_OK else CU_ERR)) ;;
    reseal_mark_sealed ;;; ret rc.

Definition vault_custody_tpm2_reseal_abort := remove_if TPM_PREPARED TPM_ABSENT.
(** With [VAULT_TPM2_CLEANUP_TERMINAL_COMPLETED]. *)
Definition vault_custody_tpm2_reseal_cleanup := remove_if TPM_INSTALLED TPM_CLEANED.

Definition vault_custody_tpm2_nv_generation (secret : bytes) : M custody (vault_tpm2_reseal_result_t * Z) :=
  p <- works ;;
  if negb p then ret (CU_ERR, 0)
  else
    ok <- and_ works (nv_ensure secret) ;;
    if negb ok then ret (CU_ERR, 0)
    else g <- nv_read ;; ret (match g with Some g => (CU_OK, g) | None => (CU_ERR, 0) end).

(** ** The provider and the guard *)

Definition tpm2_is_sealed (c : custody) : bool := sealed c.
Definition tpm2_get_kek (c : custody) : option bytes := if sealed c || negb (kek_ready c) then None else Some (kek c).
Definition tpm2_seal : M custody bool := p <- works ;; if negb p then ret false else reseal_mark_sealed ;;; ret true.

Definition tpm2_unseal (secret : bytes) : M custody bool :=
  p <- works ;;
  if negb p then ret false
  else
    reseal_mark_sealed ;;;
    ok <- tpm_ready ;;
    if negb ok then ret false
    else
      b <- raw_read blob TPM2_BLOB_MAX ;;
      match b ≫= blob_read with
      | Some (Some (bound_gen, pub, priv)) =>
          k <- unseal_loaded_locked pub priv bound_gen secret ;;
          match k with
          | None => ret false
          | Some k => fun c => (true, set_cache false true k c)
          end
      | _ => ret false
      end.

Definition custody_seal_failclosed_unlocked : M custody bool := fun c =>
  let epoch_ok := negb (use_epoch c =? UINT64_MAX) in
  let c := set_guard (owned_guard c) (if epoch_ok then use_epoch c + 1 else use_epoch c) None c in
  let '(ok, c) := tpm2_seal c in (ok && epoch_ok, c).

(** The token is the caller's own: one thread, one guard. *)
Definition maintenance_validate (c : custody) : vault_maintenance_result_t := if owned_guard c then VM_OK else VM_INVALID.

Definition vault_maintenance_guard_begin : M custody vault_maintenance_result_t := fun c =>
  if owned_guard c then (VM_BUSY, c)
  else let '(ok, c) := works c in
       if ok then (VM_OK, set_guard true (use_epoch c) (primary_epoch c) c) else (VM_ERROR, c).

Definition vault_maintenance_guard_sync_primary_epoch (epoch : Z) : M custody vault_maintenance_result_t := fun c =>
  match maintenance_validate c with
  | VM_OK =>
      if (epoch =? 0) || (INT64_MAX <? epoch) then (VM_EPOCH, c)
      else
        match primary_epoch c with
        | Some p => if epoch <? p then (VM_EPOCH, c)
                    else if epoch =? p then (VM_OK, c)
                    else if use_epoch c =? UINT64_MAX then (VM_EPOCH, c)
                    else (VM_OK, set_guard (owned_guard c) (use_epoch c + 1) (Some epoch) c)
        | None => if use_epoch c =? UINT64_MAX then (VM_EPOCH, c)
                  else (VM_OK, set_guard (owned_guard c) (use_epoch c + 1) (Some epoch) c)
        end
  | e => (e, c)
  end.

(** Up to the callback, which does not come back to the guard. *)
Definition vault_maintenance_guard_with_active_kek : M custody (vault_maintenance_result_t + bytes) := fun c =>
  match maintenance_validate c with
  | VM_OK =>
      if tpm2_is_sealed c then (inl VM_SEALED, c)
      else match tpm2_get_kek c with None => (inl VM_ERROR, c) | Some k => (inr k, c) end
  | e => (inl e, c)
  end.

Definition vault_maintenance_guard_unseal (secret : bytes) : M custody vault_maintenance_result_t := fun c =>
  match maintenance_validate c with
  | VM_OK => let '(ok, c) := tpm2_unseal secret c in (if ok then VM_OK else VM_ERROR, c)
  | e => (e, c)
  end.

Definition vault_maintenance_guard_seal : M custody vault_maintenance_result_t := fun c =>
  match maintenance_validate c with
  | VM_OK => let '(ok, c) := custody_seal_failclosed_unlocked c in (if ok then VM_OK else VM_ERROR, c)
  | e => (e, c)
  end.

Definition vault_maintenance_guard_end : M custody vault_maintenance_result_t := fun c =>
  match maintenance_validate c with
  | VM_OK =>
      let '(ok, c) := custody_seal_failclosed_unlocked c in
      (if ok then VM_OK else VM_ERROR, set_guard false (use_epoch c) (primary_epoch c) c)
  | e => (e, c)
  end.

(** ** Check values *)

Definition kek_check_sentinel : bytes :=
  (str "aimee-vault-kek-check-v1" ++ [0; 17; 34; 51; 68; 85; 102; 119])%list.

Definition vault_kek_check_wrap (k : bytes) : option bytes := vault_dek_wrap k kek_check_sentinel.
Definition vault_kek_check_verify (k wrapped : bytes) : bool :=
  bool_decide (vault_dek_unwrap k wrapped = Some kek_check_sentinel).

(** [vault_crypto_random] of a key. *)
Definition vault_crypto_random : M custody (option bytes) := fun c =>
  let '(ok, c) := works c in
  match entropy c with
  | k :: _ => if ok && (length k =? VAULT_KEK_LEN)%nat then (Some k, set_entropy (tail (entropy c)) c) else (None, c)
  | [] => (None, c)
  end.

Definition vault_reseal_custody_default_ops : vault_reseal_custody_ops_t custody :=
  {| Rewrap.supported := true; Rewrap.nv_generation := vault_custody_tpm2_nv_generation;
     Rewrap.prepare := vault_custody_tpm2_reseal_prepare; Rewrap.discover := vault_custody_tpm2_reseal_discover;
     Rewrap.recover_kek := vault_custody_tpm2_reseal_recover_kek; Rewrap.status := vault_custody_tpm2_reseal_status;
     Rewrap.commit := vault_custody_tpm2_reseal_commit; Rewrap.custody_abort := vault_custody_tpm2_reseal_abort;
     Rewrap.guard_begin := vault_maintenance_guard_begin;
     Rewrap.guard_sync_epoch := vault_maintenance_guard_sync_primary_epoch;
     Rewrap.guard_unseal := vault_maintenance_guard_unseal; Rewrap.guard_seal := vault_maintenance_guard_seal;
     Rewrap.guard_active_kek := vault_maintenance_guard_with_active_kek; Rewrap.guard_end := vault_maintenance_guard_end;
     Rewrap.random := vault_crypto_random; Rewrap.dek_wrap := vault_dek_wrap; Rewrap.dek_unwrap := vault_dek_unwrap;
     Rewrap.check_wrap := vault_kek_check_wrap; Rewrap.check_verify := vault_kek_check_verify |}.

End Tpm.
End ResealCustody.
