(* ===== verification/CustodyFacts.v ===== *)
(** * What the custody's calls do

    Lemmas about [ResealCustody]: calls that only look leave the TPM and the
    files as they are; what is read out of a blob is the key that was sealed;
    what a preparation, a commit and a removal can leave behind, whatever
    fails on the way. *)

From Stdlib Require Import ZArith Lia String Ascii.
From stdpp Require Import base numbers option list.
From S2P Require Import Prelude Wire ResealReceipt Rewrap ResealCustody.

Module CustodyFacts.
Import Rewrap ResealCustody.
Open Scope rewrap_scope.

(** ** Calls that look *)

(** What survives the process. *)
Definition core (c : custody) : Z * bytes * option bytes * option bytes := (nv c, nv_authvalue c, blob c, bundle c).

(** Nothing durable changes and no key is learned. *)
Definition calm (c c' : custody) : Prop :=
  core c' = core c /\ forall k, tpm2_get_kek c' = Some k -> tpm2_get_kek c = Some k.
(** Nor does the authorization on the counter's handle. *)
Definition quiet (c c' : custody) : Prop := calm c c' /\ nv_auth c' = nv_auth c.

#[global] Instance calm_preorder : PreOrder calm.
Proof.
  split; [done|]. intros a b c [E1 H1] [E2 H2]. split; [by rewrite E2|]. eauto.
Qed.
#[global] Instance quiet_preorder : PreOrder quiet.
Proof.
  split; [split; [apply reflexivity | done]|]. intros a b c [E1 H1] [E2 H2].
  split; [by etrans | by rewrite H2].
Qed.

Lemma calm_none c c' : calm c c' -> tpm2_get_kek c = None -> tpm2_get_kek c' = None.
Proof. intros [_ K] E. destruct (tpm2_get_kek c') as [k|]; [|done]. by rewrite (K k eq_refl) in E. Qed.

(** From states reached from [c0] by [R], [m] goes on by [R] and gives [Q]. *)
Definition looks {A} (R : custody -> custody -> Prop) (c0 : custody) (m : M custody A) (Q : A -> Prop) : Prop :=
  triple (R c0) m (fun a c => R c0 c /\ Q a).

Section Looks.
Context {R : custody -> custody -> Prop} {c0 : custody}.

Lemma looks_ret {A} (a : A) (Q : A -> Prop) : Q a -> looks R c0 (ret a) Q.
Proof. intros Ha. by apply triple_ret. Qed.

Lemma looks_bind {A B} (m : M custody A) (k : A -> M custody B) (P : A -> Prop) Q :
  looks R c0 m P -> (forall a, P a -> looks R c0 (k a) Q) -> looks R c0 (bind m k) Q.
Proof.
  intros Hm Hk. eapply triple_bind; [exact Hm|]. intros a c [Hc Ha]. by apply (Hk a Ha).
Qed.

Lemma looks_mono {A} (m : M custody A) (P Q : A -> Prop) : looks R c0 m P -> (forall a, P a -> Q a) -> looks R c0 m Q.
Proof. intros Hm H c Hc. destruct (Hm c Hc). auto. Qed.

Lemma looks_when {A} (b : bool) (m : M custody A) (d : A) (Q : A -> Prop) :
  (b = true -> looks R c0 m Q) -> (b = false -> Q d) -> looks R c0 (when b m d) Q.
Proof. intros H1 H2. destruct b; [by apply H1 | apply looks_ret; auto]. Qed.

Lemma looks_and (a b : M custody bool) (P Q : Prop) :
  looks R c0 a (fun x => x = true -> P) -> (P -> looks R c0 b (fun x => x = true -> Q)) ->
  looks R c0 (and_ a b) (fun x => x = true -> P /\ Q).
Proof.
  intros Ha Hb. eapply looks_bind; [exact Ha|]. intros [|] H; [|by apply looks_ret].
  eapply looks_mono; [apply Hb; auto|]. intros x Hx E. split; auto.
Qed.

Lemma look_then {A B} (m : M custody A) (k : A -> M custody B) (P : A -> Prop) Q :
  looks R c0 m P -> (forall a, P a -> triple (R c0) (k a) Q) -> triple (R c0) (bind m k) Q.
Proof. intros Hm Hk. eapply triple_bind; [exact Hm|]. intros a c [Hc Ha]. by apply (Hk a Ha). Qed.
End Looks.

(** A quiet call is calm from anywhere, if what it says is of the core. *)
Lemma looks_calm {A} c0 (m : M custody A) (Q : custody -> A -> Prop) :
  (forall c, looks quiet c m (Q c)) -> (forall c c' a, core c = core c' -> Q c a -> Q c' a) ->
  looks calm c0 m (Q c0).
Proof.
  intros Hm HQ c Hc. destruct (Hm c c) as [[H1 _] H2]; [apply reflexivity|].
  split; [by etrans|]. apply (HQ c); [by destruct Hc | done].
Qed.

Lemma core_eq c c' : core c = core c' -> nv c = nv c' /\ nv_authvalue c = nv_authvalue c' /\ blob c = blob c' /\ bundle c = bundle c'.
Proof. unfold core. intros E. by simplify_eq. Qed.

(** ** Primitive calls *)

Definition any {A} (_ : A) : Prop := True.

Lemma fault_quiet c0 : looks quiet c0 fault any.
Proof. intros c Hc. split; [|done]. etrans; [exact Hc|]. done. Qed.

Lemma works_quiet c0 : looks quiet c0 works any.
Proof. eapply looks_bind; [apply fault_quiet|]. intros e _. by apply looks_ret. Qed.

Lemma works_calm c0 : looks calm c0 works any.
Proof. apply (looks_calm c0 works (fun _ => any)); [apply works_quiet | done]. Qed.

Lemma mark_sealed_calm c0 : looks calm c0 reseal_mark_sealed any.
Proof. intros c [Hc H]. split; [|done]. split; [exact Hc|]. done. Qed.

Lemma tpm_ready_calm c0 : looks calm c0 tpm_ready any.
Proof.
  eapply looks_mono; [eapply (looks_and _ _ True True)|]; [..|done];
    [|intros _]; (eapply looks_mono; [apply works_calm | done]).
Qed.

(** [tpm_ready] and the lock. *)
Lemma ready_lock_calm c0 : looks calm c0 (and_ tpm_ready works) any.
Proof.
  eapply looks_mono; [eapply (looks_and _ _ True True)|]; [..|done]; [|intros _];
    (eapply looks_mono; [apply tpm_ready_calm || apply works_calm | done]).
Qed.

Lemma draw_quiet c0 : looks quiet c0 draw any.
Proof. intros c Hc. split; [|done]. etrans; [exact Hc|]. done. Qed.

Section Tpm.
Context {HS : Sha256} {HT : Tpm2} {HK : KeyWrap}.

Lemma nv_read_quiet c0 :
  looks quiet c0 nv_read (fun o => forall n, o = Some n -> n = nv c0 /\ nv_auth c0 = Some (nv_authvalue c0)).
Proof.
  intros c Hc. unfold nv_read, bind. destruct (works_quiet c0 c Hc) as [Hw _].
  destruct (works c) as [ok w]. cbn [fst snd] in *. split; [done|].
  intros n. destruct ok; [|done]. cbn [andb]. unfold nv_authorized. case_bool_decide as E; [|done].
  intros [= <-]. destruct Hw as [[C _] A]. apply core_eq in C as (-> & C2 & _ & _). by rewrite <- C2, <- A.
Qed.

Lemma nv_read_calm c0 : looks calm c0 nv_read (fun o => forall n, o = Some n -> n = nv c0).
Proof.
  apply (looks_calm c0 nv_read (fun c o => forall n, o = Some n -> n = nv c)).
  - intros c. eapply looks_mono; [apply nv_read_quiet|]. naive_solver.
  - intros c c' a E. apply core_eq in E as (-> & _). done.
Qed.

Lemma policy_quiet c0 : looks quiet c0 compute_seal_policy (fun b => b = true -> nv_auth c0 = Some (nv_authvalue c0)).
Proof.
  intros c Hc. unfold compute_seal_policy, bind. destruct (works_quiet c0 c Hc) as [Hw _].
  destruct (works c) as [ok w]. cbn [fst snd] in *. split; [done|]. intros [_ E]%andb_true_iff.
  unfold nv_authorized in E. apply bool_decide_eq_true in E. destruct Hw as [[C _] A].
  apply core_eq in C as (_ & C2 & _ & _). by rewrite <- C2, <- A.
Qed.

(** The generation a blob says it is of. *)
Definition blob_generation (b : bytes) : option Z := fst ∘ fst <$> blob_bytes_unmarshal_v2 b.

Lemma validate_quiet c0 b g : looks quiet c0 (blob_bytes_validate b g) (fun x => x = true -> blob_generation b = Some g).
Proof.
  unfold blob_bytes_validate, blob_generation. destruct (blob_bytes_unmarshal_v2 b) as [[[x p] q]|]; [|by apply looks_ret].
  destruct (Z.eqb_spec x g) as [->|]; [|by apply looks_ret]. cbn [negb].
  eapply looks_bind; [apply policy_quiet|]. intros ok _. by apply looks_ret.
Qed.

Lemma raw_read_quiet c0 (path : custody -> option bytes) cap :
  (forall c c', core c = core c' -> path c = path c') ->
  looks quiet c0 (raw_read path cap) (fun o => forall b, o = Some b -> path c0 = Some b).
Proof.
  intros Hp c Hc. unfold raw_read, bind. destruct (works_quiet c0 c Hc) as [Hw _].
  destruct (works c) as [ok w]. cbn [fst snd] in *. split; [done|]. intros b.
  rewrite (Hp w c0) by apply Hw. destruct (path c0); [|done]. by destruct (_ && _); intros [= ->].
Qed.

Lemma blob_of_core c c' : core c = core c' -> blob c = blob c'.
Proof. by intros (_ & _ & -> & _)%core_eq. Qed.
Lemma bundle_of_core c c' : core c = core c' -> bundle c = bundle c'.
Proof. by intros (_ & _ & _ & ->)%core_eq. Qed.

(** The blob in place is of the generation. *)
Definition in_place (c : custody) (g : Z) : Prop := exists b, blob c = Some b /\ blob_generation b = Some g.

Lemma digest_validate_quiet c0 g :
  looks quiet c0 (blob_file_digest_validate g) (fun o => forall d, o = Some d -> in_place c0 g /\ length d = 32%nat).
Proof.
  eapply looks_bind; [apply raw_read_quiet, blob_of_core|]. intros [b|] Hb; [|by apply looks_ret].
  eapply looks_bind; [apply validate_quiet|]. intros [|] Hv; apply looks_ret; [|done].
  intros d [= <-]. split; [exists b; auto | apply sha256_length].
Qed.

Lemma blob_is_quiet c0 g d : looks quiet c0 (blob_is g d) (fun x => x = true -> in_place c0 g).
Proof.
  eapply looks_bind; [apply digest_validate_quiet|]. intros o Ho. apply looks_ret.
  intros E%bool_decide_eq_true. by apply (Ho d).
Qed.

Lemma blob_is_calm c0 g d : looks calm c0 (blob_is g d) (fun x => x = true -> in_place c0 g).
Proof.
  apply (looks_calm c0 _ (fun c x => x = true -> in_place c g)); [intros c; apply blob_is_quiet|].
  intros c c' a E. unfold in_place. by rewrite (blob_of_core _ _ E).
Qed.

Lemma bundle_load_quiet c0 :
  looks quiet c0 bundle_load (fun l => match l with
    | LOAD_absent => bundle c0 = None
    | LOAD_corrupt => bundle c0 <> None
    | LOAD_ok b => exists bs, bundle c0 = Some bs /\ bundle_parse bs = Some b end).
Proof.
  eapply looks_bind; [apply (raw_read_quiet c0 bundle), bundle_of_core|]. intros [bs|] Hb.
  - specialize (Hb bs eq_refl). destruct (bundle_parse bs) as [b|] eqn:P; [|apply looks_ret; congruence].
    eapply looks_bind; [eapply looks_and; [apply validate_quiet | intros _; apply validate_quiet]|].
    intros [|] _; apply looks_ret; [eauto | congruence].
  - intros c Hc. split; [exact Hc|]. cbn [fst]. rewrite (bundle_of_core c c0) by apply Hc. by case_bool_decide.
Qed.

Lemma bundle_load_calm c0 :
  looks calm c0 bundle_load (fun l => match l with
    | LOAD_absent => bundle c0 = None
    | LOAD_corrupt => bundle c0 <> None
    | LOAD_ok b => exists bs, bundle c0 = Some bs /\ bundle_parse bs = Some b end).
Proof.
  apply (looks_calm c0 _ (fun c l => match l with
    | LOAD_absent => bundle c = None
    | LOAD_corrupt => bundle c <> None
    | LOAD_ok b => exists bs, bundle c = Some bs /\ bundle_parse bs = Some b end)); [intros c; apply bundle_load_quiet|].
  intros c c' a E. by rewrite (bundle_of_core _ _ E).
Qed.

Lemma nv_ensure_calm c0 secret : looks calm c0 (nv_ensure secret) any.
Proof.
  eapply looks_bind; [apply works_calm|]. intros [|] _; [|by apply looks_ret].
  intros c Hc. split; [|done]. etrans; [exact Hc|]. done.
Qed.

(** ** Status *)

(** The bundle is loaded and of generations that follow. *)
Definition loaded (c : custody) (b : reseal_bundle_t) : Prop :=
  exists bs, bundle c = Some bs /\ bundle_parse bs = Some b.

(** What a status says of the custody. *)
Definition status_says (c : custody) (x : vault_tpm2_reseal_result_t * vault_tpm2_reseal_status_t * option reseal_bundle_t) : Prop :=
  match x with
  | (CU_OK, TPM_ABSENT, _) => bundle c = None
  | (CU_OK, TPM_PREPARED, Some b) =>
      loaded c b /\ nv c = ResealReceipt.old_generation (receipt b) /\ in_place c (nv c)
  | (CU_OK, TPM_NV_ADVANCED, Some b) => loaded c b /\ nv c = ResealReceipt.new_generation (receipt b)
  | (CU_OK, TPM_INSTALLED, Some b) =>
      loaded c b /\ nv c = ResealReceipt.new_generation (receipt b) /\ in_place c (nv c)
  | (CU_OK, TPM_CLEANED, _) => bundle c = None
  | (CU_OK, _, _) => False
  | _ => True
  end.

Lemma status_absent_says c0 r n : n = nv c0 -> bundle c0 = None ->
  looks calm c0 (status_absent r n) (fun x => status_says c0 (x, None)).
Proof.
  intros -> Hb. destruct r as [r|]; cbn [status_absent]; [|by apply looks_ret].
  destruct (follows _ _); cbn [negb]; [|by apply looks_ret].
  destruct (_ =? _).
  - eapply looks_bind; [eapply looks_and; [apply blob_is_calm | intros _; eapply (looks_mono _ _ (fun x => x = true -> True)); [apply works_calm | done]]|].
    intros [|] _; by apply looks_ret.
  - destruct (_ =? _); [|by apply looks_ret].
    eapply looks_bind; [eapply looks_and; [apply blob_is_calm | intros _; eapply (looks_mono _ _ (fun x => x = true -> True)); [apply works_calm | done]]|].
    intros [|] _; by apply looks_ret.
Qed.

(** The receipt asked about is the bundle's. *)
Definition matches (r : option ResealReceipt.vault_tpm2_reseal_receipt_t) (b : reseal_bundle_t) : Prop :=
  follows (ResealReceipt.old_generation (receipt b)) (ResealReceipt.new_generation (receipt b)) = true
  /\ forall r', r = Some r' -> receipt_equal r' (receipt b) = true.

Lemma status_bundle_says c0 r b n out : n = nv c0 -> loaded c0 b ->
  looks calm c0 (status_bundle r b n out)
    (fun x => status_says c0 (x, Some b) /\ (x.1 = CU_OK -> matches r b)).
Proof.
  intros -> Hb. unfold status_bundle. destruct (_ || _) eqn:G; [by apply looks_ret|].
  apply orb_false_iff in G as [G1 G2]. apply negb_false_iff in G2.
  assert (HM : matches r b).
  { split; [done|]. intros r' ->. by apply negb_false_iff in G1. }
  eapply looks_bind.
  { apply (looks_when _ _ _ (fun x => x = true -> nv c0 = ResealReceipt.old_generation (receipt b)
      /\ in_place c0 (nv c0))); [|done].
    intros E%Z.eqb_eq. eapply looks_mono; [apply blob_is_calm|]. rewrite <- E. auto. }
  intros [|] Hp; [apply looks_ret; by split; [split; [|apply Hp]|]|].
  eapply looks_bind.
  { apply (looks_when _ _ _ (fun x => x = true -> nv c0 = ResealReceipt.new_generation (receipt b)
      /\ in_place c0 (nv c0))); [|done].
    intros E%Z.eqb_eq. eapply looks_mono; [apply blob_is_calm|]. rewrite <- E. auto. }
  intros [|] Hi.
  { eapply looks_bind; [apply works_calm|]. intros [|] _; apply looks_ret; [|done].
    by split; [split; [|apply Hi]|]. }
  eapply looks_bind.
  { apply (looks_when _ _ _ (fun x => x = true -> nv c0 = ResealReceipt.new_generation (receipt b))); [|done].
    intros E%Z.eqb_eq. eapply looks_mono; [apply blob_is_calm|]. auto. }
  intros [|] Ha; apply looks_ret; [|done]. by split; [split; [|apply Ha]|].
Qed.

Lemma status_locked_says c0 r secret out :
  looks calm c0 (reseal_status_locked r secret out)
    (fun x => status_says c0 x /\ forall b, x.1.1 = CU_OK -> x.2 = Some b -> matches r b).
Proof.
  eapply looks_bind; [apply nv_ensure_calm|]. intros e _.
  eapply looks_bind.
  { instantiate (1 := fun o => forall n, o = Some n -> n = nv c0). destruct e; [apply nv_read_calm | by apply looks_ret]. }
  intros [n|] Hn; [|by apply looks_ret]. eapply looks_bind; [apply bundle_load_calm|].
  intros [| |b] Hl; [..|].
  - eapply looks_bind; [apply status_absent_says; auto|]. intros x Hx. by apply looks_ret.
  - by apply looks_ret.
  - eapply looks_bind; [apply status_bundle_says; [auto | exact Hl]|]. intros x [Hx Hm]. apply looks_ret.
    split; [done|]. intros b' E [= <-]. auto.
Qed.

(** ** Keys *)

Lemma vault_dek_unwrap_wrap kek dek w : vault_dek_wrap kek dek = Some w -> vault_dek_unwrap kek w = Some dek.
Proof.
  unfold vault_dek_wrap, vault_dek_unwrap. destruct (aes_256_wrap kek dek) as [x|] eqn:E; [|done].
  destruct (Nat.eqb_spec (length x) VAULT_WRAPPED_DEK_LEN) as [L|]; [|done]. intros [= <-].
  rewrite (aes_256_unwrap_wrap kek dek x E). apply aes_256_wrap_length in E.
  unfold VAULT_WRAPPED_DEK_LEN, VAULT_DEK_LEN in *. by replace (length dek) with 32%nat by lia.
Qed.

(** The key in a blob, at the counter [n] and with the operator's value. *)
Definition blob_key (auth : bytes) (n : Z) (b : bytes) : option bytes :=
  match blob_bytes_unmarshal_v2 b with
  | Some (g, pub, priv) => sealed_key pub priv auth g n
  | None => None
  end.

(** The vault opens with this key. *)
Definition live (c : custody) (k : bytes) : Prop :=
  exists b, blob c = Some b /\ blob_key (nv_authvalue c) (nv c) b = Some k.

(** The key of the bundle: its capsule's, at the generation it was sealed for. *)
Definition own_key (c : custody) (k : bytes) : Prop :=
  exists b, loaded c b /\ blob_key (nv_authvalue c) (ResealReceipt.old_generation (receipt b)) (capsule b) = Some k.

Lemma own_key_core c c' k : core c = core c' -> own_key c k -> own_key c' k.
Proof. intros E. apply core_eq in E as (_ & E2 & _ & E4). unfold own_key, loaded. by rewrite E2, E4. Qed.

Lemma live_fun c k k' : live c k -> live c k' -> k = k'.
Proof. intros (b & Hb & Hk) (b' & Hb' & Hk'). congruence. Qed.

Lemma live_core c c' k : core c = core c' -> live c k -> live c' k.
Proof. intros E. apply core_eq in E as (E1 & E2 & E3 & E4). unfold live. by rewrite E1, E2, E3. Qed.

Lemma blob_key_generation auth n b k : blob_key auth n b = Some k -> blob_generation b = Some n.
Proof.
  unfold blob_key, blob_generation. destruct (blob_bytes_unmarshal_v2 b) as [[[g p] q]|]; [|done].
  unfold sealed_key. destruct (tpm_unseal _ _ _ _ _); [|done]. destruct (_ && _) eqn:E; [|done]. intros _.
  apply andb_true_iff in E as [_ E]. apply Z.eqb_eq in E. cbn. congruence.
Qed.

Lemma nv_ensure_sets c secret c' : nv_ensure secret c = (true, c') -> nv_auth c' = Some (derive_authvalue secret).
Proof.
  unfold nv_ensure, bind. destruct (works c) as [ok w]. destruct ok; intros E; inversion E. done.
Qed.

(** What is unsealed is the key of the object at the counter. *)
Lemma unseal_loaded_says c0 pub priv g secret :
  looks calm c0 (unseal_loaded_locked pub priv g secret)
    (fun o => forall k, o = Some k -> sealed_key pub priv (nv_authvalue c0) g (nv c0) = Some k).
Proof.
  intros c Hc. unfold unseal_loaded_locked, bind.
  destruct (nv_ensure_calm c0 secret c Hc) as [H1 _].
  destruct (nv_ensure secret c) as [ok c1] eqn:E1. cbn [fst snd] in *. destruct ok; cbn [negb]; [|done].
  apply nv_ensure_sets in E1.
  destruct (works_quiet c1 c1) as [H2 _]; [apply reflexivity|].
  destruct (works c1) as [ok c2]. cbn [fst snd] in *. destruct ok; cbn [negb]; [|split; [etrans; [exact H1 | apply H2] | done]].
  destruct (nv_read_quiet c1 c2 H2) as [H3 H4]. destruct (nv_read c2) as [o c3]. cbn [fst snd] in *.
  split; [etrans; [exact H1 | apply H3]|]. intros k. destruct o as [n|]; [|done].
  destruct (H4 n eq_refl) as [-> A]. rewrite E1 in A. injection A as ->.
  destruct H1 as [C _]. apply core_eq in C as (-> & -> & _ & _). done.
Qed.

Lemma recover_capsule_says c0 r secret b : loaded c0 b -> nv c0 = ResealReceipt.old_generation (receipt b) ->
  looks calm c0 (recover_capsule r secret b) (fun x => x.1 = CU_OK -> own_key c0 x.2).
Proof.
  intros Hb Hn. unfold recover_capsule. destruct (blob_bytes_unmarshal_v2 (capsule b)) as [[[g p] q]|] eqn:U; [|by apply looks_ret].
  destruct (_ =? _); cbn [negb]; [|by apply looks_ret].
  eapply looks_bind; [apply unseal_loaded_says|]. intros [k|] Hk; apply looks_ret; [|done].
  destruct (bytes_eqb _ _); [|done]. intros _. exists b. split; [done|]. rewrite <- Hn. unfold blob_key. rewrite U. by apply Hk.
Qed.

Lemma recover_kek_says c0 r secret :
  looks calm c0 (vault_custody_tpm2_reseal_recover_kek r secret) (fun x => x.1 = CU_OK -> own_key c0 x.2).
Proof.
  eapply looks_bind; [apply works_calm|]. intros [|] _; cbn [negb]; [|by apply looks_ret].
  eapply looks_bind; [apply mark_sealed_calm|]. intros _ _.
  eapply looks_bind; [apply tpm_ready_calm|]. intros [|] _; cbn [negb]; [|by apply looks_ret].
  eapply looks_bind; [apply works_calm|]. intros [|] _; cbn [negb]; [|by apply looks_ret].
  eapply looks_bind; [apply status_locked_says|]. intros [[rc st] b] [Hs _].
  eapply looks_bind.
  { instantiate (1 := fun x => x.1 = CU_OK -> own_key c0 x.2).
    destruct rc; case_bool_decide; cbn [negb]; try done; try by apply looks_ret.
    destruct st; case_bool_decide; cbn [negb]; try done; try by apply looks_ret.
    destruct b as [b|]; [|by apply looks_ret]. apply recover_capsule_says; apply Hs. }
  intros y Hy. eapply looks_bind; [apply mark_sealed_calm|]. intros _ _. by apply looks_ret.
Qed.

Lemma discover_says c0 op g secret :
  looks calm c0 (vault_custody_tpm2_reseal_discover op g secret)
    (fun x => x.1 = CU_OK -> x.2.2 = TPM_ABSENT -> bundle c0 = None).
Proof.
  eapply looks_bind; [apply works_calm|]. intros p _. destruct (_ || _); [by apply looks_ret|].
  eapply looks_bind; [apply mark_sealed_calm|]. intros _ _.
  eapply looks_bind; [apply tpm_ready_calm|]. intros [|] _; cbn [negb]; [|by apply looks_ret].
  eapply looks_bind; [apply works_calm|]. intros [|] _; cbn [negb]; [|by apply looks_ret].
  eapply looks_bind; [apply status_locked_says|]. intros [[rc st] b] [Hs _].
  eapply looks_bind; [apply mark_sealed_calm|]. intros _ _. apply looks_ret.
  unfold discovered. destruct rc; case_bool_decide; cbn [negb fst snd]; try done.
  destruct st; case_bool_decide; cbn [fst snd]; try done;
    (destruct b as [b|]; [destruct (_ && _)|]; done).
Qed.

Lemma status_says_call c0 r secret :
  looks calm c0 (vault_custody_tpm2_reseal_status r secret)
    (fun x => x = (CU_OK, TPM_PREPARED) -> bundle c0 <> None).
Proof.
  eapply looks_bind; [apply works_calm|]. intros [|] _; cbn [negb]; [|by apply looks_ret].
  eapply looks_bind; [apply mark_sealed_calm|]. intros _ _.
  eapply looks_bind; [apply ready_lock_calm|].
  intros [|] _; cbn [negb]; [|by apply looks_ret].
  eapply looks_bind; [apply status_locked_says|]. intros [[rc st] b] [Hs _]. apply looks_ret.
  cbn [fst]. intros [= -> ->]. destruct b as [b|]; [|done]. destruct Hs as ((bs & E & _) & _). congruence.
Qed.

Lemma nv_generation_calm c0 secret : looks calm c0 (vault_custody_tpm2_nv_generation secret) any.
Proof.
  eapply looks_bind; [apply works_calm|]. intros [|] _; cbn [negb]; [|by apply looks_ret].
  eapply looks_bind.
  { eapply (looks_and _ _ True True); [eapply looks_mono; [apply works_calm|] | intros _; eapply looks_mono; [apply nv_ensure_calm|]]; done. }
  intros [|] _; cbn [negb]; [|by apply looks_ret].
  eapply looks_bind; [apply nv_read_calm|]. intros o _. by apply looks_ret.
Qed.

(** ** The guard *)

Lemma seal_failclosed_calm c0 : looks calm c0 custody_seal_failclosed_unlocked any.
Proof.
  intros c Hc. unfold custody_seal_failclosed_unlocked.
  set (g := set_guard _ _ _ _). assert (Hg : calm c0 g) by (etrans; [exact Hc|]; done).
  assert (H : looks calm c0 tpm2_seal any).
  { eapply looks_bind; [apply works_calm|]. intros [|] _; cbn [negb]; [|by apply looks_ret].
    eapply looks_bind; [apply mark_sealed_calm|]. intros _ _. by apply looks_ret. }
  destruct (H g Hg) as [Hs _]. by destruct (tpm2_seal g).
Qed.

Lemma guard_begin_calm c0 : looks calm c0 vault_maintenance_guard_begin any.
Proof.
  intros c Hc. unfold vault_maintenance_guard_begin. destruct (owned_guard c); [done|].
  destruct (works_calm c0 c Hc) as [Hw _]. destruct (works c) as [[|] w]; [|done].
  split; [|done]. etrans; [exact Hw|]. done.
Qed.

Lemma guard_sync_calm c0 e : looks calm c0 (vault_maintenance_guard_sync_primary_epoch e) any.
Proof.
  intros c Hc. unfold vault_maintenance_guard_sync_primary_epoch. split; [|done].
  repeat case_match; simplify_eq; try exact Hc; (etrans; [exact Hc|]; done).
Qed.

Lemma guard_seal_calm c0 : looks calm c0 vault_maintenance_guard_seal any.
Proof.
  intros c Hc. unfold vault_maintenance_guard_seal. destruct (maintenance_validate c); try done.
  destruct (seal_failclosed_calm c0 c Hc) as [Hs _]. by destruct (custody_seal_failclosed_unlocked c).
Qed.

Lemma guard_end_calm c0 : looks calm c0 vault_maintenance_guard_end any.
Proof.
  intros c Hc. unfold vault_maintenance_guard_end. destruct (maintenance_validate c); try done.
  destruct (seal_failclosed_calm c0 c Hc) as [Hs _]. destruct (custody_seal_failclosed_unlocked c).
  split; [|done]. etrans; [exact Hs|]. done.
Qed.

Lemma guard_kek_calm c0 :
  looks calm c0 vault_maintenance_guard_with_active_kek (fun x => forall k, x = inr k -> tpm2_get_kek c0 = Some k).
Proof.
  intros c Hc. unfold vault_maintenance_guard_with_active_kek. destruct (maintenance_validate c); try done.
  destruct (tpm2_is_sealed c); [done|]. destruct (tpm2_get_kek c) eqn:E; [|done].
  split; [done|]. intros k [= ->]. by apply Hc.
Qed.

Lemma random_says c0 : looks calm c0 vault_crypto_random (fun o => forall k, o = Some k -> length k = VAULT_KEK_LEN).
Proof.
  intros c Hc. unfold vault_crypto_random. destruct (works_calm c0 c Hc) as [Hw _].
  destruct (works c) as [ok w]. cbn [snd] in *. destruct (entropy w) as [|k l] eqn:E; [done|].
  destruct (ok && _) eqn:G; [|done]. split; [etrans; [exact Hw|]; done|].
  intros k' [= <-]. apply andb_true_iff in G as [_ G]. by apply Nat.eqb_eq.
Qed.

Lemma blob_read_v2 b x : blob_read b = Some (Some x) -> blob_bytes_unmarshal_v2 b = Some x.
Proof.
  unfold blob_read. destruct (_ || _); [done|]. destruct (bytes_eqb _ _); [done|].
  destruct (blob_bytes_unmarshal_v2 b); cbn; congruence.
Qed.

(** An unsealing leaves the key the vault opens with, or none. *)
Lemma guard_unseal_says c secret :
  let c' := (vault_maintenance_guard_unseal secret c).2 in
  core c' = core c /\ forall k, tpm2_get_kek c' = Some k -> tpm2_get_kek c = Some k \/ live c k.
Proof.
  cbn zeta. unfold vault_maintenance_guard_unseal.
  destruct (maintenance_validate c); try (split; [done | auto]; fail).
  enough (T : triple (calm c) (tpm2_unseal secret) (fun _ c' =>
    core c' = core c /\ forall k, tpm2_get_kek c' = Some k -> tpm2_get_kek c = Some k \/ live c k)).
  { specialize (T c (reflexivity c)). by destruct (tpm2_unseal secret c) as [[|] ?]. }
  assert (D : forall b : bool, triple (calm c) (ret b) (fun _ c' =>
    core c' = core c /\ forall k, tpm2_get_kek c' = Some k -> tpm2_get_kek c = Some k \/ live c k)).
  { intros b. apply triple_ret. intros s [E K]. split; [done|]. auto. }
  eapply look_then; [apply works_calm|]. intros [|] _; cbn [negb]; [|apply D].
  eapply look_then; [apply mark_sealed_calm|]. intros _ _. eapply look_then; [apply tpm_ready_calm|].
  intros [|] _; cbn [negb]; [|apply D].
  eapply look_then.
  { apply (looks_calm c _ (fun c o => forall b, o = Some b -> blob c = Some b)).
    - intros c1. apply raw_read_quiet, blob_of_core.
    - intros c1 c2 a E. by rewrite (blob_of_core _ _ E). }
  intros o Ho. destruct (o ≫= blob_read) as [[[[g p] q]|]|] eqn:R; try apply D.
  eapply look_then; [apply unseal_loaded_says|]. intros [k|] Hk; [|apply D].
  intros s [E _]. split; [exact E|]. intros k' [= <-]. right.
  destruct o as [b|]; [|done]. cbn in R. apply blob_read_v2 in R. exists b. split; [auto|].
  unfold blob_key. rewrite R. auto.
Qed.

(** ** What is written can be read *)

Lemma unmarshal_blob g pub priv : 0 <= g < 2 ^ 64 -> tpm_unmarshals pub priv = true -> zlen pub + zlen priv <= 8168 ->
  blob_bytes_unmarshal_v2 (blob_bytes g pub priv) = Some (g, pub, priv).
Proof.
  intros Hg Hu Hs. unfold blob_bytes_unmarshal_v2, blob_bytes.
  set (b := (TPM2_BLOB_MAGIC_V2 ++ _)%list).
  assert (Lb : length b = (24 + length pub + length priv)%nat).
  { unfold b. rewrite !length_app, put_u64_length, !put_u32_length. change (length TPM2_BLOB_MAGIC_V2) with 8%nat. lia. }
  assert (Z1 : zlen b = 24 + zlen pub + zlen priv) by (unfold zlen; lia).
  unfold zlen in Hs. pose proof (put_u64_length g) as L1. pose proof (put_u32_length (zlen pub)) as L2.
  pose proof (put_u32_length (zlen priv)) as L3.
  assert (D8 : drop 8 b = (put_u64 g ++ put_u32 (zlen pub) ++ put_u32 (zlen priv) ++ pub ++ priv)%list) by done.
  assert (D16 : drop 16 b = (put_u32 (zlen pub) ++ put_u32 (zlen priv) ++ pub ++ priv)%list).
  { change 16%nat with (8 + 8)%nat. rewrite <- drop_drop, D8. by apply drop_app_length'. }
  assert (D20 : drop 20 b = (put_u32 (zlen priv) ++ pub ++ priv)%list).
  { change 20%nat with (16 + 4)%nat. rewrite <- drop_drop, D16. by apply drop_app_length'. }
  assert (D24 : drop 24 b = (pub ++ priv)%list).
  { change 24%nat with (20 + 4)%nat. rewrite <- drop_drop, D20. by apply drop_app_length'. }
  rewrite (proj2 (Nat.ltb_ge _ _)) by lia. rewrite (proj2 (Z.ltb_ge _ _)) by (unfold TPM2_BLOB_MAX, zlen in *; lia).
  replace (bytes_eqb (take 8 b) TPM2_BLOB_MAGIC_V2) with true
    by (symmetry; apply bool_decide_eq_true; unfold b; by apply take_app_length').
  cbn [negb orb]. rewrite D16, D20, D8, !get_put_u32, get_put_u64 by (unfold zlen; lia).
  rewrite Z1, Z.eqb_refl. cbn [negb]. unfold zlen. rewrite Nat2Z.id, <- drop_drop, D24, drop_app_length, take_app_length, Hu. done.
Qed.

Lemma get_put_u64_alone v : 0 <= v < 2 ^ 64 -> get_u64 (put_u64 v) = v.
Proof. intros Hv. pose proof (get_put_u64 v [] Hv) as E. by rewrite app_nil_r in E. Qed.

(** A blob made by [seal_generation_path]. *)
Definition made (auth k : bytes) (g : Z) (b : bytes) : Prop :=
  exists e, b = blob_bytes g (tpm_create (k ++ put_u64 g)%list g auth e).1 (tpm_create (k ++ put_u64 g)%list g auth e).2.

Lemma made_key auth k g b : length k = VAULT_KEK_LEN -> 0 <= g < 2 ^ 64 -> made auth k g b ->
  blob_key auth g b = Some k /\ 1 <= zlen b <= TPM2_BLOB_MAX.
Proof.
  intros Lk Hg [e ->].
  assert (Ld : (length (k ++ put_u64 g)%list <= 128)%nat) by (rewrite length_app, Lk, put_u64_length; cbn; lia).
  pose proof (tpm_create_size _ g auth e Ld) as Hs. pose proof (tpm_unseal_created _ g auth e Ld) as Hu.
  pose proof (tpm_create_unmarshals _ g auth e Ld) as Hm.
  destruct (tpm_create _ _ _ _) as [p q]. cbn [fst snd] in *. split.
  - unfold blob_key. rewrite unmarshal_blob by done. unfold sealed_key. rewrite Hu.
    rewrite length_app, Lk, put_u64_length, Nat.eqb_refl. rewrite drop_app_length' by done.
    rewrite get_put_u64_alone, !Z.eqb_refl by done. cbn [andb]. by rewrite take_app_length'.
  - unfold blob_bytes, zlen in *. rewrite !length_app, put_u64_length, !put_u32_length.
    change (length TPM2_BLOB_MAGIC_V2) with 8%nat. unfold TPM2_BLOB_MAX. lia.
Qed.

Lemma parse_bundle op n pred cap fut k :
  length op = 16%nat -> length pred = 32%nat -> 0 <= n < UINT64_MAX ->
  1 <= zlen cap <= TPM2_BLOB_MAX -> 1 <= zlen fut <= TPM2_BLOB_MAX ->
  exists b, bundle_parse (bundle_bytes op n pred cap fut k) = Some b /\ capsule b = cap /\ future b = fut
    /\ ResealReceipt.old_generation (receipt b) = n /\ ResealReceipt.new_generation (receipt b) = n + 1.
Proof.
  intros Lo Lp Hn Hc Hf. unfold TPM2_BLOB_MAX, UINT64_MAX in *.
  unfold bundle_parse. set (b := bundle_bytes op n pred cap fut k).
  assert (P : forall v, length (put_u64 v) = 8%nat) by apply put_u64_length.
  assert (Q : forall v, length (put_u32 v) = 4%nat) by apply put_u32_length.
  assert (Lb : length b = (176 + length cap + length fut)%nat).
  { unfold b, bundle_bytes. rewrite !length_app, !P, !Q, !sha256_length, Lo, Lp. change (length TPM2_RESEAL_BUNDLE_MAGIC) with 8%nat. lia. }
  assert (D8 : drop 8 b = (op ++ put_u64 n ++ put_u64 (n + 1) ++ pred ++ sha256 cap ++ sha256 fut ++ sha256 k
    ++ put_u32 (zlen cap) ++ put_u32 (zlen fut) ++ cap ++ fut)%list) by done.
  assert (D24 : drop 24 b = drop 16 (drop 8 b)) by (by rewrite drop_drop). rewrite D8, drop_app_length' in D24 by done.
  assert (D32 : drop 32 b = drop 8 (drop 24 b)) by (by rewrite drop_drop). rewrite D24, drop_app_length' in D32 by done.
  assert (D40 : drop 40 b = drop 8 (drop 32 b)) by (by rewrite drop_drop). rewrite D32, drop_app_length' in D40 by done.
  assert (D72 : drop 72 b = drop 32 (drop 40 b)) by (by rewrite drop_drop). rewrite D40, drop_app_length' in D72 by done.
  assert (D104 : drop 104 b = drop 32 (drop 72 b)) by (by rewrite drop_drop).
  rewrite D72, drop_app_length' in D104 by (by rewrite sha256_length).
  assert (D136 : drop 136 b = drop 32 (drop 104 b)) by (by rewrite drop_drop).
  rewrite D104, drop_app_length' in D136 by (by rewrite sha256_length).
  assert (D168 : drop 168 b = drop 32 (drop 136 b)) by (by rewrite drop_drop).
  rewrite D136, drop_app_length' in D168 by (by rewrite sha256_length).
  assert (D172 : drop 172 b = drop 4 (drop 168 b)) by (by rewrite drop_drop). rewrite D168, drop_app_length' in D172 by done.
  assert (D176 : drop 176 b = drop 4 (drop 172 b)) by (by rewrite drop_drop). rewrite D172, drop_app_length' in D176 by done.
  change TPM2_RESEAL_BUNDLE_HDR with 176%nat.
  rewrite (proj2 (Nat.ltb_ge _ _)) by lia.
  replace (bytes_eqb (take 8 b) TPM2_RESEAL_BUNDLE_MAGIC) with true by (symmetry; by apply bool_decide_eq_true).
  cbn [negb orb]. rewrite D168, D172, !get_put_u32 by (unfold zlen in *; lia).
  rewrite (proj2 (Z.eqb_neq (zlen cap) 0)), (proj2 (Z.eqb_neq (zlen fut) 0)) by lia.
  rewrite (proj2 (Z.ltb_ge _ _)), (proj2 (Z.ltb_ge _ _)) by (unfold TPM2_BLOB_MAX; lia). cbn [orb].
  rewrite (proj2 (Z.eqb_eq _ _)) by (unfold zlen; lia). cbn [negb]. unfold zlen. rewrite Nat2Z.id, <- drop_drop, D176.
  rewrite take_app_length, drop_app_length, D72, D104.
  rewrite !take_app_length' by (by rewrite sha256_length). unfold bytes_eqb. rewrite !bool_decide_true by done. cbn [negb orb].
  eexists. split; [done|]. cbn [capsule future receipt receipt_from_header ResealReceipt.old_generation ResealReceipt.new_generation].
  rewrite D24, D32, !get_put_u64 by lia. done.
Qed.

(** ** Preparing *)

(** The bundle holds [k] for the generation [g] and the next. *)
Definition good_bundle (c : custody) (k : bytes) (g : Z) : Prop :=
  exists b, loaded c b /\ ResealReceipt.old_generation (receipt b) = g
    /\ ResealReceipt.new_generation (receipt b) = g + 1
    /\ blob_key (nv_authvalue c) g (capsule b) = Some k /\ blob_key (nv_authvalue c) (g + 1) (future b) = Some k.

Lemma seal_path_quiet c0 k g secret :
  looks quiet c0 (seal_generation_path k g secret) (fun o => forall b, o = Some b -> made (derive_authvalue secret) k g b).
Proof.
  eapply looks_bind; [apply policy_quiet|]. intros [|] _; cbn [negb]; [|by apply looks_ret].
  eapply looks_bind; [apply works_quiet|]. intros [|] _; cbn [negb]; [|by apply looks_ret].
  eapply looks_bind; [apply draw_quiet|]. intros e _. destruct (tpm_create _ _ _ _) as [p q] eqn:E.
  eapply looks_bind; [apply works_quiet|]. intros [|] _; apply looks_ret; [|done].
  intros b [= <-]. exists e. by rewrite E.
Qed.

(** What a preparation leaves of [c0]: nothing new, or a good bundle where
    there was none. *)
Definition prepare_leaves (c0 : custody) (k : bytes) (rc : vault_tpm2_reseal_result_t) (c : custody) : Prop :=
  (calm c0 c /\ (rc = CU_OK -> bundle c0 <> None))
  \/ (bundle c0 = None /\ nv c = nv c0 /\ nv_authvalue c = nv_authvalue c0 /\ blob c = blob c0
      /\ tpm2_get_kek c = None /\ good_bundle c k (nv c)).

Lemma prepare_leaves_calm c0 c1 k rc c : calm c0 c1 -> prepare_leaves c1 k rc c -> prepare_leaves c0 k rc c.
Proof.
  intros HC [[Hc Hr]|(B & N & A & F & K & G)].
  - left. split; [by etrans|]. by rewrite <- (bundle_of_core c1 c0) by apply HC.
  - destruct HC as [E _]. apply core_eq in E as (E1 & E2 & E3 & E4). right. by rewrite <- E1, <- E2, <- E3, <- E4.
Qed.

Lemma prepare_seal_leaves c0 op pred k secret :
  length op = 16%nat -> length pred = 32%nat -> length k = VAULT_KEK_LEN -> 0 <= nv c0 < UINT64_MAX ->
  bundle c0 = None -> nv_authvalue c0 = derive_authvalue secret -> tpm2_get_kek c0 = None ->
  triple (quiet c0) (prepare_seal op (nv c0) pred k secret) (fun x c => prepare_leaves c0 k x.1 c).
Proof.
  intros Lo Lp Lk Hn Hb Ha Hk.
  assert (D : triple (quiet c0) (ret (CU_ERR, receipt_zero)) (fun x c => prepare_leaves c0 k x.1 c)).
  { apply triple_ret. intros c Hc. left. by split; [apply Hc|]. }
  eapply look_then; [apply seal_path_quiet|]. intros cap Hcap. eapply look_then.
  { instantiate (1 := fun o => forall b, o = Some b -> made (derive_authvalue secret) k (nv c0 + 1) b).
    case_bool_decide; [by apply looks_ret | apply seal_path_quiet]. }
  intros fut Hfut. destruct cap as [cap|]; [|exact D]. destruct fut as [fut|]; [|exact D].
  eapply look_then.
  { eapply (looks_and _ _ True True); [eapply looks_mono; [apply works_quiet|] | intros _; eapply looks_mono; [apply works_quiet|]]; done. }
  intros [|] _; cbn [negb]; [|exact D].
  set (bs := bundle_bytes op (nv c0) pred cap fut k).
  assert (G : forall c, quiet c0 c -> prepare_leaves c0 k CU_OK (set_files (blob c) (Some bs) c)).
  { intros c [HC A]. pose proof HC as [(E1 & E2 & E3 & E4)%core_eq _]. right. cbn. rewrite E1, E2, E3. split_and!; try done.
    - exact (calm_none c0 c HC Hk).
    - unfold UINT64_MAX in *.
      destruct (made_key _ k (nv c0) cap Lk ltac:(lia) (Hcap cap eq_refl)) as [K1 L1].
      destruct (made_key _ k (nv c0 + 1) fut Lk ltac:(lia) (Hfut fut eq_refl)) as [K2 L2].
      destruct (parse_bundle op (nv c0) pred cap fut k) as (b & P & Ec & Ef & G1 & G2); try done.
      exists b. cbn. rewrite E2, Ha, Ec, Ef. split; [by exists bs | done]. }
  assert (G' : forall rc c, quiet c0 c -> prepare_leaves c0 k rc (set_files (blob c) (Some bs) c)).
  { intros rc c Hc. destruct (G c Hc) as [[_ H]|R]; [by destruct H | by right]. }
  eapply triple_bind with (R := fun (w : bool) c => prepare_leaves c0 k (if w then CU_OK else CU_ERR) c).
  - eapply triple_bind; [apply fault_quiet|]. intros e c [Hc _]. cbn [fst snd].
    rewrite (bundle_of_core c c0), Hb by apply Hc. rewrite bool_decide_true, !andb_true_r by done.
    destruct (e =? 0); [by apply G'|]. destruct (e =? 2); [by apply G'|]. left. by split; [apply Hc|].
  - intros w. apply triple_ret. by destruct w.
Qed.

Lemma prepare_fresh_leaves c0 op expected k secret :
  length op = 16%nat -> length k = VAULT_KEK_LEN -> 0 <= expected < UINT64_MAX ->
  bundle c0 = None -> nv_auth c0 = Some (derive_authvalue secret) -> tpm2_get_kek c0 = None ->
  triple (quiet c0) (prepare_fresh op expected k secret) (fun x c => prepare_leaves c0 k x.1 c).
Proof.
  intros Lo Lk He Hb Ha Hk.
  assert (D : triple (quiet c0) (ret (CU_ERR, receipt_zero)) (fun x c => prepare_leaves c0 k x.1 c)).
  { apply triple_ret. intros c Hc. left. by split; [apply Hc|]. }
  eapply look_then; [apply nv_read_quiet|]. intros n Hn. destruct n as [n|]; [|exact D]. destruct (Hn n eq_refl) as [-> Hau].
  destruct (Z.eqb_spec (nv c0) expected) as [<-|]; cbn [negb]; [|exact D].
  eapply look_then; [apply digest_validate_quiet|]. intros [p|] Hp; [|exact D].
  apply prepare_seal_leaves; try done; [by apply Hp | congruence].
Qed.

Lemma prepare_existing_calm c0 op expected k secret b : looks calm c0 (prepare_existing op expected k secret b) any.
Proof.
  unfold prepare_existing. destruct (_ && _); [|by apply looks_ret].
  eapply looks_bind; [apply status_locked_says|]. intros x _.
  eapply looks_bind; [apply (looks_when _ _ _ any); [intros _; apply works_calm | done]|].
  intros ok _. by apply looks_ret.
Qed.

(** [ensure_ready], [ensure_primary], [nv_ensure] and the lock. *)
Lemma authorize_says c0 secret :
  triple (fun c => calm c0 c /\ tpm2_get_kek c = None) (and_ (and_ tpm_ready (nv_ensure secret)) works)
    (fun ok c => calm c0 c /\ tpm2_get_kek c = None /\ (ok = true -> nv_auth c = Some (derive_authvalue secret))).
Proof.
  assert (K : forall c c', calm c c' -> calm c0 c /\ tpm2_get_kek c = None -> calm c0 c' /\ tpm2_get_kek c' = None).
  { intros c c' HC [H1 H2]. split; [by etrans | by apply (calm_none c)]. }
  eapply triple_bind with (R := fun (x : bool) c => (calm c0 c /\ tpm2_get_kek c = None)
    /\ (x = true -> nv_auth c = Some (derive_authvalue secret))).
  - eapply triple_bind with (R := fun (x : bool) c => calm c0 c /\ tpm2_get_kek c = None).
    { intros c Hc. apply (K c); [|done]. by apply (tpm_ready_calm c c). }
    intros [|]; [|by apply triple_ret]. intros c Hc. split; [apply (K c); [|done]; by apply (nv_ensure_calm c secret c)|].
    destruct (nv_ensure secret c) as [ok c'] eqn:E. cbn [fst snd]. intros ->. by apply nv_ensure_sets in E.
  - intros [|]; [|apply triple_ret; naive_solver]. intros c [Hc Ha].
    destruct (works_quiet c c) as [Hw _]; [apply reflexivity|]. destruct (K c _ (proj1 Hw) Hc).
    split_and!; [done..|]. intros _. destruct Hw as [_ ->]. auto.
Qed.

Lemma prepare_says c0 op expected k secret :
  length op = 16%nat -> length k = VAULT_KEK_LEN -> 0 <= expected ->
  let x := vault_custody_tpm2_reseal_prepare op expected k secret c0 in
  expected <= UINT64_MAX -> prepare_leaves c0 k x.1.1 x.2.
Proof.
  intros Lo Lk He x Hm. unfold x. clear x.
  enough (T : triple (calm c0) (vault_custody_tpm2_reseal_prepare op expected k secret)
    (fun x c => prepare_leaves c0 k x.1 c)) by (apply T, reflexivity).
  assert (D : forall rc, rc <> CU_OK ->
    triple (calm c0) (ret (rc, receipt_zero)) (fun x c => prepare_leaves c0 k x.1 c)).
  { intros rc Hr. apply triple_ret. intros c Hc. left. by split. }
  eapply look_then; [apply works_calm|]. intros p _.
  destruct p; cbn [negb orb]; [|by apply D]. destruct (Z.eqb_spec expected UINT64_MAX) as [|Hx]; [by apply D|].
  eapply triple_bind with (R := fun _ c => calm c0 c /\ tpm2_get_kek c = None).
  { intros c Hc. split; [|done]. etrans; [exact Hc|]. done. }
  intros _. eapply triple_bind; [apply authorize_says|]. intros [|]; cbn [negb].
  2: { apply triple_ret. intros c (Hc & _). left. by split. }
  intros c3 (HC & K3 & A3). apply (prepare_leaves_calm c0 c3); [done|]. specialize (A3 eq_refl).
  enough (T : triple (quiet c3) (er <- bundle_load ;; match er with
      | LOAD_absent => prepare_fresh op expected k secret
      | LOAD_corrupt => ret (CU_INTEGRITY, receipt_zero)
      | LOAD_ok existing => prepare_existing op expected k secret existing end)
    (fun x c => prepare_leaves c3 k x.1 c)) by (apply T, reflexivity).
  eapply look_then; [apply bundle_load_quiet|]. intros [| |b] L4.
  - apply prepare_fresh_leaves; try done. unfold UINT64_MAX in *. lia.
  - apply triple_ret. intros c Hc. left. by split; [apply Hc|].
  - destruct L4 as (bs & Hbs & _). intros c Hc. left.
    split; [apply (prepare_existing_calm c3); apply Hc | congruence].
Qed.

(** ** Committing *)

(** The three states of an installation: before the counter moves, after, and
    with the new blob in place. *)
Inductive committing (k0 k1 : bytes) (c : custody) : Prop :=
  | committing_old : good_bundle c k1 (nv c) -> live c k0 -> committing k0 k1 c
  | committing_new : good_bundle c k1 (nv c - 1) -> in_place c (nv c - 1) -> committing k0 k1 c
  | committing_installed b : good_bundle c k1 (nv c - 1) -> loaded c b -> blob c = Some (future b) -> committing k0 k1 c.

Lemma good_bundle_core c c' k g : core c = core c' -> good_bundle c k g -> good_bundle c' k g.
Proof. intros E. apply core_eq in E as (_ & E2 & _ & E4). unfold good_bundle, loaded. by rewrite E2, E4. Qed.
Lemma in_place_core c c' g : core c = core c' -> in_place c g -> in_place c' g.
Proof. intros E. unfold in_place. by rewrite (blob_of_core _ _ E). Qed.
Lemma loaded_core c c' b : core c = core c' -> loaded c b -> loaded c' b.
Proof. intros E. unfold loaded. by rewrite (bundle_of_core _ _ E). Qed.

Lemma committing_core k0 k1 c c' : core c = core c' -> committing k0 k1 c -> committing k0 k1 c'.
Proof.
  intros E Hc. pose proof E as (N & _ & B & _)%core_eq. destruct Hc as [G L|G I|b G L F].
  - apply committing_old; rewrite <- ?N; [by apply (good_bundle_core c) | by apply (live_core c)].
  - apply committing_new; rewrite <- ?N; [by apply (good_bundle_core c) | by apply (in_place_core c)].
  - apply (committing_installed _ _ _ b); rewrite <- ?N, <- ?B; [by apply (good_bundle_core c) | by apply (loaded_core c) | done].
Qed.

Lemma loaded_fun c b b' : loaded c b -> loaded c b' -> b = b'.
Proof. intros (x & Hx & P) (y & Hy & Q). congruence. Qed.

Lemma in_place_fun c g g' : in_place c g -> in_place c g' -> g = g'.
Proof. intros (x & Hx & P) (y & Hy & Q). congruence. Qed.

(** The bundle loaded is the good one. *)
Lemma good_loaded c k g b : good_bundle c k g -> loaded c b ->
  ResealReceipt.old_generation (receipt b) = g /\ ResealReceipt.new_generation (receipt b) = g + 1
  /\ blob_key (nv_authvalue c) (g + 1) (future b) = Some k.
Proof. intros (b' & L' & H1 & H2 & _ & H4) L. by rewrite (loaded_fun c b b'). Qed.

Lemma good_own c k g k' : good_bundle c k g -> own_key c k' -> k = k'.
Proof.
  intros (b & L & H1 & _ & H3 & _) (b' & L' & H4). rewrite (loaded_fun c b' b) in H4 by done. congruence.
Qed.

(** Once the counter is past the old generation, a blob of the counter's
    generation is the new one. *)
Lemma installed_live k0 k1 c b : committing k0 k1 c -> loaded c b ->
  nv c = ResealReceipt.new_generation (receipt b) -> in_place c (nv c) -> live c k1.
Proof.
  intros [G L|G I|b' G L F] Hb Hn Hi.
  - destruct (good_loaded _ _ _ _ G Hb) as (? & ? & _). lia.
  - pose proof (in_place_fun _ _ _ I Hi). lia.
  - destruct (good_loaded _ _ _ _ G L) as (_ & _ & K). exists (future b'). split; [done|].
    replace (nv c) with (nv c - 1 + 1) by lia. done.
Qed.

(** A state that looking does not leave. *)
Lemma triple_look {A} (I : custody -> Prop) (m : M custody A) (Q : custody -> A -> Prop) :
  (forall c, looks calm c m (Q c)) -> (forall c c' a, core c = core c' -> Q c a -> Q c' a) ->
  (forall c c', calm c c' -> I c -> I c') -> triple I m (fun a c => I c /\ Q c a).
Proof.
  intros Hm HQ HI c Hc. destruct (Hm c c (reflexivity c)) as [H1 H2]. split; [by apply (HI c)|].
  apply (HQ c); [symmetry; apply H1 | done].
Qed.

(** The custody during a commit: a state of the installation and no key. *)
Definition at_work (k0 k1 : bytes) (c : custody) : Prop := committing k0 k1 c /\ tpm2_get_kek c = None.

Lemma at_work_calm k0 k1 c c' : calm c c' -> at_work k0 k1 c -> at_work k0 k1 c'.
Proof.
  intros HC [Hc Hk]. split; [apply (committing_core _ _ c); [symmetry; apply HC | done] | by apply (calm_none c)].
Qed.

(** And the counter known to be at [n]. *)
Definition at_work_at (k0 k1 : bytes) (b : reseal_bundle_t) (n : Z) (c : custody) : Prop :=
  at_work k0 k1 c /\ loaded c b /\ nv c = n.

Lemma at_work_at_calm k0 k1 b n c c' : calm c c' -> at_work_at k0 k1 b n c -> at_work_at k0 k1 b n c'.
Proof.
  intros HC (H1 & H2 & H3). split_and!; [by apply (at_work_calm _ _ c)| |].
  - apply (loaded_core c); [symmetry; apply HC | done].
  - destruct HC as [(-> & _)%core_eq _]. done.
Qed.

Lemma receipt_equal_valid a b : receipt_equal a b = true ->
  ResealReceipt.generations_valid (ResealReceipt.old_generation a) (ResealReceipt.new_generation a) = true.
Proof.
  unfold receipt_equal, ResealReceipt.vault_reseal_receipt_equal.
  destruct (ResealReceipt.vault_reseal_receipt_encode (Some (0, a)) (Some 8192)) as [x|] eqn:E; [|done].
  apply ResealReceipt.encode_iff in E. by destruct E as (_ & V & _).
Qed.

Lemma generations_differ old new : ResealReceipt.generations_valid old new = true -> new <> old.
Proof.
  unfold ResealReceipt.generations_valid, u64. intros [_ E%Z.eqb_eq]%andb_true_iff ->.
  pose proof (Z.mod_pos_bound (old + 1) (2 ^ 64) ltac:(lia)) as B. rewrite <- E in B.
  destruct (Z.eq_dec old (2 ^ 64 - 1)) as [->|].
  - replace (2 ^ 64 - 1 + 1) with (1 * 2 ^ 64) in E by lia. rewrite Z.mod_mul in E; lia.
  - rewrite Z.mod_small in E; lia.
Qed.

(** The increment moves the installation on. *)
Lemma increment_advances k0 k1 b n :
  ResealReceipt.old_generation (receipt b) = n -> ResealReceipt.new_generation (receipt b) = n + 1 ->
  triple (at_work_at k0 k1 b n) nv_increment (fun _ c => at_work_at k0 k1 b n c \/ at_work_at k0 k1 b (n + 1) c).
Proof.
  intros Ho Hn'. eapply triple_bind with (R := fun _ c => at_work_at k0 k1 b n c).
  { intros c Hc. apply (at_work_at_calm _ _ _ _ c); [|done]. done. }
  intros e c Hc.
  assert (Hs : at_work_at k0 k1 b (n + 1) (set_nv (nv c + 1) c)).
  { destruct Hc as ([HC HK'] & HL & HN). split_and!; [|done|cbn; lia]. split; [|done].
    destruct HC as [G (x & Hx & Hk)|G I|b' G L F].
    - apply committing_new; cbn [nv set_nv]; replace (nv c + 1 - 1) with (nv c) by lia; [exact G|].
      exists x. split; [done|]. by apply blob_key_generation in Hk.
    - destruct (good_loaded _ _ _ _ G HL). lia.
    - destruct (good_loaded _ _ _ _ G HL). lia. }
  destruct (nv_authorized c); cbn [negb fst snd]; [|by left].
  destruct (e =? 0); [by right|]. destruct (e =? 2); [by right | by left].
Qed.

Lemma nv_read_at k0 k1 b n :
  triple (at_work_at k0 k1 b n) nv_read (fun o c => at_work_at k0 k1 b n c /\ forall m, o = Some m -> m = n).
Proof.
  apply triple_weaken with (P := at_work_at k0 k1 b n)
    (Q := fun o c => at_work_at k0 k1 b n c /\ forall m, o = Some m -> m = nv c); [|done|].
  - apply (triple_look _ _ (fun c o => forall m, o = Some m -> m = nv c)); [intros c; apply nv_read_calm| |apply at_work_at_calm].
    intros c c' a (-> & _)%core_eq. done.
  - intros o c [H1 H2]. split; [done|]. destruct H1 as (_ & _ & <-). done.
Qed.

Lemma blob_is_at k0 k1 b n g d : triple (at_work_at k0 k1 b n) (blob_is g d) (fun _ c => at_work_at k0 k1 b n c).
Proof.
  intros c Hc. apply (at_work_at_calm _ _ _ _ c); [|done]. by apply (blob_is_calm c).
Qed.

(** Both a state and the next, as an increment of unknown result leaves. *)
Lemma nv_read_either k0 k1 b n :
  triple (fun c => at_work_at k0 k1 b n c \/ at_work_at k0 k1 b (n + 1) c) nv_read
    (fun o c => (at_work_at k0 k1 b n c /\ (forall m, o = Some m -> m = n))
                \/ (at_work_at k0 k1 b (n + 1) c /\ forall m, o = Some m -> m = n + 1)).
Proof. intros c [Hc|Hc]; [left | right]; by apply nv_read_at. Qed.

(** A commit that goes on has seen the counter at the new generation. *)
Lemma commit_advance_says k0 k1 r b n :
  ResealReceipt.old_generation (receipt b) = n -> ResealReceipt.new_generation (receipt b) = n + 1 ->
  receipt_equal r (receipt b) = true ->
  triple (at_work_at k0 k1 b n) (commit_advance r)
    (fun x c => at_work k0 k1 c /\ match x with inl y => y.1 <> CU_OK | inr _ => at_work_at k0 k1 b (n + 1) c end).
Proof.
  intros Ho Hn' Hr. pose proof (generations_differ _ _ (receipt_equal_valid _ _ Hr)) as Hd.
  eapply triple_bind; [apply nv_read_at|]. intros before. apply triple_weaken with
    (P := fun c => (forall m, before = Some m -> m = n) /\ at_work_at k0 k1 b n c)
    (Q := fun x c => at_work k0 k1 c /\ match x with inl y => y.1 <> CU_OK | inr _ => at_work_at k0 k1 b (n + 1) c end);
    [|naive_solver|done]. apply triple_pure. intros Hb.
  destruct (decide (before = Some (ResealReceipt.old_generation r))) as [->|E].
  2: { rewrite bool_decide_false by done. cbn [when]. apply triple_bind with (R := fun x c => x = false /\ at_work_at k0 k1 b n c).
       { by apply triple_ret. } intros x. apply triple_pure. intros ->. cbn [negb]. apply triple_ret. intros c Hc. by split; [apply Hc|]. }
  rewrite bool_decide_true by done. cbn [when]. specialize (Hb _ eq_refl).
  eapply triple_bind; [apply blob_is_at|]. intros [|]; cbn [negb].
  2: { apply triple_ret. intros c Hc. by split; [apply Hc|]. }
  eapply triple_bind; [by apply increment_advances|]. intros inc.
  eapply triple_bind with (R := fun _ c => at_work_at k0 k1 b n c \/ at_work_at k0 k1 b (n + 1) c).
  { destruct inc; [by apply triple_ret|]. eapply triple_bind; [apply nv_read_either|]. intros o. apply triple_ret. naive_solver. }
  intros [|]; cbn [negb]; [|apply triple_ret; intros c [Hc|Hc]; by split; [apply Hc|]].
  eapply triple_bind; [apply nv_read_either|]. intros o. apply triple_ret. intros c [[Hc Ho']|[Hc Ho']].
  - case_bool_decide as E; [|by split; [apply Hc|]]. specialize (Ho' _ E). congruence.
  - case_bool_decide; by split; [apply Hc|].
Qed.

(** What the code keeps of the status it saw last. *)
Lemma status_at k0 k1 r secret out :
  triple (at_work k0 k1) (reseal_status_locked r secret out)
    (fun x c => at_work k0 k1 c /\ status_says c x /\ forall b, x.1.1 = CU_OK -> x.2 = Some b -> matches r b).
Proof.
  apply (triple_look _ _ (fun c x => status_says c x /\ forall b, x.1.1 = CU_OK -> x.2 = Some b -> matches r b)).
  - intros c. apply status_locked_says.
  - intros c c' [[rc st] b] E [H1 H2]. split; [|done]. destruct rc; try done.
    pose proof (bundle_of_core _ _ E) as EB. pose proof E as (N & _)%core_eq.
    destruct st, b; cbn in *; rewrite <- ?EB, <- ?N; unfold loaded, in_place in *;
      rewrite <- ?EB, <- ?(blob_of_core _ _ E), <- ?N; done.
  - apply at_work_calm.
Qed.

(** After a commit that reports the new blob in place, it is. *)
Definition commit_says (k0 k1 : bytes) (x : vault_tpm2_reseal_result_t * vault_tpm2_reseal_status_t) (c : custody) : Prop :=
  at_work k0 k1 c /\ (x = (CU_OK, TPM_INSTALLED) -> live c k1).

Lemma status_installed k0 k1 c st b : at_work k0 k1 c -> status_says c (CU_OK, st, b) -> st = TPM_INSTALLED -> live c k1.
Proof.
  intros [HC _] Hs ->. destruct b as [b|]; [|done]. destruct Hs as (L & N & I). by apply (installed_live k0 _ _ b).
Qed.

Lemma commit_install_says k0 k1 r secret b n :
  ResealReceipt.old_generation (receipt b) = n -> ResealReceipt.new_generation (receipt b) = n + 1 ->
  triple (at_work_at k0 k1 b (n + 1)) (commit_install r secret b) (commit_says k0 k1).
Proof.
  intros Ho Hn'. eapply triple_bind; [apply blob_is_at|]. intros fv.
  eapply triple_bind with (R := fun x c => at_work k0 k1 c /\ match x with inl y => y.1 <> CU_OK | inr _ => True end).
  { destruct fv; [apply triple_ret; intros c Hc; by split; [apply Hc|]|].
    eapply triple_bind; [apply blob_is_at|]. intros [|]; cbn [negb]; [|apply triple_ret; intros c Hc; by split; [apply Hc|]].
    eapply triple_bind with (R := fun _ c => at_work k0 k1 c); [|intros [|]; apply triple_ret; by intros].
    eapply triple_bind with (R := fun _ c => at_work_at k0 k1 b (n + 1) c).
    { intros c Hc. apply (at_work_at_calm _ _ _ _ c); done. }
    intros e c ([HC HK'] & HL & HN).
    assert (Hs : at_work k0 k1 (set_files (Some (future b)) (bundle c) c)).
    { split; [|done]. assert (G : good_bundle c k1 (nv c - 1)).
      { destruct HC as [G _|G _|b' G _ _]; [|done|done]. destruct (good_loaded _ _ _ _ G HL). lia. }
      by apply (committing_installed _ _ _ b). }
    destruct (e =? 0); [done|]. destruct (e =? 2); done. }
  intros [y|u].
  - apply triple_ret. intros c [Hc Hy]. split; [done|]. by intros ->.
  - eapply triple_bind with (R := fun _ c => at_work k0 k1 c).
    { intros c [Hc _]. apply (at_work_calm _ _ c); [|done]. by apply (works_calm c). }
    intros [|]; cbn [negb]; [|by apply triple_ret].
    eapply triple_bind; [apply status_at|]. intros [[rc st] b']. cbn zeta. apply triple_ret.
    intros c (Hc & Hs & _). split; [done|]. destruct rc; case_bool_decide; cbn [andb]; try done.
    destruct (decide (st = TPM_INSTALLED)) as [->|Hd]; [|rewrite bool_decide_false by done; done].
    intros _. by apply (status_installed k0 _ _ TPM_INSTALLED b').
Qed.

Lemma commit_from_says k0 k1 r secret x :
  triple (fun c => at_work k0 k1 c /\ status_says c x /\ forall b, x.1.1 = CU_OK -> x.2 = Some b -> matches (Some r) b)
    (commit_from r secret x) (commit_says k0 k1).
Proof.
  destruct x as [[rc st] b]. intros c (Hc & Hs & Hm).
  destruct rc; try (by split).
  destruct st; try (by split).
  - destruct b as [b|]; [|done]. destruct Hs as (L & N & I). destruct (Hm b eq_refl eq_refl) as [F E].
    unfold follows in F. apply andb_true_iff in F as [_ F%Z.eqb_eq].
    apply (triple_bind (at_work_at k0 k1 b (nv c)) (commit_advance r) _ _ _
             (commit_advance_says k0 k1 r b (nv c) (eq_sym N) ltac:(lia) (E r eq_refl))); [|done].
    intros [y|u].
    + apply triple_ret. intros c' [Hc' Hy]. split; [done|]. intros ->. done.
    + intros c' [_ Hc']. apply (commit_install_says k0 k1 r secret b (nv c)); [done | lia | exact Hc'].
  - destruct b as [b|]; [|done]. destruct Hs as (L & N). destruct (Hm b eq_refl eq_refl) as [F E].
    unfold follows in F. apply andb_true_iff in F as [_ F%Z.eqb_eq].
    apply (commit_install_says k0 k1 r secret b (ResealReceipt.old_generation (receipt b))); [done..|]. split_and!; try done. lia.
  - split; [done|]. intros _. by apply (status_installed k0 _ _ TPM_INSTALLED b).
Qed.

Lemma commit_call_says k0 k1 r secret :
  triple (fun c => committing k0 k1 c /\ forall k, tpm2_get_kek c = Some k -> live c k)
    (vault_custody_tpm2_reseal_commit r secret)
    (fun x c => committing k0 k1 c /\ (forall k, tpm2_get_kek c = Some k -> live c k)
                /\ (x = (CU_OK, TPM_INSTALLED) -> live c k1)).
Proof.
  assert (U : forall x c, commit_says k0 k1 x c -> committing k0 k1 c /\ (forall k, tpm2_get_kek c = Some k -> live c k)
                /\ (x = (CU_OK, TPM_INSTALLED) -> live c k1)).
  { intros x c [[H1 H2] H3]. split_and!; [done| |done]. by rewrite H2. }
  eapply triple_bind with (R := fun _ c => committing k0 k1 c /\ forall k, tpm2_get_kek c = Some k -> live c k).
  { intros c [Hc Hk]. destruct (works_calm c c (reflexivity c)) as [[E K] _]. split; [by apply (committing_core _ _ c)|].
    intros k Hk'. apply (live_core c); [done|]. auto. }
  intros [|]; cbn [negb]; [|apply triple_ret; naive_solver].
  eapply triple_bind with (R := fun _ c => at_work k0 k1 c).
  { intros c [Hc _]. split; [by apply (committing_core _ _ c) | done]. }
  intros _.
  eapply triple_weaken; [|intros c Hc; exact Hc | exact U].
  eapply triple_bind with (R := fun _ c => at_work k0 k1 c).
  { intros c Hc. apply (at_work_calm _ _ c); [|done].
    by apply (ready_lock_calm c c). }
  intros [|]; cbn [negb]; [|by apply triple_ret].
  eapply triple_bind; [apply status_at|]. intros x. eapply triple_bind; [apply commit_from_says|]. intros y.
  eapply triple_bind with (R := fun _ c => commit_says k0 k1 y c); [|intros _; by apply triple_ret].
  intros c [[H1 H2] H3]. split; [split; [by apply (committing_core _ _ c) | done]|]. intros E. by apply (live_core c); [|apply H3].
Qed.

(** ** Removing *)

Lemma remove_says c0 one two r secret :
  let c := (remove_if one two r secret c0).2 in
  calm c0 c \/ (nv c = nv c0 /\ nv_authvalue c = nv_authvalue c0 /\ blob c = blob c0 /\ bundle c = None
                /\ tpm2_get_kek c = None).
Proof.
  cbn zeta.
  set (Q := fun c => calm c0 c \/ (nv c = nv c0 /\ nv_authvalue c = nv_authvalue c0 /\ blob c = blob c0 /\ bundle c = None
                /\ tpm2_get_kek c = None)).
  enough (T : triple (calm c0) (remove_if one two r secret) (fun _ c => Q c)) by (apply T, reflexivity).
  assert (QC : forall c c', calm c c' -> Q c -> Q c').
  { intros c c' HC [H|(H1 & H2 & H3 & H4 & H5)]; [left; by etrans|]. right.
    pose proof HC as [E _]. apply core_eq in E as (-> & -> & -> & ->). split_and!; try done. by apply (calm_none c). }
  assert (D : forall A (a : A), triple (calm c0) (ret a) (fun _ c => Q c)) by (intros; apply triple_ret; by left).
  eapply look_then; [apply works_calm|]. intros [|] _; cbn [negb]; [|apply D].
  eapply triple_bind with (R := fun _ c => calm c0 c /\ tpm2_get_kek c = None).
  { intros c Hc. split; [|done]. etrans; [exact Hc|]. done. }
  intros _. eapply triple_bind with (R := fun _ c => calm c0 c /\ tpm2_get_kek c = None).
  { intros c [Hc Hk]. destruct (ready_lock_calm c c (reflexivity c)) as [L _].
    split; [by etrans | by apply (calm_none c)]. }
  intros ok. eapply triple_bind with (R := fun _ c => Q c).
  2: { intros rc. eapply triple_bind with (R := fun _ c => Q c); [|intros _; by apply triple_ret].
       intros c Hc. apply (QC c); [|done]. by apply (mark_sealed_calm c c). }
  destruct ok; cbn [negb]; [|apply triple_ret; intros c [Hc _]; by left].
  eapply triple_bind with (R := fun _ c => calm c0 c /\ tpm2_get_kek c = None).
  { intros c [Hc Hk]. destruct (status_locked_says c (Some r) secret TPM_CORRUPT c (reflexivity c)) as [L _].
    split; [by etrans | by apply (calm_none c)]. }
  intros [[rc st] b]. destruct (_ || _); [apply triple_ret; intros c [Hc _]; by left|].
  eapply triple_bind with (R := fun _ c => Q c).
  { case_bool_decide; [apply triple_ret; intros c [Hc _]; by left|].
    intros c [Hc Hk]. unfold unlink_bundle, bind. cbn [fault fst snd].
    destruct (_ && _); cbn [fst snd].
    - right. destruct Hc as [E _]. apply core_eq in E as (E1 & E2 & E3 & E4). by split_and!.
    - left. etrans; [exact Hc|]. done. }
  intros [|]; cbn [negb]; [|by apply triple_ret]. destruct (_ && _); [by apply triple_ret|].
  eapply triple_bind with (R := fun _ c => Q c).
  2: { intros ?. by apply triple_ret. }
  intros c Hc. apply (QC c); [|done]. by apply (works_calm c).
Qed.

End Tpm.
End CustodyFacts.
