(* ===== verification/ResealSafe.v ===== *)
(** * The invariant of a key change

    What holds of the database and the custody together between any two calls:
    which key opens the vault, which key the rows are wrapped under, and what
    is staged, for each state of the operation.  [plain] is the data key of
    each secret.  Every statement of [RewrapSql] keeps the invariant, some of
    them on a condition on the custody that the driver sees to. *)

From Stdlib Require Import ZArith Lia String Ascii.
From stdpp Require Import base numbers option list gmap.
From S2P Require Import Prelude Wire ResealReceipt Rewrap RewrapSql ResealCustody CustodyFacts.

Module ResealSafe.
Import Rewrap RewrapSql.
Import ResealCustody (vault_dek_wrap, vault_dek_unwrap, custody, nv, bundle).
Import CustodyFacts (live, good_bundle, committing).

Section Safe.
Context {HS : Sha256} {HT : Tpm2} {HK : KeyWrap}.
Variable plain : Z -> bytes.
Variable ids : list Z.

(** ** Rows and stages *)

Definition rows_under (k : bytes) (d : database) : Prop :=
  Forall (fun p => vault_dek_unwrap k (s_wrapped_dek p.2) = Some (plain p.1)) (secrets d).

Definition staged_sound (op : bytes) (k : bytes) (d : database) : Prop :=
  forall id x, deks d !! (op, id) = Some x -> vault_dek_unwrap k (d_new x) = Some (plain id).

Definition staged_all (op : bytes) (d : database) : Prop :=
  Forall (fun p => is_Some (deks d !! (op, p.1))) (secrets d).

(** A bundle, if there is one, is of the current generation. *)
Definition maybe_bundle (c : custody) (k : bytes) : Prop := bundle c = None \/ good_bundle c k (nv c).

(** ** The states of an operation *)

Inductive situation (d : database) (c : custody) (op : bytes) : kb_store_vault_rewrap_state_t -> Prop :=
  | in_preparing k0 k1 : live c k0 -> rows_under k0 d -> maybe_bundle c k1 -> situation d c op RW_PREPARING
  | in_prepared k0 k1 : live c k0 -> rows_under k0 d -> maybe_bundle c k1 -> staged_sound op k1 d ->
      situation d c op RW_CUSTODY_PREPARED
  | in_staged k0 k1 : live c k0 -> rows_under k0 d -> maybe_bundle c k1 -> staged_sound op k1 d -> staged_all op d ->
      situation d c op RW_WRAPS_STAGED
  | in_committing k0 k1 : committing k0 k1 c -> rows_under k0 d -> staged_sound op k1 d -> staged_all op d ->
      situation d c op RW_RESEAL_COMMITTING
  | in_resealed k1 : live c k1 -> staged_sound op k1 d -> staged_all op d -> situation d c op RW_RESEALED
  | in_promoted k1 : live c k1 -> rows_under k1 d -> situation d c op RW_PROMOTED
  | in_completed k1 : live c k1 -> rows_under k1 d -> situation d c op RW_COMPLETED.

(** The state an operation that needs recovery stopped in. *)
Definition effective (o : operation) : kb_store_vault_rewrap_state_t :=
  match o_state o with
  | RW_RECOVERY_REQUIRED => default RW_ABORTED (o_failure_from_state o)
  | st => st
  end.

Definition db_ok (d : database) : Prop :=
  (secrets d).*1 = ids
  /\ (forall op o, operations d !! op = Some o -> length op = 16%nat)
  /\ (forall op id x, deks d !! (op, id) = Some x ->
        exists o, operations d !! op = Some o /\ o_state o <> RW_PREPARING /\ o_state o <> RW_ABORTED)
  /\ c_last_opened_rewrap_fence (ctl d) <= c_fencing_token (ctl d).

Definition at_rest (d : database) (c : custody) : Prop :=
  (forall op o, operations d !! op = Some o -> o_state o = RW_ABORTED)
  /\ exists k0 k1, live c k0 /\ rows_under k0 d /\ maybe_bundle c k1.

Definition under_way (d : database) (c : custody) (op : bytes) (o : operation) : Prop :=
  operations d !! op = Some o /\ o_state o <> RW_ABORTED
  /\ (forall op' o', op' <> op -> operations d !! op' = Some o' -> o_state o' = RW_ABORTED)
  /\ c_last_opened_rewrap_fence (ctl d) < o_fencing_token o
  /\ situation d c op (effective o).

Definition safe (d : database) (c : custody) : Prop :=
  db_ok d /\ (at_rest d c \/ exists op o, under_way d c op o).

(** ** Using it *)

Lemma safe_active d c op o : safe d c -> operations d !! op = Some o -> o_state o <> RW_ABORTED ->
  db_ok d /\ under_way d c op o.
Proof.
  intros [Hd [[Hq _]|(op' & o' & U)]] Ho Hs; [by apply Hq in Ho|]. split; [done|].
  destruct (decide (op = op')) as [->|Hne]; [destruct U as (E & U); rewrite Ho in E; injection E as ->; by split|].
  destruct U as (_ & _ & U & _). by rewrite (U op o) in Hs.
Qed.

Lemma effective_state o : o_state o <> RW_RECOVERY_REQUIRED -> effective o = o_state o.
Proof. unfold effective. by destruct (o_state o). Qed.

(** The situation of an operation that a statement finds in [st]. *)
Lemma safe_situation d c op o st : safe d c -> operations d !! op = Some o -> o_state o = st ->
  st <> RW_ABORTED -> st <> RW_RECOVERY_REQUIRED -> db_ok d /\ under_way d c op o /\ situation d c op st.
Proof.
  intros Hs Ho E H1 H2. destruct (safe_active d c op o) as [Hd U]; [done | done | congruence|].
  split_and!; [done..|]. destruct U as (_ & _ & _ & _ & S). rewrite effective_state in S; congruence.
Qed.

(** The operation moves to a state of its own. *)
Lemma safe_step d c op o o' d' st :
  db_ok d -> under_way d c op o ->
  operations d' = <[op := o']> (operations d) -> (secrets d').*1 = (secrets d).*1 -> deks d' = deks d ->
  c_last_opened_rewrap_fence (ctl d') = c_last_opened_rewrap_fence (ctl d) ->
  c_fencing_token (ctl d) <= c_fencing_token (ctl d') ->
  o_fencing_token o' = o_fencing_token o -> o_state o' <> RW_PREPARING -> o_state o' <> RW_ABORTED ->
  effective o' = st -> situation d' c op st -> safe d' c.
Proof.
  intros (D1 & D2 & D3 & D4) (U1 & U2 & U3 & U4 & _) Eo Es Ed El Ef Et N1 N2 Est S. split.
  - split_and!; [congruence| |..].
    + intros op1 o1. rewrite Eo. destruct (decide (op1 = op)) as [->|]; [intros _; by apply (D2 op o)|].
      rewrite lookup_insert_ne by done. apply D2.
    + intros op1 id x. rewrite Ed. intros Hx. destruct (D3 _ _ _ Hx) as (o1 & Ho1 & P1 & P2). rewrite Eo.
      destruct (decide (op1 = op)) as [->|]; [exists o'; by rewrite lookup_insert_eq|].
      exists o1. by rewrite lookup_insert_ne.
    + lia.
  - right. exists op, o'. split_and!.
    + by rewrite Eo, lookup_insert_eq.
    + done.
    + intros op1 o1 Hne. rewrite Eo, lookup_insert_ne by done. by apply U3.
    + lia.
    + by rewrite Est.
Qed.

Lemma rows_secrets k d d' : secrets d' = secrets d -> rows_under k d -> rows_under k d'.
Proof. unfold rows_under. by intros ->. Qed.
Lemma staged_secrets op d d' : secrets d' = secrets d -> deks d' = deks d -> staged_all op d -> staged_all op d'.
Proof. unfold staged_all. by intros -> ->. Qed.

(** ** Statements that keep it *)

Definition keeps {A} (c : custody) (f : sql A) : Prop := forall d a d', safe d c -> f d = inr (a, d') -> safe d' c.

Lemma guard_inr {A} b s (k : bytes + A) x : guard b s k = inr x -> b = true /\ k = inr x.
Proof. by destruct b. Qed.

Lemma strict_inr {A B} (o : option A) (k : A -> bytes + B) x : strict o k = inr x -> exists a, o = Some a /\ k a = inr x.
Proof. destruct o; [eauto | done]. Qed.

Lemma andthen_inr {A B} (f : sql A) (k : A -> sql B) d x : andthen f k d = inr x ->
  exists a d', f d = inr (a, d') /\ k a d' = inr x.
Proof. unfold andthen. destruct (f d) as [|[a d']]; [done | eauto]. Qed.

Lemma worm_append_inr op kind detail d u d' : org_vault_rewrap_worm_append op kind detail d = inr (u, d') ->
  exists w, d' = set_worm w d.
Proof.
  unfold org_vault_rewrap_worm_append. intros (o & _ & [_ E]%guard_inr)%strict_inr.
  destruct (worm d !! (op, kind)) as [w|]; [apply guard_inr in E as [_ E]|]; injection E as _ <-; [|eauto].
  exists (worm d). by destruct d.
Qed.

Lemma safe_worm w d c : safe d c -> safe (set_worm w d) c.
Proof.
  intros [Hd H]. split; [exact Hd|]. destruct H as [[H1 (k0 & k1 & H2)]|(op & o & H)]; [left; split; [done|]; by exists k0, k1|].
  right. exists op, o. destruct H as (A1 & A2 & A3 & A4 & S). split_and!; try done.
  destruct S; econstructor; eauto.
Qed.

(** Peel the guards of a statement that answered. *)
Ltac peel H :=
  repeat match type of H with
  | guard _ _ _ = inr _ => let G := fresh "G" in apply guard_inr in H as [G H]
  | strict _ _ = inr _ => let o := fresh "o" in let L := fresh "L" in apply strict_inr in H as (o & L & H)
  | (if ?b then _ else _) = inr _ => let B := fresh "B" in destruct b eqn:B
  | inr _ = inr _ => injection H as <- <-
  end.

Ltac bools :=
  repeat match goal with
  | H : _ && _ = true |- _ => apply andb_true_iff in H as [? ?]
  | H : negb _ = true |- _ => apply negb_true_iff in H
  | H : negb _ = false |- _ => apply negb_false_iff in H
  | H : bool_decide _ = true |- _ => apply bool_decide_eq_true in H
  | H : bool_decide _ = false |- _ => apply bool_decide_eq_false in H
  | H : (_ =? _) = true |- _ => apply Z.eqb_eq in H
  | H : (_ =? _)%nat = true |- _ => apply Nat.eqb_eq in H
  end.

Lemma read_keeps {A} c (f : sql A) : (forall d a d', f d = inr (a, d') -> d' = d) -> keeps c f.
Proof. intros H d a d' Hs E. by rewrite (H d a d'). Qed.

Lemma live_in_read {A} st s op fence (k : operation -> bytes + (A * database)) d a d' :
  (forall o, k o = inr (a, d') -> d' = d) -> live_in st s op fence k d = inr (a, d') ->
  d' = d /\ exists o, operations d !! op = Some o /\ o_state o = st.
Proof.
  intros Hk E. unfold live_in in E. peel E. bools. split; [eauto|]. exists o. by split.
Qed.

Lemma secret_page_read op fence after limit d rows d' :
  org_vault_rewrap_secret_page op fence after limit d = inr (rows, d') ->
  d' = d /\ (exists o, operations d !! op = Some o /\ o_state o = RW_CUSTODY_PREPARED)
  /\ forall p, p ∈ rows -> p ∈ secrets d.
Proof.
  intros E. unfold org_vault_rewrap_secret_page in E. peel E.
  pose proof E as E2. apply live_in_read in E as [-> X]; [|intros o' E'; by injection E' as _ <-].
  split_and!; [done..|]. unfold live_in in E2. peel E2. injection E2 as <-.
  intros p Hp. apply list_elem_of_In. apply elem_of_take in Hp as (i & Hi & _). apply list_elem_of_lookup_2 in Hi.
  apply list_elem_of_In, filter_In in Hi. by apply Hi.
Qed.

Lemma secret_page_keeps c op fence after limit : keeps c (org_vault_rewrap_secret_page op fence after limit).
Proof. apply read_keeps. intros d a d' E. by apply secret_page_read in E as [-> _]. Qed.

Lemma check_page_keeps c op fence after limit : keeps c (org_vault_rewrap_check_page op fence after limit).
Proof.
  apply read_keeps. intros d a d' E. unfold org_vault_rewrap_check_page in E. peel E.
  apply live_in_read in E as [-> _]; [done | intros o' E'; by injection E' as _ <-].
Qed.

Lemma inventory_keeps c op fence : keeps c (org_vault_rewrap_inventory_summary op fence).
Proof. apply read_keeps. intros d a d' E. unfold org_vault_rewrap_inventory_summary in E. by peel E. Qed.

Lemma verify_summary_keeps c op fence : keeps c (org_vault_rewrap_verify_summary op fence).
Proof.
  apply read_keeps. intros d a d' E. unfold org_vault_rewrap_verify_summary in E. peel E.
  apply live_in_read in E as [-> _]; [done|]. intros o E'.
  destruct (o_receipt o) as [[? ?]|]; [|done]. destruct (o_inventory_digest o); [|done].
  destruct (o_stage_digest o); [|done]. by peel E'.
Qed.

Lemma verify_secret_page_keeps c op fence after limit : keeps c (org_vault_rewrap_verify_secret_page op fence after limit).
Proof. apply read_keeps. intros d a d' E. unfold org_vault_rewrap_verify_secret_page in E. by peel E. Qed.

Lemma verify_check_page_keeps c op fence after limit : keeps c (org_vault_rewrap_verify_check_page op fence after limit).
Proof. apply read_keeps. intros d a d' E. unfold org_vault_rewrap_verify_check_page in E. by peel E. Qed.

(** ** Beginning *)

Lemma reserve_keeps c actor request op old new : keeps c (org_vault_rewrap_reserve actor request op old new).
Proof.
  intros d a d' Hs E. unfold org_vault_rewrap_reserve in E. peel E.
  destruct (by_request request d) as [[id o]|]; [by peel E|]. cbn zeta in E. peel E; [done|].
  match goal with X : operations d !! op = None |- _ => rename X into Ho end.
  apply andthen_inr in E as (u & d1 & W & E). injection E as <- <-. apply worm_append_inr in W as [w ->].
  apply safe_worm. bools. destruct Hs as [(D1 & D2 & D3 & D4) [[Q1 (k0 & k1 & Q2 & Q3 & Q4)]|(op1 & o1 & U1 & U2 & U3 & U4 & U5)]].
  - split.
    + split_and!; [done| | |cbn; lia].
      * intros op1 o1 X. cbn in X. apply lookup_insert_Some in X as [[<- _]|[_ ?]]; [done | eauto].
      * intros op1 id x Hx. destruct (D3 _ _ _ Hx) as (o1 & Ho1 & ?). exists o1. split; [|done].
        cbn. apply lookup_insert_Some. right. split; [congruence | done].
    + right. eexists op, _. split; [apply lookup_insert_eq|]. cbn. split_and!; [done| |lia|].
      * intros op1 o1 Hne. cbn. rewrite lookup_insert_ne by done. apply Q1.
      * by apply (in_preparing _ _ _ k0 k1).
  - exfalso. match goal with F : forallb _ _ = true |- _ => rewrite forallb_forall in F;
      specialize (F (op1, o1) (proj1 (list_elem_of_In _ _) (proj2 (elem_of_map_to_list _ _ _) U1))); cbn in F end.
    unfold busy_operation in *. destruct (o_state o1); try done.
    rewrite (proj2 (Z.ltb_lt _ _)) in * by done. done.
Qed.

(** ** Recording and staging *)

Lemma record_prepared_keeps c op fence receipt digest : keeps c (org_vault_rewrap_record_prepared op fence receipt digest).
Proof.
  intros d a d' Hs E. unfold org_vault_rewrap_record_prepared in E. peel E; [done|]. bools.
  destruct (safe_situation d c op o RW_PREPARING) as (Hd & U & S); try done.
  assert (Hn : forall id, deks d !! (op, id) = None).
  { intros id. destruct (deks d !! (op, id)) eqn:X; [|done]. destruct Hd as (_ & _ & D3 & _).
    destruct (D3 _ _ _ X) as (o1 & Ho1 & N1 & _). rewrite L in Ho1. injection Ho1 as <-. congruence. }
  inversion S as [k0 k1 S1 S2 S3| | | | | |].
  apply (safe_step d c op o (record receipt digest o) _ RW_CUSTODY_PREPARED); try done.
  apply (in_prepared _ _ _ k0 k1); try done. intros id x Hx. cbn in Hx. by rewrite Hn in Hx.
Qed.

(** The bundle is there and its key, if it has one, is [k]. *)
Definition bundle_has (c : custody) (k : bytes) : Prop :=
  bundle c <> None /\ forall k', CustodyFacts.own_key c k' -> k' = k.

Lemma bundle_has_key c k k' : maybe_bundle c k -> bundle_has c k' -> k = k'.
Proof.
  intros [E|(b & L & H1 & _ & H3 & _)] [N K]; [done|]. apply K. exists b. split; [done|]. by rewrite H1.
Qed.

Lemma stage_dek_keeps c op fence id row k :
  bundle_has c k -> vault_dek_unwrap k (d_new row) = Some (plain id) -> keeps c (org_vault_rewrap_stage_dek op fence id row).
Proof.
  intros Hk Hw d a d' Hs E. unfold org_vault_rewrap_stage_dek in E. peel E.
  destruct (deks d !! (op, id)) as [x|] eqn:X; [by peel E|]. peel E. bools.
  destruct (safe_situation d c op o RW_CUSTODY_PREPARED) as ((D1 & D2 & D3 & D4) & U & S); try done.
  inversion S as [|k0 k1 S1 S2 S3 S4| | | | |]. assert (k1 = k) as -> by (by apply (bundle_has_key c)).
  split.
  - split_and!; try done. intros op1 id1 x1 Y. cbn in Y. apply lookup_insert_Some in Y as [[[= <- <-] _]|[_ Hx]]; [|eauto].
    exists o. split; [done|]. split; congruence.
  - right. exists op, o. destruct U as (U1 & U2 & U3 & U4 & _). split_and!; try done.
    rewrite effective_state by congruence. match goal with G : o_state o = _ |- _ => rewrite G end.
    apply (in_prepared _ _ _ k0 k); try done.
    intros id1 x1 Y. cbn in Y. apply lookup_insert_Some in Y as [[[= <-] <-]|[_ Hx]]; [done | by apply S4].
Qed.

Lemma stage_check_keeps c op fence p row : keeps c (org_vault_rewrap_stage_check op fence p row).
Proof.
  intros d a d' Hs E. unfold org_vault_rewrap_stage_check in E. peel E.
  destruct (checks d !! (op, p)) as [x|] eqn:X; [by peel E|]. peel E.
  destruct Hs as [Hd H]. split; [exact Hd|]. destruct H as [[H1 (k0 & k1 & H2)]|(op1 & o1 & A1 & A2 & A3 & A4 & S)].
  - left. split; [done|]. by exists k0, k1.
  - right. exists op1, o1. split_and!; try done. destruct S; econstructor; eauto.
Qed.

Lemma stage_finish_keeps c op fence es ec ei : keeps c (org_vault_rewrap_stage_finish op fence es ec ei).
Proof.
  intros d a d' Hs E. unfold org_vault_rewrap_stage_finish in E. peel E; [done|]. bools.
  destruct (safe_situation d c op o RW_CUSTODY_PREPARED) as (Hd & U & S); try done.
  inversion S as [|k0 k1 S1 S2 S3 S4| | | | |].
  eapply (safe_step d c op o _ _ RW_WRAPS_STAGED); try done.
  apply (in_staged _ _ _ k0 k1); try done. apply Forall_forall. intros p Hp. cbn in *.
  match goal with F : forallb _ (secrets d) = true |- _ => rewrite forallb_forall in F;
    specialize (F p (proj1 (list_elem_of_In _ _) Hp)) end. bools.
  unfold dek_fits in *. destruct (deks d !! (op, p.1)); [eauto | done].
Qed.

(** ** Committing *)

Lemma mark_committing_keeps c op fence : bundle c <> None -> keeps c (org_vault_rewrap_mark_committing op fence).
Proof.
  intros Hb d a d' Hs E. unfold org_vault_rewrap_mark_committing in E. peel E; [done|]. bools.
  destruct (safe_situation d c op o RW_WRAPS_STAGED) as (Hd & U & S); try done.
  inversion S as [| |k0 k1 S1 S2 S3 S4 S5| | | |].
  apply (safe_step d c op o (with_state RW_RESEAL_COMMITTING o) _ RW_RESEAL_COMMITTING); try done.
  apply (in_committing _ _ _ k0 k1); try done. destruct S3 as [|S3]; [done|]. by apply CustodyFacts.committing_old.
Qed.

(** The custody has installed the key it was committing. *)
Definition installed (c : custody) : Prop := exists k0 k1, committing k0 k1 c /\ live c k1.

Lemma committing_bundle k0 k1 c : committing k0 k1 c -> exists g, good_bundle c k1 g.
Proof. intros [G _|G _|b G _ _]; eauto. Qed.

Lemma installed_key k0 k1 c : installed c -> committing k0 k1 c -> live c k1.
Proof.
  intros (k0' & k1' & C' & Hl) C. apply committing_bundle in C as (g & b & L & H1 & _ & H3 & _).
  apply committing_bundle in C' as (g' & b' & L' & H1' & _ & H3' & _).
  rewrite (CustodyFacts.loaded_fun c b b') in * by done. congruence.
Qed.

Lemma mark_resealed_keeps c op fence digest : installed c -> keeps c (org_vault_rewrap_mark_resealed op fence digest).
Proof.
  intros Hi d a d' Hs E. unfold org_vault_rewrap_mark_resealed in E. peel E; [done|]. bools.
  apply andthen_inr in E as (u & d1 & W & E). injection E as <- <-. apply worm_append_inr in W as [w ->]. apply safe_worm.
  destruct (safe_situation d c op o RW_RESEAL_COMMITTING) as (Hd & U & S); try done.
  inversion S as [| | |k0 k1 S1 S2 S3 S4| | |].
  apply (safe_step d c op o (with_state RW_RESEALED o) _ RW_RESEALED); try done.
  apply (in_resealed _ _ _ k1); try done. by apply (installed_key k0).
Qed.

Lemma promote_keeps c op fence : keeps c (org_vault_rewrap_promote op fence).
Proof.
  intros d a d' Hs E. unfold org_vault_rewrap_promote in E. peel E; try done. bools.
  destruct (safe_situation d c op o RW_RESEALED) as (Hd & U & S); try done.
  inversion S as [| | | |k1 S1 S2 S3| |].
  apply (safe_step d c op o (with_state RW_PROMOTED o) _ RW_PROMOTED); try done.
  - cbn. rewrite <- list_fmap_compose. apply list_fmap_ext. intros i p _. cbn. unfold promote_secret.
    destruct (deks d !! (op, p.1)); [|done]. by destruct (dek_fits op d p).
  - apply (in_promoted _ _ _ k1); try done. apply Forall_fmap, Forall_forall. intros p Hp. cbn.
    match goal with F : forallb _ (secrets d) = true |- _ => rewrite forallb_forall in F;
      specialize (F p (proj1 (list_elem_of_In _ _) Hp)) end.
    unfold promote_secret. destruct (deks d !! (op, p.1)) as [x|] eqn:X; [|by unfold dek_fits in *; rewrite X in *].
    destruct (dek_fits op d p); [|done]. cbn. by apply S2.
Qed.

(** ** Ending *)

Lemma complete_keeps c op fence r i s : keeps c (org_vault_rewrap_complete op fence r i s).
Proof.
  intros d a d' Hs E. unfold org_vault_rewrap_complete in E. cbn zeta in E. peel E; bools.
  - apply andthen_inr in E as (u & d1 & W & E). injection E as <- <-. apply worm_append_inr in W as [w ->]. by apply safe_worm.
  - apply andthen_inr in E as (u & d1 & W & E). injection E as <- <-. apply worm_append_inr in W as [w ->].
    destruct (safe_situation d c op o RW_PROMOTED) as (Hd & U & S); try done.
    inversion S as [| | | | |k1 S1 S2|].
    apply (safe_step d c op o (with_state RW_COMPLETED o) _ RW_COMPLETED); try done; [cbn; lia|].
    by apply (in_completed _ _ _ k1).
Qed.

Lemma abort_keeps c op fence failure : keeps c (org_vault_rewrap_abort op fence failure).
Proof.
  intros d a d' Hs E. unfold org_vault_rewrap_abort in E. peel E; [done|]. bools.
  apply andthen_inr in E as (u & d1 & W & E). injection E as <- <-. apply worm_append_inr in W as [w ->].
  destruct (safe_active d c op o) as [(D1 & D2 & D3 & D4) (U1 & U2 & U3 & U4 & S)]; [done | done | done|].
  assert (R : exists k0 k1, live c k0 /\ rows_under k0 d /\ maybe_bundle c k1).
  { destruct (o_state o) eqn:Est; try done; rewrite effective_state, Est in S by congruence; inversion S; eauto. }
  split.
  - split_and!; [done| | |cbn; lia].
    + intros op1 o1 Y. cbn in Y. apply lookup_insert_Some in Y as [[<- _]|[_ ?]]; eauto.
    + intros op1 id x Y. cbn in Y. apply map_lookup_filter_Some in Y as [Hx Hne]. cbn in Hne. destruct (D3 _ _ _ Hx) as (o1 & Ho1 & N).
      exists o1. split; [|done]. cbn. by apply lookup_insert_Some; right.
  - left. split; [|exact R]. intros op1 o1 Y. cbn in Y.
    apply lookup_insert_Some in Y as [[<- <-]|[Hne Ho1]]; [done|]. by apply (U3 op1).
Qed.

Lemma recovery_keeps c op fence failure : keeps c (org_vault_rewrap_recovery_required op fence failure).
Proof.
  intros d a d' Hs E. unfold org_vault_rewrap_recovery_required in E. peel E; bools.
  - apply andthen_inr in E as (u & d1 & W & E). injection E as <- <-. apply worm_append_inr in W as [w ->]. by apply safe_worm.
  - apply andthen_inr in E as (u & d1 & W & E). injection E as <- <-. apply worm_append_inr in W as [w ->].
    destruct (safe_active d c op o) as [Hd U]; [done | done | intros E; by rewrite E in *|].
    pose proof U as (_ & _ & _ & _ & S). rewrite effective_state in S by done.
    apply (safe_step d c op o (failed RW_RECOVERY_REQUIRED failure (Some (o_state o)) o) _ (o_state o)); try done; [cbn; lia|].
    destruct S; econstructor; eauto.
Qed.

End Safe.
End ResealSafe.
