(* ===== verification/ResealWorld.v ===== *)
(** * The parties of a key change together

    The world of the driver is the operator's store, the custody and the
    host's clock and memory.  The invariant of [ResealSafe] is carried through
    the store: it holds of the durable database, and of what a usable handle
    would commit.  Then the conditions on which the custody's calls keep it. *)

From Stdlib Require Import ZArith Lia String Ascii.
From stdpp Require Import base numbers option list gmap.
From S2P Require Import Prelude Wire ResealReceipt MutationBudget Rewrap RewrapSql RewrapStore ResealCustody CustodyFacts ResealSafe ResealRun.

Module ResealWorld.
Import Rewrap.
Import ResealCustody (vault_dek_wrap, vault_dek_unwrap, custody, nv, bundle, tpm2_get_kek).
Import CustodyFacts (core, calm, live, good_bundle, own_key, committing).
Import ResealSafe.

(** ** The world *)

Record world := {
  st : RewrapStore.store;
  cust : custody;
  clock : list Z;
  memory : list Z
}.

Definition set_store (s : RewrapStore.store) (w : world) : world :=
  {| st := s; cust := cust w; clock := clock w; memory := memory w |}.
Definition set_custody (c : custody) (w : world) : world :=
  {| st := st w; cust := c; clock := clock w; memory := memory w |}.

Definition on_store {A} (f : RewrapStore.store -> A * RewrapStore.store) (w : world) : A * world :=
  let '(a, s) := f (st w) in (a, set_store s w).
Definition on_custody {A} (f : custody -> A * custody) (w : world) : A * world :=
  let '(a, c) := f (cust w) in (a, set_custody c w).

(** The next reading of the clock, and whether an allocation works. *)
Definition read_clock (w : world) : Z * world :=
  (match clock w with t :: _ => t | [] => 0 end,
   {| st := st w; cust := cust w; clock := tail (clock w); memory := memory w |}).
Definition allocate (w : world) : bool * world :=
  (match memory w with m :: _ => m =? 0 | [] => true end,
   {| st := st w; cust := cust w; clock := clock w; memory := tail (memory w) |}).

Definition host : host_ops world :=
  {| Rewrap.arena_new := allocate; Rewrap.read_clock := read_clock; Rewrap.allocate := allocate |}.

Abbreviation TX := RewrapStore.kb_store_vault_rewrap_tx.

Section World.
Context {HS : Sha256} {HT : Tpm2} {HK : KeyWrap}.

Definition db : kb_store_vault_rewrap_ops_t world TX :=
  let o := RewrapStore.kb_store_vault_operator_rewrap_ops in
  {| Rewrap.tx_begin := on_store (Rewrap.tx_begin o);
     Rewrap.tx_commit := fun t => on_store (Rewrap.tx_commit o t);
     Rewrap.tx_rollback := fun t => on_store (Rewrap.tx_rollback o t);
     Rewrap.snapshot := fun op => on_store (Rewrap.snapshot o op);
     Rewrap.begin := fun a r op x y t => on_store (Rewrap.begin o a r op x y t);
     Rewrap.record_prepared := fun op f x y r t => on_store (Rewrap.record_prepared o op f x y r t);
     Rewrap.source_secret_page := fun op f a l t => on_store (Rewrap.source_secret_page o op f a l t);
     Rewrap.source_check_page := fun op f a l t => on_store (Rewrap.source_check_page o op f a l t);
     Rewrap.stage_dek := fun op f r n t => on_store (Rewrap.stage_dek o op f r n t);
     Rewrap.stage_check := fun op f r n t => on_store (Rewrap.stage_check o op f r n t);
     Rewrap.inventory_summary := fun op f t => on_store (Rewrap.inventory_summary o op f t);
     Rewrap.stage_finish := fun op f i t => on_store (Rewrap.stage_finish o op f i t);
     Rewrap.mark_committing := fun op f t => on_store (Rewrap.mark_committing o op f t);
     Rewrap.mark_resealed := fun op f d t => on_store (Rewrap.mark_resealed o op f d t);
     Rewrap.promote := fun op f t => on_store (Rewrap.promote o op f t);
     Rewrap.abort := fun op f x t => on_store (Rewrap.abort o op f x t);
     Rewrap.recovery_required := fun op f x t => on_store (Rewrap.recovery_required o op f x t);
     Rewrap.verify_summary := fun op f t => on_store (Rewrap.verify_summary o op f t);
     Rewrap.verify_secret_page := fun op f a l t => on_store (Rewrap.verify_secret_page o op f a l t);
     Rewrap.verify_check_page := fun op f a l t => on_store (Rewrap.verify_check_page o op f a l t);
     Rewrap.verify_crypto_ack := fun op f t => on_store (Rewrap.verify_crypto_ack o op f t);
     Rewrap.complete := fun op f x y z t => on_store (Rewrap.complete o op f x y z t) |}.

Definition cu : vault_reseal_custody_ops_t world :=
  let o := ResealCustody.vault_reseal_custody_default_ops in
  {| Rewrap.supported := Rewrap.supported o;
     Rewrap.nv_generation := fun s => on_custody (Rewrap.nv_generation o s);
     Rewrap.prepare := fun op g k s => on_custody (Rewrap.prepare o op g k s);
     Rewrap.discover := fun op g s => on_custody (Rewrap.discover o op g s);
     Rewrap.recover_kek := fun r s => on_custody (Rewrap.recover_kek o r s);
     Rewrap.status := fun r s => on_custody (Rewrap.status o r s);
     Rewrap.commit := fun r s => on_custody (Rewrap.commit o r s);
     Rewrap.custody_abort := fun r s => on_custody (Rewrap.custody_abort o r s);
     Rewrap.guard_begin := on_custody (Rewrap.guard_begin o);
     Rewrap.guard_sync_epoch := fun e => on_custody (Rewrap.guard_sync_epoch o e);
     Rewrap.guard_unseal := fun s => on_custody (Rewrap.guard_unseal o s);
     Rewrap.guard_seal := on_custody (Rewrap.guard_seal o);
     Rewrap.guard_active_kek := on_custody (Rewrap.guard_active_kek o);
     Rewrap.guard_end := on_custody (Rewrap.guard_end o);
     Rewrap.random := on_custody (Rewrap.random o);
     Rewrap.dek_wrap := Rewrap.dek_wrap o; Rewrap.dek_unwrap := Rewrap.dek_unwrap o;
     Rewrap.check_wrap := Rewrap.check_wrap o; Rewrap.check_verify := Rewrap.check_verify o |}.

(** ** The store keeps the invariant *)

Variable plain : Z -> bytes.
Variable ids : list Z.
Local Abbreviation safe := (safe plain ids).
Local Abbreviation keeps := (keeps plain ids).

(** What a usable handle would commit. *)
Definition pending (c : custody) (w : RewrapStore.store) : Prop :=
  match RewrapStore.session w with Some (d, _) => safe d c | None => True end.

(** No end of a transaction will find its deadline passed. *)
Definition punctual (w : RewrapStore.store) : Prop := Forall (fun late => late = false) (RewrapStore.late_ends w).

Lemma punctual_tail w w' : punctual w -> RewrapStore.late_ends w' = tail (RewrapStore.late_ends w) -> punctual w'.
Proof. unfold punctual. intros H ->. by destruct H. Qed.

Lemma punctual_end w : punctual w -> match RewrapStore.late_ends w with b :: _ => b | [] => false end = false.
Proof. by intros []. Qed.

(** A transaction that is open keeps the mutex, or the connection is unusable. *)
Definition store_ok (w : RewrapStore.store) : Prop :=
  punctual w
  /\ (RewrapStore.session w = None \/ RewrapStore.uncertain w = true \/ RewrapStore.mutex_held w = true).

Definition sound (c : custody) (w : RewrapStore.store) : Prop := safe (RewrapStore.durable w) c /\ store_ok w.

(** The durable database, and the open transaction if the handle is usable. *)
Definition held (c : custody) (t : TX) (w : RewrapStore.store) : Prop :=
  sound c w /\ (RewrapStore.tx_valid t = true -> pending c w).

Lemma query_store {A} (f : RewrapSql.sql A) w : store_ok w -> store_ok (RewrapStore.query f w).2.
Proof.
  unfold store_ok, punctual. intros [Hl Hw]. unfold RewrapStore.query. destruct (RewrapStore.fault w) as [e w1] eqn:E.
  unfold RewrapStore.fault in E. injection E as _ <-. cbn.
  destruct (e =? 4); cbn [orb]; [by split|]. destruct (RewrapStore.uncertain w) eqn:U; cbn; [auto|]. destruct (e =? 1); cbn; [auto|].
  destruct (RewrapStore.session w) as [[d [|]]|] eqn:S; cbn; [naive_solver| |].
  - destruct (e =? 2); cbn; [naive_solver|]. destruct (f d) as [|[a d']]; cbn; naive_solver.
  - destruct (f (RewrapStore.durable w)) as [|[a d']]; cbn; auto.
Qed.

Lemma query_keeps {A} c (f : RewrapSql.sql A) w : keeps c f ->
  let w' := (RewrapStore.query f w).2 in
  RewrapStore.durable w' = RewrapStore.durable w /\ (pending c w -> pending c w').
Proof.
  intros Hf. unfold RewrapStore.query. destruct (RewrapStore.fault w) as [e w1] eqn:E.
  unfold RewrapStore.fault in E. injection E as _ <-. cbn zeta. unfold pending. cbn.
  destruct (_ || RewrapStore.uncertain w); [done|]. destruct (e =? 1); [done|].
  destruct (RewrapStore.session w) as [[d [|]]|] eqn:S; cbn; [by rewrite ?S| |].
  - destruct (e =? 2); [done|]. destruct (f d) as [|[a d']] eqn:F; [done|]. cbn. split; [done|]. intros Hd. by apply (Hf d a).
  - destruct (f (RewrapStore.durable w)) as [|[a d']]; cbn; by rewrite ?S.
Qed.

(** An answer is of a database the invariant holds of. *)
Lemma query_answer {A} c (f : RewrapSql.sql A) w a w' :
  sound c w -> pending c w -> RewrapStore.query f w = (inr a, w') ->
  exists d d', safe d c /\ f d = inr (a, d').
Proof.
  intros [Hd _] Hp. unfold RewrapStore.query. destruct (RewrapStore.fault w) as [e w1] eqn:E.
  unfold RewrapStore.fault in E. injection E as _ <-. cbn. unfold pending in Hp.
  destruct (_ || RewrapStore.uncertain w); [done|]. destruct (e =? 1); [done|].
  destruct (RewrapStore.session w) as [[d [|]]|] eqn:S; [done| |].
  - destruct (e =? 2); [done|]. destruct (f d) as [|[x d']] eqn:F; [done|]. intros [= <- _]. eauto.
  - destruct (f (RewrapStore.durable w)) as [|[x d']] eqn:F; [done|]. intros [= <- _]. eauto.
Qed.

Lemma classify_not_ok s : RewrapStore.kb_store_vault_rewrap_classify_sqlstate s <> DB_OK.
Proof. unfold RewrapStore.kb_store_vault_rewrap_classify_sqlstate. by repeat case_match. Qed.

Lemma query_error {A} (f : RewrapSql.sql A) w e w' : RewrapStore.query f w = (inl e, w') -> e <> DB_OK.
Proof.
  unfold RewrapStore.query. destruct (RewrapStore.fault w) as [x w1]. repeat case_match; intros [= <- _]; try done;
    apply classify_not_ok.
Qed.

Lemma failed_invalid t : RewrapStore.tx_valid (RewrapStore.set_phase RewrapStore.TX_FAILED t) = false.
Proof. done. Qed.

(** After a query, a handle that is usable only if it was. *)
Lemma query_held {A} c (f : RewrapSql.sql A) t t' w : keeps c f -> held c t w ->
  (RewrapStore.tx_valid t' = true -> RewrapStore.tx_valid t = true) -> held c t' (RewrapStore.query f w).2.
Proof.
  intros Hf [[H1 H3] H2] Ht. destruct (query_keeps c f w Hf) as [E Hp]. split; [|auto].
  split; [by rewrite E | by apply query_store].
Qed.

Lemma held_handle c t t' w : held c t w ->
  (RewrapStore.tx_valid t' = true -> RewrapStore.tx_valid t = true) -> held c t' w.
Proof. intros [H1 H2] Ht. split; auto. Qed.

Lemma held_failed c t w : held c t w -> held c (RewrapStore.set_phase RewrapStore.TX_FAILED t) w.
Proof. intros H. by apply (held_handle c t). Qed.

Lemma single_state_held {A} c done op f (q : RewrapSql.sql A) t w : keeps c q -> held c t w ->
  let x := RewrapStore.single_state done op f q t w in held c x.1.2 x.2.
Proof.
  intros Hq Hh. unfold RewrapStore.single_state. destruct (RewrapStore.tx_valid t) eqn:V; cbn [negb orb]; [|by apply held_failed].
  destruct (f <? 1); [by apply held_failed|].
  pose proof (query_held c q t (RewrapStore.set_phase RewrapStore.TX_FAILED t) w Hq Hh) as H1.
  pose proof (query_held c q t (RewrapStore.set_phase done t) w Hq Hh) as H2.
  destruct (RewrapStore.query q w) as [[e|a] w']; cbn in *; auto.
Qed.

Lemma void_query_held c f (q : RewrapSql.sql unit) t w : keeps c q -> held c t w ->
  let x := RewrapStore.void_query f q t w in held c x.1.2 x.2.
Proof.
  intros Hq Hh. unfold RewrapStore.void_query. destruct (_ || _); [by apply held_failed|].
  pose proof (query_held c q t (RewrapStore.set_phase RewrapStore.TX_FAILED t) w Hq Hh) as H1.
  pose proof (query_held c q t t w Hq Hh) as H2. destruct (RewrapStore.query q w) as [[e|a] w']; [by apply H1 | by apply H2].
Qed.

Lemma held_any c t t' w : RewrapStore.tx_valid t = true -> held c t w -> held c t' w.
Proof. intros V H. by apply (held_handle c t). Qed.

Lemma phase_valid t p : RewrapStore.in_phase t p = true -> p <> RewrapStore.TX_FAILED -> RewrapStore.tx_valid t = true.
Proof. unfold RewrapStore.tx_valid, RewrapStore.in_phase. intros ->%bool_decide_eq_true Hp. by rewrite bool_decide_false. Qed.

Lemma begin_held c a r op x y t w : held c t w ->
  let z := RewrapStore.begin a r op x y t w in held c z.1.2 z.2.
Proof.
  intros Hh. unfold RewrapStore.begin. destruct (RewrapStore.tx_valid t) eqn:V; cbn [negb andb orb]; [|by apply held_failed].
  destruct (_ || _); [by apply held_failed|].
  assert (Q : forall t', held c t' (RewrapStore.query (RewrapSql.org_vault_rewrap_reserve a r op x y) w).2).
  { intros t'. by apply (query_held c _ t); [apply reserve_keeps|..]. }
  destruct (RewrapStore.query _ w) as [[e|[id o]] w']; [apply Q|]. case_match; apply Q.
Qed.

Lemma record_prepared_held c op f x y r t w : held c t w ->
  let z := RewrapStore.record_prepared op f x y r t w in held c z.1.2 z.2.
Proof.
  intros Hh. unfold RewrapStore.record_prepared. destruct (RewrapStore.decode_receipt r); [|by apply held_failed].
  apply single_state_held; [apply record_prepared_keeps | done].
Qed.

Lemma staging_valid t : RewrapStore.tx_valid (RewrapStore.to_staging t) = RewrapStore.tx_valid t.
Proof.
  unfold RewrapStore.to_staging, RewrapStore.in_phase. case_bool_decide as E; [|done].
  unfold RewrapStore.tx_valid, RewrapStore.in_phase. cbn [RewrapStore.phase RewrapStore.set_phase]. by rewrite E.
Qed.

Lemma secret_page_held c (verify : bool) op f a l t w : held c t w ->
  let z := RewrapStore.secret_page verify op f a l t w in
  held c z.1.2 z.2 /\ (z.1.1.1 = DB_OK -> z.1.2 = t).
Proof.
  intros Hh. unfold RewrapStore.secret_page. destruct (_ || _); [split; [by apply held_failed | done]|].
  set (q := if verify then _ else _).
  assert (Hq : keeps c q) by (unfold q; destruct verify; [apply verify_secret_page_keeps | apply secret_page_keeps]).
  assert (Q1 : held c t (RewrapStore.query q w).2) by (by apply (query_held c _ t)).
  destruct (RewrapStore.query q w) as [[e|rows] w'] eqn:EQ.
  { split; [by apply held_failed | by intros E%(query_error q w _ w' EQ)]. }
  destruct (_ <? _); [split; [by apply held_failed | done]|].
  destruct (RewrapStore.decode_secrets _ _ _); [by split | split; [by apply held_failed | done]].
Qed.

Lemma source_secret_page_held c op f a l t w : held c t w ->
  let z := RewrapStore.source_secret_page op f a l t w in held c z.1.2 z.2.
Proof.
  intros Hh. unfold RewrapStore.source_secret_page.
  assert (H1 : held c (RewrapStore.to_staging t) w) by (apply (held_handle c t); [done | by rewrite staging_valid]).
  destruct (_ || _); [by apply held_failed|].
  destruct (secret_page_held c false op f a l _ w H1) as [H2 _].
  destruct (RewrapStore.secret_page _ _ _ _ _ _ _) as [[[r rows] t'] w']. cbn in H2. by destruct (bool_decide _).
Qed.

Lemma verify_secret_page_held c op f a l t w : held c t w ->
  let z := RewrapStore.verify_secret_page op f a l t w in held c z.1.2 z.2.
Proof.
  intros Hh. unfold RewrapStore.verify_secret_page. destruct (RewrapStore.in_phase t _) eqn:P; cbn [negb orb]; [|by apply held_failed].
  destruct (negb _); [by apply held_failed|]. apply phase_valid in P; [|done].
  destruct (secret_page_held c true op f a l _ w Hh) as [H2 H3].
  destruct (RewrapStore.secret_page _ _ _ _ _ _ _) as [[[r rows] t'] w']. cbn in H2, H3.
  case_bool_decide as B; cbn [negb]; [|done]. rewrite (H3 B) in *. pose proof (fun x => held_any c t x w' P H2) as Q.
  repeat match goal with |- context [if ?b then _ else _] => destruct b end; apply Q.
Qed.

Lemma check_page_held c (verify : bool) op f a l t w : held c t w ->
  let z := RewrapStore.check_page verify op f a l t w in
  held c z.1.2 z.2 /\ (z.1.1.1 = DB_OK -> z.1.2 = t).
Proof.
  intros Hh. unfold RewrapStore.check_page. destruct (_ || _); [split; [by apply held_failed | done]|].
  set (q := if verify then _ else _).
  assert (Hq : keeps c q) by (unfold q; destruct verify; [apply verify_check_page_keeps | apply check_page_keeps]).
  assert (Q1 : held c t (RewrapStore.query q w).2) by (by apply (query_held c _ t)).
  destruct (RewrapStore.query q w) as [[e|rows] w'] eqn:EQ.
  { split; [by apply held_failed | by intros E%(query_error q w _ w' EQ)]. }
  destruct (_ <? _); [split; [by apply held_failed | done]|].
  destruct (RewrapStore.decode_checks _ _ _); [by split | split; [by apply held_failed | done]].
Qed.

Lemma source_check_page_held c op f a l t w : held c t w ->
  let z := RewrapStore.source_check_page op f a l t w in held c z.1.2 z.2.
Proof.
  intros Hh. unfold RewrapStore.source_check_page.
  assert (H1 : held c (RewrapStore.to_staging t) w) by (apply (held_handle c t); [done | by rewrite staging_valid]).
  destruct (_ || _); [by apply held_failed|].
  destruct (check_page_held c false op f a l _ w H1) as [H2 _].
  destruct (RewrapStore.check_page _ _ _ _ _ _ _) as [[[r rows] t'] w']. cbn in H2. by destruct (bool_decide _).
Qed.

Lemma verify_check_page_held c op f a l t w : held c t w ->
  let z := RewrapStore.verify_check_page op f a l t w in held c z.1.2 z.2.
Proof.
  intros Hh. unfold RewrapStore.verify_check_page. destruct (RewrapStore.in_phase t _) eqn:P; cbn [negb orb]; [|by apply held_failed].
  destruct (negb _); [by apply held_failed|]. apply phase_valid in P; [|done].
  destruct (check_page_held c true op f a l _ w Hh) as [H2 H3].
  destruct (RewrapStore.check_page _ _ _ _ _ _ _) as [[[r rows] t'] w']. cbn in H2, H3.
  case_bool_decide as B; cbn [negb]; [|done]. rewrite (H3 B) in *. pose proof (fun x => held_any c t x w' P H2) as Q.
  repeat match goal with |- context [if ?b then _ else _] => destruct b end; apply Q.
Qed.

Lemma stage_dek_held c op f row n k t w :
  bundle_has c k -> vault_dek_unwrap k n = Some (plain (source_id row)) -> held c t w ->
  let z := RewrapStore.stage_dek op f row n t w in held c z.1.2 z.2.
Proof.
  intros Hk Hn Hh. unfold RewrapStore.stage_dek. destruct (negb _); [by apply held_failed|].
  apply void_query_held; [|done]. by apply (stage_dek_keeps _ _ _ _ _ _ _ k).
Qed.

Lemma stage_check_held c op f row n t w : held c t w ->
  let z := RewrapStore.stage_check op f row n t w in held c z.1.2 z.2.
Proof.
  intros Hh. unfold RewrapStore.stage_check. destruct (_ || _); [by apply held_failed|].
  apply void_query_held; [apply stage_check_keeps | done].
Qed.

Lemma inventory_held c op f t w : held c t w ->
  let z := RewrapStore.inventory_summary op f t w in held c z.1.2 z.2.
Proof.
  intros Hh. unfold RewrapStore.inventory_summary. destruct (_ || _) eqn:P; cbn [negb]; [|by apply held_failed].
  assert (V : RewrapStore.tx_valid t = true) by (apply orb_true_iff in P as [P|P]; by apply phase_valid in P).
  assert (Q : forall t', held c t' (RewrapStore.query (RewrapSql.org_vault_rewrap_inventory_summary op f) w).2).
  { intros t'. by apply (query_held c _ t); [apply inventory_keeps|..]. }
  destruct (RewrapStore.query _ w) as [[e|[[sc cc] dg]] w']; [apply Q|]. case_match; apply Q.
Qed.

Lemma verify_summary_held c op f t w : held c t w ->
  let z := RewrapStore.verify_summary op f t w in held c z.1.2 z.2.
Proof.
  intros Hh. unfold RewrapStore.verify_summary. destruct (RewrapStore.tx_valid t) eqn:V; cbn [negb andb]; [|by apply held_failed].
  destruct (negb _); [by apply held_failed|].
  assert (Q : forall t', held c t' (RewrapStore.query (RewrapSql.org_vault_rewrap_verify_summary op f) w).2).
  { intros t'. by apply (query_held c _ t); [apply verify_summary_keeps|..]. }
  destruct (RewrapStore.query _ w) as [[e|[[[[sc cc] rd] id] sd]] w']; [apply Q|]. case_match; apply Q.
Qed.

Lemma stage_finish_held c op f i t w : held c t w ->
  let z := RewrapStore.stage_finish op f i t w in held c z.1.2 z.2.
Proof.
  intros Hh. unfold RewrapStore.stage_finish. destruct (_ || _); [by apply held_failed|].
  apply single_state_held; [apply stage_finish_keeps | done].
Qed.

Lemma abort_held c op f x t w : held c t w -> let z := RewrapStore.abort_op op f x t w in held c z.1.2 z.2.
Proof.
  intros Hh. unfold RewrapStore.abort_op. destruct (bool_decide _); [by apply held_failed|].
  apply single_state_held; [apply abort_keeps | done].
Qed.

Lemma recovery_held c op f x t w : held c t w -> let z := RewrapStore.recovery op f x t w in held c z.1.2 z.2.
Proof.
  intros Hh. unfold RewrapStore.recovery. destruct (bool_decide _); [by apply held_failed|].
  apply single_state_held; [apply recovery_keeps | done].
Qed.

Lemma verify_ack_held c op f t w : held c t w -> let z := RewrapStore.verify_ack op f t w in held c z.1.2 z.2.
Proof.
  intros Hh. unfold RewrapStore.verify_ack. destruct (RewrapStore.tx_valid t) eqn:V; cbn [negb orb]; [|by apply held_failed].
  destruct (_ || _); [by apply held_failed|]. by apply (held_any c t).
Qed.

Lemma complete_held c op f x y z' t w : held c t w ->
  let z := RewrapStore.complete op f x y z' t w in held c z.1.2 z.2.
Proof.
  intros Hh. unfold RewrapStore.complete. destruct (_ || _); [by apply held_failed|].
  apply single_state_held; [apply complete_keeps | done].
Qed.

(** ** Transactions *)

(** No usable handle. *)
Definition handle_idle (t : option TX) : Prop := forall x, t = Some x -> RewrapStore.tx_valid x = false.

Lemma lock_store w : let x := RewrapStore.lock w in
  RewrapStore.durable x.2 = RewrapStore.durable w /\ RewrapStore.session x.2 = RewrapStore.session w
  /\ RewrapStore.uncertain x.2 = RewrapStore.uncertain w /\ RewrapStore.late_ends x.2 = RewrapStore.late_ends w
  /\ RewrapStore.mutex_held x.2 = (x.1 || RewrapStore.mutex_held w) /\ (x.1 = true -> RewrapStore.mutex_held w = false).
Proof.
  unfold RewrapStore.lock, RewrapStore.fault. destruct (_ || _) eqn:B; cbn; [done|].
  apply orb_false_iff in B as [_ B]. cbn in B. done.
Qed.

(** Once the mutex is taken there is no transaction, or none that is usable. *)
Lemma lock_idle w : store_ok w ->
  let x := RewrapStore.lock w in
  store_ok x.2
  /\ (x.1 = true -> RewrapStore.session x.2 = None \/ RewrapStore.uncertain x.2 = true).
Proof.
  intros [Hl Hw]. pose proof (lock_store w) as (L1 & L2 & L3 & L4 & L5 & L6). unfold store_ok, punctual in *.
  cbv zeta. rewrite L2, L3, L4, L5. split; [|intros E; specialize (L6 E); destruct Hw as [?|[?|?]]; [auto | auto | congruence]].
  split; [done|]. destruct Hw as [?|[?|E]]; [auto..|]. rewrite E. right. right. by rewrite orb_true_r.
Qed.

(** No command but a commit changes what is durable. *)
Lemma command_store cmd w : cmd <> RewrapStore.COMMIT ->
  RewrapStore.durable (RewrapStore.command cmd w).2 = RewrapStore.durable w.
Proof.
  intros Hc. unfold RewrapStore.command, RewrapStore.late_end, RewrapStore.fault.
  destruct cmd; [|done|]; cbn; repeat case_match; done.
Qed.

(** Only an end of a transaction asks whether it is late. *)
Lemma command_punctual cmd w : punctual w -> punctual (RewrapStore.command cmd w).2.
Proof.
  intros H. assert (T : Forall (fun late => late = false) (tail (RewrapStore.late_ends w))) by (by destruct H).
  unfold punctual, RewrapStore.command, RewrapStore.late_end, RewrapStore.fault in *.
  destruct cmd; cbn; repeat case_match; done.
Qed.

Lemma begin_store w : RewrapStore.session w = None \/ RewrapStore.uncertain w = true ->
  let x := RewrapStore.command RewrapStore.BEGIN w in
  (x.1 = true -> RewrapStore.session x.2 = Some (RewrapStore.durable w, false) /\ RewrapStore.uncertain x.2 = false)
  /\ (x.1 = false -> RewrapStore.session x.2 = None \/ RewrapStore.uncertain x.2 = true)
  /\ RewrapStore.mutex_held x.2 = RewrapStore.mutex_held w.
Proof.
  intros H. unfold RewrapStore.command, RewrapStore.fault. cbn. destruct (_ =? 4); [done|].
  destruct (RewrapStore.uncertain w) eqn:U; cbn [orb]; [split_and!; try done; cbn; auto|]. destruct H as [H|]; [|done].
  destruct (_ =? 1); [split_and!; try done; cbn; auto|]. destruct (_ =? 2); [split_and!; try done; cbn; auto|]. cbn. by rewrite H.
Qed.

Lemma recover_store w : let x := (RewrapStore.recover_uncertain_locked w).2 in
  RewrapStore.durable x = RewrapStore.durable w /\ RewrapStore.late_ends x = RewrapStore.late_ends w
  /\ (RewrapStore.session w = None \/ RewrapStore.uncertain w = true ->
      RewrapStore.session x = None \/ RewrapStore.uncertain x = true).
Proof.
  unfold RewrapStore.recover_uncertain_locked. destruct (RewrapStore.uncertain w) eqn:U; cbn [negb]; [|cbn; by rewrite U].
  unfold RewrapStore.fault. destruct (_ =? 0); cbn; auto.
Qed.

(** The end of a transaction that is not late leaves none, or a connection
    that is unusable. *)
Lemma command_ends cmd w : cmd <> RewrapStore.BEGIN -> punctual w ->
  let x := (RewrapStore.command cmd w).2 in RewrapStore.session x = None \/ RewrapStore.uncertain x = true.
Proof.
  intros Hc H. apply punctual_end in H. unfold RewrapStore.command, RewrapStore.late_end, RewrapStore.fault.
  destruct cmd; [done|..]; cbn; rewrite H; cbn [orb]; (destruct (RewrapStore.uncertain w) eqn:U; [by right|]);
    (destruct (_ =? 1); [by right|]); [|by left].
  destruct (RewrapStore.session w) as [[d [|]]|]; [by left| |by left].
  destruct (_ =? 2); [by left|]. destruct (_ =? 3); by left.
Qed.

Lemma tx_begin_held c w : sound c w ->
  let x := RewrapStore.tx_begin w in
  sound c x.2 /\ (forall t, x.1.2 = Some t -> held c t x.2) /\ (x.1.1 <> DB_OK -> x.1.2 = None).
Proof.
  intros [Hs Hw]. unfold RewrapStore.tx_begin. destruct (lock_idle w Hw) as [K O].
  pose proof (lock_store w) as (L1 & _ & _ & _ & L5 & _).
  destruct (RewrapStore.lock w) as [ok w1]. cbn [fst snd] in *. rewrite <- L1 in Hs.
  destruct ok; cbn [negb orb] in *; [|split_and!; [by split|done|done]]. specialize (O eq_refl).
  assert (F : forall r w2, RewrapStore.durable w2 = RewrapStore.durable w1 -> punctual w2 ->
    RewrapStore.session w2 = None \/ RewrapStore.uncertain w2 = true ->
    let x := (r, None : option TX, (RewrapStore.unlock w2).2) in
    sound c x.2 /\ (forall t, x.1.2 = Some t -> held c t x.2) /\ ((r : kb_store_vault_rewrap_result_t) <> DB_OK -> x.1.2 = None)).
  { intros r w2 E P I. split_and!; [|done|done]. split; [cbn; by rewrite E|]. split; [exact P|]. cbn. tauto. }
  destruct (RewrapStore.transaction_active w1); [apply F; try done; apply K|].
  destruct (begin_store w1 O) as (B1 & B2 & B3). pose proof (command_punctual RewrapStore.BEGIN w1 (proj1 K)) as P.
  pose proof (command_store RewrapStore.BEGIN w1 ltac:(done)) as D.
  destruct (RewrapStore.command RewrapStore.BEGIN w1) as [ok w2]. cbn [fst snd] in *.
  destruct ok; cbn [negb]; [|by apply F; auto]. destruct (B1 eq_refl) as [S U].
  destruct (RewrapStore.fault w2) as [e w3] eqn:E. unfold RewrapStore.fault in E. injection E as _ <-.
  destruct (e =? 0); cbn [negb].
  - assert (A : forall ok t, held c t (RewrapStore.set_active ok {| RewrapStore.durable := RewrapStore.durable w2;
      RewrapStore.session := RewrapStore.session w2; RewrapStore.mutex_held := RewrapStore.mutex_held w2;
      RewrapStore.transaction_active := RewrapStore.transaction_active w2; RewrapStore.uncertain := RewrapStore.uncertain w2;
      RewrapStore.faults := tail (RewrapStore.faults w2); RewrapStore.late_ends := RewrapStore.late_ends w2 |})).
    { intros ok t. split; [split|]; [cbn; by rewrite D|split; [exact P|]; right; right; cbn; by rewrite B3, L5|].
      intros _. unfold pending. cbn. by rewrite S. }
    split_and!; [apply (A true RewrapStore.tx_zero)|intros t [= <-]; apply A|done].
  - set (w3 := {| RewrapStore.durable := _ |}).
    pose proof (command_ends RewrapStore.ROLLBACK w3 ltac:(done) P) as I.
    pose proof (command_store RewrapStore.ROLLBACK w3 ltac:(done)) as D3.
    pose proof (command_punctual RewrapStore.ROLLBACK w3 P) as P3.
    destruct (RewrapStore.command RewrapStore.ROLLBACK w3) as [ok w4]. cbn [snd] in *. apply F; [rewrite D3; exact D|done|exact I].
Qed.

Lemma tx_end_held c (commit : bool) t w : held c t w ->
  let x := RewrapStore.tx_end commit (Some t) w in sound c x.2 /\ handle_idle x.1.2.
Proof.
  intros [Hs Hp]. unfold RewrapStore.tx_end. destruct (RewrapStore.tx_valid t) eqn:V; cbn [negb].
  2: { split; [done|]. by intros x [= <-]. }
  destruct (commit && _); [split; [done|]; by intros x [= <-]|]. destruct Hs as [Hs [Hl _]].
  set (cmd := if commit then RewrapStore.COMMIT else RewrapStore.ROLLBACK).
  assert (C : safe (RewrapStore.durable (RewrapStore.command cmd w).2) c).
  { unfold cmd. destruct commit; [|by rewrite command_store]. specialize (Hp eq_refl). unfold pending in Hp.
    unfold RewrapStore.command, RewrapStore.late_end, RewrapStore.fault. cbn. destruct (_ || RewrapStore.uncertain w); [done|].
    destruct (_ =? 1); [done|]. destruct (RewrapStore.session w) as [[d [|]]|]; cbn; try done.
    destruct (_ =? 2); [done|]. by destruct (_ =? 3). }
  pose proof (command_ends cmd w ltac:(by destruct commit) Hl) as E. pose proof (command_punctual cmd w Hl) as P.
  destruct (RewrapStore.command cmd w) as [ok w1]. cbn [snd] in C, E, P.
  destruct (recover_store (RewrapStore.set_active false w1)) as (R1 & R2 & R3).
  destruct (RewrapStore.recover_uncertain_locked _) as [n w2]. cbn in R1, R2, R3 |- *. split; [|done].
  split; [cbn; by rewrite R1|]. split; [unfold punctual; cbn; by rewrite R2|]. destruct (R3 E); [by left | by right; left].
Qed.

(** ** Reading an operation *)

Lemma snapshot_decode_state op o s : RewrapStore.snapshot_decode op o = Some s ->
  ss_operation_id s = op /\ ss_state s = RewrapSql.o_state o.
Proof. unfold RewrapStore.snapshot_decode. destruct (_ && _); [|done]. by intros [= <-]. Qed.

(** A snapshot is of the durable operation. *)
Lemma snapshot_says c op w : sound c w ->
  let x := RewrapStore.snapshot op w in
  sound c x.2 /\ RewrapStore.durable x.2 = RewrapStore.durable w
  /\ (x.1.1 = DB_OK -> ss_operation_id x.1.2 = op
      /\ exists o, RewrapSql.operations (RewrapStore.durable w) !! op = Some o /\ RewrapSql.o_state o = ss_state x.1.2).
Proof.
  intros [Hs Hw]. unfold RewrapStore.snapshot. destruct (lock_idle w Hw) as [K O].
  pose proof (lock_store w) as (L1 & _).
  destruct (RewrapStore.lock w) as [ok w1]. cbn [fst snd] in *. rewrite <- L1 in *.
  destruct ok; cbn [negb orb] in *; [|split_and!; [by split|done|done]]. specialize (O eq_refl). destruct K as [P _].
  unfold RewrapStore.query, RewrapStore.fault. cbn.
  assert (G : forall X Y Z : Prop, X /\ Y -> Z -> X /\ Y /\ Z) by tauto.
  assert (A : forall (r : kb_store_vault_rewrap_result_t) (s : kb_store_vault_rewrap_snapshot_t) w2,
    RewrapStore.durable w2 = RewrapStore.durable w1 -> punctual w2 -> RewrapStore.session w2 = None \/ RewrapStore.uncertain w2 = true ->
    sound c (r, s, (RewrapStore.unlock w2).2).2 /\ RewrapStore.durable (RewrapStore.unlock w2).2 = RewrapStore.durable w1).
  { intros r s w2 E P2 I. cbn. split; [|done]. split; [cbn; by rewrite E|]. split; [done|]. cbn. tauto. }
  destruct (_ || RewrapStore.uncertain w1) eqn:U; [by apply G; [apply A|]|]. apply orb_false_iff in U as [_ U].
  destruct O as [O|]; [|congruence]. destruct (_ =? 1); [apply G; [apply A; auto|done]|].
  cbn. rewrite O. cbn. unfold RewrapSql.org_vault_rewrap_snapshot.
  destruct (RewrapSql.operations (RewrapStore.durable w1) !! op) as [o|] eqn:Eo.
  2: { apply G; [apply A; auto|done]. }
  destruct (RewrapStore.snapshot_decode op o) as [sn|] eqn:D.
  2: { apply G; [apply A; auto|done]. }
  apply G; [apply A; auto|]. intros _. apply snapshot_decode_state in D as [D1 D2]. split; [done|]. by exists o.
Qed.

(** ** The custody keeps the invariant *)

Lemma maybe_core c c' k : core c = core c' -> maybe_bundle c k -> maybe_bundle c' k.
Proof.
  intros E [H|H]; [left; by rewrite <- (CustodyFacts.bundle_of_core c c')|]. right.
  rewrite <- (proj1 (CustodyFacts.core_eq _ _ E)). by apply (CustodyFacts.good_bundle_core c).
Qed.

Lemma situation_core d c c' op s : core c = core c' -> situation plain d c op s -> situation plain d c' op s.
Proof.
  intros E S. pose proof (fun k => CustodyFacts.live_core c c' k E) as L. pose proof (fun k => maybe_core c c' k E) as B.
  destruct S; econstructor; eauto using CustodyFacts.committing_core.
Qed.

(** Only the situation of the operation under way depends on the custody. *)
Lemma safe_custody d c c' :
  safe d c ->
  (forall k0 k1, live c k0 -> rows_under plain k0 d -> maybe_bundle c k1 -> exists k1', live c' k0 /\ maybe_bundle c' k1') ->
  (forall op o, under_way plain d c op o -> situation plain d c' op (effective o)) -> safe d c'.
Proof.
  intros [Hd [[Q (k0 & k1 & Q1 & Q2 & Q3)]|(op & o & U)]] H1 H2; (split; [done|]).
  - left. split; [done|]. destruct (H1 _ _ Q1 Q2 Q3) as (k1' & ? & ?). by exists k0, k1'.
  - right. exists op, o. pose proof (H2 _ _ U). destruct U as (U1 & U2 & U3 & U4 & _). by split_and!.
Qed.

Lemma safe_core d c c' : core c = core c' -> safe d c -> safe d c'.
Proof.
  intros E Hs. apply (safe_custody d c); [done| |].
  - intros k0 k1 L R B. exists k1. split; [by apply (CustodyFacts.live_core c) | by apply (maybe_core c)].
  - intros op o (_ & _ & _ & _ & S). by apply (situation_core d c).
Qed.

(** A custody call made for the operation that is in [s]. *)
Lemma safe_operation d c c' op o s :
  safe d c -> RewrapSql.operations d !! op = Some o -> RewrapSql.o_state o = s -> s <> RW_ABORTED -> s <> RW_RECOVERY_REQUIRED ->
  (situation plain d c op s -> situation plain d c' op s) -> safe d c'.
Proof.
  intros Hs Ho E N1 N2 H. destruct (safe_situation plain ids d c op o s) as (Hd & U & S); try done.
  split; [done|]. right. exists op, o. destruct U as (U1 & U2 & U3 & U4 & _). split_and!; try done.
  rewrite effective_state, E by congruence. auto.
Qed.

Lemma live_same c c' k : nv c' = nv c -> ResealCustody.nv_authvalue c' = ResealCustody.nv_authvalue c ->
  ResealCustody.blob c' = ResealCustody.blob c -> live c k -> live c' k.
Proof. unfold live. by intros -> -> ->. Qed.

Lemma prepare_situation d c c' op k rc : CustodyFacts.prepare_leaves c k rc c' ->
  situation plain d c op RW_PREPARING -> situation plain d c' op RW_PREPARING.
Proof.
  intros [[HC _]|(B & N & A & F & _ & G)] S; [apply (situation_core d c); [symmetry; apply HC | done]|].
  inversion S as [k0 k1 S1 S2 S3| | | | | |]. apply (in_preparing _ _ _ _ k0 k); [|done|by right].
  by apply (live_same c).
Qed.

(** What removing the bundle leaves. *)
Definition removed (c c' : custody) : Prop :=
  calm c c' \/ (nv c' = nv c /\ ResealCustody.nv_authvalue c' = ResealCustody.nv_authvalue c
                /\ ResealCustody.blob c' = ResealCustody.blob c /\ bundle c' = None /\ tpm2_get_kek c' = None).

Lemma removed_situation d c c' op s : s = RW_CUSTODY_PREPARED \/ s = RW_WRAPS_STAGED -> removed c c' ->
  situation plain d c op s -> situation plain d c' op s.
Proof.
  intros Hst [HC|(N & A & F & B & _)] S; [apply (situation_core d c); [symmetry; apply HC | done]|].
  pose proof (fun k => live_same c c' k N A F) as L.
  destruct S; destruct Hst; try done; econstructor; eauto; by left.
Qed.

End World.
End ResealWorld.
