(* ===== verification/ResealDrive.v ===== *)
(** * The driver keeps the vault readable

    The driver of [ResealRun] run on the world of [ResealWorld]: through every
    edge, whatever fails, the invariant of [ResealSafe] is kept. *)

From Stdlib Require Import ZArith Lia String Ascii.
From stdpp Require Import base numbers option list gmap.
From S2P Require Import Prelude Wire ResealReceipt MutationBudget Rewrap RewrapSql RewrapStore ResealCustody CustodyFacts ResealSafe ResealRun ResealWorld.

Module ResealDrive.
Import Rewrap ResealRun.
Import ResealCustody (vault_dek_wrap, vault_dek_unwrap, custody, bundle, tpm2_get_kek).
Import CustodyFacts (core, calm, looks, live, own_key, committing).
Import ResealSafe.
Import ResealWorld (on_store, on_custody, st, cust, db, cu, host, TX, held, pending, handle_idle).
Open Scope rewrap_scope.

Abbreviation V := (@vars ResealWorld.world TX).

Definition cus (s : V) : custody := cust (world s).
Definition sto (s : V) : RewrapStore.store := st (world s).
Definition dur (s : V) : RewrapSql.database := RewrapStore.durable (sto s).

Section Drive.
Context {HS : Sha256} {HT : Tpm2} {HK : KeyWrap}.
Variable plain : Z -> bytes.
Variable ids : list Z.
Local Abbreviation safe := (safe plain ids).

(** ** The invariant on the driver's variables *)

(** The key in memory is the one the vault opens with. *)
Definition cache_ok (c : custody) : Prop := forall k, tpm2_get_kek c = Some k -> live c k.

(** The new key in the workspace is the bundle's. *)
Definition workspace_ok (c : custody) (x : secret_workspace_t) : Prop :=
  has_new_kek x = true -> forall k, own_key c k -> k = new_kek x.

(** What else is known of the custody and the workspace. *)
Definition known := custody -> secret_workspace_t -> Prop.
Definition cored (G : known) : Prop := forall c c' x, core c = core c' -> G c x -> G c' x.
Definition nothing : known := fun _ _ => True.

(** In a transaction or not. *)
Definition within (out : option vault_reseal_orchestrator_output_t) (G : known) (s : V) : Prop :=
  ResealWorld.sound plain ids (cus s) (sto s) /\ cache_ok (cus s) /\ workspace_ok (cus s) (workspace s)
  /\ (forall t, tx s = Some t -> held plain ids (cus s) t (sto s)) /\ output s = out /\ G (cus s) (workspace s).

(** Outside. *)
Definition between (out : option vault_reseal_orchestrator_output_t) (G : known) (s : V) : Prop :=
  within out G s /\ handle_idle (tx s).

(** Nothing that the invariant is about changes. *)
Definition still (s s' : V) : Prop :=
  sto s' = sto s /\ calm (cus s) (cus s') /\ workspace s' = workspace s /\ tx s' = tx s /\ output s' = output s.
Definition closed (F : V -> Prop) : Prop := forall s s', still s s' -> F s -> F s'.

Lemma cache_calm c c' : calm c c' -> cache_ok c -> cache_ok c'.
Proof. intros [E K] H k Hk. apply (CustodyFacts.live_core c); [done|]. auto. Qed.

Lemma workspace_core c c' x : core c = core c' -> workspace_ok c x -> workspace_ok c' x.
Proof. intros E H Hx k Hk. apply (H Hx). by apply (CustodyFacts.own_key_core c'). Qed.

Lemma held_core c c' t w : core c = core c' -> held plain ids c t w -> held plain ids c' t w.
Proof.
  intros E [[H1 H3] H2]. split; [split; [by apply (ResealWorld.safe_core _ _ _ c) | done]|]. intros Ht. specialize (H2 Ht).
  unfold pending in *. destruct (RewrapStore.session w) as [[d b]|]; [by apply (ResealWorld.safe_core _ _ _ c) | done].
Qed.

Lemma within_closed out G : cored G -> closed (within out G).
Proof.
  intros HG s s' (E1 & E2 & E3 & E4 & E5) (H1 & H2 & H3 & H4 & H5 & H6).
  pose proof (eq_sym (proj1 E2)) as E. unfold within, dur. rewrite E1, E3, E4, E5. split_and!; try done.
  - split; [by apply (ResealWorld.safe_core _ _ _ (cus s)), H1 | apply H1].
  - by apply (cache_calm (cus s)).
  - by apply (workspace_core (cus s)).
  - intros t Ht. apply (held_core (cus s)); auto.
  - by apply (HG (cus s)).
Qed.

Lemma between_closed out G : cored G -> closed (between out G).
Proof.
  intros HG s s' Hs [H1 H2]. split; [by apply (within_closed out G HG s)|]. destruct Hs as (_ & _ & _ & -> & _). done.
Qed.

Lemma closed_and F F' : closed F -> closed F' -> closed (fun s => F s /\ F' s).
Proof. intros H1 H2 s s' Hs [A B]. split; eauto. Qed.

(** The operation is in a state. *)
Definition at_state (op : bytes) (x : kb_store_vault_rewrap_state_t) (s : V) : Prop :=
  exists o, RewrapSql.operations (dur s) !! op = Some o /\ RewrapSql.o_state o = x.

Lemma at_state_closed op x : closed (at_state op x).
Proof. intros s s' (E & _). unfold at_state, dur. by rewrite E. Qed.

Lemma between_weaken out (G G' : known) s : (forall c x, G c x -> G' c x) -> between out G s -> between out G' s.
Proof. intros H [(H1 & H2 & H3 & H4 & H5 & H6) H7]. split; [|done]. by split_and!; auto. Qed.

Lemma nothing_cored : cored nothing.
Proof. done. Qed.

(** ** Calls that look *)

Lemma call_still {A} (m : ResealWorld.world -> A * ResealWorld.world) (s : V) :
  (forall w, st (m w).2 = st w /\ calm (cust w) (cust (m w).2)) -> still s (call m s).2.
Proof.
  intros H. unfold call. specialize (H (world s)). destruct (m (world s)) as [a w]. cbn in H.
  destruct H as [E1 E2]. by split_and!.
Qed.

Lemma still_triple {A} F (m : M V A) : closed F -> (forall s, still s (m s).2) -> triple F m (fun _ s => F s).
Proof. intros HF Hm s Hs. by apply (HF s). Qed.

Lemma look_triple {A} F (m : M custody A) (Q : custody -> A -> Prop) :
  closed F -> (forall c, looks calm c m (Q c)) -> (forall c c' a, core c = core c' -> Q c a -> Q c' a) ->
  triple F (call (on_custody m)) (fun a s => F s /\ Q (cus s) a).
Proof.
  intros HF Hm HQ s Hs. destruct (Hm (cus s) (cus s) (reflexivity _)) as [H1 H2].
  unfold call, on_custody, cus in *. destruct (m (cust (world s))) as [a c]. cbn [fst snd] in *.
  split; [apply (HF s); [by split_and! | done]|]. cbn. apply (HQ (cust (world s))); [symmetry; apply H1 | done].
Qed.

Lemma look_only {A} F (m : M custody A) : closed F -> (forall c, looks calm c m CustodyFacts.any) ->
  triple F (call (on_custody m)) (fun _ s => F s).
Proof.
  intros HF Hm. eapply triple_weaken; [apply (look_triple F m (fun _ => CustodyFacts.any)); [done | done | done]|..]; naive_solver.
Qed.

Lemma allocate_triple F : closed F -> triple F (call ResealWorld.allocate) (fun _ s => F s).
Proof. intros HF. apply still_triple; [done|]. intros s. by apply call_still. Qed.

Lemma budget_advance_still (s : V) : still s (budget_advance host s).2.
Proof.
  unfold budget_advance. destruct (_ <? _); [|by split_and!].
  cbn. destruct (MutationBudget.vault_mutation_budget_progress _ _ _ _ _). by split_and!.
Qed.

Lemma budget_advance_triple F : closed F -> triple F (budget_advance host) (fun _ s => F s).
Proof. intros HF. apply still_triple; [done | apply budget_advance_still]. Qed.

Lemma bind_inventory_triple F a b d : closed F -> triple F (bind_inventory host a b d) (fun _ s => F s).
Proof.
  intros HF. apply still_triple; [done|]. intros s. unfold bind_inventory. cbn.
  destruct (MutationBudget.vault_mutation_budget_bind_inventory _ _ _ _ _). by split_and!.
Qed.

Lemma begin_cleanup_triple F : closed F -> triple F (begin_cleanup host) (fun _ s => F s).
Proof.
  intros HF. apply still_triple; [done|]. intros s. unfold begin_cleanup. cbn.
  destruct (MutationBudget.vault_mutation_budget_begin_cleanup _ _). by split_and!.
Qed.

(** ** Transactions *)

Lemma tx_begin_triple out G : triple (between out G) (do_tx_begin db)
  (fun r s => within out G s /\ (r <> DB_OK -> handle_idle (tx s))).
Proof.
  intros s [(H1 & H2 & H3 & H4 & H5 & H6) H7]. unfold do_tx_begin. cbn. unfold on_store.
  destruct (ResealWorld.tx_begin_held plain ids (cus s) (sto s) H1) as (B1 & B2 & B3).
  unfold sto in *. destruct (RewrapStore.tx_begin (st (world s))) as [[r t] w]. cbn in *.
  split; [|intros E x ->; by specialize (B3 E)]. by split_and!.
Qed.

Lemma tx_rollback_triple out G : triple (within out G) (do_tx_rollback db) (fun _ s => between out G s).
Proof.
  intros s (H1 & H2 & H3 & H4 & H5 & H6). unfold do_tx_rollback.
  change (Rewrap.tx_rollback db (tx s) (world s)) with (on_store (RewrapStore.tx_rollback (tx s)) (world s)).
  unfold on_store, RewrapStore.tx_rollback. destruct (tx s) as [t|] eqn:T.
  - destruct (ResealWorld.tx_end_held plain ids (cus s) false t (sto s) (H4 t eq_refl)) as [B1 B2].
    unfold sto in *. destruct (RewrapStore.tx_end false (Some t) (st (world s))) as [[r t'] w]. cbn in *.
    split; [|done]. split_and!; try done. intros x E. split; [done|]. intros X. by rewrite (B2 x E) in X.
  - split; [|done]. by split_and!.
Qed.

Lemma tx_commit_triple out G : triple (within out G) (do_tx_commit db) (fun _ s => between out G s).
Proof.
  intros s (H1 & H2 & H3 & H4 & H5 & H6). unfold do_tx_commit.
  change (Rewrap.tx_commit db (tx s) (world s)) with (on_store (RewrapStore.tx_commit (tx s)) (world s)).
  unfold on_store, RewrapStore.tx_commit. destruct (tx s) as [t|] eqn:T.
  - destruct (ResealWorld.tx_end_held plain ids (cus s) true t (sto s) (H4 t eq_refl)) as [B1 B2].
    unfold sto in *. destruct (RewrapStore.tx_end true (Some t) (st (world s))) as [[r t'] w]. cbn in *.
    split; [|done]. split_and!; try done. intros x E. split; [done|]. intros X. by rewrite (B2 x E) in X.
  - split; [|done]. by split_and!.
Qed.

Lemma tx_finish_triple out G edge : triple (within out G) (tx_finish db edge) (fun _ s => between out G s).
Proof.
  unfold tx_finish. destruct (negb _).
  - eapply triple_bind; [apply tx_rollback_triple|]. intros u. by apply triple_ret.
  - eapply triple_bind; [apply tx_commit_triple|]. intros r.
    eapply triple_bind with (R := fun _ s => between out G s); [|intros u; by apply triple_ret].
    intros s Hs. case_bool_decide; [|done]. apply tx_rollback_triple. by destruct Hs.
Qed.

(** A statement on the handle; what it answers is of the custody. *)
Lemma on_tx_triple {A} out (G : known) (nil : A) (f : TX -> ResealWorld.world -> A * TX * ResealWorld.world)
    (Q : custody -> A -> Prop) :
  (forall t w x, G (cust w) x -> held plain ids (cust w) t (st w) ->
     held plain ids (cust w) (f t w).1.2 (st (f t w).2) /\ cust (f t w).2 = cust w /\ Q (cust w) (f t w).1.1) ->
  (forall c, Q c nil) ->
  triple (within out G) (on_tx nil f) (fun a s => within out G s /\ Q (cus s) a).
Proof.
  intros Hf Hn s (H1 & H2 & H3 & H4 & H5 & H6). unfold on_tx. destruct (tx s) as [t|] eqn:T.
  - specialize (Hf t (world s) (workspace s) H6 (H4 t eq_refl)).
    destruct (f t (world s)) as [[a t'] w]. cbn [fst snd] in *. destruct Hf as (B1 & B2 & B3).
    split; [|unfold cus; cbn; by rewrite B2]. unfold within, cus, dur, sto. cbn. rewrite B2. split_and!; try done; [apply B1|].
    by intros x [= <-].
  - split; [|apply Hn]. split_and!; try done. cbn. by rewrite T.
Qed.

Definition always {X A} (_ : X) (_ : A) : Prop := True.

(** One that answers a result only. *)
Lemma on_tx_simple {A} out (G : known) (nil : A) (f : TX -> RewrapStore.store -> A * TX * RewrapStore.store) :
  (forall c t w x, G c x -> held plain ids c t w -> held plain ids c (f t w).1.2 (f t w).2) ->
  triple (within out G) (on_tx nil (fun t => on_store (f t))) (fun _ s => within out G s).
Proof.
  intros Hf. eapply triple_weaken; [apply (on_tx_triple out G nil _ always); [|done]|done|by intros a s [H _]].
  intros t w x Hx Hh. specialize (Hf (cust w) t (st w) x Hx Hh). unfold on_store.
  destruct (f t (st w)) as [[a t'] w']. by split_and!.
Qed.

Lemma in_tx_triple out G (f : TX -> RewrapStore.store -> kb_store_vault_rewrap_result_t * TX * RewrapStore.store) :
  (forall c t w x, G c x -> held plain ids c t w -> held plain ids c (f t w).1.2 (f t w).2) ->
  triple (between out G) (in_tx db (fun t => on_store (f t))) (fun _ s => between out G s).
Proof.
  intros Hf. eapply triple_bind; [apply tx_begin_triple|]. intros r.
  eapply triple_bind with (R := fun _ s => within out G s).
  { case_bool_decide; [|apply triple_ret; by intros s [Hs _]].
    eapply triple_weaken; [by apply on_tx_simple | by intros s [Hs _] | done]. }
  intros r'. eapply triple_bind; [apply tx_finish_triple|]. intros o. by apply triple_ret.
Qed.

Lemma terminal_edge_triple out G s failure aborting :
  triple (between out G) (terminal_edge db s failure aborting) (fun _ s => between out G s).
Proof.
  unfold terminal_edge. eapply triple_bind with (R := fun _ s => between out G s); [|intros x; by apply triple_ret].
  destruct aborting; apply in_tx_triple; intros; [by apply ResealWorld.abort_held | by apply ResealWorld.recovery_held].
Qed.

Lemma or_terminal_triple out G s failure when r :
  triple (between out G) (or_terminal db s failure when r) (fun _ s => between out G s).
Proof. unfold or_terminal. destruct (when r); [apply terminal_edge_triple | by apply triple_ret]. Qed.

(** ** Code that keeps an assertion *)

Definition holds {A} (I : V -> Prop) (m : M V A) : Prop := triple I m (fun _ s => I s).

Lemma holds_ret {A} I (a : A) : holds I (ret a).
Proof. by apply triple_ret. Qed.

Lemma holds_bind {A B} I (m : M V A) (k : A -> M V B) : holds I m -> (forall a, holds I (k a)) -> holds I (bind m k).
Proof. intros Hm Hk. eapply triple_bind; [exact Hm|]. intros a. apply Hk. Qed.

Lemma holds_try {E A B} I (m : M V (E + A)) (k : A -> M V (E + B)) :
  holds I m -> (forall a, holds I (k a)) -> holds I (try_ m k).
Proof. intros Hm Hk. apply holds_bind; [done|]. intros [e|a]; [apply holds_ret | apply Hk]. Qed.

Lemma holds_check_db I r : holds I (check_db r).
Proof. unfold check_db, fail. case_bool_decide; apply holds_ret. Qed.

Lemma holds_check I b r : holds I (check b r).
Proof. unfold check, fail. destruct b; apply holds_ret. Qed.

Lemma holds_advance_or out G r : cored G -> holds (within out G) (advance_or host r).
Proof. intros HG. apply holds_bind; [by apply budget_advance_triple, within_closed|]. intros b. apply holds_check. Qed.

(** ** Staging *)

(** The row's data key is the one [k] gives. *)
Definition row_ok (k : bytes) (row : kb_store_vault_rewrap_secret_t) : Prop :=
  vault_dek_unwrap k (wrapped_dek row) = Some (plain (source_id row)).

Lemma decode_secrets_in verify after rows l row : RewrapStore.decode_secrets verify after rows = Some l -> row ∈ l ->
  exists r, (source_id row, r) ∈ rows /\ wrapped_dek row = RewrapSql.s_wrapped_dek r.
Proof.
  revert after l. induction rows as [|[id r] rows IH]; intros after l; cbn.
  - intros [= <-] H. by apply elem_of_nil in H.
  - destruct (_ && _); [|done]. destruct (RewrapStore.decode_secrets verify id rows) as [rest|] eqn:E; [|done].
    intros [= <-] [->|H]%elem_of_cons.
    + exists r. split; [|done]. cbn. constructor.
    + destruct (IH id rest E H) as (r' & H1 & H2). exists r'. split; [by constructor | done].
Qed.

Lemma source_page_rows c k op f a l t w : held plain ids c t w -> live c k ->
  let z := RewrapStore.source_secret_page op f a l t w in z.1.1.1 = DB_OK -> Forall (row_ok k) z.1.1.2.
Proof.
  intros [Hs Hp] Hk. unfold RewrapStore.source_secret_page.
  destruct (RewrapStore.in_phase (RewrapStore.to_staging t) RewrapStore.TX_STAGING) eqn:P; cbn [negb orb]; [|done].
  destruct (_ || _); [done|]. apply ResealWorld.phase_valid in P; [|done]. rewrite ResealWorld.staging_valid in P.
  specialize (Hp P). unfold RewrapStore.secret_page. destruct (_ || _); [done|].
  destruct (RewrapStore.query _ w) as [[e|rows] w'] eqn:Q.
  { apply ResealWorld.query_error in Q. case_bool_decide; by intros. }
  destruct (_ <? _); [done|]. destruct (RewrapStore.decode_secrets _ _ _) as [l'|] eqn:D; [|done]. cbn.
  intros _. apply Forall_forall. intros row Hrow.
  destruct (decode_secrets_in _ _ _ _ _ D Hrow) as (r & Hin & Hw).
  destruct (ResealWorld.query_answer plain ids c _ w _ _ Hs Hp Q) as (d & d' & Hd & Ed).
  apply secret_page_read in Ed as (-> & (o & Ho & Est) & Hsub). apply Hsub in Hin.
  destruct (safe_situation plain ids d c op o RW_CUSTODY_PREPARED) as (_ & _ & S); try done.
  inversion S as [|k0 k1 S1 S2 _ _| | | | |]. rewrite (CustodyFacts.live_fun c k k0) by done.
  unfold row_ok. rewrite Hw. unfold rows_under in S2. rewrite Forall_forall in S2. apply (S2 _ Hin).
Qed.

(** What staging needs: the keys of both generations. *)
Definition staging (k0 : bytes) : known := fun c x => bundle_has c (new_kek x) /\ live c k0.

Lemma bundle_has_core c c' k : core c = core c' -> bundle_has c k -> bundle_has c' k.
Proof.
  intros E [H1 H2]. split; [by rewrite <- (CustodyFacts.bundle_of_core c c')|]. intros k' Hk. apply H2.
  by apply (CustodyFacts.own_key_core c').
Qed.

Lemma staging_cored k0 : cored (staging k0).
Proof. intros c c' x E [H1 H2]. split; [by apply (bundle_has_core c) | by apply (CustodyFacts.live_core c)]. Qed.

(** The workspace a step starts with stays. *)
Definition fixed (G : known) (x : secret_workspace_t) : known := fun c y => G c y /\ y = x.

Lemma fixed_cored G x : cored G -> cored (fixed G x).
Proof. intros HG c c' y E [H1 H2]. split; [by apply (HG c) | done]. Qed.

Lemma holds_fixed {A} out G (m : V -> M V A) :
  (forall x s, workspace s = x -> within out (fixed G x) s -> within out (fixed G x) (m s s).2) ->
  holds (within out G) (fun s => m s s).
Proof.
  intros H s Hs. destruct (H (workspace s) s) as (H1 & H2 & H3 & H4 & H5 & H6 & H7); [done| |by split_and!].
  destruct Hs as (H1 & H2 & H3 & H4 & H5 & H6). by split_and!.
Qed.


Lemma stage_secret_holds out op fence k0 count row after seen : row_ok k0 row ->
  holds (within out (staging k0)) (stage_secret db cu host op fence k0 count row after seen).
Proof.
  intros Hrow. unfold stage_secret. apply (holds_fixed out (staging k0) (fun s0 => _)). intros x s Hx. rewrite Hx.
  pose proof (fixed_cored _ x (staging_cored k0)) as HC. set (I := within out (fixed (staging k0) x)) in *.
  enough (H : holds I (if source_id row <=? after then fail DB_INTEGRITY else
     match vault_dek_unwrap k0 (wrapped_dek row) with
     | None => fail DB_INTEGRITY
     | Some dek => match vault_dek_wrap (new_kek x) dek with
         | None => fail DB_INTEGRITY
         | Some wrapped =>
             r <- on_tx DB_INVALID (Rewrap.stage_dek db op fence row wrapped) ;;
             check_db r ?;
             (if (seen =? INT64_MAX) || (count <? seen + 1) then fail DB_INTEGRITY
              else advance_or host DB_INTEGRITY ?; ret (inr (source_id row, seen + 1))) end end)) by apply H.
  destruct (_ <=? _); [apply holds_ret|]. rewrite Hrow.
  destruct (vault_dek_wrap (new_kek x) _) as [wrapped|] eqn:W; [|apply holds_ret]. apply CustodyFacts.vault_dek_unwrap_wrap in W.
  apply holds_bind.
  { apply on_tx_simple. intros c t w y [[Hb _] ->] Hh. by apply (ResealWorld.stage_dek_held _ _ _ _ _ _ _ (new_kek x)). }
  intros r. apply holds_try; [apply holds_check_db|]. intros u. destruct (_ || _); [apply holds_ret|].
  apply holds_try; [by apply holds_advance_or|]. intros u'. apply holds_ret.
Qed.

Lemma stage_secrets_holds out op fence k0 count rows after seen : Forall (row_ok k0) rows ->
  holds (within out (staging k0)) (stage_secrets db cu host op fence k0 count rows after seen).
Proof.
  intros Hr. revert after seen. induction Hr as [|row rows Hrow _ IH]; intros after seen; cbn [stage_secrets]; [apply holds_ret|].
  apply holds_try; [by apply stage_secret_holds|]. intros x. apply IH.
Qed.

Lemma source_page_triple out k0 op fence after :
  triple (within out (staging k0))
    (on_tx (DB_INVALID, []) (fun t w =>
       let '(r, rows, t, w) := Rewrap.source_secret_page db op fence after 128 t w in ((r, rows), t, w)))
    (fun p s => within out (staging k0) s /\ (p.1 = DB_OK -> Forall (row_ok k0) p.2)).
Proof.
  apply (on_tx_triple out (staging k0) _ _ (fun _ p => p.1 = DB_OK -> Forall (row_ok k0) p.2)); [|done].
  intros t w x [_ Hk] Hh.
  change (Rewrap.source_secret_page db op fence after 128 t w)
    with (on_store (RewrapStore.source_secret_page op fence after 128 t) w).
  unfold on_store. pose proof (ResealWorld.source_secret_page_held plain ids (cust w) op fence after 128 t (st w) Hh) as H1.
  pose proof (source_page_rows (cust w) k0 op fence after 128 t (st w) Hh Hk) as H2.
  destruct (RewrapStore.source_secret_page op fence after 128 t (st w)) as [[[r rows] t'] w']. by split_and!.
Qed.

Lemma secret_loop_holds out op fence k0 count fuel after seen :
  holds (within out (staging k0)) (secret_page_loop db cu host op fence k0 count fuel after seen).
Proof.
  revert after seen. induction fuel as [|fuel IH]; intros after seen; cbn [secret_page_loop]; [apply holds_ret|].
  eapply triple_bind; [apply source_page_triple|]. intros [r rows]. cbn [fst snd].
  apply triple_weaken with (P := fun s => (r = DB_OK -> Forall (row_ok k0) rows) /\ within out (staging k0) s)
    (Q := fun _ s => within out (staging k0) s); [|naive_solver|done]. apply triple_pure. intros Hrows.
  unfold check_db. case_bool_decide as E; [|apply holds_ret]. apply holds_try; [apply holds_ret|]. intros u.
  destruct (_ <? _)%nat; [apply holds_ret|]. destruct rows as [|row rows]; [apply holds_ret|].
  apply holds_try; [by apply stage_secrets_holds, Hrows|]. intros x. apply IH.
Qed.

(** The checks carry no key that a row depends on. *)
Lemma on_tx_page {A} out (G : known) (nil : kb_store_vault_rewrap_result_t * A)
    (f : TX -> RewrapStore.store -> kb_store_vault_rewrap_result_t * A * TX * RewrapStore.store) :
  (forall c t w, held plain ids c t w -> held plain ids c (f t w).1.2 (f t w).2) ->
  holds (within out G) (on_tx nil (fun t w => let '(r, page, t, w) := on_store (f t) w in ((r, page), t, w))).
Proof.
  intros Hf. eapply triple_weaken; [apply (on_tx_triple out G nil _ always); [|done]|done|by intros a s [H _]].
  intros t w x Hx Hh. specialize (Hf (cust w) t (st w) Hh). unfold on_store.
  destruct (f t (st w)) as [[[r a] t'] w']. by split_and!.
Qed.

Lemma stage_check_row_holds out op fence k0 count row seen :
  holds (within out (staging k0)) (stage_check_row db cu host op fence k0 count row seen).
Proof.
  assert (S : forall wrapped, holds (within out (staging k0))
    (r <- on_tx DB_INVALID (Rewrap.stage_check db op fence row wrapped) ;;
     check_db r ?;
     (if (seen =? INT64_MAX) || (count <? seen + 1) then fail DB_INTEGRITY
      else advance_or host DB_INTEGRITY ?; ret (inr (seen + 1))))).
  { intros wrapped. apply holds_bind; [apply on_tx_simple; intros; by apply ResealWorld.stage_check_held|].
    intros r. apply holds_try; [apply holds_check_db|]. intros u. destruct (_ || _); [apply holds_ret|].
    apply holds_try; [apply holds_advance_or, staging_cored|]. intros u'. apply holds_ret. }
  intros s Hs. unfold stage_check_row. cbn zeta. destruct (kek_check row); [by apply S|].
  destruct (negb _ || negb _); [exact Hs|]. destruct (Rewrap.check_wrap _ _); [by apply S | exact Hs].
Qed.

Lemma stage_checks_holds out op fence k0 count rows seen :
  holds (within out (staging k0)) (stage_checks db cu host op fence k0 count rows seen).
Proof.
  revert seen. induction rows as [|row rows IH]; intros seen; cbn [stage_checks]; [apply holds_ret|].
  apply holds_try; [apply stage_check_row_holds|]. intros x. apply IH.
Qed.

Lemma check_loop_holds out op fence k0 count fuel cursor seen :
  holds (within out (staging k0)) (check_page_loop db cu host op fence k0 count fuel cursor seen).
Proof.
  revert cursor seen. induction fuel as [|fuel IH]; intros cursor seen; cbn [check_page_loop]; [apply holds_ret|].
  apply holds_bind; [apply on_tx_page; intros; by apply ResealWorld.source_check_page_held|]. intros [r [rows next]].
  apply holds_try; [apply holds_check_db|]. intros u. cbn [snd]. destruct (_ <? _)%nat; [apply holds_ret|].
  destruct rows as [|row rows]; [apply holds_ret|]. destruct (negb _); [apply holds_ret|].
  apply holds_try; [apply stage_checks_holds|]. intros x. apply IH.
Qed.

Lemma stage_body_holds out k0 sn : holds (within out (staging k0)) (stage_body db cu host sn k0).
Proof.
  unfold stage_body. apply holds_bind; [apply on_tx_page; intros; by apply ResealWorld.inventory_held|]. intros [r inv].
  apply holds_try; [apply holds_check_db|]. intros u. cbn zeta.
  apply holds_bind; [by apply bind_inventory_triple, within_closed, staging_cored|]. intros ok.
  apply holds_try; [apply holds_check|]. intros u1. apply holds_try; [apply holds_advance_or, staging_cored|]. intros u2.
  apply holds_try; [apply secret_loop_holds|]. intros n. apply holds_try; [apply check_loop_holds|]. intros m.
  apply holds_try; [apply holds_check|]. intros u3. apply holds_ret.
Qed.

(** The frame of both callbacks. *)
Lemma callback_holds {A} out (G : known) (body : M V (kb_store_vault_rewrap_result_t + A)) last : cored G ->
  holds (within out G) body -> (forall a, holds (within out G) (last a)) -> holds (between out G) (callback db host body last).
Proof.
  intros HG Hb Hl. unfold callback. pose proof (between_closed out G HG) as HC.
  apply holds_bind; [by apply allocate_triple|]. intros b1. apply holds_bind; [by apply allocate_triple|]. intros b2.
  destruct (negb _); [apply holds_ret|]. eapply triple_bind; [apply tx_begin_triple|]. intros r.
  case_bool_decide as E; cbn [negb]; [|apply triple_ret; intros s [H1 H2]; split; auto].
  eapply triple_bind with (R := fun _ s => within out G s); [eapply triple_weaken; [exact Hb | by intros s [H _] | done]|].
  intros [e|a]; [eapply triple_bind; [apply tx_rollback_triple|]; intros u; apply holds_ret|].
  eapply triple_bind; [apply Hl|]. intros r'.
  eapply triple_bind with (R := fun _ s => within out G s); [|intros r2; apply tx_finish_triple].
  destruct (bool_decide _); [|by apply triple_ret].
  eapply triple_bind; [by apply budget_advance_triple, within_closed|]. intros ok. by apply triple_ret.
Qed.

Lemma stage_callback_holds out k0 sn : holds (between out (staging k0)) (stage_callback db cu host sn k0).
Proof.
  apply callback_holds; [apply staging_cored | apply stage_body_holds|]. intros inv.
  apply on_tx_simple. intros. by apply ResealWorld.stage_finish_held.
Qed.

(** ** Verifying *)

Lemma verify_secret_loop_holds out G op fence k count fuel after seen : cored G ->
  holds (within out G) (verify_secret_loop db cu host op fence k count fuel after seen).
Proof.
  intros HG. revert after seen. induction fuel as [|fuel IH]; intros after seen; cbn [verify_secret_loop];
    (destruct (_ <=? _); [apply holds_ret|]); [apply holds_ret|].
  apply holds_bind; [apply on_tx_page; intros; by apply ResealWorld.verify_secret_page_held|]. intros [r rows].
  apply holds_try; [apply holds_check_db|]. intros u. destruct (_ || _); [apply holds_ret|].
  destruct (verify_secrets _ _ _ _); [|apply holds_ret].
  apply holds_try; [by apply holds_advance_or|]. intros u'. apply IH.
Qed.

Lemma verify_check_loop_holds out G op fence k count fuel cursor seen : cored G ->
  holds (within out G) (verify_check_loop db cu host op fence k count fuel cursor seen).
Proof.
  intros HG. revert cursor seen. induction fuel as [|fuel IH]; intros cursor seen; cbn [verify_check_loop];
    (destruct (_ <=? _); [apply holds_ret|]); [apply holds_ret|].
  apply holds_bind; [apply on_tx_page; intros; by apply ResealWorld.verify_check_page_held|]. intros [r [rows next]].
  apply holds_try; [apply holds_check_db|]. intros u. cbn [snd]. destruct (_ || _); [apply holds_ret|].
  destruct (negb _); [apply holds_ret|]. apply holds_try; [by apply holds_advance_or|]. intros u'. apply IH.
Qed.

Lemma verify_body_holds out G k sn : cored G -> holds (within out G) (verify_body db cu host sn k).
Proof.
  intros HG. unfold verify_body. apply holds_bind; [apply on_tx_page; intros; by apply ResealWorld.verify_summary_held|]. intros [r sum].
  apply holds_try; [apply holds_check_db|]. intros u. cbn zeta.
  apply holds_bind; [by apply bind_inventory_triple, within_closed|]. intros ok.
  apply holds_try; [apply holds_check|]. intros u1. apply holds_try; [by apply holds_advance_or|]. intros u2.
  apply holds_try; [by apply verify_secret_loop_holds|]. intros a.
  apply holds_bind; [apply on_tx_page; intros; by apply ResealWorld.verify_secret_page_held|]. intros p.
  apply holds_try; [apply holds_check_db|]. intros u3. apply holds_try; [apply holds_check|]. intros u4.
  apply holds_try; [by apply verify_check_loop_holds|]. intros b.
  apply holds_bind; [apply on_tx_page; intros; by apply ResealWorld.verify_check_page_held|]. intros q.
  apply holds_try; [apply holds_check_db|]. intros u5. apply holds_try; [apply holds_check|]. intros u6.
  apply holds_try; [apply holds_check|]. intros u7. apply holds_ret.
Qed.

Lemma verify_callback_holds out G k sn : cored G -> holds (between out G) (verify_callback db cu host sn k).
Proof.
  intros HG. apply callback_holds; [done | by apply verify_body_holds|]. intros sum. cbn zeta.
  apply holds_bind; [apply on_tx_simple; intros; by apply ResealWorld.verify_ack_held|]. intros r.
  destruct (bool_decide _); [|apply holds_ret]. apply on_tx_simple. intros. by apply ResealWorld.complete_held.
Qed.

(** ** Calls on the custody *)

Lemma unseal_holds out G secret : cored G -> holds (between out G) (call (Rewrap.guard_unseal cu secret)).
Proof.
  intros HG s [(H1 & H2 & H3 & H4 & H5 & H6) H7].
  change (Rewrap.guard_unseal cu secret) with (on_custody (ResealCustody.vault_maintenance_guard_unseal secret)).
  unfold call, on_custody. destruct (CustodyFacts.guard_unseal_says (cus s) secret) as [E K].
  unfold cus in *. destruct (ResealCustody.vault_maintenance_guard_unseal secret (cust (world s))) as [r c]. cbn in E, K |- *.
  symmetry in E. split; [|done]. unfold within, cus, dur, sto in *. cbn. split_and!; try done.
  - split; [by apply (ResealWorld.safe_core _ _ _ (cust (world s))), H1 | apply H1].
  - intros k Hk. apply (CustodyFacts.live_core (cust (world s))); [done|]. destruct (K k Hk); auto.
  - by apply (workspace_core (cust (world s))).
  - intros t Ht. by apply (held_core (cust (world s))); auto.
  - by apply (HG (cust (world s))).
Qed.

(** A look, and what it says of the custody from then on. *)
Lemma look_known {A} out (G : known) (m : M custody A) (Q : A -> known) :
  cored G -> (forall a, cored (Q a)) ->
  (forall c x, cache_ok c -> G c x -> looks calm c m (fun a => Q a c x)) ->
  triple (between out G) (call (on_custody m)) (fun a s => between out (fun c x => G c x /\ Q a c x) s).
Proof.
  intros HG HQ Hm s Hs. pose proof Hs as [(H1 & H2 & H3 & H4 & H5 & H6) H7].
  destruct (Hm (cus s) (workspace s) H2 H6 (cus s) (reflexivity _)) as [E K].
  unfold call, on_custody, cus in *. destruct (m (cust (world s))) as [a c]. cbn [fst snd] in *.
  assert (HC : cored (fun c x => G c x /\ Q a c x)).
  { intros c1 c2 x Ec [A1 A2]. split; [by apply (HG c1) | by apply (HQ a c1)]. }
  apply (between_closed out _ HC s); [by split_and!|]. split; [|done]. by split_and!.
Qed.

Lemma active_kek_triple out G : cored G ->
  triple (between out G) (call (Rewrap.guard_active_kek cu))
    (fun a s => between out (fun c x => G c x /\ forall k, a = inr k -> live c k) s).
Proof.
  intros HG. apply (look_known out G _ (fun a c x => forall k, a = inr k -> live c k)); [done| |].
  - intros a c c' x E H k Hk. apply (CustodyFacts.live_core c); auto.
  - intros c x Hc _. eapply CustodyFacts.looks_mono; [apply CustodyFacts.guard_kek_calm|]. cbn. intros a Ha k Hk. auto.
Qed.

Lemma with_active_kek_holds out (G : known) cb : cored G ->
  (forall k, holds (between out (fun c x => G c x /\ live c k)) (cb k)) -> holds (between out G) (with_active_kek cu cb).
Proof.
  intros HG Hcb. eapply triple_bind; [by apply active_kek_triple|]. intros [e|k].
  - apply triple_ret. intros s. apply between_weaken. naive_solver.
  - eapply triple_bind with (R := fun _ s => between out G s); [|intros r; by apply triple_ret].
    eapply triple_weaken; [apply (Hcb k)|..].
    + intros s. apply between_weaken. naive_solver.
    + intros a s. apply between_weaken. naive_solver.
Qed.

(** The new key in hand. *)
Lemma recover_triple out (G : known) r secret : (forall c x y, G c x -> G c y) -> cored G ->
  triple (between out G) (recover cu r secret)
    (fun a s => between out (fun c x => G c x /\ (a = CU_OK -> forall k, own_key c k -> k = new_kek x)) s).
Proof.
  intros HW HG. unfold recover.
  eapply triple_bind with (R := fun a s => between out (fun c x => G c x /\ (a.1 = CU_OK -> own_key c a.2)) s).
  { apply (look_known out G _ (fun a c x => a.1 = CU_OK -> own_key c a.2)); [done| |].
    - intros a c c' x E H Ha. apply (CustodyFacts.own_key_core c); auto.
    - intros c x _ _. apply CustodyFacts.recover_kek_says. }
  intros a. eapply triple_bind with (R := fun _ s =>
    between out (fun c x => G c x /\ (a.1 = CU_OK -> forall k, own_key c k -> k = new_kek x)) s); [|intros u; by apply triple_ret].
  intros s [(H1 & H2 & H3 & H4 & H5 & H6 & H8) H7]. split; [|done].
  assert (F : a.1 = CU_OK -> forall k, own_key (cus s) k -> k = a.2).
  { intros Ha k (b & L & Hk). destruct (H8 Ha) as (b' & L' & Hk'). rewrite (CustodyFacts.loaded_fun (cus s) b b') in Hk by done. congruence. }
  split_and!; try done.
  - intros Hx. cbn in Hx. apply bool_decide_eq_true in Hx. apply (F Hx).
  - by apply (HW _ (workspace s)).
Qed.

(** ** The edges *)

Abbreviation anytime out := (between out nothing).

Lemma forget {A} out (G : known) P (m : M V A) : triple P m (fun _ s => between out G s) -> triple P m (fun _ s => anytime out s).
Proof. intros H. eapply triple_weaken; [exact H | done|]. intros a s. by apply between_weaken. Qed.

Definition present : known := fun c _ => bundle c <> None.
Definition ready : known := fun c x => bundle_has c (new_kek x).

Lemma present_cored : cored present.
Proof. intros c c' x E. unfold present. by rewrite (CustodyFacts.bundle_of_core c c'). Qed.
Lemma ready_cored : cored ready.
Proof. intros c c' x E. by apply bundle_has_core. Qed.

Lemma staging_rest out sn secret :
  holds (between out ready)
    (u <- call (Rewrap.guard_unseal cu secret) ;;
     if negb (bool_decide (u = VM_OK)) then ret (guard_operation_result u)
     else r <- with_active_kek cu (stage_callback db cu host sn) ;; or_terminal db sn "source_integrity" is_integrity r).
Proof.
  apply holds_bind; [apply unseal_holds, ready_cored|]. intros u. destruct (negb _); [apply holds_ret|].
  apply holds_bind; [|intros r; apply or_terminal_triple].
  apply with_active_kek_holds; [apply ready_cored|]. intros k. apply (stage_callback_holds out k).
Qed.

Lemma staging_edge_triple out sn r secret :
  triple (between out present) (staging_edge db cu host sn r secret) (fun _ s => anytime out s).
Proof.
  intros s Hs. unfold staging_edge. destruct (has_new_kek (workspace s)) eqn:W.
  - apply (forget out ready (between out ready) _ (staging_rest out sn secret)).
    destruct Hs as [(H1 & H2 & H3 & H4 & H5 & H6) H7]. split; [|done]. split_and!; try done.
    split; [done|]. by apply H3.
  - apply (triple_bind (between out present) (recover cu r secret) _ _ (fun _ s => anytime out s)
      (recover_triple out present r secret ltac:(done) present_cored)); [|done].
    intros a. case_bool_decide as E; cbn [negb].
    + eapply triple_weaken; [apply (forget out ready), (staging_rest out sn secret)| |done].
      intros s'. apply between_weaken. intros c x [H1 H2]. split; auto.
    + eapply (triple_weaken (anytime out)); [apply or_terminal_triple| |done]. intros s'. apply between_weaken; done.
Qed.

Lemma at_state_situation out G op x s : between out G s -> at_state op x s -> x <> RW_ABORTED -> x <> RW_RECOVERY_REQUIRED ->
  exists o, RewrapSql.operations (dur s) !! op = Some o /\ RewrapSql.o_state o = x /\ length op = 16%nat
    /\ situation plain (dur s) (cus s) op x.
Proof.
  intros [([H1 _] & _) _] (o & Ho & E) N1 N2. destruct (safe_situation plain ids (dur s) (cus s) op o x) as (D & _ & S); try done.
  exists o. split_and!; try done. destruct D as (_ & D & _). by apply (D op o).
Qed.

(** A call that changes the custody and keeps its invariants. *)
Lemma between_custody out (G : known) (s : V) c :
  between out nothing s -> safe (dur s) c -> cache_ok c -> workspace_ok c (workspace s) -> G c (workspace s) ->
  between out G (set_world (ResealWorld.set_custody c (world s)) s).
Proof.
  intros [(H1 & H2 & H3 & H4 & H5 & H6) H7] B1 B2 B3 B4. split; [|done].
  assert (B : ResealWorld.sound plain ids c (sto s)) by (split; [exact B1 | apply H1]). split_and!; try done.
  intros t Ht. split; [exact B|]. intros X. by rewrite (H7 t Ht) in X.
Qed.

Lemma installed_core c c' : core c = core c' -> installed c -> installed c'.
Proof.
  intros E (k0 & k1 & H1 & H2). exists k0, k1. split; [by apply (CustodyFacts.committing_core _ _ c) | by apply (CustodyFacts.live_core c)].
Qed.

Lemma good_bundle_own c k g : CustodyFacts.good_bundle c k g -> own_key c k.
Proof. intros (b & L & H1 & _ & H3 & _). exists b. split; [done|]. by rewrite H1. Qed.

Lemma commit_triple out op r secret :
  triple (fun s => anytime out s /\ at_state op RW_RESEAL_COMMITTING s) (call (Rewrap.commit cu r secret))
    (fun a s => between out (fun c _ => a = (CU_OK, TPM_INSTALLED) -> installed c) s).
Proof.
  intros s [Hs Ha]. destruct (at_state_situation _ _ _ _ _ Hs Ha) as (o & Ho & Est & _ & S); [done..|].
  inversion S as [| | |k0 k1 S1 S2 S3 S4| | |]. pose proof Hs as [([H1 _] & H2 & H3 & _) _].
  destruct (CustodyFacts.commit_call_says k0 k1 r secret (cus s) (conj S1 H2)) as (C1 & C2 & C3).
  change (Rewrap.commit cu r secret) with (on_custody (ResealCustody.vault_custody_tpm2_reseal_commit r secret)).
  unfold call, on_custody, cus in *.
  destruct (ResealCustody.vault_custody_tpm2_reseal_commit r secret (cust (world s))) as [a c]. cbn [fst snd] in *.
  apply between_custody; try done.
  - apply (ResealWorld.safe_operation plain ids _ (cust (world s)) c op o RW_RESEAL_COMMITTING); try done.
    intros _. by apply (in_committing _ _ _ _ k0 k1).
  - intros Hx k Hk. apply committing_bundle in C1 as (g & G1). apply committing_bundle in S1 as (g' & G2).
    rewrite <- (CustodyFacts.good_own c k1 g k G1 Hk). apply (H3 Hx). by apply (good_bundle_own _ _ g').
  - intros E. exists k0, k1. auto.
Qed.

Lemma committing_edge_triple out sn r secret :
  triple (fun s => anytime out s /\ at_state (ss_operation_id sn) RW_RESEAL_COMMITTING s)
    (committing_edge db cu sn r secret) (fun _ s => anytime out s).
Proof.
  eapply triple_bind; [apply commit_triple|]. intros [cr inst].
  case_bool_decide as E1; cbn [negb].
  2: { eapply (triple_weaken (anytime out)); [apply or_terminal_triple| |done]. intros s'. by apply between_weaken. }
  case_bool_decide as E2; cbn [negb].
  2: { eapply (triple_weaken (anytime out)); [apply terminal_edge_triple| |done]. intros s'. by apply between_weaken. }
  apply (forget out (fun c _ => installed c)).
  apply (triple_weaken (between out (fun c _ => installed c)) _ _ (fun _ s => between out (fun c _ => installed c) s));
    [|intros s; apply between_weaken; intros c x H; apply H; by subst | done].
  apply holds_bind; [|intros y; apply or_terminal_triple]. apply in_tx_triple. intros c t w x Hi Hh.
  apply ResealWorld.single_state_held; [by apply mark_resealed_keeps | done].
Qed.

Lemma custody_abort_triple out op x r secret : x = RW_CUSTODY_PREPARED \/ x = RW_WRAPS_STAGED ->
  triple (fun s => anytime out s /\ at_state op x s) (call (Rewrap.custody_abort cu r secret)) (fun _ s => anytime out s).
Proof.
  intros Hx s [Hs Ha]. destruct (at_state_situation _ _ _ _ _ Hs Ha) as (o & Ho & Est & _ & S);
    [destruct Hx; congruence | destruct Hx; congruence|].
  pose proof (CustodyFacts.remove_says (cus s) TPM_PREPARED TPM_ABSENT r secret) as R. cbn zeta in R.
  change (Rewrap.custody_abort cu r secret) with (on_custody (ResealCustody.remove_if TPM_PREPARED TPM_ABSENT r secret)).
  unfold call, on_custody, cus in *.
  destruct (ResealCustody.remove_if TPM_PREPARED TPM_ABSENT r secret (cust (world s))) as [a c]. cbn [fst snd] in *.
  pose proof Hs as [([H1 _] & H2 & H3 & _) _]. apply between_custody; try done.
  - apply (ResealWorld.safe_operation plain ids _ (cust (world s)) c op o x); try done; [destruct Hx; congruence..|].
    by apply ResealWorld.removed_situation.
  - destruct R as [R|(_ & _ & _ & _ & K)]; [by apply (cache_calm (cust (world s)))|]. intros k Hk. by rewrite K in Hk.
  - destruct R as [R|(_ & _ & _ & B & _)]; [apply (workspace_core (cust (world s))); [symmetry; apply R | done]|].
    intros _ k (b & (bs & E & _) & _). congruence.
Qed.

Lemma look_any {A} out (m : M custody A) : (forall c, looks calm c m CustodyFacts.any) -> holds (anytime out) (call (on_custody m)).
Proof. intros H. apply look_only; [apply between_closed, nothing_cored | done]. Qed.

Lemma discover_holds out op g secret : holds (anytime out) (call (Rewrap.discover cu op g secret)).
Proof.
  apply look_any. intros c. eapply CustodyFacts.looks_mono; [apply CustodyFacts.discover_says | done].
Qed.

Lemma missing_edge_triple out sn r secret :
  ss_state sn = RW_CUSTODY_PREPARED \/ ss_state sn = RW_WRAPS_STAGED ->
  triple (fun s => anytime out s /\ at_state (ss_operation_id sn) (ss_state sn) s)
    (missing_edge db cu sn r secret) (fun _ s => anytime out s).
Proof.
  intros Hx. eapply triple_bind; [by apply custody_abort_triple|]. intros ar. destruct (negb _); [apply holds_ret|].
  apply holds_bind; [apply discover_holds|]. intros [dr [dx after]]. destruct (_ && _).
  - apply holds_bind; [apply look_any; intros c; apply CustodyFacts.nv_generation_calm|]. intros g.
    destruct (negb _); [apply holds_ret|]. destruct (negb _); apply terminal_edge_triple.
  - destruct (_ || _); [apply terminal_edge_triple | apply holds_ret].
Qed.

(** ** Preparing *)

Lemma u64_bounds z : 0 <= u64 z <= UINT64_MAX.
Proof. unfold u64, UINT64_MAX. pose proof (Z.mod_pos_bound z (2 ^ 64) ltac:(lia)). lia. Qed.

(** No bundle, and the workspace holds [k]. *)
Definition drawn (k : bytes) : known := fun c x => bundle c = None /\ new_kek x = k.

Lemma prepare_triple out op g k secret : length k = VAULT_KEK_LEN ->
  triple (fun s => between out (drawn k) s /\ at_state op RW_PREPARING s)
    (call (Rewrap.prepare cu op (u64 g) k secret)) (fun _ s => anytime out s).
Proof.
  intros Lk s [Hs Ha]. destruct (at_state_situation _ _ _ _ _ Hs Ha) as (o & Ho & Est & Lo & S); [done..|].
  pose proof (CustodyFacts.prepare_says (cus s) op (u64 g) k secret Lo Lk (proj1 (u64_bounds g)) (proj2 (u64_bounds g))) as R.
  change (Rewrap.prepare cu op (u64 g) k secret) with (on_custody (ResealCustody.vault_custody_tpm2_reseal_prepare op (u64 g) k secret)).
  unfold call, on_custody, cus in *.
  destruct (ResealCustody.vault_custody_tpm2_reseal_prepare op (u64 g) k secret (cust (world s))) as [a c]. cbn [fst snd] in *.
  pose proof Hs as [([H1 _] & H2 & H3 & _ & _ & H6 & H8) _].
  apply between_custody; [by apply (between_weaken out (drawn k))|..]; try done.
  - apply (ResealWorld.safe_operation plain ids _ (cust (world s)) c op o RW_PREPARING); try done.
    intros X. by apply (ResealWorld.prepare_situation plain _ (cust (world s)) c op k a.1).
  - destruct R as [[R _]|(_ & _ & _ & _ & K & _)]; [by apply (cache_calm (cust (world s)))|]. intros k' Hk. by rewrite K in Hk.
  - destruct R as [[R _]|(_ & _ & _ & _ & _ & G)]; [apply (workspace_core (cust (world s))); [symmetry; apply R | done]|].
    intros _ k' Hk'. rewrite H8. symmetry. by apply (CustodyFacts.good_own c k (ResealCustody.nv c)).
Qed.

Lemma recover_holds out r secret : holds (anytime out) (recover cu r secret).
Proof.
  eapply (triple_weaken (anytime out)); [by apply (recover_triple out nothing)|done|]. intros a s. by apply between_weaken.
Qed.

Lemma rediscover_holds out sn secret cr : holds (anytime out) (rediscover db cu sn secret cr).
Proof.
  apply holds_bind; [apply discover_holds|]. intros [dc [dr ds]]. destruct (_ && _).
  - apply holds_bind; [apply recover_holds|]. intros rr. apply holds_ret.
  - destruct (_ && _); [apply holds_bind; [apply terminal_edge_triple|]; intros o; apply holds_ret|].
    destruct (bool_decide _); [apply holds_ret|]. destruct (negb _); apply holds_ret.
Qed.

Definition absent : known := fun c _ => bundle c = None.
Lemma absent_cored : cored absent.
Proof. intros c c' x E. unfold absent. by rewrite (CustodyFacts.bundle_of_core c c'). Qed.

Lemma prepare_new_triple out sn secret :
  triple (fun s => between out absent s /\ at_state (ss_operation_id sn) RW_PREPARING s)
    (prepare_new db cu sn secret) (fun _ s => anytime out s).
Proof.
  unfold prepare_new.
  eapply triple_bind; [apply (look_triple (fun s => between out absent s /\ at_state (ss_operation_id sn) RW_PREPARING s) _
    (fun _ o => forall k, o = Some k -> length k = VAULT_KEK_LEN))|].
  { apply closed_and; [apply between_closed, absent_cored | apply at_state_closed]. }
  { intros c. apply CustodyFacts.random_says. } { done. }
  intros [k|]; [|apply triple_ret; intros s [[H _] _]; by apply (between_weaken out absent)].
  apply triple_bind with (R := fun _ s => length k = VAULT_KEK_LEN /\ between out (drawn k) s
    /\ at_state (ss_operation_id sn) RW_PREPARING s).
  { intros s [[[(H1 & H2 & H3 & H4 & H5 & H6) H7] Ha] Hk]. split; [by apply Hk|]. split; [|exact Ha].
    split; [|done]. split_and!; try done. intros _ k' (b & (bs & E & _) & _). unfold absent in H6. change (bundle (cus s) = Some bs) in E. congruence. }
  intros u. apply triple_pure. intros Lk. eapply triple_bind; [by apply prepare_triple|]. intros x.
  destruct (bool_decide _); [apply holds_ret | apply rediscover_holds].
Qed.

Lemma record_receipt_holds out sn r : holds (anytime out) (record_receipt db sn r).
Proof.
  unfold record_receipt. destruct (encode r); [|apply terminal_edge_triple].
  apply holds_bind; [|intros x; apply holds_ret]. apply in_tx_triple. intros. by apply ResealWorld.record_prepared_held.
Qed.

Lemma preparing_edge_triple out sn x r secret :
  triple (fun s => between out (fun c _ => x = TPM_ABSENT -> bundle c = None) s /\ at_state (ss_operation_id sn) RW_PREPARING s)
    (preparing_edge db cu sn x r secret) (fun _ s => anytime out s).
Proof.
  unfold preparing_edge. apply triple_bind with (R := fun _ s => anytime out s).
  - case_bool_decide as E.
    + eapply triple_weaken; [apply (prepare_new_triple out)| |done]. intros s [Hs Ha]. split; [|exact Ha].
      revert Hs. apply between_weaken. intros c y H. by apply H.
    + apply (triple_weaken (anytime out) _ _ (fun _ s => anytime out s)); [|intros s [Hs _]; revert Hs; by apply between_weaken|done].
      apply holds_bind; [apply recover_holds|]. intros cr. apply holds_ret.
  - intros [y|o|o]; [|destruct (bad o); [apply terminal_edge_triple | apply holds_ret] | apply holds_ret].
    apply holds_bind; [apply record_receipt_holds|]. intros o. destruct (bad o); [apply terminal_edge_triple | apply holds_ret].
Qed.

Lemma promoted_edge_holds out sn secret : holds (anytime out) (promoted_edge db cu host sn secret).
Proof.
  apply holds_bind; [apply look_any; intros c; apply CustodyFacts.guard_seal_calm|]. intros r. destruct (negb _); [apply holds_ret|].
  apply holds_bind; [apply unseal_holds, nothing_cored|]. intros u. destruct (negb _); [apply holds_ret|].
  apply holds_bind; [|intros o; apply or_terminal_triple]. apply with_active_kek_holds; [apply nothing_cored|].
  intros k. apply verify_callback_holds. intros c c' x E [_ H]. split; [done|]. by apply (CustodyFacts.live_core c).
Qed.

Lemma simple_edge_holds {A} out (G : known) sn (q : bytes -> Z -> RewrapSql.sql A) p :
  (forall c x op f, G c x -> keeps plain ids c (q op f)) ->
  holds (between out G) (simple_edge db sn (fun op f t => on_store (RewrapStore.single_state p op f (q op f) t))).
Proof.
  intros Hq. apply holds_bind; [|intros x; apply holds_ret]. apply in_tx_triple. intros c t w x Hx Hh.
  apply ResealWorld.single_state_held; [by apply (Hq c x) | done].
Qed.

(** ** One edge *)

(** What the driver knows when it takes an edge. *)
Definition asked (sn : kb_store_vault_rewrap_snapshot_t) (x : vault_tpm2_reseal_status_t) : known := fun c _ =>
  (ss_state sn = RW_PREPARING -> x = TPM_ABSENT -> bundle c = None)
  /\ (ss_state sn = RW_CUSTODY_PREPARED \/ ss_state sn = RW_WRAPS_STAGED -> x = TPM_PREPARED -> bundle c <> None).

Lemma take_edge_triple out sn r x secret :
  triple (fun s => between out (asked sn x) s /\ at_state (ss_operation_id sn) (ss_state sn) s)
    (take_edge db cu host sn r x secret) (fun _ s => anytime out s).
Proof.
  assert (W : forall A (m : M V A), holds (anytime out) m -> triple (fun s => between out (asked sn x) s
      /\ at_state (ss_operation_id sn) (ss_state sn) s) m (fun _ s => anytime out s)).
  { intros A m Hm. eapply triple_weaken; [exact Hm| |done]. intros s [Hs _]. revert Hs. by apply between_weaken. }
  pose proof (fun A (a : A) => W A (ret a) (holds_ret (anytime out) a)) as D. unfold asked in *.
  unfold take_edge. destruct (ss_state sn) eqn:Est, x; try (apply W, terminal_edge_triple); try apply D.
  - (* preparing, absent *) eapply triple_weaken; [apply (preparing_edge_triple out)| |done]. intros s [Hs Ha]. split; [|exact Ha].
    revert Hs. apply between_weaken. naive_solver.
  - eapply triple_weaken; [apply (preparing_edge_triple out)| |done]. intros s [Hs Ha]. split; [|exact Ha].
    revert Hs. apply between_weaken. naive_solver.
  - eapply triple_weaken; [apply (missing_edge_triple out); auto| |done]. intros s [Hs Ha]. rewrite Est. split; [|exact Ha].
    revert Hs. by apply between_weaken.
  - eapply triple_weaken; [apply (staging_edge_triple out)| |done]. intros s [Hs _].
    revert Hs. apply between_weaken. intros c y [_ H]. by apply H; auto.
  - eapply triple_weaken; [apply (missing_edge_triple out); auto| |done]. intros s [Hs Ha]. rewrite Est. split; [|exact Ha].
    revert Hs. by apply between_weaken.
  - apply (triple_weaken (between out present) _ _ (fun _ s => anytime out s)); [|intros s [Hs _]; revert Hs; apply between_weaken; intros c y [_ H]; apply H; auto|done].
    apply (forget out present). apply holds_bind; [|intros o; apply or_terminal_triple].
    apply (simple_edge_holds out present sn RewrapSql.org_vault_rewrap_mark_committing). intros c y op f Hb. by apply mark_committing_keeps.
  - eapply triple_weaken; [apply (committing_edge_triple out)| |done]. intros s [Hs Ha]. split; [|exact Ha]. revert Hs. by apply between_weaken.
  - eapply triple_weaken; [apply (committing_edge_triple out)| |done]. intros s [Hs Ha]. split; [|exact Ha]. revert Hs. by apply between_weaken.
  - eapply triple_weaken; [apply (committing_edge_triple out)| |done]. intros s [Hs Ha]. split; [|exact Ha]. revert Hs. by apply between_weaken.
  - apply W. apply holds_bind; [|intros o; apply or_terminal_triple].
    apply (simple_edge_holds out nothing sn RewrapSql.org_vault_rewrap_promote). intros. apply promote_keeps.
  - apply W. apply promoted_edge_holds.
Qed.

End Drive.
End ResealDrive.
