(* ===== verification/ResealOutcome.v ===== *)
(** * What a key change leaves

    Rounds and whole calls of the driver on the world of [ResealWorld], and
    sequences of calls and restarts of the process: whatever fails in them,
    some key that the custody can still open reads every secret; a call that
    reports completion has completed; and a transaction that a statement broke
    keeps the store's mutex until the process is started again. *)

From Stdlib Require Import ZArith Lia String Ascii.
From stdpp Require Import base numbers option list gmap.
From S2P Require Import Prelude Wire ResealReceipt MutationBudget Rewrap RewrapSql RewrapStore ResealCustody CustodyFacts ResealSafe ResealRun ResealWorld ResealDrive.

Module ResealOutcome.
Import Rewrap ResealRun.
Import ResealCustody (custody, nv, nv_authvalue, bundle, tpm2_get_kek).
Import CustodyFacts (core, calm, looks, live, committing).
Import ResealSafe.
Import ResealWorld (on_store, on_custody, st, cust, db, cu, host, TX).
Import ResealDrive.
Open Scope rewrap_scope.

(** ** Sequences of calls *)

Inductive event :=
  | Run (req : vault_reseal_orchestrator_request_t) (b : MutationBudget.vault_mutation_budget_t) (t : MutationBudget.thread)
  | Restart.

(** The static variables as a new process has them; the files, the counter
    and the database stay, and the server ends the open transaction. *)
Definition restart_store (s : RewrapStore.store) : RewrapStore.store :=
  {| RewrapStore.durable := RewrapStore.durable s; RewrapStore.session := None; RewrapStore.mutex_held := false;
     RewrapStore.transaction_active := false; RewrapStore.uncertain := false; RewrapStore.faults := RewrapStore.faults s;
     RewrapStore.late_ends := RewrapStore.late_ends s |}.
Definition restart_custody (c : custody) : custody :=
  {| ResealCustody.nv := nv c; ResealCustody.nv_authvalue := nv_authvalue c; ResealCustody.blob := ResealCustody.blob c;
     ResealCustody.bundle := bundle c; ResealCustody.nv_auth := None; ResealCustody.sealed := true;
     ResealCustody.kek_ready := false; ResealCustody.kek := replicate VAULT_KEK_LEN 0; ResealCustody.owned_guard := false;
     ResealCustody.use_epoch := 1; ResealCustody.primary_epoch := None; ResealCustody.entropy := ResealCustody.entropy c;
     ResealCustody.faults := ResealCustody.faults c |}.
Definition restart (w : ResealWorld.world) : ResealWorld.world :=
  {| st := restart_store (st w); cust := restart_custody (cust w); ResealWorld.clock := ResealWorld.clock w;
     ResealWorld.memory := ResealWorld.memory w |}.

Section Outcome.
Context {HS : Sha256} {HT : Tpm2} {HK : KeyWrap}.

Definition step (w : ResealWorld.world) (e : event) : ResealWorld.world :=
  match e with
  | Run req b t => (run db cu host req b t w).2
  | Restart => restart w
  end.
Definition exec (es : list event) (w : ResealWorld.world) : ResealWorld.world := fold_left step es w.

Variable plain : Z -> bytes.
Variable ids : list Z.
Local Abbreviation anytime out := (between plain ids out nothing).

(** ** One round *)

Lemma snapshot_triple out op : triple (anytime out) (call (Rewrap.snapshot db op))
  (fun x s => anytime out s /\ (x.1 = DB_OK -> ss_operation_id x.2 = op /\ at_state op (ss_state x.2) s)).
Proof.
  intros s [(H1 & H2 & H3 & H4 & H5 & H6) H7].
  change (Rewrap.snapshot db op) with (on_store (RewrapStore.snapshot op)). unfold call, on_store.
  destruct (ResealWorld.snapshot_says plain ids (cus s) op (sto s) H1) as (B1 & B2 & B3). unfold at_state, dur, sto in *.
  destruct (RewrapStore.snapshot op (st (world s))) as [x w]. cbn in *. rewrite B2. split; [|exact B3].
  split; [|done]. split_and!; try done. intros t Ht. split; [done|]. intros X. by rewrite (H7 t Ht) in X.
Qed.

Definition some_time (s : V) : Prop := exists out, anytime out s.

(** How a round or a call may end. *)
Definition completes (op : bytes) (r : vault_reseal_orchestrator_result_t) (s : V) : Prop :=
  some_time s /\ (r = OR_COMPLETED -> at_state op RW_COMPLETED s).

Definition round_says (op : bytes) (starting : bool) (v : verdict) (s : V) : Prop :=
  match v with
  | Stop r => completes op r s
  | Again r b => some_time s /\ b = false /\ (starting = false -> r <> OR_COMPLETED)
  end.

Lemma completes_closed op r : closed (completes op r).
Proof.
  intros s s' Hs [[out H] H2]. split; [exists out; by apply (between_closed plain ids out nothing (nothing_cored) s)|].
  intros E. apply (at_state_closed op RW_COMPLETED s); auto.
Qed.

Lemma stop_says P op b r : (forall s, P s -> some_time s) -> r <> OR_COMPLETED ->
  triple P (ret (Stop r)) (round_says op b).
Proof. intros HP Hr. apply triple_ret. intros s Hs. by split; auto. Qed.

Lemma custody_result_fails r : custody_result r <> OR_COMPLETED.
Proof. by destruct r. Qed.
Lemma guard_result_fails r : guard_operation_result r <> OR_COMPLETED.
Proof. by destruct r. Qed.
Lemma db_result_fails r : r <> DB_OK -> db_result r <> OR_COMPLETED.
Proof. by destruct r. Qed.

(** The snapshot is still true. *)
Definition seen (out : option vault_reseal_orchestrator_output_t) (sn : kb_store_vault_rewrap_snapshot_t) (s : V) : Prop :=
  anytime out s /\ at_state (ss_operation_id sn) (ss_state sn) s.

Lemma seen_closed out sn : closed (seen out sn).
Proof. apply closed_and; [apply between_closed, nothing_cored | apply at_state_closed]. Qed.
Lemma seen_some out sn s : seen out sn s -> some_time s.
Proof. intros [H _]. by exists out. Qed.

Lemma ask_custody_triple out sn secret : triple (seen out sn) (ask_custody cu sn secret)
  (fun x s => seen out sn s /\ (x.1 = CU_OK -> between plain ids out (asked sn x.2.2) s)).
Proof.
  assert (N : forall (x : vault_tpm2_reseal_result_t * (ResealReceipt.vault_tpm2_reseal_receipt_t * vault_tpm2_reseal_status_t)) s,
    seen out sn s /\ (x.1 = CU_OK -> asked sn x.2.2 (cus s) (workspace s)) ->
    seen out sn s /\ (x.1 = CU_OK -> between plain ids out (asked sn x.2.2) s)).
  { intros x s [Hs Ha]. split; [done|]. intros E. destruct Hs as [[(H1 & H2 & H3 & H4 & H5 & _) H7] _].
    split; [|done]. split_and!; auto. }
  unfold ask_custody. destruct (_ || _) eqn:B.
  - eapply triple_weaken; [apply (look_triple (seen out sn) _ (fun c x => x.1 = CU_OK -> x.2.2 = TPM_ABSENT -> bundle c = None))| |].
    + apply seen_closed.
    + intros c. apply CustodyFacts.discover_says.
    + intros c c' a E. by rewrite (CustodyFacts.bundle_of_core c c').
    + done.
    + intros x s [Hs Hx]. apply N. split; [done|]. intros E. split; [auto|]. intros [S|S] _; rewrite S in B; done.
  - destruct (receipt_from_snapshot sn) as [r|]; [|by apply triple_ret].
    eapply triple_bind; [apply (look_triple (seen out sn) _ (fun c x => x = (CU_OK, TPM_PREPARED) -> bundle c <> None))|].
    + apply seen_closed.
    + intros c. apply CustodyFacts.status_says_call.
    + intros c c' a E. by rewrite (CustodyFacts.bundle_of_core c c').
    + intros [a b]. apply triple_ret. intros s [Hs Hx]. apply (N (a, (r, b))). split; [done|]. cbn. intros ->. split.
      * intros S. by rewrite S in B.
      * intros _ ->. by apply Hx.
Qed.

(** A completed operation is left alone. *)
Lemma edge_triple out sn r x secret :
  triple (fun s => seen out sn s /\ between plain ids out (asked sn x) s) (take_edge db cu host sn r x secret)
    (fun _ s => anytime out s /\ (ss_state sn = RW_COMPLETED -> at_state (ss_operation_id sn) RW_COMPLETED s)).
Proof.
  destruct (decide (ss_state sn = RW_COMPLETED)) as [E|N].
  - unfold take_edge. rewrite E. destruct x; apply triple_ret; intros s [[Hs Ha] _]; (split; [done|]); intros _; by rewrite <- E.
  - eapply triple_weaken; [apply (take_edge_triple plain ids out)| |].
    + intros s [[_ Ha] Hs]. by split.
    + intros o s Hs. split; [exact Hs|]. intros E. by apply N in E.
Qed.

Lemma settle_triple sn r b :
  triple (fun s => anytime (Some (output_snapshot sn)) s
                   /\ (ss_state sn = RW_COMPLETED -> at_state (ss_operation_id sn) RW_COMPLETED s))
    (settle r) (round_says (ss_operation_id sn) b).
Proof.
  intros s [Hs Ha]. unfold settle. cbn [fst snd]. assert (T : some_time s) by (by exists (Some (output_snapshot sn))).
  case_bool_decide as E; cbn [negb]; [|by split]. destruct Hs as [(_ & _ & _ & _ & -> & _) _].
  case_bool_decide as D; [|done]. by split; auto.
Qed.

Lemma drive_triple out req sn b :
  triple (seen out sn) (drive db cu host req sn) (round_says (ss_operation_id sn) b).
Proof.
  set (out' := Some (output_snapshot sn)).
  eapply triple_bind with (R := fun _ s => seen out' sn s).
  { intros s [[(H1 & H2 & H3 & H4 & H5 & H6) H7] Ha]. split; [|exact Ha]. split; [|done]. by split_and!. }
  intros u. case_bool_decide as E1; [apply stop_says; [apply seen_some | done]|].
  eapply triple_bind with (R := fun _ s => seen out' sn s).
  { destruct (active _); [|by apply triple_ret]. apply look_only; [apply seen_closed|]. intros c. apply CustodyFacts.guard_sync_calm. }
  intros y. destruct (negb _); [apply stop_says; [apply seen_some | apply guard_result_fails]|].
  eapply triple_bind; [apply ask_custody_triple|]. intros [cr [r x]]. cbn [fst snd]. case_bool_decide as E2; cbn [negb].
  - eapply triple_bind; [|intros o; apply settle_triple].
    eapply triple_weaken; [apply (edge_triple out')| |done]. intros s [Hs Ha]. auto.
  - eapply triple_bind with (R := fun o s => anytime out' s).
    + destruct (_ && _); [|apply triple_ret; by intros s [[Hs _] _]].
      eapply (triple_weaken (anytime out')); [apply terminal_edge_triple| |done]. by intros s [[Hs _] _].
    + intros o. apply triple_ret. intros s Hs. assert (T : some_time s) by (by exists out').
      case_bool_decide as E3; [done|]. by split.
Qed.

Lemma begin_edge_triple out op req og ng :
  triple (anytime out) (begin_edge db req og ng) (round_says op true).
Proof.
  eapply triple_bind.
  { apply (in_tx_triple plain ids out nothing). intros c t w x _. apply ResealWorld.begin_held. }
  intros [b r]. apply triple_ret. intros s Hs. assert (T : some_time s) by (by exists out).
  case_bool_decide; [done|]. by split.
Qed.

Lemma round_triple out req starting :
  triple (anytime out) (edge_round db cu host req starting) (round_says (rq_operation_id req) starting).
Proof.
  assert (T : forall s, anytime out s -> some_time s) by (intros s Hs; by exists out).
  eapply triple_bind; [apply snapshot_triple|]. intros [sr sn]. cbn [fst snd].
  destruct (bool_decide (sr = DB_NOT_FOUND) && starting) eqn:B.
  { apply andb_true_iff in B as [_ ->]. apply (triple_weaken (anytime out) _ _ (round_says (rq_operation_id req) true)); [|by intros s [Hs _]|done].
    eapply triple_bind; [apply look_any; intros c; apply CustodyFacts.nv_generation_calm|]. intros [cr gen].
    destruct (negb _); [apply stop_says; [exact T | apply custody_result_fails]|].
    destruct (_ <=? _); [by apply stop_says | apply begin_edge_triple]. }
  destruct (decide (sr = DB_OK)) as [->|E].
  2: { rewrite (bool_decide_eq_false_2 (sr = DB_OK)) by done. apply stop_says; [intros s [Hs _]; auto|].
       case_bool_decide; [done | by apply db_result_fails]. }
  rewrite bool_decide_eq_true_2 by done. cbn [negb]. apply (triple_weaken (fun s => ss_operation_id sn = rq_operation_id req /\ seen out sn s) _ _ (round_says (rq_operation_id req) starting));
    [|intros s [Hs Ha]; destruct (Ha eq_refl) as [<- Ha']; by split |done].
  apply triple_pure. intros <-.
  eapply triple_bind with (R := fun _ s => seen out sn s).
  { destruct (ss_inventory_digest sn); [apply bind_inventory_triple, seen_closed | by apply triple_ret]. }
  intros bound. destruct (negb bound); [apply stop_says; [apply seen_some | done]|].
  eapply triple_bind with (R := fun _ s => seen out sn s).
  { apply still_triple; [apply seen_closed|]. intros s. destruct (changed _ _); [|by split_and!].
    pose proof (budget_advance_still s) as H. destruct (budget_advance host s) as [ok s']. by destruct ok. }
  intros stalled. destruct stalled; [apply stop_says; [apply seen_some | done]|].
  destruct starting; [|apply (drive_triple out)].
  eapply triple_weaken; [apply (begin_edge_triple out)| |done]. by intros s [Hs _].
Qed.

(** ** A call *)

(** The first round may only begin the operation, so it is not the last. *)
Lemma edges_triple n req starting r :
  (n = 0%nat -> r <> OR_COMPLETED) -> (starting = true -> (2 <= n)%nat) ->
  triple some_time (edges db cu host n req starting r) (completes (rq_operation_id req)).
Proof.
  revert starting r. induction n as [|n IH]; intros starting r Hr Hn.
  - apply triple_ret. intros s Hs. split; [done|]. intros E. by destruct (Hr eq_refl E).
  - apply triple_ex. intros out. eapply triple_bind; [apply round_triple|]. intros [r'|r' b]; [by apply triple_ret|].
    intros s (Hs & -> & H). apply IH; [|done|done]. intros ->. destruct starting; [lia | by apply H].
Qed.

Lemma still_call {A} op r (m : M custody A) : (forall c, looks calm c m CustodyFacts.any) ->
  triple (completes op r) (call (on_custody m)) (fun _ s => completes op r s).
Proof. intros H. apply look_only; [apply completes_closed | done]. Qed.

Lemma close_guard_triple op r : triple (completes op r) (close_guard cu host r) (completes op).
Proof.
  eapply triple_bind; [apply begin_cleanup_triple, completes_closed|]. intros a.
  eapply triple_bind; [apply still_call; intros c; apply CustodyFacts.guard_seal_calm|]. intros b.
  eapply triple_bind; [apply still_call; intros c; apply CustodyFacts.guard_end_calm|]. intros c.
  apply triple_ret. intros s Hs. destruct (_ && _); [exact Hs|]. destruct Hs. by split.
Qed.

Lemma some_closed : closed some_time.
Proof. intros s s' Hs [out H]. exists out. by apply (between_closed plain ids out nothing (nothing_cored) s). Qed.

Lemma error_says op r : r <> OR_COMPLETED -> triple some_time (ret r) (completes op).
Proof. intros Hr. apply triple_ret. intros s Hs. by split. Qed.

Lemma guarded_triple req : triple some_time (guarded db cu host req) (completes (rq_operation_id req)).
Proof.
  eapply triple_bind; [apply (allocate_triple some_time), some_closed|]. intros a. destruct (negb a); [by apply error_says|].
  eapply triple_bind; [apply (allocate_triple some_time), some_closed|]. intros b. destruct (negb b); [by apply error_says|].
  eapply triple_bind with (R := fun _ s => some_time s).
  { intros s [out [(H1 & H2 & H3 & H4 & H5 & H6) H7]]. exists out. split; [|done]. by split_and!. }
  intros u. eapply triple_bind; [apply look_only; [apply some_closed | intros c; apply CustodyFacts.guard_begin_calm]|].
  intros g. destruct (negb _); [apply error_says; by case_bool_decide|].
  eapply triple_bind; [apply edges_triple; [done | unfold VAULT_RESEAL_ORCHESTRATOR_EDGE_MAX; lia]|]. intros r. apply close_guard_triple.
Qed.

Lemma call_triple req : triple some_time (vault_reseal_orchestrator_run db cu host req) (completes (rq_operation_id req)).
Proof.
  unfold vault_reseal_orchestrator_run. destruct (negb (request_valid req)); [by apply error_says|].
  destruct (negb _); [by apply error_says|].
  eapply triple_bind with (R := fun _ s => some_time s).
  { apply still_triple; [apply some_closed|]. intros s. destruct (MutationBudget.vault_mutation_budget_enter _ _). by split_and!. }
  intros e. destruct (negb _); [by apply error_says|]. eapply triple_bind; [apply guarded_triple|]. intros r.
  eapply triple_bind with (R := fun _ s => completes (rq_operation_id req) r s).
  { apply still_triple; [apply completes_closed|]. intros s. destruct (MutationBudget.vault_mutation_budget_leave _ _). by split_and!. }
  intros l. apply triple_ret. intros s Hs. destruct (_ =? _); [exact Hs|]. destruct Hs. by split.
Qed.

(** ** Any sequence of calls and restarts *)

Definition world_ok (w : ResealWorld.world) : Prop := ResealWorld.sound plain ids (cust w) (st w) /\ cache_ok (cust w).

Lemma run_says req b t w : world_ok w ->
  let x := run db cu host req b t w in
  world_ok x.2 /\ (x.1.1 = OR_COMPLETED ->
    exists o, RewrapSql.operations (RewrapStore.durable (st x.2)) !! rq_operation_id req = Some o
              /\ RewrapSql.o_state o = RW_COMPLETED).
Proof.
  intros [H1 H2]. unfold run. set (s0 := {| world := w |}).
  destruct (call_triple req s0) as [[out [(B1 & B2 & _) _]] B3].
  { exists None. split; [|done]. by split_and!. }
  destruct (vault_reseal_orchestrator_run db cu host req s0) as [r s]. split; [by split | exact B3].
Qed.

Lemma restart_ok w : world_ok w -> world_ok (restart w).
Proof.
  intros [[H1 [H2 _]] _]. split; [split|].
  - by apply (ResealWorld.safe_core _ _ _ (cust w)).
  - split; [exact H2 | by left].
  - by intros k.
Qed.

Lemma exec_ok es w : world_ok w -> world_ok (exec es w).
Proof.
  revert w. induction es as [|e es IH]; intros w Hw; [done|]. apply IH. destruct e as [req b t|]; [|by apply restart_ok].
  by apply run_says.
Qed.

(** A vault that no operation was begun on, sealed. *)
Record at_start (k : bytes) (w : ResealWorld.world) : Prop := {
  start_ids : (RewrapSql.secrets (RewrapStore.durable (st w))).*1 = ids;
  start_rows : rows_under plain k (RewrapStore.durable (st w));
  start_live : live (cust w) k;
  start_operations : RewrapSql.operations (RewrapStore.durable (st w)) = ∅;
  start_deks : RewrapSql.deks (RewrapStore.durable (st w)) = ∅;
  start_fence : RewrapSql.c_last_opened_rewrap_fence (RewrapSql.ctl (RewrapStore.durable (st w)))
                <= RewrapSql.c_fencing_token (RewrapSql.ctl (RewrapStore.durable (st w)));
  start_session : RewrapStore.session (st w) = None;
  start_bundle : bundle (cust w) = None;
  start_sealed : tpm2_get_kek (cust w) = None
}.

Lemma start_ok k w : at_start k w -> ResealWorld.punctual (st w) -> world_ok w.
Proof.
  intros [] P. split; [split|]; [|split; [exact P | by left]|by intros k' E; rewrite start_sealed0 in E].
  split.
  - split_and!; try done; [rewrite start_operations0; done | rewrite start_deks0; done].
  - left. split; [rewrite start_operations0; done|]. exists k, k. split_and!; try done. by left.
Qed.

(** A key the custody can open: the vault's, or the one the bundle holds for
    the current generation. *)
Definition key_at_hand (c : custody) (k : bytes) : Prop :=
  live c k \/ exists b, CustodyFacts.loaded c b
                /\ CustodyFacts.blob_key (nv_authvalue c) (nv c) (ResealCustody.future b) = Some k.

(** It opens every row, or a staged wrap of every row. *)
Definition readable (d : RewrapSql.database) (c : custody) : Prop :=
  exists k, key_at_hand c k
    /\ (rows_under plain k d \/ exists op, staged_sound plain op k d /\ staged_all op d).

Lemma committing_readable d c k0 k1 op : committing k0 k1 c -> rows_under plain k0 d -> staged_sound plain op k1 d ->
  staged_all op d -> readable d c.
Proof.
  intros [G L|G _|b G Hb Hf] R S A.
  - exists k0. split; [by left | by left].
  - exists k1. split; [|right; by exists op]. right. destruct G as (b & Hb & _ & _ & _ & F). exists b. split; [done|].
    by replace (nv c) with (nv c - 1 + 1) by lia.
  - exists k1. split; [|right; by exists op]. left. destruct G as (b' & Hb' & _ & _ & _ & F).
    rewrite (CustodyFacts.loaded_fun c b' b) in F by done. exists (ResealCustody.future b). split; [done|].
    by replace (nv c) with (nv c - 1 + 1) by lia.
Qed.

Lemma situation_readable d c op s : situation plain d c op s -> readable d c.
Proof.
  intros [k0 k1 L R|k0 k1 L R|k0 k1 L R|k0 k1 C R S A|k1 L S A|k1 L R|k1 L R].
  - exists k0. split; by left.
  - exists k0. split; by left.
  - exists k0. split; by left.
  - by apply (committing_readable d c k0 k1 op).
  - exists k1. split; [by left | right; by exists op].
  - exists k1. split; by left.
  - exists k1. split; by left.
Qed.

Lemma safe_readable d c : safe plain ids d c -> readable d c.
Proof.
  intros [_ [[_ (k0 & k1 & L & R & _)]|(op & o & _ & _ & _ & _ & S)]]; [|by apply (situation_readable _ _ op _ S)].
  exists k0. split; by left.
Qed.

(** ** A store whose mutex is kept *)

Definition wedged (d : RewrapSql.database) (s : V) : Prop := RewrapStore.mutex_held (sto s) = true /\ dur s = d.

Lemma wedged_closed d : closed (wedged d).
Proof. intros s s' (E & _). unfold wedged, dur. by rewrite E. Qed.

Lemma wedged_round d req starting :
  triple (wedged d) (edge_round db cu host req starting) (fun v s => wedged d s /\ v = Stop OR_SAFE_RETRY).
Proof.
  eapply triple_bind with (R := fun x s => wedged d s /\ x.1 = DB_TRANSIENT).
  - intros s [H1 H2]. change (Rewrap.snapshot db (rq_operation_id req)) with (on_store (RewrapStore.snapshot (rq_operation_id req))).
    unfold call, on_store, wedged, dur, sto in *. unfold RewrapStore.snapshot, RewrapStore.lock, RewrapStore.fault. cbn.
    rewrite H1, orb_true_r. by split_and!.
  - intros [r sn] s [Hs E]. cbn in E. by subst r.
Qed.

Lemma wedged_guarded d req :
  triple (wedged d) (guarded db cu host req) (fun r s => wedged d s /\ r <> OR_COMPLETED).
Proof.
  eapply triple_bind; [apply (allocate_triple (wedged d)), wedged_closed|]. intros a. destruct (negb a); [by apply triple_ret|].
  eapply triple_bind; [apply (allocate_triple (wedged d)), wedged_closed|]. intros b. destruct (negb b); [by apply triple_ret|].
  eapply triple_bind with (R := fun _ s => wedged d s); [by intros s Hs|]. intros u.
  eapply triple_bind; [apply look_only; [apply wedged_closed | intros c; apply CustodyFacts.guard_begin_calm]|].
  intros g. destruct (negb _); [apply triple_ret; intros s Hs; split; [done | by case_bool_decide]|].
  eapply triple_bind with (R := fun r s => wedged d s /\ r = OR_SAFE_RETRY).
  { cbn [edges VAULT_RESEAL_ORCHESTRATOR_EDGE_MAX]. eapply triple_bind; [apply wedged_round|].
    intros v s [Hs ->]. by split. }
  intros r. apply (triple_weaken (fun s => r = OR_SAFE_RETRY /\ wedged d s) _ _ (fun r s => wedged d s /\ r <> OR_COMPLETED)); [|by intros s []|done].
  apply triple_pure. intros ->.
  eapply triple_bind; [apply (begin_cleanup_triple (wedged d)), wedged_closed|]. intros x.
  eapply triple_bind; [apply look_only; [apply wedged_closed | intros c; apply CustodyFacts.guard_seal_calm]|]. intros y.
  eapply triple_bind; [apply look_only; [apply wedged_closed | intros c; apply CustodyFacts.guard_end_calm]|]. intros z.
  apply triple_ret. intros s Hs. split; [done|]. by destruct (_ && _).
Qed.

Lemma wedged_call d req :
  triple (wedged d) (vault_reseal_orchestrator_run db cu host req) (fun r s => wedged d s /\ r <> OR_COMPLETED).
Proof.
  unfold vault_reseal_orchestrator_run. destruct (negb (request_valid req)); [by apply triple_ret|].
  destruct (negb _); [by apply triple_ret|].
  eapply triple_bind with (R := fun _ s => wedged d s).
  { intros s Hs. by destruct (MutationBudget.vault_mutation_budget_enter _ _). }
  intros e. destruct (negb _); [by apply triple_ret|]. eapply triple_bind; [apply wedged_guarded|]. intros r.
  eapply triple_bind with (R := fun _ s => wedged d s /\ r <> OR_COMPLETED).
  { intros s Hs. by destruct (MutationBudget.vault_mutation_budget_leave _ _). }
  intros l. apply triple_ret. intros s [Hs Hr]. split; [done|]. by destruct (_ =? _).
Qed.

Lemma wedged_run d req b t w : RewrapStore.mutex_held (st w) = true -> RewrapStore.durable (st w) = d ->
  let x := run db cu host req b t w in
  RewrapStore.mutex_held (st x.2) = true /\ RewrapStore.durable (st x.2) = d /\ x.1.1 <> OR_COMPLETED.
Proof.
  intros H1 H2. unfold run. set (s0 := {| world := w |}).
  destruct (wedged_call d req s0) as [[B1 B2] B3]; [by split|].
  destruct (vault_reseal_orchestrator_run db cu host req s0) as [r s]. by split_and!.
Qed.

Lemma wedged_exec es w : Forall (fun e => e <> Restart) es -> RewrapStore.mutex_held (st w) = true ->
  RewrapStore.mutex_held (st (exec es w)) = true
  /\ RewrapStore.durable (st (exec es w)) = RewrapStore.durable (st w).
Proof.
  revert w. induction es as [|e es IH]; intros w He Hw; [done|]. apply Forall_cons in He as [E He].
  destruct e as [req b t|]; [|done]. destruct (wedged_run _ req b t w Hw eq_refl) as (B1 & B2 & _).
  cbn [exec fold_left step]. unfold exec in IH. destruct (IH (run db cu host req b t w).2 He B1) as [C1 C2].
  split; [exact C1|]. by rewrite C2.
Qed.

(** ** Statements that break a transaction *)

(** What may be asked of an open transaction, with the arguments. *)
Inductive statement :=
  | S_begin (actor request op : bytes) (oldg newg : Z)
  | S_record_prepared (op : bytes) (f og ng : Z) (receipt : bytes)
  | S_source_secret_page (op : bytes) (f a limit : Z)
  | S_source_check_page (op : bytes) (f : Z) (a : bytes) (lim : Z)
  | S_stage_dek (op : bytes) (f : Z) (row : kb_store_vault_rewrap_secret_t) (nw : bytes)
  | S_stage_check (op : bytes) (f : Z) (row : kb_store_vault_rewrap_check_t) (nw : bytes)
  | S_inventory_summary (op : bytes) (f : Z)
  | S_stage_finish (op : bytes) (f : Z) (expected : kb_store_vault_rewrap_inventory_summary_t)
  | S_mark_committing (op : bytes) (f : Z)
  | S_mark_resealed (op : bytes) (f : Z) (d : bytes)
  | S_promote (op : bytes) (f : Z)
  | S_abort (op : bytes) (f : Z) (x : bytes)
  | S_recovery_required (op : bytes) (f : Z) (x : bytes)
  | S_verify_summary (op : bytes) (f : Z)
  | S_verify_secret_page (op : bytes) (f a limit : Z)
  | S_verify_check_page (op : bytes) (f : Z) (a : bytes) (lim : Z)
  | S_verify_crypto_ack (op : bytes) (f : Z)
  | S_complete (op : bytes) (f : Z) (r i s : bytes).

(** The result and the handle, without the rows. *)
Definition answer {A} (x : kb_store_vault_rewrap_result_t * A * TX * RewrapStore.store)
    : kb_store_vault_rewrap_result_t * TX * RewrapStore.store := (x.1.1.1, x.1.2, x.2).

Definition perform (x : statement) (t : TX) (w : RewrapStore.store)
    : kb_store_vault_rewrap_result_t * TX * RewrapStore.store :=
  let o := RewrapStore.kb_store_vault_operator_rewrap_ops in
  match x with
  | S_begin a r op og ng => Rewrap.begin o a r op og ng t w
  | S_record_prepared op f og ng r => Rewrap.record_prepared o op f og ng r t w
  | S_source_secret_page op f a l => answer (Rewrap.source_secret_page o op f a l t w)
  | S_source_check_page op f a l => answer (Rewrap.source_check_page o op f a l t w)
  | S_stage_dek op f r n => Rewrap.stage_dek o op f r n t w
  | S_stage_check op f r n => Rewrap.stage_check o op f r n t w
  | S_inventory_summary op f => answer (Rewrap.inventory_summary o op f t w)
  | S_stage_finish op f e => Rewrap.stage_finish o op f e t w
  | S_mark_committing op f => Rewrap.mark_committing o op f t w
  | S_mark_resealed op f d => Rewrap.mark_resealed o op f d t w
  | S_promote op f => Rewrap.promote o op f t w
  | S_abort op f x => Rewrap.abort o op f x t w
  | S_recovery_required op f x => Rewrap.recovery_required o op f x t w
  | S_verify_summary op f => answer (Rewrap.verify_summary o op f t w)
  | S_verify_secret_page op f a l => answer (Rewrap.verify_secret_page o op f a l t w)
  | S_verify_check_page op f a l => answer (Rewrap.verify_check_page o op f a l t w)
  | S_verify_crypto_ack op f => Rewrap.verify_crypto_ack o op f t w
  | S_complete op f r i s => Rewrap.complete o op f r i s t w
  end.

(** Statements one after another, until one fails. *)
Fixpoint performs (xs : list statement) (t : TX) (w : RewrapStore.store)
    : kb_store_vault_rewrap_result_t * TX * RewrapStore.store :=
  match xs with
  | [] => (DB_OK, t, w)
  | x :: xs =>
      let '(r, t, w) := perform x t w in if bool_decide (r = DB_OK) then performs xs t w else (r, t, w)
  end.

(** The mutex and what is durable stay; a failure marks the handle. *)
Definition marks (w : RewrapStore.store) (x : kb_store_vault_rewrap_result_t * TX * RewrapStore.store) : Prop :=
  RewrapStore.mutex_held x.2 = RewrapStore.mutex_held w /\ RewrapStore.durable x.2 = RewrapStore.durable w
  /\ (x.1.1 <> DB_OK -> RewrapStore.phase x.1.2 = RewrapStore.TX_FAILED).

Lemma query_frame {A} (f : RewrapSql.sql A) w :
  RewrapStore.mutex_held (RewrapStore.query f w).2 = RewrapStore.mutex_held w
  /\ RewrapStore.durable (RewrapStore.query f w).2 = RewrapStore.durable w.
Proof. unfold RewrapStore.query, RewrapStore.fault. cbn. repeat case_match; by split. Qed.

(** The branches of a statement after its query. *)
Ltac after_query :=
  repeat match goal with
  | |- context [RewrapStore.query ?f ?w] =>
      let Q1 := fresh "Q" in let Q2 := fresh "Q" in
      pose proof (query_frame f w) as [Q1 Q2]; destruct (RewrapStore.query f w) as [? ?]; cbn [snd] in Q1, Q2
  | |- context [bool_decide (?a = ?b)] => case_bool_decide; cbn [negb]
  | |- context [match ?b with _ => _ end] => destruct b
  end; by split_and!.

Lemma single_state_marks {A} p op f (q : RewrapSql.sql A) t w : marks w (RewrapStore.single_state p op f q t w).
Proof. unfold RewrapStore.single_state, RewrapStore.failed, marks. after_query. Qed.

Lemma void_query_marks f q t w : marks w (RewrapStore.void_query f q t w).
Proof. unfold RewrapStore.void_query, RewrapStore.failed, marks. after_query. Qed.

Lemma secret_page_marks v op f a l t w : marks w (answer (RewrapStore.secret_page v op f a l t w)).
Proof. unfold RewrapStore.secret_page, answer, marks. after_query. Qed.

Lemma check_page_marks v op f a l t w : marks w (answer (RewrapStore.check_page v op f a l t w)).
Proof. unfold RewrapStore.check_page, answer, marks. after_query. Qed.

Lemma perform_marks x t w : marks w (perform x t w).
Proof.
  assert (F : forall r, marks w (RewrapStore.failed r t w)) by (by intros r; split_and!).
  destruct x; cbn [perform RewrapStore.kb_store_vault_operator_rewrap_ops Rewrap.begin Rewrap.record_prepared
    Rewrap.source_secret_page Rewrap.source_check_page Rewrap.stage_dek Rewrap.stage_check Rewrap.inventory_summary
    Rewrap.stage_finish Rewrap.mark_committing Rewrap.mark_resealed Rewrap.promote Rewrap.abort Rewrap.recovery_required
    Rewrap.verify_summary Rewrap.verify_secret_page Rewrap.verify_check_page Rewrap.verify_crypto_ack Rewrap.complete].
  - unfold RewrapStore.begin. destruct (_ || _); [apply F|]. unfold RewrapStore.failed, marks. after_query.
  - unfold RewrapStore.record_prepared. destruct (RewrapStore.decode_receipt receipt); [apply single_state_marks | apply F].
  - unfold RewrapStore.source_secret_page. cbn zeta. destruct (_ || _); [by split_and!|].
    pose proof (secret_page_marks false op f a limit (RewrapStore.to_staging t) w) as (H1 & H2 & H3).
    destruct (RewrapStore.secret_page _ _ _ _ _ _ _) as [[[r rows] t'] w']. unfold marks in *. cbn in *. case_bool_decide; by split_and!.
  - unfold RewrapStore.source_check_page. cbn zeta. destruct (_ || _); [by split_and!|].
    pose proof (check_page_marks false op f a lim (RewrapStore.to_staging t) w) as (H1 & H2 & H3).
    destruct (RewrapStore.check_page _ _ _ _ _ _ _) as [[[r rows] t'] w']. unfold marks in *. cbn in *. case_bool_decide; by split_and!.
  - unfold RewrapStore.stage_dek. destruct (negb _); [apply F | apply void_query_marks].
  - unfold RewrapStore.stage_check. destruct (_ || _); [apply F | apply void_query_marks].
  - unfold RewrapStore.inventory_summary, answer, marks. after_query.
  - unfold RewrapStore.stage_finish. destruct (_ || _); [apply F | apply single_state_marks].
  - apply single_state_marks.
  - apply single_state_marks.
  - apply single_state_marks.
  - unfold RewrapStore.abort_op. destruct (bool_decide _); [apply F | apply single_state_marks].
  - unfold RewrapStore.recovery. destruct (bool_decide _); [apply F | apply single_state_marks].
  - unfold RewrapStore.verify_summary, answer, marks. after_query.
  - unfold RewrapStore.verify_secret_page. destruct (_ || _); [by split_and!|].
    pose proof (secret_page_marks true op f a limit t w) as (H1 & H2 & H3).
    destruct (RewrapStore.secret_page _ _ _ _ _ _ _) as [[[r rows] t'] w']. unfold marks in *. cbn in *. after_query.
  - unfold RewrapStore.verify_check_page. destruct (_ || _); [by split_and!|].
    pose proof (check_page_marks true op f a lim t w) as (H1 & H2 & H3).
    destruct (RewrapStore.check_page _ _ _ _ _ _ _) as [[[r rows] t'] w']. unfold marks in *. cbn in *. after_query.
  - unfold RewrapStore.verify_ack. destruct (_ || _); [apply F | by split_and!].
  - unfold RewrapStore.complete. destruct (_ || _); [apply F | apply single_state_marks].
Qed.

Lemma performs_marks xs t w : marks w (performs xs t w).
Proof.
  revert t w. induction xs as [|x xs IH]; intros t w; [by split_and!|]. cbn. pose proof (perform_marks x t w) as (H1 & H2 & H3).
  destruct (perform x t w) as [[r t'] w']. case_bool_decide; [|by split_and!]. cbn in *.
  destruct (IH t' w') as (K1 & K2 & K3). split_and!; [congruence | congruence | exact K3].
Qed.

Lemma tx_begin_opens w t w' : RewrapStore.tx_begin w = (DB_OK, Some t, w') ->
  RewrapStore.mutex_held w' = true /\ RewrapStore.durable w' = RewrapStore.durable w.
Proof.
  unfold RewrapStore.tx_begin. pose proof (ResealWorld.lock_store w) as (L1 & _ & _ & _ & L5 & _).
  destruct (RewrapStore.lock w) as [ok w1]. cbn [fst snd] in *. destruct ok; [|done]. cbn [negb].
  destruct (RewrapStore.transaction_active w1); [done|].
  pose proof (ResealWorld.command_store RewrapStore.BEGIN w1 ltac:(done)) as D.
  assert (M : RewrapStore.mutex_held (RewrapStore.command RewrapStore.BEGIN w1).2 = RewrapStore.mutex_held w1).
  { unfold RewrapStore.command, RewrapStore.fault. cbn. repeat case_match; done. }
  destruct (RewrapStore.command RewrapStore.BEGIN w1) as [ok w2]. cbn [snd] in *. destruct ok; [|done]. cbn [negb].
  unfold RewrapStore.fault. case_match; [destruct (RewrapStore.command _ _); done|]. intros [= _ <-].
  cbn. rewrite M, L5, D, L1. by split.
Qed.

End Outcome.
End ResealOutcome.
