(* ===== verification/ResealVerdict.v ===== *)
(** * The key change of the vault never loses a secret

    The three theorems on whole sequences of calls of [ResealOutcome], and a
    vault small enough to run: a TPM that keeps what it seals in the clear, a
    key wrap that appends a tag of the key, one secret and one check. *)

From Stdlib Require Import ZArith Lia String Ascii.
From stdpp Require Import base numbers option list gmap.
From S2P Require Import Prelude Wire ResealReceipt MutationBudget Rewrap RewrapSql RewrapStore ResealCustody CustodyFacts ResealSafe ResealRun ResealWorld ResealDrive ResealOutcome.

Module ResealVerdict.
Import Rewrap ResealRun.
Import ResealCustody (custody, nv, nv_authvalue, bundle).
Import CustodyFacts (live).
Import ResealSafe (rows_under).
Import ResealWorld (st, cust, db, cu, host).
Import ResealOutcome.
Open Scope Z_scope.

(** ** The theorems *)

Section Verdict.
Context {HS : Sha256} {HT : Tpm2} {HK : KeyWrap}.

(** C2: A key change never loses a secret.  Take a vault on which no change
    was begun, whose rows all open under the key its TPM blob holds, and any
    sequence of calls of the driver and restarts of the process, in which any
    statement, commit, TPM call, file operation, allocation or clock reading
    fails, also after it took effect, or finds its deadline passed; only the
    ends of transactions are sent in time (see [secrets_lost_after_late_ends]).
    The vault still has the same secrets,
    and a key the TPM opens now, from the blob in place or from the bundle,
    unwraps every one of them to its own data key, from its row or from the
    wrap one operation staged for it. *)
Theorem secrets_never_lost plain ids k w es :
  at_start plain ids k w -> ResealWorld.punctual (st w) ->
  let w' := exec es w in
  (RewrapSql.secrets (RewrapStore.durable (st w'))).*1 = ids
  /\ readable plain (RewrapStore.durable (st w')) (cust w').
Proof.
  intros H P. destruct (exec_ok plain ids es w (start_ok plain ids k w H P)) as [[S _] _].
  split; [apply S | by apply (safe_readable plain ids)].
Qed.

(** C8: A call of the driver that reports completion, after any sequence of
    calls and restarts with any faults in which the ends of transactions are
    sent in time (see [completion_not_durable]), has completed the operation: it is
    durably in its last state, and every row of the vault, of the secrets the
    vault had, opens to its own data key under the key the TPM now opens. *)
Theorem completion_reported_truly plain ids k w es req b t :
  at_start plain ids k w -> ResealWorld.punctual (st w) ->
  let x := run db cu host req b t (exec es w) in
  x.1.1 = OR_COMPLETED ->
  exists o k', RewrapSql.operations (RewrapStore.durable (st x.2)) !! rq_operation_id req = Some o
    /\ RewrapSql.o_state o = RW_COMPLETED
    /\ live (cust x.2) k' /\ rows_under plain k' (RewrapStore.durable (st x.2))
    /\ (RewrapSql.secrets (RewrapStore.durable (st x.2))).*1 = ids.
Proof.
  intros H P x E. destruct (run_says plain ids req b t (exec es w)) as [[[S _] _] C]; [by apply exec_ok, (start_ok plain ids k)|].
  destruct (C E) as (o & Ho & Eo). destruct (ResealSafe.safe_situation plain ids _ _ _ o RW_COMPLETED S Ho Eo) as (D & _ & T); [done..|].
  inversion T as [| | | | | |k1 L R]. exists o, k1. split_and!; try done. apply D.
Qed.

(** C24: A statement that fails in a transaction of the operator's store ends
    the service of key changes in this process.  Take any state in which a
    transaction is opened, any statements performed in it of which the last
    one fails, for whatever reason, and the rollback that follows.  The
    rollback does nothing: the mutex stays locked, so that, until the process
    is started again, no later call of the driver reports completion or
    changes the database. *)
Theorem wedged_until_restart w t s0 xs r t1 s1 es req b th :
  RewrapStore.tx_begin (st w) = (DB_OK, Some t, s0) ->
  performs xs t s0 = (r, t1, s1) -> r <> DB_OK ->
  Forall (fun e => e <> Restart) es ->
  let w1 := ResealWorld.set_store (RewrapStore.tx_rollback (Some t1) s1).2 w in
  let x := run db cu host req b th (exec es w1) in
  RewrapStore.mutex_held (st w1) = true
  /\ x.1.1 <> OR_COMPLETED /\ RewrapStore.durable (st x.2) = RewrapStore.durable (st w)
  /\ RewrapStore.mutex_held (st x.2) = true.
Proof.
  intros B E Hr He w1 x. apply tx_begin_opens in B as [B1 B2]. pose proof (performs_marks xs t s0) as (P1 & P2 & P3).
  rewrite E in P1, P2, P3. cbn in P1, P2, P3. specialize (P3 Hr).
  assert (R : st w1 = s1).
  { unfold w1. cbn. unfold RewrapStore.tx_valid, RewrapStore.in_phase. by rewrite P3. }
  assert (H1 : RewrapStore.mutex_held (st w1) = true) by congruence.
  assert (H2 : RewrapStore.durable (st w1) = RewrapStore.durable (st w)) by congruence.
  destruct (wedged_exec es w1 He H1) as [M D]. rewrite H2 in D. split; [done|].
  by destruct (wedged_run _ req b th (exec es w1) M D) as (? & ? & ?).
Qed.

End Verdict.

(** ** A vault to run *)

Definition tag (k : bytes) : bytes := put_u64 (foldr (fun x a => (257 * a + x + 1) mod 2 ^ 64) 0 k).

Definition sample_create (data : bytes) (gen : Z) (auth e : bytes) : bytes * bytes :=
  (put_u64 gen, (tag auth ++ data)%list).
Definition sample_unseal (pub priv auth : bytes) (bound_gen live : Z) : option bytes :=
  if bytes_eqb pub (put_u64 bound_gen) && (bound_gen =? live) && bytes_eqb (take 8 priv) (tag auth)
  then Some (drop 8 priv) else None.

Lemma tag_length k : length (tag k) = 8%nat.
Proof. apply put_u64_length. Qed.

#[refine] Definition sample_tpm : Tpm2 := {|
  tpm_create := sample_create;
  tpm_unmarshals := fun pub priv => (length pub =? 8)%nat;
  tpm_public_fits := fun gen pub => bytes_eqb pub (put_u64 gen);
  tpm_unseal := sample_unseal
|}.
Proof.
  - intros data gen auth e _. cbn. by rewrite put_u64_length.
  - intros data gen auth e H. cbn. unfold zlen. rewrite length_app, tag_length, put_u64_length. lia.
  - intros data gen auth e _. unfold sample_unseal. cbn. rewrite take_app_length', drop_app_length' by by rewrite tag_length.
    unfold bytes_eqb. by rewrite !bool_decide_eq_true_2, Z.eqb_refl.
Defined.

Definition sample_wrap (kek dek : bytes) : option bytes := Some (dek ++ tag kek)%list.
Definition sample_unwrap (kek w : bytes) : option bytes :=
  let n := (length w - 8)%nat in if bytes_eqb (drop n w) (tag kek) then Some (take n w) else None.

#[refine] Definition sample_keywrap : KeyWrap := {|
  aes_256_wrap := sample_wrap; aes_256_unwrap := sample_unwrap; hkdf_sha256 := fun root salt info => root
|}.
Proof.
  - intros kek dek w [= <-]. by rewrite length_app, tag_length.
  - intros kek dek w [= <-]. unfold sample_unwrap. rewrite length_app, tag_length, Nat.add_sub.
    rewrite take_app_length', drop_app_length' by done. unfold bytes_eqb. by rewrite bool_decide_eq_true_2.
Defined.

#[local] Existing Instances toy sample_tpm sample_keywrap.

Definition old_key : bytes := replicate 32 7.
Definition secret_key : bytes := replicate 32 42.
Definition sample_secret : bytes := str "operator".
Definition sample_auth : bytes := ResealCustody.derive_authvalue sample_secret.
Definition wrapped (k d : bytes) : bytes := (d ++ tag k)%list.

Definition sample_database : RewrapSql.database :=
  {| RewrapSql.ctl := {| RewrapSql.c_sealed := false; RewrapSql.c_seal_epoch := 1; RewrapSql.c_fencing_token := 1;
                         RewrapSql.c_maintenance_kind := []; RewrapSql.c_maintenance_id := [];
                         RewrapSql.c_last_opened_rewrap_fence := 0 |};
     RewrapSql.operations := ∅;
     RewrapSql.secrets := [(5, {| RewrapSql.s_principal := str "alice"; RewrapSql.s_agent := str "a"; RewrapSql.s_cred := str "c";
                                  RewrapSql.s_version := 1; RewrapSql.s_wrapped_dek := wrapped old_key secret_key |})];
     RewrapSql.salts := [(str "alice", default [] (ResealCustody.vault_kek_check_wrap old_key))];
     RewrapSql.deks := ∅; RewrapSql.checks := ∅; RewrapSql.worm := ∅; RewrapSql.rotation_active := false |}.

Definition sample_blob : bytes :=
  let x := sample_create (old_key ++ put_u64 3)%list 3 sample_auth [] in ResealCustody.blob_bytes 3 x.1 x.2.

(** [db_faults], [late] and [tpm_faults] are what fails. *)
Definition sample_world (db_faults : list Z) (late : list bool) (tpm_faults : list Z) : ResealWorld.world :=
  {| st := {| RewrapStore.durable := sample_database; RewrapStore.session := None; RewrapStore.mutex_held := false;
              RewrapStore.transaction_active := false; RewrapStore.uncertain := false; RewrapStore.faults := db_faults;
              RewrapStore.late_ends := late |};
     cust := {| ResealCustody.nv := 3; ResealCustody.nv_authvalue := sample_auth; ResealCustody.blob := Some sample_blob;
                ResealCustody.bundle := None; ResealCustody.nv_auth := None; ResealCustody.sealed := true;
                ResealCustody.kek_ready := false; ResealCustody.kek := replicate 32 0; ResealCustody.owned_guard := false;
                ResealCustody.use_epoch := 1; ResealCustody.primary_epoch := None;
                ResealCustody.entropy := [replicate 32 9]; ResealCustody.faults := tpm_faults |};
     ResealWorld.clock := []; ResealWorld.memory := [] |}.

Definition sample_request (mode : vault_reseal_orchestrator_mode_t) : vault_reseal_orchestrator_request_t :=
  {| rq_mode := mode; rq_operation_id := replicate 16 1; rq_actor := str "uid:0";
     rq_request_id := replicate 32 97; rq_provider_secret := sample_secret; rq_budget := 1%positive |}.
Definition sample_budget : MutationBudget.vault_mutation_budget_t := (MutationBudget.vault_mutation_budget_init_with_clock 0).2.
Definition sample_thread : MutationBudget.thread :=
  {| MutationBudget.current_budget := None; MutationBudget.current_depth := 0 |}.
Definition sample_run (mode : vault_reseal_orchestrator_mode_t) (w : ResealWorld.world) :=
  run db cu host (sample_request mode) sample_budget sample_thread w.

Definition sample_plain (id : Z) : bytes := secret_key.

Lemma sample_starts df lt tf : at_start sample_plain [5] old_key (sample_world df lt tf).
Proof.
  split; try done.
  - apply Forall_singleton. by vm_compute.
  - exists sample_blob. split; [done|]. by vm_compute.
Qed.

Definition a_run (mode : vault_reseal_orchestrator_mode_t) : event := Run (sample_request mode) sample_budget sample_thread.

(** The whole change, when nothing fails. *)
Example sample_completes : (sample_run MODE_START (sample_world [] [] [])).1.1 = OR_COMPLETED.
Proof. vm_compute. reflexivity. Qed.

(** The counter advances, its response is lost, and the process dies before
    the new blob is in place. *)
Definition crash_world : ResealWorld.world := sample_world [] [] (replicate 85 0 ++ [2; 1; 1])%list.
Definition crash_events : list event := [a_run MODE_START; Restart].

Lemma secrets_never_lost_witness :
  let w' := exec crash_events crash_world in
  nv (cust w') = 4 /\ ResealCustody.blob (cust w') = Some sample_blob
  /\ (RewrapSql.secrets (RewrapStore.durable (st w'))).*1 = [5]
  /\ readable sample_plain (RewrapStore.durable (st w')) (cust w').
Proof.
  split; [vm_compute; reflexivity|]. split; [vm_compute; reflexivity|].
  apply (secrets_never_lost sample_plain [5] old_key crash_world crash_events);
    [apply sample_starts | by apply Forall_nil].
Defined.

(** The next call takes it up and completes it. *)
Lemma completion_reported_truly_witness :
  let x := run db cu host (sample_request MODE_RESUME) sample_budget sample_thread (exec crash_events crash_world) in
  x.1.1 = OR_COMPLETED /\
  exists o k', RewrapSql.operations (RewrapStore.durable (st x.2)) !! rq_operation_id (sample_request MODE_RESUME) = Some o
    /\ RewrapSql.o_state o = RW_COMPLETED
    /\ live (cust x.2) k' /\ rows_under sample_plain k' (RewrapStore.durable (st x.2))
    /\ (RewrapSql.secrets (RewrapStore.durable (st x.2))).*1 = [5].
Proof.
  pose proof (completion_reported_truly sample_plain [5] old_key crash_world crash_events (sample_request MODE_RESUME)
    sample_budget sample_thread (sample_starts _ _ _) (proj2 (Forall_nil _) I)) as H.
  cbv zeta in H |- *. split; [vm_compute; reflexivity|]. apply H. vm_compute. reflexivity.
Defined.

(** The reservation of an operation meets a serialization failure. *)
Definition conflict_world : ResealWorld.world := sample_world [0; 0; 0; 2] [] [].
Definition conflict_open := RewrapStore.tx_begin (st conflict_world).
Definition conflict_statements : list statement :=
  [S_begin (str "uid:0") (replicate 32 97) (replicate 16 1) 3 4].
Definition conflict_end := performs conflict_statements RewrapStore.tx_zero conflict_open.2.

Lemma wedged_until_restart_witness :
  let w1 := ResealWorld.set_store (RewrapStore.tx_rollback (Some conflict_end.1.2) conflict_end.2).2 conflict_world in
  let x := run db cu host (sample_request MODE_RESUME) sample_budget sample_thread (exec [a_run MODE_RESUME; a_run MODE_START] w1) in
  conflict_end.1.1 = DB_TRANSIENT
  /\ RewrapStore.mutex_held (st w1) = true
  /\ x.1.1 <> OR_COMPLETED /\ RewrapStore.durable (st x.2) = RewrapStore.durable (st conflict_world)
  /\ RewrapStore.mutex_held (st x.2) = true.
Proof.
  pose proof (wedged_until_restart conflict_world RewrapStore.tx_zero conflict_open.2 conflict_statements
    conflict_end.1.1 conflict_end.1.2 conflict_end.2 [a_run MODE_RESUME; a_run MODE_START]
    (sample_request MODE_RESUME) sample_budget sample_thread) as H.
  cbv zeta in H |- *. split; [vm_compute; reflexivity|]. apply H.
  - vm_compute. reflexivity.
  - unfold conflict_end. by destruct (performs _ _ _) as [[? ?] ?].
  - vm_compute. discriminate.
  - repeat constructor; discriminate.
Defined.

(** ** Ends of transactions that are late *)

(** The commits of three calls find their deadline passed: each call goes on
    in the transaction the one before left open and takes what it reads there
    for durable, the third one advances the TPM, and the process dies.  The
    database is where it was before anything was staged, and no key the TPM
    opens reads the secret. *)
Definition late_world : ResealWorld.world := sample_world [] [false; false; true; true; true] [].
Definition late_events : list event := [a_run MODE_START; a_run MODE_RESUME; a_run MODE_RESUME; Restart].

Lemma late_keys k : key_at_hand (cust (exec late_events late_world)) k -> k = replicate 32 9.
Proof.
  intros [(b & E & K)|(b & (bs & E & P) & K)]; vm_compute in E; injection E as <-.
  - vm_compute in K. by injection K as <-.
  - vm_compute in P. injection P as <-. vm_compute in K. by injection K as <-.
Qed.

Theorem secrets_lost_after_late_ends :
  at_start sample_plain [5] old_key late_world
  /\ ~ readable sample_plain (RewrapStore.durable (st (exec late_events late_world))) (cust (exec late_events late_world)).
Proof.
  split; [apply sample_starts|]. intros (k & H & [R|(op & _ & A)]).
  - apply late_keys in H as ->. vm_compute in R. by inversion R.
  - vm_compute in A. apply Forall_singleton in A as [x Hx]. vm_compute in Hx. done.
Qed.

(** The commit of the last edge finds its deadline passed: the next call
    reports completion, and the operation is not completed. *)
Definition late_completion : ResealWorld.world := exec [a_run MODE_START] (sample_world [] (replicate 6 false ++ [true])%list []).

Theorem completion_not_durable :
  let x := sample_run MODE_RESUME late_completion in
  x.1.1 = OR_COMPLETED
  /\ RewrapSql.o_state <$> RewrapSql.operations (RewrapStore.durable (st x.2)) !! replicate 16 1 = Some RW_PROMOTED.
Proof. vm_compute. by split. Qed.

End ResealVerdict.
